(* ===== verification/_CoqProject ===== *)
-Q . S2P
Prelude.v
Registry.v
Leases.v
LspState.v
Executor.v
Positions.v
Paths.v
Scope.v
Json.v
Envelopes.v
Schema.v
Replies.v
Service.v
Coupling.v
ServiceProps.v
Compact.v
Normalize.v
Navigation.v
Editing.v
EditLogic.v
EditingProps.v
JsonLoads.v
Framing.v
Client.v
FileSystem.v
Identity.v
PathTree.v
Inventory.v
InventoryProps.v
Threads.v
RuntimeState.v
Freshness.v
FreshReads.v
FreshProps.v
Admission.v
Delivery.v
Cleanup.v
FreshRuns.v
AdapterState.v
Adapter.v
AdapterProps.v
AdapterSync.v
AdapterRuns.v
Selection.v
Diagnostics.v
DiagnosticsAdapter.v
References.v
Declarations.v
GlobalSymbols.v
CompactAdapter.v
Presentation.v
Recovery.v
PythonRecovery.v
TypeScriptRecovery.v
Attribution.v
PyrightFacts.v
