(* ===== verification/Prelude.v ===== *)
(** * A verification library for serena-light

    serena-light is a Python daemon that serves semantic code navigation to
    several clients at once. A client holds a daemon lease and binds it to a
    workspace; each workspace has one shared runtime that owns language
    servers; a bounded executor serialises the requests to a server; document
    and diagnostic state is tracked by generation; raw LSP answers are
    normalized into symbol trees, mapped from LSP positions to source text, and
    rendered as bounded, canonical JSON inside typed envelopes. The library
    models these parts as executable definitions and proves what makes each of
    them correct. Source paths below are relative to [src/src/serena_light].

    ** Files

    - [Prelude] (this file): results and exceptions ([res], and [PyM] for a
      method that mutates its object and may raise, keeping the state reached),
      strings as lists of code points, Python's order on integers, strings and
      tuples with a stable [sorted], and insertion-ordered dictionaries, each
      with its laws.
    - [Registry] models [workspace/registry.py]: sessions, workspace leases
      and reference-counted runtimes, with two-phase activation.
    - [Leases] models [daemon/leases.py]: daemon leases with heartbeats,
      expiry, workspace holders and grace deadlines.
    - [LspState] models [lsp/state.py]: document versions, published
      diagnostics and generation counters.
    - [Executor] models [lsp/executor.py]: the edit-commit state and the bounded
      queue with its worker, its closer and its clients as a step relation.
    - [Positions] models [lsp/positions.py]: the UTF-8 snapshot, line tables,
      and the conversions between LSP positions, text offsets and byte offsets
      in the three encodings.
    - [Paths]: what the sources use of [posixpath] and [PurePosixPath].
    - [Scope] models [workspace/scope.py]: projection of an engine's program
      against the trusted inventory, and the readiness tracker with its bounded
      wait.
    - [Json]: [json.dumps] in the compact form of [tools/compact.py].
    - [Envelopes] models [tools/envelopes.py]: the guarded JSON copy, metadata,
      success and error envelopes, and the conversions of failures.
    - [Compact] models [tools/compact.py]: compact records, their order and
      grouping, and the bounded renderers of flat records and overviews.
    - [Normalize] models [lsp/normalize.py]: locations, symbol trees with
      overload segments and name paths, containment and reparenting.
    - [Navigation] models [tools/navigation.py]: name-path patterns, the
      document overview, symbol lookup in a document and in a directory, and the
      service around a document provider.
    - [Schema]: the published JSON schema of [tools/envelopes.py] and its
      validation.
    - [Replies], [Service], [Coupling], [ServiceProps] model
      [daemon/service.py]: the reply data and the translation of failures; the
      handlers as a step relation over the registry and the lifecycle with the
      waiters of the binding lock; the invariant that couples the two; the
      theorems.
    - [Editing], [EditLogic], [EditingProps] model [tools/editing.py] and
      [open_guarded_directory] of [workspace/identity.py]: programs over
      operating-system calls; executions, monitors and a weakest precondition
      for them; the theorems.
    - [JsonLoads], [Framing], [Client] model [lsp/protocol.py] and the transport
      of [lsp/client.py]: [json.loads], the header and body framing over a stream
      that answers reads in pieces, and the client as a step relation of its
      reader, its callers and the failure of the transport.
    - [FileSystem], [Identity] model [workspace/identity.py]: a file system with
      links and the resolution of paths in it; workspace identity, the trust
      policy, and the authorization of reads and edits.
    - [PathTree], [Inventory], [InventoryProps] model [workspace/inventory.py]:
      the compact tree of paths, the Git listing and the bounded walk, guarded
      observation of files, and targeted states.
    - [Threads]: threads of a shared state that may be interrupted between any two
      steps, with exceptions, external calls, a rely condition on the other
      threads, pools of threads and what their steps guarantee.
    - [RuntimeState], [Freshness], [FreshReads] model the freshness coordinator,
      the installation of a scan, owed adapter restarts and retirements, the read
      transaction and the shutdown of [workspace/runtime.py]; [FreshProps],
      [Admission], [Delivery], [Cleanup] hold the theorems and [FreshRuns] a
      concrete workspace they are applied to.
    - [AdapterState], [Adapter] model [LanguageAdapter] of [lsp/adapter.py] with the
      hooks of [_WorkspaceLanguageAdapter]: phases, crashes and the cooldown, the
      lazy start, stop and restart of the server, the documents open on it,
      readiness and publications, as jobs of a worker beside other threads;
      [AdapterProps] and [AdapterSync] hold the theorems and [AdapterRuns] an
      adapter they are applied to.
    - [Selection]: how the semantic tools select symbols by a name path, and the
      lemmas on truncated answers they share.
    - [Diagnostics], [DiagnosticsAdapter] model [tools/diagnostics.py] and
      [tools/diagnostics_adapter.py]: the diagnostics of a file and of a symbol
      over a published snapshot, and their compact form.
    - [References] models [tools/references.py]: classification, loading and
      rendering of the references a server found.
    - [Declarations] models [tools/declarations.py]: the declaration of a located
      occurrence and the implementations of a symbol, gated by capabilities.
    - [GlobalSymbols] models [tools/global_symbols.py]: candidates of the language
      servers verified against the symbols of their documents.
    - [CompactAdapter] models [tools/compact_adapter.py]: full navigation envelopes
      read into the records of [Compact]; [Presentation] models
      [tools/presentation.py]: failures as bounded correction payloads.
    - [Recovery], [PythonRecovery], [TypeScriptRecovery] model
      [lsp/python_assignment_recovery.py] and
      [lsp/typescript_assignment_recovery.py]: variables whose reported ranges are
      only their identifiers, extended to their statements or classified as
      incomplete for [Normalize].
    - [Attribution] models the scope attribution of [lsp/typescript.py]: the paths
      tsserver reports, on the file system of [FileSystem], accepted or rejected and
      projected by [Scope], and the choice of the entry file; [PyrightFacts] models
      [lsp/pyright.py]: the validated report on the files Pyright owns and its
      projection, providers, configuration answers and definition locations.

    Definitions keep the names of the source; a class is a record, its
    [__post_init__] a function [*_init] that returns the checked value or the
    exception, its [to_dict] a function [*_dict]. A loop that is not structural
    has a helper of its own named in the comment above it.

    ** What is proved

    - Ownership ([Registry], [Leases]): the registry's reference counts and
      bindings agree in every reachable state, every operation does to an abstract
      map from sessions to workspaces what it is specified to, and no runtime in
      use is retired; the lease
      lifecycle keeps holders, deadlines and live leases consistent, stops only
      unheld runtimes, expires exactly at the boundary, and never revives a
      lease.
    - The service ([ServiceProps]): in every interleaving of handlers with the
      suspended activations, the registry and the lifecycle agree (the registry is
      ahead only while a rebinding is in progress), a reference
      count is the number of holders plus what is in flight, and a runtime that is
      being stopped is unused; without an overtaken cleanup nothing is stranded,
      and one race that does strand a runtime is shown. [Replies]: what a
      semantic call may answer.
    - State ([LspState]): the diagnostics shown are determined by the accepted
      history, name the live document, and generations only grow.
    - Execution ([Executor]): queue bounds and admission, nothing left behind on
      exit, termination of shutdown, submission order, and the forward-only
      commit state.
    - Positions ([Positions]): round trips between the three coordinate systems,
      the exact set of offsets without a position, losslessness of snapshots.
    - Scope ([Scope]): confinement of paths, exactness and determinism of the
      differences, monotone generations, revocation of readiness, and a wait
      that is bounded and truthful.
    - Results ([Json], [Envelopes], [Schema]): the canonical text identifies a
      value, error envelopes are closed, every envelope validates against the
      published schema, and one conversion raises where it promises a value.
    - Compact answers ([Compact]): answers fit the budget, show the longest
      prefix, do not depend on discovery order, retry succeeds with the reported
      minimum, and overview pruning terminates without hollow ancestors.
    - Navigation ([Normalize], [Navigation]): well-formed symbol trees with
      unique name paths, a lookup that never guesses, and name paths that select
      what they name.
    - Editing ([EditingProps]): whatever the file system does, the installed
      bytes are the exact splice of a file with the expected hash, the reply and
      the commit state tell whether they are in, and no descriptor or temporary
      entry is left behind; the one path that leaks a descriptor is shown.
    - Transport ([Framing], [Client]): messages survive framing whatever the sizes
      of the reads; a response reaches only its own request, a terminal transport
      wakes every caller, only reads are retried, and a duplicate response that
      blocks the reader is shown.
    - Trust ([Identity], [Inventory], [InventoryProps], [PathTree]): on a file
      system that holds still, the authorizations of reads and edits are exact, an
      inventory grants exactly what it lists, the bounded walk lists exactly the
      files its limits admit, the digest of an observed file is that of all the bytes
      read in either of two complete passes, and the tree stores a set of paths.
    - Freshness ([FreshProps], [Admission], [Delivery], [Cleanup]): in every
      interleaving of the threads of a workspace the version marks every commit of
      file identities and scans take turns by ticket; an admission reports the files
      its own scan saw; a read is answered only if nothing was committed and no byte
      it used changed between its two scans; a watcher batch is owned until its
      delivery is confirmed; a stop during which no scan settles a cleanup ends
      with every adapter stopped or with all of them still owned.
    - Language servers ([AdapterProps], [AdapterSync]): beside any other thread,
      along any sequence of jobs, an adapter has at most one server and starts none
      once it is sealed; while a connection is alive, the server's open documents
      are the adapter's, opened, changed and closed in the order the protocol
      demands, and at most 128; a warm-up that cuts a cooldown short is shown.
    - Semantic tools ([Diagnostics], [DiagnosticsAdapter], [References],
      [Declarations], [GlobalSymbols]): diagnostics answers report the last accepted
      publication of the requested generation and never a false clean, and their
      compact form accounts for every finding; references are listed once each and
      each file is loaded once; a declaration is asked for at the one occurrence
      located, and the requesting seam of the adapter is called at most once, for
      what the server advertises; global
      symbols are verified, inside the configured program, and cost a bounded number
      of requests. Where limits or overloads break an answer, examples show it.
    - Answers to the client ([CompactAdapter], [Presentation]): every navigation
      call on a mapping ends with an answer within its budget; the filters of an overview keep
      exactly the matches and the names above them; a correctable failure is always
      shown with its code, message and recovery action, and the candidates of an
      ambiguity are all accounted for.
    - Assignment ranges ([PythonRecovery], [TypeScriptRecovery]): a variable is
      extended exactly to the one assignment, or to a reported range whose text
      declares its name, and otherwise its identifier is never passed off as its
      body; lines and byte columns of [ast] are those of the snapshot.
    - Native programs ([Attribution], [PyrightFacts]): the configured program of
      TypeScript is exactly the reported regular sources of the workspace reached
      without links and outside [node_modules], and what else is reported there is
      rejected, [node_modules] apart; that of Python
      exists only for a report whose names, count and digest agree, none of its
      sources lying outside the workspace; both are usable exactly when each of
      their paths is in the trust inventory (and, for TypeScript, none is rejected).

    ** Bounds and parameters

    Clock readings, identifiers from [uuid4], SHA-256, [urlparse], [unquote],
    the runtime factory, the document provider and adapter callbacks are
    parameters, and so are [ast.parse], [re.compile] with [finditer], the character classes
    of [str.isdigit] and [str.isspace], and what a float or an opaque object equals; the seams of the semantic tools act on an
    arbitrary world and may answer or raise anything; a theorem that needs something of one of them says so (a digest
    is 64 hexadecimal digits; the clock is totally ordered). Two recursions carry
    fuel: [Compact.overview_loop] takes one more than the number of nodes, which
    is enough because every pass removes one, and
    [Normalize._normalize_siblings] takes the nesting depth of the raw value,
    which is enough because children are nested strictly deeper; both facts are
    proved. The reads of a file carry fuel ([read_fuel]): a file that is not at its
    end after that many pieces is one whose digest is never known. [json.loads]
    takes the recursion limit of the interpreter as a parameter, path resolution
    gives up after the 40 links of the kernel, the bounded walk takes the height of
    the file system, and a fresh read makes the two attempts of the source. A thread
    is a finite tree, so it ends if its guards let it go on; the eviction of documents
    takes one more than the number of open documents, which is enough because every
    pass removes one (part of the proof of [server_documents_in_sync]). The readiness
    wait runs along the list of states its condition variable wakes up in. Integers are unbounded, as in Python.

    ** Not modelled

    Process entry points, HTTP transport, subprocess management and the offline
    evaluation scripts are I/O around the parts above. Of [workspace/runtime.py]
    the routing of the tool operations, the notification state and the semantic
    providers are not modelled, nor are the texts of exception messages, the cache
    of attributors and the branch of [notify_watched_files] for adapters without
    [reconcile_watched_files]. Of [lsp/adapter.py] the provider that starts
    subprocesses, the capture of stderr and the reasons of phase transitions are not,
    nor are the locked paths and initialize parameters of the engines, the pipes to
    the direct tsserver and the run of the Pyright probe in [lsp/pyright.py] and
    [lsp/typescript.py], whose answers are parameters.
    The runtime status and the source budget report on processes and files of the
    host and are not modelled either. *)

From stdpp Require Export base numbers list option gmap sets strings sorting.
From Stdlib Require Import Ascii.

#[global] Open Scope Z_scope.
#[global] Set Default Goal Selector "!".

(** ** Results and exceptions

    A Python function that may raise returns a [res]; a method that mutates
    its object and may raise is a [PyM]: the state reached when the exception
    leaves the method is kept, as Python keeps it. *)

Inductive res (E A : Type) : Type :=
| Ok (a : A)
| Err (e : E).
Arguments Ok {E A} a.
Arguments Err {E A} e.

#[export] Instance res_ret {E} : MRet (res E) := λ A a, Ok a.
#[export] Instance res_bind {E} : MBind (res E) :=
  λ A B f r, match r with Ok a => f a | Err e => Err e end.
#[export] Instance res_eq_dec {E A} `{EqDecision E, EqDecision A} : EqDecision (res E A).
Proof. solve_decision. Defined.

Lemma res_bind_Ok {E A B} (r : res E A) (f : A → res E B) b :
  r ≫= f = Ok b → ∃ a, r = Ok a ∧ f a = Ok b.
Proof. destruct r as [a|e]; simpl; [eauto|done]. Qed.

(** [if not b: raise e] *)
Definition ensure {E} (b : bool) (e : E) : res E unit := if b then Ok tt else Err e.

Definition is_ok {E A} (r : res E A) : bool := match r with Ok _ => true | Err _ => false end.

Fixpoint map_res {E A B} (f : A → res E B) (l : list A) : res E (list B) :=
  match l with
  | [] => Ok []
  | x :: l => y ← f x; ys ← map_res f l; Ok (y :: ys)
  end.

Definition PyM (S E A : Type) : Type := S → S * res E A.

Definition py_ret {S E A} (a : A) : PyM S E A := λ s, (s, Ok a).
Definition py_raise {S E A} (e : E) : PyM S E A := λ s, (s, Err e).
Definition py_bind {S E A B} (m : PyM S E A) (k : A → PyM S E B) : PyM S E B :=
  λ s, match m s with
       | (s', Ok a) => k a s'
       | (s', Err e) => (s', Err e)
       end.
Definition py_get {S E} : PyM S E S := λ s, (s, Ok s).
Definition py_modify {S E} (f : S → S) : PyM S E unit := λ s, (f s, Ok tt).
Definition py_lift {S E A} (r : res E A) : PyM S E A := λ s, (s, r).

Lemma py_bind_assoc {S E A B C} (m : PyM S E A) (f : A → PyM S E B) (g : B → PyM S E C) s :
  py_bind (py_bind m f) g s = py_bind m (λ a, py_bind (f a) g) s.
Proof. unfold py_bind. by destruct (m s) as [s' [a|e]]. Qed.

Declare Scope py_scope.
Delimit Scope py_scope with py.
Notation "'let!' x := m 'in' k" := (py_bind m (λ x, k))
  (at level 10, x pattern, m at level 100, k at level 200) : py_scope.
Notation "m ;; k" := (py_bind m (λ _, k))
  (at level 100, k at level 200, right associativity) : py_scope.

(** ** Strings

    A Python [str] is the list of its code points. [lit] embeds an ASCII
    literal of the source. *)

Abbreviation pystr := (list N).

Definition lit (s : string) : pystr := N_of_ascii <$> String.list_ascii_of_string s.

Definition nonempty {A} (l : list A) : bool := match l with [] => false | _ => true end.

(** ** Python ordering

    [<=] on integers, strings and tuples; [sorted] is a stable sort, modelled
    by insertion from the right (an element goes before the equal ones that
    came after it). *)

Class PyOrd (A : Type) := py_leb : A → A → bool.
#[export] Hint Mode PyOrd ! : typeclass_instances.

Class PyOrdLaws (A : Type) `{PyOrd A} := {
  py_leb_total : ∀ x y : A, py_leb x y = true ∨ py_leb y x = true;
  py_leb_trans : ∀ x y z : A, py_leb x y = true → py_leb y z = true → py_leb x z = true;
  py_leb_antisym : ∀ x y : A, py_leb x y = true → py_leb y x = true → x = y;
}.

Definition py_ltb {A} `{PyOrd A} (x y : A) : bool := negb (py_leb y x).

#[export] Instance PyOrd_Z : PyOrd Z := Z.leb.
#[export] Instance PyOrd_N : PyOrd N := N.leb.
#[export] Instance PyOrd_nat : PyOrd nat := Nat.leb.
#[export] Instance PyOrd_prod {A B} `{PyOrd A, PyOrd B} : PyOrd (A * B) :=
  λ p q, if py_leb p.1 q.1
         then (if py_leb q.1 p.1 then py_leb p.2 q.2 else true)
         else false.

Fixpoint list_leb {A} `{PyOrd A} (l k : list A) : bool :=
  match l, k with
  | [], _ => true
  | _ :: _, [] => false
  | x :: l, y :: k => if py_leb x y then (if py_leb y x then list_leb l k else true) else false
  end.
#[export] Instance PyOrd_list {A} `{PyOrd A} : PyOrd (list A) := list_leb.

Fixpoint insert_by {A K} `{PyOrd K} (key : A → K) (x : A) (l : list A) : list A :=
  match l with
  | [] => [x]
  | y :: l' => if py_leb (key x) (key y) then x :: l else y :: insert_by key x l'
  end.

Definition py_sorted {A K} `{PyOrd K} (key : A → K) (l : list A) : list A :=
  foldr (insert_by key) [] l.

(** *** Laws *)

#[export] Instance PyOrdLaws_Z : PyOrdLaws Z.
Proof. split; unfold py_leb, PyOrd_Z; intros *; rewrite ?Z.leb_le; lia. Qed.
#[export] Instance PyOrdLaws_N : PyOrdLaws N.
Proof. split; unfold py_leb, PyOrd_N; intros *; rewrite ?N.leb_le; lia. Qed.
#[export] Instance PyOrdLaws_nat : PyOrdLaws nat.
Proof. split; unfold py_leb, PyOrd_nat; intros *; rewrite ?Nat.leb_le; lia. Qed.

Section order_facts.
Context {A : Type} `{PyOrdLaws A}.
Implicit Types x y z : A.

Lemma py_leb_refl x : py_leb x x = true.
Proof. by destruct (py_leb_total x x). Qed.

Lemma py_ltb_leb x y : py_ltb x y = true → py_leb x y = true.
Proof. unfold py_ltb. destruct (py_leb_total x y); [done|]. by rewrite H1. Qed.

Lemma py_ltb_irrefl x : py_ltb x x = false.
Proof. unfold py_ltb. by rewrite py_leb_refl. Qed.

Lemma py_ltb_alt x y : py_ltb x y = true ↔ py_leb x y = true ∧ x ≠ y.
Proof.
  split.
  - intros Hlt. split; [by apply py_ltb_leb|]. intros ->. by rewrite py_ltb_irrefl in Hlt.
  - intros [Hle Hne]. unfold py_ltb. destruct (py_leb y x) eqn:E; [|done].
    destruct Hne. by apply py_leb_antisym.
Qed.

Lemma py_ltb_trans x y z : py_ltb x y = true → py_ltb y z = true → py_ltb x z = true.
Proof.
  rewrite !py_ltb_alt. intros [??] [??]. split; [by eapply py_leb_trans|].
  intros ->. by assert (z = y) by (by apply py_leb_antisym).
Qed.

Lemma py_ltb_leb_trans x y z : py_ltb x y = true → py_leb y z = true → py_ltb x z = true.
Proof.
  rewrite !py_ltb_alt. intros [Hxy Hne] Hyz. split; [by eapply py_leb_trans|].
  intros ->. apply Hne. by apply py_leb_antisym.
Qed.

Lemma py_leb_false x y : py_leb x y = false → py_ltb y x = true.
Proof. unfold py_ltb. by intros ->. Qed.
End order_facts.

Lemma py_leb_pair {A B} `{PyOrd A, PyOrd B} (a a' : A) (b b' : B) :
  py_leb (a, b) (a', b') =
  (if py_leb a a' then (if py_leb a' a then py_leb b b' else true) else false).
Proof. done. Qed.

Lemma py_leb_cons {A} `{PyOrd A} (x y : A) l k :
  py_leb (x :: l) (y :: k) =
  (if py_leb x y then (if py_leb y x then py_leb l k else true) else false).
Proof. done. Qed.

#[export] Instance PyOrdLaws_prod {A B} `{PyOrdLaws A, PyOrdLaws B} : PyOrdLaws (A * B).
Proof.
  split.
  - intros [a b] [a' b']; rewrite !py_leb_pair.
    pose proof (py_leb_total a a'). pose proof (py_leb_total b b').
    destruct (py_leb a a'), (py_leb a' a); naive_solver.
  - intros [a b] [a' b'] [a'' b'']; rewrite !py_leb_pair.
    pose proof (py_leb_trans a a' a''). pose proof (py_leb_trans a'' a' a).
    pose proof (py_leb_trans a' a'' a). pose proof (py_leb_trans a'' a a').
    pose proof (py_leb_trans b b' b'').
    destruct (py_leb a a'), (py_leb a' a), (py_leb a' a''), (py_leb a'' a'),
      (py_leb a a''), (py_leb a'' a); naive_solver.
  - intros [a b] [a' b']; rewrite !py_leb_pair.
    pose proof (py_leb_antisym a a'). pose proof (py_leb_antisym b b').
    destruct (py_leb a a'), (py_leb a' a); naive_solver.
Qed.

#[export] Instance PyOrdLaws_list {A} `{PyOrdLaws A} : PyOrdLaws (list A).
Proof.
  split.
  - intros l; induction l as [|x l IH]; intros [|y k]; [by auto..|].
    rewrite !py_leb_cons. pose proof (py_leb_total x y). specialize (IH k).
    destruct (py_leb x y), (py_leb y x); naive_solver.
  - intros l; induction l as [|x l IH]; intros [|y k] [|z m]; [done..|].
    rewrite !py_leb_cons. specialize (IH k m).
    pose proof (py_leb_trans x y z). pose proof (py_leb_trans z y x).
    pose proof (py_leb_trans y z x). pose proof (py_leb_trans z x y).
    destruct (py_leb x y), (py_leb y x), (py_leb y z), (py_leb z y),
      (py_leb x z), (py_leb z x); naive_solver.
  - intros l; induction l as [|x l IH]; intros [|y k]; [done..|].
    rewrite !py_leb_cons. specialize (IH k). pose proof (py_leb_antisym x y).
    destruct (py_leb x y), (py_leb y x); naive_solver.
Qed.

(** *** [sorted] *)

Section sorted.
Context {A K : Type} `{PyOrdLaws K} (key : A → K).
Implicit Types l k : list A.

Definition key_le (x y : A) : Prop := py_leb (key x) (key y) = true.

Lemma insert_by_perm x l : insert_by key x l ≡ₚ x :: l.
Proof.
  induction l as [|y l IH]; simpl; [done|]. destruct (py_leb _ _); [done|].
  rewrite IH. apply Permutation_swap.
Qed.

Lemma py_sorted_perm l : py_sorted key l ≡ₚ l.
Proof. induction l as [|x l IH]; simpl; [done|]. by rewrite insert_by_perm, IH. Qed.

Lemma insert_by_sorted x l :
  StronglySorted key_le l → StronglySorted key_le (insert_by key x l).
Proof.
  induction 1 as [|y l Hl IH Hy]; simpl; [by repeat constructor|].
  destruct (py_leb (key x) (key y)) eqn:E.
  - constructor; [by constructor|]. constructor; [done|].
    eapply Forall_impl; [exact Hy|]. intros z Hz. by eapply py_leb_trans.
  - constructor; [done|]. rewrite insert_by_perm. constructor; [|done].
    red. by destruct (py_leb_total (key x) (key y)); [congruence|].
Qed.

Lemma py_sorted_sorted l : StronglySorted key_le (py_sorted key l).
Proof. induction l; simpl; [constructor|by apply insert_by_sorted]. Qed.

Lemma py_sorted_length l : length (py_sorted key l) = length l.
Proof. by rewrite py_sorted_perm. Qed.

Lemma elem_of_py_sorted x l : x ∈ py_sorted key l ↔ x ∈ l.
Proof. by rewrite py_sorted_perm. Qed.

Lemma sorted_keys_unique l k :
  StronglySorted key_le l → StronglySorted key_le k → l ≡ₚ k → key <$> l = key <$> k.
Proof.
  intros Hl Hk Hp.
  assert (∀ m, StronglySorted key_le m → StronglySorted (λ a b, py_leb a b = true) (key <$> m)) as Hmap.
  { clear. induction 1; simpl; constructor; [done|]. by apply Forall_fmap. }
  eapply StronglySorted_unique_strong.
  - intros x1 x2 _ _. apply py_leb_antisym.
  - by apply Hmap.
  - by apply Hmap.
  - by rewrite Hp.
Qed.

(** Sorting gives the same keys in the same order whatever order the input
    came in. *)
Lemma py_sorted_keys_perm l k :
  l ≡ₚ k → key <$> py_sorted key l = key <$> py_sorted key k.
Proof.
  intros Hp. apply sorted_keys_unique; [apply py_sorted_sorted..|].
  by rewrite !py_sorted_perm.
Qed.
End sorted.

(** ** Insertion-ordered dictionaries

    A Python [dict] whose iteration order is observed is the association list
    of its items in insertion order: [d[k] = v] replaces in place or appends,
    [del]/[pop] removes. Dictionaries whose order is never observed are
    [gmap]s. *)

Section dict.
Context {K V : Type} `{EqDecision K}.
Implicit Types (d : list (K * V)) (k : K) (v : V).

Fixpoint dict_get d k : option V :=
  match d with
  | [] => None
  | (k', v) :: d => if decide (k = k') then Some v else dict_get d k
  end.

Fixpoint dict_set d k v : list (K * V) :=
  match d with
  | [] => [(k, v)]
  | (k', v') :: d => if decide (k = k') then (k, v) :: d else (k', v') :: dict_set d k v
  end.

Definition dict_del d k : list (K * V) := filter (λ p, p.1 ≠ k) d.

Definition dict_has d k : bool := bool_decide (is_Some (dict_get d k)).

Lemma dict_get_set_eq d k v : dict_get (dict_set d k v) k = Some v.
Proof.
  induction d as [|[k' v'] d IH]; simpl; [by rewrite decide_True|].
  destruct (decide (k = k')); simpl; [by rewrite decide_True|by rewrite decide_False].
Qed.

Lemma dict_get_set_ne d k k' v : k ≠ k' → dict_get (dict_set d k' v) k = dict_get d k.
Proof.
  intros Hne. induction d as [|[j w] d IH]; simpl; [by rewrite decide_False|].
  destruct (decide (k' = j)) as [->|]; simpl.
  - by rewrite !(decide_False (P:=k = j)).
  - by rewrite IH.
Qed.

Lemma dict_get_del_eq d k : dict_get (dict_del d k) k = None.
Proof.
  unfold dict_del. induction d as [|[j w] d IH]; [done|].
  rewrite filter_cons; simpl. destruct (decide (j ≠ k)) as [Hne|]; [|done].
  simpl. by rewrite decide_False by congruence.
Qed.

Lemma dict_get_del_ne d k k' : k ≠ k' → dict_get (dict_del d k') k = dict_get d k.
Proof.
  intros Hne. unfold dict_del. induction d as [|[j w] d IH]; [done|].
  rewrite filter_cons; simpl. destruct (decide (j ≠ k')) as [|Heq]; simpl; [by rewrite IH|].
  rewrite IH. rewrite decide_False; [done|]. intros ->. by apply Heq.
Qed.

Lemma dict_set_keys d k v :
  (dict_set d k v).*1 = if decide (k ∈ d.*1) then d.*1 else d.*1 ++ [k].
Proof.
  induction d as [|[j w] d IH]; csimpl; [done|].
  destruct (decide (k = j)) as [->|Hne]; csimpl.
  - by rewrite decide_True by set_solver.
  - rewrite IH. repeat case_decide; set_solver.
Qed.

Lemma dict_del_keys d k : (dict_del d k).*1 = filter (λ j, j ≠ k) d.*1.
Proof.
  unfold dict_del. induction d as [|[j w] d IH]; [done|].
  rewrite filter_cons; csimpl. rewrite filter_cons.
  destruct (decide (j ≠ k)); csimpl; congruence.
Qed.

Lemma dict_set_nodup d k v : NoDup d.*1 → NoDup (dict_set d k v).*1.
Proof.
  intros Hd. rewrite dict_set_keys. case_decide; [done|].
  apply NoDup_app. split_and!; [done| |apply NoDup_singleton]. set_solver.
Qed.

Lemma dict_del_nodup d k : NoDup d.*1 → NoDup (dict_del d k).*1.
Proof. intros Hd. rewrite dict_del_keys. by apply NoDup_filter. Qed.

Lemma dict_get_Some_elem d k v : dict_get d k = Some v → (k, v) ∈ d.
Proof.
  induction d as [|[j w] d IH]; simpl; [done|].
  destruct (decide (k = j)) as [->|]; intros; simplify_eq; set_solver.
Qed.

Lemma dict_get_elem d k v : NoDup d.*1 → (k, v) ∈ d → dict_get d k = Some v.
Proof.
  induction d as [|[j w] d IH]; csimpl; [set_solver|].
  rewrite NoDup_cons. intros [Hj Hd] Hin.
  apply elem_of_cons in Hin as [Heq|Hin]; [simplify_eq; by rewrite decide_True|].
  destruct (decide (k = j)) as [->|]; [|by auto].
  destruct Hj. by apply (list_elem_of_fmap_2 fst) in Hin.
Qed.

Lemma dict_get_None d k : dict_get d k = None ↔ k ∉ d.*1.
Proof.
  induction d as [|[j w] d IH]; csimpl; [set_solver|].
  destruct (decide (k = j)) as [->|]; [set_solver|]. rewrite IH. set_solver.
Qed.

Lemma dict_set_elem d k v j w :
  NoDup d.*1 → (j, w) ∈ dict_set d k v ↔ (j = k ∧ w = v) ∨ (j ≠ k ∧ (j, w) ∈ d).
Proof.
  intros Hd. pose proof (dict_set_nodup d k v Hd) as Hd'.
  destruct (decide (j = k)) as [->|Hne].
  - split.
    + intros Hin. apply dict_get_elem in Hin; [|done]. rewrite dict_get_set_eq in Hin. naive_solver.
    + intros [[_ ->]|[? _]]; [|done]. apply dict_get_Some_elem, dict_get_set_eq.
  - split.
    + intros Hin. right. split; [done|]. apply dict_get_elem in Hin; [|done].
      rewrite dict_get_set_ne in Hin by done. by apply dict_get_Some_elem.
    + intros [[? _]|[_ Hin]]; [done|]. apply dict_get_Some_elem.
      rewrite dict_get_set_ne by done. by apply dict_get_elem.
Qed.

Lemma dict_set_set d k v w : dict_set (dict_set d k v) k w = dict_set d k w.
Proof.
  induction d as [|[j u] d IH]; csimpl; [by rewrite decide_True|].
  destruct (decide (k = j)); csimpl; [by rewrite decide_True|]. by rewrite decide_False, IH.
Qed.

Lemma dict_get_set d k k' v :
  dict_get (dict_set d k v) k' = if decide (k' = k) then Some v else dict_get d k'.
Proof. case_decide; [subst; apply dict_get_set_eq|by apply dict_get_set_ne]. Qed.

Lemma dict_get_del d k k' :
  dict_get (dict_del d k) k' = if decide (k' = k) then None else dict_get d k'.
Proof. case_decide; [subst; apply dict_get_del_eq|by apply dict_get_del_ne]. Qed.

Lemma dict_del_elem d k j w : (j, w) ∈ dict_del d k ↔ j ≠ k ∧ (j, w) ∈ d.
Proof. unfold dict_del. rewrite list_elem_of_filter. done. Qed.
End dict.

Create HintDb py.
#[export] Hint Rewrite @dict_get_set_eq @dict_get_del_eq : py.
#[export] Hint Resolve dict_set_nodup dict_del_nodup : py.
