(* ===== verification/Registry.v ===== *)
(** * Workspace runtime registry

    Model of [src/serena_light/workspace/registry.py]: one warm runtime per
    workspace identity, leases issued against it, and the session-to-binding
    map. Every public method takes the registry lock for its whole body, so a
    concurrent execution is a sequence of the method steps below.

    Two things come from outside the module and are arguments here: the
    runtime factory (it may raise, and every call may build another object)
    and the identifier [uuid4()] returns. Runtime objects are compared by
    identity, which is decidable equality on [R]. *)

From S2P Require Import Prelude.

Abbreviation uuid := positive.

Section registry.
Context {I R S P : Type}.
Context `{Countable I, EqDecision R, Countable S, EqDecision P}.

(** ** Data *)

Record ResolvedWorkspace := {
  resolved_identity : I;
  resolved_subdirectory : P;
}.

Record WorkspaceLease := {
  lease_id : uuid;
  lease_identity : I;
  lease_runtime : R;
}.

Record WorkspaceBinding := {
  binding_lease : WorkspaceLease;
  binding_subdirectory : P;
}.

Definition binding_identity (b : WorkspaceBinding) : I := lease_identity (binding_lease b).
Definition binding_runtime (b : WorkspaceBinding) : R := lease_runtime (binding_lease b).

#[export] Instance WorkspaceLease_eq_dec : EqDecision WorkspaceLease.
Proof. solve_decision. Defined.
#[export] Instance WorkspaceBinding_eq_dec : EqDecision WorkspaceBinding.
Proof. solve_decision. Defined.

Record PreparedActivation := {
  prepared_session : S;
  prepared_expected : option WorkspaceBinding;
  prepared_binding : WorkspaceBinding;
  candidate_is_provisional : bool;
  candidate_runtime_created : bool;
}.

Record RuntimeState := {
  rs_runtime : R;
  rs_reference_count : Z;
  rs_idle_eligible : bool;
}.

Record RuntimeEntry := {
  entry_runtime : R;
  reference_count : Z;
}.

Record Registry := {
  reg_runtimes : gmap I RuntimeEntry;
  reg_leases : gmap uuid WorkspaceLease;
  reg_bindings : gmap S WorkspaceBinding;
}.

Inductive registry_error :=
| FactoryFailed
| ResolverFailed
| BindingChanged
| PreparedLeaseInactive
| LeaseUnderflow
| RuntimeKeyError.

Definition registry_init : Registry :=
  {| reg_runtimes := ∅; reg_leases := ∅; reg_bindings := ∅ |}.

Definition set_runtimes (f : gmap I RuntimeEntry → gmap I RuntimeEntry) (st : Registry) : Registry :=
  {| reg_runtimes := f (reg_runtimes st); reg_leases := reg_leases st; reg_bindings := reg_bindings st |}.
Definition set_leases (f : gmap uuid WorkspaceLease → gmap uuid WorkspaceLease) (st : Registry) : Registry :=
  {| reg_runtimes := reg_runtimes st; reg_leases := f (reg_leases st); reg_bindings := reg_bindings st |}.
Definition set_bindings (f : gmap S WorkspaceBinding → gmap S WorkspaceBinding) (st : Registry) : Registry :=
  {| reg_runtimes := reg_runtimes st; reg_leases := reg_leases st; reg_bindings := f (reg_bindings st) |}.

Abbreviation REG := (PyM Registry registry_error).
Abbreviation factory := (I → res registry_error R).

(** ** Operations *)

Open Scope py_scope.

Definition _acquire_locked (mk : factory) (fresh : uuid) (i : I) : REG WorkspaceLease :=
  let! st := py_get in
  let! entry :=
    match reg_runtimes st !! i with
    | Some entry => py_ret entry
    | None =>
        let! runtime := py_lift (mk i) in
        let entry := {| entry_runtime := runtime; reference_count := 0 |} in
        py_modify (set_runtimes <[i := entry]>) ;;
        py_ret entry
    end in
  let entry' := {| entry_runtime := entry_runtime entry; reference_count := reference_count entry + 1 |} in
  py_modify (set_runtimes <[i := entry']>) ;;
  let lease := {| lease_id := fresh; lease_identity := i; lease_runtime := entry_runtime entry |} in
  py_modify (set_leases <[fresh := lease]>) ;;
  py_ret lease.

Definition _release_locked (id : uuid) : REG bool :=
  let! st := py_get in
  match reg_leases st !! id with
  | None => py_ret false
  | Some lease =>
      py_modify (set_leases (delete id)) ;;
      match reg_runtimes st !! lease_identity lease with
      | None => py_raise RuntimeKeyError
      | Some entry =>
          let entry' := {| entry_runtime := entry_runtime entry;
                           reference_count := reference_count entry - 1 |} in
          py_modify (set_runtimes <[lease_identity lease := entry']>) ;;
          if bool_decide (reference_count entry' < 0) then py_raise LeaseUnderflow
          else py_ret true
      end
  end.

Definition _abort_prepared_locked (p : PreparedActivation) : REG bool :=
  if candidate_is_provisional p
  then _release_locked (lease_id (binding_lease (prepared_binding p)))
  else py_ret false.

Definition activate (mk : factory) (fresh : uuid) (s : S) (w : ResolvedWorkspace) : REG WorkspaceBinding :=
  let! st := py_get in
  let old_binding := reg_bindings st !! s in
  match old_binding with
  | Some old =>
      if decide (binding_identity old = resolved_identity w) then
        let binding := {| binding_lease := binding_lease old;
                          binding_subdirectory := resolved_subdirectory w |} in
        py_modify (set_bindings <[s := binding]>) ;;
        py_ret binding
      else
        let! new_lease := _acquire_locked mk fresh (resolved_identity w) in
        let new_binding := {| binding_lease := new_lease;
                              binding_subdirectory := resolved_subdirectory w |} in
        py_modify (set_bindings <[s := new_binding]>) ;;
        _release_locked (lease_id (binding_lease old)) ;;
        py_ret new_binding
  | None =>
      let! new_lease := _acquire_locked mk fresh (resolved_identity w) in
      let new_binding := {| binding_lease := new_lease;
                            binding_subdirectory := resolved_subdirectory w |} in
      py_modify (set_bindings <[s := new_binding]>) ;;
      py_ret new_binding
  end.

(** The resolver runs before any registry mutation. *)
Definition activate_path {Path : Type} (mk : factory) (fresh : uuid) (s : S) (path : Path)
    (resolver : Path → res registry_error ResolvedWorkspace) : REG WorkspaceBinding :=
  let! w := py_lift (resolver path) in activate mk fresh s w.

Definition prepare_activation (mk : factory) (fresh : uuid) (s : S) (w : ResolvedWorkspace)
    : REG PreparedActivation :=
  let! st := py_get in
  let expected := reg_bindings st !! s in
  let same_root :=
    match expected with
    | Some b => bool_decide (binding_identity b = resolved_identity w)
    | None => false
    end in
  match expected, same_root with
  | Some b, true =>
      py_ret {| prepared_session := s;
                prepared_expected := expected;
                prepared_binding := {| binding_lease := binding_lease b;
                                       binding_subdirectory := resolved_subdirectory w |};
                candidate_is_provisional := false;
                candidate_runtime_created := false |}
  | _, _ =>
      let created := bool_decide (reg_runtimes st !! resolved_identity w = None) in
      let! lease := _acquire_locked mk fresh (resolved_identity w) in
      py_ret {| prepared_session := s;
                prepared_expected := expected;
                prepared_binding := {| binding_lease := lease;
                                       binding_subdirectory := resolved_subdirectory w |};
                candidate_is_provisional := true;
                candidate_runtime_created := created |}
  end.

Definition commit_activation (p : PreparedActivation) : REG WorkspaceBinding :=
  let! st := py_get in
  let current := reg_bindings st !! prepared_session p in
  if decide (current ≠ prepared_expected p) then
    _abort_prepared_locked p ;;
    py_raise BindingChanged
  else
    let id := lease_id (binding_lease (prepared_binding p)) in
    if candidate_is_provisional p && bool_decide (reg_leases st !! id ≠ Some (binding_lease (prepared_binding p)))
    then
      _abort_prepared_locked p ;;
      py_raise PreparedLeaseInactive
    else
      py_modify (set_bindings <[prepared_session p := prepared_binding p]>) ;;
      match prepared_expected p, candidate_is_provisional p with
      | Some old, true =>
          _release_locked (lease_id (binding_lease old)) ;; py_ret (prepared_binding p)
      | _, _ => py_ret (prepared_binding p)
      end.

Definition abort_activation (p : PreparedActivation) : REG bool := _abort_prepared_locked p.

Definition binding_for (s : S) : REG (option WorkspaceBinding) :=
  let! st := py_get in py_ret (reg_bindings st !! s).

Definition release (s : S) : REG bool :=
  let! st := py_get in
  match reg_bindings st !! s with
  | None => py_ret false
  | Some binding =>
      py_modify (set_bindings (delete s)) ;;
      _release_locked (lease_id (binding_lease binding))
  end.

Definition release_lease (id : uuid) : REG bool :=
  let! st := py_get in
  match reg_leases st !! id with
  | None => py_ret false
  | Some lease =>
      py_modify (set_bindings (filter (λ sb, lease_id (binding_lease sb.2) ≠ id))) ;;
      _release_locked (lease_id lease)
  end.

Definition runtime_state (i : I) : REG (option RuntimeState) :=
  let! st := py_get in
  match reg_runtimes st !! i with
  | None => py_ret None
  | Some entry =>
      py_ret (Some {| rs_runtime := entry_runtime entry;
                      rs_reference_count := reference_count entry;
                      rs_idle_eligible := bool_decide (reference_count entry = 0) |})
  end.

Definition retire_idle (i : I) (expected : R) : REG (option R) :=
  let! st := py_get in
  match reg_runtimes st !! i with
  | None => py_ret None
  | Some entry =>
      if decide (entry_runtime entry ≠ expected) then py_ret None
      else if decide (reference_count entry ≠ 0) then py_ret None
      else
        py_modify (set_runtimes (delete i)) ;;
        py_ret (Some (entry_runtime entry))
  end.

(** ** The registry invariant *)

(** The leases alive for one identity. *)
Definition lease_count (i : I) (m : gmap uuid WorkspaceLease) : nat :=
  size (filter (λ idl, lease_identity idl.2 = i) m).

Record core_wf (st : Registry) : Prop := {
  core_lease : ∀ id l, reg_leases st !! id = Some l →
    lease_id l = id ∧
    ∃ e, reg_runtimes st !! lease_identity l = Some e ∧ entry_runtime e = lease_runtime l;
  core_count : ∀ i e, reg_runtimes st !! i = Some e →
    reference_count e = Z.of_nat (lease_count i (reg_leases st));
}.

(** Reference counts are the live leases of the identity, every lease names
    the runtime registered for its identity, every binding holds a live lease
    and no two sessions share one. *)
Record registry_wf (st : Registry) : Prop := {
  wf_core : core_wf st;
  wf_bound_live : ∀ s b, reg_bindings st !! s = Some b →
    reg_leases st !! lease_id (binding_lease b) = Some (binding_lease b);
  wf_bound_once : ∀ s1 s2 b1 b2,
    reg_bindings st !! s1 = Some b1 → reg_bindings st !! s2 = Some b2 →
    lease_id (binding_lease b1) = lease_id (binding_lease b2) → s1 = s2;
}.

Lemma lease_count_insert i m id l :
  m !! id = None →
  lease_count i (<[id := l]> m) =
  (lease_count i m + if decide (lease_identity l = i) then 1 else 0)%nat.
Proof.
  intros Hid. unfold lease_count. destruct (decide (lease_identity l = i)) as [Heq|Hne].
  - rewrite map_filter_insert_True by done.
    rewrite map_size_insert_None; [lia|]. apply map_lookup_filter_None. by left.
  - rewrite map_filter_insert_not' ; [lia|done|]. intros y Hy. congruence.
Qed.

Lemma lease_count_delete i m id l :
  m !! id = Some l →
  lease_count i m =
  (lease_count i (delete id m) + if decide (lease_identity l = i) then 1 else 0)%nat.
Proof.
  intros Hid. rewrite <-(insert_delete_id m id l) at 1 by done.
  apply lease_count_insert, lookup_delete_eq.
Qed.

Lemma lease_count_pos i m id l :
  m !! id = Some l → lease_identity l = i → (0 < lease_count i m)%nat.
Proof. intros Hid <-. rewrite (lease_count_delete _ _ _ _ Hid), decide_True by done. lia. Qed.

Lemma lease_count_zero st i :
  core_wf st → reg_runtimes st !! i = None → lease_count i (reg_leases st) = 0%nat.
Proof.
  intros [Hl _] Hi. unfold lease_count. apply map_size_empty_iff, map_empty.
  intros id. apply map_lookup_filter_None. right. intros l Hid Heq; simpl in *.
  destruct (Hl _ _ Hid) as [_ (e & He & _)]. congruence.
Qed.

(** *** The two locked primitives *)

Definition entry_shift (d : Z) (e : RuntimeEntry) : RuntimeEntry :=
  {| entry_runtime := entry_runtime e; reference_count := reference_count e + d |}.

Definition released (st : Registry) (l : WorkspaceLease) (e : RuntimeEntry) : Registry :=
  {| reg_runtimes := <[lease_identity l := entry_shift (-1) e]> (reg_runtimes st);
     reg_leases := delete (lease_id l) (reg_leases st);
     reg_bindings := reg_bindings st |}.

Definition acquired (st : Registry) (l : WorkspaceLease) (e : RuntimeEntry) : Registry :=
  {| reg_runtimes := <[lease_identity l := entry_shift 1 e]> (reg_runtimes st);
     reg_leases := <[lease_id l := l]> (reg_leases st);
     reg_bindings := reg_bindings st |}.

(** The entry an acquisition starts from: the registered one, or a new one
    with no reference. *)
Definition base_entry (mk : factory) (st : Registry) (i : I) : res registry_error RuntimeEntry :=
  match reg_runtimes st !! i with
  | Some e => Ok e
  | None => r ← mk i; Ok {| entry_runtime := r; reference_count := 0 |}
  end.

Lemma acquire_eq mk fresh i st :
  _acquire_locked mk fresh i st =
  match base_entry mk st i with
  | Ok e => let l := {| lease_id := fresh; lease_identity := i; lease_runtime := entry_runtime e |} in
            (acquired st l e, Ok l)
  | Err err => (st, Err err)
  end.
Proof.
  unfold _acquire_locked, base_entry, py_bind, py_get, py_lift, py_modify, py_ret, acquired, set_leases, set_runtimes.
  destruct (reg_runtimes st !! i) as [e|] eqn:He; simpl; [done|].
  destruct (mk i) as [r|err]; simpl; [|done]. by rewrite insert_insert_eq.
Qed.

Lemma release_dead id st : reg_leases st !! id = None → _release_locked id st = (st, Ok false).
Proof. intros Hid. unfold _release_locked, py_bind, py_get. by rewrite Hid. Qed.

Lemma release_live st id l :
  core_wf st → reg_leases st !! id = Some l →
  ∃ e, reg_runtimes st !! lease_identity l = Some e ∧
       _release_locked id st = (released st l e, Ok true).
Proof.
  intros [Hl Hc] Hid. destruct (Hl _ _ Hid) as [Hll (e & He & Her)].
  exists e. split; [done|].
  unfold _release_locked, py_bind, py_get, py_modify. rewrite Hid; simpl. rewrite He; simpl.
  rewrite bool_decide_eq_false_2.
  - unfold released, set_runtimes, set_leases, entry_shift, py_ret; simpl. by rewrite Hll.
  - pose proof (lease_count_pos _ _ _ _ Hid eq_refl). rewrite (Hc _ _ He). lia.
Qed.

Lemma released_core st l e :
  core_wf st → reg_leases st !! lease_id l = Some l → reg_runtimes st !! lease_identity l = Some e →
  core_wf (released st l e).
Proof.
  intros [Hl Hc] Hid He. split; simpl.
  - intros id' l' Hl'. apply lookup_delete_Some in Hl' as [Hne Hl'].
    destruct (Hl _ _ Hl') as [? (e' & He' & ?)]. split; [done|].
    destruct (decide (lease_identity l' = lease_identity l)) as [Heq|].
    + rewrite Heq, lookup_insert_eq. eexists; split; [done|]. simpl. congruence.
    + rewrite lookup_insert_ne by done. eauto.
  - intros i e'. rewrite (lookup_insert (reg_runtimes st)). case_decide as Hi.
    + intros [= <-]. simpl. rewrite (Hc _ _ He). subst i.
      pose proof (lease_count_delete (lease_identity l) _ _ _ Hid) as Hn.
      rewrite decide_True in Hn by done. lia.
    + intros He'. rewrite (Hc _ _ He').
      rewrite (lease_count_delete i _ _ _ Hid), decide_False by done. lia.
Qed.

Lemma acquired_core mk st fresh i e :
  core_wf st → reg_leases st !! fresh = None → base_entry mk st i = Ok e →
  core_wf (acquired st {| lease_id := fresh; lease_identity := i; lease_runtime := entry_runtime e |} e).
Proof.
  intros Hwf Hfresh He. pose proof Hwf as [Hl Hc].
  assert (reference_count e = Z.of_nat (lease_count i (reg_leases st)) ∧
          ∀ e', reg_runtimes st !! i = Some e' → e' = e) as [Hce Hun].
  { unfold base_entry in He. destruct (reg_runtimes st !! i) as [e0|] eqn:E.
    - simplify_eq. split; [by apply Hc|congruence].
    - destruct (mk i); simplify_eq/=. split; [|done].
      by rewrite lease_count_zero. }
  split; simpl.
  - intros id' l'. rewrite (lookup_insert (reg_leases st)). case_decide as Hid.
    + intros [= <-]; simpl. split; [done|]. rewrite lookup_insert_eq. by eexists.
    + intros Hl'. destruct (Hl _ _ Hl') as [? (e' & He' & ?)]. split; [done|].
      destruct (decide (lease_identity l' = i)) as [Hi|].
      * rewrite Hi in He' |- *. rewrite lookup_insert_eq. eexists; split; [done|].
        simpl. by rewrite <-(Hun _ He').
      * rewrite lookup_insert_ne by done. eauto.
  - intros i' e'. rewrite (lookup_insert (reg_runtimes st)), lease_count_insert by done; simpl.
    case_decide as Hi.
    + intros [= <-]; simpl. subst i'. rewrite Hce. lia.
    + intros He'. rewrite (Hc _ _ He'). lia.
Qed.

(** *** Every operation preserves the invariant *)

(** Rebinding a session to a live lease no other session holds. *)
Lemma rebind_wf st s b :
  registry_wf st → reg_leases st !! lease_id (binding_lease b) = Some (binding_lease b) →
  (∀ s' b', reg_bindings st !! s' = Some b' →
     lease_id (binding_lease b') = lease_id (binding_lease b) → s' = s) →
  registry_wf (set_bindings <[s := b]> st).
Proof.
  intros [Hcore Hlive Honce] Hb Hun. split; simpl.
  - destruct Hcore; by split.
  - intros s' b'. rewrite lookup_insert. case_decide; naive_solver.
  - intros s1 s2 b1 b2. rewrite !lookup_insert. repeat case_decide; naive_solver.
Qed.

(** Releasing a lease no session holds. *)
Lemma released_wf st l e :
  registry_wf st → reg_leases st !! lease_id l = Some l → reg_runtimes st !! lease_identity l = Some e →
  (∀ s b, reg_bindings st !! s = Some b → lease_id (binding_lease b) ≠ lease_id l) →
  registry_wf (released st l e).
Proof.
  intros [Hcore Hlive Honce] Hl He Hun. split; simpl; [by apply released_core| |done].
  intros s b Hs. rewrite lookup_delete_ne by (symmetry; by eapply Hun). by apply (Hlive s).
Qed.

Lemma acquired_wf mk st fresh i e :
  registry_wf st → reg_leases st !! fresh = None → base_entry mk st i = Ok e →
  registry_wf (acquired st {| lease_id := fresh; lease_identity := i; lease_runtime := entry_runtime e |} e).
Proof.
  intros [Hcore Hlive Honce] Hf He. split; simpl; [by eapply acquired_core| |done].
  intros s b Hs. rewrite lookup_insert_ne; [by apply (Hlive s)|].
  intros ->. specialize (Hlive _ _ Hs). congruence.
Qed.

Lemma release_locked_unbound st id :
  registry_wf st →
  (∀ s b, reg_bindings st !! s = Some b → lease_id (binding_lease b) ≠ id) →
  ∃ st' r, _release_locked id st = (st', Ok r) ∧ registry_wf st' ∧
    reg_leases st' = delete id (reg_leases st) ∧ reg_bindings st' = reg_bindings st.
Proof.
  intros Hwf Hun. destruct (reg_leases st !! id) as [l|] eqn:Hid.
  - destruct (release_live st id l (wf_core _ Hwf) Hid) as (e & He & ->).
    destruct (core_lease _ (wf_core _ Hwf) _ _ Hid) as [<- _].
    do 2 eexists. split_and!; [done|by eapply released_wf|done|done].
  - rewrite release_dead by done. do 2 eexists. split_and!; [done..| |done].
    by rewrite delete_id.
Qed.

Lemma forget_bindings_wf st (Q : S * WorkspaceBinding → Prop) `{∀ x, Decision (Q x)} :
  registry_wf st → registry_wf (set_bindings (filter Q) st).
Proof.
  intros [Hcore Hlive Honce]. split; simpl.
  - destruct Hcore; by split.
  - intros s b [Hs _]%map_lookup_filter_Some. by eapply Hlive.
  - intros s1 s2 b1 b2 [? _]%map_lookup_filter_Some [? _]%map_lookup_filter_Some.
    by apply Honce.
Qed.

Lemma delete_binding_wf st s : registry_wf st → registry_wf (set_bindings (delete s) st).
Proof.
  intros [Hcore Hlive Honce]. split; simpl.
  - destruct Hcore; by split.
  - intros s' b [_ Hs]%lookup_delete_Some. by eapply Hlive.
  - intros s1 s2 b1 b2 [_ ?]%lookup_delete_Some [_ ?]%lookup_delete_Some. by apply Honce.
Qed.

(** What an operation may do to the leases and to the bound lease ids, where
    [new] are the ids it may introduce. *)
Record evolves (new : gset uuid) (st st' : Registry) : Prop := {
  evolves_lease : ∀ id l, reg_leases st' !! id = Some l → reg_leases st !! id = Some l ∨ id ∈ new;
  evolves_bound : ∀ s b, reg_bindings st' !! s = Some b →
    lease_id (binding_lease b) ∈ new ∨
    ∃ s0 b0, reg_bindings st !! s0 = Some b0 ∧
             lease_id (binding_lease b0) = lease_id (binding_lease b);
}.

Lemma evolves_refl new st : evolves new st st.
Proof. split; eauto. Qed.

Lemma evolves_shrink new st st' :
  reg_leases st' ⊆ reg_leases st → reg_bindings st' ⊆ reg_bindings st → evolves new st st'.
Proof.
  intros Hl Hb. split.
  - intros id l Hid. left. by eapply lookup_weaken.
  - intros s b Hs. right. exists s, b. split; [|done]. by eapply lookup_weaken.
Qed.

Definition binding_of (w : ResolvedWorkspace) (l : WorkspaceLease) : WorkspaceBinding :=
  {| binding_lease := l; binding_subdirectory := resolved_subdirectory w |}.

Lemma fresh_unbound st fresh s b :
  registry_wf st → reg_leases st !! fresh = None → reg_bindings st !! s = Some b →
  lease_id (binding_lease b) ≠ fresh.
Proof. intros Hwf Hf Hs <-. apply (wf_bound_live _ Hwf) in Hs. congruence. Qed.

(** Acquire a fresh lease, bind [s] to it, then release the lease [s] held. *)
Lemma swap_wf mk st fresh s w old e :
  registry_wf st → reg_leases st !! fresh = None → reg_bindings st !! s = old →
  base_entry mk st (resolved_identity w) = Ok e →
  let l := {| lease_id := fresh; lease_identity := resolved_identity w;
              lease_runtime := entry_runtime e |} in
  let st1 := set_bindings <[s := binding_of w l]> (acquired st l e) in
  registry_wf st1 ∧
  ∀ b, old = Some b →
    ∃ st' r, _release_locked (lease_id (binding_lease b)) st1 = (st', Ok r) ∧ registry_wf st' ∧
      reg_leases st' = delete (lease_id (binding_lease b)) (<[fresh := l]> (reg_leases st)) ∧
      reg_bindings st' = <[s := binding_of w l]> (reg_bindings st).
Proof.
  intros Hwf Hf Hold He l st1.
  assert (registry_wf st1) as Hwf1.
  { apply rebind_wf; [by eapply acquired_wf|by simpl; rewrite lookup_insert_eq|].
    intros s' b' Hs' Heq. by destruct (fresh_unbound _ _ _ _ Hwf Hf Hs'). }
  split; [done|]. intros b Hb. rewrite Hb in Hold.
  apply (release_locked_unbound st1 (lease_id (binding_lease b)) Hwf1).
  intros s' b' Hs' Heq. unfold st1 in Hs'; simpl in Hs'. rewrite lookup_insert in Hs'.
  case_decide as Hss.
  - simplify_eq; simpl in *. by apply (fresh_unbound _ _ _ _ Hwf Hf Hold).
  - by apply Hss, (wf_bound_once _ Hwf _ _ _ _ Hold Hs').
Qed.

(** [activate]: on success [s] (and only [s]) is bound to the resolved
    workspace; on failure nothing at all has changed. *)
Lemma activate_spec mk fresh s w st :
  registry_wf st → reg_leases st !! fresh = None →
  match activate mk fresh s w st with
  | (st', Ok b) =>
      registry_wf st' ∧ evolves {[fresh]} st st' ∧
      reg_bindings st' = <[s := b]> (reg_bindings st) ∧
      binding_identity b = resolved_identity w ∧
      binding_subdirectory b = resolved_subdirectory w
  | (st', Err err) => st' = st ∧ mk (resolved_identity w) = Err err
  end.
Proof.
  intros Hwf Hf. unfold activate, py_bind, py_get, py_modify, py_ret.
  assert (∀ e err, base_entry mk st (resolved_identity w) = e → e = Err err →
            mk (resolved_identity w) = Err err) as Hfail.
  { intros e err <-. unfold base_entry. destruct (reg_runtimes st !! _), (mk _); naive_solver. }
  cbn beta iota. destruct (reg_bindings st !! s) as [old|] eqn:Hs; [case_decide as Hi|].
  - split_and!; [|split|done..].
    + apply rebind_wf; [done|exact (wf_bound_live _ Hwf s old Hs)|].
      intros s' b' Hs' Heq. by apply (wf_bound_once _ Hwf s' s b' old).
    + eauto.
    + intros s' b'. simpl. rewrite lookup_insert. case_decide; naive_solver.
  - rewrite acquire_eq. destruct (base_entry mk st _) as [e|err] eqn:He; [|eauto].
    destruct (swap_wf mk st fresh s w _ e Hwf Hf Hs He) as [Hwf1 Hrel].
    destruct (Hrel old eq_refl) as (st' & r & Hst' & Hwf' & Hl' & Hb').
    unfold binding_of in *. rewrite Hst'. split_and!; [done|split|done..].
    + intros id l. rewrite Hl', lookup_delete, lookup_insert. repeat case_decide; naive_solver set_solver.
    + intros s' b'. rewrite Hb', lookup_insert. case_decide; [|naive_solver].
      intros [= <-]. left; simpl. set_solver.
  - rewrite acquire_eq. destruct (base_entry mk st _) as [e|err] eqn:He; [|eauto].
    destruct (swap_wf mk st fresh s w _ e Hwf Hf Hs He) as [Hwf1 _].
    split_and!; [done|split|done..]; simpl.
    + intros id l. rewrite lookup_insert. case_decide; naive_solver set_solver.
    + intros s' b'. rewrite lookup_insert. case_decide; [|naive_solver].
      intros [= <-]. left; simpl. set_solver.
Qed.

(** *** Prepared activations

    A provisional candidate owns a lease of its own that no session holds; a
    same-root preparation only repeats the lease of the binding it expects. *)

Definition candidate_id (p : PreparedActivation) : uuid := lease_id (binding_lease (prepared_binding p)).

Definition prepared_ok (st : Registry) (p : PreparedActivation) : Prop :=
  if candidate_is_provisional p then
    (∀ l, reg_leases st !! candidate_id p = Some l → l = binding_lease (prepared_binding p)) ∧
    (∀ s b, reg_bindings st !! s = Some b → lease_id (binding_lease b) ≠ candidate_id p)
  else
    ∃ b, prepared_expected p = Some b ∧ binding_lease (prepared_binding p) = binding_lease b.

Lemma prepared_ok_evolves new st st' p :
  evolves new st st' → (candidate_is_provisional p = true → candidate_id p ∉ new) →
  prepared_ok st p → prepared_ok st' p.
Proof.
  intros [Hl Hb] Hnew. unfold prepared_ok. destruct (candidate_is_provisional p); [|done].
  specialize (Hnew eq_refl). intros [Hown Hun]. split.
  - intros l [?|?]%Hl; [by apply Hown|done].
  - intros s b [?|(s0 & b0 & Hs0 & <-)]%Hb; [congruence|by eapply Hun].
Qed.

Lemma prepare_spec mk fresh s w st :
  registry_wf st → reg_leases st !! fresh = None →
  match prepare_activation mk fresh s w st with
  | (st', Ok p) =>
      registry_wf st' ∧ evolves {[fresh]} st st' ∧ prepared_ok st' p ∧
      reg_bindings st' = reg_bindings st ∧ prepared_session p = s ∧
      prepared_expected p = reg_bindings st !! s ∧
      binding_identity (prepared_binding p) = resolved_identity w ∧
      (candidate_is_provisional p = true → candidate_id p = fresh)
  | (st', Err err) => st' = st ∧ mk (resolved_identity w) = Err err
  end.
Proof.
  intros Hwf Hf. unfold prepare_activation, py_bind, py_get, py_ret. cbn beta iota.
  assert (∀ err, base_entry mk st (resolved_identity w) = Err err →
            mk (resolved_identity w) = Err err) as Hfail.
  { intros err. unfold base_entry. destruct (reg_runtimes st !! _), (mk _); naive_solver. }
  assert (∀ e c, base_entry mk st (resolved_identity w) = Ok e →
    let l := {| lease_id := fresh; lease_identity := resolved_identity w;
                lease_runtime := entry_runtime e |} in
    let p := {| prepared_session := s; prepared_expected := reg_bindings st !! s;
                prepared_binding := {| binding_lease := l;
                                       binding_subdirectory := resolved_subdirectory w |};
                candidate_is_provisional := true; candidate_runtime_created := c |} in
    registry_wf (acquired st l e) ∧ evolves {[fresh]} st (acquired st l e) ∧
    prepared_ok (acquired st l e) p) as Hacq.
  { intros e c He l p. split_and!; [by eapply acquired_wf|split; simpl; [|by eauto]|].
    - intros id l'. rewrite lookup_insert. case_decide; naive_solver set_solver.
    - unfold prepared_ok, candidate_id; simpl. rewrite lookup_insert_eq.
      split; [naive_solver|]. intros s' b' Hs'. by eapply fresh_unbound. }
  destruct (reg_bindings st !! s) as [b|] eqn:Hs; [case_bool_decide as Hi|].
  - split_and!; try done; [apply evolves_refl|]. exists b. done.
  - rewrite acquire_eq. destruct (base_entry _ _ _) as [e|err]; [|by eauto].
    destruct (Hacq e (bool_decide (reg_runtimes st !! resolved_identity w = None)) eq_refl) as (?&?&?).
    done.
  - rewrite acquire_eq. destruct (base_entry _ _ _) as [e|err]; [|by eauto].
    destruct (Hacq e (bool_decide (reg_runtimes st !! resolved_identity w = None)) eq_refl) as (?&?&?).
    done.
Qed.

Lemma abort_spec p st :
  registry_wf st → prepared_ok st p →
  ∃ st' r, abort_activation p st = (st', Ok r) ∧ registry_wf st' ∧ evolves ∅ st st' ∧
    reg_bindings st' = reg_bindings st ∧
    (candidate_is_provisional p = true → reg_leases st' !! candidate_id p = None).
Proof.
  intros Hwf. unfold prepared_ok, abort_activation, _abort_prepared_locked, candidate_id.
  destruct (candidate_is_provisional p).
  - intros [_ Hun]. destruct (release_locked_unbound st _ Hwf Hun) as (st' & r & -> & Hwf' & Hl & Hb).
    do 2 eexists. split_and!; [done..| |done|].
    + apply evolves_shrink; [rewrite Hl; apply delete_subseteq|by rewrite Hb].
    + intros _. by rewrite Hl, lookup_delete_eq.
  - intros _. do 2 eexists. split_and!; [done|done|apply evolves_refl|done|done].
Qed.

(** Publishing a live provisional candidate and dropping the lease it replaces. *)
Lemma publish_provisional st p :
  registry_wf st → prepared_ok st p → candidate_is_provisional p = true →
  reg_bindings st !! prepared_session p = prepared_expected p →
  reg_leases st !! candidate_id p = Some (binding_lease (prepared_binding p)) →
  let st1 := set_bindings <[prepared_session p := prepared_binding p]> st in
  registry_wf st1 ∧ evolves {[candidate_id p]} st st1 ∧
  ∀ old, prepared_expected p = Some old →
    ∃ st' r, _release_locked (lease_id (binding_lease old)) st1 = (st', Ok r) ∧ registry_wf st' ∧
      evolves {[candidate_id p]} st st' ∧ reg_bindings st' = reg_bindings st1.
Proof.
  intros Hwf Hp Hprov Hexp Hlive st1. unfold prepared_ok in Hp. rewrite Hprov in Hp.
  destruct Hp as [_ Hun].
  assert (registry_wf st1) as Hwf1.
  { apply rebind_wf; [done..|]. intros s' b' Hs' Heq. by destruct (Hun _ _ Hs'). }
  assert (∀ st', reg_leases st' ⊆ reg_leases st → reg_bindings st' = reg_bindings st1 →
    evolves {[candidate_id p]} st st') as Hev.
  { intros st' Hl Hb. split.
    - intros id l Hid. left. by eapply lookup_weaken.
    - intros s b. rewrite Hb; simpl. rewrite lookup_insert. unfold candidate_id.
      case_decide; [intros [= <-]; left; set_solver|naive_solver]. }
  split_and!; [done|by apply Hev|]. intros old Hold. rewrite Hold in Hexp.
  destruct (release_locked_unbound st1 (lease_id (binding_lease old)) Hwf1)
    as (st' & r & -> & Hwf' & Hl & Hb).
  { intros s b; simpl. rewrite lookup_insert. case_decide as Hss.
    - intros [= <-]. symmetry. by eapply Hun.
    - intros Hs Heq. by apply Hss, (wf_bound_once _ Hwf _ _ _ _ Hexp Hs). }
  do 2 eexists. split_and!; [done..| |done]. apply Hev; [rewrite Hl; apply delete_subseteq|done].
Qed.

(** A same-root candidate only moves the working subdirectory. *)
Lemma publish_same_root st p :
  registry_wf st → prepared_ok st p → candidate_is_provisional p = false →
  reg_bindings st !! prepared_session p = prepared_expected p →
  let st1 := set_bindings <[prepared_session p := prepared_binding p]> st in
  registry_wf st1 ∧ evolves ∅ st st1.
Proof.
  intros Hwf Hp Hprov Hexp st1. unfold prepared_ok in Hp. rewrite Hprov in Hp.
  destruct Hp as (b & Hb & Heq). rewrite Hb in Hexp. split.
  - apply rebind_wf; [done| |].
    + rewrite Heq. exact (wf_bound_live _ Hwf _ _ Hexp).
    + intros s' b' Hs' Heq'. rewrite Heq in Heq'. by apply (wf_bound_once _ Hwf s' _ b' b).
  - split; simpl; [by eauto|]. intros s' b'. rewrite lookup_insert.
    case_decide; [|naive_solver]. intros [= <-]. right. exists (prepared_session p), b. by rewrite Heq.
Qed.

(** The lease ids a commit can introduce into the bindings. *)
Definition committed_ids (p : PreparedActivation) : gset uuid :=
  if candidate_is_provisional p then {[candidate_id p]} else ∅.

(** [commit_activation]: either the session still has the binding the
    preparation saw and the candidate becomes its binding, or the registry
    keeps every binding and the candidate lease is dropped. *)
Lemma commit_spec p st :
  registry_wf st → prepared_ok st p →
  match commit_activation p st with
  | (st', Ok b) =>
      b = prepared_binding p ∧ reg_bindings st !! prepared_session p = prepared_expected p ∧
      registry_wf st' ∧ evolves (committed_ids p) st st' ∧
      reg_bindings st' = <[prepared_session p := b]> (reg_bindings st)
  | (st', Err err) =>
      (err = BindingChanged ∨ err = PreparedLeaseInactive) ∧
      registry_wf st' ∧ evolves ∅ st st' ∧ reg_bindings st' = reg_bindings st ∧
      (candidate_is_provisional p = true → reg_leases st' !! candidate_id p = None)
  end.
Proof.
  intros Hwf Hp.
  destruct (abort_spec p st Hwf Hp) as (sta & ra & Ha & Hwfa & Hea & Hba & Hgone).
  unfold abort_activation in Ha. unfold commit_activation, py_bind, py_get, py_modify, py_ret.
  cbn beta iota. case_decide as Hexp; [rewrite Ha; simpl; by auto|].
  unfold committed_ids. destruct (candidate_is_provisional p) eqn:Hprov; simpl.
  - case_bool_decide as Hlive; [rewrite Ha; simpl; by auto|].
    destruct (publish_provisional st p Hwf Hp Hprov Hexp Hlive) as (Hwf1 & Hev1 & Hrel).
    destruct (prepared_expected p) as [old|] eqn:Hold; [|done].
    destruct (Hrel old eq_refl) as (st' & r & -> & ? & ? & ?). done.
  - destruct (publish_same_root st p Hwf Hp Hprov Hexp).
    destruct (prepared_expected p); done.
Qed.

(** When a commit is granted *)
Definition commit_current (p : PreparedActivation) (st : Registry) : Prop :=
  reg_bindings st !! prepared_session p = prepared_expected p ∧
  (candidate_is_provisional p = true → reg_leases st !! candidate_id p = Some (binding_lease (prepared_binding p))).

Lemma commit_granted p st :
  registry_wf st → prepared_ok st p → is_ok (commit_activation p st).2 = true ↔ commit_current p st.
Proof.
  intros Hwf Hp. destruct (abort_spec p st Hwf Hp) as (sta & ra & Ha & _). unfold abort_activation in Ha.
  unfold commit_current, commit_activation, py_bind, py_get, py_modify, py_ret, candidate_id.
  cbn beta iota. case_decide as Hexp; [rewrite Ha; simpl; naive_solver|].
  destruct (candidate_is_provisional p) eqn:Hprov; simpl.
  - case_bool_decide as Hlive; [rewrite Ha; simpl; naive_solver|].
    destruct (publish_provisional st p Hwf Hp Hprov Hexp Hlive) as (_ & _ & Hrel).
    destruct (prepared_expected p) as [old|] eqn:Hold; [|naive_solver].
    destruct (Hrel old eq_refl) as (st' & r & -> & _). naive_solver.
  - destruct (prepared_expected p); naive_solver.
Qed.

Lemma prepare_subdirectory mk fresh s w st :
  match (prepare_activation mk fresh s w st).2 with
  | Ok p => binding_subdirectory (prepared_binding p) = resolved_subdirectory w
  | Err _ => True
  end.
Proof.
  unfold prepare_activation, py_bind, py_get, py_ret. cbn beta iota.
  destruct (reg_bindings st !! s) as [b|]; [case_bool_decide; [done|]|]; by destruct (_acquire_locked _ _ _ _) as [? []].
Qed.

Lemma release_spec s st :
  registry_wf st →
  ∃ st' r, release s st = (st', Ok r) ∧ registry_wf st' ∧ evolves ∅ st st' ∧
    reg_bindings st' = delete s (reg_bindings st) ∧ (r = true ↔ is_Some (reg_bindings st !! s)).
Proof.
  intros Hwf. unfold release, py_bind, py_get, py_modify. cbn beta iota.
  destruct (reg_bindings st !! s) as [b|] eqn:Hs.
  - pose proof (delete_binding_wf st s Hwf) as Hwf1.
    pose proof (wf_bound_live _ Hwf _ _ Hs) as Hlive.
    destruct (release_live _ _ _ (wf_core _ Hwf1) Hlive) as (e & He & Heq). rewrite Heq.
    do 2 eexists. split_and!; [done| | |done|naive_solver].
    + apply released_wf; [done..|]. intros s' b'; simpl. intros [Hne Hs']%lookup_delete_Some Heq'.
      by apply Hne, (wf_bound_once _ Hwf _ _ _ _ Hs Hs').
    + apply evolves_shrink; apply delete_subseteq.
  - do 2 eexists. split_and!; [done|done|apply evolves_refl|by rewrite delete_id|].
    split; [done|by intros []].
Qed.

Lemma release_lease_spec id st :
  registry_wf st →
  ∃ st' r, release_lease id st = (st', Ok r) ∧ registry_wf st' ∧ evolves ∅ st st' ∧
    reg_leases st' = delete id (reg_leases st) ∧
    (∀ s b, reg_bindings st' !! s = Some b ↔
            reg_bindings st !! s = Some b ∧ lease_id (binding_lease b) ≠ id) ∧
    (r = true ↔ is_Some (reg_leases st !! id)).
Proof.
  intros Hwf. unfold release_lease, py_bind, py_get, py_modify. cbn beta iota.
  destruct (reg_leases st !! id) as [l|] eqn:Hid.
  - destruct (core_lease _ (wf_core _ Hwf) _ _ Hid) as [<- _].
    pose proof (forget_bindings_wf st (λ sb, lease_id (binding_lease sb.2) ≠ lease_id l) Hwf) as Hwf1.
    destruct (release_live _ (lease_id l) l (wf_core _ Hwf1) Hid) as (e & He & Heq). rewrite Heq.
    do 2 eexists. split_and!; [done| | |done| |naive_solver].
    + apply released_wf; [done..|]. by intros s b [_ ?]%map_lookup_filter_Some.
    + apply evolves_shrink; [apply delete_subseteq|apply map_filter_subseteq].
    + intros s b; simpl. by rewrite map_lookup_filter_Some.
  - do 2 eexists. split_and!; [done|done|apply evolves_refl|by rewrite delete_id| |].
    + intros s b. split; [|naive_solver]. intros Hs. split; [done|]. intros <-.
      apply (wf_bound_live _ Hwf) in Hs. congruence.
    + split; [done|by intros []].
Qed.

Lemma retire_idle_spec i r st :
  registry_wf st →
  ∃ st' o, retire_idle i r st = (st', Ok o) ∧ registry_wf st' ∧ evolves ∅ st st' ∧
    reg_leases st' = reg_leases st ∧ reg_bindings st' = reg_bindings st ∧
    match o with
    | Some r' => r' = r ∧ lease_count i (reg_leases st) = 0%nat ∧
                 (∃ e, reg_runtimes st !! i = Some e ∧ entry_runtime e = r) ∧
                 reg_runtimes st' = delete i (reg_runtimes st)
    | None => st' = st
    end.
Proof.
  intros Hwf. pose proof Hwf as [[Hl Hc] _ _].
  unfold retire_idle, py_bind, py_get, py_modify, py_ret. cbn beta iota.
  assert (∀ o, o = None → ∃ st' o', (st, Ok (E:=registry_error) o) = (st', Ok o') ∧ registry_wf st' ∧
    evolves ∅ st st' ∧ reg_leases st' = reg_leases st ∧ reg_bindings st' = reg_bindings st ∧
    match o' with Some r' => r' = r ∧ lease_count i (reg_leases st) = 0%nat ∧
      (∃ e, reg_runtimes st !! i = Some e ∧ entry_runtime e = r) ∧
      reg_runtimes st' = delete i (reg_runtimes st) | None => st' = st end) as Hnone.
  { intros o ->. do 2 eexists. split_and!; [done|done|apply evolves_refl|done..]. }
  destruct (reg_runtimes st !! i) as [e|] eqn:He; [|by apply Hnone].
  case_decide as Hr; [by apply Hnone|]. case_decide as Hz; [by apply Hnone|]. clear Hnone.
  pose proof (Hc _ _ He) as Hcount.
  assert (lease_count i (reg_leases st) = 0%nat) as Hidle by lia.
  do 2 eexists. split_and!; [done| |by apply evolves_shrink|done|done|naive_solver].
  destruct Hwf as [_ Hlive Honce]. split; [split|done|done]; simpl.
  - intros id l Hid. destruct (Hl _ _ Hid) as [? (e' & He' & ?)]. split; [done|].
    exists e'. rewrite lookup_delete_ne; [done|]. intros ->.
    pose proof (lease_count_pos _ _ _ _ Hid eq_refl). lia.
  - intros i' e' [_ He']%lookup_delete_Some. by apply Hc.
Qed.

(** ** Executions

    A world is the registry, the preparations their callers still hold and
    the ids [uuid4] has returned so far (never returned again). Callers
    commit or abort a preparation once; everything else may happen in any
    order. *)

Record world := {
  w_reg : Registry;
  w_out : list PreparedActivation;
  w_used : gset uuid;
}.

Definition world_init : world := {| w_reg := registry_init; w_out := []; w_used := ∅ |}.

Inductive registry_step (w : world) : world → Prop :=
| step_activate mk fresh s rw st r :
    fresh ∉ w_used w → activate mk fresh s rw (w_reg w) = (st, r) →
    registry_step w {| w_reg := st; w_out := w_out w; w_used := {[fresh]} ∪ w_used w |}
| step_prepare mk fresh s rw st p :
    fresh ∉ w_used w → prepare_activation mk fresh s rw (w_reg w) = (st, Ok p) →
    registry_step w {| w_reg := st; w_out := p :: w_out w; w_used := {[fresh]} ∪ w_used w |}
| step_prepare_failed mk fresh s rw st err :
    fresh ∉ w_used w → prepare_activation mk fresh s rw (w_reg w) = (st, Err err) →
    registry_step w {| w_reg := st; w_out := w_out w; w_used := {[fresh]} ∪ w_used w |}
| step_commit out1 p out2 st r :
    w_out w = out1 ++ p :: out2 → commit_activation p (w_reg w) = (st, r) →
    registry_step w {| w_reg := st; w_out := out1 ++ out2; w_used := w_used w |}
| step_abort out1 p out2 st r :
    w_out w = out1 ++ p :: out2 → abort_activation p (w_reg w) = (st, r) →
    registry_step w {| w_reg := st; w_out := out1 ++ out2; w_used := w_used w |}
| step_release s st r :
    release s (w_reg w) = (st, r) →
    registry_step w {| w_reg := st; w_out := w_out w; w_used := w_used w |}
| step_release_lease id st r :
    release_lease id (w_reg w) = (st, r) →
    registry_step w {| w_reg := st; w_out := w_out w; w_used := w_used w |}
| step_retire i rt st r :
    retire_idle i rt (w_reg w) = (st, r) →
    registry_step w {| w_reg := st; w_out := w_out w; w_used := w_used w |}.

Definition reachable (w : world) : Prop := rtc registry_step world_init w.

Definition provisional_ids (ps : list PreparedActivation) : list uuid :=
  candidate_id <$> filter (λ p, candidate_is_provisional p = true) ps.

Record world_inv (w : world) : Prop := {
  winv_wf : registry_wf (w_reg w);
  winv_used : dom (reg_leases (w_reg w)) ⊆ w_used w;
  winv_out : Forall (prepared_ok (w_reg w)) (w_out w);
  winv_out_used : ∀ id, id ∈ provisional_ids (w_out w) → id ∈ w_used w;
  winv_out_once : NoDup (provisional_ids (w_out w));
}.

Lemma provisional_ids_elem ps id :
  id ∈ provisional_ids ps ↔ ∃ p, p ∈ ps ∧ candidate_is_provisional p = true ∧ candidate_id p = id.
Proof.
  unfold provisional_ids. rewrite list_elem_of_fmap. setoid_rewrite list_elem_of_filter. naive_solver.
Qed.

Lemma fresh_lease w fresh : world_inv w → fresh ∉ w_used w → reg_leases (w_reg w) !! fresh = None.
Proof. intros [_ Hu _ _ _] Hf. apply not_elem_of_dom. set_solver. Qed.

Lemma evolves_used new w st :
  world_inv w → evolves new (w_reg w) st → dom (reg_leases st) ⊆ new ∪ w_used w.
Proof.
  intros [_ Hu _ _ _] [Hl _] id [l Hid]%elem_of_dom. apply elem_of_union.
  apply Hl in Hid as [Hid|]; [right|by left]. apply elem_of_dom_2 in Hid. by apply Hu.
Qed.

(** The preparations that stay outstanding stay good when the step only
    introduces ids none of them owns. *)
Lemma outstanding_evolves new st st' ps :
  evolves new st st' → (∀ id, id ∈ provisional_ids ps → id ∉ new) →
  Forall (prepared_ok st) ps → Forall (prepared_ok st') ps.
Proof.
  intros Hev Hnew. rewrite !Forall_forall. intros Hps p Hp.
  eapply prepared_ok_evolves; [done| |by apply Hps].
  intros Hprov. apply Hnew, provisional_ids_elem. eauto.
Qed.

Lemma world_inv_keep new w st :
  world_inv w → registry_wf st → evolves new (w_reg w) st → new ## w_used w →
  world_inv {| w_reg := st; w_out := w_out w; w_used := new ∪ w_used w |}.
Proof.
  intros Hinv Hwf Hev Hnew. pose proof (evolves_used _ _ _ Hinv Hev).
  destruct Hinv as [_ _ Hout Hids Honce]. split; simpl; [done|done| |set_solver|done].
  eapply outstanding_evolves; [done| |done]. intros id Hid%Hids. set_solver.
Qed.

Lemma provisional_ids_cons p ps : provisional_ids (p :: ps) = provisional_ids [p] ++ provisional_ids ps.
Proof. unfold provisional_ids. rewrite filter_cons, (filter_cons _ p []). by case_decide. Qed.

Lemma provisional_ids_split out1 p out2 :
  provisional_ids (out1 ++ p :: out2) ≡ₚ provisional_ids [p] ++ provisional_ids (out1 ++ out2).
Proof.
  rewrite <-provisional_ids_cons. unfold provisional_ids. by rewrite Permutation_middle.
Qed.

Lemma world_inv_drop w out1 p out2 new st :
  world_inv w → w_out w = out1 ++ p :: out2 → registry_wf st →
  evolves new (w_reg w) st → new ⊆ committed_ids p →
  world_inv {| w_reg := st; w_out := out1 ++ out2; w_used := w_used w |}.
Proof.
  intros Hinv Hp Hwf Hev Hnew. pose proof (evolves_used _ _ _ Hinv Hev) as Hu.
  destruct Hinv as [_ _ Hout Hids Honce]. rewrite Hp in Hout, Hids, Honce.
  rewrite provisional_ids_split in Honce. setoid_rewrite provisional_ids_split in Hids.
  apply NoDup_app in Honce as (_ & Hdisj & Honce).
  assert (∀ id, id ∈ new → id ∈ provisional_ids [p]) as Hown.
  { intros id Hid%Hnew. unfold committed_ids in Hid. apply provisional_ids_elem. exists p.
    destruct (candidate_is_provisional p); set_solver. }
  split; simpl; [done|set_solver| |set_solver|done].
  eapply outstanding_evolves; [done|set_solver|].
  apply Forall_app in Hout as [? Hout]. apply Forall_cons in Hout as [? ?]. by apply Forall_app.
Qed.

Lemma world_inv_init : world_inv world_init.
Proof.
  split; simpl; [split; [split|..]|set_solver|constructor|set_solver|constructor];
    intros *; simpl; intros Hx; by rewrite lookup_empty in Hx.
Qed.

Lemma prepared_member w out1 p out2 :
  world_inv w → w_out w = out1 ++ p :: out2 → prepared_ok (w_reg w) p.
Proof.
  intros [_ _ Hout _ _] Hp. rewrite Hp in Hout.
  apply Forall_app in Hout as [_ Hout]. by apply Forall_cons in Hout as [? _].
Qed.

Lemma world_inv_quiet w st :
  world_inv w → registry_wf st → evolves ∅ (w_reg w) st →
  world_inv {| w_reg := st; w_out := w_out w; w_used := w_used w |}.
Proof.
  intros Hinv Hwf Hev. pose proof (world_inv_keep ∅ w st Hinv Hwf Hev) as Hk.
  rewrite (left_id_L ∅ (∪)) in Hk. apply Hk. set_solver.
Qed.

Lemma world_inv_prepared w st fresh p :
  world_inv w → registry_wf st → evolves {[fresh]} (w_reg w) st → fresh ∉ w_used w →
  prepared_ok st p → (candidate_is_provisional p = true → candidate_id p = fresh) →
  world_inv {| w_reg := st; w_out := p :: w_out w; w_used := {[fresh]} ∪ w_used w |}.
Proof.
  intros Hinv Hwf Hev Hf Hp Hid. pose proof (winv_out_used _ Hinv) as Hused.
  destruct (world_inv_keep {[fresh]} w st Hinv Hwf Hev) as [? Hu Hout Hids Honce]; [set_solver|].
  simpl in *. split; simpl; [done|done|by constructor| |].
  - intros id. rewrite provisional_ids_cons, elem_of_app, provisional_ids_elem.
    intros [(q & Hq & Hprov & <-)|?]; [|by apply Hids].
    apply list_elem_of_singleton in Hq as ->. rewrite Hid by done. set_solver.
  - rewrite provisional_ids_cons. unfold provisional_ids at 1.
    rewrite filter_cons, filter_nil. case_decide as Hprov; simpl; [|done].
    apply NoDup_cons. split; [|done]. rewrite Hid by done. intros Hin%Hused. done.
Qed.

Lemma world_inv_step w w' : world_inv w → registry_step w w' → world_inv w'.
Proof.
  intros Hinv Hstep. pose proof (winv_wf _ Hinv) as Hwf.
  destruct Hstep as [mk fresh s rw st r Hf Hop|mk fresh s rw st p Hf Hop|mk fresh s rw st err Hf Hop
    |out1 p out2 st r Hp Hop|out1 p out2 st r Hp Hop|s st r Hop|id st r Hop|i rt st r Hop].
  - pose proof (activate_spec mk fresh s rw _ Hwf (fresh_lease _ _ Hinv Hf)) as Hs. rewrite Hop in Hs.
    destruct r as [b|err]; [destruct Hs as (? & ? & _)|destruct Hs as [-> _]].
    + by apply world_inv_keep; [..|set_solver].
    + apply world_inv_keep; [done|done|apply evolves_refl|set_solver].
  - pose proof (prepare_spec mk fresh s rw _ Hwf (fresh_lease _ _ Hinv Hf)) as Hs. rewrite Hop in Hs.
    destruct Hs as (? & ? & ? & _ & _ & _ & _ & ?). by apply world_inv_prepared.
  - pose proof (prepare_spec mk fresh s rw _ Hwf (fresh_lease _ _ Hinv Hf)) as Hs. rewrite Hop in Hs.
    destruct Hs as [-> _]. apply world_inv_keep; [done|done|apply evolves_refl|set_solver].
  - pose proof (commit_spec p _ Hwf (prepared_member _ _ _ _ Hinv Hp)) as Hs. rewrite Hop in Hs.
    destruct r as [b|err].
    + destruct Hs as (_ & _ & ? & ? & _). by eapply (world_inv_drop w out1 p out2 (committed_ids p)).
    + destruct Hs as (_ & ? & ? & _). eapply (world_inv_drop w out1 p out2 ∅); [done..|set_solver].
  - destruct (abort_spec p _ Hwf (prepared_member _ _ _ _ Hinv Hp)) as (st' & r' & Hs & ? & ? & _).
    rewrite Hop in Hs; simplify_eq. eapply (world_inv_drop w out1 p out2 ∅); [done..|set_solver].
  - destruct (release_spec s _ Hwf) as (st' & r' & Hs & ? & ? & _). rewrite Hop in Hs; simplify_eq. by apply world_inv_quiet.
  - destruct (release_lease_spec id _ Hwf) as (st' & r' & Hs & ? & ? & _). rewrite Hop in Hs; simplify_eq. by apply world_inv_quiet.
  - destruct (retire_idle_spec i rt _ Hwf) as (st' & r' & Hs & ? & ? & _). rewrite Hop in Hs; simplify_eq. by apply world_inv_quiet.
Qed.

Lemma reachable_inv w : reachable w → world_inv w.
Proof.
  assert (∀ a b, rtc registry_step a b → world_inv a → world_inv b) as Hind.
  { induction 1; eauto using world_inv_step. }
  intros Hr. eapply Hind; [done|apply world_inv_init].
Qed.

(** *** What a step does to the bindings *)

Inductive bindings_step (m : gmap S WorkspaceBinding) : gmap S WorkspaceBinding → Prop :=
| bindings_same : bindings_step m m
| bindings_enter s b : bindings_step m (<[s := b]> m)
| bindings_leave s : bindings_step m (delete s m).

(** At most one session holds a given lease, so dropping a lease detaches at
    most one session. *)
Lemma bindings_step_drop st id (m : gmap S WorkspaceBinding) :
  registry_wf st →
  (∀ s b, m !! s = Some b ↔ reg_bindings st !! s = Some b ∧ lease_id (binding_lease b) ≠ id) →
  bindings_step (reg_bindings st) m.
Proof.
  intros Hwf Hm.
  destruct (map_choose_or_empty (filter (λ sb, lease_id (binding_lease sb.2) = id) (reg_bindings st)))
    as [(s & b & [Hs Hid]%map_lookup_filter_Some)|Hnone]; simpl in *.
  - replace m with (delete s (reg_bindings st)); [constructor|]. apply map_eq. intros s'.
    apply option_eq. intros b'. rewrite lookup_delete_Some, Hm. split.
    + intros [Hne Hs']. split; [done|]. intros Hid'.
      apply Hne, (wf_bound_once _ Hwf s s' b b'); congruence.
    + intros [Hs' Hid']. split; [|done]. intros <-. naive_solver.
  - replace m with (reg_bindings st); [constructor|]. apply map_eq. intros s'.
    apply option_eq. intros b'. rewrite Hm. split; [|naive_solver]. intros Hs'. split; [done|].
    intros Hid'. apply (map_filter_empty_not_lookup _ _ s' b') in Hnone; naive_solver.
Qed.

Lemma step_bindings w w' :
  world_inv w → registry_step w w' → bindings_step (reg_bindings (w_reg w)) (reg_bindings (w_reg w')).
Proof.
  intros Hinv Hstep. pose proof (winv_wf _ Hinv) as Hwf.
  destruct Hstep as [mk fresh s rw st r Hf Hop|mk fresh s rw st p Hf Hop|mk fresh s rw st err Hf Hop
    |out1 p out2 st r Hp Hop|out1 p out2 st r Hp Hop|s st r Hop|id st r Hop|i rt st r Hop]; simpl.
  - pose proof (activate_spec mk fresh s rw _ Hwf (fresh_lease _ _ Hinv Hf)) as Hs. rewrite Hop in Hs.
    destruct r; [destruct Hs as (_ & _ & -> & _)|destruct Hs as [-> _]]; constructor.
  - pose proof (prepare_spec mk fresh s rw _ Hwf (fresh_lease _ _ Hinv Hf)) as Hs. rewrite Hop in Hs.
    destruct Hs as (_ & _ & _ & -> & _). constructor.
  - pose proof (prepare_spec mk fresh s rw _ Hwf (fresh_lease _ _ Hinv Hf)) as Hs. rewrite Hop in Hs.
    destruct Hs as [-> _]. constructor.
  - pose proof (commit_spec p _ Hwf (prepared_member _ _ _ _ Hinv Hp)) as Hs. rewrite Hop in Hs.
    destruct r; [destruct Hs as (_ & _ & _ & _ & ->)|destruct Hs as (_ & _ & _ & -> & _)]; constructor.
  - destruct (abort_spec p _ Hwf (prepared_member _ _ _ _ Hinv Hp)) as (st' & r' & Hs & _ & _ & Hb & _).
    rewrite Hop in Hs; simplify_eq. rewrite Hb. constructor.
  - destruct (release_spec s _ Hwf) as (st' & r' & Hs & _ & _ & Hb & _).
    rewrite Hop in Hs; simplify_eq. rewrite Hb. constructor.
  - destruct (release_lease_spec id _ Hwf) as (st' & r' & Hs & _ & _ & _ & Hb & _).
    rewrite Hop in Hs; simplify_eq. by eapply bindings_step_drop.
  - destruct (retire_idle_spec i rt _ Hwf) as (st' & r' & Hs & _ & _ & _ & Hb & _).
    rewrite Hop in Hs; simplify_eq. rewrite Hb. constructor.
Qed.

End registry.

Arguments ResolvedWorkspace : clear implicits.
Arguments WorkspaceLease : clear implicits.
Arguments WorkspaceBinding : clear implicits.
Arguments PreparedActivation : clear implicits.
Arguments Registry I R S P {_ _ _ _} : rename.

(** ** Properties *)

Section properties.
Context {I R S P : Type}.
Context `{Countable I, EqDecision R, Countable S, EqDecision P}.

(** C1: in every execution, whatever the interleaving of activations, two-phase
    preparations, commits, aborts, releases and retirements, the reference
    count of a runtime is the number of live leases of its identity, every
    lease names the runtime registered for its identity, and every session is
    bound through a live lease of its own. *)
Theorem registry_invariant (w : @world I R S P _ _ _ _) :
  reachable w → registry_wf (w_reg w).
Proof. intros Hr. by apply winv_wf, reachable_inv. Qed.

(** the internal failures of the registry (a lease underflow, a lease whose
    runtime entry is gone) never happen: in a reachable state an activation
    fails only when the runtime factory does and then changes nothing, a
    commit fails only because the binding or the candidate lease is no longer
    current, and releases, aborts and retirements never raise. *)
Theorem registry_errors (w : @world I R S P _ _ _ _) :
  reachable w →
  (∀ mk fresh s rw, fresh ∉ w_used w →
     ∀ st e, activate mk fresh s rw (w_reg w) = (st, Err e) →
       st = w_reg w ∧ mk (resolved_identity rw) = Err e) ∧
  (∀ mk fresh s rw, fresh ∉ w_used w →
     ∀ st e, prepare_activation mk fresh s rw (w_reg w) = (st, Err e) →
       st = w_reg w ∧ mk (resolved_identity rw) = Err e) ∧
  (∀ p, p ∈ w_out w → ∀ st e, commit_activation p (w_reg w) = (st, Err e) →
     (e = BindingChanged ∨ e = PreparedLeaseInactive) ∧ reg_bindings st = reg_bindings (w_reg w)) ∧
  (∀ p, p ∈ w_out w → is_ok (abort_activation p (w_reg w)).2 = true) ∧
  (∀ s, is_ok (release s (w_reg w)).2 = true) ∧
  (∀ id, is_ok (release_lease id (w_reg w)).2 = true) ∧
  (∀ i rt, is_ok (retire_idle i rt (w_reg w)).2 = true).
Proof.
  intros Hinv%reachable_inv. pose proof (winv_wf _ Hinv) as Hwf.
  pose proof (proj1 (Forall_forall _ _) (winv_out _ Hinv)) as Hout.
  split_and!.
  - intros mk fresh s rw Hf st e Hop.
    pose proof (activate_spec mk fresh s rw _ Hwf (fresh_lease _ _ Hinv Hf)) as Hs. by rewrite Hop in Hs.
  - intros mk fresh s rw Hf st e Hop.
    pose proof (prepare_spec mk fresh s rw _ Hwf (fresh_lease _ _ Hinv Hf)) as Hs. by rewrite Hop in Hs.
  - intros p Hp st e Hop. pose proof (commit_spec p _ Hwf (Hout _ Hp)) as Hs. rewrite Hop in Hs. naive_solver.
  - intros p Hp. by destruct (abort_spec p _ Hwf (Hout _ Hp)) as (st & r & -> & _).
  - intros s. by destruct (release_spec s _ Hwf) as (st & r & -> & _).
  - intros id. by destruct (release_lease_spec id _ Hwf) as (st & r & -> & _).
  - intros i rt. by destruct (retire_idle_spec i rt _ Hwf) as (st & r & -> & _).
Qed.

(** a runtime is handed out for stopping only while no lease refers to its
    identity, and it is the runtime the caller expected; afterwards the
    identity has no entry, so the next activation builds a new runtime. *)
Theorem retire_idle_safe (w : @world I R S P _ _ _ _) i rt st rt' :
  reachable w → retire_idle i rt (w_reg w) = (st, Ok (Some rt')) →
  rt' = rt ∧
  (∀ id l, reg_leases (w_reg w) !! id = Some l → lease_identity l ≠ i) ∧
  (∀ s b, reg_bindings (w_reg w) !! s = Some b → binding_identity b ≠ i) ∧
  reg_runtimes st !! i = None.
Proof.
  intros Hinv%reachable_inv Hop. pose proof (winv_wf _ Hinv) as Hwf.
  destruct (retire_idle_spec i rt _ Hwf) as (st' & o & Hop' & _ & _ & _ & _ & Ho).
  rewrite Hop in Hop'; simplify_eq. destruct Ho as (-> & Hzero & _ & Hdel).
  assert (∀ id l, reg_leases (w_reg w) !! id = Some l → lease_identity l ≠ i) as Hno.
  { intros id l Hid Heq. pose proof (lease_count_pos _ _ _ _ Hid Heq). lia. }
  split_and!; [done|done| |by rewrite Hdel, lookup_delete_eq].
  intros s b Hs. eapply Hno. by eapply wf_bound_live.
Qed.

(** The sessions as their clients see them: which workspace each is in. *)
Definition session_view (st : @Registry I R S P _ _ _ _) : gmap S (I * P) :=
  (λ b, (binding_identity b, binding_subdirectory b)) <$> reg_bindings st.

(** The contract of the registry: what each operation makes of the map from sessions to workspaces, [m], and what it
    answers. *)
Definition session_at (rw : ResolvedWorkspace I P) : I * P := (resolved_identity rw, resolved_subdirectory rw).
Definition place (b : WorkspaceBinding I R P) : I * P := (binding_identity b, binding_subdirectory b).

Lemma view_insert (st st' : @Registry I R S P _ _ _ _) s b :
  reg_bindings st' = <[s := b]> (reg_bindings st) → session_view st' = <[s := place b]> (session_view st).
Proof. intros Hb. unfold session_view. by rewrite Hb, fmap_insert. Qed.
Lemma view_same (st st' : @Registry I R S P _ _ _ _) : reg_bindings st' = reg_bindings st → session_view st' = session_view st.
Proof. intros Hb. unfold session_view. by rewrite Hb. Qed.
Lemma view_lookup (st : @Registry I R S P _ _ _ _) s x :
  session_view st !! s = Some x ↔ ∃ b, reg_bindings st !! s = Some b ∧ place b = x.
Proof. unfold session_view. rewrite lookup_fmap, fmap_Some. naive_solver. Qed.

(** C14: the registry implements a map from sessions to workspaces, operation
    by operation: an activation puts exactly its session into the requested
    workspace, or fails as the runtime factory did and changes nothing; a
    preparation changes nothing and records the session and the requested
    workspace; a commit is granted exactly when the session is still where the
    preparation found it and the candidate lease is alive, and then puts exactly
    this session into the prepared workspace, and otherwise changes nothing;
    an abort or a retirement changes nothing; a release takes exactly its
    session out, and one by lease exactly the session bound through that lease;
    and the workspace of a session is read as it is in the map. *)
Theorem registry_refines_sessions (w : @world I R S P _ _ _ _) :
  reachable w →
  let m := session_view (w_reg w) in
  (∀ mk fresh s rw, fresh ∉ w_used w →
     match activate mk fresh s rw (w_reg w) with
     | (st, Ok b) => session_view st = <[s := session_at rw]> m ∧ place b = session_at rw
     | (st, Err e) => session_view st = m ∧ mk (resolved_identity rw) = Err e
     end) ∧
  (∀ mk fresh s rw, fresh ∉ w_used w →
     match prepare_activation mk fresh s rw (w_reg w) with
     | (st, Ok p) => session_view st = m ∧ prepared_session p = s ∧ place (prepared_binding p) = session_at rw ∧
                     place <$> prepared_expected p = m !! s
     | (st, Err e) => session_view st = m ∧ mk (resolved_identity rw) = Err e
     end) ∧
  (∀ p, p ∈ w_out w →
     match commit_activation p (w_reg w) with
     | (st, Ok b) => commit_current p (w_reg w) ∧ session_view st = <[prepared_session p := place (prepared_binding p)]> m ∧
                     b = prepared_binding p
     | (st, Err _) => ¬ commit_current p (w_reg w) ∧ session_view st = m
     end) ∧
  (∀ p, p ∈ w_out w → session_view (abort_activation p (w_reg w)).1 = m) ∧
  (∀ s, ∃ st r, release s (w_reg w) = (st, Ok r) ∧ session_view st = delete s m ∧ (r = true ↔ is_Some (m !! s))) ∧
  (∀ id, ∃ st r, release_lease id (w_reg w) = (st, Ok r) ∧
     ∀ s x, session_view st !! s = Some x ↔
       ∃ b, reg_bindings (w_reg w) !! s = Some b ∧ place b = x ∧ lease_id (binding_lease b) ≠ id) ∧
  (∀ i rt, session_view (retire_idle i rt (w_reg w)).1 = m) ∧
  (∀ s, ∃ o, binding_for s (w_reg w) = (w_reg w, Ok o) ∧ place <$> o = m !! s).
Proof.
  intros Hinv%reachable_inv m. pose proof (winv_wf _ Hinv) as Hwf.
  assert (∀ p, p ∈ w_out w → prepared_ok (w_reg w) p) as Hout by (by apply Forall_forall, winv_out). split_and!.
  - intros mk fresh s rw Hf. pose proof (activate_spec mk fresh s rw _ Hwf (fresh_lease _ _ Hinv Hf)) as Hs.
    destruct (activate _ _ _ _ _) as [st [b|e]]; [|by destruct Hs as [-> ?]]. destruct Hs as (_ & _ & Hb & H1 & H2).
    assert (place b = session_at rw) as Hp by (unfold place, session_at; by rewrite H1, H2).
    split; [|done]. by rewrite (view_insert _ _ _ _ Hb), Hp.
  - intros mk fresh s rw Hf. pose proof (prepare_spec mk fresh s rw _ Hwf (fresh_lease _ _ Hinv Hf)) as Hs.
    pose proof (prepare_subdirectory mk fresh s rw (w_reg w)) as Hd.
    destruct (prepare_activation _ _ _ _ _) as [st [p|e]]; [|by destruct Hs as [-> ?]].
    destruct Hs as (_ & _ & _ & Hb & H1 & H2 & H3 & _). split_and!; [by apply view_same|done| |].
    + unfold place, session_at. cbn [snd] in Hd. by rewrite H3, Hd.
    + rewrite H2. unfold m, session_view. by rewrite lookup_fmap.
  - intros p Hp%Hout. pose proof (commit_spec p _ Hwf Hp) as Hs. pose proof (commit_granted p _ Hwf Hp) as Hg.
    destruct (commit_activation p (w_reg w)) as [st [b|e]]; cbn [snd is_ok] in Hg.
    + destruct Hs as (-> & _ & _ & _ & Hb). split_and!; [by apply Hg|by apply view_insert|done].
    + destruct Hs as (_ & _ & _ & Hb & _). split; [by intros ?%Hg|by apply view_same].
  - intros p Hp%Hout. destruct (abort_spec p _ Hwf Hp) as (st & r & -> & _ & _ & Hb & _). by apply view_same.
  - intros s. destruct (release_spec s _ Hwf) as (st & r & Heq & _ & _ & Hb & Hr). exists st, r. split_and!; [done| |].
    + unfold m, session_view. by rewrite Hb, fmap_delete.
    + rewrite Hr. unfold m, session_view. by rewrite lookup_fmap, fmap_is_Some.
  - intros id. destruct (release_lease_spec id _ Hwf) as (st & r & Heq & _ & _ & _ & Hb & _). exists st, r. split; [done|].
    intros s x. rewrite view_lookup. setoid_rewrite Hb. naive_solver.
  - intros i rt. destruct (retire_idle_spec i rt _ Hwf) as (st & o & -> & _ & _ & _ & Hb & _). by apply view_same.
  - intros s. eexists. split; [done|]. unfold m, session_view. by rewrite lookup_fmap.
Qed.

End properties.

(** ** Concrete executions *)

Section witnesses.

Definition demo_factory (i : nat) : res registry_error nat := Ok (100 + i)%nat.
Definition demo_workspace (i : nat) : ResolvedWorkspace nat nat :=
  {| resolved_identity := i; resolved_subdirectory := 0%nat |}.

(** Session 1 enters workspace 7; then it moves to workspace 8 and its old
    runtime is idle. *)
Definition demo_world1 : @world nat nat nat nat _ _ _ _ :=
  {| w_reg := (activate demo_factory 1%positive 1%nat (demo_workspace 7) registry_init).1;
     w_out := []; w_used := {[1%positive]} ∪ ∅ |}.
Definition demo_world2 : @world nat nat nat nat _ _ _ _ :=
  {| w_reg := (activate demo_factory 2%positive 1%nat (demo_workspace 8) (w_reg demo_world1)).1;
     w_out := []; w_used := {[2%positive]} ∪ w_used demo_world1 |}.

Lemma demo_step1 : registry_step world_init demo_world1.
Proof.
  apply (step_activate world_init demo_factory 1%positive 1%nat (demo_workspace 7) _
    (activate demo_factory 1%positive 1%nat (demo_workspace 7) registry_init).2); [set_solver|].
  apply surjective_pairing.
Qed.

Lemma demo_step2 : registry_step demo_world1 demo_world2.
Proof.
  apply (step_activate demo_world1 demo_factory 2%positive 1%nat (demo_workspace 8) _
    (activate demo_factory 2%positive 1%nat (demo_workspace 8) (w_reg demo_world1)).2).
  - vm_compute. discriminate.
  - apply surjective_pairing.
Qed.

Lemma demo_reachable1 : reachable demo_world1.
Proof. eapply rtc_l; [apply demo_step1|constructor]. Qed.

Lemma demo_reachable2 : reachable demo_world2.
Proof. eapply rtc_l; [apply demo_step1|]. eapply rtc_l; [apply demo_step2|constructor]. Qed.

Lemma registry_invariant_witness : reachable demo_world2 ∧ registry_wf (w_reg demo_world2).
Proof. split; [apply demo_reachable2|apply (registry_invariant demo_world2), demo_reachable2]. Defined.

Lemma registry_errors_witness :
  reachable demo_world2 ∧ is_ok (release 1%nat (w_reg demo_world2)).2 = true ∧
  is_ok (release_lease 1%positive (w_reg demo_world2)).2 = true.
Proof.
  pose proof (registry_errors demo_world2 demo_reachable2) as (_ & _ & _ & _ & Hr & Hl & _).
  split_and!; [apply demo_reachable2|apply Hr|apply Hl].
Defined.

Lemma retire_idle_safe_witness :
  (retire_idle 7%nat 107%nat (w_reg demo_world2)).2 = Ok (Some 107%nat) ∧
  reg_runtimes (retire_idle 7%nat 107%nat (w_reg demo_world2)).1 !! 7%nat = None.
Proof.
  split; [vm_compute; reflexivity|].
  apply (retire_idle_safe demo_world2 7%nat 107%nat _ 107%nat demo_reachable2).
  vm_compute. reflexivity.
Defined.

Lemma registry_refines_sessions_witness :
  session_view (w_reg demo_world2) !! 1%nat = Some (8%nat, 0%nat) ∧
  ∃ st, release 1%nat (w_reg demo_world2) = (st, Ok true) ∧ session_view st = delete 1%nat (session_view (w_reg demo_world2)).
Proof.
  assert (session_view (w_reg demo_world2) !! 1%nat = Some (8%nat, 0%nat)) as Hin by (vm_compute; reflexivity). split; [exact Hin|].
  destruct (registry_refines_sessions demo_world2 demo_reachable2) as (_ & _ & _ & _ & Hrel & _).
  destruct (Hrel 1%nat) as (st & r & Heq & Hv & Hr). exists st. split; [|exact Hv].
  rewrite Heq, (proj2 Hr); [reflexivity|]. rewrite Hin. by eexists.
Defined.

End witnesses.
