(* ===== verification/Leases.v ===== *)
(** * Daemon lease lifecycle

    Model of [src/serena_light/daemon/leases.py]: the daemon-issued leases,
    their expiry, and the warm grace of workspaces without a holder. Every
    method runs under the object's lock, so an execution is a sequence of the
    steps below; the reading of the injected clock and the [uuid4] result are
    arguments of the step.

    The lifecycle sees a registry binding only through its identity and its
    runtime ([BindingLike]). Clock readings are any totally ordered type with
    an addition; no law of the addition is used, so IEEE rounding is allowed. *)

From S2P Require Import Prelude Registry.

(** What the registry promises of the bindings it hands out. *)
Class BindingLike (B I R : Type) := {
  bl_identity : B → I;
  bl_runtime : B → R;
}.
#[export] Hint Mode BindingLike ! - - : typeclass_instances.

#[export] Instance registry_BindingLike {I R P} : BindingLike (WorkspaceBinding I R P) I R := {|
  bl_identity := binding_identity;
  bl_runtime := binding_runtime;
|}.

Inductive LeaseEndReason := RELEASED | EXPIRED | GRACE_EXPIRED.

Section leases.
Context {B I R T : Type}.
Context `{!BindingLike B I R, !EqDecision I, !EqDecision R, !PyOrd T} (t_add : T → T → T).

(** ** Data *)

Record DaemonLease := {
  dl_id : uuid;
  dl_binding : option B;
  issued_at : T;
  last_heartbeat_at : T;
  heartbeat_interval_seconds : T;
  expiry_seconds : T;
}.

Definition dl_identity (l : DaemonLease) : option I := bl_identity <$> dl_binding l.
Definition heartbeat_due_at (l : DaemonLease) : T := t_add (last_heartbeat_at l) (heartbeat_interval_seconds l).
Definition expires_at (l : DaemonLease) : T := t_add (last_heartbeat_at l) (expiry_seconds l).

Record LeaseLifecycleDecision := {
  d_reason : LeaseEndReason;
  d_identity : option I;
  d_active_holders : nat;
  d_binding_to_release : option B;
  d_lease_id : option uuid;
  d_runtime_to_stop : option R;
  d_grace_deadline : option T;
}.

Record ReleaseResult := {
  rr_released : bool;
  rr_decision : option LeaseLifecycleDecision;
}.

Record WorkspaceState := {
  ws_runtime : R;
  ws_holders : gset uuid;
  ws_grace_deadline : option T;
}.

Record LeaseLifecycle := {
  ll_heartbeat_interval : T;
  ll_expiry : T;
  ll_warm_grace : T;
  ll_active : list (uuid * DaemonLease);
  ll_expired : gset uuid;
  ll_workspaces : list (I * WorkspaceState);
}.

Inductive lease_error :=
| LeaseExpired (id : uuid) (decision : option LeaseLifecycleDecision)
| TwoLiveRuntimes
| RuntimeChangedWhileLeased
| NoActiveBinding
| InvalidIntervals
| LifecycleKeyError.

Definition set_active (f : list (uuid * DaemonLease) → list (uuid * DaemonLease)) (s : LeaseLifecycle) : LeaseLifecycle :=
  {| ll_heartbeat_interval := ll_heartbeat_interval s; ll_expiry := ll_expiry s;
     ll_warm_grace := ll_warm_grace s; ll_active := f (ll_active s);
     ll_expired := ll_expired s; ll_workspaces := ll_workspaces s |}.
Definition set_expired (f : gset uuid → gset uuid) (s : LeaseLifecycle) : LeaseLifecycle :=
  {| ll_heartbeat_interval := ll_heartbeat_interval s; ll_expiry := ll_expiry s;
     ll_warm_grace := ll_warm_grace s; ll_active := ll_active s;
     ll_expired := f (ll_expired s); ll_workspaces := ll_workspaces s |}.
Definition set_workspaces (f : list (I * WorkspaceState) → list (I * WorkspaceState)) (s : LeaseLifecycle) : LeaseLifecycle :=
  {| ll_heartbeat_interval := ll_heartbeat_interval s; ll_expiry := ll_expiry s;
     ll_warm_grace := ll_warm_grace s; ll_active := ll_active s;
     ll_expired := ll_expired s; ll_workspaces := f (ll_workspaces s) |}.

Abbreviation LM := (PyM LeaseLifecycle lease_error).

(** [LeaseLifecycle.__init__] *)
Definition lifecycle_init (zero heartbeat expiry grace : T) : res lease_error LeaseLifecycle :=
  if py_leb heartbeat zero || py_leb expiry zero || py_ltb grace zero then Err InvalidIntervals
  else if py_ltb expiry heartbeat then Err InvalidIntervals
  else Ok {| ll_heartbeat_interval := heartbeat; ll_expiry := expiry; ll_warm_grace := grace;
             ll_active := []; ll_expired := ∅; ll_workspaces := [] |}.

Open Scope py_scope.

(** ** Locked helpers *)

Definition _add_holder_locked (id : uuid) (b : B) : LM unit :=
  let! s := py_get in
  match dict_get (ll_workspaces s) (bl_identity b) with
  | None =>
      py_modify (set_workspaces (λ d, dict_set d (bl_identity b)
        {| ws_runtime := bl_runtime b; ws_holders := {[id]}; ws_grace_deadline := None |}))
  | Some state =>
      if decide (ws_runtime state ≠ bl_runtime b) then py_raise TwoLiveRuntimes
      else
        py_modify (set_workspaces (λ d, dict_set d (bl_identity b)
          {| ws_runtime := ws_runtime state; ws_holders := {[id]} ∪ ws_holders state;
             ws_grace_deadline := None |}))
  end.

(** The tail shared by [_remove_holder_locked] and [_end_locked]: drop [id]
    from the holders of [i]; the last holder leaves either a stop decision or
    a grace deadline. Returns the holders left, the runtime to stop and the
    deadline. *)
Definition drop_holder (id : uuid) (i : I) (now : T) (immediate : bool)
    : LM (nat * option R * option T) :=
  let! s := py_get in
  match dict_get (ll_workspaces s) i with
  | None => py_raise LifecycleKeyError
  | Some state =>
      if decide (id ∉ ws_holders state) then py_raise LifecycleKeyError
      else
        let holders := ws_holders state ∖ {[id]} in
        let left := size holders in
        if decide (left = 0%nat) then
          if immediate then
            py_modify (set_workspaces (λ d, dict_del d i)) ;;
            py_ret (left, Some (ws_runtime state), None)
          else
            let deadline := t_add now (ll_warm_grace s) in
            py_modify (set_workspaces (λ d, dict_set d i
              {| ws_runtime := ws_runtime state; ws_holders := holders;
                 ws_grace_deadline := Some deadline |})) ;;
            py_ret (left, None, Some deadline)
        else
          py_modify (set_workspaces (λ d, dict_set d i
            {| ws_runtime := ws_runtime state; ws_holders := holders;
               ws_grace_deadline := ws_grace_deadline state |})) ;;
          py_ret (left, None, None)
  end.

Definition _remove_holder_locked (id : uuid) (i : I) (now : T) (immediate : bool) : LM LeaseLifecycleDecision :=
  let! (active_holders, runtime_to_stop, grace_deadline) := drop_holder id i now immediate in
  py_ret {| d_reason := RELEASED; d_identity := Some i; d_active_holders := active_holders;
            d_binding_to_release := None; d_lease_id := None;
            d_runtime_to_stop := runtime_to_stop; d_grace_deadline := grace_deadline |}.

Definition _end_locked (lease : DaemonLease) (reason : LeaseEndReason) (now : T) (immediate : bool) : LM LeaseLifecycleDecision :=
  let! s := py_get in
  match dict_get (ll_active s) (dl_id lease) with
  | None => py_raise LifecycleKeyError
  | Some _ =>
      py_modify (set_active (λ d, dict_del d (dl_id lease))) ;;
      match dl_binding lease with
      | None =>
          py_ret {| d_reason := reason; d_identity := None; d_active_holders := 0;
                    d_binding_to_release := None; d_lease_id := Some (dl_id lease);
                    d_runtime_to_stop := None; d_grace_deadline := None |}
      | Some binding =>
          let! (active_holders, runtime_to_stop, grace_deadline) :=
            drop_holder (dl_id lease) (bl_identity binding) now immediate in
          py_ret {| d_reason := reason; d_identity := Some (bl_identity binding);
                    d_active_holders := active_holders;
                    d_binding_to_release := Some binding; d_lease_id := Some (dl_id lease);
                    d_runtime_to_stop := runtime_to_stop; d_grace_deadline := grace_deadline |}
      end
  end.

Definition _require_active_locked (id : uuid) (now : T) : LM DaemonLease :=
  let! s := py_get in
  match dict_get (ll_active s) id with
  | Some lease =>
      if py_ltb now (expires_at lease) then py_ret lease
      else
        let! decision := _end_locked lease EXPIRED now false in
        py_modify (set_expired (λ e, {[id]} ∪ e)) ;;
        py_raise (LeaseExpired id (Some decision))
  | None => py_raise (LeaseExpired id None)
  end.

(** ** Public operations *)

Definition issue (now : T) (fresh : uuid) (binding : option B) : LM DaemonLease :=
  let! s := py_get in
  let lease := {| dl_id := fresh; dl_binding := binding; issued_at := now; last_heartbeat_at := now;
                  heartbeat_interval_seconds := ll_heartbeat_interval s; expiry_seconds := ll_expiry s |} in
  py_modify (set_active (λ d, dict_set d fresh lease)) ;;
  match binding with
  | Some b => _add_holder_locked fresh b ;; py_ret lease
  | None => py_ret lease
  end.

Definition acquire_lease (now : T) (fresh : uuid) (binding : option B) : LM DaemonLease :=
  issue now fresh binding.

Definition with_binding (l : DaemonLease) (b : option B) : DaemonLease :=
  {| dl_id := dl_id l; dl_binding := b; issued_at := issued_at l;
     last_heartbeat_at := last_heartbeat_at l;
     heartbeat_interval_seconds := heartbeat_interval_seconds l; expiry_seconds := expiry_seconds l |}.

Definition rebind (now : T) (id : uuid) (binding : B) : LM DaemonLease :=
  let! lease := _require_active_locked id now in
  let same := match dl_binding lease with
              | Some old => bool_decide (bl_identity old = bl_identity binding)
              | None => false
              end in
  match dl_binding lease with
  | Some old =>
      if decide (bl_identity old ≠ bl_identity binding)
      then _remove_holder_locked (dl_id lease) (bl_identity old) now false ;; py_ret tt
      else py_ret tt
  | None => py_ret tt
  end ;;
  match dl_binding lease, same with
  | Some old, true =>
      if decide (bl_runtime old ≠ bl_runtime binding) then py_raise RuntimeChangedWhileLeased
      else py_ret tt
  | _, _ => _add_holder_locked (dl_id lease) binding
  end ;;
  let rebound := with_binding lease (Some binding) in
  py_modify (set_active (λ d, dict_set d id rebound)) ;;
  py_ret rebound.

Definition heartbeat (now : T) (id : uuid) : LM DaemonLease :=
  let! lease := _require_active_locked id now in
  let renewed := {| dl_id := dl_id lease; dl_binding := dl_binding lease; issued_at := issued_at lease;
                    last_heartbeat_at := now;
                    heartbeat_interval_seconds := heartbeat_interval_seconds lease;
                    expiry_seconds := expiry_seconds lease |} in
  py_modify (set_active (λ d, dict_set d id renewed)) ;;
  py_ret renewed.

Definition require_active (now : T) (id : uuid) : LM DaemonLease := _require_active_locked id now.

Definition lease_binding_for (now : T) (id : uuid) : LM B :=
  let! lease := require_active now id in
  match dl_binding lease with
  | None => py_raise NoActiveBinding
  | Some b => py_ret b
  end.

Definition release_daemon (now : T) (id : uuid) (immediate : bool) : LM ReleaseResult :=
  let! s := py_get in
  match dict_get (ll_active s) id with
  | None => py_ret {| rr_released := false; rr_decision := None |}
  | Some lease =>
      if py_leb (expires_at lease) now then
        let! decision := _end_locked lease EXPIRED now false in
        py_modify (set_expired (λ e, {[id]} ∪ e)) ;;
        py_ret {| rr_released := false; rr_decision := Some decision |}
      else
        let! decision := _end_locked lease RELEASED now immediate in
        py_ret {| rr_released := true; rr_decision := Some decision |}
  end.

Definition release_workspace (now : T) (id : uuid) (immediate : bool) : LM ReleaseResult :=
  let! lease := _require_active_locked id now in
  match dl_binding lease with
  | None => py_ret {| rr_released := false; rr_decision := None |}
  | Some binding =>
      let! decision := _remove_holder_locked (dl_id lease) (bl_identity binding) now immediate in
      py_modify (set_active (λ d, dict_set d (dl_id lease) (with_binding lease None))) ;;
      py_ret {| rr_released := true;
                rr_decision := Some {|
                  d_reason := RELEASED; d_identity := Some (bl_identity binding);
                  d_active_holders := d_active_holders decision;
                  d_binding_to_release := Some binding; d_lease_id := Some (dl_id lease);
                  d_runtime_to_stop := d_runtime_to_stop decision;
                  d_grace_deadline := d_grace_deadline decision |} |}
  end.

(** First loop of [sweep]: over the snapshot of the active leases. *)
Fixpoint sweep_leases (now : T) (ls : list DaemonLease) : LM (list LeaseLifecycleDecision) :=
  match ls with
  | [] => py_ret []
  | lease :: ls =>
      if py_leb (expires_at lease) now then
        let! decision := _end_locked lease EXPIRED now false in
        py_modify (set_expired (λ e, {[dl_id lease]} ∪ e)) ;;
        let! rest := sweep_leases now ls in
        py_ret (decision :: rest)
      else sweep_leases now ls
  end.

Definition grace_elapsed (now : T) (state : WorkspaceState) : bool :=
  match ws_grace_deadline state with
  | Some deadline => bool_decide (ws_holders state = ∅) && negb (py_ltb now deadline)
  | None => false
  end.

(** Second loop of [sweep]: over the snapshot of the workspaces. *)
Fixpoint sweep_workspaces (now : T) (wss : list (I * WorkspaceState)) : LM (list LeaseLifecycleDecision) :=
  match wss with
  | [] => py_ret []
  | (i, state) :: wss =>
      if grace_elapsed now state then
        py_modify (set_workspaces (λ d, dict_del d i)) ;;
        let! rest := sweep_workspaces now wss in
        py_ret ({| d_reason := GRACE_EXPIRED; d_identity := Some i; d_active_holders := 0;
                   d_binding_to_release := None; d_lease_id := None;
                   d_runtime_to_stop := Some (ws_runtime state); d_grace_deadline := None |} :: rest)
      else sweep_workspaces now wss
  end.

Definition sweep (now : T) : LM (list LeaseLifecycleDecision) :=
  let! s := py_get in
  let! expired := sweep_leases now (ll_active s).*2 in
  let! s' := py_get in
  let! graced := sweep_workspaces now (ll_workspaces s') in
  py_ret (expired ++ graced).

Definition active_holders (i : I) (s : LeaseLifecycle) : nat :=
  match dict_get (ll_workspaces s) i with None => 0 | Some state => size (ws_holders state) end.

Definition grace_deadline (i : I) (s : LeaseLifecycle) : option T :=
  match dict_get (ll_workspaces s) i with None => None | Some state => ws_grace_deadline state end.

Definition daemon_idle (s : LeaseLifecycle) : bool :=
  negb (nonempty (ll_active s)) && negb (nonempty (ll_workspaces s)).

Definition active_lease_count (s : LeaseLifecycle) : nat := length (ll_active s).

(** ** The lifecycle invariant *)

(** Lease [id] is live and bound to workspace [i]. *)
Definition bound_to (s : LeaseLifecycle) (i : I) (id : uuid) : Prop :=
  ∃ l b, dict_get (ll_active s) id = Some l ∧ dl_binding l = Some b ∧ bl_identity b = i.

Record lifecycle_wf (s : LeaseLifecycle) : Prop := {
  lw_active_nodup : NoDup (ll_active s).*1;
  lw_ws_nodup : NoDup (ll_workspaces s).*1;
  lw_ids : ∀ id l, dict_get (ll_active s) id = Some l → dl_id l = id;
  lw_holders : ∀ i ws, dict_get (ll_workspaces s) i = Some ws →
    ∀ id, id ∈ ws_holders ws ↔ bound_to s i id;
  lw_bound : ∀ id l b, dict_get (ll_active s) id = Some l → dl_binding l = Some b →
    ∃ ws, dict_get (ll_workspaces s) (bl_identity b) = Some ws ∧ ws_runtime ws = bl_runtime b;
  lw_grace : ∀ i ws, dict_get (ll_workspaces s) i = Some ws →
    (ws_grace_deadline ws = None ↔ ws_holders ws ≠ ∅);
  lw_expired : ∀ id, id ∈ ll_expired s → dict_get (ll_active s) id = None;
}.

(** The workspace state, if any, belongs to the runtime of the binding. *)
Definition compatible (s : LeaseLifecycle) (b : B) : Prop :=
  ∀ ws, dict_get (ll_workspaces s) (bl_identity b) = Some ws → ws_runtime ws = bl_runtime b.

(** *** The two workspace updates as functions *)

Definition holders_left (id : uuid) (ws : WorkspaceState) : gset uuid := ws_holders ws ∖ {[id]}.

Definition detach_ws (grace : T) (now : T) (immediate : bool) (id : uuid) (i : I) (ws : WorkspaceState)
    (d : list (I * WorkspaceState)) : list (I * WorkspaceState) :=
  if decide (size (holders_left id ws) = 0%nat) then
    if immediate then dict_del d i
    else dict_set d i {| ws_runtime := ws_runtime ws; ws_holders := holders_left id ws;
                         ws_grace_deadline := Some (t_add now grace) |}
  else dict_set d i {| ws_runtime := ws_runtime ws; ws_holders := holders_left id ws;
                       ws_grace_deadline := ws_grace_deadline ws |}.

Definition detach_result (grace : T) (now : T) (immediate : bool) (id : uuid) (ws : WorkspaceState)
    : nat * option R * option T :=
  if decide (size (holders_left id ws) = 0%nat) then
    if immediate then (size (holders_left id ws), Some (ws_runtime ws), None)
    else (size (holders_left id ws), None, Some (t_add now grace))
  else (size (holders_left id ws), None, None).

Definition attach_ws (id : uuid) (b : B) (d : list (I * WorkspaceState)) : list (I * WorkspaceState) :=
  dict_set d (bl_identity b)
    {| ws_runtime := bl_runtime b;
       ws_holders := {[id]} ∪ from_option ws_holders ∅ (dict_get d (bl_identity b));
       ws_grace_deadline := None |}.

Lemma drop_holder_eq s id i now imm ws :
  dict_get (ll_workspaces s) i = Some ws → id ∈ ws_holders ws →
  drop_holder id i now imm s =
  (set_workspaces (detach_ws (ll_warm_grace s) now imm id i ws) s,
   Ok (detach_result (ll_warm_grace s) now imm id ws)).
Proof.
  intros Hws Hid. unfold drop_holder, detach_ws, detach_result, holders_left, py_bind, py_get.
  rewrite Hws. rewrite decide_False by (intros Hn; by apply Hn).
  destruct (decide (size (ws_holders ws ∖ {[id]}) = 0%nat)); [destruct imm|]; done.
Qed.

Lemma add_holder_eq s id b :
  compatible s b → _add_holder_locked id b s = (set_workspaces (attach_ws id b) s, Ok tt).
Proof.
  unfold compatible, _add_holder_locked, attach_ws, py_bind, py_get, py_modify, set_workspaces.
  destruct (dict_get _ _) as [ws|] eqn:Hws; simpl; intros Hc.
  - rewrite decide_False by (intros Hn; by apply Hn, Hc). by rewrite (Hc ws).
  - by rewrite (right_id_L ∅ (∪)).
Qed.

Lemma add_holder_conflict s id b ws :
  dict_get (ll_workspaces s) (bl_identity b) = Some ws → ws_runtime ws ≠ bl_runtime b →
  _add_holder_locked id b s = (s, Err TwoLiveRuntimes).
Proof.
  intros Hws Hrt. unfold _add_holder_locked, py_bind, py_get. rewrite Hws. by rewrite decide_True.
Qed.

Lemma drop_holder_missing s id i now imm :
  (∀ ws, dict_get (ll_workspaces s) i = Some ws → id ∉ ws_holders ws) →
  drop_holder id i now imm s = (s, Err LifecycleKeyError).
Proof.
  intros Hout. unfold drop_holder, py_bind, py_get.
  destruct (dict_get (ll_workspaces s) i) as [ws|]; [|done]. rewrite decide_True; [done|]. by apply Hout.
Qed.

Lemma detach_ws_get grace now imm id i ws d j :
  dict_get (detach_ws grace now imm id i ws d) j =
  if decide (j = i) then
    if decide (size (holders_left id ws) = 0%nat ∧ imm = true) then None
    else Some {| ws_runtime := ws_runtime ws; ws_holders := holders_left id ws;
                 ws_grace_deadline := if decide (size (holders_left id ws) = 0%nat)
                                      then Some (t_add now grace) else ws_grace_deadline ws |}
  else dict_get d j.
Proof.
  unfold detach_ws. destruct (decide (size _ = 0%nat)) as [Hz|Hz]; [destruct imm|].
  - rewrite dict_get_del. case_decide; [|done]. by rewrite decide_True.
  - rewrite dict_get_set. case_decide; [|done]. by rewrite decide_False by naive_solver.
  - rewrite dict_get_set. case_decide; [|done]. by rewrite decide_False by naive_solver.
Qed.

Lemma detach_ws_nodup grace now imm id i ws d :
  NoDup d.*1 → NoDup (detach_ws grace now imm id i ws d).*1.
Proof. intros Hd. unfold detach_ws. repeat case_match; auto with py. Qed.

(** *** Detaching and attaching preserve the invariant *)

Definition with_parts (s : LeaseLifecycle) (active : list (uuid * DaemonLease))
    (wss : list (I * WorkspaceState)) : LeaseLifecycle :=
  set_workspaces (λ _, wss) (set_active (λ _, active) s).

Section detach.
Context (s : LeaseLifecycle) (id : uuid) (l : DaemonLease) (b : B) (now : T) (imm : bool)
  (ws : WorkspaceState) (active' : list (uuid * DaemonLease)).
Let s' := with_parts s active'
  (detach_ws (ll_warm_grace s) now imm id (bl_identity b) ws (ll_workspaces s)).
Hypothesis Hwf : lifecycle_wf s.
Hypothesis Hl : dict_get (ll_active s) id = Some l.
Hypothesis Hb : dl_binding l = Some b.
Hypothesis Hws : dict_get (ll_workspaces s) (bl_identity b) = Some ws.
Hypothesis Hna' : NoDup active'.*1.
Hypothesis Hother : ∀ j, j ≠ id → dict_get active' j = dict_get (ll_active s) j.
Hypothesis Hself : ∀ l', dict_get active' id = Some l' →
  dl_id l' = id ∧ dl_binding l' = None ∧ id ∉ ll_expired s.

Lemma detach_bound i j : bound_to s' i j ↔ j ≠ id ∧ bound_to s i j.
Proof using Hwf Hl Hb Hws Hna' Hother Hself.
  unfold bound_to; simpl. destruct (decide (j = id)) as [->|Hne].
  - split; [|naive_solver]. intros (l' & b' & Hl' & Hb' & _).
    destruct (Hself _ Hl') as (_ & ? & _). congruence.
  - rewrite (Hother j Hne). naive_solver.
Qed.

Lemma detach_holders i ws' :
  dict_get (ll_workspaces s') i = Some ws' → ∀ j, j ∈ ws_holders ws' ↔ bound_to s' i j.
Proof using Hwf Hl Hb Hws Hna' Hother Hself.
  intros Hget j. rewrite detach_bound. simpl in Hget. rewrite detach_ws_get in Hget.
  case_decide as Hi; [subst i|].
  - case_decide; simplify_eq; simpl. unfold holders_left.
    rewrite elem_of_difference, (lw_holders _ Hwf _ _ Hws). set_solver.
  - rewrite (lw_holders _ Hwf _ _ Hget). split; [|naive_solver]. intros Hj. split; [|done].
    intros ->. destruct Hj as (l' & b' & Hl' & Hb' & <-). congruence.
Qed.

Lemma detach_grace i ws' :
  dict_get (ll_workspaces s') i = Some ws' → (ws_grace_deadline ws' = None ↔ ws_holders ws' ≠ ∅).
Proof using Hwf Hl Hb Hws Hna' Hother Hself.
  simpl. rewrite detach_ws_get. case_decide as Hi; [|by apply (lw_grace _ Hwf)].
  case_decide; intros [= <-]; simpl. case_decide as Hz.
  - apply size_empty_iff in Hz. split; [done|]. intros Hn. destruct Hn. by apply leibniz_equiv.
  - assert (holders_left id ws ≠ ∅) as Hne by (intros Heq; apply Hz; by rewrite Heq, size_empty).
    split; [done|]. intros _. apply (lw_grace _ Hwf _ _ Hws). unfold holders_left in Hne. set_solver.
Qed.

(** Lease [id] leaves its workspace; afterwards [id] is gone or unbound. *)
Lemma detach_wf : lifecycle_wf s'.
Proof using Hwf Hl Hb Hws Hna' Hother Hself.
  split.
  - done.
  - apply detach_ws_nodup, Hwf.
  - intros j l' Hj; simpl in Hj. destruct (decide (j = id)) as [->|Hne]; [by apply Hself|].
    rewrite (Hother j Hne) in Hj. by apply (lw_ids _ Hwf).
  - apply detach_holders.
  - intros j l' b' Hj Hb'; simpl in *. destruct (decide (j = id)) as [->|Hne].
    { destruct (Hself _ Hj) as (_ & ? & _). congruence. }
    rewrite (Hother j Hne) in Hj. destruct (lw_bound _ Hwf _ _ _ Hj Hb') as (ws' & Hws' & Hrt).
    rewrite detach_ws_get. case_decide as Hi; [|eauto]. rewrite Hi, Hws in Hws'. simplify_eq.
    case_decide as Hz; [|by eexists]. exfalso. destruct Hz as [Hz%size_empty_iff _].
    assert (j ∈ holders_left id ws') as Hin; [|set_solver].
    unfold holders_left. rewrite elem_of_difference, (lw_holders _ Hwf _ _ Hws).
    split; [|set_solver]. by exists l', b'.
  - apply detach_grace.
  - intros j Hj; simpl in *. destruct (decide (j = id)) as [->|Hne].
    + destruct (dict_get active' id) as [l'|] eqn:Hl'; [|done]. by destruct (Hself _ eq_refl) as (_ & _ & ?).
    + rewrite (Hother j Hne). by apply (lw_expired _ Hwf).
Qed.
End detach.

(** A live unbound lease enters the workspace of a compatible binding. *)
Lemma attach_wf s id l b :
  lifecycle_wf s → dict_get (ll_active s) id = Some l → dl_binding l = None → compatible s b →
  lifecycle_wf (with_parts s (dict_set (ll_active s) id (with_binding l (Some b)))
                             (attach_ws id b (ll_workspaces s))).
Proof.
  intros Hwf Hl Hnone Hc. set (s' := with_parts _ _ _).
  assert (∀ i j, bound_to s' i j ↔ (j = id ∧ i = bl_identity b) ∨ bound_to s i j) as Hbt.
  { intros i j. unfold bound_to; simpl. rewrite dict_get_set. case_decide as Hj; [subst j|naive_solver].
    split; [naive_solver|]. intros [[_ ->]|(l' & b' & Hl' & Hb' & _)]; [|congruence].
    by exists (with_binding l (Some b)), b. }
  destruct Hwf as [Hna Hnw Hids Hhold Hbound Hgrace Hexp].
  split.
  - by apply dict_set_nodup.
  - by apply dict_set_nodup.
  - intros j l'; simpl. rewrite dict_get_set. case_decide; [|by apply Hids].
    intros [= <-]; simpl. subst. by apply Hids.
  - intros i ws' Hget j. rewrite Hbt. simpl in Hget. unfold attach_ws in Hget. rewrite dict_get_set in Hget.
    case_decide as Hi; [simplify_eq; simpl|by rewrite (Hhold _ _ Hget); naive_solver].
    rewrite elem_of_union, elem_of_singleton.
    destruct (dict_get (ll_workspaces s) (bl_identity b)) as [ws|] eqn:Hws; simpl.
    + rewrite (Hhold _ _ Hws). naive_solver.
    + split; [set_solver|]. intros [?|(l' & b' & Hl' & Hb' & Heq)]; [naive_solver|].
      destruct (Hbound _ _ _ Hl' Hb') as (ws & Hws' & _). congruence.
  - intros j l' b'; simpl. rewrite !dict_get_set. unfold attach_ws.
    case_decide as Hj.
    + intros [= <-]; simpl. intros [= <-]. rewrite dict_get_set_eq. by eexists.
    + intros Hj' Hb'. destruct (Hbound _ _ _ Hj' Hb') as (ws & Hws & Hrt).
      rewrite dict_get_set. case_decide as Hi; [|eauto]. rewrite Hi in Hws.
      eexists; split; [done|]; simpl. by rewrite <-(Hc _ Hws).
  - intros i ws'; simpl. unfold attach_ws. rewrite dict_get_set. case_decide; [|by apply Hgrace].
    intros [= <-]; simpl. split; [set_solver|done].
  - intros j Hj; simpl. rewrite dict_get_set. case_decide; [|by apply Hexp]. subst.
    apply Hexp in Hj. congruence.
Qed.

(** *** Specifications of the operations *)

Definition last_holder (s : LeaseLifecycle) (id : uuid) (i : I) : Prop := ∀ j, bound_to s i j → j = id.

Lemma last_holder_size s id i ws :
  lifecycle_wf s → dict_get (ll_workspaces s) i = Some ws →
  size (holders_left id ws) = 0%nat ↔ last_holder s id i.
Proof.
  intros Hwf Hws. rewrite size_empty_iff. unfold last_holder, holders_left.
  rewrite elem_of_equiv_empty. setoid_rewrite <-(lw_holders _ Hwf _ _ Hws).
  setoid_rewrite elem_of_difference. setoid_rewrite elem_of_singleton.
  split; [|naive_solver]. intros Hnone j Hj. destruct (decide (j = id)); naive_solver.
Qed.

Lemma bound_state s id l b :
  lifecycle_wf s → dict_get (ll_active s) id = Some l → dl_binding l = Some b →
  ∃ ws, dict_get (ll_workspaces s) (bl_identity b) = Some ws ∧
        ws_runtime ws = bl_runtime b ∧ id ∈ ws_holders ws.
Proof.
  intros Hwf Hl Hb. destruct (lw_bound _ Hwf _ _ _ Hl Hb) as (ws & Hws & Hrt).
  exists ws. split_and!; [done..|]. apply (lw_holders _ Hwf _ _ Hws). by exists l, b.
Qed.

(** What a decision about a lease [l] (held by [id] in [s]) says. *)
Record decision_ok (s : LeaseLifecycle) (id : uuid) (l : DaemonLease) (now : T) (imm : bool)
    (s' : LeaseLifecycle) (d : LeaseLifecycleDecision) : Prop := {
  do_identity : d_identity d = dl_identity l;
  do_binding : d_binding_to_release d = dl_binding l;
  do_lease : d_lease_id d = Some id;
  (** stop exactly when an immediate release leaves the workspace empty *)
  do_stop : ∀ r, d_runtime_to_stop d = Some r ↔
    imm = true ∧ ∃ b, dl_binding l = Some b ∧ bl_runtime b = r ∧ last_holder s id (bl_identity b);
  do_gone : ∀ r, d_runtime_to_stop d = Some r → ∃ i, d_identity d = Some i ∧
    dict_get (ll_workspaces s') i = None;
  (** otherwise the last holder leaves a grace deadline behind *)
  do_deadline : ∀ b, dl_binding l = Some b → last_holder s id (bl_identity b) → imm = false →
    grace_deadline (bl_identity b) s' = Some (t_add now (ll_warm_grace s));
  do_frame : ∀ i, dl_identity l ≠ Some i →
    dict_get (ll_workspaces s') i = dict_get (ll_workspaces s) i;
  (** a workspace keeps its runtime, and is forgotten only with a stop *)
  do_runtime : ∀ i ws', dict_get (ll_workspaces s') i = Some ws' →
    ∃ ws, dict_get (ll_workspaces s) i = Some ws ∧ ws_runtime ws = ws_runtime ws';
  do_kept : ∀ i ws, dict_get (ll_workspaces s) i = Some ws → dict_get (ll_workspaces s') i = None →
    d_identity d = Some i ∧ d_runtime_to_stop d = Some (ws_runtime ws);
}.

Definition same_config (s s' : LeaseLifecycle) : Prop :=
  ll_heartbeat_interval s' = ll_heartbeat_interval s ∧ ll_expiry s' = ll_expiry s ∧
  ll_warm_grace s' = ll_warm_grace s.

Lemma detach_stop s id l b now imm ws r :
  lifecycle_wf s → dl_binding l = Some b →
  dict_get (ll_workspaces s) (bl_identity b) = Some ws → ws_runtime ws = bl_runtime b →
  (detach_result (ll_warm_grace s) now imm id ws).1.2 = Some r ↔
    imm = true ∧ ∃ b', dl_binding l = Some b' ∧ bl_runtime b' = r ∧ last_holder s id (bl_identity b').
Proof.
  intros Hwf Hb Hws Hrt. pose proof (last_holder_size s id _ ws Hwf Hws) as Hsize.
  rewrite Hb. clear Hwf Hb. unfold detach_result. case_decide as Hz; [destruct imm|]; simpl.
  - apply Hsize in Hz. split; [intros [= <-]; eauto|]. intros (_ & b' & [= <-] & <- & _). by rewrite Hrt.
  - naive_solver.
  - split; [done|]. intros (_ & b' & [= <-] & _ & Hl). by apply Hsize in Hl.
Qed.

Lemma detach_gone grace now imm id (i : I) ws d r :
  (detach_result grace now imm id ws).1.2 = Some r →
  dict_get (detach_ws grace now imm id i ws d) i = None.
Proof.
  unfold detach_result, detach_ws. case_decide; [destruct imm|]; simpl; [|done..].
  intros _. apply dict_get_del_eq.
Qed.

Lemma detach_runtime grace now imm id (i j : I) ws d ws' :
  dict_get d i = Some ws → dict_get (detach_ws grace now imm id i ws d) j = Some ws' →
  ∃ ws0, dict_get d j = Some ws0 ∧ ws_runtime ws0 = ws_runtime ws'.
Proof.
  intros Hws. rewrite detach_ws_get. case_decide as Hj; [subst j|by eauto].
  case_decide; [done|]. intros [= <-]. eauto.
Qed.

Lemma detach_kept grace now imm id (i j : I) ws d ws0 :
  dict_get d i = Some ws → dict_get d j = Some ws0 →
  dict_get (detach_ws grace now imm id i ws d) j = None →
  j = i ∧ (detach_result grace now imm id ws).1.2 = Some (ws_runtime ws0).
Proof.
  intros Hws Hj. rewrite detach_ws_get. case_decide as Hij; [subst j|congruence].
  case_decide as Hz; [|done]. intros _. split; [done|]. destruct Hz as [Hz ->].
  unfold detach_result. rewrite decide_True by done. simpl. congruence.
Qed.

Lemma detach_deadline s id (b : B) now ws active :
  lifecycle_wf s → dict_get (ll_workspaces s) (bl_identity b) = Some ws →
  last_holder s id (bl_identity b) →
  grace_deadline (bl_identity b) (with_parts s active
    (detach_ws (ll_warm_grace s) now false id (bl_identity b) ws (ll_workspaces s))) =
  Some (t_add now (ll_warm_grace s)).
Proof.
  intros Hwf Hws Hlast%(last_holder_size s id _ ws Hwf Hws). unfold grace_deadline; simpl.
  rewrite detach_ws_get, decide_True, decide_False by naive_solver; simpl. by rewrite decide_True.
Qed.

Lemma end_locked_spec s id l reason now imm :
  lifecycle_wf s → dict_get (ll_active s) id = Some l →
  ∃ s' d, _end_locked l reason now imm s = (s', Ok d) ∧ lifecycle_wf s' ∧
    ll_active s' = dict_del (ll_active s) id ∧ ll_expired s' = ll_expired s ∧
    same_config s s' ∧ decision_ok s id l now imm s' d ∧ d_reason d = reason.
Proof.
  intros Hwf Hl. pose proof (lw_ids _ Hwf _ _ Hl) as Hid.
  unfold _end_locked, py_bind, py_get, py_modify, py_ret. rewrite Hid, Hl.
  destruct (dl_binding l) as [b|] eqn:Hb.
  - destruct (bound_state s id l b Hwf Hl Hb) as (ws & Hws & Hrt & Hin).
    rewrite (drop_holder_eq _ id (bl_identity b) now imm ws) by done; simpl.
    pose proof (detach_stop s id l b now imm ws) as Hstop.
    pose proof (detach_gone (ll_warm_grace s) now imm id (bl_identity b) ws (ll_workspaces s)) as Hgone.
    pose proof (λ j ws', detach_runtime (ll_warm_grace s) now imm id _ j ws (ll_workspaces s) ws' Hws) as Hsame.
    pose proof (λ j ws0, detach_kept (ll_warm_grace s) now imm id _ j ws (ll_workspaces s) ws0 Hws) as Hkept.
    destruct (detach_result _ _ _ _ _) as [[left stop] deadline] eqn:Hres; simpl in *.
    do 2 eexists. split; [done|]. split_and!; [|done|done|done| |done].
    + apply (detach_wf s id l b now imm ws (dict_del (ll_active s) id)); try done.
      * apply dict_del_nodup, Hwf.
      * intros j Hj. by apply dict_get_del_ne.
      * intros l'. by rewrite dict_get_del_eq.
    + split; simpl; unfold dl_identity; rewrite ?Hb; simpl; try done.
      * intros r. specialize (Hstop r Hwf Hb Hws Hrt). by rewrite Hb in Hstop.
      * eauto.
      * intros b' [= <-] Hlast ->. by apply (detach_deadline s id b now ws).
      * intros i Hne. rewrite detach_ws_get. by rewrite decide_False by congruence.
      * intros i ws0 Hi Hn. by destruct (Hkept i ws0 Hi Hn) as [-> ->].
  - do 2 eexists. split; [done|]. split_and!; [|done|done|done| |done].
    + destruct Hwf as [Hna Hnw Hids Hhold Hbound Hgrace Hexp]. split; simpl; try done.
      * by apply dict_del_nodup.
      * intros j l'. rewrite dict_get_del. case_decide; [done|]. apply Hids.
      * intros i ws Hws j. rewrite (Hhold _ _ Hws). unfold bound_to; simpl. rewrite dict_get_del.
        case_decide; naive_solver.
      * intros j l' b'. rewrite dict_get_del. case_decide; [done|]. apply Hbound.
      * intros j Hj. rewrite dict_get_del. case_decide; [done|by apply Hexp].
    + split; simpl; unfold dl_identity; rewrite ?Hb; simpl; try done; [naive_solver|eauto|congruence].
Qed.

(** A lease that is no longer active may be remembered as expired. *)
Lemma set_expired_wf s id :
  lifecycle_wf s → dict_get (ll_active s) id = None →
  lifecycle_wf (set_expired (λ e, {[id]} ∪ e) s).
Proof.
  intros [Hna Hnw Hids Hhold Hbound Hgrace Hexp] Hid. split; simpl; try done.
  intros j. rewrite elem_of_union, elem_of_singleton. intros [->|Hj]; [done|by apply Hexp].
Qed.

(** [lease] is replaced by a copy with the same identity and binding. *)
Lemma renew_wf s id l l' :
  lifecycle_wf s → dict_get (ll_active s) id = Some l → dl_id l' = dl_id l →
  (∀ b', dl_binding l' = Some b' →
     ∃ b, dl_binding l = Some b ∧ bl_identity b' = bl_identity b ∧ bl_runtime b' = bl_runtime b) →
  (dl_binding l' = None → dl_binding l = None) →
  lifecycle_wf (set_active (λ d, dict_set d id l') s).
Proof.
  intros [Hna Hnw Hids Hhold Hbound Hgrace Hexp] Hl Hid Hb' Hnone. split; simpl; try done.
  - by apply dict_set_nodup.
  - intros j l''. rewrite dict_get_set. case_decide; [|by apply Hids]. intros [= <-]. subst j.
    rewrite Hid. by apply Hids.
  - intros i ws Hws j. rewrite (Hhold _ _ Hws). unfold bound_to; simpl. rewrite dict_get_set.
    case_decide as Hj; [subst j|done]. split.
    + intros (l0 & b & Hl0 & Hb & <-). rewrite Hl in Hl0. simplify_eq.
      destruct (dl_binding l') as [b''|] eqn:E; [|by rewrite Hnone in Hb].
      destruct (Hb' _ eq_refl) as (b0 & Hb0 & ? & _). simplify_eq. by exists l', b''.
    + intros (l0 & b & [= <-] & Hb & <-). destruct (Hb' _ Hb) as (b0 & Hb0 & -> & _). by exists l, b0.
  - intros j l'' b. rewrite dict_get_set. case_decide as Hj; [subst j|by apply Hbound].
    intros [= <-] Hb. destruct (Hb' _ Hb) as (b0 & Hb0 & -> & ->). by apply (Hbound id l).
  - intros j Hj. rewrite dict_get_set. case_decide; [|by apply Hexp]. subst. by apply Hexp in Hj; congruence.
Qed.

(** What an expiry does: the lease is gone, remembered, and its decision is
    the one of a non-immediate end. *)
Record expires (s : LeaseLifecycle) (id : uuid) (l : DaemonLease) (now : T)
    (s' : LeaseLifecycle) (d : LeaseLifecycleDecision) : Prop := {
  ex_wf : lifecycle_wf s';
  ex_active : ll_active s' = dict_del (ll_active s) id;
  ex_expired : ll_expired s' = {[id]} ∪ ll_expired s;
  ex_config : same_config s s';
  ex_decision : decision_ok s id l now false s' d;
  ex_reason : d_reason d = EXPIRED;
}.

(** The expiry sequence of [_require_active_locked], [release] and [sweep]. *)
Lemma expire_spec s id l now :
  lifecycle_wf s → dict_get (ll_active s) id = Some l →
  ∃ s0 d, _end_locked l EXPIRED now false s = (s0, Ok d) ∧
    expires s id l now (set_expired (λ e, {[id]} ∪ e) s0) d.
Proof.
  intros Hwf Hl. destruct (end_locked_spec s id l EXPIRED now false Hwf Hl)
    as (s0 & d & Heq & Hwf0 & Hact & Hexp & Hcfg & Hd & Hr).
  exists s0, d. split; [done|]. split; simpl; [|done|by rewrite Hexp|done| |done].
  - apply set_expired_wf; [done|]. rewrite Hact. apply dict_get_del_eq.
  - destruct Hd. by split.
Qed.

Lemma require_active_spec s id now :
  lifecycle_wf s →
  match dict_get (ll_active s) id with
  | None => _require_active_locked id now s = (s, Err (LeaseExpired id None))
  | Some l =>
      if py_ltb now (expires_at l) then _require_active_locked id now s = (s, Ok l)
      else ∃ s' d, _require_active_locked id now s = (s', Err (LeaseExpired id (Some d))) ∧
                   expires s id l now s' d
  end.
Proof.
  intros Hwf. unfold _require_active_locked, py_bind, py_get, py_modify, py_raise, py_ret.
  destruct (dict_get (ll_active s) id) as [l|] eqn:Hl; [|done].
  destruct (py_ltb now (expires_at l)); [done|].
  destruct (expire_spec s id l now Hwf Hl) as (s0 & d & -> & Hex). eauto.
Qed.

Definition fresh_id (s : LeaseLifecycle) (id : uuid) : Prop :=
  dict_get (ll_active s) id = None ∧ id ∉ ll_expired s.

Lemma new_unbound_wf s id l :
  lifecycle_wf s → fresh_id s id → dl_id l = id → dl_binding l = None →
  lifecycle_wf (set_active (λ d, dict_set d id l) s).
Proof.
  intros [Hna Hnw Hids Hhold Hbound Hgrace Hexp] [Hf He] Hid Hb. split; simpl; try done.
  - by apply dict_set_nodup.
  - intros j l'. rewrite dict_get_set. case_decide; [naive_solver|]. apply Hids.
  - intros i ws Hws j. rewrite (Hhold _ _ Hws). unfold bound_to; simpl. rewrite dict_get_set.
    case_decide; [subst|done]. rewrite Hf. naive_solver.
  - intros j l' b. rewrite dict_get_set. case_decide; [naive_solver|]. apply Hbound.
  - intros j Hj. rewrite dict_get_set. case_decide; [by subst|by apply Hexp].
Qed.

Definition new_lease (s : LeaseLifecycle) (now : T) (id : uuid) (binding : option B) : DaemonLease :=
  {| dl_id := id; dl_binding := binding; issued_at := now; last_heartbeat_at := now;
     heartbeat_interval_seconds := ll_heartbeat_interval s; expiry_seconds := ll_expiry s |}.

Lemma issue_spec s now id ob :
  lifecycle_wf s → fresh_id s id → (∀ b, ob = Some b → compatible s b) →
  ∃ s', issue now id ob s = (s', Ok (new_lease s now id ob)) ∧ lifecycle_wf s' ∧
    ll_active s' = dict_set (ll_active s) id (new_lease s now id ob) ∧
    ll_expired s' = ll_expired s ∧ same_config s s' ∧
    ll_workspaces s' = match ob with Some b => attach_ws id b (ll_workspaces s) | None => ll_workspaces s end.
Proof.
  intros Hwf Hf Hc. pose proof (new_unbound_wf s id (new_lease s now id None) Hwf Hf eq_refl eq_refl) as Hwf0.
  unfold issue, py_bind, py_get, py_modify, py_ret. destruct ob as [b|]; [|by eexists].
  rewrite add_holder_eq by (by apply Hc). eexists. split; [done|]. split_and!; try done.
  pose proof (attach_wf _ id (new_lease s now id None) b Hwf0) as Hwf1. simpl in Hwf1.
  rewrite dict_get_set_eq, dict_set_set in Hwf1. apply Hwf1; try done. by apply Hc.
Qed.

(** A lease changes its workspace: it leaves the old one (grace, never an
    immediate stop) and enters the new one. *)
Definition rebound_workspaces (s : LeaseLifecycle) (now : T) (id : uuid) (l : DaemonLease) (b : B)
    : list (I * WorkspaceState) :=
  match dl_binding l with
  | None => attach_ws id b (ll_workspaces s)
  | Some old =>
      if decide (bl_identity old = bl_identity b) then ll_workspaces s
      else attach_ws id b
             (match dict_get (ll_workspaces s) (bl_identity old) with
              | Some ws => detach_ws (ll_warm_grace s) now false id (bl_identity old) ws (ll_workspaces s)
              | None => ll_workspaces s
              end)
  end.

Lemma unbind_wf s id l b ws now imm :
  lifecycle_wf s → dict_get (ll_active s) id = Some l → dl_binding l = Some b →
  dict_get (ll_workspaces s) (bl_identity b) = Some ws →
  lifecycle_wf (with_parts s (dict_set (ll_active s) id (with_binding l None))
    (detach_ws (ll_warm_grace s) now imm id (bl_identity b) ws (ll_workspaces s))).
Proof.
  intros Hwf Hl Hb Hws. apply (detach_wf s id l); try done.
  - apply dict_set_nodup, Hwf.
  - intros j Hj. by apply dict_get_set_ne.
  - intros l'. rewrite dict_get_set_eq. intros [= <-]. split_and!; [exact (lw_ids _ Hwf _ _ Hl)|done|].
    intros He. apply (lw_expired _ Hwf) in He. congruence.
Qed.

Lemma rebind_spec s now id l b :
  lifecycle_wf s → dict_get (ll_active s) id = Some l → py_ltb now (expires_at l) = true →
  compatible s b →
  ∃ s', rebind now id b s = (s', Ok (with_binding l (Some b))) ∧ lifecycle_wf s' ∧
    ll_active s' = dict_set (ll_active s) id (with_binding l (Some b)) ∧
    ll_expired s' = ll_expired s ∧ same_config s s' ∧
    ll_workspaces s' = rebound_workspaces s now id l b.
Proof.
  intros Hwf Hl Hlive Hc. pose proof (require_active_spec s id now Hwf) as Hreq.
  rewrite Hl, Hlive in Hreq. pose proof (lw_ids _ Hwf _ _ Hl) as Hid.
  unfold rebind, rebound_workspaces. unfold py_bind at 1. rewrite Hreq.
  destruct (dl_binding l) as [old|] eqn:Hold.
  - destruct (bound_state s id l old Hwf Hl Hold) as (ws & Hws & Hrt & Hin).
    destruct (decide (bl_identity old = bl_identity b)) as [Heq|Hne].
    + rewrite bool_decide_true by done. rewrite decide_False by (intros Hn; by apply Hn).
      assert (bl_runtime old = bl_runtime b) as Hrt'.
      { rewrite <-Hrt. apply Hc. by rewrite <-Heq. }
      rewrite decide_False by (intros Hn; by apply Hn). eexists. split; [done|]. split_and!; try done.
      apply (renew_wf s id l); try done. simpl. intros b' [= <-]. by exists old.
    + rewrite bool_decide_false by done. rewrite decide_True by done.
      unfold _remove_holder_locked, py_bind, py_ret, py_modify. rewrite Hid.
      rewrite (drop_holder_eq s id _ now false ws Hws Hin).
      destruct (detach_result _ _ _ _ _) as [[left stop] deadline]. rewrite Hws.
      assert (compatible (set_workspaces (detach_ws (ll_warm_grace s) now false id (bl_identity old) ws) s) b) as Hc'.
      { intros ws'; simpl. rewrite detach_ws_get, decide_False by congruence. apply Hc. }
      rewrite (add_holder_eq _ _ _ Hc'). eexists. split; [done|]. split_and!; try done.
      pose proof (unbind_wf s id l old ws now false Hwf Hl Hold Hws) as Hwf1.
      pose proof (attach_wf _ id (with_binding l None) b Hwf1) as Hwf2. simpl in Hwf2.
      rewrite dict_get_set_eq, dict_set_set in Hwf2. by apply Hwf2.
  - unfold py_bind, py_ret, py_modify. rewrite (add_holder_eq _ _ _ Hc), Hid.
    eexists. split; [done|]. split_and!; try done. exact (attach_wf s id l b Hwf Hl Hold Hc).
Qed.

Lemma heartbeat_wf s now id l :
  lifecycle_wf s → dict_get (ll_active s) id = Some l → py_ltb now (expires_at l) = true →
  ∃ s' l', heartbeat now id s = (s', Ok l') ∧ lifecycle_wf s' ∧ last_heartbeat_at l' = now ∧
    dl_binding l' = dl_binding l ∧ ll_active s' = dict_set (ll_active s) id l' ∧
    ll_expired s' = ll_expired s ∧ same_config s s' ∧ ll_workspaces s' = ll_workspaces s.
Proof.
  intros Hwf Hl Hlive. pose proof (require_active_spec s id now Hwf) as Hreq.
  rewrite Hl, Hlive in Hreq. unfold heartbeat, py_bind. rewrite Hreq. do 2 eexists. split; [done|].
  split_and!; try done. apply (renew_wf s id l); try done. simpl. intros b ->. by exists b.
Qed.

Lemma release_workspace_spec s now id l b imm :
  lifecycle_wf s → dict_get (ll_active s) id = Some l → py_ltb now (expires_at l) = true →
  dl_binding l = Some b →
  ∃ s' d, release_workspace now id imm s = (s', Ok {| rr_released := true; rr_decision := Some d |}) ∧
    lifecycle_wf s' ∧ ll_active s' = dict_set (ll_active s) id (with_binding l None) ∧
    ll_expired s' = ll_expired s ∧ same_config s s' ∧ decision_ok s id l now imm s' d.
Proof.
  intros Hwf Hl Hlive Hb. pose proof (require_active_spec s id now Hwf) as Hreq.
  rewrite Hl, Hlive in Hreq. pose proof (lw_ids _ Hwf _ _ Hl) as Hid.
  destruct (bound_state s id l b Hwf Hl Hb) as (ws & Hws & Hrt & Hin).
  unfold release_workspace. unfold py_bind at 1. rewrite Hreq, Hb.
  unfold _remove_holder_locked, py_bind, py_ret, py_modify. rewrite Hid.
  rewrite (drop_holder_eq s id _ now imm ws Hws Hin).
  pose proof (detach_stop s id l b now imm ws) as Hstop.
  pose proof (detach_gone (ll_warm_grace s) now imm id (bl_identity b) ws (ll_workspaces s)) as Hgone.
  pose proof (λ j ws', detach_runtime (ll_warm_grace s) now imm id _ j ws (ll_workspaces s) ws' Hws) as Hsame.
  pose proof (λ j ws0, detach_kept (ll_warm_grace s) now imm id _ j ws (ll_workspaces s) ws0 Hws) as Hkept.
  destruct (detach_result _ _ _ _ _) as [[left stop] deadline]; simpl in *.
  do 2 eexists. split; [done|]. split_and!; try done.
  - by apply (unbind_wf s id l b ws now imm).
  - split; simpl; unfold dl_identity; rewrite ?Hb; simpl; try done.
    + intros r. specialize (Hstop r Hwf Hb Hws Hrt). by rewrite Hb in Hstop.
    + eauto.
    + intros b' [= <-] Hlast ->. by apply (detach_deadline s id b now ws).
    + intros i Hne. rewrite detach_ws_get. by rewrite decide_False by congruence.
    + intros i ws0 Hi Hn. by destruct (Hkept i ws0 Hi Hn) as [-> ->].
Qed.

(** *** [sweep] *)

Definition overdue (now : T) (p : uuid * DaemonLease) : Prop := py_leb (expires_at p.2) now = true.
#[local] Instance overdue_dec now p : Decision (overdue now p).
Proof. unfold overdue. apply _. Defined.

Definition grace_stop (i : I) (ws : WorkspaceState) : LeaseLifecycleDecision :=
  {| d_reason := GRACE_EXPIRED; d_identity := Some i; d_active_holders := 0;
     d_binding_to_release := None; d_lease_id := None;
     d_runtime_to_stop := Some (ws_runtime ws); d_grace_deadline := None |}.

(** The leases part: over the remaining snapshot [ls] of the active leases. *)
Lemma sweep_leases_spec now ls : ∀ s,
  lifecycle_wf s → NoDup ls.*1 → (∀ id l, (id, l) ∈ ls → dict_get (ll_active s) id = Some l) →
  ∃ s' ds, sweep_leases now ls.*2 s = (s', Ok ds) ∧ lifecycle_wf s' ∧ same_config s s' ∧
    (∀ id, dict_get (ll_active s') id =
           if decide (id ∈ (filter (overdue now) ls).*1) then None else dict_get (ll_active s) id) ∧
    ll_expired s' = list_to_set (filter (overdue now) ls).*1 ∪ ll_expired s ∧
    d_lease_id <$> ds = Some <$> (filter (overdue now) ls).*1 ∧
    Forall (λ d, d_reason d = EXPIRED ∧ d_runtime_to_stop d = None) ds.
Proof.
  induction ls as [|[id l] ls IH]; intros s Hwf Hnd Hin; csimpl.
  { exists s, []. split_and!; [done|done|done|done|set_solver|done|constructor]. }
  apply NoDup_cons in Hnd as [Hfresh Hnd]. pose proof (Hin id l ltac:(set_solver)) as Hl.
  rewrite filter_cons. destruct (decide (overdue now (id, l))) as [Hov|Hov].
  - unfold overdue in Hov; simpl in Hov. rewrite Hov. unfold py_bind at 1.
    rewrite (lw_ids _ Hwf _ _ Hl).
    destruct (expire_spec s id l now Hwf Hl) as (s0 & d & -> & Hex).
    destruct (IH _ (ex_wf _ _ _ _ _ _ Hex) Hnd) as (s' & ds & Heq & Hwf' & Hcfg & Hact & Hexp & Hids & Hall).
    { intros j l' Hj. rewrite (ex_active _ _ _ _ _ _ Hex). rewrite dict_get_del_ne; [set_solver|].
      intros ->. apply Hfresh. apply list_elem_of_fmap. by exists (id, l'). }
    exists s', (d :: ds). unfold py_bind, py_modify, py_ret. rewrite Heq. split; [done|].
    destruct Hex as [_ Hact0 Hexp0 Hcfg0 Hd Hr]. split_and!; [done| | | | |].
    + destruct Hcfg as (?&?&?), Hcfg0 as (?&?&?). unfold same_config. split_and!; congruence.
    + intros j. rewrite Hact, Hact0, dict_get_del. csimpl. repeat case_decide; set_solver.
    + rewrite Hexp, Hexp0. csimpl. set_solver.
    + csimpl. rewrite Hids. f_equal. apply Hd.
    + constructor; [|done]. split; [done|]. destruct (d_runtime_to_stop d) as [r|] eqn:Er; [|done].
      apply (do_stop _ _ _ _ _ _ _ Hd) in Er as [? _]. done.
  - unfold overdue in Hov; simpl in Hov.
    destruct (py_leb (expires_at l) now); [done|]. apply IH; [done..|]. set_solver.
Qed.

Definition elapsed (now : T) (p : I * WorkspaceState) : Prop := grace_elapsed now p.2 = true.
#[local] Instance elapsed_dec now p : Decision (elapsed now p).
Proof. unfold elapsed. apply _. Defined.

(** A workspace without holders may be forgotten. *)
Lemma forget_wf s i ws :
  lifecycle_wf s → dict_get (ll_workspaces s) i = Some ws → ws_holders ws = ∅ →
  lifecycle_wf (set_workspaces (λ d, dict_del d i) s).
Proof.
  intros [Hna Hnw Hids Hhold Hbound Hgrace Hexp] Hws Hempty. split; simpl; try done.
  - by apply dict_del_nodup.
  - intros j ws'. rewrite dict_get_del. case_decide; [done|]. apply Hhold.
  - intros j l b Hj Hb. rewrite dict_get_del. case_decide as Hi; [|by eapply Hbound].
    assert (j ∈ ws_holders ws) as Hin; [|set_solver]. apply (Hhold _ _ Hws). by exists l, b.
  - intros j ws'. rewrite dict_get_del. case_decide; [done|]. apply Hgrace.
Qed.

Lemma sweep_workspaces_spec now wss : ∀ s,
  lifecycle_wf s → NoDup wss.*1 → (∀ i ws, (i, ws) ∈ wss → dict_get (ll_workspaces s) i = Some ws) →
  ∃ s', sweep_workspaces now wss s =
        (s', Ok ((λ p, grace_stop p.1 p.2) <$> filter (elapsed now) wss)) ∧
    lifecycle_wf s' ∧ same_config s s' ∧ ll_active s' = ll_active s ∧ ll_expired s' = ll_expired s ∧
    ∀ i, dict_get (ll_workspaces s') i =
         if decide (i ∈ (filter (elapsed now) wss).*1) then None else dict_get (ll_workspaces s) i.
Proof.
  induction wss as [|[i ws] wss IH]; intros s Hwf Hnd Hin; csimpl.
  { exists s. done. }
  apply NoDup_cons in Hnd as [Hfresh Hnd]. pose proof (Hin i ws ltac:(set_solver)) as Hws.
  rewrite filter_cons. destruct (decide (elapsed now (i, ws))) as [Hel|Hel]; unfold elapsed in Hel; simpl in Hel.
  - rewrite Hel. assert (ws_holders ws = ∅) as Hempty.
    { unfold grace_elapsed in Hel. case_match; [|done]. apply andb_true_iff in Hel as [Hh _].
      by apply bool_decide_eq_true in Hh. }
    destruct (IH _ (forget_wf s i ws Hwf Hws Hempty) Hnd) as (s' & Heq & Hwf' & Hcfg & Hact & Hexp & Hget).
    { intros j ws' Hj. simpl. rewrite dict_get_del_ne; [set_solver|].
      intros ->. apply Hfresh. apply list_elem_of_fmap. by exists (i, ws'). }
    exists s'. unfold py_bind, py_modify, py_ret. rewrite Heq. split; [done|]. split_and!; try done.
    intros j. rewrite Hget. simpl. rewrite dict_get_del. csimpl. repeat case_decide; set_solver.
  - destruct (grace_elapsed now ws); [done|]. apply IH; [done..|]. set_solver.
Qed.

(** The whole sweep. *)
Lemma sweep_spec s now :
  lifecycle_wf s →
  ∃ s' eds gds, sweep now s = (s', Ok (eds ++ gds)) ∧ lifecycle_wf s' ∧ same_config s s' ∧
    (∀ id, dict_get (ll_active s') id =
       match dict_get (ll_active s) id with
       | Some l => if decide (overdue now (id, l)) then None else Some l
       | None => None
       end) ∧
    ll_expired s' = list_to_set (filter (overdue now) (ll_active s)).*1 ∪ ll_expired s ∧
    d_lease_id <$> eds = Some <$> (filter (overdue now) (ll_active s)).*1 ∧
    Forall (λ d, d_reason d = EXPIRED ∧ d_runtime_to_stop d = None) eds ∧
    (∀ i ws, dict_get (ll_workspaces s') i = Some ws → ¬ elapsed now (i, ws)) ∧
    Forall (λ d, ∃ i ws, d = grace_stop i ws ∧ elapsed now (i, ws) ∧
                         dict_get (ll_workspaces s') i = None) gds.
Proof.
  intros Hwf. destruct (sweep_leases_spec now (ll_active s) s Hwf) as
    (s1 & eds & Heq & Hwf1 & Hcfg & Hact & Hexp & Hids & Hall); [apply Hwf| |].
  { intros id l. apply dict_get_elem, Hwf. }
  destruct (sweep_workspaces_spec now (ll_workspaces s1) s1 Hwf1) as
    (s2 & Heq2 & Hwf2 & Hcfg2 & Hact2 & Hexp2 & Hget2); [apply Hwf1| |].
  { intros i ws. apply dict_get_elem, Hwf1. }
  exists s2, eds. eexists. unfold sweep, py_bind, py_get, py_ret. rewrite Heq, Heq2. split; [done|].
  assert (∀ i ws, dict_get (ll_workspaces s1) i = Some ws → elapsed now (i, ws) →
            dict_get (ll_workspaces s2) i = None) as Hgone.
  { intros i ws Hws Hel. rewrite Hget2, decide_True; [done|]. apply list_elem_of_fmap. exists (i, ws).
    split; [done|]. apply list_elem_of_filter. split; [done|]. by apply dict_get_Some_elem. }
  split_and!; [done| | |by rewrite Hexp2|done|done| |].
  - destruct Hcfg as (?&?&?), Hcfg2 as (?&?&?). unfold same_config. split_and!; congruence.
  - intros id. rewrite Hact2, Hact. destruct (dict_get (ll_active s) id) as [l|] eqn:Hl; [|by case_decide].
    assert (id ∈ (filter (overdue now) (ll_active s)).*1 ↔ overdue now (id, l)) as Hov.
    { rewrite list_elem_of_fmap. setoid_rewrite list_elem_of_filter. split.
      - intros ([id' l'] & -> & Hov & Hin). apply dict_get_elem in Hin; [|apply Hwf]. simpl in *. congruence.
      - intros Hov. exists (id, l). split_and!; [done..|]. by apply dict_get_Some_elem. }
    repeat case_decide; naive_solver.
  - intros i ws Hws Hel. assert (Hws1 := Hws). rewrite Hget2 in Hws1. case_decide; [done|].
    rewrite (Hgone i ws) in Hws; done.
  - apply Forall_fmap, Forall_forall. intros [i ws] [Hel Hin]%list_elem_of_filter. exists i, ws.
    split_and!; [done..|]. apply (Hgone i ws); [|done]. apply dict_get_elem; [apply Hwf1|done].
Qed.

(** ** Executions

    The calls the daemon makes, in the order the lock serialises them. The
    caller's obligations are [call_allowed]: [uuid4] does not repeat an id,
    and a binding names the runtime that already serves its workspace. *)

Inductive lease_call :=
| CallIssue (now : T) (fresh : uuid) (binding : option B)
| CallRebind (now : T) (id : uuid) (binding : B)
| CallHeartbeat (now : T) (id : uuid)
| CallRequire (now : T) (id : uuid)
| CallBindingFor (now : T) (id : uuid)
| CallRelease (now : T) (id : uuid) (immediate : bool)
| CallReleaseWorkspace (now : T) (id : uuid) (immediate : bool)
| CallSweep (now : T).

Inductive lease_reply :=
| ReplyLease (l : DaemonLease)
| ReplyBinding (b : B)
| ReplyRelease (r : ReleaseResult)
| ReplyDecisions (ds : list LeaseLifecycleDecision).

Definition run_call (c : lease_call) : LM lease_reply :=
  match c with
  | CallIssue now fresh ob => let! l := acquire_lease now fresh ob in py_ret (ReplyLease l)
  | CallRebind now id b => let! l := rebind now id b in py_ret (ReplyLease l)
  | CallHeartbeat now id => let! l := heartbeat now id in py_ret (ReplyLease l)
  | CallRequire now id => let! l := require_active now id in py_ret (ReplyLease l)
  | CallBindingFor now id => let! b := lease_binding_for now id in py_ret (ReplyBinding b)
  | CallRelease now id imm => let! r := release_daemon now id imm in py_ret (ReplyRelease r)
  | CallReleaseWorkspace now id imm => let! r := release_workspace now id imm in py_ret (ReplyRelease r)
  | CallSweep now => let! ds := sweep now in py_ret (ReplyDecisions ds)
  end.

Definition call_allowed (s : LeaseLifecycle) (c : lease_call) : Prop :=
  match c with
  | CallIssue _ id ob => fresh_id s id ∧ ∀ b, ob = Some b → compatible s b
  | CallRebind _ _ b => compatible s b
  | _ => True
  end.

(** The decisions a call hands to the daemon, by reply or by exception. *)
Definition decisions_of (r : res lease_error lease_reply) : list LeaseLifecycleDecision :=
  match r with
  | Ok (ReplyRelease rr) => option_list (rr_decision rr)
  | Ok (ReplyDecisions ds) => ds
  | Err (LeaseExpired _ (Some d)) => [d]
  | _ => []
  end.

Definition public_error (r : res lease_error lease_reply) : Prop :=
  match r with
  | Ok _ | Err (LeaseExpired _ _) | Err NoActiveBinding => True
  | Err _ => False
  end.

Definition issues (c : lease_call) (id : uuid) : Prop :=
  match c with CallIssue _ fresh _ => fresh = id | _ => False end.

(** What every call guarantees. *)
Record call_effect (s : LeaseLifecycle) (c : lease_call) (s' : LeaseLifecycle)
    (r : res lease_error lease_reply) : Prop := {
  ce_wf : lifecycle_wf s';
  ce_public : public_error r;
  ce_config : same_config s s';
  ce_stop : ∀ d x, d ∈ decisions_of r → d_runtime_to_stop d = Some x →
    ∃ i, d_identity d = Some i ∧ dict_get (ll_workspaces s') i = None;
  ce_dead : ∀ id, dict_get (ll_active s) id = None → ¬ issues c id →
    dict_get (ll_active s') id = None ∧ ∀ d, d ∈ decisions_of r → d_lease_id d ≠ Some id;
  ce_expired : ll_expired s ⊆ ll_expired s';
}.

Lemma same_config_refl s : same_config s s.
Proof. done. Qed.

(** A call that ends in the expiry of its lease. *)
Lemma expiry_effect s c s' id l now d r :
  dict_get (ll_active s) id = Some l → expires s id l now s' d →
  decisions_of r = [d] → public_error r → call_effect s c s' r.
Proof.
  intros Hl [Hwf' Hact Hexp Hcfg Hd Hr] Hds Hpub. split; [done..| | |]; rewrite ?Hds.
  - intros d' x ->%list_elem_of_singleton. apply Hd.
  - intros j Hj _. split.
    + rewrite Hact, dict_get_del. by case_decide.
    + intros d' ->%list_elem_of_singleton. rewrite (do_lease _ _ _ _ _ _ _ Hd). intros [= ->]. congruence.
  - rewrite Hexp. set_solver.
Qed.

(** A call on [id] without decisions that only rewrites the entry of [id]. *)
Lemma quiet_effect s c s' r :
  lifecycle_wf s' → public_error r → same_config s s' → decisions_of r = [] →
  ll_expired s' = ll_expired s →
  (∀ j, dict_get (ll_active s) j = None → ¬ issues c j → dict_get (ll_active s') j = None) →
  call_effect s c s' r.
Proof. intros ??? Hds Hexp Hdead. split; rewrite ?Hds, ?Hexp; [done..|set_solver|set_solver|done]. Qed.

(** Every call that first demands a live lease. *)
Lemma guarded_effect s c id now k :
  lifecycle_wf s → run_call c s = py_bind (_require_active_locked id now) k s →
  (∀ l, dict_get (ll_active s) id = Some l → py_ltb now (expires_at l) = true →
        call_effect s c (k l s).1 (k l s).2) →
  call_effect s c (run_call c s).1 (run_call c s).2.
Proof.
  intros Hwf -> Hk. unfold py_bind. pose proof (require_active_spec s id now Hwf) as Hreq.
  destruct (dict_get (ll_active s) id) as [l|] eqn:Hl.
  - destruct (py_ltb now (expires_at l)) eqn:Hlive; [rewrite Hreq; by apply Hk|].
    destruct Hreq as (s' & d & -> & Hex). by apply (expiry_effect s c s' id l now d).
  - rewrite Hreq. by apply quiet_effect.
Qed.

Lemma issue_effect s now id ob :
  lifecycle_wf s → call_allowed s (CallIssue now id ob) →
  call_effect s (CallIssue now id ob) (run_call (CallIssue now id ob) s).1 (run_call (CallIssue now id ob) s).2.
Proof.
  intros Hwf [Hf Hc]. destruct (issue_spec s now id ob Hwf Hf Hc) as (s' & Heq & Hwf' & Hact & Hexp & Hcfg & _).
  unfold run_call, acquire_lease, py_bind. rewrite Heq; simpl. apply quiet_effect; try done; simpl.
  intros j Hj Hne. by rewrite Hact, dict_get_set_ne by congruence.
Qed.

(** Replacing the entry of a live lease keeps the dead ones dead. *)
Lemma dead_after_set (a : list (uuid * DaemonLease)) id l l' j :
  dict_get a id = Some l → dict_get a j = None → dict_get (dict_set a id l') j = None.
Proof. intros Hl Hj. rewrite dict_get_set_ne by congruence. done. Qed.

Lemma rebind_effect s now id b :
  lifecycle_wf s → call_allowed s (CallRebind now id b) →
  call_effect s (CallRebind now id b) (run_call (CallRebind now id b) s).1 (run_call (CallRebind now id b) s).2.
Proof.
  intros Hwf Hc.
  pose proof (require_active_spec s id now Hwf) as Hreq.
  destruct (dict_get (ll_active s) id) as [l|] eqn:Hl; [destruct (py_ltb now (expires_at l)) eqn:Hlive|].
  - destruct (rebind_spec s now id l b Hwf Hl Hlive Hc) as (s' & Heq & Hwf' & Hact & Hexp & Hcfg & _).
    unfold run_call, py_bind. rewrite Heq. apply quiet_effect; try done. intros j Hj _. simpl. rewrite Hact.
    by apply (dead_after_set _ _ l).
  - eapply (guarded_effect s _ id now); [done|apply py_bind_assoc|congruence].
  - eapply (guarded_effect s _ id now); [done|apply py_bind_assoc|congruence].
Qed.

Lemma release_effect s now id imm :
  lifecycle_wf s →
  call_effect s (CallRelease now id imm) (run_call (CallRelease now id imm) s).1
    (run_call (CallRelease now id imm) s).2.
Proof.
  intros Hwf. unfold run_call, release_daemon, py_bind, py_get, py_modify, py_ret.
  destruct (dict_get (ll_active s) id) as [l|] eqn:Hl; [|by apply quiet_effect].
  destruct (py_leb (expires_at l) now).
  - destruct (expire_spec s id l now Hwf Hl) as (s0 & d & -> & Hex).
    by apply (expiry_effect s _ _ id l now d).
  - destruct (end_locked_spec s id l RELEASED now imm Hwf Hl) as (s' & d & -> & Hwf' & Hact & Hexp & Hcfg & Hd & Hr).
    split; simpl; [done..| | |by rewrite Hexp].
    + intros d' x ->%list_elem_of_singleton. apply Hd.
    + intros j Hj _. split; [rewrite Hact, dict_get_del; by case_decide|].
      intros d' ->%list_elem_of_singleton. rewrite (do_lease _ _ _ _ _ _ _ Hd). intros [= ->]. congruence.
Qed.

Lemma release_workspace_effect s now id imm :
  lifecycle_wf s →
  call_effect s (CallReleaseWorkspace now id imm) (run_call (CallReleaseWorkspace now id imm) s).1
    (run_call (CallReleaseWorkspace now id imm) s).2.
Proof.
  intros Hwf. pose proof (require_active_spec s id now Hwf) as Hreq. eapply (guarded_effect s _ id now); [done|apply py_bind_assoc|].
  intros l Hl Hlive. rewrite Hl, Hlive in Hreq.
  destruct (dl_binding l) as [b|] eqn:Hb; 
    [|unfold py_bind; rewrite Hb; by apply quiet_effect].
  destruct (release_workspace_spec s now id l b imm Hwf Hl Hlive Hb) as (s' & d & Heq & Hwf' & Hact & Hexp & Hcfg & Hd).
  unfold release_workspace in Heq. unfold py_bind at 1 in Heq. rewrite Hreq, Hb in Heq.
  rewrite Hb. unfold py_bind at 1 4. rewrite Heq. split; simpl; [done..| | |by rewrite Hexp].
  - intros d' x ->%list_elem_of_singleton. apply Hd.
  - intros j Hj _. split; [rewrite Hact; by apply (dead_after_set _ _ l)|].
    intros d' ->%list_elem_of_singleton. rewrite (do_lease _ _ _ _ _ _ _ Hd). intros [= ->]. congruence.
Qed.

Lemma sweep_effect s now :
  lifecycle_wf s →
  call_effect s (CallSweep now) (run_call (CallSweep now) s).1 (run_call (CallSweep now) s).2.
Proof.
  intros Hwf. destruct (sweep_spec s now Hwf) as
    (s' & eds & gds & Heq & Hwf' & Hcfg & Hact & Hexp & Hids & Hall & _ & Hg).
  unfold run_call, py_bind. rewrite Heq. split; simpl; [done..| | |rewrite Hexp; set_solver].
  - intros d x [Hd|Hd]%elem_of_app Hx.
    + rewrite Forall_forall in Hall. destruct (Hall d Hd). congruence.
    + rewrite Forall_forall in Hg. destruct (Hg d Hd) as (i & ws & -> & _ & Hgone). by exists i.
  - intros j Hj _. split; [by rewrite Hact, Hj|]. intros d [Hd|Hd]%elem_of_app Hid.
    + apply (list_elem_of_fmap_2 d_lease_id) in Hd. rewrite Hids, Hid in Hd.
      apply list_elem_of_fmap in Hd as (j' & [= <-] & Hin).
      apply list_elem_of_fmap in Hin as ([j'' l] & -> & [_ Hin]%list_elem_of_filter).
      apply dict_get_elem in Hin; [simpl in *; congruence|apply Hwf].
    + rewrite Forall_forall in Hg. by destruct (Hg d Hd) as (i & ws & -> & _).
Qed.

Lemma run_call_effect s c :
  lifecycle_wf s → call_allowed s c → call_effect s c (run_call c s).1 (run_call c s).2.
Proof.
  intros Hwf Hc. destruct c as [now id ob|now id b|now id|now id|now id|now id imm|now id imm|now].
  - by apply issue_effect.
  - by apply rebind_effect.
  - eapply (guarded_effect s _ id now); [done|apply py_bind_assoc|]. intros l Hl Hlive.
    destruct (heartbeat_wf s now id l Hwf Hl Hlive) as (s' & l' & Heq & Hwf' & _ & _ & Hact & Hexp & Hcfg & _).
    pose proof (require_active_spec s id now Hwf) as Hreq. rewrite Hl, Hlive in Hreq.
    unfold heartbeat, py_bind, py_modify, py_ret in Heq |- *. rewrite Hreq in Heq. simplify_eq.
    apply quiet_effect; try done. intros j Hj _. simpl. by apply (dead_after_set _ _ l).
  - eapply (guarded_effect s _ id now); [done|done|]. intros l Hl Hlive. by apply quiet_effect.
  - eapply (guarded_effect s _ id now); [done|unfold run_call, lease_binding_for, require_active; apply py_bind_assoc|]. intros l Hl Hlive.
    unfold py_bind, py_ret. destruct (dl_binding l); by apply quiet_effect.
  - by apply release_effect.
  - by apply release_workspace_effect.
  - by apply sweep_effect.
Qed.

Inductive lease_reachable : LeaseLifecycle → Prop :=
| LReachInit zero heartbeat expiry grace s :
    lifecycle_init zero heartbeat expiry grace = Ok s → lease_reachable s
| LReachCall s c : lease_reachable s → call_allowed s c → lease_reachable (run_call c s).1.

Lemma reachable_wf s : lease_reachable s → lifecycle_wf s.
Proof.
  induction 1 as [zero hb ex gr s Hinit|s c Hr IH Hc].
  - unfold lifecycle_init in Hinit. repeat case_match; simplify_eq. split; simpl; try done; try apply NoDup_nil_2.
  - by apply (run_call_effect s c).
Qed.

(** A run of calls, each allowed in the state it is made in. *)
Fixpoint run_calls (cs : list lease_call) (s : LeaseLifecycle)
    : LeaseLifecycle * list (res lease_error lease_reply) :=
  match cs with
  | [] => (s, [])
  | c :: cs => let '(s', r) := run_call c s in
               let '(s'', rs) := run_calls cs s' in (s'', r :: rs)
  end.

Fixpoint run_allowed (s : LeaseLifecycle) (cs : list lease_call) : Prop :=
  match cs with
  | [] => True
  | c :: cs => call_allowed s c ∧ run_allowed (run_call c s).1 cs
  end.

Lemma run_calls_cons c cs s :
  run_calls (c :: cs) s =
  ((run_calls cs (run_call c s).1).1, (run_call c s).2 :: (run_calls cs (run_call c s).1).2).
Proof. simpl. destruct (run_call c s) as [s' r]; simpl. by destruct (run_calls cs s'). Qed.

Lemma run_reachable s cs : lease_reachable s → run_allowed s cs → lease_reachable (run_calls cs s).1.
Proof.
  revert s. induction cs as [|c cs IH]; intros s Hs; [done|]. intros [Hc Hall]. rewrite run_calls_cons; simpl.
  apply IH; [|done]. by apply LReachCall.
Qed.

Lemma dead_run s cs id :
  lifecycle_wf s → run_allowed s cs → dict_get (ll_active s) id = None →
  Forall (λ c, ¬ issues c id) cs →
  dict_get (ll_active (run_calls cs s).1) id = None ∧
  ∀ r d, r ∈ (run_calls cs s).2 → d ∈ decisions_of r → d_lease_id d ≠ Some id.
Proof.
  revert s. induction cs as [|c cs IH]; intros s Hwf Hall Hdead Hiss.
  { simpl. set_solver. }
  destruct Hall as [Hc Hall]. apply Forall_cons in Hiss as [Hi Hiss].
  destruct (run_call_effect s c Hwf Hc) as [Hwf' _ _ _ Hd _].
  destruct (Hd id Hdead Hi) as [Hdead' Hno]. destruct (IH _ Hwf' Hall Hdead' Hiss) as [Hend Hrest].
  rewrite run_calls_cons; simpl. split; [done|]. intros r d [->|Hr]%elem_of_cons; [by apply Hno|by apply Hrest].
Qed.

Lemma untracked_unbound s i id :
  lifecycle_wf s → dict_get (ll_workspaces s) i = None → ¬ bound_to s i id.
Proof.
  intros Hwf Hnone (l & b & Hl & Hb & <-). destruct (lw_bound _ Hwf _ _ _ Hl Hb) as (ws & ? & _). congruence.
Qed.

(** ** Properties *)

Lemma compatible_or_conflict s b :
  compatible s b ∨ ∃ ws, dict_get (ll_workspaces s) (bl_identity b) = Some ws ∧ ws_runtime ws ≠ bl_runtime b.
Proof.
  unfold compatible. destruct (dict_get (ll_workspaces s) (bl_identity b)) as [ws|]; [|by left].
  destruct (decide (ws_runtime ws = bl_runtime b)); [left; congruence|right; eauto].
Qed.

(** A binding of a workspace that another runtime serves is refused as such. *)
Lemma rebind_conflict_errors s now id b ws :
  lifecycle_wf s → dict_get (ll_workspaces s) (bl_identity b) = Some ws → ws_runtime ws ≠ bl_runtime b →
  match (rebind now id b s).2 with Err (LeaseExpired _ _ | TwoLiveRuntimes | RuntimeChangedWhileLeased) => True | _ => False end.
Proof.
  intros Hwf Hwsb Hrtb. pose proof (require_active_spec s id now Hwf) as Hreq. unfold rebind, py_bind at 1.
  destruct (dict_get (ll_active s) id) as [l|] eqn:Hl; [|by rewrite Hreq].
  destruct (py_ltb now (expires_at l)); [|destruct Hreq as (s' & d & -> & _); done]. rewrite Hreq.
  destruct (dl_binding l) as [old|] eqn:Hold.
  - destruct (bound_state s id l old Hwf Hl Hold) as (ws0 & Hws0 & Hrt & Hin).
    destruct (decide (bl_identity old = bl_identity b)) as [Heq|Hne].
    + rewrite bool_decide_true by done. rewrite decide_False by (intros Hn; by apply Hn).
      rewrite decide_True; [done|]. rewrite Heq, Hwsb in Hws0. congruence.
    + rewrite bool_decide_false by done. rewrite decide_True by done.
      unfold _remove_holder_locked, py_bind, py_ret, py_modify. rewrite (lw_ids _ Hwf _ _ Hl), (drop_holder_eq s id _ now false ws0 Hws0 Hin).
      destruct (detach_result _ _ _ _ _) as [[left stop] deadline].
      rewrite (add_holder_conflict _ _ _ ws); [done| |done]. simpl. by rewrite detach_ws_get, decide_False by congruence.
  - unfold py_bind, py_ret, py_modify. by rewrite (add_holder_conflict _ _ _ ws).
Qed.

(** C8: In every state that is reached by calls which issue unused ids and
    name, for a workspace that is tracked, the runtime that serves it, the
    lifecycle invariant holds: a lease is a holder of exactly the workspace of its
    binding, every tracked workspace has one runtime, a grace deadline is set
    exactly when a workspace has no holder, expired ids are never active. In such
    a state every call of this kind keeps the invariant and raises only the
    public errors; a call that names another runtime may besides be refused by one
    of the two runtime conflicts; and no call with an unused id whatsoever
    raises the [KeyError] of an inconsistent lifecycle. *)
Theorem lifecycle_invariant s :
  lease_reachable s →
  lifecycle_wf s ∧
  (∀ c, call_allowed s c → lifecycle_wf (run_call c s).1 ∧ public_error (run_call c s).2) ∧
  (∀ c, (∀ now id ob, c = CallIssue now id ob → fresh_id s id) →
     match (run_call c s).2 with
     | Err (TwoLiveRuntimes | RuntimeChangedWhileLeased) => ¬ call_allowed s c
     | r => public_error r
     end).
Proof.
  intros Hs%reachable_wf.
  assert (∀ c, call_allowed s c → lifecycle_wf (run_call c s).1 ∧ public_error (run_call c s).2) as Hall.
  { intros c Hc. destruct (run_call_effect s c Hs Hc). by split. }
  split_and!; [done|done|]. intros c Hfresh.
  assert (call_allowed s c → match (run_call c s).2 with
     | Err (TwoLiveRuntimes | RuntimeChangedWhileLeased) => ¬ call_allowed s c | r => public_error r end) as Hok.
  { intros Hc. destruct (Hall c Hc) as [_ Hp]. by destruct (run_call c s).2 as [|[]]. }
  destruct c as [now id [b|]|now id b|now id|now id|now id|now id imm|now id imm|now]; try by apply Hok.
  - specialize (Hfresh _ _ _ eq_refl). destruct (compatible_or_conflict s b) as [Hc|(ws & Hws & Hne)].
    + apply Hok. split; [done|]. by intros ? [= <-].
    + unfold run_call, acquire_lease, issue, py_bind, py_get, py_modify. rewrite (add_holder_conflict _ _ _ ws) by done.
      intros [_ Hc]. by apply Hne, (Hc b).
  - apply Hok. split; [by eapply Hfresh|done].
  - destruct (compatible_or_conflict s b) as [Hc|(ws & Hws & Hne)]; [by apply Hok|].
    pose proof (rebind_conflict_errors s now id b ws Hs Hws Hne) as He. unfold run_call, py_bind.
    destruct (rebind now id b s) as [s' [l|[]]]; try done; intros Hc; by apply Hne, Hc.
Qed.

(** A decision that tells the daemon to stop a runtime is only ever
    issued for a workspace that, once the call is over, is no longer tracked,
    has no holder and has no live lease bound to it. *)
Theorem runtime_stop_only_unheld s c d r :
  lease_reachable s → call_allowed s c →
  d ∈ decisions_of (run_call c s).2 → d_runtime_to_stop d = Some r →
  ∃ i, d_identity d = Some i ∧ active_holders i (run_call c s).1 = 0%nat ∧
       ∀ id, ¬ bound_to (run_call c s).1 i id.
Proof.
  intros Hs%reachable_wf Hc Hd Hr. destruct (run_call_effect s c Hs Hc) as [Hwf' _ _ Hstop _ _].
  destruct (Hstop d r Hd Hr) as (i & Hi & Hgone). exists i. split; [done|].
  split; [by unfold active_holders; rewrite Hgone|]. intros id. by apply untracked_unbound.
Qed.

(** The expiry boundary is exact. A heartbeat (likewise a use of the
    lease) succeeds exactly when the lease is active and the clock reads
    strictly less than its expiry; a heartbeat that succeeds restarts the
    expiry from the reading; otherwise the call raises LEASE_EXPIRED for that
    id and the lease is not active afterwards. *)
Theorem lease_expiry_boundary s now id :
  lease_reachable s →
  (if match dict_get (ll_active s) id with
      | Some l => py_ltb now (expires_at l)
      | None => false
      end
   then
     (∃ s' l', heartbeat now id s = (s', Ok l') ∧ dict_get (ll_active s') id = Some l' ∧
               dl_id l' = id ∧ last_heartbeat_at l' = now ∧ ll_workspaces s' = ll_workspaces s) ∧
     (∃ l, require_active now id s = (s, Ok l))
   else
     ∃ s' od, heartbeat now id s = (s', Err (LeaseExpired id od)) ∧
              require_active now id s = (s', Err (LeaseExpired id od)) ∧
              dict_get (ll_active s') id = None).
Proof.
  intros Hs%reachable_wf. pose proof (require_active_spec s id now Hs) as Hreq.
  destruct (dict_get (ll_active s) id) as [l|] eqn:Hl; [destruct (py_ltb now (expires_at l)) eqn:Hlive|].
  - split; [|by exists l].
    destruct (heartbeat_wf s now id l Hs Hl Hlive) as (s' & l' & Heq & Hwf' & Hhb & _ & Hact & _ & _ & Hws).
    assert (dict_get (ll_active s') id = Some l') as Hl' by (rewrite Hact; apply dict_get_set_eq).
    exists s', l'. split_and!; try done. by apply (lw_ids _ Hwf').
  - destruct Hreq as (s' & d & Hreq & Hex). exists s', (Some d). unfold heartbeat, require_active, py_bind.
    rewrite Hreq. split_and!; [done..|]. rewrite (ex_active _ _ _ _ _ _ Hex). apply dict_get_del_eq.
  - exists s, None. unfold heartbeat, require_active, py_bind. by rewrite Hreq.
Qed.

(** A lease that is not active (released, expired or never issued) can
    not come back: through any run of allowed calls that does not issue its id
    anew it stays inactive, and no decision ever names it again, so the
    registry binding of an ended lease is released once. *)
Theorem ended_lease_never_returns s cs id :
  lease_reachable s → run_allowed s cs → dict_get (ll_active s) id = None →
  Forall (λ c, ¬ issues c id) cs →
  dict_get (ll_active (run_calls cs s).1) id = None ∧
  ∀ r d, r ∈ (run_calls cs s).2 → d ∈ decisions_of r → d_lease_id d ≠ Some id.
Proof. intros Hs%reachable_wf. by apply dead_run. Qed.

(** A sweep ends exactly the leases whose expiry has been reached, one
    EXPIRED decision each and in issue order, never stopping a runtime for
    them; then it stops the workspaces whose warm grace has elapsed. After it
    no overdue lease is active and no tracked workspace has an elapsed grace,
    while every other lease is untouched. *)
Theorem sweep_exact s now :
  lease_reachable s →
  ∃ s' eds gds, sweep now s = (s', Ok (eds ++ gds)) ∧
    (∀ id, dict_get (ll_active s') id =
       match dict_get (ll_active s) id with
       | Some l => if py_leb (expires_at l) now then None else Some l
       | None => None
       end) ∧
    d_lease_id <$> eds = Some <$> (filter (overdue now) (ll_active s)).*1 ∧
    Forall (λ d, d_reason d = EXPIRED ∧ d_runtime_to_stop d = None) eds ∧
    Forall (λ d, ∃ i ws, d = grace_stop i ws ∧ grace_elapsed now ws = true ∧
                         dict_get (ll_workspaces s') i = None) gds ∧
    (∀ i ws, dict_get (ll_workspaces s') i = Some ws → grace_elapsed now ws = false).
Proof.
  intros Hs%reachable_wf. destruct (sweep_spec s now Hs) as
    (s' & eds & gds & Heq & _ & _ & Hact & _ & Hids & Hall & Hws & Hg).
  exists s', eds, gds. split_and!; try done.
  - intros id. rewrite Hact. destruct (dict_get _ _) as [l|]; [|done].
    destruct (decide (overdue now (id, l))) as [Ho|Ho]; unfold overdue in Ho; simpl in Ho;
      by destruct (py_leb (expires_at l) now).
  - intros i ws Hi. specialize (Hws i ws Hi). unfold elapsed in Hws; simpl in Hws.
    by destruct (grace_elapsed now ws).
Qed.

(** Releasing a live lease ends it with the promised decision (the
    binding to release; the runtime to stop exactly for an immediate release
    by the last holder; a grace deadline otherwise), and releasing again is a
    no-op that reports [released = False] without a decision. *)
Theorem release_daemon_idempotent s now now' id l imm imm' :
  lease_reachable s → dict_get (ll_active s) id = Some l → py_ltb now (expires_at l) = true →
  ∃ s' d, release_daemon now id imm s = (s', Ok {| rr_released := true; rr_decision := Some d |}) ∧
    decision_ok s id l now imm s' d ∧
    release_daemon now' id imm' s' = (s', Ok {| rr_released := false; rr_decision := None |}).
Proof.
  intros Hs%reachable_wf Hl Hlive.
  destruct (end_locked_spec s id l RELEASED now imm Hs Hl) as (s' & d & Heq & _ & Hact & _ & _ & Hd & _).
  exists s', d. unfold release_daemon, py_bind, py_get, py_ret. rewrite Hl.
  unfold py_ltb in Hlive. destruct (py_leb (expires_at l) now); [done|]. rewrite Heq.
  split_and!; [done..|]. by rewrite Hact, dict_get_del_eq.
Qed.

(** [rebind] is not atomic when the new binding's workspace is already
    served by another runtime: the exception leaves the lease removed from its
    old workspace's holders (which may even start its warm grace) although
    the lease still carries its old binding, and the next release of that
    lease raises [KeyError]. *)
Theorem rebind_conflict_strands_lease s now now' id l old b ws imm :
  lease_reachable s → dict_get (ll_active s) id = Some l → py_ltb now (expires_at l) = true →
  py_ltb now' (expires_at l) = true →
  dl_binding l = Some old → bl_identity old ≠ bl_identity b →
  dict_get (ll_workspaces s) (bl_identity b) = Some ws → ws_runtime ws ≠ bl_runtime b →
  ∃ s', rebind now id b s = (s', Err TwoLiveRuntimes) ∧
    ll_active s' = ll_active s ∧
    (∀ ws', dict_get (ll_workspaces s') (bl_identity old) = Some ws' → id ∉ ws_holders ws') ∧
    (release_daemon now' id imm s').2 = Err LifecycleKeyError.
Proof.
  intros Hs%reachable_wf Hl Hlive Hlive' Hold Hne Hwsb Hrt'. pose proof (require_active_spec s id now Hs) as Hreq.
  rewrite Hl, Hlive in Hreq. pose proof (lw_ids _ Hs _ _ Hl) as Hid.
  destruct (bound_state s id l old Hs Hl Hold) as (ws0 & Hws0 & Hrt & Hin).
  unfold rebind. unfold py_bind at 1. rewrite Hreq, Hold, decide_True, bool_decide_false by done.
  unfold _remove_holder_locked, py_bind, py_ret, py_modify. rewrite Hid.
  rewrite (drop_holder_eq s id _ now false ws0 Hws0 Hin).
  destruct (detach_result _ _ _ _ _) as [[left stop] deadline].
  rewrite (add_holder_conflict _ _ _ ws); [| |done];
    [|simpl; by rewrite detach_ws_get, decide_False by congruence].
  assert (∀ ws', dict_get (detach_ws (ll_warm_grace s) now false id (bl_identity old) ws0 (ll_workspaces s))
    (bl_identity old) = Some ws' → id ∉ ws_holders ws') as Hout.
  { intros ws'. rewrite detach_ws_get, decide_True by done. case_decide; [done|].
    intros [= <-]; simpl. unfold holders_left. set_solver. }
  eexists. split; [done|]. split; [done|]. split; [done|].
  unfold release_daemon, py_bind, py_get. simpl. rewrite Hl.
  unfold py_ltb in Hlive'. destruct (py_leb (expires_at l) now'); [done|].
  unfold _end_locked, py_bind, py_get, py_modify. simpl. rewrite Hid, Hl, Hold.
  by rewrite drop_holder_missing.
Qed.

End leases.

(** ** Example runs

    Clock readings are integer seconds; a binding is a pair of a workspace
    number and a runtime number. *)

Module LeaseExamples.

#[local] Instance pair_binding : BindingLike (nat * nat) nat nat :=
  {| bl_identity := fst; bl_runtime := snd |}.

Definition start : @LeaseLifecycle (nat * nat) nat nat Z :=
  {| ll_heartbeat_interval := 15; ll_expiry := 60; ll_warm_grace := 600;
     ll_active := []; ll_expired := ∅; ll_workspaces := [] |}.

(** Two leases: the first on workspace 1, the second on workspace 2. *)
Definition two_calls : list (@lease_call (nat * nat) Z) :=
  [CallIssue 0 1%positive None; CallRebind 1 1%positive (1, 10)%nat;
   CallIssue 2 2%positive (Some (2, 20)%nat)].

Definition two : @LeaseLifecycle (nat * nat) nat nat Z := (run_calls Z.add two_calls start).1.

Ltac allowed := repeat split; try exact I; try (vm_compute; done);
  try (intros [|]; vm_compute; naive_solver);
  try (intros ? ?; simplify_eq; intros ? Hget; vm_compute in Hget; simplify_eq; done);
  try (intros ? Hget; vm_compute in Hget; simplify_eq; done);
  try (apply (bool_decide_eq_true_1 _); vm_compute; reflexivity).

Lemma two_reachable : lease_reachable Z.add two.
Proof.
  apply run_reachable; [|allowed].
  by apply (LReachInit Z.add 0 15 60 600).
Defined.

Lemma lifecycle_invariant_witness :
  lifecycle_wf two ∧ public_error (run_call Z.add (CallRelease 3 1%positive true) two).2.
Proof.
  destruct (lifecycle_invariant Z.add two two_reachable) as (Hwf & Hall & _). split; [exact Hwf|].
  apply (Hall (CallRelease 3 1%positive true)). exact Logic.I.
Defined.

Lemma runtime_stop_only_unheld_witness :
  let c := CallRelease 3 1%positive true in
  let d := {| d_reason := RELEASED; d_identity := Some 1%nat; d_active_holders := 0;
              d_binding_to_release := Some (1, 10)%nat; d_lease_id := Some 1%positive;
              d_runtime_to_stop := Some 10%nat; d_grace_deadline := None |} in
  d ∈ decisions_of (run_call Z.add c two).2 ∧
  ∃ i, d_identity d = Some i ∧ active_holders i (run_call Z.add c two).1 = 0%nat ∧
       ∀ id, ¬ bound_to (run_call Z.add c two).1 i id.
Proof.
  intros c d. assert (d ∈ decisions_of (run_call Z.add c two).2) as Hd by (vm_compute; constructor).
  split; [exact Hd|].
  apply (runtime_stop_only_unheld Z.add two c d 10%nat); [exact two_reachable|exact I|exact Hd|reflexivity].
Defined.

Lemma lease_expiry_boundary_witness :
  (∃ s' l', heartbeat Z.add 59 1%positive two = (s', Ok l') ∧ last_heartbeat_at l' = 59) ∧
  ∃ s' od, heartbeat Z.add 60 1%positive two = (s', Err (LeaseExpired 1%positive od)) ∧
           dict_get (ll_active s') 1%positive = None.
Proof.
  split.
  - destruct (proj1 (lease_expiry_boundary Z.add two 59 1%positive two_reachable))
      as (s' & l' & Heq & _ & _ & Hhb & _). by exists s', l'.
  - destruct (lease_expiry_boundary Z.add two 60 1%positive two_reachable) as (s' & od & Heq & _ & Hd).
    by exists s', od.
Defined.

Definition after_release : @LeaseLifecycle (nat * nat) nat nat Z :=
  (run_call Z.add (CallRelease 3 1%positive false) two).1.

Lemma ended_lease_never_returns_witness :
  let cs := [CallHeartbeat 4 1%positive; CallSweep 70; CallRelease 71 1%positive true] in
  dict_get (ll_active (run_calls Z.add cs after_release).1) 1%positive = None ∧
  ∀ r d, r ∈ (run_calls Z.add cs after_release).2 → d ∈ decisions_of r → d_lease_id d ≠ Some 1%positive.
Proof.
  intros cs. apply (ended_lease_never_returns Z.add after_release cs 1%positive).
  - apply LReachCall; [exact two_reachable|exact I].
  - allowed.
  - reflexivity.
  - repeat constructor; intros [].
Defined.

Lemma sweep_exact_witness :
  ∃ s' eds gds, sweep Z.add 61 two = (s', Ok (eds ++ gds)) ∧
    d_lease_id <$> eds = [Some 1%positive] ∧ is_Some (dict_get (ll_active s') 2%positive).
Proof.
  destruct (sweep_exact Z.add two 61 two_reachable) as (s' & eds & gds & Heq & Hact & Hids & _).
  exists s', eds, gds. split_and!; [exact Heq|rewrite Hids; reflexivity|].
  rewrite Hact. vm_compute. by eexists.
Defined.

Lemma release_daemon_idempotent_witness :
  ∃ s' d, release_daemon Z.add 3 1%positive true two =
            (s', Ok {| rr_released := true; rr_decision := Some d |}) ∧
    d_runtime_to_stop d = Some 10%nat ∧
    release_daemon Z.add 4 1%positive false s' = (s', Ok {| rr_released := false; rr_decision := None |}).
Proof.
  destruct (dict_get (ll_active two) 1%positive) as [l|] eqn:Hl; [|by vm_compute in Hl].
  assert (Hl' := Hl). vm_compute in Hl'. injection Hl' as Hl'. subst l.
  destruct (release_daemon_idempotent Z.add two 3 4 1%positive _ true false two_reachable Hl eq_refl)
    as (s' & d & Heq & Hd & Hagain).
  exists s', d. split_and!; [exact Heq| |exact Hagain].
  apply (do_stop _ _ _ _ _ _ _ _ Hd). split; [done|]. exists (1, 10)%nat. split_and!; [done..|].
  intros j (l & b & Hj & Hb & Hi). apply dict_get_Some_elem in Hj. vm_compute in Hj.
  apply elem_of_cons in Hj as [[= -> ->]|Hj]; [done|]. apply list_elem_of_singleton in Hj as [= -> ->].
  simpl in Hb. simplify_eq.
Defined.

Lemma rebind_conflict_strands_lease_witness :
  ∃ s', rebind Z.add 3 1%positive (2, 21)%nat two = (s', Err TwoLiveRuntimes) ∧
    ll_active s' = ll_active two ∧
    (release_daemon Z.add 4 1%positive false s').2 = Err LifecycleKeyError.
Proof.
  destruct (dict_get (ll_active two) 1%positive) as [l|] eqn:Hl; [|by vm_compute in Hl].
  destruct (dict_get (ll_workspaces two) 2%nat) as [ws|] eqn:Hws; [|by vm_compute in Hws].
  assert (Hl' := Hl). vm_compute in Hl'. injection Hl' as Hl'. subst l.
  assert (Hws' := Hws). vm_compute in Hws'. injection Hws' as Hws'. subst ws.
  destruct (rebind_conflict_strands_lease Z.add two 3 4 1%positive _ (1, 10)%nat (2, 21)%nat _ false
    two_reachable Hl eq_refl eq_refl eq_refl ltac:(done) Hws ltac:(done)) as (s' & Heq & Hact & _ & Hrel).
  by exists s'.
Defined.

End LeaseExamples.
