(* ===== verification/LspState.v ===== *)
(** * Document and diagnostic state of one language server

    Model of [src/serena_light/lsp/state.py]. Every method takes the state
    lock, so an execution is a sequence of the operations below. Paths are a
    type with decidable equality; URIs are strings; versions and generations
    are Python integers. *)

From S2P Require Import Prelude.

Inductive DiagnosticsState := MISSING | CLEAN | FINDINGS | STALE.
#[export] Instance DiagnosticsState_eq_dec : EqDecision DiagnosticsState.
Proof. solve_decision. Defined.

(** ** Freezing diagnostics *)

(** The Python objects [_freeze] distinguishes. A scalar is a [str], [bytes],
    [int], [float], [bool] or [None] (kept as its printed form); [PyOpaque] is
    an object with neither fields nor [__dict__]. *)
Inductive PyValue :=
| PyScalar (repr : pystr)
| PyDataclass (fields : list (pystr * PyValue))
| PyMapping (items : list (pystr * PyValue))
| PySequence (items : list PyValue)
| PySet (items : list PyValue)
| PyAttrs (fields : list (pystr * PyValue))
| PySlots (fields : list (pystr * option PyValue))
| PyInstance (fields : list (pystr * PyValue))
| PyOpaque.

(** Immutable values: mapping proxies, tuples, frozen sets and scalars. *)
Inductive Frozen :=
| FScalar (repr : pystr)
| FMapping (items : list (pystr * Frozen))
| FTuple (items : list Frozen)
| FSet (items : list Frozen).

Inductive freeze_error := FreezeTypeError.

(** A mapping proxy is not hashable, so it cannot enter a frozen set. *)
Fixpoint frozen_hashable (v : Frozen) : bool :=
  match v with
  | FScalar _ | FSet _ => true
  | FMapping _ => false
  | FTuple items => forallb frozen_hashable items
  end.

(** [_freeze]. [dataclasses.asdict] turns nested dataclasses into the dicts
    that [_freeze] turns into the same mappings, so the two recursions are one
    here; a slot that is not set on the instance is skipped. *)
Fixpoint _freeze (v : PyValue) : res freeze_error Frozen :=
  let fields := fix fields (l : list (pystr * PyValue)) : res freeze_error (list (pystr * Frozen)) :=
    match l with
    | [] => Ok []
    | (k, x) :: l => y ← _freeze x; ys ← fields l; Ok ((k, y) :: ys)
    end in
  let items := fix items (l : list PyValue) : res freeze_error (list Frozen) :=
    match l with
    | [] => Ok []
    | x :: l => y ← _freeze x; ys ← items l; Ok (y :: ys)
    end in
  let slots := fix slots (l : list (pystr * option PyValue)) : res freeze_error (list (pystr * Frozen)) :=
    match l with
    | [] => Ok []
    | (k, Some x) :: l => y ← _freeze x; ys ← slots l; Ok ((k, y) :: ys)
    | (k, None) :: l => slots l
    end in
  match v with
  | PyDataclass fs => ys ← fields fs; Ok (FMapping ys)
  | PyMapping kvs => ys ← fields kvs; Ok (FMapping ys)
  | PyScalar r => Ok (FScalar r)
  | PySequence xs => ys ← items xs; Ok (FTuple ys)
  | PySet xs => ys ← items xs;
      if forallb frozen_hashable ys then Ok (FSet ys) else Err FreezeTypeError
  | PyAttrs fs => ys ← fields fs; Ok (FMapping ys)
  | PySlots fs => ys ← slots fs; Ok (FMapping ys)
  | PyInstance fs => ys ← fields fs; Ok (FMapping ys)
  | PyOpaque => Err FreezeTypeError
  end.

Section lsp_state.
Context {P : Type} `{EqDecision P}.

(** ** Data *)

Record Generations := { gen_source : Z; gen_index : Z; gen_diagnostics : Z }.

Record DocumentSnapshot := {
  doc_uri : pystr;
  doc_path : P;
  doc_version : option Z;
  doc_generation : Z;
}.

Record DiagnosticsSnapshot := {
  snap_state : DiagnosticsState;
  snap_uri : pystr;
  snap_path : option P;
  snap_version : option Z;
  snap_generation : Z;
  snap_diagnostics_generation : option Z;
  snap_diagnostics : list Frozen;
}.

Record Publication := {
  pub_document : DocumentSnapshot;
  pub_diagnostics_generation : Z;
  pub_diagnostics : list Frozen;
}.

Record LspState := {
  st_generations : Generations;
  st_documents : gmap pystr DocumentSnapshot;
  st_publications : gmap pystr Publication;
}.

Inductive state_error := NegativeGeneration | FreezeFailed.

Definition lsp_state_init : LspState :=
  {| st_generations := {| gen_source := 0; gen_index := 0; gen_diagnostics := 0 |};
     st_documents := ∅; st_publications := ∅ |}.

Definition set_generations (g : Generations) (s : LspState) : LspState :=
  {| st_generations := g; st_documents := st_documents s; st_publications := st_publications s |}.

(** ** Operations *)

Definition advance_source_generation (s : LspState) : LspState * Generations :=
  let g := st_generations s in
  let g' := {| gen_source := gen_source g + 1; gen_index := gen_index g; gen_diagnostics := gen_diagnostics g |} in
  (set_generations g' s, g').

Definition advance_index_generation (s : LspState) : LspState * Generations :=
  let g := st_generations s in
  let g' := {| gen_source := gen_source g; gen_index := gen_index g + 1; gen_diagnostics := gen_diagnostics g |} in
  (set_generations g' s, g').

Definition observe_index_generation (generation : Z) (s : LspState) : LspState * res state_error Generations :=
  if bool_decide (generation < 0) then (s, Err NegativeGeneration)
  else
    let g := st_generations s in
    if bool_decide (gen_index g < generation)
    then let g' := {| gen_source := gen_source g; gen_index := generation; gen_diagnostics := gen_diagnostics g |} in
         (set_generations g' s, Ok g')
    else (s, Ok g).

Definition _is_newer_version (candidate current : option Z) : bool :=
  match current with
  | None => match candidate with Some _ => true | None => true end
  | Some c => match candidate with Some v => bool_decide (c < v) | None => false end
  end.

Definition update_document (uri : pystr) (path : P) (version : option Z) (s : LspState)
    : LspState * option DocumentSnapshot :=
  let previous := st_documents s !! uri in
  let old := match previous with
             | Some p => negb (_is_newer_version version (doc_version p))
             | None => false
             end in
  if old then (s, None)
  else
    let generation := match previous with None => 1 | Some p => doc_generation p + 1 end in
    let document := {| doc_uri := uri; doc_path := path; doc_version := version; doc_generation := generation |} in
    ({| st_generations := st_generations s; st_documents := <[uri := document]> (st_documents s);
        st_publications := st_publications s |}, Some document).

Definition document (uri : pystr) (s : LspState) : option DocumentSnapshot := st_documents s !! uri.

Definition reset_documents (s : LspState) : LspState :=
  {| st_generations := st_generations s; st_documents := ∅; st_publications := ∅ |}.

Definition publish_diagnostics (uri : pystr) (path : P) (version : option Z) (generation : Z)
    (diagnostics : list PyValue) (s : LspState) : LspState * res state_error bool :=
  match st_documents s !! uri with
  | None => (s, Ok false)
  | Some d =>
      if bool_decide (doc_path d ≠ path) || bool_decide (generation ≠ doc_generation d) then (s, Ok false)
      else
        if match version, doc_version d with
           | Some v, Some v' => bool_decide (v ≠ v')
           | _, _ => false
           end
        then (s, Ok false)
        else
          match map_res _freeze diagnostics with
          | Err _ => (s, Err FreezeFailed)
          | Ok frozen =>
              let g := st_generations s in
              let n := gen_diagnostics g + 1 in
              ({| st_generations := {| gen_source := gen_source g; gen_index := gen_index g; gen_diagnostics := n |};
                  st_documents := st_documents s;
                  st_publications := <[uri := {| pub_document := d; pub_diagnostics_generation := n;
                                                pub_diagnostics := frozen |}]> (st_publications s) |},
               Ok true)
          end
  end.

Definition diagnostics_snapshot (uri : pystr) (generation : option Z) (s : LspState) : DiagnosticsSnapshot :=
  let document := st_documents s !! uri in
  let expected_generation := match generation with
                             | Some g => g
                             | None => from_option doc_generation 0 document
                             end in
  match st_publications s !! uri with
  | None =>
      {| snap_state := MISSING; snap_uri := uri; snap_path := doc_path <$> document;
         snap_version := document ≫= doc_version; snap_generation := expected_generation;
         snap_diagnostics_generation := None; snap_diagnostics := [] |}
  | Some p =>
      {| snap_state := if bool_decide (doc_generation (pub_document p) ≠ expected_generation) then STALE
                       else match pub_diagnostics p with [] => CLEAN | _ => FINDINGS end;
         snap_uri := uri; snap_path := Some (doc_path (pub_document p));
         snap_version := doc_version (pub_document p); snap_generation := doc_generation (pub_document p);
         snap_diagnostics_generation := Some (pub_diagnostics_generation p);
         snap_diagnostics := pub_diagnostics p |}
  end.

(** ** The state invariant *)

Record lsp_state_wf (s : LspState) : Prop := {
  sw_doc : ∀ uri d, st_documents s !! uri = Some d → doc_uri d = uri ∧ 1 ≤ doc_generation d;
  sw_pub : ∀ uri p, st_publications s !! uri = Some p →
    ∃ d, st_documents s !! uri = Some d ∧
         doc_generation (pub_document p) ≤ doc_generation d ∧
         (doc_generation (pub_document p) = doc_generation d → pub_document p = d);
  sw_pub_gen : ∀ uri p, st_publications s !! uri = Some p →
    1 ≤ pub_diagnostics_generation p ≤ gen_diagnostics (st_generations s);
  sw_pub_inj : ∀ u v p q, st_publications s !! u = Some p → st_publications s !! v = Some q →
    pub_diagnostics_generation p = pub_diagnostics_generation q → u = v;
  sw_counters : 0 ≤ gen_source (st_generations s) ∧ 0 ≤ gen_index (st_generations s) ∧
                0 ≤ gen_diagnostics (st_generations s);
}.

Lemma lsp_state_init_wf : lsp_state_wf lsp_state_init.
Proof. split; simpl; try (intros *; rewrite ?lookup_empty; done). Qed.

Definition gens_le (g g' : Generations) : Prop :=
  gen_source g ≤ gen_source g' ∧ gen_index g ≤ gen_index g' ∧ gen_diagnostics g ≤ gen_diagnostics g'.

(** Raising counters alone keeps the invariant. *)
Lemma set_generations_wf s g :
  lsp_state_wf s → gens_le (st_generations s) g → lsp_state_wf (set_generations g s).
Proof.
  intros [Hdoc Hpub Hgen Hinj Hc] (?&?&?). split; simpl; try done; [|lia].
  intros uri p Hp. specialize (Hgen _ _ Hp). lia.
Qed.

Lemma update_document_wf uri path version s :
  lsp_state_wf s → lsp_state_wf (update_document uri path version s).1.
Proof.
  intros Hwf. unfold update_document. destruct (match st_documents s !! uri with Some _ => _ | None => _ end); [done|].
  destruct Hwf as [Hdoc Hpub Hgen Hinj Hc]. split; simpl; try done.
  - intros u d. rewrite lookup_insert. case_decide; [|by apply Hdoc]. intros [= <-]; simpl. split; [done|].
    destruct (st_documents s !! uri) as [d'|] eqn:Hd; [|lia]. destruct (Hdoc _ _ Hd). lia.
  - intros u p Hp. rewrite lookup_insert. destruct (Hpub _ _ Hp) as (d & Hd & Hle & Heq).
    case_decide; [subst u|by eauto]. eexists. split; [done|]; simpl. rewrite Hd. split; [lia|]. intros. lia.
Qed.

Lemma publish_diagnostics_wf uri path version generation ds s :
  lsp_state_wf s → lsp_state_wf (publish_diagnostics uri path version generation ds s).1.
Proof.
  intros Hwf. unfold publish_diagnostics. destruct (st_documents s !! uri) as [d|] eqn:Hd; [|done].
  destruct (_ || _); [done|]. destruct (match version with Some _ => _ | None => _ end); [done|].
  destruct (map_res _freeze ds) as [frozen|]; [|done]. destruct Hwf as [Hdoc Hpub Hgen Hinj Hc].
  split; simpl; try done; [..|lia].
  - intros u p. rewrite lookup_insert. case_decide; [|by apply Hpub]. intros [= <-]; subst; simpl. exists d. split_and!; [done|lia|done].
  - intros u p. rewrite lookup_insert. case_decide; [intros [= <-]; simpl; lia|].
    intros Hp. specialize (Hgen _ _ Hp). lia.
  - intros u v p q. rewrite !lookup_insert. repeat case_decide; subst; try done.
    + intros [= <-] Hq; simpl. specialize (Hgen _ _ Hq). lia.
    + intros Hp [= <-]; simpl. specialize (Hgen _ _ Hp). lia.
    + apply Hinj.
Qed.

(** ** Executions *)

Inductive state_call :=
| StAdvanceSource
| StAdvanceIndex
| StObserveIndex (generation : Z)
| StUpdate (uri : pystr) (path : P) (version : option Z)
| StReset
| StPublish (uri : pystr) (path : P) (version : option Z) (generation : Z) (ds : list PyValue).

Definition run_state_call (c : state_call) (s : LspState) : LspState :=
  match c with
  | StAdvanceSource => (advance_source_generation s).1
  | StAdvanceIndex => (advance_index_generation s).1
  | StObserveIndex g => (observe_index_generation g s).1
  | StUpdate uri path version => (update_document uri path version s).1
  | StReset => reset_documents s
  | StPublish uri path version g ds => (publish_diagnostics uri path version g ds s).1
  end.

Definition run_state_calls (cs : list state_call) (s : LspState) : LspState :=
  fold_left (λ s c, run_state_call c s) cs s.

Lemma run_state_call_wf c s : lsp_state_wf s → lsp_state_wf (run_state_call c s).
Proof.
  intros Hwf. destruct c as [| |g|uri path v| |uri path v g ds]; simpl.
  - apply set_generations_wf; [done|]. unfold gens_le; simpl. lia.
  - apply set_generations_wf; [done|]. unfold gens_le; simpl. lia.
  - unfold observe_index_generation. case_bool_decide; [done|]. case_bool_decide; [|done].
    apply set_generations_wf; [done|]. unfold gens_le; simpl. lia.
  - by apply update_document_wf.
  - destruct Hwf. split; simpl; try (intros *; rewrite ?lookup_empty; done).
  - by apply publish_diagnostics_wf.
Qed.

Lemma run_state_calls_wf cs s : lsp_state_wf s → lsp_state_wf (run_state_calls cs s).
Proof.
  unfold run_state_calls. revert s. induction cs as [|c cs IH]; intros s Hwf; simpl; [done|].
  by apply IH, run_state_call_wf.
Qed.

Lemma run_state_call_gens c s : gens_le (st_generations s) (st_generations (run_state_call c s)).
Proof.
  unfold gens_le. destruct c as [| |g|uri path v| |uri path v g ds]; simpl; try lia.
  - unfold observe_index_generation. case_bool_decide; simpl; [lia|]. case_bool_decide; simpl; lia.
  - unfold update_document. destruct (match st_documents s !! uri with Some _ => _ | None => _ end); simpl; lia.
  - unfold publish_diagnostics. repeat case_match; simpl; lia.
Qed.

Lemma run_state_calls_gens cs s : gens_le (st_generations s) (st_generations (run_state_calls cs s)).
Proof.
  unfold run_state_calls. revert s. induction cs as [|c cs IH]; intros s; simpl; [unfold gens_le; lia|].
  pose proof (run_state_call_gens c s) as (?&?&?). destruct (IH (run_state_call c s)) as (?&?&?).
  unfold gens_le in *. lia.
Qed.

(** ** What a client may conclude from a snapshot

    The abstract state of one URI: nothing published since the last reset, or
    the diagnostics last accepted and whether the document has not been
    updated since. *)

Definition uri_spec : Type := option (bool * list Frozen).

Definition spec_state (u : uri_spec) : DiagnosticsState :=
  match u with
  | None => MISSING
  | Some (false, _) => STALE
  | Some (true, []) => CLEAN
  | Some (true, _ :: _) => FINDINGS
  end.

(** The specification only looks at what the call reported to its caller. *)
Definition spec_step (uri : pystr) (c : state_call) (s : LspState) (u : uri_spec) : uri_spec :=
  match c with
  | StUpdate uri' path version =>
      if bool_decide (uri' = uri ∧ is_Some (update_document uri' path version s).2)
      then prod_map (λ _, false) id <$> u else u
  | StPublish uri' path version g ds =>
      match (publish_diagnostics uri' path version g ds s).2, map_res _freeze ds with
      | Ok true, Ok frozen => if bool_decide (uri' = uri) then Some (true, frozen) else u
      | _, _ => u
      end
  | StReset => None
  | _ => u
  end.

Fixpoint spec_run (uri : pystr) (cs : list state_call) (s : LspState) (u : uri_spec) : uri_spec :=
  match cs with
  | [] => u
  | c :: cs => spec_run uri cs (run_state_call c s) (spec_step uri c s u)
  end.

(** The abstraction function. *)
Definition uri_view (s : LspState) (uri : pystr) : uri_spec :=
  (λ p, (bool_decide (doc_generation <$> st_documents s !! uri = Some (doc_generation (pub_document p))),
         pub_diagnostics p)) <$> st_publications s !! uri.

Lemma uri_view_step uri c s :
  lsp_state_wf s → uri_view (run_state_call c s) uri = spec_step uri c s (uri_view s uri).
Proof.
  intros Hwf. unfold uri_view. destruct c as [| |g|uri' path v| |uri' path v g ds]; simpl; try done.
  - unfold observe_index_generation. by repeat case_bool_decide.
  - unfold update_document.
    destruct (match st_documents s !! uri' with Some _ => _ | None => _ end); simpl.
    { rewrite bool_decide_false; [done|]. by intros [_ [? ?]]. }
    rewrite lookup_insert. destruct (decide (uri' = uri)) as [->|Hne].
    + rewrite (bool_decide_true (_ ∧ _)) by eauto. destruct (st_publications s !! uri) as [p|] eqn:Hp; [|done].
      simpl. do 2 f_equal. destruct (sw_pub _ Hwf _ _ Hp) as (d & -> & Hle & _).
      apply bool_decide_eq_false. intros [= Heq]. lia.
    + rewrite bool_decide_false by tauto. done.
  - unfold publish_diagnostics. destruct (st_documents s !! uri') as [d|] eqn:Hd; simpl; [|done].
    destruct (_ || _); simpl; [done|]. destruct (match v with Some _ => _ | None => _ end); simpl; [done|].
    destruct (map_res _freeze ds) as [frozen|]; simpl; [|done]. rewrite lookup_insert.
    destruct (decide (uri' = uri)) as [->|Hne].
    + rewrite bool_decide_true by done. simpl. rewrite Hd. simpl. by rewrite bool_decide_true.
    + by rewrite (bool_decide_false (uri' = uri)).
Qed.

Lemma uri_view_run uri cs s :
  lsp_state_wf s → uri_view (run_state_calls cs s) uri = spec_run uri cs s (uri_view s uri).
Proof.
  unfold run_state_calls. revert s. induction cs as [|c cs IH]; intros s Hwf; simpl; [done|].
  rewrite IH by (by apply run_state_call_wf). by rewrite uri_view_step.
Qed.

Lemma snapshot_view s uri :
  lsp_state_wf s → snap_state (diagnostics_snapshot uri None s) = spec_state (uri_view s uri).
Proof.
  intros Hwf. unfold diagnostics_snapshot, uri_view. destruct (st_publications s !! uri) as [p|] eqn:Hp; [|done].
  simpl. destruct (sw_pub _ Hwf _ _ Hp) as (d & -> & _). simpl.
  destruct (decide (doc_generation d = doc_generation (pub_document p))) as [Heq|Hne].
  - rewrite bool_decide_false, bool_decide_true by congruence. by destruct (pub_diagnostics p).
  - by rewrite bool_decide_true, bool_decide_false by congruence.
Qed.

(** ** Properties *)

(** C16: A diagnostics snapshot reports what happened to the document since
    the last restart: after any sequence of operations it is MISSING exactly
    when no publication has been accepted, STALE when the document was updated
    after the last accepted publication, and otherwise CLEAN or FINDINGS
    according to the (frozen) diagnostics of that publication. *)
Theorem diagnostics_refine_history cs uri :
  snap_state (diagnostics_snapshot uri None (run_state_calls cs lsp_state_init)) =
  spec_state (spec_run uri cs lsp_state_init None).
Proof.
  rewrite snapshot_view by apply run_state_calls_wf, lsp_state_init_wf.
  by rewrite uri_view_run by apply lsp_state_init_wf.
Qed.

(** CLEAN and FINDINGS speak of the live document: when the snapshot
    reports either for the current generation, its path, version and
    generation are those of the current document observation, and its
    diagnostics generation lies within the counter. *)
Theorem current_diagnostics_name_live_document cs uri :
  let s := run_state_calls cs lsp_state_init in
  let snap := diagnostics_snapshot uri None s in
  snap_state snap = CLEAN ∨ snap_state snap = FINDINGS →
  ∃ d n, document uri s = Some d ∧ snap_path snap = Some (doc_path d) ∧
         snap_version snap = doc_version d ∧ snap_generation snap = doc_generation d ∧
         snap_diagnostics_generation snap = Some n ∧ 1 ≤ n ≤ gen_diagnostics (st_generations s).
Proof.
  intros s snap Hstate. assert (lsp_state_wf s) as Hwf by apply run_state_calls_wf, lsp_state_init_wf.
  revert Hstate. unfold snap, diagnostics_snapshot, document.
  destruct (st_publications s !! uri) as [p|] eqn:Hp; simpl; [|naive_solver].
  destruct (sw_pub _ Hwf _ _ Hp) as (d & -> & _ & Heq). simpl. case_bool_decide as Hg; [naive_solver|].
  intros _. rewrite (Heq Hg). exists d, (pub_diagnostics_generation p).
  split_and!; try done; by apply (sw_pub_gen _ Hwf _ _ Hp).
Qed.

(** The generation counters never go back, through restarts included,
    and an accepted publication gets a diagnostics generation larger than
    every earlier one; a refused or failing publication changes nothing. *)
Theorem generations_monotone cs cs' uri path version g ds :
  let s := run_state_calls cs lsp_state_init in
  gens_le (st_generations s) (st_generations (run_state_calls cs' s)) ∧
  match publish_diagnostics uri path version g ds s with
  | (s', Ok true) =>
      gen_diagnostics (st_generations s') = gen_diagnostics (st_generations s) + 1 ∧
      (∀ u p, st_publications s !! u = Some p →
              pub_diagnostics_generation p < gen_diagnostics (st_generations s'))
  | (s', _) => s' = s
  end.
Proof.
  intros s. split; [apply run_state_calls_gens|].
  assert (lsp_state_wf s) as Hwf by apply run_state_calls_wf, lsp_state_init_wf.
  unfold publish_diagnostics. destruct (st_documents s !! uri) as [d|]; [|done].
  destruct (_ || _); [done|]. destruct (match version with Some _ => _ | None => _ end); [done|].
  destruct (map_res _freeze ds); simpl; [|done]. split; [done|].
  intros u p Hp. pose proof (sw_pub_gen _ Hwf _ _ Hp). lia.
Qed.

(** A document observation is accepted exactly when it is the first one
    of the URI, the recorded version is unknown, or the new version is larger;
    then the generation grows by one and any published diagnostics become
    stale. A refused observation changes nothing. *)
Theorem update_document_spec cs uri path version :
  let s := run_state_calls cs lsp_state_init in
  match update_document uri path version s with
  | (s', Some d) =>
      document uri s' = Some d ∧ doc_version d = version ∧
      doc_generation d = from_option doc_generation 0 (document uri s) + 1 ∧
      (snap_state (diagnostics_snapshot uri None s') = MISSING ∨
       snap_state (diagnostics_snapshot uri None s') = STALE) ∧
      (∀ d0 v0, document uri s = Some d0 → doc_version d0 = Some v0 → ∃ v, version = Some v ∧ v0 < v)
  | (s', None) =>
      s' = s ∧ ∃ d0 v0, document uri s = Some d0 ∧ doc_version d0 = Some v0 ∧
                        ∀ v, version = Some v → v ≤ v0
  end.
Proof.
  intros s. assert (lsp_state_wf s) as Hwf by apply run_state_calls_wf, lsp_state_init_wf.
  pose proof (update_document_wf uri path version s Hwf) as Hwf'.
  pose proof (uri_view_step uri (StUpdate uri path version) s Hwf) as Hview. simpl in Hview.
  destruct (update_document uri path version s) as [s' [d|]] eqn:Heq; simpl in Hwf', Hview;
    unfold update_document in Heq.
  - rewrite snapshot_view, Hview by done. rewrite bool_decide_true by eauto.
    destruct (match st_documents s !! uri with Some _ => _ | None => _ end) eqn:Hold; [done|].
    simplify_eq. unfold document; simpl. rewrite lookup_insert_eq. split_and!; try done.
    + by destruct (st_documents s !! uri).
    + destruct (uri_view s uri) as [[? ?]|]; simpl; auto.
    + intros d0 v0 Hd0 Hv0. rewrite Hd0, Hv0 in Hold. destruct version as [v|]; [|done].
      exists v. split; [done|]. simpl in Hold. apply negb_false_iff in Hold. by apply bool_decide_eq_true in Hold.
  - destruct (st_documents s !! uri) as [d0|] eqn:Hd0; [|done]. unfold document.
    destruct (doc_version d0) as [v0|] eqn:Hv0; [|by destruct version].
    destruct (negb _) eqn:Hold; [|done]. simplify_eq. split; [done|]. exists d0, v0. split_and!; [done..|].
    intros v ->. simpl in Hold. apply negb_true_iff in Hold. apply bool_decide_eq_false in Hold. lia.
Qed.

End lsp_state.

(** ** Example run: a document, an unversioned publication with one finding. *)

Definition example_calls : list (state_call (P := nat)) :=
  [StAdvanceSource; StUpdate (lit "file:///a.py") 7%nat (Some 1);
   StPublish (lit "file:///a.py") 7%nat None 1 [PyMapping [(lit "message", PyScalar (lit "unused"))]]].

Lemma current_diagnostics_name_live_document_witness :
  let s := run_state_calls example_calls lsp_state_init in
  let snap := diagnostics_snapshot (lit "file:///a.py") None s in
  snap_state snap = FINDINGS ∧
  ∃ d n, document (lit "file:///a.py") s = Some d ∧ snap_path snap = Some (doc_path d) ∧
         snap_version snap = doc_version d ∧ snap_generation snap = doc_generation d ∧
         snap_diagnostics_generation snap = Some n ∧ 1 ≤ n ≤ gen_diagnostics (st_generations s).
Proof.
  split; [vm_compute; reflexivity|].
  apply (current_diagnostics_name_live_document example_calls (lit "file:///a.py")).
  right. vm_compute. reflexivity.
Defined.
