(* ===== verification/Executor.v ===== *)
(** * The bounded single-worker executor

    Model of [src/serena_light/lsp/executor.py]: the forward-only commit state
    of an edit, and the executor's queue, counters, worker thread and shutdown.

    The threads interleave, so the executor is a transition system: one
    function per atomic action (the body of a [with self._state_lock] block, a
    queue operation, a future operation), and [exec_step] their nondeterministic
    composition. The outcome of the submitted call is chosen by the environment. *)

From S2P Require Import Prelude.

(** ** [EditCommit] *)

Inductive EditCommitState := QUEUED | RUNNING | INSTALLED | DONE.
#[export] Instance EditCommitState_eq_dec : EqDecision EditCommitState.
Proof. solve_decision. Defined.

Definition _COMMIT_ORDER : list EditCommitState := [QUEUED; RUNNING; INSTALLED; DONE].

(** [tuple.index] *)
Fixpoint index_of (x : EditCommitState) (l : list EditCommitState) : nat :=
  match l with
  | [] => 0
  | y :: l => if decide (x = y) then 0 else S (index_of x l)
  end.

Inductive commit_error := CommitCannotMove (from to : EditCommitState).

Definition commit_init : EditCommitState := QUEUED.

Definition _advance (state : EditCommitState) : PyM EditCommitState commit_error unit :=
  λ current,
    if bool_decide (index_of state _COMMIT_ORDER ≤ index_of current _COMMIT_ORDER)%nat
    then (current, Err (CommitCannotMove current state))
    else (state, Ok tt).

Definition mark_running : PyM EditCommitState commit_error unit := _advance RUNNING.
Definition mark_installed : PyM EditCommitState commit_error unit := _advance INSTALLED.
Definition mark_done : PyM EditCommitState commit_error unit := _advance DONE.

Definition installed (s : EditCommitState) : bool := bool_decide (s = INSTALLED ∨ s = DONE).

Inductive commit_call := MarkRunning | MarkInstalled | MarkDone.

Definition run_commit_call (c : commit_call) : PyM EditCommitState commit_error unit :=
  match c with MarkRunning => mark_running | MarkInstalled => mark_installed | MarkDone => mark_done end.

Definition run_commit_calls (cs : list commit_call) (s : EditCommitState) : EditCommitState :=
  fold_left (λ s c, (run_commit_call c s).1) cs s.

(** ** The executor's state *)

(** [concurrent.futures.Future]; the value of a result is not modelled. *)
Inductive FutureState := FPending | FRunning | FCancelled | FResult | FException.

Definition future_done (f : FutureState) : bool :=
  match f with FPending | FRunning => false | _ => true end.

(** Work items are named by the order of their submission. *)
Inductive item := Work (id : nat) (cleanup : bool) | STOP.

Inductive worker_pc :=
| WIdle                                   (** at [self._queue.get()] *)
| WGot (it : item)                        (** item taken, counter not yet lowered *)
| WTaken (id : nat)                       (** at [set_running_or_notify_cancel] *)
| WStarted (id : nat)                     (** before [self._active = True] *)
| WActive (id : nat)                      (** in [item.call()] *)
| WFinished (id : nat)                    (** before [self._active = False] *)
| WExited                                 (** [_run] returned *)
| WCrashed.                               (** [_run] left by an exception *)

Inductive closer_pc :=
| CNone                                   (** no [close] yet *)
| CDrain                                  (** at [self._queue.get_nowait()] *)
| CGot (it : item)                        (** item taken, counter not yet lowered *)
| CCancel (id : nat)                      (** at [item.future.cancel()] *)
| CPutStop (drained : bool)               (** at [self._queue.put(_STOP)] *)
| CJoin                                   (** stop marker queued *)
| CFull.                                  (** the put timed out *)

Record Executor := {
  ex_capacity : Z;
  ex_queue : list item;
  ex_ordinary_queued : Z;
  ex_cleanup_queued : Z;
  ex_active : bool;
  ex_stopping : bool;
  ex_worker : worker_pc;
  ex_closer : closer_pc;
  ex_futures : gmap nat FutureState;
  ex_next : nat;                          (** submissions so far *)
  ex_started : list nat;                  (** log: futures set running, in order *)
}.

Definition _CLEANUP_RESERVE : Z := 2.

Inductive executor_error :=
| CapacityNotPositive
| ExecutorStopping
| ExecutorBusy
| CleanupReserveFull
| QueueFull
| TimeoutNotPositive.

Definition executor_init (capacity : Z) : res executor_error Executor :=
  if bool_decide (capacity < 1) then Err CapacityNotPositive
  else Ok {| ex_capacity := capacity; ex_queue := []; ex_ordinary_queued := 0; ex_cleanup_queued := 0;
             ex_active := false; ex_stopping := false; ex_worker := WIdle; ex_closer := CNone;
             ex_futures := ∅; ex_next := 0; ex_started := [] |}.

Definition queue_maxsize (s : Executor) : Z := ex_capacity s + _CLEANUP_RESERVE.
Definition queue_full (s : Executor) : bool := bool_decide (queue_maxsize s ≤ Z.of_nat (length (ex_queue s))).

Definition set_queue (q : list item) (s : Executor) : Executor :=
  {| ex_capacity := ex_capacity s; ex_queue := q; ex_ordinary_queued := ex_ordinary_queued s;
     ex_cleanup_queued := ex_cleanup_queued s; ex_active := ex_active s; ex_stopping := ex_stopping s;
     ex_worker := ex_worker s; ex_closer := ex_closer s; ex_futures := ex_futures s;
     ex_next := ex_next s; ex_started := ex_started s |}.
Definition set_worker (w : worker_pc) (s : Executor) : Executor :=
  {| ex_capacity := ex_capacity s; ex_queue := ex_queue s; ex_ordinary_queued := ex_ordinary_queued s;
     ex_cleanup_queued := ex_cleanup_queued s; ex_active := ex_active s; ex_stopping := ex_stopping s;
     ex_worker := w; ex_closer := ex_closer s; ex_futures := ex_futures s;
     ex_next := ex_next s; ex_started := ex_started s |}.
Definition set_closer (c : closer_pc) (s : Executor) : Executor :=
  {| ex_capacity := ex_capacity s; ex_queue := ex_queue s; ex_ordinary_queued := ex_ordinary_queued s;
     ex_cleanup_queued := ex_cleanup_queued s; ex_active := ex_active s; ex_stopping := ex_stopping s;
     ex_worker := ex_worker s; ex_closer := c; ex_futures := ex_futures s;
     ex_next := ex_next s; ex_started := ex_started s |}.
Definition set_counts (o c : Z) (s : Executor) : Executor :=
  {| ex_capacity := ex_capacity s; ex_queue := ex_queue s; ex_ordinary_queued := o;
     ex_cleanup_queued := c; ex_active := ex_active s; ex_stopping := ex_stopping s;
     ex_worker := ex_worker s; ex_closer := ex_closer s; ex_futures := ex_futures s;
     ex_next := ex_next s; ex_started := ex_started s |}.
Definition set_flags (active stopping : bool) (s : Executor) : Executor :=
  {| ex_capacity := ex_capacity s; ex_queue := ex_queue s; ex_ordinary_queued := ex_ordinary_queued s;
     ex_cleanup_queued := ex_cleanup_queued s; ex_active := active; ex_stopping := stopping;
     ex_worker := ex_worker s; ex_closer := ex_closer s; ex_futures := ex_futures s;
     ex_next := ex_next s; ex_started := ex_started s |}.
Definition set_future (id : nat) (f : FutureState) (s : Executor) : Executor :=
  {| ex_capacity := ex_capacity s; ex_queue := ex_queue s; ex_ordinary_queued := ex_ordinary_queued s;
     ex_cleanup_queued := ex_cleanup_queued s; ex_active := ex_active s; ex_stopping := ex_stopping s;
     ex_worker := ex_worker s; ex_closer := ex_closer s; ex_futures := <[id := f]> (ex_futures s);
     ex_next := ex_next s; ex_started := ex_started s |}.

(** ** Operations *)

(** A new pending future enters the back of the queue. *)
Definition put_work (cleanup : bool) (s : Executor) : Executor :=
  {| ex_capacity := ex_capacity s; ex_queue := ex_queue s ++ [Work (ex_next s) cleanup];
     ex_ordinary_queued := if cleanup then ex_ordinary_queued s else ex_ordinary_queued s + 1;
     ex_cleanup_queued := if cleanup then ex_cleanup_queued s + 1 else ex_cleanup_queued s;
     ex_active := ex_active s; ex_stopping := ex_stopping s;
     ex_worker := ex_worker s; ex_closer := ex_closer s;
     ex_futures := <[ex_next s := FPending]> (ex_futures s);
     ex_next := S (ex_next s); ex_started := ex_started s |}.

(** [submit]: one critical section. The last test is [put_nowait]'s. *)
Definition submit : PyM Executor executor_error nat := λ s,
  if ex_stopping s then (s, Err ExecutorStopping)
  else if bool_decide (ex_capacity s ≤ ex_ordinary_queued s) then (s, Err ExecutorBusy)
  else if queue_full s then (s, Err QueueFull)
  else (put_work false s, Ok (ex_next s)).

Definition submit_cleanup : PyM Executor executor_error nat := λ s,
  if ex_stopping s then (s, Err ExecutorStopping)
  else if bool_decide (_CLEANUP_RESERVE ≤ ex_cleanup_queued s) then (s, Err CleanupReserveFull)
  else if queue_full s then (s, Err QueueFull)
  else (put_work true s, Ok (ex_next s)).

Record ExecutorSnapshot := {
  sn_queue_size : Z; sn_queue_capacity : Z; sn_active : bool; sn_stopping : bool }.

Definition snapshot (s : Executor) : ExecutorSnapshot :=
  {| sn_queue_size := ex_ordinary_queued s; sn_queue_capacity := ex_capacity s;
     sn_active := ex_active s; sn_stopping := ex_stopping s |}.

(** The counter update of [_run] and [_cancel_queued]. *)
Definition lower_count (cleanup : bool) (s : Executor) : Executor :=
  if cleanup then set_counts (ex_ordinary_queued s) (ex_cleanup_queued s - 1) s
  else set_counts (ex_ordinary_queued s - 1) (ex_cleanup_queued s) s.

(** [Future.cancel] *)
Definition future_cancel (id : nat) (s : Executor) : Executor :=
  match ex_futures s !! id with
  | Some FPending => set_future id FCancelled s
  | _ => s
  end.

(** One action of the worker thread; [ok] tells whether the call returns. *)
Definition worker_step (ok : bool) (s : Executor) : option Executor :=
  match ex_worker s with
  | WIdle =>
      match ex_queue s with
      | [] => None
      | it :: q => Some (set_worker (WGot it) (set_queue q s))
      end
  | WGot STOP => Some (set_worker WExited s)
  | WGot (Work id cleanup) => Some (set_worker (WTaken id) (lower_count cleanup s))
  | WTaken id =>
      match ex_futures s !! id with
      | Some FPending =>
          Some (set_worker (WStarted id) (set_future id FRunning
            {| ex_capacity := ex_capacity s; ex_queue := ex_queue s;
               ex_ordinary_queued := ex_ordinary_queued s; ex_cleanup_queued := ex_cleanup_queued s;
               ex_active := ex_active s; ex_stopping := ex_stopping s; ex_worker := ex_worker s;
               ex_closer := ex_closer s; ex_futures := ex_futures s; ex_next := ex_next s;
               ex_started := ex_started s ++ [id] |}))
      | Some FCancelled => Some (set_worker WIdle s)
      | _ => Some (set_worker WCrashed s)
      end
  | WStarted id => Some (set_worker (WActive id) (set_flags true (ex_stopping s) s))
  | WActive id => Some (set_worker (WFinished id) (set_future id (if ok then FResult else FException) s))
  | WFinished id => Some (set_worker WIdle (set_flags false (ex_stopping s) s))
  | WExited | WCrashed => None
  end.

(** The entry of [close]: only the first caller becomes the closer. *)
Definition close_begin (cancel_queued : bool) (timeout_positive : bool) : PyM Executor executor_error unit := λ s,
  if negb timeout_positive then (s, Err TimeoutNotPositive)
  else if ex_stopping s then (s, Ok tt)
  else (set_closer (if cancel_queued then CDrain else CPutStop false) (set_flags (ex_active s) true s), Ok tt).

(** One action of the closing thread: [_cancel_queued], then the put of the
    stop marker, which waits while the queue is full and may time out there. *)
Definition closer_step (timeout : bool) (s : Executor) : option Executor :=
  match ex_closer s with
  | CDrain =>
      match ex_queue s with
      | [] => Some (set_closer (CPutStop true) s)
      | it :: q => Some (set_closer (CGot it) (set_queue q s))
      end
  | CGot STOP => Some (set_closer CDrain s)
  | CGot (Work id cleanup) => Some (set_closer (CCancel id) (lower_count cleanup s))
  | CCancel id => Some (set_closer CDrain (future_cancel id s))
  | CPutStop _ =>
      if queue_full s then (if timeout then Some (set_closer CFull s) else None)
      else Some (set_closer CJoin (set_queue (ex_queue s ++ [STOP]) s))
  | CNone | CJoin | CFull => None
  end.

(** ** The interleaving *)

Inductive exec_step : Executor → Executor → Prop :=
| StepSubmit s : exec_step s (submit s).1
| StepSubmitCleanup s : exec_step s (submit_cleanup s).1
| StepClientCancel s id : exec_step s (future_cancel id s)
| StepClose s cancel tmo : exec_step s (close_begin cancel tmo s).1
| StepWorker s ok s' : worker_step ok s = Some s' → exec_step s s'
| StepCloser s tmo s' : closer_step tmo s = Some s' → exec_step s s'.

Inductive exec_reachable : Executor → Prop :=
| ExecInit capacity s : executor_init capacity = Ok s → exec_reachable s
| ExecStep s s' : exec_reachable s → exec_step s s' → exec_reachable s'.

(** ** Invariants *)

(** *** Commit order *)

Lemma advance_forward state s :
  (index_of s _COMMIT_ORDER ≤ index_of (_advance state s).1 _COMMIT_ORDER)%nat ∧
  (is_ok (_advance state s).2 = true ↔ (index_of s _COMMIT_ORDER < index_of state _COMMIT_ORDER)%nat).
Proof. by destruct state, s; vm_compute; (split; [lia|]); split; try done; lia. Qed.

Lemma run_commit_forward cs s :
  (index_of s _COMMIT_ORDER ≤ index_of (run_commit_calls cs s) _COMMIT_ORDER)%nat.
Proof.
  unfold run_commit_calls. revert s. induction cs as [|c cs IH]; intros s; simpl; [lia|].
  etrans; [|apply IH]. destruct c; apply advance_forward.
Qed.

(** *** Counters *)

Fixpoint count_work (cleanup : bool) (l : list item) : Z :=
  match l with
  | [] => 0
  | Work _ c :: l => (if eqb c cleanup then 1 else 0) + count_work cleanup l
  | STOP :: l => count_work cleanup l
  end.

Definition worker_held (w : worker_pc) : list item := match w with WGot it => [it] | _ => [] end.
Definition closer_held (c : closer_pc) : list item := match c with CGot it => [it] | _ => [] end.

(** Items whose counter has not been lowered yet. *)
Definition counted (s : Executor) : list item :=
  worker_held (ex_worker s) ++ closer_held (ex_closer s) ++ ex_queue s.

Record counts_ok (s : Executor) : Prop := {
  co_ordinary : ex_ordinary_queued s = count_work false (counted s);
  co_cleanup : ex_cleanup_queued s = count_work true (counted s);
  co_capacity : 1 ≤ ex_capacity s;
  co_bound : ex_ordinary_queued s ≤ ex_capacity s ∧ ex_cleanup_queued s ≤ _CLEANUP_RESERVE;
  co_closer : ex_stopping s = false ↔ ex_closer s = CNone;
}.

Lemma count_work_app c l k : count_work c (l ++ k) = count_work c l + count_work c k.
Proof. induction l as [|[id c'|] l IH]; simpl; [done| |done]. rewrite IH. lia. Qed.

Lemma count_work_nonneg c l : 0 ≤ count_work c l.
Proof. induction l as [|[id []|] l IH]; destruct c; simpl in *; lia. Qed.

Ltac exec_simpl := repeat first
  [ progress simplify_eq/=
  | progress (rewrite ?count_work_app in * )
  | match goal with
    | H : ex_queue ?s = _ |- context [ex_queue ?s] => rewrite H
    | H : ex_queue ?s = _, K : context [ex_queue ?s] |- _ =>
        lazymatch K with H => fail | _ => rewrite H in K end
    end
  | match goal with it : item |- _ => destruct it as [? []|] end
  | progress (unfold counted, lower_count, worker_held, closer_held, set_counts in * ) ].

Lemma counts_init c s : executor_init c = Ok s → counts_ok s.
Proof.
  unfold executor_init. case_bool_decide; [done|]. intros [= <-]. split; simpl; unfold _CLEANUP_RESERVE; lia || done.
Qed.

Lemma counts_put (cleanup : bool) s :
  counts_ok s → (if cleanup then ex_cleanup_queued s < _CLEANUP_RESERVE else ex_ordinary_queued s < ex_capacity s) →
  counts_ok (put_work cleanup s).
Proof.
  intros [Ho Hc Hcap [Hb Hb'] Hcl] Hlt.
  split; destruct cleanup; unfold put_work; exec_simpl; unfold _CLEANUP_RESERVE in *; first [lia|done].
Qed.

(** Moving items around without counting, and lowering the count of a held item. *)
Lemma counts_worker ok s s' : counts_ok s → worker_step ok s = Some s' → counts_ok s'.
Proof.
  intros [Ho Hc Hcap [Hb Hb'] Hcl] Hstep. unfold worker_step in Hstep.
  pose proof (count_work_nonneg false (closer_held (ex_closer s) ++ ex_queue s)).
  pose proof (count_work_nonneg true (closer_held (ex_closer s) ++ ex_queue s)).
  destruct (ex_worker s) as [|[id []|]|id|id|id|id| |] eqn:Hw;
    repeat case_match; simplify_eq; unfold counted in *; rewrite Hw in *; split; exec_simpl; first [lia|done|naive_solver].
Qed.

Lemma counts_closer tmo s s' : counts_ok s → closer_step tmo s = Some s' → counts_ok s'.
Proof.
  intros [Ho Hc Hcap [Hb Hb'] Hcl] Hstep. unfold closer_step, future_cancel in Hstep.
  pose proof (count_work_nonneg false (ex_queue s)). pose proof (count_work_nonneg true (ex_queue s)).
  destruct (ex_closer s) as [| |[id []|]|id|d| |] eqn:Hw;
    repeat case_match; simplify_eq; unfold counted in *; rewrite Hw in *; split; exec_simpl; first [lia|done|naive_solver].
Qed.

Lemma counts_step s s' : counts_ok s → exec_step s s' → counts_ok s'.
Proof.
  intros Hok Hstep. destruct Hstep as [s|s|s id|s cancel tmo|s ok s' Hw|s tmo s' Hc].
  - unfold submit. destruct (ex_stopping s); [done|]. case_bool_decide; [done|].
    destruct (queue_full s); [done|]. apply counts_put; [done|lia].
  - unfold submit_cleanup. destruct (ex_stopping s); [done|]. case_bool_decide; [done|].
    destruct (queue_full s); [done|]. apply counts_put; [done|lia].
  - destruct Hok. unfold future_cancel. repeat case_match; by split.
  - unfold close_begin. destruct (negb tmo); [done|]. destruct (ex_stopping s) eqn:Hst; [done|].
    destruct Hok as [Ho Hc Hcap Hb [Hcl _]]. unfold counted in Ho, Hc. rewrite (Hcl Hst) in Ho, Hc.
    destruct cancel; by split.
  - by eapply counts_worker.
  - by eapply counts_closer.
Qed.

(** *** The stop marker is last, and taken once *)

Definition worker_stopped (w : worker_pc) : Prop :=
  match w with WGot STOP | WExited => True | _ => False end.

Definition no_stop (s : Executor) : Prop := STOP ∉ ex_queue s ∧ ¬ worker_stopped (ex_worker s).

Definition stop_ok (s : Executor) : Prop :=
  match ex_closer s with
  | CJoin =>
      (∃ works, ex_queue s = works ++ [STOP] ∧ STOP ∉ works ∧ ¬ worker_stopped (ex_worker s)) ∨
      (ex_queue s = [] ∧ worker_stopped (ex_worker s))
  | CGot STOP => False
  | CPutStop true => ex_queue s = [] ∧ ¬ worker_stopped (ex_worker s)
  | _ => no_stop s
  end.

Lemma stop_frame s s' :
  ex_closer s' = ex_closer s → ex_queue s' = ex_queue s →
  (worker_stopped (ex_worker s') ↔ worker_stopped (ex_worker s)) → stop_ok s → stop_ok s'.
Proof.
  unfold stop_ok, no_stop. intros -> -> Hiff.
  destruct (ex_closer s) as [| |[]|?|[]| |]; rewrite ?Hiff; try tauto.
  intros [(works & ? & ? & ?)|?]; [left; exists works; tauto|tauto].
Qed.

Lemma stop_worker ok s s' : stop_ok s → worker_step ok s = Some s' → stop_ok s'.
Proof.
  intros Hok Hstep. unfold worker_step in Hstep.
  destruct (ex_worker s) as [|[id c|]|id|id|id|id| |] eqn:Hw; simplify_eq;
    [|repeat case_match; simplify_eq;
      (eapply stop_frame; [| | |exact Hok]); by rewrite ?Hw; try destruct c..].
  unfold stop_ok, no_stop in *.
  destruct (ex_queue s) as [|it q] eqn:Hq; simplify_eq; simpl.
  assert (STOP ∉ it :: q → STOP ∉ q ∧ ¬ worker_stopped (WGot it)) as Hpop.
  { intros Hno. split; [set_solver|]. destruct it; simpl; [tauto|set_solver]. }
  destruct (ex_closer s) as [| |[]|?|[]| |] eqn:Hc; try naive_solver.
  destruct Hok as [(works & Happ & Hno & _)|[? _]]; [|done].
  destruct works as [|x works]; simplify_eq/=; [right; auto|]. left. exists works.
  split; [done|]. apply not_elem_of_cons in Hno as [Hx Hno]. split; [done|]. destruct x; simpl; [tauto|done].
Qed.

Lemma stop_closer tmo s s' : stop_ok s → closer_step tmo s = Some s' → stop_ok s'.
Proof.
  unfold stop_ok, no_stop, closer_step, future_cancel. intros Hok Hstep.
  destruct (ex_closer s) as [| |[id c|]|id|d| |] eqn:Hc; simplify_eq.
  - destruct (ex_queue s) as [|it q] eqn:Hq; simplify_eq; simpl; [set_solver|]. destruct it; set_solver.
  - by destruct c.
  - done.
  - repeat case_match; simplify_eq/=; done.
  - assert (STOP ∉ ex_queue s ∧ ¬ worker_stopped (ex_worker s)) as [Hq Hw].
    { destruct d; [|done]. destruct Hok as [-> ?]. set_solver. }
    destruct (queue_full s); [by destruct tmo; simplify_eq/=|].
    simplify_eq/=. left. by exists (ex_queue s).
Qed.

Lemma stop_step s s' : counts_ok s → stop_ok s → exec_step s s' → stop_ok s'.
Proof.
  intros Hcnt Hok Hstep. pose proof (co_closer _ Hcnt) as [Hcl _].
  destruct Hstep as [s|s|s id|s cancel tmo|s ok s' Hw|s tmo s' Hc].
  - unfold submit. destruct (ex_stopping s); [done|]. repeat case_match; try done.
    unfold stop_ok, no_stop in *; simpl. rewrite Hcl in * by done. set_solver.
  - unfold submit_cleanup. destruct (ex_stopping s); [done|]. repeat case_match; try done.
    unfold stop_ok, no_stop in *; simpl. rewrite Hcl in * by done. set_solver.
  - unfold future_cancel. by repeat case_match.
  - unfold close_begin. destruct (negb tmo); [done|]. destruct (ex_stopping s); [done|].
    unfold stop_ok, no_stop in *; simpl. rewrite Hcl in Hok by done. by destruct cancel.
  - by eapply stop_worker.
  - by eapply stop_closer.
Qed.

(** *** Futures: order of starts, single runner, no lost item *)

Definition item_id (it : item) : option nat := match it with Work id _ => Some id | STOP => None end.
Definition item_ids (q : list item) : list nat := omap item_id q.

(** Items the worker, respectively the closer, has taken but not disposed of. *)
Definition worker_ids (w : worker_pc) : list nat :=
  match w with WGot it => item_ids [it] | WTaken id => [id] | _ => [] end.
Definition closer_ids (c : closer_pc) : list nat :=
  match c with CGot it => item_ids [it] | CCancel id => [id] | _ => [] end.

Definition running (w : worker_pc) (id : nat) : Prop := w = WStarted id ∨ w = WActive id.

(** Started items, the worker's, then the queue: the order of submission. *)
Definition line (s : Executor) : list nat :=
  ex_started s ++ worker_ids (ex_worker s) ++ item_ids (ex_queue s).

Definition waiting (s : Executor) (id : nat) : Prop :=
  id ∈ worker_ids (ex_worker s) ++ item_ids (ex_queue s) ++ closer_ids (ex_closer s).

Record futures_ok (s : Executor) : Prop := {
  fo_sorted : StronglySorted lt (line s);
  fo_closer : ∀ id, id ∈ closer_ids (ex_closer s) → id ∉ line s;
  fo_known : ∀ id, id ∈ line s ∨ id ∈ closer_ids (ex_closer s) → (id < ex_next s)%nat;
  fo_waiting : ∀ id, waiting s id →
    ex_futures s !! id = Some FPending ∨ ex_futures s !! id = Some FCancelled;
  fo_running : ∀ id, running (ex_worker s) id ↔ ex_futures s !! id = Some FRunning;
  fo_pending : ∀ id, ex_futures s !! id = Some FPending → waiting s id;
  fo_some : ∀ id, (id < ex_next s)%nat ↔ is_Some (ex_futures s !! id);
  fo_started : ∀ id, running (ex_worker s) id → id ∈ ex_started s;
  fo_active : ex_active s = true ↔ ∃ id, ex_worker s = WActive id ∨ ex_worker s = WFinished id;
  fo_alive : ex_worker s ≠ WCrashed;
}.

Lemma item_ids_app l k : item_ids (l ++ k) = item_ids l ++ item_ids k.
Proof. apply omap_app. Qed.

Lemma item_ids_cons it q : item_ids (it :: q) = item_ids [it] ++ item_ids q.
Proof. by destruct it. Qed.

Lemma sorted_head_notin (l : list nat) x k :
  StronglySorted lt (l ++ x :: k) → x ∉ l ++ k.
Proof.
  intros (Hlk & _ & Hk)%StronglySorted_app. apply StronglySorted_inv in Hk as [_ Hx].
  rewrite Forall_forall in Hx. rewrite elem_of_app. intros [Hin|Hin].
  - specialize (Hlk x x Hin ltac:(set_solver)). lia.
  - specialize (Hx _ Hin). lia.
Qed.

Lemma sorted_drop_mid (l : list nat) m k : StronglySorted lt (l ++ m ++ k) → StronglySorted lt (l ++ k).
Proof.
  rewrite !StronglySorted_app. intros (H1 & Hl & _ & _ & Hk). split_and!; [|done..].
  intros x y Hx Hy. apply H1; [done|set_solver].
Qed.

Lemma futures_init c s : executor_init c = Ok s → futures_ok s.
Proof.
  unfold executor_init. case_bool_decide; [done|]. intros [= <-].
  split; unfold waiting, line, running; simpl.
  - constructor.
  - set_solver.
  - set_solver.
  - set_solver.
  - intros id. rewrite lookup_empty. split; [by intros [?|?]|done].
  - intros id. by rewrite lookup_empty.
  - intros id. rewrite lookup_empty. split; [lia|by intros [??]].
  - by intros id [?|?].
  - split; [done|by intros [? [?|?]]].
  - done.
Qed.

Lemma futures_put cleanup s :
  closer_ids (ex_closer s) = [] → futures_ok s → futures_ok (put_work cleanup s).
Proof.
  intros Hcl [Hsort Hcid Hknown Hwait Hrun Hpend Hsome Hst Hact Halive].
  assert (line (put_work cleanup s) = line s ++ [ex_next s]) as Hline.
  { unfold line, put_work; simpl. rewrite item_ids_app. simpl. by rewrite !app_assoc. }
  assert (ex_futures s !! ex_next s = None) as Hnew.
  { apply eq_None_not_Some. rewrite <-Hsome. lia. }
  assert (∀ id, waiting (put_work cleanup s) id ↔ waiting s id ∨ id = ex_next s) as Hw.
  { intros id. unfold waiting; simpl. rewrite item_ids_app, Hcl. simpl. set_solver. }
  split; rewrite ?Hline; simpl.
  - apply StronglySorted_app_2; [|done|by repeat constructor]. intros x y Hx ->%list_elem_of_singleton.
    apply Hknown. auto.
  - rewrite Hcl. set_solver.
  - intros id. rewrite Hcl, elem_of_app, list_elem_of_singleton. intros [[Hin| ->]|Hin]; [|lia|set_solver].
    specialize (Hknown id). naive_solver lia.
  - intros id. rewrite Hw, lookup_insert. case_decide; [naive_solver|].
    intros [?| ->]; [by apply Hwait|done].
  - intros id. rewrite Hrun, lookup_insert. case_decide; [|done]. subst id. rewrite Hnew. naive_solver.
  - intros id. rewrite Hw, lookup_insert. case_decide; [naive_solver|]. intros ?; left; by apply Hpend.
  - intros id. rewrite lookup_insert. case_decide; [subst; split; [by eauto|lia]|].
    rewrite <-Hsome. lia.
  - done.
  - done.
  - done.
Qed.

Lemma futures_frame s s' :
  futures_ok s → line s' = line s → closer_ids (ex_closer s') = closer_ids (ex_closer s) →
  (∀ id, waiting s' id ↔ waiting s id) → ex_futures s' = ex_futures s → ex_next s' = ex_next s →
  (∀ id, running (ex_worker s') id ↔ running (ex_worker s) id) → ex_started s' = ex_started s →
  (ex_active s' = true ↔ ∃ id, ex_worker s' = WActive id ∨ ex_worker s' = WFinished id) →
  ex_worker s' ≠ WCrashed → futures_ok s'.
Proof.
  intros [Hsort Hcid Hknown Hwait Hrun Hpend Hsome Hst Hact Halive] Hl Hc Hw Hf Hn Hr Hs Ha Hal.
  split; rewrite ?Hl, ?Hc, ?Hf, ?Hn, ?Hs; try done; intros id; rewrite ?Hw, ?Hr; auto.
Qed.

(** Cancelling a future that is not running. *)
Lemma futures_cancel s id : futures_ok s → futures_ok (future_cancel id s).
Proof.
  intros Hok. unfold future_cancel. destruct (ex_futures s !! id) as [[]|] eqn:Hf; try done.
  destruct Hok as [Hsort Hcid Hknown Hwait Hrun Hpend Hsome Hst Hact Halive].
  split; simpl; try done.
  - intros j Hj. rewrite lookup_insert. case_decide; [by right|by apply Hwait].
  - intros j. rewrite lookup_insert. case_decide; [subst; rewrite Hrun, Hf; naive_solver|apply Hrun].
  - intros j. rewrite lookup_insert. case_decide; [done|apply Hpend].
  - intros j. rewrite lookup_insert. case_decide; [subst; rewrite Hsome, Hf; split; eauto|apply Hsome].
Qed.

(** The worker starts the item it took. *)
Lemma futures_start s id s' :
  futures_ok s → ex_worker s = WTaken id → ex_futures s !! id = Some FPending →
  worker_step true s = Some s' → futures_ok s'.
Proof.
  intros [Hsort Hcid Hknown Hwait Hrun Hpend Hsome Hst Hact Halive] Hw Hf Hstep.
  unfold worker_step in Hstep. rewrite Hw, Hf in Hstep. simplify_eq.
  assert (line s = ex_started s ++ id :: item_ids (ex_queue s)) as Hline.
  { unfold line. by rewrite Hw. }
  rewrite Hline in *. pose proof (sorted_head_notin _ _ _ Hsort) as Hnew.
  assert (id ∉ closer_ids (ex_closer s)) as Hnc by (intros Hin; apply (Hcid id Hin); set_solver).
  split; unfold line, waiting in *; rewrite Hw in *; simpl in *.
  - by rewrite <-app_assoc.
  - rewrite <-app_assoc. done.
  - rewrite <-app_assoc. done.
  - intros j Hj. rewrite lookup_insert_ne by set_solver. apply Hwait. set_solver.
  - intros j. rewrite lookup_insert. unfold running in *. case_decide as Hj; [subst; naive_solver|].
    rewrite <-Hrun. naive_solver.
  - intros j. rewrite lookup_insert. case_decide; [done|]. intros Hj%Hpend. set_solver.
  - intros j. rewrite lookup_insert. case_decide; [subst; rewrite Hsome, Hf; split; eauto|apply Hsome].
  - intros j [[= ->]|?]; set_solver.
  - rewrite Hact. naive_solver.
  - done.
Qed.

(** The worker drops a cancelled item. *)
Lemma futures_skip s id :
  futures_ok s → ex_worker s = WTaken id → ex_futures s !! id = Some FCancelled →
  futures_ok (set_worker WIdle s).
Proof.
  intros [Hsort Hcid Hknown Hwait Hrun Hpend Hsome Hst Hact Halive] Hw Hf.
  assert (∀ j, j ∈ line (set_worker WIdle s) → j ∈ line s) as Hsub.
  { intros j. unfold line; simpl. rewrite Hw; simpl. set_solver. }
  split; try done.
  - unfold line in *; simpl. rewrite Hw in Hsort. by apply sorted_drop_mid in Hsort.
  - intros j Hj Hin. by apply (Hcid j), Hsub.
  - intros j [Hj|Hj]; apply Hknown; auto.
  - intros j Hj. apply Hwait. unfold waiting in *; simpl in *. set_solver.
  - intros j. simpl. rewrite <-Hrun, Hw. unfold running. naive_solver.
  - intros j Hj. simpl in Hj. assert (waiting s j) as Hwj by auto. unfold waiting in *; simpl.
    rewrite Hw in Hwj. simpl in Hwj. apply elem_of_cons in Hwj as [->|?]; [congruence|done].
  - intros j [?|?]; done.
  - simpl. rewrite Hact, Hw. naive_solver.
Qed.

(** The worker's call is over. *)
Lemma futures_finish s id f :
  futures_ok s → ex_worker s = WActive id → future_done f = true →
  futures_ok (set_worker (WFinished id) (set_future id f s)).
Proof.
  intros [Hsort Hcid Hknown Hwait Hrun Hpend Hsome Hst Hact Halive] Hw Hd.
  assert (ex_futures s !! id = Some FRunning) as Hf by (apply Hrun; rewrite Hw; by right).
  split; unfold line, waiting in *; rewrite Hw in *; simpl in *; try done.
  - intros j Hj. rewrite lookup_insert. case_decide; [subst|by apply Hwait].
    destruct (Hwait _ Hj); congruence.
  - intros j. rewrite lookup_insert. case_decide as Hj.
    + subst. split; [by intros [?|?]|]. intros [= ->]. done.
    + rewrite <-Hrun. unfold running. naive_solver.
  - intros j. rewrite lookup_insert. case_decide; [intros [= ->]; done|apply Hpend].
  - intros j. rewrite lookup_insert. case_decide; [subst; rewrite Hsome, Hf; split; eauto|apply Hsome].
  - intros j [?|?]; done.
  - rewrite Hact. naive_solver.
Qed.

Lemma futures_worker ok s s' : futures_ok s → worker_step ok s = Some s' → futures_ok s'.
Proof.
  intros Hok Hstep. assert (Hstep' := Hstep). unfold worker_step in Hstep.
  destruct (ex_worker s) as [|[id c|]|id|id|id|id| |] eqn:Hw; simplify_eq.
  - destruct (ex_queue s) as [|it q] eqn:Hq; simplify_eq.
    apply (futures_frame s); try done; unfold line, waiting, running; simpl; rewrite ?Hw, ?Hq, ?(item_ids_cons it q); simpl.
    + done.
    + intros id. rewrite !elem_of_app. tauto.
    + intros. split; by intros [?|?].
    + rewrite (fo_active _ Hok), Hw. split; by intros [? [?|?]].
  - apply (futures_frame s); destruct c; try done; unfold line, waiting, running; simpl; rewrite ?Hw; try done;
      try (intros; split; by intros [?|?]); rewrite (fo_active _ Hok), Hw; split; by intros [? [?|?]].
  - apply (futures_frame s); try done; unfold line, waiting, running; simpl; rewrite ?Hw; try done;
      try (intros; split; by intros [?|?]); rewrite (fo_active _ Hok), Hw; split; by intros [? [?|?]].
  - destruct (fo_waiting _ Hok id) as [Hf|Hf].
    + unfold waiting. rewrite Hw. simpl. set_solver.
    + rewrite Hf in Hstep. apply (futures_start s id s' Hok Hw Hf). unfold worker_step. by rewrite Hw, Hf.
    + rewrite Hf in Hstep. simplify_eq. by apply (futures_skip s id).
  - apply (futures_frame s); try done; unfold line, waiting, running; simpl; rewrite ?Hw; try done; naive_solver.
  - apply futures_finish; [done..|by destruct ok].
  - apply (futures_frame s); try done; unfold line, waiting, running; simpl; rewrite ?Hw; try done;
      try (intros; split; by intros [?|?]). split; [done|by intros [? [?|?]]].
Qed.

(** The closer takes the head of the queue. *)
Lemma futures_closer_take s it q :
  futures_ok s → ex_queue s = it :: q → closer_ids (ex_closer s) = [] →
  futures_ok (set_closer (CGot it) (set_queue q s)).
Proof.
  intros [Hsort Hcid Hknown Hwait Hrun Hpend Hsome Hst Hact Halive] Hq Hc.
  assert (line s = (ex_started s ++ worker_ids (ex_worker s)) ++ item_ids [it] ++ item_ids q) as Hline.
  { unfold line. by rewrite Hq, item_ids_cons, !app_assoc. }
  assert (line (set_closer (CGot it) (set_queue q s)) =
          (ex_started s ++ worker_ids (ex_worker s)) ++ item_ids q) as Hline'.
  { unfold line; simpl. by rewrite app_assoc. }
  assert (∀ j, waiting (set_closer (CGot it) (set_queue q s)) j ↔ waiting s j) as Hw.
  { intros j. unfold waiting; simpl. rewrite Hq, Hc, (item_ids_cons it q), !elem_of_app. set_solver. }
  split; try done; rewrite ?Hline'; simpl.
  - rewrite Hline in Hsort. by apply sorted_drop_mid in Hsort.
  - intros j Hj. destruct it as [id c|]; simpl in Hj; [|set_solver].
    apply list_elem_of_singleton in Hj as ->. rewrite Hline in Hsort. by apply sorted_head_notin in Hsort.
  - intros j Hj. apply Hknown. left. rewrite Hline. rewrite !elem_of_app in *.
    destruct it; simpl in *; set_solver.
  - intros j. rewrite Hw. apply Hwait.
  - intros j. rewrite Hw. apply Hpend.
Qed.

(** The closer cancels the item it took. *)
Lemma futures_closer_cancel s id :
  futures_ok s → ex_closer s = CCancel id → futures_ok (set_closer CDrain (future_cancel id s)).
Proof.
  intros Hok Hc. pose proof (futures_cancel s id Hok) as Hok'.
  assert (ex_futures (future_cancel id s) !! id = Some FCancelled) as Hf.
  { destruct (fo_waiting _ Hok id) as [Hf|Hf]; [unfold waiting; rewrite Hc; set_solver|..];
      unfold future_cancel; rewrite Hf; [apply lookup_insert_eq|done]. }
  assert (ex_closer (future_cancel id s) = CCancel id) as Hc'.
  { unfold future_cancel. by repeat case_match. }
  destruct Hok' as [Hsort Hcid Hknown Hwait Hrun Hpend Hsome Hst Hact Halive].
  split; try done; simpl.
  - set_solver.
  - intros j [Hj|Hj]; [|set_solver]. apply Hknown. by left.
  - intros j Hj. apply Hwait. unfold waiting in *; simpl in *. rewrite Hc'. set_solver.
  - intros j Hj. assert (Hj' := Hj). apply Hpend in Hj'. unfold waiting in *; simpl.
    rewrite Hc', !elem_of_app in Hj'. rewrite !elem_of_app. simpl in Hj'.
    destruct Hj' as [?|[?|Hj'%list_elem_of_singleton]]; [tauto..|]. subst. congruence.
Qed.

Lemma futures_closer tmo s s' : futures_ok s → closer_step tmo s = Some s' → futures_ok s'.
Proof.
  intros Hok Hstep. unfold closer_step in Hstep. pose proof (fo_active _ Hok) as Hact.
  pose proof (fo_alive _ Hok) as Halive.
  destruct (ex_closer s) as [| |[id c|]|id|d| |] eqn:Hc; simplify_eq.
  - destruct (ex_queue s) as [|it q] eqn:Hq; simplify_eq.
    + apply (futures_frame s); try done; unfold waiting; simpl; by rewrite Hc.
    + apply futures_closer_take; [done..|by rewrite Hc].
  - apply (futures_frame s); destruct c; try done; unfold waiting; simpl; by rewrite Hc.
  - apply (futures_frame s); try done; unfold waiting; simpl; by rewrite Hc.
  - by apply futures_closer_cancel.
  - destruct (queue_full s); [destruct tmo; [|done]|]; simplify_eq;
      apply (futures_frame s); try done; unfold line, waiting; simpl;
      rewrite ?Hc, ?item_ids_app; simpl; rewrite ?app_nil_r; done.
Qed.

Lemma futures_step s s' : counts_ok s → futures_ok s → exec_step s s' → futures_ok s'.
Proof.
  intros Hcnt Hok Hstep. pose proof (co_closer _ Hcnt) as [Hcl _].
  destruct Hstep as [s|s|s id|s cancel tmo|s ok s' Hw|s tmo s' Hc].
  - unfold submit. destruct (ex_stopping s); [done|]. repeat case_match; try done.
    apply futures_put; [by rewrite Hcl|done].
  - unfold submit_cleanup. destruct (ex_stopping s); [done|]. repeat case_match; try done.
    apply futures_put; [by rewrite Hcl|done].
  - by apply futures_cancel.
  - unfold close_begin. destruct (negb tmo); [done|]. destruct (ex_stopping s); [done|].
    pose proof (fo_active _ Hok). pose proof (fo_alive _ Hok).
    destruct cancel; apply (futures_frame s); try done; unfold waiting; simpl; by rewrite Hcl.
  - by eapply futures_worker.
  - by eapply futures_closer.
Qed.

Record exec_inv (s : Executor) : Prop := {
  ei_counts : counts_ok s;
  ei_stop : stop_ok s;
  ei_futures : futures_ok s;
}.

Lemma exec_reachable_inv s : exec_reachable s → exec_inv s.
Proof.
  induction 1 as [c s Hinit|s s' Hr [Hc Hs Hf] Hstep].
  - split; [by eapply counts_init| |by eapply futures_init].
    unfold executor_init in Hinit. case_bool_decide; simplify_eq. unfold stop_ok, no_stop; simpl. set_solver.
  - split; [by eapply counts_step|by eapply stop_step|by eapply futures_step].
Qed.

(** *** Shutdown terminates *)

Definition worker_weight (w : worker_pc) : nat :=
  match w with
  | WGot _ => 6 | WTaken _ => 5 | WStarted _ => 4 | WActive _ => 3 | WFinished _ => 2 | WIdle => 1
  | WExited | WCrashed => 0
  end.
Definition closer_weight (c : closer_pc) : nat :=
  match c with CGot _ => 12 | CCancel _ => 11 | CDrain => 10 | CPutStop _ => 8 | _ => 0 end.

(** Every action of the two threads lowers it. *)
Definition shutdown_measure (s : Executor) : nat :=
  6 * length (ex_queue s) + worker_weight (ex_worker s) + closer_weight (ex_closer s).

Inductive thread_step (s s' : Executor) : Prop :=
| ThreadWorker ok : worker_step ok s = Some s' → thread_step s s'
| ThreadCloser tmo : closer_step tmo s = Some s' → thread_step s s'.

Lemma worker_measure ok s s' : worker_step ok s = Some s' → (shutdown_measure s' < shutdown_measure s)%nat.
Proof.
  unfold worker_step, shutdown_measure. intros Hstep.
  destruct (ex_worker s) as [|[id []|]|id|id|id|id| |] eqn:Hw; simplify_eq; simpl; try lia.
  - destruct (ex_queue s) as [|it q]; simplify_eq; simpl. lia.
  - repeat case_match; simplify_eq; simpl; lia.
Qed.

Lemma closer_measure tmo s s' : closer_step tmo s = Some s' → (shutdown_measure s' < shutdown_measure s)%nat.
Proof.
  unfold closer_step, shutdown_measure, future_cancel. intros Hstep.
  destruct (ex_closer s) as [| |[id []|]|id|d| |] eqn:Hw; simplify_eq; simpl; try lia.
  - destruct (ex_queue s) as [|it q] eqn:Hq; simplify_eq; simpl; rewrite ?Hq; simpl; lia.
  - repeat case_match; simpl; lia.
  - repeat case_match; simplify_eq; simpl; rewrite ?length_app; simpl; lia.
Qed.

Lemma thread_steps_bounded n s s' : nsteps thread_step n s s' → (n + shutdown_measure s' ≤ shutdown_measure s)%nat.
Proof.
  induction 1 as [|n s1 s2 s3 H12 H23 IH]; [lia|].
  assert (shutdown_measure s2 < shutdown_measure s1)%nat; [|lia].
  destruct H12; [by eapply worker_measure|by eapply closer_measure].
Qed.

(** While shutting down, some thread can always act until the worker exits. *)
Lemma length_count_work q :
  STOP ∉ q → Z.of_nat (length q) = count_work false q + count_work true q.
Proof.
  intros Hno. induction q as [|[id []|] q IH]; simpl in *; [done|..];
    try (specialize (IH ltac:(set_solver))); [lia|lia|set_solver].
Qed.

Lemma shutdown_progress s :
  exec_inv s → ex_stopping s = true → ex_worker s ≠ WExited → ex_closer s ≠ CFull →
  ∃ s', worker_step true s = Some s' ∨ closer_step false s = Some s'.
Proof.
  intros [Hc Hs Hf] Hst Hex Hfull. pose proof (fo_alive _ Hf) as Halive. pose proof (co_closer _ Hc) as [_ Hcl].
  destruct (ex_worker s) as [|[id c|]|id|id|id|id| |] eqn:Hw; try done;
    try (unfold worker_step; rewrite Hw; repeat case_match; by eauto).
  destruct (ex_queue s) as [|it q] eqn:Hq;
    [|eexists; left; unfold worker_step; by rewrite Hw, Hq].
  unfold stop_ok in Hs. unfold closer_step.
  destruct (ex_closer s) as [| |[id c|]|id|d| |] eqn:Hcs; rewrite ?Hq; try by eauto.
  - by rewrite Hcl in Hst.
  - assert (queue_full s = false) as ->; [|by eauto]. unfold queue_full, queue_maxsize, _CLEANUP_RESERVE.
    rewrite Hq. apply bool_decide_eq_false. pose proof (co_capacity _ Hc). simpl. lia.
  - exfalso. rewrite Hw in Hs. destruct Hs as [(works & Hno & _)|[_ []]]. rewrite ?Hq in Hno. destruct works; discriminate Hno.
Qed.

Lemma stopping_stays s s' : ex_stopping s = true → thread_step s s' → ex_stopping s' = true.
Proof.
  intros Hst [ok Hstep|tmo Hstep].
  - unfold worker_step, lower_count in Hstep. repeat case_match; by simplify_eq.
  - unfold closer_step, future_cancel, lower_count in Hstep. repeat case_match; by simplify_eq.
Qed.

Lemma thread_exec_step s s' : thread_step s s' → exec_step s s'.
Proof. intros [ok Hstep|tmo Hstep]; [by eapply StepWorker|by eapply StepCloser]. Qed.

Lemma thread_steps_reachable n s s' :
  exec_reachable s → ex_stopping s = true → nsteps thread_step n s s' →
  exec_reachable s' ∧ ex_stopping s' = true.
Proof.
  intros Hr Hst. induction 1 as [|n s1 s2 s3 H12 H23 IH]; [done|].
  apply IH; [by eapply ExecStep, thread_exec_step|by eapply stopping_stays].
Qed.

(** ** Properties *)

(** The commit state of an edit only moves forward: through any sequence
    of marks it never decreases in the order QUEUED, RUNNING, INSTALLED, DONE;
    a mark is refused exactly when it would not advance, and leaves the state
    alone; once [installed] holds it holds for ever. *)
Theorem edit_commit_forward_only cs cs' state :
  let s := run_commit_calls cs commit_init in
  let s' := run_commit_calls cs' s in
  (index_of s _COMMIT_ORDER ≤ index_of s' _COMMIT_ORDER)%nat ∧
  (_advance state s = (state, Ok tt) ∧ (index_of s _COMMIT_ORDER < index_of state _COMMIT_ORDER)%nat ∨
   _advance state s = (s, Err (CommitCannotMove s state)) ∧
     (index_of state _COMMIT_ORDER ≤ index_of s _COMMIT_ORDER)%nat) ∧
  (installed s = true → installed s' = true).
Proof.
  intros s s'. pose proof (run_commit_forward cs' s) as Hle. fold s' in Hle.
  split_and!; [done| |].
  - unfold _advance. case_bool_decide; [right|left]; split; try done; lia.
  - clearbody s s'. destruct s, s'; vm_compute in Hle |- *; done || lia.
Qed.

(** C15: The executor's bounds are exact in every interleaving: the queue size
    the snapshot shows is the number of ordinary items whose turn has not
    come and never exceeds the capacity; an ordinary submission is accepted
    exactly when the executor is not stopping and that number is below the
    capacity, a cleanup submission exactly when fewer than two cleanups wait,
    whatever the ordinary load. [queue.Full] never occurs in [submit] or
    [submit_cleanup]. *)
Theorem executor_admission s :
  exec_reachable s →
  sn_queue_size (snapshot s) = count_work false (counted s) ∧
  0 ≤ sn_queue_size (snapshot s) ≤ sn_queue_capacity (snapshot s) ∧
  (submit s).2 = (if ex_stopping s then Err ExecutorStopping
                  else if bool_decide (ex_capacity s ≤ count_work false (counted s)) then Err ExecutorBusy
                  else Ok (ex_next s)) ∧
  (submit_cleanup s).2 = (if ex_stopping s then Err ExecutorStopping
                          else if bool_decide (_CLEANUP_RESERVE ≤ count_work true (counted s))
                          then Err CleanupReserveFull else Ok (ex_next s)).
Proof.
  intros [Hc Hs Hf]%exec_reachable_inv. pose proof (count_work_nonneg false (counted s)).
  destruct Hc as [Ho Hcl Hcap [Hb Hb'] Hclose]. simpl. rewrite <-Ho, <-Hcl.
  assert (ex_stopping s = false → ex_ordinary_queued s < ex_capacity s ∨ ex_cleanup_queued s < _CLEANUP_RESERVE →
          queue_full s = false) as Hroom.
  { intros Hst Hlt. unfold queue_full, queue_maxsize. apply bool_decide_eq_false.
    apply Hclose in Hst. unfold stop_ok, no_stop in Hs. rewrite Hst in Hs. destruct Hs as [Hno _].
    assert (Z.of_nat (length (ex_queue s)) = count_work false (ex_queue s) + count_work true (ex_queue s)) as Hlen.
    { by apply length_count_work. }
    unfold counted in Ho, Hcl. rewrite !count_work_app in Ho, Hcl.
    pose proof (count_work_nonneg false (worker_held (ex_worker s))).
    pose proof (count_work_nonneg true (worker_held (ex_worker s))).
    pose proof (count_work_nonneg false (closer_held (ex_closer s))).
    pose proof (count_work_nonneg true (closer_held (ex_closer s))). lia. }
  split_and!; [done|lia|lia| |].
  - unfold submit. destruct (ex_stopping s); [done|]. case_bool_decide; [done|]. rewrite Hroom; [done..|lia].
  - unfold submit_cleanup. destruct (ex_stopping s); [done|]. case_bool_decide; [done|]. rewrite Hroom; [done..|lia].
Qed.

(** One worker in submission order: the items that started did so in
    the order they were submitted, at most one future is running at any time,
    the active flag is raised only while the worker is busy with an item, and
    the worker thread never dies of an exception. *)
Theorem executor_order s :
  exec_reachable s →
  StronglySorted lt (ex_started s) ∧
  (∀ i j, ex_futures s !! i = Some FRunning → ex_futures s !! j = Some FRunning → i = j) ∧
  (sn_active (snapshot s) = true → ∃ id, ex_worker s = WActive id ∨ ex_worker s = WFinished id) ∧
  ex_worker s ≠ WCrashed.
Proof.
  intros [_ _ Hf]%exec_reachable_inv. split_and!.
  - eapply StronglySorted_app_1_l, Hf.
  - intros i j Hi%(fo_running _ Hf) Hj%(fo_running _ Hf). unfold running in *.
    destruct Hi, Hj; congruence.
  - apply (fo_active _ Hf).
  - apply Hf.
Qed.

(** Nothing is left behind: when the worker thread has ended, every
    future ever handed out is resolved (a result, an exception or a
    cancellation), the queue is empty, both counters are zero and the active
    flag is down. *)
Theorem executor_exit_leaves_nothing s :
  exec_reachable s → ex_worker s = WExited →
  (∀ id, (id < ex_next s)%nat → ∃ f, ex_futures s !! id = Some f ∧ future_done f = true) ∧
  ex_queue s = [] ∧ ex_ordinary_queued s = 0 ∧ ex_cleanup_queued s = 0 ∧ ex_active s = false.
Proof.
  intros [Hc Hs Hf]%exec_reachable_inv Hw.
  assert (ex_closer s = CJoin ∧ ex_queue s = []) as [Hcl Hq].
  { unfold stop_ok, no_stop in Hs. rewrite Hw in Hs. simpl in Hs.
    destruct (ex_closer s) as [| |[]|?|[]| |]; try tauto.
    destruct Hs as [(?&_&_&Hn)|[? _]]; [by destruct Hn|done]. }
  split_and!; [|done|..].
  - intros id Hid. apply (fo_some _ Hf) in Hid as [f Hid]. exists f. split; [done|].
    destruct f; try done; exfalso.
    + apply (fo_pending _ Hf) in Hid. unfold waiting in Hid. rewrite Hw, Hcl, Hq in Hid. set_solver.
    + apply (fo_running _ Hf) in Hid. rewrite Hw in Hid. by destruct Hid.
  - rewrite (co_ordinary _ Hc). unfold counted. by rewrite Hw, Hcl, Hq.
  - rewrite (co_cleanup _ Hc). unfold counted. by rewrite Hw, Hcl, Hq.
  - destruct (ex_active s) eqn:Ha; [|done]. apply (fo_active _ Hf) in Ha as [id [?|?]]; congruence.
Qed.

(** C26: Closing terminates, provided the blocking call of the item that is
    running returns: counting that return as one action, once the executor is
    stopping the worker and the closer together take at most [shutdown_measure]
    further actions, and when neither can act any more either the worker has
    exited, or the closer's put of the stop marker timed out on a full queue
    ([CFull]); after a close that cancels the queue that put cannot even wait. *)
Theorem executor_close_terminates s n s' :
  exec_reachable s → ex_stopping s = true → nsteps thread_step n s s' →
  (n ≤ shutdown_measure s)%nat ∧
  ((∀ s'', ¬ thread_step s' s'') → ex_worker s' = WExited ∨ ex_closer s' = CFull) ∧
  (∀ tmo, ex_closer s' = CPutStop true →
     closer_step tmo s' = Some (set_closer CJoin (set_queue [STOP] s'))).
Proof.
  intros Hr Hst Hsteps. pose proof (thread_steps_bounded _ _ _ Hsteps).
  destruct (thread_steps_reachable _ _ _ Hr Hst Hsteps) as [Hinv%exec_reachable_inv Hst']. split_and!; [lia| |].
  - intros Hstuck.
    assert (ex_worker s' = WExited ∨ ex_worker s' ≠ WExited) as [?|Hw]
      by (destruct (ex_worker s'); by (left + right)); [by left|].
    assert (ex_closer s' = CFull ∨ ex_closer s' ≠ CFull) as [?|Hc]
      by (destruct (ex_closer s'); by (left + right)); [by right|].
    exfalso. destruct (shutdown_progress s' Hinv Hst' Hw Hc) as (s'' & [Hstep|Hstep]).
    + by eapply Hstuck, ThreadWorker.
    + by eapply Hstuck, ThreadCloser.
  - intros tmo Hc. pose proof (ei_stop _ Hinv) as Hs. unfold stop_ok in Hs. rewrite Hc in Hs. destruct Hs as [Hq _].
    unfold closer_step. rewrite Hc.
    assert (queue_full s' = false) as ->; [|by rewrite Hq].
    unfold queue_full, queue_maxsize, _CLEANUP_RESERVE. rewrite Hq. apply bool_decide_eq_false.
    pose proof (co_capacity _ (ei_counts _ Hinv)). simpl. lia.
Qed.

(** ** Example runs *)

Module ExecutorExamples.

Definition fresh : Executor :=
  {| ex_capacity := 1; ex_queue := []; ex_ordinary_queued := 0; ex_cleanup_queued := 0;
     ex_active := false; ex_stopping := false; ex_worker := WIdle; ex_closer := CNone;
     ex_futures := ∅; ex_next := 0; ex_started := [] |}.

Lemma fresh_reachable : exec_reachable fresh.
Proof. by apply (ExecInit 1). Defined.

Definition step_worker (s : Executor) : Executor := default s (worker_step true s).
Definition step_closer (s : Executor) : Executor := default s (closer_step false s).

Lemma step_worker_reachable s : exec_reachable s → exec_reachable (step_worker s).
Proof.
  intros Hs. unfold step_worker. destruct (worker_step true s) as [s'|] eqn:Hw; [|exact Hs].
  eapply ExecStep; [exact Hs|]. by eapply StepWorker.
Defined.

Lemma step_worker_thread s n s' :
  is_Some (worker_step true s) → nsteps thread_step n (step_worker s) s' → nsteps thread_step (S n) s s'.
Proof.
  unfold step_worker. intros [s1 Hs1] Hn. rewrite Hs1 in Hn. eapply nsteps_l; [|exact Hn].
  by eapply ThreadWorker.
Defined.

Lemma step_closer_thread s n s' :
  is_Some (closer_step false s) → nsteps thread_step n (step_closer s) s' → nsteps thread_step (S n) s s'.
Proof.
  unfold step_closer. intros [s1 Hs1] Hn. rewrite Hs1 in Hn. eapply nsteps_l; [|exact Hn].
  by eapply ThreadCloser.
Defined.

(** One ordinary item fills the executor; a cleanup is still admitted. *)
Definition full : Executor := (submit_cleanup (submit fresh).1).1.

Lemma full_reachable : exec_reachable full.
Proof.
  eapply ExecStep; [|apply StepSubmitCleanup]. eapply ExecStep; [|apply StepSubmit]. exact fresh_reachable.
Defined.

Lemma executor_admission_witness :
  sn_queue_size (snapshot full) = 1 ∧ (submit full).2 = Err ExecutorBusy ∧ (submit_cleanup full).2 = Ok 2%nat.
Proof.
  destruct (executor_admission full full_reachable) as (Hs & _ & Hsub & Hcln).
  rewrite Hs, Hsub, Hcln. vm_compute. done.
Defined.

(** The worker is in the first call. *)
Definition busy : Executor := step_worker (step_worker (step_worker (step_worker full))).

Lemma busy_reachable : exec_reachable busy.
Proof. do 4 apply step_worker_reachable. exact full_reachable. Defined.

Lemma executor_order_witness : ex_worker busy = WActive 0 ∧ StronglySorted lt (ex_started busy) ∧
  (∀ i j, ex_futures busy !! i = Some FRunning → ex_futures busy !! j = Some FRunning → i = j).
Proof.
  split; [vm_compute; reflexivity|].
  destruct (executor_order busy busy_reachable) as (H1 & H2 & _). by split.
Defined.

(** Closing: drain the cleanup item, queue the stop marker, let the worker end. *)
Definition closing : Executor := (close_begin true true busy).1.

Lemma closing_reachable : exec_reachable closing.
Proof. eapply ExecStep; [exact busy_reachable|apply StepClose]. Defined.

Definition closed : Executor :=
  step_worker (step_worker (step_worker (step_worker
    (step_closer (step_closer (step_closer (step_closer (step_closer closing)))))))).

Lemma closed_steps : nsteps thread_step 9 closing closed.
Proof.
  unfold closed. do 5 (apply step_closer_thread; [vm_compute; by eexists|]).
  do 4 (apply step_worker_thread; [vm_compute; by eexists|]). apply nsteps_O.
Defined.

Lemma executor_exit_leaves_nothing_witness :
  ex_worker closed = WExited ∧ ex_next closed = 2%nat ∧
  (∀ id, (id < 2)%nat → ∃ f, ex_futures closed !! id = Some f ∧ future_done f = true) ∧
  ex_queue closed = [] ∧ ex_ordinary_queued closed = 0.
Proof.
  destruct (executor_exit_leaves_nothing closed) as (H1 & H2 & H3 & _).
  - apply (thread_steps_reachable 9 closing closed closing_reachable eq_refl closed_steps).
  - vm_compute. reflexivity.
  - split; [vm_compute; reflexivity|]. split; [vm_compute; reflexivity|]. by split_and!.
Defined.

Lemma executor_close_terminates_witness :
  (9 ≤ shutdown_measure closing)%nat ∧
  ((∀ s'', ¬ thread_step closed s'') → ex_worker closed = WExited ∨ ex_closer closed = CFull).
Proof.
  destruct (executor_close_terminates closing 9 closed closing_reachable eq_refl closed_steps) as (H1 & H2 & _).
  by split.
Defined.

End ExecutorExamples.
