(* ===== verification/Positions.v ===== *)
(** * Source snapshots and position conversion

    Model of [src/serena_light/lsp/positions.py]. A byte is a number below
    256, a text is its list of code points; line tables and byte tables are
    lists of offsets as in the source. The strict UTF-8 codec of the standard
    library is modelled in arithmetic form. *)

From S2P Require Import Prelude.

Inductive PositionEncoding := UTF8 | UTF16 | UTF32.

Inductive position_error :=
| LineOutside (line : Z)
| CharacterNegative
| CharacterPastLineEnd
| NewlineHasNoPosition
| InvalidUtf8
| TextOffsetOutside
| ByteOffsetOutside
| ByteOffsetSplits.

Record LspPosition := { line : Z; character : Z }.
#[export] Instance LspPosition_eq_dec : EqDecision LspPosition.
Proof. solve_decision. Defined.

(** ** UTF-8 *)

Definition cp_CR : N := 13.
Definition cp_LF : N := 10.

(** [len(character.encode("utf-8"))] *)
Definition utf8_len (c : N) : nat :=
  if (c <? 128)%N then 1 else if (c <? 2048)%N then 2 else if (c <? 65536)%N then 3 else 4.

Definition utf8_encode_char (c : N) : list N :=
  if (c <? 128)%N then [c]
  else if (c <? 2048)%N then [192 + c `div` 64; 128 + c `mod` 64]%N
  else if (c <? 65536)%N then [224 + c `div` 4096; 128 + c `div` 64 `mod` 64; 128 + c `mod` 64]%N
  else [240 + c `div` 262144; 128 + c `div` 4096 `mod` 64; 128 + c `div` 64 `mod` 64; 128 + c `mod` 64]%N.

Definition utf8_encode (t : pystr) : list N := t ≫= utf8_encode_char.

(** A Unicode scalar value: not a surrogate, at most U+10FFFF. *)
Definition is_scalar (c : N) : bool :=
  (c <? 55296)%N || ((57344 <=? c)%N && (c <? 1114112)%N).

Definition is_cont (b : N) : bool := (128 <=? b)%N && (b <? 192)%N.

(** [bytes.decode("utf-8")], strict: over-long forms, surrogates and values
    above U+10FFFF are refused. *)
Fixpoint utf8_decode (l : list N) : option pystr :=
  match l with
  | [] => Some []
  | b0 :: l1 =>
      if (b0 <? 128)%N then cons b0 <$> utf8_decode l1
      else
        match l1 with
        | b1 :: l2 =>
            if (194 <=? b0)%N && (b0 <? 224)%N && is_cont b1
            then cons ((b0 - 192) * 64 + (b1 - 128))%N <$> utf8_decode l2
            else
              match l2 with
              | b2 :: l3 =>
                  let c3 := ((b0 - 224) * 4096 + (b1 - 128) * 64 + (b2 - 128))%N in
                  if (224 <=? b0)%N && (b0 <? 240)%N && is_cont b1 && is_cont b2 &&
                     (2048 <=? c3)%N && is_scalar c3
                  then cons c3 <$> utf8_decode l3
                  else
                    match l3 with
                    | b3 :: l4 =>
                        let c4 := ((b0 - 240) * 262144 + (b1 - 128) * 4096 + (b2 - 128) * 64 + (b3 - 128))%N in
                        if (240 <=? b0)%N && (b0 <? 245)%N && is_cont b1 && is_cont b2 && is_cont b3 &&
                           (65536 <=? c4)%N && is_scalar c4
                        then cons c4 <$> utf8_decode l4
                        else None
                    | [] => None
                    end
              | [] => None
              end
        | [] => None
        end
  end.

(** ** [FileSnapshot] *)

Record FileSnapshot := {
  raw_bytes : list N;
  text : pystr;
  bom : list N;
  line_endings : list pystr;
  _text_to_byte : list nat;
  _line_starts : list nat;
  _line_content_ends : list nat;
  _line_ends : list nat;
}.

Definition utf8_bom : list N := [239; 187; 191]%N.

Fixpoint byte_table (byte_offset : nat) (t : pystr) : list nat :=
  match t with
  | [] => []
  | c :: t => let byte_offset := (byte_offset + utf8_len c)%nat in byte_offset :: byte_table byte_offset t
  end.

Record line_tables := {
  lt_starts : list nat; lt_content_ends : list nat; lt_ends : list nat; lt_endings : list pystr }.

Definition add_line (content_end line_end : nat) (ending : pystr) (r : line_tables) : line_tables :=
  {| lt_starts := line_end :: lt_starts r; lt_content_ends := content_end :: lt_content_ends r;
     lt_ends := line_end :: lt_ends r; lt_endings := ending :: lt_endings r |}.

(** The [while index < len(text)] loop, on the text from [index] on. *)
Fixpoint scan_lines (index : nat) (t : pystr) : line_tables :=
  match t with
  | [] => {| lt_starts := []; lt_content_ends := [index]; lt_ends := [index]; lt_endings := [] |}
  | c :: t1 =>
      let single := if bool_decide (c = cp_LF) || bool_decide (c = cp_CR)
                    then add_line index (index + 1) [c] (scan_lines (index + 1) t1)
                    else scan_lines (index + 1) t1 in
      match t1 with
      | d :: t2 =>
          if bool_decide (c = cp_CR) && bool_decide (d = cp_LF)
          then add_line index (index + 2) [c; d] (scan_lines (index + 2) t2)
          else single
      | [] => single
      end
  end.

Definition from_bytes (raw : list N) : res position_error FileSnapshot :=
  let bom := if bool_decide (take 3 raw = utf8_bom) then utf8_bom else [] in
  let payload := drop (length bom) raw in
  match utf8_decode payload with
  | None => Err InvalidUtf8
  | Some t =>
      let tables := scan_lines 0 t in
      Ok {| raw_bytes := raw; text := t; bom := bom;
            line_endings := lt_endings tables;
            _text_to_byte := length bom :: byte_table (length bom) t;
            _line_starts := 0%nat :: lt_starts tables;
            _line_content_ends := lt_content_ends tables;
            _line_ends := lt_ends tables |}
  end.

(** ** [PositionMapper] *)

Record PositionMapper := { snapshot : FileSnapshot; encoding : PositionEncoding }.

Definition _units (e : PositionEncoding) (c : N) : Z :=
  match e with
  | UTF8 => Z.of_nat (utf8_len c)
  | UTF16 => if (65535 <? c)%N then 2 else 1
  | UTF32 => 1
  end.

Definition units_of (e : PositionEncoding) (t : pystr) : Z := foldr (λ c n, _units e c + n) 0 t.

(** The [for offset in range(start, end)] loop over the line's content. *)
Fixpoint walk_line (e : PositionEncoding) (chars : pystr) (offset : nat) (units target : Z) : res position_error nat :=
  match chars with
  | [] => if bool_decide (units = target) then Ok offset else Err CharacterPastLineEnd
  | c :: cs =>
      if bool_decide (units = target) then Ok offset
      else walk_line e cs (S offset) (units + _units e c) target
  end.

Definition text_slice (t : pystr) (start stop : nat) : pystr := take (stop - start) (drop start t).

Definition lsp_to_text_offset (m : PositionMapper) (p : LspPosition) : res position_error Z :=
  let s := snapshot m in
  if bool_decide (line p < 0) || bool_decide (Z.of_nat (length (_line_starts s)) ≤ line p)
  then Err (LineOutside (line p))
  else if bool_decide (character p < 0) then Err CharacterNegative
  else
    let start := _line_starts s !!! Z.to_nat (line p) in
    let stop := _line_content_ends s !!! Z.to_nat (line p) in
    o ← walk_line (encoding m) (text_slice (text s) start stop) start 0 (character p);
    Ok (Z.of_nat o).

Definition _check_text_offset (m : PositionMapper) (offset : Z) : res position_error unit :=
  if bool_decide (offset < 0) || bool_decide (Z.of_nat (length (text (snapshot m))) < offset)
  then Err TextOffsetOutside else Ok tt.

(** [bisect.bisect_right] on a sorted list. *)
Fixpoint bisect_right (l : list nat) (x : nat) : nat :=
  match l with
  | [] => 0
  | y :: l => if (y <=? x)%nat then S (bisect_right l x) else 0
  end.

Definition text_offset_to_lsp (m : PositionMapper) (offset : Z) : res position_error LspPosition :=
  let s := snapshot m in
  _ ← _check_text_offset m offset;
  let o := Z.to_nat offset in
  let ln := (bisect_right (_line_starts s) o - 1)%nat in
  if (_line_content_ends s !!! ln <? o)%nat then Err NewlineHasNoPosition
  else
    let start := _line_starts s !!! ln in
    Ok {| line := Z.of_nat ln; character := units_of (encoding m) (text_slice (text s) start o) |}.

Definition text_offset_to_byte_offset (m : PositionMapper) (offset : Z) : res position_error Z :=
  _ ← _check_text_offset m offset;
  Ok (Z.of_nat (_text_to_byte (snapshot m) !!! Z.to_nat offset)).

(** [tuple.index] *)
Fixpoint nat_index (x : nat) (l : list nat) : option nat :=
  match l with
  | [] => None
  | y :: l => if bool_decide (x = y) then Some 0%nat else S <$> nat_index x l
  end.

Definition byte_offset_to_text_offset (m : PositionMapper) (offset : Z) : res position_error Z :=
  if bool_decide (offset < 0) || bool_decide (Z.of_nat (length (raw_bytes (snapshot m))) < offset)
  then Err ByteOffsetOutside
  else match nat_index (Z.to_nat offset) (_text_to_byte (snapshot m)) with
       | Some i => Ok (Z.of_nat i)
       | None => Err ByteOffsetSplits
       end.

Definition lsp_to_byte_offset (m : PositionMapper) (p : LspPosition) : res position_error Z :=
  o ← lsp_to_text_offset m p; text_offset_to_byte_offset m o.

Definition byte_offset_to_lsp (m : PositionMapper) (offset : Z) : res position_error LspPosition :=
  o ← byte_offset_to_text_offset m offset; text_offset_to_lsp m o.

(** ** [PublicPositionRenderer] *)

Record public_position := {
  pp_line : Z; pp_column : Z; pp_text_offset : Z; pp_byte_offset : Z }.

Definition from_snapshot (s : FileSnapshot) (e : PositionEncoding) : PositionMapper :=
  {| snapshot := s; encoding := e |}.

Definition position (m : PositionMapper) (p : LspPosition) : res position_error public_position :=
  text_offset ← lsp_to_text_offset m p;
  let line_start := _line_starts (snapshot m) !!! Z.to_nat (line p) in
  byte_offset ← text_offset_to_byte_offset m text_offset;
  Ok {| pp_line := line p; pp_column := text_offset - Z.of_nat line_start;
        pp_text_offset := text_offset; pp_byte_offset := byte_offset |}.

Definition range (m : PositionMapper) (start stop : LspPosition)
    : res position_error (public_position * public_position) :=
  a ← position m start; b ← position m stop; Ok (a, b).

Definition renderer_text (m : PositionMapper) (start stop : LspPosition) : res position_error pystr :=
  a ← lsp_to_text_offset m start;
  b ← lsp_to_text_offset m stop;
  Ok (text_slice (text (snapshot m)) (Z.to_nat a) (Z.to_nat b)).

Record raw_range := { rr_basis : pystr; rr_start : LspPosition; rr_end : LspPosition }.

Definition raw_lsp_range (start stop : LspPosition) (e : PositionEncoding) : raw_range :=
  let unit := match e with
              | UTF8 => lit "utf8_byte"
              | UTF16 => lit "utf16_code_unit"
              | UTF32 => lit "unicode_code_point"
              end in
  {| rr_basis := lit "lsp_zero_based_line_" ++ unit ++ lit "_character"; rr_start := start; rr_end := stop |}.

(** ** The codec is lossless *)

Ltac utf8_arith :=
  unfold is_scalar, is_cont in *;
  repeat match goal with
  | H : _ && _ = true |- _ => apply andb_prop in H as [? ?]
  | H : (_ <? _)%N = true |- _ => apply N.ltb_lt in H
  | H : (_ <? _)%N = false |- _ => apply N.ltb_ge in H
  | H : (_ <=? _)%N = true |- _ => apply N.leb_le in H
  end.

#[local] Ltac Zify.zify_post_hook ::= Z.to_euclidean_division_equations.

Lemma utf8_encode_char_length c : length (utf8_encode_char c) = utf8_len c.
Proof. unfold utf8_encode_char, utf8_len. by repeat case_match. Qed.

Lemma encode_two b0 b1 :
  (194 <=? b0)%N = true → (b0 <? 224)%N = true → is_cont b1 = true →
  utf8_encode_char ((b0 - 192) * 64 + (b1 - 128)) = [b0; b1] ∧
  is_scalar ((b0 - 192) * 64 + (b1 - 128)) = true.
Proof.
  intros. utf8_arith. set (c := ((b0 - 192) * 64 + (b1 - 128))%N).
  assert (128 <= c)%N by (unfold c; lia). assert (c < 2048)%N by (unfold c; lia).
  split.
  - unfold utf8_encode_char. rewrite (proj2 (N.ltb_ge c 128)), (proj2 (N.ltb_lt c 2048)) by done.
    f_equal; [|f_equal]; unfold c; lia.
  - rewrite (proj2 (N.ltb_lt c 55296)) by lia. done.
Qed.

Lemma encode_three b0 b1 b2 :
  let c := ((b0 - 224) * 4096 + (b1 - 128) * 64 + (b2 - 128))%N in
  (224 <=? b0)%N = true → (b0 <? 240)%N = true → is_cont b1 = true → is_cont b2 = true →
  (2048 <=? c)%N = true → utf8_encode_char c = [b0; b1; b2].
Proof.
  intros c ?????. utf8_arith. assert (c < 65536)%N by (unfold c; lia).
  unfold utf8_encode_char.
  rewrite (proj2 (N.ltb_ge c 128)), (proj2 (N.ltb_ge c 2048)), (proj2 (N.ltb_lt c 65536)) by lia.
  f_equal; [|f_equal; [|f_equal]]; unfold c; lia.
Qed.

Lemma encode_four b0 b1 b2 b3 :
  let c := ((b0 - 240) * 262144 + (b1 - 128) * 4096 + (b2 - 128) * 64 + (b3 - 128))%N in
  (240 <=? b0)%N = true → is_cont b1 = true → is_cont b2 = true → is_cont b3 = true →
  (65536 <=? c)%N = true → utf8_encode_char c = [b0; b1; b2; b3].
Proof.
  intros c ?????. utf8_arith. unfold utf8_encode_char.
  rewrite (proj2 (N.ltb_ge c 128)), (proj2 (N.ltb_ge c 2048)), (proj2 (N.ltb_ge c 65536)) by lia.
  f_equal; [|f_equal; [|f_equal; [|f_equal]]]; unfold c; lia.
Qed.

Lemma utf8_encode_cons c t : utf8_encode (c :: t) = utf8_encode_char c ++ utf8_encode t.
Proof. done. Qed.

Lemma utf8_encode_app t u : utf8_encode (t ++ u) = utf8_encode t ++ utf8_encode u.
Proof. apply bind_app. Qed.

(** A successful decode determines the bytes. *)
Lemma utf8_decode_encode : ∀ n l t, (length l ≤ n)%nat →
  utf8_decode l = Some t → utf8_encode t = l ∧ Forall (λ c, is_scalar c = true) t.
Proof.
  induction n as [|n IH]; intros l t Hn Hd.
  { destruct l; simpl in *; [|lia]. by simplify_eq. }
  assert (∀ c l' pre, (length l' ≤ n)%nat → utf8_encode_char c = pre → is_scalar c = true →
            cons c <$> utf8_decode l' = Some t → utf8_encode t = pre ++ l' ∧ Forall (λ c, is_scalar c = true) t) as Hgo.
  { intros c l' pre Hl' Hc Hs Heq. apply fmap_Some in Heq as (t' & Ht' & ->).
    destruct (IH l' t' Hl' Ht') as [Henc Hall]. rewrite utf8_encode_cons, Hc, Henc. split; [done|by constructor]. }
  destruct l as [|b0 l1]; simpl in Hd; [by simplify_eq|]. simpl in Hn.
  destruct (b0 <? 128)%N eqn:H0.
  { apply (Hgo b0 l1 [b0]); [lia| | |done].
    - unfold utf8_encode_char. by rewrite H0.
    - unfold is_scalar. apply N.ltb_lt in H0. by rewrite (proj2 (N.ltb_lt b0 55296)) by lia. }
  destruct l1 as [|b1 l2]; [done|]. simpl in Hn.
  destruct (_ && is_cont b1) eqn:H1.
  { apply andb_prop in H1 as [[? ?]%andb_prop ?]. destruct (encode_two b0 b1) as [He Hs]; [done..|].
    apply (Hgo _ l2 [b0; b1] ltac:(lia) He Hs Hd). }
  destruct l2 as [|b2 l3]; [done|]. simpl in Hn.
  destruct (_ && is_scalar _) eqn:H2.
  { repeat match goal with H : _ && _ = true |- _ => apply andb_prop in H as [? ?] end.
    eapply (Hgo _ l3 [b0; b1; b2]); [lia|by apply encode_three|done|exact Hd]. }
  destruct l3 as [|b3 l4]; [done|]. simpl in Hn.
  clear H2. destruct (_ && is_scalar _) eqn:H3; [|done].
  repeat match goal with H : _ && _ = true |- _ => apply andb_prop in H as [? ?] end.
  eapply (Hgo _ l4 [b0; b1; b2; b3]); [lia|by apply encode_four|done|exact Hd].
Qed.

Lemma scalar_bound c : is_scalar c = true → (c < 1114112)%N.
Proof.
  unfold is_scalar. intros [H|[_ H]%andb_prop]%orb_prop; apply N.ltb_lt in H; lia.
Qed.

Ltac decide_bytes := unfold is_cont;
  repeat match goal with
  | |- context [(?a <? ?b)%N] =>
      first [ rewrite (proj2 (N.ltb_lt a b)) by lia | rewrite (proj2 (N.ltb_ge a b)) by lia ]
  | |- context [(?a <=? ?b)%N] =>
      first [ rewrite (proj2 (N.leb_le a b)) by lia | rewrite (proj2 (N.leb_gt a b)) by lia ]
  end; simpl.

Lemma utf8_decode_char c l :
  is_scalar c = true → utf8_decode (utf8_encode_char c ++ l) = cons c <$> utf8_decode l.
Proof.
  intros Hs. pose proof (scalar_bound c Hs) as Hb. unfold utf8_encode_char.
  destruct (c <? 128)%N eqn:H1; [by simpl; rewrite H1|]. apply N.ltb_ge in H1.
  destruct (c <? 2048)%N eqn:H2; [apply N.ltb_lt in H2|apply N.ltb_ge in H2].
  { set (q := (c `div` 64)%N). set (r := (c `mod` 64)%N). assert (c = q * 64 + r /\ r < 64)%N by (unfold q, r; lia).
    simpl. decide_bytes. do 2 f_equal. lia. }
  destruct (c <? 65536)%N eqn:H3; [apply N.ltb_lt in H3|apply N.ltb_ge in H3].
  - set (q := (c `div` 4096)%N). set (r := (c `div` 64 `mod` 64)%N). set (u := (c `mod` 64)%N).
    assert (c = q * 4096 + r * 64 + u /\ r < 64 /\ u < 64)%N as (Hc & Hr & Hu) by (unfold q, r, u; lia).
    simpl. assert (((224 + q - 224) * 4096 + (128 + r - 128) * 64 + (128 + u - 128)) = c)%N as -> by lia.
    rewrite Hs. decide_bytes. done.
  - set (q := (c `div` 262144)%N). set (r := (c `div` 4096 `mod` 64)%N). set (u := (c `div` 64 `mod` 64)%N).
    set (v := (c `mod` 64)%N).
    assert (c = q * 262144 + r * 4096 + u * 64 + v /\ r < 64 /\ u < 64 /\ v < 64)%N as (Hc & Hr & Hu & Hv)
      by (unfold q, r, u, v; lia).
    simpl. assert (((240 + q - 240) * 262144 + (128 + r - 128) * 4096 + (128 + u - 128) * 64 + (128 + v - 128)) = c)%N
      as -> by lia.
    rewrite Hs. decide_bytes. done.
Qed.

Lemma utf8_encode_decode t : Forall (λ c, is_scalar c = true) t → utf8_decode (utf8_encode t) = Some t.
Proof.
  induction 1 as [|c t Hc Ht IH]; [done|]. by rewrite utf8_encode_cons, utf8_decode_char, IH.
Qed.

(** ** The line tables *)

Definition newline (c : N) : Prop := c = cp_CR ∨ c = cp_LF.

Definition content_free (t : pystr) (a b : nat) : Prop :=
  ∀ j c, (a ≤ j < b)%nat → t !! j = Some c → ¬ newline c.

(** The line content ends at [c] and the next line starts at [s']. *)
Definition break_at (t : pystr) (c s' : nat) : Prop :=
  (s' = c + 1 ∧ (t !! c = Some cp_LF ∨ (t !! c = Some cp_CR ∧ t !! S c ≠ Some cp_LF)))%nat ∨
  (s' = c + 2 ∧ t !! c = Some cp_CR ∧ t !! S c = Some cp_LF)%nat.

(** The tables describe the lines of [t] from the line starting at [s] on. *)
Inductive lines_of (t : pystr) : nat → list nat → list nat → Prop :=
| lines_last s : (s ≤ length t)%nat → content_free t s (length t) → lines_of t s [] [length t]
| lines_cons s c s' starts cends :
    (s ≤ c)%nat → content_free t s c → break_at t c s' → lines_of t s' starts cends →
    lines_of t s (s' :: starts) (c :: cends).

Lemma content_free_snoc t a b c :
  content_free t a b → t !! b = Some c → ¬ newline c → content_free t a (S b).
Proof.
  intros Hf Hc Hn j d Hj Hd. destruct (decide (j = b)) as [->|]; [congruence|]. apply (Hf j); [lia|done].
Qed.

Lemma content_free_nil t a b : (b ≤ a)%nat → content_free t a b.
Proof. intros ? j c ?. lia. Qed.

Lemma scan_lines_ok : ∀ n rest pre s,
  (length rest ≤ n)%nat → (s ≤ length pre)%nat → content_free (pre ++ rest) s (length pre) →
  lines_of (pre ++ rest) s (lt_starts (scan_lines (length pre) rest))
                           (lt_content_ends (scan_lines (length pre) rest)).
Proof.
  induction n as [|n IH]; intros rest pre s Hn Hs Hf.
  { destruct rest; simpl in *; [|lia]. rewrite app_nil_r in *. by constructor. }
  destruct rest as [|c t1]; simpl.
  { rewrite app_nil_r in *. by constructor. }
  simpl in Hn.
  assert ((pre ++ c :: t1) !! length pre = Some c) as Hc by (by rewrite list_lookup_middle).
  assert ((pre ++ c :: t1) = (pre ++ [c]) ++ t1) as Heq by (by rewrite <-app_assoc).
  assert (length (pre ++ [c]) = (length pre + 1)%nat) as Hlen by (by rewrite length_app).
  (* the single-character branch, when [c] is not the first half of a CRLF *)
  assert (¬ (c = cp_CR ∧ t1 !! 0%nat = Some cp_LF) →
    let r := if bool_decide (c = cp_LF) || bool_decide (c = cp_CR)
             then add_line (length pre) (length pre + 1) [c] (scan_lines (length pre + 1) t1)
             else scan_lines (length pre + 1) t1 in
    lines_of (pre ++ c :: t1) s (lt_starts r) (lt_content_ends r)) as Hsingle.
  { intros Hno r. unfold r. rewrite <-Hlen.
    destruct (decide (newline c)) as [Hnl|Hnl].
    - assert (bool_decide (c = cp_LF) || bool_decide (c = cp_CR) = true) as ->.
      { apply orb_true_iff. rewrite !bool_decide_eq_true. destruct Hnl; auto. }
      simpl. eapply lines_cons; [exact Hs|done| |].
      + left. split; [lia|]. destruct Hnl as [->| ->]; [right|by left]. split; [done|].
        rewrite lookup_app_r by lia. replace (S (length pre) - length pre)%nat with 1%nat by lia.
        simpl. intros HH. apply Hno. done.
      + rewrite Heq. apply IH; [lia|lia|]. apply content_free_nil. lia.
    - assert (bool_decide (c = cp_LF) || bool_decide (c = cp_CR) = false) as ->.
      { apply orb_false_iff. rewrite !bool_decide_eq_false. unfold newline in Hnl. tauto. }
      rewrite Heq. apply IH; [lia|lia|]. rewrite Hlen, Nat.add_1_r, <-Heq. by eapply content_free_snoc. }
  destruct t1 as [|d t2]; [by apply Hsingle; intros [_ ?]|].
  destruct (bool_decide (c = cp_CR) && bool_decide (d = cp_LF)) eqn:Hcr.
  - apply andb_prop in Hcr as [->%bool_decide_eq_true ->%bool_decide_eq_true]. simpl.
    eapply lines_cons; [exact Hs|done| |].
    + right. split_and!; [lia|done|]. rewrite lookup_app_r by lia.
      by replace (S (length pre) - length pre)%nat with 1%nat by lia.
    + replace (pre ++ cp_CR :: cp_LF :: t2) with ((pre ++ [cp_CR; cp_LF]) ++ t2) by (by rewrite <-app_assoc).
      replace (length pre + 2)%nat with (length (pre ++ [cp_CR; cp_LF])) by (by rewrite length_app).
      simpl in Hn. apply IH; [lia|lia|]. by apply content_free_nil.
  - apply Hsingle. intros [-> [= ->]]. by rewrite !bool_decide_true in Hcr.
Qed.

Lemma lines_of_length t s starts cends : lines_of t s starts cends → length cends = S (length starts).
Proof. induction 1; simpl; congruence. Qed.

Lemma lines_of_bound t s starts cends : lines_of t s starts cends → (s ≤ length t)%nat.
Proof.
  induction 1 as [|s c s' starts cends Hs Hf Hb Hl IH]; [done|]. destruct Hb as [[-> _]|[-> _]]; lia.
Qed.

(** The line an offset falls on. *)
Lemma lines_of_offset t s starts cends o :
  lines_of t s starts cends → (s ≤ o ≤ length t)%nat →
  ∃ L st ce, bisect_right (s :: starts) o = S L ∧ (s :: starts) !! L = Some st ∧ cends !! L = Some ce ∧
    (st ≤ o)%nat ∧ (st ≤ ce)%nat ∧ content_free t st ce ∧
    ((st = s ∧ L = 0%nat) ∨ (∃ c, (s ≤ c < st)%nat ∧ break_at t c st)) ∧
    ((o ≤ ce)%nat ∨ (o = S ce ∧ t !! ce = Some cp_CR ∧ t !! S ce = Some cp_LF)).
Proof.
  intros Hl. revert o. induction Hl as [s Hs Hf|s c s' starts cends Hs Hf Hb Hl IH]; intros o Ho.
  - exists 0%nat, s, (length t). simpl. rewrite (proj2 (Nat.leb_le s o)) by lia. split_and!; try done; try lia; auto.
  - assert (c < s' ∧ s' ≤ c + 2)%nat as Hcs by (destruct Hb as [[-> _]|[-> _]]; lia).
    destruct (decide (s' ≤ o)%nat) as [Hle|Hgt].
    + destruct (IH o ltac:(lia)) as (L & st & ce & Hbis & Hst & Hce & H1 & H2 & H3 & H4 & H5).
      exists (S L), st, ce. split_and!; try done.
      * simpl. rewrite (proj2 (Nat.leb_le s o)) by lia. f_equal. exact Hbis.
      * right. destruct H4 as [[-> _]|(c' & Hc' & Hb')]; [exists c|exists c']; split; try done; lia.
    + exists 0%nat, s, c. simpl. rewrite (proj2 (Nat.leb_le s o)) by lia.
      rewrite (proj2 (Nat.leb_gt s' o)) by lia. split_and!; try done; try lia; auto.
      destruct Hb as [[-> _]|(-> & Hcr & Hlf)]; [left; lia|].
      destruct (decide (o ≤ c)%nat); [by left|right]. split_and!; [lia|done..].
Qed.

(** Conversely, an offset within a line's content is found on that line. *)
Lemma lines_of_line t s starts cends L st ce o :
  lines_of t s starts cends → (s :: starts) !! L = Some st → cends !! L = Some ce →
  (st ≤ o ≤ ce)%nat → bisect_right (s :: starts) o = S L ∧ (ce ≤ length t)%nat.
Proof.
  intros Hl. revert L. induction Hl as [s Hs Hf|s c s' starts cends Hs Hf Hb Hl IH]; intros L Hst Hce Ho.
  - destruct L; simplify_eq/=. rewrite (proj2 (Nat.leb_le st o)) by lia. done.
  - assert (c < s')%nat as Hcs by (destruct Hb as [[-> _]|[-> _]]; lia).
    pose proof (lines_of_bound _ _ _ _ Hl) as Hs'.
    destruct L as [|L]; simplify_eq/=.
    + rewrite (proj2 (Nat.leb_le st o)) by lia. rewrite (proj2 (Nat.leb_gt s' o)) by lia. split; [done|lia].
    + destruct (IH L Hst Hce Ho) as [Hbis Hlen]. simpl in Hbis. split; [|done].
      assert (s' ≤ st)%nat as Hmono.
      { clear -Hl Hst. revert L Hst. induction Hl as [|s c s' starts cends Hs Hf Hb Hl IH]; intros L Hst.
        - destruct L; simplify_eq/=. done.
        - destruct L as [|L]; simplify_eq/=; [done|]. specialize (IH L Hst).
          destruct Hb as [[-> _]|[-> _]]; lia. }
      rewrite (proj2 (Nat.leb_le s o)) by lia. by f_equal.
Qed.

Lemma lines_of_start_le t s starts cends L st ce :
  lines_of t s starts cends → (s :: starts) !! L = Some st → cends !! L = Some ce → (st ≤ ce)%nat.
Proof.
  intros Hl. revert L. induction Hl as [s Hs Hf|s c s' starts cends Hs Hf Hb Hl IH]; intros [|L]; simpl; intros; simplify_eq; eauto.
Qed.

(** ** The walk along a line *)

Lemma units_pos e c : 1 ≤ _units e c.
Proof. destruct e; simpl; [unfold utf8_len|..]; repeat case_match; lia. Qed.

Lemma units_of_nonneg e t : 0 ≤ units_of e t.
Proof. induction t as [|c t IH]; simpl; [lia|]. pose proof (units_pos e c). lia. Qed.

Lemma walk_line_sound e cs o u target r :
  walk_line e cs o u target = Ok r →
  ∃ k, (k ≤ length cs)%nat ∧ r = (o + k)%nat ∧ u + units_of e (take k cs) = target.
Proof.
  revert o u. induction cs as [|c cs IH]; intros o u; simpl; case_bool_decide as Hu; intros Hw; simplify_eq.
  - exists 0%nat. simpl. split_and!; lia.
  - exists 0%nat. simpl. split_and!; lia.
  - destruct (IH _ _ Hw) as (k & Hk & -> & Ht). exists (S k). simpl. split_and!; [lia|lia|]. simpl in Ht. lia.
Qed.

Lemma walk_line_complete e cs o u k :
  (k ≤ length cs)%nat → walk_line e cs o u (u + units_of e (take k cs)) = Ok (o + k)%nat.
Proof.
  revert o u k. induction cs as [|c cs IH]; intros o u k Hk; simpl in *.
  - destruct k; [|lia]. simpl. rewrite bool_decide_true by lia. f_equal. lia.
  - destruct k as [|k]; simpl.
    + rewrite bool_decide_true by lia. f_equal. lia.
    + pose proof (units_pos e c). pose proof (units_of_nonneg e (take k cs)).
      rewrite bool_decide_false by lia. replace (u + (_units e c + units_of e (take k cs)))
        with (u + _units e c + units_of e (take k cs)) by lia.
      rewrite IH by lia. f_equal. lia.
Qed.

(** ** What a snapshot satisfies *)

Record snapshot_ok (s : FileSnapshot) : Prop := {
  so_bytes : raw_bytes s = bom s ++ utf8_encode (text s);
  so_bom : bom s = [] ∨ bom s = utf8_bom;
  so_scalar : Forall (λ c, is_scalar c = true) (text s);
  so_table : _text_to_byte s = length (bom s) :: byte_table (length (bom s)) (text s);
  so_lines : ∃ starts, _line_starts s = 0%nat :: starts ∧ lines_of (text s) 0 starts (_line_content_ends s);
}.

Lemma from_bytes_ok raw s : from_bytes raw = Ok s → raw_bytes s = raw ∧ snapshot_ok s.
Proof.
  unfold from_bytes. set (b := if bool_decide _ then _ else _). intros Hs.
  destruct (utf8_decode (drop (length b) raw)) as [t|] eqn:Hd; simplify_eq; simpl. split; [done|].
  destruct (utf8_decode_encode _ _ _ (le_n _) Hd) as [Henc Hall].
  split; simpl; try done.
  - rewrite Henc. unfold b. case_bool_decide as Hb; [|done]. rewrite <-Hb at 1. symmetry. apply take_drop.
  - unfold b. case_bool_decide; auto.
  - eexists. split; [done|]. apply (scan_lines_ok (length t) t [] 0); [lia|simpl; lia|].
    apply content_free_nil. simpl. lia.
Qed.

Lemma byte_table_lookup b t i :
  (i ≤ length t)%nat → (b :: byte_table b t) !! i = Some (b + length (utf8_encode (take i t)))%nat.
Proof.
  revert b i. induction t as [|c t IH]; intros b i Hi; simpl in *.
  - destruct i; [|lia]. simpl. f_equal. lia.
  - destruct i as [|i]; simpl; [f_equal; lia|]. specialize (IH (b + utf8_len c)%nat i ltac:(lia)). simpl in IH.
    rewrite IH. change (utf8_encode (c :: take i t)) with (utf8_encode_char c ++ utf8_encode (take i t)).
    rewrite length_app, utf8_encode_char_length. f_equal. lia.
Qed.

Lemma byte_table_length b t : length (byte_table b t) = length t.
Proof. revert b. induction t; intros b; simpl; congruence. Qed.

Lemma utf8_len_pos c : (1 ≤ utf8_len c)%nat.
Proof. unfold utf8_len. repeat case_match; lia. Qed.

Lemma encode_take_lt t i j : (i < j ≤ length t)%nat →
  (length (utf8_encode (take i t)) < length (utf8_encode (take j t)))%nat.
Proof.
  revert i j. induction t as [|c t IH]; intros i j Hij; simpl in *; [lia|].
  destruct j as [|j]; [lia|]. pose proof (utf8_len_pos c).
  rewrite (firstn_cons j), utf8_encode_cons, length_app, utf8_encode_char_length.
  destruct i as [|i]; [simpl; lia|].
  rewrite (firstn_cons i), utf8_encode_cons, length_app, utf8_encode_char_length.
  specialize (IH i j ltac:(lia)). lia.
Qed.

Lemma nat_index_Some x l i :
  nat_index x l = Some i → l !! i = Some x.
Proof.
  revert i. induction l as [|y l IH]; intros i; simpl; [done|]. case_bool_decide; [intros [= <-]; by subst|].
  intros (j & Hj & ->)%fmap_Some. by apply IH.
Qed.

Lemma nat_index_None x l i : nat_index x l = None → l !! i ≠ Some x.
Proof.
  revert i. induction l as [|y l IH]; intros i; simpl; [done|]. case_bool_decide; [done|].
  intros Hn%fmap_None. destruct i; simpl; [naive_solver|by apply IH].
Qed.

(** ** The mapper on a snapshot *)

Section mapper.
Context (s : FileSnapshot) (e : PositionEncoding) (Hok : snapshot_ok s).
Let m : PositionMapper := from_snapshot s e.

Lemma table_lengths : length (_line_content_ends s) = length (_line_starts s).
Proof using Hok. destruct (so_lines _ Hok) as (starts & -> & Hl). by rewrite (lines_of_length _ _ _ _ Hl). Qed.

Lemma check_text_offset_ok o : _check_text_offset m o = Ok tt ↔ 0 ≤ o ≤ Z.of_nat (length (text s)).
Proof using Type. unfold _check_text_offset; simpl. repeat case_bool_decide; simpl; split; (lia || done). Qed.

(** The position a decoded offset has, if any. *)
Lemma lsp_to_offset_spec p o :
  lsp_to_text_offset m p = Ok o ↔
  ∃ L st ce k, line p = Z.of_nat L ∧ _line_starts s !! L = Some st ∧ _line_content_ends s !! L = Some ce ∧
    (k ≤ length (text_slice (text s) st ce))%nat ∧ o = Z.of_nat (st + k) ∧
    character p = units_of e (take k (text_slice (text s) st ce)).
Proof using Hok.
  unfold lsp_to_text_offset; simpl. split.
  - case_bool_decide; [done|]. case_bool_decide as Hlt; [done|]. simpl. case_bool_decide; [done|].
    intros Hw. set (L := Z.to_nat (line p)) in *.
    destruct (lookup_lt_is_Some_2 (_line_starts s) L) as [st Hst]; [lia|].
    destruct (lookup_lt_is_Some_2 (_line_content_ends s) L) as [ce Hce]; [rewrite table_lengths; lia|].
    rewrite (list_lookup_total_correct _ _ _ Hst), (list_lookup_total_correct _ _ _ Hce) in Hw.
    destruct (walk_line _ _ _ _ _) as [r|] eqn:Hr; simplify_eq/=.
    apply walk_line_sound in Hr as (k & Hk & -> & Hu). exists L, st, ce, k. split_and!; try done; lia.
  - intros (L & st & ce & k & Hl & Hst & Hce & Hk & -> & Hc). rewrite Hl, Nat2Z.id.
    pose proof (lookup_lt_Some _ _ _ Hst). pose proof (units_of_nonneg e (take k (text_slice (text s) st ce))).
    rewrite !bool_decide_false by lia. simpl.
    rewrite (list_lookup_total_correct _ _ _ Hst), (list_lookup_total_correct _ _ _ Hce), Hc.
    pose proof (walk_line_complete e _ st 0 k Hk) as Hw. rewrite Z.add_0_l in Hw. by rewrite Hw.
Qed.

Lemma text_slice_length (t : pystr) a b : (b ≤ length t)%nat → length (text_slice t a b) = (b - a)%nat.
Proof using Type. intros. unfold text_slice. rewrite length_take, length_drop. lia. Qed.

Lemma take_text_slice (t : pystr) a b k : (a + k ≤ b)%nat → take k (text_slice t a b) = text_slice t a (a + k).
Proof using Type. intros. unfold text_slice. rewrite take_take. f_equal. lia. Qed.

Lemma offset_to_lsp_spec o p :
  text_offset_to_lsp m o = Ok p ↔
  ∃ L st ce k, line p = Z.of_nat L ∧ _line_starts s !! L = Some st ∧ _line_content_ends s !! L = Some ce ∧
    (k ≤ length (text_slice (text s) st ce))%nat ∧ o = Z.of_nat (st + k) ∧
    character p = units_of e (take k (text_slice (text s) st ce)).
Proof using Hok.
  destruct (so_lines _ Hok) as (starts & Hstarts & Hlines). unfold text_offset_to_lsp. simpl. split.
  - destruct (_check_text_offset m o) as [[]|] eqn:Hc; [|done]. apply check_text_offset_ok in Hc. simpl.
    destruct (lines_of_offset _ _ _ _ (Z.to_nat o) Hlines ltac:(lia))
      as (L & st & ce & Hbis & Hst & Hce & Hso & Hsc & _ & _ & Hoc).
    rewrite Hstarts, Hbis. simpl. rewrite Nat.sub_0_r.
    rewrite (list_lookup_total_correct _ _ _ Hst), (list_lookup_total_correct _ _ _ Hce).
    destruct (ce <? Z.to_nat o)%nat eqn:Hlt; [done|]. apply Nat.ltb_ge in Hlt. intros [= <-]; simpl.
    destruct (lines_of_line _ _ _ _ _ _ _ (Z.to_nat o) Hlines Hst Hce ltac:(lia)) as [_ Hcl].
    exists L, st, ce, (Z.to_nat o - st)%nat. split_and!; try done.
    + rewrite text_slice_length by lia. lia.
    + lia.
    + rewrite take_text_slice by lia. do 2 f_equal. lia.
  - intros (L & st & ce & k & Hl & Hst & Hce & Hk & -> & Hch). rewrite Hstarts in Hst.
    pose proof (lines_of_start_le _ _ _ _ _ _ _ Hlines Hst Hce) as Hsc.
    destruct (lines_of_line _ _ _ _ _ _ _ ce Hlines Hst Hce ltac:(lia)) as [_ Hcl].
    rewrite text_slice_length in Hk by lia.
    destruct (lines_of_line _ _ _ _ _ _ _ (st + k)%nat Hlines Hst Hce ltac:(lia)) as [Hbis _].
    assert (_check_text_offset m (Z.of_nat (st + k)) = Ok tt) as -> by (apply check_text_offset_ok; lia).
    simpl. rewrite Nat2Z.id, Hstarts, Hbis. simpl. rewrite Nat.sub_0_r.
    rewrite (list_lookup_total_correct _ _ _ Hst), (list_lookup_total_correct _ _ _ Hce).
    rewrite (proj2 (Nat.ltb_ge ce (st + k))) by lia. destruct p as [pl pc]; simpl in *. subst.
    by rewrite take_text_slice by lia.
Qed.

Lemma text_to_byte_spec o b :
  text_offset_to_byte_offset m o = Ok b ↔
  0 ≤ o ≤ Z.of_nat (length (text s)) ∧
  b = Z.of_nat (length (bom s ++ utf8_encode (take (Z.to_nat o) (text s)))).
Proof using Hok.
  unfold text_offset_to_byte_offset. simpl. rewrite (so_table _ Hok), length_app.
  assert (∀ i, (i ≤ length (text s))%nat → (length (bom s) :: byte_table (length (bom s)) (text s)) !!! i =
    (length (bom s) + length (utf8_encode (take i (text s))))%nat) as Hget.
  { intros i Hi. apply list_lookup_total_correct. by apply byte_table_lookup. }
  split.
  - destruct (_check_text_offset m o) as [[]|] eqn:Hc; [|done]. apply check_text_offset_ok in Hc.
    intros [= <-]. rewrite Hget by lia. done.
  - intros [Ho ->]. assert (_check_text_offset m o = Ok tt) as -> by (by apply check_text_offset_ok).
    simpl. by rewrite Hget by lia.
Qed.

Lemma byte_to_text_spec o b :
  byte_offset_to_text_offset m b = Ok o ↔
  0 ≤ o ≤ Z.of_nat (length (text s)) ∧
  b = Z.of_nat (length (bom s ++ utf8_encode (take (Z.to_nat o) (text s)))).
Proof using Hok.
  unfold byte_offset_to_text_offset. change (snapshot m) with s. rewrite (so_table _ Hok), (so_bytes _ Hok), !length_app.
  split.
  - destruct (bool_decide (b < 0) || _) eqn:Hb; [done|]. apply orb_false_iff in Hb as [Hb Hb'].
    apply bool_decide_eq_false in Hb, Hb'.
    destruct (nat_index _ _) as [i|] eqn:Hi; [|done]. intros [= <-]. apply nat_index_Some in Hi as Hi'.
    pose proof (lookup_lt_Some _ _ _ Hi') as Hlt. simpl in Hlt. rewrite byte_table_length in Hlt.
    rewrite byte_table_lookup in Hi' by lia. simplify_eq. rewrite Nat2Z.id. lia.
  - intros [Ho ->].
    assert (length (utf8_encode (take (Z.to_nat o) (text s))) ≤ length (utf8_encode (text s)))%nat as Hle.
    { rewrite <-(take_drop (Z.to_nat o) (text s)) at 2. rewrite utf8_encode_app, length_app. lia. }
    rewrite !bool_decide_false by lia. cbn [orb]. rewrite Nat2Z.id.
    pose proof (byte_table_lookup (length (bom s)) (text s) (Z.to_nat o) ltac:(lia)) as Hget.
    destruct (nat_index _ _) as [i|] eqn:Hi; [|by apply (nat_index_None _ _ (Z.to_nat o)) in Hi].
    apply nat_index_Some in Hi. pose proof (lookup_lt_Some _ _ _ Hi) as Hlt. simpl in Hlt.
    rewrite byte_table_length in Hlt. rewrite byte_table_lookup in Hi by lia. injection Hi as Hi.
    f_equal. destruct (Nat.lt_trichotomy i (Z.to_nat o)) as [Hl|[->|Hl]]; [|lia|].
    + pose proof (encode_take_lt (text s) i (Z.to_nat o) ltac:(lia)). lia.
    + pose proof (encode_take_lt (text s) (Z.to_nat o) i ltac:(lia)). lia.
Qed.

(** An offset in range has no position exactly between a CR and its LF. *)
Lemma no_position_spec o :
  0 ≤ o ≤ Z.of_nat (length (text s)) →
  (is_ok (text_offset_to_lsp m o) = false ↔
   ∃ c, Z.to_nat o = S c ∧ text s !! c = Some cp_CR ∧ text s !! S c = Some cp_LF).
Proof using Hok.
  intros Ho. destruct (so_lines _ Hok) as (starts & Hstarts & Hlines). unfold text_offset_to_lsp.
  assert (_check_text_offset m o = Ok tt) as -> by (by apply check_text_offset_ok). simpl.
  destruct (lines_of_offset _ _ _ _ (Z.to_nat o) Hlines ltac:(lia))
    as (L & st & ce & Hbis & Hst & Hce & Hso & Hsc & Hfree & Hprev & Hoc).
  rewrite Hstarts, Hbis. simpl. rewrite Nat.sub_0_r, (list_lookup_total_correct _ _ _ Hce).
  destruct (ce <? Z.to_nat o)%nat eqn:Hlt; simpl.
  - apply Nat.ltb_lt in Hlt. destruct Hoc as [?|[-> Hcr]]; [lia|]. split; [|done]. intros _. by exists ce.
  - apply Nat.ltb_ge in Hlt. split; [done|]. intros (c & Hc & Hcr & Hlf). exfalso.
    destruct (decide (st ≤ c)%nat) as [Hle|Hgt].
    + apply (Hfree c _ ltac:(lia) Hcr). by left.
    + destruct Hprev as [[-> _]|(c' & Hc' & [(-> & Hb)|(-> & Hb1 & Hb2)])]; [lia| |].
      * assert (c' = c) as -> by lia. destruct Hb as [Hb|[_ Hb]]; [|congruence]. by rewrite Hb in Hcr.
      * assert (S c' = c) as <- by lia. by rewrite Hb2 in Hcr.
Qed.
End mapper.

(** ** Properties *)

(** C27: Positions and decoded offsets of a snapshot are in exact
    correspondence, in every encoding: a position converts to an offset
    precisely when that offset converts back to the position. *)
Theorem lsp_offset_round_trip raw s e p o :
  from_bytes raw = Ok s →
  lsp_to_text_offset (from_snapshot s e) p = Ok o ↔ text_offset_to_lsp (from_snapshot s e) o = Ok p.
Proof. intros [_ Hok]%from_bytes_ok. by rewrite lsp_to_offset_spec, offset_to_lsp_spec. Qed.

(** Every decoded offset within the text has a position except the ones
    between the two characters of a CRLF pair. *)
Theorem unmapped_offsets_are_inside_crlf raw s e o :
  from_bytes raw = Ok s → 0 ≤ o ≤ Z.of_nat (length (text s)) →
  is_ok (text_offset_to_lsp (from_snapshot s e) o) = false ↔
  ∃ c, Z.to_nat o = S c ∧ text s !! c = Some cp_CR ∧ text s !! S c = Some cp_LF.
Proof. intros [_ Hok]%from_bytes_ok. by apply no_position_spec. Qed.

(** Decoded offsets and byte offsets are inverse to each other where they
    are defined, and a byte offset cuts the file exactly after the encoding
    signature and the encoded characters before the decoded offset. *)
Theorem byte_offset_round_trip raw s e o b :
  from_bytes raw = Ok s →
  (text_offset_to_byte_offset (from_snapshot s e) o = Ok b ↔
   byte_offset_to_text_offset (from_snapshot s e) b = Ok o) ∧
  (text_offset_to_byte_offset (from_snapshot s e) o = Ok b →
   take (Z.to_nat b) raw = bom s ++ utf8_encode (take (Z.to_nat o) (text s))).
Proof.
  intros [<- Hok]%from_bytes_ok. rewrite text_to_byte_spec, byte_to_text_spec by done.
  split; [done|]. intros [Ho ->]. rewrite Nat2Z.id, (so_bytes _ Hok).
  rewrite <-(take_drop (Z.to_nat o) (text s)) at 2. rewrite utf8_encode_app, app_assoc.
  by apply take_app_length.
Qed.

(** A snapshot loses nothing: the raw bytes are the recorded signature
    followed by the UTF-8 encoding of the text; and every text of Unicode
    scalars, with or without a signature (and not itself beginning with one),
    is accepted and comes back unchanged. *)
Theorem snapshot_lossless :
  (∀ raw s, from_bytes raw = Ok s → raw = bom s ++ utf8_encode (text s)) ∧
  (∀ b t, b = [] ∨ b = utf8_bom → Forall (λ c, is_scalar c = true) t →
     (b = [] → take 3 (utf8_encode t) ≠ utf8_bom) →
     ∃ s, from_bytes (b ++ utf8_encode t) = Ok s ∧ text s = t ∧ bom s = b).
Proof.
  split.
  - intros raw s [<- Hok]%from_bytes_ok. apply Hok.
  - intros b t Hb Ht Hno. unfold from_bytes.
    assert ((if bool_decide (take 3 (b ++ utf8_encode t) = utf8_bom) then utf8_bom else []) = b) as ->.
    { destruct Hb as [->| ->]; [|done]. by rewrite bool_decide_false by (by apply Hno). }
    rewrite drop_app_length, utf8_encode_decode by done. by eexists.
Qed.

(** The text and the byte range a renderer shows for one LSP range agree:
    the encoded text is the raw file between the two byte offsets, and each
    column counts the characters from the start of its line. *)
Theorem rendered_range_matches_bytes raw s e start stop a b :
  from_bytes raw = Ok s → range (from_snapshot s e) start stop = Ok (a, b) →
  pp_text_offset a ≤ pp_text_offset b →
  ∃ t, renderer_text (from_snapshot s e) start stop = Ok t ∧
    utf8_encode t = take (Z.to_nat (pp_byte_offset b - pp_byte_offset a)) (drop (Z.to_nat (pp_byte_offset a)) raw) ∧
    pp_column b = pp_text_offset b - Z.of_nat (_line_starts s !!! Z.to_nat (line stop)).
Proof.
  intros [<- Hok]%from_bytes_ok. unfold range, position.
  destruct (lsp_to_text_offset (from_snapshot s e) start) as [oa|] eqn:Ha; [|done]. simpl.
  destruct (text_offset_to_byte_offset (from_snapshot s e) oa) as [ba|] eqn:Hba; [|done]. simpl.
  destruct (lsp_to_text_offset (from_snapshot s e) stop) as [ob|] eqn:Hb; [|done]. simpl.
  destruct (text_offset_to_byte_offset (from_snapshot s e) ob) as [bb|] eqn:Hbb; [|done]. simpl.
  intros [= <- <-]; simpl. intros Hle. unfold renderer_text. rewrite Ha, Hb. simpl.
  eexists. split; [done|]. split; [|done].
  apply text_to_byte_spec in Hba as [Hoa ->]; [|done]. apply text_to_byte_spec in Hbb as [Hob ->]; [|done].
  unfold text_slice. set (i := Z.to_nat oa). set (j := Z.to_nat ob). assert (i ≤ j ≤ length (text s))%nat by lia.
  assert (take j (text s) = take i (text s) ++ take (j - i) (drop i (text s))) as Hj.
  { rewrite take_drop_commute. replace (i + (j - i))%nat with j by lia.
    rewrite <-(take_drop i (take j (text s))) at 1. rewrite take_take. f_equal. f_equal. lia. }
  assert (utf8_encode (text s) = utf8_encode (take i (text s)) ++
            utf8_encode (take (j - i) (drop i (text s))) ++ utf8_encode (drop j (text s))) as Hall.
  { by rewrite app_assoc, <-!utf8_encode_app, <-Hj, take_drop. }
  rewrite Nat2Z.id, (so_bytes _ Hok), Hall, Hj, utf8_encode_app.
  rewrite (app_assoc (bom s) (utf8_encode (take i _)) (utf8_encode _ ++ _)), drop_app_length.
  rewrite take_app_length'; [done|]. rewrite !length_app. lia.
Qed.

(** ** Example: a signature, an accented and an astral character, a CRLF. *)

Module PositionExamples.

Definition raw : list N := utf8_bom ++ utf8_encode ([97; 233; 13; 10; 128512; 98]%N).

Definition snap : FileSnapshot :=
  match from_bytes raw with Ok s => s | Err _ => {| raw_bytes := []; text := []; bom := []; line_endings := [];
    _text_to_byte := []; _line_starts := []; _line_content_ends := []; _line_ends := [] |} end.

Lemma lsp_offset_round_trip_witness :
  let p := {| line := 1; character := 2 |} in
  lsp_to_text_offset (from_snapshot snap UTF16) p = Ok 5 ∧
  text_offset_to_lsp (from_snapshot snap UTF16) 5 = Ok p.
Proof.
  split; [vm_compute; reflexivity|].
  apply (lsp_offset_round_trip raw snap UTF16 _ 5); vm_compute; reflexivity.
Defined.

Lemma unmapped_offsets_are_inside_crlf_witness :
  ∃ c, Z.to_nat 3 = S c ∧ text snap !! c = Some cp_CR ∧ text snap !! S c = Some cp_LF.
Proof.
  apply (unmapped_offsets_are_inside_crlf raw snap UTF8 3); vm_compute; done.
Defined.

Lemma byte_offset_round_trip_witness :
  text_offset_to_byte_offset (from_snapshot snap UTF8) 2 = Ok 6 ∧
  byte_offset_to_text_offset (from_snapshot snap UTF8) 6 = Ok 2 ∧
  take 6 raw = bom snap ++ utf8_encode (take 2 (text snap)).
Proof.
  assert (text_offset_to_byte_offset (from_snapshot snap UTF8) 2 = Ok 6) as H by (vm_compute; reflexivity).
  assert (from_bytes raw = Ok snap) as Hs by (vm_compute; reflexivity).
  destruct (byte_offset_round_trip raw snap UTF8 2 6 Hs) as [H1 H2].
  split_and!; [exact H|apply H1; exact H|exact (H2 H)].
Defined.

Lemma rendered_range_matches_bytes_witness :
  ∃ t, renderer_text (from_snapshot snap UTF16) {| line := 0; character := 1 |} {| line := 1; character := 2 |} = Ok t ∧
       utf8_encode t = take 8 (drop 4 raw).
Proof.
  destruct (rendered_range_matches_bytes raw snap UTF16 {| line := 0; character := 1 |} {| line := 1; character := 2 |}
    {| pp_line := 0; pp_column := 1; pp_text_offset := 1; pp_byte_offset := 4 |}
    {| pp_line := 1; pp_column := 1; pp_text_offset := 5; pp_byte_offset := 12 |}) as (t & Ht & Henc & _).
  - vm_compute. reflexivity.
  - vm_compute. reflexivity.
  - vm_compute. discriminate.
  - exists t. split; [exact Ht|]. rewrite Henc. reflexivity.
Defined.

End PositionExamples.
