(* ===== verification/Paths.v ===== *)
(** * POSIX paths

    What the sources use of [posixpath.normpath] and [PurePosixPath]: splitting
    into components, lexical normalisation, and the suffix of the last
    component (Python 3.12). *)

From S2P Require Import Prelude.

(** ** Components *)

Definition cp_slash : N := 47.
Definition cp_dot : N := 46.
Definition dot : pystr := [cp_dot].
Definition dotdot : pystr := [cp_dot; cp_dot].

(** [path.split("/")]: always at least one component. *)
Fixpoint split_slash (p : pystr) : list pystr :=
  match p with
  | [] => [[]]
  | c :: p =>
      if bool_decide (c = cp_slash) then [] :: split_slash p
      else match split_slash p with
           | comp :: comps => (c :: comp) :: comps
           | [] => [[c]]
           end
  end.

(** ["/".join(comps)] *)
Fixpoint join_slash (comps : list pystr) : pystr :=
  match comps with
  | [] => []
  | [comp] => comp
  | comp :: comps => comp ++ cp_slash :: join_slash comps
  end.

(** The component loop of [posixpath.normpath] for a path without leading
    slash; [acc] is [new_comps], last component first. *)
Fixpoint norm_comps (acc comps : list pystr) : list pystr :=
  match comps with
  | [] => reverse acc
  | comp :: comps =>
      if bool_decide (comp = []) || bool_decide (comp = dot) then norm_comps acc comps
      else if bool_decide (comp ≠ dotdot) then norm_comps (comp :: acc) comps
      else match acc with
           | [] => norm_comps [comp] comps
           | last :: acc' =>
               if bool_decide (last = dotdot) then norm_comps (comp :: acc) comps
               else norm_comps acc' comps
           end
  end.

(** [posixpath.normpath], relative paths. *)
Definition normpath (p : pystr) : pystr :=
  match p with
  | [] => dot
  | _ => match join_slash (norm_comps [] (split_slash p)) with [] => dot | n => n end
  end.

(** [PurePosixPath(p).parts] of a relative path. *)
Definition path_parts (p : pystr) : list pystr :=
  filter (λ comp, comp ≠ [] ∧ comp ≠ dot) (split_slash p).

(** [str.lower] as far as a comparison with ASCII suffixes can see. *)
Definition lower_ascii (s : pystr) : pystr :=
  (λ c, if (65 <=? c)%N && (c <=? 90)%N then (c + 32)%N else c) <$> s.

(** The part of a name from its last dot on ([None]: no dot), with the number
    of characters before it. *)
Fixpoint last_dot (name : pystr) : option (nat * pystr) :=
  match name with
  | [] => None
  | c :: rest =>
      match last_dot rest with
      | Some (i, s) => Some (S i, s)
      | None => if bool_decide (c = cp_dot) then Some (0%nat, name) else None
      end
  end.

(** [PurePosixPath(path).suffix]: empty when the dot is first or last. *)
Definition path_suffix (p : pystr) : pystr :=
  match last (path_parts p) with
  | None => []
  | Some name =>
      match last_dot name with
      | Some (S _, (_ :: _ :: _) as s) => s
      | _ => []
      end
  end.

(** ** Laws *)

(** A component that names an entry of its directory. *)
Definition plain (comp : pystr) : Prop := comp ≠ [] ∧ comp ≠ dot ∧ comp ≠ dotdot.

Lemma split_slash_nonnil p : split_slash p ≠ [].
Proof. destruct p as [|c p]; simpl; [done|]. case_bool_decide; [done|]. by destruct (split_slash p). Qed.

Lemma split_slash_free p : Forall (λ comp, cp_slash ∉ comp) (split_slash p).
Proof.
  induction p as [|c p IH]; simpl; [repeat constructor; set_solver|].
  case_bool_decide as Hc; [constructor; [set_solver|done]|].
  destruct (split_slash p) as [|comp comps]; [repeat constructor; set_solver|].
  apply Forall_cons in IH as [Hcomp Hcomps]. constructor; [set_solver|done].
Qed.

Lemma join_split p : join_slash (split_slash p) = p.
Proof.
  induction p as [|c p IH]; [done|]. simpl. case_bool_decide as Hc.
  - pose proof (split_slash_nonnil p) as Hn. destruct (split_slash p) as [|comp comps] eqn:E; [done|].
    change (join_slash ([] :: comp :: comps)) with ([] ++ cp_slash :: join_slash (comp :: comps)).
    rewrite IH. by subst.
  - pose proof (split_slash_nonnil p) as Hn. destruct (split_slash p) as [|comp comps] eqn:E; [done|].
    rewrite <-IH. by destruct comps.
Qed.

Lemma split_app_slash comp p : cp_slash ∉ comp → split_slash (comp ++ cp_slash :: p) = comp :: split_slash p.
Proof.
  intros Hfree. induction comp as [|c comp IH]; simpl; [done|].
  rewrite bool_decide_false by set_solver. by rewrite IH by set_solver.
Qed.

Lemma split_no_slash comp : cp_slash ∉ comp → split_slash comp = [comp].
Proof.
  intros Hfree. induction comp as [|c comp IH]; simpl; [done|].
  rewrite bool_decide_false by set_solver. by rewrite IH by set_solver.
Qed.

Lemma split_join comps : comps ≠ [] → Forall (λ comp, cp_slash ∉ comp) comps → split_slash (join_slash comps) = comps.
Proof.
  induction comps as [|comp comps IH]; [done|]. intros _ [Hc Hcs]%Forall_cons.
  destruct comps as [|comp' comps]; [by apply split_no_slash|].
  change (join_slash (comp :: comp' :: comps)) with (comp ++ cp_slash :: join_slash (comp' :: comps)).
  rewrite split_app_slash by done. f_equal. by apply IH.
Qed.

(** The components kept come from the input and are neither empty nor ".". *)
Lemma norm_comps_elem acc comps comp :
  comp ∈ norm_comps acc comps → comp ∈ acc ∨ (comp ∈ comps ∧ comp ≠ [] ∧ comp ≠ dot).
Proof.
  revert acc. induction comps as [|x comps IH]; intros acc; simpl; [rewrite elem_of_reverse; auto|].
  case_bool_decide as Hx; simpl; [intros [?|[? ?]]%IH; set_solver|].
  case_bool_decide as Hd; simpl; [intros [?|[? ?]]%IH; set_solver|].
  case_bool_decide as Hdd; [intros [?|[? ?]]%IH; set_solver|].
  destruct acc as [|y acc]; [intros [?|[? ?]]%IH; set_solver|].
  case_bool_decide; intros [?|[? ?]]%IH; set_solver.
Qed.

Lemma norm_comps_plain acc comps :
  Forall plain comps → norm_comps acc comps = reverse acc ++ comps.
Proof.
  intros Hall. revert acc. induction Hall as [|x comps (H1 & H2 & H3) Hall IH]; intros acc; simpl.
  { by rewrite app_nil_r. }
  rewrite !bool_decide_false by done. simpl. rewrite bool_decide_true by done.
  rewrite IH, reverse_cons, <-app_assoc. done.
Qed.

Lemma join_slash_char c comps : c ∈ join_slash comps → c = cp_slash ∨ ∃ comp, comp ∈ comps ∧ c ∈ comp.
Proof.
  induction comps as [|comp comps IH]; [set_solver|].
  destruct comps as [|comp' comps]; [simpl; set_solver|].
  change (join_slash (comp :: comp' :: comps)) with (comp ++ cp_slash :: join_slash (comp' :: comps)).
  rewrite elem_of_app, elem_of_cons. intros [?|[->|Hc]]; [set_solver|by left|].
  destruct (IH Hc) as [->|(x & ? & ?)]; [by left|]. right. exists x. set_solver.
Qed.

Lemma split_slash_char p comp c : comp ∈ split_slash p → c ∈ comp → c ∈ p.
Proof.
  revert comp. induction p as [|d p IH]; intros comp; simpl; [by intros ->%list_elem_of_singleton|].
  case_bool_decide.
  { intros [->|Hin]%elem_of_cons Hc; [by apply not_elem_of_nil in Hc|]. right. by apply (IH comp). }
  destruct (split_slash p) as [|x xs]; [by intros ->%list_elem_of_singleton ->%list_elem_of_singleton; left|].
  intros [->|Hin]%elem_of_cons; [|intros; right; by apply (IH comp); [right|]]. intros [->|?]%elem_of_cons; [by left|]. right. by apply (IH x); [left|].
Qed.
