(* ===== verification/Scope.v ===== *)
(** * Native-program scope and generation readiness

    Model of [src/serena_light/workspace/scope.py]: path normalisation, the
    comparison of a native program with the trust inventory, the bounded
    difference status, and the generation tracker with its observation
    barriers. Paths are strings of code points; the SHA-256 digest is a
    parameter (no property depends on more than its being a function), and
    clock values are any ordered type with addition and subtraction. *)

From S2P Require Import Prelude Paths.

Inductive LanguageFamily := PYTHON | TYPESCRIPT.
Inductive ProjectKind := CONFIGURED | WORKSPACE_DEFAULT.
Inductive DifferenceReason :=
| EXCLUDED_BY_NATIVE_CONFIG
| OMITTED_BY_ENGINE_WORKSPACE_PROGRAM
| ABSENT_FROM_TRUST_INVENTORY
| ABSENT_FROM_GIT_TRUST_INVENTORY
| GIT_IGNORED
| NOT_IN_GIT_INVENTORY
| EXCLUDED_FROM_BOUNDED_INVENTORY
| DR_MISSING
| NON_REGULAR
| OUTSIDE_WORKSPACE
| SYMLINK_OR_ESCAPE.
Inductive ReadinessCode := READY | NOT_READY | SCOPE_INCOMPATIBLE.
Inductive ReadinessScope := CONFIGURED_PROGRAM | PATH.
Inductive FileChangeType := CREATED | CHANGED | DELETED.

#[export] Instance LanguageFamily_eq_dec : EqDecision LanguageFamily.
Proof. solve_decision. Defined.
#[export] Instance ProjectKind_eq_dec : EqDecision ProjectKind.
Proof. solve_decision. Defined.
#[export] Instance DifferenceReason_eq_dec : EqDecision DifferenceReason.
Proof. solve_decision. Defined.

(** [reason.value] *)
Definition reason_value (r : DifferenceReason) : pystr :=
  match r with
  | EXCLUDED_BY_NATIVE_CONFIG => lit "excluded_by_native_config"
  | OMITTED_BY_ENGINE_WORKSPACE_PROGRAM => lit "omitted_by_engine_workspace_program"
  | ABSENT_FROM_TRUST_INVENTORY => lit "absent_from_trust_inventory"
  | ABSENT_FROM_GIT_TRUST_INVENTORY => lit "absent_from_git_trust_inventory"
  | GIT_IGNORED => lit "git_ignored"
  | NOT_IN_GIT_INVENTORY => lit "not_in_git_inventory"
  | EXCLUDED_FROM_BOUNDED_INVENTORY => lit "excluded_from_bounded_inventory"
  | DR_MISSING => lit "missing"
  | NON_REGULAR => lit "non_regular"
  | OUTSIDE_WORKSPACE => lit "outside_workspace"
  | SYMLINK_OR_ESCAPE => lit "symlink_or_escape"
  end.

Definition change_value (c : FileChangeType) : Z :=
  match c with CREATED => 1 | CHANGED => 2 | DELETED => 3 end.

Inductive scope_exn :=
| NotPosixPath (path : pystr)
| NotAttributedPath (path : pystr)
| EncodeFailed
| ConfiguredNeedsConfig
| DefaultSelectsConfig
| NegativeLimit
| NegativeWaitBound
| LanguageChanged
| NegativeTimeout
| OutsideTrust (path : pystr).

(** ** Paths *)

Definition _normalize_path (p : pystr) : res scope_exn pystr :=
  if negb (nonempty p) || bool_decide (head p = Some cp_slash) || bool_decide (0%N ∈ p) || bool_decide (92%N ∈ p)
  then Err (NotPosixPath p)
  else
    let normalized := normpath p in
    if bool_decide (normalized = []) || bool_decide (normalized = dot) || bool_decide (dotdot ∈ path_parts normalized)
    then Err (NotAttributedPath p)
    else Ok normalized.

Definition _SUFFIXES (l : LanguageFamily) : list pystr :=
  match l with
  | PYTHON => [lit ".py"; lit ".pyi"]
  | TYPESCRIPT => [lit ".js"; lit ".jsx"; lit ".mjs"; lit ".cjs"; lit ".ts"; lit ".tsx"; lit ".mts"; lit ".cts"]
  end.

Definition _supported (p : pystr) (l : LanguageFamily) : bool :=
  bool_decide (lower_ascii (path_suffix p) ∈ _SUFFIXES l).

(** [tuple(sorted({...}))] *)
Definition sorted_set (l : list pystr) : list pystr := py_sorted id (remove_dups l).

Definition _path_set (paths : list pystr) (l : LanguageFamily) : res scope_exn (list pystr) :=
  ps ← map_res _normalize_path (filter (λ p, _supported p l = true) paths);
  Ok (sorted_set ps).

(** [encode("utf-8", "surrogateescape")] of one code point. *)
Definition encode_se_char (c : N) : res scope_exn (list N) :=
  if (c <? 128)%N then Ok [c]
  else if (c <? 2048)%N then Ok [192 + c `div` 64; 128 + c `mod` 64]%N
  else if (56448 <=? c)%N && (c <=? 56575)%N then Ok [(c - 56320)%N]
  else if (55296 <=? c)%N && (c <=? 57343)%N then Err EncodeFailed
  else if (c <? 65536)%N then Ok [224 + c `div` 4096; 128 + c `div` 64 `mod` 64; 128 + c `mod` 64]%N
  else Ok [240 + c `div` 262144; 128 + c `div` 4096 `mod` 64; 128 + c `div` 64 `mod` 64; 128 + c `mod` 64]%N.

Definition encode_se (s : pystr) : res scope_exn (list N) :=
  bs ← map_res encode_se_char s; Ok (concat bs).

(** ["\0".join(paths)] *)
Fixpoint join_nul (paths : list pystr) : pystr :=
  match paths with
  | [] => []
  | [p] => p
  | p :: paths => p ++ 0%N :: join_nul paths
  end.

(** ** Path normalisation *)

(** What a normalised path looks like. *)
Lemma normalize_path_ok p n :
  _normalize_path p = Ok n →
  n ≠ [] ∧ head n ≠ Some cp_slash ∧ 0%N ∉ n ∧ 92%N ∉ n ∧ Forall plain (split_slash n).
Proof.
  unfold _normalize_path. destruct (_ || bool_decide (92%N ∈ p)) eqn:Hbad; [done|].
  rewrite !orb_false_iff, negb_false_iff, !bool_decide_eq_false in Hbad.
  destruct Hbad as [[[Hp Hhead] Hnul] Hback]. destruct (_ || _ || _) eqn:Hout; [done|]. intros [= <-].
  rewrite !orb_false_iff, !bool_decide_eq_false in Hout. destruct Hout as [[Hne Hdot] Hdd].
  unfold normpath in *. destruct p as [|c0 p0] eqn:Ep; [done|]. rewrite <-Ep in *. clear Ep Hp.
  destruct (join_slash (norm_comps [] (split_slash p))) as [|c1 p1] eqn:Ej; [done|].
  set (comps := norm_comps [] (split_slash p)) in *.
  assert (∀ comp, comp ∈ comps → comp ∈ split_slash p ∧ comp ≠ [] ∧ comp ≠ dot) as Hcomps.
  { intros comp [?|?]%norm_comps_elem; [set_solver|done]. }
  assert (split_slash (c1 :: p1) = comps) as Hsplit.
  { rewrite <-Ej. apply split_join; [by intros ->|]. apply Forall_forall. intros comp [Hin _]%Hcomps.
    by apply (Forall_forall (λ comp, cp_slash ∉ comp) (split_slash p)); [apply split_slash_free|]. }
  assert (∀ c, c ∈ c1 :: p1 → c ≠ cp_slash → c ∈ p) as Hchar.
  { intros c Hc Hns. rewrite <-Ej in Hc. apply join_slash_char in Hc as [->|(comp & [Hin _]%Hcomps & Hc)]; [done|].
    by eapply split_slash_char. }
  split_and!; [done| | | |].
  - simpl. intros [= ->]. simpl in Hsplit.
    destruct (Hcomps []) as (_ & ? & _); [rewrite <-Hsplit; by left|done].
  - intros Hin. by apply Hnul, Hchar.
  - intros Hin. by apply Hback, Hchar.
  - rewrite Hsplit. apply Forall_forall. intros comp Hin. destruct (Hcomps _ Hin) as (_ & H1 & H2).
    split_and!; [done..|]. intros ->. apply Hdd. unfold path_parts. rewrite Hsplit.
    apply list_elem_of_filter. done.
Qed.

Lemma normalize_path_fixed n :
  n ≠ [] → head n ≠ Some cp_slash → 0%N ∉ n → 92%N ∉ n → Forall plain (split_slash n) → _normalize_path n = Ok n.
Proof.
  intros Hn Hh H0 H92 Hall. unfold _normalize_path.
  assert (nonempty n = true) as -> by (by destruct n). rewrite !bool_decide_false by done. simpl.
  assert (normpath n = n) as ->.
  { unfold normpath. rewrite norm_comps_plain by done. rewrite reverse_nil, app_nil_l, join_split. by destruct n. }
  rewrite !bool_decide_false; [done| |intros ->|done].
  - unfold path_parts. rewrite list_elem_of_filter. intros [_ Hin]. rewrite Forall_forall in Hall.
    by destruct (Hall _ Hin) as (_ & _ & ?).
  - inversion_clear Hall as [|? ? (_ & ? & _)]. done.
Qed.

(** ** Sorted sets of paths *)

Lemma sorted_set_elem p l : p ∈ sorted_set l ↔ p ∈ l.
Proof. unfold sorted_set. by rewrite elem_of_py_sorted, elem_of_remove_dups. Qed.

Lemma sorted_set_nodup l : NoDup (sorted_set l).
Proof. unfold sorted_set. rewrite py_sorted_perm. apply NoDup_remove_dups. Qed.

Lemma sorted_set_sorted l : StronglySorted (λ a b, py_leb a b = true) (sorted_set l).
Proof. apply (py_sorted_sorted id). Qed.

(** A sorted set depends only on the members. *)
Lemma sorted_set_ext l k : (∀ p, p ∈ l ↔ p ∈ k) → sorted_set l = sorted_set k.
Proof.
  intros Hlk. unfold sorted_set.
  rewrite <-(list_fmap_id (py_sorted id (remove_dups l))), <-(list_fmap_id (py_sorted id (remove_dups k))).
  apply (py_sorted_keys_perm id). apply NoDup_Permutation; [apply NoDup_remove_dups..|].
  intros p. by rewrite !elem_of_remove_dups.
Qed.

Lemma sorted_difference_elem p (a b : list pystr) : p ∈ sorted_set (filter (λ p, p ∉ b) a) ↔ p ∈ a ∧ p ∉ b.
Proof. rewrite sorted_set_elem, list_elem_of_filter. tauto. Qed.

Lemma map_res_elem {E A B} (f : A → res E B) l ys :
  map_res f l = Ok ys → (∀ y, y ∈ ys ↔ ∃ x, x ∈ l ∧ f x = Ok y) ∧ length ys = length l.
Proof.
  revert ys. induction l as [|x l IH]; intros ys; simpl; [intros [= <-]; set_solver|].
  destruct (f x) as [y|] eqn:Hx; [|done]. simpl. destruct (map_res f l) as [ys'|]; [|done]. simpl.
  intros [= <-]. destruct (IH ys' eq_refl) as [Hel Hlen]. simpl. split; [|congruence].
  intros z. rewrite elem_of_cons, Hel. setoid_rewrite elem_of_cons.
  split; [intros [->|(w & ? & ?)]; eauto|intros (w & [->|Hw] & Hf)]; [left; congruence|right; eauto].
Qed.

Lemma reason_value_inj r r' : reason_value r = reason_value r' → r = r'.
Proof. destruct r, r'; done || discriminate. Qed.

(** The paths of a set are the normal forms of the supported inputs. *)
Lemma path_set_ok paths l ps :
  _path_set paths l = Ok ps →
  NoDup ps ∧ StronglySorted (λ a b, py_leb a b = true) ps ∧
  ∀ p, p ∈ ps ↔ ∃ q, q ∈ paths ∧ _supported q l = true ∧ _normalize_path q = Ok p.
Proof.
  unfold _path_set. destruct (map_res _ _) as [ns|] eqn:Hm; [|done]. intros [= <-].
  split_and!; [apply sorted_set_nodup|apply sorted_set_sorted|].
  intros p. rewrite sorted_set_elem. apply map_res_elem in Hm as [Hel _]. rewrite Hel.
  setoid_rewrite list_elem_of_filter. naive_solver.
Qed.

Section scope.
Context (sha256 : list N → pystr).

Definition _path_digest (paths : list pystr) : res scope_exn pystr :=
  bs ← encode_se (join_nul paths); Ok (sha256 bs).

(** ** Projection *)

Record PathSetEvidence := { ev_paths : list pystr; ev_count : nat; ev_sha256 : pystr }.

Definition evidence_from_paths (paths : list pystr) : res scope_exn PathSetEvidence :=
  d ← _path_digest paths;
  Ok {| ev_paths := paths; ev_count := length paths; ev_sha256 := d |}.

Record ScopeDifference := { sd_path : pystr; sd_reason : DifferenceReason }.

Record BoundedDifferenceStatus := {
  bd_items : list (pystr * pystr);
  bd_total : nat;
  bd_digest : pystr;
  bd_omitted_count : nat;
}.

Record ScopeError := {
  se_paths : list pystr;
  se_language : LanguageFamily;
  se_project_kind : ProjectKind;
  se_selected_config_path : option pystr;
  se_outside : BoundedDifferenceStatus;
}.

Definition difference_key (d : ScopeDifference) : pystr * pystr := (sd_path d, reason_value (sd_reason d)).

Definition difference_bytes (d : ScopeDifference) : res scope_exn (list N) :=
  p ← encode_se (sd_path d);
  r ← encode_se (reason_value (sd_reason d));
  Ok (p ++ [0%N] ++ r ++ [0%N]).

Definition MAX_STATUS_DIFFERENCES : Z := 50.

Definition bounded_difference_status (differences : list ScopeDifference) (limit : Z)
    : res scope_exn BoundedDifferenceStatus :=
  if bool_decide (limit < 0) then Err NegativeLimit
  else
    let ordered := py_sorted difference_key differences in
    chunks ← map_res difference_bytes ordered;
    Ok {| bd_items := difference_key <$> take (Z.to_nat limit) ordered;
          bd_total := length ordered;
          bd_digest := sha256 (concat chunks);
          bd_omitted_count := length ordered - Z.to_nat limit |}.

Record NativeProgramAttribution := {
  na_language : LanguageFamily;
  na_project_kind : ProjectKind;
  na_selected_config_path : option pystr;
  na_configured_program_paths : list pystr;
}.

(** [NativeProgramAttribution(...)] with its [__post_init__]. *)
Definition attribution_init (language : LanguageFamily) (kind : ProjectKind) (selected : option pystr)
    (paths : list pystr) : res scope_exn NativeProgramAttribution :=
  selected' ← match selected with
              | Some p => n ← _normalize_path p; Ok (Some n)
              | None => Ok None
              end;
  _ ← ensure (negb (bool_decide (kind = CONFIGURED ∧ selected = None))) ConfiguredNeedsConfig;
  _ ← ensure (negb (bool_decide (kind = WORKSPACE_DEFAULT ∧ selected ≠ None))) DefaultSelectsConfig;
  ps ← _path_set paths language;
  Ok {| na_language := language; na_project_kind := kind; na_selected_config_path := selected';
        na_configured_program_paths := ps |}.

Record ScopeProjection := {
  pj_language : LanguageFamily;
  pj_project_kind : ProjectKind;
  pj_selected_config_path : option pystr;
  pj_trust_inventory : PathSetEvidence;
  pj_configured_program : PathSetEvidence;
  pj_trusted_not_in_configured_program : list ScopeDifference;
  pj_configured_program_outside_trust : list ScopeDifference;
  pj_compatible : bool;
  pj_error : option ScopeError;
}.

(** [sorted(set(a).difference(b))] *)
Definition sorted_difference (a b : list pystr) : list pystr := sorted_set (filter (λ p, p ∉ b) a).

Definition normalize_reason (pr : pystr * DifferenceReason) : res scope_exn (pystr * DifferenceReason) :=
  p ← _normalize_path pr.1; Ok (p, pr.2).

Definition from_attribution (trust_inventory_paths : list pystr) (a : NativeProgramAttribution)
    (outside_trust_reasons : list (pystr * DifferenceReason)) : res scope_exn ScopeProjection :=
  trust ← _path_set trust_inventory_paths (na_language a);
  let program := na_configured_program_paths a in
  let omitted_reason := if bool_decide (na_project_kind a = CONFIGURED)
                        then EXCLUDED_BY_NATIVE_CONFIG else OMITTED_BY_ENGINE_WORKSPACE_PROGRAM in
  let omitted := (λ p, {| sd_path := p; sd_reason := omitted_reason |}) <$> sorted_difference trust program in
  reasons ← map_res normalize_reason outside_trust_reasons;
  let supplied_reasons := fold_left (λ d pr, dict_set d pr.1 pr.2) reasons [] in
  let outside := (λ p, {| sd_path := p;
                          sd_reason := default ABSENT_FROM_TRUST_INVENTORY (dict_get supplied_reasons p) |})
                 <$> sorted_difference program trust in
  error ← (if nonempty outside then
             status ← bounded_difference_status outside MAX_STATUS_DIFFERENCES;
             Ok (Some {| se_paths := sd_path <$> outside; se_language := na_language a;
                         se_project_kind := na_project_kind a;
                         se_selected_config_path := na_selected_config_path a; se_outside := status |})
           else Ok None);
  tev ← evidence_from_paths trust;
  pev ← evidence_from_paths program;
  Ok {| pj_language := na_language a; pj_project_kind := na_project_kind a;
        pj_selected_config_path := na_selected_config_path a;
        pj_trust_inventory := tev; pj_configured_program := pev;
        pj_trusted_not_in_configured_program := omitted;
        pj_configured_program_outside_trust := outside;
        pj_compatible := negb (nonempty outside); pj_error := error |}.

(** ** The generation tracker *)

Record WatchedFileEvent := { we_path : pystr; we_change_type : FileChangeType; we_may_change_program : bool }.

Definition watched_event_init (p : pystr) (c : FileChangeType) (may : bool) : res scope_exn WatchedFileEvent :=
  n ← _normalize_path p; Ok {| we_path := n; we_change_type := c; we_may_change_program := may |}.

(** [workspace_uri.rstrip("/")] *)
Definition rstrip_slash (s : pystr) : pystr :=
  foldr (λ c acc, if bool_decide (c = cp_slash) && negb (nonempty acc) then [] else c :: acc) [] s.

Definition as_lsp_change (workspace_uri : pystr) (ev : WatchedFileEvent) : pystr * Z :=
  (rstrip_slash workspace_uri ++ [cp_slash] ++ we_path ev, change_value (we_change_type ev)).

Record GenerationSnapshot := {
  gs_trust_inventory : Z;
  gs_configured_program : Z;
  gs_observed_configured_program : Z;
  gs_path_scoped : gmap pystr Z;
  gs_observed_path_scoped : gmap pystr Z;
}.

Record GenerationTransition := {
  gt_events : list WatchedFileEvent;
  gt_trust_inventory_changed : bool;
  gt_configured_program_invalidated : bool;
  gt_invalidated_paths : list pystr;
  gt_before : GenerationSnapshot;
  gt_after : GenerationSnapshot;
}.

Context {T : Type} `{!PyOrd T} (t_add t_sub : T → T → T) (t_zero : T).

Record RetryMetadata := {
  rm_retry_after_seconds : T;
  rm_waited_seconds : T;
  rm_timeout_seconds : T;
  rm_target_generation : Z;
  rm_observed_generation : Z;
}.

Record ReadinessResult := {
  rr_code : ReadinessCode;
  rr_scope : ReadinessScope;
  rr_ready : bool;
  rr_path : option pystr;
  rr_target_generation : Z;
  rr_observed_generation : Z;
  rr_retry : option RetryMetadata;
  rr_scope_error : option ScopeError;
}.

Record Tracker := {
  tk_projection : ScopeProjection;
  tk_max_wait_seconds : T;
  tk_retry_after_seconds : T;
  tk_trust_generation : Z;
  tk_program_generation : Z;
  tk_observed_program_generation : Z;
  tk_path_generations : gmap pystr Z;
  tk_observed_path_generations : gmap pystr Z;
}.

Definition tracker_init (pj : ScopeProjection) (max_wait retry_after : T) : res scope_exn Tracker :=
  if py_ltb max_wait t_zero || py_ltb retry_after t_zero then Err NegativeWaitBound
  else Ok {| tk_projection := pj; tk_max_wait_seconds := max_wait; tk_retry_after_seconds := retry_after;
             tk_trust_generation := 0; tk_program_generation := 1; tk_observed_program_generation := -1;
             tk_path_generations := ∅; tk_observed_path_generations := ∅ |}.

Definition tracker_snapshot (t : Tracker) : GenerationSnapshot :=
  {| gs_trust_inventory := tk_trust_generation t; gs_configured_program := tk_program_generation t;
     gs_observed_configured_program := tk_observed_program_generation t;
     gs_path_scoped := tk_path_generations t; gs_observed_path_scoped := tk_observed_path_generations t |}.

#[export] Instance PathSetEvidence_eq_dec : EqDecision PathSetEvidence.
Proof. solve_decision. Defined.

Definition update_projection (pj : ScopeProjection) : PyM Tracker scope_exn GenerationSnapshot := λ t,
  let previous := tk_projection t in
  if bool_decide (pj_language pj ≠ pj_language previous) then (t, Err LanguageChanged)
  else
    let t' :=
      {| tk_projection := pj; tk_max_wait_seconds := tk_max_wait_seconds t;
         tk_retry_after_seconds := tk_retry_after_seconds t;
         tk_trust_generation :=
           if bool_decide (pj_trust_inventory pj ≠ pj_trust_inventory previous)
           then tk_trust_generation t + 1 else tk_trust_generation t;
         tk_program_generation :=
           if bool_decide (pj_configured_program pj ≠ pj_configured_program previous) ||
              bool_decide (pj_selected_config_path pj ≠ pj_selected_config_path previous) ||
              bool_decide (pj_project_kind pj ≠ pj_project_kind previous)
           then tk_program_generation t + 1 else tk_program_generation t;
         tk_observed_program_generation := tk_observed_program_generation t;
         tk_path_generations := tk_path_generations t;
         tk_observed_path_generations := tk_observed_path_generations t |} in
    (t', Ok (tracker_snapshot t')).

Definition bump_path (g : gmap pystr Z) (ev : WatchedFileEvent) : gmap pystr Z :=
  <[we_path ev := default 0 (g !! we_path ev) + 1]> g.

Definition invalidates (pj : ScopeProjection) (ev : WatchedFileEvent) : bool :=
  bool_decide (we_path ev ∈ ev_paths (pj_configured_program pj)) || we_may_change_program ev ||
  bool_decide (pj_selected_config_path pj = Some (we_path ev)).

Definition trusted_events (pj : ScopeProjection) (batch : list WatchedFileEvent) : list WatchedFileEvent :=
  filter (λ ev, _supported (we_path ev) (pj_language pj) = true ∧
                we_path ev ∈ ev_paths (pj_trust_inventory pj)) batch.

Definition apply_did_change_watched_files (batch : list WatchedFileEvent) (t : Tracker)
    : Tracker * GenerationTransition :=
  let before := tracker_snapshot t in
  let pj := tk_projection t in
  let trusted := trusted_events pj batch in
  let program_invalidated := existsb (invalidates pj) batch in
  let t' :=
    {| tk_projection := pj; tk_max_wait_seconds := tk_max_wait_seconds t;
       tk_retry_after_seconds := tk_retry_after_seconds t;
       tk_trust_generation := if nonempty trusted then tk_trust_generation t + 1 else tk_trust_generation t;
       tk_program_generation :=
         if program_invalidated then tk_program_generation t + 1 else tk_program_generation t;
       tk_observed_program_generation := tk_observed_program_generation t;
       tk_path_generations := fold_left bump_path trusted (tk_path_generations t);
       tk_observed_path_generations := tk_observed_path_generations t |} in
  (t', {| gt_events := batch; gt_trust_inventory_changed := nonempty trusted;
          gt_configured_program_invalidated := program_invalidated;
          gt_invalidated_paths := sorted_set (we_path <$> trusted);
          gt_before := before; gt_after := tracker_snapshot t' |}).

Definition set_observed_program (g : Z) (t : Tracker) : Tracker :=
  {| tk_projection := tk_projection t; tk_max_wait_seconds := tk_max_wait_seconds t;
     tk_retry_after_seconds := tk_retry_after_seconds t; tk_trust_generation := tk_trust_generation t;
     tk_program_generation := tk_program_generation t; tk_observed_program_generation := g;
     tk_path_generations := tk_path_generations t;
     tk_observed_path_generations := tk_observed_path_generations t |}.

Definition observe_configured_program (generation : Z) (t : Tracker) : Tracker * bool :=
  if bool_decide (generation < 0) || bool_decide (tk_program_generation t < generation) then (t, false)
  else
    let t' := if bool_decide (tk_observed_program_generation t < generation)
              then set_observed_program generation t else t in
    (t', bool_decide (generation = tk_program_generation t)).

Definition observe_path (path : pystr) (generation : Z) : PyM Tracker scope_exn bool := λ t,
  match _normalize_path path with
  | Err e => (t, Err e)
  | Ok normalized =>
      let current := default 0 (tk_path_generations t !! normalized) in
      if bool_decide (generation < 0) || bool_decide (current < generation) then (t, Ok false)
      else
        let previous := default (-1) (tk_observed_path_generations t !! normalized) in
        let t' :=
          if bool_decide (previous < generation) then
            {| tk_projection := tk_projection t; tk_max_wait_seconds := tk_max_wait_seconds t;
               tk_retry_after_seconds := tk_retry_after_seconds t; tk_trust_generation := tk_trust_generation t;
               tk_program_generation := tk_program_generation t;
               tk_observed_program_generation := tk_observed_program_generation t;
               tk_path_generations := tk_path_generations t;
               tk_observed_path_generations := <[normalized := generation]> (tk_observed_path_generations t) |}
          else t in
        (t', Ok (bool_decide (generation = current)))
  end.

Definition _target_and_observed (scope : ReadinessScope) (path : pystr) (t : Tracker) : Z * Z :=
  match scope with
  | CONFIGURED_PROGRAM => (tk_program_generation t, tk_observed_program_generation t)
  | PATH => (default 0 (tk_path_generations t !! path), default (-1) (tk_observed_path_generations t !! path))
  end.

Definition t_min (a b : T) : T := if py_leb a b then a else b.
Definition t_max (a b : T) : T := if py_leb b a then a else b.

(** What one pass of the wait loop sees: the tracker as other threads left it
    and the two clock readings it may take. *)
Record wait_view := { wv_tracker : Tracker; wv_clock : T; wv_clock' : T }.

(** One pass of the [while True] of [_wait]: a result, or another wait. *)
Definition wait_pass (scope : ReadinessScope) (path : pystr) (started bounded : T) (v : wait_view)
    : option ReadinessResult :=
  let t := wv_tracker v in
  let opath := match scope with CONFIGURED_PROGRAM => None | PATH => Some path end in
  if match scope with CONFIGURED_PROGRAM => negb (pj_compatible (tk_projection t)) | PATH => false end
  then Some {| rr_code := SCOPE_INCOMPATIBLE; rr_scope := scope; rr_ready := false; rr_path := None;
               rr_target_generation := tk_program_generation t;
               rr_observed_generation := tk_observed_program_generation t;
               rr_retry := None; rr_scope_error := pj_error (tk_projection t) |}
  else
    let '(target, observed) := _target_and_observed scope path t in
    if bool_decide (target ≤ observed)
    then Some {| rr_code := READY; rr_scope := scope; rr_ready := true; rr_path := opath;
                 rr_target_generation := target; rr_observed_generation := observed;
                 rr_retry := None; rr_scope_error := None |}
    else
      let remaining := t_sub (t_add started bounded) (wv_clock v) in
      if py_leb remaining t_zero
      then Some {| rr_code := NOT_READY; rr_scope := scope; rr_ready := false; rr_path := opath;
                   rr_target_generation := target; rr_observed_generation := observed;
                   rr_retry := Some {| rm_retry_after_seconds := tk_retry_after_seconds t;
                                       rm_waited_seconds := t_max t_zero (t_sub (wv_clock' v) started);
                                       rm_timeout_seconds := bounded;
                                       rm_target_generation := target; rm_observed_generation := observed |};
                   rr_scope_error := None |}
      else None.

(** [_wait] along the passes [views]; [None]: still waiting after the last. *)
Fixpoint wait_loop (scope : ReadinessScope) (path : pystr) (started bounded : T) (views : list wait_view)
    : option ReadinessResult :=
  match views with
  | [] => None
  | v :: views =>
      match wait_pass scope path started bounded v with
      | Some r => Some r
      | None => wait_loop scope path started bounded views
      end
  end.

Definition _wait (scope : ReadinessScope) (path : pystr) (timeout : option T) (max_wait started : T)
    (views : list wait_view) : res scope_exn (option ReadinessResult) :=
  let requested := default max_wait timeout in
  if py_ltb requested t_zero then Err NegativeTimeout
  else Ok (wait_loop scope path started (t_min requested max_wait) views).

(** [wait_for_path]: the path must be in the trust inventory of [t]. *)
Definition wait_for_path (path : pystr) (timeout : option T) (t : Tracker) (started : T) (views : list wait_view)
    : res scope_exn (option ReadinessResult) :=
  normalized ← _normalize_path path;
  _ ← ensure (bool_decide (normalized ∈ ev_paths (pj_trust_inventory (tk_projection t)))) (OutsideTrust normalized);
  _wait PATH normalized timeout (tk_max_wait_seconds t) started views.

Definition wait_for_configured_program (timeout : option T) (t : Tracker) (started : T) (views : list wait_view)
    : res scope_exn (option ReadinessResult) :=
  _wait CONFIGURED_PROGRAM [] timeout (tk_max_wait_seconds t) started views.


Lemma sorted_by_key_ext (l k : list ScopeDifference) :
  l ≡ₚ k → py_sorted difference_key l = py_sorted difference_key k.
Proof.
  intros Hp. apply (list_fmap_eq_inj difference_key).
  - intros [p r] [q r'] [= -> Hr]. f_equal. by apply reason_value_inj.
  - by apply py_sorted_keys_perm.
Qed.

(** *** Tracker invariant *)

Record tracker_wf (t : Tracker) : Prop := {
  tw_trust : 0 ≤ tk_trust_generation t;
  tw_program : 1 ≤ tk_program_generation t;
  tw_observed : -1 ≤ tk_observed_program_generation t ≤ tk_program_generation t;
  tw_paths : ∀ p g, tk_path_generations t !! p = Some g → 0 ≤ g;
  tw_observed_paths : ∀ p g, tk_observed_path_generations t !! p = Some g →
    0 ≤ g ≤ default 0 (tk_path_generations t !! p);
}.

(** Every counter moved forward or stayed. *)
Record tracker_le (t t' : Tracker) : Prop := {
  tl_trust : tk_trust_generation t ≤ tk_trust_generation t';
  tl_program : tk_program_generation t ≤ tk_program_generation t';
  tl_observed : tk_observed_program_generation t ≤ tk_observed_program_generation t';
  tl_paths : ∀ p, default 0 (tk_path_generations t !! p) ≤ default 0 (tk_path_generations t' !! p);
  tl_observed_paths : ∀ p, default (-1) (tk_observed_path_generations t !! p) ≤
                           default (-1) (tk_observed_path_generations t' !! p);
}.

Inductive tracker_call :=
| TkUpdate (pj : ScopeProjection)
| TkWatched (batch : list WatchedFileEvent)
| TkObserveProgram (generation : Z)
| TkObservePath (path : pystr) (generation : Z).

Definition run_tracker_call (c : tracker_call) (t : Tracker) : Tracker :=
  match c with
  | TkUpdate pj => (update_projection pj t).1
  | TkWatched batch => (apply_did_change_watched_files batch t).1
  | TkObserveProgram g => (observe_configured_program g t).1
  | TkObservePath p g => (observe_path p g t).1
  end.

Lemma tracker_le_refl t : tracker_le t t.
Proof. split; intros; lia. Qed.

Lemma tracker_le_trans t1 t2 t3 : tracker_le t1 t2 → tracker_le t2 t3 → tracker_le t1 t3.
Proof.
  intros [? ? ? Hp Ho] [? ? ? Hp' Ho']. split; try lia; intros p.
  - pose proof (Hp p). pose proof (Hp' p). lia.
  - pose proof (Ho p). pose proof (Ho' p). lia.
Qed.

Lemma bump_paths_le evs g p :
  default 0 (g !! p) + Z.of_nat (length (filter (λ ev, we_path ev = p) evs)) =
  default 0 (fold_left bump_path evs g !! p).
Proof.
  revert g. induction evs as [|ev evs IH]; intros g; simpl; [lia|]. rewrite <-IH. unfold bump_path.
  rewrite filter_cons, lookup_insert. case_decide; simpl; [subst|]; lia.
Qed.

Lemma bump_paths_nonneg evs g :
  (∀ p x, g !! p = Some x → 0 ≤ x) → ∀ p x, fold_left bump_path evs g !! p = Some x → 0 ≤ x.
Proof.
  revert g. induction evs as [|ev evs IH]; intros g Hg; simpl; [done|]. apply IH. intros p x. unfold bump_path.
  rewrite lookup_insert. case_decide; [|by apply Hg]. intros [= <-].
  destruct (g !! we_path ev) as [y|] eqn:Hy; simpl; [specialize (Hg _ _ Hy)|]; lia.
Qed.

Lemma run_tracker_call_ok c t :
  tracker_wf t → tracker_wf (run_tracker_call c t) ∧ tracker_le t (run_tracker_call c t).
Proof.
  intros [Htr Hpr Hob Hp Hop]. destruct c as [pj|batch|g|p g]; simpl.
  - unfold update_projection. case_bool_decide; [split; [by split|apply tracker_le_refl]|].
    split; split; simpl; try done; repeat case_bool_decide; simpl; lia || (intros; lia).
  - set (trusted := trusted_events _ _). unfold apply_did_change_watched_files; fold trusted.
    split; split; simpl; try done; try (repeat case_match; lia).
    + by apply bump_paths_nonneg.
    + intros q x Hq. specialize (Hop q x Hq). rewrite <-bump_paths_le. lia.
    + intros q. rewrite <-bump_paths_le. lia.
  - unfold observe_configured_program. repeat case_bool_decide; simpl;
      split; try (split; simpl; try done; lia); apply tracker_le_refl || (split; simpl; intros; lia).
  - unfold observe_path. destruct (_normalize_path p) as [n|]; simpl; [|split; [by split|apply tracker_le_refl]].
    case_bool_decide; simpl; [split; [by split|apply tracker_le_refl]|].
    case_bool_decide; simpl; [split; [by split|apply tracker_le_refl]|].
    case_bool_decide as Hlt; [|split; [by split|apply tracker_le_refl]].
    split; split; simpl; try done; try lia; intros q.
    + intros x. rewrite lookup_insert. case_decide; [intros [= <-]; subst; lia|apply Hop].
    + rewrite lookup_insert. case_decide; [subst; simpl; lia|lia].
Qed.

Lemma tracker_init_wf pj a b t : tracker_init pj a b = Ok t → tracker_wf t.
Proof.
  unfold tracker_init. destruct (_ || _); [done|]. intros [= <-]. split; simpl; try lia; intros *; by rewrite lookup_empty.
Qed.

Definition run_tracker_calls (cs : list tracker_call) (t : Tracker) : Tracker :=
  fold_left (λ t c, run_tracker_call c t) cs t.

Lemma run_tracker_calls_ok cs t :
  tracker_wf t → tracker_wf (run_tracker_calls cs t) ∧ tracker_le t (run_tracker_calls cs t).
Proof.
  unfold run_tracker_calls. revert t. induction cs as [|c cs IH]; intros t Hwf; simpl; [split; [done|apply tracker_le_refl]|].
  destruct (run_tracker_call_ok c t Hwf) as [Hwf' Hle]. destruct (IH _ Hwf') as [Hwf'' Hle'].
  split; [done|by eapply tracker_le_trans].
Qed.

Lemma tracker_reachable_wf pj a b t cs :
  tracker_init pj a b = Ok t → tracker_wf (run_tracker_calls cs t).
Proof. intros Ht%tracker_init_wf. by apply run_tracker_calls_ok. Qed.

Lemma wait_loop_Some scope path started bounded views r :
  wait_loop scope path started bounded views = Some r →
  ∃ v, v ∈ views ∧ wait_pass scope path started bounded v = Some r.
Proof.
  induction views as [|v views IH]; simpl; [done|].
  destruct (wait_pass scope path started bounded v) as [r'|] eqn:Hv.
  - intros [= <-]. exists v. split; [by left|done].
  - intros (w & ? & ?)%IH. exists w. split; [by right|done].
Qed.

(** ** Properties *)

(** A path that passes normalisation is relative to the workspace and
    cannot leave it: it is not empty, has no leading slash, no NUL and no
    backslash, and each of its components is a plain name (not empty, not "."
    and not ".."); normalising it again changes nothing. *)
Theorem normalize_path_confines p n :
  _normalize_path p = Ok n →
  n ≠ [] ∧ head n ≠ Some cp_slash ∧ 0%N ∉ n ∧ 92%N ∉ n ∧
  Forall (λ comp, plain comp ∧ cp_slash ∉ comp) (split_slash n) ∧ _normalize_path n = Ok n.
Proof.
  intros (H1 & H2 & H3 & H4 & H5)%normalize_path_ok. split_and!; try done; [|by apply normalize_path_fixed].
  apply Forall_forall. intros comp Hin. split; [by apply (Forall_forall plain (split_slash n))|].
  by apply (Forall_forall (λ comp, cp_slash ∉ comp) (split_slash n)); [apply split_slash_free|].
Qed.

(** A scope projection is the exact comparison of the native program with
    the trust inventory: it is compatible precisely when the program is within
    the inventory, it carries an error precisely when it is not, and the two
    difference lists name (sorted, without repetition) exactly the trusted
    files the program omits and the program files outside trust. *)
Theorem scope_projection_exact trust_paths a reasons pj :
  from_attribution trust_paths a reasons = Ok pj →
  let trust := ev_paths (pj_trust_inventory pj) in
  let program := ev_paths (pj_configured_program pj) in
  let omitted := sd_path <$> pj_trusted_not_in_configured_program pj in
  let outside := sd_path <$> pj_configured_program_outside_trust pj in
  program = na_configured_program_paths a ∧
  (∀ p, p ∈ trust ↔ ∃ q, q ∈ trust_paths ∧ _supported q (na_language a) = true ∧ _normalize_path q = Ok p) ∧
  (pj_compatible pj = true ↔ ∀ p, p ∈ program → p ∈ trust) ∧
  (pj_error pj = None ↔ pj_compatible pj = true) ∧
  (∀ p, p ∈ omitted ↔ p ∈ trust ∧ p ∉ program) ∧ (∀ p, p ∈ outside ↔ p ∈ program ∧ p ∉ trust) ∧
  NoDup omitted ∧ NoDup outside.
Proof.
  unfold from_attribution. destruct (_path_set _ _) as [trust|] eqn:Ht; [|done]. simpl.
  destruct (map_res _ _) as [rs|]; [|done]. simpl.
  set (reason := fold_left _ rs []). set (outside := _ <$> sorted_difference _ trust).
  destruct (if nonempty outside then _ else _) as [err|] eqn:Herr; [|done]. simpl.
  unfold evidence_from_paths. destruct (_path_digest trust); [|done]. simpl.
  destruct (_path_digest (na_configured_program_paths a)); [|done]. simpl. intros [= <-]. simpl.
  apply path_set_ok in Ht as (_ & _ & Htrust).
  assert (sd_path <$> outside = sorted_difference (na_configured_program_paths a) trust) as Hout.
  { unfold outside. rewrite <-list_fmap_compose. apply list_fmap_id. }
  rewrite <-list_fmap_compose. change (sd_path ∘ _) with (@id pystr). rewrite list_fmap_id, Hout.
  assert (nonempty outside = false ↔ ∀ p, p ∈ na_configured_program_paths a → p ∈ trust) as Hcompat.
  { assert (∀ p, p ∈ sd_path <$> outside ↔ p ∈ na_configured_program_paths a ∧ p ∉ trust) as Hin
      by (intros p; rewrite Hout; apply sorted_difference_elem).
    destruct outside as [|d ds]; simpl in *; split; try done.
    - intros _ p Hp. destruct (decide (p ∈ trust)) as [?|Hn]; [done|]. exfalso.
      by apply (not_elem_of_nil p), Hin.
    - intros Hall. destruct (proj1 (Hin (sd_path d))) as [Hp Hn]; [by left|]. by apply Hall in Hp. }
  split_and!; try done.
  - rewrite negb_true_iff. exact Hcompat.
  - destruct (nonempty outside); simpl; [|by simplify_eq].
    destruct (bounded_difference_status _ _); simplify_eq/=. done.
  - intros p. apply sorted_difference_elem.
  - intros p. apply sorted_difference_elem.
  - apply sorted_set_nodup.
  - apply sorted_set_nodup.
Qed.

(** The bounded difference status is deterministic and accounts for every
    difference: the order in which the differences arrive does not matter,
    digest included, at most [limit] items are shown, and the shown and the
    omitted ones add up to the total. *)
Theorem difference_status_deterministic l k limit st :
  l ≡ₚ k → bounded_difference_status l limit = Ok st →
  bounded_difference_status k limit = Ok st ∧
  Z.of_nat (length (bd_items st)) ≤ limit ∧
  bd_total st = length l ∧ (length (bd_items st) + bd_omitted_count st = bd_total st)%nat.
Proof.
  intros Hp. unfold bounded_difference_status. case_bool_decide; [done|]. rewrite <-(sorted_by_key_ext l k Hp).
  destruct (map_res _ _); [|done]. simpl. intros [= <-]; simpl. split; [done|].
  rewrite length_fmap, length_take, py_sorted_length. lia.
Qed.

(** Generations only move forward, and what was observed never overtakes
    what exists: through any sequence of tracker operations the counters are
    monotone, the observed program generation is at most the current one, and
    so for every path. *)
Theorem tracker_generations_monotone pj a b t cs cs' :
  tracker_init pj a b = Ok t →
  let t1 := run_tracker_calls cs t in
  let t2 := run_tracker_calls cs' t1 in
  tracker_wf t1 ∧ tracker_le t1 t2.
Proof.
  intros Ht t1 t2. assert (tracker_wf t1) as Hwf by (by eapply tracker_reachable_wf).
  split; [done|]. by apply run_tracker_calls_ok.
Qed.

(** An event that touches the program, the selected configuration or is
    flagged as program-changing revokes readiness of the configured program,
    and one on a trusted supported file revokes readiness of that file; the
    observation of the then current generation (and of no other) restores it. *)
Theorem invalidation_revokes_readiness pj a b t cs batch ev :
  tracker_init pj a b = Ok t → ev ∈ batch →
  let t1 := run_tracker_calls cs t in
  let t2 := (apply_did_change_watched_files batch t1).1 in
  (invalidates (tk_projection t1) ev = true →
   tk_observed_program_generation t2 < tk_program_generation t2 ∧
   ∀ g, (observe_configured_program g t2).2 = true ↔
        tk_observed_program_generation (observe_configured_program g t2).1 = tk_program_generation t2) ∧
  (ev ∈ trusted_events (tk_projection t1) batch →
   let '(target, observed) := _target_and_observed PATH (we_path ev) t2 in observed < target).
Proof.
  intros Ht Hev t1 t2. assert (tracker_wf t1) as Hwf by (by eapply tracker_reachable_wf).
  split.
  - intros Hinv. assert (existsb (invalidates (tk_projection t1)) batch = true) as Hex.
    { apply existsb_exists. exists ev. split; [by apply list_elem_of_In|done]. }
    assert (tk_observed_program_generation t2 < tk_program_generation t2) as Hlt.
    { unfold t2, apply_did_change_watched_files; simpl. rewrite Hex. destruct Hwf. lia. }
    split; [done|]. intros g. clearbody t2. clear -Hlt. unfold observe_configured_program.
    repeat case_bool_decide; simpl; split; (done || lia).
  - intros Htr. simpl. rewrite <-bump_paths_le.
    assert (0 < length (filter (λ ev', we_path ev' = we_path ev) (trusted_events (tk_projection t1) batch)))%nat as Hlen.
    { assert (ev ∈ filter (λ ev', we_path ev' = we_path ev) (trusted_events (tk_projection t1) batch)) as Hin
        by (by apply list_elem_of_filter).
      destruct (filter _ _); simpl; [set_solver|lia]. }
    destruct (tk_observed_path_generations t1 !! we_path ev) as [g|] eqn:Hg; simpl.
    + pose proof (tw_observed_paths _ Hwf _ _ Hg). lia.
    + destruct (tk_path_generations t1 !! we_path ev) as [x|] eqn:Hx; simpl; [pose proof (tw_paths _ Hwf _ _ Hx)|]; lia.
Qed.

(** A wait is bounded and truthful: it returns by the first pass that
    finds its deadline reached; it reports READY only from a pass at which the
    observed generation had reached the target (and, for the program, the scope
    was compatible), NOT_READY only once the deadline was reached, with retry
    metadata, and SCOPE_INCOMPATIBLE only for an incompatible program. *)
Theorem wait_bounded_and_truthful scope path started bounded views :
  ((∃ v, v ∈ views ∧ py_leb (t_sub (t_add started bounded) (wv_clock v)) t_zero = true) →
   is_Some (wait_loop scope path started bounded views)) ∧
  (∀ r, wait_loop scope path started bounded views = Some r →
   ∃ v, v ∈ views ∧
     let '(target, observed) := _target_and_observed scope path (wv_tracker v) in
     match rr_code r with
     | READY => rr_ready r = true ∧ target ≤ observed ∧
                (scope = CONFIGURED_PROGRAM → pj_compatible (tk_projection (wv_tracker v)) = true)
     | NOT_READY => rr_ready r = false ∧ observed < target ∧ is_Some (rr_retry r) ∧
                    py_leb (t_sub (t_add started bounded) (wv_clock v)) t_zero = true
     | SCOPE_INCOMPATIBLE => rr_ready r = false ∧ scope = CONFIGURED_PROGRAM ∧
                    pj_compatible (tk_projection (wv_tracker v)) = false
     end).
Proof.
  split.
  - intros (v & Hv & Hdl). induction views as [|w views IH]; simpl; [set_solver|].
    destruct (wait_pass scope path started bounded w) as [r|] eqn:Hw; [by eauto|].
    apply elem_of_cons in Hv as [->|Hv]; [|by apply IH]. exfalso. revert Hw. unfold wait_pass. rewrite Hdl.
    destruct (_target_and_observed _ _ _). repeat case_match; done.
  - intros r (v & Hv & Hr)%wait_loop_Some. exists v. split; [done|]. revert Hr. unfold wait_pass.
    destruct (_target_and_observed scope path (wv_tracker v)) as [target observed].
    destruct scope; simpl.
    + destruct (pj_compatible _) eqn:Hc; simpl; [|by intros [= <-]].
      case_bool_decide; [by intros [= <-]|]. destruct (py_leb _ t_zero) eqn:Hdl; [|done].
      intros [= <-]; simpl. split_and!; [done|lia|by eauto|done].
    + case_bool_decide; [by intros [= <-]|]. destruct (py_leb _ t_zero) eqn:Hdl; [|done].
      intros [= <-]; simpl. split_and!; [done|lia|by eauto|done].
Qed.

End scope.

(** ** Examples: the digest is the identity, the clock counts integer seconds. *)

Module ScopeExamples.

Definition digest (bs : list N) : pystr := bs.

Lemma normalize_path_confines_witness :
  _normalize_path (lit "./pkg//sub/../a.py") = Ok (lit "pkg/a.py") ∧
  _normalize_path (lit "pkg/a.py") = Ok (lit "pkg/a.py") ∧
  Forall (λ comp, plain comp ∧ cp_slash ∉ comp) (split_slash (lit "pkg/a.py")).
Proof.
  assert (_normalize_path (lit "./pkg//sub/../a.py") = Ok (lit "pkg/a.py")) as H by (vm_compute; reflexivity).
  destruct (normalize_path_confines _ _ H) as (_ & _ & _ & _ & H1 & H2). split_and!; assumption.
Defined.

Definition attribution : NativeProgramAttribution :=
  {| na_language := PYTHON; na_project_kind := WORKSPACE_DEFAULT; na_selected_config_path := None;
     na_configured_program_paths := [lit "other/c.py"; lit "pkg/a.py"] |}.

Definition trust_paths : list pystr := [lit "pkg/b.py"; lit "./pkg/a.py"; lit "README.md"].

Definition projection : ScopeProjection :=
  match from_attribution digest trust_paths attribution [(lit "other/c.py", GIT_IGNORED)] with
  | Ok pj => pj
  | Err _ => {| pj_language := PYTHON; pj_project_kind := CONFIGURED; pj_selected_config_path := None;
                pj_trust_inventory := {| ev_paths := []; ev_count := 0; ev_sha256 := [] |};
                pj_configured_program := {| ev_paths := []; ev_count := 0; ev_sha256 := [] |};
                pj_trusted_not_in_configured_program := []; pj_configured_program_outside_trust := [];
                pj_compatible := true; pj_error := None |}
  end.

Lemma scope_projection_exact_witness :
  from_attribution digest trust_paths attribution [(lit "other/c.py", GIT_IGNORED)] = Ok projection ∧
  pj_compatible projection = false ∧
  (∀ p, p ∈ sd_path <$> pj_configured_program_outside_trust projection ↔
        p ∈ ev_paths (pj_configured_program projection) ∧ p ∉ ev_paths (pj_trust_inventory projection)).
Proof.
  assert (from_attribution digest trust_paths attribution [(lit "other/c.py", GIT_IGNORED)] = Ok projection) as H
    by (vm_compute; reflexivity).
  destruct (scope_projection_exact digest _ _ _ _ H) as (_ & _ & _ & _ & _ & H1 & _).
  split_and!; [exact H|vm_compute; reflexivity|exact H1].
Defined.

Definition diff (p : string) : ScopeDifference := {| sd_path := lit p; sd_reason := NON_REGULAR |}.

Lemma difference_status_deterministic_witness :
  ∃ st, bounded_difference_status digest [diff "b"; diff "a"] 1 = Ok st ∧
        bounded_difference_status digest [diff "a"; diff "b"] 1 = Ok st ∧
        (length (bd_items st) + bd_omitted_count st = 2)%nat.
Proof.
  destruct (bounded_difference_status digest [diff "b"; diff "a"] 1) as [st|] eqn:Hst;
    [|vm_compute in Hst; discriminate].
  destruct (difference_status_deterministic digest [diff "b"; diff "a"] [diff "a"; diff "b"] 1 st
    ltac:(apply Permutation_swap) Hst) as (H1 & _ & H2 & H3).
  exists st. split_and!; [done|exact H1|]. by rewrite H3, H2.
Defined.

Definition tracker : Tracker :=
  {| tk_projection := projection; tk_max_wait_seconds := 30; tk_retry_after_seconds := 1;
     tk_trust_generation := 0; tk_program_generation := 1; tk_observed_program_generation := -1;
     tk_path_generations := ∅; tk_observed_path_generations := ∅ |}.

Lemma tracker_start : tracker_init 0 projection 30 1 = Ok tracker.
Proof. reflexivity. Qed.

Definition edit_a : WatchedFileEvent :=
  {| we_path := lit "pkg/a.py"; we_change_type := CHANGED; we_may_change_program := false |}.

Lemma tracker_generations_monotone_witness :
  let t1 := run_tracker_calls [TkObserveProgram 1] tracker in
  let t2 := run_tracker_calls [TkWatched [edit_a]] t1 in
  tracker_wf t1 ∧ tracker_le t1 t2 ∧ tk_program_generation t2 = 2.
Proof.
  intros t1 t2.
  destruct (tracker_generations_monotone 0 projection 30 1 tracker [TkObserveProgram 1] [TkWatched [edit_a]] tracker_start)
    as [H1 H2].
  split_and!; [exact H1|exact H2|vm_compute; reflexivity].
Defined.

Lemma invalidation_revokes_readiness_witness :
  let t1 := run_tracker_calls [TkObserveProgram 1] tracker in
  let t2 := (apply_did_change_watched_files [edit_a] t1).1 in
  tk_observed_program_generation t1 = tk_program_generation t1 ∧
  tk_observed_program_generation t2 < tk_program_generation t2.
Proof.
  intros t1 t2. split; [vm_compute; reflexivity|].
  destruct (invalidation_revokes_readiness 0 projection 30 1 tracker [TkObserveProgram 1] [edit_a] edit_a tracker_start
    ltac:(left)) as [H1 _].
  apply H1. vm_compute. reflexivity.
Defined.

End ScopeExamples.
