(* ===== verification/Json.v ===== *)
(** * JSON values and canonical serialisation

    The values the tool layer hands to [json.dumps(..., ensure_ascii=False,
    allow_nan=False, separators=(",", ":"))] and the text it produces. An
    object keeps its keys in insertion order, as the call does; a finite float
    is kept as the text of its [repr]. *)

From S2P Require Import Prelude.

Inductive json :=
| JNull
| JBool (b : bool)
| JInt (z : Z)
| JFloat (repr : pystr)
| JStr (s : pystr)
| JList (l : list json)
| JObj (kvs : list (pystr * json)).

(** ** Serialisation *)

(** [str] of a natural number, most significant digit first. *)
Fixpoint dec_go (fuel : nat) (n : N) : pystr :=
  match fuel with
  | O => []
  | S fuel => if (n <? 10)%N then [48 + n]%N else dec_go fuel (n / 10) ++ [48 + n `mod` 10]%N
  end.
Definition dec_N (n : N) : pystr := dec_go (S (N.to_nat (N.log2 n))) n.

(** [str] of an integer. *)
Definition dec (z : Z) : pystr := if (z <? 0) then 45%N :: dec_N (Z.to_N (- z)) else dec_N (Z.to_N z).

Definition hex_digit (n : N) : N := if (n <? 10)%N then (48 + n)%N else (87 + n)%N.

(** The escape of one character of a string literal. *)
Definition json_escape (c : N) : pystr :=
  if (c =? 34)%N then [92; 34]%N
  else if (c =? 92)%N then [92; 92]%N
  else if (c =? 10)%N then [92; 110]%N
  else if (c =? 13)%N then [92; 114]%N
  else if (c =? 9)%N then [92; 116]%N
  else if (c =? 8)%N then [92; 98]%N
  else if (c =? 12)%N then [92; 102]%N
  else if (c <? 32)%N then [92; 117; 48; 48; hex_digit (c / 16); hex_digit (c `mod` 16)]%N
  else [c].

Definition json_string (s : pystr) : pystr := 34%N :: (s ≫= json_escape) ++ [34%N].

Definition comma : N := 44.

(** [",".join] *)
Fixpoint join_comma (l : list pystr) : pystr :=
  match l with
  | [] => []
  | [x] => x
  | x :: l => x ++ comma :: join_comma l
  end.

Fixpoint json_dumps (v : json) : pystr :=
  match v with
  | JNull => lit "null"
  | JBool true => lit "true"
  | JBool false => lit "false"
  | JInt z => dec z
  | JFloat r => r
  | JStr s => json_string s
  | JList l => 91%N :: join_comma (json_dumps <$> l) ++ [93%N]
  | JObj kvs => 123%N :: join_comma ((λ kv, json_string kv.1 ++ 58%N :: json_dumps kv.2) <$> kvs) ++ [125%N]
  end.

(** [d.get(k)] on an object. *)
Definition json_get (v : json) (k : pystr) : option json :=
  match v with JObj kvs => dict_get kvs k | _ => None end.

(** ** Induction through lists and objects *)

Section json_ind.
Context (P : json → Prop).
Context (Hnull : P JNull) (Hbool : ∀ b, P (JBool b)) (Hint : ∀ z, P (JInt z)) (Hfloat : ∀ r, P (JFloat r))
  (Hstr : ∀ s, P (JStr s)) (Hlist : ∀ l, Forall P l → P (JList l))
  (Hobj : ∀ kvs, Forall (λ kv, P kv.2) kvs → P (JObj kvs)).

Fixpoint json_induction (v : json) : P v :=
  match v with
  | JNull => Hnull
  | JBool b => Hbool b
  | JInt z => Hint z
  | JFloat r => Hfloat r
  | JStr s => Hstr s
  | JList l =>
      Hlist l ((fix go (l : list json) : Forall P l :=
        match l with
        | [] => Forall_nil_2 P
        | x :: l => Forall_cons_2 P x l (json_induction x) (go l)
        end) l)
  | JObj kvs =>
      Hobj kvs ((fix go (l : list (pystr * json)) : Forall (λ kv, P kv.2) l :=
        match l with
        | [] => Forall_nil_2 _
        | x :: l => Forall_cons_2 _ x l (json_induction x.2) (go l)
        end) kvs)
  end.
End json_ind.

(** ** Decimal numbers *)

Definition dec_value (l : pystr) : N := foldl (λ a d, a * 10 + (d - 48))%N 0%N l.

Lemma dec_value_snoc l d : dec_value (l ++ [d]) = (dec_value l * 10 + (d - 48))%N.
Proof. unfold dec_value. by rewrite foldl_app. Qed.

#[local] Ltac Zify.zify_post_hook ::= Z.to_euclidean_division_equations.

Lemma dec_go_value fuel n : (n < 2 ^ N.of_nat fuel)%N → dec_value (dec_go fuel n) = n.
Proof.
  revert n. induction fuel as [|fuel IH]; intros n Hn; simpl; [change (2 ^ N.of_nat 0)%N with 1%N in Hn; unfold dec_value; simpl; lia|].
  destruct (n <? 10)%N eqn:E; [unfold dec_value; simpl; lia|]. apply N.ltb_ge in E.
  rewrite dec_value_snoc, IH; [lia|].
  rewrite Nat2N.inj_succ, N.pow_succ_r' in Hn. lia.
Qed.

Lemma dec_N_value n : dec_value (dec_N n) = n.
Proof.
  apply dec_go_value. rewrite Nat2N.inj_succ, N2Nat.id.
  destruct (decide (n = 0%N)) as [->|Hn]; [done|]. apply N.log2_spec. lia.
Qed.

Lemma dec_go_length fuel n k : (n < 10 ^ N.of_nat (S k))%N → (length (dec_go fuel n) ≤ S k)%nat.
Proof.
  revert n k. induction fuel as [|fuel IH]; intros n k Hn; simpl; [lia|].
  destruct (n <? 10)%N eqn:E; simpl; [lia|]. apply N.ltb_ge in E. rewrite length_app; simpl.
  destruct k as [|k]; [change (10 ^ N.of_nat 1)%N with 10%N in Hn; lia|].
  specialize (IH (n / 10)%N k). rewrite (Nat2N.inj_succ (S k)), N.pow_succ_r' in Hn. lia.
Qed.

Definition digit (c : N) : Prop := (48 ≤ c ∧ c < 58)%N.

Lemma dec_go_digits fuel n : Forall digit (dec_go fuel n).
Proof.
  revert n. induction fuel as [|fuel IH]; intros n; simpl; [constructor|].
  destruct (n <? 10)%N eqn:E; [apply N.ltb_lt in E; repeat constructor; lia|].
  apply Forall_app. split; [done|]. repeat constructor; lia.
Qed.

Lemma dec_inj z w : dec z = dec w → z = w.
Proof.
  assert (∀ n l, dec_N n = 45%N :: l → False) as Hminus.
  { intros n l Hn. pose proof (dec_go_digits (S (N.to_nat (N.log2 n))) n) as Hd. unfold dec_N in Hn.
    rewrite Hn in Hd. inversion_clear Hd as [|? ? [? ?]]. lia. }
  unfold dec. destruct (z <? 0) eqn:Ez, (w <? 0) eqn:Ew.
  - intros [= Heq]. apply (f_equal dec_value) in Heq. rewrite !dec_N_value in Heq. lia.
  - intros Heq. symmetry in Heq. by apply Hminus in Heq.
  - intros Heq. by apply Hminus in Heq.
  - intros Heq. apply (f_equal dec_value) in Heq. rewrite !dec_N_value in Heq. lia.
Qed.

Lemma dec_length z k : 0 ≤ z < 10 ^ Z.of_nat (S k) → (length (dec z) ≤ S k)%nat.
Proof.
  intros Hz. unfold dec. rewrite (proj2 (Z.ltb_ge z 0)) by lia. apply dec_go_length.
  apply N2Z.inj_lt. rewrite Z2N.id, N2Z.inj_pow, nat_N_Z by lia. apply Hz.
Qed.

(** ** The text determines the value *)

(** Reading back one character of a string literal. *)
Definition hex_value (c : N) : N := if (c <? 58)%N then (c - 48)%N else (c - 87)%N.

Definition json_unescape (l : pystr) : option (N * pystr) :=
  match l with
  | [] => None
  | c :: rest =>
      if (c =? 92)%N then
        match rest with
        | [] => None
        | k :: rest =>
            if (k =? 110)%N then Some (10%N, rest)
            else if (k =? 114)%N then Some (13%N, rest)
            else if (k =? 116)%N then Some (9%N, rest)
            else if (k =? 98)%N then Some (8%N, rest)
            else if (k =? 102)%N then Some (12%N, rest)
            else if (k =? 117)%N then
              match rest with
              | _ :: _ :: h :: l :: rest => Some (hex_value h * 16 + hex_value l, rest)%N
              | _ => None
              end
            else Some (k, rest)
        end
      else Some (c, rest)
  end.

Lemma hex_value_digit n : (n < 16)%N → hex_value (hex_digit n) = n.
Proof.
  intros Hn. unfold hex_value, hex_digit. destruct (n <? 10)%N eqn:E.
  - apply N.ltb_lt in E. rewrite (proj2 (N.ltb_lt _ _)) by lia. lia.
  - apply N.ltb_ge in E. rewrite (proj2 (N.ltb_ge _ _)) by lia. lia.
Qed.

Lemma json_unescape_escape c x : json_unescape (json_escape c ++ x) = Some (c, x).
Proof.
  unfold json_escape.
  repeat match goal with
  | |- context [if (c =? ?k)%N then _ else _] =>
      destruct (c =? k)%N eqn:?; [by match goal with H : _ = true |- _ => apply N.eqb_eq in H; subst end|]
  end.
  destruct (c <? 32)%N eqn:E; simpl.
  - apply N.ltb_lt in E. rewrite !hex_value_digit by lia. do 2 f_equal. lia.
  - by match goal with H : (c =? 92)%N = false |- _ => rewrite H end.
Qed.

Lemma json_escape_head c : ∃ d l, json_escape c = d :: l ∧ d ≠ 34%N.
Proof.
  unfold json_escape. repeat case_match; do 2 eexists; (split; [done|]); try done.
  by apply N.eqb_neq.
Qed.

Lemma json_chars_inj s t x y :
  (s ≫= json_escape) ++ 34%N :: x = (t ≫= json_escape) ++ 34%N :: y → s = t ∧ x = y.
Proof.
  revert t. induction s as [|c s IH]; intros [|d t]; simpl.
  - by intros [= ->].
  - destruct (json_escape_head d) as (h & l & -> & Hh). simpl. intros [= <- _]. done.
  - destruct (json_escape_head c) as (h & l & -> & Hh). simpl. intros [= -> _]. done.
  - rewrite <-!app_assoc. intros Heq. apply (f_equal json_unescape) in Heq.
    rewrite !json_unescape_escape in Heq. injection Heq as -> Heq. by destruct (IH t Heq) as [-> ->].
Qed.

Lemma json_string_inj s t x y : json_string s ++ x = json_string t ++ y → s = t ∧ x = y.
Proof. unfold json_string. simpl. rewrite <-!app_assoc. simpl. intros [= Heq]. by apply json_chars_inj. Qed.

(** Characters of number literals. *)
Definition number_char (c : N) : Prop := digit c ∨ c = 45%N ∨ c = 43%N ∨ c = 46%N ∨ c = 101%N.

(** The [repr] of a finite float: a number literal with a point or an exponent. *)
Definition float_repr (r : pystr) : Prop :=
  (∃ c l, r = c :: l ∧ (digit c ∨ c = 45%N)) ∧ Forall number_char r ∧ (46%N ∈ r ∨ 101%N ∈ r).

Fixpoint json_wf (v : json) : Prop :=
  match v with
  | JFloat r => float_repr r
  | JList l => foldr (λ x P, json_wf x ∧ P) True l
  | JObj kvs => foldr (λ kv P, json_wf kv.2 ∧ P) True kvs
  | _ => True
  end.

(** What may follow a value: the end, a comma or a closing bracket. *)
Definition delim (r : pystr) : Prop :=
  match r with [] => True | c :: _ => c = comma ∨ c = 93%N ∨ c = 125%N end.

Lemma dec_number z : (∃ c l, dec z = c :: l ∧ (digit c ∨ c = 45%N)) ∧ Forall (λ c, digit c ∨ c = 45%N) (dec z).
Proof.
  assert (∀ n, ∃ c l, dec_N n = c :: l ∧ digit c) as Hhd.
  { intros n. pose proof (dec_go_digits (S (N.to_nat (N.log2 n))) n) as Hd. unfold dec_N.
    destruct (dec_go _ n) as [|c l] eqn:E.
    - simpl in E. destruct (n <? 10)%N; [done|]. by destruct (dec_go _ _).
    - inversion_clear Hd. eauto. }
  assert (∀ n, Forall (λ c, digit c ∨ c = 45%N) (dec_N n)) as Hall.
  { intros n. eapply Forall_impl; [apply dec_go_digits|]. auto. }
  unfold dec. destruct (z <? 0).
  - split; [eauto|]. constructor; [auto|apply Hall].
  - split; [|apply Hall]. destruct (Hhd (Z.to_N z)) as (c & l & -> & ?). eauto.
Qed.

Lemma span_inj (P : N → Prop) l k x y :
  Forall P l → Forall P k →
  (∀ c r, x = c :: r → ¬ P c) → (∀ c r, y = c :: r → ¬ P c) → l ++ x = k ++ y → l = k ∧ x = y.
Proof.
  intros Hl. revert k. induction Hl as [|c l Hc Hl IH]; intros [|d k] Hk Hx Hy; simpl.
  - done.
  - intros ->. inversion_clear Hk. by destruct (Hx d (k ++ y) eq_refl).
  - intros <-. by destruct (Hy c (l ++ x) eq_refl).
  - intros [= -> Heq]. inversion_clear Hk. by destruct (IH k H0 Hx Hy Heq) as [-> ->].
Qed.

Lemma delim_not_number r c l : delim r → r = c :: l → ¬ number_char c.
Proof.
  intros Hd ->. unfold delim, comma, number_char, digit in *. intros Hn.
  destruct Hd as [->|[->| ->]]; destruct Hn as [?|[?|[?|?]]]; (lia || done).
Qed.

(** Joined items followed by a closing bracket can be taken apart again. *)
Lemma join_inj {A} (f : A → pystr) (wf : A → Prop) (cl : N) (l k : list A) r r' :
  cl = 93%N ∨ cl = 125%N →
  Forall (λ x, ∀ y r r', wf x → wf y → delim r → delim r' → f x ++ r = f y ++ r' → x = y ∧ r = r') l →
  (∀ y, wf y → ∃ c t, f y = c :: t ∧ c ≠ cl) → Forall wf l → Forall wf k →
  join_comma (f <$> l) ++ cl :: r = join_comma (f <$> k) ++ cl :: r' → l = k ∧ r = r'.
Proof.
  intros Hcl Hinj Hhd Hl Hk.
  assert (∀ x xs q, ∃ rest, join_comma (f <$> x :: xs) ++ cl :: q = f x ++ rest ∧ delim rest ∧
            rest = match xs with [] => cl :: q | _ => comma :: join_comma (f <$> xs) ++ cl :: q end) as Hcons.
  { intros x [|x' xs] q; eexists; csimpl; (split; [|split; [|done]]); simpl.
    - done.
    - unfold delim. naive_solver.
    - rewrite <-app_assoc. done.
    - by left. }
  revert k Hk. induction Hinj as [|x l Hx Hinj IH]; intros [|y k] Hk.
  - simpl. by intros [= ->].
  - apply Forall_cons in Hk as [Hy Hk]. destruct (Hcons y k r') as (rest & -> & _).
    destruct (Hhd y Hy) as (c & t & -> & Hc). simpl. by intros [= <- _].
  - apply Forall_cons in Hl as [Hwx Hl]. destruct (Hcons x l r) as (rest & -> & _).
    destruct (Hhd x Hwx) as (c & t & -> & Hc). simpl. by intros [= -> _].
  - apply Forall_cons in Hl as [Hwx Hl]. apply Forall_cons in Hk as [Hy Hk].
    destruct (Hcons x l r) as (rest & -> & Hd & Hrest). destruct (Hcons y k r') as (rest' & -> & Hd' & Hrest').
    intros Heq. destruct (Hx y rest rest' Hwx Hy Hd Hd' Heq) as [-> Hr]. rewrite Hrest, Hrest' in Hr.
    destruct l as [|x' l], k as [|y' k].
    + by injection Hr as ->.
    + unfold comma in Hr. destruct Hcl as [->| ->]; discriminate Hr.
    + unfold comma in Hr. destruct Hcl as [->| ->]; discriminate Hr.
    + injection Hr as Hr. by destruct (IH Hl _ Hk Hr) as [-> ->].
Qed.

Definition head_class (v : json) (c : N) : Prop :=
  match v with
  | JNull => c = 110%N
  | JBool true => c = 116%N
  | JBool false => c = 102%N
  | JInt _ | JFloat _ => digit c ∨ c = 45%N
  | JStr _ => c = 34%N
  | JList _ => c = 91%N
  | JObj _ => c = 123%N
  end.

Lemma dumps_head v : json_wf v → ∃ c l, json_dumps v = c :: l ∧ head_class v c.
Proof.
  destruct v as [|[]|z|r|s|l|kvs]; intros Hwf; try (by do 2 eexists).
  - apply dec_number.
  - apply Hwf.
Qed.

Definition same_shape (v w : json) : Prop :=
  match v, w with
  | JNull, JNull | JStr _, JStr _ | JList _, JList _ | JObj _, JObj _ => True
  | JBool b, JBool b' => b = b'
  | (JInt _ | JFloat _), (JInt _ | JFloat _) => True
  | _, _ => False
  end.

Lemma dumps_shape v w r r' : json_wf v → json_wf w → json_dumps v ++ r = json_dumps w ++ r' → same_shape v w.
Proof.
  intros Hv Hw. destruct (dumps_head v Hv) as (c & l & -> & Hc), (dumps_head w Hw) as (d & k & -> & Hd).
  simpl. intros [= <- _]. clear -Hc Hd.
  destruct v as [|[]|?|?|?|?|?], w as [|[]|?|?|?|?|?]; simpl in *; unfold digit in *; done || lia.
Qed.

Lemma json_wf_list l : json_wf (JList l) ↔ Forall json_wf l.
Proof. simpl. induction l as [|x l IH]; simpl; [by split; [constructor|]|]. rewrite IH, Forall_cons. done. Qed.

Lemma json_wf_obj kvs : json_wf (JObj kvs) ↔ Forall (λ kv, json_wf kv.2) kvs.
Proof. simpl. induction kvs as [|x l IH]; simpl; [by split; [constructor|]|]. rewrite IH, Forall_cons. done. Qed.

Lemma number_dumps_inj v w r r' :
  json_wf v → json_wf w → match v with JInt _ | JFloat _ => True | _ => False end → same_shape v w →
  delim r → delim r' → json_dumps v ++ r = json_dumps w ++ r' → v = w ∧ r = r'.
Proof.
  intros Hv Hw Hnum Hshape Hr Hr' Heq.
  assert (∀ u, json_wf u → match u with JInt _ | JFloat _ => True | _ => False end → Forall number_char (json_dumps u)) as Hchars.
  { intros [] Hu; simpl; try done; intros _; [|apply Hu]. eapply Forall_impl; [apply dec_number|].
    unfold number_char. intros c [?| ->]; auto. }
  assert (match w with JInt _ | JFloat _ => True | _ => False end) as Hnum' by (by destruct v, w).
  destruct (span_inj number_char (json_dumps v) (json_dumps w) r r') as [Htok Hrest];
    [by apply Hchars..|intros c q Hq; exact (delim_not_number r c q Hr Hq)
    |intros c q Hq; exact (delim_not_number r' c q Hr' Hq)|done|].
  assert (∀ z t, dec z = t → ¬ (46%N ∈ t ∨ 101%N ∈ t)) as Hint.
  { intros z t <-. pose proof (proj2 (dec_number z)) as Hall. rewrite Forall_forall in Hall. unfold digit in Hall.
    intros [H|H]; apply Hall in H; (lia || naive_solver lia). }
  split; [|done]. destruct v as [| |z|s| | |], w as [| |z'|s'| | |]; try done; simpl in Htok.
  - f_equal. by apply dec_inj.
  - destruct Hw as (_ & _ & Hw). by apply (Hint z s') in Htok.
  - destruct Hv as (_ & _ & Hv). symmetry in Htok. by apply (Hint z' s) in Htok.
  - by f_equal.
Qed.

Lemma json_dumps_inj_rest v : ∀ w r r',
  json_wf v → json_wf w → delim r → delim r' → json_dumps v ++ r = json_dumps w ++ r' → v = w ∧ r = r'.
Proof.
  induction v as [|b|z|s|s|l IH|kvs IH] using json_induction; intros w r r' Hv Hw Hr Hr' Heq;
    pose proof (dumps_shape _ _ _ _ Hv Hw Heq) as Hshape.
  - destruct w; try done. split; [done|]. by injection Heq.
  - destruct w; try done. simpl in Hshape. subst. split; [done|]. destruct b0; by injection Heq.
  - by apply number_dumps_inj.
  - by apply number_dumps_inj.
  - destruct w; try done. apply json_string_inj in Heq as [-> ->]. done.
  - destruct w as [| | | | |k|]; try done. simpl in Heq. injection Heq as Heq. rewrite <-!app_assoc in Heq. simpl in Heq.
    apply json_wf_list in Hv, Hw. destruct (join_inj json_dumps json_wf 93 l k r r') as [-> ->]; try done; [by left|].
    intros y Hy. destruct (dumps_head y Hy) as (c & t & -> & Hc). exists c, t. split; [done|]. intros ->.
    unfold head_class, digit in Hc. destruct y as [|[]| | | | |]; lia || done.
  - destruct w as [| | | | | |k]; try done. simpl in Heq. injection Heq as Heq. rewrite <-!app_assoc in Heq. simpl in Heq.
    apply json_wf_obj in Hv, Hw.
    destruct (join_inj (λ kv, json_string kv.1 ++ 58%N :: json_dumps kv.2) (λ kv, json_wf kv.2) 125 kvs k r r') as [-> ->];
      try done; [by right| |].
    + eapply Forall_impl; [exact IH|]. intros [kx x] Hx [ky y] q q' Hwx Hwy Hq Hq'. cbn [fst snd] in *.
      rewrite <-!app_assoc. intros [-> Hxy]%json_string_inj. simpl in Hxy. injection Hxy as Hxy.
      by destruct (Hx y q q') as [-> ->].
    + intros [ky y] _. simpl. by do 2 eexists.
Qed.

(** ** Properties *)

(** Canonical JSON is unambiguous: two values with the same text are the
    same value, key order included (floats by their literal). *)
Theorem canonical_json_injective v w :
  json_wf v → json_wf w → json_dumps v = json_dumps w → v = w.
Proof.
  intros Hv Hw Heq. destruct (json_dumps_inj_rest v w [] []) as [-> _]; try done.
  by rewrite Heq.
Qed.

Lemma canonical_json_injective_witness :
  let v := JObj [(lit "a", JList [JInt (-3); JStr [34; 10; 233]%N; JFloat (lit "1.5")]); (lit "b", JNull)] in
  json_wf v ∧ (∀ w, json_wf w → json_dumps v = json_dumps w → v = w).
Proof.
  intros v. assert (json_wf v) as Hv.
  { simpl. split_and!; try done. change (lit "1.5") with [49; 46; 53]%N. split_and!.
    - do 2 eexists. split; [reflexivity|]. left. split; lia.
    - repeat (apply Forall_cons_2; [unfold number_char, digit; lia|]). apply Forall_nil_2.
    - left. right. left. }
  split; [exact Hv|]. intros w Hw. exact (canonical_json_injective v w Hv Hw).
Defined.
