(* ===== verification/Envelopes.v ===== *)
(** * Tool envelopes

    Model of [src/serena_light/tools/envelopes.py]: the JSON copy that guards
    what leaves the tool layer, the metadata records with their checks, the
    success and error envelopes, and the conversion of readiness results,
    executor pressure, timeouts, workspace errors and adapter errors. *)

From S2P Require Import Prelude Json Scope.

Inductive ErrorCode :=
| INVALID_PATH | UNTRUSTED_ROOT | INVALID_INPUT | OUT_OF_WORKSPACE | EC_SCOPE_INCOMPATIBLE | EC_NOT_READY
| UNSUPPORTED | SYMBOL_NOT_FOUND | AMBIGUOUS_SYMBOL | STALE_HASH | READ_ONLY_ROOT | LEASE_EXPIRED
| BUSY | TIMED_OUT | COOLDOWN | UNCERTAIN.

(** [code.value] *)
Definition code_value (c : ErrorCode) : pystr :=
  match c with
  | INVALID_PATH => lit "INVALID_PATH" | UNTRUSTED_ROOT => lit "UNTRUSTED_ROOT"
  | INVALID_INPUT => lit "INVALID_INPUT" | OUT_OF_WORKSPACE => lit "OUT_OF_WORKSPACE"
  | EC_SCOPE_INCOMPATIBLE => lit "SCOPE_INCOMPATIBLE" | EC_NOT_READY => lit "NOT_READY"
  | UNSUPPORTED => lit "UNSUPPORTED" | SYMBOL_NOT_FOUND => lit "SYMBOL_NOT_FOUND"
  | AMBIGUOUS_SYMBOL => lit "AMBIGUOUS_SYMBOL" | STALE_HASH => lit "STALE_HASH"
  | READ_ONLY_ROOT => lit "READ_ONLY_ROOT" | LEASE_EXPIRED => lit "LEASE_EXPIRED"
  | BUSY => lit "BUSY" | TIMED_OUT => lit "TIMED_OUT" | COOLDOWN => lit "COOLDOWN"
  | UNCERTAIN => lit "UNCERTAIN"
  end.

Definition _MESSAGES (c : ErrorCode) : pystr :=
  match c with
  | INVALID_PATH => lit "path is invalid"
  | UNTRUSTED_ROOT => lit "path is outside trusted roots"
  | INVALID_INPUT => lit "input is invalid"
  | OUT_OF_WORKSPACE => lit "path is outside the active workspace"
  | EC_SCOPE_INCOMPATIBLE => lit "native program is incompatible with workspace trust"
  | EC_NOT_READY => lit "requested state is not ready"
  | UNSUPPORTED => lit "operation is unsupported"
  | SYMBOL_NOT_FOUND => lit "symbol was not found"
  | AMBIGUOUS_SYMBOL => lit "symbol selection is ambiguous"
  | STALE_HASH => lit "file content no longer matches expected hash"
  | READ_ONLY_ROOT => lit "path is in a read-only root"
  | LEASE_EXPIRED => lit "workspace lease has expired"
  | BUSY => lit "workspace executor is busy"
  | TIMED_OUT => lit "operation timed out"
  | COOLDOWN => lit "adapter is in cooldown"
  | UNCERTAIN => lit "operation outcome is uncertain"
  end.

Definition _SECRET_KEY_FRAGMENTS : list pystr :=
  [lit "authorization"; lit "bearer"; lit "cookie"; lit "password"; lit "secret"; lit "token"].

Inductive envelope_error :=
| PathNotAbsolute
| GenerationNegative
| TruncationInconsistent
| RetryDurationNegative
| RetryGenerationNegative
| NonFiniteFloat
| ContainsException
| KeyNotString
| SecretKey
| NotJson
| MessageFixed
| MessageNotOneLine
| DetailsNotMapping.

(** ** Copying JSON *)

(** The Python values [_json_value] distinguishes. *)
Inductive pyany :=
| PNone
| PBool (b : bool)
| PInt (z : Z)
| PStr (s : pystr)
| PFloat (repr : pystr) (finite : bool)
| PException
| PMapping (items : list (option pystr * pyany))   (** [None]: a key that is not a string *)
| PSequence (items : list pyany)
| POther.

(** [str.lower] as far as ASCII fragments can see it. *)
Definition lower_char (c : N) : N :=
  if (65 <=? c)%N && (c <=? 90)%N then (c + 32)%N else if (c =? 8490)%N then 107%N else c.

Definition contains (fragment s : pystr) : bool :=
  existsb (λ i, bool_decide (take (length fragment) (drop i s) = fragment)) (seq 0 (S (length s))).

Definition secret_key (key : pystr) : bool :=
  existsb (λ fragment, contains fragment (lower_char <$> key)) _SECRET_KEY_FRAGMENTS.

Fixpoint _json_value (v : pyany) : res envelope_error json :=
  match v with
  | PNone => Ok JNull
  | PBool b => Ok (JBool b)
  | PStr s => Ok (JStr s)
  | PInt z => Ok (JInt z)
  | PFloat r finite => if finite then Ok (JFloat r) else Err NonFiniteFloat
  | PException => Err ContainsException
  | PMapping items =>
      kvs ← (fix go (l : list (option pystr * pyany)) : res envelope_error (list (pystr * json)) :=
        match l with
        | [] => Ok []
        | (None, _) :: _ => Err KeyNotString
        | (Some k, x) :: l =>
            if secret_key k then Err SecretKey
            else y ← _json_value x; ys ← go l; Ok ((k, y) :: ys)
        end) items;
      Ok (JObj kvs)
  | PSequence items =>
      ys ← (fix go (l : list pyany) : res envelope_error (list json) :=
        match l with
        | [] => Ok []
        | x :: l => y ← _json_value x; ys ← go l; Ok (y :: ys)
        end) items;
      Ok (JList ys)
  | POther => Err NotJson
  end.

(** ** Metadata *)

Record WorkspaceMetadata := { wm_root : pystr; wm_kind : pystr; wm_working_subdirectory : pystr }.

Definition workspace_metadata_init (root kind sub : pystr) : res envelope_error WorkspaceMetadata :=
  if bool_decide (head root = Some 47%N) && bool_decide (head sub = Some 47%N)
  then Ok {| wm_root := root; wm_kind := kind; wm_working_subdirectory := sub |}
  else Err PathNotAbsolute.

Definition workspace_dict (w : WorkspaceMetadata) : json :=
  JObj [(lit "root", JStr (wm_root w)); (lit "kind", JStr (wm_kind w));
        (lit "working_subdirectory", JStr (wm_working_subdirectory w))].

Record AdapterMetadata := { am_name : pystr; am_language : option pystr }.

(** A dict entry present only when the value is not [None]. *)
Definition entry (k : string) (v : option json) : list (pystr * json) :=
  match v with Some x => [(lit k, x)] | None => [] end.

Definition adapter_dict (a : AdapterMetadata) : json :=
  JObj ((lit "name", JStr (am_name a)) :: entry "language" (JStr <$> am_language a)).

Record GenerationMetadata := {
  gm_trust : option Z; gm_program : option Z; gm_document : option Z; gm_index : option Z; gm_scope : option pystr }.

Definition non_negative (v : option Z) : bool := match v with Some z => bool_decide (0 ≤ z) | None => true end.

Definition generation_metadata_init (trust program document index : option Z) (scope : option pystr)
    : res envelope_error GenerationMetadata :=
  if forallb non_negative [trust; program; document; index]
  then Ok {| gm_trust := trust; gm_program := program; gm_document := document; gm_index := index; gm_scope := scope |}
  else Err GenerationNegative.

Definition generation_dict (g : GenerationMetadata) : json :=
  JObj (entry "trust" (JInt <$> gm_trust g) ++ entry "program" (JInt <$> gm_program g) ++
        entry "document" (JInt <$> gm_document g) ++ entry "index" (JInt <$> gm_index g) ++
        entry "scope" (JStr <$> gm_scope g)).

Record TruncationMetadata := { tm_truncated : bool; tm_omitted_count : Z }.

Definition truncation_metadata_init (truncated : bool) (omitted : Z) : res envelope_error TruncationMetadata :=
  if bool_decide (omitted < 0) || (negb truncated && bool_decide (omitted ≠ 0)) then Err TruncationInconsistent
  else Ok {| tm_truncated := truncated; tm_omitted_count := omitted |}.

Definition truncation_dict (t : TruncationMetadata) : json :=
  JObj [(lit "truncated", JBool (tm_truncated t)); (lit "omitted_count", JInt (tm_omitted_count t))].

(** A Python float: its [repr] and whether it compares below zero. *)
Record pyfloat := { pf_repr : pystr; pf_negative : bool }.

Record RetryMetadata := {
  rt_retryable : bool;
  rt_retry_after_seconds : option pyfloat;
  rt_waited_seconds : option pyfloat;
  rt_timeout_seconds : option pyfloat;
  rt_target_generation : option Z;
  rt_observed_generation : option Z;
}.

Definition duration_ok (v : option pyfloat) : bool := match v with Some f => negb (pf_negative f) | None => true end.

Definition retry_metadata_init (r : RetryMetadata) : res envelope_error RetryMetadata :=
  _ ← ensure (forallb duration_ok [rt_retry_after_seconds r; rt_waited_seconds r; rt_timeout_seconds r])
        RetryDurationNegative;
  _ ← ensure (forallb non_negative [rt_target_generation r; rt_observed_generation r]) RetryGenerationNegative;
  Ok r.

Definition jfloat (f : pyfloat) : json := JFloat (pf_repr f).

Definition retry_dict (r : RetryMetadata) : json :=
  JObj ((lit "retryable", JBool (rt_retryable r)) ::
        entry "retry_after_seconds" (jfloat <$> rt_retry_after_seconds r) ++
        entry "waited_seconds" (jfloat <$> rt_waited_seconds r) ++
        entry "timeout_seconds" (jfloat <$> rt_timeout_seconds r) ++
        entry "target_generation" (JInt <$> rt_target_generation r) ++
        entry "observed_generation" (JInt <$> rt_observed_generation r)).

(** ** Envelopes *)

Record SuccessEnvelope := {
  sv_data : json;
  sv_workspace : option WorkspaceMetadata;
  sv_adapter : option AdapterMetadata;
  sv_generations : option GenerationMetadata;
  sv_truncation : option TruncationMetadata;
}.

Definition success (data : pyany) (w : option WorkspaceMetadata) (a : option AdapterMetadata)
    (g : option GenerationMetadata) (t : option TruncationMetadata) : res envelope_error SuccessEnvelope :=
  d ← _json_value data;
  Ok {| sv_data := d; sv_workspace := w; sv_adapter := a; sv_generations := g; sv_truncation := t |}.

Definition success_dict (s : SuccessEnvelope) : json :=
  JObj ([(lit "ok", JBool true); (lit "data", sv_data s)] ++
        entry "workspace" (workspace_dict <$> sv_workspace s) ++
        entry "adapter" (adapter_dict <$> sv_adapter s) ++
        entry "generations" (generation_dict <$> sv_generations s) ++
        entry "truncation" (truncation_dict <$> sv_truncation s)).

Record ErrorEnvelope := {
  er_code : ErrorCode;
  er_message : pystr;
  er_retry : option RetryMetadata;
  er_details : json;
  er_workspace : option WorkspaceMetadata;
  er_adapter : option AdapterMetadata;
  er_generations : option GenerationMetadata;
}.

(** [ErrorEnvelope(...)] with its [__post_init__]. *)
Definition error_envelope_init (code : ErrorCode) (message : option pystr) (retry : option RetryMetadata)
    (details : pyany) (w : option WorkspaceMetadata) (a : option AdapterMetadata) (g : option GenerationMetadata)
    : res envelope_error ErrorEnvelope :=
  let canonical_message := _MESSAGES code in
  _ ← ensure (match message with Some m => bool_decide (m = canonical_message) | None => true end) MessageFixed;
  _ ← ensure (nonempty canonical_message && bool_decide (10%N ∉ canonical_message) &&
              bool_decide (13%N ∉ canonical_message)) MessageNotOneLine;
  copied ← _json_value details;
  match copied with
  | JObj _ => Ok {| er_code := code; er_message := canonical_message; er_retry := retry; er_details := copied;
                    er_workspace := w; er_adapter := a; er_generations := g |}
  | _ => Err DetailsNotMapping
  end.

Definition error (code : ErrorCode) (retry : option RetryMetadata) (details : option pyany)
    (w : option WorkspaceMetadata) (a : option AdapterMetadata) (g : option GenerationMetadata)
    : res envelope_error ErrorEnvelope :=
  error_envelope_init code None retry (default (PMapping []) details) w a g.

Definition error_dict (e : ErrorEnvelope) : json :=
  JObj ([(lit "ok", JBool false);
         (lit "error", JObj [(lit "code", JStr (code_value (er_code e))); (lit "message", JStr (er_message e));
                             (lit "retry", default JNull (retry_dict <$> er_retry e));
                             (lit "details", er_details e)])] ++
        entry "workspace" (workspace_dict <$> er_workspace e) ++
        entry "adapter" (adapter_dict <$> er_adapter e) ++
        entry "generations" (generation_dict <$> er_generations e)).

(** ** Conversions *)

Definition language_value (l : LanguageFamily) : pystr :=
  match l with PYTHON => lit "python" | TYPESCRIPT => lit "typescript" end.
Definition project_kind_value (k : ProjectKind) : pystr :=
  match k with CONFIGURED => lit "configured" | WORKSPACE_DEFAULT => lit "workspace_default" end.
Definition scope_value (s : ReadinessScope) : pystr :=
  match s with CONFIGURED_PROGRAM => lit "configured_program" | PATH => lit "path" end.

Definition pstr (k : string) (v : pyany) : option pystr * pyany := (Some (lit k), v).

Definition status_any (st : BoundedDifferenceStatus) : pyany :=
  PMapping [pstr "items" (PSequence ((λ it, PMapping [pstr "path" (PStr it.1); pstr "reason" (PStr it.2)]) <$> bd_items st));
            pstr "total" (PInt (Z.of_nat (bd_total st))); pstr "digest" (PStr (bd_digest st));
            pstr "omitted_count" (PInt (Z.of_nat (bd_omitted_count st)))].

Definition scope_error_details (e : ScopeError) : list (option pystr * pyany) :=
  [pstr "language" (PStr (language_value (se_language e)));
   pstr "project_kind" (PStr (project_kind_value (se_project_kind e)));
   pstr "configured_program_outside_trust" (status_any (se_outside e))] ++
  match se_selected_config_path e with Some p => [pstr "selected_config_path" (PStr p)] | None => [] end.

(** [WorkspaceErrorCode] and the part of [WorkspaceErrorData] that is shown;
    the identity is reduced to the fields [workspace_metadata] reads. *)
Inductive WorkspaceErrorCode := WE_INVALID_PATH | WE_UNTRUSTED_ROOT | WE_OUT_OF_WORKSPACE | WE_READ_ONLY_ROOT.

Record WorkspaceErrorData := {
  wd_code : WorkspaceErrorCode;
  wd_current_identity : option (pystr * pystr * pystr);   (** root, kind, working subdirectory *)
  wd_activation_hint : option pystr;
  wd_path : option pystr;
}.

(** [ErrorCode(WorkspaceErrorCode(code).value)] *)
Definition workspace_error_code (c : WorkspaceErrorCode) : ErrorCode :=
  match c with
  | WE_INVALID_PATH => INVALID_PATH
  | WE_UNTRUSTED_ROOT => UNTRUSTED_ROOT
  | WE_OUT_OF_WORKSPACE => OUT_OF_WORKSPACE
  | WE_READ_ONLY_ROOT => READ_ONLY_ROOT
  end.

Definition workspace_metadata (identity : pystr * pystr * pystr) : res envelope_error WorkspaceMetadata :=
  let '(root, kind, sub) := identity in workspace_metadata_init root kind sub.

Definition from_workspace_error (d : WorkspaceErrorData) : res envelope_error ErrorEnvelope :=
  let details :=
    match wd_path d with Some p => [pstr "path" (PStr p)] | None => [] end ++
    match wd_activation_hint d with Some h => [pstr "activation_hint" (PStr h)] | None => [] end in
  w ← match wd_current_identity d with Some i => x ← workspace_metadata i; Ok (Some x) | None => Ok None end;
  error (workspace_error_code (wd_code d)) None (Some (PMapping details)) w None None.

Inductive AdapterErrorCode := AE_NOT_READY | AE_SCOPE_INCOMPATIBLE | AE_COOLDOWN.

(** [ErrorCode(AdapterErrorCode(code).value)] *)
Definition adapter_error_code (c : AdapterErrorCode) : ErrorCode :=
  match c with
  | AE_NOT_READY => EC_NOT_READY
  | AE_SCOPE_INCOMPATIBLE => EC_SCOPE_INCOMPATIBLE
  | AE_COOLDOWN => COOLDOWN
  end.

Section conversions.
Context {T : Type} (to_float : T → pyfloat).

Definition from_readiness_result (result : ReadinessResult (T := T)) (w : option WorkspaceMetadata)
    (a : option AdapterMetadata) : res envelope_error (SuccessEnvelope + ErrorEnvelope) :=
  generations ← generation_metadata_init None (Some (rr_target_generation result)) None
                  (Some (rr_observed_generation result)) (Some (scope_value (rr_scope result)));
  if rr_ready result then
    s ← success (PMapping [pstr "ready" (PBool true)]) w a (Some generations) None; Ok (inl s)
  else
    let code := match rr_code result with SCOPE_INCOMPATIBLE => EC_SCOPE_INCOMPATIBLE | _ => EC_NOT_READY end in
    retry ← match rr_retry result with
            | None => Ok None
            | Some r =>
                m ← retry_metadata_init
                      {| rt_retryable := true;
                         rt_retry_after_seconds := Some (to_float (rm_retry_after_seconds r));
                         rt_waited_seconds := Some (to_float (rm_waited_seconds r));
                         rt_timeout_seconds := Some (to_float (rm_timeout_seconds r));
                         rt_target_generation := Some (rm_target_generation r);
                         rt_observed_generation := Some (rm_observed_generation r) |};
                Ok (Some m)
            end;
    let details :=
      [pstr "scope" (PStr (scope_value (rr_scope result)))] ++
      match rr_path result with Some p => [pstr "path" (PStr p)] | None => [] end ++
      match rr_scope_error result with
      | Some e => scope_error_details e ++ [pstr "paths" (PSequence (PStr <$> se_paths e))]
      | None => []
      end in
    e ← error code retry (Some (PMapping details)) w a (Some generations); Ok (inr e).

Definition from_executor_busy (retry_after : T) : res envelope_error ErrorEnvelope :=
  m ← retry_metadata_init {| rt_retryable := true; rt_retry_after_seconds := Some (to_float retry_after);
                             rt_waited_seconds := None; rt_timeout_seconds := None;
                             rt_target_generation := None; rt_observed_generation := None |};
  error BUSY (Some m) None None None None.

Definition from_adapter_error (code : AdapterErrorCode) (retry_after : option T) (a : option AdapterMetadata)
    : res envelope_error ErrorEnvelope :=
  retry ← match retry_after with
          | None => Ok None
          | Some seconds =>
              m ← retry_metadata_init
                    {| rt_retryable := match code with AE_NOT_READY | AE_COOLDOWN => true | AE_SCOPE_INCOMPATIBLE => false end;
                       rt_retry_after_seconds := Some (to_float seconds);
                       rt_waited_seconds := None; rt_timeout_seconds := None;
                       rt_target_generation := None; rt_observed_generation := None |};
              Ok (Some m)
          end;
  error (adapter_error_code code) retry None None a None.

Definition from_timeout (retryable : bool) (timeout : option T) : res envelope_error ErrorEnvelope :=
  m ← retry_metadata_init {| rt_retryable := retryable; rt_retry_after_seconds := None;
                             rt_waited_seconds := None; rt_timeout_seconds := to_float <$> timeout;
                             rt_target_generation := None; rt_observed_generation := None |};
  error TIMED_OUT (Some m) None None None None.
End conversions.

(** ** What the copy guarantees *)

(** No key at any depth bears a secret fragment. *)
Fixpoint keys_clean (v : json) : Prop :=
  match v with
  | JList l => foldr (λ x P, keys_clean x ∧ P) True l
  | JObj kvs => foldr (λ kv P, secret_key kv.1 = false ∧ keys_clean kv.2 ∧ P) True kvs
  | _ => True
  end.

Section pyany_ind.
Context (P : pyany → Prop).
Context (Hnone : P PNone) (Hbool : ∀ b, P (PBool b)) (Hint : ∀ z, P (PInt z)) (Hstr : ∀ s, P (PStr s))
  (Hfloat : ∀ r f, P (PFloat r f)) (Hexn : P PException)
  (Hmap : ∀ items, Forall (λ kv, P kv.2) items → P (PMapping items))
  (Hseq : ∀ items, Forall P items → P (PSequence items)) (Hother : P POther).

Fixpoint pyany_induction (v : pyany) : P v :=
  match v with
  | PNone => Hnone
  | PBool b => Hbool b
  | PInt z => Hint z
  | PStr s => Hstr s
  | PFloat r f => Hfloat r f
  | PException => Hexn
  | PMapping items =>
      Hmap items ((fix go (l : list (option pystr * pyany)) : Forall (λ kv, P kv.2) l :=
        match l with
        | [] => Forall_nil_2 _
        | x :: l => Forall_cons_2 _ x l (pyany_induction x.2) (go l)
        end) items)
  | PSequence items =>
      Hseq items ((fix go (l : list pyany) : Forall P l :=
        match l with
        | [] => Forall_nil_2 P
        | x :: l => Forall_cons_2 P x l (pyany_induction x) (go l)
        end) items)
  | POther => Hother
  end.
End pyany_ind.

Lemma json_value_clean v : ∀ j, _json_value v = Ok j → keys_clean j.
Proof.
  induction v as [|b|z|s|r f| |items IH|items IH|] using pyany_induction; intros j; simpl; try (by intros [= <-]).
  - destruct f; [by intros [= <-]|done].
  - set (go := fix go l := match l with [] => _ | _ :: _ => _ end).
    destruct (go items) as [kvs|] eqn:Hgo; [|done]. intros [= <-]. simpl.
    revert kvs Hgo. induction IH as [|[[k|] x] items Hx _ IHl]; intros kvs Hgo; simpl in Hgo; simplify_eq; [done|].
    destruct (secret_key k) eqn:Hk; [done|]. destruct (_json_value x) as [y|] eqn:Hy; [|done]. simpl in Hgo.
    destruct (go items) as [ys|]; [|done]. simplify_eq/=. split_and!; [done|by apply Hx|by apply IHl].
  - set (go := fix go l := match l with [] => _ | _ :: _ => _ end).
    destruct (go items) as [ys|] eqn:Hgo; [|done]. intros [= <-]. simpl.
    revert ys Hgo. induction IH as [|x items Hx _ IHl]; intros ys Hgo; simpl in Hgo; simplify_eq; [done|].
    destruct (_json_value x) as [y|] eqn:Hy; [|done]. simpl in Hgo.
    destruct (go items) as [zs|]; [|done]. simplify_eq/=. split; [by apply Hx|by apply IHl].
Qed.

(** ** Properties *)

(** An error envelope says what its code says and nothing of the cause:
    the message is the fixed one-line text of the code, the details are an
    object without secret-bearing keys at any depth, and the serialised form
    has exactly the published keys. *)
Theorem error_envelope_closed code retry details w a g e :
  error code retry details w a g = Ok e →
  er_message e = _MESSAGES code ∧ 10%N ∉ er_message e ∧ 13%N ∉ er_message e ∧
  (∃ kvs, er_details e = JObj kvs) ∧ keys_clean (er_details e) ∧
  ∃ rest, error_dict e =
    JObj ((lit "ok", JBool false) ::
          (lit "error", JObj [(lit "code", JStr (code_value code)); (lit "message", JStr (_MESSAGES code));
                              (lit "retry", default JNull (retry_dict <$> retry)); (lit "details", er_details e)]) :: rest) ∧
    ∀ k, k ∈ rest.*1 → k ∈ [lit "workspace"; lit "adapter"; lit "generations"].
Proof.
  unfold error, error_envelope_init. simpl.
  destruct (nonempty (_MESSAGES code) && _ && _) eqn:Hline; [|done].
  apply andb_prop in Hline as [[_ Hlf%bool_decide_eq_true]%andb_prop Hcr%bool_decide_eq_true]. simpl.
  destruct (_json_value _) as [j|] eqn:Hj; [|done]. apply json_value_clean in Hj. simpl.
  destruct j as [| | | | | |kvs]; try done. intros [= <-]. simpl.
  split_and!; [done|done|done|by eauto|done|].
  eexists. split; [done|]. intros k. rewrite !fmap_app, !elem_of_app.
  destruct w, a, g; simpl; set_solver.
Qed.

(** The readiness conversion fails for a language server that has not
    reported any program yet: whatever a wait on the configured program of a
    fresh tracker returns, [from_readiness_result] raises [ValueError] instead
    of producing an envelope, because the tracker's initial observed
    generation is negative and the metadata refuses it. *)
Theorem fresh_readiness_conversion_raises {T} `{!PyOrd T} (t_add t_sub : T → T → T) (t_zero : T)
    (to_float : T → pyfloat) pj a b t path started bounded c c' r w ad :
  tracker_init t_zero pj a b = Ok t →
  wait_pass t_add t_sub t_zero CONFIGURED_PROGRAM path started bounded
    {| wv_tracker := t; wv_clock := c; wv_clock' := c' |} = Some r →
  from_readiness_result to_float r w ad = Err GenerationNegative.
Proof.
  unfold tracker_init. destruct (_ || _); [done|]. intros [= <-]. unfold wait_pass; simpl.
  destruct (negb (pj_compatible pj)); [by intros [= <-]|].
  destruct (py_leb _ _); [by intros [= <-]|done].
Qed.

Lemma fresh_readiness_conversion_raises_witness :
  ∃ r, wait_pass Z.add Z.sub 0 CONFIGURED_PROGRAM [] 5 10
         {| wv_tracker := ScopeExamples.tracker; wv_clock := 20; wv_clock' := 20 |} = Some r ∧
       rr_code r = SCOPE_INCOMPATIBLE ∧
       from_readiness_result (λ z, {| pf_repr := dec z; pf_negative := z <? 0 |}) r None None = Err GenerationNegative.
Proof.
  destruct (wait_pass Z.add Z.sub 0 CONFIGURED_PROGRAM [] 5 10
    {| wv_tracker := ScopeExamples.tracker; wv_clock := 20; wv_clock' := 20 |}) as [r|] eqn:Hr.
  - exists r. split_and!; [done| |].
    + vm_compute in Hr. injection Hr as <-. reflexivity.
    + exact (fresh_readiness_conversion_raises Z.add Z.sub 0 _ _ _ _ _ _ _ _ _ _ _ None None ScopeExamples.tracker_start Hr).
  - vm_compute in Hr. discriminate.
Defined.

Lemma error_envelope_closed_witness :
  ∃ e, error BUSY None (Some (PMapping [pstr "path" (PStr (lit "a.py"))])) None None None = Ok e ∧
       er_message e = lit "workspace executor is busy" ∧ keys_clean (er_details e).
Proof.
  destruct (error BUSY None (Some (PMapping [pstr "path" (PStr (lit "a.py"))])) None None None) as [e|] eqn:He;
    [|vm_compute in He; discriminate].
  destruct (error_envelope_closed _ _ _ _ _ _ _ He) as (H1 & _ & _ & _ & H2 & _).
  exists e. split_and!; [done|exact H1|exact H2].
Defined.
