(* ===== verification/Schema.v ===== *)
(** * The published envelope schemas

    Model of [SUCCESS_SCHEMA], [ERROR_SCHEMA] and [ENVELOPE_SCHEMA] of
    [src/serena_light/tools/envelopes.py] as data, the meaning JSON Schema
    gives to the keywords they use, and the typing theorem: what the envelopes
    serialise to is what the schemas describe. *)

From S2P Require Import Prelude Json Scope Envelopes.

Inductive jtype := TObject | TString | TNull.

(** The keywords the schemas use; an absent keyword constrains nothing. *)
Inductive schema := Schema {
  sc_type : option (list jtype);
  sc_const : option bool;
  sc_enum : option (list pystr);
  sc_required : list pystr;
  sc_properties : list (pystr * schema);
  sc_additional : bool;
}.

Definition any_schema : schema := Schema None None None [] [] true.
Definition typed (ts : list jtype) : schema := Schema (Some ts) None None [] [] true.
Definition const_schema (b : bool) : schema := Schema None (Some b) None [] [] true.
Definition enum_schema (vs : list pystr) : schema := Schema None None (Some vs) [] [] true.
Definition object_schema (required : list pystr) (properties : list (pystr * schema)) : schema :=
  Schema (Some [TObject]) None None required properties false.

Definition has_type (v : json) (t : jtype) : bool :=
  match v, t with
  | JObj _, TObject | JStr _, TString | JNull, TNull => true
  | _, _ => false
  end.

(** Validation of a value against a schema. *)
Fixpoint validates (s : schema) (v : json) : bool :=
  match s with
  | Schema ty cst enum required properties additional =>
      match ty with Some ts => existsb (has_type v) ts | None => true end &&
      match cst with Some b => match v with JBool b' => Bool.eqb b b' | _ => false end | None => true end &&
      match enum with Some vs => match v with JStr x => existsb (λ y, bool_decide (x = y)) vs | _ => false end | None => true end &&
      match v with
      | JObj kvs =>
          forallb (λ k, dict_has kvs k) required &&
          forallb (λ kv,
            (fix look (ps : list (pystr * schema)) : bool :=
               match ps with
               | [] => additional
               | (k, s') :: ps => if decide (kv.1 = k) then validates s' kv.2 else look ps
               end) properties) kvs
      | _ => true
      end
  end.

Definition ERROR_CODES : list ErrorCode :=
  [INVALID_PATH; UNTRUSTED_ROOT; INVALID_INPUT; OUT_OF_WORKSPACE; EC_SCOPE_INCOMPATIBLE; EC_NOT_READY;
   UNSUPPORTED; SYMBOL_NOT_FOUND; AMBIGUOUS_SYMBOL; STALE_HASH; READ_ONLY_ROOT; LEASE_EXPIRED;
   BUSY; TIMED_OUT; COOLDOWN; UNCERTAIN].

Definition SUCCESS_SCHEMA : schema :=
  object_schema [lit "ok"; lit "data"]
    [(lit "ok", const_schema true); (lit "data", any_schema);
     (lit "workspace", typed [TObject]); (lit "adapter", typed [TObject]);
     (lit "generations", typed [TObject]); (lit "truncation", typed [TObject])].

Definition ERROR_SCHEMA : schema :=
  object_schema [lit "ok"; lit "error"]
    [(lit "ok", const_schema false);
     (lit "error",
       object_schema [lit "code"; lit "message"; lit "retry"; lit "details"]
         [(lit "code", enum_schema (code_value <$> ERROR_CODES)); (lit "message", typed [TString]);
          (lit "retry", typed [TObject; TNull]); (lit "details", typed [TObject])]);
     (lit "workspace", typed [TObject]); (lit "adapter", typed [TObject]);
     (lit "generations", typed [TObject])].

(** [oneOf]: exactly one of the two. *)
Definition ENVELOPE_SCHEMA (v : json) : bool := xorb (validates SUCCESS_SCHEMA v) (validates ERROR_SCHEMA v).

(** ** Typing *)

Lemma enum_code c : existsb (λ y, bool_decide (code_value c = y)) (code_value <$> ERROR_CODES) = true.
Proof. by destruct c; vm_compute. Qed.

(** The one place where validation must look at an unknown value. *)
Lemma validates_any v : validates any_schema v = true.
Proof. destruct v; try done. simpl. induction kvs; simpl; [done|]. exact IHkvs. Qed.

Lemma validates_object kvs : validates (typed [TObject]) (JObj kvs) = true.
Proof. simpl. induction kvs; simpl; [done|]. exact IHkvs. Qed.

Definition field_ok (properties : list (pystr * schema)) (kv : pystr * json) : bool :=
  match dict_get properties kv.1 with Some s => validates s kv.2 | None => false end.

Lemma validates_fields required properties kvs :
  validates (object_schema required properties) (JObj kvs) =
  forallb (λ k, dict_has kvs k) required && forallb (field_ok properties) kvs.
Proof.
  cbn [object_schema validates existsb has_type orb andb]. f_equal. induction kvs as [|[k v] kvs IH]; [done|].
  cbn [forallb]. rewrite IH. f_equal. unfold field_ok; simpl. clear IH.
  induction properties as [|[k' s] ps IH]; [done|]. simpl. by case_decide.
Qed.

(** A field whose value the schema names only by type. *)
Lemma field_object properties k kvs :
  dict_get properties k = Some (typed [TObject]) → field_ok properties (k, JObj kvs) = true.
Proof. unfold field_ok; simpl. intros ->. apply validates_object. Qed.

Lemma optional_field {A} properties (k : string) (f : A → json) (o : option A) :
  (∀ a, ∃ kvs, f a = JObj kvs) → dict_get properties (lit k) = Some (typed [TObject]) →
  forallb (field_ok properties) (entry k (f <$> o)) = true.
Proof.
  intros Hobj Hget. destruct o as [a|]; simpl; [|done]. destruct (Hobj a) as [kvs ->].
  by rewrite (field_object properties (lit k) kvs Hget).
Qed.

Ltac metadata_object := intros []; eexists; reflexivity.

Definition success_properties : list (pystr * schema) := sc_properties SUCCESS_SCHEMA.
Definition error_properties : list (pystr * schema) := sc_properties ERROR_SCHEMA.

Lemma success_validates s : validates SUCCESS_SCHEMA (success_dict s) = true.
Proof.
  unfold SUCCESS_SCHEMA, success_dict. rewrite validates_fields. fold success_properties.
  apply andb_true_iff. split; [reflexivity|]. rewrite !forallb_app, !andb_true_iff. split_and!.
  - change (field_ok success_properties (lit "data", sv_data s) && true = true). rewrite andb_true_r.
    change (validates any_schema (sv_data s) = true). apply validates_any.
  - apply optional_field; [metadata_object|reflexivity].
  - apply optional_field; [metadata_object|reflexivity].
  - apply optional_field; [metadata_object|reflexivity].
  - apply optional_field; [metadata_object|reflexivity].
Qed.

Lemma error_object_validates c m retry details :
  validates (object_schema [lit "code"; lit "message"; lit "retry"; lit "details"]
         [(lit "code", enum_schema (code_value <$> ERROR_CODES)); (lit "message", typed [TString]);
          (lit "retry", typed [TObject; TNull]); (lit "details", typed [TObject])])
    (JObj [(lit "code", JStr (code_value c)); (lit "message", JStr m);
           (lit "retry", default JNull (retry_dict <$> retry)); (lit "details", JObj details)]) = true.
Proof.
  rewrite validates_fields. apply andb_true_iff. split; [reflexivity|].
  set (ps := [(lit "code", _); _; _; _]). cbn [forallb]. rewrite !andb_true_iff. split_and!; [..|done].
  - change (validates (enum_schema (code_value <$> ERROR_CODES)) (JStr (code_value c)) = true).
    cbn [validates enum_schema andb]. by rewrite enum_code.
  - done.
  - destruct retry as [[]|]; [|done]. change (validates (typed [TObject; TNull]) (JObj
      (match retry_dict {| rt_retryable := rt_retryable; rt_retry_after_seconds := rt_retry_after_seconds;
         rt_waited_seconds := rt_waited_seconds; rt_timeout_seconds := rt_timeout_seconds;
         rt_target_generation := rt_target_generation; rt_observed_generation := rt_observed_generation |}
       with JObj kvs => kvs | _ => [] end)) = true).
    apply validates_object.
  - apply validates_object.
Qed.

Lemma error_validates e kvs :
  er_details e = JObj kvs → validates ERROR_SCHEMA (error_dict e) = true.
Proof.
  intros Hd. unfold ERROR_SCHEMA, error_dict. rewrite validates_fields. fold error_properties.
  apply andb_true_iff. split; [reflexivity|]. rewrite !forallb_app, !andb_true_iff, Hd. split_and!.
  - cbn [forallb]. rewrite !andb_true_iff. split_and!; [reflexivity| |done]. apply error_object_validates.
  - apply optional_field; [metadata_object|reflexivity].
  - apply optional_field; [metadata_object|reflexivity].
  - apply optional_field; [metadata_object|reflexivity].
Qed.

(** The [ok] field tells the two apart. *)
Lemma wrong_ok required properties b kvs rest :
  dict_get properties (lit "ok") = Some (const_schema b) →
  kvs = (lit "ok", JBool (negb b)) :: rest → validates (object_schema required properties) (JObj kvs) = false.
Proof.
  intros Hget ->. rewrite validates_fields. apply andb_false_iff. right. cbn [forallb]. apply andb_false_iff. left.
  unfold field_ok; simpl fst. rewrite Hget. by destruct b.
Qed.

(** C28: What leaves the tool layer is well typed. Every success envelope
    validates against the published success schema and against it alone, and
    every error envelope the constructors accept validates against the error
    schema alone; so every envelope satisfies [ENVELOPE_SCHEMA], the [oneOf] of
    the two. *)
Theorem envelopes_validate :
  (∀ s, validates SUCCESS_SCHEMA (success_dict s) = true ∧ validates ERROR_SCHEMA (success_dict s) = false ∧
        ENVELOPE_SCHEMA (success_dict s) = true) ∧
  (∀ code message retry details w a g e,
     error_envelope_init code message retry details w a g = Ok e →
     validates ERROR_SCHEMA (error_dict e) = true ∧ validates SUCCESS_SCHEMA (error_dict e) = false ∧
     ENVELOPE_SCHEMA (error_dict e) = true).
Proof.
  split.
  - intros s. assert (validates ERROR_SCHEMA (success_dict s) = false) as Hno by by eapply (wrong_ok _ _ false).
    unfold ENVELOPE_SCHEMA. by rewrite Hno, success_validates.
  - intros code message retry details w a g e Hok. unfold error_envelope_init in Hok.
    apply res_bind_Ok in Hok as (_ & _ & Hok). apply res_bind_Ok in Hok as (_ & _ & Hok).
    apply res_bind_Ok in Hok as (copied & _ & Hok). destruct copied as [| | | | | |kvs]; simplify_eq.
    set (e := {| er_code := code |}).
    assert (validates SUCCESS_SCHEMA (error_dict e) = false) as Hno by by eapply (wrong_ok _ _ true).
    unfold ENVELOPE_SCHEMA. by rewrite Hno, (error_validates e kvs).
Qed.

(** An envelope with an unknown field, or with both shapes mixed, is refused. *)
Example schema_refuses :
  ENVELOPE_SCHEMA (JObj [(lit "ok", JBool true); (lit "data", JNull); (lit "extra", JNull)]) = false ∧
  ENVELOPE_SCHEMA (JObj [(lit "ok", JBool true); (lit "error", JObj [])]) = false ∧
  ENVELOPE_SCHEMA (JObj [(lit "ok", JBool true)]) = false.
Proof. by vm_compute. Qed.

Lemma envelopes_validate_witness :
  ∃ e, error BUSY None None None None None = Ok e ∧ ENVELOPE_SCHEMA (error_dict e) = true.
Proof.
  destruct (error BUSY None None None None None) as [e|] eqn:He; [|by vm_compute in He].
  exists e. split; [done|]. by apply (proj2 envelopes_validate BUSY None None (PMapping []) None None None).
Defined.
