(* ===== verification/Replies.v ===== *)
(** * What the daemon service replies

    The pure part of [src/serena_light/daemon/service.py]: the data of lease
    and release replies, the translation of what a runtime operation returns or
    raises into an envelope, and the enrichment of path errors with the
    caller's workspace.

    A mapping with string keys is the list of its items in order; the values
    are JSON. Python objects that only reach the reply through [str] or an
    [isinstance] test are [pyobj]; [str] of an object that is neither a string
    nor a path, [str] of a uuid and the JSON form of a clock reading are
    parameters. *)

From S2P Require Import Prelude Json Scope Envelopes Registry Leases.

(** ** Python values *)

Inductive pyobj :=
| ONone
| OStr (s : pystr)
| OBool (b : bool)
| OInt (z : Z)
| OFloat (repr : pystr)
| OPath (p : pystr)
| OTuple (l : list pyobj)
| OEnum (value : pyobj)     (** an object with a [value] attribute; a [StrEnum] member is [OEnum (OStr _)] *)
| OOther (tag : positive).

(** What a runtime operation may raise, by the handlers that tell the classes
    apart. *)
Inductive runtime_exception (T : Type) :=
| ExWorkspace (d : WorkspaceErrorData)
| ExRuntime (code : pystr) (paths : list pystr) (scope : option ScopeError)
| ExBusy (retry_after : T)
| ExAdapter (code : AdapterErrorCode) (retry_after : option T)
| ExTimeout
| ExLsp          (** [LspResponseError], [LspProtocolError], [LspTransportClosed], [LspProcessLost] *)
| ExOs
| ExOther.
Arguments ExWorkspace {T}. Arguments ExRuntime {T}. Arguments ExBusy {T}. Arguments ExAdapter {T}.
Arguments ExTimeout {T}. Arguments ExLsp {T}. Arguments ExOs {T}. Arguments ExOther {T}.

Inductive reply_error (T : Type) :=
| EnvelopeRaised (e : envelope_error)
| Propagated (e : runtime_exception T)
| NotAnEnvelope
| Unhashable
| ServiceLeaseExpired.
Arguments EnvelopeRaised {T}. Arguments Propagated {T}. Arguments NotAnEnvelope {T}.
Arguments Unhashable {T}. Arguments ServiceLeaseExpired {T}.

Abbreviation mapping := (list (pystr * json)).

Definition enveloped {T A} (r : res envelope_error A) : res (reply_error T) A :=
  match r with Ok a => Ok a | Err e => Err (EnvelopeRaised e) end.

Definition items (v : json) : mapping := match v with JObj kvs => kvs | _ => [] end.

(** [error(...).to_dict()] *)
Definition error_reply {T} (code : ErrorCode) (details : list (option pystr * pyany)) : res (reply_error T) mapping :=
  e ← enveloped (error code None (Some (PMapping details)) None None None); Ok (items (error_dict e)).

Definition envelope_reply {T} (r : res envelope_error ErrorEnvelope) : res (reply_error T) mapping :=
  e ← enveloped r; Ok (items (error_dict e)).

(** [ErrorCode(value)], with its [ValueError] as [None]. *)
Definition code_of_value (s : pystr) : option ErrorCode :=
  List.find (λ c, bool_decide (code_value c = s))
    [INVALID_PATH; UNTRUSTED_ROOT; INVALID_INPUT; OUT_OF_WORKSPACE; EC_SCOPE_INCOMPATIBLE; EC_NOT_READY;
     UNSUPPORTED; SYMBOL_NOT_FOUND; AMBIGUOUS_SYMBOL; STALE_HASH; READ_ONLY_ROOT; LEASE_EXPIRED;
     BUSY; TIMED_OUT; COOLDOWN; UNCERTAIN].

(** ** Translating failures *)

Definition _LSP_WRITE_OPERATIONS : list pystr := [lit "replace_symbol_body"].
Definition _BOUND_QUERY_OPERATIONS : list pystr :=
  [lit "get_symbols_overview"; lit "find_symbol"; lit "find_referencing_symbols"; lit "find_declaration";
   lit "find_implementations"; lit "get_diagnostics_for_file"; lit "get_diagnostics_for_symbol"].
Definition _BOUND_QUERY_WORKSPACE_CODES : list pystr :=
  [code_value INVALID_PATH; code_value EC_SCOPE_INCOMPATIBLE].

Definition _runtime_error_details (paths : list pystr) (scope : option ScopeError) : list (option pystr * pyany) :=
  (if nonempty paths then [pstr "paths" (PSequence (PStr <$> paths))] else []) ++
  match scope with Some e => scope_error_details e | None => [] end.

Definition _lsp_failure_envelope {T} (operation : pystr) : res (reply_error T) mapping :=
  if bool_decide (operation ∈ _LSP_WRITE_OPERATIONS) then error_reply UNCERTAIN []
  else error_reply UNSUPPORTED [pstr "tool" (PStr operation); pstr "reason" (PStr (lit "lsp_failure"))].

Section replies.
Context {T : Type} (to_float : T → pyfloat).

(** The [except] clauses of [_runtime_value], in order; they are the same for
    the call and for awaiting its result. *)
Definition translate (operation : pystr) (exc : runtime_exception T) : res (reply_error T) mapping :=
  match exc with
  | ExWorkspace d => envelope_reply (from_workspace_error d)
  | ExRuntime code paths scope =>
      error_reply (default UNSUPPORTED (code_of_value code)) (_runtime_error_details paths scope)
  | ExBusy retry_after => envelope_reply (from_executor_busy to_float retry_after)
  | ExAdapter code retry_after => envelope_reply (from_adapter_error to_float code retry_after None)
  | ExTimeout => envelope_reply (from_timeout to_float true None)
  | ExLsp => _lsp_failure_envelope operation
  | ExOs => error_reply UNCERTAIN []
  | ExOther => Err (Propagated exc)
  end.

(** [_activation_error]: everything else is uncertain. *)
Definition _activation_error (exc : runtime_exception T) : res (reply_error T) mapping :=
  match exc with
  | ExWorkspace d => envelope_reply (from_workspace_error d)
  | ExRuntime code paths scope =>
      error_reply (default UNSUPPORTED (code_of_value code)) (_runtime_error_details paths scope)
  | ExBusy retry_after => envelope_reply (from_executor_busy to_float retry_after)
  | ExAdapter code retry_after => envelope_reply (from_adapter_error to_float code retry_after None)
  | ExTimeout => envelope_reply (from_timeout to_float true None)
  | _ => error_reply UNCERTAIN []
  end.

(** What an operation returns: an object with [to_dict], a mapping, or
    something else; and whether calling it, or awaiting its result, raised. *)
Inductive runtime_value := VEnvelope (dict : mapping) | VMapping (dict : mapping) | VOther.
Inductive runtime_call :=
| NoCallback
| Sync (r : res (runtime_exception T) runtime_value)
| Async (r : res (runtime_exception T) runtime_value).

Definition _runtime_value (operation : pystr) (call : runtime_call) : res (reply_error T) mapping :=
  match call with
  | NoCallback => error_reply UNSUPPORTED [pstr "tool" (PStr operation)]
  | Sync (Err exc) | Async (Err exc) => translate operation exc
  | Sync (Ok v) | Async (Ok v) =>
      match v with
      | VEnvelope dict | VMapping dict => Ok dict
      | VOther => Err NotAnEnvelope
      end
  end.

Definition is_true (v : option json) : bool := match v with Some (JBool true) => true | _ => false end.
Definition is_false (v : option json) : bool := match v with Some (JBool false) => true | _ => false end.
Definition is_mapping (v : option json) : bool := match v with Some (JObj _) => true | _ => false end.

Definition _runtime_result (operation : pystr) (call : runtime_call) : res (reply_error T) mapping :=
  result ← _runtime_value operation call;
  if is_true (dict_get result (lit "ok")) && dict_has result (lit "data") then Ok result
  else if is_false (dict_get result (lit "ok")) && is_mapping (dict_get result (lit "error")) then Ok result
  else error_reply UNSUPPORTED [pstr "tool" (PStr operation); pstr "reason" (PStr (lit "malformed_runtime_result"))].

(** ** The caller's workspace *)

Context (py_str : pyobj → pystr).

(** [str(o)] *)
Definition str_of (o : pyobj) : pystr := match o with OStr s | OPath s => s | _ => py_str o end.

Section binding_replies.
Context {R : Type} (runtime_root runtime_kind : R → pyobj).
Abbreviation Binding := (WorkspaceBinding pyobj R pystr).

Definition is_none (o : pyobj) : bool := match o with ONone => true | _ => false end.

(** [getattr(binding.runtime.identity, "root", None)] and ["kind"] are the
    runtime's; a missing attribute is [ONone]. *)
Definition _workspace_metadata_for_binding (b : Binding) : option WorkspaceMetadata :=
  let root := runtime_root (binding_runtime b) in
  let kind := runtime_kind (binding_runtime b) in
  let '(root, kind) :=
    if is_none root || is_none kind then
      match binding_identity b with
      | OTuple [kind'; root'] | OTuple [kind'; root'; _; _] => (root', kind')
      | _ => (root, kind)
      end
    else (root, kind) in
  if is_none root || is_none kind then None
  else
    let kind_value := match kind with OEnum v => v | _ => kind end in
    let kind_text := match kind_value with OStr s => s | _ => str_of kind_value end in
    match workspace_metadata_init (str_of root) kind_text (binding_subdirectory b) with
    | Ok w => Some w
    | Err _ => None
    end.

Definition _enrich_bound_query_error (result : mapping) (operation : pystr) (b : Binding)
    : res (reply_error T) mapping :=
  if negb (bool_decide (operation ∈ _BOUND_QUERY_OPERATIONS)) || negb (is_false (dict_get result (lit "ok")))
  then Ok result
  else
    match dict_get result (lit "error") with
    | Some (JObj error_data) =>
        match dict_get error_data (lit "code") with
        | Some (JList _) | Some (JObj _) => Err Unhashable
        | Some (JStr code) =>
            if negb (bool_decide (code ∈ _BOUND_QUERY_WORKSPACE_CODES)) then Ok result
            else
              let enriched :=
                if bool_decide (code = code_value INVALID_PATH) then
                  let details := match dict_get error_data (lit "details") with Some (JObj d) => d | _ => [] end in
                  let details' :=
                    if dict_has details (lit "next_action") then details
                    else dict_set details (lit "next_action") (JStr (lit "activate_workspace_if_other_root")) in
                  dict_set result (lit "error") (JObj (dict_set error_data (lit "details") (JObj details')))
                else result in
              match _workspace_metadata_for_binding b with
              | Some w => Ok (dict_set enriched (lit "workspace") (workspace_dict w))
              | None => Ok enriched
              end
        | _ => Ok result
        end
    | _ => Ok result
    end.

(** The outcome of [binding_for]: the binding, no binding ([ValueError]), or an
    expired lease. *)
Inductive lookup := Bound (b : Binding) | Unbound | Expired.

Definition _semantic_call (found : lookup) (operation : pystr) (call : Binding → runtime_call)
    : res (reply_error T) mapping :=
  match found with
  | Expired => Err ServiceLeaseExpired
  | Unbound => error_reply INVALID_INPUT [pstr "field" (PStr (lit "active_workspace"))]
  | Bound b =>
      result ← _runtime_result operation (call b);
      _enrich_bound_query_error result operation b
  end.

(** ** Lease data *)

Context (uuid_str : uuid → pystr) (t_json : T → json).

(** The identity as it is shown, the environment and the interpreter. *)
Definition shown_identity (identity : pyobj) : json * option pystr * option pystr :=
  match identity with
  | OTuple [_; OPath root; env; interp] =>
      (JStr root, match env with OStr s => Some s | _ => None end,
       match interp with OPath p => Some p | _ => None end)
  | OTuple [_; OPath root] => (JStr root, None, None)
  | OStr s | OEnum (OStr s) => (JStr s, None, None)
  | OBool v => (JBool v, None, None)
  | OInt z => (JInt z, None, None)
  | OFloat r => (JFloat r, None, None)
  | ONone => (JNull, None, None)
  | o => (JStr (str_of o), None, None)
  end.

Definition _binding_data (b : Binding) : mapping :=
  let '(identity, environment, interpreter) := shown_identity (binding_identity b) in
  [(lit "identity", identity); (lit "working_subdirectory", JStr (binding_subdirectory b))] ++
  match environment, interpreter with
  | Some e, Some i => [(lit "python_environment", JStr e); (lit "python_interpreter", JStr i)]
  | _, _ => []
  end.

Definition _lease_data (l : @DaemonLease Binding T) : mapping :=
  [(lit "lease_id", JStr (uuid_str (dl_id l)));
   (lit "bound", JBool (bool_decide (is_Some (dl_binding l))));
   (lit "issued_at", t_json (issued_at l)); (lit "last_heartbeat_at", t_json (last_heartbeat_at l));
   (lit "heartbeat_interval_seconds", t_json (heartbeat_interval_seconds l));
   (lit "expiry_seconds", t_json (expiry_seconds l))] ++
  entry "workspace" ((λ b, JObj (_binding_data b)) <$> dl_binding l).
End binding_replies.
End replies.

(** ** Release replies *)

Section releases.
Context {B I R T : Type} (uuid_str : uuid → pystr) (t_json : T → json).
Abbreviation Decision_ := (@LeaseLifecycleDecision B I R T).

Definition reason_text (r : LeaseEndReason) : pystr :=
  match r with RELEASED => lit "released" | EXPIRED => lit "expired" | GRACE_EXPIRED => lit "grace_expired" end.

Definition decided_stop (decision : option Decision_) : bool :=
  match decision with Some d => bool_decide (is_Some (d_runtime_to_stop d)) | None => false end.

Definition _stop_fields (decision : option Decision_) (stopped : bool) : mapping :=
  let decided := decided_stop decision in
  [(lit "runtime_stopped", JBool (decided && stopped)); (lit "runtime_stop_pending", JBool (decided && negb stopped))].

Definition decision_fields (decision : option Decision_) : mapping :=
  [(lit "reason", match decision with Some d => JStr (reason_text (d_reason d)) | None => JNull end);
   (lit "active_holders", match decision with Some d => JInt (Z.of_nat (d_active_holders d)) | None => JNull end);
   (lit "grace_deadline", match decision with
                          | Some d => default JNull (t_json <$> d_grace_deadline d)
                          | None => JNull
                          end)].

Definition _release_data (id : uuid) (result : @ReleaseResult B I R T) (immediate stopped : bool) : mapping :=
  [(lit "lease_id", JStr (uuid_str id)); (lit "released", JBool (rr_released result));
   (lit "immediate", JBool immediate)] ++
  decision_fields (rr_decision result) ++ _stop_fields (rr_decision result) stopped.

Definition _release_workspace_data (id : uuid) (result : @ReleaseResult B I R T) (immediate stopped : bool) : mapping :=
  [(lit "lease_id", JStr (uuid_str id)); (lit "released", JBool (rr_released result)); (lit "bound", JBool false);
   (lit "immediate", JBool immediate)] ++
  decision_fields (rr_decision result) ++ _stop_fields (rr_decision result) stopped.

(** [_report_decision]: the event and the message handed to the reporter. *)
Definition _report_decision (decision : option Decision_) (immediate : bool) : option (pystr * pystr) :=
  match decision with
  | None => None
  | Some d =>
      Some (if bool_decide (is_Some (d_runtime_to_stop d)) then lit "workspace_cleanup" else lit "lease_grace",
            lit "reason=" ++ reason_text (d_reason d) ++ lit " holders=" ++ dec (Z.of_nat (d_active_holders d)) ++
            lit " immediate=" ++ if immediate then lit "true" else lit "false")
  end.
End releases.

(** ** What clients can rely on *)

Definition reply_code (reply : mapping) : option json :=
  match dict_get reply (lit "error") with Some (JObj e) => dict_get e (lit "code") | _ => None end.

(** The two shapes of a reply. *)
Definition success_shape (m : mapping) : bool := is_true (dict_get m (lit "ok")) && dict_has m (lit "data").
Definition failure_shape (m : mapping) : bool :=
  is_false (dict_get m (lit "ok")) && is_mapping (dict_get m (lit "error")).

Lemma error_dict_shape e :
  failure_shape (items (error_dict e)) = true ∧ reply_code (items (error_dict e)) = Some (JStr (code_value (er_code e))).
Proof. by destruct e. Qed.

Lemma error_init_code code message retry details w a g e :
  error_envelope_init code message retry details w a g = Ok e → er_code e = code.
Proof.
  unfold error_envelope_init. intros Hok. apply res_bind_Ok in Hok as (_ & _ & Hok).
  apply res_bind_Ok in Hok as (_ & _ & Hok). apply res_bind_Ok in Hok as (copied & _ & Hok).
  by destruct copied; simplify_eq.
Qed.

Lemma error_reply_shape {T} code details (m : mapping) :
  error_reply (T:=T) code details = Ok m →
  failure_shape m = true ∧ reply_code m = Some (JStr (code_value code)).
Proof.
  unfold error_reply, enveloped, error. destruct (error_envelope_init _ _ _ _ _ _ _) as [e|] eqn:He; [|done].
  intros [= <-]. apply error_init_code in He as <-. apply error_dict_shape.
Qed.

Lemma envelope_reply_shape {T} r (m : mapping) :
  envelope_reply (T:=T) r = Ok m →
  ∃ e, r = Ok e ∧ failure_shape m = true ∧ reply_code m = Some (JStr (code_value (er_code e))).
Proof.
  unfold envelope_reply, enveloped. destruct r as [e|]; [|done]. intros [= <-]. exists e.
  split; [done|]. apply error_dict_shape.
Qed.

(** What enrichment may change: the workspace, and a [next_action] hint that
    was not there. *)
Record enriches (m m' : mapping) : Prop := {
  en_other : ∀ k, k ≠ lit "workspace" → k ≠ lit "error" → dict_get m' k = dict_get m k;
  en_error : ∀ e, dict_get m (lit "error") = Some (JObj e) →
    ∃ e', dict_get m' (lit "error") = Some (JObj e') ∧
      (∀ k, k ≠ lit "details" → dict_get e' k = dict_get e k) ∧
      ∀ d, dict_get e (lit "details") = Some (JObj d) →
        ∃ d', dict_get e' (lit "details") = Some (JObj d') ∧
              ∀ k v, dict_get d k = Some v → dict_get d' k = Some v;
}.

Lemma enriches_refl m : enriches m m.
Proof. split; [done|]. intros e He. exists e. split_and!; [done..|]. intros d Hd. by exists d. Qed.

Lemma enriches_workspace m m' w : enriches m m' → enriches m (dict_set m' (lit "workspace") w).
Proof.
  intros [Ho He]. split.
  - intros k Hk Hk'. rewrite dict_get_set_ne by done. by apply Ho.
  - intros e Hee. destruct (He e Hee) as (e' & He' & Hrest). exists e'. split; [|exact Hrest].
    rewrite dict_get_set_ne; [done|]. vm_compute. discriminate.
Qed.

Lemma enriches_hint m e :
  dict_get m (lit "error") = Some (JObj e) →
  let details := match dict_get e (lit "details") with Some (JObj d) => d | _ => [] end in
  let details' := if dict_has details (lit "next_action") then details
                  else dict_set details (lit "next_action") (JStr (lit "activate_workspace_if_other_root")) in
  enriches m (dict_set m (lit "error") (JObj (dict_set e (lit "details") (JObj details')))).
Proof.
  intros He details details'. split.
  - intros k _ Hk. by rewrite dict_get_set_ne.
  - intros e0 He0. rewrite He in He0. injection He0 as <-. exists (dict_set e (lit "details") (JObj details')).
    rewrite dict_get_set_eq. split_and!; [done|intros k Hk; by rewrite dict_get_set_ne|].
    intros d Hd. exists details'. rewrite dict_get_set_eq. split; [done|]. intros k v Hv.
    unfold details', details. rewrite Hd. unfold dict_has. case_bool_decide as Hh; [done|].
    rewrite dict_get_set_ne; [done|]. intros ->. apply Hh. eauto.
Qed.

Section semantic.
Context {T R : Type} (to_float : T → pyfloat) (py_str : pyobj → pystr) (runtime_root runtime_kind : R → pyobj).
Abbreviation call_ := (_semantic_call to_float py_str runtime_root runtime_kind).

Lemma enrich_spec m operation b m' :
  _enrich_bound_query_error (T:=T) py_str runtime_root runtime_kind m operation b = Ok m' → enriches m m'.
Proof.
  assert (Ok (E:=reply_error T) m = Ok m' → enriches m m') as Hsame by (intros [= <-]; apply enriches_refl).
  unfold _enrich_bound_query_error. destruct (negb _ || negb _); [exact Hsame|].
  destruct (dict_get m (lit "error")) as [[| | | | | |e]|] eqn:He; try exact Hsame.
  destruct (dict_get e (lit "code")) as [[| | | |code| |]|] eqn:Hcode; try exact Hsame; try done.
  destruct (negb _); [exact Hsame|]. cbv zeta.
  pose proof (enriches_hint m e He) as Hhint. cbv zeta in Hhint.
  destruct (bool_decide (code = _)); destruct (_workspace_metadata_for_binding _ _ _ _); intros [= <-];
    try apply enriches_workspace; first [exact Hhint|apply enriches_refl].
Qed.

Lemma enriches_shape m m' :
  enriches m m' → (success_shape m = true → success_shape m' = true) ∧ (failure_shape m = true → failure_shape m' = true) ∧
    (∀ c, reply_code m = Some c → reply_code m' = Some c).
Proof.
  intros [Ho He]. assert (lit "ok" ≠ lit "workspace" ∧ lit "ok" ≠ lit "error" ∧ lit "data" ≠ lit "workspace" ∧
    lit "data" ≠ lit "error" ∧ lit "code" ≠ lit "details") as (H1 & H2 & H3 & H4 & H5) by (split_and!; vm_compute; discriminate).
  unfold success_shape, failure_shape, reply_code, dict_has. rewrite (Ho (lit "ok") H1 H2), (Ho (lit "data") H3 H4).
  split; [done|]. destruct (dict_get m (lit "error")) as [[| | | | | |e]|]; simpl;
    rewrite ?andb_false_r; try (split; [done|done]).
  destruct (He e eq_refl) as (e' & -> & Hk & _). simpl. split; [done|]. intros c. by rewrite Hk.
Qed.

Lemma translate_shape operation exc (m : mapping) :
  translate to_float operation exc = Ok m → failure_shape m = true.
Proof.
  destruct exc; simpl; try done; intros Hm;
    try (by apply envelope_reply_shape in Hm as (e & _ & ? & _)); try (by apply error_reply_shape in Hm as [? _]).
  unfold _lsp_failure_envelope in Hm. case_match; by apply error_reply_shape in Hm as [? _].
Qed.

(** Every reply to a semantic call has one of the two envelope shapes,
    whatever the runtime operation returned or raised (an exception of no known
    class, a value that is not a mapping and an expired lease are the only
    things that raise instead). A well-formed answer of the runtime is passed on
    with nothing but the workspace and, for a path error, a missing
    [next_action] added: no field, code, message or detail is changed. *)
Theorem semantic_call_reply found operation call m :
  call_ found operation call = Ok m →
  (success_shape m = true ∨ failure_shape m = true) ∧
  ∀ b r, found = Bound b → _runtime_value to_float operation (call b) = Ok r →
    success_shape r = true ∨ failure_shape r = true → enriches r m.
Proof.
  unfold _semantic_call. destruct found as [b| |]; [| |done].
  2: { intros Hm. apply error_reply_shape in Hm as [Hm _]. split; [by right|done]. }
  intros Hm. apply res_bind_Ok in Hm as (r & Hr & Hen). apply enrich_spec in Hen.
  destruct (enriches_shape _ _ Hen) as (Hs & Hf & _). unfold _runtime_result in Hr.
  apply res_bind_Ok in Hr as (r0 & Hr0 & Hr).
  fold (success_shape r0) in Hr. fold (failure_shape r0) in Hr. split.
  - destruct (success_shape r0) eqn:Es; [simplify_eq; left; by apply Hs|].
    destruct (failure_shape r0) eqn:Ef; [simplify_eq; right; by apply Hf|].
    apply error_reply_shape in Hr as [Hr _]. right. by apply Hf.
  - intros b' r1 [= <-] Hr1 Hshape. rewrite Hr0 in Hr1. injection Hr1 as <-.
    destruct (success_shape r0); [by simplify_eq|]. destruct Hshape as [|Hfail]; [done|].
    rewrite Hfail in Hr. by simplify_eq.
Qed.

(** No failed read claims that something may have been written. The code
    UNCERTAIN leaves the translation of a runtime failure only for the one
    writing operation, for an operating-system error, or when the runtime's own
    error carries it; an LSP failure of a read is UNSUPPORTED, of the write
    UNCERTAIN. *)
Theorem uncertain_needs_a_write operation exc m :
  translate to_float operation exc = Ok m →
  (reply_code m = Some (JStr (code_value UNCERTAIN)) →
     exc = ExOs ∨ (exc = ExLsp ∧ operation = lit "replace_symbol_body") ∨
     ∃ paths scope, exc = ExRuntime (code_value UNCERTAIN) paths scope) ∧
  (exc = ExLsp → reply_code m =
     Some (JStr (code_value (if bool_decide (operation = lit "replace_symbol_body") then UNCERTAIN else UNSUPPORTED)))).
Proof.
  assert (∀ c c', Some (JStr (code_value c)) = Some (JStr (code_value c')) → c = c') as Hinj.
  { intros c c' [= Heq]. destruct c, c'; first [reflexivity|vm_compute in Heq; discriminate]. }
  intros Hm. split.
  - intros Hcode. destruct exc as [d|code paths scope|ra|c ra| | | |]; simpl in Hm; try done.
    + apply envelope_reply_shape in Hm as (e & He & _ & Hc). rewrite Hc in Hcode. apply (Hinj _ UNCERTAIN) in Hcode.
      unfold from_workspace_error in He. apply res_bind_Ok in He as (w & _ & He).
      apply error_init_code in He. rewrite He in Hcode. by destruct (wd_code d).
    + apply error_reply_shape in Hm as [_ Hc]. rewrite Hc in Hcode. apply (Hinj _ UNCERTAIN) in Hcode.
      right. right. exists paths, scope. f_equal. unfold code_of_value in Hcode.
      destruct (List.find _ _) as [c'|] eqn:Hf; [|done]. apply List.find_some in Hf as [_ Hf].
      apply bool_decide_eq_true in Hf. simpl in Hcode. by rewrite <-Hcode, Hf.
    + apply envelope_reply_shape in Hm as (e & He & _ & Hc). rewrite Hc in Hcode. apply (Hinj _ UNCERTAIN) in Hcode.
      unfold from_executor_busy in He. apply res_bind_Ok in He as (w & _ & He).
      apply error_init_code in He. by rewrite He in Hcode.
    + apply envelope_reply_shape in Hm as (e & He & _ & Hc). rewrite Hc in Hcode. apply (Hinj _ UNCERTAIN) in Hcode.
      unfold from_adapter_error in He. apply res_bind_Ok in He as (w & _ & He).
      apply error_init_code in He. rewrite He in Hcode. by destruct c.
    + apply envelope_reply_shape in Hm as (e & He & _ & Hc). rewrite Hc in Hcode. apply (Hinj _ UNCERTAIN) in Hcode.
      unfold from_timeout in He. apply res_bind_Ok in He as (w & _ & He).
      apply error_init_code in He. by rewrite He in Hcode.
    + unfold _lsp_failure_envelope in Hm. case_bool_decide as Hop.
      * right. left. split; [done|]. by apply list_elem_of_singleton in Hop.
      * apply error_reply_shape in Hm as [_ Hc]. rewrite Hc in Hcode. by apply (Hinj _ UNCERTAIN) in Hcode.
    + by left.
  - intros ->. simpl in Hm. unfold _lsp_failure_envelope, _LSP_WRITE_OPERATIONS in Hm.
    case_bool_decide as Hop; apply error_reply_shape in Hm as [_ ->].
    + apply list_elem_of_singleton in Hop. by rewrite bool_decide_true.
    + rewrite bool_decide_false; [done|]. intros ->. apply Hop. by apply list_elem_of_singleton.
Qed.
End semantic.

Module ReplyExamples.

Definition no_float (z : Z) : pyfloat := {| pf_repr := dec z; pf_negative := bool_decide (z < 0) |}.
Definition text (o : pyobj) : pystr := lit "<object>".
Definition no_attribute (r : nat) : pyobj := ONone.

Definition binding : WorkspaceBinding pyobj nat pystr :=
  {| binding_lease := {| lease_id := 1%positive;
                         lease_identity := OTuple [OEnum (OStr (lit "git")); OPath (lit "/work")];
                         lease_runtime := 7%nat |};
     binding_subdirectory := lit "/work/src" |}.

(** A path error of a query comes back with the workspace and a hint. *)
Definition path_error : runtime_call (T:=Z) :=
  Sync (Err (ExWorkspace {| wd_code := WE_INVALID_PATH; wd_current_identity := None;
                            wd_activation_hint := None; wd_path := Some (lit "x.py") |})).

Definition path_reply : mapping :=
  match _semantic_call no_float text no_attribute no_attribute (Bound binding) (lit "find_symbol") (λ _, path_error) with
  | Ok m => m
  | Err _ => []
  end.

Lemma semantic_call_reply_witness :
  json_get (JObj path_reply) (lit "workspace") =
    Some (JObj [(lit "root", JStr (lit "/work")); (lit "kind", JStr (lit "git"));
                (lit "working_subdirectory", JStr (lit "/work/src"))]) ∧
  (success_shape path_reply = true ∨ failure_shape path_reply = true).
Proof.
  split; [vm_compute; reflexivity|].
  apply (semantic_call_reply no_float text no_attribute no_attribute (Bound binding) (lit "find_symbol")
           (λ _, path_error) path_reply). vm_compute. reflexivity.
Defined.

Lemma uncertain_needs_a_write_witness :
  (∃ m, translate no_float (lit "find_symbol") ExLsp = Ok m ∧ reply_code m = Some (JStr (code_value UNSUPPORTED))) ∧
  (∃ m, translate no_float (lit "replace_symbol_body") ExLsp = Ok m ∧ reply_code m = Some (JStr (code_value UNCERTAIN))).
Proof.
  split.
  - destruct (translate no_float (lit "find_symbol") ExLsp) as [m|] eqn:Hm; [|by vm_compute in Hm].
    exists m. split; [done|]. exact (proj2 (uncertain_needs_a_write no_float (lit "find_symbol") ExLsp m Hm) eq_refl).
  - destruct (translate no_float (lit "replace_symbol_body") ExLsp) as [m|] eqn:Hm; [|by vm_compute in Hm].
    exists m. split; [done|]. exact (proj2 (uncertain_needs_a_write no_float (lit "replace_symbol_body") ExLsp m Hm) eq_refl).
Defined.
End ReplyExamples.
