(* ===== verification/Service.v ===== *)
(** * The daemon service

    Model of [src/serena_light/daemon/service.py]: the orchestration of the
    lease lifecycle ([Leases]) with the workspace registry ([Registry]). The
    daemon lease id is the registry's session key.

    The service runs on one event loop. [_binding_lock] is held by the compound
    transitions; an activation keeps it across the awaits of its phases
    (preparing, refreshing, committing, rebinding), so it is a coroutine state
    ([phase]) with one resumption per await ([activation_step]). Heartbeats,
    lookups and the issue of leases never take the lock first and interleave
    with a running activation; when one of them finds its lease expired, the
    lifecycle decision waits for the lock like every other locked section. The
    lock is first in, first out, as [asyncio.Lock] is ([sw_queue]).

    Stopping a runtime happens after the lock is given up ([_stop_runtimes],
    under a lock of its own) and may fail; a failed stop stays pending. Clock
    readings, [uuid4], the runtime factory, the outcome of a refresh and of a
    stop are arguments of the steps. Task cancellation is not modelled. *)

From S2P Require Import Prelude Registry Leases.

(** [try: ... except]: the state reached is kept and the outcome is a value. *)
Definition attempt {S E A} (m : PyM S E A) : PyM S E (res E A) := λ s, let '(s', r) := m s in (s', Ok r).

Section service.
Context {I R P T : Type}.
Context `{Countable I, EqDecision R, EqDecision P, !PyOrd T} (t_add : T → T → T).

Abbreviation Binding := (WorkspaceBinding I R P).
Abbreviation Lifecycle := (@LeaseLifecycle Binding I R T).
Abbreviation Lease := (@DaemonLease Binding T).
Abbreviation LifecycleDecision := (@LeaseLifecycleDecision Binding I R T).
Abbreviation Released := (@ReleaseResult Binding I R T).
Abbreviation lifecycle_error := (@lease_error Binding I R T).
Abbreviation RuntimeRegistry := (Registry I R uuid P).
Abbreviation Prepared := (PreparedActivation I R uuid P).

(** ** State *)

(** [_pending_runtime_stops] maps [id(runtime)] to the runtime; equality on
    [R] is object identity, so the key is the object. *)
Record WorkspaceDaemonService := {
  sv_lifecycle : Lifecycle;
  sv_registry : RuntimeRegistry;
  sv_pending_stops : list (R * R);
}.

Inductive service_error :=
| LeaseFailure (e : lifecycle_error)
| RegistryFailure (e : registry_error)
| RefreshFailed.

Abbreviation SVC := (PyM WorkspaceDaemonService service_error).

Definition on_lifecycle {A} (m : PyM Lifecycle lifecycle_error A) : SVC A := λ s,
  let '(l, r) := m (sv_lifecycle s) in
  ({| sv_lifecycle := l; sv_registry := sv_registry s; sv_pending_stops := sv_pending_stops s |},
   match r with Ok a => Ok a | Err e => Err (LeaseFailure e) end).

Definition on_registry {A} (m : PyM RuntimeRegistry registry_error A) : SVC A := λ s,
  let '(g, r) := m (sv_registry s) in
  ({| sv_lifecycle := sv_lifecycle s; sv_registry := g; sv_pending_stops := sv_pending_stops s |},
   match r with Ok a => Ok a | Err e => Err (RegistryFailure e) end).

Open Scope py_scope.

(** ** Applying lifecycle decisions *)

Definition option_runtime (o : option R) : list R := match o with None => [] | Some r => [r] end.

Definition _apply_decision_locked (decision : option LifecycleDecision) : SVC (list R) :=
  match decision with
  | None => py_ret []
  | Some d =>
      match d_binding_to_release d with
      | Some b => on_registry (release_lease (lease_id (binding_lease b))) ;; py_ret tt
      | None => py_ret tt
      end ;;
      match d_identity d, d_runtime_to_stop d with
      | Some identity, Some runtime =>
          let! detached := on_registry (retire_idle identity runtime) in
          py_ret (option_runtime detached)
      | _, _ => py_ret []
      end
  end.

Definition _apply_result_locked (result : Released) : SVC (list R) :=
  _apply_decision_locked (rr_decision result).

Fixpoint _apply_decisions_locked (decisions : list LifecycleDecision) : SVC (list R) :=
  match decisions with
  | [] => py_ret []
  | d :: ds =>
      let! runtimes := _apply_decision_locked (Some d) in
      let! rest := _apply_decisions_locked ds in
      py_ret (runtimes ++ rest)
  end.

Definition _discard_prepared_activation_locked (id : uuid) (prepared : Prepared) (committed : bool)
    : SVC (list R) :=
  (if committed then on_registry (release id) ;; py_ret tt
   else on_registry (abort_activation prepared) ;; py_ret tt) ;;
  if negb (candidate_runtime_created prepared) then py_ret []
  else
    let! detached := on_registry (retire_idle (binding_identity (prepared_binding prepared))
                                              (binding_runtime (prepared_binding prepared))) in
    py_ret (option_runtime detached).

(** ** Locked sections *)

(** What a call does once its own runtimes have been handed to
    [_stop_runtimes]: build the reply, or raise [LEASE_EXPIRED]. *)
Inductive after_stop :=
| AfterRelease (id : uuid) (immediate : bool) (result : Released)
| AfterReleaseWorkspace (id : uuid) (immediate : bool) (result : Released)
| AfterSweep (decisions : list LifecycleDecision)
| AfterActivate (id : uuid) (outcome : res service_error Binding)
| AfterExpired (id : uuid).

(** An activation holding [_binding_lock], at the await it is suspended in. *)
Inductive phase :=
| Unlocked
| Preparing (id : uuid) (w : ResolvedWorkspace I P)
| Refreshing (id : uuid) (prepared : Prepared)
| Committing (id : uuid) (prepared : Prepared)
| Rebinding (id : uuid) (prepared : Prepared) (binding : Binding).

(** A locked section ends by giving up the lock with the runtimes to stop, or
    keeps it in a later phase. *)
Abbreviation section_end := (phase * option (list R * after_stop))%type.
Definition unlock (rs : list R) (k : after_stop) : SVC section_end := py_ret (Unlocked, Some (rs, k)).
Definition hold (ph : phase) : SVC section_end := py_ret (ph, None).

(** The locked part of [release_lease]. *)
Definition svc_release_lease (now : T) (id : uuid) (immediate : bool) : SVC section_end :=
  let! result := on_lifecycle (release_daemon t_add now id immediate) in
  let! runtimes_to_stop := _apply_result_locked result in
  unlock runtimes_to_stop (AfterRelease id immediate result).

Definition svc_release_workspace (now : T) (id : uuid) (immediate : bool) : SVC section_end :=
  let! outcome := attempt (on_lifecycle (release_workspace t_add now id immediate)) in
  match outcome with
  | Err (LeaseFailure (LeaseExpired _ decision)) =>
      let! runtimes_to_stop := _apply_decision_locked decision in
      unlock runtimes_to_stop (AfterExpired id)
  | Err e => py_raise e
  | Ok result =>
      let! runtimes_to_stop := _apply_result_locked result in
      unlock runtimes_to_stop (AfterReleaseWorkspace id immediate result)
  end.

Definition svc_sweep (now : T) : SVC section_end :=
  let! decisions := on_lifecycle (sweep t_add now) in
  let! runtimes_to_stop := _apply_decisions_locked decisions in
  unlock runtimes_to_stop (AfterSweep decisions).

Definition _clean_expired (id : uuid) (decision : option LifecycleDecision) : SVC section_end :=
  let! runtimes_to_stop := _apply_decision_locked decision in
  unlock runtimes_to_stop (AfterExpired id).

(** [activate_workspace] from the moment it holds the lock: refuse a lease
    that ended while the path was being resolved. *)
Definition activate_enter (now : T) (id : uuid) (w : ResolvedWorkspace I P) : SVC section_end :=
  let! live := attempt (on_lifecycle (require_active t_add now id)) in
  match live with
  | Ok _ => hold (Preparing id w)
  | Err (LeaseFailure (LeaseExpired _ decision)) =>
      let! runtimes_to_stop := _apply_decision_locked decision in
      unlock runtimes_to_stop (AfterExpired id)
  | Err e => py_raise e
  end.

(** The two handlers around the phases once a candidate is prepared. *)
Definition activation_failed (id : uuid) (prepared : Prepared) (committed : bool) (e : service_error)
    : SVC section_end :=
  let! discarded := _discard_prepared_activation_locked id prepared committed in
  match e with
  | LeaseFailure (LeaseExpired _ decision) =>
      let! ended := _apply_decision_locked decision in
      unlock (discarded ++ ended) (AfterExpired id)
  | _ => unlock discarded (AfterActivate id (Err e))
  end.

(** What resumes a suspended activation. *)
Inductive activation_event :=
| EvPrepare (mk : I → res registry_error R) (fresh : uuid)
| EvRefreshed (refreshed : bool) (now : T)
| EvCommit
| EvRebind (now : T).

Definition activation_step (ev : activation_event) (ph : phase) : SVC section_end :=
  match ph, ev with
  | Preparing id w, EvPrepare mk fresh =>
      let! outcome := attempt (on_registry (prepare_activation mk fresh id w)) in
      match outcome with
      | Ok prepared => hold (Refreshing id prepared)
      | Err e => unlock [] (AfterActivate id (Err e))
      end
  | Refreshing id prepared, EvRefreshed false _ => activation_failed id prepared false RefreshFailed
  | Refreshing id prepared, EvRefreshed true now =>
      let! live := attempt (on_lifecycle (require_active t_add now id)) in
      match live with
      | Ok _ => hold (Committing id prepared)
      | Err e => activation_failed id prepared false e
      end
  | Committing id prepared, EvCommit =>
      let! outcome := attempt (on_registry (commit_activation prepared)) in
      match outcome with
      | Ok binding => hold (Rebinding id prepared binding)
      | Err e => activation_failed id prepared false e
      end
  | Rebinding id prepared binding, EvRebind now =>
      let! outcome := attempt (on_lifecycle (rebind t_add now id binding)) in
      match outcome with
      | Ok _ => unlock [] (AfterActivate id (Ok binding))
      | Err e => activation_failed id prepared true e
      end
  | _, _ => hold ph
  end.

(** ** Stopping runtimes *)

Definition setdefault_stop (d : list (R * R)) (r : R) : list (R * R) :=
  match dict_get d r with Some _ => d | None => dict_set d r r end.

(** [_stop_runtimes] up to the await: the caller's runtimes join the pending
    ones, and every pending runtime is handed to the stopper. *)
Definition stop_enter (runtimes : list R) (pending : list (R * R)) : list (R * R) :=
  foldl setdefault_stop pending runtimes.

(** The rest of [_stop_runtimes]: what failed stays pending; the reply is about
    the caller's own targets only. *)
Fixpoint stop_results (own : list R) (handed : list (R * R)) (results : list bool)
    (pending : list (R * R)) (own_targets_stopped : bool) : list (R * R) * bool :=
  match handed, results with
  | (marker, runtime) :: handed, stopped :: results =>
      if stopped : bool
      then stop_results own handed results (dict_del pending marker) own_targets_stopped
      else stop_results own handed results (dict_set pending marker runtime)
             (own_targets_stopped && negb (bool_decide (marker ∈ own)))
  | _, _ => (pending, own_targets_stopped)
  end.

Definition _stop_runtimes (runtimes : list R) (stop : R → bool) (pending : list (R * R))
    : list (R * R) * bool :=
  let handed := stop_enter runtimes pending in
  stop_results runtimes handed ((λ p, stop p.2) <$> handed) handed true.

Definition svc_daemon_idle (s : WorkspaceDaemonService) : bool :=
  daemon_idle (sv_lifecycle s) && negb (nonempty (sv_pending_stops s)).

(** [migration_status]: active holders and the retirement predicate. *)
Definition migration_status (s : WorkspaceDaemonService) : nat * bool :=
  (active_lease_count (sv_lifecycle s), svc_daemon_idle s).

(** ** Executions *)

(** A caller waiting for [_binding_lock]. *)
Inductive waiter :=
| WRelease (id : uuid) (immediate : bool)
| WReleaseWorkspace (id : uuid) (immediate : bool)
| WActivate (id : uuid) (w : ResolvedWorkspace I P)
| WSweep
| WClean (id : uuid) (decision : option LifecycleDecision).

Definition run_waiter (now : T) (wt : waiter) : SVC section_end :=
  match wt with
  | WRelease id immediate => svc_release_lease now id immediate
  | WReleaseWorkspace id immediate => svc_release_workspace now id immediate
  | WActivate id w => activate_enter now id w
  | WSweep => svc_sweep now
  | WClean id decision => _clean_expired id decision
  end.

Inductive service_reply :=
| Replied (k : after_stop) (stopped : bool)
| ReplyIssued (l : Lease)
| ReplyRenewed (l : Lease)
| ReplyRequired (l : Lease)
| ReplyBound (b : Binding)
| ReplyUnbound
| Raised (e : service_error).

Record service_world := {
  sw_service : WorkspaceDaemonService;
  sw_phase : phase;
  sw_queue : list waiter;
  sw_stop_queue : list (list R * after_stop);
  sw_stopping : option (list R * after_stop * list (R * R));
  sw_used : gset uuid;
  sw_log : list service_reply;
}.

(** A locked section is over or suspended. *)
Definition settle (w : service_world) (queue : list waiter)
    (out : WorkspaceDaemonService * res service_error section_end) : service_world :=
  {| sw_service := out.1;
     sw_phase := match out.2 with Ok (ph, _) => ph | Err _ => Unlocked end;
     sw_queue := queue;
     sw_stop_queue := sw_stop_queue w ++
       match out.2 with Ok (_, Some k) => [k] | _ => [] end;
     sw_stopping := sw_stopping w;
     sw_used := sw_used w;
     sw_log := sw_log w ++ match out.2 with Err e => [Raised e] | Ok _ => [] end |}.

(** [async with self._binding_lock]: enter at once when nobody holds it or
    waits for it, else queue up. *)
Definition arrive (now : T) (wt : waiter) (w : service_world) : service_world :=
  match sw_phase w, sw_queue w with
  | Unlocked, [] => settle w [] (run_waiter now wt (sw_service w))
  | _, _ => {| sw_service := sw_service w; sw_phase := sw_phase w; sw_queue := sw_queue w ++ [wt];
               sw_stop_queue := sw_stop_queue w; sw_stopping := sw_stopping w;
               sw_used := sw_used w; sw_log := sw_log w |}
  end.

(** Lock-free calls run one lifecycle method; an expiry then cleans up. *)
Inductive lock_free_call := LFHeartbeat (id : uuid) | LFBindingFor (id : uuid) | LFRequire (id : uuid).

Definition run_lock_free (now : T) (c : lock_free_call) : SVC service_reply :=
  match c with
  | LFHeartbeat id => let! l := on_lifecycle (heartbeat t_add now id) in py_ret (ReplyRenewed l)
  | LFBindingFor id => let! b := on_lifecycle (lease_binding_for t_add now id) in py_ret (ReplyBound b)
  | LFRequire id => let! l := on_lifecycle (require_active t_add now id) in py_ret (ReplyRequired l)
  end.

Definition with_service (w : service_world) (s : WorkspaceDaemonService) (used : gset uuid)
    (log : list service_reply) : service_world :=
  {| sw_service := s; sw_phase := sw_phase w; sw_queue := sw_queue w;
     sw_stop_queue := sw_stop_queue w; sw_stopping := sw_stopping w;
     sw_used := used; sw_log := sw_log w ++ log |}.

Definition lock_free (now : T) (c : lock_free_call) (w : service_world) : service_world :=
  let '(s, r) := run_lock_free now c (sw_service w) in
  match r with
  | Ok reply => with_service w s (sw_used w) [reply]
  | Err (LeaseFailure (LeaseExpired id decision)) =>
      arrive now (WClean id decision) (with_service w s (sw_used w) [])
  | Err (LeaseFailure NoActiveBinding) => with_service w s (sw_used w) [ReplyUnbound]
  | Err e => with_service w s (sw_used w) [Raised e]
  end.

(** [acquire_lease]: always unbound. *)
Definition issue_lease (now : T) (fresh : uuid) (w : service_world) : service_world :=
  let '(s, r) := on_lifecycle (acquire_lease now fresh None) (sw_service w) in
  with_service w s ({[fresh]} ∪ sw_used w)
    [match r with Ok l => ReplyIssued l | Err e => Raised e end].

Definition with_pending (s : WorkspaceDaemonService) (pending : list (R * R)) : WorkspaceDaemonService :=
  {| sv_lifecycle := sv_lifecycle s; sv_registry := sv_registry s; sv_pending_stops := pending |}.

(** Enter [_runtime_stop_lock]; with nothing pending the call returns at once. *)
Definition begin_stop (targets : list R) (k : after_stop) (rest : list (list R * after_stop))
    (w : service_world) : service_world :=
  let pending := stop_enter targets (sv_pending_stops (sw_service w)) in
  {| sw_service := with_pending (sw_service w) pending; sw_phase := sw_phase w; sw_queue := sw_queue w;
     sw_stop_queue := rest;
     sw_stopping := if nonempty pending then Some (targets, k, pending) else None;
     sw_used := sw_used w;
     sw_log := sw_log w ++ if nonempty pending then [] else [Replied k true] |}.

Definition end_stop (own : list R) (k : after_stop) (handed : list (R * R)) (results : list bool)
    (w : service_world) : service_world :=
  let '(pending, stopped) := stop_results own handed results (sv_pending_stops (sw_service w)) true in
  {| sw_service := with_pending (sw_service w) pending; sw_phase := sw_phase w; sw_queue := sw_queue w;
     sw_stop_queue := sw_stop_queue w; sw_stopping := None;
     sw_used := sw_used w; sw_log := sw_log w ++ [Replied k stopped] |}.

(** The runtimes some call is about to stop, is stopping, or failed to stop. *)
Definition outstanding (w : service_world) (r : R) : Prop :=
  (∃ k, k ∈ sw_stop_queue w ∧ r ∈ k.1) ∨
  (∃ own k handed, sw_stopping w = Some (own, k, handed) ∧ r ∈ own ++ handed.*2) ∨
  r ∈ (sv_pending_stops (sw_service w)).*2.

Definition registered (g : RuntimeRegistry) (r : R) : Prop :=
  ∃ i e, reg_runtimes g !! i = Some e ∧ entry_runtime e = r.

(** The factory builds a new object, distinct from every runtime still in use,
    and its failures are its own. *)
Definition factory_ok (w : service_world) (mk : I → res registry_error R) : Prop :=
  ∀ i, match mk i with
       | Ok r => ¬ registered (sv_registry (sw_service w)) r ∧ ¬ outstanding w r
       | Err e => e = FactoryFailed
       end.

Definition event_ok (w : service_world) (ev : activation_event) : Prop :=
  match ev with
  | EvPrepare mk fresh => factory_ok w mk ∧ fresh ∉ sw_used w
  | _ => True
  end.

Definition event_ids (ev : activation_event) : gset uuid :=
  match ev with EvPrepare _ fresh => {[fresh]} | _ => ∅ end.

Definition resume (ev : activation_event) (w : service_world) : service_world :=
  let w' := settle w (sw_queue w) (activation_step ev (sw_phase w) (sw_service w)) in
  {| sw_service := sw_service w'; sw_phase := sw_phase w'; sw_queue := sw_queue w';
     sw_stop_queue := sw_stop_queue w'; sw_stopping := sw_stopping w';
     sw_used := event_ids ev ∪ sw_used w'; sw_log := sw_log w' |}.

(** What a client (or the sweep timer) may ask for under the lock; cleanups
    come from the service itself. *)
Definition client_request (wt : waiter) : Prop := match wt with WClean _ _ => False | _ => True end.

Inductive service_step (w : service_world) : service_world → Prop :=
| step_issue now fresh : fresh ∉ sw_used w → service_step w (issue_lease now fresh w)
| step_lock_free now c : service_step w (lock_free now c w)
| step_arrive now wt : client_request wt → service_step w (arrive now wt w)
| step_wake now wt rest :
    sw_phase w = Unlocked → sw_queue w = wt :: rest →
    service_step w (settle w rest (run_waiter now wt (sw_service w)))
| step_resume ev : sw_phase w ≠ Unlocked → event_ok w ev → service_step w (resume ev w)
| step_stop_begin targets k rest :
    sw_stopping w = None → sw_stop_queue w = (targets, k) :: rest →
    service_step w (begin_stop targets k rest w)
| step_stop_end own k handed results :
    sw_stopping w = Some (own, k, handed) → length results = length handed →
    service_step w (end_stop own k handed results w).

Definition service_start (l : Lifecycle) : service_world :=
  {| sw_service := {| sv_lifecycle := l; sv_registry := registry_init; sv_pending_stops := [] |};
     sw_phase := Unlocked; sw_queue := []; sw_stop_queue := []; sw_stopping := None;
     sw_used := ∅; sw_log := [] |}.

Definition service_reachable (w : service_world) : Prop :=
  ∃ zero heartbeat expiry grace l,
    lifecycle_init zero heartbeat expiry grace = Ok l ∧ rtc service_step (service_start l) w.

End service.
