(* ===== verification/Coupling.v ===== *)
(** * The service keeps leases and registry together

    The theorems about [Service]: the coupling invariant between the lease
    lifecycle and the workspace registry, preserved by every step of the
    service in every interleaving, and what follows from it. *)

From S2P Require Import Prelude Registry Leases Service.

(** ** The registry operations exactly *)

Section registry_exact.
Context {I R S P : Type} `{Countable I, EqDecision R, Countable S, EqDecision P}.
Implicit Types g : Registry I R S P.

(** The same identities are served by the same objects. *)
Definition same_runtimes g g' : Prop :=
  ∀ i, entry_runtime <$> reg_runtimes g' !! i = entry_runtime <$> reg_runtimes g !! i.

Lemma same_runtimes_some g g' i e' :
  same_runtimes g g' → reg_runtimes g' !! i = Some e' →
  ∃ e, reg_runtimes g !! i = Some e ∧ entry_runtime e = entry_runtime e'.
Proof.
  intros Hs He. specialize (Hs i). rewrite He in Hs. destruct (reg_runtimes g !! i); naive_solver.
Qed.

Lemma same_runtimes_sym g g' : same_runtimes g g' → same_runtimes g' g.
Proof. intros Hs i. by rewrite (Hs i). Qed.

Lemma release_locked_exact id g :
  core_wf g → ∃ g' r, _release_locked id g = (g', Ok r) ∧ reg_leases g' = delete id (reg_leases g) ∧
    reg_bindings g' = reg_bindings g ∧ same_runtimes g g'.
Proof.
  intros Hc. destruct (reg_leases g !! id) as [l|] eqn:Hid.
  - destruct (release_live g id l Hc Hid) as (e & He & ->).
    destruct (core_lease _ Hc _ _ Hid) as [<- _]. do 2 eexists. split_and!; [done..|].
    intros i; simpl. rewrite lookup_insert. case_decide as Hi; [subst i; by rewrite He|done].
  - rewrite release_dead by done. do 2 eexists. split_and!; [done| |done..]. by rewrite delete_id.
Qed.

Lemma core_set_bindings f g : core_wf g → core_wf (set_bindings f g).
Proof. intros [??]. by split. Qed.

Lemma release_lease_exact id g :
  registry_wf g → ∃ g' r, release_lease id g = (g', Ok r) ∧ registry_wf g' ∧
    reg_leases g' = delete id (reg_leases g) ∧
    (∀ s b, reg_bindings g' !! s = Some b ↔
            reg_bindings g !! s = Some b ∧ lease_id (binding_lease b) ≠ id) ∧ same_runtimes g g'.
Proof.
  intros Hwf. destruct (release_lease_spec id g Hwf) as (g' & r & Heq & Hwf' & _ & Hl & Hb & _).
  exists g', r. split_and!; try done. revert Heq. unfold release_lease, py_bind, py_get, py_modify.
  cbn beta iota. destruct (reg_leases g !! id) as [l|]; [|by intros [= <- _]].
  destruct (release_locked_exact (lease_id l)
    (set_bindings (filter (λ sb, lease_id (binding_lease sb.2) ≠ id)) g)) as (g1 & r1 & -> & _ & _ & Hs);
    [by apply core_set_bindings, Hwf|]. by intros [= <- _].
Qed.

Lemma release_exact s g :
  registry_wf g → ∃ g' r, release s g = (g', Ok r) ∧ registry_wf g' ∧ same_runtimes g g' ∧
    reg_bindings g' = delete s (reg_bindings g) ∧
    reg_leases g' = match reg_bindings g !! s with
                    | Some b => delete (lease_id (binding_lease b)) (reg_leases g)
                    | None => reg_leases g
                    end.
Proof.
  intros Hwf. destruct (release_spec s g Hwf) as (g' & r & Heq & Hwf' & _ & Hb & _).
  exists g', r. split_and!; try done; revert Heq; unfold release, py_bind, py_get, py_modify;
    cbn beta iota; (destruct (reg_bindings g !! s) as [b|]; [|by intros [= <- _]]);
    destruct (release_locked_exact (lease_id (binding_lease b)) (set_bindings (delete s) g))
      as (g1 & r1 & -> & Hl & _ & Hs); try (by apply core_set_bindings, Hwf); by intros [= <- _].
Qed.

Lemma abort_exact p g :
  registry_wf g → prepared_ok g p → ∃ g' r, abort_activation p g = (g', Ok r) ∧ registry_wf g' ∧
    same_runtimes g g' ∧ reg_bindings g' = reg_bindings g ∧
    reg_leases g' = if candidate_is_provisional p then delete (candidate_id p) (reg_leases g)
                    else reg_leases g.
Proof.
  intros Hwf Hp. destruct (abort_spec p g Hwf Hp) as (g' & r & Heq & Hwf' & _ & Hb & _).
  exists g', r. split_and!; try done; revert Heq; unfold abort_activation, _abort_prepared_locked;
    (destruct (candidate_is_provisional p); [|by intros [= <- _]]);
    destruct (release_locked_exact (candidate_id p) g (wf_core _ Hwf)) as (g1 & r1 & Hr & Hl & _ & Hs);
    unfold candidate_id in *; rewrite Hr; by intros [= <- _].
Qed.

(** A commit whose expectation and candidate are current goes through. *)
Lemma commit_exact p g :
  registry_wf g → prepared_ok g p → prepared_expected p = reg_bindings g !! prepared_session p →
  (candidate_is_provisional p = true →
   reg_leases g !! candidate_id p = Some (binding_lease (prepared_binding p))) →
  ∃ g', commit_activation p g = (g', Ok (prepared_binding p)) ∧ registry_wf g' ∧ same_runtimes g g' ∧
    reg_bindings g' = <[prepared_session p := prepared_binding p]> (reg_bindings g) ∧
    reg_leases g' = match prepared_expected p, candidate_is_provisional p with
                    | Some old, true => delete (lease_id (binding_lease old)) (reg_leases g)
                    | _, _ => reg_leases g
                    end.
Proof.
  intros Hwf Hp Hexp Hlive. pose proof (commit_spec p g Hwf Hp) as Hspec.
  destruct (commit_activation p g) as [g' r] eqn:Heq. revert Heq.
  unfold commit_activation, py_bind, py_get, py_modify, py_ret. cbn beta iota.
  rewrite decide_False by (intros Hn; by apply Hn).
  assert (candidate_is_provisional p && bool_decide (reg_leases g !! lease_id
    (binding_lease (prepared_binding p)) ≠ Some (binding_lease (prepared_binding p))) = false) as ->.
  { destruct (candidate_is_provisional p); [|done]. apply bool_decide_eq_false_2. intros Hn.
    by apply Hn, Hlive. }
  destruct (prepared_expected p) as [old|]; [destruct (candidate_is_provisional p)|].
  - destruct (release_locked_exact (lease_id (binding_lease old))
      (set_bindings <[prepared_session p := prepared_binding p]> g)) as (g1 & r1 & -> & Hl & Hb & Hs);
      [by apply core_set_bindings, Hwf|].
    intros [= <- <-]. exists g1. by destruct Hspec as (_ & _ & ? & _).
  - intros [= <- <-]. eexists. by destruct Hspec as (_ & _ & ? & _).
  - intros [= <- <-]. eexists. by destruct Hspec as (_ & _ & ? & _).
Qed.

(** A preparation acquires a lease on the registered runtime, or on a new one. *)
Lemma prepare_exact mk fresh s w g :
  registry_wf g → reg_leases g !! fresh = None →
  match prepare_activation mk fresh s w g with
  | (g', Err err) => g' = g ∧ mk (resolved_identity w) = Err err
  | (g', Ok p) =>
      registry_wf g' ∧ prepared_ok g' p ∧ reg_bindings g' = reg_bindings g ∧
      prepared_session p = s ∧ prepared_expected p = reg_bindings g !! s ∧
      binding_identity (prepared_binding p) = resolved_identity w ∧
      (candidate_is_provisional p = false → g' = g ∧ candidate_runtime_created p = false) ∧
      (candidate_is_provisional p = true →
         candidate_id p = fresh ∧
         reg_leases g' = <[fresh := binding_lease (prepared_binding p)]> (reg_leases g)) ∧
      (candidate_runtime_created p = false → same_runtimes g g') ∧
      (candidate_runtime_created p = true →
         reg_runtimes g !! resolved_identity w = None ∧
         mk (resolved_identity w) = Ok (binding_runtime (prepared_binding p)) ∧
         ∀ i, entry_runtime <$> reg_runtimes g' !! i =
              if decide (i = resolved_identity w) then Some (binding_runtime (prepared_binding p))
              else entry_runtime <$> reg_runtimes g !! i)
  end.
Proof.
  intros Hwf Hf. pose proof (prepare_spec mk fresh s w g Hwf Hf) as Hspec.
  destruct (prepare_activation mk fresh s w g) as [g' [p|err]] eqn:Heq; [|done].
  destruct Hspec as (Hwf' & _ & Hp & Hb & Hs & Hexp & Hi & Hid).
  split_and!; try done; revert Heq; unfold prepare_activation, py_bind, py_get, py_ret;
    cbn beta iota zeta;
    (destruct (reg_bindings g !! s) as [b|]; [case_bool_decide; [by intros [= <- <-]|]|]);
    rewrite acquire_eq; unfold base_entry;
    (destruct (reg_runtimes g !! resolved_identity w) as [e|] eqn:He; simpl;
     [|destruct (mk (resolved_identity w)) as [r|] eqn:Hmk; simpl; [|done]]);
    intros [= <- <-]; simpl; try done.
  all: try (intros _ i; simpl; rewrite lookup_insert; case_decide as Hii; [subst i; by rewrite He|done]).
  all: intros _; split_and!; [done..|]; intros i; rewrite lookup_insert;
    destruct (decide (resolved_identity w = i)), (decide (i = resolved_identity w)); by simplify_eq.
Qed.
End registry_exact.

(** ** What a lifecycle method gives up

    Every lifecycle method except [rebind] only gives bindings and workspaces
    up, and hands a decision to the service for each. *)

Section drops.
Context {B I R T : Type}.
Context `{!BindingLike B I R, !EqDecision I, !EqDecision R, !PyOrd T} (t_add : T → T → T).
Implicit Types L : @LeaseLifecycle B I R T.
Implicit Types d : @LeaseLifecycleDecision B I R T.

Definition bound_as L (id : uuid) (b : B) : Prop :=
  ∃ l, dict_get (ll_active L) id = Some l ∧ dl_binding l = Some b.

(** The decision releases the binding [b] of the lease [id]. *)
Definition names d (id : uuid) (b : B) : Prop := d_lease_id d = Some id ∧ d_binding_to_release d = Some b.

Record drops (new : gset uuid) L L' (ds : list (@LeaseLifecycleDecision B I R T)) : Prop := {
  dr_wf : lifecycle_wf L';
  dr_active : ∀ id, is_Some (dict_get (ll_active L') id) → is_Some (dict_get (ll_active L) id) ∨ id ∈ new;
  dr_expired : ∀ id, id ∈ ll_expired L' → id ∈ ll_expired L ∨ is_Some (dict_get (ll_active L) id);
  dr_bound : ∀ id b, bound_as L' id b → bound_as L id b;
  dr_lost : ∀ id b, bound_as L id b → bound_as L' id b ∨ ∃ d, d ∈ ds ∧ names d id b;
  dr_named : ∀ d b, d ∈ ds → d_binding_to_release d = Some b →
    ∃ id, d_lease_id d = Some id ∧ bound_as L id b ∧ ∀ b', ¬ bound_as L' id b';
  dr_runtime : ∀ i ws', dict_get (ll_workspaces L') i = Some ws' →
    ∃ ws, dict_get (ll_workspaces L) i = Some ws ∧ ws_runtime ws = ws_runtime ws';
  dr_forgot : ∀ i ws, dict_get (ll_workspaces L) i = Some ws → dict_get (ll_workspaces L') i = None →
    ∃ d, d ∈ ds ∧ d_identity d = Some i ∧ d_runtime_to_stop d = Some (ws_runtime ws);
  dr_stop : ∀ d i r, d ∈ ds → d_identity d = Some i → d_runtime_to_stop d = Some r →
    dict_get (ll_workspaces L') i = None ∧
    ∃ ws, dict_get (ll_workspaces L) i = Some ws ∧ ws_runtime ws = r;
}.

Lemma bound_as_fun L id b b' : bound_as L id b → bound_as L id b' → b = b'.
Proof. intros (l & Hl & Hb) (l' & Hl' & Hb'). congruence. Qed.

Lemma drops_refl L : lifecycle_wf L → drops ∅ L L [].
Proof. intros Hwf. split; try done; try set_solver; eauto; naive_solver. Qed.

Lemma drops_trans L L1 L2 ds1 ds2 :
  drops ∅ L L1 ds1 → drops ∅ L1 L2 ds2 → drops ∅ L L2 (ds1 ++ ds2).
Proof.
  intros D1 D2. split.
  - apply D2.
  - intros id [Ha|?]%(dr_active _ _ _ _ D2); [|set_solver]. by apply (dr_active _ _ _ _ D1).
  - intros id [He|Ha]%(dr_expired _ _ _ _ D2).
    + by apply (dr_expired _ _ _ _ D1) in He.
    + apply (dr_active _ _ _ _ D1) in Ha. set_solver.
  - intros id b Hb. by apply (dr_bound _ _ _ _ D1), (dr_bound _ _ _ _ D2).
  - intros id b [Hb|(d & Hd & Hn)]%(dr_lost _ _ _ _ D1).
    + apply (dr_lost _ _ _ _ D2) in Hb as [?|(d & Hd & Hn)]; [by left|]. right. exists d. set_solver.
    + right. exists d. set_solver.
  - intros d b [Hd|Hd]%elem_of_app Hb.
    + destruct (dr_named _ _ _ _ D1 d b Hd Hb) as (id & ? & ? & Hno). exists id. split_and!; [done..|].
      intros b' ?%(dr_bound _ _ _ _ D2). by eapply Hno.
    + destruct (dr_named _ _ _ _ D2 d b Hd Hb) as (id & ? & Hb1 & Hno). exists id. split_and!; [done| |done].
      by apply (dr_bound _ _ _ _ D1).
  - intros i ws2 (ws1 & H1 & E1)%(dr_runtime _ _ _ _ D2).
    destruct (dr_runtime _ _ _ _ D1 _ _ H1) as (ws & ? & ?). exists ws. split; [done|congruence].
  - intros i ws Hws Hnone. destruct (dict_get (ll_workspaces L1) i) as [ws1|] eqn:H1.
    + destruct (dr_forgot _ _ _ _ D2 _ _ H1 Hnone) as (d & Hd & Hi & Hr). exists d.
      destruct (dr_runtime _ _ _ _ D1 _ _ H1) as (ws' & Hws' & E). split; [set_solver|]. split; [done|]. congruence.
    + destruct (dr_forgot _ _ _ _ D1 _ _ Hws H1) as (d & Hd & ?). exists d. set_solver.
  - intros d i r [Hd|Hd]%elem_of_app Hi Hr.
    + destruct (dr_stop _ _ _ _ D1 d i r Hd Hi Hr) as [Hnone Hws]. split; [|done].
      destruct (dict_get (ll_workspaces L2) i) as [ws2|] eqn:H2; [|done].
      apply (dr_runtime _ _ _ _ D2) in H2 as (ws1 & ? & _). congruence.
    + destruct (dr_stop _ _ _ _ D2 d i r Hd Hi Hr) as [Hnone (ws1 & H1 & E1)]. split; [done|].
      apply (dr_runtime _ _ _ _ D1) in H1 as (ws & ? & ?). exists ws. split; [done|congruence].
Qed.

(** One lease leaves its workspace, ending or staying unbound. *)
Lemma decision_drops s id l now imm s' d :
  lifecycle_wf s → lifecycle_wf s' → dict_get (ll_active s) id = Some l →
  (∀ j, j ≠ id → dict_get (ll_active s') j = dict_get (ll_active s) j) →
  (∀ l', dict_get (ll_active s') id = Some l' → dl_binding l' = None) →
  ll_expired s' ⊆ {[id]} ∪ ll_expired s →
  decision_ok t_add s id l now imm s' d → drops ∅ s s' [d].
Proof.
  intros Hwf Hwf' Hl Hother Hself Hexp Hd.
  assert (∀ j b, bound_as s' j b → j ≠ id ∧ bound_as s j b) as Hb.
  { intros j b (l' & Hl' & Hb'). destruct (decide (j = id)) as [->|Hne].
    - apply Hself in Hl'. congruence.
    - split; [done|]. exists l'. by rewrite <-Hother. }
  split; try done.
  - intros j Hj. left. destruct (decide (j = id)) as [->|Hne]; [eauto|]. by rewrite <-Hother.
  - intros j [->%elem_of_singleton|?]%Hexp%elem_of_union; eauto.
  - intros j b Hj. by apply Hb.
  - intros j b (l' & Hl' & Hb'). destruct (decide (j = id)) as [->|Hne].
    + right. exists d. split; [by apply list_elem_of_singleton|].
      split; [apply Hd|]. rewrite (do_binding _ _ _ _ _ _ _ _ Hd). congruence.
    + left. exists l'. by rewrite Hother.
  - intros d' b ->%list_elem_of_singleton. rewrite (do_binding _ _ _ _ _ _ _ _ Hd). intros Hlb.
    exists id. split_and!; [apply Hd|by exists l|]. intros b' Hb'. by apply Hb in Hb' as [? _].
  - apply Hd.
  - intros i ws Hi Hn. exists d. split; [by apply list_elem_of_singleton|].
    by apply (do_kept _ _ _ _ _ _ _ _ Hd).
  - intros d' i r ->%list_elem_of_singleton Hi Hr. split.
    + destruct (do_gone _ _ _ _ _ _ _ _ Hd r Hr) as (i' & Hi' & ?). congruence.
    + apply (do_stop _ _ _ _ _ _ _ _ Hd) in Hr as (_ & b & Hlb & <- & _).
      rewrite (do_identity _ _ _ _ _ _ _ _ Hd) in Hi. unfold dl_identity in Hi. rewrite Hlb in Hi.
      simplify_eq/=. by apply (lw_bound _ Hwf id l b).
Qed.

Lemma expires_drops s id l now s' d :
  lifecycle_wf s → dict_get (ll_active s) id = Some l → expires t_add s id l now s' d → drops ∅ s s' [d].
Proof.
  intros Hwf Hl [Hwf' Hact Hexp _ Hd _]. eapply (decision_drops s id l); try done.
  - intros j Hj. rewrite Hact. by apply dict_get_del_ne.
  - intros l'. by rewrite Hact, dict_get_del_eq.
  - by rewrite Hexp.
Qed.

(** The outcome of demanding a live lease. *)
Lemma require_drops s id now :
  lifecycle_wf s →
  match _require_active_locked t_add id now s with
  | (s', Ok l) => s' = s ∧ dict_get (ll_active s) id = Some l ∧ py_ltb now (expires_at t_add l) = true
  | (s', Err (LeaseExpired id' od)) =>
      id' = id ∧ drops ∅ s s' (option_list od) ∧ dict_get (ll_active s') id = None ∧
      ∀ d, od = Some d → d_runtime_to_stop d = None ∧ d_lease_id d = Some id ∧
                          is_Some (dict_get (ll_active s) id)
  | (_, Err _) => False
  end.
Proof.
  intros Hwf. pose proof (require_active_spec t_add s id now Hwf) as Hr.
  destruct (dict_get (ll_active s) id) as [l|] eqn:Hl; [destruct (py_ltb now _) eqn:Hlive|].
  - by rewrite Hr.
  - destruct Hr as (s' & d & -> & Hex). split_and!; [done|by eapply expires_drops| |].
    + rewrite (ex_active _ _ _ _ _ _ _ Hex). apply dict_get_del_eq.
    + intros d' [= <-]. destruct Hex as [_ _ _ _ Hd _]. split; [|split; [apply Hd|eauto]].
      destruct (d_runtime_to_stop d) as [r|] eqn:Er; [|done].
      by apply (do_stop _ _ _ _ _ _ _ _ Hd) in Er as [? _].
  - rewrite Hr. split_and!; [done|by apply drops_refl|done|done].
Qed.

Lemma heartbeat_drops s id now :
  lifecycle_wf s →
  match heartbeat t_add now id s with
  | (s', Ok l) => drops ∅ s s' []
  | (s', Err (LeaseExpired id' od)) =>
      id' = id ∧ drops ∅ s s' (option_list od) ∧ dict_get (ll_active s') id = None ∧
      ∀ d, od = Some d → d_runtime_to_stop d = None ∧ d_lease_id d = Some id ∧
                          is_Some (dict_get (ll_active s) id)
  | (_, Err _) => False
  end.
Proof.
  intros Hwf. pose proof (require_drops s id now Hwf) as Hr. unfold heartbeat, py_bind.
  destruct (_require_active_locked t_add id now s) as [s' [l|e]] eqn:Heq; [|done].
  destruct Hr as (-> & Hl & Hlive).
  destruct (heartbeat_wf t_add s now id l Hwf Hl Hlive) as (s' & l' & Hhb & Hwf' & _ & Hb & Hact & Hexp & _ & Hws).
  unfold heartbeat, py_bind in Hhb. rewrite Heq in Hhb.
  destruct (py_modify _ s) as [? [|]]; [|done]. unfold py_ret in *. simplify_eq.
  assert (∀ j b, bound_as s' j b ↔ bound_as s j b) as Hbb.
  { intros j b. unfold bound_as. rewrite Hact. setoid_rewrite dict_get_set.
    destruct (decide (j = id)) as [->|]; naive_solver. }
  split; try done.
  - intros j. rewrite Hact, dict_get_set. case_decide; [subst; eauto|by left].
  - rewrite Hexp. by left.
  - intros j b. by rewrite Hbb.
  - intros j b. rewrite Hbb. by left.
  - set_solver.
  - rewrite Hws. eauto.
  - rewrite Hws. congruence.
  - set_solver.
Qed.

Lemma issue_drops s now fresh :
  lifecycle_wf s → fresh_id s fresh →
  ∃ s' l, acquire_lease now fresh None s = (s', Ok l) ∧ drops {[fresh]} s s' [].
Proof.
  intros Hwf Hf. destruct (issue_spec s now fresh None Hwf Hf ltac:(done)) as
    (s' & Heq & Hwf' & Hact & Hexp & _ & Hws).
  exists s', (new_lease s now fresh None). split; [done|]. destruct Hf as [Hnone _].
  assert (∀ j b, bound_as s' j b ↔ bound_as s j b) as Hbb.
  { intros j b. unfold bound_as. rewrite Hact. setoid_rewrite dict_get_set.
    destruct (decide (j = fresh)) as [->|]; naive_solver. }
  split; try done.
  - intros j. rewrite Hact, dict_get_set. case_decide; [set_solver|by left].
  - rewrite Hexp. by left.
  - intros j b. by rewrite Hbb.
  - intros j b. rewrite Hbb. by left.
  - set_solver.
  - rewrite Hws. eauto.
  - rewrite Hws. congruence.
  - set_solver.
Qed.

Lemma release_daemon_drops s now id imm :
  lifecycle_wf s →
  ∃ s' rr, release_daemon t_add now id imm s = (s', Ok rr) ∧ drops ∅ s s' (option_list (rr_decision rr)).
Proof.
  intros Hwf. unfold release_daemon, py_bind, py_get, py_modify, py_ret.
  destruct (dict_get (ll_active s) id) as [l|] eqn:Hl;
    [|do 2 eexists; split; [done|by apply drops_refl]].
  destruct (py_leb (expires_at t_add l) now).
  - destruct (expire_spec t_add s id l now Hwf Hl) as (s0 & d & -> & Hex).
    do 2 eexists. split; [done|]. by eapply expires_drops.
  - destruct (end_locked_spec t_add s id l RELEASED now imm Hwf Hl)
      as (s' & d & -> & Hwf' & Hact & Hexp & _ & Hd & _).
    do 2 eexists. split; [done|]. simpl. eapply (decision_drops s id l); try done.
    + intros j Hj. rewrite Hact. by apply dict_get_del_ne.
    + intros l'. by rewrite Hact, dict_get_del_eq.
    + rewrite Hexp. set_solver.
Qed.

Lemma release_workspace_drops s now id imm :
  lifecycle_wf s →
  match release_workspace t_add now id imm s with
  | (s', Ok rr) => drops ∅ s s' (option_list (rr_decision rr))
  | (s', Err (LeaseExpired id' od)) => drops ∅ s s' (option_list od)
  | (_, Err _) => False
  end.
Proof.
  intros Hwf. pose proof (require_drops s id now Hwf) as Hr.
  destruct (_require_active_locked t_add id now s) as [s' [l|e]] eqn:Heq.
  - destruct Hr as (-> & Hl & Hlive). destruct (dl_binding l) as [b|] eqn:Hb.
    + destruct (release_workspace_spec t_add s now id l b imm Hwf Hl Hlive Hb)
        as (s' & d & -> & Hwf' & Hact & Hexp & _ & Hd).
      simpl. eapply (decision_drops s id l); try done.
      * intros j Hj. rewrite Hact. by apply dict_get_set_ne.
      * intros l'. rewrite Hact, dict_get_set_eq. by intros [= <-].
      * rewrite Hexp. set_solver.
    + unfold release_workspace, py_bind. rewrite Heq, Hb. by apply drops_refl.
  - unfold release_workspace, py_bind. rewrite Heq. destruct e; naive_solver.
Qed.

Lemma sweep_leases_drops now ls : ∀ s,
  lifecycle_wf s → NoDup ls.*1 → (∀ id l, (id, l) ∈ ls → dict_get (ll_active s) id = Some l) →
  ∃ s' ds, sweep_leases t_add now ls.*2 s = (s', Ok ds) ∧ drops ∅ s s' ds ∧
           Forall (λ d, d_runtime_to_stop d = None) ds.
Proof.
  induction ls as [|[id l] ls IH]; intros s Hwf Hnd Hin; csimpl.
  { exists s, []. split_and!; [done|by apply drops_refl|constructor]. }
  apply NoDup_cons in Hnd as [Hfresh Hnd].
  assert (dict_get (ll_active s) id = Some l) as Hl by (apply Hin; left).
  destruct (py_leb (expires_at t_add l) now).
  - unfold py_bind at 1. rewrite (lw_ids _ Hwf _ _ Hl).
    destruct (expire_spec t_add s id l now Hwf Hl) as (s0 & d & -> & Hex).
    destruct (IH _ (ex_wf _ _ _ _ _ _ _ Hex) Hnd) as (s' & ds & Heq & Hdr & Hall).
    { intros j l' Hj. rewrite (ex_active _ _ _ _ _ _ _ Hex). rewrite dict_get_del_ne; [apply Hin; by right|].
      intros ->. apply Hfresh. apply list_elem_of_fmap. by exists (id, l'). }
    exists s', (d :: ds). unfold py_bind, py_modify, py_ret. rewrite Heq. split_and!; [done| |].
    + eapply (drops_trans _ _ _ [d] ds); [by eapply expires_drops|done].
    + constructor; [|done]. destruct (d_runtime_to_stop d) as [r|] eqn:Er; [|done].
      by apply (do_stop _ _ _ _ _ _ _ _ (ex_decision _ _ _ _ _ _ _ Hex)) in Er as [? _].
  - apply IH; [done..|]. intros j l' Hj. apply Hin. by right.
Qed.

Lemma grace_stop_drops s i ws :
  lifecycle_wf s → dict_get (ll_workspaces s) i = Some ws → ws_holders ws = ∅ →
  drops ∅ s (set_workspaces (λ x, dict_del x i) s) [grace_stop i ws].
Proof.
  intros Hwf Hws Hempty. split; simpl; try done.
  - by apply (forget_wf s i ws).
  - by left.
  - by left.
  - by left.
  - by intros d b ->%list_elem_of_singleton.
  - intros j ws'. rewrite dict_get_del. case_decide; [done|eauto].
  - intros j ws'. rewrite dict_get_del. case_decide; [|congruence]. intros Hj _.
    exists (grace_stop i ws). split_and!; [by apply list_elem_of_singleton|simpl; congruence|simpl; congruence].
  - intros d j r ->%list_elem_of_singleton [= <-] [= <-]. rewrite dict_get_del_eq. eauto.
Qed.

Lemma sweep_workspaces_drops now wss : ∀ s,
  lifecycle_wf s → NoDup wss.*1 → (∀ i ws, (i, ws) ∈ wss → dict_get (ll_workspaces s) i = Some ws) →
  ∃ s' ds, sweep_workspaces now wss s = (s', Ok ds) ∧ drops ∅ s s' ds ∧
           Forall (λ d, d_binding_to_release d = None) ds.
Proof.
  induction wss as [|[i ws] wss IH]; intros s Hwf Hnd Hin; csimpl.
  { exists s, []. split_and!; [done|by apply drops_refl|constructor]. }
  apply NoDup_cons in Hnd as [Hfresh Hnd].
  assert (dict_get (ll_workspaces s) i = Some ws) as Hws by (apply Hin; left).
  destruct (grace_elapsed now ws) eqn:Hel.
  - assert (ws_holders ws = ∅) as Hempty.
    { unfold grace_elapsed in Hel. case_match; [|done]. apply andb_true_iff in Hel as [Hh _].
      by apply bool_decide_eq_true in Hh. }
    destruct (IH _ (forget_wf s i ws Hwf Hws Hempty) Hnd) as (s' & ds & Heq & Hdr & Hall).
    { intros j ws' Hj. simpl. rewrite dict_get_del_ne; [apply Hin; by right|].
      intros ->. apply Hfresh. apply list_elem_of_fmap. by exists (i, ws'). }
    exists s', (grace_stop i ws :: ds). unfold py_bind, py_modify, py_ret. rewrite Heq.
    split_and!; [done| |by constructor].
    eapply (drops_trans _ _ _ [grace_stop i ws] ds); [by apply grace_stop_drops|done].
  - apply IH; [done..|]. intros j ws' Hj. apply Hin. by right.
Qed.

Lemma sweep_drops s now :
  lifecycle_wf s →
  ∃ s' eds gds, sweep t_add now s = (s', Ok (eds ++ gds)) ∧ drops ∅ s s' (eds ++ gds) ∧
    Forall (λ d, d_runtime_to_stop d = None) eds ∧ Forall (λ d, d_binding_to_release d = None) gds.
Proof.
  intros Hwf. destruct (sweep_leases_drops now (ll_active s) s Hwf) as (s1 & eds & Heq & D1 & Hall);
    [apply Hwf| |].
  { intros id l. apply dict_get_elem, Hwf. }
  destruct (sweep_workspaces_drops now (ll_workspaces s1) s1 (dr_wf _ _ _ _ D1)) as (s2 & gds & Heq2 & D2 & Hall2);
    [apply (dr_wf _ _ _ _ D1)| |].
  { intros i ws. apply dict_get_elem, (dr_wf _ _ _ _ D1). }
  exists s2, eds, gds. unfold sweep, py_bind, py_get, py_ret. rewrite Heq, Heq2.
  split_and!; [done|by eapply drops_trans|done|done].
Qed.
End drops.

(** ** The coupling invariant *)

Section coupling.
Context {I R P T : Type}.
Context `{Countable I, EqDecision R, EqDecision P, !PyOrd T} (t_add : T → T → T).

Abbreviation Binding := (WorkspaceBinding I R P).
Abbreviation Life := (@LeaseLifecycle Binding I R T).
Abbreviation Dec := (@LeaseLifecycleDecision Binding I R T).
Abbreviation Reg := (Registry I R uuid P).
Abbreviation Svc := (@WorkspaceDaemonService I R P T _ _).
Abbreviation Phase := (@phase I R P).
Abbreviation World := (@service_world I R P T _ _).
Implicit Types (L : Life) (g : Reg) (todo : list Dec) (ph : Phase) (d : Dec) (b : Binding).
Implicit Types (w : World) (used : gset uuid).

(** The registry lease a binding holds. *)
Definition blid b : uuid := lease_id (binding_lease b).

(** [id] holds [b], or held it and a decision to release it is on its way. *)
Definition owner L todo (id : uuid) b : Prop := bound_as L id b ∨ ∃ d, d ∈ todo ∧ names d id b.

Definition rebinding ph (id : uuid) : Prop :=
  match ph with Rebinding id' _ _ => id' = id | _ => False end.

(** The provisional lease of a running activation. *)
Definition candidate ph : option uuid :=
  match ph with
  | Refreshing _ p | Committing _ p => if candidate_is_provisional p then Some (candidate_id p) else None
  | _ => None
  end.

Definition untracked L (i : I) : Prop := dict_get (ll_workspaces L) i = None.

Definition created_ok L (p : PreparedActivation I R uuid P) : Prop :=
  candidate_runtime_created p = true → untracked L (binding_identity (prepared_binding p)).

Record prepared_current L g todo (id : uuid) (p : PreparedActivation I R uuid P) : Prop := {
  pc_session : prepared_session p = id;
  pc_ok : prepared_ok g p;
  pc_expected : prepared_expected p = reg_bindings g !! id;
  pc_live : candidate_is_provisional p = true →
    reg_leases g !! candidate_id p = Some (binding_lease (prepared_binding p)) ∧
    ∀ id' b, owner L todo id' b → blid b ≠ candidate_id p;
  pc_created : created_ok L p;
}.

Definition phase_ok L g todo ph : Prop :=
  match ph with
  | Unlocked | Preparing _ _ => True
  | Refreshing id p | Committing id p => prepared_current L g todo id p
  | Rebinding id p b => b = prepared_binding p ∧ reg_bindings g !! id = Some b ∧ created_ok L p
  end.

(** Lifecycle [L] and registry [g] agree, up to the decisions in [todo] that
    are not applied yet and the activation in phase [ph]; [used] are the ids
    [uuid4] has returned. *)
Record coupled L g ph todo used : Prop := {
  cp_life : lifecycle_wf L;
  cp_reg : registry_wf g;
  (** a tracked workspace is served by its registered runtime *)
  cp_tracked : ∀ i ws, dict_get (ll_workspaces L) i = Some ws →
    ∃ e, reg_runtimes g !! i = Some e ∧ entry_runtime e = ws_runtime ws;
  (** a live lease is bound in the registry as it is in the lifecycle *)
  cp_live : ∀ id b, bound_as L id b → ¬ rebinding ph id → reg_bindings g !! id = Some b;
  cp_owned : ∀ id b, reg_bindings g !! id = Some b → owner L todo id b ∨ rebinding ph id;
  (** nobody else is bound through the registry lease of an owner *)
  cp_sole : ∀ id b s b', owner L todo id b → reg_bindings g !! s = Some b' → blid b' = blid b → s = id;
  (** every registry lease is bound or provisional *)
  cp_leases : ∀ lid l, reg_leases g !! lid = Some l →
    (∃ s b, reg_bindings g !! s = Some b ∧ blid b = lid) ∨ candidate ph = Some lid;
  (** an object serves one identity *)
  cp_objects : ∀ i j e e', reg_runtimes g !! i = Some e → reg_runtimes g !! j = Some e' →
    entry_runtime e = entry_runtime e' → i = j;
  cp_named : ∀ d b, d ∈ todo → d_binding_to_release d = Some b →
    ∃ id, d_lease_id d = Some id ∧ ∀ b', ¬ bound_as L id b';
  cp_stops : ∀ d i r, d ∈ todo → d_identity d = Some i → d_runtime_to_stop d = Some r →
    untracked L i ∧ ∀ e, reg_runtimes g !! i = Some e → entry_runtime e = r;
  cp_used : dom (reg_leases g) ⊆ used;
  cp_active_used : ∀ id, is_Some (dict_get (ll_active L) id) ∨ id ∈ ll_expired L → id ∈ used;
  cp_owner_used : ∀ id b, owner L todo id b → blid b ∈ used;
  cp_phase : phase_ok L g todo ph;
}.

Lemma owner_todo L todo1 todo2 id b :
  (∀ d, d ∈ todo1 → d ∈ todo2) → owner L todo1 id b → owner L todo2 id b.
Proof. intros Hsub [?|(d & Hd & ?)]; [by left|right; eauto]. Qed.

Lemma owner_drops new L L' todo ds id b :
  drops new L L' ds → owner L' (todo ++ ds) id b → owner L todo id b.
Proof.
  intros D [Hb|(d & [Hd|Hd]%elem_of_app & Hn)].
  - left. by apply (dr_bound _ _ _ _ D).
  - right. eauto.
  - destruct Hn as [Hid Hb]. destruct (dr_named _ _ _ _ D d b Hd Hb) as (id' & Hid' & ? & _). left. congruence.
Qed.

Lemma untracked_drops new L L' ds i : drops new L L' ds → untracked L i → untracked L' i.
Proof.
  intros D. unfold untracked. intros Hn. destruct (dict_get (ll_workspaces L') i) as [ws|] eqn:Hws; [|done].
  apply (dr_runtime _ _ _ _ D) in Hws as (? & ? & _). congruence.
Qed.

Lemma phase_drops new L L' g todo ds ph :
  drops new L L' ds → phase_ok L g todo ph → phase_ok L' g (todo ++ ds) ph.
Proof.
  intros D. assert (∀ p, created_ok L p → created_ok L' p) as Hcr.
  { intros p Hp Hc. by apply (untracked_drops _ _ _ _ _ D), Hp. }
  assert (∀ id p, prepared_current L g todo id p → prepared_current L' g (todo ++ ds) id p) as Hpc.
  { intros id p [? ? ? Hl ?]. split; [done..| |by auto]. intros Hprov. destruct (Hl Hprov) as [? Hne].
    split; [done|]. intros id' b Ho. by eapply Hne, owner_drops. }
  destruct ph; naive_solver.
Qed.

(** A lifecycle method moves what it gives up into the decisions to apply. *)
Lemma coupled_drops new L L' g ph todo ds used :
  coupled L g ph todo used → drops new L L' ds → coupled L' g ph (todo ++ ds) (new ∪ used).
Proof.
  intros [Hl Hr Htr Hlive Hown Hsole Hle Hobj Hnam Hst Hu Hau Hou Hph] D.
  assert (∀ id b, owner L' (todo ++ ds) id b → owner L todo id b) as Hback by eauto using owner_drops.
  split.
  - apply D.
  - done.
  - intros i ws' (ws & Hws & <-)%(dr_runtime _ _ _ _ D). eauto.
  - intros id b Hb. by apply Hlive, (dr_bound _ _ _ _ D).
  - intros id b [[Hb|(d & Hd & Hn)]|?]%Hown; [| |by right].
    + left. apply (dr_lost _ _ _ _ D) in Hb as [?|(d & Hd & Hn)]; [by left|].
      right. exists d. split; [apply elem_of_app; by right|done].
    + left. right. exists d. split; [apply elem_of_app; by left|done].
  - intros id b s b' Ho. by apply Hsole, Hback.
  - done.
  - done.
  - intros d b [Hd|Hd]%elem_of_app Hb.
    + destruct (Hnam d b Hd Hb) as (id & ? & Hno). exists id. split; [done|].
      intros b' ?%(dr_bound _ _ _ _ D). by eapply Hno.
    + destruct (dr_named _ _ _ _ D d b Hd Hb) as (id & ? & _ & ?). eauto.
  - intros d i r [Hd|Hd]%elem_of_app Hi Hs.
    + destruct (Hst d i r Hd Hi Hs). split; [by eapply untracked_drops|done].
    + destruct (dr_stop _ _ _ _ D d i r Hd Hi Hs) as [? (ws & Hws & <-)]. split; [done|].
      intros e He. destruct (Htr _ _ Hws) as (e' & ? & ?). congruence.
  - set_solver.
  - intros id [[Ha|?]%(dr_active _ _ _ _ D)|[Ha|Ha]%(dr_expired _ _ _ _ D)]; apply elem_of_union; auto.
  - intros id b Ho%Hback. apply elem_of_union_r. by eapply Hou.
  - by eapply phase_drops.
Qed.

(** Only membership in [todo] matters. *)
Lemma coupled_todo L g ph todo todo' used :
  (∀ d, d ∈ todo ↔ d ∈ todo') → coupled L g ph todo used → coupled L g ph todo' used.
Proof.
  intros Heq [Hl Hr Htr Hlive Hown Hsole Hle Hobj Hnam Hst Hu Hau Hou Hph].
  assert (∀ id b, owner L todo' id b ↔ owner L todo id b) as Ho.
  { intros id b. split; apply owner_todo; intros d; by rewrite Heq. }
  split; try done.
  - intros id b. rewrite Ho. apply Hown.
  - intros id b s b'. rewrite Ho. apply Hsole.
  - intros d b Hd%Heq. by apply Hnam.
  - intros d i r Hd%Heq. by apply Hst.
  - intros id b. rewrite Ho. apply Hou.
  - assert (∀ id p, prepared_current L g todo id p → prepared_current L g todo' id p) as Hpc.
    { intros id p [? ? ? Hlv ?]. split; [done..| |by auto]. intros Hprov. destruct (Hlv Hprov) as [? Hne].
      split; [done|]. intros id' b. rewrite Ho. apply Hne. }
    destruct ph; naive_solver.
Qed.

(** What applying decisions does to the registered runtimes: some are detached,
    nothing else changes. *)
Record detaches g g' (rs : list R) : Prop := {
  dt_sub : ∀ r, registered g' r → registered g r;
  dt_gone : ∀ r, r ∈ rs → registered g r ∧ ¬ registered g' r;
}.

Lemma detaches_trans g g1 g2 rs1 rs2 :
  detaches g g1 rs1 → detaches g1 g2 rs2 → detaches g g2 (rs1 ++ rs2).
Proof.
  intros [Hs1 Hg1] [Hs2 Hg2]. split; [by auto|].
  intros r [Hr|Hr]%elem_of_app.
  - destruct (Hg1 r Hr). split; [done|]. by intros ?%Hs2.
  - destruct (Hg2 r Hr). split; [by apply Hs1|done].
Qed.

Lemma same_runtimes_registered g g' r : same_runtimes g g' → registered g' r → registered g r.
Proof. intros Hs (i & e & He & <-). destruct (same_runtimes_some _ _ _ _ Hs He) as (e' & ? & ?). exists i, e'. done. Qed.

Lemma same_runtimes_detaches g g' : same_runtimes g g' → detaches g g' [].
Proof. intros Hs. split; [by intros r; apply same_runtimes_registered|set_solver]. Qed.

(** Registry changes that only give something up, outside an activation. *)
Lemma coupled_shrink L g g' ph todo todo' used :
  coupled L g ph todo used → registry_wf g' →
  (∀ d, d ∈ todo' → d ∈ todo) →
  (∀ i e', reg_runtimes g' !! i = Some e' →
     ∃ e, reg_runtimes g !! i = Some e ∧ entry_runtime e = entry_runtime e') →
  (∀ i ws, dict_get (ll_workspaces L) i = Some ws → is_Some (reg_runtimes g' !! i)) →
  reg_leases g' ⊆ reg_leases g → reg_bindings g' ⊆ reg_bindings g →
  (∀ id b, bound_as L id b → reg_bindings g' !! id = Some b) →
  (∀ id b, reg_bindings g' !! id = Some b → owner L todo' id b) →
  (∀ lid l, reg_leases g' !! lid = Some l → ∃ s b, reg_bindings g' !! s = Some b ∧ blid b = lid) →
  coupled L g' Unlocked todo' used.
Proof.
  intros [Hl Hr Htr Hlive Hown Hsole Hle Hobj Hnam Hst Hu Hau Hou Hph] Hwf Htodo Hrt Hkeep Hls Hbs Hlive' Hown' Hle'.
  split; try done.
  - intros i ws Hws. destruct (Hkeep i ws Hws) as [e' He']. exists e'. split; [done|].
    destruct (Hrt _ _ He') as (e & He & <-). destruct (Htr _ _ Hws) as (e0 & ? & ?). congruence.
  - intros id b. by auto.
  - intros id b Hb. left. by apply Hown'.
  - intros id b s b' Ho Hs. eapply Hsole; [by eapply owner_todo|by eapply lookup_weaken].
  - intros lid l Hlid. left. by eapply Hle'.
  - intros i j e e' He He' Heq. destruct (Hrt _ _ He) as (e0 & ? & ?), (Hrt _ _ He') as (e0' & ? & ?).
    eapply Hobj; [done..|congruence].
  - intros d b Hd. by apply Hnam, Htodo.
  - intros d i r Hd Hi Hs. destruct (Hst d i r (Htodo _ Hd) Hi Hs) as [? He]. split; [done|].
    intros e' He'. destruct (Hrt _ _ He') as (e & ? & <-). by apply He.
  - etrans; [|exact Hu]. by apply subseteq_dom.
  - intros id b Ho. eapply Hou, owner_todo; [|done]. done.
Qed.

Lemma same_runtimes_keep L g g' ph todo used i ws :
  coupled L g ph todo used → same_runtimes g g' →
  dict_get (ll_workspaces L) i = Some ws → is_Some (reg_runtimes g' !! i).
Proof.
  intros Hc Hs Hws. destruct (cp_tracked _ _ _ _ _ Hc _ _ Hws) as (e & He & _).
  specialize (Hs i). rewrite He in Hs. destruct (reg_runtimes g' !! i); [eauto|done].
Qed.

Lemma live_unlocked L g todo used id b :
  coupled L g Unlocked todo used → bound_as L id b → reg_bindings g !! id = Some b.
Proof. intros Hc Hb. apply (cp_live _ _ _ _ _ Hc); [done|by intros []]. Qed.

(** The registry part of one decision: release the binding's lease... *)
Lemma coupled_release_lease L g d todo used b :
  coupled L g Unlocked (d :: todo) used → d_binding_to_release d = Some b →
  ∃ g' r, release_lease (blid b) g = (g', Ok r) ∧ coupled L g' Unlocked todo used ∧ same_runtimes g g'.
Proof.
  intros Hc Hb. pose proof (λ id b, live_unlocked _ _ _ _ id b Hc) as Hlive. pose proof Hc as [Hl Hr Htr _ Hown Hsole Hle _ Hnam _ _ _ _ _].
  destruct (Hnam d b ltac:(left) Hb) as (id & Hid & Hno).
  assert (owner L (d :: todo) id b) as Ho by (right; exists d; split; [left|done]).
  destruct (release_lease_exact (blid b) g Hr) as (g' & r & Heq & Hwf & Hls & Hbs & Hs).
  exists g', r. split_and!; [done| |done]. eapply (coupled_shrink L g g' Unlocked (d :: todo)); try done.
  - intros d' Hd'. by right.
  - intros i e'. by apply same_runtimes_some.
  - intros i ws. by eapply same_runtimes_keep.
  - rewrite Hls. apply delete_subseteq.
  - apply map_subseteq_spec. intros s b' Hs'. by apply Hbs in Hs' as [? _].
  - intros id' b' Hb'. apply Hbs. split; [by apply Hlive|]. intros Heq'.
    assert (id' = id) as -> by (eapply Hsole; [done|by apply Hlive|done]). by eapply Hno.
  - intros id' b' [Hb' Hne]%Hbs. apply Hown in Hb' as [[?|(d' & Hd' & Hn)]|[]]; [by left|].
    apply elem_of_cons in Hd' as [->|Hd']; [|right; eauto]. destruct Hn as [_ Hn]. unfold blid in Hne. congruence.
  - intros lid l. rewrite Hls. intros [Hne Hlid]%lookup_delete_Some.
    destruct (Hle _ _ Hlid) as [(s & b' & Hs' & <-)|?]; [|done]. exists s, b'. split; [|done].
    apply Hbs. done.
Qed.

Lemma coupled_no_binding L g d todo used :
  coupled L g Unlocked (d :: todo) used → d_binding_to_release d = None → coupled L g Unlocked todo used.
Proof.
  intros Hc Hb. pose proof (λ id b, live_unlocked _ _ _ _ id b Hc) as Hlive. pose proof Hc as [Hl Hr Htr _ Hown Hsole Hle _ Hnam _ _ _ _ _].
  eapply (coupled_shrink L g g Unlocked (d :: todo)); try done.
  - intros d' Hd'. by right.
  - eauto.
  - intros i ws Hws. destruct (Htr _ _ Hws) as (e & ? & _). eauto.
  - intros id' b' [[?|(d' & Hd' & Hn)]|[]]%Hown; [by left|].
    apply elem_of_cons in Hd' as [->|Hd']; [|right; eauto]. destruct Hn as [_ Hn]. congruence.
  - intros lid l Hlid. destruct (Hle _ _ Hlid) as [?|?]; done.
Qed.

(** ... and retire the runtime of a workspace no longer tracked. *)
Lemma coupled_retire L g todo used i r :
  coupled L g Unlocked todo used → untracked L i →
  ∃ g' o, retire_idle i r g = (g', Ok o) ∧ coupled L g' Unlocked todo used ∧
    detaches g g' (option_runtime o) ∧ reg_bindings g' = reg_bindings g ∧ reg_leases g' = reg_leases g.
Proof.
  intros Hc Hun. pose proof (λ id b, live_unlocked _ _ _ _ id b Hc) as Hlive. pose proof Hc as [Hl Hr Htr _ Hown Hsole Hle Hobj Hnam _ _ _ _ _].
  destruct (retire_idle_spec i r g Hr) as (g' & o & Heq & Hwf & _ & Hls & Hbs & Ho).
  exists g', o. split_and!; [done| | |done|done].
  2: { destruct o as [r'|]; [|subst g'; by apply same_runtimes_detaches].
       destruct Ho as (-> & _ & (e & He & <-) & Hdel). split.
       - intros r' (j & e' & He' & <-). rewrite Hdel in He'. apply lookup_delete_Some in He' as [_ ?].
         by exists j, e'.
       - intros r' ->%list_elem_of_singleton. split; [by exists i, e|].
         intros (j & e' & He' & Heq'). rewrite Hdel in He'. apply lookup_delete_Some in He' as [Hne He'].
         by apply Hne, (Hobj _ _ _ _ He He'). }
  destruct o as [r'|]; [|by subst g']. destruct Ho as (_ & _ & _ & Hdel).
  eapply (coupled_shrink L g g' Unlocked todo); try done.
  - intros j e'. rewrite Hdel. intros [_ ?]%lookup_delete_Some. eauto.
  - intros j ws Hws. destruct (Htr _ _ Hws) as (e & He & _). rewrite Hdel, lookup_delete_ne; [eauto|].
    intros <-. unfold untracked in Hun. congruence.
  - by rewrite Hls.
  - by rewrite Hbs.
  - intros id b Hbb. rewrite Hbs. by apply Hlive.
  - intros id b. rewrite Hbs. by intros [?|[]]%Hown.
  - intros lid l. rewrite Hls, Hbs. by intros [?|?]%Hle.
Qed.

(** *** Accounting for the registered runtimes

    A registered runtime is accounted for when its workspace is tracked, when a
    decision to stop it is still to be applied, or when the running activation
    created it. *)

Definition made_here ph (i : I) : Prop :=
  match ph with
  | Refreshing _ p | Committing _ p | Rebinding _ p _ =>
      candidate_runtime_created p = true ∧ binding_identity (prepared_binding p) = i
  | _ => False
  end.

Definition stopped_by todo (i : I) (r : R) : Prop :=
  ∃ d, d ∈ todo ∧ d_identity d = Some i ∧ d_runtime_to_stop d = Some r.

Definition accounted L g ph todo : Prop :=
  ∀ i e, reg_runtimes g !! i = Some e →
    ¬ untracked L i ∨ stopped_by todo i (entry_runtime e) ∨ made_here ph i.

Lemma accounted_drops new L L' g ph todo used ds :
  coupled L g ph todo used → drops new L L' ds → accounted L g ph todo → accounted L' g ph (ds ++ todo).
Proof.
  intros Hc D Ha i e He. unfold untracked. destruct (dict_get (ll_workspaces L') i) as [ws'|] eqn:Hws'; [by left|right].
  destruct (Ha i e He) as [Htr|[(d & Hd & ?)|?]].
  - destruct (dict_get (ll_workspaces L) i) as [ws|] eqn:Hws; [|done]. left.
    destruct (dr_forgot _ _ _ _ D _ _ Hws Hws') as (d & Hd & Hi & Hr). exists d.
    destruct (cp_tracked _ _ _ _ _ Hc _ _ Hws) as (e' & He' & Heq).
    split_and!; [apply elem_of_app; by left|done|]. congruence.
  - left. exists d. split; [apply elem_of_app; by right|done].
  - by right.
Qed.

Lemma accounted_same L g g' ph todo : same_runtimes g g' → accounted L g ph todo → accounted L g' ph todo.
Proof. intros Hs Ha i e' He'. destruct (same_runtimes_some _ _ _ _ Hs He') as (e & He & <-). by apply Ha. Qed.

(** Outside an activation, a runtime whose workspace is untracked and whose
    leases nobody is about to release can be retired. *)
Lemma retire_succeeds L g g' todo used i r o :
  coupled L g Unlocked todo used → untracked L i →
  (∀ d b, d ∈ todo → d_binding_to_release d = Some b → binding_identity b ≠ i) →
  (∀ e, reg_runtimes g !! i = Some e → entry_runtime e = r) →
  retire_idle i r g = (g', Ok o) → reg_runtimes g' = delete i (reg_runtimes g).
Proof.
  intros [Hl Hr _ _ Hown _ Hle _ _ _ _ _ _ _] Hun Hno Hrt. unfold retire_idle, py_bind, py_get, py_modify, py_ret.
  cbn beta iota. destruct (reg_runtimes g !! i) as [e|] eqn:He; [|intros [= <- _]; by rewrite delete_id].
  rewrite decide_False by (intros Hn; by apply Hn, Hrt).
  rewrite decide_False; [by intros [= <- _]|]. rewrite (core_count _ (wf_core _ Hr) _ _ He). intros Hn. apply Hn.
  change 0 with (Z.of_nat 0). f_equal. unfold lease_count. apply map_size_empty_iff, map_empty. intros lid.
  apply map_lookup_filter_None. right. intros l Hlid Hi; simpl in Hi.
  destruct (Hle _ _ Hlid) as [(s & b & Hs & Hb)|?]; [|done].
  pose proof (wf_bound_live _ Hr _ _ Hs) as Hl'. unfold blid in Hb. rewrite Hb, Hlid in Hl'. injection Hl' as ->.
  apply Hown in Hs as [[(l & Ha & Hlb)|(d & Hd & _ & Hdb)]|[]]; [|by eapply Hno].
  destruct (lw_bound _ Hl _ _ _ Ha Hlb) as (ws & Hws & _).
  change (bl_identity b) with (lease_identity (binding_lease b)) in Hws. rewrite Hi in Hws.
  unfold untracked in Hun. congruence.
Qed.

Definition with_registry (s : Svc) g : Svc :=
  {| sv_lifecycle := sv_lifecycle s; sv_registry := g; sv_pending_stops := sv_pending_stops s |}.

Lemma on_registry_eq {A} (m : PyM Reg registry_error A) (s : Svc) g a :
  m (sv_registry s) = (g, Ok a) → on_registry m s = (with_registry s g, Ok a).
Proof. intros Heq. unfold on_registry. by rewrite Heq. Qed.

Lemma retire_section s L todo used i r :
  coupled L (sv_registry s) Unlocked todo used → untracked L i →
  ∃ g rs, (let! detached := on_registry (retire_idle i r) in py_ret (option_runtime detached))%py s
            = (with_registry s g, Ok rs) ∧
    coupled L g Unlocked todo used ∧ detaches (sv_registry s) g rs ∧
    ∃ o, retire_idle i r (sv_registry s) = (g, Ok o).
Proof.
  intros Hc Hun. destruct (coupled_retire L _ todo used i r Hc Hun) as (g & o & Heq & Hc' & Hd & _).
  exists g, (option_runtime o). unfold py_bind, py_ret. rewrite (on_registry_eq _ _ _ _ Heq). eauto.
Qed.

(** Retiring an untracked runtime leaves the others accounted for. *)
Lemma accounted_retire L g g' todo todo' used i r o ph :
  coupled L g Unlocked todo' used → untracked L i →
  (∀ d b, d ∈ todo' → d_binding_to_release d = Some b → binding_identity b ≠ i) →
  (∀ e, reg_runtimes g !! i = Some e → entry_runtime e = r) →
  retire_idle i r g = (g', Ok o) → accounted L g ph todo →
  (∀ j x, j ≠ i → stopped_by todo j x → stopped_by todo' j x) → (∀ j, j ≠ i → ¬ made_here ph j) →
  accounted L g' Unlocked todo'.
Proof.
  intros Hc Hun Hno Hrt Heq Ha Hst Hmade j e. rewrite (retire_succeeds _ _ _ _ _ _ _ _ Hc Hun Hno Hrt Heq).
  intros [Hne He]%lookup_delete_Some. destruct (Ha j e He) as [?|[?|Hm]]; [by left| |].
  - right. left. by apply Hst.
  - by destruct (Hmade j).
Qed.

Definition no_stop d : Prop := d_runtime_to_stop d = None.
Definition no_release d : Prop := d_binding_to_release d = None.

(** [_apply_decision_locked] never raises, keeps lifecycle and registry coupled,
    and returns runtimes that are no longer registered. *)
Lemma apply_decision_spec s L od todo used :
  coupled L (sv_registry s) Unlocked (option_list od ++ todo) used →
  ∃ g rs, _apply_decision_locked od s = (with_registry s g, Ok rs) ∧
    coupled L g Unlocked todo used ∧ detaches (sv_registry s) g rs ∧
    (accounted L (sv_registry s) Unlocked (option_list od ++ todo) →
     Forall no_release todo ∨ Forall no_stop (option_list od) → accounted L g Unlocked todo).
Proof.
  destruct od as [d|]; simpl; intros Hc.
  2: { exists (sv_registry s), []. split_and!; [by destruct s|done| |done]. by apply same_runtimes_detaches. }
  assert (∃ g1, match d_binding_to_release d with
      | Some b => (on_registry (release_lease (lease_id (binding_lease b))) ;; py_ret tt)%py
      | None => py_ret tt
      end s = (with_registry s g1, Ok tt) ∧ coupled L g1 Unlocked todo used ∧
      same_runtimes (sv_registry s) g1) as (g1 & Heq1 & Hc1 & Hs1).
  { destruct (d_binding_to_release d) as [b|] eqn:Hb.
    - destruct (coupled_release_lease L _ d todo used b Hc Hb) as (g1 & r & Heq & ? & ?).
      exists g1. unfold py_bind. unfold blid in Heq. by rewrite (on_registry_eq _ _ _ _ Heq).
    - exists (sv_registry s). split_and!; [by destruct s|by eapply coupled_no_binding|done]. }
  unfold py_bind at 1. rewrite Heq1. pose proof (same_runtimes_detaches _ _ Hs1) as Hd1.
  assert (∀ j x, stopped_by (d :: todo) j x →
            (d_identity d = Some j ∧ d_runtime_to_stop d = Some x) ∨ stopped_by todo j x) as Hcons.
  { intros j x (d' & [->|Hd']%elem_of_cons & ?); [by left|]. right. by exists d'. }
  assert (d_identity d = None ∨ d_runtime_to_stop d = None →
    accounted L (sv_registry s) Unlocked (d :: todo) → accounted L g1 Unlocked todo) as Hkeep.
  { intros Hnone Ha j e' He'. destruct (same_runtimes_some _ _ _ _ Hs1 He') as (e & He & <-).
    destruct (Ha j e He) as [?|[[[Hx Hy]|?]%Hcons|[]]]; [by left| |right; by left].
    destruct Hnone; congruence. }
  destruct (d_identity d) as [i|] eqn:Hi; [|exists g1, []; split_and!; auto].
  destruct (d_runtime_to_stop d) as [r|] eqn:Hr; [|exists g1, []; split_and!; auto].
  destruct (cp_stops _ _ _ _ _ Hc d i r ltac:(left) Hi Hr) as [Hun Hrt].
  destruct (retire_section (with_registry s g1) L todo used i r Hc1 Hun) as (g2 & rs & -> & Hc2 & Hd2 & o & Heq2).
  exists g2, rs. split_and!; [done|done|by apply (detaches_trans _ g1 _ [])|].
  intros Ha Hor. apply (accounted_retire L g1 g2 (d :: todo) todo used i r o Unlocked); try done.
  - intros d' b Hd' Hb. destruct Hor as [Hor|Hor].
    + rewrite Forall_forall in Hor. specialize (Hor d' Hd'). unfold no_release in Hor. congruence.
    + apply Forall_cons in Hor as [Hor _]. unfold no_stop in Hor. congruence.
  - intros e' He'. destruct (same_runtimes_some _ _ _ _ Hs1 He') as (e & He & <-). by apply Hrt.
  - by eapply accounted_same.
  - intros j x Hne [[? _]|?]%Hcons; [congruence|done].
  - by intros j _ [].
Qed.

(** Decisions in an order in which no stop comes before a release. *)
Fixpoint releases_first (ds : list Dec) : Prop :=
  match ds with
  | [] => True
  | d :: ds => (Forall no_release ds ∨ no_stop d) ∧ releases_first ds
  end.

Lemma releases_first_app eds gds :
  Forall no_stop eds → Forall no_release gds → releases_first (eds ++ gds).
Proof.
  intros He Hg. induction He as [|d eds Hd He IH]; simpl.
  - induction Hg as [|d gds Hd Hg IH]; simpl; [done|]. split; [by left|done].
  - split; [by right|done].
Qed.

Lemma apply_decisions_spec L todo used ds : ∀ s,
  coupled L (sv_registry s) Unlocked (ds ++ todo) used →
  ∃ g rs, _apply_decisions_locked ds s = (with_registry s g, Ok rs) ∧
    coupled L g Unlocked todo used ∧ detaches (sv_registry s) g rs ∧
    (accounted L (sv_registry s) Unlocked (ds ++ todo) → todo = [] → releases_first ds →
     accounted L g Unlocked todo).
Proof.
  induction ds as [|d ds IH]; intros s Hc.
  { exists (sv_registry s), []. split_and!; [by destruct s|done| |done]. by apply same_runtimes_detaches. }
  destruct (apply_decision_spec s L (Some d) (ds ++ todo) used Hc) as (g1 & rs1 & Heq1 & Hc1 & Hd1 & Ha1).
  destruct (IH (with_registry s g1) Hc1) as (g2 & rs2 & Heq2 & Hc2 & Hd2 & Ha2).
  exists g2, (rs1 ++ rs2). cbn [_apply_decisions_locked]. unfold py_bind, py_ret. rewrite Heq1, Heq2.
  split_and!; [done|done|by eapply detaches_trans|]. intros Ha -> [Hor Hrest]. apply Ha2; [|done|done].
  apply Ha1; [done|]. rewrite app_nil_r. destruct Hor as [?|?]; [by left|right; by constructor].
Qed.

(** *** The phases of an activation *)

(** The candidate is prepared and not committed. *)
Definition prepared_phase ph (id : uuid) (p : PreparedActivation I R uuid P) : Prop :=
  ph = Refreshing id p ∨ ph = Committing id p.

Lemma prepared_phase_ok L g ph todo used id p :
  coupled L g ph todo used → prepared_phase ph id p → prepared_current L g todo id p.
Proof. intros Hc [-> | ->]; exact (cp_phase _ _ _ _ _ Hc). Qed.

Lemma abort_coupled L g ph todo used id p :
  coupled L g ph todo used → prepared_phase ph id p →
  ∃ g' r, abort_activation p g = (g', Ok r) ∧ coupled L g' Unlocked todo used ∧ same_runtimes g g'.
Proof.
  intros Hc Hp. destruct (prepared_phase_ok _ _ _ _ _ _ _ Hc Hp) as [_ Hok _ _ _].
  pose proof Hc as [Hl Hr Htr Hlive Hown Hsole Hle _ _ _ _ _ _ _].
  assert (∀ j, ¬ rebinding ph j) as Hnr by (destruct Hp as [-> | ->]; by intros j []).
  destruct (abort_exact p g Hr Hok) as (g' & r & Heq & Hwf & Hs & Hbs & Hls).
  exists g', r. split_and!; [done| |done]. eapply (coupled_shrink L g g' ph todo); try done.
  - intros i e'. by apply same_runtimes_some.
  - intros i ws. by eapply same_runtimes_keep.
  - rewrite Hls. destruct (candidate_is_provisional p); [apply delete_subseteq|done].
  - by rewrite Hbs.
  - intros j b Hb. rewrite Hbs. by apply Hlive.
  - intros j b. rewrite Hbs. by intros [?|?%Hnr]%Hown.
  - intros lid l Hlid. rewrite Hbs.
    assert (reg_leases g !! lid = Some l ∧ candidate ph ≠ Some lid) as [Hin Hne].
    { rewrite Hls in Hlid. destruct Hp as [-> | ->]; simpl; destruct (candidate_is_provisional p);
        try apply lookup_delete_Some in Hlid as [? ?]; split; congruence. }
    apply Hle in Hin as [?|?]; done.
Qed.

Lemma release_coupled L g id p b todo used :
  coupled L g (Rebinding id p b) todo used → (∀ b', ¬ bound_as L id b') →
  ∃ g' r, release id g = (g', Ok r) ∧ coupled L g' Unlocked todo used ∧ same_runtimes g g'.
Proof.
  intros Hc Hno. pose proof Hc as [Hl Hr Htr Hlive Hown Hsole Hle _ _ _ _ _ _ (_ & Hb & _)].
  destruct (release_exact id g Hr) as (g' & r & Heq & Hwf & Hs & Hbs & Hls). rewrite Hb in Hls.
  exists g', r. split_and!; [done| |done]. eapply (coupled_shrink L g g' _ todo); try done.
  - intros i e'. by apply same_runtimes_some.
  - intros i ws. by eapply same_runtimes_keep.
  - rewrite Hls. apply delete_subseteq.
  - rewrite Hbs. apply delete_subseteq.
  - intros j b' Hb'. rewrite Hbs. assert (id ≠ j) as Hne by (intros ->; by eapply Hno).
    rewrite lookup_delete_ne by done. by apply Hlive.
  - intros j b'. rewrite Hbs. intros [Hne Hj]%lookup_delete_Some. by apply Hown in Hj as [?|?].
  - intros lid l. rewrite Hls. intros [Hne Hlid]%lookup_delete_Some.
    apply Hle in Hlid as [(s & b' & Hs' & <-)|?]; [|done]. exists s, b'. split; [|done].
    rewrite Hbs, lookup_delete_ne; [done|]. intros <-. unfold blid in *. congruence.
Qed.

Lemma binding_served L g ph todo used id b :
  coupled L g ph todo used → reg_bindings g !! id = Some b →
  blid b ∈ used ∧ ∃ e, reg_runtimes g !! binding_identity b = Some e ∧ entry_runtime e = binding_runtime b.
Proof.
  intros Hc Hb. pose proof (wf_bound_live _ (cp_reg _ _ _ _ _ Hc) _ _ Hb) as Hlive. split.
  - apply (cp_used _ _ _ _ _ Hc). by apply elem_of_dom_2 in Hlive.
  - by destruct (core_lease _ (wf_core _ (cp_reg _ _ _ _ _ Hc)) _ _ Hlive) as [_ ?].
Qed.

Lemma discard_candidate L g ph todo used id p (committed : bool) :
  coupled L g ph todo used →
  (if committed then (∃ b, ph = Rebinding id p b) ∧ ∀ b', ¬ bound_as L id b' else prepared_phase ph id p) →
  (∀ e, reg_runtimes g !! binding_identity (prepared_binding p) = Some e →
        entry_runtime e = binding_runtime (prepared_binding p)) ∧
  (∀ i, made_here ph i → candidate_runtime_created p = true ∧ i = binding_identity (prepared_binding p)).
Proof.
  intros Hc Hp. destruct committed.
  - destruct Hp as [(b & ->) _]. destruct (cp_phase _ _ _ _ _ Hc) as (-> & Hb & _). split.
    + destruct (binding_served _ _ _ _ _ _ _ Hc Hb) as (_ & e & ? & ?). congruence.
    + by intros i [? <-].
  - assert (∀ i, made_here ph i → candidate_runtime_created p = true ∧ i = binding_identity (prepared_binding p)) as Hm.
    { intros i. destruct Hp as [-> | ->]; by intros [? <-]. }
    split; [|done]. destruct (prepared_phase_ok _ _ _ _ _ _ _ Hc Hp) as [_ Hok Hexp Hl _].
    pose proof (cp_reg _ _ _ _ _ Hc) as Hr. unfold prepared_ok in Hok.
    assert (∃ lid, reg_leases g !! lid = Some (binding_lease (prepared_binding p))) as [lid Hlid].
    { destruct (candidate_is_provisional p); [by eexists; apply Hl|]. destruct Hok as (b & Hb & ->).
      rewrite Hb in Hexp. eexists. by apply (wf_bound_live _ Hr id). }
    destruct (core_lease _ (wf_core _ Hr) _ _ Hlid) as (_ & e & He & Hrt). intros e' He'.
    unfold binding_identity, binding_runtime in *. congruence.
Qed.

Lemma discard_spec (s : Svc) L ph todo used id p (committed : bool) :
  coupled L (sv_registry s) ph todo used →
  (if committed then (∃ b, ph = Rebinding id p b) ∧ ∀ b', ¬ bound_as L id b' else prepared_phase ph id p) →
  ∃ g rs, _discard_prepared_activation_locked id p committed s = (with_registry s g, Ok rs) ∧
    coupled L g Unlocked todo used ∧ detaches (sv_registry s) g rs ∧
    (accounted L (sv_registry s) ph todo →
     (∀ d b, d ∈ todo → d_binding_to_release d = Some b → candidate_runtime_created p = true →
        binding_identity b ≠ binding_identity (prepared_binding p)) →
     accounted L g Unlocked todo).
Proof.
  intros Hc Hp. pose proof (discard_candidate _ _ _ _ _ _ _ _ Hc Hp) as [Hserved Hmade]. assert (created_ok L p) as Hcr.
  { destruct committed; [destruct Hp as [(b & ->) _]; by destruct (cp_phase _ _ _ _ _ Hc) as (_ & _ & ?)|].
    by destruct (prepared_phase_ok _ _ _ _ _ _ _ Hc Hp). }
  unfold _discard_prepared_activation_locked.
  assert (∃ g1, (if committed then (on_registry (release id) ;; py_ret tt)%py
                 else (on_registry (abort_activation p) ;; py_ret tt)%py) s = (with_registry s g1, Ok tt) ∧
    coupled L g1 Unlocked todo used ∧ same_runtimes (sv_registry s) g1) as (g1 & Heq1 & Hc1 & Hs1).
  { unfold py_bind. destruct committed.
    - destruct Hp as [(b & ->) Hno]. destruct (release_coupled _ _ _ _ _ _ _ Hc Hno) as (g1 & r & Heq & ? & ?).
      exists g1. by rewrite (on_registry_eq _ _ _ _ Heq).
    - destruct (abort_coupled _ _ _ _ _ _ _ Hc Hp) as (g1 & r & Heq & ? & ?).
      exists g1. by rewrite (on_registry_eq _ _ _ _ Heq). }
  unfold py_bind at 1. rewrite Heq1. pose proof (same_runtimes_detaches _ _ Hs1) as Hd1.
  unfold created_ok in Hcr. destruct (candidate_runtime_created p) eqn:Hcreated; simpl.
  - destruct (retire_section (with_registry s g1) L todo used _ (binding_runtime (prepared_binding p)) Hc1 (Hcr eq_refl))
      as (g2 & rs & -> & Hc2 & Hd2 & o & Heq2).
    exists g2, rs. split_and!; [done|done|by apply (detaches_trans _ g1 _ [])|]. intros Ha Hno.
    eapply (accounted_retire L g1 g2 todo todo used _ _ o ph); [done|by apply Hcr| | |exact Heq2|
      by eapply accounted_same|done|].
    + intros d b Hd Hb. by apply (Hno d).
    + intros e' He'. destruct (same_runtimes_some _ _ _ _ Hs1 He') as (e & He & <-). by apply Hserved.
    + intros j Hne Hm. apply Hmade in Hm as [_ ?]. congruence.
  - exists g1, []. split_and!; [done|done|done|]. intros Ha _ j e' He'.
    destruct (same_runtimes_some _ _ _ _ Hs1 He') as (e & He & <-).
    destruct (Ha j e He) as [?|[?|Hm]]; [by left|right; by left|]. apply Hmade in Hm as [? _]. congruence.
Qed.

(** No decision waiting for the lock stops a runtime or names a live lease. *)
Definition quiet L todo : Prop :=
  ∀ d, d ∈ todo → d_runtime_to_stop d = None ∧
       ∀ id, d_lease_id d = Some id → dict_get (ll_active L) id = None.

Lemma prepare_coupled L g id rw todo used mk fresh :
  coupled L g (Preparing id rw) todo used → quiet L todo → fresh ∉ used →
  (∀ r, mk (resolved_identity rw) = Ok r → ¬ registered g r) →
  match prepare_activation mk fresh id rw g with
  | (g', Ok p) => coupled L g' (Refreshing id p) todo ({[fresh]} ∪ used) ∧
      (∀ r, registered g' r → registered g r ∨ mk (resolved_identity rw) = Ok r) ∧
      (accounted L g (Preparing id rw) todo → accounted L g' (Refreshing id p) todo)
  | (g', Err e) => g' = g ∧ mk (resolved_identity rw) = Err e
  end.
Proof.
  intros [Hl Hr Htr Hlive Hown Hsole Hle Hobj Hnam Hst Hu Hau Hou _] Hq Hf Hmk.
  assert (reg_leases g !! fresh = None) as Hfl by (apply not_elem_of_dom; set_solver).
  pose proof (prepare_exact mk fresh id rw g Hr Hfl) as Hspec.
  destruct (prepare_activation mk fresh id rw g) as [g' [p|e]]; [|done].
  destruct Hspec as (Hwf & Hok & Hbs & Hses & Hexp & Hid & Hnp & Hprov & Hold & Hnew).
  assert (∀ i e, reg_runtimes g !! i = Some e →
    ∃ e', reg_runtimes g' !! i = Some e' ∧ entry_runtime e' = entry_runtime e) as Hkeep.
  { intros i e He. destruct (candidate_runtime_created p).
    - destruct (Hnew eq_refl) as (Hnone & _ & Hi). specialize (Hi i). rewrite decide_False in Hi by congruence.
      rewrite He in Hi. destruct (reg_runtimes g' !! i); naive_solver.
    - apply (same_runtimes_some g' g); [by apply same_runtimes_sym, Hold|done]. }
  assert (∀ i e', reg_runtimes g' !! i = Some e' →
    (∃ e, reg_runtimes g !! i = Some e ∧ entry_runtime e = entry_runtime e') ∨
    (i = resolved_identity rw ∧ mk (resolved_identity rw) = Ok (entry_runtime e') ∧
     candidate_runtime_created p = true)) as Hback.
  { intros i e' He'. destruct (candidate_runtime_created p).
    - destruct (Hnew eq_refl) as (Hnone & Hm & Hi). specialize (Hi i). rewrite He' in Hi.
      case_decide as Hii; [right|left; destruct (reg_runtimes g !! i); naive_solver].
      split_and!; [done| |done]. rewrite Hm. f_equal. by injection Hi.
    - left. by eapply same_runtimes_some; [apply Hold|]. }
  assert (∀ lid l, reg_leases g' !! lid = Some l → reg_leases g !! lid = Some l ∨
            lid = fresh ∧ candidate_is_provisional p = true) as Hlback.
  { intros lid l. destruct (candidate_is_provisional p).
    - destruct (Hprov eq_refl) as [_ ->]. rewrite lookup_insert. case_decide; naive_solver.
    - destruct (Hnp eq_refl) as [-> _]. by left. }
  split; [|split; [intros r (i & e' & He' & <-); destruct (Hback _ _ He') as [(e & ? & <-)|(_ & ? & _)];
            [left; by exists i, e|by right]|]].
  2: { intros Ha i e' He'. destruct (Hback _ _ He') as [(e & He & <-)|(-> & _ & Hcr)].
       - destruct (Ha i e He) as [?|[?|[]]]; [by left|right; by left].
       - right. right. by split. }
  split; simpl.
  - done.
  - done.
  - intros i ws Hws. destruct (Htr _ _ Hws) as (e & He & <-). by apply Hkeep.
  - intros j b Hb Hnr. rewrite Hbs. by apply Hlive.
  - intros j b. rewrite Hbs. apply Hown.
  - intros j b k b'. rewrite Hbs. apply Hsole.
  - intros lid l Hlid. rewrite Hbs. destruct (Hlback _ _ Hlid) as [[?|?]%Hle|[-> Hpr]]; [by left|done|].
    right. rewrite Hpr. f_equal. by apply Hprov.
  - intros i j e e' He He' Heq. destruct (Hback _ _ He) as [(e0 & ? & ?)|(-> & Hm & _)],
      (Hback _ _ He') as [(e1 & ? & ?)|(-> & Hm' & _)].
    + eapply Hobj; [done..|congruence].
    + destruct (Hmk _ Hm'). exists i, e0. split; [done|congruence].
    + destruct (Hmk _ Hm). exists j, e1. split; [done|congruence].
    + done.
  - done.
  - intros d i r Hd _ Hs. destruct (Hq d Hd). congruence.
  - intros lid [l Hlid]%elem_of_dom. apply elem_of_union. destruct (Hlback _ _ Hlid) as [Hin|[-> _]].
    + right. apply Hu. by apply elem_of_dom_2 in Hin.
    + left. by apply elem_of_singleton.
  - intros j Hj. apply elem_of_union_r. by apply Hau.
  - intros j b Ho. apply elem_of_union_r. by eapply Hou.
  - split; try done.
    + by rewrite Hbs.
    + intros Hpr. destruct (Hprov Hpr) as [Hcid Hls]. rewrite Hls, Hcid, lookup_insert_eq. split; [done|].
      intros j b Ho Heq. apply Hf. rewrite <-Heq. by eapply Hou.
    + intros Hcr. rewrite Hid. destruct (Hnew Hcr) as (Hnone & _).
      unfold untracked. destruct (dict_get _ _) as [ws|] eqn:Hws; [|done].
      destruct (Htr _ _ Hws) as (e & ? & _). congruence.
Qed.

Lemma commit_coupled L g id p todo used :
  coupled L g (Committing id p) todo used →
  ∃ g', commit_activation p g = (g', Ok (prepared_binding p)) ∧
    coupled L g' (Rebinding id p (prepared_binding p)) todo used ∧ same_runtimes g g'.
Proof.
  intros Hc. pose proof Hc as [Hl Hr Htr Hlive Hown Hsole Hle Hobj Hnam Hst Hu Hau Hou [Hses Hok Hexp Hpl Hcr]].
  destruct (commit_exact p g Hr Hok) as (g' & Heq & Hwf & Hs & Hbs & Hls);
    [by rewrite Hses|intros Hpr; by apply Hpl|]. rewrite Hses in Hbs.
  exists g'. split_and!; [done| |done].
  assert (reg_leases g' ⊆ reg_leases g) as Hsub.
  { rewrite Hls. repeat case_match; try done. apply delete_subseteq. }
  assert (∀ j b, bound_as L j b → reg_bindings g !! j = Some b) as Hlive0.
  { intros j b Hb. apply Hlive; [done|by intros []]. }
  split; try done.
  - intros i ws Hws. destruct (Htr _ _ Hws) as (e & He & <-).
    by apply (same_runtimes_some g' g); [apply same_runtimes_sym|].
  - intros j b Hb Hnr. rewrite Hbs, lookup_insert_ne by done. by apply Hlive0.
  - intros j b. rewrite Hbs, lookup_insert. case_decide as Hj; [by right|].
    intros [?|[]]%Hown. by left.
  - intros j b k b' Ho. rewrite Hbs, lookup_insert. case_decide as Hk; [|by apply Hsole].
    intros [= <-] Heqb. subst k. unfold prepared_ok in Hok. destruct (candidate_is_provisional p).
    + destruct (Hpl eq_refl) as [_ Hne]. by destruct (Hne _ _ Ho).
    + destruct Hok as (b0 & Hb0 & Hbl). rewrite Hb0 in Hexp. apply (Hsole j b id b0 Ho); [done|].
      unfold blid in *. congruence.
  - intros lid l Hlid. left. pose proof (lookup_weaken _ _ _ _ Hlid Hsub) as Hin.
    apply Hle in Hin as [(k & b & Hk & <-)|Hcand].
    + destruct (decide (k = id)) as [->|Hne].
      * rewrite Hk in Hexp. rewrite Hexp in Hls. unfold prepared_ok in Hok.
        destruct (candidate_is_provisional p); [rewrite Hls in Hlid; by rewrite lookup_delete_eq in Hlid|].
        destruct Hok as (b0 & Hb0 & Hbl). exists id, (prepared_binding p).
        rewrite Hbs, lookup_insert_eq. split; [done|]. unfold blid. congruence.
      * exists k, b. by rewrite Hbs, lookup_insert_ne.
    + exists id, (prepared_binding p). rewrite Hbs, lookup_insert_eq. split; [done|]. simpl in Hcand.
      destruct (candidate_is_provisional p); [by injection Hcand|done].
  - intros i j e e' He He' Hee. destruct (same_runtimes_some _ _ _ _ Hs He) as (e0 & ? & ?),
      (same_runtimes_some _ _ _ _ Hs He') as (e1 & ? & ?). eapply Hobj; [done..|congruence].
  - intros d i r Hd Hi Hs'. destruct (Hst d i r Hd Hi Hs') as [? He]. split; [done|].
    intros e' He'. destruct (same_runtimes_some _ _ _ _ Hs He') as (e & ? & <-). by apply He.
  - etrans; [|exact Hu]. by apply subseteq_dom.
  - simpl. by rewrite Hbs, lookup_insert_eq.
Qed.

Lemma attach_get (id : uuid) b (d : list (I * WorkspaceState)) i :
  ws_runtime <$> dict_get (attach_ws (T:=T) id b d) i =
  if decide (i = binding_identity b) then Some (binding_runtime b) else ws_runtime <$> dict_get d i.
Proof. unfold attach_ws. rewrite dict_get_set. change (bl_identity b) with (binding_identity b). by destruct (decide _). Qed.

(** Rebinding adds the workspace of [b] and forgets none. *)
Lemma rebound_get L now id l b i :
  compatible L b → lifecycle_wf L → dict_get (ll_active L) id = Some l →
  ws_runtime <$> dict_get (rebound_workspaces t_add L now id l b) i =
  if decide (i = binding_identity b) then Some (binding_runtime b)
  else ws_runtime <$> dict_get (ll_workspaces L) i.
Proof.
  intros Hc Hwf Hl. unfold rebound_workspaces. destruct (dl_binding l) as [old|] eqn:Hold; [|apply attach_get].
  destruct (lw_bound _ Hwf _ _ _ Hl Hold) as (ws & Hws & Hrt). case_decide as Heq.
  - case_decide as Hi; [|done]. rewrite Hi. change (binding_identity b) with (bl_identity b). rewrite <-Heq, Hws.
    simpl. f_equal. rewrite Heq in Hws. by apply Hc.
  - rewrite attach_get, Hws. case_decide as Hi; [done|]. rewrite detach_ws_get.
    case_decide as Hio; [|done]. subst i. rewrite Hws. by rewrite decide_False by naive_solver.
Qed.

Lemma rebind_coupled L g id p b todo used now l :
  coupled L g (Rebinding id p b) todo used → quiet L todo →
  dict_get (ll_active L) id = Some l → py_ltb now (expires_at t_add l) = true →
  ∃ L' l', rebind t_add now id b L = (L', Ok l') ∧ coupled L' g Unlocked todo used ∧
    quiet L' todo ∧ ∀ i, untracked L' i → untracked L i ∧ i ≠ binding_identity b.
Proof.
  intros Hc Hq Hact Hlt. pose proof Hc as [Hl Hr Htr Hlive Hown Hsole Hle Hobj Hnam Hst Hu Hau Hou (_ & Hb & _)].
  destruct (binding_served _ _ _ _ _ _ _ Hc Hb) as [Hbu (e & He & Hee)].
  assert (compatible L b) as Hcomp.
  { intros ws Hws. destruct (Htr _ _ Hws) as (e' & He' & <-). change (bl_runtime b) with (binding_runtime b).
    rewrite <-Hee. change (bl_identity b) with (binding_identity b) in He'. congruence. }
  destruct (rebind_spec t_add L now id l b Hl Hact Hlt Hcomp) as (L' & Heq & Hwf & Hact' & Hexp & _ & Hws').
  pose proof (λ i, rebound_get L now id l b i Hcomp Hl Hact) as Hget. setoid_rewrite <-Hws' in Hget.
  assert (∀ j b', bound_as L' j b' ↔ (j = id ∧ b' = b) ∨ (j ≠ id ∧ bound_as L j b')) as Hbb.
  { intros j b'. unfold bound_as. rewrite Hact'. setoid_rewrite dict_get_set.
    destruct (decide (j = id)) as [->|Hne]; [|naive_solver]. split; [|naive_solver].
    intros (l' & [= <-] & [= <-]). by left. }
  assert (∀ d j, d ∈ todo → d_lease_id d = Some j → j ≠ id) as Hnid.
  { intros d j Hd Hj ->. destruct (Hq d Hd) as [_ Hd']. specialize (Hd' _ Hj). congruence. }
  exists L', (with_binding l (Some b)). split; [done|]. split; [split; try done|split].
  - intros i ws Hws. specialize (Hget i). rewrite Hws in Hget. simpl in Hget. case_decide as Hi.
    + exists e. rewrite Hi. split; [done|]. rewrite Hee. congruence.
    + destruct (dict_get (ll_workspaces L) i) as [ws0|] eqn:Hws0; [|done].
      destruct (Htr _ _ Hws0) as (e' & ? & He'). exists e'. split; [done|]. simpl in Hget. congruence.
  - intros j b' [[-> ->]|[Hne Hb']]%Hbb _; [done|]. apply Hlive; [done|]. simpl. congruence.
  - intros j b' Hj. left. destruct (decide (j = id)) as [->|Hne].
    + left. apply Hbb. left. split; [done|congruence].
    + apply Hown in Hj as [[Hj|Hj]|Hj]; [|by right|simpl in Hj; congruence]. left. apply Hbb. by right.
  - intros j b' k b'' [[[-> ->]|[Hne Hb']]%Hbb|Hd] Hk Heqb.
    + by apply (wf_bound_once _ Hr k id b'' b).
    + eapply Hsole; [by left|done|done].
    + eapply Hsole; [by right|done|done].
  - intros d b' Hd Hdb. destruct (Hnam d b' Hd Hdb) as (j & Hj & Hno). exists j. split; [done|].
    intros b'' [[-> _]|[_ ?]]%Hbb; [by eapply Hnid|by eapply Hno].
  - intros d i r Hd _ Hs. destruct (Hq d Hd). congruence.
  - intros j. rewrite Hact', Hexp, dict_get_set. case_decide; [|by apply Hau]. subst. intros _. apply Hau. eauto.
  - intros j b' [[[-> ->]|[Hne Hb']]%Hbb|Hd]; [done|eapply Hou; by left|eapply Hou; by right].
  - intros d Hd. destruct (Hq d Hd) as [? Hdead]. split; [done|]. intros j Hj.
    rewrite Hact', dict_get_set_ne by (by eapply Hnid). by apply Hdead.
  - intros i Hun. specialize (Hget i). unfold untracked in *. rewrite Hun in Hget. case_decide; [done|].
    split; [|done]. by destruct (dict_get (ll_workspaces L) i).
Qed.

(** *** Locked sections *)

Abbreviation Waiter := (@waiter I R P T).
Abbreviation Err_ := (@service_error I R P T).
Abbreviation After := (@after_stop I R P T).

(** The failures an activation may report are the factory's and the refresh's. *)
Definition after_ok (k : After) : Prop :=
  match k with
  | AfterActivate _ (Err e) => e = RegistryFailure FactoryFailed ∨ e = RefreshFailed
  | _ => True
  end.

(** A locked section ended well: it did not raise, what is left of the
    decisions is [todo], the runtimes it hands over were registered and are no
    longer, and only [new] ones were registered. If [calm] holds and no decision
    is left, every registered runtime is accounted for. *)
Definition section_good (calm : Prop) (new : R → Prop) (used : gset uuid) todo (s : Svc)
    (out : Svc * res Err_ (Phase * option (list R * After))) : Prop :=
  ∃ s' ph k, out = (s', Ok (ph, k)) ∧ sv_pending_stops s' = sv_pending_stops s ∧
    coupled (sv_lifecycle s') (sv_registry s') ph todo used ∧ quiet (sv_lifecycle s') todo ∧
    (∀ r, registered (sv_registry s') r → registered (sv_registry s) r ∨ new r) ∧
    (calm → todo = [] → accounted (sv_lifecycle s') (sv_registry s') ph []) ∧
    match k with
    | Some (rs, a) => (∀ r, r ∈ rs → registered (sv_registry s) r ∧ ¬ registered (sv_registry s') r) ∧ after_ok a
    | None => True
    end.

(** The service state at the start of the section, with the lock in phase [ph]. *)
Definition calm_in (s : Svc) ph : Prop := accounted (sv_lifecycle s) (sv_registry s) ph [].

Lemma quiet_drops L L' todo ds : quiet L todo → drops ∅ L L' ds → quiet L' todo.
Proof.
  intros Hq D d Hd. destruct (Hq d Hd) as [? Hid]. split; [done|]. intros id Hi.
  destruct (dict_get (ll_active L') id) as [l|] eqn:Hl; [|done].
  destruct (dr_active _ _ _ _ D id) as [[? ?]|Hn]; [eauto| |by apply not_elem_of_empty in Hn].
  rewrite (Hid id Hi) in *. done.
Qed.

Lemma coupled_after L L' g ph todo ds used :
  coupled L g ph todo used → drops ∅ L L' ds → coupled L' g ph (ds ++ todo) used.
Proof.
  intros Hc D. pose proof (coupled_drops ∅ _ _ _ _ _ _ _ Hc D) as Hc'. rewrite (left_id_L ∅ (∪)) in Hc'.
  eapply coupled_todo; [|exact Hc']. intros d. rewrite !elem_of_app. tauto.
Qed.

Lemma coupled_used L g ph todo used used' :
  coupled L g ph todo used → used ⊆ used' → coupled L g ph todo used'.
Proof.
  intros [Hl Hr Htr Hlive Hown Hsole Hle Hobj Hnam Hst Hu Hau Hou Hph] Hsub. split; try done.
  - by etrans.
  - intros id Hid. by apply Hsub, Hau.
  - intros id b Ho. eapply Hsub, Hou. done.
Qed.

Definition with_lifecycle (s : Svc) L : Svc :=
  {| sv_lifecycle := L; sv_registry := sv_registry s; sv_pending_stops := sv_pending_stops s |}.

Lemma on_lifecycle_eq {A} (m : PyM Life lease_error A) (s : Svc) L r :
  m (sv_lifecycle s) = (L, r) →
  on_lifecycle m s = (with_lifecycle s L, match r with Ok a => Ok a | Err e => Err (LeaseFailure e) end).
Proof. intros Heq. unfold on_lifecycle. by rewrite Heq. Qed.

Lemma hold_good calm new used todo s ph :
  coupled (sv_lifecycle s) (sv_registry s) ph todo used → quiet (sv_lifecycle s) todo →
  (calm → calm_in s ph) → section_good calm new used todo s (hold ph s).
Proof. intros Hc Hq Ha. exists s, ph, None. split_and!; [done|done|done|done|by left|intros Hx _; by apply Ha|done]. Qed.

(** Apply what a lifecycle method decided and give up the lock. *)
Lemma decision_section calm s L od todo used k :
  coupled L (sv_registry s) Unlocked (option_list od ++ todo) used → quiet L todo → after_ok k →
  (calm → accounted L (sv_registry s) Unlocked (option_list od)) →
  section_good calm (λ _, False) used todo s
    ((let! rs := _apply_decision_locked od in unlock rs k)%py (with_lifecycle s L)).
Proof.
  intros Hc Hq Hk Ha. destruct (apply_decision_spec (with_lifecycle s L) L od todo used Hc)
    as (g & rs & Heq & Hc' & [Hsub Hgone] & Hacc).
  unfold py_bind. rewrite Heq. exists (with_registry (with_lifecycle s L) g), Unlocked, (Some (rs, k)).
  split_and!; [done|done|done|done|by auto| |done|done]. intros Hcalm ->. rewrite app_nil_r in Hacc.
  apply Hacc; [by apply Ha|left; constructor].
Qed.

Lemma calm_drops (s : Svc) L ds used ph todo :
  coupled (sv_lifecycle s) (sv_registry s) ph todo used → todo = [] → drops ∅ (sv_lifecycle s) L ds →
  calm_in s ph → accounted L (sv_registry s) ph ds.
Proof.
  intros Hc -> D Ha. pose proof (accounted_drops _ _ _ _ _ _ _ _ Hc D Ha) as Hacc. by rewrite app_nil_r in Hacc.
Qed.

Lemma dropped_section (s : Svc) L od todo used k :
  coupled (sv_lifecycle s) (sv_registry s) Unlocked todo used → quiet (sv_lifecycle s) todo →
  drops ∅ (sv_lifecycle s) L (option_list od) → after_ok k →
  section_good (todo = [] ∧ calm_in s Unlocked) (λ _, False) used todo s
    ((let! rs := _apply_decision_locked od in unlock rs k)%py (with_lifecycle s L)).
Proof.
  intros Hc Hq D Hk. apply decision_section; [by eapply coupled_after|by eapply quiet_drops|done|].
  intros [Htodo Ha]. by eapply calm_drops.
Qed.

Lemma release_section (s : Svc) now id imm todo used :
  coupled (sv_lifecycle s) (sv_registry s) Unlocked todo used → quiet (sv_lifecycle s) todo →
  section_good (todo = [] ∧ calm_in s Unlocked) (λ _, False) used todo s (svc_release_lease t_add now id imm s).
Proof.
  intros Hc Hq. destruct (release_daemon_drops t_add _ now id imm (cp_life _ _ _ _ _ Hc)) as (L & rr & Heq & D).
  unfold svc_release_lease. unfold py_bind at 1. rewrite (on_lifecycle_eq _ _ _ _ Heq).
  by apply dropped_section.
Qed.

Lemma release_workspace_section (s : Svc) now id imm todo used :
  coupled (sv_lifecycle s) (sv_registry s) Unlocked todo used → quiet (sv_lifecycle s) todo →
  section_good (todo = [] ∧ calm_in s Unlocked) (λ _, False) used todo s (svc_release_workspace t_add now id imm s).
Proof.
  intros Hc Hq. pose proof (release_workspace_drops t_add _ now id imm (cp_life _ _ _ _ _ Hc)) as D.
  destruct (release_workspace t_add now id imm (sv_lifecycle s)) as [L r] eqn:Heq.
  unfold svc_release_workspace, attempt. unfold py_bind at 1. rewrite (on_lifecycle_eq _ _ _ _ Heq).
  destruct r as [rr|[id' od| | | | |]]; try done.
  - by apply dropped_section.
  - by apply dropped_section.
Qed.

Lemma sweep_section (s : Svc) now todo used :
  coupled (sv_lifecycle s) (sv_registry s) Unlocked todo used → quiet (sv_lifecycle s) todo →
  section_good (todo = [] ∧ calm_in s Unlocked) (λ _, False) used todo s (svc_sweep t_add now s).
Proof.
  intros Hc Hq. destruct (sweep_drops t_add _ now (cp_life _ _ _ _ _ Hc)) as (L & eds & gds & Heq & D & He & Hg).
  unfold svc_sweep. unfold py_bind at 1. rewrite (on_lifecycle_eq _ _ _ _ Heq).
  destruct (apply_decisions_spec L todo used (eds ++ gds) (with_lifecycle s L))
    as (g & rs & Heq' & Hc' & [Hsub Hgone] & Hacc).
  { by eapply coupled_after. }
  unfold py_bind. rewrite Heq'. exists (with_registry (with_lifecycle s L) g), Unlocked, (Some (rs, AfterSweep (eds ++ gds))).
  split_and!; [done|done|done|by eapply quiet_drops|by auto| |done|done].
  intros [Htodo Ha] ->. rewrite app_nil_r in Hacc. apply Hacc; [|done|by apply releases_first_app].
  simpl. by apply (calm_drops s L (eds ++ gds) used Unlocked []).
Qed.

Lemma activate_enter_section (s : Svc) now id rw todo used :
  coupled (sv_lifecycle s) (sv_registry s) Unlocked todo used → quiet (sv_lifecycle s) todo →
  section_good (todo = [] ∧ calm_in s Unlocked) (λ _, False) used todo s (activate_enter t_add now id rw s).
Proof.
  intros Hc Hq. pose proof (require_drops t_add _ id now (cp_life _ _ _ _ _ Hc)) as D.
  unfold activate_enter, require_active, attempt. unfold py_bind at 1.
  destruct (_require_active_locked t_add id now (sv_lifecycle s)) as [L r] eqn:Heq.
  rewrite (on_lifecycle_eq _ _ _ _ Heq). destruct r as [l|[id' od| | | | |]]; try done.
  - destruct D as (-> & _). replace (with_lifecycle s (sv_lifecycle s)) with s by (by destruct s).
    apply hold_good; [|done|by intros [_ ?]]. destruct Hc. by split.
  - destruct D as (_ & D & _). by apply dropped_section.
Qed.

(** The decision a waiter carries. *)
Definition carried (wt : Waiter) : list Dec := match wt with WClean _ od => option_list od | _ => [] end.

Lemma run_waiter_section (s : Svc) now (wt : Waiter) todo used :
  coupled (sv_lifecycle s) (sv_registry s) Unlocked (carried wt ++ todo) used → quiet (sv_lifecycle s) todo →
  section_good (todo = [] ∧ accounted (sv_lifecycle s) (sv_registry s) Unlocked (carried wt)) (λ _, False)
    used todo s (run_waiter t_add now wt s).
Proof.
  destruct wt as [id imm|id imm|id rw| |id od]; simpl; intros Hc Hq.
  - by apply release_section.
  - by apply release_workspace_section.
  - by apply activate_enter_section.
  - by apply sweep_section.
  - unfold _clean_expired.
    pose proof (decision_section (todo = [] ∧ accounted (sv_lifecycle s) (sv_registry s) Unlocked (option_list od))
      s _ od todo used (AfterExpired id) Hc Hq Logic.I) as Hs.
    replace (with_lifecycle s (sv_lifecycle s)) with s in Hs by (by destruct s). apply Hs. by intros [_ ?].
Qed.

Definition error_decisions (e : Err_) : list Dec :=
  match e with LeaseFailure (LeaseExpired _ od) => option_list od | _ => [] end.

Lemma activation_failed_section calm (s : Svc) L ph todo used id p committed (e : Err_) :
  coupled L (sv_registry s) ph (error_decisions e ++ todo) used → quiet L todo →
  (if committed : bool then (∃ b, ph = Rebinding id p b) ∧ ∀ b', ¬ bound_as L id b' else prepared_phase ph id p) →
  match e with LeaseFailure (LeaseExpired _ _) => True | _ => after_ok (AfterActivate id (Err e)) end →
  (calm → accounted L (sv_registry s) ph (error_decisions e) ∧
     ∀ d b, d ∈ error_decisions e → d_binding_to_release d = Some b → candidate_runtime_created p = true →
       binding_identity b ≠ binding_identity (prepared_binding p)) →
  section_good calm (λ _, False) used todo s (activation_failed id p committed e (with_lifecycle s L)).
Proof.
  intros Hc Hq Hp He Hcalm.
  destruct (discard_spec (with_lifecycle s L) L ph _ used id p committed Hc Hp) as (g & rs & Heq & Hc' & Hd & Ha).
  assert (∀ rs' k (s' : Svc), sv_lifecycle s' = L → sv_pending_stops s' = sv_pending_stops s →
    coupled L (sv_registry s') Unlocked todo used →
    detaches (sv_registry s) (sv_registry s') rs' → after_ok k →
    (calm → todo = [] → accounted L (sv_registry s') Unlocked []) →
    section_good calm (λ _, False) used todo s (unlock rs' k s')) as Hunlock.
  { intros rs' k s' HL Hpend Hc1 [Hsub Hgone] Hk Hacc. exists s', Unlocked, (Some (rs', k)). rewrite HL.
    split_and!; [done|done|done|done|by auto|done|done|done]. }
  assert (calm → todo = [] → accounted L g Unlocked (error_decisions e)) as Hg.
  { intros Hx ->. rewrite app_nil_r in Ha. destruct (Hcalm Hx). by apply Ha. }
  unfold activation_failed. unfold py_bind at 1. rewrite Heq.
  destruct e as [[id' od| | | | |]|re|]; simpl in Hc'; try (by apply Hunlock).
  destruct (apply_decision_spec (with_registry (with_lifecycle s L) g) L od todo used Hc')
    as (g2 & rs2 & Heq2 & Hc2 & Hd2 & Ha2).
  unfold py_bind. rewrite Heq2. apply Hunlock; try done; [by eapply detaches_trans|].
  intros Hx Hy. subst todo. rewrite app_nil_r in Ha2. apply Ha2; [by apply Hg|left; constructor].
Qed.

(** What the environment promises about the event. *)
Definition event_fine (g : Reg) (used : gset uuid) (ev : @activation_event I R T) : Prop :=
  match ev with
  | EvPrepare mk fresh => fresh ∉ used ∧
      ∀ i, match mk i with Ok r => ¬ registered g r | Err e => e = FactoryFailed end
  | _ => True
  end.

Definition event_new (ev : @activation_event I R T) (r : R) : Prop :=
  match ev with EvPrepare mk _ => ∃ i, mk i = Ok r | _ => False end.

Lemma section_good_weaken calm (new new' : R → Prop) used used' todo s out :
  section_good calm new used todo s out → used ⊆ used' → (∀ r, new r → new' r) →
  section_good calm new' used' todo s out.
Proof.
  intros (s' & ph & k & ? & ? & Hc & ? & Hr & Hrest) Hused Hnew. exists s', ph, k.
  do 2 (split; [done|]). split; [by eapply coupled_used|]. split; [done|]. split; [|exact Hrest].
  intros r [?|?]%Hr; auto.
Qed.

Lemma preparing_section (s : Svc) id rw mk fresh todo used :
  coupled (sv_lifecycle s) (sv_registry s) (Preparing id rw) todo used → quiet (sv_lifecycle s) todo →
  event_fine (sv_registry s) used (EvPrepare mk fresh) →
  section_good (todo = [] ∧ calm_in s (Preparing id rw)) (event_new (EvPrepare mk fresh)) ({[fresh]} ∪ used) todo s
    (activation_step t_add (EvPrepare mk fresh) (Preparing id rw) s).
Proof.
  intros Hc Hq [Hf Hmk]. unfold activation_step, attempt, py_bind, on_registry.
  pose proof (prepare_coupled _ _ id rw todo used mk fresh Hc Hq Hf) as Hp. specialize (Hmk (resolved_identity rw)).
  destruct (prepare_activation mk fresh id rw (sv_registry s)) as [g [p|e]].
  - destruct Hp as (Hc' & Hreg & Ha); [intros r Hr; by rewrite Hr in Hmk|].
    exists (with_registry s g), (Refreshing id p), None.
    split_and!; [done|done|done|done| | |done].
    + intros r [?|?]%Hreg; [by left|]. right. by exists (resolved_identity rw).
    + intros [_ Hcalm] ->. by apply Ha.
  - destruct Hp as [-> He]; [intros r Hr; by rewrite Hr in Hmk|]. rewrite He in Hmk. subst e.
    exists s, Unlocked, (Some ([], AfterActivate id (Err (RegistryFailure FactoryFailed)))).
    split_and!; [by destruct s|done| |done|by left|by intros [_ ?] _|set_solver|by left].
    destruct Hc as [? ? ? ? ? ? ? ? ? ? ? ? ? ?]. eapply (coupled_used _ _ _ _ used); [by split|set_solver].
Qed.

(** A binding given up by an expiring lease is not in the candidate's new
    workspace: that one was not tracked. *)
Lemma expired_elsewhere (s : Svc) L ds ph todo used p :
  coupled (sv_lifecycle s) (sv_registry s) ph todo used → created_ok (sv_lifecycle s) p →
  drops ∅ (sv_lifecycle s) L ds →
  ∀ d b, d ∈ ds → d_binding_to_release d = Some b → candidate_runtime_created p = true →
    binding_identity b ≠ binding_identity (prepared_binding p).
Proof.
  intros Hc Hcr D d b Hd Hb Hcreated Heq. destruct (dr_named _ _ _ _ D d b Hd Hb) as (id & _ & (l & Ha & Hlb) & _).
  destruct (lw_bound _ (cp_life _ _ _ _ _ Hc) _ _ _ Ha Hlb) as (ws & Hws & _).
  change (bl_identity b) with (binding_identity b) in Hws.
  specialize (Hcr Hcreated). unfold untracked in Hcr. congruence.
Qed.

Lemma refreshing_section (s : Svc) id p refreshed now todo used :
  coupled (sv_lifecycle s) (sv_registry s) (Refreshing id p) todo used → quiet (sv_lifecycle s) todo →
  section_good (todo = [] ∧ calm_in s (Refreshing id p)) (λ _, False) used todo s
    (activation_step t_add (EvRefreshed refreshed now) (Refreshing id p) s).
Proof.
  intros Hc Hq. cbn [activation_step]. destruct refreshed.
  - pose proof (require_drops t_add _ id now (cp_life _ _ _ _ _ Hc)) as D.
    unfold require_active, attempt. unfold py_bind at 1.
    destruct (_require_active_locked t_add id now (sv_lifecycle s)) as [L r] eqn:Heq.
    rewrite (on_lifecycle_eq _ _ _ _ Heq). destruct r as [l|[id' od| | | | |]]; try done.
    + destruct D as (-> & _). replace (with_lifecycle s (sv_lifecycle s)) with s by (by destruct s).
      apply hold_good; [|done|by intros [_ ?]]. destruct Hc. by split.
    + destruct D as (_ & D & _). eapply activation_failed_section; [by eapply coupled_after|
        by eapply quiet_drops|by left|done|].
      intros [Htodo Ha]. split; [by eapply calm_drops|]. eapply expired_elsewhere; [done| |done].
      by destruct (cp_phase _ _ _ _ _ Hc).
  - pose proof (activation_failed_section (todo = [] ∧ calm_in s (Refreshing id p)) s _ _ todo used id p false
      RefreshFailed Hc Hq) as Hs.
    replace (with_lifecycle s (sv_lifecycle s)) with s in Hs by (by destruct s).
    apply Hs; [by left|by right|]. intros [_ Ha]. split; [done|]. by intros d b ?%elem_of_nil.
Qed.

Lemma rebinding_section (s : Svc) id p b now todo used :
  coupled (sv_lifecycle s) (sv_registry s) (Rebinding id p b) todo used → quiet (sv_lifecycle s) todo →
  section_good (todo = [] ∧ calm_in s (Rebinding id p b)) (λ _, False) used todo s
    (activation_step t_add (EvRebind now) (Rebinding id p b) s).
Proof.
  intros Hc Hq. cbn [activation_step]. unfold attempt. unfold py_bind at 1.
  pose proof (require_drops t_add _ id now (cp_life _ _ _ _ _ Hc)) as D.
  destruct (_require_active_locked t_add id now (sv_lifecycle s)) as [L r] eqn:Heq. destruct r as [l|e].
  - destruct D as (-> & Hact & Hlt). pose proof (cp_phase _ _ _ _ _ Hc) as (Hb & _ & _).
    destruct (rebind_coupled _ _ _ _ _ _ _ now l Hc Hq Hact Hlt) as (L' & l' & Hre & Hc' & Hq' & Hun).
    rewrite (on_lifecycle_eq _ _ _ _ Hre).
    exists (with_lifecycle s L'), Unlocked, (Some ([], AfterActivate id (Ok b))).
    split_and!; [done|done|done|done|by left| |set_solver|done].
    intros [_ Ha] _ i e He. unfold untracked; simpl. destruct (dict_get (ll_workspaces L') i) as [ws|] eqn:Hws; [by left|].
    destruct (Hun i Hws) as [Hun' Hne]. destruct (Ha i e He) as [?|[?|[_ Hm]]]; [done|right; by left|].
    subst b. congruence.
  - assert (rebind t_add now id b (sv_lifecycle s) = (L, Err e)) as Hre by (unfold rebind, py_bind at 1; by rewrite Heq).
    rewrite (on_lifecycle_eq _ _ _ _ Hre). destruct e as [id' od| | | | |]; try done.
    destruct D as (_ & D & Hdead & _). eapply activation_failed_section;
      [by eapply coupled_after|by eapply quiet_drops| |done|].
    + split; [by exists b|]. intros b' (l & Hl & _). congruence.
    + intros [Htodo Ha]. split; [by eapply calm_drops|]. eapply expired_elsewhere; [done| |done].
      by destruct (cp_phase _ _ _ _ _ Hc) as (_ & _ & ?).
Qed.

Lemma committing_section (s : Svc) id p todo used :
  coupled (sv_lifecycle s) (sv_registry s) (Committing id p) todo used → quiet (sv_lifecycle s) todo →
  section_good (todo = [] ∧ calm_in s (Committing id p)) (λ _, False) used todo s
    (activation_step t_add EvCommit (Committing id p) s).
Proof.
  intros Hc Hq. cbn [activation_step]. unfold attempt, py_bind.
  destruct (commit_coupled _ _ _ _ _ _ Hc) as (g & Heq & Hc' & Hs). rewrite (on_registry_eq _ _ _ _ Heq).
  exists (with_registry s g), (Rebinding id p (prepared_binding p)), None.
  split_and!; [done|done|done|done| | |done].
  - intros r. left. by eapply same_runtimes_registered.
  - intros [_ Ha] _. by eapply (accounted_same _ _ _ (Rebinding id p (prepared_binding p))).
Qed.

Lemma activation_step_section (s : Svc) ph (ev : @activation_event I R T) todo used :
  coupled (sv_lifecycle s) (sv_registry s) ph todo used → quiet (sv_lifecycle s) todo →
  event_fine (sv_registry s) used ev →
  section_good (todo = [] ∧ calm_in s ph) (event_new ev) (event_ids ev ∪ used) todo s (activation_step t_add ev ph s).
Proof.
  intros Hc Hq Hev.
  assert (section_good (todo = [] ∧ calm_in s ph) (event_new ev) (event_ids ev ∪ used) todo s (hold ph s)) as Hhold.
  { apply hold_good; [|done|by intros [_ ?]]. eapply coupled_used; [done|set_solver]. }
  assert (∀ out, section_good (todo = [] ∧ calm_in s ph) (λ _, False) used todo s out →
            section_good (todo = [] ∧ calm_in s ph) (event_new ev) (event_ids ev ∪ used) todo s out) as Hweak.
  { intros out Hs. eapply section_good_weaken; [done|set_solver|by intros r []]. }
  destruct ph as [|id rw|id p|id p|id p b], ev as [mk fresh|refreshed now| |now]; try exact Hhold;
    try (destruct refreshed; exact Hhold).
  - by apply preparing_section.
  - by apply Hweak, refreshing_section.
  - by apply Hweak, committing_section.
  - by apply Hweak, rebinding_section.
Qed.

(** *** The whole service *)

(** The decisions waiting for the lock. *)
Definition inflight (queue : list Waiter) : list Dec := queue ≫= carried.

Definition reply_ok (r : @service_reply I R P T) : Prop :=
  match r with Raised _ => False | Replied k _ => after_ok k | _ => True end.

Definition unfinished w (k : After) : Prop :=
  (∃ rs, (rs, k) ∈ sw_stop_queue w) ∨ ∃ own handed, sw_stopping w = Some (own, k, handed).

Record svc_inv w todo used : Prop := {
  wi_coupled : coupled (sv_lifecycle (sw_service w)) (sv_registry (sw_service w)) (sw_phase w) todo used;
  wi_quiet : quiet (sv_lifecycle (sw_service w)) todo;
  wi_ids : ∀ d id, d ∈ todo → d_lease_id d = Some id → id ∈ used;
  wi_detached : ∀ r, outstanding w r → ¬ registered (sv_registry (sw_service w)) r;
  wi_after : ∀ k, unfinished w k → after_ok k;
  wi_log : Forall reply_ok (sw_log w);
}.

Definition service_inv w : Prop := svc_inv w (inflight (sw_queue w)) (sw_used w).

Lemma inflight_snoc queue (wt : Waiter) : inflight (queue ++ [wt]) = inflight queue ++ carried wt.
Proof. unfold inflight. by rewrite bind_app; simpl; rewrite app_nil_r. Qed.

Lemma settle_inv w todo used todo' used' queue calm new out :
  svc_inv w todo used →
  section_good calm new used' todo' (sw_service w) out →
  (∀ r, new r → ¬ outstanding w r) →
  (∀ d id, d ∈ todo' → d_lease_id d = Some id → id ∈ used') →
  svc_inv (settle w queue out) todo' used'.
Proof.
  intros [_ _ _ Hdet Haft Hlog] (s' & ph & k & -> & Hpend & Hc & Hq & Hreg & _ & Hk) Hnew Hids.
  split; simpl; try done.
  - intros r Ho Hr.
    assert (outstanding w r ∨ ∃ rs a, k = Some (rs, a) ∧ r ∈ rs) as [Hw|(rs & a & -> & Hin)].
    { destruct Ho as [(x & Hx & Hin)|[Ho|Ho]]; simpl in *.
      - apply elem_of_app in Hx as [Hx|Hx]; [left; left; by exists x|].
        destruct k as [[rs a]|]; [|by apply elem_of_nil in Hx].
        apply list_elem_of_singleton in Hx as ->. right. by exists rs, a.
      - left. right. by left.
      - left. right. right. by rewrite <-Hpend. }
    + apply Hreg in Hr as [Hr|Hr]; [by eapply Hdet|by eapply Hnew].
    + destruct Hk as [Hgone _]. by apply Hgone in Hin as [_ ?].
  - intros a [(rs & Hin)|Hst]; simpl in *; [|apply Haft; by right].
    apply elem_of_app in Hin as [Hin|Hin]; [apply Haft; left; eauto|].
    destruct k as [[rs' a']|]; [|by apply elem_of_nil in Hin].
    apply list_elem_of_singleton in Hin as [= -> ->]. apply Hk.
  - by rewrite app_nil_r.
Qed.

(** A caller that gets the lock runs its section. *)
Lemma run_inv w now (wt : Waiter) rest :
  sw_phase w = Unlocked → svc_inv w (carried wt ++ inflight rest) (sw_used w) →
  service_inv (settle w rest (run_waiter t_add now wt (sw_service w))).
Proof.
  intros Hph Hw. pose proof Hw as [Hc Hq Hids _ _ _]. rewrite Hph in Hc. unfold service_inv; simpl.
  eapply settle_inv; [done|eapply run_waiter_section; [exact Hc|]|by intros r []|].
  - intros d Hd. apply Hq. apply elem_of_app. by right.
  - intros d id Hd. apply Hids. apply elem_of_app. by right.
Qed.

Lemma svc_inv_todo w todo todo' used :
  (∀ d, d ∈ todo ↔ d ∈ todo') → svc_inv w todo used → svc_inv w todo' used.
Proof.
  intros Heq [Hc Hq Hids Hdet Haft Hlog]. split; try done.
  - by eapply coupled_todo.
  - intros d Hd%Heq. by apply Hq.
  - intros d id Hd%Heq. by apply Hids.
Qed.

Lemma arrive_inv w now (wt : Waiter) :
  svc_inv w (inflight (sw_queue w ++ [wt])) (sw_used w) → service_inv (arrive t_add now wt w).
Proof.
  intros Hw. unfold arrive.
  assert (service_inv {| sw_service := sw_service w; sw_phase := sw_phase w; sw_queue := sw_queue w ++ [wt];
    sw_stop_queue := sw_stop_queue w; sw_stopping := sw_stopping w; sw_used := sw_used w; sw_log := sw_log w |}) as Hq.
  { destruct Hw as [? ? ? Hdet Haft ?]. split; [done|done|done|exact Hdet|exact Haft|done]. }
  destruct (sw_phase w) eqn:Hph; try exact Hq. destruct (sw_queue w) eqn:Hqu; [|exact Hq].
  apply run_inv; [done|]. simpl in Hw. unfold inflight in *; simpl in *. by rewrite app_nil_r in Hw |- *.
Qed.

(** A lock-free call only drops: an expiry becomes a decision to apply. *)
Lemma lock_free_drops (s : Svc) now c :
  lifecycle_wf (sv_lifecycle s) →
  match run_lock_free t_add now c s with
  | (s', r) => sv_registry s' = sv_registry s ∧ sv_pending_stops s' = sv_pending_stops s ∧
      match r with
      | Ok reply => drops ∅ (sv_lifecycle s) (sv_lifecycle s') [] ∧ reply_ok reply
      | Err (LeaseFailure NoActiveBinding) => drops ∅ (sv_lifecycle s) (sv_lifecycle s') []
      | Err (LeaseFailure (LeaseExpired id od)) =>
          drops ∅ (sv_lifecycle s) (sv_lifecycle s') (option_list od) ∧
          dict_get (ll_active (sv_lifecycle s')) id = None ∧
          ∀ d, od = Some d → d_runtime_to_stop d = None ∧ d_lease_id d = Some id ∧
                              is_Some (dict_get (ll_active (sv_lifecycle s)) id)
      | Err _ => False
      end
  end.
Proof.
  intros Hwf. unfold run_lock_free, py_bind, on_lifecycle. destruct c as [id|id|id].
  - pose proof (heartbeat_drops t_add _ id now Hwf) as D.
    destruct (heartbeat t_add now id _) as [L [l|[]]]; simpl; naive_solver.
  - pose proof (require_drops t_add _ id now Hwf) as D. unfold lease_binding_for, require_active, py_bind.
    destruct (_require_active_locked t_add id now _) as [L [l|[]]]; simpl; try naive_solver.
    destruct D as (-> & _). destruct (dl_binding l); simpl; split_and!; try done; by apply drops_refl.
  - pose proof (require_drops t_add _ id now Hwf) as D. unfold require_active.
    destruct (_require_active_locked t_add id now _) as [L [l|[]]]; simpl; try naive_solver.
    destruct D as (-> & _). split_and!; try done; by apply drops_refl.
Qed.

Lemma lifecycle_step_inv w (s' : Svc) ds new used' log :
  service_inv w → sv_registry s' = sv_registry (sw_service w) →
  sv_pending_stops s' = sv_pending_stops (sw_service w) →
  drops new (sv_lifecycle (sw_service w)) (sv_lifecycle s') ds → used' = new ∪ sw_used w →
  new ## sw_used w →
  (∀ d, d ∈ ds → d_runtime_to_stop d = None ∧
     ∀ id, d_lease_id d = Some id → id ∈ sw_used w ∧ dict_get (ll_active (sv_lifecycle s')) id = None) →
  Forall reply_ok log →
  svc_inv (with_service w s' used' log) (inflight (sw_queue w) ++ ds) used'.
Proof.
  intros [Hc Hq Hids Hdet Haft Hlog] Hreg Hpend D -> Hnew Hds Hl. split; simpl.
  - rewrite Hreg. by apply (coupled_drops new _ _ _ _ _ _ _ Hc).
  - intros d [Hd|Hd]%elem_of_app.
    + destruct (Hq d Hd) as [? Hdead]. split; [done|]. intros id Hid.
      destruct (dict_get _ id) as [l|] eqn:Hact; [|done].
      destruct (dr_active _ _ _ _ D id) as [[? Ha]|Hn]; [eauto|by rewrite Hdead in Ha|].
      destruct (Hnew id Hn). by apply (Hids d).
    + destruct (Hds d Hd) as [? Hd']. split; [done|]. intros id Hid. by apply Hd'.
  - intros d id [Hd|Hd]%elem_of_app Hid; apply elem_of_union_r; [by eapply Hids|].
    destruct (Hds d Hd) as [_ Hd']. by apply Hd'.
  - intros r Ho. rewrite Hreg. apply Hdet. unfold outstanding in *; simpl in *. by rewrite <-Hpend.
  - exact Haft.
  - by apply Forall_app.
Qed.

(** A lock-free call that found its lease expired: its decision is one more to
    apply. *)
Lemma lock_free_expiry_inv w now c :
  service_inv w →
  match run_lock_free t_add now c (sw_service w) with
  | (s', Err (LeaseFailure (LeaseExpired id od))) =>
      svc_inv (with_service w s' (sw_used w) []) (inflight (sw_queue w ++ [WClean id od])) (sw_used w)
  | _ => True
  end.
Proof.
  intros Hw. pose proof Hw as [Hc _ _ _ _ _].
  pose proof (lock_free_drops (sw_service w) now c (cp_life _ _ _ _ _ Hc)) as Hspec.
  destruct (run_lock_free t_add now c (sw_service w)) as [s' [?|[[id od| | | | |]| |]]]; try done.
  destruct Hspec as (Hreg & Hpend & D & Hdead & Hd). rewrite inflight_snoc.
  apply (lifecycle_step_inv w s' (option_list od) ∅ (sw_used w) []); try done;
    [by rewrite (left_id_L ∅ (∪))|].
  intros d Hin. destruct od as [d'|]; [|by apply elem_of_nil in Hin].
  apply list_elem_of_singleton in Hin as ->. destruct (Hd d' eq_refl) as (? & Hid & Hact). split; [done|].
  intros j Hj. rewrite Hid in Hj. injection Hj as <-. split; [|done].
  apply (cp_active_used _ _ _ _ _ Hc). by left.
Qed.

Lemma lock_free_inv w now c : service_inv w → service_inv (lock_free t_add now c w).
Proof.
  intros Hw. pose proof Hw as [Hc _ _ _ _ _]. pose proof (lock_free_expiry_inv w now c Hw) as Hexp. unfold lock_free.
  pose proof (lock_free_drops (sw_service w) now c (cp_life _ _ _ _ _ Hc)) as Hspec.
  destruct (run_lock_free t_add now c (sw_service w)) as [s' r]. destruct Hspec as (Hreg & Hpend & Hr).
  assert (∀ log, drops ∅ (sv_lifecycle (sw_service w)) (sv_lifecycle s') [] → Forall reply_ok log →
            service_inv (with_service w s' (sw_used w) log)) as Hquiet.
  { intros log D Hl. pose proof (lifecycle_step_inv w s' [] ∅ (sw_used w) log Hw Hreg Hpend D) as Hs.
    rewrite app_nil_r in Hs.
    apply Hs; [by rewrite (left_id_L ∅ (∪))|set_solver|by intros d ?%elem_of_nil|done]. }
  destruct r as [reply|[[id od| | | | |]|e|]]; try done.
  - destruct Hr as [D Hok]. apply Hquiet; [done|by constructor].
  - by apply arrive_inv.
  - apply Hquiet; [done|by constructor].
Qed.

Lemma issue_dropped w now fresh :
  service_inv w → fresh ∉ sw_used w →
  ∃ L l, acquire_lease now fresh None (sv_lifecycle (sw_service w)) = (L, Ok l) ∧
         drops {[fresh]} (sv_lifecycle (sw_service w)) L [].
Proof.
  intros [Hc _ _ _ _ _] Hf. apply (issue_drops t_add); [apply (cp_life _ _ _ _ _ Hc)|].
  pose proof (cp_active_used _ _ _ _ _ Hc fresh) as Hau. split.
  - destruct (dict_get _ fresh) eqn:Ha; [|done]. destruct Hf. apply Hau. left. eauto.
  - intros He. apply Hf, Hau. by right.
Qed.

Lemma issue_inv w now fresh : fresh ∉ sw_used w → service_inv w → service_inv (issue_lease now fresh w).
Proof.
  intros Hf Hw. destruct (issue_dropped w now fresh Hw Hf) as (L & l & Heq & D).
  unfold issue_lease. rewrite (on_lifecycle_eq _ _ _ _ Heq).
  pose proof (lifecycle_step_inv w (with_lifecycle (sw_service w) L) [] {[fresh]} _
    [ReplyIssued l] Hw eq_refl eq_refl D eq_refl) as Hs. rewrite app_nil_r in Hs.
  apply Hs; [set_solver|by intros d ?%elem_of_nil|by constructor].
Qed.

(** *** Stopping *)

Lemma setdefault_elem (d : list (R * R)) r x : x ∈ (setdefault_stop d r).*2 → x ∈ d.*2 ∨ x = r.
Proof.
  unfold setdefault_stop. destruct (dict_get d r) as [?|] eqn:Hd; [by left|].
  apply dict_get_None in Hd. induction d as [|[k v] d IH]; csimpl.
  - intros ->%list_elem_of_singleton. by right.
  - rewrite decide_False by (intros ->; apply Hd; left). csimpl.
    intros [->|Hx]%elem_of_cons; [left; left|]. destruct IH as [?|?]; [|done|left; by right|by right].
    intros Hin. apply Hd. by right.
Qed.

Lemma stop_enter_elem targets : ∀ (d : list (R * R)) x, x ∈ (stop_enter targets d).*2 → x ∈ d.*2 ∨ x ∈ targets.
Proof.
  induction targets as [|r targets IH]; intros d x; [by left|].
  change (stop_enter (r :: targets) d) with (stop_enter targets (setdefault_stop d r)).
  intros [[?| ->]%setdefault_elem|?]%IH; [by left|right; left|right; by right].
Qed.

Lemma dict_set_values (d : list (R * R)) k v x : x ∈ (dict_set d k v).*2 → x ∈ d.*2 ∨ x = v.
Proof.
  induction d as [|[k' v'] d IH]; csimpl.
  - intros ->%list_elem_of_singleton. by right.
  - case_decide; csimpl; intros [->|Hx]%elem_of_cons.
    + by right.
    + left. by right.
    + left. left.
    + apply IH in Hx as [?|?]; [left; by right|by right].
Qed.

Lemma dict_del_values (d : list (R * R)) k x : x ∈ (dict_del d k).*2 → x ∈ d.*2.
Proof.
  intros ([k' v] & -> & [_ Hin]%dict_del_elem)%list_elem_of_fmap. apply list_elem_of_fmap. by exists (k', v).
Qed.

Lemma stop_results_elem own : ∀ handed results (pending : list (R * R)) ok x,
  x ∈ (stop_results own handed results pending ok).1.*2 → x ∈ pending.*2 ∨ x ∈ handed.*2.
Proof.
  induction handed as [|[m r] handed IH]; intros [|st results] pending ok x; simpl; try by left.
  destruct st; intros [Hx|Hx]%IH.
  - left. by eapply dict_del_values.
  - right. csimpl. by right.
  - apply dict_set_values in Hx as [?| ->]; [by left|]. right. csimpl. left.
  - right. csimpl. by right.
Qed.

(** Moving runtimes between the stop queue, the stopper and the pending map. *)
Lemma stop_move_inv w w' :
  service_inv w → sw_phase w' = sw_phase w → sw_queue w' = sw_queue w → sw_used w' = sw_used w →
  sv_lifecycle (sw_service w') = sv_lifecycle (sw_service w) →
  sv_registry (sw_service w') = sv_registry (sw_service w) →
  (∀ r, outstanding w' r → outstanding w r) → (∀ k, unfinished w' k → unfinished w k) →
  Forall reply_ok (sw_log w') → service_inv w'.
Proof.
  intros [Hc Hq Hids Hdet Haft Hlog] Hph Hqu Hus HL Hg Ho Hu Hl. unfold service_inv. rewrite Hqu, Hus.
  split; rewrite ?HL, ?Hg, ?Hph; try done.
  - intros r Hr. by apply Hdet, Ho.
  - intros k Hk. by apply Haft, Hu.
Qed.

Lemma begin_stop_inv w targets k rest :
  service_inv w → sw_stopping w = None → sw_stop_queue w = (targets, k) :: rest →
  service_inv (begin_stop targets k rest w).
Proof.
  intros Hw Hst Hq. pose proof Hw as [_ _ _ _ Haft Hlog].
  assert (unfinished w k) as Hk by (left; exists targets; rewrite Hq; left).
  assert (∀ r, r ∈ (stop_enter targets (sv_pending_stops (sw_service w))).*2 → outstanding w r) as Hent.
  { intros r [?|?]%stop_enter_elem; [right; by right|]. left. exists (targets, k). rewrite Hq. split; [left|done]. }
  apply (stop_move_inv w); try done; simpl.
  - intros r [(x & Hx & Hin)|[(own & k' & handed & Heq & Hin)|Hin]]; simpl in *.
    + left. exists x. rewrite Hq. split; [by right|done].
    + destruct (nonempty _); simplify_eq. apply elem_of_app in Hin as [Hin|Hin]; [|by apply Hent].
      left. exists (own, k'). rewrite Hq. split; [left|done].
    + by apply Hent.
  - intros k' [(rs & Hin)|(own & handed & Heq)]; simpl in *.
    + left. exists rs. rewrite Hq. by right.
    + destruct (nonempty _); by simplify_eq.
  - apply Forall_app. split; [done|]. destruct (nonempty _); constructor; [|done]. by apply Haft.
Qed.

Lemma end_stop_inv w own k handed results :
  service_inv w → sw_stopping w = Some (own, k, handed) → service_inv (end_stop own k handed results w).
Proof.
  intros Hw Hst. pose proof Hw as [_ _ _ _ Haft Hlog].
  assert (unfinished w k) as Hk by (right; eauto). unfold end_stop.
  pose proof (stop_results_elem own handed results (sv_pending_stops (sw_service w)) true) as Hres.
  destruct (stop_results _ _ _ _ _) as [pending stopped].
  apply (stop_move_inv w); try done; simpl.
  - intros r [?|[(? & ? & ? & ? & _)|Hin]]; simpl in *; [by left|done|].
    apply Hres in Hin as [?|Hin]; [right; by right|]. right. left. exists own, k, handed.
    split; [done|]. apply elem_of_app. by right.
  - intros k' [?|(own' & handed' & ?)]; simpl in *; [by left|done].
  - apply Forall_app. split; [done|]. constructor; [|done]. by apply Haft.
Qed.

Lemma event_promises w (ev : @activation_event I R T) :
  event_ok w ev →
  event_fine (sv_registry (sw_service w)) (sw_used w) ev ∧ ∀ r, event_new ev r → ¬ outstanding w r.
Proof.
  destruct ev as [mk fresh| | |]; simpl; try (split; [done|by intros r []]). intros [Hmk Hf].
  split; [split; [done|]; intros i; specialize (Hmk i); by destruct (mk i) as [r|e]; [apply Hmk|]|].
  intros r [i Hi]. specialize (Hmk i). rewrite Hi in Hmk. apply Hmk.
Qed.

Lemma resume_inv w ev : service_inv w → event_ok w ev → service_inv (resume t_add ev w).
Proof.
  intros Hw Hev. pose proof Hw as [Hc Hq Hids _ _ _]. destruct (event_promises w ev Hev) as [Hf Hn].
  pose proof (activation_step_section (sw_service w) (sw_phase w) ev _ _ Hc Hq Hf) as Hs.
  pose proof (settle_inv w _ _ _ _ (sw_queue w) _ _ _ Hw Hs Hn) as Hinv.
  destruct Hinv as [? ? ? ? ? ?]; [intros d id Hd Hid; apply elem_of_union_r; by eapply Hids|].
  by split.
Qed.

Lemma service_step_inv w w' : service_inv w → service_step t_add w w' → service_inv w'.
Proof.
  intros Hw [now fresh Hf|now c|now wt Hcl|now wt rest Hph Hq|ev Hph Hev|targets k rest Hst Hq|own k handed results Hst Hlen].
  - by apply issue_inv.
  - by apply lock_free_inv.
  - apply arrive_inv. rewrite inflight_snoc. destruct wt; try done; by rewrite app_nil_r.
  - apply run_inv; [done|]. unfold service_inv in Hw. by rewrite Hq in Hw.
  - by apply resume_inv.
  - by apply begin_stop_inv.
  - by apply end_stop_inv.
Qed.

Lemma service_start_inv zero hb ex grace (L : Life) :
  lifecycle_init zero hb ex grace = Ok L → service_inv (service_start L).
Proof.
  intros Hinit. pose proof (reachable_wf t_add _ (LReachInit t_add _ _ _ _ _ Hinit)) as Hwf.
  unfold lifecycle_init in Hinit. repeat case_match; simplify_eq.
  split; simpl; [|by intros d ?%elem_of_nil|by intros d id ?%elem_of_nil| | |constructor].
  - split; simpl.
    + done.
    + split; [split|..]; intros *; simpl; by rewrite lookup_empty.
    + done.
    + intros id b (l & ? & _). done.
    + intros id b. by rewrite lookup_empty.
    + intros id b s b' _. by rewrite lookup_empty.
    + intros lid l. by rewrite lookup_empty.
    + intros i j e e'. by rewrite lookup_empty.
    + by intros d b ?%elem_of_nil.
    + by intros d i r ?%elem_of_nil.
    + by rewrite dom_empty_L.
    + intros id [[? ?]|?]; [done|set_solver].
    + by intros id b [(l & ? & _)|(d & ?%elem_of_nil & _)].
    + done.
  - intros r [(k & ?%elem_of_nil & _)|[(? & ? & ? & ? & _)|?%elem_of_nil]]; done.
  - intros k [(rs & ?%elem_of_nil)|(? & ? & ?)]; done.
Qed.

Lemma service_reachable_inv w : service_reachable t_add w → service_inv w.
Proof.
  intros (zero & hb & ex & grace & L & Hinit & Hsteps).
  assert (∀ w1 w2, rtc (service_step t_add) w1 w2 → service_inv w1 → service_inv w2) as Hind.
  { induction 1; eauto using service_step_inv. }
  eapply Hind; [done|]. by eapply service_start_inv.
Qed.

(** *** Reference counts and holders *)

(** The sessions bound to [i] and the leases of [i] are in bijection. *)
Lemma lease_count_sessions g i (holders : gset uuid) :
  registry_wf g →
  (∀ lid l, reg_leases g !! lid = Some l → ∃ s b, reg_bindings g !! s = Some b ∧ blid b = lid) →
  (∀ id, id ∈ holders ↔ ∃ b, reg_bindings g !! id = Some b ∧ binding_identity b = i) →
  lease_count i (reg_leases g) = size holders.
Proof.
  intros Hwf Hbound Hh. unfold lease_count. rewrite <-size_dom. unfold size, set_size, compose.
  set (f := λ id : uuid, from_option blid 1%positive (reg_bindings g !! id)).
  rewrite <-(length_fmap f (elements holders)). apply Permutation_length. apply NoDup_Permutation.
  - apply NoDup_elements.
  - apply NoDup_fmap_2_strong; [|apply NoDup_elements]. unfold f.
    intros x y (b & Hx & _)%elem_of_elements%Hh (b' & Hy & _)%elem_of_elements%Hh. rewrite Hx, Hy; simpl.
    by apply (wf_bound_once _ Hwf x y b b').
  - intros lid. rewrite elem_of_elements, elem_of_dom, list_elem_of_fmap. split.
    + intros [l [Hl Hi]%map_lookup_filter_Some]; simpl in Hi. destruct (Hbound _ _ Hl) as (s & b & Hs & <-).
      exists s. unfold f. rewrite Hs. split; [done|]. apply elem_of_elements, Hh. exists b. split; [done|].
      pose proof (wf_bound_live _ Hwf _ _ Hs) as Hl'. unfold blid in Hl. unfold binding_identity. congruence.
    + intros (s & -> & (b & Hs & Hi)%elem_of_elements%Hh). unfold f. rewrite Hs; simpl.
      exists (binding_lease b). apply map_lookup_filter_Some. split; [|done]. by apply (wf_bound_live _ Hwf s).
Qed.

Lemma count_is_holders L g used i e :
  coupled L g Unlocked [] used → reg_runtimes g !! i = Some e →
  reference_count e = Z.of_nat (active_holders i L).
Proof.
  intros Hc He. pose proof (λ id b, live_unlocked _ _ _ _ id b Hc) as Hlive.
  destruct Hc as [Hl Hr Htr _ Hown Hsole Hle _ _ _ _ _ _ _].
  rewrite (core_count _ (wf_core _ Hr) _ _ He). f_equal. unfold active_holders.
  assert (∀ id, bound_to L i id ↔ ∃ b, reg_bindings g !! id = Some b ∧ binding_identity b = i) as Hbt.
  { intros id. split.
    - intros (l & b & Ha & Hb & Hi). exists b. split; [|done]. apply Hlive. by exists l.
    - intros (b & Hb & Hi). apply Hown in Hb as [[(l & Ha & Hlb)|(d & ?%elem_of_nil & _)]|[]]; [|done].
      by exists l, b. }
  assert (∀ lid l, reg_leases g !! lid = Some l → ∃ s b, reg_bindings g !! s = Some b ∧ blid b = lid) as Hall.
  { intros lid l Hlid. by apply Hle in Hlid as [?|?]. }
  destruct (dict_get (ll_workspaces L) i) as [ws|] eqn:Hws.
  - apply lease_count_sessions; [done..|]. intros id. by rewrite (lw_holders _ Hl _ _ Hws), Hbt.
  - rewrite (lease_count_sessions g i ∅ Hr Hall); [by rewrite size_empty|].
    intros id. rewrite <-Hbt. split; [set_solver|]. intros Hb. by destruct (untracked_unbound L i id Hl Hws).
Qed.

(** *** Executions in which no cleanup has to wait *)

(** A step after which no expired lease's decision waits for the lock. *)
Definition calm_step w w' : Prop := service_step t_add w w' ∧ inflight (sw_queue w') = [].

Definition calm_reachable w : Prop :=
  ∃ zero heartbeat expiry grace L,
    lifecycle_init zero heartbeat expiry grace = Ok L ∧ rtc calm_step (service_start L) w.

Definition calm w : Prop := calm_in (sw_service w) (sw_phase w).

Lemma settle_calm w queue c new used out :
  section_good c new used [] (sw_service w) out → c → calm (settle w queue out).
Proof. intros (s' & ph & k & -> & _ & _ & _ & _ & Ha & _) Hx. by apply Ha. Qed.

Lemma run_calm w now (wt : Waiter) rest :
  sw_phase w = Unlocked → svc_inv w (carried wt ++ inflight rest) (sw_used w) → inflight rest = [] →
  accounted (sv_lifecycle (sw_service w)) (sv_registry (sw_service w)) Unlocked (carried wt) →
  calm (settle w rest (run_waiter t_add now wt (sw_service w))).
Proof.
  intros Hph [Hc Hq _ _ _ _] Hrest Ha. rewrite Hph in Hc. rewrite Hrest in *.
  eapply settle_calm; [eapply run_waiter_section; [exact Hc|by intros d ?%elem_of_nil]|done].
Qed.

Lemma arrive_calm w now (wt : Waiter) :
  svc_inv w (inflight (sw_queue w ++ [wt])) (sw_used w) → inflight (sw_queue (arrive t_add now wt w)) = [] →
  accounted (sv_lifecycle (sw_service w)) (sv_registry (sw_service w)) (sw_phase w) (carried wt) →
  calm (arrive t_add now wt w).
Proof.
  intros Hw Hnone Ha.
  assert (∀ q, inflight (q ++ [wt]) = [] →
    accounted (sv_lifecycle (sw_service w)) (sv_registry (sw_service w)) (sw_phase w) []) as Hq.
  { intros q Hq. rewrite inflight_snoc in Hq. apply app_eq_nil in Hq as [_ Hq]. by rewrite Hq in Ha. }
  revert Hnone. unfold arrive. destruct (sw_phase w) eqn:Hph;
    [destruct (sw_queue w) as [|w0 q0] eqn:Hqu|..]; intros Hnone;
    try (exact (Hq _ Hnone)); try (exact (Hq (w0 :: q0) Hnone)).
  apply run_calm; [done| |done|done]. unfold inflight in *; simpl in *. by rewrite app_nil_r in Hw |- *.
Qed.

Lemma calm_lifecycle w (s' : Svc) new used log :
  service_inv w → inflight (sw_queue w) = [] → sv_registry s' = sv_registry (sw_service w) →
  drops new (sv_lifecycle (sw_service w)) (sv_lifecycle s') [] → calm w → calm (with_service w s' used log).
Proof.
  intros [Hc _ _ _ _ _] Hnone Hreg D Ha. unfold calm, calm_in; simpl. rewrite Hreg. rewrite Hnone in Hc.
  exact (accounted_drops _ _ _ _ _ _ _ _ Hc D Ha).
Qed.

Lemma lock_free_calm w now c :
  service_inv w → inflight (sw_queue w) = [] → calm w →
  inflight (sw_queue (lock_free t_add now c w)) = [] → calm (lock_free t_add now c w).
Proof.
  intros Hw Hnone Ha. pose proof Hw as [Hc _ _ _ _ _]. pose proof (lock_free_expiry_inv w now c Hw) as Hexp.
  unfold lock_free.
  pose proof (lock_free_drops (sw_service w) now c (cp_life _ _ _ _ _ Hc)) as Hspec.
  destruct (run_lock_free t_add now c (sw_service w)) as [s' r]. destruct Hspec as (Hreg & Hpend & Hr).
  destruct r as [reply|[[id od| | | | |]|e|]]; try done; intros Hq.
  - by apply (calm_lifecycle w s' ∅); try apply Hr.
  - destruct Hr as (D & _). apply arrive_calm; [exact Hexp|exact Hq|]. simpl. rewrite Hreg.
    by eapply calm_drops.
  - by apply (calm_lifecycle w s' ∅).
Qed.

Lemma calm_step_inv w w' :
  service_inv w → inflight (sw_queue w) = [] → calm w → calm_step w w' → calm w'.
Proof.
  intros Hw Hnone Ha [Hstep Hnone']. pose proof Hw as [Hc Hq _ _ _ _].
  destruct Hstep as [now fresh Hf|now c|now wt Hcl|now wt rest Hph Hqu|ev Hph Hev|targets k rest Hst Hqu
    |own k handed results Hst Hlen].
  - destruct (issue_dropped w now fresh Hw Hf) as (L & l & Heq & D). unfold issue_lease.
    rewrite (on_lifecycle_eq _ _ _ _ Heq). by apply (calm_lifecycle w _ {[fresh]}).
  - by apply lock_free_calm.
  - apply arrive_calm; [|done|by destruct wt]. rewrite inflight_snoc. destruct wt; try done; by rewrite app_nil_r.
  - rewrite Hqu in Hnone. unfold inflight in Hnone; simpl in Hnone. apply app_eq_nil in Hnone as [Hcar Hrest].
    apply run_calm; [done| |done|].
    + unfold service_inv in Hw. by rewrite Hqu in Hw.
    + rewrite Hcar. unfold calm in Ha. by rewrite Hph in Ha.
  - destruct (event_promises w ev Hev) as [Hf _]. rewrite Hnone in Hc, Hq.
    pose proof (activation_step_section (sw_service w) (sw_phase w) ev _ _ Hc Hq Hf) as Hs.
    exact (settle_calm w (sw_queue w) _ _ _ _ Hs (conj eq_refl Ha)).
  - exact Ha.
  - unfold end_stop. destruct (stop_results _ _ _ _ _). exact Ha.
Qed.

Lemma calm_reachable_inv w :
  calm_reachable w → service_reachable t_add w ∧ service_inv w ∧ inflight (sw_queue w) = [] ∧ calm w.
Proof.
  intros (zero & hb & ex & grace & L & Hinit & Hsteps). pose proof (service_start_inv _ _ _ _ _ Hinit) as Hw.
  assert (∀ w1 w2, rtc calm_step w1 w2 → service_inv w1 → inflight (sw_queue w1) = [] → calm w1 →
    rtc (service_step t_add) w1 w2 ∧ service_inv w2 ∧ inflight (sw_queue w2) = [] ∧ calm w2) as Hind.
  { induction 1 as [|w1 w2 w3 Hs _ IH]; [by auto using rtc_refl|]. intros H1 H2 H3.
    destruct IH as (? & ? & ? & ?); [by eapply service_step_inv; [|apply Hs]|apply Hs|by eapply calm_step_inv|].
    split_and!; [|done..]. eapply rtc_l; [apply Hs|done]. }
  destruct (Hind _ _ Hsteps Hw) as (? & ? & ? & ?); [done|by intros i e; simpl; rewrite lookup_empty|].
  split_and!; [|done..]. by exists zero, hb, ex, grace, L.
Qed.
End coupling.
