(* ===== verification/ServiceProps.v ===== *)
(** * What the daemon service guarantees

    Consequences of the coupling invariant of [Coupling] for clients of the
    service, the exact behaviour of [_stop_runtimes], and one race of
    [service.py] as a concrete execution. *)

From S2P Require Import Prelude Json Registry Leases Replies Service Coupling.

Section properties.
Context {I R P T : Type}.
Context `{Countable I, EqDecision R, EqDecision P, !PyOrd T} (t_add : T → T → T).
Implicit Types w : @service_world I R P T _ _.

(** C7: In every execution of the service, whatever the interleaving of
    locked sections, lock-free calls, suspended activations and stops, lease
    lifecycle and registry stay consistent: a tracked workspace is served by
    its registered runtime, and a live bound lease is bound alike in the
    registry, with one exception: while an activation holds the lock between the
    commit in the registry and the rebinding in the lifecycle, its own lease is
    already bound to the new workspace in the registry. No call ever fails
    internally: no exception escapes a locked section, and an activation
    reports only the factory's or the refresh's failure. In particular the
    runtime conflicts of [LeaseLifecycle.rebind] and the registry's
    [BindingChanged] cannot happen through the service. *)
Theorem service_invariant w :
  service_reachable t_add w →
  let L := sv_lifecycle (sw_service w) in
  let g := sv_registry (sw_service w) in
  lifecycle_wf L ∧ registry_wf g ∧
  (∀ i ws, dict_get (ll_workspaces L) i = Some ws →
     ∃ e, reg_runtimes g !! i = Some e ∧ entry_runtime e = ws_runtime ws) ∧
  (∀ id b, bound_as L id b →
     reg_bindings g !! id = Some b ∨
     ∃ p b', sw_phase w = Rebinding id p b' ∧ b' = prepared_binding p ∧ reg_bindings g !! id = Some b') ∧
  Forall reply_ok (sw_log w).
Proof.
  intros [Hc _ _ _ _ Hlog]%service_reachable_inv. pose proof (cp_phase _ _ _ _ _ Hc) as Hphase. cbn zeta.
  split_and!; [apply Hc..| |done]. intros id b Hb. pose proof (cp_live _ _ _ _ _ Hc id b Hb) as Hlive.
  destruct (sw_phase w) as [| | | |id' p b']; try (left; by apply Hlive; intros []).
  destruct (decide (id = id')) as [<-|Hne]; [|left; apply Hlive; simpl; congruence].
  right. destruct Hphase as (-> & ? & _). eauto.
Qed.

(** C29: A runtime on its way to the stopper, being stopped, or left pending by
    a failed stop is out of the registry for good: it is not registered for any
    workspace, and no live lease is bound to it. *)
Theorem stopping_runtime_unused w r :
  service_reachable t_add w → outstanding w r →
  ¬ registered (sv_registry (sw_service w)) r ∧
  ∀ id b, bound_as (sv_lifecycle (sw_service w)) id b → binding_runtime b ≠ r.
Proof.
  intros [Hc _ _ Hdet _ _]%service_reachable_inv Ho. apply Hdet in Ho. split; [done|].
  intros id b (l & Hl & Hb) <-. apply Ho.
  destruct (lw_bound _ (cp_life _ _ _ _ _ Hc) _ _ _ Hl Hb) as (ws & Hws & Hrt).
  destruct (cp_tracked _ _ _ _ _ Hc _ _ Hws) as (e & He & Hee). eexists _, e. split; [exact He|]. by rewrite Hee.
Qed.

(** Whenever the lock is free and no expired lease waits for its cleanup,
    the reference count of every registered runtime is exactly the number of
    live daemon leases bound to its workspace. *)
Theorem reference_count_is_holders w i e :
  service_reachable t_add w → sw_phase w = Unlocked → inflight (sw_queue w) = [] →
  reg_runtimes (sv_registry (sw_service w)) !! i = Some e →
  reference_count e = Z.of_nat (active_holders i (sv_lifecycle (sw_service w))).
Proof.
  intros [Hc _ _ _ _ _]%service_reachable_inv Hph Hq. rewrite Hph, Hq in Hc. by eapply count_is_holders.
Qed.

(** As long as no expired lease ever has to wait for the lock to be
    cleaned up, no runtime is stranded: between activations every registered
    runtime belongs to a workspace the lifecycle still tracks (so it will be
    stopped by a release or a sweep), and an idle daemon has no registered
    runtime left. *)
Theorem calm_service_strands_nothing w :
  calm_reachable t_add w → sw_phase w = Unlocked →
  (∀ i e, reg_runtimes (sv_registry (sw_service w)) !! i = Some e →
     is_Some (dict_get (ll_workspaces (sv_lifecycle (sw_service w))) i)) ∧
  (svc_daemon_idle (sw_service w) = true → reg_runtimes (sv_registry (sw_service w)) = ∅).
Proof.
  intros (_ & _ & _ & Hcalm)%calm_reachable_inv Hph. unfold calm in Hcalm. rewrite Hph in Hcalm.
  assert (∀ i e, reg_runtimes (sv_registry (sw_service w)) !! i = Some e →
     is_Some (dict_get (ll_workspaces (sv_lifecycle (sw_service w))) i)) as Htr.
  { intros i e He. destruct (Hcalm i e He) as [Ht|[(d & ?%elem_of_nil & _)|[]]]; [|done].
    unfold untracked in Ht. destruct (dict_get _ i); [eauto|done]. }
  split; [exact Htr|]. intros Hidle. apply map_empty. intros i.
  destruct (reg_runtimes _ !! i) as [e|] eqn:He; [|done]. destruct (Htr i e He) as [ws Hws].
  unfold svc_daemon_idle, daemon_idle in Hidle. destruct (ll_workspaces _); [done|].
  by rewrite andb_false_r in Hidle.
Qed.

(** *** [_stop_runtimes] *)

(** A pending map keyed by the objects themselves. *)
Definition self_keyed (pending : list (R * R)) : Prop := NoDup pending.*1 ∧ Forall (λ p, p.1 = p.2) pending.

Lemma setdefault_keyed pending r :
  self_keyed pending → self_keyed (setdefault_stop pending r) ∧
  ∀ x, x ∈ (setdefault_stop pending r).*1 ↔ x ∈ pending.*1 ∨ x = r.
Proof.
  intros [Hnd Hall]. unfold setdefault_stop. destruct (dict_get pending r) as [y|] eqn:Hr.
  - split; [done|]. intros x. split; [by left|]. intros [?| ->]; [done|].
    apply dict_get_Some_elem in Hr. apply list_elem_of_fmap. by exists (r, y).
  - assert (r ∉ pending.*1) as Hnin by (by apply dict_get_None). split; [split|].
    + by apply dict_set_nodup.
    + rewrite Forall_forall in *. intros [a b] Hab. apply (dict_set_elem pending r r a b Hnd) in Hab as
        [[-> ->]|[_ Hab]]; [done|]. by apply (Hall (a, b)).
    + intros x. rewrite dict_set_keys, decide_False by done. rewrite elem_of_app, list_elem_of_singleton. done.
Qed.

Lemma stop_enter_keyed runtimes : ∀ pending,
  self_keyed pending → self_keyed (stop_enter runtimes pending) ∧
  ∀ x, x ∈ (stop_enter runtimes pending).*1 ↔ x ∈ pending.*1 ∨ x ∈ runtimes.
Proof.
  induction runtimes as [|r runtimes IH]; intros pending Hk; [simpl; set_solver|].
  change (stop_enter (r :: runtimes) pending) with (stop_enter runtimes (setdefault_stop pending r)).
  destruct (setdefault_keyed pending r Hk) as [Hk1 Hin1]. destruct (IH _ Hk1) as [Hk2 Hin2].
  split; [done|]. intros x. rewrite Hin2, Hin1, elem_of_cons. tauto.
Qed.

Lemma stop_results_spec own stop handed : ∀ pending ok,
  self_keyed handed → self_keyed pending → (∀ x, x ∈ handed.*1 → x ∈ pending.*1) →
  let out := stop_results own handed ((λ p, stop p.2) <$> handed) pending ok in
  self_keyed out.1 ∧
  (∀ x, x ∈ out.1.*1 ↔ x ∈ pending.*1 ∧ (x ∈ handed.*1 → stop x = false)) ∧
  (out.2 = true ↔ ok = true ∧ ∀ x, x ∈ own → x ∈ handed.*1 → stop x = true).
Proof.
  induction handed as [|[m r] handed IH]; intros pending ok [Hnd Hall] Hk Hsub; simpl.
  { split_and!; [done| |].
    - intros x. split; [intros ?; split; [done|by intros ?%elem_of_nil]|by intros [? _]].
    - split; [intros ->; split; [done|by intros x _ ?%elem_of_nil]|by intros [-> _]]. }
  apply NoDup_cons in Hnd as [Hm Hnd]. apply Forall_cons in Hall as [Heq Hall]. simpl in Heq. subst r.
  csimpl in Hsub. destruct (stop m) eqn:Hstop.
  - destruct Hk as [Hkd Hka]. destruct (IH (dict_del pending m) ok) as (Hk1 & Hin1 & Hok1); [done| | |].
    + split; [by apply dict_del_nodup|]. rewrite Forall_forall in *.
      intros [a b] [_ Hab]%dict_del_elem. by apply (Hka (a, b)).
    + intros x Hx. rewrite dict_del_keys. apply list_elem_of_filter. split; [by intros ->|]. apply Hsub. by right.
    + split_and!; [done| |].
      * intros x. rewrite Hin1, dict_del_keys, list_elem_of_filter. csimpl. rewrite elem_of_cons.
        split.
        -- intros [[Hne ?] Hx]. split; [done|]. intros [?|?]; [done|by apply Hx].
        -- intros [? Hx]. split; [split; [|done]|intros ?; apply Hx; by right].
           intros ->. rewrite Hx in Hstop; [done|by left].
      * rewrite Hok1. csimpl. setoid_rewrite elem_of_cons. split.
        -- intros [? Hx]. split; [done|]. intros x Ho [->|?]; [done|by apply Hx].
        -- intros [? Hx]. split; [done|]. intros x Ho ?. apply Hx; [done|by right].
  - assert (m ∈ pending.*1) as Hin by (apply Hsub; left).
    assert (dict_set pending m m = pending) as ->.
    { destruct Hk as [_ Hka]. clear -Hin Hka. induction pending as [|[a b] pending IH]; csimpl in *; [by apply elem_of_nil in Hin|].
      apply Forall_cons in Hka as [Hab Hka]. simpl in Hab. subst b. case_decide; [by subst|].
      f_equal. apply IH; try done. by apply elem_of_cons in Hin as [?|?]. }
    destruct (IH pending (ok && negb (bool_decide (m ∈ own)))) as (Hk1 & Hin1 & Hok1); [done|done| |].
    { intros x Hx. apply Hsub. by right. }
    split_and!; [done| |].
    + intros x. rewrite Hin1. csimpl. rewrite elem_of_cons. split.
      * intros [? Hx]. split; [done|]. intros [->|?]; [done|by apply Hx].
      * intros [? Hx]. split; [done|]. intros ?. apply Hx. by right.
    + rewrite Hok1, andb_true_iff, negb_true_iff, bool_decide_eq_false. csimpl. setoid_rewrite elem_of_cons.
      split.
      * intros [[-> Hno] Hx]. split; [done|]. intros x Hxo [->|?]; [done|by apply Hx].
      * intros [-> Hx]. split; [split; [done|]|intros x ??; apply Hx; [done|by right]].
        intros Ho. rewrite (Hx m Ho) in Hstop; [done|by left].
Qed.

(** One call of [_stop_runtimes] hands every pending runtime, old or its
    own, to the stopper once; afterwards exactly those whose stop failed are
    pending, so a failed stop is retried by the next call; and it returns true
    exactly when all its own targets were stopped, whatever became of the old
    ones. *)
Theorem stop_runtimes_exact (runtimes : list R) (stop : R → bool) (pending : list (R * R)) :
  self_keyed pending →
  let out := _stop_runtimes runtimes stop pending in
  self_keyed out.1 ∧
  (∀ x, x ∈ out.1.*1 ↔ (x ∈ pending.*1 ∨ x ∈ runtimes) ∧ stop x = false) ∧
  (out.2 = true ↔ ∀ x, x ∈ runtimes → stop x = true).
Proof.
  intros Hk. unfold _stop_runtimes. destruct (stop_enter_keyed runtimes pending Hk) as [Hk1 Hin1].
  destruct (stop_results_spec runtimes stop (stop_enter runtimes pending) (stop_enter runtimes pending) true Hk1 Hk1)
    as (Hk2 & Hin2 & Hok2); [done|].
  split_and!; [done| |].
  - intros x. rewrite Hin2, Hin1. tauto.
  - rewrite Hok2. setoid_rewrite Hin1. split; [intros [_ Hx] x ?; apply Hx; auto|]. split; [done|auto].
Qed.
End properties.

(** ** Concrete executions

    Workspaces, runtimes and subdirectories are numbers, the clock counts
    seconds. An action is a step whose side conditions can be computed; the
    factory of a preparation returns the object it is given. *)

Module ServiceRuns.

Abbreviation DemoWorld := (@service_world nat nat nat Z _ _).

Inductive action :=
| AIssue (now : Z) (fresh : uuid)
| AFree (now : Z) (c : lock_free_call)
| AArrive (now : Z) (wt : @waiter nat nat nat Z)
| AWake (now : Z)
| APrepare (runtime : nat) (fresh : uuid)
| ARefreshed (ok : bool) (now : Z)
| ACommit
| ARebind (now : Z)
| AStopBegin
| AStopEnd (ok : bool).

Definition live_runtimes (w : DemoWorld) : list nat :=
  ((λ p, entry_runtime p.2) <$> map_to_list (reg_runtimes (sv_registry (sw_service w)))) ++
  (sw_stop_queue w ≫= fst) ++
  match sw_stopping w with Some (own, _, handed) => own ++ handed.*2 | None => [] end ++
  (sv_pending_stops (sw_service w)).*2.

Definition is_client (wt : @waiter nat nat nat Z) : bool := match wt with WClean _ _ => false | _ => true end.
Definition is_unlocked (ph : @phase nat nat nat) : bool := match ph with Unlocked => true | _ => false end.

Definition act (a : action) (w : DemoWorld) : option DemoWorld :=
  match a with
  | AIssue now fresh => if decide (fresh ∉ sw_used w) then Some (issue_lease now fresh w) else None
  | AFree now c => Some (lock_free Z.add now c w)
  | AArrive now wt => if is_client wt then Some (arrive Z.add now wt w) else None
  | AWake now =>
      match is_unlocked (sw_phase w), sw_queue w with
      | true, wt :: rest => Some (settle w rest (run_waiter Z.add now wt (sw_service w)))
      | _, _ => None
      end
  | APrepare runtime fresh =>
      if negb (is_unlocked (sw_phase w)) && bool_decide (runtime ∉ live_runtimes w) && bool_decide (fresh ∉ sw_used w)
      then Some (resume Z.add (EvPrepare (λ _, Ok runtime) fresh) w) else None
  | ARefreshed ok now =>
      if is_unlocked (sw_phase w) then None else Some (resume Z.add (EvRefreshed ok now) w)
  | ACommit => if is_unlocked (sw_phase w) then None else Some (resume Z.add EvCommit w)
  | ARebind now => if is_unlocked (sw_phase w) then None else Some (resume Z.add (EvRebind now) w)
  | AStopBegin =>
      match sw_stopping w, sw_stop_queue w with
      | None, (targets, k) :: rest => Some (begin_stop targets k rest w)
      | _, _ => None
      end
  | AStopEnd ok =>
      match sw_stopping w with
      | Some (own, k, handed) => Some (end_stop own k handed ((λ _, ok) <$> handed) w)
      | None => None
      end
  end.

Lemma live_runtimes_factory w r : r ∉ live_runtimes w → factory_ok w (λ _, Ok r).
Proof.
  unfold live_runtimes. rewrite !not_elem_of_app. intros (Hreg & Hq & Hs & Hp) _. split.
  - intros (i & e & He & <-). apply Hreg. apply list_elem_of_fmap. exists (i, e). split; [done|].
    by apply elem_of_map_to_list.
  - intros [(k & Hk & Hin)|[(own & k & handed & Heq & Hin)|Hin]]; [|by rewrite Heq in Hs|done].
    apply Hq. apply list_elem_of_bind. eauto.
Qed.

Lemma act_step a w w' : act a w = Some w' → service_step Z.add w w'.
Proof.
  assert (∀ ph, is_unlocked ph = false → ph ≠ Unlocked) as Hlock by (by intros []).
  destruct a as [now fresh|now c|now wt|now|r fresh|ok now| |now| |ok]; simpl; intros Ha.
  - case_decide; simplify_eq. by constructor.
  - simplify_eq. constructor.
  - destruct (is_client wt) eqn:Hcl; simplify_eq. constructor. by destruct wt.
  - destruct (is_unlocked (sw_phase w)) eqn:Hph; [|done]. destruct (sw_queue w) as [|wt rest] eqn:Hq; simplify_eq.
    apply step_wake; [|done]. by destruct (sw_phase w).
  - destruct (is_unlocked (sw_phase w)) eqn:Hph; [done|]. simpl in Ha.
    destruct (bool_decide (r ∉ live_runtimes w)) eqn:Hr; [|done]. apply bool_decide_eq_true in Hr.
    destruct (bool_decide (fresh ∉ sw_used w)) eqn:Hf; [|done]. apply bool_decide_eq_true in Hf. simplify_eq/=.
    apply step_resume; [by apply Hlock|]. split; [by apply live_runtimes_factory|done].
  - destruct (is_unlocked (sw_phase w)) eqn:Hph; simplify_eq. apply step_resume; [by apply Hlock|done].
  - destruct (is_unlocked (sw_phase w)) eqn:Hph; simplify_eq. apply step_resume; [by apply Hlock|done].
  - destruct (is_unlocked (sw_phase w)) eqn:Hph; simplify_eq. apply step_resume; [by apply Hlock|done].
  - destruct (sw_stopping w) eqn:Hst; [done|]. destruct (sw_stop_queue w) as [|[targets k] rest] eqn:Hq; simplify_eq.
    by apply step_stop_begin.
  - destruct (sw_stopping w) as [[[own k] handed]|] eqn:Hst; simplify_eq. apply step_stop_end; [done|].
    by rewrite length_fmap.
Qed.

Fixpoint run_actions (l : list action) (w : DemoWorld) : option DemoWorld :=
  match l with
  | [] => Some w
  | a :: l => match act a w with Some w' => run_actions l w' | None => None end
  end.

(** The same, refusing to let a cleanup wait. *)
Fixpoint run_calm_actions (l : list action) (w : DemoWorld) : option DemoWorld :=
  match l with
  | [] => Some w
  | a :: l =>
      match act a w with
      | Some w' => if nonempty (inflight (sw_queue w')) then None else run_calm_actions l w'
      | None => None
      end
  end.

Definition demo_lifecycle : @LeaseLifecycle (WorkspaceBinding nat nat nat) nat nat Z :=
  {| ll_heartbeat_interval := 15; ll_expiry := 60; ll_warm_grace := 600;
     ll_active := []; ll_expired := ∅; ll_workspaces := [] |}.
Definition demo_start : DemoWorld := service_start demo_lifecycle.

Lemma run_actions_reachable l w : run_actions l demo_start = Some w → service_reachable Z.add w.
Proof.
  intros Hrun. exists 0, 15, 60, 600, demo_lifecycle. split; [done|]. revert Hrun. fold demo_start.
  generalize demo_start. induction l as [|a l IH]; intros w0; simpl; [intros [= ->]; apply rtc_refl|].
  destruct (act a w0) as [w1|] eqn:Ha; [|done]. intros Hrun. eapply rtc_l; [by eapply act_step|by apply IH].
Qed.

Lemma run_calm_reachable l w : run_calm_actions l demo_start = Some w → calm_reachable Z.add w.
Proof.
  intros Hrun. exists 0, 15, 60, 600, demo_lifecycle. split; [done|]. revert Hrun. fold demo_start.
  generalize demo_start. induction l as [|a l IH]; intros w0; simpl; [intros [= ->]; apply rtc_refl|].
  destruct (act a w0) as [w1|] eqn:Ha; [|done]. destruct (inflight (sw_queue w1)) eqn:Hq; [|done].
  intros Hrun. eapply (rtc_l _ _ w1); [|by apply IH]. split; [by eapply act_step|done].
Qed.

Definition in_workspace (i : nat) : ResolvedWorkspace nat nat :=
  {| resolved_identity := i; resolved_subdirectory := 0%nat |}.

(** A whole activation at time [now] that nothing interrupts. *)
Definition activation (now : Z) (id : uuid) (i runtime : nat) (fresh : uuid) : list action :=
  [AArrive now (WActivate id (in_workspace i)); APrepare runtime fresh; ARefreshed true now; ACommit;
   ARebind now; AStopBegin].

(** Leases 1 and 2 share workspace 7. *)
Definition sharing : list action :=
  [AIssue 0 1%positive; AIssue 50 2%positive; AIssue 50 3%positive] ++
  activation 1 1%positive 7 107 11%positive ++ activation 50 2%positive 7 207 12%positive.

(** Lease 3 activates workspace 8 and keeps the lock while the runtime is
    built. The release of lease 2 queues up; then a late heartbeat finds lease
    1 expired, and its cleanup queues up behind the release. The activation
    fails; the release runs while lease 1 still counts as a reference, and the
    cleanup that drops the last reference stops nothing. *)
Definition race : list action :=
  sharing ++
  [AArrive 55 (WActivate 3%positive (in_workspace 8)); AArrive 58 (WRelease 2%positive true);
   AFree 61 (LFHeartbeat 1%positive); APrepare 108 13%positive; ARefreshed false 61;
   AWake 62; AWake 62; AStopBegin; AStopEnd true; AStopBegin; AStopBegin;
   AArrive 63 (WRelease 3%positive true); AStopBegin].

Definition raced : DemoWorld := default demo_start (run_actions race demo_start).

Lemma raced_run : run_actions race demo_start = Some raced.
Proof. vm_compute. reflexivity. Qed.

(** The reply to the release of lease 2. *)
Definition raced_result : @ReleaseResult (WorkspaceBinding nat nat nat) nat nat Z :=
  {| rr_released := true;
     rr_decision := Some {|
       d_reason := RELEASED; d_identity := Some 7%nat; d_active_holders := 0;
       d_binding_to_release := Some {|
         binding_lease := {| lease_id := 12; lease_identity := 7%nat; lease_runtime := 107%nat |};
         binding_subdirectory := 0%nat |};
       d_lease_id := Some 2%positive; d_runtime_to_stop := Some 107%nat; d_grace_deadline := None |} |}.

(** The calm hypothesis is needed: when the cleanup of an expired lease
    waits behind an immediate release of the same workspace, the release tells
    its caller that the runtime was stopped although nothing was, and the
    runtime stays registered for ever: no lease refers to it, the lifecycle
    does not track its workspace, no call holds it for stopping, nothing waits
    for the lock, and the daemon reports itself idle. *)
Theorem release_race_strands_runtime :
  service_reachable Z.add raced ∧
  Replied (AfterRelease 2%positive true raced_result) true ∈ sw_log raced ∧
  dict_get (_stop_fields (rr_decision raced_result) true) (lit "runtime_stopped") = Some (JBool true) ∧
  reg_runtimes (sv_registry (sw_service raced)) !! 7%nat =
    Some {| entry_runtime := 107%nat; reference_count := 0 |} ∧
  dict_get (ll_workspaces (sv_lifecycle (sw_service raced))) 7%nat = None ∧
  ¬ outstanding raced 107%nat ∧
  sw_phase raced = Unlocked ∧ sw_queue raced = [] ∧ svc_daemon_idle (sw_service raced) = true.
Proof.
  split_and!; try (vm_compute; reflexivity).
  - exact (run_actions_reachable _ _ raced_run).
  - apply list_elem_of_lookup. exists 6%nat. vm_compute. reflexivity.
  - assert (sw_stop_queue raced = []) as Hq by (vm_compute; reflexivity).
    assert (sw_stopping raced = None) as Hs by (vm_compute; reflexivity).
    assert (sv_pending_stops (sw_service raced) = []) as Hp by (vm_compute; reflexivity).
    unfold outstanding. rewrite Hq, Hs, Hp.
    intros [(k & ?%elem_of_nil & _)|[(own & k & handed & ? & _)|?%elem_of_nil]]; done.
Qed.

(** Two leases share a runtime; one leaves at once, then the other. *)
Definition shared : DemoWorld := default demo_start (run_calm_actions sharing demo_start).
Definition left_one : DemoWorld :=
  default demo_start (run_calm_actions (sharing ++ [AArrive 52 (WRelease 1%positive true); AStopBegin]) demo_start).
Definition left_both : DemoWorld :=
  default demo_start (run_calm_actions (sharing ++
    [AArrive 52 (WRelease 1%positive true); AStopBegin; AArrive 53 (WRelease 2%positive true); AStopBegin;
     AStopEnd false]) demo_start).

Lemma left_one_run : run_actions (sharing ++ [AArrive 52 (WRelease 1%positive true); AStopBegin]) demo_start = Some left_one.
Proof. vm_compute. reflexivity. Qed.
Lemma left_both_run : run_actions (sharing ++
    [AArrive 52 (WRelease 1%positive true); AStopBegin; AArrive 53 (WRelease 2%positive true); AStopBegin;
     AStopEnd false]) demo_start = Some left_both.
Proof. vm_compute. reflexivity. Qed.
Lemma left_one_calm :
  run_calm_actions (sharing ++ [AArrive 52 (WRelease 1%positive true); AStopBegin]) demo_start = Some left_one.
Proof. vm_compute. reflexivity. Qed.

Lemma service_invariant_witness :
  registry_wf (sv_registry (sw_service left_one)) ∧ Forall reply_ok (sw_log left_one).
Proof.
  destruct (service_invariant Z.add left_one (run_actions_reachable _ _ left_one_run)) as (_ & ? & _ & _ & ?).
  split; assumption.
Defined.

Lemma stopping_runtime_unused_witness :
  outstanding left_both 107%nat ∧ ¬ registered (sv_registry (sw_service left_both)) 107%nat.
Proof.
  assert (outstanding left_both 107%nat) as Ho.
  { right. right. apply list_elem_of_lookup. exists 0%nat. vm_compute. reflexivity. }
  split; [exact Ho|].
  apply (stopping_runtime_unused Z.add left_both 107%nat (run_actions_reachable _ _ left_both_run) Ho).
Defined.

Lemma reference_count_is_holders_witness :
  ∃ e, reg_runtimes (sv_registry (sw_service left_one)) !! 7%nat = Some e ∧
       reference_count e = Z.of_nat (active_holders 7%nat (sv_lifecycle (sw_service left_one))).
Proof.
  exists {| entry_runtime := 107%nat; reference_count := 1 |}. split; [vm_compute; reflexivity|].
  apply (reference_count_is_holders Z.add left_one 7%nat _ (run_actions_reachable _ _ left_one_run));
    vm_compute; reflexivity.
Defined.

Lemma calm_service_strands_nothing_witness :
  is_Some (dict_get (ll_workspaces (sv_lifecycle (sw_service left_one))) 7%nat).
Proof.
  apply (proj1 (calm_service_strands_nothing Z.add left_one (run_calm_reachable _ _ left_one_calm) eq_refl) 7%nat
           {| entry_runtime := 107%nat; reference_count := 1 |}).
  vm_compute. reflexivity.
Defined.

Lemma stop_runtimes_exact_witness :
  _stop_runtimes [5%nat] (λ r, bool_decide (r = 5%nat)) [(3%nat, 3%nat)] = ([(3%nat, 3%nat)], true) ∧
  ((_stop_runtimes [5%nat] (λ r, bool_decide (r = 5%nat)) [(3%nat, 3%nat)]).2 = true ↔
     ∀ x, x ∈ [5%nat] → bool_decide (x = 5%nat) = true).
Proof.
  split; [vm_compute; reflexivity|].
  apply (stop_runtimes_exact [5%nat] (λ r, bool_decide (r = 5%nat)) [(3%nat, 3%nat)]).
  split; [apply NoDup_singleton|by constructor].
Defined.
End ServiceRuns.
