(* ===== verification/Compact.v ===== *)
(** * Compact navigation answers

    Model of [src/serena_light/tools/compact.py]: the compact records and their
    construction checks, exact deduplication and ordering, grouping by file,
    and the two bounded renderers with their budget errors.

    Values enter typed, so the [isinstance] guards that only reject ill-typed
    arguments disappear; the ones a caller can reach with a JSON argument
    ([validate_max_answer_chars], [validate_max_matches], [compact_range],
    [_copy_json]) take a [pyany]. The SHA-256 digest is a parameter. *)

From S2P Require Import Prelude Paths Json Envelopes.

(** ** Limits and kinds *)

Definition DEFAULT_MAX_ANSWER_CHARS : Z := 12000.
Definition MIN_MAX_ANSWER_CHARS : Z := 512.
Definition MAX_MAX_ANSWER_CHARS : Z := 50000.
Definition DEFAULT_MAX_MATCHES : Z := 20.
Definition MIN_MAX_MATCHES : Z := 1.
Definition MAX_MAX_MATCHES : Z := 100.

Inductive compact_error :=
| BadMaxAnswerChars
| BadMaxMatches
| BadKindFilter
| BadPublicRange
| BadRawRange
| RangeEndPrecedesStart
| BadCompactRange
| ExactlyOneRange
| BadPositionBasis
| EmptyString
| PathNotAFile
| BadSha256
| EmptyFileGroup
| WrongRecordType
| NegativeOmitted
| CoverageOnlyForReferences
| BadCoverage
| MixedRecordTypes
| ConflictingFileValue
| ConflictingSha256
| BodyRequiresSha256
| OverviewNeedsSymbols
| OverviewHasSha256
| BadMinimumChars
| BadRecoveryTarget
| BudgetErrorTooLarge
| StructuralWithoutChild
| EnvelopeFailed (e : envelope_error).

Definition CompactPosition : Type := Z * Z.
Definition CompactRange : Type := CompactPosition * CompactPosition.

Inductive RecordKey := SYMBOLS | REFERENCES | TARGETS.
#[export] Instance RecordKey_eq_dec : EqDecision RecordKey.
Proof. solve_decision. Defined.

Definition record_key_name (k : RecordKey) : pystr :=
  match k with SYMBOLS => lit "symbols" | REFERENCES => lit "references" | TARGETS => lit "targets" end.

Definition _SYMBOL_KINDS : list pystr :=
  lit <$> ["file"; "module"; "namespace"; "package"; "class"; "method"; "property"; "field"; "constructor"; "enum";
           "interface"; "function"; "variable"; "constant"; "string"; "number"; "boolean"; "array"; "object"; "key";
           "null"; "enum_member"; "struct"; "event"; "operator"; "type_parameter"]%string.

Definition validate_max_answer_chars (value : pyany) : res compact_error Z :=
  match value with
  | PInt z => if bool_decide (MIN_MAX_ANSWER_CHARS ≤ z ≤ MAX_MAX_ANSWER_CHARS) then Ok z else Err BadMaxAnswerChars
  | _ => Err BadMaxAnswerChars
  end.

Definition validate_max_matches (value : pyany) : res compact_error Z :=
  match value with
  | PInt z => if bool_decide (MIN_MAX_MATCHES ≤ z ≤ MAX_MAX_MATCHES) then Ok z else Err BadMaxMatches
  | _ => Err BadMaxMatches
  end.

Definition symbol_kind (value : Z) : pystr :=
  if bool_decide (1 ≤ value ≤ 26) then default [] (_SYMBOL_KINDS !! Z.to_nat (value - 1))
  else lit "unknown:" ++ dec value.

(** ** Checks *)

Definition _non_empty (s : pystr) : res compact_error unit := ensure (nonempty s) EmptyString.

Definition _validate_compact_range (r : CompactRange) : res compact_error unit :=
  let '((sl, sc), (el, ec)) := r in
  _ ← ensure (forallb (λ z, bool_decide (0 ≤ z)) [sl; sc; el; ec]) BadCompactRange;
  ensure (negb (py_ltb (el, ec) (sl, sc))) RangeEndPrecedesStart.

Definition raw_basis_prefix : pystr := lit "lsp_zero_based_line_".
Definition starts_with (prefix s : pystr) : bool := bool_decide (take (length prefix) s = prefix).

Definition _validate_coordinate_choice (decoded raw : option CompactRange) (basis : option pystr)
    : res compact_error unit :=
  match decoded, raw with
  | None, None | Some _, Some _ => Err ExactlyOneRange
  | Some r, None =>
      _ ← _validate_compact_range r;
      match basis with Some _ => Err BadPositionBasis | None => Ok tt end
  | None, Some r =>
      _ ← _validate_compact_range r;
      match basis with
      | Some b => ensure (starts_with raw_basis_prefix b) BadPositionBasis
      | None => Err BadPositionBasis
      end
  end.

(** [posixpath.normpath] of an absolute path, without its leading slashes. *)
Fixpoint norm_comps_abs (acc comps : list pystr) : list pystr :=
  match comps with
  | [] => reverse acc
  | comp :: comps =>
      if bool_decide (comp = []) || bool_decide (comp = dot) then norm_comps_abs acc comps
      else if bool_decide (comp ≠ dotdot) then norm_comps_abs (comp :: acc) comps
      else match acc with [] => norm_comps_abs [] comps | _ :: acc' => norm_comps_abs acc' comps end
  end.

Definition _normalize_path (value : pystr) : res compact_error pystr :=
  _ ← _non_empty value;
  let normalized := if bool_decide (head value = Some cp_slash)
                    then cp_slash :: join_slash (norm_comps_abs [] (split_slash value))
                    else normpath value in
  if bool_decide (normalized = dot) then Err PathNotAFile else Ok normalized.

Definition _valid_sha256 (s : pystr) : bool :=
  bool_decide (length s = 64%nat) &&
  forallb (λ c, ((48 <=? c)%N && (c <=? 57)%N) || ((97 <=? c)%N && (c <=? 102)%N)) s.

(** ** Ranges from public values *)

Definition any_get (v : pyany) (k : string) : option pyany :=
  match v with
  | PMapping items => dict_get items (Some (lit k))
  | _ => None
  end.

(** [mapping.get(field)] as a non-negative integer that is not a boolean. *)
Definition nat_field (v : pyany) (k : string) : option Z :=
  match any_get v k with
  | Some (PInt z) => if bool_decide (0 ≤ z) then Some z else None
  | _ => None
  end.

Definition _compact_position (raw : option pyany) (second : string) (e : compact_error) : res compact_error CompactPosition :=
  match raw with
  | Some v =>
      match nat_field v "line", nat_field v second with
      | Some l, Some c => Ok (l, c)
      | _, _ => Err e
      end
  | None => Err e
  end.

Definition compact_range (public_range : pyany) : res compact_error CompactRange :=
  start ← _compact_position (any_get public_range "start") "column" BadPublicRange;
  stop ← _compact_position (any_get public_range "end") "column" BadPublicRange;
  if py_ltb stop start then Err RangeEndPrecedesStart else Ok (start, stop).

Definition compact_raw_lsp_range (raw_range : pyany) : res compact_error (CompactRange * pystr) :=
  match any_get raw_range "basis" with
  | Some (PStr basis) =>
      _ ← ensure (starts_with raw_basis_prefix basis) BadRawRange;
      start ← _compact_position (any_get raw_range "start") "character" BadRawRange;
      stop ← _compact_position (any_get raw_range "end") "character" BadRawRange;
      if py_ltb stop start then Err RangeEndPrecedesStart else Ok (start, stop, basis)
  | _ => Err BadRawRange
  end.

(** ** Records *)

Inductive CompactOverviewSymbol :=
| Overview (name : pystr) (kind : Z) (children : list CompactOverviewSymbol) (intrinsic_match : bool).

Definition ov_name (s : CompactOverviewSymbol) : pystr := match s with Overview n _ _ _ => n end.
Definition ov_children (s : CompactOverviewSymbol) : list CompactOverviewSymbol := match s with Overview _ _ c _ => c end.
Definition ov_intrinsic (s : CompactOverviewSymbol) : bool := match s with Overview _ _ _ i => i end.

Definition overview_init (name : pystr) (kind : Z) (children : list CompactOverviewSymbol) (im : bool)
    : res compact_error CompactOverviewSymbol :=
  _ ← _non_empty name; Ok (Overview name kind children im).

Fixpoint overview_dict (s : CompactOverviewSymbol) : json :=
  match s with
  | Overview name kind children _ =>
      JObj ([(lit "name", JStr name); (lit "kind", JStr (symbol_kind kind))] ++
            match children with [] => [] | _ => [(lit "children", JList (overview_dict <$> children))] end)
  end.

Fixpoint node_count (s : CompactOverviewSymbol) : nat :=
  match s with Overview _ _ children _ => S (sum_list_with node_count children) end.

Record CompactSymbolMatch := {
  sm_name_path : pystr; sm_kind : Z; sm_range : CompactRange; sm_body : option pystr; sm_info : option pystr }.

Record CompactReference := {
  rf_range : option CompactRange; rf_symbol : option pystr; rf_snippet : option pystr;
  rf_raw_range : option CompactRange; rf_position_basis : option pystr }.

Record CompactTarget := {
  tg_range : option CompactRange; tg_name_path : option pystr; tg_kind : option Z; tg_body : option pystr;
  tg_info : option pystr; tg_raw_range : option CompactRange; tg_position_basis : option pystr }.

Definition symbol_match_init (m : CompactSymbolMatch) : res compact_error CompactSymbolMatch :=
  _ ← _non_empty (sm_name_path m); _ ← _validate_compact_range (sm_range m); Ok m.

(** [if x is not None: _non_empty(x)] *)
Definition non_empty_opt (s : option pystr) : res compact_error unit :=
  match s with Some x => _non_empty x | None => Ok tt end.

Definition reference_init (r : CompactReference) : res compact_error CompactReference :=
  _ ← _validate_coordinate_choice (rf_range r) (rf_raw_range r) (rf_position_basis r);
  _ ← non_empty_opt (rf_symbol r); Ok r.

Definition target_init (t : CompactTarget) : res compact_error CompactTarget :=
  _ ← _validate_coordinate_choice (tg_range t) (tg_raw_range t) (tg_position_basis t);
  _ ← non_empty_opt (tg_name_path t); Ok t.

Definition _range_json (r : CompactRange) : json :=
  JList [JList [JInt r.1.1; JInt r.1.2]; JList [JInt r.2.1; JInt r.2.2]].

Definition symbol_match_dict (m : CompactSymbolMatch) : json :=
  JObj ([(lit "name_path", JStr (sm_name_path m)); (lit "kind", JStr (symbol_kind (sm_kind m)));
         (lit "range", _range_json (sm_range m))] ++
        entry "body" (JStr <$> sm_body m) ++ entry "info" (JStr <$> sm_info m)).

(** The coordinate part shared by references and targets. *)
Definition coordinate_dict (range raw : option CompactRange) (basis : option pystr) : list (pystr * json) :=
  match range with
  | Some r => [(lit "range", _range_json r)]
  | None => entry "raw_range" (_range_json <$> raw) ++ entry "position_basis" (JStr <$> basis)
  end.

Definition reference_dict (r : CompactReference) : json :=
  JObj (coordinate_dict (rf_range r) (rf_raw_range r) (rf_position_basis r) ++
        entry "symbol" (JStr <$> rf_symbol r) ++ entry "snippet" (JStr <$> rf_snippet r)).

Definition target_dict (t : CompactTarget) : json :=
  JObj (coordinate_dict (tg_range t) (tg_raw_range t) (tg_position_basis t) ++
        entry "name_path" (JStr <$> tg_name_path t) ++
        entry "kind" (JStr <$> (symbol_kind <$> tg_kind t)) ++
        entry "body" (JStr <$> tg_body t) ++ entry "info" (JStr <$> tg_info t)).

Inductive CompactFlatRecord :=
| FSymbol (m : CompactSymbolMatch)
| FReference (r : CompactReference)
| FTarget (t : CompactTarget).

Definition flat_dict (r : CompactFlatRecord) : json :=
  match r with
  | FSymbol m => symbol_match_dict m
  | FReference r => reference_dict r
  | FTarget t => target_dict t
  end.

Definition _record_key (r : CompactFlatRecord) : RecordKey :=
  match r with FSymbol _ => SYMBOLS | FReference _ => REFERENCES | FTarget _ => TARGETS end.

Definition record_body (r : CompactFlatRecord) : option pystr :=
  match r with FSymbol m => sm_body m | FReference _ => None | FTarget t => tg_body t end.

Definition _record_has_body (r : CompactFlatRecord) : bool :=
  match record_body r with Some _ => true | None => false end.

(** *** Kind filters *)

Fixpoint parse_digits (acc : Z) (s : pystr) : option Z :=
  match s with
  | [] => Some acc
  | c :: s => if (48 <=? c)%N && (c <=? 57)%N then parse_digits (acc * 10 + Z.of_N (c - 48)) s else None
  end.

(** [int(s)] of [-?\d+] *)
Definition parse_int (s : pystr) : option Z :=
  match s with
  | [] => None
  | c :: rest =>
      if (c =? 45)%N then match rest with [] => None | _ => Z.opp <$> parse_digits 0 rest end
      else parse_digits 0 s
  end.

Definition unknown_prefix : pystr := lit "unknown:".

Definition _valid_kind_label (value : pystr) : bool :=
  bool_decide (value ∈ _SYMBOL_KINDS) ||
  (starts_with unknown_prefix value &&
   match parse_int (drop (length unknown_prefix) value) with
   | Some z => bool_decide (symbol_kind z = value)
   | None => false
   end).

Definition _validate_kind_filter (value : option (list pystr)) : res compact_error (list pystr) :=
  match value with
  | None => Ok []
  | Some kinds =>
      _ ← ensure (forallb _valid_kind_label kinds) BadKindFilter;
      Ok (py_sorted id (remove_dups kinds))
  end.

Definition validate_overview_kind_filters (include exclude : option (list pystr))
    : res compact_error (list pystr * list pystr) :=
  i ← _validate_kind_filter include; e ← _validate_kind_filter exclude; Ok (i, e).

(** *** Files and answers *)

Record LocatedCompactRecord := {
  lr_path : pystr; lr_record : CompactFlatRecord; lr_language : option pystr;
  lr_read_only : option bool; lr_sha256 : option pystr }.

Definition located_init (path : pystr) (record : CompactFlatRecord) (language : option pystr)
    (read_only : option bool) (sha : option pystr) : res compact_error LocatedCompactRecord :=
  p ← _normalize_path path;
  _ ← non_empty_opt language;
  _ ← ensure (match sha with Some s => _valid_sha256 s | None => true end) BadSha256;
  Ok {| lr_path := p; lr_record := record; lr_language := language;
        lr_read_only := match read_only with Some false => None | r => r end;
        lr_sha256 := if _record_has_body record then sha else None |}.

Inductive CompactRecord := ROverview (s : CompactOverviewSymbol) | RFlat (r : CompactFlatRecord).

Definition record_dict (r : CompactRecord) : json :=
  match r with ROverview s => overview_dict s | RFlat r => flat_dict r end.

Record CompactFile := {
  cf_path : pystr; cf_record_key : RecordKey; cf_records : list CompactRecord;
  cf_language : option pystr; cf_read_only : option bool; cf_sha256 : option pystr }.

Definition record_allowed (k : RecordKey) (r : CompactRecord) : bool :=
  match k, r with
  | SYMBOLS, (ROverview _ | RFlat (FSymbol _)) => true
  | REFERENCES, RFlat (FReference _) => true
  | TARGETS, RFlat (FTarget _) => true
  | _, _ => false
  end.

Definition file_init (path : pystr) (k : RecordKey) (records : list CompactRecord) (language : option pystr)
    (read_only : option bool) (sha : option pystr) : res compact_error CompactFile :=
  p ← _normalize_path path;
  _ ← ensure (nonempty records) EmptyFileGroup;
  _ ← ensure (forallb (record_allowed k) records) WrongRecordType;
  _ ← ensure (match sha with Some s => _valid_sha256 s | None => true end) BadSha256;
  Ok {| cf_path := p; cf_record_key := k; cf_records := records; cf_language := language;
        cf_read_only := read_only; cf_sha256 := sha |}.

Definition file_dict (f : CompactFile) : json :=
  JObj ([(lit "path", JStr (cf_path f))] ++ entry "language" (JStr <$> cf_language f) ++
        (if bool_decide (cf_read_only f = Some true) then [(lit "read_only", JBool true)] else []) ++
        entry "sha256" (JStr <$> cf_sha256 f) ++
        [(record_key_name (cf_record_key f), JList (record_dict <$> cf_records f))]).

(** [_copy_json]: like the envelope copy, without the secret-key rule. *)
Fixpoint _copy_json (v : pyany) : res compact_error json :=
  match v with
  | PNone => Ok JNull
  | PBool b => Ok (JBool b)
  | PStr s => Ok (JStr s)
  | PInt z => Ok (JInt z)
  | PFloat r finite => if finite then Ok (JFloat r) else Err BadCoverage
  | PMapping items =>
      kvs ← (fix go (l : list (option pystr * pyany)) : res compact_error (list (pystr * json)) :=
        match l with
        | [] => Ok []
        | (None, _) :: _ => Err BadCoverage
        | (Some k, x) :: l => y ← _copy_json x; ys ← go l; Ok ((k, y) :: ys)
        end) items;
      Ok (JObj kvs)
  | PSequence items =>
      ys ← (fix go (l : list pyany) : res compact_error (list json) :=
        match l with
        | [] => Ok []
        | x :: l => y ← _copy_json x; ys ← go l; Ok (y :: ys)
        end) items;
      Ok (JList ys)
  | PException | POther => Err BadCoverage
  end.

Record CompactNavigationSuccess := {
  ns_workspace : pystr; ns_files : list CompactFile; ns_omitted : Z; ns_coverage : option json }.

Definition navigation_success_init (workspace : pystr) (files : list CompactFile) (omitted : Z)
    (coverage : option pyany) : res compact_error CompactNavigationSuccess :=
  _ ← _non_empty workspace;
  _ ← ensure (bool_decide (0 ≤ omitted)) NegativeOmitted;
  cov ← match coverage with
        | None => Ok None
        | Some c =>
            _ ← ensure (forallb (λ f, bool_decide (cf_record_key f = REFERENCES)) files) CoverageOnlyForReferences;
            j ← _copy_json c;
            match j with JObj _ => Ok (Some j) | _ => Err BadCoverage end
        end;
  Ok {| ns_workspace := workspace; ns_files := files; ns_omitted := omitted; ns_coverage := cov |}.

Definition navigation_success_dict (s : CompactNavigationSuccess) : json :=
  JObj [(lit "ok", JBool true);
        (lit "data", JObj ([(lit "workspace", JStr (ns_workspace s)); (lit "files", JList (file_dict <$> ns_files s))] ++
                           entry "coverage" (ns_coverage s) ++ [(lit "omitted", JInt (ns_omitted s))]))].

Definition canonical_json (v : json) : pystr := json_dumps v.
#[local] Arguments canonical_json : simpl never.

(** ** Ordering and deduplication *)

Definition _located_record_dict (i : LocatedCompactRecord) : json :=
  JObj [(lit "path", JStr (lr_path i)); (lit "language", default JNull (JStr <$> lr_language i));
        (lit "read_only", default JNull (JBool <$> lr_read_only i));
        (lit "sha256", default JNull (JStr <$> lr_sha256 i)); (lit "record", flat_dict (lr_record i))].

(** A constructed reference or target has exactly one of its two ranges, so the
    default below stands for the assertion that cannot fail. *)
Definition zero_range : CompactRange := ((0, 0), (0, 0)).

Definition selected_range (r : CompactFlatRecord) : CompactRange :=
  match r with
  | FSymbol m => sm_range m
  | FReference r => match rf_range r with Some x => x | None => default zero_range (rf_raw_range r) end
  | FTarget t => match tg_range t with Some x => x | None => default zero_range (tg_raw_range t) end
  end.

Definition order_name (r : CompactFlatRecord) : pystr :=
  match r with FSymbol m => sm_name_path m | FReference r => default [] (rf_symbol r) | FTarget t => default [] (tg_name_path t) end.

Definition order_kind (r : CompactFlatRecord) : pystr :=
  match r with
  | FSymbol m => symbol_kind (sm_kind m)
  | FReference _ => []
  | FTarget t => default [] (symbol_kind <$> tg_kind t)
  end.

Definition order_key : Type := pystr * Z * Z * Z * Z * pystr * pystr * pystr.

Definition _record_order_key (i : LocatedCompactRecord) : order_key :=
  let r := selected_range (lr_record i) in
  (lr_path i, r.1.1, r.1.2, r.2.1, r.2.2, order_name (lr_record i), order_kind (lr_record i),
   canonical_json (_located_record_dict i)).

(** The loop with its [seen] set of canonical texts. *)
Fixpoint dedup_records (seen : list pystr) (items : list LocatedCompactRecord) : list LocatedCompactRecord :=
  match items with
  | [] => []
  | i :: items =>
      let identity := canonical_json (_located_record_dict i) in
      if decide (identity ∈ seen) then dedup_records seen items
      else i :: dedup_records (identity :: seen) items
  end.

Definition _unique_sorted_records (records : list LocatedCompactRecord) : list LocatedCompactRecord :=
  dedup_records [] (py_sorted _record_order_key records).

Definition ordered_records (records : list LocatedCompactRecord) : list LocatedCompactRecord :=
  _unique_sorted_records records.

(** ** Grouping *)

Definition _LANGUAGE_SUFFIXES : list (pystr * list pystr) :=
  [(lit "python", [lit ".py"; lit ".pyi"; lit ".pyw"]);
   (lit "typescript", [lit ".cjs"; lit ".cts"; lit ".js"; lit ".jsx"; lit ".mjs"; lit ".mts"; lit ".ts"; lit ".tsx"])].

Definition _infer_language (path : pystr) : option pystr :=
  let suffix := lower_ascii (path_suffix path) in
  fst <$> head (filter (λ ls, suffix ∈ ls.2) _LANGUAGE_SUFFIXES).

(** [_one_file_value]: the one value that is not [None], if any. *)
Definition _one_file_value {A} `{EqDecision A} (values : list (option A)) : res compact_error (option A) :=
  match remove_dups (omap id values) with
  | [] => Ok None
  | [v] => Ok (Some v)
  | _ => Err ConflictingFileValue
  end.

(** [a or b] on optional strings. *)
Definition or_else (a b : option pystr) : option pystr :=
  match a with Some s => if nonempty s then Some s else b | None => b end.

Definition group_file (k : RecordKey) (multiple_languages : bool) (ordered : list LocatedCompactRecord) (path : pystr)
    : res compact_error CompactFile :=
  let items := filter (λ i, lr_path i = path) ordered in
  one ← _one_file_value (lr_language <$> items);
  let language := or_else one (_infer_language path) in
  read_only ← _one_file_value (lr_read_only <$> items);
  let hashes := remove_dups (omap lr_sha256 items) in
  _ ← ensure (bool_decide (length hashes ≤ 1)%nat) ConflictingSha256;
  let has_body := existsb (λ i, _record_has_body (lr_record i)) items in
  let sha := if has_body then head hashes else None in
  _ ← ensure (negb (has_body && bool_decide (sha = None))) BodyRequiresSha256;
  let displayed := match language with
                   | Some l => if multiple_languages || negb (bool_decide (_infer_language path = Some l))
                               then Some l else None
                   | None => None
                   end in
  file_init path k ((λ i, RFlat (lr_record i)) <$> items) displayed read_only sha.

(** [dict.fromkeys]: first occurrences, in order. *)
Fixpoint unique_in_order (l : list pystr) : list pystr :=
  match l with
  | [] => []
  | x :: l => x :: filter (λ y, y ≠ x) (unique_in_order l)
  end.

Definition group_records (records : list LocatedCompactRecord) : res compact_error (list CompactFile) :=
  let ordered := _unique_sorted_records records in
  match ordered with
  | [] => Ok []
  | first :: _ =>
      let k := _record_key (lr_record first) in
      _ ← ensure (forallb (λ i, bool_decide (_record_key (lr_record i) = k)) ordered) MixedRecordTypes;
      let languages := remove_dups (omap (λ i, or_else (lr_language i) (_infer_language (lr_path i))) ordered) in
      let multiple := bool_decide (1 < length languages)%nat in
      map_res (group_file k multiple ordered) (unique_in_order (lr_path <$> ordered))
  end.

(** ** Rendering *)

(** [CallToolResult]: the text block and the structured value. *)
Record CallToolResult := { ct_text : pystr; ct_structured : json }.

Definition render_payload (payload : json) : CallToolResult :=
  {| ct_text := canonical_json payload; ct_structured := payload |}.

Definition render_success (s : CompactNavigationSuccess) : CallToolResult :=
  render_payload (navigation_success_dict s).

Definition _text_length (r : CallToolResult) : Z := Z.of_nat (length (ct_text r)).

Inductive ExactBodyRecoveryAction :=
| OverviewThenFindChildSymbol
| RetryWithMinimumAnswerChars
| FindSymbolLocationThenExactFileRead.

Definition action_name (a : ExactBodyRecoveryAction) : pystr :=
  match a with
  | OverviewThenFindChildSymbol => lit "overview_then_find_child_symbol"
  | RetryWithMinimumAnswerChars => lit "retry_with_minimum_answer_chars"
  | FindSymbolLocationThenExactFileRead => lit "find_symbol_location_then_exact_file_read"
  end.

Record ExactBodyRecovery := { xr_has_children : bool; xr_relative_path : pystr; xr_name_path : pystr }.

Definition recovery_init (has_children : bool) (relative_path name_path : pystr) : res compact_error ExactBodyRecovery :=
  p ← _normalize_path relative_path;
  _ ← _non_empty name_path;
  Ok {| xr_has_children := has_children; xr_relative_path := p; xr_name_path := name_path |}.

Definition _exact_body_recovery_action (recovery : option ExactBodyRecovery) (minimum : Z)
    : option ExactBodyRecoveryAction :=
  match recovery with
  | None => None
  | Some r => if xr_has_children r then Some OverviewThenFindChildSymbol
              else if bool_decide (minimum ≤ MAX_MAX_ANSWER_CHARS) then Some RetryWithMinimumAnswerChars
              else Some FindSymbolLocationThenExactFileRead
  end.

Definition _recovery_relative_path (recovery : option ExactBodyRecovery) : option pystr :=
  match recovery with Some r => if xr_has_children r then Some (xr_relative_path r) else None | None => None end.
Definition _recovery_name_path (recovery : option ExactBodyRecovery) : option pystr :=
  match recovery with Some r => if xr_has_children r then Some (xr_name_path r) else None | None => None end.

(** The metadata of a budget error. *)
Record error_context := {
  ex_workspace : option WorkspaceMetadata;
  ex_adapter : option AdapterMetadata;
  ex_generations : option GenerationMetadata;
  ex_authorities : list pyany;
}.

Section rendering.
Context (sha256_utf8 : pystr → pystr).

Definition _target_identity (value : pystr) : json :=
  JObj [(lit "length", JInt (Z.of_nat (length value))); (lit "sha256", JStr (sha256_utf8 value))].

(** The error payload as the code takes it apart: the optional top-level
    fields and the details dict. *)
Definition error_payload (retry : json) (code : ErrorCode) (details : list (pystr * json)) (rest : list (pystr * json)) : json :=
  JObj ([(lit "ok", JBool false);
         (lit "error", JObj [(lit "code", JStr (code_value code)); (lit "message", JStr (_MESSAGES code));
                             (lit "retry", retry); (lit "details", JObj details)])] ++ rest).

Definition text_size (v : json) : Z := Z.of_nat (length (canonical_json v)).

(** [_replace_oversized_overview_target] on the details. *)
Definition _replace_oversized_overview_target (details : list (pystr * json)) : option (list (pystr * json)) :=
  match dict_get details (lit "next_action"), dict_get details (lit "relative_path"), dict_get details (lit "name_path") with
  | Some (JStr a), Some (JStr rel), Some (JStr name) =>
      if bool_decide (a = action_name OverviewThenFindChildSymbol) then
        let d := dict_del (dict_del details (lit "relative_path")) (lit "name_path") in
        let d := dict_set d (lit "next_action") (JStr (action_name FindSymbolLocationThenExactFileRead)) in
        Some (dict_set d (lit "target")
          (JObj [(lit "relative_path", _target_identity rel); (lit "name_path", _target_identity name)]))
      else None
  | _, _, _ => None
  end.

(** [for field in (...): payload.pop(field, None); if fits: return] *)
Fixpoint shed_fields (mk : list (pystr * json) → json) (rest : list (pystr * json)) (fields : list pystr) (budget : Z)
    : option json * list (pystr * json) :=
  match fields with
  | [] => (None, rest)
  | f :: fields =>
      let rest' := dict_del rest f in
      if bool_decide (text_size (mk rest') ≤ budget) then (Some (mk rest'), rest')
      else shed_fields mk rest' fields budget
  end.

Definition _bound_minimum_required_chars_error (retry : json) (code : ErrorCode) (details rest : list (pystr * json))
    (budget : Z) : res compact_error json :=
  let mk d r := error_payload retry code d r in
  if bool_decide (text_size (mk details rest) ≤ budget) then Ok (mk details rest)
  else
    match shed_fields (mk details) rest [lit "workspace"; lit "adapter"; lit "generations"] budget with
    | (Some p, _) => Ok p
    | (None, rest') =>
        let details' := dict_del details (lit "authorities") in
        if bool_decide (text_size (mk details' rest') ≤ budget) then Ok (mk details' rest')
        else match _replace_oversized_overview_target details' with
             | Some d => if bool_decide (text_size (mk d rest') ≤ budget) then Ok (mk d rest')
                         else Err BudgetErrorTooLarge
             | None => Err BudgetErrorTooLarge
             end
    end.

Definition lift_envelope {A} (r : res envelope_error A) : res compact_error A :=
  match r with Ok a => Ok a | Err e => Err (EnvelopeFailed e) end.

Definition minimum_required_chars_result (minimum : Z) (ctx : error_context)
    (next_action : option ExactBodyRecoveryAction) (relative_path name_path : option pystr) (max_answer_chars : pyany)
    : res compact_error CallToolResult :=
  budget ← validate_max_answer_chars max_answer_chars;
  _ ← ensure (bool_decide (0 ≤ minimum)) BadMinimumChars;
  target ← match relative_path, name_path with
           | None, None => Ok []
           | Some p, Some n =>
               _ ← ensure (match next_action with Some OverviewThenFindChildSymbol => true | _ => false end) BadRecoveryTarget;
               p' ← _normalize_path p;
               _ ← _non_empty n;
               Ok [pstr "relative_path" (PStr p'); pstr "name_path" (PStr n)]
           | _, _ => Err BadRecoveryTarget
           end;
  let details :=
    [pstr "field" (PStr (lit "max_answer_chars")); pstr "minimum_required_chars" (PInt minimum)] ++
    match next_action with Some a => [pstr "next_action" (PStr (action_name a))] | None => [] end ++
    target ++
    match ex_authorities ctx with [] => [] | auth => [pstr "authorities" (PSequence auth)] end in
  envelope ← lift_envelope (error INVALID_INPUT None (Some (PMapping details))
               (ex_workspace ctx) (ex_adapter ctx) (ex_generations ctx));
  match error_dict envelope with
  | JObj (_ :: _ :: rest) =>
      match er_details envelope with
      | JObj ds =>
          payload ← _bound_minimum_required_chars_error JNull INVALID_INPUT ds rest budget;
          Ok (render_payload payload)
      | _ => Err (EnvelopeFailed DetailsNotMapping)
      end
  | _ => Err (EnvelopeFailed DetailsNotMapping)
  end.

Definition _minimum_flat_success_chars (workspace : pystr) (first : LocatedCompactRecord) (total omitted : Z)
    (coverage : option pyany) : res compact_error Z :=
  files ← group_records [first];
  s ← navigation_success_init workspace files (omitted + total - 1) coverage;
  Ok (text_size (navigation_success_dict s)).

(** The loop of [render_bounded_records] on the first [n] of [ordered]. *)
Fixpoint records_loop (workspace : pystr) (ordered : list LocatedCompactRecord) (budget omitted : Z)
    (coverage : option pyany) (ctx : error_context) (recovery : option ExactBodyRecovery) (n : nat)
    : res compact_error CallToolResult :=
  match ordered, n with
  | first :: _, O =>
      minimum ← _minimum_flat_success_chars workspace first (Z.of_nat (length ordered)) omitted coverage;
      minimum_required_chars_result minimum ctx (_exact_body_recovery_action recovery minimum)
        (_recovery_relative_path recovery) (_recovery_name_path recovery) (PInt budget)
  | _, _ =>
      files ← group_records (take n ordered);
      s ← navigation_success_init workspace files (omitted + (Z.of_nat (length ordered) - Z.of_nat n)) coverage;
      let rendered := render_success s in
      if bool_decide (_text_length rendered ≤ budget) then Ok rendered
      else match n with
           | O => minimum_required_chars_result (text_size (navigation_success_dict s)) ctx None None None (PInt budget)
           | S n' => records_loop workspace ordered budget omitted coverage ctx recovery n'
           end
  end.

Definition render_bounded_records (workspace : pystr) (records : list LocatedCompactRecord) (max_answer_chars : pyany)
    (omitted : Z) (coverage : option pyany) (ctx : error_context) (recovery : option ExactBodyRecovery)
    : res compact_error CallToolResult :=
  budget ← validate_max_answer_chars max_answer_chars;
  _ ← ensure (bool_decide (0 ≤ omitted)) NegativeOmitted;
  let ordered := _unique_sorted_records records in
  records_loop workspace ordered budget omitted coverage ctx recovery (length ordered).

(** *** Overview pruning *)

(** What is left of a symbol when its last node goes, and how many nodes went. *)
Fixpoint remove_last_node (s : CompactOverviewSymbol) : option CompactOverviewSymbol * nat :=
  match s with
  | Overview name kind children im =>
      match children with
      | [] => (None, 1%nat)
      | _ =>
          let '(retained_children, removed) :=
            (fix go (l : list CompactOverviewSymbol) : list CompactOverviewSymbol * nat :=
              match l with
              | [] => ([], 0%nat)
              | [x] => match remove_last_node x with
                       | (Some x', r) => ([x'], r)
                       | (None, r) => ([], r)
                       end
              | x :: l => let '(l', r) := go l in (x :: l', r)
              end) children in
          if negb (nonempty retained_children) && negb im then (None, S removed)
          else (Some (Overview name kind retained_children im), removed)
      end
  end.

Fixpoint _remove_last_symbol (l : list CompactOverviewSymbol) : list CompactOverviewSymbol * nat :=
  match l with
  | [] => ([], 0%nat)
  | [x] => match remove_last_node x with
           | (Some x', r) => ([x'], r)
           | (None, r) => ([], r)
           end
  | x :: l => let '(l', r) := _remove_last_symbol l in (x :: l', r)
  end.

Definition as_overview (r : CompactRecord) : option CompactOverviewSymbol :=
  match r with ROverview s => Some s | RFlat _ => None end.

Definition overview_symbols (f : CompactFile) : list CompactOverviewSymbol := omap as_overview (cf_records f).

(** [replace(file, records=retained)] *)
Definition with_symbols (f : CompactFile) (l : list CompactOverviewSymbol) : CompactFile :=
  {| cf_path := cf_path f; cf_record_key := cf_record_key f; cf_records := ROverview <$> l;
     cf_language := cf_language f; cf_read_only := cf_read_only f; cf_sha256 := cf_sha256 f |}.

(** From the last file backwards, the first one with symbols. *)
Fixpoint _remove_last_overview_node (files : list CompactFile) : list CompactFile * nat :=
  match files with
  | [] => ([], 0%nat)
  | f :: rest =>
      match _remove_last_overview_node rest with
      | (rest', S r) => (f :: rest', S r)
      | (_, O) =>
          match overview_symbols f with
          | [] => (files, 0%nat)
          | symbols =>
              let '(retained, removed) := _remove_last_symbol symbols in
              match retained with
              | [] => (rest, removed)
              | _ => (with_symbols f retained :: rest, removed)
              end
          end
      end
  end.

Definition _validated_overview_files (files : list CompactFile) : res compact_error (list CompactFile) :=
  let ordered := py_sorted cf_path files in
  map_res (λ f,
    _ ← ensure (bool_decide (cf_record_key f = SYMBOLS) &&
                forallb (λ r, match r with ROverview _ => true | _ => false end) (cf_records f)) OverviewNeedsSymbols;
    _ ← ensure (bool_decide (cf_sha256 f = None)) OverviewHasSha256;
    Ok f) ordered.

Fixpoint _minimum_overview_symbol_prefix (s : CompactOverviewSymbol) : res compact_error (CompactOverviewSymbol * nat) :=
  match s with
  | Overview name kind children im =>
      if im then Ok (Overview name kind [] im, 1%nat)
      else match children with
           | [] => Err StructuralWithoutChild
           | c :: _ =>
               p ← _minimum_overview_symbol_prefix c;
               Ok (Overview name kind [p.1] im, S p.2)
           end
  end.

Definition files_node_count (files : list CompactFile) : nat :=
  sum_list_with (λ f, sum_list_with node_count (overview_symbols f)) files.

Definition _minimum_overview_success_chars (workspace : pystr) (files : list CompactFile) (omitted : Z)
    : res compact_error Z :=
  match files with
  | f :: _ =>
      match overview_symbols f with
      | first :: _ =>
          p ← _minimum_overview_symbol_prefix first;
          s ← navigation_success_init workspace [with_symbols f [p.1]]
                (omitted + Z.of_nat (files_node_count files) - Z.of_nat p.2) None;
          Ok (text_size (navigation_success_dict s))
      | [] => Err EmptyFileGroup
      end
  | [] => Err EmptyFileGroup
  end.

(** The loop of [render_bounded_overview]; every pass removes a node, so the
    fuel is the number of nodes plus one. *)
Fixpoint overview_loop (fuel : nat) (workspace : pystr) (original retained : list CompactFile) (removed : nat)
    (budget omitted : Z) (ctx : error_context) : option (res compact_error CallToolResult) :=
  match fuel with
  | O => None
  | S fuel =>
      if nonempty original && negb (nonempty retained) then
        Some (minimum ← _minimum_overview_success_chars workspace original omitted;
              minimum_required_chars_result minimum ctx None None None (PInt budget))
      else
        match navigation_success_init workspace retained (omitted + Z.of_nat removed) None with
        | Err e => Some (Err e)
        | Ok s =>
            let rendered := render_success s in
            if bool_decide (_text_length rendered ≤ budget) then Some (Ok rendered)
            else
              let '(retained', removed_now) := _remove_last_overview_node retained in
              match removed_now with
              | O => Some (minimum_required_chars_result (text_size (navigation_success_dict s)) ctx None None None (PInt budget))
              | S _ => overview_loop fuel workspace original retained' (removed + removed_now) budget omitted ctx
              end
        end
  end.

Definition render_bounded_overview (workspace : pystr) (files : list CompactFile) (max_answer_chars : pyany)
    (omitted : Z) (ctx : error_context) : option (res compact_error CallToolResult) :=
  match validate_max_answer_chars max_answer_chars with
  | Err e => Some (Err e)
  | Ok budget =>
      if bool_decide (omitted < 0) then Some (Err NegativeOmitted)
      else match _validated_overview_files files with
           | Err e => Some (Err e)
           | Ok original =>
               overview_loop (S (files_node_count original)) workspace original original 0 budget omitted ctx
           end
  end.

(** ** Budgets *)

Lemma shed_fields_fits mk rest fields budget p rest' :
  shed_fields mk rest fields budget = (Some p, rest') → text_size p ≤ budget.
Proof.
  revert rest. induction fields as [|f fields IH]; intros rest; simpl; [done|].
  case_bool_decide; [by intros [= <- _]|apply IH].
Qed.

Lemma bound_error_fits retry code details rest budget p :
  _bound_minimum_required_chars_error retry code details rest budget = Ok p → text_size p ≤ budget.
Proof.
  unfold _bound_minimum_required_chars_error. case_bool_decide; [by intros [= <-]|].
  destruct (shed_fields _ _ _ _) as [[q|] rest'] eqn:Hs.
  - intros [= <-]. by eapply shed_fields_fits.
  - case_bool_decide; [by intros [= <-]|]. destruct (_replace_oversized_overview_target _); [|done].
    case_bool_decide; [by intros [= <-]|done].
Qed.

(** A result whose text is the canonical form of its structured value and
    stays within the budget. *)
Definition fits (budget : Z) (r : CallToolResult) : Prop :=
  _text_length r ≤ budget ∧ ct_text r = canonical_json (ct_structured r).

Lemma minimum_result_fits minimum ctx act rel name b r :
  minimum_required_chars_result minimum ctx act rel name (PInt b) = Ok r → fits b r.
Proof.
  unfold minimum_required_chars_result. intros (b' & Hb & H)%res_bind_Ok. simpl in Hb.
  destruct (bool_decide (MIN_MAX_ANSWER_CHARS ≤ b ≤ _)); [injection Hb as <-|done].
  apply res_bind_Ok in H as (_ & _ & H). apply res_bind_Ok in H as (target & _ & H).
  apply res_bind_Ok in H as (env & _ & H). simpl in H.
  destruct (er_details env) as [| | | | | |ds]; try done.
  apply res_bind_Ok in H as (p & Hp & H). injection H as <-. split; [|done]. exact (bound_error_fits _ _ _ _ _ _ Hp).
Qed.

(** The answer with the first [n] of the ordered records. *)
Definition prefix_answer (workspace : pystr) (ordered : list LocatedCompactRecord) (omitted : Z)
    (coverage : option pyany) (n : nat) : res compact_error CompactNavigationSuccess :=
  files ← group_records (take n ordered);
  navigation_success_init workspace files (omitted + (Z.of_nat (length ordered) - Z.of_nat n)) coverage.

Definition answer_size (s : CompactNavigationSuccess) : Z := text_size (navigation_success_dict s).

Lemma records_loop_unfold workspace ordered budget omitted coverage ctx recovery n :
  (ordered = [] ∨ 0 < n)%nat →
  records_loop workspace ordered budget omitted coverage ctx recovery n =
  match prefix_answer workspace ordered omitted coverage n with
  | Err e => Err e
  | Ok s =>
      if bool_decide (answer_size s ≤ budget) then Ok (render_success s)
      else match n with
           | O => minimum_required_chars_result (answer_size s) ctx None None None (PInt budget)
           | S n' => records_loop workspace ordered budget omitted coverage ctx recovery n'
           end
  end.
Proof.
  intros Hn. unfold prefix_answer.
  destruct n as [|n], ordered as [|o os]; try (exfalso; destruct Hn; [done|lia]); cbn [records_loop];
    match goal with |- context [group_records ?x] => destruct (group_records x) as [files|]; [|done] end; cbn [mbind res_bind];
    match goal with |- context [navigation_success_init ?w ?f ?o ?c] => by destruct (navigation_success_init w f o c) end.
Qed.

(** What the loop started at [n] returns. *)
Inductive loop_result (workspace : pystr) (ordered : list LocatedCompactRecord) (budget omitted : Z)
    (coverage : option pyany) (n : nat) (r : CallToolResult) : Prop :=
| LoopPrefix m s :
    (m ≤ n)%nat → (ordered = [] ∨ 0 < m)%nat →
    prefix_answer workspace ordered omitted coverage m = Ok s → answer_size s ≤ budget → r = render_success s →
    (∀ j, (m < j ≤ n)%nat → ∃ s', prefix_answer workspace ordered omitted coverage j = Ok s' ∧ budget < answer_size s') →
    loop_result workspace ordered budget omitted coverage n r
| LoopBudgetError minimum s1 :
    fits budget r →
    (∀ j, (ordered = [] ∨ 0 < j)%nat → (j ≤ n)%nat →
       ∃ s', prefix_answer workspace ordered omitted coverage j = Ok s' ∧ budget < answer_size s') →
    prefix_answer workspace ordered omitted coverage (match ordered with [] => 0 | _ => 1 end) = Ok s1 →
    minimum = answer_size s1 →
    (∃ ctx act rel name, minimum_required_chars_result minimum ctx act rel name (PInt budget) = Ok r) →
    loop_result workspace ordered budget omitted coverage n r.

Lemma records_loop_spec workspace ordered budget omitted coverage ctx recovery n r :
  (n ≤ length ordered)%nat →
  records_loop workspace ordered budget omitted coverage ctx recovery n = Ok r →
  loop_result workspace ordered budget omitted coverage n r.
Proof.
  revert r. induction n as [|n IH]; intros r Hn Hloop.
  - destruct ordered as [|o os].
    + rewrite records_loop_unfold in Hloop by auto. destruct (prefix_answer _ _ _ _ 0) as [s|] eqn:Hs; [|done].
      case_bool_decide as Hfit.
      * injection Hloop as <-. apply (LoopPrefix _ _ _ _ _ _ _ 0 s); auto. lia.
      * apply (LoopBudgetError _ _ _ _ _ _ _ (answer_size s) s); try done.
        -- by eapply minimum_result_fits.
        -- intros j _ Hj. exists s. split; [by replace j with 0%nat by lia|lia].
        -- by eauto.
    + simpl in Hloop.
      destruct (_minimum_flat_success_chars _ _ _ _ _) as [minimum|] eqn:Hm; [|done]. simpl in Hloop.
      unfold _minimum_flat_success_chars in Hm.
      destruct (group_records [o]) as [files|] eqn:Hg; [|done]. simpl in Hm.
      destruct (navigation_success_init _ _ _ _) as [s|] eqn:Hs; [|done]. simpl in Hm. injection Hm as <-.
      apply (LoopBudgetError _ _ _ _ _ _ _ (answer_size s) s); try done.
      * by eapply minimum_result_fits.
      * intros j [?|?] Hj; [done|lia].
      * unfold prefix_answer. change (take 1 (o :: os)) with [o]. rewrite Hg. simpl. rewrite <-Hs. f_equal. simpl. lia.
      * by eauto 10.
  - rewrite records_loop_unfold in Hloop by (right; lia).
    destruct (prefix_answer workspace ordered omitted coverage (S n)) as [s|] eqn:Hs; [|done].
    case_bool_decide as Hfit.
    + injection Hloop as <-. apply (LoopPrefix _ _ _ _ _ _ _ (S n) s); auto; [right; lia|]. intros. lia.
    + assert (∀ j, j = S n → ∃ s', prefix_answer workspace ordered omitted coverage j = Ok s' ∧ budget < answer_size s') as Htop.
      { intros j ->. exists s. split; [done|lia]. }
      destruct (IH r ltac:(lia) Hloop) as [m s' Hm Hpos Hans Hle -> Hbig|minimum s1 Hfits Hbig Hs1 -> Hmin].
      * apply (LoopPrefix _ _ _ _ _ _ _ m s'); auto. intros j Hj.
        destruct (decide (j = S n)) as [->|]; [by apply Htop|apply Hbig; lia].
      * apply (LoopBudgetError _ _ _ _ _ _ _ (answer_size s1) s1); auto. intros j Hj Hj'.
        destruct (decide (j = S n)) as [->|]; [by apply Htop|apply Hbig; [done|lia]].
Qed.

Lemma records_loop_reaches workspace ordered budget omitted coverage ctx recovery n s1 :
  (0 < n)%nat → (∀ j, (1 ≤ j ≤ n)%nat → is_ok (prefix_answer workspace ordered omitted coverage j) = true) →
  prefix_answer workspace ordered omitted coverage 1 = Ok s1 → answer_size s1 ≤ budget →
  ∃ m s, (1 ≤ m ≤ n)%nat ∧ prefix_answer workspace ordered omitted coverage m = Ok s ∧
         records_loop workspace ordered budget omitted coverage ctx recovery n = Ok (render_success s).
Proof.
  induction n as [|n IH]; intros Hn Hall Hs1 Hle; [lia|].
  rewrite records_loop_unfold by (right; lia).
  destruct (prefix_answer workspace ordered omitted coverage (S n)) as [s|] eqn:Hs;
    [|specialize (Hall (S n) ltac:(lia)); by rewrite Hs in Hall].
  case_bool_decide as Hfit; [exists (S n), s; split; [lia|done]|].
  destruct n as [|n]; [rewrite Hs in Hs1; by simplify_eq|].
  destruct (IH ltac:(lia)) as (m & s' & Hm & Hans & Heq); [intros; apply Hall; lia|done|done|].
  exists m, s'. split; [lia|done].
Qed.

End rendering.

(** ** The canonical text identifies a record *)

Lemma symbol_kind_inj z w : symbol_kind z = symbol_kind w → z = w.
Proof.
  assert (NoDup _SYMBOL_KINDS) as Hnd by (apply (bool_decide_eq_true_1 _); vm_compute; reflexivity).
  assert (length _SYMBOL_KINDS = 26%nat) as Hlen by reflexivity.
  assert (Forall (λ s, starts_with unknown_prefix s = false) _SYMBOL_KINDS) as Hunk
    by (apply (bool_decide_eq_true_1 _); vm_compute; reflexivity).
  assert (∀ x y, 1 ≤ x ≤ 26 → default [] (_SYMBOL_KINDS !! Z.to_nat (x - 1)) = lit "unknown:" ++ dec y → False) as Hmix.
  { intros x y Hx Heq. destruct (lookup_lt_is_Some_2 _SYMBOL_KINDS (Z.to_nat (x - 1))) as [s Hs]; [lia|].
    rewrite Hs in Heq. simpl in Heq. rewrite Forall_lookup in Hunk. specialize (Hunk _ _ Hs). rewrite Heq in Hunk.
    by unfold starts_with in Hunk. }
  unfold symbol_kind. destruct (bool_decide (1 ≤ z ≤ 26)) eqn:Hz, (bool_decide (1 ≤ w ≤ 26)) eqn:Hw;
    rewrite ?bool_decide_eq_true in *.
  - destruct (lookup_lt_is_Some_2 _SYMBOL_KINDS (Z.to_nat (z - 1))) as [s Hs]; [lia|].
    destruct (lookup_lt_is_Some_2 _SYMBOL_KINDS (Z.to_nat (w - 1))) as [t Ht]; [lia|].
    rewrite Hs, Ht. simpl. intros ->. pose proof (NoDup_lookup _ _ _ _ Hnd Hs Ht). lia.
  - intros Heq. by apply Hmix in Heq.
  - intros Heq. symmetry in Heq. by apply Hmix in Heq.
  - intros Heq. apply (app_inv_head (lit "unknown:")) in Heq. by apply dec_inj.
Qed.

(** Exactly one kind of range, as the constructors check. *)
Definition coordinates_ok (range raw : option CompactRange) (basis : option pystr) : Prop :=
  match range, raw, basis with
  | Some _, None, None | None, Some _, Some _ => True
  | _, _, _ => False
  end.

Definition flat_ok (r : CompactFlatRecord) : Prop :=
  match r with
  | FSymbol _ => True
  | FReference r => coordinates_ok (rf_range r) (rf_raw_range r) (rf_position_basis r)
  | FTarget t => coordinates_ok (tg_range t) (tg_raw_range t) (tg_position_basis t)
  end.

Lemma coordinate_choice_ok range raw basis :
  _validate_coordinate_choice range raw basis = Ok tt → coordinates_ok range raw basis.
Proof.
  unfold _validate_coordinate_choice. destruct range as [r|], raw as [q|]; try done;
    intros (_ & _ & H)%res_bind_Ok; by destruct basis.
Qed.

Lemma reference_init_ok r r' : reference_init r = Ok r' → r' = r ∧ flat_ok (FReference r).
Proof.
  unfold reference_init. intros ([] & H%coordinate_choice_ok & (_ & _ & [= ->])%res_bind_Ok)%res_bind_Ok. done.
Qed.

Lemma target_init_ok t t' : target_init t = Ok t' → t' = t ∧ flat_ok (FTarget t).
Proof.
  unfold target_init. intros ([] & H%coordinate_choice_ok & (_ & _ & [= ->])%res_bind_Ok)%res_bind_Ok. done.
Qed.

Lemma range_json_inj r q : _range_json r = _range_json q → r = q.
Proof. destruct r as [[a b] [c d]], q as [[a' b'] [c' d']]. by intros [= -> -> -> ->]. Qed.

Lemma opt_str_inj (a b : option pystr) : JStr <$> a = JStr <$> b → a = b.
Proof. destruct a, b; simpl; naive_solver. Qed.

Lemma opt_range_inj (a b : option CompactRange) : _range_json <$> a = _range_json <$> b → a = b.
Proof. destruct a, b; simpl; try done. intros Heq. f_equal. apply range_json_inj. by apply (inj Some). Qed.

Lemma symbol_match_get m :
  json_get (symbol_match_dict m) (lit "name_path") = Some (JStr (sm_name_path m)) ∧
  json_get (symbol_match_dict m) (lit "kind") = Some (JStr (symbol_kind (sm_kind m))) ∧
  json_get (symbol_match_dict m) (lit "range") = Some (_range_json (sm_range m)) ∧
  json_get (symbol_match_dict m) (lit "body") = JStr <$> sm_body m ∧
  json_get (symbol_match_dict m) (lit "info") = JStr <$> sm_info m.
Proof. destruct m as [n k r [b|] [i|]]; split_and!; reflexivity. Qed.

Lemma symbol_match_dict_inj m m' : symbol_match_dict m = symbol_match_dict m' → m = m'.
Proof.
  intros Heq. destruct (symbol_match_get m) as (H1 & H2 & H3 & H4 & H5).
  destruct (symbol_match_get m') as (H1' & H2' & H3' & H4' & H5').
  rewrite Heq in *. destruct m, m'; simpl in *.
  f_equal; [congruence|apply symbol_kind_inj; congruence|apply range_json_inj; congruence|apply opt_str_inj; congruence..].
Qed.

Lemma reference_get r :
  flat_ok (FReference r) →
  json_get (reference_dict r) (lit "range") = _range_json <$> rf_range r ∧
  json_get (reference_dict r) (lit "raw_range") = _range_json <$> rf_raw_range r ∧
  json_get (reference_dict r) (lit "position_basis") = JStr <$> rf_position_basis r ∧
  json_get (reference_dict r) (lit "symbol") = JStr <$> rf_symbol r ∧
  json_get (reference_dict r) (lit "snippet") = JStr <$> rf_snippet r.
Proof. destruct r as [[a|] [s|] [n|] [w|] [p|]]; intros []; split_and!; reflexivity. Qed.

Lemma reference_dict_inj r r' :
  flat_ok (FReference r) → flat_ok (FReference r') → reference_dict r = reference_dict r' → r = r'.
Proof.
  intros (H1 & H2 & H3 & H4 & H5)%reference_get (H1' & H2' & H3' & H4' & H5')%reference_get Heq.
  rewrite Heq in *. destruct r, r'; simpl in *.
  f_equal; (apply opt_str_inj || apply opt_range_inj); congruence.
Qed.

Lemma target_get t :
  flat_ok (FTarget t) →
  json_get (target_dict t) (lit "range") = _range_json <$> tg_range t ∧
  json_get (target_dict t) (lit "raw_range") = _range_json <$> tg_raw_range t ∧
  json_get (target_dict t) (lit "position_basis") = JStr <$> tg_position_basis t ∧
  json_get (target_dict t) (lit "name_path") = JStr <$> tg_name_path t ∧
  json_get (target_dict t) (lit "kind") = JStr <$> (symbol_kind <$> tg_kind t) ∧
  json_get (target_dict t) (lit "body") = JStr <$> tg_body t ∧
  json_get (target_dict t) (lit "info") = JStr <$> tg_info t.
Proof. destruct t as [[a|] [n|] [k|] [b|] [i|] [w|] [p|]]; intros []; split_and!; reflexivity. Qed.

Lemma target_dict_inj t t' :
  flat_ok (FTarget t) → flat_ok (FTarget t') → target_dict t = target_dict t' → t = t'.
Proof.
  intros (H1 & H2 & H3 & H4 & H5 & H6 & H7)%target_get (H1' & H2' & H3' & H4' & H5' & H6' & H7')%target_get Heq.
  rewrite Heq in *. destruct t, t'; simpl in *.
  f_equal; try ((apply opt_str_inj || apply opt_range_inj); congruence).
  rewrite H5 in H5'. apply opt_str_inj in H5'. destruct tg_kind0, tg_kind1; simpl in *; simplify_eq; try done.
  f_equal. by apply symbol_kind_inj.
Qed.

Lemma located_get i :
  json_get (_located_record_dict i) (lit "path") = Some (JStr (lr_path i)) ∧
  json_get (_located_record_dict i) (lit "language") = Some (default JNull (JStr <$> lr_language i)) ∧
  json_get (_located_record_dict i) (lit "read_only") = Some (default JNull (JBool <$> lr_read_only i)) ∧
  json_get (_located_record_dict i) (lit "sha256") = Some (default JNull (JStr <$> lr_sha256 i)) ∧
  json_get (_located_record_dict i) (lit "record") = Some (flat_dict (lr_record i)).
Proof. split_and!; reflexivity. Qed.

Lemma located_dict_inj i j :
  flat_ok (lr_record i) → flat_ok (lr_record j) → _record_key (lr_record i) = _record_key (lr_record j) →
  _located_record_dict i = _located_record_dict j → i = j.
Proof.
  intros Hi Hj Hk Heq. destruct (located_get i) as (H1 & H2 & H3 & H4 & H5), (located_get j) as (H1' & H2' & H3' & H4' & H5').
  rewrite Heq in *. destruct i as [p r l o s], j as [p' r' l' o' s']; simpl in *.
  f_equal; [congruence| | | |].
  - assert (flat_dict r = flat_dict r') as Hd by congruence.
    destruct r, r'; try done; simpl in Hd; f_equal;
      [by apply symbol_match_dict_inj|by apply reference_dict_inj|by apply target_dict_inj].
  - rewrite H2 in H2'. destruct l, l'; simpl in *; congruence.
  - rewrite H3 in H3'. destruct o, o'; simpl in *; congruence.
  - rewrite H4 in H4'. destruct s, s'; simpl in *; congruence.
Qed.

(** No floats occur in a record, so its text is unambiguous. *)
Lemma located_dict_wf i : json_wf (_located_record_dict i).
Proof.
  destruct i as [p r l o s]. apply json_wf_obj. repeat constructor; simpl; try first [by destruct l|by destruct o|by destruct s].
  destruct r as [[n k q b i]|[a y n w c]|[a n k b i w c]]; apply json_wf_obj.
  - destruct b, i; repeat constructor.
  - destruct a, y, n, w, c; repeat constructor.
  - destruct a, n, k, b, i, w, c; repeat constructor.
Qed.

(** Records of one answer: constructed, and of one kind. *)
Definition homogeneous (k : RecordKey) (l : list LocatedCompactRecord) : Prop :=
  ∀ i, i ∈ l → flat_ok (lr_record i) ∧ _record_key (lr_record i) = k.

Lemma canonical_identifies k l i j :
  homogeneous k l → i ∈ l → j ∈ l →
  canonical_json (_located_record_dict i) = canonical_json (_located_record_dict j) → i = j.
Proof.
  intros Hl Hi Hj Heq. destruct (Hl i Hi) as [Hoi Hki], (Hl j Hj) as [Hoj Hkj].
  apply located_dict_inj; [done|done|congruence|].
  destruct (json_dumps_inj_rest (_located_record_dict i) (_located_record_dict j) [] []) as [? _];
    [apply located_dict_wf..|done|done|by unfold canonical_json in Heq; rewrite Heq|done].
Qed.

Lemma map_eq_in {A K} (f : A → K) (l k : list A) :
  f <$> l = f <$> k → (∀ x y, x ∈ l → y ∈ k → f x = f y → x = y) → l = k.
Proof.
  revert k. induction l as [|x l IH]; intros [|y k] Heq Hinj; try done. simpl in Heq. injection Heq as Hxy Heq.
  f_equal; [apply Hinj; [left|left|done]|]. apply IH; [done|]. intros. apply Hinj; [by right|by right|done].
Qed.

Lemma sorted_records_perm k l l' :
  homogeneous k l → l ≡ₚ l' → _unique_sorted_records l = _unique_sorted_records l'.
Proof.
  intros Hh Hp. unfold _unique_sorted_records. f_equal.
  apply (map_eq_in _record_order_key); [by apply py_sorted_keys_perm|].
  intros x y Hx Hy Hkey. rewrite elem_of_py_sorted in Hx, Hy. rewrite <-Hp in Hy.
  apply (f_equal snd) in Hkey. by apply (canonical_identifies k l).
Qed.

Lemma dedup_records_spec seen items :
  (∀ i, i ∈ dedup_records seen items → i ∈ items ∧ canonical_json (_located_record_dict i) ∉ seen) ∧
  (∀ i, i ∈ items → canonical_json (_located_record_dict i) ∈ seen ∨
        ∃ j, j ∈ dedup_records seen items ∧
             canonical_json (_located_record_dict j) = canonical_json (_located_record_dict i)) ∧
  NoDup ((λ i, canonical_json (_located_record_dict i)) <$> dedup_records seen items).
Proof.
  revert seen. induction items as [|i items IH]; intros seen; simpl; [split_and!; [set_solver|set_solver|constructor]|].
  case_decide as Hseen.
  - destruct (IH seen) as (H1 & H2 & H3). split_and!; [|intros j [->|Hj]%elem_of_cons; [by left|by apply H2]|done].
    intros j Hj. destruct (H1 j Hj). split; [by right|done].
  - destruct (IH (canonical_json (_located_record_dict i) :: seen)) as (H1 & H2 & H3). split_and!.
    + intros j [->|Hj]%elem_of_cons; [split; [by left|done]|]. destruct (H1 j Hj) as [? Hn].
      split; [by right|]. intros ?. apply Hn. by right.
    + intros j [->|Hj]%elem_of_cons; [right; exists i; split; [by left|done]|].
      destruct (H2 j Hj) as [[Heq|?]%elem_of_cons|(j' & ? & ?)]; [right; exists i; split; [by left|done]|by left|].
      right. exists j'. split; [by right|done].
    + csimpl. constructor; [|done]. intros (j & Heq & Hj)%list_elem_of_fmap. destruct (H1 j Hj) as [_ Hn].
      apply Hn. cbv beta in Heq. rewrite Heq. left.
Qed.

(** ** Overview pruning *)

Section overview_ind.
Context (P : CompactOverviewSymbol → Prop)
  (Hnode : ∀ name kind children im, Forall P children → P (Overview name kind children im)).

Fixpoint overview_induction (s : CompactOverviewSymbol) : P s :=
  match s with
  | Overview name kind children im =>
      Hnode name kind children im ((fix go (l : list CompactOverviewSymbol) : Forall P l :=
        match l with
        | [] => Forall_nil_2 P
        | x :: l => Forall_cons_2 P x l (overview_induction x) (go l)
        end) children)
  end.
End overview_ind.

(** The nodes of an overview in the order they are shown. *)
Fixpoint preorder (s : CompactOverviewSymbol) : list (pystr * Z) :=
  match s with Overview name kind children _ => (name, kind) :: concat (preorder <$> children) end.

Definition preorders (l : list CompactOverviewSymbol) : list (pystr * Z) := concat (preorder <$> l).

Definition files_preorder (files : list CompactFile) : list (pystr * Z) :=
  concat ((λ f, preorders (overview_symbols f)) <$> files).

(** A structural ancestor (not itself a match) has a child. *)
Fixpoint structural_ok (s : CompactOverviewSymbol) : Prop :=
  match s with
  | Overview _ _ children im => (im = false → children ≠ []) ∧ foldr (λ c P, structural_ok c ∧ P) True children
  end.

Lemma structural_children l : foldr (λ c P, structural_ok c ∧ P) True l ↔ Forall structural_ok l.
Proof. induction l as [|x l IH]; simpl; [by split; [constructor|]|]. by rewrite IH, Forall_cons. Qed.

Lemma remove_last_node_eq name kind c cs im :
  remove_last_node (Overview name kind (c :: cs) im) =
  let '(retained, removed) := _remove_last_symbol (c :: cs) in
  if negb (nonempty retained) && negb im then (None, S removed)
  else (Some (Overview name kind retained im), removed).
Proof. reflexivity. Qed.

(** What one removal does to a list of symbols, given what it does to one. *)
Definition pruned (before after : list (pystr * Z)) (removed : nat) : Prop :=
  ∃ tail, before = after ++ tail ∧ length tail = removed ∧ (1 ≤ removed)%nat.

Definition prunes_node (s : CompactOverviewSymbol) : Prop :=
  pruned (preorder s) (match (remove_last_node s).1 with Some s' => preorder s' | None => [] end) (remove_last_node s).2 ∧
  (structural_ok s → ∀ s', (remove_last_node s).1 = Some s' → structural_ok s').

Lemma remove_last_symbol_step l :
  Forall prunes_node l → l ≠ [] →
  pruned (preorders l) (preorders (_remove_last_symbol l).1) (_remove_last_symbol l).2 ∧
  (Forall structural_ok l → Forall structural_ok (_remove_last_symbol l).1).
Proof.
  induction 1 as [|x l [Hx Hsx] Hl IH]; [done|]. intros _. destruct l as [|y l].
  - simpl. destruct (remove_last_node x) as [[x'|] r]; simpl in *; unfold preorders; simpl; rewrite ?app_nil_r.
    + split; [done|]. intros [Hs _]%Forall_cons. repeat constructor. by apply Hsx.
    + split; [done|]. constructor.
  - destruct IH as [(tail & Heq & Hlen & Hpos) Hst]; [done|].
    change (_remove_last_symbol (x :: y :: l)) with
      (let '(l', r) := _remove_last_symbol (y :: l) in (x :: l', r)).
    destruct (_remove_last_symbol (y :: l)) as [l' r]; simpl in Heq, Hlen, Hpos, Hst |- *. split.
    + exists tail. split_and!; [|done..]. unfold preorders in *. simpl. rewrite <-app_assoc. f_equal. exact Heq.
    + intros [? ?]%Forall_cons. constructor; [done|by apply Hst].
Qed.

Lemma remove_last_node_prunes s : prunes_node s.
Proof.
  induction s as [name kind children im IH] using overview_induction. unfold prunes_node.
  destruct children as [|c cs].
  { simpl. split; [|done]. exists [(name, kind)]. done. }
  destruct (remove_last_symbol_step (c :: cs) IH ltac:(done)) as [(tail & Heq & Hlen & Hpos) Hst].
  rewrite remove_last_node_eq. destruct (_remove_last_symbol (c :: cs)) as [retained removed].
  simpl in Heq, Hlen, Hpos, Hst. destruct (negb (nonempty retained) && negb im) eqn:Hdrop.
  - apply andb_prop in Hdrop as [Hr _]. destruct retained; [|done]. simpl. split; [|done].
    exists ((name, kind) :: tail). split_and!; [|simpl; lia|lia]. simpl. f_equal. exact Heq.
  - simpl. split.
    + exists tail. split_and!; [|done..]. simpl. f_equal. exact Heq.
    + intros [Hs Hsc] s' [= <-]. simpl. split.
      * intros ->. destruct retained; [done|done].
      * apply structural_children, Hst. by apply structural_children.
Qed.

Lemma remove_last_symbol_prunes l :
  l ≠ [] → pruned (preorders l) (preorders (_remove_last_symbol l).1) (_remove_last_symbol l).2 ∧
           (Forall structural_ok l → Forall structural_ok (_remove_last_symbol l).1).
Proof. apply remove_last_symbol_step. apply Forall_forall. intros s _. apply remove_last_node_prunes. Qed.

Definition files_structural (files : list CompactFile) : Prop :=
  Forall (λ f, overview_symbols f ≠ [] ∧ Forall structural_ok (overview_symbols f)) files.

Lemma with_symbols_overview f l : overview_symbols (with_symbols f l) = l.
Proof. unfold overview_symbols, with_symbols; simpl. induction l as [|x l IH]; csimpl; [done|by rewrite IH]. Qed.

Lemma files_preorder_cons f fs : files_preorder (f :: fs) = preorders (overview_symbols f) ++ files_preorder fs.
Proof. done. Qed.

Lemma remove_last_overview_prunes files :
  let '(files', r) := _remove_last_overview_node files in
  match r with
  | O => files' = files ∧ files_preorder files = []
  | S _ => pruned (files_preorder files) (files_preorder files') r ∧ (files_structural files → files_structural files')
  end.
Proof.
  induction files as [|f rest IH]; [done|]. cbn [_remove_last_overview_node].
  destruct (_remove_last_overview_node rest) as [rest' [|r]].
  - destruct IH as [-> Hnil]. destruct (overview_symbols f) as [|x l] eqn:Hf.
    + split; [done|]. by rewrite files_preorder_cons, Hf.
    + destruct (remove_last_symbol_prunes (x :: l)) as [(tail & Heq & Hlen & Hpos) Hst]; [done|].
      destruct (_remove_last_symbol (x :: l)) as [retained removed]. cbn [fst snd] in Heq, Hlen, Hpos, Hst.
      destruct removed as [|removed]; [lia|].
      destruct retained as [|y ys]; rewrite !files_preorder_cons, Hf, Hnil, app_nil_r.
      * split; [by exists tail|]. unfold files_structural. by intros [_ ?]%Forall_cons.
      * rewrite with_symbols_overview, app_nil_r. split; [by exists tail|]. unfold files_structural.
        intros [[_ Hs] ?]%Forall_cons. constructor; [|done]. rewrite with_symbols_overview. split; [done|].
        apply Hst. by rewrite <-Hf.
  - destruct IH as [(tail & Heq & Hlen & Hpos) Hst]. split.
    + exists tail. rewrite !files_preorder_cons, Heq, app_assoc. done.
    + unfold files_structural in *. intros [? ?]%Forall_cons. constructor; [done|by apply Hst].
Qed.

Lemma preorder_length s : length (preorder s) = node_count s.
Proof.
  induction s as [name kind children im IH] using overview_induction. simpl. f_equal.
  induction IH as [|x l Hx _ IHl]; csimpl; [done|]. rewrite length_app. lia.
Qed.

Lemma preorders_length l : length (preorders l) = sum_list_with node_count l.
Proof.
  unfold preorders. induction l as [|x l IH]; csimpl; [done|]. rewrite length_app, preorder_length. lia.
Qed.

Lemma files_preorder_length files : length (files_preorder files) = files_node_count files.
Proof.
  unfold files_preorder, files_node_count. induction files as [|f fs IH]; csimpl; [done|].
  rewrite length_app, preorders_length. lia.
Qed.

(** ** The budget error always fits *)

Definition hex_char (c : N) : bool := ((48 <=? c)%N && (c <=? 57)%N) || ((97 <=? c)%N && (c <=? 102)%N).

Lemma json_escape_hex s : forallb hex_char s = true → s ≫= json_escape = s.
Proof.
  induction s as [|c s IH]; [done|]. cbn [forallb]. intros [Hc Hs]%andb_prop. csimpl. rewrite IH by done.
  assert (json_escape c = [c]) as ->; [|done]. unfold hex_char in Hc. unfold json_escape.
  assert (48 ≤ c)%N by (apply orb_prop in Hc as [[?%N.leb_le ?%N.leb_le]%andb_prop|[?%N.leb_le ?%N.leb_le]%andb_prop]; lia).
  destruct (N.eqb_spec c 34); [lia|]. destruct (N.eqb_spec c 92) as [->|]; [done|].
  destruct (N.eqb_spec c 10); [lia|]. destruct (N.eqb_spec c 13); [lia|]. destruct (N.eqb_spec c 9); [lia|].
  destruct (N.eqb_spec c 8); [lia|]. destruct (N.eqb_spec c 12); [lia|]. destruct (N.ltb_spec c 32); [lia|]. done.
Qed.

Lemma json_string_sha s : _valid_sha256 s = true → length (json_string s) = 66%nat.
Proof.
  unfold _valid_sha256. intros [Hlen%bool_decide_eq_true Hhex]%andb_prop.
  unfold json_string. rewrite json_escape_hex by done. csimpl. rewrite length_app, Hlen. done.
Qed.

Definition base_details (minimum : Z) (act : option ExactBodyRecoveryAction) : list (pystr * json) :=
  [(lit "field", JStr (lit "max_answer_chars")); (lit "minimum_required_chars", JInt minimum)] ++
  match act with Some a => [(lit "next_action", JStr (action_name a))] | None => [] end.


(** The size of a concrete JSON shape, adding up the sizes of its parts. *)
Ltac json_size :=
  cbn [code_value _MESSAGES action_name app];
  repeat (cbn [json_dumps]; rewrite ?fmap_cons, ?fmap_nil; cbn [join_comma fst snd];
          repeat (rewrite length_app || cbn [length]));
  repeat match goal with
  | |- context [length (json_string (lit ?s))] =>
      let n := eval vm_compute in (length (json_string (lit s))) in
      change (length (json_string (lit s))) with n
  | |- context [length (lit ?s)] => let n := eval vm_compute in (length (lit s)) in change (length (lit s)) with n
  end.

Lemma base_payload_size minimum act :
  text_size (error_payload JNull INVALID_INPUT (base_details minimum act) []) ≤ 210 + Z.of_nat (length (dec minimum)).
Proof.
  unfold text_size, canonical_json, error_payload, base_details.
  destruct act as [[]|]; json_size; lia.
Qed.

Definition target_details (sha : pystr → pystr) (minimum : Z) (rel name : pystr) : list (pystr * json) :=
  base_details minimum (Some FindSymbolLocationThenExactFileRead) ++
  [(lit "target", JObj [(lit "relative_path", _target_identity sha rel); (lit "name_path", _target_identity sha name)])].

Lemma target_payload_size sha minimum rel name :
  (∀ v, _valid_sha256 (sha v) = true) →
  text_size (error_payload JNull INVALID_INPUT (target_details sha minimum rel name) []) =
    425 + Z.of_nat (length (dec minimum)) + Z.of_nat (length (dec (Z.of_nat (length rel)))) +
    Z.of_nat (length (dec (Z.of_nat (length name)))).
Proof.
  intros Hsha. pose proof (json_string_sha _ (Hsha rel)). pose proof (json_string_sha _ (Hsha name)).
  unfold text_size, canonical_json, error_payload, target_details, base_details, _target_identity.
  json_size. lia.
Qed.

(** The authorities an error may carry, and the target of an overview recovery. *)
Definition authorities_ok (ctx : error_context) : bool := is_ok (_json_value (PSequence (ex_authorities ctx))).

Definition recovery_ok (recovery : option ExactBodyRecovery) : Prop :=
  match recovery with
  | Some r => is_ok (_normalize_path (xr_relative_path r)) = true ∧ xr_name_path r ≠ [] ∧
              ∀ p, _normalize_path (xr_relative_path r) = Ok p →
                (length (dec (Z.of_nat (length p))) ≤ 20)%nat ∧ (length (dec (Z.of_nat (length (xr_name_path r)))) ≤ 20)%nat
  | None => True
  end.

(** What is left once the optional fields are gone: nothing. *)
Lemma shed_fields_all mk w a g budget p rest' :
  shed_fields mk (entry "workspace" w ++ entry "adapter" a ++ entry "generations" g)
    [lit "workspace"; lit "adapter"; lit "generations"] budget = (p, rest') →
  p = None → rest' = [].
Proof.
  intros Hs ->. cbn [shed_fields] in Hs. repeat (case_bool_decide; [done|]). injection Hs as <-.
  by destruct w, a, g.
Qed.

Lemma bound_error_total minimum act target auth w a g budget sha :
  512 ≤ budget → (length (dec minimum) ≤ 40)%nat → (∀ v, _valid_sha256 (sha v) = true) →
  (match target with
   | None => True
   | Some (rel, name) => act = Some OverviewThenFindChildSymbol ∧
       (length (dec (Z.of_nat (length rel))) ≤ 20)%nat ∧ (length (dec (Z.of_nat (length name))) ≤ 20)%nat
   end) →
  is_ok (_bound_minimum_required_chars_error sha JNull INVALID_INPUT
    (base_details minimum act ++
     match target with Some (rel, name) => [(lit "relative_path", JStr rel); (lit "name_path", JStr name)] | None => [] end ++
     entry "authorities" auth)
    (entry "workspace" w ++ entry "adapter" a ++ entry "generations" g) budget) = true.
Proof.
  intros Hb Hd Hsha Ht. unfold _bound_minimum_required_chars_error.
  case_bool_decide; [done|]. destruct (shed_fields _ _ _ _) as [[p|] rest'] eqn:Hs; [done|].
  apply shed_fields_all in Hs as ->; [|done].
  case_bool_decide as Hfit; [done|]. destruct target as [[rel name]|].
  - destruct Ht as (-> & Hr & Hn). pose proof (target_payload_size sha minimum rel name Hsha) as Hsize.
    assert (∀ d, _replace_oversized_overview_target sha d = Some (target_details sha minimum rel name) →
      is_ok match _replace_oversized_overview_target sha d with
            | Some d => if bool_decide (text_size (error_payload JNull INVALID_INPUT d []) ≤ budget)
                        then Ok (error_payload JNull INVALID_INPUT d []) else Err BudgetErrorTooLarge
            | None => Err BudgetErrorTooLarge
            end = true) as Hgo.
    { intros d ->. rewrite bool_decide_eq_true_2; [done|]. lia. }
    apply Hgo. by destruct auth.
  - exfalso. apply Hfit. pose proof (base_payload_size minimum act). 
    replace (dict_del _ _) with (base_details minimum act); [lia|]. by destruct act, auth.
Qed.

Lemma json_value_cons k v l :
  secret_key k = false →
  _json_value (PMapping ((Some k, v) :: l)) =
  (y ← _json_value v; z ← _json_value (PMapping l);
   match z with JObj kvs => Ok (JObj ((k, y) :: kvs)) | _ => Err NotJson end).
Proof.
  intros Hk. cbn [_json_value]. rewrite Hk. destruct (_json_value v); [|done]. cbn [mbind res_bind].
  by match goal with |- context [?g l ≫= _] => destruct (g l) end.
Qed.

Lemma json_value_details minimum act target auth j :
  _json_value (PSequence auth) = Ok j →
  _json_value (PMapping
    ([pstr "field" (PStr (lit "max_answer_chars")); pstr "minimum_required_chars" (PInt minimum)] ++
     match act with Some a => [pstr "next_action" (PStr (action_name a))] | None => [] end ++
     match target with Some (rel, name) => [pstr "relative_path" (PStr rel); pstr "name_path" (PStr name)] | None => [] end ++
     match auth with [] => [] | x :: l => [pstr "authorities" (PSequence (x :: l))] end)) =
  Ok (JObj (base_details minimum act ++
     match target with Some (rel, name) => [(lit "relative_path", JStr rel); (lit "name_path", JStr name)] | None => [] end ++
     entry "authorities" (match auth with [] => None | _ => Some j end))).
Proof.
  intros Hj. unfold pstr, base_details.
  destruct act, target as [[rel name]|], auth as [|x auth]; cbn [app];
    rewrite !json_value_cons by (vm_compute; reflexivity); rewrite ?Hj; reflexivity.
Qed.

Definition target_entries (target : option (pystr * pystr)) : list (option pystr * pyany) :=
  match target with Some (rel, name) => [pstr "relative_path" (PStr rel); pstr "name_path" (PStr name)] | None => [] end.

(** The envelope and its bounded payload, once the target is validated. *)
Lemma budget_envelope_total sha minimum ctx act target budget :
  512 ≤ budget → (length (dec minimum) ≤ 40)%nat → (∀ v, _valid_sha256 (sha v) = true) → authorities_ok ctx = true →
  (match target with
   | None => True
   | Some (rel, name) => act = Some OverviewThenFindChildSymbol ∧
       (length (dec (Z.of_nat (length rel))) ≤ 20)%nat ∧ (length (dec (Z.of_nat (length name))) ≤ 20)%nat
   end) →
  ∃ envelope ds rest payload,
    lift_envelope (error INVALID_INPUT None (Some (PMapping
      ([pstr "field" (PStr (lit "max_answer_chars")); pstr "minimum_required_chars" (PInt minimum)] ++
       match act with Some a => [pstr "next_action" (PStr (action_name a))] | None => [] end ++
       target_entries target ++
       match ex_authorities ctx with [] => [] | auth => [pstr "authorities" (PSequence auth)] end)))
      (ex_workspace ctx) (ex_adapter ctx) (ex_generations ctx)) = Ok envelope ∧
    (∃ o e, error_dict envelope = JObj (o :: e :: rest)) ∧ er_details envelope = JObj ds ∧
    _bound_minimum_required_chars_error sha JNull INVALID_INPUT ds rest budget = Ok payload.
Proof.
  intros Hb Hd Hsha Hauth Ht. unfold authorities_ok in Hauth.
  destruct (_json_value (PSequence (ex_authorities ctx))) as [j|] eqn:Hj; [|done].
  pose proof (bound_error_total minimum act target (match ex_authorities ctx with [] => None | _ => Some j end)
    (workspace_dict <$> ex_workspace ctx) (adapter_dict <$> ex_adapter ctx) (generation_dict <$> ex_generations ctx)
    budget sha Hb Hd Hsha Ht) as Hbound.
  destruct (_bound_minimum_required_chars_error _ _ _ _ _ _) as [payload|] eqn:Hp; [|done].
  unfold error, error_envelope_init. cbn [from_option id]. unfold target_entries.
  rewrite (json_value_details _ _ target _ _ Hj). do 4 eexists. split_and!; [reflexivity| |reflexivity|exact Hp].
  do 2 eexists. reflexivity.
Qed.

Lemma minimum_result_total sha minimum ctx recovery budget :
  512 ≤ budget ≤ 50000 → 0 ≤ minimum → (length (dec minimum) ≤ 40)%nat → (∀ v, _valid_sha256 (sha v) = true) →
  authorities_ok ctx = true → recovery_ok recovery →
  ∃ r, minimum_required_chars_result sha minimum ctx (_exact_body_recovery_action recovery minimum)
    (_recovery_relative_path recovery) (_recovery_name_path recovery) (PInt budget) = Ok r.
Proof.
  intros Hb Hm Hd Hsha Hauth Hrec. unfold minimum_required_chars_result. cbn [validate_max_answer_chars].
  rewrite (bool_decide_eq_true_2 (MIN_MAX_ANSWER_CHARS ≤ budget ≤ MAX_MAX_ANSWER_CHARS)) by done. cbn [mbind res_bind].
  rewrite (bool_decide_eq_true_2 (0 ≤ minimum)) by done. cbn [ensure mbind res_bind].
  assert (∃ target, match target with
    | None => True
    | Some (rel, name) => _exact_body_recovery_action recovery minimum = Some OverviewThenFindChildSymbol ∧
       (length (dec (Z.of_nat (length rel))) ≤ 20)%nat ∧ (length (dec (Z.of_nat (length name))) ≤ 20)%nat
    end ∧ match _recovery_relative_path recovery, _recovery_name_path recovery with
           | None, None => Ok []
           | Some p, Some n =>
               _ ← ensure (match _exact_body_recovery_action recovery minimum with
                           | Some OverviewThenFindChildSymbol => true | _ => false end) BadRecoveryTarget;
               p' ← _normalize_path p;
               _ ← _non_empty n;
               Ok [pstr "relative_path" (PStr p'); pstr "name_path" (PStr n)]
           | _, _ => Err BadRecoveryTarget
           end = Ok (target_entries target)) as (target & Ht & ->).
  { destruct recovery as [[[] rel name]|]; cbn in *; [|exists None; done..].
    destruct Hrec as (Hp & Hn & Hlen). destruct (_normalize_path rel) as [p|]; [|done].
    exists (Some (p, name)). split; [split; [done|by apply Hlen]|]. by destruct name. }
  destruct (budget_envelope_total sha minimum ctx (_exact_body_recovery_action recovery minimum) target budget)
    as (env & ds & rest & payload & He & (o & e & Hrest) & Hds & Hp); [lia|done..|].
  cbn [mbind res_bind]. rewrite He. cbn [mbind res_bind]. rewrite Hrest, Hds. rewrite Hp. by eexists.
Qed.

(** ** The overview loop *)

(** The files after [n] removals, and the answer that shows them. *)
Definition prune (n : nat) (files : list CompactFile) : list CompactFile :=
  Nat.iter n (λ fs, (_remove_last_overview_node fs).1) files.

Definition overview_answer (workspace : pystr) (original : list CompactFile) (omitted : Z) (shown : list CompactFile)
    : res compact_error CompactNavigationSuccess :=
  navigation_success_init workspace shown
    (omitted + (Z.of_nat (files_node_count original) - Z.of_nat (files_node_count shown))) None.

(** The size a budget error reports: one node with its ancestors, or the empty answer. *)
Definition overview_minimum (workspace : pystr) (original : list CompactFile) (omitted : Z) : res compact_error Z :=
  match original with
  | [] => s ← overview_answer workspace [] omitted []; Ok (answer_size s)
  | _ => _minimum_overview_success_chars workspace original omitted
  end.

Inductive overview_result (sha : pystr → pystr) (workspace : pystr) (original : list CompactFile) (budget omitted : Z)
    (ctx : error_context) : CallToolResult → Prop :=
| OverviewShown k tail s :
    files_preorder original = files_preorder (prune k original) ++ tail →
    (original ≠ [] → prune k original ≠ []) →
    files_structural (prune k original) →
    overview_answer workspace original omitted (prune k original) = Ok s →
    ns_omitted s = omitted + Z.of_nat (length tail) →
    answer_size s ≤ budget →
    (∀ j, (j < k)%nat → ∃ s', overview_answer workspace original omitted (prune j original) = Ok s' ∧ budget < answer_size s') →
    overview_result sha workspace original budget omitted ctx (render_success s)
| OverviewBudgetError minimum r :
    fits budget r → overview_minimum workspace original omitted = Ok minimum →
    minimum_required_chars_result sha minimum ctx None None None (PInt budget) = Ok r →
    (∀ j, original = [] ∨ prune j original ≠ [] → ∃ s', overview_answer workspace original omitted (prune j original) = Ok s' ∧ budget < answer_size s') →
    overview_result sha workspace original budget omitted ctx r.

Lemma navigation_init_plain workspace files omitted :
  workspace ≠ [] → 0 ≤ omitted →
  navigation_success_init workspace files omitted None =
  Ok {| ns_workspace := workspace; ns_files := files; ns_omitted := omitted; ns_coverage := None |}.
Proof.
  intros Hw Ho. unfold navigation_success_init, _non_empty. rewrite bool_decide_eq_true_2 by done. by destruct workspace.
Qed.

Lemma minimum_prefix_total s :
  structural_ok s → ∃ p, _minimum_overview_symbol_prefix s = Ok p ∧ (1 ≤ p.2 ≤ node_count s)%nat.
Proof.
  induction s as [name kind children im IH] using overview_induction. intros [Hs Hc%structural_children].
  destruct im; [eexists; split; [reflexivity|cbn; lia]|]. destruct children as [|c cs]; [by specialize (Hs eq_refl)|].
  apply Forall_cons in IH as [IHc _]. apply Forall_cons in Hc as [Hc _]. destruct (IHc Hc) as (p & Hp & Hle).
  eexists. cbn. rewrite Hp. split; [reflexivity|]. cbn. lia.
Qed.

Lemma overview_minimum_total workspace original omitted :
  workspace ≠ [] → 0 ≤ omitted → files_structural original →
  ∃ minimum, overview_minimum workspace original omitted = Ok minimum ∧ 0 ≤ minimum.
Proof.
  intros Hw Ho Hst. destruct original as [|f fs]; cbn [overview_minimum].
  { unfold overview_answer. rewrite navigation_init_plain; [|done|cbn; lia]. eexists. split; [reflexivity|].
    unfold answer_size, text_size. lia. }
  unfold _minimum_overview_success_chars. apply Forall_cons in Hst as [[Hne Hsym] _].
  destruct (overview_symbols f) as [|x xs] eqn:Hf; [done|]. apply Forall_cons in Hsym as [Hx _].
  destruct (minimum_prefix_total x Hx) as (p & Hp & Hle). cbn [mbind res_bind]. rewrite Hp. cbn [mbind res_bind].
  rewrite navigation_init_plain; [|done|].
  - eexists. split; [reflexivity|]. unfold text_size. lia.
  - unfold files_node_count. cbn [sum_list_with]. rewrite Hf. cbn [sum_list_with]. lia.
Qed.

Lemma prune_spec n files :
  files_structural files →
  files_structural (prune n files) ∧ ∃ tail, files_preorder files = files_preorder (prune n files) ++ tail.
Proof.
  intros Hst. induction n as [|n [IHs (tail & IH)]]; [split; [done|exists []; by rewrite app_nil_r]|].
  change (prune (S n) files) with (_remove_last_overview_node (prune n files)).1.
  pose proof (remove_last_overview_prunes (prune n files)) as Hp.
  destruct (_remove_last_overview_node (prune n files)) as [files' [|r]].
  - destruct Hp as [-> _]. split; [done|by exists tail].
  - destruct Hp as [(tl & Heq & _ & _) Hst']. split; [by apply Hst'|]. exists (tl ++ tail).
    cbn [fst]. by rewrite IH, Heq, app_assoc.
Qed.

(** Nothing to show means nothing left to remove. *)
Lemma structural_nodes files : files_structural files → files_preorder files = [] → files = [].
Proof.
  intros Hst Hnil. destruct files as [|f fs]; [done|]. apply Forall_cons in Hst as [[Hne _] _].
  rewrite files_preorder_cons in Hnil. apply app_eq_nil in Hnil as [Hnil _].
  destruct (overview_symbols f) as [|[name kind cs im] xs]; done.
Qed.

Lemma prune_nil n : prune n [] = [].
Proof.
  induction n as [|n IH]; [done|]. change (prune (S n) []) with (_remove_last_overview_node (prune n [])).1. by rewrite IH.
Qed.

Lemma prune_count n files :
  files_structural files → (files_node_count (prune n files) ≤ files_node_count files)%nat.
Proof.
  intros Hst. destruct (prune_spec n files Hst) as [_ (tail & Heq)].
  rewrite <-!files_preorder_length, Heq, length_app. lia.
Qed.

Lemma overview_answer_total workspace original omitted n :
  workspace ≠ [] → 0 ≤ omitted → files_structural original →
  ∃ s, overview_answer workspace original omitted (prune n original) = Ok s ∧
       ns_omitted s = omitted + (Z.of_nat (files_node_count original) - Z.of_nat (files_node_count (prune n original))).
Proof.
  intros Hw Ho Hst. pose proof (prune_count n original Hst). unfold overview_answer.
  rewrite navigation_init_plain by (done || lia). by eexists.
Qed.

Section overview_loop.
Context (sha : pystr → pystr) (workspace : pystr) (original : list CompactFile) (budget omitted : Z) (ctx : error_context).
Context (Hsha : ∀ v, _valid_sha256 (sha v) = true) (Hauth : authorities_ok ctx = true)
  (Hb : 512 ≤ budget ≤ 50000) (Hw : workspace ≠ []) (Ho : 0 ≤ omitted) (Hst : files_structural original)
  (Hdigits : ∀ minimum, overview_minimum workspace original omitted = Ok minimum → (length (dec minimum) ≤ 40)%nat).

(** Every state tried so far was too large. *)
Definition tried (k : nat) : Prop :=
  ∀ j, (j < k)%nat → ∃ s, overview_answer workspace original omitted (prune j original) = Ok s ∧ budget < answer_size s.

Lemma overview_budget_error minimum :
  overview_minimum workspace original omitted = Ok minimum →
  (∀ j, original = [] ∨ prune j original ≠ [] → ∃ s', overview_answer workspace original omitted (prune j original) = Ok s' ∧ budget < answer_size s') →
  ∃ r, minimum_required_chars_result sha minimum ctx None None None (PInt budget) = Ok r ∧
       overview_result sha workspace original budget omitted ctx r.
Proof using All.
  intros Hmin Hbig. destruct (overview_minimum_total workspace original omitted Hw Ho Hst) as (m & Hm & Hpos).
  rewrite Hmin in Hm. injection Hm as <-.
  destruct (minimum_result_total sha minimum ctx None budget) as [r Hr]; try done; [by apply Hdigits|].
  exists r. split; [done|]. eapply OverviewBudgetError; [|done..]. by eapply minimum_result_fits.
Qed.

Lemma prune_empty_later k j : prune k original = [] → (k ≤ j)%nat → prune j original = [].
Proof.
  intros Hk Hle. replace j with ((j - k) + k)%nat by lia. unfold prune in *. rewrite Nat.iter_add, Hk. apply prune_nil.
Qed.

Lemma overview_loop_spec fuel : ∀ k,
  tried k → (files_node_count (prune k original) < fuel)%nat →
  ∃ r, overview_loop sha fuel workspace original (prune k original)
         (files_node_count original - files_node_count (prune k original)) budget omitted ctx = Some (Ok r) ∧
       overview_result sha workspace original budget omitted ctx r.
Proof using All.
  induction fuel as [|fuel IH]; intros k Htried Hfuel; [lia|]. cbn [overview_loop].
  pose proof (prune_count k original Hst) as Hcount.
  destruct (nonempty original && negb (nonempty (prune k original))) eqn:Hempty.
  - apply andb_prop in Hempty as [Hne Hk]. assert (prune k original = []) as Hnil by (by destruct (prune k original)).
    destruct (overview_minimum_total workspace original omitted Hw Ho Hst) as (m & Hm & _).
    destruct (overview_budget_error m Hm) as (r & Hr & Hres).
    { intros j [->|Hj]; [done|]. apply Htried. destruct (decide (j < k)%nat); [done|].
      exfalso. apply Hj. apply (prune_empty_later k); [done|lia]. }
    exists r. split; [|done]. destruct original; [done|]. cbn [overview_minimum] in Hm. rewrite Hm. cbn [mbind res_bind].
    by rewrite Hr.
  - destruct (overview_answer_total workspace original omitted k Hw Ho Hst) as (s & Hs & Hom).
    replace (omitted + Z.of_nat (files_node_count original - files_node_count (prune k original)))
      with (omitted + (Z.of_nat (files_node_count original) - Z.of_nat (files_node_count (prune k original)))) by lia.
    unfold overview_answer in Hs. rewrite Hs. cbn [mbind res_bind].
    change (_text_length (render_success s)) with (answer_size s).
    destruct (prune_spec k original Hst) as [Hstk (tail & Htail)].
    case_bool_decide as Hfit.
    + exists (render_success s). split; [done|]. apply (OverviewShown _ _ _ _ _ _ k tail); try done.
      * intros Hne Hnil. rewrite Hnil in Hempty. by destruct original.
      * rewrite Hom, <-!files_preorder_length, Htail, length_app. lia.
    + pose proof (remove_last_overview_prunes (prune k original)) as Hprune.
      assert (tried (S k)) as Htried'.
      { intros j Hj. destruct (decide (j = k)) as [->|]; [exists s; split; [done|lia]|]. apply Htried. lia. }
      assert ((_remove_last_overview_node (prune k original)).1 = prune (S k) original) as Hnext by done.
      destruct (_remove_last_overview_node (prune k original)) as [retained' [|r]] eqn:Hr; cbn [fst] in Hnext.
      * destruct Hprune as [_ Hnil]. apply structural_nodes in Hnil; [|done].
        assert (original = []) as Horig by (rewrite Hnil in Hempty; by destruct original).
        destruct (overview_budget_error (answer_size s)) as (r' & Hr' & Hres).
        { rewrite Horig. cbn [overview_minimum]. unfold overview_answer. rewrite Hnil, Horig in Hs. by rewrite Hs. }
        { intros j _. exists s. split; [|lia]. rewrite Horig, prune_nil in *. done. }
        exists r'. split; [|done]. f_equal. exact Hr'.
      * destruct Hprune as [(tl & Heq & Hl & Hpos) _]. rewrite Hnext in *.
        assert (files_node_count (prune k original) = (files_node_count (prune (S k) original) + S r)%nat) as Hc.
        { by rewrite <-!files_preorder_length, Heq, length_app, Hl. }
        replace (files_node_count original - files_node_count (prune k original) + S r)%nat
          with (files_node_count original - files_node_count (prune (S k) original))%nat by lia.
        apply IH; [done|lia].
Qed.
End overview_loop.

(** ** The records loop always answers *)

Lemma records_loop_total sha workspace ordered budget omitted coverage ctx recovery n s1 :
  (∀ v, _valid_sha256 (sha v) = true) → authorities_ok ctx = true → recovery_ok recovery → 512 ≤ budget ≤ 50000 →
  ordered ≠ [] → (∀ j, (1 ≤ j ≤ n)%nat → is_ok (prefix_answer workspace ordered omitted coverage j) = true) →
  prefix_answer workspace ordered omitted coverage 1 = Ok s1 → (length (dec (answer_size s1)) ≤ 40)%nat →
  ∃ r, records_loop sha workspace ordered budget omitted coverage ctx recovery n = Ok r.
Proof.
  intros Hsha Hauth Hrec Hb Hne Hall Hs1 Hd. induction n as [|n IH].
  - destruct ordered as [|o os]; [done|]. cbn [records_loop]. unfold _minimum_flat_success_chars.
    unfold prefix_answer in Hs1. change (take 1 (o :: os)) with [o] in Hs1.
    destruct (group_records [o]) as [files|]; [|done]. cbn [mbind res_bind] in *.
    replace (omitted + Z.of_nat (length (o :: os)) - 1)
      with (omitted + (Z.of_nat (length (o :: os)) - Z.of_nat 1)) by lia.
    rewrite Hs1. cbn [mbind res_bind]. by apply minimum_result_total.
  - rewrite records_loop_unfold by (right; lia). specialize (Hall (S n) ltac:(lia)) as Hn.
    destruct (prefix_answer workspace ordered omitted coverage (S n)) as [s|]; [|done].
    case_bool_decide; [by eexists|]. apply IH. intros j Hj. apply Hall. lia.
Qed.

(** ** Properties *)

(** C25: a bounded record answer is within the requested budget and its text is the canonical form of its structured
    value; it shows the longest prefix of the ordered records that fits, counting every record left out, or reports
    the size of the one-record answer when no prefix fits. *)
Theorem bounded_records_longest_prefix sha workspace records max_answer_chars omitted coverage ctx recovery r :
  render_bounded_records sha workspace records max_answer_chars omitted coverage ctx recovery = Ok r →
  ∃ budget, max_answer_chars = PInt budget ∧ MIN_MAX_ANSWER_CHARS ≤ budget ≤ MAX_MAX_ANSWER_CHARS ∧ fits budget r ∧
    loop_result sha workspace (ordered_records records) budget omitted coverage (length (ordered_records records)) r.
Proof.
  unfold render_bounded_records. intros (budget & Hb & H)%res_bind_Ok. apply res_bind_Ok in H as ([] & _ & H).
  exists budget. destruct max_answer_chars as [| |z| | | | | |]; try done. cbn in Hb.
  destruct (bool_decide (MIN_MAX_ANSWER_CHARS ≤ z ≤ MAX_MAX_ANSWER_CHARS)) eqn:Hz; [|done]. injection Hb as <-.
  apply bool_decide_eq_true in Hz. apply records_loop_spec in H; [|done]. split_and!; [done|lia..| |done].
  destruct H as [m s _ _ _ Hle -> _|]; [|done]. split; [exact Hle|done].
Qed.

(** when every prefix of the ordered records can be grouped, rendering always answers (the budget error fits the
    smallest budget), and retrying with the reported minimum shows at least one record. *)
Theorem bounded_records_retry_succeeds sha workspace records budget omitted coverage ctx recovery s1 :
  (∀ v, _valid_sha256 (sha v) = true) → authorities_ok ctx = true → recovery_ok recovery →
  MIN_MAX_ANSWER_CHARS ≤ budget ≤ MAX_MAX_ANSWER_CHARS → 0 ≤ omitted → ordered_records records ≠ [] →
  (∀ j, (1 ≤ j ≤ length (ordered_records records))%nat →
     is_ok (prefix_answer workspace (ordered_records records) omitted coverage j) = true) →
  prefix_answer workspace (ordered_records records) omitted coverage 1 = Ok s1 →
  (length (dec (answer_size s1)) ≤ 40)%nat →
  (∃ r, render_bounded_records sha workspace records (PInt budget) omitted coverage ctx recovery = Ok r) ∧
  (answer_size s1 ≤ budget →
   ∃ m s, (1 ≤ m)%nat ∧ prefix_answer workspace (ordered_records records) omitted coverage m = Ok s ∧
     render_bounded_records sha workspace records (PInt budget) omitted coverage ctx recovery = Ok (render_success s)).
Proof.
  intros Hsha Hauth Hrec Hb Ho Hne Hall Hs1 Hd.
  assert (∀ n, n = length (ordered_records records) →
    render_bounded_records sha workspace records (PInt budget) omitted coverage ctx recovery =
    records_loop sha workspace (ordered_records records) budget omitted coverage ctx recovery n) as Hunfold.
  { intros n ->. unfold render_bounded_records. cbn [validate_max_answer_chars].
    rewrite (bool_decide_eq_true_2 (MIN_MAX_ANSWER_CHARS ≤ budget ≤ MAX_MAX_ANSWER_CHARS)) by done. cbn [mbind res_bind].
    by rewrite (bool_decide_eq_true_2 (0 ≤ omitted)). }
  rewrite (Hunfold _ eq_refl). split; [by eapply records_loop_total|]. intros Hle.
  destruct (records_loop_reaches sha workspace (ordered_records records) budget omitted coverage ctx recovery
    (length (ordered_records records)) s1) as (m & s & Hm & Hs & Heq); [|done..|].
  - destruct (ordered_records records); [done|]. cbn. lia.
  - exists m, s. split; [lia|done].
Qed.

(** records of one kind are shown exactly once each, and the rendered answer does not depend on the order in
    which they were found. *)
Theorem records_rendering_order_independent sha workspace k records records' max_answer_chars omitted coverage ctx recovery :
  homogeneous k records → records ≡ₚ records' →
  render_bounded_records sha workspace records max_answer_chars omitted coverage ctx recovery =
  render_bounded_records sha workspace records' max_answer_chars omitted coverage ctx recovery ∧
  NoDup (ordered_records records) ∧ (∀ i, i ∈ ordered_records records ↔ i ∈ records).
Proof.
  intros Hh Hp. split; [unfold render_bounded_records; by rewrite (sorted_records_perm k records records')|].
  destruct (dedup_records_spec [] (py_sorted _record_order_key records)) as (H1 & H2 & H3). split.
  - by apply NoDup_fmap_1 in H3.
  - intros i. split; [intros [Hi _]%H1; by rewrite elem_of_py_sorted in Hi|]. intros Hi.
    destruct (H2 i) as [?|(j & Hj & Heq)]; [by rewrite elem_of_py_sorted|set_solver|].
    apply (canonical_identifies k records) in Heq as ->; [done..| |done].
    apply H1 in Hj as [Hj _]. by rewrite elem_of_py_sorted in Hj.
Qed.

(** rendering an overview always returns; the shown nodes are a prefix, in display order, of the nodes there are,
    the count of omitted nodes is exact, no structural ancestor is left without a child, every larger overview was
    too large, and a budget error reports the size of the smallest overview that shows a match. *)
Theorem overview_prunes_whole_nodes sha workspace files budget omitted ctx original :
  (∀ v, _valid_sha256 (sha v) = true) → authorities_ok ctx = true →
  MIN_MAX_ANSWER_CHARS ≤ budget ≤ MAX_MAX_ANSWER_CHARS → workspace ≠ [] → 0 ≤ omitted →
  _validated_overview_files files = Ok original → files_structural original →
  (∀ minimum, overview_minimum workspace original omitted = Ok minimum → (length (dec minimum) ≤ 40)%nat) →
  ∃ r, render_bounded_overview sha workspace files (PInt budget) omitted ctx = Some (Ok r) ∧ fits budget r ∧
       overview_result sha workspace original budget omitted ctx r.
Proof.
  intros Hsha Hauth Hb Hw Ho Horig Hst Hd. unfold render_bounded_overview. cbn [validate_max_answer_chars].
  rewrite (bool_decide_eq_true_2 (MIN_MAX_ANSWER_CHARS ≤ budget ≤ MAX_MAX_ANSWER_CHARS)) by done.
  rewrite (bool_decide_eq_false_2 (omitted < 0)) by lia. rewrite Horig.
  destruct (overview_loop_spec sha workspace original budget omitted ctx Hsha Hauth Hb Hw Ho Hst Hd
    (S (files_node_count original)) 0) as (r & Hr & Hres); [by intros j ?; lia|change (prune 0 original) with original; lia|].
  change (prune 0 original) with original in Hr. rewrite Nat.sub_diag in Hr.
  exists r. split_and!; [done| |done]. destruct Hres as [k tail s _ _ _ _ _ Hle _|]; [|done]. split; [exact Hle|done].
Qed.

Module CompactExamples.

Definition sha (s : pystr) : pystr := replicate 64 48%N.

Lemma sha_valid v : _valid_sha256 (sha v) = true.
Proof. reflexivity. Qed.

Definition ctx : error_context := {| ex_workspace := None; ex_adapter := None; ex_generations := None; ex_authorities := [] |}.

Definition reference (line : Z) : LocatedCompactRecord :=
  {| lr_path := lit "pkg/a.py";
     lr_record := FReference {| rf_range := Some ((line, 1), (line, 5)); rf_symbol := Some (lit "f");
                                rf_snippet := Some (replicate 200 120%N); rf_raw_range := None; rf_position_basis := None |};
     lr_language := None; lr_read_only := None; lr_sha256 := None |}.

(** Three references of which two fit in 600 characters. *)
Definition records : list LocatedCompactRecord := [reference 9; reference 4; reference 4; reference 7].

Definition shown : CallToolResult :=
  match prefix_answer (lit "/w") (ordered_records records) 0 None 2 with
  | Ok s => render_success s
  | Err _ => render_payload JNull
  end.

Lemma bounded_records_longest_prefix_witness :
  render_bounded_records sha (lit "/w") records (PInt 600) 0 None ctx None = Ok shown ∧ fits 600 shown ∧
  (length (ct_text shown) = 594)%nat.
Proof.
  assert (render_bounded_records sha (lit "/w") records (PInt 600) 0 None ctx None = Ok shown) as H
    by (vm_compute; reflexivity).
  destruct (bounded_records_longest_prefix sha _ _ _ _ _ _ _ _ H) as (b & Hb & _ & Hfits & _).
  injection Hb as <-. split_and!; [exact H|exact Hfits|vm_compute; reflexivity].
Defined.

Definition one_record : CompactNavigationSuccess :=
  match prefix_answer (lit "/w") (ordered_records records) 0 None 1 with
  | Ok s => s
  | Err _ => {| ns_workspace := []; ns_files := []; ns_omitted := 0; ns_coverage := None |}
  end.

Lemma bounded_records_retry_succeeds_witness :
  ∃ r, render_bounded_records sha (lit "/w") records (PInt 512) 0 None ctx None = Ok r.
Proof.
  refine (proj1 (bounded_records_retry_succeeds sha (lit "/w") records 512 0 None ctx None one_record
    sha_valid eq_refl I _ _ _ _ _ _)).
  - by vm_compute.
  - done.
  - intros Hnil. apply (f_equal length) in Hnil. vm_compute in Hnil. discriminate.
  - intros j Hj. assert (length (ordered_records records) = 3%nat) as Hl by (vm_compute; reflexivity).
    assert (j = 1 ∨ j = 2 ∨ j = 3)%nat as [-> | [-> | ->]] by lia; vm_compute; reflexivity.
  - vm_compute. reflexivity.
  - apply Nat.leb_le. vm_compute. reflexivity.
Defined.

Lemma records_rendering_order_independent_witness :
  render_bounded_records sha (lit "/w") records (PInt 600) 0 None ctx None =
  render_bounded_records sha (lit "/w") (reverse records) (PInt 600) 0 None ctx None ∧
  length (ordered_records records) = 3%nat.
Proof.
  split; [|vm_compute; reflexivity].
  refine (proj1 (records_rendering_order_independent sha (lit "/w") REFERENCES records (reverse records)
    (PInt 600) 0 None ctx None _ _)).
  - intros i Hi. unfold records in Hi. rewrite !elem_of_cons, elem_of_nil in Hi.
    destruct Hi as [->|[->|[->|[->|[]]]]]; split; done.
  - symmetry. apply reverse_Permutation.
Defined.

Definition method (name : string) : CompactOverviewSymbol := Overview (lit name) 6 [] true.
Definition overview_file : CompactFile :=
  {| cf_path := lit "pkg/a.py"; cf_record_key := SYMBOLS;
     cf_records := [ROverview (Overview (lit "C") 5 (replicate 20 (method "some_method_name")) false)];
     cf_language := None; cf_read_only := None; cf_sha256 := None |}.

Lemma overview_prunes_whole_nodes_witness :
  ∃ r, render_bounded_overview sha (lit "/w") [overview_file] (PInt 512) 0 ctx = Some (Ok r) ∧ fits 512 r.
Proof.
  assert (∀ minimum, overview_minimum (lit "/w") [overview_file] 0 = Ok minimum → (length (dec minimum) ≤ 40)%nat) as Hd.
  { intros minimum Hm. vm_compute in Hm. injection Hm as <-. vm_compute. lia. }
  destruct (overview_prunes_whole_nodes sha (lit "/w") [overview_file] 512 0 ctx [overview_file] sha_valid)
    as (r & Hr & Hfits & _); try done.
  - repeat constructor; vm_compute; done.
  - exists r. split; [exact Hr|exact Hfits].
Defined.

End CompactExamples.
