(* ===== verification/Normalize.v ===== *)
(** * Symbol normalization

    Model of [src/serena_light/lsp/normalize.py]: ranges and locations from raw
    LSP values, document-symbol trees with overload segments and name paths,
    the narrowest containing symbol and reparenting.

    A raw symbol is the items of its mapping. [urlparse], [unquote] and [str]
    of a detail that is not a string are parameters, as are the adapter's name
    function and body classifier. *)

From S2P Require Import Prelude Json Envelopes.

Inductive normalize_error :=
| NegativeCoordinate
| EndPrecedesStart
| BadPosition
| BadRange
| BadLocation
| EmptyName
| EmptyNormalizedName
| NoLocation
| InvalidKind
| ChildrenNotSequence
| NonObjectChild
| OutOfFuel.   (** of the model only: see [normalize_document_symbols_fuel] *)

Record Position := { pos_line : Z; pos_character : Z }.

(** [order=True]: positions compare as (line, character). *)
Definition pos_key (p : Position) : Z * Z := (pos_line p, pos_character p).

Record Range := { rg_start : Position; rg_end : Position }.

Definition range_init (start stop : Position) : res normalize_error Range :=
  _ ← ensure (forallb (λ z, bool_decide (0 ≤ z)) [pos_line start; pos_character start; pos_line stop; pos_character stop])
        NegativeCoordinate;
  _ ← ensure (negb (py_ltb (pos_key stop) (pos_key start))) EndPrecedesStart;
  Ok {| rg_start := start; rg_end := stop |}.

Definition range_contains (r : Range) (p : Position) : bool :=
  py_leb (pos_key (rg_start r)) (pos_key p) && py_ltb (pos_key p) (pos_key (rg_end r)).

Record Location := { loc_uri : pystr; loc_range : Range; loc_path : option pystr }.

Inductive NormalizedSymbol := Sym {
  ns_name : pystr;
  ns_segment : pystr;
  ns_path : list pystr;
  ns_kind : Z;
  ns_location : Location;
  ns_selection : Range;
  ns_detail : option pystr;
  ns_children : list NormalizedSymbol;
  ns_incomplete : option pystr;
}.

Fixpoint iter_depth_first (s : NormalizedSymbol) : list NormalizedSymbol :=
  s :: concat (iter_depth_first <$> ns_children s).

Definition raw_symbol : Type := list (option pystr * pyany).

Definition raw_get (raw : raw_symbol) (k : string) : option pyany := dict_get raw (Some (lit k)).

Definition _position (raw : raw_symbol) : res normalize_error Position :=
  match raw_get raw "line", raw_get raw "character" with
  | Some (PInt l), Some (PInt c) => Ok {| pos_line := l; pos_character := c |}
  | _, _ => Err BadPosition
  end.

Definition _range (raw : raw_symbol) : res normalize_error Range :=
  match raw_get raw "start", raw_get raw "end" with
  | Some (PMapping s), Some (PMapping e) => start ← _position s; stop ← _position e; range_init start stop
  | _, _ => Err BadRange
  end.

(** What [urlparse] splits a URI into. *)
Record parsed_uri := { pu_scheme : pystr; pu_netloc : pystr; pu_path : pystr }.

Section normalize.
Context (urlparse : pystr → parsed_uri) (unquote : pystr → pystr) (py_str : pyany → pystr).

Definition _file_uri_path (uri : pystr) : option pystr :=
  let parsed := urlparse uri in
  if bool_decide (pu_scheme parsed ≠ lit "file") || bool_decide (pu_netloc parsed ∉ [[]; lit "localhost"]) then None
  else Some (unquote (pu_path parsed)).

Definition normalize_location (raw : raw_symbol) : res normalize_error Location :=
  match raw_get raw "uri", raw_get raw "range" with
  | Some (PStr uri), Some (PMapping r) =>
      rg ← _range r; Ok {| loc_uri := uri; loc_range := rg; loc_path := _file_uri_path uri |}
  | _, _ => Err BadLocation
  end.

(** [str(detail) if detail is not None else None] *)
Definition detail_text (detail : option pyany) : option pystr :=
  match detail with
  | None | Some PNone => None
  | Some (PStr s) => Some s
  | Some v => Some (py_str v)
  end.

Context (name_fn : pystr → pystr) (body_completeness : option (raw_symbol → option pystr)).

Definition normalized_name (raw : raw_symbol) : res normalize_error pystr :=
  match raw_get raw "name" with
  | Some (PStr name) =>
      _ ← ensure (nonempty name) EmptyName;
      _ ← ensure (nonempty (name_fn name)) EmptyNormalizedName;
      Ok (name_fn name)
  | _ => Err EmptyName
  end.

(** [Counter] *)
Definition count_up (c : gmap pystr nat) (name : pystr) : gmap pystr nat := <[name := S (default 0%nat (c !! name))]> c.
Definition counter (names : list pystr) : gmap pystr nat := fold_left count_up names ∅.
Definition count_of (c : gmap pystr nat) (name : pystr) : nat := default 0%nat (c !! name).

Definition overload_label (name : pystr) (k : nat) : pystr := name ++ lit "[" ++ dec (Z.of_nat k) ++ lit "]".

Definition segment_of (totals seen : gmap pystr nat) (name : pystr) : pystr :=
  if bool_decide (1 < count_of totals name)%nat then overload_label name (count_of seen name) else name.

Definition symbol_location (document_uri : pystr) (raw : raw_symbol) : res normalize_error Location :=
  match raw_get raw "location" with
  | Some (PMapping l) => normalize_location l
  | _ => match raw_get raw "range" with
         | Some (PMapping r) =>
             rg ← _range r; Ok {| loc_uri := document_uri; loc_range := rg; loc_path := _file_uri_path document_uri |}
         | _ => Err NoLocation
         end
  end.

Definition raw_children (raw : raw_symbol) : res normalize_error (list raw_symbol) :=
  items ← match raw_get raw "children" with
          | None => Ok []
          | Some (PSequence items) => Ok items
          | Some _ => Err ChildrenNotSequence
          end;
  map_res (λ c, match c with PMapping m => Ok m | _ => Err NonObjectChild end) items.

(** One pass of the second loop of [_normalize_siblings]; [rec] normalizes the
    children under the new name path. *)
Definition normalize_one (rec : list pystr → list raw_symbol → res normalize_error (list NormalizedSymbol))
    (document_uri : pystr) (parent_path : list pystr) (segment : pystr) (raw : raw_symbol) (name : pystr)
    : res normalize_error NormalizedSymbol :=
  let name_path := parent_path ++ [segment] in
  location ← symbol_location document_uri raw;
  selection ← match raw_get raw "selectionRange" with
              | Some (PMapping r) => _range r
              | _ => Ok (loc_range location)
              end;
  kind ← match raw_get raw "kind" with Some (PInt z) => Ok z | _ => Err InvalidKind end;
  children_mappings ← raw_children raw;
  children ← rec name_path children_mappings;
  Ok {| ns_name := name; ns_segment := segment; ns_path := name_path; ns_kind := kind; ns_location := location;
        ns_selection := selection; ns_detail := detail_text (raw_get raw "detail"); ns_children := children;
        ns_incomplete := body_completeness ≫= λ f, f raw |}.

Fixpoint siblings_loop (rec : list pystr → list raw_symbol → res normalize_error (list NormalizedSymbol))
    (document_uri : pystr) (parent_path : list pystr) (totals seen : gmap pystr nat) (l : list (raw_symbol * pystr))
    : res normalize_error (list NormalizedSymbol) :=
  match l with
  | [] => Ok []
  | (raw, name) :: l =>
      s ← normalize_one rec document_uri parent_path (segment_of totals seen name) raw name;
      rest ← siblings_loop rec document_uri parent_path totals (count_up seen name) l;
      Ok (s :: rest)
  end.

(** [fuel] bounds the nesting of the tree. *)
Fixpoint _normalize_siblings (fuel : nat) (document_uri : pystr) (parent_path : list pystr) (raws : list raw_symbol)
    : res normalize_error (list NormalizedSymbol) :=
  match fuel with
  | O => Err OutOfFuel
  | S fuel =>
      names ← map_res normalized_name raws;
      siblings_loop (_normalize_siblings fuel document_uri) document_uri parent_path (counter names) ∅ (zip raws names)
  end.

Fixpoint any_depth (v : pyany) : nat :=
  match v with
  | PMapping items => S (foldr (λ kv d, Nat.max (any_depth kv.2) d) 0%nat items)
  | PSequence items => S (foldr (λ x d, Nat.max (any_depth x) d) 0%nat items)
  | _ => 0%nat
  end.

Definition raws_depth (raws : list raw_symbol) : nat := any_depth (PSequence (PMapping <$> raws)).

(** [recover_containment]: the adapter's hierarchy change, if it has one. *)
Definition normalize_document_symbols (raw_symbols : option (list raw_symbol)) (document_uri : pystr)
    (recover_containment : option (list NormalizedSymbol → list NormalizedSymbol))
    : res normalize_error (list NormalizedSymbol) :=
  match raw_symbols with
  | None | Some [] => Ok []
  | Some raws =>
      roots ← _normalize_siblings (raws_depth raws) document_uri [] raws;
      Ok (match recover_containment with None => roots | Some recover => recover roots end)
  end.
End normalize.

Definition _range_size_key (r : Range) : Z * Z * Z * Z :=
  (pos_line (rg_end r) - pos_line (rg_start r),
   (if bool_decide (pos_line (rg_end r) = pos_line (rg_start r))
    then pos_character (rg_end r) - pos_character (rg_start r) else pos_character (rg_end r)),
   - pos_line (rg_start r), - pos_character (rg_start r)).

(** [min(l, key=key)]: the first of the least. *)
Fixpoint py_min {A K} `{PyOrd K} (key : A → K) (best : A) (l : list A) : A :=
  match l with
  | [] => best
  | x :: l => py_min key (if py_ltb (key x) (key best) then x else best) l
  end.

Definition containing_symbol (symbols : list NormalizedSymbol) (location : Location) : option NormalizedSymbol :=
  let candidates := filter (λ s, loc_uri (ns_location s) = loc_uri location ∧
      range_contains (loc_range (ns_location s)) (rg_start (loc_range location)) = true)
    (concat (iter_depth_first <$> symbols)) in
  match candidates with
  | [] => None
  | c :: cs => Some (py_min (λ s, _range_size_key (loc_range (ns_location s))) c cs)
  end.

Fixpoint reparent (s : NormalizedSymbol) (parent_path : list pystr) : NormalizedSymbol :=
  let name_path := parent_path ++ [ns_segment s] in
  {| ns_name := ns_name s; ns_segment := ns_segment s; ns_path := name_path; ns_kind := ns_kind s;
     ns_location := ns_location s; ns_selection := ns_selection s; ns_detail := ns_detail s;
     ns_children := (λ c, reparent c name_path) <$> ns_children s; ns_incomplete := ns_incomplete s |}.

(** ** Counting names *)

Definition occurrences (name : pystr) (l : list pystr) : nat := length (filter (λ x, x = name) l).

Lemma occurrences_snoc name l x :
  occurrences name (l ++ [x]) = (occurrences name l + if decide (x = name) then 1 else 0)%nat.
Proof. unfold occurrences. rewrite filter_app, length_app, filter_cons. by case_decide. Qed.

(** [count_of c] counts the names of [l]. *)
Definition counts (c : gmap pystr nat) (l : list pystr) : Prop := ∀ name, count_of c name = occurrences name l.

Lemma count_up_counts c l x : counts c l → counts (count_up c x) (l ++ [x]).
Proof.
  intros Hc name. rewrite occurrences_snoc, <-Hc. unfold count_of, count_up.
  destruct (decide (x = name)) as [->|Hne].
  - rewrite lookup_insert_eq. simpl. lia.
  - rewrite lookup_insert_ne by done. lia.
Qed.

Lemma counter_counts l : counts (counter l) l.
Proof.
  unfold counter. assert (∀ pre c, counts c pre → counts (fold_left count_up l c) (pre ++ l)) as Hgo.
  { induction l as [|x l IH]; intros pre c Hc; simpl; [by rewrite app_nil_r|].
    rewrite cons_middle, app_assoc. apply IH. by apply count_up_counts. }
  apply (Hgo [] ∅). intros name. reflexivity.
Qed.

(** ** Well-formed trees *)

Definition range_ok (r : Range) : Prop :=
  0 ≤ pos_line (rg_start r) ∧ 0 ≤ pos_character (rg_start r) ∧ 0 ≤ pos_line (rg_end r) ∧ 0 ≤ pos_character (rg_end r) ∧
  py_leb (pos_key (rg_start r)) (pos_key (rg_end r)) = true.

(** The segment of the [i]-th sibling: its name, numbered among its overloads. *)
Definition segments_ok (l : list NormalizedSymbol) : Prop :=
  ∀ i s, l !! i = Some s →
    ns_segment s = if bool_decide (1 < occurrences (ns_name s) (ns_name <$> l))%nat
                   then overload_label (ns_name s) (occurrences (ns_name s) (ns_name <$> take i l)) else ns_name s.

Fixpoint tree_ok (parent : list pystr) (s : NormalizedSymbol) : Prop :=
  ns_path s = parent ++ [ns_segment s] ∧ ns_name s ≠ [] ∧ range_ok (loc_range (ns_location s)) ∧
  range_ok (ns_selection s) ∧ segments_ok (ns_children s) ∧
  foldr (λ c P, tree_ok (parent ++ [ns_segment s]) c ∧ P) True (ns_children s).

Definition forest_ok (parent : list pystr) (l : list NormalizedSymbol) : Prop :=
  segments_ok l ∧ Forall (tree_ok parent) l.

Lemma tree_ok_unfold parent s :
  tree_ok parent s ↔
  ns_path s = parent ++ [ns_segment s] ∧ ns_name s ≠ [] ∧ range_ok (loc_range (ns_location s)) ∧
  range_ok (ns_selection s) ∧ forest_ok (ns_path s) (ns_children s).
Proof.
  assert (∀ P l, foldr (λ c Q, tree_ok P c ∧ Q) True l ↔ Forall (tree_ok P) l) as Hall.
  { intros P l. induction l as [|x l IH]; simpl; [by split|]. by rewrite IH, Forall_cons. }
  unfold forest_ok. destruct s; simpl. rewrite Hall. split.
  - intros (-> & ? & ? & ? & ? & ?). by split_and!.
  - intros (Hp & ? & ? & ? & ? & Hf). rewrite <-Hp in *. by split_and!.
Qed.

Lemma range_init_ok a b r : range_init a b = Ok r → range_ok r.
Proof.
  unfold range_init. intros ([] & H1 & H)%res_bind_Ok. apply res_bind_Ok in H as ([] & H2 & [= <-]).
  unfold ensure in *. destruct (forallb _ _) eqn:Hf; [|done]. simpl in Hf.
  repeat apply andb_prop in Hf as [?%bool_decide_eq_true Hf].
  unfold py_ltb in H2. destruct (py_leb (pos_key a) (pos_key b)) eqn:Hle; [|done]. by split_and!.
Qed.

Lemma range_of_raw_ok raw r : _range raw = Ok r → range_ok r.
Proof.
  unfold _range. repeat case_match; try done. intros (a & _ & Hb)%res_bind_Ok.
  apply res_bind_Ok in Hb as (b & _ & Hb). by eapply range_init_ok.
Qed.

Lemma map_res_length {E A B} (f : A → res E B) l k : map_res f l = Ok k → length k = length l.
Proof.
  revert k. induction l as [|x l IH]; intros k; simpl; [by intros [= <-]|].
  intros (y & _ & H)%res_bind_Ok. apply res_bind_Ok in H as (ys & Hys & [= <-]). simpl. f_equal. by apply IH.
Qed.

Section normalize_facts.
Context (urlparse : pystr → parsed_uri) (unquote : pystr → pystr) (py_str : pyany → pystr).
Context (name_fn : pystr → pystr) (body_completeness : option (raw_symbol → option pystr)).

Abbreviation one := (normalize_one urlparse unquote py_str body_completeness).
Abbreviation loop := (siblings_loop urlparse unquote py_str body_completeness).
Abbreviation siblings := (_normalize_siblings urlparse unquote py_str name_fn body_completeness).

Lemma symbol_location_ok uri raw l : symbol_location urlparse unquote uri raw = Ok l → range_ok (loc_range l).
Proof.
  unfold symbol_location, normalize_location. repeat case_match; try done;
    intros (r & Hr & [= <-])%res_bind_Ok; by eapply range_of_raw_ok.
Qed.

Lemma normalize_one_ok (rec : list pystr → list raw_symbol → res normalize_error (list NormalizedSymbol)) uri parent segment raw name s :
  (∀ p rs l, rec p rs = Ok l → forest_ok p l) → name ≠ [] →
  one rec uri parent segment raw name = Ok s →
  ns_name s = name ∧ ns_segment s = segment ∧ tree_ok parent s.
Proof.
  intros Hrec Hname. unfold normalize_one. intros (loc & Hloc & H)%res_bind_Ok.
  apply res_bind_Ok in H as (sel & Hsel & H). apply res_bind_Ok in H as (kind & _ & H).
  apply res_bind_Ok in H as (cms & _ & H). apply res_bind_Ok in H as (cs & Hcs & [= <-]).
  split_and!; [done..|]. apply tree_ok_unfold. simpl. apply symbol_location_ok in Hloc.
  split_and!; [done|done|done| |by eapply Hrec].
  destruct (raw_get raw "selectionRange") as [v|]; [destruct v|]; try (by injection Hsel as <-); by eapply range_of_raw_ok.
Qed.

Lemma siblings_loop_ok (rec : list pystr → list raw_symbol → res normalize_error (list NormalizedSymbol)) uri parent totals all l :
  (∀ p rs k, rec p rs = Ok k → forest_ok p k) → counts totals all → Forall (λ x, x.2 ≠ []) l →
  ∀ pre seen k, counts seen pre → all = pre ++ l.*2 → loop rec uri parent totals seen l = Ok k →
  ns_name <$> k = l.*2 ∧ Forall (tree_ok parent) k ∧
  ∀ i s, k !! i = Some s →
    ns_segment s = if bool_decide (1 < occurrences (ns_name s) all)%nat
                   then overload_label (ns_name s) (occurrences (ns_name s) (pre ++ take i l.*2)) else ns_name s.
Proof.
  intros Hrec Htot. induction l as [|[raw name] l IH]; intros Hne pre seen k Hseen Hall; simpl.
  { intros [= <-]. split_and!; [done|constructor|done]. }
  apply Forall_cons in Hne as [Hname Hne].
  intros (s & Hs & H)%res_bind_Ok. apply res_bind_Ok in H as (rest & Hrest & [= <-]).
  apply normalize_one_ok in Hs as (Hn & Hseg & Ht); [|done..].
  destruct (IH Hne (pre ++ [name]) (count_up seen name) rest) as (IH1 & IH2 & IH3);
    [by apply count_up_counts|rewrite Hall; simpl; by rewrite <-app_assoc|done|].
  split_and!; [by csimpl; rewrite Hn, IH1|by constructor|]. intros [|i] s' Hi; simpl in Hi.
  - injection Hi as <-. rewrite Hseg, Hn. unfold segment_of. rewrite Htot, Hseen. simpl. by rewrite app_nil_r.
  - rewrite (IH3 i s' Hi). simpl. by rewrite <-app_assoc.
Qed.

Lemma normalized_names_ok raws names : map_res (normalized_name name_fn) raws = Ok names → Forall (λ x, x.2 ≠ []) (zip raws names).
Proof.
  revert names. induction raws as [|raw raws IH]; intros names; [by intros [= <-]|]. simpl.
  intros (n & Hn & H)%res_bind_Ok. apply res_bind_Ok in H as (ns & Hns & [= <-]). simpl. constructor; [|by apply IH].
  unfold normalized_name in Hn. repeat case_match; try done. apply res_bind_Ok in Hn as ([] & _ & Hn).
  apply res_bind_Ok in Hn as ([] & He & [= <-]). simpl. intros Hnil. by rewrite Hnil in He.
Qed.

Lemma normalize_siblings_ok fuel uri : ∀ parent raws k, siblings fuel uri parent raws = Ok k → forest_ok parent k.
Proof.
  induction fuel as [|fuel IH]; intros parent raws k; simpl; [done|].
  intros (names & Hnames & H)%res_bind_Ok. pose proof (map_res_length _ _ _ Hnames) as Hlen.
  apply (siblings_loop_ok _ _ _ _ names _ IH (counter_counts names) (normalized_names_ok _ _ Hnames) []) in H
    as (H1 & H2 & H3); [|done|simpl; by rewrite snd_zip by lia].
  rewrite snd_zip in * by lia. split; [|done]. intros i s Hi. rewrite (H3 i s Hi), H1. simpl. by rewrite <-H1, fmap_take.
Qed.

(** ** Enough fuel *)

Lemma foldr_max_le {A} (f : A → nat) (l : list A) x : x ∈ l → (f x ≤ foldr (λ y d, Nat.max (f y) d) 0 l)%nat.
Proof. induction l as [|y l IH]; [by intros ?%elem_of_nil|]. intros [->|?]%elem_of_cons; simpl; [lia|]. specialize (IH ltac:(done)). lia. Qed.

Lemma raw_children_depth raw cms :
  raw_children raw = Ok cms → (raws_depth cms < any_depth (PMapping raw))%nat ∨ cms = [].
Proof.
  unfold raw_children. intros (items & Hi & H)%res_bind_Ok. unfold raw_get in Hi.
  destruct (dict_get raw (Some (lit "children"))) as [v|] eqn:Hv; [|injection Hi as <-; injection H as <-; by right].
  destruct v as [| | | | | | |its|]; try done. injection Hi as ->. left.
  assert (PMapping <$> cms = items) as Hcms.
  { clear -H. revert cms H. induction items as [|x items IH]; intros cms; simpl; [by intros [= <-]|].
    intros (y & Hy & H)%res_bind_Ok. apply res_bind_Ok in H as (ys & Hys & [= <-]). csimpl. rewrite (IH ys Hys).
    destruct x; try done. by injection Hy as <-. }
  unfold raws_depth. rewrite Hcms. apply dict_get_Some_elem in Hv.
  pose proof (foldr_max_le (λ kv : option pystr * pyany, any_depth kv.2) raw _ Hv) as Hle. cbn [snd] in Hle.
  change (any_depth (PMapping raw)) with (S (foldr (λ kv d, Nat.max (any_depth kv.2) d) 0%nat raw)). lia.
Qed.

Lemma not_fuel_bind {A B} (r : res normalize_error A) (f : A → res normalize_error B) :
  r ≠ Err OutOfFuel → (∀ a, r = Ok a → f a ≠ Err OutOfFuel) → r ≫= f ≠ Err OutOfFuel.
Proof. destruct r as [a|e]; simpl; [by auto|]. congruence. Qed.

Lemma raw_values_not_fuel (raw : raw_symbol) : _range raw ≠ Err OutOfFuel.
Proof.
  unfold _range, _position, range_init, ensure. repeat (case_match || cbn [mbind res_bind]); try done.
Qed.

Lemma map_res_not_fuel {A B} (f : A → res normalize_error B) l :
  (∀ x, f x ≠ Err OutOfFuel) → map_res f l ≠ Err OutOfFuel.
Proof.
  intros Hf. induction l as [|x l IH]; [done|]. simpl. apply not_fuel_bind; [done|]. intros y _.
  by apply not_fuel_bind.
Qed.

Lemma normalize_one_not_fuel rec uri parent segment raw name :
  (∀ p cms, raw_children raw = Ok cms → rec p cms ≠ Err OutOfFuel) → one rec uri parent segment raw name ≠ Err OutOfFuel.
Proof.
  intros Hrec. unfold normalize_one. apply not_fuel_bind.
  { unfold symbol_location, normalize_location. repeat case_match; try done; apply not_fuel_bind; done || apply raw_values_not_fuel. }
  intros loc _. apply not_fuel_bind; [repeat case_match; done || apply raw_values_not_fuel|].
  intros sel _. apply not_fuel_bind; [by repeat case_match|]. intros kind _. apply not_fuel_bind.
  { unfold raw_children. apply not_fuel_bind; [by repeat case_match|]. intros items _.
    apply map_res_not_fuel. by intros []. }
  intros cms Hcms. apply not_fuel_bind; [by apply Hrec|done].
Qed.

Lemma siblings_loop_not_fuel rec uri parent totals l : ∀ seen,
  (∀ raw p cms, raw ∈ l.*1 → raw_children raw = Ok cms → rec p cms ≠ Err OutOfFuel) →
  loop rec uri parent totals seen l ≠ Err OutOfFuel.
Proof.
  induction l as [|[raw name] l IH]; intros seen Hrec; [done|]. simpl. apply not_fuel_bind.
  - apply normalize_one_not_fuel. intros p cms. apply Hrec. by left.
  - intros s _. apply not_fuel_bind; [|done]. apply IH. intros raw' p cms Hin. apply Hrec. by right.
Qed.

Lemma normalize_siblings_fuel fuel uri : ∀ parent raws,
  (raws_depth raws ≤ fuel)%nat → siblings fuel uri parent raws ≠ Err OutOfFuel.
Proof.
  induction fuel as [|fuel IH]; intros parent raws Hd; [unfold raws_depth in Hd; simpl in Hd; lia|]. simpl.
  apply not_fuel_bind.
  { apply map_res_not_fuel. intros raw. unfold normalized_name, ensure. repeat (case_match || cbn [mbind res_bind]); done. }
  intros names Hnames. apply siblings_loop_not_fuel. intros raw p cms Hin Hcms.
  rewrite fst_zip in Hin by (rewrite (map_res_length _ _ _ Hnames); lia).
  apply (list_elem_of_fmap_2 PMapping) in Hin.
  pose proof (foldr_max_le any_depth _ _ Hin) as Hle. unfold raws_depth in Hd.
  change (any_depth (PSequence (PMapping <$> raws)))
    with (S (foldr (λ x d, Nat.max (any_depth x) d) 0%nat (PMapping <$> raws))) in Hd.
  destruct (raw_children_depth raw cms Hcms) as [Hlt| ->]; apply IH; [lia|].
  change (raws_depth []) with 1%nat. assert (1 ≤ any_depth (PMapping raw))%nat by (simpl; lia). lia.
Qed.
End normalize_facts.

(** ** Name paths identify symbols *)

Lemma label_snoc name k : overload_label name k = (name ++ [91%N] ++ dec (Z.of_nat k)) ++ [93%N].
Proof. unfold overload_label. by rewrite <-!app_assoc. Qed.

Lemma digits_then_bracket (l k a b : list N) :
  Forall digit l → Forall digit k → l ++ 91%N :: a = k ++ 91%N :: b → l = k ∧ a = b.
Proof.
  intros Hl. revert k. induction Hl as [|x l Hx Hl IH]; intros k' Hk'; destruct Hk' as [|y k' Hy Hk]; simpl; intros Heq; simplify_eq.
  - done.
  - unfold digit in Hy. lia.
  - unfold digit in Hx. lia.
  - destruct (IH k' Hk) as [-> ->]; done.
Qed.

Lemma dec_nat_digits k : Forall digit (dec (Z.of_nat k)).
Proof. unfold dec. destruct (Z.ltb_spec (Z.of_nat k) 0); [lia|]. apply dec_go_digits. Qed.

Lemma overload_label_inj n k m j : overload_label n k = overload_label m j → n = m ∧ k = j.
Proof.
  rewrite !label_snoc. intros Heq. apply app_inj_tail in Heq as [Heq _].
  apply (f_equal reverse) in Heq. rewrite !reverse_app in Heq. change (reverse [91%N]) with [91%N] in Heq.
  rewrite <-!app_assoc in Heq. simpl in Heq.
  apply digits_then_bracket in Heq as [Hd Hn]; [|apply Forall_reverse, dec_nat_digits..].
  apply (inj reverse) in Hd, Hn. apply dec_inj in Hd. split; [done|lia].
Qed.

Lemma occurrences_app name l k : occurrences name (l ++ k) = (occurrences name l + occurrences name k)%nat.
Proof. unfold occurrences. by rewrite filter_app, length_app. Qed.

Lemma occurrences_take_lt l i j name :
  (i < j)%nat → l !! i = Some name → (occurrences name (take i l) < occurrences name (take j l))%nat.
Proof.
  intros Hij Hi. replace (take j l) with (take (S i) l ++ take (j - S i) (drop (S i) l)).
  2:{ rewrite take_take_drop. f_equal. lia. }
  rewrite (take_S_r l i name Hi), !occurrences_app. unfold occurrences at 3. rewrite filter_cons, decide_True by done.
  simpl. lia.
Qed.

(** No name among siblings reads as another one's overload label. *)
Definition names_plain (l : list NormalizedSymbol) : Prop :=
  ∀ s t k, s ∈ l → t ∈ l → ns_name s ≠ overload_label (ns_name t) k.

Lemma segments_inj l i j s t :
  segments_ok l → names_plain l → l !! i = Some s → l !! j = Some t → ns_segment s = ns_segment t → i = j.
Proof.
  intros Hseg Hplain Hi Hj Heq. rewrite (Hseg i s Hi), (Hseg j t Hj) in Heq.
  assert (∀ a b x y, l !! a = Some x → l !! b = Some y → ns_name x = ns_name y →
    occurrences (ns_name x) (ns_name <$> take a l) = occurrences (ns_name x) (ns_name <$> take b l) → ¬ (a < b)%nat) as Hlt.
  { intros a b x y Ha Hb Hxy Hocc Hab. rewrite !fmap_take in Hocc.
    pose proof (occurrences_take_lt (ns_name <$> l) a b (ns_name x) Hab) as H. rewrite list_lookup_fmap, Ha in H.
    specialize (H eq_refl). lia. }
  assert (∀ a b x y, l !! a = Some x → l !! b = Some y → ns_name x = ns_name y → (a < b)%nat →
    (1 < occurrences (ns_name x) (ns_name <$> l))%nat) as Htwo.
  { intros a b x y Ha Hb Hxy Hab.
    pose proof (occurrences_take_lt (ns_name <$> l) a b (ns_name x) Hab) as H1. rewrite list_lookup_fmap, Ha in H1.
    specialize (H1 eq_refl).
    pose proof (occurrences_take_lt (ns_name <$> l) b (length l) (ns_name x) (lookup_lt_Some _ _ _ Hb)) as H2.
    rewrite list_lookup_fmap, Hb in H2. simpl in H2. rewrite Hxy in H2 at 1. specialize (H2 eq_refl).
    rewrite (take_ge (ns_name <$> l) (length l)) in H2 by (by rewrite length_fmap). lia. }
  repeat case_bool_decide.
  - apply overload_label_inj in Heq as [Hn Hocc].
    pose proof (Hlt i j s t Hi Hj Hn) as H1. rewrite Hn in H1, Hocc. specialize (H1 Hocc).
    pose proof (Hlt j i t s Hj Hi (eq_sym Hn) (eq_sym Hocc)). lia.
  - destruct (Hplain t s (occurrences (ns_name s) (ns_name <$> take i l))); [by eapply list_elem_of_lookup_2..|done].
  - destruct (Hplain s t (occurrences (ns_name t) (ns_name <$> take j l))); [by eapply list_elem_of_lookup_2..|done].
  - destruct (decide (i = j)) as [|Hne]; [done|]. destruct (decide (i < j)%nat).
    + pose proof (Htwo i j s t Hi Hj Heq). lia.
    + assert (j < i)%nat as Hji by lia. pose proof (Htwo j i t s Hj Hi (eq_sym Heq) Hji). lia.
Qed.

Section symbol_ind.
Context (P : NormalizedSymbol → Prop)
  (Hsym : ∀ s, Forall P (ns_children s) → P s).

Fixpoint symbol_induction (s : NormalizedSymbol) : P s :=
  Hsym s (match s return Forall P (ns_children s) with
          | Sym _ _ _ _ _ _ _ children _ =>
              (fix go (l : list NormalizedSymbol) : Forall P l :=
                match l with
                | [] => Forall_nil_2 P
                | x :: l => Forall_cons_2 P x l (symbol_induction x) (go l)
                end) children
          end).
End symbol_ind.

Definition all_symbols (roots : list NormalizedSymbol) : list NormalizedSymbol := concat (iter_depth_first <$> roots).

Lemma iter_unfold s : iter_depth_first s = s :: all_symbols (ns_children s).
Proof. by destruct s. Qed.

Lemma elem_of_all_symbols t roots : t ∈ all_symbols roots ↔ ∃ r, r ∈ roots ∧ t ∈ iter_depth_first r.
Proof.
  unfold all_symbols. rewrite list_elem_of_In, in_concat. split.
  - intros (l & Hl & Ht). apply in_map_iff in Hl as (r & <- & Hr). exists r. by rewrite !list_elem_of_In.
  - intros (r & Hr & Ht). exists (iter_depth_first r). rewrite <-!list_elem_of_In. split; [|done].
    by apply list_elem_of_fmap_2.
Qed.

(** Below a symbol every name path extends its own. *)
Lemma subtree_paths s : ∀ parent, tree_ok parent s → ∀ t, t ∈ iter_depth_first s → ∃ tail, ns_path t = ns_path s ++ tail.
Proof.
  induction s as [s IH] using symbol_induction. intros parent (_ & _ & _ & _ & _ & Hc)%tree_ok_unfold t.
  rewrite iter_unfold. intros [->|Ht]%elem_of_cons; [exists []; by rewrite app_nil_r|].
  apply elem_of_all_symbols in Ht as (c & Hin & Ht). rewrite Forall_forall in IH, Hc.
  destruct (IH c Hin _ (Hc c Hin) t Ht) as [tail ->].
  apply Hc, tree_ok_unfold in Hin as (-> & _). exists ([ns_segment c] ++ tail). by rewrite app_assoc.
Qed.

Definition all_plain (roots : list NormalizedSymbol) : Prop :=
  names_plain roots ∧ ∀ s, s ∈ all_symbols roots → names_plain (ns_children s).

Lemma forest_paths_nodup parent l :
  forest_ok parent l → names_plain l → Forall (λ s, NoDup (ns_path <$> iter_depth_first s)) l →
  NoDup (ns_path <$> all_symbols l).
Proof.
  intros [Hseg Hok] Hplain Hnd.
  assert (∀ n, NoDup (ns_path <$> all_symbols (drop n l))) as Hgo; [|by apply (Hgo 0%nat)].
  intros n. remember (length l - n)%nat as m eqn:Hm. revert n Hm. induction m as [|m IH]; intros n Hm.
  { rewrite drop_ge by lia. constructor. }
  destruct (lookup_lt_is_Some_2 l n) as [s Hs]; [lia|]. rewrite (drop_S l s n Hs).
  unfold all_symbols. csimpl. rewrite fmap_app. apply NoDup_app. split_and!.
  - rewrite Forall_forall in Hnd. apply Hnd. by eapply list_elem_of_lookup_2.
  - intros p Hp Hp'. apply list_elem_of_fmap in Hp as (t & -> & Ht). apply list_elem_of_fmap in Hp' as (t' & Heq & Ht').
    apply (elem_of_all_symbols t' (drop (S n) l)) in Ht' as (r & Hr & Ht').
    apply list_elem_of_lookup in Hr as [i Hi]. rewrite lookup_drop in Hi. rewrite Forall_forall in Hok.
    pose proof (Hok s ltac:(by eapply list_elem_of_lookup_2)) as Hoks.
    pose proof (Hok r ltac:(by eapply list_elem_of_lookup_2)) as Hokr.
    destruct (subtree_paths s parent Hoks t Ht) as [tl Htl]. destruct (subtree_paths r parent Hokr t' Ht') as [tl' Htl'].
    apply tree_ok_unfold in Hoks as (Hps & _). apply tree_ok_unfold in Hokr as (Hpr & _).
    rewrite Htl, Htl', Hps, Hpr, <-!app_assoc in Heq. apply app_inv_head in Heq. injection Heq as Heq _.
    pose proof (segments_inj l _ _ s r Hseg Hplain Hs Hi Heq). lia.
  - apply IH. lia.
Qed.

Lemma tree_paths_nodup s : ∀ parent,
  tree_ok parent s → (∀ t, t ∈ iter_depth_first s → names_plain (ns_children t)) → NoDup (ns_path <$> iter_depth_first s).
Proof.
  induction s as [s IH] using symbol_induction. intros parent Hok Hplain.
  apply tree_ok_unfold in Hok as (_ & _ & _ & _ & Hf). rewrite iter_unfold in *. csimpl. constructor.
  - intros (t & Heq & Ht)%list_elem_of_fmap. apply elem_of_all_symbols in Ht as (c & Hc & Ht).
    destruct Hf as [_ Hf]. rewrite Forall_forall in Hf. destruct (subtree_paths c _ (Hf c Hc) t Ht) as [tl Htl].
    apply Hf, tree_ok_unfold in Hc as (Hpc & _). rewrite Htl, Hpc, <-app_assoc in Heq.
    apply (f_equal length) in Heq. rewrite length_app in Heq. simpl in Heq. lia.
  - apply (forest_paths_nodup (ns_path s)); [done|apply Hplain; by left|].
    apply Forall_forall. intros c Hc. rewrite Forall_forall in IH. apply (IH c Hc (ns_path s)).
    + destruct Hf as [_ Hf]. rewrite Forall_forall in Hf. by apply Hf.
    + intros t Ht. apply Hplain. right. apply elem_of_all_symbols. by exists c.
Qed.

(** ** Reparenting and containment *)

Lemma occurrences_segments_ext l k :
  ns_name <$> l = ns_name <$> k → ns_segment <$> l = ns_segment <$> k → segments_ok l → segments_ok k.
Proof.
  intros Hn Hs Hok i t Hi. pose proof (f_equal (.!! i) Hn) as Hni. pose proof (f_equal (.!! i) Hs) as Hsi.
  rewrite !list_lookup_fmap, Hi in Hni, Hsi. destruct (l !! i) as [s|] eqn:Hl; [|done]. simpl in Hni, Hsi.
  injection Hni as Hni. injection Hsi as Hsi. specialize (Hok i s Hl).
  rewrite <-Hsi, <-Hni, Hok, Hn, !fmap_take, Hn. done.
Qed.

(** Moving a symbol under another parent keeps its tree well-formed there. *)
Lemma reparent_ok s : ∀ parent parent', tree_ok parent s → tree_ok parent' (reparent s parent').
Proof.
  induction s as [s IH] using symbol_induction. intros parent parent' Hok.
  apply tree_ok_unfold in Hok as (_ & Hn & Hl & Hsel & Hseg & Hc). apply tree_ok_unfold.
  destruct s as [name seg path kind loc sel det children inc]; simpl in *. split_and!; [done..|]. split.
  - apply (occurrences_segments_ext children); [..|done]; clear; induction children as [|[] cs IHc]; csimpl; congruence.
  - apply Forall_fmap, Forall_forall. intros c Hin. rewrite Forall_forall in IH, Hc.
    exact (IH c Hin _ _ (Hc c Hin)).
Qed.

Lemma py_min_spec {A K} `{PyOrdLaws K} (key : A → K) (l : list A) : ∀ best,
  py_min key best l ∈ best :: l ∧ ∀ x, x ∈ best :: l → py_leb (key (py_min key best l)) (key x) = true.
Proof.
  induction l as [|y l IH]; intros best; simpl.
  { split; [by left|]. intros x [->|?%elem_of_nil]%elem_of_cons; [apply py_leb_refl|done]. }
  destruct (py_ltb (key y) (key best)) eqn:Hlt.
  - destruct (IH y) as [Hin Hmin]. split; [by right|]. intros x [->|Hx]%elem_of_cons; [|by apply Hmin].
    eapply py_leb_trans; [apply Hmin; by left|]. by apply py_ltb_leb.
  - destruct (IH best) as [Hin Hmin]. split.
    + apply elem_of_cons in Hin as [->|Hin]; [by left|]. by right; right.
    + intros x [->|[->|Hx]%elem_of_cons]%elem_of_cons; [apply Hmin; by left| |apply Hmin; by right].
      eapply py_leb_trans; [apply Hmin; by left|]. unfold py_ltb in Hlt. by apply negb_false_iff in Hlt.
Qed.

(** The symbol shown for a location contains its start and is the narrowest
    that does; there is none only when nothing contains it. *)
Lemma containing_symbol_narrowest symbols location :
  let contains t := loc_uri (ns_location t) = loc_uri location ∧
                    range_contains (loc_range (ns_location t)) (rg_start (loc_range location)) = true in
  match containing_symbol symbols location with
  | Some s => s ∈ all_symbols symbols ∧ contains s ∧
      ∀ t, t ∈ all_symbols symbols → contains t →
        py_leb (_range_size_key (loc_range (ns_location s))) (_range_size_key (loc_range (ns_location t))) = true
  | None => ∀ t, t ∈ all_symbols symbols → ¬ contains t
  end.
Proof.
  intros contains. unfold containing_symbol. fold (all_symbols symbols).
  destruct (filter _ (all_symbols symbols)) as [|c cs] eqn:Hf.
  - intros t Ht Hc. assert (t ∈ []) as Hnil%elem_of_nil; [|done]. rewrite <-Hf. by apply list_elem_of_filter.
  - destruct (py_min_spec (λ s, _range_size_key (loc_range (ns_location s))) cs c) as [Hin Hmin].
    rewrite <-Hf in Hin. apply list_elem_of_filter in Hin as [Hc Hin]. split_and!; [done..|].
    intros t Ht Htc. apply Hmin. rewrite <-Hf. by apply list_elem_of_filter.
Qed.

(** The fuel [normalize_document_symbols] takes is enough. *)
Lemma normalize_document_symbols_fuel urlparse unquote py_str name_fn bc raws uri recover :
  normalize_document_symbols urlparse unquote py_str name_fn bc raws uri recover ≠ Err OutOfFuel.
Proof.
  unfold normalize_document_symbols. destruct raws as [[|r raws]|]; try done.
  apply not_fuel_bind; [by apply normalize_siblings_fuel|done].
Qed.

Lemma normalize_forest urlparse unquote py_str name_fn bc raws uri roots :
  normalize_document_symbols urlparse unquote py_str name_fn bc raws uri None = Ok roots → forest_ok [] roots.
Proof.
  unfold normalize_document_symbols. intros Hn. destruct raws as [[|r raws]|].
  1,3: injection Hn as <-; split; [by intros i s ?|constructor].
  apply res_bind_Ok in Hn as (l & Hl & [= <-]). by eapply normalize_siblings_ok.
Qed.

Lemma forest_all_nodup parent roots :
  forest_ok parent roots → all_plain roots → NoDup (ns_path <$> all_symbols roots).
Proof.
  intros Hf [Hp Hall]. apply (forest_paths_nodup parent); [done|done|].
  apply Forall_forall. intros s Hs. apply (tree_paths_nodup s parent).
  - destruct Hf as [_ Hf]. rewrite Forall_forall in Hf. by apply Hf.
  - intros t Ht. apply Hall, elem_of_all_symbols. by exists s.
Qed.

Lemma forest_path_nonempty parent roots s : forest_ok parent roots → s ∈ all_symbols roots → ns_path s ≠ [].
Proof.
  intros [_ Hf] (r & Hr & Hs)%elem_of_all_symbols. rewrite Forall_forall in Hf.
  destruct (subtree_paths r parent (Hf r Hr) s Hs) as [tail ->].
  apply Hf, tree_ok_unfold in Hr as (-> & _). by destruct parent.
Qed.

(** a normalized document-symbol tree is well-formed: every name path is the parent's path and the symbol's
    segment, overloads are numbered in order of appearance among their siblings, ranges are non-negative and ordered,
    and no two symbols of the document have the same name path unless a name reads as another one's overload label. *)
Theorem normalized_tree_well_formed urlparse unquote py_str name_fn bc raws uri roots :
  normalize_document_symbols urlparse unquote py_str name_fn bc raws uri None = Ok roots →
  forest_ok [] roots ∧ (all_plain roots → NoDup (ns_path <$> all_symbols roots)).
Proof. intros Hf%normalize_forest. split; [done|]. by apply (forest_all_nodup []). Qed.

Module NormalizeExamples.

Definition pos (l c : Z) : pyany := PMapping [pstr "line" (PInt l); pstr "character" (PInt c)].
Definition rng (l l' : Z) : pyany := PMapping [pstr "start" (pos l 0); pstr "end" (pos l' 0)].
Definition raw (name : string) (l l' : Z) (children : list raw_symbol) : raw_symbol :=
  [pstr "name" (PStr (lit name)); pstr "kind" (PInt 12); pstr "range" (rng l l');
   pstr "children" (PSequence (PMapping <$> children))].

Definition parse_uri (uri : pystr) : parsed_uri := {| pu_scheme := lit "file"; pu_netloc := []; pu_path := drop 7 uri |}.

(** [class C: def f ...; def f ...] and a function [g]. *)
Definition class_document : option (list raw_symbol) :=
  Some [raw "C" 0 9 [raw "f" 1 3 []; raw "f" 4 6 []]; raw "g" 10 12 []].

Definition roots : list NormalizedSymbol :=
  match normalize_document_symbols parse_uri id (λ _, []) id None class_document (lit "file:///w/a.py") None with
  | Ok l => l
  | Err _ => []
  end.

Lemma document_normalizes :
  normalize_document_symbols parse_uri id (λ _, []) id None class_document (lit "file:///w/a.py") None = Ok roots.
Proof. vm_compute. reflexivity. Qed.

Lemma normalized_tree_well_formed_witness :
  forest_ok [] roots ∧
  ns_path <$> all_symbols roots = [[lit "C"]; [lit "C"; lit "f[0]"]; [lit "C"; lit "f[1]"]; [lit "g"]].
Proof.
  split; [|vm_compute; reflexivity].
  exact (proj1 (normalized_tree_well_formed parse_uri id (λ _, []) id None class_document (lit "file:///w/a.py") roots document_normalizes)).
Defined.

(** The exception is real: a sibling called [f[0]] shares the path of an overload. *)
Example label_name_collides :
  match normalize_document_symbols parse_uri id (λ _, []) id None
          (Some [raw "f" 0 1 []; raw "f" 2 3 []; raw "f[0]" 4 5 []]) (lit "file:///w/a.py") None with
  | Ok l => ns_path <$> all_symbols l
  | Err _ => []
  end = [[lit "f[0]"]; [lit "f[1]"]; [lit "f[0]"]].
Proof. vm_compute. reflexivity. Qed.

End NormalizeExamples.
