(* ===== verification/Navigation.v ===== *)
(** * Document navigation

    Model of [src/serena_light/tools/navigation.py]: the one-document
    navigation value, name-path patterns, the bounded overview, exact and
    directory-scoped symbol lookup, and the service that loads documents
    through a provider.

    Rendered dictionaries are [json] values; the envelope copies them. SHA-256,
    the provider and the parameters of normalization are arguments. *)

From S2P Require Import Prelude Paths Json Envelopes Positions Normalize.

(** [json.dumps(..., sort_keys=True)] *)
Fixpoint sort_keys (v : json) : json :=
  match v with
  | JList l => JList (sort_keys <$> l)
  | JObj kvs => JObj (py_sorted fst ((λ kv, (kv.1, sort_keys kv.2)) <$> kvs))
  | v => v
  end.

Definition _canonical_json (v : json) : pystr := json_dumps (sort_keys v).
Definition canonical_size (v : json) : Z := Z.of_nat (length (_canonical_json v)).

(** A rendered dictionary as the envelope receives it. *)
Fixpoint any_of_json (v : json) : pyany :=
  match v with
  | JNull => PNone
  | JBool b => PBool b
  | JInt z => PInt z
  | JFloat r => PFloat r true
  | JStr s => PStr s
  | JList l => PSequence (any_of_json <$> l)
  | JObj kvs => PMapping ((λ kv, (Some kv.1, any_of_json kv.2)) <$> kvs)
  end.

(** Exceptions that leave a navigation call. *)
Inductive nav_error :=
| NavPosition (e : position_error)
| NavEnvelope (e : envelope_error)
| NavInput
| NavProvider.   (** anything else a provider raises *)

Abbreviation ToolEnvelope := (SuccessEnvelope + ErrorEnvelope)%type.

Definition lift_position {A} (r : res position_error A) : res nav_error A :=
  match r with Ok a => Ok a | Err e => Err (NavPosition e) end.
Definition lift_error (r : res envelope_error ErrorEnvelope) : res nav_error ToolEnvelope :=
  match r with Ok e => Ok (inr e) | Err e => Err (NavEnvelope e) end.
Definition lift_success (r : res envelope_error SuccessEnvelope) : res nav_error ToolEnvelope :=
  match r with Ok s => Ok (inl s) | Err e => Err (NavEnvelope e) end.

(** ** Documents *)

Record DocumentSymbolInput := {
  di_relative_path : pystr;
  di_uri : pystr;
  di_snapshot : FileSnapshot;
  di_raw_symbols : option (list raw_symbol);
  di_position_encoding : PositionEncoding;
  di_workspace : option WorkspaceMetadata;
  di_adapter : option AdapterMetadata;
  di_generations : option GenerationMetadata;
  di_body_completeness : option (raw_symbol → option pystr);
}.

Definition document_input_init (d : DocumentSymbolInput) : res nav_error DocumentSymbolInput :=
  _ ← ensure (nonempty (di_relative_path d) && negb (bool_decide (head (di_relative_path d) = Some cp_slash))) NavInput;
  _ ← ensure (nonempty (di_uri d)) NavInput;
  Ok d.

Record DocumentNavigation := {
  dn_relative_path : pystr;
  dn_uri : pystr;
  dn_mapper : PositionMapper;
  dn_symbols : list NormalizedSymbol;
  dn_workspace : option WorkspaceMetadata;
  dn_adapter : option AdapterMetadata;
  dn_generations : option GenerationMetadata;
}.

Definition dn_snapshot (d : DocumentNavigation) : FileSnapshot := snapshot (dn_mapper d).

(** ** Name paths *)

Inductive name_path_arg :=
| NameText (s : pystr)
| NameParts (parts : list (option pystr))   (** [None]: a part that is not a string *)
| NameOther.

Record _NamePathPattern := { np_components : list pystr; np_absolute : bool }.

Definition expression (p : _NamePathPattern) : pystr :=
  (if np_absolute p then [cp_slash] else []) ++ join_slash (np_components p).

Fixpoint strip_left_slash (s : pystr) : pystr :=
  match s with
  | c :: s' => if bool_decide (c = cp_slash) then strip_left_slash s' else s
  | [] => []
  end.
Definition strip_right_slash (s : pystr) : pystr := reverse (strip_left_slash (reverse s)).

Definition _parse_name_path (value : name_path_arg) : option _NamePathPattern :=
  let check absolute (parts : list (option pystr)) :=
    match mapM (λ part, match part with Some s => if nonempty s then Some s else None | None => None end) parts with
    | Some [] | None => None
    | Some comps => Some {| np_components := comps; np_absolute := absolute |}
    end in
  match value with
  | NameText s => check (bool_decide (head s = Some cp_slash)) (Some <$> split_slash (strip_right_slash (strip_left_slash s)))
  | NameParts parts => check false parts
  | NameOther => None
  end.

Fixpoint components_match (substring : bool) (expected actual : list pystr) : bool :=
  match expected, actual with
  | [], [] => true
  | [e], [a] => if substring then contains e a else bool_decide (e = a)
  | e :: es, a :: rest => bool_decide (e = a) && components_match substring es rest
  | _, _ => false
  end.

Definition _matches_name_path (s : NormalizedSymbol) (p : _NamePathPattern) (substring_matching : bool) : bool :=
  let components := ns_path s in
  if bool_decide (length components < length (np_components p))%nat then false
  else if np_absolute p && bool_decide (length components ≠ length (np_components p)) then false
  else components_match substring_matching (np_components p)
         (drop (length components - length (np_components p)) components).

Definition _symbol_order_key (s : NormalizedSymbol) : Z * Z * list pystr :=
  let start := rg_start (loc_range (ns_location s)) in (pos_line start, pos_character start, ns_path s).

Definition _name_path_text (s : NormalizedSymbol) : pystr := join_slash (ns_path s).

Definition _lsp_position (p : Position) : LspPosition := {| line := pos_line p; character := pos_character p |}.

(** ** Paths *)

Definition _valid_relative_path (value : pystr) : bool :=
  nonempty value && negb (bool_decide (head value = Some cp_slash)) && bool_decide (92%N ∉ value) &&
  forallb (λ part, bool_decide (part ∉ [[]; dot; dotdot])) (split_slash value).

Definition _valid_relative_scope (value : pystr) : bool :=
  bool_decide (value = dot) || _valid_relative_path (strip_right_slash value).

(** ** Rendering *)

Definition position_json (p : public_position) : json :=
  JObj [(lit "line", JInt (pp_line p)); (lit "column", JInt (pp_column p));
        (lit "text_offset", JInt (pp_text_offset p)); (lit "byte_offset", JInt (pp_byte_offset p))].

Definition _source_range (m : PositionMapper) (r : Range) : res position_error json :=
  ab ← range m (_lsp_position (rg_start r)) (_lsp_position (rg_end r));
  Ok (JObj [(lit "start", position_json ab.1); (lit "end", position_json ab.2)]).

Definition source_range (m : PositionMapper) (r : Range) : res position_error json := _source_range m r.

Definition source_body (m : PositionMapper) (r : Range) : res position_error pystr :=
  renderer_text m (_lsp_position (rg_start r)) (_lsp_position (rg_end r)).

Definition _symbol_data (d : DocumentNavigation) (s : NormalizedSymbol) (include_body include_info : bool)
    : res position_error (list (pystr * json)) :=
  r ← _source_range (dn_mapper d) (loc_range (ns_location s));
  info ← (if include_info then
            sel ← _source_range (dn_mapper d) (ns_selection s);
            Ok [(lit "info", JObj [(lit "detail", default JNull (JStr <$> ns_detail s)); (lit "selection_range", sel)])]
          else Ok []);
  body ← (if include_body then
            b ← source_body (dn_mapper d) (loc_range (ns_location s));
            Ok [(lit "body", JStr b); (lit "has_children", JBool (nonempty (ns_children s)))]
          else Ok []);
  Ok ([(lit "name", JStr (ns_name s)); (lit "name_path", JStr (_name_path_text s)); (lit "kind", JInt (ns_kind s));
       (lit "range", r)] ++ info ++ body).

(** [render] of [_overview_roots]: the rendered symbol and the symbols it
    leaves out because of the depth. *)
Fixpoint render_overview (d : DocumentNavigation) (max_depth depth : Z) (s : NormalizedSymbol)
    : res position_error (json * nat) :=
  data ← _symbol_data d s false true;
  if nonempty (ns_children s) && bool_decide (max_depth ≤ depth) then
    Ok (JObj (data ++ [(lit "children", JList []); (lit "children_truncated", JBool true)]),
        length (concat (iter_depth_first <$> ns_children s)))
  else
    children ← map_res (render_overview d max_depth (depth + 1)) (ns_children s);
    Ok (JObj (data ++ [(lit "children", JList (children.*1)); (lit "children_truncated", JBool false)]),
        sum_list (children.*2)).

Definition _overview_roots (d : DocumentNavigation) (max_depth : Z) : res position_error (list json * nat) :=
  roots ← map_res (render_overview d max_depth 0) (py_sorted _symbol_order_key (dn_symbols d));
  Ok (roots.*1, sum_list (roots.*2)).

(** [for item in items: if too large: break; kept.append(item)] *)
Fixpoint keep_while (too_large : list json → bool) (kept items : list json) : list json :=
  match items with
  | [] => kept
  | x :: items => if too_large (kept ++ [x]) then kept else keep_while too_large (kept ++ [x]) items
  end.

Definition _bounded_candidates (candidates : list json) (max_answer_chars : Z) : list json * nat :=
  let kept := keep_while (λ l, bool_decide (max_answer_chars < canonical_size (JObj [(lit "candidates", JList l)])))
                [] candidates in
  (kept, (length candidates - length kept)%nat).

(** [_bound_overview] on the fields of [data] other than its symbols. *)
Definition _bound_overview (fields : list (pystr * json)) (roots : list json) (max_answer_chars : Z) : json * nat :=
  let kept := keep_while (λ l, bool_decide (max_answer_chars < canonical_size (JObj (fields ++ [(lit "symbols", JList l)]))))
                [] roots in
  (JObj (fields ++ [(lit "symbols", JList kept)]), (length roots - length kept)%nat).

Section navigation.
Context (sha256_hex : list N → pystr).
Context (urlparse : pystr → parsed_uri) (unquote : pystr → pystr) (py_str : pyany → pystr).

Definition from_input (v : DocumentSymbolInput) : res normalize_error DocumentNavigation :=
  symbols ← normalize_document_symbols urlparse unquote py_str id (di_body_completeness v)
              (di_raw_symbols v) (di_uri v) None;
  Ok {| dn_relative_path := di_relative_path v; dn_uri := di_uri v;
        dn_mapper := {| snapshot := di_snapshot v; encoding := di_position_encoding v |};
        dn_symbols := symbols; dn_workspace := di_workspace v; dn_adapter := di_adapter v;
        dn_generations := di_generations v |}.

Definition dn_sha256 (d : DocumentNavigation) : pystr := sha256_hex (raw_bytes (dn_snapshot d)).

(** [error(code, details=..., workspace=..., adapter=..., generations=...)] of a document *)
Definition document_error (d : DocumentNavigation) (code : ErrorCode) (details : list (option pystr * pyany))
    : res nav_error ToolEnvelope :=
  lift_error (error code None (Some (PMapping details)) (dn_workspace d) (dn_adapter d) (dn_generations d)).

Definition _invalid_bounds (d : DocumentNavigation) : res nav_error ToolEnvelope :=
  document_error d INVALID_INPUT [pstr "field" (PStr (lit "max_depth, max_answer_chars, or name_path"))].

Definition _incomplete_body_error (d : DocumentNavigation) (s : NormalizedSymbol) : res nav_error ToolEnvelope :=
  document_error d UNSUPPORTED
    [pstr "operation" (PStr (lit "find_symbol")); pstr "reason" (PStr (lit "incomplete_assignment_range"));
     pstr "recovery_reason" (match ns_incomplete s with Some r => PStr r | None => PNone end);
     pstr "relative_path" (PStr (dn_relative_path d)); pstr "name_path" (PStr (_name_path_text s))].

Definition truncation (omitted : nat) : res nav_error TruncationMetadata :=
  match truncation_metadata_init (bool_decide (0 < omitted)%nat) (Z.of_nat omitted) with
  | Ok t => Ok t
  | Err e => Err (NavEnvelope e)
  end.

Definition get_symbols_overview (d : DocumentNavigation) (max_depth max_answer_chars : Z) : res nav_error ToolEnvelope :=
  if bool_decide (max_depth < 0) || bool_decide (max_answer_chars ≤ 0) then _invalid_bounds d
  else
    ro ← lift_position (_overview_roots d max_depth);
    let '(roots, depth_omitted) := ro in
    let fields := [(lit "relative_path", JStr (dn_relative_path d)); (lit "sha256", JStr (dn_sha256 d));
                   (lit "max_depth", JInt max_depth); (lit "depth_truncated", JBool (bool_decide (0 < depth_omitted)%nat));
                   (lit "depth_omitted_count", JInt (Z.of_nat depth_omitted))] in
    let '(bounded, omitted) := _bound_overview fields roots max_answer_chars in
    t ← truncation omitted;
    lift_success (success (any_of_json bounded) (dn_workspace d) (dn_adapter d) (dn_generations d) (Some t)).

(** The matching symbols of a document, in source order. *)
Definition matching_symbols (d : DocumentNavigation) (p : _NamePathPattern) (substring_matching : bool)
    : list NormalizedSymbol :=
  py_sorted _symbol_order_key
    (filter (λ s, _matches_name_path s p substring_matching = true) (concat (iter_depth_first <$> dn_symbols d))).

Definition find_symbol (d : DocumentNavigation) (name_path : name_path_arg)
    (substring_matching include_body include_info : bool) (max_answer_chars : Z) (error_max_answer_chars : option Z)
    : res nav_error ToolEnvelope :=
  match _parse_name_path name_path with
  | None => _invalid_bounds d
  | Some pattern =>
      if bool_decide (max_answer_chars ≤ 0) ||
         match error_max_answer_chars with Some n => bool_decide (n ≤ 0) | None => false end then _invalid_bounds d
      else
        let query_text := expression pattern in
        match matching_symbols d pattern substring_matching with
        | [] => document_error d SYMBOL_NOT_FOUND
                  [pstr "relative_path" (PStr (dn_relative_path d)); pstr "name_path" (PStr query_text);
                   pstr "next_action" (PStr (lit "get_symbols_overview"))]
        | [selected] =>
            if include_body && match ns_incomplete selected with Some _ => true | None => false end
            then _incomplete_body_error d selected
            else
              data ← lift_position (_symbol_data d selected include_body include_info);
              if bool_decide (max_answer_chars < canonical_size (JObj data))
              then document_error d INVALID_INPUT
                     [pstr "field" (PStr (lit "max_answer_chars")); pstr "minimum_required" (PInt (canonical_size (JObj data)))]
              else lift_success (success
                     (any_of_json (JObj [(lit "relative_path", JStr (dn_relative_path d)); (lit "sha256", JStr (dn_sha256 d));
                                         (lit "symbol", JObj data)]))
                     (dn_workspace d) (dn_adapter d) (dn_generations d) None)
        | matches =>
            datas ← lift_position (map_res (λ s, data ← _symbol_data d s false false; Ok (JObj data)) matches);
            let '(candidates, omitted) := _bounded_candidates datas (default max_answer_chars error_max_answer_chars) in
            document_error d AMBIGUOUS_SYMBOL
              [pstr "relative_path" (PStr (dn_relative_path d)); pstr "name_path" (PStr query_text);
               pstr "candidates" (any_of_json (JList candidates)); pstr "truncated" (PBool (bool_decide (0 < omitted)%nat));
               pstr "omitted_count" (PInt (Z.of_nat omitted))]
        end
  end.

(** ** The service *)

Inductive load_failure :=
| LoadWorkspace (e : WorkspaceErrorData)
| LoadRejected   (** [PositionError], [ValueError], [TypeError] *)
| LoadOther.

Context (load_document_symbols : pystr → res load_failure DocumentSymbolInput).

Definition _load (relative_path : pystr) : res nav_error (DocumentNavigation + ErrorEnvelope) :=
  let fail (r : res envelope_error ErrorEnvelope) : res nav_error (DocumentNavigation + ErrorEnvelope) :=
    match r with Ok e => Ok (inr e) | Err e => Err (NavEnvelope e) end in
  if negb (_valid_relative_path relative_path)
  then fail (error INVALID_INPUT None (Some (PMapping [pstr "field" (PStr (lit "relative_path"))])) None None None)
  else
    let rejected := fail (error INVALID_INPUT None (Some (PMapping [pstr "path" (PStr relative_path)])) None None None) in
    match load_document_symbols relative_path with
    | Ok loaded =>
        if bool_decide (di_relative_path loaded ≠ relative_path)
        then match error INVALID_PATH None (Some (PMapping [pstr "path" (PStr relative_path)])) (di_workspace loaded) None None with
             | Ok e => Ok (inr e)
             | Err _ => rejected   (** raised inside the [try] *)
             end
        else match from_input loaded with Ok d => Ok (inl d) | Err _ => rejected end
    | Err (LoadWorkspace e) => fail (from_workspace_error e)
    | Err LoadRejected => rejected
    | Err LoadOther => Err NavProvider
    end.

Definition service_get_symbols_overview (relative_path : pystr) (max_depth max_answer_chars : Z) : res nav_error ToolEnvelope :=
  loaded ← _load relative_path;
  match loaded with inr e => Ok (inr e) | inl d => get_symbols_overview d max_depth max_answer_chars end.

Definition service_find_symbol (relative_path : pystr) (name_path : name_path_arg)
    (substring_matching include_body include_info : bool) (max_answer_chars : Z) (error_max_answer_chars : option Z)
    : res nav_error ToolEnvelope :=
  loaded ← _load relative_path;
  match loaded with
  | inr e => Ok (inr e)
  | inl d => find_symbol d name_path substring_matching include_body include_info max_answer_chars error_max_answer_chars
  end.

(** [for relative_path in sorted(set(relative_paths))]: the documents, or the first failure. *)
Fixpoint load_all (paths : list pystr) : res nav_error (list DocumentNavigation + ErrorEnvelope) :=
  match paths with
  | [] => Ok (inl [])
  | p :: paths =>
      loaded ← _load p;
      match loaded with
      | inr e => Ok (inr e)
      | inl d => rest ← load_all paths; Ok (match rest with inl ds => inl (d :: ds) | inr e => inr e end)
      end
  end.

Definition match_order_key (m : DocumentNavigation * NormalizedSymbol) : pystr * (Z * Z * list pystr) :=
  (dn_relative_path m.1, _symbol_order_key m.2).

(** The rendering loop, which stops before the first match that does not fit. *)
Fixpoint render_matches (base : list (pystr * json)) (include_body include_info : bool) (max_answer_chars : Z)
    (kept : list json) (matches : list (DocumentNavigation * NormalizedSymbol)) : res position_error (list json) :=
  match matches with
  | [] => Ok kept
  | (d, s) :: matches =>
      data ← _symbol_data d s include_body include_info;
      let rendered := JObj [(lit "relative_path", JStr (dn_relative_path d)); (lit "sha256", JStr (dn_sha256 d));
                            (lit "symbol", JObj data)] in
      if bool_decide (max_answer_chars < canonical_size (JObj (base ++ [(lit "symbols", JList (kept ++ [rendered]))])))
      then Ok kept
      else render_matches base include_body include_info max_answer_chars (kept ++ [rendered]) matches
  end.

Definition find_symbol_in_documents (relative_paths : list pystr) (name_path : name_path_arg) (relative_scope : pystr)
    (substring_matching include_body include_info : bool) (max_answer_chars : Z) : res nav_error ToolEnvelope :=
  match _parse_name_path name_path with
  | Some pattern =>
      if bool_decide (max_answer_chars ≤ 0) || negb (_valid_relative_scope relative_scope)
      then lift_error (error INVALID_INPUT None
             (Some (PMapping [pstr "field" (PStr (lit "relative_path, name_path, or max_answer_chars"))])) None None None)
      else
        loaded ← load_all (py_sorted id (remove_dups relative_paths));
        match loaded with
        | inr e => Ok (inr e)
        | inl documents =>
            let matches := py_sorted match_order_key
              (concat ((λ d, (λ s, (d, s)) <$> filter (λ s, _matches_name_path s pattern substring_matching = true)
                                                 (concat (iter_depth_first <$> dn_symbols d))) <$> documents)) in
            let workspace := head documents ≫= dn_workspace in
            match matches with
            | [] => lift_error (error SYMBOL_NOT_FOUND None
                      (Some (PMapping [pstr "relative_path" (PStr relative_scope); pstr "name_path" (PStr (expression pattern));
                                       pstr "scope" (PStr (lit "directory"))])) workspace None None)
            | _ =>
                match (if include_body then head (filter (λ m, ns_incomplete m.2 ≠ None) matches) else None) with
                | Some (d, s) => _incomplete_body_error d s
                | None =>
                    let base := [(lit "relative_path", JStr relative_scope); (lit "scope", JStr (lit "directory"));
                                 (lit "name_path", JStr (expression pattern))] in
                    let empty := JObj (base ++ [(lit "symbols", JList [])]) in
                    if bool_decide (max_answer_chars < canonical_size empty)
                    then lift_error (error INVALID_INPUT None
                           (Some (PMapping [pstr "field" (PStr (lit "max_answer_chars"));
                                            pstr "minimum_required" (PInt (canonical_size empty))])) workspace None None)
                    else
                      kept ← lift_position (render_matches base include_body include_info max_answer_chars [] matches);
                      t ← truncation (length matches - length kept);
                      lift_success (success (any_of_json (JObj (base ++ [(lit "symbols", JList kept)]))) workspace None None (Some t))
                end
            end
        end
  | None => lift_error (error INVALID_INPUT None
             (Some (PMapping [pstr "field" (PStr (lit "relative_path, name_path, or max_answer_chars"))])) None None None)
  end.
End navigation.

(** ** Name-path patterns *)

Lemma strip_left_id s : head s ≠ Some cp_slash → strip_left_slash s = s.
Proof. destruct s as [|c s]; [done|]. simpl. intros Hc. rewrite bool_decide_eq_false_2; [done|]. congruence. Qed.

Lemma join_head comps comp :
  head comps = Some comp → comp ≠ [] → head (join_slash comps) = head comp.
Proof. destruct comps as [|x [|y l]]; simpl; intros [= ->] Hc; [done|]. by destruct comp. Qed.

Lemma join_last comps comp :
  last comps = Some comp → comp ≠ [] → last (join_slash comps) = last comp.
Proof.
  induction comps as [|x comps IH]; [done|]. intros Hl Hc. destruct comps as [|y l]; [by injection Hl as ->|].
  change (join_slash (x :: y :: l)) with (x ++ cp_slash :: join_slash (y :: l)).
  rewrite last_app_cons, last_cons, IH by done. by destruct (last comp) eqn:E; [|apply last_None in E].
Qed.

Definition plain_component (c : pystr) : Prop := c ≠ [] ∧ cp_slash ∉ c.

Lemma plain_join_head comps : comps ≠ [] → Forall plain_component comps → head (join_slash comps) ≠ Some cp_slash.
Proof.
  intros Hne Hp. destruct comps as [|c comps]; [done|]. apply Forall_cons in Hp as [[Hc Hs] _].
  rewrite (join_head _ c) by done. destruct c as [|x c]; [done|]. simpl. set_solver.
Qed.

Lemma plain_join_last comps : comps ≠ [] → Forall plain_component comps → last (join_slash comps) ≠ Some cp_slash.
Proof.
  intros Hne Hp. destruct (last comps) as [c|] eqn:Hl; [|by apply last_None in Hl].
  rewrite Forall_forall in Hp. apply last_Some_elem_of in Hl as Hin. destruct (Hp c Hin) as [Hc Hs].
  rewrite (join_last _ c) by done. intros Hlast. apply last_Some_elem_of in Hlast. done.
Qed.

Lemma check_components comps :
  Forall plain_component comps →
  mapM (λ part : option pystr, match part with Some s => if nonempty s then Some s else None | None => None end)
    (Some <$> comps) = Some comps.
Proof.
  intros Hp. apply mapM_Some_2. induction Hp as [|c comps [Hc _] _ IH]; csimpl; constructor; [|done]. by destruct c.
Qed.

(** Printing a pattern and parsing it back. *)
Lemma parse_expression p :
  np_components p ≠ [] → Forall plain_component (np_components p) → _parse_name_path (NameText (expression p)) = Some p.
Proof.
  destruct p as [comps abs]; simpl. intros Hne Hp. pose proof (plain_join_head comps Hne Hp) as Hhead.
  pose proof (plain_join_last comps Hne Hp) as Hlast. unfold expression, _parse_name_path; simpl.
  assert (strip_left_slash ((if abs then [cp_slash] else []) ++ join_slash comps) = join_slash comps) as ->.
  { destruct abs; simpl; by rewrite strip_left_id. }
  assert (strip_right_slash (join_slash comps) = join_slash comps) as ->.
  { unfold strip_right_slash. rewrite strip_left_id, reverse_involutive; [done|].
    rewrite head_reverse. done. }
  rewrite split_join, check_components; [|done|done|].
  2:{ eapply Forall_impl; [exact Hp|]. by intros c [_ ?]. }
  destruct comps as [|c comps]; [done|]. f_equal. f_equal.
  destruct abs; simpl; [done|]. apply bool_decide_eq_false_2. exact Hhead.
Qed.

Lemma components_match_cons e es a rest :
  components_match false (e :: es) (a :: rest) = bool_decide (e = a) && components_match false es rest.
Proof. destruct es, rest; simpl; by rewrite ?andb_true_r. Qed.

Lemma components_match_exact es actual : components_match false es actual = bool_decide (es = actual).
Proof.
  revert actual. induction es as [|e es IH]; intros [|a rest]; [done|done|by destruct es|].
  rewrite components_match_cons, IH, <-bool_decide_and. apply bool_decide_ext. split; [by intros [-> ->]|by intros [= -> ->]].
Qed.

Lemma matches_absolute s comps :
  _matches_name_path s {| np_components := comps; np_absolute := true |} false = bool_decide (ns_path s = comps).
Proof.
  unfold _matches_name_path; simpl. case_bool_decide as Hlt.
  { symmetry. apply bool_decide_eq_false_2. intros <-. lia. }
  case_bool_decide as Hne; [symmetry; apply bool_decide_eq_false_2; intros <-; done|].
  rewrite components_match_exact. replace (length (ns_path s) - length comps)%nat with 0%nat by lia. rewrite drop_0.
  apply bool_decide_ext. split; congruence.
Qed.

Lemma filter_unique {A B} (f : A → B) `{EqDecision B} (l : list A) x :
  NoDup (f <$> l) → x ∈ l → filter (λ y, f y = f x) l = [x].
Proof.
  induction l as [|y l IH]; csimpl; [by intros _ ?%elem_of_nil|]. intros [Hy Hnd]%NoDup_cons. rewrite filter_cons.
  intros [->|Hx]%elem_of_cons.
  - rewrite decide_True by done. f_equal.
    assert (∀ z, z ∈ filter (λ y0, f y0 = f y) l → False) as Hnone.
    { intros z [Heq Hz]%list_elem_of_filter. apply Hy. rewrite <-Heq. by apply list_elem_of_fmap_2. }
    destruct (filter _ l) as [|z k]; [done|]. exfalso. apply (Hnone z). left.
  - rewrite decide_False; [by apply IH|]. intros Heq. apply Hy. rewrite Heq. by apply list_elem_of_fmap_2.
Qed.

(** ** What the envelope carries *)

Lemma json_value_mapping items :
  _json_value (PMapping items) =
  (kvs ← foldr (λ kv r, match kv.1 with
                        | None => Err KeyNotString
                        | Some k => if secret_key k then Err SecretKey
                                    else y ← _json_value kv.2; ys ← r; Ok ((k, y) :: ys)
                        end) (Ok []) items;
   Ok (JObj kvs)).
Proof.
  cbn [_json_value]. f_equal. induction items as [|[[k|] v] items IH]; simpl; [done| |done]. by rewrite IH.
Qed.

Lemma json_value_sequence items :
  _json_value (PSequence items) = (ys ← map_res _json_value items; Ok (JList ys)).
Proof. cbn [_json_value]. f_equal. induction items as [|x items IH]; simpl; [done|]. by rewrite IH. Qed.

(** Copying a rendered value gives it back. *)
Lemma any_of_json_value v : keys_clean v → _json_value (any_of_json v) = Ok v.
Proof.
  induction v as [| | | | |l IH|kvs IH] using json_induction; intros Hc; try done.
  - cbn [any_of_json]. rewrite json_value_sequence. cbn [keys_clean] in Hc.
    assert (map_res _json_value (any_of_json <$> l) = Ok l) as ->; [|done].
    induction IH as [|x l Hx _ IHl]; [done|]. destruct Hc as [Hcx Hcl]. csimpl. rewrite Hx by done. simpl.
    by rewrite IHl.
  - cbn [any_of_json]. rewrite json_value_mapping. cbn [keys_clean] in Hc.
    assert (∀ r, r = Ok kvs → (r ≫= λ kvs, Ok (JObj kvs)) = Ok (E := envelope_error) (JObj kvs)) as Hfin by (by intros r ->).
    apply Hfin. clear Hfin. induction IH as [|[k x] kvs Hx _ IHl]; [done|]. destruct Hc as (Hk & Hcx & Hcl).
    cbn [fst snd] in Hk, Hx, Hcx. csimpl. rewrite Hk, Hx by done. simpl. by rewrite IHl.
Qed.

Lemma keys_clean_list l : keys_clean (JList l) ↔ Forall keys_clean l.
Proof. cbn [keys_clean]. induction l as [|x l IH]; simpl; [by split|]. by rewrite Forall_cons, IH. Qed.

Lemma keys_clean_obj kvs : keys_clean (JObj kvs) ↔ Forall (λ kv, secret_key kv.1 = false ∧ keys_clean kv.2) kvs.
Proof.
  cbn [keys_clean]. induction kvs as [|x l IH]; simpl; [by split|]. rewrite Forall_cons, IH. tauto.
Qed.

(** Goals about rendered objects: their keys are literals. *)
Ltac clean_keys := repeat match goal with
  | |- secret_key _ = false => vm_compute; reflexivity
  | |- Forall _ [] => apply Forall_nil_2
  | |- Forall _ (_ :: _) => apply Forall_cons; cbn [fst snd]; split
  | |- keys_clean (JObj _) => apply keys_clean_obj
  | |- keys_clean ?v => is_ground v; exact I
  | |- keys_clean (JStr _) => exact I
  | |- keys_clean (JInt _) => exact I
  | |- keys_clean (JBool _) => exact I
  | |- _ ∧ _ => split
  end.

Lemma source_range_clean m r j : _source_range m r = Ok j → keys_clean j.
Proof. unfold _source_range. intros ([a b] & _ & [= <-])%res_bind_Ok. unfold position_json. clean_keys. Qed.

Lemma symbol_data_clean d s ib ii data : _symbol_data d s ib ii = Ok data → keys_clean (JObj data).
Proof.
  unfold _symbol_data. intros (r & Hr%source_range_clean & H)%res_bind_Ok. apply res_bind_Ok in H as (info & Hi & H).
  apply res_bind_Ok in H as (body & Hb & [= <-]). clean_keys; [exact Hr|]. apply Forall_app. split.
  - destruct ii; [|injection Hi as <-; constructor].
    apply res_bind_Ok in Hi as (sel & Hs%source_range_clean & [= <-]). destruct (ns_detail s); clean_keys; exact Hs.
  - destruct ib; [|injection Hb as <-; constructor]. apply res_bind_Ok in Hb as (b & _ & [= <-]). clean_keys.
Qed.

Section navigation_facts.
Context (sha256_hex : list N → pystr).

(** The matches of a pattern, in traversal order. *)
Definition pattern_matches (d : DocumentNavigation) (p : _NamePathPattern) (substring_matching : bool) : list NormalizedSymbol :=
  filter (λ s, _matches_name_path s p substring_matching = true) (all_symbols (dn_symbols d)).

Lemma matching_symbols_perm d p sub : matching_symbols d p sub ≡ₚ pattern_matches d p sub.
Proof. unfold matching_symbols, pattern_matches, all_symbols. apply py_sorted_perm. Qed.

Lemma document_error_spec d code details r :
  document_error d code details = Ok r → ∃ e, r = inr e ∧ er_code e = code.
Proof.
  unfold document_error, lift_error, error, error_envelope_init.
  destruct (ensure _ _); [|done]. cbn [mbind res_bind]. destruct (ensure _ _); [|done]. cbn [mbind res_bind].
  destruct (_json_value _) as [j|]; [|done]. cbn [mbind res_bind]. destruct j; try done. intros [= <-]. by eexists.
Qed.

(** What each outcome of a lookup says about the document. *)
Inductive find_outcome (d : DocumentNavigation) (p : _NamePathPattern) (substring include_body include_info : bool)
    (max_answer_chars : Z) : ToolEnvelope → Prop :=
| FoundNone e : er_code e = SYMBOL_NOT_FOUND → pattern_matches d p substring = [] →
    find_outcome d p substring include_body include_info max_answer_chars (inr e)
| FoundMany e : er_code e = AMBIGUOUS_SYMBOL → (2 ≤ length (pattern_matches d p substring))%nat →
    find_outcome d p substring include_body include_info max_answer_chars (inr e)
| FoundIncomplete e s : er_code e = UNSUPPORTED → pattern_matches d p substring = [s] →
    include_body = true → ns_incomplete s ≠ None →
    find_outcome d p substring include_body include_info max_answer_chars (inr e)
| FoundTooLarge e s data : er_code e = INVALID_INPUT → pattern_matches d p substring = [s] →
    _symbol_data d s include_body include_info = Ok data → max_answer_chars < canonical_size (JObj data) →
    find_outcome d p substring include_body include_info max_answer_chars (inr e)
| FoundOne env s data : pattern_matches d p substring = [s] → (include_body = true → ns_incomplete s = None) →
    _symbol_data d s include_body include_info = Ok data → canonical_size (JObj data) ≤ max_answer_chars →
    sv_data env = JObj [(lit "relative_path", JStr (dn_relative_path d)); (lit "sha256", JStr (dn_sha256 sha256_hex d));
                        (lit "symbol", JObj data)] →
    find_outcome d p substring include_body include_info max_answer_chars (inl env).

Lemma success_document d data w a g :
  keys_clean (JObj data) →
  ∃ env, lift_success (success (any_of_json (JObj [(lit "relative_path", JStr (dn_relative_path d));
           (lit "sha256", JStr (dn_sha256 sha256_hex d)); (lit "symbol", JObj data)])) w a g None) = Ok (inl env) ∧
    sv_data env = JObj [(lit "relative_path", JStr (dn_relative_path d)); (lit "sha256", JStr (dn_sha256 sha256_hex d));
                        (lit "symbol", JObj data)].
Proof.
  intros Hc. unfold success. rewrite any_of_json_value.
  - eexists. split; reflexivity.
  - clean_keys. by apply keys_clean_obj.
Qed.

Lemma find_symbol_outcome d name_path p sub ib ii mx emx r :
  _parse_name_path name_path = Some p → 0 < mx → (∀ n, emx = Some n → 0 < n) →
  find_symbol sha256_hex d name_path sub ib ii mx emx = Ok r → find_outcome d p sub ib ii mx r.
Proof.
  intros Hp Hmx Hemx. unfold find_symbol. rewrite Hp. rewrite (bool_decide_eq_false_2 (mx ≤ 0)) by lia.
  assert (match emx with Some n => bool_decide (n ≤ 0) | None => false end = false) as ->.
  { destruct emx as [n|]; [|done]. apply bool_decide_eq_false_2. specialize (Hemx n eq_refl). lia. }
  cbn [orb]. pose proof (matching_symbols_perm d p sub) as Hperm.
  destruct (matching_symbols d p sub) as [|s [|s' ms]].
  - intros (e & -> & He)%document_error_spec. apply FoundNone; [done|]. by apply Permutation_nil_r in Hperm || apply Permutation_nil in Hperm.
  - assert (pattern_matches d p sub = [s]) as Hone by (by apply Permutation_singleton_l in Hperm || apply Permutation_singleton_r in Hperm).
    destruct (ib && _) eqn:Hinc.
    + apply andb_prop in Hinc as [-> Hinc]. intros (e & -> & He)%document_error_spec.
      eapply FoundIncomplete; [done..|]. by destruct (ns_incomplete s).
    + destruct (_symbol_data d s ib ii) as [data|] eqn:Hdata; [|done]. cbn [lift_position mbind res_bind].
      case_bool_decide as Hsize.
      * intros (e & -> & He)%document_error_spec. by eapply FoundTooLarge.
      * destruct (success_document d data (dn_workspace d) (dn_adapter d) (dn_generations d)) as (env & -> & Henv);
          [by eapply symbol_data_clean|]. intros [= <-].
        eapply FoundOne; [done| |done|lia|done]. intros ->. by destruct (ns_incomplete s).
  - intros H. assert (2 ≤ length (pattern_matches d p sub))%nat as Hlen by (rewrite <-Hperm; simpl; lia).
    destruct (lift_position _) as [datas|]; [|done]. cbn [mbind res_bind] in H.
    destruct (_bounded_candidates _ _) as [cs om]. apply document_error_spec in H as (e & -> & He). by apply FoundMany.
Qed.
End navigation_facts.

Lemma document_error_total d code kvs :
  keys_clean (JObj kvs) →
  ∃ e, document_error d code ((λ kv, (Some kv.1, any_of_json kv.2)) <$> kvs) = Ok (inr e).
Proof.
  intros Hc. unfold document_error, error, error_envelope_init. cbn [from_option id].
  pose proof (any_of_json_value (JObj kvs) Hc) as Hv. cbn [any_of_json] in Hv. rewrite Hv.
  destruct code; eexists; reflexivity.
Qed.

Lemma map_res_total {E A B} (f : A → res E B) l :
  (∀ x, x ∈ l → is_ok (f x) = true) → ∃ k, map_res f l = Ok k ∧ ∀ y, y ∈ k → ∃ x, x ∈ l ∧ f x = Ok y.
Proof.
  induction l as [|x l IH]; intros Hl; [exists []; split; [done|]; by intros y ?%elem_of_nil|].
  pose proof (Hl x ltac:(by left)) as Hx. destruct (f x) as [y|] eqn:Hfx; [|done].
  destruct IH as (k & Hk & Hin); [intros; apply Hl; by right|]. exists (y :: k). simpl. rewrite Hfx. simpl. rewrite Hk.
  split; [done|]. intros z [->|Hz]%elem_of_cons; [exists x; split; [by left|done]|].
  destruct (Hin z Hz) as (w & ? & ?). exists w. split; [by right|done].
Qed.

Lemma keep_while_elem P kept items x : x ∈ keep_while P kept items → x ∈ kept ∨ x ∈ items.
Proof.
  revert kept. induction items as [|y items IH]; intros kept; simpl; [by left|]. destruct (P (kept ++ [y])); [by left|].
  intros [Hin|Hin]%IH; [|by right; right]. apply elem_of_app in Hin as [?|Hin]; [by left|].
  right. apply list_elem_of_singleton in Hin as ->. left.
Qed.

Lemma map_res_cases {E A B} (f : A → res E B) l :
  (∃ k, map_res f l = Ok k ∧ ∀ y, y ∈ k → ∃ x, x ∈ l ∧ f x = Ok y) ∨ (∃ x e, x ∈ l ∧ f x = Err e ∧ map_res f l = Err e).
Proof.
  induction l as [|x l IH]; [left; exists []; split; [done|]; by intros y ?%elem_of_nil|]. simpl.
  destruct (f x) as [y|e] eqn:Hfx; [|right; exists x, e; split_and!; [by left|done|done]]. simpl.
  destruct IH as [(k & -> & Hin)|(x' & e & Hx & He & ->)]; [left|right; exists x', e; split_and!; [by right|done|done]].
  exists (y :: k). split; [done|]. intros z [->|Hz]%elem_of_cons; [exists x; split; [by left|done]|].
  destruct (Hin z Hz) as (w & ? & ?). exists w. split; [by right|done].
Qed.

(** A match whose range does not lie in the snapshot, and the error that rendering it raises. *)
Definition range_outside (d : DocumentNavigation) (p : _NamePathPattern) (sub ib ii : bool) (e : position_error) : Prop :=
  ∃ s, s ∈ pattern_matches d p sub ∧
    (pattern_matches d p sub = [s] ∧ _symbol_data d s ib ii = Err e ∨
     (2 ≤ length (pattern_matches d p sub))%nat ∧ _symbol_data d s false false = Err e).

Lemma find_symbol_total sha d name_path p sub ib ii mx emx :
  _parse_name_path name_path = Some p → 0 < mx → (∀ n, emx = Some n → 0 < n) →
  (∃ r, find_symbol sha d name_path sub ib ii mx emx = Ok r) ∨
  (∃ e, find_symbol sha d name_path sub ib ii mx emx = Err (NavPosition e) ∧ range_outside d p sub ib ii e).
Proof.
  intros Hp Hmx Hemx. unfold find_symbol. rewrite Hp. rewrite (bool_decide_eq_false_2 (mx ≤ 0)) by lia.
  assert (match emx with Some n => bool_decide (n ≤ 0) | None => false end = false) as ->.
  { destruct emx as [n|]; [|done]. apply bool_decide_eq_false_2. specialize (Hemx n eq_refl). lia. }
  cbn [orb]. pose proof (matching_symbols_perm d p sub) as Hperm.
  assert (∀ code kvs, keys_clean (JObj kvs) →
    ∃ r, document_error d code ((λ kv, (Some kv.1, any_of_json kv.2)) <$> kvs) = Ok r) as Herr.
  { intros code kvs Hc. destruct (document_error_total d code kvs Hc) as [e He]. by eexists. }
  destruct (matching_symbols d p sub) as [|s [|s' ms]].
  - left. apply (Herr SYMBOL_NOT_FOUND [(lit "relative_path", JStr (dn_relative_path d)); (lit "name_path", JStr (expression p));
      (lit "next_action", JStr (lit "get_symbols_overview"))]). clean_keys.
  - symmetry in Hperm. apply Permutation_singleton_r in Hperm as Hone. destruct (ib && _) eqn:Hib.
    + left. destruct (ns_incomplete s) as [reason|] eqn:Hr; unfold _incomplete_body_error; rewrite Hr.
      * apply (Herr UNSUPPORTED [(lit "operation", JStr (lit "find_symbol")); (lit "reason", JStr (lit "incomplete_assignment_range"));
          (lit "recovery_reason", JStr reason); (lit "relative_path", JStr (dn_relative_path d));
          (lit "name_path", JStr (_name_path_text s))]). clean_keys.
      * apply (Herr UNSUPPORTED [(lit "operation", JStr (lit "find_symbol")); (lit "reason", JStr (lit "incomplete_assignment_range"));
          (lit "recovery_reason", JNull); (lit "relative_path", JStr (dn_relative_path d));
          (lit "name_path", JStr (_name_path_text s))]). clean_keys.
    + destruct (_symbol_data d s ib ii) as [data|e] eqn:Hdata; cbn [lift_position mbind res_bind].
      2:{ right. exists e. split; [done|]. exists s. rewrite Hone. split; [by left|by left]. }
      left. case_bool_decide.
      * apply (Herr INVALID_INPUT [(lit "field", JStr (lit "max_answer_chars"));
          (lit "minimum_required", JInt (canonical_size (JObj data)))]). clean_keys.
      * destruct (success_document sha d data (dn_workspace d) (dn_adapter d) (dn_generations d)) as (env & -> & _);
          [by eapply symbol_data_clean|]. by eexists.
  - destruct (map_res_cases (λ s, data ← _symbol_data d s false false; Ok (JObj data)) (s :: s' :: ms))
      as [(datas & -> & Hdatas)|(x & e & Hx & He & ->)]; cbn [lift_position mbind res_bind].
    + left. destruct (_bounded_candidates _ _) as [cs om] eqn:Hb.
      apply (Herr AMBIGUOUS_SYMBOL [(lit "relative_path", JStr (dn_relative_path d)); (lit "name_path", JStr (expression p));
        (lit "candidates", JList cs); (lit "truncated", JBool (bool_decide (0 < om)%nat));
        (lit "omitted_count", JInt (Z.of_nat om))]). clean_keys. apply keys_clean_list, Forall_forall. intros j Hj.
      unfold _bounded_candidates in Hb. injection Hb as <- _. apply keep_while_elem in Hj as [?%elem_of_nil|Hj]; [done|].
      destruct (Hdatas j Hj) as (x & _ & Hx). apply res_bind_Ok in Hx as (data & Hdata & [= <-]). by eapply symbol_data_clean.
    + right. exists e. split; [done|]. exists x. split; [by rewrite <-Hperm|right]. split; [rewrite <-Hperm; simpl; lia|].
      simpl in He. destruct (_symbol_data d x false false); simpl in He; congruence.
Qed.

(** ** Properties *)

(** C21: looking up a name path in a document never guesses: it reports not found when nothing matches, ambiguous when
    several symbols do, and otherwise shows the one match with the hash of the snapshot it was read from, unless its body
    is incomplete or too large. The only other end of a lookup with positive limits is the [PositionError] of a match that is
    to be shown and has a range outside the snapshot. *)
Theorem find_symbol_never_guesses sha d name_path p sub ib ii mx emx :
  _parse_name_path name_path = Some p → 0 < mx → (∀ n, emx = Some n → 0 < n) →
  (∃ r, find_symbol sha d name_path sub ib ii mx emx = Ok r ∧ find_outcome sha d p sub ib ii mx r) ∨
  (∃ e, find_symbol sha d name_path sub ib ii mx emx = Err (NavPosition e) ∧ range_outside d p sub ib ii e).
Proof.
  intros Hp Hmx Hemx. destruct (find_symbol_total sha d name_path p sub ib ii mx emx Hp Hmx Hemx) as [[r Hr]|He]; [left|by right].
  exists r. split; [done|]. by eapply find_symbol_outcome.
Qed.

(** the name path shown for a symbol, with a leading slash, selects that symbol and no other in the document it
    was normalized from, as long as no component has a slash and no name reads as an overload label. *)
Theorem absolute_name_path_selects urlparse unquote py_str v d s :
  from_input urlparse unquote py_str v = Ok d → all_plain (dn_symbols d) →
  s ∈ all_symbols (dn_symbols d) → Forall plain_component (ns_path s) →
  ∃ p, _parse_name_path (NameText (cp_slash :: _name_path_text s)) = Some p ∧ matching_symbols d p false = [s].
Proof.
  intros Hd Hplain Hs Hcomp. unfold from_input in Hd. apply res_bind_Ok in Hd as (symbols & Hn & [= <-]).
  cbn [dn_symbols] in *. apply normalize_forest in Hn as Hf.
  pose proof (forest_all_nodup [] symbols Hf Hplain) as Hnd.
  assert (ns_path s ≠ []) as Hne by (by eapply forest_path_nonempty).
  exists {| np_components := ns_path s; np_absolute := true |}. split.
  - apply (parse_expression {| np_components := ns_path s; np_absolute := true |}); done.
  - unfold matching_symbols. cbn [dn_symbols]. fold (all_symbols symbols).
    assert (filter (λ t, _matches_name_path t {| np_components := ns_path s; np_absolute := true |} false = true)
              (all_symbols symbols) = [s]) as ->; [|done].
    etrans; [|exact (filter_unique ns_path (all_symbols symbols) s Hnd Hs)]. apply list_filter_iff. intros t.
    rewrite matches_absolute. apply bool_decide_eq_true.
Qed.

Module NavigationExamples.
Import NormalizeExamples.

Definition input (snap : FileSnapshot) : DocumentSymbolInput :=
  {| di_relative_path := lit "a.py"; di_uri := lit "file:///w/a.py"; di_snapshot := snap;
     di_raw_symbols := class_document; di_position_encoding := UTF16; di_workspace := None; di_adapter := None;
     di_generations := None; di_body_completeness := None |}.

(** Thirteen empty lines: every range of the example document is in it. *)
Definition blank : FileSnapshot :=
  match from_bytes (replicate 13 10%N) with Ok s => s | Err _ => {| raw_bytes := []; text := []; bom := [];
    line_endings := []; _text_to_byte := []; _line_starts := []; _line_content_ends := []; _line_ends := [] |} end.

Definition nav : DocumentNavigation :=
  {| dn_relative_path := lit "a.py"; dn_uri := lit "file:///w/a.py";
     dn_mapper := {| snapshot := blank; encoding := UTF16 |}; dn_symbols := roots; dn_workspace := None;
     dn_adapter := None; dn_generations := None |}.

Lemma nav_loaded : from_input parse_uri id (λ _, []) (input blank) = Ok nav.
Proof. vm_compute. reflexivity. Qed.

Definition pattern (s : string) : _NamePathPattern := {| np_components := [lit s]; np_absolute := false |}.

(** [f[1]] is found; [f] as a substring is ambiguous. *)
Lemma find_symbol_never_guesses_witness :
  ∃ r, find_symbol (λ _, lit "h") nav (NameText (lit "f[1]")) false true false 600 None = Ok r ∧
       find_outcome (λ _, lit "h") nav (pattern "f[1]") false true false 600 r.
Proof.
  assert (is_ok (find_symbol (λ _, lit "h") nav (NameText (lit "f[1]")) false true false 600 None) = true) as Hok
    by (vm_compute; reflexivity).
  destruct (find_symbol_never_guesses (λ _, lit "h") nav (NameText (lit "f[1]")) (pattern "f[1]") false true false 600 None)
    as [H|(e & He & _)].
  - vm_compute. reflexivity.
  - lia.
  - intros n Hn. discriminate Hn.
  - exact H.
  - exfalso. rewrite He in Hok. discriminate Hok.
Defined.

Example substring_is_ambiguous :
  match find_symbol (λ _, lit "h") nav (NameText (lit "f")) true false false 600 None with
  | Ok (inr e) => er_code e = AMBIGUOUS_SYMBOL
  | _ => False
  end.
Proof. vm_compute. reflexivity. Qed.

Lemma short_names_plain l : forallb (λ s, (length (ns_name s) <=? 2)%nat) l = true → names_plain l.
Proof.
  intros Hl s t k Hs _ Heq. rewrite forallb_forall in Hl. apply list_elem_of_In, Hl, Nat.leb_le in Hs.
  rewrite Heq in Hs. unfold overload_label in Hs. rewrite !length_app in Hs.
  assert (1 ≤ length (dec (Z.of_nat k)))%nat.
  { destruct (dec_number (Z.of_nat k)) as [(c & l' & -> & _) _]. simpl. lia. }
  change (length (lit "[")) with 1%nat in Hs. change (length (lit "]")) with 1%nat in Hs. lia.
Qed.

Lemma absolute_name_path_selects_witness :
  ∃ s p, ns_path s = [lit "C"; lit "f[1]"] ∧ _parse_name_path (NameText (cp_slash :: _name_path_text s)) = Some p ∧
         matching_symbols nav p false = [s].
Proof.
  assert (all_plain roots) as Hplain.
  { split; [apply short_names_plain; vm_compute; reflexivity|].
    assert (forallb (λ s, forallb (λ c, (length (ns_name c) <=? 2)%nat) (ns_children s)) (all_symbols roots) = true) as Hall
      by (vm_compute; reflexivity).
    intros s Hs%list_elem_of_In. rewrite forallb_forall in Hall. by apply short_names_plain, Hall. }
  destruct (all_symbols roots !! 2%nat) as [s|] eqn:Hs; [|vm_compute in Hs; discriminate].
  assert (ns_path s = [lit "C"; lit "f[1]"]) as Hpath by (vm_compute in Hs; by injection Hs as <-).
  destruct (absolute_name_path_selects parse_uri id (λ _, []) (input blank) nav s nav_loaded Hplain) as (p & Hp & Hm).
  - by eapply list_elem_of_lookup_2.
  - rewrite Hpath. repeat constructor; first [discriminate|apply (bool_decide_eq_true_1 _); vm_compute; reflexivity].
  - exists s, p. split_and!; [exact Hpath|exact Hp|exact Hm].
Defined.

End NavigationExamples.
