(* ===== verification/Editing.v ===== *)
(** * Replacing a symbol body

    Model of [src/serena_light/tools/editing.py] and of
    [open_guarded_directory] of [workspace/identity.py]: the hash-guarded,
    atomic replacement of one symbol's bytes.

    The code is a program over operating-system calls and over its three seams
    (authorizer, symbol provider, notifier): a tree whose nodes are calls and
    whose branches are the answers ([prog]). An execution is a path through the
    tree, so a statement about all executions is a statement about every
    behaviour of the file system and of the seams, including writers that do not
    take the operation lock. The loop over [os.read] ends when the operating
    system answers with no bytes, which nothing in the code bounds: it has
    [read_fuel] as fuel, and every theorem holds for every fuel. Python
    exceptions are values of [exn]; [try]/[except] and [finally] are [catch] and
    [finally]. *)

From S2P Require Import Prelude Json Paths Positions Scope Envelopes Normalize Navigation Executor.

Abbreviation bytes := (list N).
Abbreviation fd := Z.

(** ** Data *)

Record stat_result := {
  st_dev : Z; st_ino : Z; st_size : Z; st_mtime_ns : Z; st_ctime_ns : Z; st_mode : Z }.

Definition _stat_identity (s : stat_result) : Z * Z * Z * Z * Z * Z :=
  (st_dev s, st_ino s, st_size s, st_mtime_ns s, st_ctime_ns s, st_mode s).
Definition _inode_identity (s : stat_result) : Z * Z := (st_dev s, st_ino s).

(** [stat.S_ISREG] and [stat.S_IMODE] *)
Definition S_ISREG (mode : Z) : bool := bool_decide (Z.land mode 61440 = 32768).
Definition S_IMODE (mode : Z) : Z := Z.land mode 4095.

Record AuthorizedEdit := {
  ae_path : pystr;
  ae_relative_path : pystr;
  ae_workspace : option WorkspaceMetadata;
  ae_root : option pystr;
}.

Record ReplacementNotification := {
  rn_path : pystr; rn_relative_path : pystr; rn_uri : pystr; rn_text : pystr;
  rn_old_hash : pystr; rn_new_hash : pystr; rn_symbol_name_path : json }.

Record NotificationResult := {
  nr_state : pystr; nr_file_generation : Z; nr_generations : option GenerationMetadata }.

Record _TargetSnapshot := { ts_raw_bytes : bytes; ts_mode : Z }.

Inductive os_error := OsError | OsFileNotFound.

(** Exceptions by the classes the code tells apart. *)
Inductive exn :=
| XOs (e : os_error)
| XInvalidTarget
| XConcurrentChange (current_hash : pystr)
| XInstalledUncertain (stage : pystr)
| XWorkspace (d : WorkspaceErrorData)
| XPosition
| XType
| XValue
| XUnicode
| XEnvelope (e : envelope_error)   (** a [ValueError] of an envelope constructor *)
| XOther
| XOutOfFuel.   (** of the model only *)

Definition is_os (x : exn) : bool := match x with XOs _ => true | _ => false end.

(** [except (PositionError, TypeError, ValueError)] after [WorkspaceError] *)
Definition is_value (x : exn) : bool :=
  match x with XPosition | XType | XValue | XUnicode | XEnvelope _ => true | _ => false end.

(** ** Calls and programs *)

Inductive call :=
| COpenParent (path : pystr)                 (** [os.open(path.parent, ...)] *)
| COpenRoot (root : pystr)
| COpenChild (directory : fd) (part : pystr)
| COpenEntry (directory : fd) (name : pystr)
| CFstat (file : fd)
| CRead (file : fd)                          (** [os.read(file, 1 MiB)] *)
| CStatEntry (directory : fd) (name : pystr)
| CSeek (file : fd)                          (** [os.lseek(file, 0, os.SEEK_SET)] *)
| CRealpath (path : pystr)                   (** [Path.resolve(strict=True)] *)
| CClose (file : fd)
| CToken                                     (** [secrets.token_hex(12)] *)
| COpenTemporary (directory : fd) (name : pystr)
| CWrite (file : fd) (data : bytes)
| CFchmod (file : fd) (mode : Z)
| CFlush (file : fd)
| CFlushDirectory (directory : fd)
| CReplace (directory : fd) (source name : pystr)
| CUnlink (directory : fd) (name : pystr)
| CMark (c : commit_call)
| CLock                                      (** [operation_lock.__enter__] *)
| CUnlock
| CAuthorize (relative_path : pystr)
| CResolve (target : AuthorizedEdit) (snapshot : FileSnapshot)
| CNotify (n : ReplacementNotification).

(** [None] from a seam is a value of another type; leaving the lock neither
    raises nor swallows an exception. *)
Definition answer (c : call) : Type :=
  match c with
  | COpenParent _ | COpenRoot _ | COpenChild _ _ | COpenEntry _ _ | COpenTemporary _ _ => res os_error fd
  | CFstat _ | CStatEntry _ _ => res os_error stat_result
  | CRead _ => res os_error bytes
  | CSeek _ | CClose _ | CFchmod _ _ | CFlush _ | CFlushDirectory _ | CReplace _ _ _ | CUnlink _ _ => res os_error unit
  | CRealpath _ => res exn pystr
  | CToken => pystr
  | CWrite _ _ => res os_error Z
  | CMark _ => res commit_error unit
  | CLock => res exn unit
  | CUnlock => unit
  | CAuthorize _ => res exn (option AuthorizedEdit)
  | CResolve _ _ => res exn (option DocumentSymbolInput)
  | CNotify _ => res exn (option NotificationResult)
  end.

Inductive prog (A : Type) : Type :=
| Done (r : res exn A)
| Vis (c : call) (k : answer c → prog A).
Arguments Done {A} r.
Arguments Vis {A} c k.

Fixpoint pbind {A B} (p : prog A) (f : A → prog B) : prog B :=
  match p with
  | Done (Ok a) => f a
  | Done (Err x) => Done (Err x)
  | Vis c k => Vis c (λ a, pbind (k a) f)
  end.

#[export] Instance prog_bind : MBind prog := λ A B f p, pbind p f.
#[export] Instance prog_ret : MRet prog := λ A a, Done (Ok a).
Definition raise {A} (x : exn) : prog A := Done (Err x).

(** [try: p except: handler]; a handler that is [None] lets the exception pass. *)
Fixpoint catch {A} (p : prog A) (handler : exn → option (prog A)) : prog A :=
  match p with
  | Done (Ok a) => Done (Ok a)
  | Done (Err x) => default (Done (Err x)) (handler x)
  | Vis c k => Vis c (λ a, catch (k a) handler)
  end.

(** [try: p finally: last] *)
Fixpoint finally {A} (p : prog A) (last : prog unit) : prog A :=
  match p with
  | Done r => pbind last (λ _, Done r)
  | Vis c k => Vis c (λ a, finally (k a) last)
  end.

Definition os {A} (r : res os_error A) : prog A := match r with Ok a => Done (Ok a) | Err e => Done (Err (XOs e)) end.
Definition lift_envelope {A} (r : res envelope_error A) : prog A :=
  match r with Ok a => Done (Ok a) | Err e => Done (Err (XEnvelope e)) end.
Definition pure {A} (r : res exn A) : prog A := Done r.

Definition os_close (f : fd) : prog unit := Vis (CClose f) os.
Definition os_fstat (f : fd) : prog stat_result := Vis (CFstat f) os.

(** [with suppress(...)] around one call *)
Definition suppress_os (p : prog unit) : prog unit := catch p (λ x, if is_os x then Some (Done (Ok tt)) else None).
Definition suppress_not_found (p : prog unit) : prog unit :=
  catch p (λ x, match x with XOs OsFileNotFound => Some (Done (Ok tt)) | _ => None end).

(** [except OSError as exc: raise _InvalidTarget from exc] *)
Definition os_is_invalid {A} (p : prog A) : prog A := catch p (λ x, if is_os x then Some (raise XInvalidTarget) else None).

(** ** Pure helpers *)

(** [raw[:z]] and [raw[z:]] cut at this index. *)
Definition slice_index (n : nat) (z : Z) : nat := Z.to_nat (if bool_decide (z < 0) then Z.max 0 (Z.of_nat n + z) else z).

Definition HEX_DIGITS : pystr := lit "0123456789abcdefABCDEF".

Definition _valid_hash (value : option pystr) : bool :=
  match value with
  | Some s => bool_decide (length s = 64%nat) && forallb (λ c, bool_decide (c ∈ HEX_DIGITS)) s
  | None => false
  end.

Definition _valid_name_path (value : name_path_arg) : bool :=
  let check (components : list (option pystr)) :=
    nonempty components && forallb (λ item, match item with Some s => nonempty s | None => false end) components in
  match value with
  | NameText s => check (Some <$> split_slash (strip_right_slash (strip_left_slash s)))
  | NameParts parts => check parts
  | NameOther => false
  end.

Definition _valid_normalized_relative_path (value : pystr) : bool :=
  nonempty value && negb (bool_decide (head value = Some cp_slash)) && bool_decide (92%N ∉ value) &&
  bool_decide (0%N ∉ value) && forallb (λ part, bool_decide (part ∉ [[]; dot; dotdot])) (split_slash value).

(** The root of a [PurePosixPath]: exactly two leading slashes are kept. *)
Definition path_anchor (p : pystr) : pystr :=
  match p with
  | a :: b :: rest =>
      if bool_decide (a = cp_slash) then
        if bool_decide (b = cp_slash) && negb (bool_decide (head rest = Some cp_slash)) then [a; b] else [a]
      else []
  | [a] => if bool_decide (a = cp_slash) then [a] else []
  | [] => []
  end.

(** [path != root / relative] on paths *)
Definition is_child_path (path root relative : pystr) : bool :=
  bool_decide (path_anchor path = path_anchor root) &&
  bool_decide (path_parts path = path_parts root ++ path_parts relative).

(** [AuthorizedEdit(...)] with its [__post_init__] *)
Definition authorized_edit_init (t : AuthorizedEdit) : res exn AuthorizedEdit :=
  _ ← ensure (bool_decide (head (ae_path t) = Some cp_slash)) XValue;
  _ ← ensure (_valid_normalized_relative_path (ae_relative_path t)) XValue;
  _ ← ensure (match ae_root t with Some root => is_child_path (ae_path t) root (ae_relative_path t) | None => true end) XValue;
  Ok t.

Definition notification_result_init (n : NotificationResult) : res exn NotificationResult :=
  _ ← ensure (nonempty (nr_state n) && negb (bool_decide (nr_file_generation n < 0))) XValue;
  Ok n.

(** [Path.name] *)
Definition path_name (p : pystr) : pystr := default [] (last (path_parts p)).

(** [str.replace(old, new)] for the two patterns of the code *)
Fixpoint replace_crlf (t : pystr) : pystr :=
  match t with
  | c :: t1 =>
      match t1 with
      | d :: t2 => if bool_decide (c = cp_CR) && bool_decide (d = cp_LF) then cp_LF :: replace_crlf t2 else c :: replace_crlf t1
      | [] => [c]
      end
  | [] => []
  end.
Definition replace_char (old : N) (new t : pystr) : pystr := t ≫= λ c, if bool_decide (c = old) then new else [c].

Definition _newline_contract (s : FileSnapshot) : res exn pystr :=
  if forallb (λ e, bool_decide (e = [cp_LF])) (line_endings s) then Ok [cp_LF]
  else if forallb (λ e, bool_decide (e = [cp_CR; cp_LF])) (line_endings s) then Ok [cp_CR; cp_LF]
  else Err XValue.

(** [str.encode("utf-8")] *)
Definition encode_strict (t : pystr) : res exn bytes :=
  if forallb is_scalar t then Ok (utf8_encode t) else Err XUnicode.

Definition normalized_body (newline body : pystr) : pystr :=
  replace_char cp_LF newline (replace_char cp_CR [cp_LF] (replace_crlf body)).

Definition _replacement_bytes (s : FileSnapshot) (body : pystr) (start stop : Z) : res exn bytes :=
  newline ← _newline_contract s;
  encoded ← encode_strict (normalized_body newline body);
  let raw := raw_bytes s in
  Ok (take (slice_index (length raw) start) raw ++ encoded ++ drop (slice_index (length raw) stop) raw).

Definition nav_exn (e : nav_error) : exn :=
  match e with NavPosition _ => XPosition | NavEnvelope e => XEnvelope e | NavInput => XValue | NavProvider => XOther end.
Definition lift_nav {A} (r : res nav_error A) : res exn A := match r with Ok a => Ok a | Err e => Err (nav_exn e) end.
Definition lift_normalize {A} (r : res normalize_error A) : res exn A := match r with Ok a => Ok a | Err _ => Err XValue end.

(** [isinstance(v, int)]: a [bool] is one. *)
Definition json_int (v : json) : option Z :=
  match v with JInt z => Some z | JBool b => Some (Z.b2z b) | _ => None end.

Definition _byte_offset (source_range : json) (endpoint : string) : res exn Z :=
  match json_get source_range (lit endpoint) with
  | Some (JObj kvs) => match json_get (JObj kvs) (lit "byte_offset") ≫= json_int with Some z => Ok z | None => Err XType end
  | _ => Err XType
  end.

(** [{key: symbol[key] for key in ("name", "name_path", "kind")}] *)
Definition symbol_identity_of (symbol : json) : res exn (list (pystr * json)) :=
  map_res (λ key, match json_get symbol key with Some v => Ok (key, v) | None => Err XOther end)
    [lit "name"; lit "name_path"; lit "kind"].

Abbreviation reply := (SuccessEnvelope + ErrorEnvelope)%type.

(** ** Guarded directories *)

Fixpoint walk_parts (parts : list pystr) (directory_fd : fd) : prog fd :=
  match parts with
  | [] => mret directory_fd
  | part :: parts =>
      (* [except BaseException: os.close(directory_fd); raise] around one turn,
         with the value [directory_fd] has in it *)
      child_fd ← catch
        (if bool_decide (part ∈ [[]; dot; dotdot]) then raise (XOs OsError)
         else child_fd ← Vis (COpenChild directory_fd part) os;
              _ ← os_close directory_fd;
              mret child_fd)
        (λ x, Some (_ ← os_close directory_fd; raise x));
      walk_parts parts child_fd
  end.

Definition open_guarded_directory (root : pystr) (parts : list pystr) : prog fd :=
  directory_fd ← Vis (COpenRoot root) os;
  walk_parts parts directory_fd.

(** [parts[:-1]] *)
Definition parent_parts (relative_path : pystr) : list pystr := take (length (path_parts relative_path) - 1) (path_parts relative_path).

Definition _open_target_directory (target : AuthorizedEdit) : prog fd :=
  match ae_root target with
  | None => Vis (COpenParent (ae_path target)) os
  | Some root => open_guarded_directory root (parent_parts (ae_relative_path target))
  end.

Section editing.
Context (sha256_hex : list N → pystr).
Context (urlparse : pystr → parsed_uri) (unquote : pystr → pystr) (py_str : pyany → pystr).
Context (as_uri : pystr → pystr).   (** [Path.as_uri] *)
Context (read_fuel : nat).

Definition _sha256 (content : bytes) : pystr := sha256_hex content.

(** ** Reading the target *)

(** [while chunk := os.read(file_fd, 1024 * 1024): chunks.append(chunk)] *)
Fixpoint read_chunks (fuel : nat) (file_fd : fd) : prog (list bytes) :=
  match fuel with
  | O => raise XOutOfFuel
  | S fuel =>
      chunk ← Vis (CRead file_fd) os;
      if nonempty chunk then rest ← read_chunks fuel file_fd; mret (chunk :: rest) else mret []
  end.

Definition _read_target_in_directory (target : AuthorizedEdit) (directory_fd : fd) : prog _TargetSnapshot :=
  let name := path_name (ae_path target) in
  file_fd ← os_is_invalid (Vis (COpenEntry directory_fd name) os);
  finally
    (os_is_invalid
      (before ← os_fstat file_fd;
       if negb (S_ISREG (st_mode before)) then raise XInvalidTarget else
       chunks ← read_chunks read_fuel file_fd;
       after ← os_fstat file_fd;
       if negb (bool_decide (_stat_identity before = _stat_identity after)) then raise XInvalidTarget else
       entry ← Vis (CStatEntry directory_fd name) os;
       if negb (bool_decide (_stat_identity after = _stat_identity entry)) then raise XInvalidTarget else
       mret {| ts_raw_bytes := concat chunks; ts_mode := S_IMODE (st_mode after) |}))
    (os_close file_fd).

Definition _invalid_target (target : AuthorizedEdit) (stage : string) : prog ErrorEnvelope :=
  lift_envelope (error INVALID_PATH None
    (Some (PMapping [pstr "path" (PStr (ae_path target)); pstr "stage" (PStr (lit stage))])) (ae_workspace target) None None).

Definition _read_target (target : AuthorizedEdit) : prog (_TargetSnapshot + ErrorEnvelope) :=
  opened ← catch (d ← _open_target_directory target; mret (inl d))
             (λ x, if is_os x then Some (e ← _invalid_target target "current_file_reread"; mret (inr e)) else None);
  match opened with
  | inr e => mret (inr e)
  | inl directory_fd =>
      finally
        (catch (s ← _read_target_in_directory target directory_fd; mret (inl s))
           (λ x, match x with
                 | XInvalidTarget => Some (e ← _invalid_target target "current_file_reread"; mret (inr e))
                 | _ => None
                 end))
        (os_close directory_fd)
  end.

Definition safe_current_hash (target : AuthorizedEdit) : prog (option pystr) :=
  catch (observed ← _read_target target;
         mret match observed with inl s => Some (_sha256 (ts_raw_bytes s)) | inr _ => None end)
    (λ x, if is_os x then Some (mret None) else None).

Definition _require_current_lexical_parent (target : AuthorizedEdit) (pinned_directory_fd : fd) : prog unit :=
  current_directory_fd ← os_is_invalid (_open_target_directory target);
  finally
    (pc ← os_is_invalid
       (pinned ← os_fstat pinned_directory_fd; current ← os_fstat current_directory_fd; mret (pinned, current));
     if negb (bool_decide (_inode_identity pc.1 = _inode_identity pc.2)) then raise XInvalidTarget else mret tt)
    (os_close current_directory_fd).

(** ** The atomic replacement *)

Fixpoint write_loop (fuel : nat) (file_fd : fd) (remaining : bytes) : prog unit :=
  match remaining, fuel with
  | [], _ => mret tt
  | _, O => raise XOutOfFuel
  | _, S fuel =>
      written ← Vis (CWrite file_fd remaining) os;
      if bool_decide (written ≤ 0) || bool_decide (Z.of_nat (length remaining) < written) then raise (XOs OsError)
      else write_loop fuel file_fd (drop (Z.to_nat written) remaining)
  end.

(** Every turn writes a byte, so the length is enough fuel ([write_all_fuel]). *)
Definition _write_all (file_fd : fd) (content : bytes) : prog unit := write_loop (length content) file_fd content.

(** [if commit is not None: commit.mark_...()]; a refused transition is a [RuntimeError]. *)
Definition mark (commit : bool) (c : commit_call) : prog unit :=
  if commit then Vis (CMark c) (λ r, match r with Ok _ => mret tt | Err _ => raise XOther end) else mret tt.

Definition temporary_name (target : AuthorizedEdit) (token : pystr) : pystr :=
  lit "." ++ path_name (ae_path target) ++ lit ".serena-light-" ++ token ++ lit ".tmp".

(** The part of the body in which [file_fd] is open: an exception in it closes
    [file_fd] in the [finally], with [OSError] suppressed. *)
Definition fill_temporary (file_fd : fd) (content : bytes) (mode : Z) : prog unit :=
  catch
    (_ ← _write_all file_fd content;
     _ ← Vis (CFchmod file_fd mode) os;
     _ ← Vis (CFlush file_fd) os;
     os_close file_fd)
    (λ x, Some (_ ← suppress_os (os_close file_fd); raise x)).

Definition install (target : AuthorizedEdit) (directory_fd : fd) (temporary : pystr) (expected_raw content : bytes)
    (commit : bool) : prog pystr :=
  _ ← _require_current_lexical_parent target directory_fd;
  current ← _read_target_in_directory target directory_fd;
  if negb (bool_decide (ts_raw_bytes current = expected_raw)) then raise (XConcurrentChange (_sha256 (ts_raw_bytes current))) else
  _ ← _require_current_lexical_parent target directory_fd;
  _ ← Vis (CReplace directory_fd temporary (path_name (ae_path target))) os;
  _ ← mark commit MarkInstalled;
  _ ← catch (_require_current_lexical_parent target directory_fd)
        (λ x, match x with XInvalidTarget => Some (raise (XInstalledUncertain (lit "post_install_path_validation"))) | _ => None end);
  _ ← catch (Vis (CFlushDirectory directory_fd) os)
        (λ x, if is_os x then Some (raise (XInstalledUncertain (lit "directory_fsync"))) else None);
  mret (_sha256 content).

Definition _atomic_replace (target : AuthorizedEdit) (content expected_raw : bytes) (mode : Z) (commit : bool) : prog pystr :=
  directory_fd ← _open_target_directory target;
  token ← Vis CToken mret;
  let temporary := temporary_name target token in
  finally
    (file_fd ← Vis (COpenTemporary directory_fd temporary) os;
     _ ← fill_temporary file_fd content mode;
     install target directory_fd temporary expected_raw content commit)
    (_ ← suppress_not_found (Vis (CUnlink directory_fd temporary) os);
     os_close directory_fd).

(** ** Resolving the symbol *)

Definition _resolve_unique_symbol (target : AuthorizedEdit) (snapshot : FileSnapshot) (supplied : option DocumentSymbolInput)
    (name_path : name_path_arg)
    : res exn (list (pystr * json) * Z * Z * DocumentNavigation * DocumentSymbolInput + ErrorEnvelope) :=
  match supplied with
  | None => Err XType
  | Some supplied =>
      _ ← ensure (bool_decide (di_relative_path supplied = ae_relative_path target) &&
                  bool_decide (di_uri supplied = as_uri (ae_path target)) &&
                  bool_decide (raw_bytes (di_snapshot supplied) = raw_bytes snapshot)) XValue;
      document ← lift_normalize (from_input urlparse unquote py_str supplied);
      result ← lift_nav (find_symbol sha256_hex document name_path false false false 64000 None);
      match result with
      | inr e => Ok (inr e)
      | inl env =>
          match json_get (sv_data env) (lit "symbol") with
          | Some (JObj kvs) =>
              let symbol := JObj kvs in
              match json_get symbol (lit "range") with
              | Some (JObj rkvs) =>
                  start ← _byte_offset (JObj rkvs) "start";
                  stop ← _byte_offset (JObj rkvs) "end";
                  identity ← symbol_identity_of symbol;
                  Ok (inl (identity, start, stop, document, supplied))
              | _ => Err XType
              end
          | _ => Err XType
          end
      end
  end.

(** ** The operation *)

Definition not_retryable : RetryMetadata :=
  {| rt_retryable := false; rt_retry_after_seconds := None; rt_waited_seconds := None; rt_timeout_seconds := None;
     rt_target_generation := None; rt_observed_generation := None |}.

Definition _stale (target : AuthorizedEdit) (expected_hash current_hash : pystr) : prog ErrorEnvelope :=
  lift_envelope (error STALE_HASH (Some not_retryable)
    (Some (PMapping [pstr "relative_path" (PStr (ae_relative_path target)); pstr "expected_hash" (PStr expected_hash);
                     pstr "current_hash" (PStr current_hash); pstr "requires_current_reread" (PBool true)]))
    (ae_workspace target) None None).

Definition opt_str (s : option pystr) : pyany := match s with Some s => PStr s | None => PNone end.

Definition _uncertain (target : AuthorizedEdit) (supplied : DocumentSymbolInput) (symbol_identity : list (pystr * json))
    (old_hash new_hash stage : pystr) (fallback_hash : option pystr) : prog ErrorEnvelope :=
  observed ← safe_current_hash target;
  lift_envelope (error UNCERTAIN (Some not_retryable)
    (Some (PMapping [pstr "relative_path" (PStr (ae_relative_path target)); pstr "old_hash" (PStr old_hash);
                     pstr "new_hash" (PStr new_hash);
                     pstr "current_hash" (opt_str (match observed with Some h => Some h | None => fallback_hash end));
                     pstr "symbol" (any_of_json (JObj symbol_identity)); pstr "notification_state" (PStr (lit "failed"));
                     pstr "uncertain_stage" (PStr stage); pstr "requires_current_reread" (PBool true)]))
    (ae_workspace target) (di_adapter supplied) (di_generations supplied)).

Definition _authorize (relative_path : pystr) : prog (AuthorizedEdit + ErrorEnvelope) :=
  catch
    (target ← Vis (CAuthorize relative_path) pure;
     match target with
     | Some t => mret (inl t)
     | None => e ← lift_envelope (error INVALID_PATH None (Some (PMapping [pstr "path" (PStr relative_path)])) None None None);
               mret (inr e)
     end)
    (λ x, match x with XWorkspace d => Some (e ← lift_envelope (from_workspace_error d); mret (inr e)) | _ => None end).

(** The [try] around the snapshot, the provider and the lookup. *)
Definition resolve_stage (target : AuthorizedEdit) (raw : bytes) (name_path : name_path_arg)
    : prog (FileSnapshot * (list (pystr * json) * Z * Z * DocumentNavigation * DocumentSymbolInput) + ErrorEnvelope) :=
  catch
    (snapshot ← pure (match from_bytes raw with Ok s => Ok s | Err _ => Err XPosition end);
     supplied ← Vis (CResolve target snapshot) pure;
     resolved ← pure (_resolve_unique_symbol target snapshot supplied name_path);
     mret match resolved with inl r => inl (snapshot, r) | inr e => inr e end)
    (λ x, match x with
          | XWorkspace d => Some (e ← lift_envelope (from_workspace_error d); mret (inr e))
          | _ => if is_value x then
                   Some (e ← lift_envelope (error INVALID_INPUT None
                               (Some (PMapping [pstr "path" (PStr (ae_relative_path target)); pstr "stage" (PStr (lit "symbol_resolution"))]))
                               (ae_workspace target) None None);
                         mret (inr e))
                 else None
          end).

Definition answer_error (p : prog ErrorEnvelope) : prog reply := e ← p; mret (inr e).

(** [notifier.notify_replaced(...)] and the check of its result *)
Definition notify_stage (target : AuthorizedEdit) (document : DocumentNavigation) (replacement : bytes)
    (old_hash new_hash : pystr) (symbol_identity : list (pystr * json)) : prog NotificationResult :=
  installed_snapshot ← pure (match from_bytes replacement with Ok s => Ok s | Err _ => Err XPosition end);
  symbol_name_path ← pure (match dict_get symbol_identity (lit "name_path") with Some v => Ok v | None => Err XOther end);
  notification ← Vis (CNotify {| rn_path := ae_path target; rn_relative_path := ae_relative_path target;
                                 rn_uri := dn_uri document; rn_text := text installed_snapshot; rn_old_hash := old_hash;
                                 rn_new_hash := new_hash; rn_symbol_name_path := symbol_name_path |}) pure;
  match notification with Some n => mret n | None => raise XType end.

(** From the notification on: the bytes are installed. *)
Definition confirm_stage (target : AuthorizedEdit) (supplied : DocumentSymbolInput) (document : DocumentNavigation)
    (symbol_identity : list (pystr * json)) (replacement : bytes) (old_hash new_hash changed_hash : pystr) (commit : bool)
    : prog reply :=
  notified ← catch
    (n ← notify_stage target document replacement old_hash new_hash symbol_identity; mret (inl n))
    (λ _, Some (e ← _uncertain target supplied symbol_identity old_hash new_hash (lit "notification") (Some changed_hash);
                mret (inr e)));
  match notified with
  | inr e => mret (inr e)
  | inl n =>
      _ ← mark commit MarkDone;
      s ← lift_envelope (success
        (PMapping [pstr "relative_path" (PStr (ae_relative_path target)); pstr "old_hash" (PStr old_hash);
                   pstr "new_hash" (PStr new_hash); pstr "symbol" (any_of_json (JObj symbol_identity));
                   pstr "file_generation" (PInt (nr_file_generation n)); pstr "notification_state" (PStr (nr_state n))])
        (ae_workspace target) (di_adapter supplied)
        (match nr_generations n with Some g => Some g | None => di_generations supplied end) None);
      mret (inl s)
  end.

(** From the replacement bytes on. *)
Definition install_stage (target : AuthorizedEdit) (supplied : DocumentSymbolInput) (document : DocumentNavigation)
    (symbol_identity : list (pystr * json)) (replacement current_raw : bytes) (mode : Z) (expected_hash old_hash : pystr)
    (commit : bool) : prog reply :=
  let new_hash := _sha256 replacement in
  changed ← catch
    (h ← _atomic_replace target replacement current_raw mode commit; mret (inl h))
    (λ x, match x with
          | XConcurrentChange current_hash => Some (e ← _stale target expected_hash current_hash; mret (inr e))
          | XInvalidTarget => Some (e ← _invalid_target target "pre_install_validation"; mret (inr e))
          | XInstalledUncertain stage =>
              Some (e ← _uncertain target supplied symbol_identity old_hash new_hash stage None; mret (inr e))
          | _ => None
          end);
  match changed with
  | inr e => mret (inr e)
  | inl changed_hash => confirm_stage target supplied document symbol_identity replacement old_hash new_hash changed_hash commit
  end.

(** [except (PositionError, UnicodeError, ValueError)] around [_replacement_bytes] *)
Definition splice_stage (target : AuthorizedEdit) (supplied : DocumentSymbolInput) (snapshot : FileSnapshot) (body : pystr)
    (start stop : Z) : prog (bytes + ErrorEnvelope) :=
  catch (r ← pure (_replacement_bytes snapshot body start stop); mret (inl r))
    (λ x, match x with
          | XPosition | XUnicode | XValue | XEnvelope _ =>
              Some (e ← lift_envelope (error INVALID_INPUT None
                          (Some (PMapping [pstr "path" (PStr (ae_relative_path target)); pstr "stage" (PStr (lit "replacement_body"))]))
                          (ae_workspace target) (di_adapter supplied) (di_generations supplied));
                    mret (inr e))
          | _ => None
          end).

(** From the first comparison on. *)
Definition edit_stage (target : AuthorizedEdit) (name_path : name_path_arg) (body expected_hash : pystr) (commit : bool)
    (current : _TargetSnapshot) : prog reply :=
  let old_hash := _sha256 (ts_raw_bytes current) in
  if negb (bool_decide (old_hash = expected_hash)) then answer_error (_stale target expected_hash old_hash) else
  resolved ← resolve_stage target (ts_raw_bytes current) name_path;
  match resolved with
  | inr e => mret (inr e)
  | inl (snapshot, (symbol_identity, start_byte, end_byte, document, supplied)) =>
      confirmed_or_error ← _read_target target;
      match confirmed_or_error with
      | inr e => mret (inr e)
      | inl confirmed =>
          if negb (bool_decide (ts_raw_bytes confirmed = ts_raw_bytes current))
          then answer_error (_stale target expected_hash (_sha256 (ts_raw_bytes confirmed)))
          else
            spliced ← splice_stage target supplied snapshot body start_byte end_byte;
            match spliced with
            | inr e => mret (inr e)
            | inl replacement =>
                install_stage target supplied document symbol_identity replacement (ts_raw_bytes current)
                  (ts_mode confirmed) expected_hash old_hash commit
            end
      end
  end.

(** The part under the operation lock. *)
Definition locked_stage (name_path : name_path_arg) (relative_path body expected_hash : pystr) (commit : bool) : prog reply :=
  target_or_error ← _authorize relative_path;
  match target_or_error with
  | inr e => mret (inr e)
  | inl target =>
      if negb (bool_decide (ae_relative_path target = relative_path))
      then answer_error (lift_envelope (error INVALID_PATH None (Some (PMapping [pstr "path" (PStr relative_path)]))
                                          (ae_workspace target) None None))
      else
        current_or_error ← _read_target target;
        match current_or_error with
        | inr e => mret (inr e)
        | inl current => edit_stage target name_path body expected_hash commit current
        end
  end.

(** An argument that is not a string is [None]. *)
Definition replace_symbol_body (name_path : name_path_arg) (relative_path body expected_hash : option pystr) (commit : bool)
    : prog reply :=
  match relative_path, body, expected_hash with
  | Some path, Some text, Some hash =>
      if _valid_name_path name_path && nonempty path && bool_decide (0%N ∉ path) && _valid_hash (Some hash) then
        _ ← Vis CLock pure;
        finally (locked_stage name_path path text (lower_ascii hash) commit) (Vis CUnlock (λ _, mret tt))
      else answer_error (lift_envelope (error INVALID_INPUT None
             (Some (PMapping [pstr "field" (PStr (lit "name_path, relative_path, body, or expected_hash"))])) None None None))
  | _, _, _ => answer_error (lift_envelope (error INVALID_INPUT None
             (Some (PMapping [pstr "field" (PStr (lit "name_path, relative_path, body, or expected_hash"))])) None None None))
  end.
End editing.
