(* ===== verification/EditLogic.v ===== *)
(** * Executions of editing programs, and monitors over them

    [exec p t r]: the program [p] runs with the calls and answers [t] and ends
    with [r]. A monitor reads the events of an execution one by one and either
    moves to a new state or rejects; [wp] is the weakest precondition of a
    program against a monitor, with a rule for each construct of the model
    ([pbind], [catch], [finally]), and [wp_exec] turns it into a statement about
    executions. Two monitors are used: [Ledger] for the descriptors and the
    temporary entries that are held, and [Install] for the order of reads, writes, the
    rename, the commit marks and the notification. *)

From stdpp Require Import gmultiset.
From S2P Require Import Prelude Json Paths Positions Scope Envelopes Normalize Navigation Executor Editing.

Inductive event := Ev (c : call) (a : answer c).

Inductive exec {A} : prog A → list event → res exn A → Prop :=
| exec_done r : exec (Done r) [] r
| exec_vis c k a t r : exec (k a) t r → exec (Vis c k) (Ev c a :: t) r.

(** Play a program against a file system that answers each call. *)
Fixpoint play {A S} (oracle : ∀ c, S → S * answer c) (p : prog A) (s : S) : list event * res exn A :=
  match p with
  | Done r => ([], r)
  | Vis c k => let '(s', a) := oracle c s in let '(t, r) := play oracle (k a) s' in (Ev c a :: t, r)
  end.

Lemma play_exec {A S} (oracle : ∀ c, S → S * answer c) (p : prog A) s :
  exec p (play oracle p s).1 (play oracle p s).2.
Proof.
  revert s. induction p as [r|c k IH]; intros s; simpl; [constructor|].
  destruct (oracle c s) as [s' a]. specialize (IH a s'). destruct (play oracle (k a) s') as [t r]. by constructor.
Qed.

(** ** Monitors *)

Section monitor.
Context {S : Type} (calm : ∀ c, answer c → Prop) (step : ∀ c, answer c → S → option S).

Fixpoint wp {A} (p : prog A) (s : S) (Q : S → res exn A → Prop) : Prop :=
  match p with
  | Done r => Q s r
  | Vis c k => ∀ a, calm c a → ∃ s', step c a s = Some s' ∧ wp (k a) s' Q
  end.

Fixpoint run (t : list event) (s : S) : option S :=
  match t with
  | [] => Some s
  | Ev c a :: t => s' ← step c a s; run t s'
  end.

Lemma wp_exec {A} (p : prog A) t r s Q :
  wp p s Q → exec p t r → Forall (λ e, let 'Ev c a := e in calm c a) t → ∃ s', run t s = Some s' ∧ Q s' r.
Proof.
  intros Hwp Hex. revert s Hwp. induction Hex as [r|c k a t r _ IH]; intros s Hwp Hcalm; simpl in *; [by eauto|].
  apply Forall_cons in Hcalm as [Ha Ht]. destruct (Hwp a Ha) as (s' & Hs & Hk). rewrite Hs. simpl. by apply IH.
Qed.

Lemma wp_mono {A} (p : prog A) s (Q Q' : S → res exn A → Prop) :
  wp p s Q → (∀ s' r, Q s' r → Q' s' r) → wp p s Q'.
Proof.
  intros Hwp HQ. revert s Hwp. induction p as [r|c k IH]; intros s Hwp; simpl in *; [auto|].
  intros a Ha. destruct (Hwp a Ha) as (s' & Hs & Hk). eauto.
Qed.

Lemma wp_bind {A B} (p : prog A) (f : A → prog B) s Q :
  wp p s (λ s' r, match r with Ok a => wp (f a) s' Q | Err x => Q s' (Err x) end) → wp (p ≫= f) s Q.
Proof.
  change (p ≫= f) with (pbind p f). revert s. induction p as [[a|x]|c k IH]; intros s Hwp; simpl in *; [done..|].
  intros a Ha. destruct (Hwp a Ha) as (s' & Hs & Hk). eauto.
Qed.

Lemma wp_catch {A} (p : prog A) h s Q :
  wp p s (λ s' r, match r with
                  | Ok a => Q s' (Ok a)
                  | Err x => match h x with Some q => wp q s' Q | None => Q s' (Err x) end
                  end) →
  wp (catch p h) s Q.
Proof.
  revert s. induction p as [[a|x]|c k IH]; intros s Hwp; simpl in *; [done| |].
  - destruct (h x); simpl in *; done.
  - intros a Ha. destruct (Hwp a Ha) as (s' & Hs & Hk). eauto.
Qed.

Lemma wp_finally {A} (p : prog A) (last : prog unit) s Q :
  wp p s (λ s' r, wp last s' (λ s'' r', match r' with Ok _ => Q s'' r | Err x => Q s'' (Err x) end)) →
  wp (finally p last) s Q.
Proof.
  revert s. induction p as [r|c k IH]; intros s Hwp; simpl in *.
  - change (pbind last (λ _, Done r)) with (last ≫= λ _, Done r). apply wp_bind. eapply wp_mono; [exact Hwp|].
    intros s' [u|x] HQ; exact HQ.
  - intros a Ha. destruct (Hwp a Ha) as (s' & Hs & Hk). eauto.
Qed.

Lemma wp_vis {A} c (k : answer c → prog A) s Q :
  (∀ a, calm c a → ∃ s', step c a s = Some s' ∧ wp (k a) s' Q) → wp (Vis c k) s Q.
Proof. done. Qed.

(** A program whose calls leave the state alone. *)
Definition silent (c : call) : Prop := ∀ a s, calm c a → step c a s = Some s.
End monitor.

(** ** Footprints: the calls of a program and the exceptions it ends with *)

Fixpoint within {A} (P : call → Prop) (E : exn → Prop) (p : prog A) : Prop :=
  match p with
  | Done (Ok _) => True
  | Done (Err x) => E x
  | Vis c k => P c ∧ ∀ a, within P E (k a)
  end.

Lemma within_bind {A B} P E (p : prog A) (f : A → prog B) :
  within P E p → (∀ a, within P E (f a)) → within P E (p ≫= f).
Proof.
  change (p ≫= f) with (pbind p f). intros Hp Hf. induction p as [[a|x]|c k IH]; simpl in *; [by auto..|].
  destruct Hp as [Hc Hk]. auto.
Qed.

Lemma within_catch {A} P E E' (p : prog A) h :
  within P E' p → (∀ x, E' x → match h x with Some q => within P E q | None => E x end) → within P E (catch p h).
Proof.
  intros Hp Hh. induction p as [[a|x]|c k IH]; simpl in *; [done| |].
  - specialize (Hh x Hp). by destruct (h x).
  - destruct Hp as [Hc Hk]. auto.
Qed.

Lemma within_finally {A} P E (p : prog A) last : within P E p → within P E last → within P E (finally p last).
Proof.
  intros Hp Hl. induction p as [r|c k IH]; simpl in *.
  - change (pbind last (λ _, Done r)) with (last ≫= λ _, Done r). apply within_bind; [done|]. intros _. by destruct r.
  - destruct Hp as [Hc Hk]. auto.
Qed.

Lemma within_mono {A} (P P' : call → Prop) (E E' : exn → Prop) (p : prog A) :
  within P E p → (∀ c, P c → P' c) → (∀ x, E x → E' x) → within P' E' p.
Proof.
  intros Hp HP HE. induction p as [[a|x]|c k IH]; simpl in *; [done|by auto|]. destruct Hp as [Hc Hk]. auto.
Qed.

Lemma within_silent {S A} calm (step : ∀ c, answer c → S → option S) P E (p : prog A) s :
  within P E p → (∀ c, P c → silent calm step c) →
  wp calm step p s (λ s' r, s' = s ∧ match r with Ok _ => True | Err x => E x end).
Proof.
  intros Hp HP. induction p as [[a|x]|c k IH]; simpl in *; [done..|]. destruct Hp as [Hc Hk].
  intros a Ha. exists s. split; [by apply HP|by apply IH].
Qed.

(** The calls that walk to a directory and compare its identity. *)
Definition walks (c : call) : Prop :=
  match c with COpenParent _ | COpenRoot _ | COpenChild _ _ | CFstat _ | CClose _ => True | _ => False end.

(** The calls that read the target. *)
Definition reads (c : call) : Prop :=
  match c with COpenEntry _ _ | CRead _ | CStatEntry _ _ => True | _ => walks c end.

Lemma walks_reads c : walks c → reads c.
Proof. by destruct c. Qed.

Definition only_os (x : exn) : Prop := ∃ e, x = XOs e.
Definition os_or_invalid (x : exn) : Prop := only_os x ∨ x = XInvalidTarget.
Definition read_exn (x : exn) : Prop := os_or_invalid x ∨ x = XOutOfFuel.
#[export] Hint Unfold only_os os_or_invalid read_exn : edit.

Lemma within_os {A} P (E : exn → Prop) (r : res os_error A) : (∀ e, E (XOs e)) → within P E (os r).
Proof. intros HE. by destruct r; simpl. Qed.

(** [except OSError as exc: raise _InvalidTarget] *)
Lemma within_os_is_invalid {A} P (E : exn → Prop) (p : prog A) :
  within P (λ x, E x ∨ only_os x) p → E XInvalidTarget → within P E (os_is_invalid p).
Proof.
  intros Hp HE. eapply within_catch; [exact Hp|]. intros x Hx.
  destruct Hx as [Hx|[e ->]]; [|exact HE]. by destruct x; simpl.
Qed.

Ltac os_step := first
  [ apply within_os; intros; unfold read_exn, os_or_invalid, only_os; eauto 6
  | apply within_bind; [|intros ?]
  | apply within_finally
  | apply within_os_is_invalid; [|unfold read_exn, os_or_invalid, only_os; eauto 6] ].

Lemma walk_parts_within parts d : within walks only_os (walk_parts parts d).
Proof.
  revert d. induction parts as [|part parts IH]; intros d; simpl; [done|].
  apply within_bind; [|intros child; apply IH]. eapply within_catch with (E' := only_os).
  - case_bool_decide; simpl; [by eexists|]. split; [done|]. intros [child|e]; simpl; [|by eexists].
    split; [done|]. intros [[]|e]; simpl; [done|by eexists].
  - intros x Hx. simpl. split; [done|]. intros [[]|e]; simpl; [done|by eexists].
Qed.

Lemma open_target_directory_within target : within walks only_os (_open_target_directory target).
Proof.
  unfold _open_target_directory, open_guarded_directory. destruct (ae_root target).
  - apply within_bind; [|intros d; apply walk_parts_within]. simpl. split; [done|]. intros a. by os_step.
  - simpl. split; [done|]. intros a. by os_step.
Qed.

Lemma require_parent_within target d : within walks os_or_invalid (_require_current_lexical_parent target d).
Proof.
  unfold _require_current_lexical_parent, os_fstat, os_close. apply within_bind; [|intros current].
  - apply within_os_is_invalid; [|by right]. eapply within_mono; [apply open_target_directory_within|done|auto].
  - repeat os_step; simpl; try (split; [done|intros ?; os_step]); [done|].
    case_bool_decide; simpl; [done|by right].
Qed.

Lemma read_chunks_within fuel f : within reads (λ x, only_os x ∨ x = XOutOfFuel) (read_chunks fuel f).
Proof.
  induction fuel as [|fuel IH]; simpl; [by right|]. split; [done|]. intros [chunk|e]; simpl; [|left; by eexists].
  destruct (nonempty chunk); [|done]. apply within_bind; [apply IH|done].
Qed.

Lemma read_target_in_directory_within fuel target d : within reads read_exn (_read_target_in_directory fuel target d).
Proof.
  unfold _read_target_in_directory, os_fstat, os_close. apply within_bind; [|intros f].
  { os_step. simpl. split; [done|]. intros a. os_step. }
  apply within_finally; [|simpl; split; [done|intros a; os_step]]. os_step.
  apply within_bind; [simpl; split; [done|intros a; os_step]|intros before].
  destruct (S_ISREG _); cbn [negb]; [|left; left; by right].
  apply within_bind; [eapply within_mono; [apply read_chunks_within|done|];
    intros x [[e ->]| ->]; [right; by eexists|left; by right]|intros chunks].
  apply within_bind; [simpl; split; [done|intros a; os_step]|intros after].
  case_bool_decide; simpl; [|left; left; by right].
  split; [done|]. intros [entry|e]; simpl; [|right; by eexists]. case_bool_decide; simpl; [done|left; left; by right].
Qed.

Lemma within_envelope {A B} P (E : exn → Prop) (r : res envelope_error A) (f : A → B) :
  (∀ e, E (XEnvelope e)) → within P E (a ← lift_envelope r; mret (f a)).
Proof. intros HE. by destruct r; simpl. Qed.

Lemma read_target_within fuel target :
  within reads (λ x, only_os x ∨ x = XOutOfFuel ∨ ∃ e, x = XEnvelope e) (_read_target fuel target).
Proof.
  unfold _read_target. apply within_bind; [|intros [d|e]; [|done]].
  - eapply within_catch with (E' := only_os).
    + apply within_bind; [|done]. eapply within_mono; [apply open_target_directory_within|apply walks_reads|done].
    + intros x [e ->]. apply within_envelope. eauto.
  - apply within_finally; [|simpl; split; [done|]; intros [[]|e]; simpl; [done|left; by eexists]].
    eapply within_catch.
    + apply within_bind; [apply read_target_in_directory_within|done].
    + intros x [[[e ->]| ->]| ->]; [left; by eexists|apply within_envelope; by eauto|by right; left].
Qed.

Lemma safe_current_hash_within sha fuel target :
  within reads (λ x, x = XOutOfFuel ∨ ∃ e, x = XEnvelope e) (safe_current_hash sha fuel target).
Proof.
  unfold safe_current_hash. eapply within_catch.
  - apply within_bind; [apply read_target_within|done].
  - intros x [[e ->]|[->|[e ->]]]; simpl; [done|by left|right; by eexists].
Qed.

(** ** Descriptors and temporary entries *)

Module Ledger.

Record ledger := { held : gmultiset fd; temps : gset pystr }.
Definition empty_ledger : ledger := {| held := ∅; temps := ∅ |}.

Definition add (f : fd) (s : ledger) : ledger := {| held := held s ⊎ {[+ f +]}; temps := temps s |}.
Definition drop_fd (f : fd) (s : ledger) : ledger := {| held := held s ∖ {[+ f +]}; temps := temps s |}.
Definition add_temp (n : pystr) (s : ledger) : ledger := {| held := held s; temps := temps s ∪ {[ n ]} |}.
Definition drop_temp (n : pystr) (s : ledger) : ledger := {| held := held s; temps := temps s ∖ {[ n ]} |}.

(** The descriptor a call acts on. *)
Definition uses (c : call) : option fd :=
  match c with
  | COpenChild f _ | COpenEntry f _ | CFstat f | CRead f | CStatEntry f _ | CSeek f | CClose f | COpenTemporary f _ | CWrite f _
  | CFchmod f _ | CFlush f | CFlushDirectory f | CReplace f _ _ | CUnlink f _ => Some f
  | _ => None
  end.

Definition opens (r : res os_error fd) (s : ledger) : ledger := match r with Ok f => add f s | Err _ => s end.

Definition effect (c : call) : answer c → ledger → ledger :=
  match c with
  | COpenParent _ | COpenRoot _ | COpenChild _ _ | COpenEntry _ _ => opens
  | COpenTemporary _ name => λ r s, match r with Ok f => add f (add_temp name s) | Err _ => s end
  | CClose f => λ _, drop_fd f
  | CReplace _ source _ => λ r s, match r with Ok _ => drop_temp source s | Err _ => s end
  | CUnlink _ name => λ r s, match r with Ok _ | Err OsFileNotFound => drop_temp name s | Err _ => s end
  | _ => λ _ s, s
  end.

(** A call on a descriptor that is not held is rejected. *)
Definition step (c : call) (a : answer c) (s : ledger) : option ledger :=
  match uses c with
  | Some f => if bool_decide (f ∈ held s) then Some (effect c a s) else None
  | None => Some (effect c a s)
  end.

(** Closing succeeds, and removing the temporary entry does or finds none. *)
Definition calm (c : call) : answer c → Prop :=
  match c with
  | CClose _ => λ r, r = Ok tt
  | CUnlink _ _ => λ r, r = Ok tt ∨ r = Err OsFileNotFound
  | _ => λ _, True
  end.

Abbreviation lwp := (wp calm step).

Lemma drop_add f s : drop_fd f (add f s) = s.
Proof. destruct s as [h t]. unfold drop_fd, add. simpl. f_equal. multiset_solver. Qed.

Lemma drop_add_under f g s : drop_fd f (add g (add f s)) = add g s.
Proof. destruct s as [h t]. unfold drop_fd, add. simpl. f_equal. multiset_solver. Qed.

Lemma held_add f s : f ∈ held (add f s).
Proof. destruct s. simpl. multiset_solver. Qed.

Lemma held_add_under f g s : f ∈ held s → f ∈ held (add g s).
Proof. destruct s. simpl. multiset_solver. Qed.

Lemma lwp_use {A} c (k : answer c → prog A) f s Q :
  uses c = Some f → f ∈ held s → (∀ a, calm c a → lwp (k a) (effect c a s) Q) → lwp (Vis c k) s Q.
Proof.
  intros Hu Hf Hk a Ha. exists (effect c a s). split; [|by apply Hk]. unfold step. rewrite Hu. by rewrite bool_decide_eq_true_2.
Qed.

Lemma lwp_free {A} c (k : answer c → prog A) s Q :
  uses c = None → (∀ a, calm c a → lwp (k a) (effect c a s) Q) → lwp (Vis c k) s Q.
Proof. intros Hu Hk a Ha. exists (effect c a s). split; [|by apply Hk]. unfold step. by rewrite Hu. Qed.

Lemma lwp_close f s : f ∈ held s → lwp (os_close f) s (λ s' r, s' = drop_fd f s ∧ r = Ok tt).
Proof. intros Hf. apply (lwp_use _ _ f); [done..|]. intros a ->. done. Qed.

(** A program that leaves what is held as it was. *)
Definition neutral {A} (s : ledger) : ledger → res exn A → Prop := λ s' _, s' = s.
(** A program that returns a descriptor it leaves open. *)
Definition returns_open (s : ledger) : ledger → res exn fd → Prop :=
  λ s' r, match r with Ok f => s' = add f s | Err _ => s' = s end.

Lemma lwp_finally_close {A} (p : prog A) f s :
  lwp p (add f s) (neutral (add f s)) → lwp (finally p (os_close f)) (add f s) (neutral s).
Proof.
  intros Hp. apply wp_finally. eapply wp_mono; [exact Hp|]. intros s' r ->.
  eapply wp_mono; [apply lwp_close, held_add|]. intros s'' r' [-> ->]. unfold neutral. apply drop_add.
Qed.

Lemma lwp_catch_neutral {A} (p : prog A) h s s' :
  lwp p s (neutral s') → (∀ x q, h x = Some q → lwp q s' (neutral s')) → lwp (catch p h) s (neutral s').
Proof.
  intros Hp Hh. apply wp_catch. eapply wp_mono; [exact Hp|]. intros s'' [a|x] ->; [done|].
  destruct (h x) as [q|] eqn:Hx; [by eapply Hh|done].
Qed.

Lemma lwp_bind_neutral {A B} (p : prog A) (f : A → prog B) s :
  lwp p s (neutral s) → (∀ a, lwp (f a) s (neutral s)) → lwp (p ≫= f) s (neutral s).
Proof. intros Hp Hf. apply wp_bind. eapply wp_mono; [exact Hp|]. intros s' [a|x] ->; [apply Hf|done]. Qed.

Lemma lwp_lift {A} (r : res exn A) s : lwp (Done r) s (neutral s).
Proof. done. Qed.

Lemma lwp_os {A} (r : res os_error A) s : lwp (os r) s (neutral s).
Proof. by destruct r. Qed.

Lemma lwp_envelope {A} (r : res envelope_error A) s : lwp (lift_envelope r) s (neutral s).
Proof. by destruct r. Qed.

Lemma walk_parts_ledger parts d s : lwp (walk_parts parts d) (add d s) (returns_open s).
Proof.
  revert d. induction parts as [|part parts IH]; intros d; cbn [walk_parts]; [done|]. apply wp_bind, wp_catch.
  case_bool_decide.
  - simpl. intros a ->. exists s. split; [|done]. unfold step. simpl. rewrite bool_decide_eq_true_2 by apply held_add.
    by rewrite drop_add.
  - apply wp_bind, (lwp_use _ _ d); [done|apply held_add|]. intros [child|e] _; simpl.
    + intros a ->. exists (add child s). split; [|apply IH]. unfold step. simpl.
      rewrite bool_decide_eq_true_2 by (apply (held_add_under d child (add d s)), held_add). f_equal. apply drop_add_under.
    + intros a ->. exists s. split; [|done]. unfold step. simpl. rewrite bool_decide_eq_true_2 by apply held_add.
      by rewrite drop_add.
Qed.

Lemma open_directory_ledger target s : lwp (_open_target_directory target) s (returns_open s).
Proof.
  unfold _open_target_directory, open_guarded_directory. destruct (ae_root target).
  - apply wp_bind, lwp_free; [done|]. intros [d|e] _; simpl; [apply walk_parts_ledger|done].
  - apply lwp_free; [done|]. by intros [d|e] _.
Qed.

(** [except OSError: raise _InvalidTarget] keeps what is held. *)
Lemma lwp_os_is_invalid {A} (p : prog A) s (Q : ledger → res exn A → Prop) :
  lwp p s Q → (∀ s' x, Q s' (Err x) → Q s' (Err XInvalidTarget)) → lwp (os_is_invalid p) s Q.
Proof.
  intros Hp HQ. apply wp_catch. eapply wp_mono; [exact Hp|]. intros s' [a|x] Hx; [done|].
  destruct (is_os x); simpl; [by eapply HQ|done].
Qed.

Ltac act := match goal with
  | |- wp _ _ (Vis ?c _) _ _ => first
      [ apply lwp_free; [done|]
      | eapply lwp_use; [reflexivity|auto using held_add, held_add_under|] ]; intros ? _
  end.

Lemma require_parent_ledger target d s :
  d ∈ held s → lwp (_require_current_lexical_parent target d) s (neutral s).
Proof.
  intros Hd. unfold _require_current_lexical_parent. apply wp_bind. eapply wp_mono.
  { apply lwp_os_is_invalid; [apply open_directory_ledger|done]. }
  intros s' [current|x] Hs; [|done]. simpl in Hs. subst s'. apply lwp_finally_close. apply lwp_bind_neutral.
  - apply lwp_os_is_invalid; [|done]. unfold os_fstat.
    repeat (apply lwp_bind_neutral; [act; apply lwp_os|intros ?]). done.
  - intros pc. by destruct (negb _).
Qed.

Lemma read_chunks_ledger fuel f s : f ∈ held s → lwp (read_chunks fuel f) s (neutral s).
Proof.
  intros Hf. induction fuel as [|fuel IH]; cbn [read_chunks]; [done|].
  apply lwp_bind_neutral; [act; apply lwp_os|intros chunk]. destruct (nonempty chunk); [|done]. by apply lwp_bind_neutral.
Qed.

Lemma read_in_directory_ledger fuel target d s :
  d ∈ held s → lwp (_read_target_in_directory fuel target d) s (neutral s).
Proof.
  intros Hd. unfold _read_target_in_directory. apply wp_bind. eapply wp_mono.
  { apply lwp_os_is_invalid with (Q := returns_open s); [|done]. act. by destruct a. }
  intros s' [f|x] Hs; [|done]. simpl in Hs. subst s'. apply lwp_finally_close. apply lwp_os_is_invalid; [|done]. unfold os_fstat.
  apply lwp_bind_neutral; [act; apply lwp_os|intros before]. destruct (S_ISREG _); [cbn [negb]|done].
  apply lwp_bind_neutral; [apply read_chunks_ledger, held_add|intros chunks].
  apply lwp_bind_neutral; [act; apply lwp_os|intros after]. destruct (negb _); [done|].
  apply lwp_bind_neutral; [act; apply lwp_os|intros entry]. by destruct (negb _).
Qed.

Lemma read_target_ledger fuel target s : lwp (_read_target fuel target) s (neutral s).
Proof.
  unfold _read_target. apply wp_bind, wp_catch, wp_bind. eapply wp_mono; [apply open_directory_ledger|].
  intros s' [d|x] Hs; simpl in Hs; subst s'.
  - cbn [wp mret prog_ret]. apply lwp_finally_close, lwp_catch_neutral.
    + apply lwp_bind_neutral; [apply read_in_directory_ledger, held_add|done].
    + intros x q Hq. destruct x; simplify_eq. apply lwp_bind_neutral; [apply lwp_envelope|done].
  - destruct (is_os x); [|done]. apply wp_bind. eapply wp_mono; [apply lwp_envelope|]. by intros s' [e|x'] ->.
Qed.

Lemma safe_current_hash_ledger sha fuel target s : lwp (safe_current_hash sha fuel target) s (neutral s).
Proof.
  apply lwp_catch_neutral; [apply lwp_bind_neutral; [apply read_target_ledger|done]|].
  intros x q Hq. destruct (is_os x); by simplify_eq.
Qed.

Lemma write_loop_ledger fuel f content s : f ∈ held s → lwp (write_loop fuel f content) s (neutral s).
Proof.
  intros Hf. revert content. induction fuel as [|fuel IH]; intros [|b content]; cbn [write_loop]; [done..|].
  apply lwp_bind_neutral; [act; apply lwp_os|intros written]. destruct (_ || _); [done|apply IH].
Qed.

Lemma fill_temporary_ledger f content mode s : lwp (fill_temporary f content mode) (add f s) (neutral s).
Proof.
  unfold fill_temporary. apply wp_catch.
  assert (lwp (suppress_os (os_close f)) (add f s) (λ s' r, s' = s ∧ r = Ok tt)) as Hclose.
  { apply wp_catch. eapply wp_mono; [apply lwp_close, held_add|]. intros s' r [-> ->]. split; [apply drop_add|done]. }
  assert (∀ x, lwp (_ ← suppress_os (os_close f); (raise x : prog unit)) (add f s) (neutral s)) as Herr.
  { intros x. apply wp_bind. eapply wp_mono; [exact Hclose|]. by intros s' r [-> ->]. }
  apply wp_bind. eapply wp_mono; [apply write_loop_ledger, held_add|]. intros s' [u|x] ->; [|apply Herr].
  apply wp_bind, (lwp_use _ _ f); [done|apply held_add|]. intros [[]|e] _; cbn [os wp effect]; [|apply Herr].
  apply wp_bind, (lwp_use _ _ f); [done|apply held_add|]. intros [[]|e] _; cbn [os wp effect]; [|apply Herr].
  eapply wp_mono; [apply lwp_close, held_add|]. intros s' r [-> ->]. apply drop_add.
Qed.

Lemma mark_ledger commit c s : lwp (mark commit c) s (neutral s).
Proof. unfold mark. destruct commit; [|done]. act. by destruct a. Qed.

(** Installing gives up the temporary entry or leaves it. *)
Lemma install_ledger sha fuel target d temporary expected content commit s :
  d ∈ held s →
  lwp (install sha fuel target d temporary expected content commit) s
    (λ s' _, s' = s ∨ s' = drop_temp temporary s).
Proof.
  intros Hd. unfold install. assert (d ∈ held (drop_temp temporary s)) as Hd' by done.
  assert (∀ A (p : prog A) (f : A → prog pystr) s', lwp p s' (neutral s') → s' = s ∨ s' = drop_temp temporary s →
    (∀ a, lwp (f a) s' (λ s' _, s' = s ∨ s' = drop_temp temporary s)) →
    lwp (p ≫= f) s' (λ s' _, s' = s ∨ s' = drop_temp temporary s)) as Hbind.
  { intros A p f s' Hp Hs' Hf. apply wp_bind. eapply wp_mono; [exact Hp|]. intros s'' [a|x] ->; auto. }
  apply Hbind; [by apply require_parent_ledger|by left|intros _].
  apply Hbind; [by apply read_in_directory_ledger|by left|intros current].
  destruct (negb _); [by left|]. apply Hbind; [by apply require_parent_ledger|by left|intros _].
  apply wp_bind, (lwp_use _ _ d); [done..|]. intros [u|e] _; [|by left]. cbn [effect os wp].
  apply Hbind; [apply mark_ledger|by right|intros _].
  apply Hbind; [|by right|intros _].
  { apply lwp_catch_neutral; [by apply require_parent_ledger|]. intros x q Hq. destruct x; by simplify_eq. }
  apply Hbind; [|by right|intros _; by right].
  apply lwp_catch_neutral; [by act; apply lwp_os|]. intros x q Hq. destruct (is_os x); by simplify_eq.
Qed.

Lemma atomic_replace_ledger sha fuel target content expected mode commit s :
  temps s = ∅ → lwp (_atomic_replace sha fuel target content expected mode commit) s (neutral s).
Proof.
  intros Ht. unfold _atomic_replace. apply wp_bind. eapply wp_mono; [apply open_directory_ledger|].
  intros s' [d|x] Hs; [|done]. simpl in Hs. subst s'. apply wp_bind, lwp_free; [done|]. intros token _. cbn [wp mret prog_ret effect].
  set (tmp := temporary_name target token). apply wp_finally.
  assert (∀ s' (r : res exn pystr), held s' = held (add d s) → temps s' ∖ {[ tmp ]} = ∅ →
    lwp (_ ← suppress_not_found (Vis (CUnlink d tmp) os); os_close d) s'
      (λ s'' r', match r' with Ok _ => neutral s s'' r | Err x => neutral s s'' (Err x : res exn pystr) end)) as Hlast.
  { intros s' r Hh Htm. apply wp_bind, wp_catch, (lwp_use _ _ d); [done|rewrite Hh; apply held_add|].
    assert (drop_temp tmp s' = add d s) as Hdrop.
    { destruct s as [h t], s' as [h' t']. unfold drop_temp, add in *. simpl in *. f_equal; [done|]. by rewrite Ht. }
    intros a [-> | ->]; cbn [effect os wp is_os]; rewrite Hdrop;
      (eapply wp_mono; [apply lwp_close, held_add|]; intros s'' r' [-> ->]; apply drop_add). }
  apply wp_bind, (lwp_use _ _ d); [done|apply held_add|]. intros [f|e] _; cbn [effect os wp].
  2:{ apply Hlast; [done|]. simpl. rewrite Ht. set_solver. }
  replace (add f (add_temp tmp (add d s))) with (add f (add d (add_temp tmp s))) by done.
  apply wp_bind. eapply wp_mono; [apply fill_temporary_ledger|]. intros s' [u|x] ->.
  2:{ apply Hlast; [done|]. simpl. rewrite Ht. set_solver. }
  eapply wp_mono; [apply install_ledger, held_add|]. intros s' r [-> | ->]; (apply Hlast; [done|]; simpl; rewrite Ht; set_solver).
Qed.

Lemma answer_envelope_ledger {A B} (r : res envelope_error A) (f : A → B) s :
  lwp (a ← lift_envelope r; mret (f a)) s (neutral s).
Proof. apply lwp_bind_neutral; [apply lwp_envelope|done]. Qed.

Section stages.
Context (sha256_hex : list N → pystr).
Context (urlparse : pystr → parsed_uri) (unquote : pystr → pystr) (py_str : pyany → pystr) (as_uri : pystr → pystr).
Context (read_fuel : nat).

Lemma uncertain_ledger target supplied identity old new stage fallback s :
  lwp (_uncertain sha256_hex read_fuel target supplied identity old new stage fallback) s (neutral s).
Proof. apply lwp_bind_neutral; [apply safe_current_hash_ledger|intros observed; apply lwp_envelope]. Qed.

Lemma confirm_stage_ledger target supplied document identity replacement old new changed commit s :
  lwp (confirm_stage sha256_hex read_fuel target supplied document identity replacement old new changed commit) s (neutral s).
Proof.
  apply lwp_bind_neutral; [apply lwp_catch_neutral|intros [n|e]; [|done]].
  - apply lwp_bind_neutral; [|done]. unfold notify_stage, pure. repeat (apply lwp_bind_neutral; [done|intros ?]).
    apply lwp_bind_neutral; [by act|]. by intros [n|].
  - intros x q [= <-]. apply lwp_bind_neutral; [apply uncertain_ledger|done].
  - apply lwp_bind_neutral; [apply mark_ledger|intros _; apply answer_envelope_ledger].
Qed.

Lemma install_stage_ledger target supplied document identity replacement raw mode expected old commit s :
  temps s = ∅ →
  lwp (install_stage sha256_hex read_fuel target supplied document identity replacement raw mode expected old commit) s (neutral s).
Proof.
  intros Ht. apply lwp_bind_neutral; [apply lwp_catch_neutral|intros [h|e]; [apply confirm_stage_ledger|done]].
  - apply lwp_bind_neutral; [by apply atomic_replace_ledger|done].
  - intros x q Hq. destruct x; simplify_eq; try apply answer_envelope_ledger.
    apply lwp_bind_neutral; [apply uncertain_ledger|done].
Qed.

Lemma resolve_stage_ledger target raw name_path s :
  lwp (resolve_stage sha256_hex urlparse unquote py_str as_uri target raw name_path) s (neutral s).
Proof.
  apply lwp_catch_neutral.
  - unfold pure. apply lwp_bind_neutral; [done|intros snap]. apply lwp_bind_neutral; [by act|intros supplied].
    by apply lwp_bind_neutral.
  - intros x q Hq. destruct x; cbn [is_value] in Hq; simplify_eq; apply answer_envelope_ledger.
Qed.

Lemma edit_stage_ledger target name_path body expected commit current s :
  temps s = ∅ →
  lwp (edit_stage sha256_hex urlparse unquote py_str as_uri read_fuel target name_path body expected commit current) s (neutral s).
Proof.
  intros Ht. unfold edit_stage. destruct (negb _); [apply answer_envelope_ledger|].
  apply lwp_bind_neutral; [apply resolve_stage_ledger|intros [[snap [[[[ident a] b] doc] supplied]]|e]; [|done]].
  apply lwp_bind_neutral; [apply read_target_ledger|intros [confirmed|e]; [|done]].
  destruct (negb _); [apply answer_envelope_ledger|].
  apply lwp_bind_neutral; [|intros [bs|e]; [by apply install_stage_ledger|done]].
  apply lwp_catch_neutral; [by apply lwp_bind_neutral|]. intros x q Hq. destruct x; simplify_eq; apply answer_envelope_ledger.
Qed.

Lemma replace_symbol_body_ledger name_path relative_path body expected commit s :
  temps s = ∅ →
  lwp (replace_symbol_body sha256_hex urlparse unquote py_str as_uri read_fuel name_path relative_path body expected commit) s
    (neutral s).
Proof.
  intros Ht. unfold replace_symbol_body.
  destruct relative_path as [path|], body as [text|], expected as [hash|]; try apply answer_envelope_ledger.
  destruct (_ && _); [|apply answer_envelope_ledger].
  apply lwp_bind_neutral; [by act|intros _]. apply wp_finally. eapply wp_mono with (Q := neutral s).
  - apply lwp_bind_neutral; [|intros [target|e]; [|done]].
    + apply lwp_catch_neutral.
      * apply lwp_bind_neutral; [by act|]. intros [t|]; [done|apply answer_envelope_ledger].
      * intros x q Hq. destruct x; simplify_eq. apply answer_envelope_ledger.
    + destruct (negb _); [apply answer_envelope_ledger|].
      apply lwp_bind_neutral; [apply read_target_ledger|intros [current|e]; [by apply edit_stage_ledger|done]].
  - intros s' r ->. by act.
Qed.
End stages.
End Ledger.

(** ** The order of reads, writes, rename, marks and notification *)

Module Install.

Record ghost := {
  g_seen : bytes;                          (** read since the target was last opened *)
  g_written : bytes;                       (** accepted by the temporary file *)
  g_flushed : bool;                        (** flushed since the last write *)
  g_installed : option (bytes * bytes);    (** what was written and seen when the rename succeeded *)
  g_log : list (commit_call + ReplacementNotification);    (** the marks and notifications, in order *)
}.
Definition start : ghost := {| g_seen := []; g_written := []; g_flushed := false; g_installed := None; g_log := [] |}.

Definition g_marks (g : ghost) : list commit_call := omap (M:=list) (λ x, match x with inl c => Some c | inr _ => None end) (g_log g).

Definition see (b : bytes) (g : ghost) : ghost :=
  {| g_seen := b; g_written := g_written g; g_flushed := g_flushed g; g_installed := g_installed g; g_log := g_log g |}.
Definition writes (b : bytes) (flushed : bool) (g : ghost) : ghost :=
  {| g_seen := g_seen g; g_written := b; g_flushed := flushed; g_installed := g_installed g; g_log := g_log g |}.
Definition installs (g : ghost) : ghost :=
  {| g_seen := g_seen g; g_written := g_written g; g_flushed := g_flushed g; g_installed := Some (g_written g, g_seen g);
     g_log := g_log g |}.
Definition logs (x : commit_call + ReplacementNotification) (g : ghost) : ghost :=
  {| g_seen := g_seen g; g_written := g_written g; g_flushed := g_flushed g; g_installed := g_installed g;
     g_log := g_log g ++ [x] |}.

Definition is_installed (g : ghost) : bool := match g_installed g with Some _ => true | None => false end.
Definition when (b : bool) (g : ghost) : option ghost := if b then Some g else None.

(** Rejected: a write or a second rename after the rename, a rename of bytes
    that are not flushed, a mark or a notification before the rename. *)
Definition step (c : call) : answer c → ghost → option ghost :=
  match c with
  | COpenEntry _ _ => λ _ g, Some (see [] g)
  | CRead _ => λ r g, match r with Ok chunk => Some (see (g_seen g ++ chunk) g) | Err _ => Some g end
  | COpenTemporary _ _ => λ _ g, when (negb (is_installed g)) (writes [] false g)
  | CWrite _ data => λ r g,
      match r with
      | Ok n => when (negb (is_installed g)) (writes (g_written g ++ take (Z.to_nat n) data) false g)
      | Err _ => Some g
      end
  | CFlush _ => λ r g, match r with Ok _ => Some (writes (g_written g) true g) | Err _ => Some g end
  | CReplace _ _ _ => λ r g,
      match r with Ok _ => when (negb (is_installed g) && g_flushed g) (installs g) | Err _ => Some g end
  | CMark c => λ _ g, when (is_installed g) (logs (inl c) g)
  | CNotify n => λ _ g, when (is_installed g) (logs (inr n) g)
  | _ => λ _ g, Some g
  end.

(** No assumption on the answers. *)
Definition calm (c : call) (a : answer c) : Prop := True.
Abbreviation iwp := (wp calm step).

Lemma iwp_quiet {A} E (p : prog A) g :
  within walks E p → iwp p g (λ g' r, g' = g ∧ match r with Ok _ => True | Err x => E x end).
Proof. intros Hp. apply (within_silent calm step walks); [done|]. intros c Hc a s _. by destruct c. Qed.

(** A reading program changes only what was seen. *)
Lemma iwp_reads {A} E (p : prog A) g :
  within reads E p → iwp p g (λ g' r, (∃ b, g' = see b g) ∧ match r with Ok _ => True | Err x => E x end).
Proof.
  intros Hp. assert (g = see (g_seen g) g) as Hg by by destruct g. rewrite Hg at 1. generalize (g_seen g) as b.
  clear Hg. induction p as [[a|x]|c k IH]; intros b; simpl in Hp |- *; [by eauto..|]. destruct Hp as [Hc Hk].
  intros a _. assert (∃ b', step c a (see b g) = Some (see b' g)) as [b' ->]; [|eexists; split; [done|by apply IH]].
  destruct c; try done; simpl in a |- *; try (by eexists). destruct a; by eexists.
Qed.

Lemma read_chunks_seen fuel f b g :
  iwp (read_chunks fuel f) (see b g)
    (λ g' r, match r with Ok chunks => g' = see (b ++ concat chunks) g 
             | Err x => (∃ b', g' = see b' g) ∧ (only_os x ∨ x = XOutOfFuel) end).
Proof.
  revert b. induction fuel as [|fuel IH]; intros b; cbn [read_chunks]; [split; [by exists b|by right]|]. apply wp_bind. intros [chunk|e] _.
  - exists (see (b ++ chunk) g). split; [done|]. cbn [os wp]. destruct (nonempty chunk) eqn:Hc.
    + apply wp_bind. eapply wp_mono; [apply IH|]. intros g' [rest|x] Hr; [|done]. simpl. rewrite Hr. f_equal. by rewrite app_assoc.
    + destruct chunk; [|done]. simpl. done.
  - exists (see b g). split; [done|]. split; [by exists b|left; by eexists].
Qed.

(** The bytes of a snapshot are what was read since the entry was opened. *)
Lemma read_in_directory_seen fuel target d g :
  iwp (_read_target_in_directory fuel target d) g
    (λ g' r, match r with
             | Ok s => g' = see (ts_raw_bytes s) g
             | Err x => (∃ b, g' = see b g) ∧ read_exn x
             end).
Proof.
  unfold _read_target_in_directory. apply wp_bind. eapply wp_mono with
    (Q := λ g' r, g' = see [] g ∧ match r with Ok _ => True | Err x => x = XInvalidTarget end).
  { apply wp_catch. intros [f|e] _; (exists (see [] g); split; [done|]; done). }
  intros g' [f|x] [-> Hx]; [|subst x; split; [by eexists|left; by right]]. apply wp_finally.
  eapply wp_mono with (Q := λ g' r, match r with
     | Ok s => g' = see (ts_raw_bytes s) g | Err x => (∃ b, g' = see b g) ∧ read_exn x end).
  2:{ intros g' r Hr [[]|e] _; exists g'; (split; [done|]); [done|]. simpl. split; [|left; left; by eexists].
      destruct r; [by eexists|by destruct Hr]. }
  assert (∀ b, (∃ b', see b g = see b' g) ∧ read_exn XInvalidTarget) as Hinv by (intros b; split; [by eexists|left; by right]).
  apply wp_catch. unfold os_fstat. apply wp_bind. intros [before|e] _; (exists (see [] g); split; [done|]); cbn [os wp is_os]; [|apply Hinv].
  destruct (S_ISREG _); cbn [negb]; [|apply Hinv]. apply wp_bind. eapply wp_mono.
  { apply (read_chunks_seen fuel f [] g). }
  intros g' [chunks|x] Hc; simpl in Hc.
  2:{ destruct Hc as [[b ->] [[e ->]| ->]]; simpl; [apply Hinv|]. split; [by eexists|by right]. }
  subst g'. apply wp_bind. intros [after|e] _; (exists (see (concat chunks) g); split; [done|]); cbn [os wp is_os]; [|apply Hinv].
  destruct (negb _); [apply Hinv|]. apply wp_bind.
  intros [entry|e] _; (exists (see (concat chunks) g); split; [done|]); cbn [os wp is_os]; [|apply Hinv].
  destruct (negb _); [apply Hinv|done].
Qed.
(** Every turn makes progress, so the fuel never runs out. *)
Lemma write_loop_written fuel f content b fl g :
  (length content ≤ fuel)%nat → g_installed g = None →
  iwp (write_loop fuel f content) (writes b fl g)
    (λ g' r, match r with
             | Ok _ => ∃ fl', g' = writes (b ++ content) fl' g
             | Err x => (∃ b' fl', g' = writes b' fl' g) ∧ only_os x
             end).
Proof.
  intros Hfuel Hg. revert content b fl Hfuel. induction fuel as [|fuel IH]; intros [|x content] b fl Hfuel; cbn [write_loop];
    [rewrite app_nil_r; by eexists|simpl in Hfuel; lia|rewrite app_nil_r; by eexists|].
  apply wp_bind. intros [n|e] _; cbn [step].
  - unfold is_installed. cbn [g_installed writes]. rewrite Hg. eexists. split; [reflexivity|]. cbn [os wp].
    destruct (bool_decide (n ≤ 0)) eqn:Hn; [|destruct (bool_decide (Z.of_nat (length (x :: content)) < n)) eqn:Hlen]; cbn [orb].
    1,2: unfold raise; cbn [wp]; split; [do 2 eexists; reflexivity|by eexists].
    apply bool_decide_eq_false in Hn, Hlen. eapply wp_mono; [apply IH; rewrite length_drop; cbn [length] in *; lia|].
    intros g' [u|y]; [|done]. intros [fl' ->]. exists fl'. unfold writes. simpl. f_equal. rewrite <-app_assoc. f_equal. apply take_drop.
  - eexists. split; [done|]. split; [by do 2 eexists|by eexists].
Qed.

Lemma fill_temporary_written f content mode b fl g :
  b = [] → g_installed g = None →
  iwp (fill_temporary f content mode) (writes b fl g)
    (λ g' r, match r with
             | Ok _ => g' = writes content true g
             | Err x => (∃ b' fl', g' = writes b' fl' g) ∧ only_os x
             end).
Proof.
  intros -> Hg. unfold fill_temporary. apply wp_catch.
  assert (∀ g' x, (∃ b' fl', g' = writes b' fl' g) → only_os x →
    iwp (_ ← suppress_os (os_close f); (raise x : prog unit)) g'
      (λ g' r, match r with Ok _ => g' = writes content true g | Err x => (∃ b' fl', g' = writes b' fl' g) ∧ only_os x end)) as Herr.
  { intros g' x Hg' Hx. intros a _. exists g'. split; [done|]. by destruct a. }
  apply wp_bind. eapply wp_mono; [by apply write_loop_written|]. intros g' [u|x]; [|intros [Hg' Hx]; by apply Herr].
  intros [fl' ->]. apply wp_bind. intros [[]|e] _; (eexists; split; [done|]); cbn [os wp];
    [|apply Herr; [by do 2 eexists|by eexists]].
  apply wp_bind. intros [[]|e] _; (eexists; split; [done|]); cbn [os wp]; [|apply Herr; [by do 2 eexists|by eexists]].
  intros [[]|e] _; (eexists; split; [done|]); cbn [os wp]; [done|apply Herr; [by do 2 eexists|by eexists]].
Qed.

(** Nothing is installed, marked or notified. *)
Definition untouched (g : ghost) : Prop := g_installed g = None ∧ g_log g = [].

(** What a program that may install leaves behind: [pre] when it did not,
    [post] when the bytes [content] went in over [expected]. *)
Definition outcome {A} (content expected : bytes) (pre : res exn A → Prop)
    (post : list (commit_call + ReplacementNotification) → res exn A → Prop) (g : ghost) (r : res exn A) : Prop :=
  untouched g ∧ pre r ∨ g_installed g = Some (content, expected) ∧ post (g_log g) r.

Lemma untouched_see b g : untouched g → untouched (see b g).
Proof. done. Qed.
Lemma untouched_writes b fl g : untouched g → untouched (writes b fl g).
Proof. done. Qed.

Definition marked (commit : bool) (c : commit_call) : list (commit_call + ReplacementNotification) :=
  if commit then [inl c] else [].

Definition not_installed_result {A} (r : res exn A) : Prop :=
  match r with Ok _ | Err (XInstalledUncertain _) => False | Err _ => True end.
Definition installed_result (h : pystr) (r : res exn pystr) : Prop :=
  match r with
  | Ok h' => h' = h
  | Err XInvalidTarget | Err (XConcurrentChange _) => False
  | Err _ => True
  end.

Definition replaced (sha : bytes → pystr) (commit : bool) (content expected : bytes) : ghost → res exn pystr → Prop :=
  outcome content expected not_installed_result
    (λ log r, log = marked commit MarkInstalled ∧ installed_result (sha content) r).

(** An [OSError] of the cleanup replaces the result and leaves the outcome. *)
Lemma replaced_os sha commit content expected g r e :
  replaced sha commit content expected g r → replaced sha commit content expected g (Err (XOs e)).
Proof. intros [[? _]|(? & ? & _)]; [by left|by right]. Qed.

Lemma mark_marks commit c g :
  is_installed g = true →
  iwp (mark commit c) g (λ g' r, g' = (if commit then logs (inl c) g else g) ∧ match r with Ok _ => True | Err x => x = XOther end).
Proof.
  intros Hg. unfold mark. destruct commit; [|done]. intros a _. eexists. split; [simpl; by rewrite Hg|]. by destruct a.
Qed.

Lemma install_outcome sha fuel target d temporary expected content commit g :
  untouched g → g_written g = content → g_flushed g = true →
  iwp (install sha fuel target d temporary expected content commit) g
    (replaced sha commit content expected).
Proof.
  intros Hg Hw Hf. unfold install.
  assert (∀ g' x, untouched g' → read_exn x → replaced sha commit content expected g' (Err x)) as Hpre.
  { intros g' x Hg' Hx. left. split; [done|]. destruct Hx as [[[e ->]| ->]| ->]; done. }
  apply wp_bind. eapply wp_mono; [apply iwp_quiet, require_parent_within|].
  intros g' [[]|x] [-> Hx]; [clear Hx|by apply Hpre; [|left]].
  apply wp_bind. eapply wp_mono; [apply read_in_directory_seen|]. intros g' [current|x] Hcur.
  2:{ destruct Hcur as [[b ->] Hx]. by apply Hpre. }
  subst g'. case_bool_decide as Heq; cbn [negb]; [|by left]. rewrite Heq.
  apply wp_bind. eapply wp_mono; [apply iwp_quiet, require_parent_within|].
  intros g' [[]|x] [-> Hx]; [|by apply Hpre; [|left]].
  apply wp_bind. intros [u|e] _; cbn [step].
  2:{ eexists. split; [done|]. by left. }
  destruct Hg as (Hi & Hm). unfold is_installed. cbn [g_installed see g_flushed]. rewrite Hi, Hf. cbn [negb andb when].
  eexists. split; [done|]. cbn [os wp]. set (g1 := installs (see expected g)).
  assert (g_installed g1 = Some (content, expected)) as Hi1 by (simpl; by rewrite Hw).
  apply wp_bind. eapply wp_mono; [by apply mark_marks|]. intros g' r [Hg' Hr].
  assert (g_installed g' = Some (content, expected) ∧ g_log g' = marked commit MarkInstalled) as Hpost.
  { subst g'. destruct commit; simpl; rewrite ?Hm, ?Hw; done. }
  destruct Hpost as (HI & HM). clear Hg'. destruct r as [[]|x]; [|subst x; by right].
  apply wp_bind, wp_catch. eapply wp_mono; [apply iwp_quiet, require_parent_within|]. intros g'' [[]|x] [-> Hp].
  2:{ destruct Hp as [[e ->]| ->]; by right. }
  apply wp_bind, wp_catch. intros [[]|e] _; (eexists; split; [done|]); by right.
Qed.

Lemma atomic_replace_outcome sha fuel target content expected mode commit g :
  untouched g →
  iwp (_atomic_replace sha fuel target content expected mode commit) g
    (replaced sha commit content expected).
Proof.
  intros Hg. unfold _atomic_replace. apply wp_bind. eapply wp_mono; [apply iwp_quiet, open_target_directory_within|].
  intros g' [d|x] [-> Hx]; [|destruct Hx as [e ->]; by left].
  apply wp_bind. intros token _. exists g. split; [done|]. cbn [wp mret prog_ret]. set (tmp := temporary_name target token).
  apply wp_finally. eapply wp_mono with (Q := replaced sha commit content expected).
  - apply wp_bind. destruct Hg as (Hi & Hm). intros [f|e] _; cbn [step]; unfold is_installed; rewrite Hi; cbn [negb when];
      (eexists; split; [done|]); cbn [os wp]; [|by left].
    apply wp_bind. eapply wp_mono; [by apply fill_temporary_written|]. intros g' [[]|x] Hf.
    + subst g'. by apply install_outcome.
    + destruct Hf as [(b & fl & ->) [e ->]]. by left.
  - intros g' r Hr. apply wp_bind, wp_catch. intros a _. exists g'. split; [done|].
    assert (iwp (os_close d) g' (λ s'' r', match r' with Ok _ => replaced sha commit content expected s'' r
      | Err x => replaced sha commit content expected s'' (Err x) end)) as Hclose.
    { intros [[]|e] _; exists g'; (split; [done|]); [done|by eapply replaced_os]. }
    destruct a as [[]|[]]; [exact Hclose|by eapply replaced_os|exact Hclose].
Qed.
End Install.
