(* ===== verification/EditingProps.v ===== *)
(** * What a symbol replacement guarantees

    Theorems about every execution of [replace_symbol_body]: which bytes are
    installed and when, what each reply says about the file, how the commit
    marks follow the rename, and which descriptors and temporary entries are
    left. *)

From stdpp Require Import gmultiset.
From S2P Require Import Prelude Json Paths Positions Scope Envelopes Normalize Navigation Executor Editing EditLogic.
Import Install.

(** ** Codes of the errors that are answered before the rename *)

Lemma error_code code retry details w a g e : error code retry details w a g = Ok e → er_code e = code ∧ er_retry e = retry.
Proof.
  unfold error, error_envelope_init. intros H. destruct (ensure _ _); [|done]. cbn [mbind res_bind] in H.
  destruct (ensure _ _); [|done]. cbn [mbind res_bind] in H. destruct (_json_value _) as [j|]; [|done].
  cbn [mbind res_bind] in H. destruct j; by simplify_eq.
Qed.

Lemma find_symbol_code sha d name_path sub ib ii mx emx e :
  find_symbol sha d name_path sub ib ii mx emx = Ok (inr e) → er_code e ≠ UNCERTAIN.
Proof.
  assert (∀ code details, code ≠ UNCERTAIN → document_error d code details = Ok (inr e) → er_code e ≠ UNCERTAIN) as Hcode.
  { intros code details Hc (e' & [= ->] & ->)%document_error_spec. done. }
  unfold find_symbol, _invalid_bounds. intros H.
  destruct (_parse_name_path _); [|by eapply Hcode; [|exact H]]. destruct (_ || _); [by eapply Hcode; [|exact H]|].
  destruct (matching_symbols _ _ _) as [|s [|s' ms]]; [by eapply Hcode; [|exact H]| |].
  - destruct (ib && _); [by eapply Hcode; [|exact H]|]. destruct (lift_position _); [|done]. cbn [mbind res_bind] in H.
    destruct (bool_decide _); [by eapply Hcode; [|exact H]|]. unfold lift_success in H. by destruct (success _ _ _ _ _).
  - destruct (lift_position _); [|done]. cbn [mbind res_bind] in H. destruct (_bounded_candidates _ _).
    by eapply Hcode; [|exact H].
Qed.

Lemma workspace_error_code_certain d e : from_workspace_error d = Ok e → er_code e ≠ UNCERTAIN.
Proof.
  unfold from_workspace_error. intros H. destruct (match wd_current_identity d with Some _ => _ | None => _ end); [|done].
  cbn [mbind res_bind] in H. apply error_code in H as [-> _]. by destruct (wd_code d).
Qed.

(** ** Outcomes of the stages *)

Section outcomes.
Context (sha256_hex : list N → pystr).
Context (urlparse : pystr → parsed_uri) (unquote : pystr → pystr) (py_str : pyany → pystr) (as_uri : pystr → pystr).
Context (read_fuel : nat).

Abbreviation resolve_unique := (_resolve_unique_symbol sha256_hex urlparse unquote py_str as_uri).

(** A reply that leaves the file alone. *)
Definition declined {A} (r : res exn (A + ErrorEnvelope)) : Prop :=
  match r with Ok (inr e) => er_code e ≠ UNCERTAIN | _ => True end.
Definition reply_declined (r : res exn reply) : Prop := match r with Ok (inl _) => False | _ => declined r end.

(** The fields of a success. *)
Definition success_data (target : AuthorizedEdit) (old new : pystr) (identity : list (pystr * json)) (n : NotificationResult) : json :=
  JObj [(lit "relative_path", JStr (ae_relative_path target)); (lit "old_hash", JStr old); (lit "new_hash", JStr new);
        (lit "symbol", JObj identity); (lit "file_generation", JInt (nr_file_generation n));
        (lit "notification_state", JStr (nr_state n))].

(** The marks and notifications after the rename: marked installed, told the new hash, marked done. *)
Definition told (target : AuthorizedEdit) (old new : pystr) (n : ReplacementNotification) : Prop :=
  rn_old_hash n = old ∧ rn_new_hash n = new ∧ rn_path n = ae_path target.
Definition follow_up (commit : bool) (notes : list ReplacementNotification) (done : bool) : list (commit_call + ReplacementNotification) :=
  marked commit MarkInstalled ++ (inr <$> notes) ++ (if done then marked commit MarkDone else []).

(** What was marked, notified and answered once the bytes are in. *)
Definition confirmed (target : AuthorizedEdit) (old new : pystr) (identity : list (pystr * json)) (commit : bool)
    (log : list (commit_call + ReplacementNotification)) (r : res exn reply) : Prop :=
  ∃ notes done, log = follow_up commit notes done ∧ (length notes ≤ 1)%nat ∧ (done = true → length notes = 1%nat) ∧
  Forall (told target old new) notes ∧
  match r with
  | Ok (inl env) => done = true ∧ ∃ n, _json_value (any_of_json (success_data target old new identity n)) = Ok (sv_data env)
  | Ok (inr e) => done = false ∧ er_code e = UNCERTAIN ∧ er_retry e = Some not_retryable
  | Err _ => True
  end.

Lemma uncertain_outcome target supplied identity old new stage fallback g :
  iwp (_uncertain sha256_hex read_fuel target supplied identity old new stage fallback) g
    (λ g' r, (∃ b, g' = see b g) ∧ match r with Ok e => er_code e = UNCERTAIN ∧ er_retry e = Some not_retryable | Err _ => True end).
Proof.
  apply wp_bind. eapply wp_mono; [apply iwp_reads, safe_current_hash_within|]. intros g' [observed|x] [Hb _]; [|done].
  unfold lift_envelope. destruct (error _ _ _ _ _ _) as [e|] eqn:He; cbn [wp]; [|done]. by apply error_code in He.
Qed.

Lemma confirm_stage_outcome target supplied document identity replacement old new changed commit g content raw :
  g_installed g = Some (content, raw) → g_log g = marked commit MarkInstalled →
  iwp (confirm_stage sha256_hex read_fuel target supplied document identity replacement old new changed commit) g
    (λ g' r, g_installed g' = Some (content, raw) ∧ confirmed target old new identity commit (g_log g') r).
Proof.
  intros Hi Hm. unfold confirm_stage.
  set (noted ns g' := g_installed g' = Some (content, raw) ∧ g_log g' = follow_up commit ns false ∧ Forall (told target old new) ns).
  set (unsaid r := match r : res exn (NotificationResult + ErrorEnvelope) with
    | Ok (inl _) => False | Ok (inr e) => er_code e = UNCERTAIN ∧ er_retry e = Some not_retryable | Err _ => True end).
  assert (∀ ns g', noted ns g' → iwp (e ← _uncertain sha256_hex read_fuel target supplied identity old new (lit "notification") (Some changed);
      (mret (inr e) : prog (NotificationResult + ErrorEnvelope))) g' (λ g'' r, noted ns g'' ∧ unsaid r)) as Hunc.
  { intros ns g' Hg'. apply wp_bind. eapply wp_mono; [apply uncertain_outcome|]. intros g'' r [[b ->] Hr]. by destruct r. }
  apply wp_bind. eapply wp_mono with (Q := λ g' r, ∃ ns, noted ns g' ∧ (length ns ≤ 1)%nat ∧
    match r with Ok (inl _) => length ns = 1%nat | _ => unsaid r end).
  - assert (noted [] g) as Hg by (split_and!; [done|by rewrite Hm; unfold follow_up; rewrite app_nil_r|done]).
    apply wp_catch, wp_bind. unfold notify_stage, pure. apply wp_bind. cbn [wp].
    assert (∀ ns g' x, noted ns g' → (length ns ≤ 1)%nat →
      iwp (default (Done (Err x)) (Some (e ← _uncertain sha256_hex read_fuel target supplied identity old new (lit "notification") (Some changed);
      (mret (inr e) : prog (NotificationResult + ErrorEnvelope))))) g' (λ g'' r, ∃ ns, noted ns g'' ∧ (length ns ≤ 1)%nat ∧
        match r with Ok (inl _) => length ns = 1%nat | _ => unsaid r end)) as Hh.
    { intros ns g' x Hg' Hlen. eapply wp_mono; [by apply Hunc|]. intros g'' [[]|] []; by exists ns. }
    destruct (from_bytes replacement) as [snap|]; [|by apply (Hh [] g XPosition); [|simpl; lia]]. apply wp_bind. cbn [wp].
    destruct (dict_get identity _) as [v|]; [|by apply (Hh [] g XOther); [|simpl; lia]]. apply wp_bind. intros a _. cbn [step].
    unfold is_installed. rewrite Hi. cbn [when]. eexists. split; [done|]. cbn [wp].
    assert (∀ n, told target old new n → noted [n] (logs (inr n) g)) as Hnoted.
    { intros n Hn. split_and!; [done| |by apply Forall_singleton]. simpl. rewrite Hm. unfold follow_up. by rewrite app_nil_r. }
    destruct a as [[n|]|x]; cbn [wp].
    + eexists. split_and!; [apply Hnoted; by repeat split|simpl; lia|done].
    + eapply (Hh _ _ XType); [apply Hnoted; by repeat split|simpl; lia].
    + eapply (Hh _ _ x); [apply Hnoted; by repeat split|simpl; lia].
  - intros g' r (ns & (HI & HL & Hall) & Hlen & Hr).
    assert (∀ r', match r' with Ok (inl _) => False | Ok (inr e) => er_code e = UNCERTAIN ∧ er_retry e = Some not_retryable | Err _ => True end →
      confirmed target old new identity commit (g_log g') r') as Hplain.
    { intros r' Hr'. exists ns, false. split_and!; [done..|]. by destruct r' as [[]|]. }
    destruct r as [[n|e]|x]; cbn [wp]; [|split; [done|by apply Hplain]..].
    apply wp_bind. eapply wp_mono; [apply mark_marks; unfold is_installed; by rewrite HI|]. intros g'' r [-> Hrr].
    assert (g_installed (if commit then logs (inl MarkDone) g' else g') = Some (content, raw)) as HI' by (by destruct commit).
    assert (∀ r', match r' with Ok (inl env) => ∃ n, _json_value (any_of_json (success_data target old new identity n)) = Ok (sv_data env)
        | Ok (inr _) => False | Err _ => True end →
      confirmed target old new identity commit (g_log (if commit then logs (inl MarkDone) g' else g')) r') as Hdone.
    { intros r' Hr'. exists ns, true. split_and!; [|done..|by destruct r' as [[]|]].
      destruct commit; simpl; rewrite HL; unfold follow_up; simpl; by rewrite ?app_nil_r. }
    destruct r as [[]|x]; [|split; [done|by apply Hdone]].
    apply wp_bind. unfold lift_envelope. destruct (success _ _ _ _ _) as [env|] eqn:Henv; cbn [wp]; (split; [done|]); apply Hdone; [|done].
    exists n. unfold success in Henv. destruct (_json_value _) as [j|] eqn:Hj in Henv; [|done]. cbn [mbind res_bind] in Henv.
    simplify_eq. exact Hj.
Qed.
(** An error that is built before the rename. *)
Lemma declined_envelope {A} code retry details w a g' g :
  code ≠ UNCERTAIN → untouched g →
  iwp (e ← lift_envelope (error code retry details w a g'); (mret (inr e) : prog (A + ErrorEnvelope))) g
    (λ g'' r, g'' = g ∧ match r with Ok (inl _) => False | _ => declined r end).
Proof.
  intros Hc Hg. apply wp_bind. unfold lift_envelope. destruct (error _ _ _ _ _ _) as [e|] eqn:He; cbn [wp]; [|done].
  split; [done|]. simpl. by apply error_code in He as [-> _].
Qed.

Lemma declined_workspace {A} d g :
  iwp (e ← lift_envelope (from_workspace_error d); (mret (inr e) : prog (A + ErrorEnvelope))) g
    (λ g'' r, g'' = g ∧ match r with Ok (inl _) => False | _ => declined r end).
Proof.
  apply wp_bind. unfold lift_envelope. destruct (from_workspace_error d) as [e|] eqn:He; cbn [wp]; [|done].
  split; [done|]. simpl. by eapply workspace_error_code_certain.
Qed.

Definition answered (target : AuthorizedEdit) (old new : pystr) (identity : list (pystr * json)) (commit : bool)
    (content raw : bytes) : ghost → res exn reply → Prop :=
  outcome content raw reply_declined (confirmed target old new identity commit).

Lemma install_stage_outcome target supplied document identity replacement raw mode expected old commit g :
  untouched g →
  iwp (install_stage sha256_hex read_fuel target supplied document identity replacement raw mode expected old commit) g
    (answered target old (sha256_hex replacement) identity commit replacement raw).
Proof.
  intros Hg. unfold install_stage. cbn zeta. apply wp_bind, wp_catch, wp_bind.
  eapply wp_mono; [by apply atomic_replace_outcome|]. intros g' r [[Hu Hr]|(Hi & Hm & Hr)].
  - destruct r as [h|x]; [done|].
    destruct x; try done; try (by left); (eapply wp_mono; [by apply declined_envelope|]; intros g'' [[]|] [-> Hd]; by left).
  - assert (∀ (b : bytes) (r : res exn reply),
      match r with Ok (inl _) => False | Ok (inr e) => er_code e = UNCERTAIN ∧ er_retry e = Some not_retryable | Err _ => True end →
      answered target old (sha256_hex replacement) identity commit replacement raw (see b g') r) as Herr.
    { intros b r' Hr'. right. split; [done|]. exists [], false. cbn [see g_log]. rewrite Hm. unfold follow_up. simpl.
      rewrite app_nil_r. split_and!; [done|lia|done|done|by destruct r' as [[]|]]. }
    assert (see (g_seen g') g' = g') as Hsee by by destruct g'.
    destruct r as [h|x].
    + cbn [wp mret prog_ret]. eapply wp_mono; [by apply confirm_stage_outcome|]. intros g'' r [HI HC]. by right.
    + destruct x as [| | |stage| | | | | | | |]; try done; try (rewrite <-Hsee; by apply Herr).
      cbn [wp]. apply wp_bind. eapply wp_mono; [apply uncertain_outcome|]. intros g'' [e|x'] [[b ->] He]; by apply Herr.
Qed.

(** Why these bytes: the file had the expected hash, the symbol was resolved
    uniquely in it, and its bytes were exchanged for the body. *)
Definition justified (name_path : name_path_arg) (body expected : pystr) (commit : bool) (g : ghost) (r : res exn reply) : Prop :=
  ∃ target snap supplied identity start stop document raw content,
    g_installed g = Some (content, raw) ∧ sha256_hex raw = expected ∧ from_bytes raw = Ok snap ∧
    resolve_unique target snap (Some supplied) name_path = Ok (inl (identity, start, stop, document, supplied)) ∧
    _replacement_bytes snap body start stop = Ok content ∧
    confirmed target (sha256_hex raw) (sha256_hex content) identity commit (g_log g) r.

Definition edit_outcome (name_path : name_path_arg) (body expected : pystr) (commit : bool) (g : ghost) (r : res exn reply) : Prop :=
  untouched g ∧ reply_declined r ∨ justified name_path body expected commit g r.

Lemma resolve_stage_outcome target raw name_path g :
  untouched g →
  iwp (resolve_stage sha256_hex urlparse unquote py_str as_uri target raw name_path) g
    (λ g' r, g' = g ∧ match r with
      | Ok (inl (snap, (identity, a, b, document, supplied))) => from_bytes raw = Ok snap ∧
          resolve_unique target snap (Some supplied) name_path = Ok (inl (identity, a, b, document, supplied))
      | Ok (inr e) => er_code e ≠ UNCERTAIN
      | Err _ => True
      end).
Proof.
  intros Hg. unfold resolve_stage. apply wp_catch.
  eapply wp_mono with (Q := λ g' r, g' = g ∧ match r with
      | Ok (inl (snap, (identity, a, b, document, supplied))) => from_bytes raw = Ok snap ∧
          resolve_unique target snap (Some supplied) name_path = Ok (inl (identity, a, b, document, supplied))
      | Ok (inr e) => er_code e ≠ UNCERTAIN
      | Err _ => True
      end).
  - unfold pure. apply wp_bind. cbn [wp]. destruct (from_bytes raw) as [snap|] eqn:Hs; [|done].
    apply wp_bind. intros supplied _. exists g. split; [done|]. cbn [wp]. destruct supplied as [supplied|]; [|done].
    apply wp_bind. cbn [wp].
    destruct (_resolve_unique_symbol _ _ _ _ _ _ _ _ _) as [[[[[[ident a] b] doc] sup]|e]|x] eqn:Hr; [| |done].
    + split; [done|]. split; [done|]. enough (supplied = Some sup) as -> by done.
      clear - Hr. unfold _resolve_unique_symbol in Hr. destruct supplied as [supplied|]; [|done].
      repeat (apply res_bind_Ok in Hr as (? & _ & Hr)). case_match; [|done].
      case_match; [|done]. case_match; try done. case_match; [|done]. case_match; try done.
      repeat (apply res_bind_Ok in Hr as (? & _ & Hr)). by simplify_eq.
    + split; [done|]. simpl. clear - Hr. unfold _resolve_unique_symbol in Hr. destruct supplied as [supplied|]; [|done].
      apply res_bind_Ok in Hr as (? & _ & Hr). apply res_bind_Ok in Hr as (doc & _ & Hr).
      apply res_bind_Ok in Hr as (result & Hf & Hr). destruct result as [env|e'].
      * case_match; [|done]. case_match; try done. case_match; [|done]. case_match; try done.
        repeat (apply res_bind_Ok in Hr as (? & _ & Hr)). done.
      * simplify_eq. unfold lift_nav in Hf. destruct (find_symbol _ _ _ _ _ _ _ _) eqn:Hfs; [|done]. simplify_eq.
        by eapply find_symbol_code.
  - intros g' [v|x] [-> Hv]; [done|]. destruct x; cbn [is_value]; try done;
      (eapply wp_mono; [first [apply declined_workspace|by apply declined_envelope]|]; intros g'' [[]|] [-> Hd]; done).
Qed.
Lemma read_target_outcome target g :
  untouched g → iwp (_read_target read_fuel target) g (λ g' r, untouched g' ∧ declined r).
Proof.
  intros Hg. unfold _read_target. apply wp_bind, wp_catch, wp_bind.
  eapply wp_mono; [apply iwp_quiet, open_target_directory_within|]. intros g' [d|x] [-> Hx].
  - cbn [wp mret prog_ret]. apply wp_finally. eapply wp_mono with (Q := λ g' r, untouched g' ∧ declined r).
    + apply wp_catch, wp_bind. eapply wp_mono; [apply iwp_reads, read_target_in_directory_within|].
      intros g' [s|x] [[b ->] Hs]; [done|]. destruct x; try done.
    + intros g' r [Hg' Hr] [[]|e] _; exists g'; done.
  - destruct Hx as [e ->]. cbn [is_os]. eapply wp_mono; [by apply declined_envelope|]. intros g'' [[]|] [-> Hd]; done.
Qed.

Lemma splice_stage_outcome target supplied snap body a b g :
  untouched g →
  iwp (splice_stage target supplied snap body a b) g
    (λ g' r, g' = g ∧ match r with Ok (inl content) => _replacement_bytes snap body a b = Ok content | _ => declined r end).
Proof.
  intros Hg. unfold splice_stage, pure. apply wp_catch, wp_bind. cbn [wp].
  destruct (_replacement_bytes snap body a b) as [content|x]; [done|].
  destruct x; try done; (eapply wp_mono; [by apply declined_envelope|]; intros g'' [[]|] [-> Hd]; done).
Qed.

Lemma edit_stage_outcome target name_path body expected commit current g :
  untouched g →
  iwp (edit_stage sha256_hex urlparse unquote py_str as_uri read_fuel target name_path body expected commit current) g
    (edit_outcome name_path body expected commit).
Proof.
  intros Hg. unfold edit_stage. cbn zeta. case_bool_decide as Hhash; cbn [negb].
  2:{ eapply wp_mono; [by apply declined_envelope|]. intros g' r [-> Hr]. by left. }
  apply wp_bind. eapply wp_mono; [by apply resolve_stage_outcome|].
  intros g' [[[snap [[[[ident a] b] doc] supplied]]|e]|x] [-> Hr]; [|by left..]. destruct Hr as [Hsnap Hres].
  apply wp_bind. eapply wp_mono; [by apply read_target_outcome|].
  intros g' [[conf|e]|x] [Hg' Hd]; [|by left..]. case_bool_decide as Hsame; cbn [negb].
  2:{ eapply wp_mono; [by apply declined_envelope|]. intros g'' r [-> Hr]. by left. }
  apply wp_bind. eapply wp_mono; [by apply splice_stage_outcome|].
  intros g'' [[content|e]|x] [-> Hs]; [|by left..].
  eapply wp_mono; [by apply install_stage_outcome|]. intros g'' r [[Hu Hr]|[Hi Hc]]; [by left|]. right.
  rewrite <-Hhash. by exists target, snap, supplied, ident, a, b, doc, (ts_raw_bytes current), content.
Qed.

Lemma replace_symbol_body_outcome name_path path body hash commit :
  iwp (replace_symbol_body sha256_hex urlparse unquote py_str as_uri read_fuel name_path path body hash commit) start
    (λ g r, untouched g ∧ reply_declined r ∨
            ∃ body' hash', body = Some body' ∧ hash = Some hash' ∧ justified name_path body' (lower_ascii hash') commit g r).
Proof.
  assert (untouched start) as Hstart by done.
  unfold replace_symbol_body. destruct path as [path|], body as [body|], hash as [hash|];
    try (eapply wp_mono; [by apply declined_envelope|]; intros g' r [-> Hr]; by left).
  destruct (_ && _); [|eapply wp_mono; [by apply declined_envelope|]; intros g' r [-> Hr]; by left].
  apply wp_bind. intros a _. exists start. split; [done|]. destruct a as [[]|x]; cbn [wp]; [|by left].
  apply wp_finally. eapply wp_mono with (Q := edit_outcome name_path body (lower_ascii hash) commit).
  2:{ intros g r Hr u _. exists g. split; [done|]. cbn [wp]. destruct Hr as [Hr|Hr]; [by left|right]. by exists body, hash. }
  unfold locked_stage. apply wp_bind.
  eapply wp_mono with (Q := λ g r, untouched g ∧ declined r).
  - apply wp_catch, wp_bind. intros a _. exists start. split; [done|]. destruct a as [[t|]|x]; cbn [wp]; [done| |].
    + unfold pure, lift_envelope. cbn [wp]. apply wp_bind. destruct (error _ _ _ _ _ _) as [e|] eqn:He; cbn [wp]; [|done].
      apply error_code in He as [Hc _]. split; [done|]. simpl. by rewrite Hc.
    + unfold pure. cbn [wp]. destruct x; try done. eapply wp_mono; [apply declined_workspace|]. intros g' [[]|] [-> Hd]; done.
  - intros g [[target|e]|x] [Hg Hd]; [|by left..]. destruct (negb _).
    { eapply wp_mono; [by apply declined_envelope|]. intros g' r [-> Hr]. by left. }
    apply wp_bind. eapply wp_mono; [by apply read_target_outcome|].
    intros g' [[current|e]|x] [Hg' Hd']; [|by left..]. by apply edit_stage_outcome.
Qed.
(** ** The resolved symbol *)

Definition identity_of (s : NormalizedSymbol) : list (pystr * json) :=
  [(lit "name", JStr (ns_name s)); (lit "name_path", JStr (_name_path_text s)); (lit "kind", JInt (ns_kind s))].

(** The symbol a name path selects alone in a document, with its byte range. *)
Definition selects (document : DocumentNavigation) (name_path : name_path_arg) (s : NormalizedSymbol) (a b : public_position) : Prop :=
  ∃ p, _parse_name_path name_path = Some p ∧ pattern_matches document p false = [s] ∧
    range (dn_mapper document) (_lsp_position (rg_start (loc_range (ns_location s))))
      (_lsp_position (rg_end (loc_range (ns_location s)))) = Ok (a, b).

Lemma resolved_symbol target snap supplied name_path identity start stop document supplied' :
  resolve_unique target snap (Some supplied) name_path = Ok (inl (identity, start, stop, document, supplied')) →
  ∃ s a b, selects document name_path s a b ∧ raw_bytes (dn_snapshot document) = raw_bytes snap ∧
    identity = identity_of s ∧ start = pp_byte_offset a ∧ stop = pp_byte_offset b ∧
    dn_uri document = as_uri (ae_path target).
Proof.
  unfold _resolve_unique_symbol. intros (? & Hens & H)%res_bind_Ok.
  assert (di_uri supplied = as_uri (ae_path target) ∧ raw_bytes (di_snapshot supplied) = raw_bytes snap) as [Huri Hraw].
  { unfold ensure in Hens. destruct (_ && _) eqn:Hb; [|done]. apply andb_prop in Hb as [[_ Hb1]%andb_prop Hb2].
    by apply bool_decide_eq_true in Hb1, Hb2. }
  apply res_bind_Ok in H as (doc & Hdoc & H). apply res_bind_Ok in H as (result & Hfind & H).
  destruct result as [env|e]; [|done]. unfold lift_nav in Hfind.
  destruct (find_symbol _ _ _ _ _ _ _ _) as [renv|] eqn:Hf; [|done]. injection Hfind as ->.
  destruct (_parse_name_path name_path) as [p|] eqn:Hp.
  2:{ unfold find_symbol in Hf. rewrite Hp in Hf. by apply document_error_spec in Hf as (? & ? & ?). }
  eapply find_symbol_outcome in Hf; [|done|lia|done].
  inversion Hf as [| | | |env' sym data Hone _ Hdata _ Henv]; subst env'.
  unfold _symbol_data, _source_range in Hdata. apply res_bind_Ok in Hdata as (r & Hr & Hdata).
  apply res_bind_Ok in Hr as ([a b] & Hab & Hr). simplify_eq/=. rewrite Henv in H.
  apply res_bind_Ok in H as (z1 & H1 & H). apply res_bind_Ok in H as (z2 & H2 & H). apply res_bind_Ok in H as (ident & H3 & H).
  injection H1 as <-. injection H2 as <-. injection H3 as <-. injection H as <- <- <- -> _.
  exists sym, a, b. unfold from_input, lift_normalize in Hdoc. destruct (_ ≫= _) as [d|] eqn:Hd in Hdoc; [|done].
  injection Hdoc as ->. apply res_bind_Ok in Hd as (syms & _ & [= <-]). split_and!; try done. by exists p.
Qed.

Abbreviation replace_body := (replace_symbol_body sha256_hex urlparse unquote py_str as_uri read_fuel).

Lemma replace_body_run name_path path body hash commit t r :
  exec (replace_body name_path path body hash commit) t r →
  ∃ g, run Install.step t start = Some g ∧
    (untouched g ∧ reply_declined r ∨
     ∃ body' hash', body = Some body' ∧ hash = Some hash' ∧ justified name_path body' (lower_ascii hash') commit g r).
Proof.
  intros Hex. eapply wp_exec in Hex; [|apply replace_symbol_body_outcome|]; [done|]. apply Forall_forall. by intros [c a] _.
Qed.
End outcomes.

(** ** The splice *)

Lemma position_byte_nonneg m p a : position m p = Ok a → 0 ≤ pp_byte_offset a.
Proof.
  unfold position, text_offset_to_byte_offset. intros (o & _ & H)%res_bind_Ok. apply res_bind_Ok in H as (b & Hb & H).
  apply res_bind_Ok in Hb as (u & _ & Hb). simplify_eq/=. lia.
Qed.

Lemma range_bytes_nonneg m p q a b : range m p q = Ok (a, b) → 0 ≤ pp_byte_offset a ∧ 0 ≤ pp_byte_offset b.
Proof.
  unfold range. intros (a' & Ha & H)%res_bind_Ok. apply res_bind_Ok in H as (b' & Hb & H). simplify_eq.
  by apply position_byte_nonneg in Ha, Hb.
Qed.

Lemma replacement_bytes_splice s body a b content :
  0 ≤ a → 0 ≤ b → _replacement_bytes s body a b = Ok content →
  ∃ newline, _newline_contract s = Ok newline ∧
    content = take (Z.to_nat a) (raw_bytes s) ++ utf8_encode (normalized_body newline body) ++ drop (Z.to_nat b) (raw_bytes s).
Proof.
  intros Ha Hb. unfold _replacement_bytes. intros (newline & Hn & H)%res_bind_Ok. apply res_bind_Ok in H as (enc & He & H).
  exists newline. split; [done|]. unfold encode_strict in He. destruct (forallb _ _); [|done]. injection He as <-.
  injection H as <-. unfold slice_index. by rewrite !bool_decide_eq_false_2 by lia.
Qed.

(** Cutting the raw bytes at a rendered position cuts the text there. *)
Lemma cut_at_position raw s e p a :
  from_bytes raw = Ok s → position (from_snapshot s e) p = Ok a →
  take (Z.to_nat (pp_byte_offset a)) raw = bom s ++ utf8_encode (take (Z.to_nat (pp_text_offset a)) (text s)) ∧
  drop (Z.to_nat (pp_byte_offset a)) raw = utf8_encode (drop (Z.to_nat (pp_text_offset a)) (text s)).
Proof.
  intros [<- Hok]%from_bytes_ok. unfold position. intros (o & _ & H)%res_bind_Ok. apply res_bind_Ok in H as (b & Hb & H).
  simplify_eq/=. apply (text_to_byte_spec s e Hok) in Hb as [Ho ->]. rewrite Nat2Z.id, (so_bytes _ Hok).
  assert (bom s ++ utf8_encode (text s) =
    (bom s ++ utf8_encode (take (Z.to_nat o) (text s))) ++ utf8_encode (drop (Z.to_nat o) (text s))) as ->.
  { by rewrite <-app_assoc, <-utf8_encode_app, take_drop. }
  split; [by apply take_app_length|by apply drop_app_length].
Qed.

(** The inserted text has the line endings of the file. *)
Lemma replace_newlines_endings newline t i :
  newline = [cp_LF] ∨ newline = [cp_CR; cp_LF] → cp_CR ∉ t →
  Forall (λ e, e = newline) (lt_endings (scan_lines i (replace_char cp_LF newline t))).
Proof.
  intros Hn. revert i. induction t as [|c t IH]; intros i Hcr; [constructor|].
  apply not_elem_of_cons in Hcr as [Hc Ht].
  change (replace_char cp_LF newline (c :: t)) with
    ((if bool_decide (c = cp_LF) then newline else [c]) ++ replace_char cp_LF newline t).
  specialize (λ i, IH i Ht). case_bool_decide as Hlf.
  - destruct Hn as [-> | ->]; cbn [app scan_lines].
    + destruct (replace_char cp_LF [cp_LF] t) as [|d rest]; (constructor; [done|]); apply IH.
    + constructor; [done|]. apply IH.
  - cbn [app scan_lines]. rewrite (bool_decide_eq_false_2 (c = cp_LF)), (bool_decide_eq_false_2 (c = cp_CR)) by done.
    cbn [orb andb]. destruct (replace_char cp_LF newline t) as [|d rest]; apply IH.
Qed.

Lemma no_cr_left body : cp_CR ∉ replace_char cp_CR [cp_LF] (replace_crlf body).
Proof.
  unfold replace_char. intros (c & Hin & _)%list_elem_of_bind. case_bool_decide as Hc.
  - by apply list_elem_of_singleton in Hin.
  - apply list_elem_of_singleton in Hin. by subst.
Qed.

Lemma newline_contract_spec s newline :
  _newline_contract s = Ok newline →
  (newline = [cp_LF] ∨ newline = [cp_CR; cp_LF]) ∧ Forall (λ e, e = newline) (line_endings s).
Proof.
  unfold _newline_contract. intros H. destruct (forallb _ (line_endings s)) eqn:H1.
  - injection H as <-. split; [by left|]. apply Forall_forall. intros e He. rewrite forallb_forall in H1.
    by apply (bool_decide_eq_true_1 _), H1, list_elem_of_In.
  - destruct (forallb _ (line_endings s)) eqn:H2 in H; [|done]. injection H as <-. split; [by right|].
    apply Forall_forall. intros e He. rewrite forallb_forall in H2. by apply (bool_decide_eq_true_1 _), H2, list_elem_of_In.
Qed.

Lemma normalized_body_endings s newline body :
  _newline_contract s = Ok newline →
  Forall (λ e, e = newline) (line_endings s ++ lt_endings (scan_lines 0 (normalized_body newline body))).
Proof.
  intros [Hn Hall]%newline_contract_spec. apply Forall_app. split; [done|]. apply replace_newlines_endings; [done|apply no_cr_left].
Qed.

(** ** The properties *)

Section properties.
Context (sha256_hex : list N → pystr).
Context (urlparse : pystr → parsed_uri) (unquote : pystr → pystr) (py_str : pyany → pystr) (as_uri : pystr → pystr).
Context (read_fuel : nat).

Abbreviation replace_body := (replace_symbol_body sha256_hex urlparse unquote py_str as_uri read_fuel).

(** C2: Whatever the file system, the other writers and the language server do,
    the bytes a replacement installs are exactly those of a file whose hash is
    the expected one, with the bytes of the only symbol the name path selects
    exchanged for the body, in the line endings of the file; at the level of
    text, the text before the symbol, the body and the text after it, behind the
    same encoding signature. *)
Theorem installed_bytes_are_the_splice name_path path body hash commit t r g content raw :
  exec (replace_body name_path path body hash commit) t r → run Install.step t start = Some g →
  g_installed g = Some (content, raw) →
  ∃ body' hash' document snap s a b newline,
    body = Some body' ∧ hash = Some hash' ∧ sha256_hex raw = lower_ascii hash' ∧
    from_bytes raw = Ok snap ∧ raw_bytes (dn_snapshot document) = raw ∧ selects document name_path s a b ∧
    Forall (λ e, e = newline) (line_endings snap ++ lt_endings (scan_lines 0 (normalized_body newline body'))) ∧
    content = take (Z.to_nat (pp_byte_offset a)) raw ++ utf8_encode (normalized_body newline body') ++
              drop (Z.to_nat (pp_byte_offset b)) raw ∧
    (dn_snapshot document = snap →
     content = bom snap ++ utf8_encode (take (Z.to_nat (pp_text_offset a)) (text snap) ++ normalized_body newline body' ++
                                        drop (Z.to_nat (pp_text_offset b)) (text snap))).
Proof.
  intros Hex Hrun Hi. apply replace_body_run in Hex as (g' & Hrun' & [[[Hn _] _]|(body' & hash' & -> & -> & Hj)]); simplify_eq.
  destruct Hj as (target & snap & supplied & ident & z1 & z2 & doc & raw' & content' & Hi' & Hsha & Hsnap & Hres & Hrep & _).
  rewrite Hi in Hi'. injection Hi' as <- <-. apply resolved_symbol in Hres as (s & a & b & Hsel & Hraw & -> & -> & -> & _).
  pose proof Hsel as (p & Hp & Hone & Hrange). destruct (range_bytes_nonneg _ _ _ _ _ Hrange) as [Ha Hb].
  apply replacement_bytes_splice in Hrep as (newline & Hnl & ->); [|done..]. pose proof (from_bytes_ok _ _ Hsnap) as [Hrs _].
  rewrite Hrs in *. exists body', hash', doc, snap, s, a, b, newline. split_and!; try done.
  - by apply normalized_body_endings.
  - intros Hd. assert (∃ e, dn_mapper doc = from_snapshot snap e) as [e He].
    { exists (encoding (dn_mapper doc)). unfold dn_snapshot in Hd. by destruct (dn_mapper doc); simplify_eq/=. }
    rewrite He in Hrange. unfold range in Hrange. apply res_bind_Ok in Hrange as (a' & Ha' & Hrange).
    apply res_bind_Ok in Hrange as (b' & Hb' & [= -> ->]).
    destruct (cut_at_position _ _ _ _ _ Hsnap Ha') as [-> _]. destruct (cut_at_position _ _ _ _ _ Hsnap Hb') as [_ ->].
    by rewrite !utf8_encode_app, !app_assoc.
Qed.

(** C3: A reply tells what happened to the file. No execution writes after the
    rename, renames twice, or renames bytes that were not flushed. Before the
    rename nothing is marked or sent; after it the commit is marked installed,
    then the language server is told the hash of the new bytes, at most once, and
    only then the commit is marked done. A success means that the new bytes are
    in the file and all of this happened; an error says UNCERTAIN, and is then not
    retryable, exactly when the new bytes are in the file. *)
Theorem reply_tells_installation name_path path body hash commit t r :
  exec (replace_body name_path path body hash commit) t r →
  ∃ g, run Install.step t start = Some g ∧
    match g_installed g with
    | None => g_log g = []
    | Some (content, raw) => ∃ target notes done,
        g_log g = (if commit then [inl MarkInstalled] else []) ++ (inr <$> notes) ++
                  (if commit && done then [inl MarkDone] else []) ∧
        (length notes ≤ 1)%nat ∧ (done = true → length notes = 1%nat) ∧
        (∀ n, n ∈ notes → rn_path n = ae_path target ∧ rn_old_hash n = sha256_hex raw ∧ rn_new_hash n = sha256_hex content) ∧
        (∀ env, r = Ok (inl env) → done = true ∧
           ∃ identity n, sv_data env = success_data target (sha256_hex raw) (sha256_hex content) identity n)
    end ∧
    (∀ env, r = Ok (inl env) → is_installed g = true) ∧
    (∀ e, r = Ok (inr e) → (er_code e = UNCERTAIN ↔ is_installed g = true) ∧ (er_code e = UNCERTAIN → er_retry e = Some not_retryable)).
Proof.
  intros (g & Hrun & Hg)%replace_body_run. exists g. split; [done|]. unfold is_installed.
  destruct Hg as [[(Hi & Hl) Hr]|(body' & hash' & _ & _ & Hj)].
  - rewrite Hi. split; [done|]. split; [by intros env ->|]. intros e ->. by split.
  - destruct Hj as (target & snap & supplied & ident & z1 & z2 & doc & raw & content & Hi & _ & _ & Hres & _ & Hconf).
    destruct Hconf as (notes & done' & Hlog & Hlen & Hdone & Hall & Hr). rewrite Hi. split; [|split].
    + exists target, notes, done'. rewrite Hlog. rewrite Forall_forall in Hall. split_and!; [|done|done| |].
      * unfold follow_up, marked. by destruct commit, done'.
      * intros n (? & ? & ?)%Hall. done.
      * intros env ->. destruct Hr as (-> & n & Hn). split; [done|].
        apply resolved_symbol in Hres as (s & a & b & _ & _ & -> & _). exists (identity_of s), n.
        rewrite any_of_json_value in Hn; [by injection Hn|]. unfold success_data, identity_of. clean_keys.
    + done.
    + intros e ->. destruct Hr as (_ & Hc & Hretry). by split.
Qed.

(** The commit state a caller reads tells whether the file was changed: in
    every execution with a commit object that is queued or running, the state
    reached through the marks says installed exactly when the rename happened,
    even when the call ends with an exception, and is done after a success. *)
Theorem commit_state_follows_rename name_path path body hash t r g s :
  exec (replace_body name_path path body hash true) t r → run Install.step t start = Some g →
  s = QUEUED ∨ s = RUNNING →
  installed (run_commit_calls (g_marks g) s) = is_installed g ∧
  (∀ env, r = Ok (inl env) → run_commit_calls (g_marks g) s = DONE).
Proof.
  intros Hex Hrun Hs. apply replace_body_run in Hex as (g' & Hrun' & Hg). simplify_eq.
  destruct Hg as [[(Hi & Hm) Hr]|(body' & hash' & _ & _ & Hj)].
  - unfold is_installed, g_marks. rewrite Hi, Hm. split; [by destruct Hs as [-> | ->]|]. intros env ->. done.
  - destruct Hj as (target & snap & supplied & ident & z1 & z2 & doc & raw & content & Hi & _ & _ & _ & _ & Hr).
    destruct Hr as (notes & done' & Hlog & Hlen & Hdone & _ & Hr). unfold is_installed, g_marks. rewrite Hi, Hlog.
    destruct notes as [|note [|]]; [|clear Hlen|simpl in Hlen; lia].
    + destruct done'; [by specialize (Hdone eq_refl)|]. split; [by destruct Hs as [-> | ->]|]. intros env ->. by destruct Hr.
    + destruct done'; (split; [by destruct Hs as [-> | ->]|]); intros env ->; [by destruct Hs as [-> | ->]|by destruct Hr].
Qed.

(** C13: A replacement leaves nothing behind: in every execution in which closing
    a descriptor succeeds and removing the temporary entry succeeds or finds
    none, it acts only on descriptors it holds, closes each once, and ends, on
    every path, with no descriptor open and no temporary entry in the
    directory. *)
Theorem edit_leaves_nothing_behind name_path path body hash commit t r :
  exec (replace_body name_path path body hash commit) t r →
  Forall (λ e, let 'Ev c a := e in Ledger.calm c a) t →
  run Ledger.step t Ledger.empty_ledger = Some Ledger.empty_ledger.
Proof.
  intros Hex Hcalm. pose proof (Ledger.replace_symbol_body_ledger sha256_hex urlparse unquote py_str as_uri read_fuel
    name_path path body hash commit Ledger.empty_ledger eq_refl) as Hwp.
  by destruct (wp_exec _ _ _ _ _ _ _ Hwp Hex Hcalm) as (s & Hs & ->).
Qed.
End properties.

(** ** Concrete runs *)

Module EditRuns.
Import NormalizeExamples NavigationExamples.

(** A file system with one file: the next descriptor, and whether the file has
    been read to its end. *)
Record disk := { next_fd : Z; at_end : bool }.

Definition target : AuthorizedEdit :=
  {| ae_path := lit "/w/a.py"; ae_relative_path := lit "a.py"; ae_workspace := None; ae_root := Some (lit "/w") |}.
Definition file : bytes := replicate 13 10%N.
Definition file_stat : stat_result :=
  {| st_dev := 1; st_ino := 2; st_size := 13; st_mtime_ns := 0; st_ctime_ns := 0; st_mode := 33188 |}.
Definition zeros : pystr := replicate 64 48%N.

Section disk.
Context (read_only : bool).

Definition fresh_fd (s : disk) : disk * res os_error fd := ({| next_fd := next_fd s + 1; at_end := at_end s |}, Ok (next_fd s)).

Definition disk_call (c : call) : disk → disk * answer c :=
  match c with
  | COpenParent _ | COpenRoot _ | COpenChild _ _ => fresh_fd
  | COpenEntry _ _ => λ s, ({| next_fd := next_fd s + 1; at_end := false |}, Ok (next_fd s))
  | COpenTemporary _ _ => λ s, if read_only then (s, Err OsError) else fresh_fd s
  | CUnlink _ _ => λ s, (s, Err (if read_only then OsError else OsFileNotFound))
  | CRead _ => λ s, ({| next_fd := next_fd s; at_end := true |}, Ok (if at_end s then [] else file))
  | CFstat _ | CStatEntry _ _ => λ s, (s, Ok file_stat)
  | CWrite _ data => λ s, (s, Ok (Z.of_nat (length data)))
  | CClose _ | CFchmod _ _ | CFlush _ | CFlushDirectory _ | CReplace _ _ _ | CMark _ | CLock => λ s, (s, Ok tt)
  | CSeek _ => λ s, ({| next_fd := next_fd s; at_end := false |}, Ok tt)
  | CRealpath path => λ s, (s, Ok path)
  | CUnlock => λ s, (s, tt)
  | CToken => λ s, (s, lit "00")
  | CAuthorize _ => λ s, (s, Ok (Some target))
  | CResolve _ snap => λ s, (s, Ok (Some (input snap)))
  | CNotify _ => λ s, (s, Ok (Some {| nr_state := lit "open"; nr_file_generation := 1; nr_generations := None |}))
  end.
End disk.

Definition edit : prog reply :=
  replace_symbol_body (λ _, zeros) parse_uri id (λ _, []) (λ p, lit "file://" ++ p) 3
    (NameText (lit "f[1]")) (Some (lit "a.py")) (Some (lit "pass")) (Some zeros) true.

Definition disk0 : disk := {| next_fd := 3; at_end := false |}.
Definition good_run : list event * res exn reply := play (disk_call false) edit disk0.
Definition good_ghost : ghost := default start (run Install.step good_run.1 start).

Lemma good_reply : ∃ env, good_run.2 = Ok (inl env).
Proof. eexists. vm_compute. reflexivity. Qed.

Lemma good_ghost_run : run Install.step good_run.1 start = Some good_ghost.
Proof. vm_compute. reflexivity. Qed.

Lemma good_run_exec : exec edit good_run.1 good_run.2.
Proof. apply play_exec. Qed.

#[local] Opaque good_run good_ghost.

Lemma target_authorized : authorized_edit_init target = Ok target.
Proof. vm_compute. reflexivity. Qed.

Lemma installed_bytes_are_the_splice_witness :
  ∃ content, g_installed good_ghost = Some (content, file) ∧ (13 < length content)%nat ∧
    ∃ newline a b, content = take a file ++ utf8_encode (normalized_body newline (lit "pass")) ++ drop b file.
Proof.
  destruct (g_installed good_ghost) as [[content raw]|] eqn:Hi; [|vm_compute in Hi; discriminate].
  assert (raw = file) as -> by (vm_compute in Hi; by injection Hi as _ <-).
  assert (13 < length content)%nat as Hlen by (vm_compute in Hi; injection Hi as <-; simpl; lia).
  exists content. split; [reflexivity|]. split; [exact Hlen|].
  destruct (installed_bytes_are_the_splice (λ _, zeros) parse_uri id (λ _, []) (λ p, lit "file://" ++ p) 3
    (NameText (lit "f[1]")) (Some (lit "a.py")) (Some (lit "pass")) (Some zeros) true good_run.1 good_run.2 good_ghost content file)
    as (body' & hash' & doc & snap & s & a & b & newline & Hb & _ & _ & _ & _ & _ & _ & Hc & _).
  - exact good_run_exec.
  - exact good_ghost_run.
  - exact Hi.
  - injection Hb as <-. by exists newline, (Z.to_nat (pp_byte_offset a)), (Z.to_nat (pp_byte_offset b)).
Defined.

Lemma reply_tells_installation_witness :
  ∃ env note, good_run.2 = Ok (inl env) ∧ g_log good_ghost = [inl MarkInstalled; inr note; inl MarkDone].
Proof.
  destruct (reply_tells_installation (λ _, zeros) parse_uri id (λ _, []) (λ p, lit "file://" ++ p) 3
    (NameText (lit "f[1]")) (Some (lit "a.py")) (Some (lit "pass")) (Some zeros) true good_run.1 good_run.2) as (g & Hrun & Hlog & Hok & _).
  - exact good_run_exec.
  - rewrite good_ghost_run in Hrun. apply (inj Some) in Hrun as <-. destruct good_reply as [env He].
    specialize (Hok env He). unfold is_installed in Hok. destruct (g_installed good_ghost) as [[content raw]|]; [|discriminate Hok].
    destruct Hlog as (tg & notes & d & Hlog & Hlen & Hone & _ & Hs). destruct (Hs env He) as [-> _].
    specialize (Hone eq_refl). destruct notes as [|note [|]]; [discriminate Hone| |discriminate Hone]. exists env, note.
    split; [exact He|exact Hlog].
Defined.

Lemma commit_state_follows_rename_witness : run_commit_calls (g_marks good_ghost) RUNNING = DONE.
Proof.
  destruct good_reply as [env He].
  apply (commit_state_follows_rename (λ _, zeros) parse_uri id (λ _, []) (λ p, lit "file://" ++ p) 3
    (NameText (lit "f[1]")) (Some (lit "a.py")) (Some (lit "pass")) (Some zeros) good_run.1 good_run.2 good_ghost RUNNING) with env.
  - exact good_run_exec.
  - exact good_ghost_run.
  - by right.
  - exact He.
Defined.

Lemma edit_leaves_nothing_behind_witness :
  (length good_run.1 > 40)%nat ∧ run Ledger.step good_run.1 Ledger.empty_ledger = Some Ledger.empty_ledger.
Proof.
  split; [vm_compute; lia|].
  apply (edit_leaves_nothing_behind (λ _, zeros) parse_uri id (λ _, []) (λ p, lit "file://" ++ p) 3
    (NameText (lit "f[1]")) (Some (lit "a.py")) (Some (lit "pass")) (Some zeros) true good_run.1 good_run.2).
  - exact good_run_exec.
  - vm_compute. repeat apply Forall_cons_2; try apply Forall_nil_2; first [exact Logic.I|reflexivity|right; reflexivity].
Defined.

(** ** A read-only file system *)

Definition read_only_run : list event * res exn reply := play (disk_call true) edit disk0.

(** On a read-only file system the creation of the temporary entry and its
    removal both fail, and the removal's error skips the close of the directory:
    the call raises an [OSError] and leaves the descriptor of the directory open,
    once per attempt. *)
Theorem read_only_directory_leaks :
  exec edit read_only_run.1 read_only_run.2 ∧ read_only_run.2 = Err (XOs OsError) ∧
  ∃ d s, run Ledger.step read_only_run.1 Ledger.empty_ledger = Some s ∧ Ledger.held s = {[+ d +]}.
Proof.
  split_and!; [apply play_exec|vm_compute; reflexivity|].
  exists 7. destruct (run Ledger.step read_only_run.1 Ledger.empty_ledger) as [s|] eqn:Hs; [|vm_compute in Hs; discriminate].
  exists s. split; [done|]. enough (Ledger.held <$> run Ledger.step read_only_run.1 Ledger.empty_ledger = Some {[+ 7 +]}) as H.
  { rewrite Hs in H. by injection H. }
  vm_compute. reflexivity.
Qed.
End EditRuns.
