(* ===== verification/JsonLoads.v ===== *)
(** * [json.loads] of a byte string

    The decoder the language-server client applies to a message body: the
    choice of the encoding, the codecs with [surrogatepass], and the JSON
    grammar of Python's scanner. A float is its [repr]; [float] of a number
    literal is the parameter [float_of]. The limit on nesting that makes the
    scanner raise [RecursionError] is not modelled. *)

From S2P Require Import Prelude Json Positions.

Inductive loads_error :=
| BadUnicode         (** [UnicodeDecodeError] *)
| BadJson            (** [json.JSONDecodeError] *)
| IntTooLong         (** [ValueError] of [int], which is neither of them *)
| LoadsFuel.         (** of the model only: see [parse_value_fuel] *)

(** ** Codecs *)

(** [decode("utf-8", "surrogatepass")] *)
Fixpoint utf8_decode_sp (l : list N) : option pystr :=
  match l with
  | [] => Some []
  | b0 :: l1 =>
      if (b0 <? 128)%N then cons b0 <$> utf8_decode_sp l1
      else
        match l1 with
        | b1 :: l2 =>
            if (194 <=? b0)%N && (b0 <? 224)%N && is_cont b1
            then cons ((b0 - 192) * 64 + (b1 - 128))%N <$> utf8_decode_sp l2
            else
              match l2 with
              | b2 :: l3 =>
                  let c3 := ((b0 - 224) * 4096 + (b1 - 128) * 64 + (b2 - 128))%N in
                  if (224 <=? b0)%N && (b0 <? 240)%N && is_cont b1 && is_cont b2 && (2048 <=? c3)%N
                  then cons c3 <$> utf8_decode_sp l3
                  else
                    match l3 with
                    | b3 :: l4 =>
                        let c4 := ((b0 - 240) * 262144 + (b1 - 128) * 4096 + (b2 - 128) * 64 + (b3 - 128))%N in
                        if (240 <=? b0)%N && (b0 <? 245)%N && is_cont b1 && is_cont b2 && is_cont b3 &&
                           (65536 <=? c4)%N && is_scalar c4
                        then cons c4 <$> utf8_decode_sp l4
                        else None
                    | [] => None
                    end
              | [] => None
              end
        | [] => None
        end
  end.

Definition is_high (c : N) : bool := (55296 <=? c)%N && (c <? 56320)%N.
Definition is_low (c : N) : bool := (56320 <=? c)%N && (c <? 57344)%N.
Definition join_surrogates (high low : N) : N := (65536 + (high - 55296) * 1024 + (low - 56320))%N.

(** Code units of two and of four bytes. *)
Fixpoint units16 (big : bool) (l : list N) : option (list N) :=
  match l with
  | [] => Some []
  | a :: b :: l => cons (if big then a * 256 + b else b * 256 + a)%N <$> units16 big l
  | _ => None
  end.
Fixpoint units32 (big : bool) (l : list N) : option (list N) :=
  match l with
  | [] => Some []
  | a :: b :: c :: d :: l =>
      cons (if big then a * 16777216 + b * 65536 + c * 256 + d else d * 16777216 + c * 65536 + b * 256 + a)%N <$> units32 big l
  | _ => None
  end.

Fixpoint join_units (l : list N) : pystr :=
  match l with
  | [] => []
  | h :: rest =>
      match rest with
      | w :: rest' => if is_high h && is_low w then join_surrogates h w :: join_units rest' else h :: join_units rest
      | [] => [h]
      end
  end.

Definition utf16_decode (big : bool) (l : list N) : option pystr := join_units <$> units16 big l.
Definition utf32_decode (big : bool) (l : list N) : option pystr :=
  u ← units32 big l; if forallb (λ c, (c <? 1114112)%N) u then Some u else None.

Inductive json_encoding := EncUtf8 | EncUtf8Sig | EncUtf16 | EncUtf16BE | EncUtf16LE | EncUtf32 | EncUtf32BE | EncUtf32LE.

Definition starts_with (prefix l : list N) : bool := bool_decide (take (length prefix) l = prefix).

(** [json.detect_encoding] *)
Definition detect_encoding (b : list N) : json_encoding :=
  if starts_with [0; 0; 254; 255]%N b || starts_with [255; 254; 0; 0]%N b then EncUtf32
  else if starts_with [254; 255]%N b || starts_with [255; 254]%N b then EncUtf16
  else if starts_with utf8_bom b then EncUtf8Sig
  else match b with
       | b0 :: b1 :: b2 :: b3 :: _ =>
           if (b0 =? 0)%N then if (b1 =? 0)%N then EncUtf32BE else EncUtf16BE
           else if (b1 =? 0)%N then if (b2 =? 0)%N && (b3 =? 0)%N then EncUtf32LE else EncUtf16LE
           else EncUtf8
       | [b0; b1] => if (b0 =? 0)%N then EncUtf16BE else if (b1 =? 0)%N then EncUtf16LE else EncUtf8
       | _ => EncUtf8
       end.

Definition decode_bytes (b : list N) : option pystr :=
  match detect_encoding b with
  | EncUtf8 => utf8_decode_sp b
  | EncUtf8Sig => utf8_decode_sp (drop 3 b)
  | EncUtf16 => utf16_decode (starts_with [254; 255]%N b) (drop 2 b)
  | EncUtf16BE => utf16_decode true b
  | EncUtf16LE => utf16_decode false b
  | EncUtf32 => utf32_decode (starts_with [0; 0; 254; 255]%N b) (drop 4 b)
  | EncUtf32BE => utf32_decode true b
  | EncUtf32LE => utf32_decode false b
  end.

(** ** Scanning *)

Definition is_ws (c : N) : bool := (c =? 32)%N || (c =? 9)%N || (c =? 10)%N || (c =? 13)%N.
Fixpoint skip_ws (l : pystr) : pystr :=
  match l with
  | c :: rest => if is_ws c then skip_ws rest else l
  | [] => []
  end.

Definition hex_of (c : N) : option N :=
  if (48 <=? c)%N && (c <? 58)%N then Some (c - 48)%N
  else if (97 <=? c)%N && (c <? 103)%N then Some (c - 87)%N
  else if (65 <=? c)%N && (c <? 71)%N then Some (c - 55)%N
  else None.

Definition hex4 (l : pystr) : option (N * pystr) :=
  match l with
  | a :: b :: c :: d :: rest =>
      a ← hex_of a; b ← hex_of b; c ← hex_of c; d ← hex_of d; Some (a * 4096 + b * 256 + c * 16 + d, rest)%N
  | _ => None
  end.

(** One character of a string literal, after its opening quote. *)
Definition scan_char (l : pystr) : option (N * pystr) :=
  match l with
  | [] => None
  | c :: rest =>
      if (c =? 92)%N then
        match rest with
        | [] => None
        | k :: rest =>
            if (k =? 34)%N || (k =? 92)%N || (k =? 47)%N then Some (k, rest)
            else if (k =? 98)%N then Some (8%N, rest)
            else if (k =? 102)%N then Some (12%N, rest)
            else if (k =? 110)%N then Some (10%N, rest)
            else if (k =? 114)%N then Some (13%N, rest)
            else if (k =? 116)%N then Some (9%N, rest)
            else if (k =? 117)%N then
              hr ← hex4 rest;
              match hr.2 with
              | s :: u :: rest' =>
                  if is_high hr.1 && (s =? 92)%N && (u =? 117)%N then
                    wr ← hex4 rest';
                    if is_low wr.1 then Some (join_surrogates hr.1 wr.1, wr.2) else Some hr
                  else Some hr
              | _ => Some hr
              end
            else None
        end
      else if (c <? 32)%N then None
      else Some (c, rest)
  end.

Fixpoint scan_string (fuel : nat) (l : pystr) : res loads_error (pystr * pystr) :=
  match fuel with
  | O => Err LoadsFuel
  | S fuel =>
      if bool_decide (head l = Some 34%N) then Ok ([], tail l)
      else match scan_char l with
           | Some (c, rest) => sr ← scan_string fuel rest; Ok (c :: sr.1, sr.2)
           | None => Err BadJson
           end
  end.

Definition is_digit (c : N) : bool := (48 <=? c)%N && (c <? 58)%N.
Fixpoint span_digits (l : pystr) : pystr * pystr :=
  match l with
  | c :: rest => if is_digit c then let '(d, r) := span_digits rest in (c :: d, r) else ([], l)
  | [] => ([], [])
  end.

(** The integer part of a number literal: [0] or a digit that is not zero and
    more digits. *)
Definition scan_int (l : pystr) : option (pystr * pystr) :=
  match l with
  | c :: rest =>
      if (c =? 48)%N then Some ([c], rest)
      else if is_digit c then Some (span_digits l)
      else None
  | [] => None
  end.

Definition scan_fraction (l : pystr) : pystr * pystr :=
  match l with
  | c :: rest =>
      if (c =? 46)%N then
        let '(d, r) := span_digits rest in if nonempty d then (c :: d, r) else ([], l)
      else ([], l)
  | [] => ([], l)
  end.

Definition scan_exponent (l : pystr) : pystr * pystr :=
  match l with
  | c :: rest =>
      if (c =? 101)%N || (c =? 69)%N then
        let '(sign, after) := match rest with s :: r => if (s =? 43)%N || (s =? 45)%N then ([s], r) else ([], rest) | [] => ([], rest) end in
        let '(d, r) := span_digits after in
        if nonempty d then (c :: sign ++ d, r) else ([], l)
      else ([], l)
  | [] => ([], l)
  end.

(** Sign and integer part, fraction and exponent, and the rest. *)
Definition scan_number (l : pystr) : option (bool * pystr * pystr * pystr) :=
  let '(negative, l) := match l with c :: rest => if (c =? 45)%N then (true, rest) else (false, l) | [] => (false, l) end in
  ir ← scan_int l;
  let '(frac, r1) := scan_fraction ir.2 in
  let '(expo, r2) := scan_exponent r1 in
  Some (negative, ir.1, frac ++ expo, r2).

(** [sys.get_int_max_str_digits()] *)
Definition MAX_STR_DIGITS : nat := 4300.

Section loads.
Context (float_of : pystr → pystr).   (** [repr(float(literal))] *)

Definition number_value (negative : bool) (int rest : pystr) : res loads_error json :=
  if nonempty rest then Ok (JFloat (float_of ((if negative then [45%N] else []) ++ int ++ rest)))
  else if bool_decide (MAX_STR_DIGITS < length int)%nat then Err IntTooLong
  else Ok (JInt ((if negative then -1 else 1) * Z.of_N (dec_value int))).

Definition literal (word : string) (v : json) (l : pystr) : option (json * pystr) :=
  if starts_with (lit word) l then Some (v, drop (length (lit word)) l) else None.

(** [null], [true], [false] and the three non-finite floats *)
Definition scan_literal (l : pystr) : option (json * pystr) :=
  match literal "null" JNull l with Some r => Some r | None =>
  match literal "true" (JBool true) l with Some r => Some r | None =>
  match literal "false" (JBool false) l with Some r => Some r | None =>
  match literal "NaN" (JFloat (lit "nan")) l with Some r => Some r | None =>
  match literal "Infinity" (JFloat (lit "inf")) l with Some r => Some r | None =>
  literal "-Infinity" (JFloat (lit "-inf")) l end end end end end.

(** What follows an element: the closing bracket or a comma. *)
Definition separator (close : N) (l : pystr) : option (bool * pystr) :=
  match l with
  | c :: r => if (c =? close)%N then Some (true, r) else if (c =? comma)%N then Some (false, r) else None
  | [] => None
  end.

(** The elements of an array, and the members of an object. *)
Fixpoint elements (value : pystr → res loads_error (json * pystr)) (n : nat) (l : pystr)
    : res loads_error (list json * pystr) :=
  match n with
  | O => Err LoadsFuel
  | S n =>
      vr ← value l;
      match separator 93 (skip_ws vr.2) with
      | Some (true, r) => Ok ([vr.1], r)
      | Some (false, r) => er ← elements value n (skip_ws r); Ok (vr.1 :: er.1, er.2)
      | None => Err BadJson
      end
  end.

Definition member (value : pystr → res loads_error (json * pystr)) (n : nat) (l : pystr)
    : res loads_error (pystr * json * pystr) :=
  if bool_decide (head l = Some 34%N) then
    kr ← scan_string n (tail l);
    let r := skip_ws kr.2 in
    if bool_decide (head r = Some 58%N) then vr ← value (skip_ws (tail r)); Ok (kr.1, vr.1, vr.2)
    else Err BadJson
  else Err BadJson.

Fixpoint members (value : pystr → res loads_error (json * pystr)) (n : nat) (l : pystr)
    : res loads_error (list (pystr * json) * pystr) :=
  match n with
  | O => Err LoadsFuel
  | S n =>
      kvr ← member value n l;
      match separator 125 (skip_ws kvr.2) with
      | Some (true, r) => Ok ([kvr.1], r)
      | Some (false, r) => mr ← members value n (skip_ws r); Ok (kvr.1 :: mr.1, mr.2)
      | None => Err BadJson
      end
  end.

(** A later key replaces the value of an earlier one. *)
Definition dict_of (kvs : list (pystr * json)) : list (pystr * json) := foldl (λ d kv, dict_set d kv.1 kv.2) [] kvs.

Fixpoint parse_value (fuel : nat) (l : pystr) : res loads_error (json * pystr) :=
  match fuel with
  | O => Err LoadsFuel
  | S fuel =>
      match l with
      | [] => Err BadJson
      | c :: r =>
          if (c =? 34)%N then sr ← scan_string fuel r; Ok (JStr sr.1, sr.2)
          else if (c =? 123)%N then
            let r := skip_ws r in
            if bool_decide (head r = Some 125%N) then Ok (JObj [], tail r)
            else mr ← members (parse_value fuel) fuel r; Ok (JObj (dict_of mr.1), mr.2)
          else if (c =? 91)%N then
            let r := skip_ws r in
            if bool_decide (head r = Some 93%N) then Ok (JList [], tail r)
            else er ← elements (parse_value fuel) fuel r; Ok (JList er.1, er.2)
          else
            match scan_literal l with
            | Some r => Ok r
            | None =>
                match scan_number l with
                | Some (negative, int, rest, r) => v ← number_value negative int rest; Ok (v, r)
                | None => Err BadJson
                end
            end
      end
  end.

(** [json.loads] of a [str] that does not start with a byte-order mark *)
Definition loads_text (t : pystr) : res loads_error json :=
  vr ← parse_value (S (length t)) (skip_ws t);
  match skip_ws vr.2 with [] => Ok vr.1 | _ => Err BadJson end.

(** [json.loads(b)] *)
Definition json_loads (b : list N) : res loads_error json :=
  match decode_bytes b with
  | None => Err BadUnicode
  | Some t => loads_text t
  end.
End loads.


(** ** The fuel is enough *)

Lemma skip_ws_length l : (length (skip_ws l) ≤ length l)%nat.
Proof. induction l as [|c l IH]; simpl; [lia|]. destruct (is_ws c); simpl; lia. Qed.

Lemma hex4_length l n r : hex4 l = Some (n, r) → (length r < length l)%nat.
Proof.
  unfold hex4. destruct l as [|a [|b [|c [|d rest]]]]; try done. intros H. repeat (apply bind_Some in H as (? & _ & H)).
  simplify_eq/=. lia.
Qed.

Lemma scan_char_length l c r : scan_char l = Some (c, r) → (length r < length l)%nat.
Proof.
  unfold scan_char. destruct l as [|a rest]; [done|]. destruct (a =? 92)%N.
  - destruct rest as [|k rest]; [done|].
    destruct (_ || _); [intros; simplify_eq/=; lia|]. do 5 (destruct (k =? _)%N; [intros; simplify_eq/=; lia|]).
    destruct (k =? 117)%N; [|done]. intros ((h & r1) & Hh & H)%bind_Some. apply hex4_length in Hh. cbn [fst snd] in H.
    destruct r1 as [|s [|u rest']]; [simplify_eq/=; lia..|].
    destruct (_ && _); [|simplify_eq/=; lia]. apply bind_Some in H as ((w & r2) & Hw & H). apply hex4_length in Hw.
    destruct (is_low _); simplify_eq/=; lia.
  - destruct (a <? 32)%N; [done|]. intros; simplify_eq/=; lia.
Qed.

(** A scan consumes something or fails for a reason of the input. *)
Definition consumes {A} (l : pystr) (r : res loads_error (A * pystr)) : Prop :=
  match r with Ok (_, rest) => (length rest < length l)%nat | Err e => e ≠ LoadsFuel end.

Lemma scan_string_fuel fuel l : (length l < fuel)%nat → consumes l (scan_string fuel l).
Proof.
  revert l. induction fuel as [|fuel IH]; intros l Hl; [lia|]. cbn [scan_string]. case_bool_decide as Hh.
  - destruct l; simplify_eq/=. lia.
  - destruct (scan_char l) as [[c rest]|] eqn:Hc; [|done]. apply scan_char_length in Hc.
    specialize (IH rest ltac:(lia)). destruct (scan_string fuel rest) as [[s r]|e]; simpl in *; [lia|done].
Qed.

Lemma span_digits_length l : (length (span_digits l).2 ≤ length l)%nat.
Proof. induction l as [|c l IH]; simpl; [lia|]. destruct (is_digit c); [|simpl; lia]. destruct (span_digits l). simpl in *. lia. Qed.

Lemma scan_fraction_length l : (length (scan_fraction l).2 ≤ length l)%nat.
Proof.
  unfold scan_fraction. destruct l as [|c rest]; [simpl; lia|]. destruct (c =? 46)%N; [|simpl; lia].
  pose proof (span_digits_length rest). destruct (span_digits rest) as [d r]. destruct (nonempty d); simpl in *; lia.
Qed.

Lemma scan_exponent_length l : (length (scan_exponent l).2 ≤ length l)%nat.
Proof.
  unfold scan_exponent. destruct l as [|c rest]; [simpl; lia|]. destruct (_ || _); [|simpl; lia].
  set (sa := match rest with [] => _ | _ => _ end). assert (length sa.2 ≤ length rest)%nat as Hsa.
  { unfold sa. destruct rest as [|s r]; [simpl; lia|]. destruct (_ || _); simpl; lia. }
  destruct sa as [sign after]. pose proof (span_digits_length after). destruct (span_digits after) as [d r].
  destruct (nonempty d); simpl in *; lia.
Qed.

Lemma scan_number_length l n i f r : scan_number l = Some (n, i, f, r) → (length r < length l)%nat.
Proof.
  unfold scan_number. set (nl := match l with [] => _ | _ => _ end). assert (length nl.2 ≤ length l)%nat as Hnl.
  { unfold nl. destruct l as [|c rest]; [simpl; lia|]. destruct (c =? 45)%N; simpl; lia. }
  destruct nl as [neg l']. intros ((int & r0) & Hi & H)%bind_Some. cbn [fst snd] in H.
  assert (length r0 < length l')%nat as Hr0.
  { unfold scan_int in Hi. destruct l' as [|c rest]; [done|]. destruct (c =? 48)%N; [simplify_eq/=; lia|].
    destruct (is_digit c) eqn:Hd; [|done]. cbn [span_digits] in Hi. rewrite Hd in Hi.
    pose proof (span_digits_length rest). destruct (span_digits rest). simplify_eq/=. lia. }
  pose proof (scan_fraction_length r0). destruct (scan_fraction r0) as [fr r1].
  pose proof (scan_exponent_length r1). destruct (scan_exponent r1) as [ex r2]. simplify_eq/=. lia.
Qed.

Lemma literal_length w v l v' r : lit w ≠ [] → literal w v l = Some (v', r) → (length r < length l)%nat.
Proof.
  unfold literal, starts_with. intros Hw H. case_bool_decide as Ht; [|done]. simplify_eq. rewrite length_drop.
  assert (length (lit w) ≤ length l)%nat by (rewrite <-Ht at 1; rewrite length_take; lia).
  destruct (lit w); [done|]. simpl in *. lia.
Qed.

Lemma scan_literal_length l v r : scan_literal l = Some (v, r) → (length r < length l)%nat.
Proof.
  unfold scan_literal. intros H.
  repeat match type of H with context [match literal ?w ?x l with Some _ => _ | None => _ end] =>
    let E := fresh in destruct (literal w x l) as [[? ?]|] eqn:E; [simplify_eq; by apply literal_length in E|] end.
  by apply literal_length in H.
Qed.

Lemma separator_length close l b r : separator close l = Some (b, r) → (length r < length l)%nat.
Proof. unfold separator. destruct l as [|c l]; [done|]. repeat case_match; intros; simplify_eq/=; lia. Qed.

Section fuel.
Context (float_of : pystr → pystr) (value : pystr → res loads_error (json * pystr)) (bound : nat).
Context (Hvalue : ∀ l, (length l < bound)%nat → consumes l (value l)).

Lemma elements_fuel n l : (length l < n)%nat → (length l < bound)%nat → consumes l (elements value n l).
Proof using Hvalue.
  revert l. induction n as [|n IH]; intros l Hn Hb; [lia|]. cbn [elements]. specialize (Hvalue l Hb).
  destruct (value l) as [[v r]|e]; [|done]. cbn [mbind res_bind fst snd consumes] in *.
  destruct (separator 93 (skip_ws r)) as [[[] r']|] eqn:Hs; [| |done]; apply separator_length in Hs; pose proof (skip_ws_length r).
  - simpl. lia.
  - pose proof (skip_ws_length r'). specialize (IH (skip_ws r') ltac:(lia) ltac:(lia)).
    destruct (elements value n (skip_ws r')) as [[vs r'']|e]; simpl in *; [lia|done].
Qed.

Lemma member_fuel n l : (length l < S n)%nat → (length l < bound)%nat → consumes l (member value n l).
Proof using Hvalue.
  intros Hn Hb. unfold member. case_bool_decide as Hh; [|done]. destruct l as [|c l]; [done|]. cbn [tail length] in *.
  pose proof (scan_string_fuel n l ltac:(lia)) as Hs. destruct (scan_string n l) as [[k r]|e]; [|done].
  cbn [mbind res_bind fst snd consumes] in *. pose proof (skip_ws_length r). destruct (skip_ws r) as [|d r']; [done|].
  cbn [head tail length] in *. case_bool_decide; [|done]. pose proof (skip_ws_length r').
  specialize (Hvalue (skip_ws r') ltac:(lia)). destruct (value _) as [[v r'']|e]; simpl in *; [lia|done].
Qed.

Lemma members_fuel n l : (length l < n)%nat → (length l < bound)%nat → consumes l (members value n l).
Proof using Hvalue.
  revert l. induction n as [|n IH]; intros l Hn Hb; [lia|]. cbn [members].
  pose proof (member_fuel n l Hn Hb) as Hm. destruct (member value n l) as [[kv r]|e]; [|done].
  cbn [mbind res_bind fst snd consumes] in *.
  destruct (separator 125 (skip_ws r)) as [[[] r']|] eqn:Hs; [| |done]; apply separator_length in Hs; pose proof (skip_ws_length r).
  - simpl. lia.
  - pose proof (skip_ws_length r'). specialize (IH (skip_ws r') ltac:(lia) ltac:(lia)).
    destruct (members value n (skip_ws r')) as [[vs r'']|e]; simpl in *; [lia|done].
Qed.
End fuel.

Lemma parse_value_fuel float_of fuel l : (length l < fuel)%nat → consumes l (parse_value float_of fuel l).
Proof.
  revert l. induction fuel as [|fuel IH]; intros l Hl; [lia|]. cbn [parse_value]. destruct l as [|c r]; [done|]. cbn [length] in Hl.
  pose proof (skip_ws_length r). destruct (c =? 34)%N; [|destruct (c =? 123)%N; [|destruct (c =? 91)%N]].
  - pose proof (scan_string_fuel fuel r ltac:(lia)) as Hs. destruct (scan_string fuel r) as [[s r']|e]; simpl in *; [lia|done].
  - cbn zeta. case_bool_decide as Hh; [destruct (skip_ws r); simplify_eq/=; lia|].
    pose proof (members_fuel (parse_value float_of fuel) fuel IH fuel (skip_ws r) ltac:(lia) ltac:(lia)) as Hm.
    destruct (members _ _ _) as [[kvs r']|e]; simpl in *; [lia|done].
  - cbn zeta. case_bool_decide as Hh; [destruct (skip_ws r); simplify_eq/=; lia|].
    pose proof (elements_fuel (parse_value float_of fuel) fuel IH fuel (skip_ws r) ltac:(lia) ltac:(lia)) as Hm.
    destruct (elements _ _ _) as [[kvs r']|e]; simpl in *; [lia|done].
  - destruct (scan_literal (c :: r)) as [[v r']|] eqn:Hs; [by apply scan_literal_length in Hs|].
    destruct (scan_number (c :: r)) as [[[[neg int] rest] r']|] eqn:Hn; [|done]. apply scan_number_length in Hn.
    unfold number_value. destruct (nonempty rest); [done|]. by case_bool_decide.
Qed.

(** ** Reading back what was written *)

(** A value follows: the scanner sees the character after a number. *)
Lemma delim_head_not (P : N → bool) x : delim x → P comma = false → P 93%N = false → P 125%N = false →
  match x with c :: _ => P c = false | [] => True end.
Proof. destruct x as [|c x]; [done|]. by intros [->|[->| ->]]. Qed.

Lemma span_digits_app l x : delim x → span_digits (l ++ x) = ((span_digits l).1, (span_digits l).2 ++ x).
Proof.
  intros Hx. induction l as [|c l IH]; simpl.
  - pose proof (delim_head_not is_digit x Hx eq_refl eq_refl eq_refl). destruct x as [|c x]; [done|]. simpl. by rewrite H.
  - destruct (is_digit c); [|done]. rewrite IH. by destruct (span_digits l).
Qed.

Lemma scan_fraction_app l x : delim x → scan_fraction (l ++ x) = ((scan_fraction l).1, (scan_fraction l).2 ++ x).
Proof.
  intros Hx. unfold scan_fraction. destruct l as [|c l]; simpl.
  - pose proof (delim_head_not (λ c, (c =? 46)%N) x Hx eq_refl eq_refl eq_refl) as H. destruct x as [|c x]; [done|]. by rewrite H.
  - destruct (c =? 46)%N; [|done]. rewrite span_digits_app by done. destruct (span_digits l) as [d r]. simpl. by destruct (nonempty d).
Qed.

Lemma scan_exponent_app l x : delim x → scan_exponent (l ++ x) = ((scan_exponent l).1, (scan_exponent l).2 ++ x).
Proof.
  intros Hx. unfold scan_exponent. destruct l as [|c l]; cbn [app].
  - pose proof (delim_head_not (λ c, (c =? 101)%N || (c =? 69)%N) x Hx eq_refl eq_refl eq_refl) as H.
    destruct x as [|c x]; [done|]. by rewrite H.
  - destruct (_ || _); [|done].
    assert (match l ++ x with s :: r => if (s =? 43)%N || (s =? 45)%N then ([s], r) else ([], l ++ x) | [] => ([], l ++ x) end =
      let '(sign, after) := match l with s :: r => if (s =? 43)%N || (s =? 45)%N then ([s], r) else ([], l) | [] => ([], l) end in
      (sign, after ++ x)) as ->.
    { destruct l as [|s l]; cbn [app].
      - pose proof (delim_head_not (λ c, (c =? 43)%N || (c =? 45)%N) x Hx eq_refl eq_refl eq_refl) as H.
        destruct x as [|d x]; [done|]. by rewrite H.
      - by destruct (_ || _). }
    destruct (match l with s :: r => _ | [] => _ end) as [sign after]. rewrite span_digits_app by done.
    destruct (span_digits after) as [d r]. simpl. by destruct (nonempty d).
Qed.

Lemma scan_number_app l x n i f r :
  delim x → scan_number l = Some (n, i, f, r) → scan_number (l ++ x) = Some (n, i, f, r ++ x).
Proof.
  intros Hx. unfold scan_number. destruct l as [|c l]; [done|]. cbn [app].
  assert (∀ l, scan_int (l ++ x) = (ir ← scan_int l; Some (ir.1, ir.2 ++ x)) ∨ l = []) as Hint.
  { intros [|a k]; [by right|left]. unfold scan_int. cbn [app]. destruct (a =? 48)%N; [done|]. destruct (is_digit a) eqn:Ha; [|done].
    change (a :: k ++ x) with ((a :: k) ++ x). by rewrite span_digits_app. }
  assert (∀ l, (ir ← scan_int l;
      let '(frac, r1) := scan_fraction ir.2 in let '(expo, r2) := scan_exponent r1 in Some (n, ir.1, frac ++ expo, r2)) = Some (n, i, f, r) →
    (ir ← scan_int (l ++ x);
      let '(frac, r1) := scan_fraction ir.2 in let '(expo, r2) := scan_exponent r1 in Some (n, ir.1, frac ++ expo, r2)) =
      Some (n, i, f, r ++ x)) as Hgo.
  { intros k Hk. destruct (Hint k) as [->| ->]; [|done]. apply bind_Some in Hk as ((int & r0) & -> & Hk). cbn [mbind option_bind fst snd] in *.
    rewrite scan_fraction_app by done. destruct (scan_fraction r0) as [fr r1]. cbn [fst snd] in *.
    rewrite scan_exponent_app by done. destruct (scan_exponent r1) as [ex r2]. cbn [fst snd] in *. by simplify_eq. }
  destruct (c =? 45)%N.
  - intros H. assert (n = true) as ->. { apply bind_Some in H as (? & _ & H). repeat case_match; by simplify_eq. } by apply Hgo.
  - intros H. assert (n = false) as ->. { apply bind_Some in H as (? & _ & H). repeat case_match; by simplify_eq. }
    change (c :: l ++ x) with ((c :: l) ++ x). by apply Hgo.
Qed.

(** Decimal numerals have no leading zero. *)
Lemma dec_go_head fuel n : (0 < n)%N → (n < 2 ^ N.of_nat fuel)%N → ∃ c l, dec_go fuel n = c :: l ∧ digit c ∧ c ≠ 48%N.
Proof.
  revert n. induction fuel as [|fuel IH]; intros n Hn Hb; [change (2 ^ N.of_nat 0)%N with 1%N in Hb; lia|]. simpl.
  destruct (n <? 10)%N eqn:E; [apply N.ltb_lt in E; exists (48 + n)%N, []; unfold digit; split_and!; (done || lia)|]. apply N.ltb_ge in E.
  rewrite Nat2N.inj_succ, N.pow_succ_r' in Hb.
  destruct (IH (n / 10)%N) as (c & l & -> & Hc & H48).
  - apply N.div_str_pos. lia.
  - apply N.Div0.div_lt_upper_bound. lia.
  - by exists c, (l ++ [48 + n `mod` 10]%N).
Qed.

Lemma digit_is_digit c : digit c → is_digit c = true.
Proof. intros [H1 H2]. unfold is_digit. apply andb_true_intro. split; [by apply N.leb_le|by apply N.ltb_lt]. Qed.

Lemma span_digits_all l : Forall digit l → span_digits l = (l, []).
Proof. induction 1 as [|c l Hc Hl IH]; [done|]. simpl. rewrite digit_is_digit by done. by rewrite IH. Qed.

Lemma scan_int_dec n : scan_int (dec_N n) = Some (dec_N n, []).
Proof.
  destruct (decide (n = 0%N)) as [->|Hn]; [done|].
  destruct (dec_go_head (S (N.to_nat (N.log2 n))) n) as (c & l & He & Hc & H48); [lia| |].
  { rewrite Nat2N.inj_succ, N2Nat.id. apply N.log2_spec. lia. }
  pose proof (dec_go_digits (S (N.to_nat (N.log2 n))) n) as Hall. unfold dec_N. rewrite He in *. unfold scan_int.
  rewrite (proj2 (N.eqb_neq c 48)) by done. rewrite digit_is_digit by done. by rewrite span_digits_all.
Qed.

Lemma scan_number_dec z :
  scan_number (dec z) = Some (z <? 0, dec_N (Z.abs_N z), [], []).
Proof.
  unfold scan_number, dec. destruct (z <? 0) eqn:Hz.
  - cbn [N.eqb Pos.eqb]. replace (Z.to_N (- z)) with (Z.abs_N z) by lia. by rewrite scan_int_dec.
  - replace (Z.to_N z) with (Z.abs_N z) by lia. pose proof (scan_int_dec (Z.abs_N z)) as Hi.
    destruct (dec_N (Z.abs_N z)) as [|c l] eqn:Hd; [done|].
    assert ((c =? 45)%N = false) as ->; [|by rewrite Hi].
    pose proof (dec_go_digits (S (N.to_nat (N.log2 (Z.abs_N z)))) (Z.abs_N z)) as Hall. unfold dec_N in Hd. rewrite Hd in Hall.
    inversion_clear Hall as [|? ? [H1 H2] _]. apply N.eqb_neq. lia.
Qed.

Lemma scan_char_escape c x : scan_char (json_escape c ++ x) = Some (c, x).
Proof.
  unfold json_escape.
  repeat match goal with
  | |- context [if (c =? ?k)%N then _ else _] =>
      destruct (c =? k)%N eqn:?; [by match goal with H : _ = true |- _ => apply N.eqb_eq in H; subst end|]
  end.
  destruct (c <? 32)%N eqn:E.
  - apply N.ltb_lt in E. cbn [app scan_char N.eqb Pos.eqb orb hex4].
    assert (∀ n, (n < 16)%N → hex_of (hex_digit n) = Some n) as Hhex.
    { intros n Hn. unfold hex_of, hex_digit. destruct (n <? 10)%N eqn:H10.
      - apply N.ltb_lt in H10. rewrite (proj2 (N.leb_le 48 _)), (proj2 (N.ltb_lt _ 58)) by lia. simpl. f_equal. lia.
      - apply N.ltb_ge in H10. rewrite (proj2 (N.ltb_ge _ 58)) by lia. rewrite andb_false_r.
        rewrite (proj2 (N.leb_le 97 _)), (proj2 (N.ltb_lt _ 103)) by lia. simpl. f_equal. lia. }
    assert (c / 16 < 16)%N by (apply N.Div0.div_lt_upper_bound; lia).
    assert (c `mod` 16 < 16)%N by (apply N.mod_lt; lia).
    rewrite !Hhex by done. change (hex_of 48) with (Some 0%N). cbn [mbind option_bind fst snd].
    pose proof (N.div_mod' c 16). assert (0 * 4096 + 0 * 256 + c / 16 * 16 + c `mod` 16 = c)%N as -> by lia.
    assert (is_high c = false) as -> by (unfold is_high; rewrite (proj2 (N.leb_gt 55296 c)) by lia; done).
    by destruct x as [|? [|? ?]].
  - cbn [app scan_char]. by rewrite Heqb0, E.
Qed.

Lemma scan_string_escape s x fuel :
  (length s < fuel)%nat → scan_string fuel ((s ≫= json_escape) ++ 34%N :: x) = Ok (s, x).
Proof.
  revert fuel. induction s as [|c s IH]; intros fuel Hf; (destruct fuel as [|fuel]; [simpl in Hf; lia|]); [done|].
  cbn [mbind list_bind]. rewrite <-app_assoc. cbn [scan_string].
  destruct (json_escape_head c) as (d & l & Hd & H34). rewrite bool_decide_eq_false_2 by (rewrite Hd; simpl; congruence).
  rewrite scan_char_escape. cbn [length] in Hf. change (list_bind _ _ json_escape s) with (s ≫= json_escape).
  rewrite IH by lia. done.
Qed.

Lemma span_digits_split l : l = (span_digits l).1 ++ (span_digits l).2.
Proof. induction l as [|c l IH]; [done|]. simpl. destruct (is_digit c); [|done]. destruct (span_digits l). simpl in *. by rewrite <-IH. Qed.

Lemma scan_number_split l n i f r :
  scan_number l = Some (n, i, f, r) → l = (if n then [45%N] else []) ++ i ++ f ++ r.
Proof.
  unfold scan_number. intros H.
  assert (∃ l0 r0, l = (if n then [45%N] else []) ++ l0 ∧ scan_int l0 = Some (i, r0) ∧
    f = (scan_fraction r0).1 ++ (scan_exponent (scan_fraction r0).2).1 ∧ r = (scan_exponent (scan_fraction r0).2).2)
    as (l0 & r0 & -> & Hi & -> & ->).
  { destruct l as [|c l]; [done|]. destruct (c =? 45)%N eqn:Hc; [apply N.eqb_eq in Hc; subst|];
      apply bind_Some in H as ((int & r0) & Hi & H); cbn [fst snd] in H; destruct (scan_fraction r0) as [fr r1] eqn:Hfr;
      destruct (scan_exponent r1) as [ex r2] eqn:Hex; simplify_eq; [exists l, r0|exists (c :: l), r0]; rewrite Hfr; simpl; by rewrite Hex. }
  f_equal. assert (l0 = i ++ r0) as ->.
  { unfold scan_int in Hi. destruct l0 as [|c l]; [done|]. destruct (c =? 48)%N; [by simplify_eq|].
    destruct (is_digit c); [|done]. pose proof (span_digits_split (c :: l)) as Hs. destruct (span_digits (c :: l)). by simplify_eq. }
  rewrite <-!app_assoc. f_equal.
  assert (∀ k, k = (scan_fraction k).1 ++ (scan_fraction k).2) as Hfrac.
  { intros [|c k]; [done|]. simpl. destruct (c =? 46)%N; [|done]. pose proof (span_digits_split k) as Hs.
    destruct (span_digits k) as [d q]. simpl in Hs. destruct (nonempty d); [|done]. simpl. by rewrite <-Hs. }
  assert (∀ k, k = (scan_exponent k).1 ++ (scan_exponent k).2) as Hexp.
  { intros [|c k]; [done|]. simpl. destruct (_ || _); [|done].
    destruct (match k with [] => _ | _ => _ end) as [sign after] eqn:Hsa.
    assert (k = sign ++ after) as -> by (destruct k as [|s k]; [by simplify_eq|]; destruct (_ || _); by simplify_eq).
    pose proof (span_digits_split after) as Hs. destruct (span_digits after) as [d q]. simpl in Hs. destruct (nonempty d); [|done].
    simpl. by rewrite <-app_assoc, <-Hs. }
  rewrite (Hfrac r0) at 1. f_equal. apply Hexp.
Qed.

(** A number literal begins with no other value. *)
Lemma literal_head w a w' v l : lit w = a :: w' → head l ≠ Some a → literal w v l = None.
Proof.
  intros Hw Hl. unfold literal, starts_with. rewrite bool_decide_eq_false_2; [done|]. rewrite Hw. intros Ht. apply Hl.
  destruct l; [done|]. simpl in Ht |- *. congruence.
Qed.

Lemma scan_number_head l n i f r :
  scan_number l = Some (n, i, f, r) →
  ∃ c l', l = c :: l' ∧ (c =? 34)%N = false ∧ (c =? 123)%N = false ∧ (c =? 91)%N = false ∧ scan_literal l = None ∧ is_ws c = false.
Proof.
  intros H. destruct l as [|c l]; [done|]. exists c, l.
  assert (is_digit c = true ∨ c = 45%N ∧ ∃ d l', l = d :: l' ∧ is_digit d = true) as Hc.
  { unfold scan_number in H. destruct (c =? 45)%N eqn:Hm; apply bind_Some in H as (ir & Hi & _).
    - right. apply N.eqb_eq in Hm. split; [done|]. unfold scan_int in Hi. destruct l as [|d l]; [done|]. exists d, l.
      split; [done|]. destruct (d =? 48)%N eqn:Hd; [apply N.eqb_eq in Hd; by subst|]. by destruct (is_digit d).
    - left. unfold scan_int in Hi. destruct (c =? 48)%N eqn:Hd; [apply N.eqb_eq in Hd; by subst|]. by destruct (is_digit c). }
  assert ((48 <= c)%N ∧ (c < 58)%N ∨ c = 45%N) as Hrange.
  { destruct Hc as [Hc|[-> _]]; [|by right]. left. apply andb_prop in Hc as [H1 H2]. split; [by apply N.leb_le|by apply N.ltb_lt]. }
  split; [done|]. rewrite (proj2 (N.eqb_neq c 34)), (proj2 (N.eqb_neq c 123)), (proj2 (N.eqb_neq c 91)) by lia.
  split_and!; [done..| |unfold is_ws; rewrite (proj2 (N.eqb_neq c 32)), (proj2 (N.eqb_neq c 9)), (proj2 (N.eqb_neq c 10)),
    (proj2 (N.eqb_neq c 13)) by lia; done].
  unfold scan_literal.
  rewrite (literal_head "null" 110 (lit "ull")) by (done || (simpl; intros [= ->]; lia)).
  rewrite (literal_head "true" 116 (lit "rue")) by (done || (simpl; intros [= ->]; lia)).
  rewrite (literal_head "false" 102 (lit "alse")) by (done || (simpl; intros [= ->]; lia)).
  rewrite (literal_head "NaN" 78 (lit "aN")) by (done || (simpl; intros [= ->]; lia)).
  rewrite (literal_head "Infinity" 73 (lit "nfinity")) by (done || (simpl; intros [= ->]; lia)).
  destruct Hc as [Hc|(-> & d & l' & -> & Hd)].
  - rewrite (literal_head "-Infinity" 45 (lit "Infinity")); [done..|]. simpl. intros [= ->]. done.
  - unfold literal, starts_with. rewrite bool_decide_eq_false_2; [done|]. simpl. intros [= -> _]. done.
Qed.

Lemma dict_of_id kvs : NoDup kvs.*1 → dict_of kvs = kvs.
Proof.
  intros Hnd. unfold dict_of.
  assert (∀ acc, NoDup ((acc ++ kvs).*1) → foldl (λ d kv, dict_set d kv.1 kv.2) acc kvs = acc ++ kvs) as Hgo; [|by apply (Hgo [])].
  clear Hnd. induction kvs as [|[k v] kvs IH]; intros acc Hacc; simpl; [by rewrite app_nil_r|].
  assert (dict_set acc k v = acc ++ [(k, v)]) as ->.
  { rewrite fmap_app in Hacc. apply NoDup_app in Hacc as (_ & Hdis & _). clear IH.
    induction acc as [|[j w] acc IHa]; [done|]. simpl. rewrite decide_False.
    - f_equal. apply IHa. intros x Hx. apply Hdis. by right.
    - intros ->. apply (Hdis j); [by left|]. by left. }
  rewrite IH; rewrite <-app_assoc; [done|]. done.
Qed.

Section roundtrip.
Context (float_of : pystr → pystr).

(** A value Python can write: integers within the digit limit, floats by a
    literal that is their own [repr], keys of an object distinct. *)
Fixpoint json_ok (v : json) : Prop :=
  match v with
  | JInt z => (length (dec_N (Z.abs_N z)) ≤ MAX_STR_DIGITS)%nat
  | JFloat r => float_of r = r ∧ ∃ n i f, scan_number r = Some (n, i, f, []) ∧ f ≠ []
  | JList l => foldr (λ x P, json_ok x ∧ P) True l
  | JObj kvs => NoDup kvs.*1 ∧ foldr (λ kv P, json_ok kv.2 ∧ P) True kvs
  | _ => True
  end.

Lemma json_ok_list l : json_ok (JList l) ↔ Forall json_ok l.
Proof. simpl. induction l as [|x l IH]; simpl; [by split; [constructor|]|]. rewrite IH, Forall_cons. done. Qed.

Lemma json_ok_obj kvs : json_ok (JObj kvs) ↔ NoDup kvs.*1 ∧ Forall (λ kv, json_ok kv.2) kvs.
Proof.
  cbn [json_ok]. apply and_iff_compat_l. induction kvs as [|x l IH]; simpl; [by split; [constructor|]|]. rewrite IH, Forall_cons. done.
Qed.

(** The text of a value starts with a character that is neither white space nor
    a closing bracket. *)
Lemma dumps_ok_head v : json_ok v → ∃ c l, json_dumps v = c :: l ∧ is_ws c = false ∧ c ≠ 93%N ∧ c ≠ 125%N.
Proof.
  destruct v as [|[]|z|r|s|l|kvs]; intros Hok; try (do 2 eexists; split; [reflexivity|done]).
  - destruct (scan_number_head _ _ _ _ _ (scan_number_dec z)) as (c & l & Hd & H34 & H123 & H91 & _ & Hws).
    pose proof (dec_number z) as [(c' & l' & Hd' & Hcc) _]. simpl. rewrite Hd in Hd' |- *. simplify_eq.
    exists c', l'. unfold digit in Hcc. split_and!; [done|done|lia|lia].
  - destruct Hok as (_ & n & i & f & Hs & _). pose proof Hs as (c & l & -> & _ & _ & _ & _ & Hws)%scan_number_head.
    exists c, l. split_and!; [done|done| |]; intros ->; unfold scan_number in Hs; by destruct n.
Qed.

Lemma skip_ws_id c l : is_ws c = false → skip_ws (c :: l) = c :: l.
Proof. intros Hc. simpl. by rewrite Hc. Qed.

Lemma skip_ws_delim x : delim x → skip_ws x = x.
Proof. destruct x as [|c x]; [done|]. by intros [->|[->| ->]]. Qed.

Lemma skip_ws_dumps v x : json_ok v → skip_ws (json_dumps v ++ x) = json_dumps v ++ x.
Proof. intros (c & l & -> & Hws & _)%dumps_ok_head. by apply skip_ws_id. Qed.

Definition reads_back (v : json) : Prop :=
  ∀ fuel x, json_ok v → delim x → (length (json_dumps v) < fuel)%nat → parse_value float_of fuel (json_dumps v ++ x) = Ok (v, x).

Lemma join_comma_cons (y : pystr) ys close x :
  join_comma (y :: ys) ++ close :: x =
  y ++ match ys with [] => close :: x | _ => comma :: join_comma ys ++ close :: x end.
Proof. destruct ys; [done|]. simpl. by rewrite <-app_assoc. Qed.

Lemma join_comma_length (y : pystr) ys :
  length (join_comma (y :: ys)) = (length y + if nonempty ys then 1 + length (join_comma ys) else 0)%nat.
Proof. destruct ys; [simpl; lia|]. cbn [join_comma nonempty]. rewrite length_app, length_cons. lia. Qed.

Lemma number_reads_back v n i f fuel x :
  delim x → scan_number (json_dumps v) = Some (n, i, f, []) → number_value float_of n i f = Ok v →
  (0 < fuel)%nat → parse_value float_of fuel (json_dumps v ++ x) = Ok (v, x).
Proof.
  intros Hx Hs Hv Hf. destruct fuel as [|fuel]; [lia|].
  pose proof (scan_number_app _ x _ _ _ _ Hx Hs) as Hsx.
  destruct (scan_number_head _ _ _ _ _ Hsx) as (c & l & Hl & H34 & H123 & H91 & Hlit & _). rewrite Hl in *. cbn [parse_value].
  rewrite H34, H123, H91, Hlit, Hsx, Hv. done.
Qed.

Lemma elements_read_back l fuel n x :
  l ≠ [] → Forall reads_back l → Forall json_ok l →
  (length (join_comma (json_dumps <$> l)) < fuel)%nat → (length (join_comma (json_dumps <$> l)) < n)%nat →
  elements (parse_value float_of fuel) n (join_comma (json_dumps <$> l) ++ 93%N :: x) = Ok (l, x).
Proof.
  revert n. induction l as [|v l IH]; intros n Hne Hr Hok Hf Hn; [done|]. destruct n as [|n]; [lia|].
  apply Forall_cons in Hr as [Hv Hr]. apply Forall_cons in Hok as [Hvo Hok]. cbn [elements fmap list_fmap] in *.
  change (list_fmap _ _ json_dumps l) with (json_dumps <$> l) in *. rewrite join_comma_cons.
  pose proof (join_comma_length (json_dumps v) (json_dumps <$> l)) as Hlen.
  rewrite Hv; [|done| |lia].
  2:{ destruct (json_dumps <$> l); [by right; left|by left]. }
  cbn [mbind res_bind fst snd]. destruct l as [|v' l]; [done|].
  change (json_dumps <$> v' :: l) with (json_dumps v' :: (json_dumps <$> l)) in *. cbn [nonempty] in Hlen.
  cbn [skip_ws is_ws comma N.eqb Pos.eqb orb separator]. rewrite join_comma_cons, skip_ws_dumps, <-join_comma_cons by (by inversion Hok).
  rewrite IH; [done|done|done|done|lia|lia].
Qed.

Definition member_text (kv : pystr * json) : pystr := json_string kv.1 ++ 58%N :: json_dumps kv.2.

Lemma member_reads_back kv fuel n x :
  reads_back kv.2 → json_ok kv.2 → delim x → (length (member_text kv) < fuel)%nat → (length (member_text kv) < S n)%nat →
  member (parse_value float_of fuel) n (member_text kv ++ x) = Ok (kv.1, kv.2, x).
Proof.
  destruct kv as [k v]. cbn [fst snd]. intros Hv Hok Hx Hf Hn. unfold member_text, json_string in *. cbn [fst snd app] in *.
  rewrite length_cons, !length_app in Hf, Hn. cbn [length] in Hf, Hn. rewrite <-!app_assoc. cbn [app]. unfold member. cbn [head tail].
  rewrite bool_decide_eq_true_2 by done.
  assert (length k ≤ length (k ≫= json_escape))%nat as Hk.
  { clear. induction k as [|c k IH]; [done|]. cbn [mbind list_bind length]. rewrite length_app.
    destruct (json_escape_head c) as (d & l & -> & _). simpl in *. lia. }
  rewrite scan_string_escape by lia. cbn [mbind res_bind fst snd]. cbn [skip_ws is_ws N.eqb Pos.eqb orb head tail].
  rewrite bool_decide_eq_true_2 by done. rewrite skip_ws_dumps by done. rewrite Hv; [done|done|done|lia].
Qed.

Lemma members_read_back kvs fuel n x :
  kvs ≠ [] → Forall (λ kv, reads_back kv.2) kvs → Forall (λ kv, json_ok kv.2) kvs →
  (length (join_comma (member_text <$> kvs)) < fuel)%nat → (length (join_comma (member_text <$> kvs)) < n)%nat →
  members (parse_value float_of fuel) n (join_comma (member_text <$> kvs) ++ 125%N :: x) = Ok (kvs, x).
Proof.
  revert n. induction kvs as [|kv l IH]; intros n Hne Hr Hok Hf Hn; [done|]. destruct n as [|n]; [lia|].
  apply Forall_cons in Hr as [Hv Hr]. apply Forall_cons in Hok as [Hvo Hok]. cbn [members fmap list_fmap] in *.
  change (list_fmap _ _ member_text l) with (member_text <$> l) in *. rewrite join_comma_cons.
  pose proof (join_comma_length (member_text kv) (member_text <$> l)) as Hlen.
  rewrite member_reads_back; [|done|done| |lia|lia].
  2:{ destruct (member_text <$> l); [by right; right|by left]. }
  cbn [mbind res_bind fst snd]. destruct kv as [k v]. destruct l as [|kv' l]; [done|].
  change (member_text <$> kv' :: l) with (member_text kv' :: (member_text <$> l)) in *. cbn [nonempty] in Hlen.
  cbn [skip_ws is_ws comma N.eqb Pos.eqb orb separator].
  assert (∀ q, skip_ws (join_comma (member_text kv' :: (member_text <$> l)) ++ q) =
               join_comma (member_text kv' :: (member_text <$> l)) ++ q) as -> by (intros q; by destruct l).
  rewrite IH; [done|done|done|done|lia|lia].
Qed.

Lemma value_reads_back v : reads_back v.
Proof.
  induction v as [|b|z|r|s|l IH|kvs IH] using json_induction; intros fuel x Hok Hx Hf.
  - destruct fuel as [|fuel]; [simpl in Hf; lia|]. done.
  - destruct fuel as [|fuel]; [simpl in Hf; lia|]. by destruct b.
  - eapply (number_reads_back (JInt z)); [done|apply scan_number_dec| |lia]. unfold number_value. cbn [nonempty].
    rewrite bool_decide_eq_false_2 by (simpl in Hok; lia). rewrite dec_N_value. do 2 f_equal. destruct (z <? 0) eqn:Hz; lia.
  - destruct Hok as (Hr & n & i & f & Hs & Hne). eapply (number_reads_back (JFloat r)); [done|exact Hs| |lia].
    unfold number_value. destruct f as [|c f]; [done|]. cbn [nonempty].
    apply scan_number_split in Hs. rewrite app_nil_r in Hs. by rewrite <-Hs, Hr.
  - destruct fuel as [|fuel]; [lia|]. simpl in Hf |- *. rewrite <-app_assoc. cbn [app]. rewrite scan_string_escape; [done|].
    rewrite length_app in Hf. simpl in Hf. enough (length s ≤ length (s ≫= json_escape))%nat by lia.
    clear. induction s as [|c s IH]; [done|]. cbn [mbind list_bind length]. rewrite length_app.
    destruct (json_escape_head c) as (d & l & -> & _). simpl in *. lia.
  - destruct fuel as [|fuel]; [lia|]. apply json_ok_list in Hok. cbn [json_dumps] in Hf |- *. cbn [app parse_value N.eqb Pos.eqb].
    rewrite length_cons, length_app in Hf. cbn [length] in Hf. rewrite <-app_assoc. cbn [app]. cbn zeta. destruct l as [|v l]; [done|].
    assert (skip_ws (join_comma (json_dumps <$> v :: l) ++ 93%N :: x) = join_comma (json_dumps <$> v :: l) ++ 93%N :: x) as ->.
    { change (json_dumps <$> v :: l) with (json_dumps v :: (json_dumps <$> l)). rewrite join_comma_cons. apply skip_ws_dumps. by inversion Hok. }
    rewrite bool_decide_eq_false_2.
    + rewrite elements_read_back; [done|done|done|done|lia|lia].
    + change (json_dumps <$> v :: l) with (json_dumps v :: (json_dumps <$> l)). rewrite join_comma_cons.
      apply Forall_cons in Hok as [Hvo _]. destruct (dumps_ok_head v Hvo) as (c & k & -> & _ & H93 & _). simpl. congruence.
  - destruct fuel as [|fuel]; [lia|]. apply json_ok_obj in Hok as [Hnd Hok]. cbn [json_dumps] in Hf |- *. cbn [app parse_value N.eqb Pos.eqb].
    rewrite length_cons, length_app in Hf. cbn [length] in Hf. rewrite <-app_assoc. cbn [app]. cbn zeta.
    change ((λ kv, json_string kv.1 ++ 58%N :: json_dumps kv.2) <$> kvs) with (member_text <$> kvs) in *.
    destruct kvs as [|kv l]; [done|].
    assert (∀ q, skip_ws (join_comma (member_text <$> kv :: l) ++ q) = join_comma (member_text <$> kv :: l) ++ q) as ->
      by (intros q; by destruct l).
    rewrite bool_decide_eq_false_2 by (by destruct l).
    rewrite members_read_back; [|done|done|done|lia|lia]. cbn [mbind res_bind fst snd]. by rewrite dict_of_id.
Qed.

(** ** Bytes *)

Definition scalars (t : pystr) : Prop := Forall (λ c, is_scalar c = true) t.

Lemma utf8_decode_sp_strict l t : utf8_decode l = Some t → utf8_decode_sp l = Some t.
Proof.
  enough (∀ n l t, (length l ≤ n)%nat → utf8_decode l = Some t → utf8_decode_sp l = Some t) as H by (by apply (H (length l))).
  clear l t. induction n as [|n IH]; intros l t Hn; [by destruct l; simpl in Hn; [|lia]|].
  assert (∀ c l' t', (length l' ≤ n)%nat → cons c <$> utf8_decode l' = Some t' → cons c <$> utf8_decode_sp l' = Some t') as Hgo.
  { intros c l' t' Hl' (u & Hu & ->)%fmap_Some. by rewrite (IH l' u). }
  destruct l as [|b0 l1]; [done|]. simpl in Hn |- *. destruct (b0 <? 128)%N; [apply Hgo; lia|].
  destruct l1 as [|b1 l2]; [done|]. simpl in Hn. destruct (_ && is_cont b1); [apply Hgo; lia|].
  destruct l2 as [|b2 l3]; [done|]. simpl in Hn.
  set (c3 := ((b0 - 224) * 4096 + (b1 - 128) * 64 + (b2 - 128))%N).
  destruct ((224 <=? b0)%N && (b0 <? 240)%N && is_cont b1 && is_cont b2 && (2048 <=? c3)%N) eqn:H3; cbn [andb].
  - destruct (is_scalar c3); [apply Hgo; lia|]. destruct l3 as [|b3 l4]; [done|].
    repeat (apply andb_prop in H3 as [H3 ?]). rewrite (proj2 (N.leb_gt 240 b0)) by (by apply N.ltb_lt). done.
  - destruct l3 as [|b3 l4]; [done|]. simpl in Hn. destruct (_ && is_scalar _); [apply Hgo; lia|done].
Qed.

Lemma detect_ascii a b l : (0 < a < 128)%N → (0 < b < 128)%N → detect_encoding (a :: b :: l) = EncUtf8.
Proof.
  intros Ha Hb. unfold detect_encoding, starts_with.
  rewrite !bool_decide_eq_false_2 by (unfold utf8_bom; simpl; intros [= ]; lia). cbn [orb].
  rewrite (proj2 (N.eqb_neq a 0)), (proj2 (N.eqb_neq b 0)) by lia. by destruct l as [|? [|? ?]].
Qed.

Lemma decode_object_bytes kvs :
  scalars (json_dumps (JObj kvs)) → decode_bytes (utf8_encode (json_dumps (JObj kvs))) = Some (json_dumps (JObj kvs)).
Proof.
  intros Hs. unfold decode_bytes.
  assert (∃ b l, json_dumps (JObj kvs) = 123%N :: b :: l ∧ (0 < b < 128)%N) as (b & l & He & Hb).
  { destruct kvs as [|[k v] [|kv' kvs]]; do 2 eexists; (split; [reflexivity|lia]). }
  assert (detect_encoding (utf8_encode (json_dumps (JObj kvs))) = EncUtf8) as ->.
  { rewrite He, !utf8_encode_cons. assert (utf8_encode_char 123 = [123%N]) as -> by done.
    assert (utf8_encode_char b = [b]) as -> by (unfold utf8_encode_char; by rewrite (proj2 (N.ltb_lt b 128)) by lia).
    apply detect_ascii; lia. }
  apply utf8_decode_sp_strict. by apply utf8_encode_decode.
Qed.

(** A written object is read back, by every decoder that reads floats as they
    are written. *)
Lemma loads_dumps_object kvs :
  json_ok (JObj kvs) → scalars (json_dumps (JObj kvs)) →
  json_loads float_of (utf8_encode (json_dumps (JObj kvs))) = Ok (JObj kvs).
Proof.
  intros Hok Hs. unfold json_loads. rewrite decode_object_bytes by done. unfold loads_text.
  pose proof (value_reads_back (JObj kvs) (S (length (json_dumps (JObj kvs)))) [] Hok Logic.I ltac:(lia)) as Hv.
  rewrite app_nil_r in Hv. pose proof (skip_ws_dumps (JObj kvs) [] Hok) as Hw. rewrite app_nil_r in Hw.
  by rewrite Hw, Hv.
Qed.
End roundtrip.
