(* ===== verification/Framing.v ===== *)
(** * Framing of JSON-RPC messages

    Model of the wire functions of [src/serena_light/lsp/client.py]
    ([encode_message], [_read_exact], [read_message]) and of the method tables
    of [lsp/protocol.py]. A stream is the list of bytes it will still deliver
    together with the sizes its reads will come in: a read answers with at least
    one byte and at most what was asked for, until the end. *)

From S2P Require Import Prelude Json Paths Positions JsonLoads.

(** ** The wire *)

Definition MAX_CONTENT_BYTES : Z := 64 * 1024 * 1024.
Definition MAX_HEADER_BYTES : Z := 16 * 1024.

Inductive frame_error :=
| EndOfStream                     (** [EOFError] *)
| HeadersTooLong
| MalformedHeader
| DuplicateLength
| InvalidLength
| MissingLength
| LengthOutside
| InvalidBody (e : loads_error)   (** [LspProtocolError], or the [ValueError] of [int] for [IntTooLong] *)
| NotAnObject
| NotEncodable                    (** [UnicodeEncodeError] of a payload with a lone surrogate *)
| FrameFuel.                      (** of the model only *)

(** The errors that are an [LspProtocolError]. *)
Definition is_protocol_error (e : frame_error) : bool :=
  match e with
  | EndOfStream | NotEncodable | FrameFuel | InvalidBody IntTooLong | InvalidBody LoadsFuel => false
  | _ => true
  end.

Definition CRLF : list N := [13; 10]%N.

Definition content_length_header (n : nat) : list N := lit "Content-Length: " ++ dec (Z.of_nat n) ++ CRLF ++ CRLF.

Definition encode_message (payload : json) : res frame_error (list N) :=
  let text := json_dumps payload in
  if forallb is_scalar text then
    let body := utf8_encode text in Ok (content_length_header (length body) ++ body)
  else Err NotEncodable.

Record stream := { st_bytes : list N; st_sizes : list nat }.

(** [stream.readline()] *)
Fixpoint take_line (l : list N) : list N * list N :=
  match l with
  | [] => ([], [])
  | c :: rest => if (c =? 10)%N then ([c], rest) else let '(a, b) := take_line rest in (c :: a, b)
  end.
Definition readline (s : stream) : list N * stream :=
  let '(a, b) := take_line (st_bytes s) in (a, {| st_bytes := b; st_sizes := st_sizes s |}).

(** [stream.read(size)] *)
Definition read (size : nat) (s : stream) : list N * stream :=
  let wanted := match st_sizes s with k :: _ => Nat.min size (Nat.max 1 k) | [] => size end in
  (take wanted (st_bytes s), {| st_bytes := drop wanted (st_bytes s); st_sizes := tail (st_sizes s) |}).

Fixpoint read_loop (fuel remaining : nat) (s : stream) : stream * res frame_error (list N) :=
  match remaining, fuel with
  | O, _ => (s, Ok [])
  | _, O => (s, Err FrameFuel)
  | _, S fuel =>
      let '(chunk, s') := read remaining s in
      if nonempty chunk then
        let '(s'', r) := read_loop fuel (remaining - length chunk) s' in
        (s'', rest ← r; Ok (chunk ++ rest))
      else (s', Err EndOfStream)
  end.

(** Every turn reads a byte, so the size is enough fuel. *)
Definition _read_exact (size : nat) : PyM stream frame_error (list N) := read_loop size size.

(** ** Headers *)

Definition is_space (c : N) : bool := bool_decide (c ∈ [32; 9; 10; 13; 11; 12]%N).
Fixpoint lstrip (l : list N) : list N :=
  match l with
  | c :: rest => if is_space c then lstrip rest else l
  | [] => []
  end.
Definition strip (l : list N) : list N := reverse (lstrip (reverse (lstrip l))).

(** [line.partition(b":")]: [None] without a separator *)
Fixpoint partition_colon (l : list N) : option (list N * list N) :=
  match l with
  | [] => None
  | c :: rest => if (c =? 58)%N then Some ([], rest) else ab ← partition_colon rest; Some (c :: ab.1, ab.2)
  end.

(** The digits of [int(b)]: single underscores may stand between digits. *)
Fixpoint int_digits (after_digit : bool) (l : list N) : option (list N) :=
  match l with
  | [] => if after_digit then Some [] else None
  | c :: rest =>
      if is_digit c then cons c <$> int_digits true rest
      else if (c =? 95)%N && after_digit then int_digits false rest
      else None
  end.

(** [int(b)] of stripped bytes *)
Definition py_int (l : list N) : option Z :=
  let '(negative, l) := match l with
                        | c :: rest => if (c =? 45)%N then (true, rest) else if (c =? 43)%N then (false, rest) else (false, l)
                        | [] => (false, l)
                        end in
  digits ← int_digits false l;
  if bool_decide (MAX_STR_DIGITS < length digits)%nat then None
  else Some ((if negative then -1 else 1) * Z.of_N (dec_value digits)).

Definition content_length_name : list N := lit "content-length".

(** One header line: [None] at the end of the headers, else the content length
    known after it. *)
Definition header_line (line : list N) (content_length : option Z) : res frame_error (option (option Z)) :=
  if bool_decide (line ∈ [[10%N]; CRLF]) then Ok None
  else
    match partition_colon line with
    | None => Err MalformedHeader
    | Some (name, raw_value) =>
        if negb (bool_decide (lower_ascii (strip name) = content_length_name)) then Ok (Some content_length)
        else match content_length with
             | Some _ => Err DuplicateLength
             | None => match py_int (strip raw_value) with Some n => Ok (Some (Some n)) | None => Err InvalidLength end
             end
    end.

(** The [while True] loop: the content length and the stream after the headers. *)
Fixpoint read_headers (fuel : nat) (content_length : option Z) (header_bytes : Z)
    : PyM stream frame_error (option Z) := λ s,
  match fuel with
  | O => (s, Err FrameFuel)
  | S fuel =>
      let '(line, s') := readline s in
      if negb (nonempty line) then (s', Err EndOfStream)
      else
        let header_bytes := header_bytes + Z.of_nat (length line) in
        if bool_decide (MAX_HEADER_BYTES < header_bytes) then (s', Err HeadersTooLong)
        else match header_line line content_length with
             | Err e => (s', Err e)
             | Ok None => (s', Ok content_length)
             | Ok (Some content_length) => read_headers fuel content_length header_bytes s'
             end
  end.

Section framing.
Context (float_of : pystr → pystr).

(** Each header line takes at least one byte off the stream. *)
Definition read_message (max_content_bytes : Z) : PyM stream frame_error json := λ s,
  match read_headers (S (length (st_bytes s))) None 0 s with
  | (s', Err e) => (s', Err e)
  | (s', Ok None) => (s', Err MissingLength)
  | (s', Ok (Some content_length)) =>
      if bool_decide (content_length < 0) || bool_decide (max_content_bytes < content_length) then (s', Err LengthOutside)
      else
        match _read_exact (Z.to_nat content_length) s' with
        | (s'', Err e) => (s'', Err e)
        | (s'', Ok body) =>
            match json_loads float_of body with
            | Err e => (s'', Err (InvalidBody e))
            | Ok (JObj kvs) => (s'', Ok (JObj kvs))
            | Ok _ => (s'', Err NotAnObject)
            end
        end
  end.
End framing.

(** ** The owned methods ([lsp/protocol.py]) *)

Definition _REQUESTS : list pystr :=
  [lit "initialize"; lit "shutdown"; lit "workspace/configuration"; lit "workspace/symbol"; lit "textDocument/documentSymbol";
   lit "textDocument/hover"; lit "textDocument/definition"; lit "textDocument/implementation"; lit "textDocument/references"].

Definition _NOTIFICATIONS : list pystr :=
  [lit "initialized"; lit "exit"; lit "$/cancelRequest"; lit "textDocument/didOpen"; lit "textDocument/didChange";
   lit "textDocument/didSave"; lit "textDocument/didClose"; lit "workspace/didChangeConfiguration";
   lit "workspace/didChangeWatchedFiles"; lit "textDocument/publishDiagnostics"].

Inductive protocol_error := UnsupportedRequest | UnsupportedNotification | NoMethod | InvalidMessage | NotAnObjectMessage.

Definition request_models (method : pystr) : res protocol_error pystr :=
  if bool_decide (method ∈ _REQUESTS) then Ok method else Err UnsupportedRequest.
Definition notification_model (method : pystr) : res protocol_error pystr :=
  if bool_decide (method ∈ _NOTIFICATIONS) then Ok method else Err UnsupportedNotification.

Definition _method_from (message : list (pystr * json)) : res protocol_error pystr :=
  match dict_get message (lit "method") with Some (JStr m) => Ok m | _ => Err NoMethod end.

Section models.
(** The converter of [lsprotocol]: structuring a message by the model of a
    method, and its inverse. *)
Context {M : Type} (structure_request structure_response structure_notification : pystr → list (pystr * json) → option M)
        (unstructure : M → json).

Definition _structure (r : option M) : res protocol_error M := match r with Some x => Ok x | None => Err InvalidMessage end.

Definition decode_request (message : list (pystr * json)) : res protocol_error M :=
  method ← _method_from message; model ← request_models method; _structure (structure_request model message).
Definition decode_response (method : pystr) (message : list (pystr * json)) : res protocol_error M :=
  model ← request_models method; _structure (structure_response model message).
Definition decode_notification (message : list (pystr * json)) : res protocol_error M :=
  method ← _method_from message; model ← notification_model method; _structure (structure_notification model message).
Definition encode_model (x : M) : res protocol_error json :=
  match unstructure x with JObj kvs => Ok (JObj kvs) | _ => Err NotAnObjectMessage end.
End models.

(** ** Reading back *)

Lemma take_line_app h x : 10%N ∉ h → take_line (h ++ 10%N :: x) = (h ++ [10%N], x).
Proof.
  induction h as [|c h IH]; intros Hh; [done|]. apply not_elem_of_cons in Hh as [Hc Hh]. simpl.
  rewrite (proj2 (N.eqb_neq c 10)) by done. by rewrite IH.
Qed.

Lemma take_line_split l : l = (take_line l).1 ++ (take_line l).2.
Proof. induction l as [|c l IH]; [done|]. simpl. destruct (c =? 10)%N; [done|]. destruct (take_line l). simpl in *. by rewrite <-IH. Qed.

(** However the reads are cut, an exact read takes exactly its size. *)
Lemma read_loop_exact fuel remaining s :
  (remaining ≤ fuel)%nat → (remaining ≤ length (st_bytes s))%nat →
  ∃ sizes, read_loop fuel remaining s =
    ({| st_bytes := drop remaining (st_bytes s); st_sizes := sizes |}, Ok (take remaining (st_bytes s))).
Proof.
  revert remaining s. induction fuel as [|fuel IH]; intros remaining s Hf Hl.
  { assert (remaining = 0%nat) as -> by lia. exists (st_sizes s). simpl. rewrite drop_0. by destruct s. }
  destruct remaining as [|k]; [exists (st_sizes s); simpl; rewrite drop_0; by destruct s|]. set (remaining := S k) in *.
  cbn [read_loop]. unfold remaining. cbn beta iota. fold remaining. unfold read.
  set (wanted := match st_sizes s with [] => _ | _ => _ end).
  assert (1 ≤ wanted ≤ remaining)%nat as Hw by (unfold wanted; destruct (st_sizes s); unfold remaining in *; lia).
  assert (length (take wanted (st_bytes s)) = wanted) as Hlen by (rewrite length_take; lia).
  destruct (take wanted (st_bytes s)) as [|c chunk] eqn:Hchunk; [simpl in Hlen; lia|]. cbn [nonempty]. rewrite Hlen.
  destruct (IH (remaining - wanted)%nat {| st_bytes := drop wanted (st_bytes s); st_sizes := tail (st_sizes s) |}) as (sizes & ->);
    [lia|simpl; rewrite length_drop; lia|].
  exists sizes. simpl. rewrite drop_drop. replace (wanted + (remaining - wanted))%nat with remaining by lia. f_equal.
  change (c :: chunk ++ ?x) with ((c :: chunk) ++ x). rewrite <-Hchunk.
  replace (take remaining (st_bytes s)) with (take (wanted + (remaining - wanted)) (st_bytes s)) by (f_equal; lia).
  by rewrite take_take_drop.
Qed.

Lemma strip_token h d t :
  Forall (λ c, is_space c = true) h → Forall (λ c, is_space c = true) t →
  d ≠ [] → Forall (λ c, is_space c = false) d → strip (h ++ d ++ t) = d.
Proof.
  assert (∀ h x, Forall (λ c, is_space c = true) h → lstrip (h ++ x) = lstrip x) as Hdrop.
  { intros h' x. induction 1 as [|c h' Hc Hh IH]; [done|]. simpl. by rewrite Hc. }
  assert (∀ x y, x ≠ [] → Forall (λ c, is_space c = false) x → lstrip (x ++ y) = x ++ y) as Hkeep.
  { intros [|c x] y Hx Hall; [done|]. inversion_clear Hall as [|? ? Hc _]. simpl. by rewrite Hc. }
  intros Hh Ht Hd Hall. unfold strip. rewrite Hdrop, Hkeep by done. rewrite reverse_app, Hdrop by (by apply Forall_reverse).
  rewrite <-(app_nil_r (reverse d)), Hkeep, app_nil_r, reverse_involutive; [done| |by apply Forall_reverse].
  intros Hn. apply Hd. rewrite <-(reverse_involutive d), Hn. done.
Qed.

Lemma digit_not_space c : digit c → is_space c = false.
Proof.
  intros [H1 H2]. apply bool_decide_eq_false_2. intros Hin. repeat (apply elem_of_cons in Hin as [->|Hin]; [lia|]).
  by apply elem_of_nil in Hin.
Qed.

Lemma int_digits_all b d : Forall digit d → d ≠ [] ∨ b = true → int_digits b d = Some d.
Proof.
  intros Hd. revert b. induction Hd as [|c d Hc Hd IH]; intros b Hb; simpl; [by destruct Hb as [?| ->]|].
  rewrite digit_is_digit by done. rewrite IH; [done|by right].
Qed.

Lemma py_int_dec n : (length (dec_N n) ≤ MAX_STR_DIGITS)%nat → py_int (dec_N n) = Some (Z.of_N n).
Proof.
  intros Hn. pose proof (dec_go_digits (S (N.to_nat (N.log2 n))) n) as Hall. change (Forall digit (dec_N n)) in Hall.
  pose proof (dec_N_value n) as Hv. unfold py_int. destruct (dec_N n) as [|c l] eqn:Hd.
  { pose proof (scan_int_dec n) as Hs. by rewrite Hd in Hs. }
  inversion_clear Hall as [|? ? [H1 H2] Hl]. rewrite (proj2 (N.eqb_neq c 45)), (proj2 (N.eqb_neq c 43)) by lia.
  rewrite int_digits_all by (by constructor || by left). cbn [mbind option_bind].
  rewrite bool_decide_eq_false_2 by lia. by rewrite Hv, Z.mul_1_l.
Qed.

Lemma dec_of_nat n : dec (Z.of_nat n) = dec_N (N.of_nat n).
Proof. unfold dec. rewrite (proj2 (Z.ltb_ge _ _)) by lia. f_equal; lia. Qed.

Lemma header_line_content_length n :
  (length (dec_N (N.of_nat n)) ≤ MAX_STR_DIGITS)%nat →
  header_line (lit "Content-Length: " ++ dec (Z.of_nat n) ++ CRLF) None = Ok (Some (Some (Z.of_nat n))).
Proof.
  intros Hn. rewrite dec_of_nat.
  pose proof (dec_go_digits (S (N.to_nat (N.log2 (N.of_nat n)))) (N.of_nat n)) as Hall.
  change (Forall digit (dec_N (N.of_nat n))) in Hall. unfold header_line.
  rewrite bool_decide_eq_false_2 by (intros Hin; repeat (apply elem_of_cons in Hin as [Hin|Hin]; [discriminate Hin|]); by apply elem_of_nil in Hin).
  assert (partition_colon (lit "Content-Length: " ++ dec_N (N.of_nat n) ++ CRLF) =
    Some (lit "Content-Length", lit " " ++ dec_N (N.of_nat n) ++ CRLF)) as -> by reflexivity.
  rewrite bool_decide_eq_true_2 by (vm_compute; reflexivity). cbn [negb].
  rewrite strip_token.
  - rewrite py_int_dec by done. do 3 f_equal. lia.
  - by repeat constructor.
  - by repeat constructor.
  - intros Hd. pose proof (scan_int_dec (N.of_nat n)) as Hs. by rewrite Hd in Hs.
  - eapply Forall_impl; [exact Hall|]. apply digit_not_space.
Qed.

Section frames.
Context (float_of : pystr → pystr).

Lemma read_headers_frame n x sizes fuel :
  (1 < fuel)%nat → (length (dec_N (N.of_nat n)) ≤ 8)%nat →
  read_headers fuel None 0 {| st_bytes := content_length_header n ++ x; st_sizes := sizes |} =
    ({| st_bytes := x; st_sizes := sizes |}, Ok (Some (Z.of_nat n))).
Proof.
  intros Hf Hn. destruct fuel as [|[|fuel]]; [lia..|]. cbn [read_headers]. unfold readline. cbn [st_bytes st_sizes].
  set (first := lit "Content-Length: " ++ dec (Z.of_nat n) ++ CRLF).
  assert (Forall (λ c, c ≠ 10%N) (lit "Content-Length: " ++ dec (Z.of_nat n) ++ [13%N])) as Hno.
  { apply Forall_app. split; [by repeat constructor|]. apply Forall_app. split; [|by repeat constructor].
    eapply Forall_impl; [apply dec_number|]. unfold digit. intros c [?| ->]; [lia|done]. }
  assert (take_line (content_length_header n ++ x) = (first, CRLF ++ x)) as ->.
  { unfold content_length_header, first, CRLF.
    replace ((lit "Content-Length: " ++ dec (Z.of_nat n) ++ [13%N; 10%N] ++ [13%N; 10%N]) ++ x)
      with ((lit "Content-Length: " ++ dec (Z.of_nat n) ++ [13%N]) ++ 10%N :: [13%N; 10%N] ++ x) by (by rewrite <-!app_assoc).
    rewrite take_line_app.
    - by rewrite <-!app_assoc.
    - intros Hin. rewrite Forall_forall in Hno. by apply (Hno 10%N Hin). }
  assert (nonempty first = true) as -> by done. cbn [negb].
  assert (length first = 18 + length (dec_N (N.of_nat n)))%nat as Hlen.
  { unfold first. rewrite !length_app, dec_of_nat. change (length (lit "Content-Length: ")) with 16%nat. change (length CRLF) with 2%nat. lia. }
  rewrite (bool_decide_eq_false_2 (MAX_HEADER_BYTES < _)) by (unfold MAX_HEADER_BYTES; lia).
  unfold first. rewrite header_line_content_length by (unfold MAX_STR_DIGITS; lia). fold first.
  cbn [st_bytes st_sizes]. change (take_line (CRLF ++ x)) with (CRLF, x). cbn [nonempty negb].
  change (Z.of_nat (length CRLF)) with 2.
  rewrite (bool_decide_eq_false_2 (MAX_HEADER_BYTES < _)) by (unfold MAX_HEADER_BYTES; lia). reflexivity.
Qed.

Lemma read_message_frame kvs frame rest sizes :
  json_ok float_of (JObj kvs) → encode_message (JObj kvs) = Ok frame →
  Z.of_nat (length frame) ≤ MAX_CONTENT_BYTES →
  ∃ sizes', read_message float_of MAX_CONTENT_BYTES {| st_bytes := frame ++ rest; st_sizes := sizes |} =
    ({| st_bytes := rest; st_sizes := sizes' |}, Ok (JObj kvs)).
Proof.
  intros Hok Henc Hmax. unfold encode_message in Henc. destruct (forallb is_scalar _) eqn:Hs; [|done].
  set (body := utf8_encode (json_dumps (JObj kvs))) in *. assert (frame = content_length_header (length body) ++ body) as ->
    by (by injection Henc). clear Henc.
  assert (scalars (json_dumps (JObj kvs))) as Hsc.
  { apply Forall_forall. intros c Hc. rewrite forallb_forall in Hs. by apply Hs, list_elem_of_In. }
  rewrite length_app in Hmax. unfold read_message. cbn [st_bytes].
  assert (length (dec_N (N.of_nat (length body))) ≤ 8)%nat as H8.
  { rewrite <-dec_of_nat. apply (dec_length _ 7). unfold MAX_CONTENT_BYTES in Hmax. change (10 ^ Z.of_nat 8) with 100000000. lia. }
  rewrite <-(app_assoc (content_length_header (length body)) body rest).
  rewrite read_headers_frame; [| |done].
  2:{ rewrite length_app. unfold content_length_header. rewrite !length_app. change (length (lit "Content-Length: ")) with 16%nat. lia. }
  rewrite (bool_decide_eq_false_2 (Z.of_nat (length body) < 0)) by lia.
  rewrite (bool_decide_eq_false_2 (MAX_CONTENT_BYTES < Z.of_nat (length body))) by lia. cbn [orb]. unfold _read_exact. rewrite Nat2Z.id.
  destruct (read_loop_exact (length body) (length body) {| st_bytes := body ++ rest; st_sizes := sizes |}) as (sizes' & ->);
    [lia|simpl; rewrite length_app; lia|].
  cbn [st_bytes]. rewrite drop_app_length, take_app_length. unfold body at 1. rewrite loads_dumps_object by done.
  by exists sizes'.
Qed.

(** Reading messages until the stream ends. *)
Fixpoint read_all (fuel : nat) (s : stream) : list json * res frame_error unit :=
  match fuel with
  | O => ([], Err FrameFuel)
  | S fuel =>
      match read_message float_of MAX_CONTENT_BYTES s with
      | (s', Ok v) => let '(vs, r) := read_all fuel s' in (v :: vs, r)
      | (_, Err e) => ([], Err e)
      end
  end.
End frames.

(** The frame of a message within the size limit. *)
Definition frame_of (kvs : list (pystr * json)) (frame : list N) : Prop :=
  encode_message (JObj kvs) = Ok frame ∧ Z.of_nat (length frame) ≤ MAX_CONTENT_BYTES.

(** C30: Framing round trip: any sequence of messages, written one after the
    other and delivered in chunks of any sizes, is read back message by message,
    in order and with nothing lost between them, and then the end of the stream
    is reported. *)
Theorem frames_round_trip float_of (messages : list (list (pystr * json))) frames sizes fuel :
  Forall (λ kvs, json_ok float_of (JObj kvs)) messages → Forall2 frame_of messages frames →
  (length messages < fuel)%nat →
  read_all float_of fuel {| st_bytes := concat frames; st_sizes := sizes |} = (JObj <$> messages, Err EndOfStream).
Proof.
  intros Hok Hfr. revert sizes fuel Hok. induction Hfr as [|kvs frame messages frames [Henc Hlen] Hfr IH];
    intros sizes fuel Hok Hf; (destruct fuel as [|fuel]; [simpl in Hf; lia|]); [done|].
  apply Forall_cons in Hok as [Hk Hok]. cbn [read_all concat].
  destruct (read_message_frame float_of kvs frame (concat frames) sizes Hk Henc Hlen) as (sizes' & ->).
  rewrite IH; [done|done|simpl in Hf; lia].
Qed.

(** The limit on the headers is checked after a line is read: a line without
    an end is taken off the stream whole, however long it is. *)
Lemma header_limit_is_late float_of n :
  MAX_HEADER_BYTES < Z.of_nat n →
  read_message float_of MAX_CONTENT_BYTES {| st_bytes := replicate n 65%N; st_sizes := [] |} =
    ({| st_bytes := []; st_sizes := [] |}, Err HeadersTooLong).
Proof.
  intros Hn. unfold read_message, MAX_HEADER_BYTES in *. cbn [st_bytes]. rewrite length_replicate. cbn [read_headers]. unfold readline. cbn [st_bytes].
  assert (∀ k, take_line (replicate k 65%N) = (replicate k 65%N, [])) as ->
    by (intros k; induction k as [|k IH]; [done|]; simpl; by rewrite IH).
  destruct n as [|n]; [lia|]. cbn [replicate nonempty negb]. rewrite length_cons, length_replicate.
  rewrite bool_decide_eq_true_2 by (unfold MAX_HEADER_BYTES; lia). done.
Qed.

Module FramingExamples.
Definition hello : list (pystr * json) :=
  [(lit "jsonrpc", JStr (lit "2.0")); (lit "id", JInt 1); (lit "result", JList [JNull; JStr [233; 34; 10]%N; JObj []; JInt (-7)])].

Lemma frames_round_trip_witness :
  ∃ frame, encode_message (JObj hello) = Ok frame ∧
    read_all id 3 {| st_bytes := frame ++ frame; st_sizes := [3; 1; 200]%nat |} = ([JObj hello; JObj hello], Err EndOfStream).
Proof.
  destruct (encode_message (JObj hello)) as [frame|] eqn:He; [|vm_compute in He; discriminate].
  exists frame. split; [reflexivity|].
  assert (json_ok id (JObj hello)) as Hok.
  { apply json_ok_obj. split; [apply (bool_decide_eq_true_1 _); vm_compute; reflexivity|].
    repeat apply Forall_cons_2; try apply Forall_nil_2; cbn [snd json_ok foldr fmap list_fmap];
      repeat split; try apply NoDup_nil_2; apply Nat.leb_le; vm_compute; reflexivity. }
  assert (frame_of hello frame) as Hf.
  { split; [exact He|]. vm_compute in He. injection He as <-. vm_compute. discriminate. }
  pose proof (frames_round_trip id [hello; hello] [frame; frame] [3; 1; 200]%nat 3) as H.
  cbn [concat] in H. rewrite app_nil_r in H. apply H; [apply Forall_cons_2; [exact Hok|apply Forall_cons_2; [exact Hok|apply Forall_nil_2]]
    |by apply Forall2_cons_2; [exact Hf|apply Forall2_cons_2; [exact Hf|apply Forall2_nil_2]]|simpl; lia].
Defined.
End FramingExamples.
