(* ===== verification/Client.v ===== *)
(** * The synchronous language-server client

    Model of [SyncLspClient] of [src/serena_light/lsp/client.py]: callers that
    register a request, send it and wait on a queue of one slot, the reader
    thread that frames and dispatches messages, and [_fail_all], which ends
    every pending request when the transport is lost. Each action that is atomic
    in the code (a section under [_pending_lock], an operation of a queue, a
    write) is one step of [client_step]; the interleaving is arbitrary. *)

From S2P Require Import Prelude Json Framing.

Abbreviation payload := (list (pystr * json)).

Definition CONTENT_MODIFIED : Z := -32801.
Definition METHOD_NOT_FOUND : Z := -32601.
Definition INTERNAL_ERROR : Z := -32603.

Definition READ_ONLY_RETRY_METHODS : list pystr :=
  [lit "workspace/symbol"; lit "textDocument/documentSymbol"; lit "textDocument/hover"; lit "textDocument/definition";
   lit "textDocument/implementation"; lit "textDocument/references"].

(** ** Messages *)

Definition _params_field (method : pystr) (params : option json) : payload :=
  if bool_decide (method ∈ [lit "shutdown"; lit "exit"]) then []
  else [(lit "params", default (JObj []) params)].

Definition request_payload (id : Z) (method : pystr) (params : option json) : payload :=
  [(lit "jsonrpc", JStr (lit "2.0")); (lit "id", JInt id); (lit "method", JStr method)] ++ _params_field method params.
Definition notification_payload (method : pystr) (params : option json) : payload :=
  [(lit "jsonrpc", JStr (lit "2.0")); (lit "method", JStr method)] ++ _params_field method params.

(** What ends a transport. *)
Inductive terminal_error :=
| ClientClosed
| WriteFailed
| ReaderStopped
| StreamEnded
| ReadFailed (e : frame_error)
| BadMethod
| UnknownShape
| BadResponseId
| HandlerFailed.

(** What [_dispatch] does with a message. *)
Inductive dispatch_kind :=
| DServerRequest (id : json) (method : pystr) (params : option json)
| DNotification (method : pystr) (params : option json)
| DResponse (id : Z).

Section dispatch.
(** [str.isdigit] and [int] of a string of digits *)
Context (isdigit : pystr → bool) (int_of_str : pystr → option Z).

Definition classify (p : payload) : res terminal_error dispatch_kind :=
  match dict_get p (lit "method") with
  | Some method =>
      match method with
      | JStr m =>
          if nonempty m then
            match dict_get p (lit "id") with
            | Some id => Ok (DServerRequest id m (dict_get p (lit "params")))
            | None => Ok (DNotification m (dict_get p (lit "params")))
            end
          else Err BadMethod
      | _ => Err BadMethod
      end
  | None =>
      match dict_get p (lit "id") with
      | None => Err UnknownShape
      | Some (JStr s) =>
          if isdigit s then match int_of_str s with Some z => Ok (DResponse z) | None => Err BadResponseId end
          else Err BadResponseId
      | Some (JInt z) => Ok (DResponse z)
      | Some (JBool b) => Ok (DResponse (Z.b2z b))
      | Some _ => Err BadResponseId
      end
  end.
End dispatch.

(** The reply to a request of the server: [handler] is [None] when none is
    registered, and answers with an error text when it raises. *)
Definition _handle_server_request (id : json) (method : pystr) (params : option json)
    (handler : option (option json → res pystr json)) : payload :=
  match handler with
  | None => [(lit "jsonrpc", JStr (lit "2.0")); (lit "id", id);
             (lit "error", JObj [(lit "code", JInt METHOD_NOT_FOUND);
                                 (lit "message", JStr (lit "unsupported server request: " ++ method))])]
  | Some h =>
      match h params with
      | Ok result => [(lit "jsonrpc", JStr (lit "2.0")); (lit "id", id); (lit "result", result)]
      | Err text => [(lit "jsonrpc", JStr (lit "2.0")); (lit "id", id);
                     (lit "error", JObj [(lit "code", JInt INTERNAL_ERROR); (lit "message", JStr text)])]
      end
  end.

(** ** Requests *)

Inductive item := Response (p : payload) | Failure (e : terminal_error).

(** How a caller leaves [_request_once]. *)
Inductive outcome :=
| Got (it : item)
| TimedOut
| BadTimeout
| NotEncoded
| SendFailed.

Inductive request_state :=
| Sending
| FailingSend                (** the write failed: [_fail_all] is running in this thread *)
| Waiting
| Leaving (o : outcome)      (** before the [finally] clause *)
| Finished (o : outcome).

Inductive reader_state :=
| Reading
| Putting (id : Z) (p : payload)   (** the queue of [id] was looked up *)
| Answering                        (** sending the reply to a server request *)
| Stopping (e : terminal_error)
| Draining                         (** in [_fail_all] *)
| Stopped.

Inductive owner := ByRequest (id : Z) | ByReader (stopping : bool) | ByCloser.

Record client := {
  cl_next_id : Z;
  cl_pending : gset Z;
  cl_queue : gmap Z item;           (** the queues that are full *)
  cl_terminal : option terminal_error;
  cl_closing : bool;
  cl_requests : gmap Z request_state;
  cl_reader : reader_state;
  cl_failing : list (list Z * terminal_error * owner);   (** queues [_fail_all] has yet to fill *)
}.

Definition client_init : client :=
  {| cl_next_id := 1; cl_pending := ∅; cl_queue := ∅; cl_terminal := None; cl_closing := false; cl_requests := ∅;
     cl_reader := Reading; cl_failing := [] |}.

Definition set_request (id : Z) (r : request_state) (c : client) : client :=
  {| cl_next_id := cl_next_id c; cl_pending := cl_pending c; cl_queue := cl_queue c; cl_terminal := cl_terminal c;
     cl_closing := cl_closing c; cl_requests := <[id := r]> (cl_requests c); cl_reader := cl_reader c; cl_failing := cl_failing c |}.
Definition set_reader (r : reader_state) (c : client) : client :=
  {| cl_next_id := cl_next_id c; cl_pending := cl_pending c; cl_queue := cl_queue c; cl_terminal := cl_terminal c;
     cl_closing := cl_closing c; cl_requests := cl_requests c; cl_reader := r; cl_failing := cl_failing c |}.
Definition set_queue (q : gmap Z item) (c : client) : client :=
  {| cl_next_id := cl_next_id c; cl_pending := cl_pending c; cl_queue := q; cl_terminal := cl_terminal c;
     cl_closing := cl_closing c; cl_requests := cl_requests c; cl_reader := cl_reader c; cl_failing := cl_failing c |}.
Definition set_pending (p : gset Z) (c : client) : client :=
  {| cl_next_id := cl_next_id c; cl_pending := p; cl_queue := cl_queue c; cl_terminal := cl_terminal c;
     cl_closing := cl_closing c; cl_requests := cl_requests c; cl_reader := cl_reader c; cl_failing := cl_failing c |}.
Definition set_failing (f : list (list Z * terminal_error * owner)) (c : client) : client :=
  {| cl_next_id := cl_next_id c; cl_pending := cl_pending c; cl_queue := cl_queue c; cl_terminal := cl_terminal c;
     cl_closing := cl_closing c; cl_requests := cl_requests c; cl_reader := cl_reader c; cl_failing := f |}.
Definition set_closing (c : client) : client :=
  {| cl_next_id := cl_next_id c; cl_pending := cl_pending c; cl_queue := cl_queue c; cl_terminal := cl_terminal c;
     cl_closing := true; cl_requests := cl_requests c; cl_reader := cl_reader c; cl_failing := cl_failing c |}.

Definition _raise_if_terminal (c : client) : bool :=
  match cl_terminal c with Some _ => true | None => cl_closing c end.

(** [_request_once] under the lock: the new id, or nothing once the transport
    is terminal or closing. *)
Definition register (c : client) : option (Z * client) :=
  if _raise_if_terminal c then None
  else let id := cl_next_id c in
       Some (id, {| cl_next_id := id + 1; cl_pending := cl_pending c ∪ {[id]}; cl_queue := cl_queue c;
                    cl_terminal := cl_terminal c; cl_closing := cl_closing c;
                    cl_requests := <[id := Sending]> (cl_requests c); cl_reader := cl_reader c; cl_failing := cl_failing c |}).

(** [_fail_all] under the lock. *)
Definition fail_begin (e : terminal_error) (o : owner) (c : client) : client :=
  {| cl_next_id := cl_next_id c; cl_pending := ∅; cl_queue := cl_queue c;
     cl_terminal := match cl_terminal c with Some t => Some t | None => Some e end;
     cl_closing := cl_closing c; cl_requests := cl_requests c; cl_reader := cl_reader c;
     cl_failing := cl_failing c ++ [(elements (cl_pending c), e, o)] |}.

(** [request.response.put_nowait(error)] with [queue.Full] suppressed *)
Definition put_nowait (id : Z) (it : item) (q : gmap Z item) : gmap Z item :=
  match q !! id with Some _ => q | None => <[id := it]> q end.

(** The owner of a [_fail_all] goes on when it returns. *)
Definition resume_owner (o : owner) (c : client) : client :=
  match o with
  | ByRequest id => set_request id (Leaving SendFailed) c
  | ByReader true => set_reader Stopped c
  | ByReader false => set_reader (Stopping WriteFailed) c
  | ByCloser => c
  end.

(** ** Steps *)

Inductive client_step (c : client) : client → Prop :=
| step_register id c' : register c = Some (id, c') → client_step c c'
| step_encode_failed id : cl_requests c !! id = Some Sending → client_step c (set_request id (Leaving NotEncoded) c)
| step_sent id : cl_requests c !! id = Some Sending → client_step c (set_request id Waiting c)
| step_bad_timeout id : cl_requests c !! id = Some Sending → client_step c (set_request id (Leaving BadTimeout) c)
| step_send_failed id : cl_requests c !! id = Some Sending →
    client_step c (fail_begin WriteFailed (ByRequest id) (set_request id FailingSend c))
| step_get id it : cl_requests c !! id = Some Waiting → cl_queue c !! id = Some it →
    client_step c (set_request id (Leaving (Got it)) (set_queue (delete id (cl_queue c)) c))
| step_timeout id : cl_requests c !! id = Some Waiting → cl_queue c !! id = None →
    client_step c (set_request id (Leaving TimedOut) c)
| step_pop id o : cl_requests c !! id = Some (Leaving o) →
    client_step c (set_request id (Finished o) (set_pending (cl_pending c ∖ {[id]}) c))
| step_notify_failed : client_step c (fail_begin WriteFailed ByCloser c)
| step_response id p isdigit int_of_str :
    cl_reader c = Reading → classify isdigit int_of_str p = Ok (DResponse id) → id ∈ cl_pending c →
    client_step c (set_reader (Putting id p) c)
| step_stray id p isdigit int_of_str :
    cl_reader c = Reading → classify isdigit int_of_str p = Ok (DResponse id) → id ∉ cl_pending c → client_step c c
| step_put id p : cl_reader c = Putting id p → cl_queue c !! id = None →
    client_step c (set_reader Reading (set_queue (<[id := Response p]> (cl_queue c)) c))
| step_server_request : cl_reader c = Reading → client_step c (set_reader Answering c)
| step_answered : cl_reader c = Answering → client_step c (set_reader Reading c)
| step_answer_failed : cl_reader c = Answering →
    client_step c (fail_begin WriteFailed (ByReader false) (set_reader Draining c))
| step_read_error e : cl_reader c = Reading ∨ cl_reader c = Answering → client_step c (set_reader (Stopping e) c)
| step_loop_ends : cl_reader c = Reading → cl_closing c = true → client_step c (set_reader (Stopping ReaderStopped) c)
| step_reader_fails e : cl_reader c = Stopping e →
    client_step c (fail_begin e (ByReader true) (set_reader Draining c))
| step_close : client_step c (set_closing c)
| step_close_fails : cl_closing c = true → client_step c (fail_begin ClientClosed ByCloser c)
| step_fail_one pre id ids e o post : cl_failing c = pre ++ (id :: ids, e, o) :: post →
    client_step c (set_failing (pre ++ (ids, e, o) :: post) (set_queue (put_nowait id (Failure e) (cl_queue c)) c))
| step_fail_done pre e o post : cl_failing c = pre ++ ([], e, o) :: post →
    client_step c (resume_owner o (set_failing (pre ++ post) c)).

Inductive client_reachable : client → Prop :=
| reach_init : client_reachable client_init
| reach_step c c' : client_reachable c → client_step c c' → client_reachable c'.

(** ** The result of a request *)

Inductive request_error :=
| TransportLost (e : terminal_error)
| RequestTimeout
| RequestValueError
| ErrorNotObject
| NeitherResultNorError
| ResponseError (code : Z) (message : pystr) (data : option json)
| BadCode.            (** [int] of the code raises *)

Section result.
(** [int(value)] and [str(value)] of a JSON value *)
Context (int_of : json → option Z) (str_of : json → pystr).

Definition response_result (p : payload) : res request_error json :=
  match dict_get p (lit "error") with
  | Some (JObj error) =>
      match int_of (default (JInt INTERNAL_ERROR) (dict_get error (lit "code"))) with
      | Some code => Err (ResponseError code (str_of (default (JStr []) (dict_get error (lit "message")))) (dict_get error (lit "data")))
      | None => Err BadCode
      end
  | Some _ => Err ErrorNotObject
  | None => match dict_get p (lit "result") with Some r => Ok r | None => Err NeitherResultNorError end
  end.

Definition outcome_result (o : outcome) : res request_error json :=
  match o with
  | Got (Response p) => response_result p
  | Got (Failure e) => Err (TransportLost e)
  | TimedOut => Err RequestTimeout
  | BadTimeout | NotEncoded => Err RequestValueError
  | SendFailed => Err (TransportLost WriteFailed)
  end.
End result.

(** [request]: the attempts left, and the results successive attempts have.
    The second component counts the attempts made. *)
Fixpoint attempt_request (attempts : nat) (results : nat → res request_error json) (k : nat)
    : res request_error json * nat :=
  match attempts with
  | O => (Err RequestValueError, k)   (** unreachable *)
  | S attempts =>
      match results k with
      | Err (ResponseError code message data) =>
          if bool_decide (code ≠ CONTENT_MODIFIED) || bool_decide (attempts = 0%nat)
          then (Err (ResponseError code message data), S k)
          else attempt_request attempts results (S k)
      | r => (r, S k)
      end
  end.

Definition request (retry_methods : list pystr) (method : pystr) (results : nat → res request_error json)
    : res request_error json * nat :=
  attempt_request (if bool_decide (method ∈ retry_methods) then 3 else 1) results 0.

Definition set_content_modified_retry_methods (methods : list pystr) : option (list pystr) :=
  if forallb (λ m, bool_decide (m ∈ READ_ONLY_RETRY_METHODS)) methods then Some methods else None.

(** ** The invariant *)

(** The message [p] is a response to the request [id]. *)
Definition answers (id : Z) (p : payload) : Prop :=
  ∃ isdigit int_of_str, classify isdigit int_of_str p = Ok (DResponse id).

Definition outcome_of (r : request_state) : option outcome :=
  match r with Leaving o | Finished o => Some o | _ => None end.
Definition in_flight (r : request_state) : Prop := r = Sending ∨ r = Waiting.
Definition is_finished (r : request_state) : Prop := ∃ o, r = Finished o.

(** [_fail_all] has still to reach this queue. *)
Definition to_fail (c : client) (id : Z) : Prop := ∃ ids e o, (ids, e, o) ∈ cl_failing c ∧ id ∈ ids.

(** An item is for the request it is delivered to, and a failure comes with
    the end of the transport. *)
Definition item_ok (c : client) (id : Z) (it : item) : Prop :=
  match it with Response p => answers id p | Failure _ => is_Some (cl_terminal c) end.

Record client_inv (c : client) : Prop := {
  ci_next : 1 ≤ cl_next_id c;
  ci_ids : ∀ id, is_Some (cl_requests c !! id) → 0 < id < cl_next_id c;
  ci_pending : ∀ id, id ∈ cl_pending c → ∃ r, cl_requests c !! id = Some r ∧ ¬ is_finished r;
  ci_terminal : is_Some (cl_terminal c) → cl_pending c = ∅;
  ci_wait : ∀ id r, cl_requests c !! id = Some r → in_flight r →
    id ∈ cl_pending c ∨ is_Some (cl_queue c !! id) ∨ to_fail c id;
  ci_queue : ∀ id it, cl_queue c !! id = Some it → item_ok c id it;
  ci_put : ∀ id p, cl_reader c = Putting id p → answers id p;
  ci_got : ∀ id r it, cl_requests c !! id = Some r → outcome_of r = Some (Got it) → item_ok c id it;
  ci_failing : cl_failing c ≠ [] → is_Some (cl_terminal c);
  ci_owner : ∀ ids e id, (ids, e, ByRequest id) ∈ cl_failing c → is_Some (cl_requests c !! id);
}.

Lemma client_inv_init : client_inv client_init.
Proof. split; simpl; try done; try (by intros ? [? ?]); try (intros id; set_solver). all: intros id ?; by rewrite lookup_empty. Qed.

Lemma inv_set_request c id r0 r :
  client_inv c → cl_requests c !! id = Some r0 → (in_flight r → in_flight r0) → (is_finished r → id ∉ cl_pending c) →
  (∀ it, outcome_of r = Some (Got it) → item_ok c id it) → client_inv (set_request id r c).
Proof.
  intros [Hnx Hids Hp Ht Hw Hq Hput Hgot Hf Ho] Hr0 Hfl Hfin Hit. split; simpl; try done.
  - intros j [? Hj]. destruct (decide (j = id)) as [->|]; [apply Hids; by eexists|]. rewrite lookup_insert_ne in Hj by done. apply Hids. by eexists.
  - intros j Hj. destruct (decide (j = id)) as [->|].
    + exists r. rewrite lookup_insert_eq. split; [done|]. intros Hr. by apply Hfin.
    + rewrite lookup_insert_ne by done. by apply Hp.
  - intros j r' Hj Hr'. destruct (decide (j = id)) as [->|].
    + rewrite lookup_insert_eq in Hj. simplify_eq. apply (Hw id r0 Hr0). auto.
    + rewrite lookup_insert_ne in Hj by done. by apply (Hw j r').
  - intros j r' it Hj Hout. destruct (decide (j = id)) as [->|].
    + rewrite lookup_insert_eq in Hj. simplify_eq. by apply Hit.
    + rewrite lookup_insert_ne in Hj by done. by apply (Hgot j r' it).
  - intros ids e j Hj. apply lookup_insert_is_Some. destruct (decide (id = j)); [by left|right; eauto].
Qed.

Lemma inv_set_reader c r :
  client_inv c → (∀ id p, r = Putting id p → answers id p) → client_inv (set_reader r c).
Proof. intros [] Hr. by split. Qed.

Lemma inv_set_closing c : client_inv c → client_inv (set_closing c).
Proof. intros []. by split. Qed.

Lemma inv_fail_begin c e o :
  client_inv c → (∀ id, o = ByRequest id → is_Some (cl_requests c !! id)) → client_inv (fail_begin e o c).
Proof.
  intros [Hnx Hids Hp Ht Hw Hq Hput Hgot Hf Ho] Hown.
  assert (∀ id it, item_ok c id it → item_ok (fail_begin e o c) id it) as Hok.
  { intros id [p|e'] Hi; [done|]. simpl in *. destruct Hi as [t ->]. by eexists. }
  split; simpl; try done.
  - intros id r Hr Hfl. destruct (Hw id r Hr Hfl) as [Hpd|[Hqd|(ids & e' & o' & Hin & Hid)]]; [|by right; left|].
    + right. right. exists (elements (cl_pending c)), e, o. split; [set_solver|]. by apply elem_of_elements.
    + right. right. exists ids, e', o'. split; [|done]. simpl. set_solver.
  - eauto.
  - eauto.
  - intros _. destruct (cl_terminal c); by eexists.
  - intros ids e' id [Hin|Hin]%elem_of_app; [by eapply Ho|]. apply list_elem_of_singleton in Hin. simplify_eq. by apply Hown.
Qed.

(** Taking an item, filling a queue. *)
Lemma inv_take c id it :
  client_inv c → cl_requests c !! id = Some Waiting → cl_queue c !! id = Some it →
  client_inv (set_request id (Leaving (Got it)) (set_queue (delete id (cl_queue c)) c)).
Proof.
  intros [Hnx Hids Hp Ht Hw Hq Hput Hgot Hf Ho] Hr Hit. split; simpl; try done.
  - intros j [? Hj]. destruct (decide (j = id)) as [->|]; [apply Hids; by eexists|]. rewrite lookup_insert_ne in Hj by done. apply Hids. by eexists.
  - intros j Hj. destruct (decide (j = id)) as [->|].
    + exists (Leaving (Got it)). rewrite lookup_insert_eq. split; [done|]. by intros [? ?].
    + rewrite lookup_insert_ne by done. by apply Hp.
  - intros j r' Hj Hr'. destruct (decide (j = id)) as [->|].
    + rewrite lookup_insert_eq in Hj. simplify_eq. by destruct Hr'.
    + rewrite lookup_insert_ne in Hj by done. rewrite lookup_delete_ne by done. by apply (Hw j r').
  - intros j it' Hj. apply lookup_delete_Some in Hj as [_ Hj]. by apply Hq.
  - intros j r' it' Hj Hout. destruct (decide (j = id)) as [->|].
    + rewrite lookup_insert_eq in Hj. simplify_eq/=. by apply Hq.
    + rewrite lookup_insert_ne in Hj by done. by apply (Hgot j r' it').
  - intros ids e j Hj. apply lookup_insert_is_Some. destruct (decide (id = j)); [by left|right; eauto].
Qed.

Lemma inv_fill c id it q :
  client_inv c → item_ok c id it → q = <[id := it]> (cl_queue c) ∨ q = cl_queue c → client_inv (set_queue q c).
Proof.
  intros [Hnx Hids Hp Ht Hw Hq Hput Hgot Hf Ho] Hit [-> | ->]; split; simpl; try done.
  - intros j r Hj Hr. destruct (Hw j r Hj Hr) as [?|[?|?]]; [by left| |by right; right]. right. left.
    destruct (decide (j = id)) as [->|]; [rewrite lookup_insert_eq; by eexists|by rewrite lookup_insert_ne].
  - intros j it' Hj. destruct (decide (j = id)) as [->|]; [rewrite lookup_insert_eq in Hj; by simplify_eq|].
    rewrite lookup_insert_ne in Hj by done. by apply Hq.
Qed.

Lemma inv_register c id c' : client_inv c → register c = Some (id, c') → client_inv c'.
Proof.
  intros [Hnx Hids Hp Ht Hw Hq Hput Hgot Hf Ho] Hreg. unfold register, _raise_if_terminal in Hreg.
  destruct (cl_terminal c) eqn:Hterm; [done|]. destruct (cl_closing c); [done|]. simplify_eq.
  assert (cl_requests c !! cl_next_id c = None) as Hnone.
  { destruct (cl_requests c !! cl_next_id c) eqn:Hr; [|done]. specialize (Hids (cl_next_id c)). rewrite Hr in Hids.
    destruct (Hids ltac:(by eexists)). lia. }
  split; simpl.
  - lia.
  - intros j [? Hj]. destruct (decide (j = cl_next_id c)) as [->|]; [lia|]. rewrite lookup_insert_ne in Hj by done.
    specialize (Hids j ltac:(by eexists)). lia.
  - intros j [Hj|Hj%elem_of_singleton]%elem_of_union.
    + destruct (Hp j Hj) as (r & Hr & Hnf). exists r. rewrite lookup_insert_ne by congruence. done.
    + subst j. exists Sending. rewrite lookup_insert_eq. split; [done|]. by intros [? ?].
  - by intros [? ?].
  - intros j r Hj Hr. destruct (decide (j = cl_next_id c)) as [->|]; [left; set_solver|]. rewrite lookup_insert_ne in Hj by done.
    destruct (Hw j r Hj Hr) as [?|[?|?]]; [left; set_solver|by right; left|by right; right].
  - intros j it Hj. specialize (Hq j it Hj). destruct it; [done|]. simpl in *. by rewrite Hterm in Hq.
  - done.
  - intros j r it Hj Hout. destruct (decide (j = cl_next_id c)) as [->|]; [rewrite lookup_insert_eq in Hj; by simplify_eq|].
    rewrite lookup_insert_ne in Hj by done. specialize (Hgot j r it Hj Hout). destruct it; [done|]. simpl in *. by rewrite Hterm in Hgot.
  - intros Hne. by destruct (Hf Hne).
  - intros ids e j Hj. destruct (Ho ids e j Hj) as [r Hr]. rewrite lookup_insert_ne by congruence. by eexists.
Qed.

Lemma inv_pop c id o :
  client_inv c → cl_requests c !! id = Some (Leaving o) →
  client_inv (set_request id (Finished o) (set_pending (cl_pending c ∖ {[id]}) c)).
Proof.
  intros Hinv Hr. destruct Hinv as [Hnx Hids Hp Ht Hw Hq Hput Hgot Hf Ho]. split; simpl; try done.
  - intros j [? Hj]. destruct (decide (j = id)) as [->|]; [apply Hids; by eexists|]. rewrite lookup_insert_ne in Hj by done. apply Hids. by eexists.
  - intros j [Hj Hne%not_elem_of_singleton]%elem_of_difference. rewrite lookup_insert_ne by done. by apply Hp.
  - intros Hterm. rewrite Ht by done. set_solver.
  - intros j r Hj Hfl. destruct (decide (j = id)) as [->|Hne].
    + rewrite lookup_insert_eq in Hj. simplify_eq. by destruct Hfl.
    + rewrite lookup_insert_ne in Hj by done. destruct (Hw j r Hj Hfl) as [?|[?|?]]; [left; set_solver|by right; left|by right; right].
  - intros j r it Hj Hout. destruct (decide (j = id)) as [->|Hne].
    + rewrite lookup_insert_eq in Hj. simplify_eq/=. by apply (Hgot id (Leaving (Got it))).
    + rewrite lookup_insert_ne in Hj by done. by apply (Hgot j r it).
  - intros ids e j Hj. apply lookup_insert_is_Some. destruct (decide (id = j)); [by left|right; eauto].
Qed.

(** One queue of a [_fail_all] is reached; the others stay to be reached. *)
Lemma inv_fail_one c pre id ids e o post :
  client_inv c → cl_failing c = pre ++ (id :: ids, e, o) :: post →
  client_inv (set_failing (pre ++ (ids, e, o) :: post) (set_queue (put_nowait id (Failure e) (cl_queue c)) c)).
Proof.
  intros Hinv Hfe. assert (is_Some (cl_terminal c)) as Hterm by (apply (ci_failing _ Hinv); rewrite Hfe; by destruct pre).
  assert (client_inv (set_queue (put_nowait id (Failure e) (cl_queue c)) c)) as [Hnx Hids Hp Ht Hw Hq Hput Hgot Hf Ho].
  { apply (inv_fill c id (Failure e)); [done|done|]. unfold put_nowait. destruct (cl_queue c !! id); [by right|by left]. }
  split; simpl; try done.
  2:{ simpl in Ho. rewrite Hfe in Ho. intros ids' e' j [Hin|[Hin|Hin]%elem_of_cons]%elem_of_app.
      - apply (Ho ids' e' j). set_solver.
      - simplify_eq. apply (Ho (id :: ids) e j). set_solver.
      - apply (Ho ids' e' j). set_solver. }
  intros j r Hj Hfl. destruct (Hw j r Hj Hfl) as [?|[?|(ids' & e' & o' & Hin & Hid)]]; [by left|by right; left|].
  simpl in Hin. rewrite Hfe in Hin. apply elem_of_app in Hin as [Hin|Hin]; [right; right; exists ids', e', o'; simpl; set_solver|].
  apply elem_of_cons in Hin as [[= -> -> ->]|Hin]; [|right; right; exists ids', e', o'; simpl; set_solver].
  apply elem_of_cons in Hid as [->|Hid]; [|right; right; exists ids, e, o; simpl; set_solver].
  right. left. simpl. unfold put_nowait. destruct (cl_queue c !! id) eqn:Hqi; [rewrite Hqi; by eexists|rewrite lookup_insert_eq; by eexists].
Qed.

Lemma inv_fail_done c pre e o post :
  client_inv c → cl_failing c = pre ++ ([], e, o) :: post → client_inv (set_failing (pre ++ post) c).
Proof.
  intros [Hnx Hids Hp Ht Hw Hq Hput Hgot Hf Ho] Hfe. split; simpl; try done.
  - intros j r Hj Hfl. destruct (Hw j r Hj Hfl) as [?|[?|(ids' & e' & o' & Hin & Hid)]]; [by left|by right; left|].
    right. right. exists ids', e', o'. split; [|done]. simpl. rewrite Hfe in Hin. apply elem_of_app in Hin as [Hin|Hin]; [set_solver|].
    apply elem_of_cons in Hin as [[= -> -> ->]|Hin]; [by apply elem_of_nil in Hid|set_solver].
  - intros _. apply Hf. rewrite Hfe. by destruct pre.
  - intros ids e' j Hin. apply (Ho ids e' j). rewrite Hfe. set_solver.
Qed.


Lemma inv_resume c o :
  client_inv c → (∀ id, o = ByRequest id → is_Some (cl_requests c !! id)) → client_inv (resume_owner o c).
Proof.
  intros Hinv Ho. destruct o as [id|[]|]; simpl; [|by apply inv_set_reader..|done]. destruct (Ho id eq_refl) as [r Hr].
  eapply inv_set_request; [done|exact Hr| | |].
  - by intros [|].
  - by intros [? ?].
  - done.
Qed.

Lemma client_inv_step c c' : client_inv c → client_step c c' → client_inv c'.
Proof.
  intros Hinv Hstep.
  assert (∀ id o, cl_requests c !! id = Some Sending ∨ cl_requests c !! id = Some Waiting → (∀ it, o ≠ Got it) →
    client_inv (set_request id (Leaving o) c)) as Hleave.
  { intros id o Hr Ho. destruct Hr as [Hr|Hr]; (eapply inv_set_request; [done|exact Hr|by intros [|]|by intros [? ?]|];
      simpl; intros it [= ->]; by destruct (Ho it)). }
  destruct Hstep as [id c' Hreg|id Hr|id Hr|id Hr|id Hr|id it Hr Hq|id Hr Hq|id o Hr| |id p f g Hrd Hc Hin|id p f g Hrd Hc Hin|
    id p Hrd Hq|Hrd|Hrd|Hrd|e Hrd|Hrd Hcl|e Hrd| |Hcl|pre id ids e o post Hf|pre e o post Hf].
  - by eapply inv_register.
  - apply Hleave; [by left|done].
  - eapply inv_set_request; [done|exact Hr|by left|by intros [? ?]|done].
  - apply Hleave; [by left|done].
  - apply inv_fail_begin.
    + eapply inv_set_request; [done|exact Hr|by intros [|]|by intros [? ?]|done].
    + intros j [= <-]. simpl. rewrite lookup_insert_eq. by eexists.
  - by apply inv_take.
  - apply Hleave; [by right|done].
  - by apply inv_pop.
  - by apply inv_fail_begin.
  - apply inv_set_reader; [done|]. intros j q [= <- <-]. by exists f, g.
  - done.
  - apply inv_set_reader; [|done]. apply (inv_fill c id (Response p)); [done| |by left]. by apply (ci_put _ Hinv).
  - by apply inv_set_reader.
  - by apply inv_set_reader.
  - apply inv_fail_begin; [by apply inv_set_reader|done].
  - by apply inv_set_reader.
  - by apply inv_set_reader.
  - apply inv_fail_begin; [by apply inv_set_reader|done].
  - by apply inv_set_closing.
  - by apply inv_fail_begin.
  - by apply inv_fail_one.
  - apply inv_resume; [by eapply inv_fail_done|]. intros id ->. apply (ci_owner _ Hinv [] e). rewrite Hf. set_solver.
Qed.

Lemma client_reachable_inv c : client_reachable c → client_inv c.
Proof. induction 1; [apply client_inv_init|by eapply client_inv_step]. Qed.

(** ** Waking the waiters *)

Definition fail_work (c : client) : nat := sum_list_with (λ f, S (length f.1.1)) (cl_failing c).

Lemma fail_progress c :
  cl_failing c ≠ [] →
  ∃ c', client_step c c' ∧ (fail_work c' < fail_work c)%nat ∧ cl_terminal c' = cl_terminal c ∧
    (∀ id, cl_requests c !! id = Some Waiting → cl_requests c' !! id = Some Waiting ∨
       ∃ ids e, (ids, e, ByRequest id) ∈ cl_failing c).
Proof.
  intros Hne. destruct (cl_failing c) as [|[[[|id ids] e] o] post] eqn:Hf; [done| |].
  - exists (resume_owner o (set_failing post c)). split_and!.
    + by apply (step_fail_done c [] e o post).
    + unfold fail_work. rewrite Hf. destruct o as [?|[]|]; simpl; lia.
    + by destruct o as [?|[]|].
    + intros j Hj. destruct o as [k|[]|]; simpl; [|by left..]. destruct (decide (j = k)) as [->|]; [right; exists [], e; set_solver|].
      left. by rewrite lookup_insert_ne.
  - eexists. split_and!; [by apply (step_fail_one c [] id ids e o post)| | |].
    + unfold fail_work. rewrite Hf. simpl. lia.
    + done.
    + intros j Hj. by left.
Qed.

(** The thread of a running [_fail_all] is not waiting. *)
Definition owners_busy (c : client) : Prop :=
  ∀ ids e id, (ids, e, ByRequest id) ∈ cl_failing c → cl_requests c !! id = Some FailingSend.

Lemma owners_busy_step c c' :
  client_inv c → NoDup (omap (λ f : list Z * terminal_error * owner, match f.2 with ByRequest id => Some id | _ => None end) (cl_failing c)) →
  owners_busy c → client_step c c' →
  owners_busy c' ∧ NoDup (omap (λ f : list Z * terminal_error * owner, match f.2 with ByRequest id => Some id | _ => None end) (cl_failing c')).
Proof.
  set (own := λ f : list Z * terminal_error * owner, match f.2 with ByRequest id => Some id | _ => None end).
  intros Hinv Hnd Hb Hstep.
  assert (∀ id r0 r, cl_requests c !! id = Some r0 → r0 ≠ FailingSend → owners_busy (set_request id r c)) as Hset.
  { intros id r0 r Hr Hne ids e j Hj. simpl in *. destruct (decide (j = id)) as [->|].
    - specialize (Hb _ _ _ Hj). congruence.
    - rewrite lookup_insert_ne by done. by eapply Hb. }
  assert (∀ e o, (∀ id, o ≠ ByRequest id) → owners_busy (fail_begin e o c) ∧ NoDup (omap own (cl_failing (fail_begin e o c)))) as Hfb.
  { intros e o Ho. split.
    - intros ids e' j [Hj|Hj]%elem_of_app; [by eapply Hb|]. apply list_elem_of_singleton in Hj. simplify_eq. by destruct (Ho j).
    - simpl. rewrite omap_app. simpl. destruct o as [id|[]|]; simpl; rewrite ?app_nil_r; [by destruct (Ho id)|done..]. }
  destruct Hstep as [id c' Hreg|id Hr|id Hr|id Hr|id Hr|id it Hr Hq|id Hr Hq|id o Hr| |id p f g Hrd Hc Hin|id p f g Hrd Hc Hin|
    id p Hrd Hq|Hrd|Hrd|Hrd|e Hrd|Hrd Hcl|e Hrd| |Hcl|pre id ids e o post Hf|pre e o post Hf]; try done;
    try (by split; [by eapply Hset|]); try (by apply Hfb).
  - unfold register, _raise_if_terminal in Hreg. destruct (cl_terminal c); [done|]. destruct (cl_closing c); [done|]. simplify_eq. split; [|done].
    intros ids e j Hj. simpl in *. specialize (Hb _ _ _ Hj). rewrite lookup_insert_ne; [done|]. intros <-.
    pose proof (ci_ids _ Hinv (cl_next_id c) ltac:(by eexists)). lia.
  - split.
    + intros ids e j [Hj|Hj]%elem_of_app; simpl in *.
      * destruct (decide (j = id)) as [->|]; [by rewrite lookup_insert_eq|]. rewrite lookup_insert_ne by done. by eapply Hb.
      * apply list_elem_of_singleton in Hj. simplify_eq. by rewrite lookup_insert_eq.
    + simpl. rewrite omap_app. simpl. apply NoDup_app. split_and!; [done| |apply NoDup_singleton].
      intros j Hj Hj'. apply list_elem_of_singleton in Hj'. subst j. apply list_elem_of_omap in Hj as ([[ids e] o] & Hin & Ho).
      destruct o as [k|[]|]; simpl in Ho; try done. injection Ho as ->. specialize (Hb _ _ _ Hin). congruence.
  - split; [|simpl; rewrite Hf in Hnd; by rewrite omap_app in Hnd |- *].
    intros ids' e' j Hj. simpl in *. apply elem_of_app in Hj as [Hj|[Hj|Hj]%elem_of_cons].
    + apply (Hb ids' e'). rewrite Hf. set_solver.
    + simplify_eq. apply (Hb (id :: ids) e). rewrite Hf. set_solver.
    + apply (Hb ids' e'). rewrite Hf. set_solver.
  - rewrite Hf, omap_app in Hnd. simpl in Hnd.
    assert (NoDup (omap own (pre ++ post)) ∧ ∀ id, o = ByRequest id → id ∉ omap own (pre ++ post)) as [Hnd' Hout].
    { rewrite omap_app. destruct o as [id|[]|]; simpl in Hnd; try (split; [done|done]).
      apply NoDup_app in Hnd as (H1 & H2 & H3). apply NoDup_cons in H3 as [H3 H4]. split.
      - apply NoDup_app. split_and!; [done| |done]. intros x Hx Hx'. apply (H2 x Hx). by right.
      - intros j [= <-] [Hj|Hj]%elem_of_app; [apply (H2 id Hj); by left|done]. }
    split; [|by destruct o as [?|[]|]]. intros ids' e' j Hj.
    assert ((ids', e', ByRequest j) ∈ pre ++ post) as Hin by (by destruct o as [?|[]|]).
    assert (cl_requests c !! j = Some FailingSend) as Hj' by (apply (Hb ids' e'); rewrite Hf; set_solver).
    destruct o as [id|[]|]; simpl; try done. rewrite lookup_insert_ne; [done|]. intros ->. apply (Hout j eq_refl).
    apply list_elem_of_omap. by exists (ids', e', ByRequest j).
Qed.

Definition failing_owners (c : client) : list Z :=
  omap (λ f : list Z * terminal_error * owner, match f.2 with ByRequest id => Some id | _ => None end) (cl_failing c).

Record client_good (c : client) : Prop := {
  cg_inv : client_inv c; cg_busy : owners_busy c; cg_nodup : NoDup (failing_owners c) }.

Lemma client_good_step c c' : client_good c → client_step c c' → client_good c'.
Proof.
  intros [Hi Hb Hn] Hs. destruct (owners_busy_step c c' Hi Hn Hb Hs) as [Hb' Hn']. split; [by eapply client_inv_step|done..].
Qed.

Lemma client_reachable_good c : client_reachable c → client_good c.
Proof.
  induction 1; [|by eapply client_good_step]. split; [apply client_inv_init| |constructor]. by intros ids e id ?%elem_of_nil.
Qed.

(** Every queue that is to be failed is reached, without waiting for anyone. *)
Lemma fail_drains n c :
  client_good c → (fail_work c ≤ n)%nat →
  ∃ k c', (k ≤ fail_work c)%nat ∧ nsteps client_step k c c' ∧ client_good c' ∧ cl_failing c' = [] ∧
    cl_terminal c' = cl_terminal c ∧ (∀ id, cl_requests c !! id = Some Waiting → cl_requests c' !! id = Some Waiting).
Proof.
  revert c. induction n as [|n IH]; intros c Hg Hn.
  - exists 0%nat, c. split_and!; [lia|constructor|done| |done|done]. unfold fail_work in Hn. destruct (cl_failing c); [done|simpl in Hn; lia].
  - destruct (decide (cl_failing c = [])) as [Hf|Hf]; [exists 0%nat, c; split_and!; [lia|constructor|done..]|].
    destruct (fail_progress c Hf) as (c1 & Hstep & Hw & Ht & Hwait).
    destruct (IH c1) as (k & c' & Hk & Hsteps & Hg' & Hf' & Ht' & Hwait'); [by eapply client_good_step|lia|].
    exists (S k), c'. split_and!; [lia|by econstructor|done|done|congruence|]. intros id Hid. apply Hwait'.
    destruct (Hwait id Hid) as [?|(ids & e & Hin)]; [done|]. pose proof (cg_busy _ Hg _ _ _ Hin). congruence.
Qed.

(** C32: In every interleaving of callers, reader, writers and closers, a request
    that ends with a response ends with a response to its own id, a request that
    ends with a failure does so only when the transport is terminal, and a new
    request never reuses an id. *)
Theorem responses_reach_their_request c id r o :
  client_reachable c → cl_requests c !! id = Some r → outcome_of r = Some o →
  match o with
  | Got (Response p) => answers id p
  | Got (Failure _) => is_Some (cl_terminal c) ∧ register c = None
  | _ => True
  end ∧
  (∀ id' c', register c = Some (id', c') → cl_requests c !! id' = None).
Proof.
  intros [Hinv _ _]%client_reachable_good Hr Ho. split.
  - destruct o as [[p|e]| | | |]; try done; pose proof (ci_got _ Hinv id r _ Hr Ho) as Hok; [done|]. simpl in Hok.
    split; [done|]. destruct Hok as [t Ht]. unfold register, _raise_if_terminal. by rewrite Ht.
  - intros id' c' Hreg. destruct (cl_requests c !! id') eqn:Hid; [|done]. pose proof (ci_ids _ Hinv id' ltac:(by eexists)).
    unfold register in Hreg. destruct (_raise_if_terminal c); [done|]. simplify_eq. lia.
Qed.

(** C31: Once the transport is lost no request is registered, and the ones that
    wait are woken: whatever the state, a bounded number of steps of the running
    [_fail_all] calls, none of which can block, puts an item into the queue of
    every waiting request, in all of its callers at once. *)
Theorem terminal_wakes_every_request c :
  client_reachable c → is_Some (cl_terminal c) →
  register c = None ∧
  ∃ k c', (k ≤ fail_work c)%nat ∧ nsteps client_step k c c' ∧
    ∀ id, cl_requests c !! id = Some Waiting → cl_requests c' !! id = Some Waiting ∧ is_Some (cl_queue c' !! id).
Proof.
  intros Hg%client_reachable_good Ht. split.
  { unfold register, _raise_if_terminal. by destruct Ht as [t ->]. }
  destruct (fail_drains (fail_work c) c Hg (le_n _)) as (k & c' & Hk & Hsteps & [Hinv' _ _] & Hf' & Ht' & Hwait).
  exists k, c'. split_and!; [done|done|]. intros id Hid. specialize (Hwait id Hid). split; [done|].
  destruct (ci_wait _ Hinv' id Waiting Hwait) as [Hp|[Hq|(ids & e & o & Hin & _)]]; [by right| |done|].
  - rewrite (ci_terminal _ Hinv') in Hp by (by rewrite Ht'). set_solver.
  - rewrite Hf' in Hin. by apply elem_of_nil in Hin.
Qed.

(** ** Retries *)

(** A request is sent at most three times, and again only after the server
    answered that the content was modified and only for a read-only method; the
    caller gets the result of the last attempt. *)
Theorem request_retries_reads_only selected methods method results r k :
  set_content_modified_retry_methods selected = Some methods →
  request methods method results = (r, k) →
  (1 ≤ k ≤ 3)%nat ∧ r = results (k - 1)%nat ∧
  (∀ j, (j < k - 1)%nat → ∃ message data, results j = Err (ResponseError CONTENT_MODIFIED message data)) ∧
  ((1 < k)%nat → method ∈ READ_ONLY_RETRY_METHODS).
Proof.
  assert (∀ attempts i r k, (0 < attempts)%nat → attempt_request attempts results i = (r, k) →
    (i < k ≤ i + attempts)%nat ∧ r = results (k - 1)%nat ∧
    (∀ j, (i ≤ j < k - 1)%nat → ∃ message data, results j = Err (ResponseError CONTENT_MODIFIED message data))) as Hgo.
  { induction attempts as [|attempts IH]; intros i r' k' Hpos Hreq; [lia|]. cbn [attempt_request] in Hreq.
    assert (results i = r' → k' = S i → (i < k' ≤ i + S attempts)%nat ∧ r' = results (k' - 1)%nat ∧
      ∀ j, (i ≤ j < k' - 1)%nat → ∃ message data, results j = Err (ResponseError CONTENT_MODIFIED message data)) as Hlast.
    { intros <- ->. split_and!; [lia|lia|f_equal; lia|intros; lia]. }
    destruct (results i) as [v|e] eqn:Hr; [simplify_eq; by apply Hlast|].
    destruct e as [| | | | |code message data|]; try (simplify_eq; by apply Hlast).
    destruct (bool_decide (code ≠ CONTENT_MODIFIED)) eqn:Hcode; cbn [orb] in Hreq; [simplify_eq; by apply Hlast|].
    destruct (bool_decide (attempts = 0%nat)) eqn:Ha; [simplify_eq; by apply Hlast|].
    apply bool_decide_eq_false in Hcode, Ha. apply dec_stable in Hcode. subst code.
    destruct (IH (S i) r' k' ltac:(lia) Hreq) as (Hk & Hres & Hall). split_and!; [lia|lia|done|].
    intros j Hj. destruct (decide (j = i)) as [->|]; [by exists message, data|]. apply Hall. lia. }
  intros Hset Hreq. unfold request in Hreq. unfold set_content_modified_retry_methods in Hset.
  destruct (forallb _ selected) eqn:Hsel; [|done]. simplify_eq. case_bool_decide as Hm.
  - destruct (Hgo 3%nat 0%nat r k ltac:(lia) Hreq) as (Hk & Hr & Hall). split_and!; [lia|lia|done|intros j Hj; apply Hall; lia|].
    intros _. rewrite forallb_forall in Hsel. by apply (bool_decide_eq_true_1 _), Hsel, list_elem_of_In.
  - destruct (Hgo 1%nat 0%nat r k ltac:(lia) Hreq) as (Hk & Hr & Hall). split_and!; [lia|lia|done|intros j Hj; apply Hall; lia|lia].
Qed.

(** ** A reader that never returns *)

(** The reader waits for a free slot in the queue of a request that is over. *)
Record reader_stuck (id : Z) (p : payload) (c : client) : Prop := {
  rs_reader : cl_reader c = Putting id p;
  rs_full : is_Some (cl_queue c !! id);
  rs_over : ∃ o, cl_requests c !! id = Some (Finished o);
  rs_owner : ∀ ids e o, (ids, e, o) ∈ cl_failing c → (∀ b, o ≠ ByReader b) ∧ o ≠ ByRequest id;
}.

Lemma reader_stuck_step id p c c' : client_inv c → reader_stuck id p c → client_step c c' → reader_stuck id p c'.
Proof.
  intros Hinv [Hrd Hfull [o Hover] Hown] Hstep.
  assert (∀ j r0 r, cl_requests c !! j = Some r0 → ¬ is_finished r0 → reader_stuck id p (set_request j r c)) as Hset.
  { intros j r0 r Hj Hnf. split; simpl; [done|done| |done]. exists o. rewrite lookup_insert_ne; [done|]. intros ->.
    apply Hnf. exists o. congruence. }
  assert (∀ c1 e ow, reader_stuck id p c1 → (∀ b, ow ≠ ByReader b) → ow ≠ ByRequest id → reader_stuck id p (fail_begin e ow c1)) as Hfail.
  { intros c1 e ow [? ? ? Ho] H1 H2. split; simpl; [done..|]. intros ids e' o' [Hin|Hin]%elem_of_app; [by eapply Ho|].
    apply list_elem_of_singleton in Hin. by simplify_eq. }
  assert (reader_stuck id p c) as Hc by (split; eauto).
  destruct Hstep as [j c' Hreg|j Hr|j Hr|j Hr|j Hr|j it Hr Hq|j Hr Hq|j ou Hr| |j q f g Hr Hcl Hin|j q f g Hr Hcl Hin|
    j q Hr Hq|Hr|Hr|Hr|e Hr|Hr Hcl|e Hr| |Hcl|pre j ids e ow post Hf|pre e ow post Hf]; try congruence;
    try (eapply Hset; [exact Hr|by intros [? ?]]).
  - unfold register, _raise_if_terminal in Hreg. destruct (cl_terminal c); [done|]. destruct (cl_closing c); [done|]. simplify_eq.
    split; simpl; [done|done| |done]. exists o. rewrite lookup_insert_ne; [done|]. intros <-.
    pose proof (ci_ids _ Hinv (cl_next_id c) ltac:(by eexists)). lia.
  - apply Hfail; [eapply Hset; [exact Hr|by intros [? ?]]|done|]. intros [= ->]. congruence.
  - assert (j ≠ id) as Hne by congruence. split; simpl; [done| | |done].
    + by rewrite lookup_delete_ne.
    + exists o. by rewrite lookup_insert_ne.
  - assert (j ≠ id) as Hne by congruence. split; simpl; [done|done| |done]. exists o. by rewrite lookup_insert_ne.
  - by apply Hfail.
  - rewrite Hrd in Hr. simplify_eq. rewrite Hq in Hfull. by destruct Hfull.
  - destruct Hr; congruence.
  - by split; simpl; eauto.
  - by apply Hfail.
  - split; simpl; [done| |by exists o|].
    + unfold put_nowait. destruct (cl_queue c !! j) eqn:Hj; [done|]. destruct (decide (j = id)) as [->|]; [rewrite lookup_insert_eq; by eexists|].
      by rewrite lookup_insert_ne.
    + intros ids' e' o' [Hin|[Hin|Hin]%elem_of_cons]%elem_of_app.
      * apply (Hown ids' e'). rewrite Hf. set_solver.
      * simplify_eq. apply (Hown (j :: ids) e). rewrite Hf. set_solver.
      * apply (Hown ids' e'). rewrite Hf. set_solver.
  - destruct (Hown [] e ow) as [H1 H2]; [rewrite Hf; set_solver|].
    assert (∀ ids' e' o', (ids', e', o') ∈ pre ++ post → (∀ b, o' ≠ ByReader b) ∧ o' ≠ ByRequest id) as Hrest.
    { intros ids' e' o' Hin. apply (Hown ids' e'). rewrite Hf. set_solver. }
    destruct ow as [k|[]|]; simpl; [|by destruct (H1 true)|by destruct (H1 false)|split; simpl; eauto].
    split; simpl; [done|done| |done]. exists o. rewrite lookup_insert_ne; [done|]. by intros ->.
Qed.

(** A response to the first request. *)
Definition first_response : payload := [(lit "jsonrpc", JStr (lit "2.0")); (lit "id", JInt 1); (lit "result", JNull)].

(** A server that answers one request twice can stop the reader for good:
    when the caller has timed out but not yet forgotten its request, the first
    answer fills the queue of one slot that nobody reads any more and the second
    one blocks in [Queue.put]; from then on, in every continuation, the reader
    dispatches nothing, and the client does not count as terminal. *)
Theorem duplicate_response_blocks_reader :
  ∃ c, client_reachable c ∧ cl_terminal c = None ∧ cl_requests c !! 1 = Some (Finished TimedOut) ∧
    ∀ c', rtc client_step c c' → cl_reader c' = Putting 1 first_response ∧ is_Some (cl_queue c' !! 1).
Proof.
  assert (classify (λ _, false) (λ _, None) first_response = Ok (DResponse 1)) as Hcl by (vm_compute; reflexivity).
  assert (∃ c, client_reachable c ∧ cl_terminal c = None ∧ cl_requests c !! 1 = Some (Finished TimedOut) ∧
    reader_stuck 1 first_response c) as (c & Hreach & Ht & Hr & Hstuck).
  { eexists. split.
    - eapply reach_step; [eapply reach_step; [eapply reach_step; [eapply reach_step; [eapply reach_step; [eapply reach_step;
        [eapply reach_step; [apply reach_init|]|]|]|]|]|]|].
      + eapply step_register. reflexivity.
      + eapply (step_sent _ 1). vm_compute. reflexivity.
      + eapply (step_response _ 1 first_response); [reflexivity|exact Hcl|]. vm_compute. reflexivity.
      + eapply (step_timeout _ 1); vm_compute; reflexivity.
      + eapply (step_put _ 1 first_response); [reflexivity|vm_compute; reflexivity].
      + eapply (step_response _ 1 first_response); [reflexivity|exact Hcl|]. vm_compute. reflexivity.
      + eapply (step_pop _ 1). vm_compute. reflexivity.
    - split_and!; [reflexivity|vm_compute; reflexivity|]. split; [reflexivity|vm_compute; by eexists|eexists; vm_compute; reflexivity|].
      intros ids e o Hin. by apply elem_of_nil in Hin. }
  exists c. split_and!; [done..|]. intros c' Hsteps.
  assert (client_inv c ∧ reader_stuck 1 first_response c) as Hboth by (split; [apply client_reachable_good, Hreach|done]).
  clear -Hsteps Hboth. induction Hsteps as [c|c1 c2 c3 Hs Hsteps IH]; [destruct Hboth as [_ [? ? ? ?]]; done|].
  apply IH. destruct Hboth as [Hi Hst]. split; [by eapply client_inv_step|by eapply reader_stuck_step].
Qed.

Module ClientExamples.

Lemma first_response_classified : classify (λ _, false) (λ _, None) first_response = Ok (DResponse 1).
Proof. vm_compute. reflexivity. Qed.

Lemma answered_run : ∃ c, client_reachable c ∧ cl_requests c !! 1 = Some (Finished (Got (Response first_response))).
Proof.
  eexists. split.
  - eapply reach_step; [eapply reach_step; [eapply reach_step; [eapply reach_step; [eapply reach_step; [eapply reach_step;
      [apply reach_init|]|]|]|]|]|].
    + eapply step_register. reflexivity.
    + eapply (step_sent _ 1). vm_compute. reflexivity.
    + eapply (step_response _ 1 first_response); [reflexivity|exact first_response_classified|]. vm_compute. reflexivity.
    + eapply (step_put _ 1 first_response); [reflexivity|vm_compute; reflexivity].
    + eapply (step_get _ 1); vm_compute; reflexivity.
    + eapply (step_pop _ 1). vm_compute. reflexivity.
  - vm_compute. reflexivity.
Qed.

Lemma responses_reach_their_request_witness :
  ∃ c, client_reachable c ∧ cl_requests c !! 1 = Some (Finished (Got (Response first_response))) ∧ answers 1 first_response.
Proof.
  destruct answered_run as (c & Hc & Hr). exists c. split; [exact Hc|]. split; [exact Hr|].
  exact (proj1 (responses_reach_their_request c 1 _ (Got (Response first_response)) Hc Hr eq_refl)).
Defined.

Lemma closed_run : ∃ c, client_reachable c ∧ cl_terminal c = Some ClientClosed ∧ cl_requests c !! 1 = Some Waiting.
Proof.
  eexists. split.
  - eapply reach_step; [eapply reach_step; [eapply reach_step; [eapply reach_step; [apply reach_init|]|]|]|].
    + eapply step_register. reflexivity.
    + eapply (step_sent _ 1). vm_compute. reflexivity.
    + apply step_close.
    + apply step_close_fails. reflexivity.
  - split; vm_compute; reflexivity.
Qed.

Lemma terminal_wakes_every_request_witness :
  ∃ c k c', client_reachable c ∧ nsteps client_step k c c' ∧ cl_requests c' !! 1 = Some Waiting ∧ is_Some (cl_queue c' !! 1).
Proof.
  destruct closed_run as (c & Hc & Ht & Hr).
  destruct (terminal_wakes_every_request c Hc) as (_ & k & c' & _ & Hsteps & Hall); [by eexists|].
  exists c, k, c'. split; [exact Hc|]. split; [exact Hsteps|]. by apply Hall.
Defined.

Lemma request_retries_reads_only_witness :
  ∃ k, request [lit "textDocument/hover"] (lit "textDocument/hover")
         (λ n, match n with O => Err (ResponseError CONTENT_MODIFIED [] None) | _ => Ok JNull end) = (Ok JNull, k) ∧ (1 ≤ k ≤ 3)%nat.
Proof.
  exists 2%nat. split; [vm_compute; reflexivity|].
  apply (request_retries_reads_only [lit "textDocument/hover"] [lit "textDocument/hover"] (lit "textDocument/hover")
    (λ n, match n with O => Err (ResponseError CONTENT_MODIFIED [] None) | _ => Ok JNull end) (Ok JNull) 2);
    vm_compute; reflexivity.
Defined.
End ClientExamples.
