(* ===== verification/FileSystem.v ===== *)
(** * Paths and the file system

    What the sources use of [pathlib] and of the operating system to find a
    file (Python 3.12 on POSIX): pure paths, a directory tree with symbolic
    links, the kernel's path walk with its limit of forty links,
    [posixpath.realpath] in strict mode, [Path.resolve(strict=True)],
    [Path.is_dir], and the descriptors of the guarded walk. The tree does not
    change during a call. *)

From S2P Require Import Prelude Paths Positions Executor Editing.

(** ** Pure paths *)

(** [PurePosixPath]: the root, "" for a relative path, and the components; ""
    and "." are never components, ".." may be one. *)
Record purepath := PurePath { p_anchor : pystr; p_parts : list pystr }.
#[export] Instance purepath_eq_dec : EqDecision purepath.
Proof. solve_decision. Defined.

Definition Path (s : pystr) : purepath := PurePath (path_anchor s) (path_parts s).

Definition path_str (p : purepath) : pystr :=
  match p_anchor p ++ join_slash (p_parts p) with [] => dot | s => s end.

Definition is_absolute (p : purepath) : bool := nonempty (p_anchor p).

(** [a / b] *)
Definition path_div (a b : purepath) : purepath :=
  if is_absolute b then b else PurePath (p_anchor a) (p_parts a ++ p_parts b).

(** [path.relative_to(root)] *)
Definition relative_to (path root : purepath) : option (list pystr) :=
  if bool_decide (p_anchor path = p_anchor root) && bool_decide (p_parts root `prefix_of` p_parts path)
  then Some (drop (length (p_parts root)) (p_parts path)) else None.

Definition path_parent (p : purepath) : purepath :=
  PurePath (p_anchor p) (take (length (p_parts p) - 1) (p_parts p)).

(** The component loop of [posixpath.normpath] for an absolute path: ".." at the
    root stays there. *)
Fixpoint norm_abs (acc comps : list pystr) : list pystr :=
  match comps with
  | [] => reverse acc
  | comp :: comps =>
      if bool_decide (comp = []) || bool_decide (comp = dot) then norm_abs acc comps
      else if bool_decide (comp ≠ dotdot) then norm_abs (comp :: acc) comps
      else norm_abs (tail acc) comps
  end.

(** [Path(os.path.normpath(path))] *)
Definition path_normpath (p : purepath) : purepath :=
  PurePath (p_anchor p) (if is_absolute p then norm_abs [] (p_parts p) else norm_comps [] (p_parts p)).

(** ** The tree *)

Inductive node := NDir | NReg (executable : bool) | NLink (target : pystr) | NSpecial.
#[export] Instance node_eq_dec : EqDecision node.
Proof. solve_decision. Defined.

(** Nodes by their physical path; a hidden path is refused for lack of
    permission. *)
Record fs := { fs_nodes : gmap (list pystr) node; fs_hidden : list pystr → bool }.

Inductive errno := ENOENT | ENOTDIR | ELOOP | EACCES.

(** Exceptions of the calls: [RecursionError] is a [RuntimeError], and
    [UnicodeEncodeError] a [ValueError]. *)
Inductive py_exn := OSError (e : errno) | ValueError | RuntimeError.

Definition node_at (s : fs) (p : list pystr) : option node :=
  match p with [] => Some NDir | _ => fs_nodes s !! p end.

(** The file-system encoding with [surrogateescape] takes these characters, and
    a C string has no null. *)
Definition encodable_char (c : N) : bool :=
  negb (bool_decide (c = 0%N)) && (is_scalar c || ((56448 <=? c)%N && (c <=? 56575)%N)).
Definition encodable (p : list pystr) : bool := forallb (forallb encodable_char) p.

(** The link a path starts from: the root for an absolute target. *)
Definition link_start (cur : list pystr) (target : pystr) : list pystr :=
  if bool_decide (head target = Some cp_slash) then [] else cur.

(** The parent of a physical directory; the root is its own. *)
Definition up (p : list pystr) : list pystr := take (length p - 1) p.

(** The kernel's walk from the directory [cur], at most [links] links on the
    way. The last component is followed only if asked, or if something (a
    slash) comes after it. *)
Fixpoint namei (s : fs) (follow : bool) (links : nat) : list pystr → list pystr → res errno (list pystr * node) :=
  fix walk (cur rest : list pystr) : res errno (list pystr * node) :=
    match rest with
    | [] => Ok (cur, NDir)
    | comp :: rest =>
        if bool_decide (comp = []) || bool_decide (comp = dot) then walk cur rest
        else if bool_decide (comp = dotdot) then walk (up cur) rest
        else
          let q := cur ++ [comp] in
          if fs_hidden s q then Err EACCES
          else match node_at s q with
               | None => Err ENOENT
               | Some NDir => walk q rest
               | Some (NLink target) =>
                   match rest with
                   | [] =>
                       if follow then
                         match links with
                         | O => Err ELOOP
                         | S links => namei s follow links (link_start cur target) (split_slash target)
                         end
                       else Ok (q, NLink target)
                   | _ =>
                       match links with
                       | O => Err ELOOP
                       | S links => namei s follow links (link_start cur target) (split_slash target ++ rest)
                       end
                   end
               | Some n => match rest with [] => Ok (q, n) | _ => Err ENOTDIR end
               end
    end.

Definition MAXSYMLINKS : nat := 40.

(** [os.lstat] and [os.stat] of an absolute path given by its components *)
Definition os_lstat (s : fs) (p : list pystr) : res py_exn node :=
  if encodable p then match namei s false MAXSYMLINKS [] p with Ok (_, n) => Ok n | Err e => Err (OSError e) end
  else Err ValueError.
Definition os_stat (s : fs) (p : list pystr) : res py_exn node :=
  if encodable p then match namei s true MAXSYMLINKS [] p with Ok (_, n) => Ok n | Err e => Err (OSError e) end
  else Err ValueError.

(** [Path.is_dir]: of the errors, only a refused permission gets out. *)
Definition is_dir (s : fs) (p : list pystr) : res py_exn bool :=
  match os_stat s p with
  | Ok n => Ok (bool_decide (n = NDir))
  | Err (OSError EACCES) => Err (OSError EACCES)
  | Err _ => Ok false
  end.

(** ** [Path.resolve] *)

(** The links met so far: [None] while one is being resolved. *)
Abbreviation seen_links := (gmap (list pystr) (option (list pystr))).

(** [posixpath._joinrealpath] with [strict], [path] absolute; it calls itself
    for every link, up to the recursion limit of the interpreter. A link met
    again while it is being resolved makes [os.stat] fail with [ELOOP]. *)
Fixpoint joinrealpath (s : fs) (depth : nat) : list pystr → list pystr → seen_links → res py_exn (list pystr * seen_links) :=
  match depth with
  | O => λ _ _ _, Err RuntimeError
  | S depth =>
      fix loop (path rest : list pystr) (seen : seen_links) : res py_exn (list pystr * seen_links) :=
        match rest with
        | [] => Ok (path, seen)
        | name :: rest =>
            if bool_decide (name = []) || bool_decide (name = dot) then loop path rest seen
            else if bool_decide (name = dotdot) then loop (up path) rest seen
            else
              let newpath := path ++ [name] in
              match os_lstat s newpath with
              | Err e => Err e
              | Ok (NLink target) =>
                  match seen !! newpath with
                  | Some (Some known) => loop known rest seen
                  | Some None => Err (OSError ELOOP)
                  | None =>
                      match joinrealpath s depth (link_start path target) (split_slash target) (<[newpath := None]> seen) with
                      | Ok (path, seen) => loop path rest (<[newpath := Some path]> seen)
                      | Err e => Err e
                      end
                  end
              | Ok _ => loop newpath rest seen
              end
        end
  end.

Section resolve.
Context (recursion_limit : nat) (cwd : list pystr).

(** [Path.resolve(strict=True)]: Python 3.12 turns [ELOOP] into a
    [RuntimeError]. *)
Definition resolve (s : fs) (p : purepath) : res py_exn purepath :=
  match joinrealpath s recursion_limit (if is_absolute p then [] else cwd) (p_parts p) ∅ with
  | Ok (path, _) => Ok (PurePath [cp_slash] path)
  | Err (OSError ELOOP) => Err RuntimeError
  | Err e => Err e
  end.
End resolve.

(** ** Descriptors *)

(** An open directory is known by its physical path. *)
Abbreviation table := (gmap fd (list pystr)).

Definition node_mode (n : node) : Z :=
  match n with NDir => 16384 | NReg x => 32768 + (if x then 493 else 420) | NLink _ => 41471 | NSpecial => 4096 end.
Definition node_stat (n : node) : stat_result :=
  {| st_dev := 0; st_ino := 0; st_size := 0; st_mtime_ns := 0; st_ctime_ns := 0; st_mode := node_mode n |}.

Definition fresh_fd (t : table) : fd := fresh (dom t : gset fd).

Definition open_dir (t : table) (p : list pystr) : table * res os_error fd := (<[fresh_fd t := p]> t, Ok (fresh_fd t)).

(** The entry [name] of an open directory, not followed *)
Definition entry_at (s : fs) (t : table) (directory : fd) (name : pystr) : res os_error (list pystr * node) :=
  match t !! directory with
  | None => Err OsError
  | Some p =>
      let q := p ++ [name] in
      if fs_hidden s q then Err OsError
      else match node_at s q with None => Err OsFileNotFound | Some n => Ok (q, n) end
  end.

Section run_fs.
Context (recursion_limit : nat) (cwd : list pystr).

Definition resolve_exn (e : py_exn) : exn :=
  match e with OSError ENOENT => XOs OsFileNotFound | OSError _ => XOs OsError | ValueError => XValue | RuntimeError => XOther end.

(** The calls of the guarded walk; [None]: another call. *)
Definition fs_answer (s : fs) (t : table) (c : call) : option (table * answer c) :=
  match c with
  | COpenRoot root =>
      Some (match namei s false MAXSYMLINKS [] (split_slash root) with
            | Ok (p, NDir) => open_dir t p
            | Err ENOENT => (t, Err OsFileNotFound)
            | _ => (t, Err OsError)
            end)
  | COpenChild directory part =>
      Some (match entry_at s t directory part with
            | Ok (q, NDir) => open_dir t q
            | Ok _ => (t, Err OsError)
            | Err e => (t, Err e)
            end)
  | CStatEntry directory name =>
      Some (t, match entry_at s t directory name with Ok (_, n) => Ok (node_stat n) | Err e => Err e end)
  | CRealpath path =>
      Some (t, match resolve recursion_limit cwd s (Path path) with Ok r => Ok (path_str r) | Err e => Err (resolve_exn e) end)
  | CClose f => Some (match t !! f with Some _ => (delete f t, Ok tt) | None => (t, Err OsError) end)
  | _ => None
  end.

Fixpoint run_fs {A} (s : fs) (p : prog A) (t : table) : option (table * res exn A) :=
  match p with
  | Done r => Some (t, r)
  | Vis c k => match fs_answer s t c with Some (t, a) => run_fs s (k a) t | None => None end
  end.
End run_fs.

(** ** Laws *)

(** Programs compose. *)
Lemma run_bind {A B} limit cwd s (p : prog A) (f : A → prog B) t :
  run_fs limit cwd s (pbind p f) t =
  match run_fs limit cwd s p t with
  | Some (t, Ok a) => run_fs limit cwd s (f a) t
  | Some (t, Err x) => Some (t, Err x)
  | None => None
  end.
Proof. revert t. induction p as [[a|x]|c k IH]; intros t; simpl; [done..|]. destruct (fs_answer limit cwd s t c) as [[t' a]|]; [apply IH|done]. Qed.

Lemma run_catch {A} limit cwd s (p : prog A) handler t :
  run_fs limit cwd s (catch p handler) t =
  match run_fs limit cwd s p t with
  | Some (t, Err x) => match handler x with Some q => run_fs limit cwd s q t | None => Some (t, Err x) end
  | r => r
  end.
Proof.
  revert t. induction p as [[a|x]|c k IH]; intros t; simpl; [done|by destruct (handler x)|].
  destruct (fs_answer limit cwd s t c) as [[t' a]|]; [apply IH|done].
Qed.

Lemma run_finally {A} limit cwd s (p : prog A) last t :
  run_fs limit cwd s (finally p last) t =
  match run_fs limit cwd s p t with
  | Some (t, r) => match run_fs limit cwd s last t with Some (t, Ok _) => Some (t, r) | Some (t, Err x) => Some (t, Err x) | None => None end
  | None => None
  end.
Proof.
  revert t. induction p as [r|c k IH]; intros t; simpl.
  - rewrite run_bind. by destruct (run_fs limit cwd s last t) as [[? [|]]|].
  - destruct (fs_answer limit cwd s t c) as [[t' a]|]; [apply IH|done].
Qed.

(** Names of entries. *)
Definition good_name (x : pystr) : Prop := plain x ∧ cp_slash ∉ x ∧ forallb encodable_char x = true.
Definition good_node (n : node) : Prop := match n with NLink target => forallb encodable_char target = true | _ => True end.
Definition wf_fs (s : fs) : Prop := ∀ p n, fs_nodes s !! p = Some n → Forall good_name p ∧ good_node n.

(** A directory reached through directories only, and any node in one: the
    paths that name what they spell. *)
Inductive phys_dir (s : fs) : list pystr → Prop :=
| phys_root : phys_dir s []
| phys_sub p x : phys_dir s p → fs_hidden s (p ++ [x]) = false → node_at s (p ++ [x]) = Some NDir → phys_dir s (p ++ [x]).

Definition phys_entry (s : fs) (p : list pystr) (n : node) : Prop :=
  ∃ q x, p = q ++ [x] ∧ phys_dir s q ∧ fs_hidden s p = false ∧ node_at s p = Some n.

Definition is_link (n : node) : bool := match n with NLink _ => true | _ => false end.
Definition phys (s : fs) (p : list pystr) : Prop := phys_dir s p ∨ ∃ n, phys_entry s p n ∧ is_link n = false.

Lemma up_snoc p x : up (p ++ [x]) = p.
Proof. unfold up. rewrite length_app. simpl. replace (length p + 1 - 1)%nat with (length p) by lia. apply take_app_length. Qed.

Section laws.
Context (s : fs) (Hwf : wf_fs s).

Lemma node_name p x n : node_at s (p ++ [x]) = Some n → good_name x.
Proof. unfold node_at. destruct (p ++ [x]) eqn:E; [by destruct p|]. intros [H _]%Hwf. rewrite <-E in H. apply Forall_app in H as [_ [? _]%Forall_cons]. done. Qed.

Lemma phys_dir_names p : phys_dir s p → Forall good_name p.
Proof. induction 1 as [|p x _ IH _ Hn]; [done|]. apply Forall_app. split; [done|]. by constructor; [eapply node_name|]. Qed.

Lemma entry_names p n : phys_entry s p n → Forall good_name p.
Proof. intros (q & x & -> & Hq & _ & Hn). apply Forall_app. split; [by apply phys_dir_names|]. constructor; [by eapply node_name|done]. Qed.

Lemma phys_names p : phys s p → Forall good_name p.
Proof. intros [?|(n & ? & _)]; [by apply phys_dir_names|by eapply entry_names]. Qed.

Lemma phys_up p : phys s p → phys_dir s (up p).
Proof.
  intros [Hd|(n & (q & x & -> & Hq & _) & _)]; [|by rewrite up_snoc]. destruct Hd; [constructor|by rewrite up_snoc].
Qed.

Lemma phys_entry_dir p : phys_entry s p NDir → phys_dir s p.
Proof. intros (q & x & -> & Hq & ? & ?). by constructor. Qed.

Lemma names_encodable p : Forall good_name p → encodable p = true.
Proof. intros H. unfold encodable. apply forallb_forall. intros x Hx%list_elem_of_In. rewrite Forall_forall in H. by apply H in Hx as (_ & _ & ?). Qed.

(** One component of the kernel's walk *)
Lemma namei_step f l p x rest :
  plain x →
  namei s f l p (x :: rest) =
  let q := p ++ [x] in
  if fs_hidden s q then Err EACCES
  else match node_at s q with
       | None => Err ENOENT
       | Some NDir => namei s f l q rest
       | Some (NLink target) =>
           match rest with
           | [] => if f then match l with O => Err ELOOP | S l => namei s f l (link_start p target) (split_slash target) end
                   else Ok (q, NLink target)
           | _ => match l with O => Err ELOOP | S l => namei s f l (link_start p target) (split_slash target ++ rest) end
           end
       | Some n => match rest with [] => Ok (q, n) | _ => Err ENOTDIR end
       end.
Proof.
  intros (H1 & H2 & H3). destruct l; simpl; rewrite !bool_decide_false by done; simpl; done.
Qed.

Lemma namei_phys f l p rest : phys_dir s p → namei s f l [] (p ++ rest) = namei s f l p rest.
Proof.
  intros Hp. revert rest. induction Hp as [|p x Hp IH Hh Hn]; intros rest; [done|].
  rewrite <-app_assoc, IH. simpl app. rewrite namei_step by (eapply node_name; eauto). simpl. by rewrite Hh, Hn.
Qed.

Lemma namei_skip f l p rest : namei s f l p ([] :: rest) = namei s f l p rest.
Proof. by destruct l. Qed.

#[global] Arguments namei : simpl never.

Lemma lstat_entry p x :
  phys_dir s p → plain x →
  os_lstat s (p ++ [x]) =
  if encodable (p ++ [x]) then
    if fs_hidden s (p ++ [x]) then Err (OSError EACCES)
    else match node_at s (p ++ [x]) with None => Err (OSError ENOENT) | Some n => Ok n end
  else Err ValueError.
Proof.
  intros Hp Hx. unfold os_lstat. destruct (encodable (p ++ [x])); [|done]. rewrite namei_phys, namei_step by done. simpl.
  destruct (fs_hidden s (p ++ [x])); [done|]. by destruct (node_at s (p ++ [x])) as [[]|].
Qed.

(** Below a node that is no directory nothing is found. *)
Lemma lstat_below p x n : phys_entry s p n → is_link n = false → n ≠ NDir → plain x → ∀ m, os_lstat s (p ++ [x]) ≠ Ok m.
Proof.
  intros (q & y & -> & Hq & Hh & Hn) Hl Hd Hx m. unfold os_lstat. destruct (encodable _); [|done].
  rewrite <-app_assoc, namei_phys by done. simpl app. rewrite namei_step by (eapply node_name; eauto). simpl. rewrite Hh, Hn.
  by destruct n.
Qed.

(** What [lstat] finds below a physical path is an entry of a directory. *)
Lemma lstat_found p x n : phys s p → plain x → os_lstat s (p ++ [x]) = Ok n → phys_dir s p ∧ phys_entry s (p ++ [x]) n.
Proof.
  intros Hp Hx Hst. assert (phys_dir s p) as Hd.
  { destruct Hp as [?|(m & He & Hl)]; [done|]. destruct (decide (m = NDir)) as [->|Hm]; [by apply phys_entry_dir|].
    by apply (lstat_below p x m) in Hst. }
  split; [done|]. rewrite lstat_entry in Hst by done. destruct (encodable _); [|done].
  destruct (fs_hidden s (p ++ [x])) eqn:Hh; [done|]. destruct (node_at s (p ++ [x])) eqn:Hn; [|done]. simplify_eq. by exists p, x.
Qed.

(** *** [realpath] names what it spells *)

Definition seen_ok (seen : seen_links) : Prop := ∀ k p, seen !! k = Some (Some p) → phys s p.

Lemma seen_ok_insert seen k v : seen_ok seen → (∀ p, v = Some p → phys s p) → seen_ok (<[k := v]> seen).
Proof.
  intros Hs Hv j p. destruct (decide (j = k)) as [->|]; [rewrite lookup_insert_eq; intros [= ->]; by apply Hv|].
  rewrite lookup_insert_ne by done. apply Hs.
Qed.

Lemma joinrealpath_phys depth path rest seen path' seen' :
  phys s path → seen_ok seen → joinrealpath s depth path rest seen = Ok (path', seen') → phys s path' ∧ seen_ok seen'.
Proof.
  revert path rest seen path' seen'. induction depth as [|depth IHd]; intros path rest; [done|].
  revert path. induction rest as [|name rest IH]; intros path seen path' seen' Hp Hs; [simpl; intros [= -> ->]; done|].
  cbn [joinrealpath]. destruct (bool_decide (name = []) || bool_decide (name = dot)) eqn:Hn; [by apply IH|].
  apply orb_false_elim in Hn as [Hn1%bool_decide_eq_false Hn2%bool_decide_eq_false].
  case_bool_decide as Hdd; [apply IH; [left; by apply phys_up|done]|].
  destruct (os_lstat s (path ++ [name])) as [n|e] eqn:Hst; [|done].
  destruct (lstat_found path name n) as [Hd He]; [done|by split_and!|done|].
  assert (is_link n = false → phys s (path ++ [name])) as Hnl by (intros; right; eauto).
  destruct n as [| |target|]; [apply IH; eauto..| |apply IH; eauto].
  destruct (seen !! (path ++ [name])) as [[known|]|] eqn:Hseen; [apply IH; eauto|done|].
  destruct (joinrealpath s depth _ _ _) as [[p1 seen1]|] eqn:Hrec; [|done].
  apply IHd in Hrec as [Hp1 Hs1].
  - apply IH; [done|]. apply seen_ok_insert; [done|]. by intros ? [= <-].
  - unfold link_start. case_bool_decide; [left; constructor|done].
  - by apply seen_ok_insert.
Qed.

Lemma joinrealpath_dir depth path x rest seen :
  phys_dir s path → phys_entry s (path ++ [x]) NDir ∨ (∃ n, phys_entry s (path ++ [x]) n ∧ is_link n = false) →
  joinrealpath s (S depth) path (x :: rest) seen = joinrealpath s (S depth) (path ++ [x]) rest seen.
Proof.
  intros Hd Hn. assert (∃ n, phys_entry s (path ++ [x]) n ∧ is_link n = false) as (n & He & Hl) by (destruct Hn as [?|?]; eauto).
  pose proof (entry_names _ _ He) as Hnames. destruct He as (q & y & [-> [= <-]]%app_inj_tail & _ & Hh & Hn').
  destruct (node_name _ _ _ Hn') as [(H1 & H2 & H3) _].
  cbn [joinrealpath]. rewrite !bool_decide_false by done. simpl orb. rewrite lstat_entry by done.
  rewrite (names_encodable _ Hnames), Hh, Hn'. by destruct n.
Qed.

(** A physical path resolves to itself. *)
Lemma joinrealpath_id depth p seen : phys s p → joinrealpath s (S depth) [] p seen = Ok (p, seen).
Proof.
  assert (∀ q rest, phys_dir s q → joinrealpath s (S depth) [] (q ++ rest) seen = joinrealpath s (S depth) q rest seen) as Hdirs.
  { intros q rest Hq. revert rest. induction Hq as [|q x Hq IH Hh Hn]; intros rest; [done|].
    rewrite <-app_assoc, IH. apply joinrealpath_dir; [done|]. left. by exists q, x. }
  intros [Hd|(n & (q & x & -> & Hq & Hh & Hn) & Hl)].
  - rewrite <-(app_nil_r p) at 1. by rewrite Hdirs.
  - rewrite Hdirs by done. rewrite joinrealpath_dir; [done|done|]. right. exists n. split; [by exists q, x|done].
Qed.

(** Everything on the way can be encoded, so nothing raises [ValueError]. *)
Lemma namei_link_target p t : node_at s p = Some (NLink t) → forallb encodable_char t = true.
Proof. destruct p; simpl; [done|]. by intros [_ ?]%Hwf. Qed.

Lemma encodable_app p q : encodable (p ++ q) = encodable p && encodable q.
Proof. unfold encodable. by rewrite forallb_app. Qed.

Lemma encodable_split t : forallb encodable_char t = true → encodable (split_slash t) = true.
Proof.
  intros H. unfold encodable. rewrite forallb_forall in H. apply forallb_forall. intros comp Hc. apply forallb_forall. intros c Hin.
  apply list_elem_of_In in Hc, Hin. apply H, list_elem_of_In. by eapply split_slash_char.
Qed.

Lemma joinrealpath_no_value depth path rest seen :
  phys s path → seen_ok seen → encodable rest = true → joinrealpath s depth path rest seen ≠ Err ValueError.
Proof.
  revert path rest seen. induction depth as [|depth IHd]; intros path rest; [done|].
  revert path. induction rest as [|name rest IH]; intros path seen Hp Hs He; [done|].
  simpl in He. apply andb_true_iff in He as [Hname He].
  cbn [joinrealpath]. destruct (bool_decide (name = []) || bool_decide (name = dot)) eqn:Hn; [by apply IH|].
  apply orb_false_elim in Hn as [Hn1%bool_decide_eq_false Hn2%bool_decide_eq_false].
  destruct (bool_decide (name = dotdot)) eqn:Hdd; [apply IH; [left; by apply phys_up|done..]|]. apply bool_decide_eq_false in Hdd.
  destruct (os_lstat s (path ++ [name])) as [n|e] eqn:Hst.
  2: { intros [= ->]. unfold os_lstat in Hst. rewrite encodable_app, (names_encodable path) in Hst by (by apply phys_names).
       unfold encodable in Hst. cbn [forallb andb] in Hst. rewrite Hname in Hst. cbn [andb] in Hst.
       by destruct (namei s false MAXSYMLINKS [] (path ++ [name])) as [[]|]. }
  destruct (lstat_found path name n) as [Hd He']; [done|by split_and!|done|].
  assert (is_link n = false → phys s (path ++ [name])) as Hnl by (intros; right; eauto).
  destruct n as [| |target|]; [apply IH; eauto..| |apply IH; eauto].
  destruct (seen !! (path ++ [name])) as [[known|]|] eqn:Hseen; [apply IH; eauto|done|].
  assert (phys s (link_start path target)) as Hls by (unfold link_start; case_bool_decide; [left; constructor|done]).
  assert (seen_ok (<[path ++ [name] := None]> seen)) as Hs1 by (by apply seen_ok_insert).
  assert (encodable (split_slash target) = true) as Ht.
  { apply encodable_split. destruct He' as (q & x & _ & _ & _ & Hn'). by eapply namei_link_target. }
  destruct (joinrealpath s depth _ _ _) as [[p1 seen1]|e] eqn:Hrec; [|intros [= ->]; by apply IHd in Hrec].
  apply joinrealpath_phys in Hrec as [Hp1 Hs2]; [|done|done].
  apply IH; [done| |done]. apply seen_ok_insert; [done|]. by intros ? [= <-].
Qed.

Lemma resolve_no_value limit cwd p : phys_dir s cwd → encodable (p_parts p) = true → resolve limit cwd s p ≠ Err ValueError.
Proof.
  intros Hcwd He. unfold resolve. pose proof (joinrealpath_no_value limit (if is_absolute p then [] else cwd) (p_parts p) ∅) as Hno.
  destruct (joinrealpath _ _ _ _ _) as [[path seen]|[[]| |]]; try done. intros _. apply Hno; [|by intros k q; rewrite lookup_empty|done|done].
  case_match; [left; constructor|by left].
Qed.

Lemma resolve_phys limit cwd p r : phys_dir s cwd → resolve limit cwd s p = Ok r → p_anchor r = [cp_slash] ∧ phys s (p_parts r).
Proof.
  intros Hcwd. unfold resolve. destruct (joinrealpath _ _ _ _ _) as [[path seen]|e] eqn:Hj; [|by destruct e as [[]| |]].
  intros [= <-]. split; [done|]. simpl. eapply joinrealpath_phys in Hj as [? _]; [done| |].
  - case_match; [left; constructor|by left].
  - intros k q. by rewrite lookup_empty.
Qed.

Lemma resolve_id limit cwd p : phys s p → resolve (S limit) cwd s (PurePath [cp_slash] p) = Ok (PurePath [cp_slash] p).
Proof. intros Hp. unfold resolve. simpl is_absolute. by rewrite joinrealpath_id. Qed.

Lemma resolve_idempotent limit cwd p r :
  phys_dir s cwd → resolve limit cwd s p = Ok r → resolve limit cwd s r = Ok r.
Proof.
  intros Hcwd Hr. pose proof (resolve_phys _ _ _ _ Hcwd Hr) as [Ha Hp]. destruct r as [a ps]. simpl in *. subst a.
  destruct limit as [|limit]; [unfold resolve in Hr; simpl in Hr; done|]. by apply resolve_id.
Qed.

(** *** The guarded walk *)

(** What a walk over [parts] from the directory [cur] meets: the error of the
    first step that fails. *)
Fixpoint walk_spec (cur parts : list pystr) : option os_error :=
  match parts with
  | [] => None
  | part :: parts =>
      if bool_decide (part ∈ [[]; dot; dotdot]) then Some OsError
      else let q := cur ++ [part] in
           if fs_hidden s q then Some OsError
           else match node_at s q with
                | None => Some OsFileNotFound
                | Some NDir => walk_spec q parts
                | Some _ => Some OsError
                end
  end.

Lemma fresh_fd_new (t : table) : t !! fresh_fd t = None.
Proof. apply (not_elem_of_dom (D := gset fd)). unfold fresh_fd. exact (is_fresh (dom t : gset fd)). Qed.

Lemma run_walk limit cwd parts f cur t :
  t !! f = Some cur →
  match walk_spec cur parts with
  | Some e => run_fs limit cwd s (walk_parts parts f) t = Some (delete f t, Err (XOs e))
  | None => ∃ f', delete f t !! f' = None ∧ run_fs limit cwd s (walk_parts parts f) t = Some (<[f' := cur ++ parts]> (delete f t), Ok f')
  end.
Proof.
  revert f cur t. induction parts as [|part parts IH]; intros f cur t Hf; cbn [walk_spec walk_parts].
  { exists f. rewrite lookup_delete_eq, insert_delete_eq, app_nil_r. split; [done|]. simpl. by rewrite insert_id. }
  unfold mbind, prog_bind. rewrite run_bind, run_catch. case_bool_decide as Hp; [simpl; by rewrite Hf|].
  cbn [pbind run_fs fs_answer]. unfold entry_at. rewrite Hf. destruct (fs_hidden s (cur ++ [part])); [simpl; by rewrite Hf|].
  pose proof (fresh_fd_new t) as Hnew.
  destruct (node_at s (cur ++ [part])) as [[| | |]|]; simpl; try (by rewrite Hf).
  rewrite lookup_insert_ne by congruence. rewrite Hf. simpl. rewrite delete_insert_ne by congruence.
  assert (delete f t !! fresh_fd t = None) as Hnew' by (rewrite lookup_delete_None; auto).
  specialize (IH (fresh_fd t) (cur ++ [part]) (<[fresh_fd t := cur ++ [part]]> (delete f t)) ltac:(by rewrite lookup_insert_eq)).
  rewrite delete_insert_id in IH by done. rewrite <-app_assoc in IH. exact IH.
Qed.

Lemma walk_spec_dirs cur parts : phys_dir s cur → walk_spec cur parts = None ↔ phys_dir s (cur ++ parts).
Proof.
  revert cur. induction parts as [|part parts IH]; intros cur Hcur; cbn [walk_spec]; [by rewrite app_nil_r|].
  assert (phys_dir s (cur ++ part :: parts) →
    good_name part ∧ fs_hidden s (cur ++ [part]) = false ∧ node_at s (cur ++ [part]) = Some NDir ∧ phys_dir s (cur ++ [part])) as Hinv.
  { clear IH. rewrite (cons_middle part), app_assoc. induction parts as [|y parts IHp] using rev_ind; intros Hd.
    - rewrite app_nil_r in Hd. inversion Hd as [|p x ? ? ? Hpx]; [by destruct cur|]. apply app_inj_tail in Hpx as [-> ->].
      split_and!; [by eapply node_name|done..].
    - apply IHp. rewrite app_assoc in Hd. inversion Hd as [Hnil|p x ? ? ? Hpx]; [by apply app_cons_not_nil in Hnil|].
      by apply app_inj_tail in Hpx as [-> _]. }
  case_bool_decide as Hp.
  { split; [done|]. intros (((? & ? & ?) & _) & _)%Hinv. set_solver. }
  destruct (fs_hidden s (cur ++ [part])) eqn:Hh.
  { split; [done|]. intros (_ & ? & _)%Hinv. congruence. }
  destruct (node_at s (cur ++ [part])) as [[]|] eqn:Hn; [|split; [done|intros (_ & _ & ? & _)%Hinv; congruence]..].
  rewrite IH by (by constructor). by rewrite <-app_assoc.
Qed.

Lemma split_path_str (parts : list pystr) : Forall good_name parts → ∃ k, split_slash (path_str (PurePath [cp_slash] parts)) = replicate k [] ++ parts.
Proof.
  intros Hg. unfold path_str. simpl. destruct parts as [|x parts]; [by exists 2%nat|]. exists 1%nat. simpl. f_equal.
  apply (split_join (x :: parts)); [done|]. eapply Forall_impl; [exact Hg|]. by intros y (_ & ? & _).
Qed.

(** Opening a physical root and walking below it *)
Lemma run_open_guarded limit cwd root parts t :
  phys_dir s root →
  match walk_spec root parts with
  | Some e => run_fs limit cwd s (open_guarded_directory (path_str (PurePath [cp_slash] root)) parts) t = Some (t, Err (XOs e))
  | None => ∃ f, t !! f = None ∧
      run_fs limit cwd s (open_guarded_directory (path_str (PurePath [cp_slash] root)) parts) t = Some (<[f := root ++ parts]> t, Ok f)
  end.
Proof.
  intros Hroot. unfold open_guarded_directory, mbind, prog_bind. rewrite run_bind. cbn [run_fs fs_answer].
  destruct (split_path_str root) as [k ->]; [by apply phys_dir_names|].
  assert (namei s false MAXSYMLINKS [] (replicate k [] ++ root) = Ok (root, NDir)) as ->.
  { induction k as [|k IH]; simpl replicate; simpl app; [|by rewrite namei_skip]. rewrite <-(app_nil_r root) at 1. by rewrite namei_phys. }
  pose proof (fresh_fd_new t) as Hnew. unfold open_dir. cbn [os run_fs].
  pose proof (run_walk limit cwd parts (fresh_fd t) root (<[fresh_fd t := root]> t) ltac:(by rewrite lookup_insert_eq)) as Hw.
  rewrite delete_insert_id in Hw by done. exact Hw.
Qed.
End laws.
