(* ===== verification/Identity.v ===== *)
(** * Workspace identity and trust policy

    Model of [src/serena_light/workspace/identity.py] over the file system of
    [FileSystem]: the resolution of an activation path and of a Conda
    environment, and the two authorizations, of a path operand that is read
    (through its resolved path) and of an edit (through its lexical path and the
    guarded walk). Git is a parameter; messages are not modelled. *)

From S2P Require Import Prelude Paths Positions Envelopes Executor Editing FileSystem.

(** ** Data *)

Inductive WorkspaceKind := WK_GIT | WK_NON_GIT_READ_ONLY.
#[export] Instance workspace_kind_eq_dec : EqDecision WorkspaceKind.
Proof. solve_decision. Defined.

Definition workspace_kind_value (k : WorkspaceKind) : pystr :=
  match k with WK_GIT => lit "git" | WK_NON_GIT_READ_ONLY => lit "non_git_read_only" end.

Inductive LocationKind := LK_WORKSPACE | LK_READ_ONLY_EXTERNAL.

Record WorkspaceIdentity := {
  wi_root : purepath;
  wi_kind : WorkspaceKind;
  wi_working_subdirectory : purepath;
  wi_python_environment : pystr;
  wi_python_interpreter : purepath;
}.

Definition registry_key (i : WorkspaceIdentity) : WorkspaceKind * purepath * pystr * purepath :=
  (wi_kind i, wi_root i, wi_python_environment i, wi_python_interpreter i).

Record SemanticLocation := { sl_path : purepath; sl_kind : LocationKind }.
Definition read_only_external (l : SemanticLocation) : bool :=
  match sl_kind l with LK_READ_ONLY_EXTERNAL => true | LK_WORKSPACE => false end.

Record CondaEnvironment := { ce_name : pystr; ce_interpreter : purepath }.

(** What leaves the policy: its typed error, an exception of a file-system
    call, a [subprocess.TimeoutExpired], or another exception of the guarded
    walk. *)
Inductive policy_exn :=
| PolicyError (d : WorkspaceErrorData)
| PolicyPython (e : py_exn)
| PolicyTimeout
| PolicyGuard (x : exn).

Definition _is_within (path root : purepath) : bool := bool_decide (is_Some (relative_to path root)).

(** [WorkspaceIdentity(...)] with its [__post_init__] *)
Definition workspace_identity_init (i : WorkspaceIdentity) : res policy_exn WorkspaceIdentity :=
  _ ← ensure (is_absolute (wi_root i) && is_absolute (wi_working_subdirectory i)) (PolicyPython ValueError);
  _ ← ensure (nonempty (wi_python_environment i) && is_absolute (wi_python_interpreter i)) (PolicyPython ValueError);
  _ ← ensure (_is_within (wi_working_subdirectory i) (wi_root i)) (PolicyPython ValueError);
  Ok i.

Definition identity_shown (i : WorkspaceIdentity) : pystr * pystr * pystr :=
  (path_str (wi_root i), workspace_kind_value (wi_kind i), path_str (wi_working_subdirectory i)).

Definition _fail (code : WorkspaceErrorCode) (current_identity : option WorkspaceIdentity)
    (activation_hint path : option purepath) : WorkspaceErrorData :=
  {| wd_code := code; wd_current_identity := identity_shown <$> current_identity;
     wd_activation_hint := path_str <$> activation_hint; wd_path := path_str <$> path |}.

Definition invalid_path {A} (path : option purepath) : res policy_exn A :=
  Err (PolicyError (_fail WE_INVALID_PATH None None path)).

(** [re.compile(r"[A-Za-z0-9][A-Za-z0-9_.-]*\Z").fullmatch(name)] *)
Definition alphanumeric (c : N) : bool :=
  ((65 <=? c)%N && (c <=? 90)%N) || ((97 <=? c)%N && (c <=? 122)%N) || ((48 <=? c)%N && (c <=? 57)%N).
Definition _CONDA_ENVIRONMENT_NAME (name : pystr) : bool :=
  match name with
  | c :: name => alphanumeric c && forallb (λ c, alphanumeric c || bool_decide (c ∈ lit "_.-")) name
  | [] => false
  end.

Definition DEFAULT_PYTHON_ENVIRONMENT : pystr := lit "ms".

(** What running [git rev-parse --show-toplevel] can give. *)
Inductive git_result :=
| GitNotExecuted              (** [OSError] *)
| GitTimedOut
| GitUndecodable              (** the output is not text *)
| GitRan (returncode : Z) (stdout : pystr).

(** [str.strip] *)
Definition str_space (c : N) : bool :=
  ((9 <=? c)%N && (c <=? 13)%N) || ((28 <=? c)%N && (c <=? 32)%N) ||
  bool_decide (c ∈ [133; 160; 5760; 8232; 8233; 8239; 8287; 12288]%N) || ((8192 <=? c)%N && (c <=? 8202)%N).
Fixpoint str_lstrip (t : pystr) : pystr :=
  match t with c :: rest => if str_space c then str_lstrip rest else t | [] => [] end.
Definition str_strip (t : pystr) : pystr := reverse (str_lstrip (reverse (str_lstrip t))).

(** ** The guard of an edit *)

(** [os.lstat(parts[-1], dir_fd=directory_fd)] is [CStatEntry]. *)
Definition require_guarded_regular_file (root : purepath) (parts : list pystr) : prog unit :=
  match last parts with
  | None => raise (XWorkspace (_fail WE_INVALID_PATH None None (Some root)))
  | Some name =>
      let refused {A} : exn → option (prog A) := λ x,
        if is_os x then Some (raise (XWorkspace (_fail WE_INVALID_PATH None None (Some (path_div root (PurePath [] parts))))))
        else None in
      directory_fd ← catch (open_guarded_directory (path_str root) (up parts)) refused;
      file_stat ← finally (catch (Vis (CStatEntry directory_fd name) os) refused) (os_close directory_fd);
      if S_ISREG (st_mode file_stat) then mret tt
      else raise (XWorkspace (_fail WE_INVALID_PATH None None (Some (path_div root (PurePath [] parts)))))
  end.

Section policy.
Context (recursion_limit : nat) (cwd : list pystr) (s : fs) (git : list pystr → git_result).

Abbreviation resolve := (resolve recursion_limit cwd s).

Definition _resolve_existing (path : purepath) : res policy_exn purepath :=
  if negb (is_absolute path) then invalid_path (Some path)
  else match resolve path with
       | Ok r => Ok r
       | Err (OSError _) => invalid_path (Some path)
       | Err e => Err (PolicyPython e)
       end.

Definition path_is_dir (p : purepath) : res policy_exn bool :=
  match is_dir s (p_parts p) with Ok b => Ok b | Err e => Err (PolicyPython e) end.

(** ** Conda environments *)

(** [CondaEnvironmentResolver(envs_root)]: the resolved root *)
Definition conda_init (envs_root : purepath) : res policy_exn purepath :=
  root ← _resolve_existing envs_root;
  directory ← path_is_dir root;
  if (directory : bool) then Ok root else invalid_path (Some root).

Definition conda_resolve (envs_root : purepath) (name : option pystr) : res policy_exn CondaEnvironment :=
  let selected := default DEFAULT_PYTHON_ENVIRONMENT name in
  if negb (_CONDA_ENVIRONMENT_NAME selected) then invalid_path None
  else
    let configured := PurePath (p_anchor envs_root) (p_parts envs_root ++ [selected; lit "bin"; lit "python"]) in
    match os_stat s (p_parts configured) with
    | Err (OSError _) => invalid_path (Some configured)
    | Err e => Err (PolicyPython e)
    | Ok (NReg true) => Ok {| ce_name := selected; ce_interpreter := configured |}
    | Ok _ => invalid_path (Some configured)
    end.

Definition conda_environment_for_path (envs_root path : purepath) : res policy_exn (option pystr) :=
  match relative_to path envs_root with
  | Some (name :: _) =>
      if negb (_CONDA_ENVIRONMENT_NAME name) then Ok None
      else match conda_resolve envs_root (Some name) with
           | Ok e => Ok (Some (ce_name e))
           | Err (PolicyError _) => Ok None
           | Err e => Err e
           end
  | _ => Ok None
  end.

(** ** Activation *)

Record WorkspacePolicy := { wp_environments : purepath; wp_data_root : purepath }.

Definition policy_init (conda_envs_root data_root : purepath) : res policy_exn WorkspacePolicy :=
  environments ← conda_init conda_envs_root;
  data ← _resolve_existing data_root;
  Ok {| wp_environments := environments; wp_data_root := data |}.

Definition _git_top_level (path : purepath) : res policy_exn (option purepath) :=
  match git (p_parts path) with
  | GitNotExecuted => invalid_path (Some path)
  | GitTimedOut => Err PolicyTimeout
  | GitUndecodable => Err (PolicyPython ValueError)
  | GitRan returncode stdout =>
      if bool_decide (returncode ≠ 0) then Ok None
      else match str_strip stdout with
           | [] => invalid_path (Some path)
           | candidate => r ← _resolve_existing (Path candidate); Ok (Some r)
           end
  end.

Definition resolve_activation (w : WorkspacePolicy) (activation_path : pystr) (python_environment : option pystr)
    : res policy_exn WorkspaceIdentity :=
  let supplied := Path activation_path in
  if negb (is_absolute supplied) then invalid_path None
  else
    environment ← conda_resolve (wp_environments w) python_environment;
    resolved ← _resolve_existing supplied;
    directory ← path_is_dir resolved;
    if negb directory then invalid_path (Some resolved)
    else
      git_root ← _git_top_level resolved;
      workspace_identity_init
        {| wi_root := default resolved git_root;
           wi_kind := match git_root with Some _ => WK_GIT | None => WK_NON_GIT_READ_ONLY end;
           wi_working_subdirectory := resolved;
           wi_python_environment := ce_name environment;
           wi_python_interpreter := ce_interpreter environment |}.

Definition environment_for_path (w : WorkspacePolicy) (path : purepath) : res policy_exn (option pystr) :=
  conda_environment_for_path (wp_environments w) path.

(** ** Authorization *)

Definition classify_semantic_location (i : WorkspaceIdentity) (path : purepath) : res policy_exn SemanticLocation :=
  resolved ← _resolve_existing path;
  Ok {| sl_path := resolved;
        sl_kind := if _is_within resolved (wi_root i) then LK_WORKSPACE else LK_READ_ONLY_EXTERNAL |}.

Definition _activation_hint (path : purepath) : res policy_exn purepath :=
  directory ← path_is_dir path; Ok (if (directory : bool) then path else path_parent path).

(** [_out_of_workspace]: always an exception *)
Definition _out_of_workspace {A} (i : WorkspaceIdentity) (path : purepath) : res policy_exn A :=
  hint ← _activation_hint path;
  Err (PolicyError (_fail WE_OUT_OF_WORKSPACE (Some i) (Some hint) (Some path))).

Definition _resolve_workspace_operand (i : WorkspaceIdentity) (path : purepath) : res policy_exn purepath :=
  _resolve_existing (path_div (wi_root i) path).

(** A stale entry is left out; any other exception of [resolve] gets out. *)
Fixpoint _resolved_inventory (inventory : list purepath) : res policy_exn (list purepath) :=
  match inventory with
  | [] => Ok []
  | item :: inventory =>
      match resolve item with
      | Ok r => rs ← _resolved_inventory inventory; Ok (r :: rs)
      | Err (OSError _) => _resolved_inventory inventory
      | Err e => Err (PolicyPython e)
      end
  end.

Definition authorize_path_operand (i : WorkspaceIdentity) (path : purepath) (inventory : list purepath)
    : res policy_exn purepath :=
  resolved ← _resolve_workspace_operand i path;
  if negb (_is_within resolved (wi_root i)) then _out_of_workspace i resolved
  else
    known ← _resolved_inventory inventory;
    if bool_decide (resolved ∈ known) then Ok resolved else _out_of_workspace i resolved.

Definition _lexical_workspace_path (i : WorkspaceIdentity) (path : purepath) : res policy_exn purepath :=
  let candidate := path_div (wi_root i) path in
  if bool_decide (0%N ∈ path_str candidate) then invalid_path (Some candidate) else Ok (path_normpath candidate).

Definition _lexical_inventory (inventory : list purepath) : list purepath := path_normpath <$> inventory.

(** The pure part of [authorize_edit]: the lexical path and its components below
    the root *)
Definition edit_target (w : WorkspacePolicy) (i : WorkspaceIdentity) (path : purepath) (inventory : list purepath)
    : res policy_exn (purepath * list pystr) :=
  lexical ← _lexical_workspace_path i path;
  if negb (bool_decide (wi_kind i = WK_GIT)) || negb (_is_within (wi_root i) (wp_data_root w))
  then Err (PolicyError (_fail WE_READ_ONLY_ROOT None None (Some lexical)))
  else if negb (_is_within lexical (wi_root i)) then _out_of_workspace i lexical
  else if negb (bool_decide (lexical ∈ _lexical_inventory inventory)) then _out_of_workspace i lexical
  else Ok (lexical, default [] (relative_to lexical (wi_root i))).

Definition guard_exn (x : exn) : policy_exn := match x with XWorkspace d => PolicyError d | x => PolicyGuard x end.

(** [authorize_edit] with the descriptor table it runs in *)
Definition authorize_edit (w : WorkspacePolicy) (i : WorkspaceIdentity) (path : purepath) (inventory : list purepath)
    (t : table) : option (table * res policy_exn purepath) :=
  match edit_target w i path inventory with
  | Err e => Some (t, Err e)
  | Ok (lexical, parts) =>
      match run_fs recursion_limit cwd s (require_guarded_regular_file (wi_root i) parts) t with
      | Some (t, Ok _) => Some (t, Ok lexical)
      | Some (t, Err x) => Some (t, Err (guard_exn x))
      | None => None
      end
  end.
End policy.

(** ** Laws *)

Lemma relative_to_Some path root rest :
  relative_to path root = Some rest ↔ p_anchor path = p_anchor root ∧ p_parts path = p_parts root ++ rest.
Proof.
  unfold relative_to. destruct path as [a ps], root as [b qs]. simpl. split.
  - destruct (bool_decide (a = b)) eqn:Ha; simpl; [|done]. apply bool_decide_eq_true in Ha as ->.
    case_bool_decide as Hp; [|done]. destruct Hp as [k ->]. rewrite drop_app_length. by intros [= ->].
  - intros [-> ->]. rewrite !bool_decide_true by (done || by apply prefix_app_r). simpl. by rewrite drop_app_length.
Qed.

Lemma is_within_iff path root : _is_within path root = true ↔ ∃ rest, p_anchor path = p_anchor root ∧ p_parts path = p_parts root ++ rest.
Proof.
  unfold _is_within. rewrite bool_decide_eq_true. split.
  - intros [rest H]. exists rest. by apply relative_to_Some.
  - intros [rest H]. exists rest. by apply relative_to_Some.
Qed.

Lemma out_of_workspace_not_ok {A} s i path (a : A) : _out_of_workspace s i path ≠ Ok a.
Proof. unfold _out_of_workspace. by destruct (_activation_hint s path). Qed.

(** The walk and the final [lstat] accept exactly the regular files that are
    reached through directories only. *)
Definition regular_file (s : fs) (p : list pystr) : Prop := ∃ x, phys_entry s p (NReg x).

Lemma regular_mode n : S_ISREG (node_mode n) = true ↔ ∃ x, n = NReg x.
Proof.
  destruct n as [|[]|t|]; vm_compute; split; (done || (by intros [? ?]) || eauto).
Qed.

Lemma run_guard limit cwd s root parts t :
  wf_fs s → phys_dir s root →
  ∃ r, run_fs limit cwd s (require_guarded_regular_file (PurePath [cp_slash] root) parts) t = Some (t, r) ∧
    (r = Ok tt ↔ parts ≠ [] ∧ regular_file s (root ++ parts)) ∧
    (∀ x, r = Err x → ∃ path, x = XWorkspace (_fail WE_INVALID_PATH None None (Some path))).
Proof.
  intros Hwf Hroot. unfold require_guarded_regular_file. destruct (last parts) as [name|] eqn:Hlast.
  2: { apply last_None in Hlast as ->. eexists. split; [done|]. split; [naive_solver|]. intros x [= <-]. eauto. }
  apply last_Some in Hlast as [dirs ->]. rewrite up_snoc.
  unfold mbind, prog_bind. rewrite run_bind, run_catch. pose proof (run_open_guarded s Hwf limit cwd root dirs t Hroot) as Hopen.
  assert (regular_file s (root ++ dirs ++ [name]) ↔ walk_spec s root dirs = None ∧
    fs_hidden s (root ++ dirs ++ [name]) = false ∧ ∃ x, node_at s (root ++ dirs ++ [name]) = Some (NReg x)) as Hreg.
  { rewrite walk_spec_dirs by done. rewrite app_assoc. split.
    - intros (x & q & y & [-> ->]%app_inj_tail & ? & ? & ?). eauto.
    - intros (? & ? & x & ?). exists x, (root ++ dirs), name. done. }
  destruct (walk_spec s root dirs) as [e|].
  { rewrite Hopen. eexists. split; [done|]. split; [|intros x [= <-]; eauto]. split; [done|]. rewrite Hreg. naive_solver. }
  destruct Hopen as (f & Hf & ->). rewrite run_bind, run_finally, run_catch. cbn [run_fs fs_answer]. unfold entry_at.
  rewrite lookup_insert_eq, <-app_assoc. destruct (fs_hidden s (root ++ dirs ++ [name])) eqn:Hh.
  { simpl. rewrite lookup_insert_eq, delete_insert_id by done. eexists. split; [done|]. split; [|intros x [= <-]; eauto].
    split; [done|]. rewrite Hreg. naive_solver. }
  destruct (node_at s (root ++ dirs ++ [name])) as [n|] eqn:Hn; simpl; rewrite lookup_insert_eq, delete_insert_id by done.
  2: { eexists. split; [done|]. split; [|intros x [= <-]; eauto]. split; [done|]. rewrite Hreg. naive_solver. }
  cbn [os run_fs]. change (st_mode (node_stat n)) with (node_mode n). destruct (S_ISREG (node_mode n)) eqn:Hm.
  - eexists. split; [done|]. split; [|done]. apply regular_mode in Hm as [x ->]. split; [|done]. intros _.
    split; [by destruct dirs|]. apply Hreg. eauto.
  - eexists. split; [done|]. split; [|intros x [= <-]; eauto]. split; [done|]. intros [_ (_ & _ & x & [= ->])%Hreg].
    assert (S_ISREG (node_mode (NReg x)) = true) by (apply regular_mode; eauto). congruence.
Qed.

(** ** Edits *)

(** The paths an edit may name, declaratively. *)
Record editable (s : fs) (w : WorkspacePolicy) (i : WorkspaceIdentity) (path : purepath) (inventory : list purepath)
    (p : purepath) : Prop := {
  ed_git : wi_kind i = WK_GIT;
  ed_data : _is_within (wi_root i) (wp_data_root w) = true;
  ed_null : 0%N ∉ path_str (path_div (wi_root i) path);
  ed_lexical : p = path_normpath (path_div (wi_root i) path);
  ed_inventory : ∃ item, item ∈ inventory ∧ path_normpath item = p;
  ed_inside : ∃ rest, rest ≠ [] ∧ p_anchor p = p_anchor (wi_root i) ∧ p_parts p = p_parts (wi_root i) ++ rest;
  ed_regular : regular_file s (p_parts p);
}.

(** How an edit of a path is refused: by the typed error of the workspace, or, for a path that is looked up to hint at
    another workspace and that the file system does not let the server look at, by the [PermissionError] of that lookup,
    which [Path.is_dir] lets through. *)
Definition edit_refusal (s : fs) (i : WorkspaceIdentity) (path : purepath) (e : policy_exn) : Prop :=
  (∃ d, e = PolicyError d) ∨
  (e = PolicyPython (OSError EACCES) ∧ os_stat s (p_parts (path_normpath (path_div (wi_root i) path))) = Err (OSError EACCES)).

Lemma out_of_workspace_refusal {A} s i p e :
  _out_of_workspace (A := A) s i p = Err e →
  (∃ d, e = PolicyError d) ∨ (e = PolicyPython (OSError EACCES) ∧ os_stat s (p_parts p) = Err (OSError EACCES)).
Proof.
  unfold _out_of_workspace, _activation_hint, path_is_dir, is_dir.
  destruct (os_stat s (p_parts p)) as [n|[[]| |]]; simpl; intros [= <-]; (by right) || (left; eauto).
Qed.

(** The pure part of the decision *)
Lemma edit_target_spec s w i path inventory :
  match edit_target s w i path inventory with
  | Ok (p, parts) =>
      p_anchor p = p_anchor (wi_root i) ∧ p_parts p = p_parts (wi_root i) ++ parts ∧
      (∀ q, editable s w i path inventory q ↔ q = p ∧ parts ≠ [] ∧ regular_file s (p_parts p))
  | Err e => edit_refusal s i path e ∧ ∀ q, ¬ editable s w i path inventory q
  end.
Proof.
  unfold edit_target, _lexical_workspace_path, invalid_path.
  destruct (bool_decide (0%N ∈ _)) eqn:Hnull; [apply bool_decide_eq_true in Hnull|apply bool_decide_eq_false in Hnull]; simpl.
  { split; [left; eauto|]. by intros q [? ? Hq ?]. }
  set (p := path_normpath (path_div (wi_root i) path)).
  destruct (bool_decide (wi_kind i = WK_GIT)) eqn:Hkind; [apply bool_decide_eq_true in Hkind|apply bool_decide_eq_false in Hkind];
    simpl; [|split; [left; eauto|]; by intros q [? ? ? ?]].
  destruct (_is_within (wi_root i) (wp_data_root w)) eqn:Hdata; simpl; [|split; [left; eauto|]; intros q [? ? ? ?]; congruence].
  destruct (_is_within p (wi_root i)) eqn:Hin; simpl.
  2: { destruct (_out_of_workspace s i p) as [a|e] eqn:Ho; [by apply out_of_workspace_not_ok in Ho|].
       split; [by eapply out_of_workspace_refusal|]. intros q [? ? ? -> ? (rest & _ & Hrest) ?].
       assert (_is_within p (wi_root i) = true) by (apply is_within_iff; eauto). congruence. }
  assert (p ∈ _lexical_inventory inventory ↔ ∃ item, item ∈ inventory ∧ path_normpath item = p) as Hinv.
  { unfold _lexical_inventory. rewrite list_elem_of_fmap. split; intros (x & ? & ?); by exists x. }
  destruct (bool_decide (p ∈ _)) eqn:Hmem; [apply bool_decide_eq_true in Hmem|apply bool_decide_eq_false in Hmem]; simpl.
  2: { destruct (_out_of_workspace s i p) as [a|e] eqn:Ho; [by apply out_of_workspace_not_ok in Ho|].
       split; [by eapply out_of_workspace_refusal|]. intros q [? ? ? -> Hi ? ?]. by apply Hmem, Hinv. }
  apply is_within_iff in Hin as (rest & Ha & Hp). rewrite (proj2 (relative_to_Some p (wi_root i) rest)) by done. simpl.
  split_and!; [done..|]. intros q. split.
  - intros [? ? ? -> ? (rest' & Hne & _ & Hp') ?]. fold p in Hp'. rewrite Hp in Hp'. simplify_list_eq. done.
  - intros (-> & Hne & Hr). split; [done..|by apply Hinv|eauto|done].
Qed.

Lemma authorize_edit_run limit cwd s w i root path inventory t :
  wf_fs s → wi_root i = PurePath [cp_slash] root → phys_dir s root →
  ∃ r, authorize_edit limit cwd s w i path inventory t = Some (t, r) ∧
    (∀ p, r = Ok p ↔ editable s w i path inventory p) ∧ (∀ e, r = Err e → edit_refusal s i path e).
Proof.
  intros Hwf Hi Hroot. unfold authorize_edit. pose proof (edit_target_spec s w i path inventory) as Hspec.
  destruct (edit_target s w i path inventory) as [[p parts]|e].
  2: { destruct Hspec as [Ht Hno]. eexists. split; [done|]. split; [|by intros ? [= <-]]. intros q. split; [done|]. by intros ?%Hno. }
  destruct Hspec as (Ha & Hp & Hed). rewrite Hi in *. destruct (run_guard limit cwd s root parts t Hwf Hroot) as (r & -> & Hok & Herr).
  simpl in Ha, Hp. destruct r as [[]|x].
  - destruct Hok as [[Hne Hreg] _]; [done|]. eexists. split; [done|]. split; [|done].
    intros q. rewrite Hed, Hp. split; [by intros [= <-]|by intros (-> & _)].
  - destruct (Herr x) as [d ->]; [done|]. eexists. split; [done|]. split; [|intros e [= <-]; left; eauto].
    intros q. split; [done|]. rewrite Hed, Hp. intros (_ & Hne & Hreg). destruct Hok as [_ Hok]. by specialize (Hok (conj Hne Hreg)).
Qed.


(** ** Reads *)

(** An exception of [resolve] that the inventory loop lets through *)
Definition unforgiven (r : res py_exn purepath) : Prop := r = Err ValueError ∨ r = Err RuntimeError.

Lemma resolved_inventory_spec limit cwd s inventory :
  match _resolved_inventory limit cwd s inventory with
  | Ok known => (∀ r, r ∈ known ↔ ∃ item, item ∈ inventory ∧ resolve limit cwd s item = Ok r) ∧
                ∀ item, item ∈ inventory → ¬ unforgiven (resolve limit cwd s item)
  | Err e => (∃ x, e = PolicyPython x) ∧ ∃ item, item ∈ inventory ∧ unforgiven (resolve limit cwd s item)
  end.
Proof.
  induction inventory as [|item inventory IH]; simpl; [split; [set_solver|set_solver]|].
  assert (∀ e, unforgiven (Err e) ↔ ∀ n, e ≠ OSError n) as Hun.
  { intros e. unfold unforgiven. destruct e; naive_solver. }
  destruct (resolve limit cwd s item) as [r|e] eqn:Hr.
  - destruct (_resolved_inventory limit cwd s inventory) as [known|e]; simpl.
    + destruct IH as [IH1 IH2]. split.
      * intros q. rewrite elem_of_cons, IH1. split.
        -- intros [->|(x & ? & ?)]; [exists item; split; [by left|done]|exists x; split; [by right|done]].
        -- intros (x & [->|Hx]%elem_of_cons & Hq); [left; congruence|right; by exists x].
      * intros x [->|Hx]%elem_of_cons; [rewrite Hr; by intros [?|?]|by apply IH2].
    + destruct IH as [? (x & ? & ?)]. split; [done|]. exists x. split; [by right|done].
  - destruct e as [n| |].
    + destruct (_resolved_inventory limit cwd s inventory) as [known|e]; simpl.
      * destruct IH as [IH1 IH2]. split.
        -- intros q. rewrite IH1. split; intros (x & Hx & Hq); exists x; [split; [by right|done]|].
           apply elem_of_cons in Hx as [->|Hx]; [congruence|done].
        -- intros x [->|Hx]%elem_of_cons; [rewrite Hr; by intros [?|?]|by apply IH2].
      * destruct IH as [? (x & ? & ?)]. split; [done|]. exists x. split; [by right|done].
    + split; [eauto|]. exists item. split; [by left|]. rewrite Hr. by left.
    + split; [eauto|]. exists item. split; [by left|]. rewrite Hr. by right.
Qed.

Lemma resolve_existing_Ok limit cwd s p r :
  _resolve_existing limit cwd s p = Ok r ↔ is_absolute p = true ∧ resolve limit cwd s p = Ok r.
Proof.
  unfold _resolve_existing. destruct (is_absolute p); simpl; [|naive_solver].
  destruct (resolve limit cwd s p) as [q|[]]; simpl; naive_solver.
Qed.

Lemma authorize_operand_Ok limit cwd s i path inventory r :
  is_absolute (wi_root i) = true →
  authorize_path_operand limit cwd s i path inventory = Ok r ↔
    resolve limit cwd s (path_div (wi_root i) path) = Ok r ∧ _is_within r (wi_root i) = true ∧
    (∃ item, item ∈ inventory ∧ resolve limit cwd s item = Ok r) ∧
    ∀ item, item ∈ inventory → ¬ unforgiven (resolve limit cwd s item).
Proof.
  intros Habs. assert (is_absolute (path_div (wi_root i) path) = true) as Habs'.
  { unfold path_div. by destruct (is_absolute path) eqn:?. }
  unfold authorize_path_operand, _resolve_workspace_operand. split.
  - intros (q & [_ Hq]%resolve_existing_Ok & H)%res_bind_Ok. destruct (_is_within q (wi_root i)) eqn:Hin; simpl in H.
    2: by apply out_of_workspace_not_ok in H.
    pose proof (resolved_inventory_spec limit cwd s inventory) as Hspec.
    apply res_bind_Ok in H as (known & Hk & H). rewrite Hk in Hspec. destruct Hspec as [Hmem Hun].
    case_bool_decide as Hm; [|by apply out_of_workspace_not_ok in H]. simplify_eq. apply Hmem in Hm. done.
  - intros (Hr & Hin & Hitem & Hun). rewrite (proj2 (resolve_existing_Ok limit cwd s _ r)) by done. simpl. rewrite Hin. simpl.
    pose proof (resolved_inventory_spec limit cwd s inventory) as Hspec.
    destruct (_resolved_inventory limit cwd s inventory) as [known|e]; simpl.
    + destruct Hspec as [Hmem _]. by rewrite bool_decide_true by (by apply Hmem).
    + destruct Hspec as [_ (item & Hi & Hbad)]. by apply Hun in Hbad.
Qed.

(** A path operand is authorized exactly when it resolves, to a path below
    the root that some entry of the inventory resolves to, while no entry of the
    inventory raises anything but an [OSError]; the path returned is physical:
    whatever links the operand went through, what is read lies in the root, and
    resolving it again gives the same path. *)
Theorem read_authorization_exact limit cwd s i path inventory r :
  wf_fs s → phys_dir s cwd → is_absolute (wi_root i) = true →
  (authorize_path_operand limit cwd s i path inventory = Ok r ↔
    resolve limit cwd s (path_div (wi_root i) path) = Ok r ∧ _is_within r (wi_root i) = true ∧
    (∃ item, item ∈ inventory ∧ resolve limit cwd s item = Ok r) ∧
    ∀ item, item ∈ inventory → ¬ unforgiven (resolve limit cwd s item)) ∧
  (authorize_path_operand limit cwd s i path inventory = Ok r → phys s (p_parts r) ∧ resolve limit cwd s r = Ok r).
Proof.
  intros Hwf Hcwd Habs. pose proof (authorize_operand_Ok limit cwd s i path inventory r Habs) as Hiff. split; [done|].
  intros (Hr & _)%Hiff. split; [by eapply (resolve_phys s Hwf) in Hr as [_ ?]|by eapply (resolve_idempotent s Hwf)].
Qed.

(** One entry of the inventory that has become a link to itself denies every
    read: on Python 3.12 [Path.resolve] raises [RuntimeError] for a loop, which
    the loop over the inventory does not treat as a stale entry, so the
    authorization of any file of the workspace ends in that exception and not in
    a result or a typed error. *)
Theorem looping_entry_denies_reads limit cwd s i path inventory r item :
  is_absolute (wi_root i) = true → resolve limit cwd s (path_div (wi_root i) path) = Ok r → _is_within r (wi_root i) = true →
  item ∈ inventory → resolve limit cwd s item = Err RuntimeError →
  ∃ e, authorize_path_operand limit cwd s i path inventory = Err (PolicyPython e).
Proof.
  intros Habs Hr Hin Hitem Hloop. unfold authorize_path_operand, _resolve_workspace_operand.
  rewrite (proj2 (resolve_existing_Ok limit cwd s _ r)) by (split; [unfold path_div; by destruct (is_absolute path) eqn:?|done]).
  simpl. rewrite Hin. simpl. pose proof (resolved_inventory_spec limit cwd s inventory) as Hspec.
  destruct (_resolved_inventory limit cwd s inventory) as [known|e]; simpl.
  - destruct Hspec as [_ Hun]. destruct (Hun item Hitem). by right.
  - destruct Hspec as [[x ->] _]. eauto.
Qed.

(** ** Activation *)

Lemma alphanumeric_other c : alphanumeric c = true → c ≠ cp_dot ∧ c ≠ cp_slash.
Proof. intros H. split; intros ->; by vm_compute in H. Qed.

(** A valid environment name is one component that stays below the root. *)
Lemma environment_name_plain name : _CONDA_ENVIRONMENT_NAME name = true → plain name ∧ cp_slash ∉ name.
Proof.
  destruct name as [|c name]; simpl; [done|]. intros [Hc Hrest]%andb_true_iff. apply alphanumeric_other in Hc as [Hd Hs].
  split; [split_and!; [done|intros [= -> _]; done|intros [= -> _]; done]|].
  intros [Heq|Hin]%elem_of_cons; [congruence|]. rewrite forallb_forall in Hrest.
  specialize (Hrest cp_slash (proj1 (list_elem_of_In _ _) Hin)). by vm_compute in Hrest.
Qed.

Lemma stat_phys_dir s p : wf_fs s → phys s p → os_stat s p = Ok NDir → phys_dir s p.
Proof.
  intros Hwf [?|(n & (q & x & -> & Hq & Hh & Hn) & Hl)]; [done|]. unfold os_stat. destruct (encodable _); [|done].
  rewrite namei_phys by done. rewrite namei_step by (eapply node_name; eauto). cbn zeta. rewrite Hh, Hn.
  destruct n; [intros _; by constructor|intros [=]|discriminate Hl|intros [=]].
Qed.

Lemma path_is_dir_true s p : path_is_dir s p = Ok true → os_stat s (p_parts p) = Ok NDir.
Proof.
  unfold path_is_dir, is_dir. destruct (os_stat s (p_parts p)) as [n|[[]| |]]; simpl; try done.
  intros [= H%bool_decide_eq_true]. by subst.
Qed.

Lemma conda_resolve_Ok s envs_root name e :
  conda_resolve s envs_root name = Ok e →
  ce_name e = default DEFAULT_PYTHON_ENVIRONMENT name ∧ plain (ce_name e) ∧ cp_slash ∉ ce_name e ∧
  ce_interpreter e = PurePath (p_anchor envs_root) (p_parts envs_root ++ [ce_name e; lit "bin"; lit "python"]) ∧
  os_stat s (p_parts (ce_interpreter e)) = Ok (NReg true).
Proof.
  unfold conda_resolve. set (selected := default DEFAULT_PYTHON_ENVIRONMENT name).
  destruct (_CONDA_ENVIRONMENT_NAME selected) eqn:Hname; simpl; [|done]. apply environment_name_plain in Hname as [? ?].
  destruct (os_stat s _) as [[|[]| |]|[]] eqn:Hst; try done. intros [= <-]. done.
Qed.

Lemma git_top_level_Ok limit cwd s git p root :
  _git_top_level limit cwd s git p = Ok (Some root) → ∃ q, resolve limit cwd s q = Ok root.
Proof.
  unfold _git_top_level. destruct (git (p_parts p)) as [| | |code out]; try done. case_bool_decide; [done|].
  destruct (str_strip out) as [|c candidate]; [done|]. intros (r & [_ Hr]%resolve_existing_Ok & [= ->])%res_bind_Ok. eauto.
Qed.

Lemma identity_init_inv i j :
  workspace_identity_init i = Ok j →
  j = i ∧ workspace_identity_init i = Ok i ∧ _is_within (wi_working_subdirectory i) (wi_root i) = true.
Proof.
  unfold workspace_identity_init, ensure. destruct (is_absolute (wi_root i) && _); [|done].
  destruct (nonempty (wi_python_environment i) && _); [|done]. destruct (_is_within _ _); [|done]. by intros [= <-].
Qed.

(** An activation that succeeds gives a well-formed identity: its root and
    working directory are physical, the second one is a directory inside the
    first and equal to it when Git does not own it, the interpreter is an
    executable file below the environments root in the directory of the selected
    name, which cannot leave that root; and every other absolute spelling of the
    activation path that resolves to the same directory activates the same
    identity, hence the same registry key. *)
Theorem activation_identity_physical limit cwd s git envs_root data_root w path environment i :
  wf_fs s → phys_dir s cwd → policy_init limit cwd s envs_root data_root = Ok w →
  resolve_activation limit cwd s git w path environment = Ok i →
  workspace_identity_init i = Ok i ∧
  (p_anchor (wi_root i) = [cp_slash] ∧ phys s (p_parts (wi_root i))) ∧
  (∃ rest, wi_working_subdirectory i = PurePath [cp_slash] (p_parts (wi_root i) ++ rest) ∧
     phys_dir s (p_parts (wi_root i) ++ rest) ∧ (wi_kind i = WK_NON_GIT_READ_ONLY → rest = [])) ∧
  (wi_python_environment i = default DEFAULT_PYTHON_ENVIRONMENT environment ∧ plain (wi_python_environment i) ∧
   cp_slash ∉ wi_python_environment i ∧
   wi_python_interpreter i =
     PurePath [cp_slash] (p_parts (wp_environments w) ++ [wi_python_environment i; lit "bin"; lit "python"]) ∧
   os_stat s (p_parts (wi_python_interpreter i)) = Ok (NReg true)) ∧
  (∀ alias, is_absolute (Path alias) = true → resolve limit cwd s (Path alias) = resolve limit cwd s (Path path) →
     resolve_activation limit cwd s git w alias environment = Ok i).
Proof.
  intros Hwf Hcwd Hw Hact.
  assert (p_anchor (wp_environments w) = [cp_slash]) as Henvs.
  { unfold policy_init, conda_init in Hw. apply res_bind_Ok in Hw as (e & He & (d & _ & [= <-])%res_bind_Ok). simpl.
    apply res_bind_Ok in He as (r & [_ Hr]%resolve_existing_Ok & (b & _ & Hb)%res_bind_Ok). destruct b; [|done]. simplify_eq.
    by apply (resolve_phys s Hwf) in Hr as [? _]. }
  assert (∀ alias, is_absolute (Path alias) = true → resolve limit cwd s (Path alias) = resolve limit cwd s (Path path) →
     resolve_activation limit cwd s git w alias environment = Ok i) as Halias.
  { intros alias Ha Hr. revert Hact. unfold resolve_activation. rewrite Ha. destruct (is_absolute (Path path)) eqn:Hp; simpl; [|done].
    intros (env & -> & H)%res_bind_Ok. simpl. apply res_bind_Ok in H as (resolved & [_ Hres]%resolve_existing_Ok & H).
    rewrite (proj2 (resolve_existing_Ok limit cwd s _ resolved)) by (by rewrite Hr). exact H. }
  unfold resolve_activation in Hact. destruct (is_absolute (Path path)) eqn:Hp; simpl in Hact; [|done].
  apply res_bind_Ok in Hact as (env & Henv & Hact). apply conda_resolve_Ok in Henv as (Hn & Hplain & Hslash & Hint & Hst).
  apply res_bind_Ok in Hact as (resolved & [_ Hres]%resolve_existing_Ok & Hact).
  apply res_bind_Ok in Hact as ([] & Hdir & Hact); simpl in Hact; [apply path_is_dir_true in Hdir|done].
  apply res_bind_Ok in Hact as (git_root & Hgit & Hact). set (i0 := Build_WorkspaceIdentity _ _ _ _ _) in Hact.
  apply identity_init_inv in Hact as (-> & Hinit & Hin).
  pose proof (resolve_phys s Hwf _ _ _ _ Hcwd Hres) as [Hra Hrp].
  assert (p_anchor (wi_root i0) = [cp_slash] ∧ phys s (p_parts (wi_root i0))) as Hroot.
  { simpl. destruct git_root as [r|]; simpl; [|done]. apply git_top_level_Ok in Hgit as [q Hq]. by apply (resolve_phys s Hwf) in Hq. }
  apply is_within_iff in Hin as (rest & Ha & Hrest). split_and!; try done.
  - apply Hroot.
  - apply Hroot.
  - exists rest. rewrite <-Hrest. split_and!; [by destruct resolved; simpl in *; subst|by eapply stat_phys_dir|].
    subst i0. simpl in Hrest |- *. destruct git_root; [done|]. intros _. simpl in Hrest. rewrite <-(app_nil_r (p_parts resolved)) in Hrest at 1. by apply app_inv_head in Hrest.
  - subst i0. simpl. by rewrite Hint, Henvs.
Qed.

(** ** Examples *)

Module IdentityExamples.

(** A workspace with a package, a link inside it, a link that leaves it, and an
    entry that has become a link to itself. *)
Definition tree : fs :=
  {| fs_nodes := list_to_map [
       ([lit "data"], NDir);
       ([lit "data"; lit "w"], NDir);
       ([lit "data"; lit "w"; lit "a.py"], NReg false);
       ([lit "data"; lit "w"; lit "pkg"], NDir);
       ([lit "data"; lit "w"; lit "pkg"; lit "b.py"], NReg false);
       ([lit "data"; lit "w"; lit "alias"], NLink (lit "pkg"));
       ([lit "data"; lit "w"; lit "out.py"], NLink (lit "/etc/secret"));
       ([lit "data"; lit "w"; lit "loop.py"], NLink (lit "loop.py"));
       ([lit "envs"], NDir);
       ([lit "envs"; lit "ms"], NDir);
       ([lit "envs"; lit "ms"; lit "bin"], NDir);
       ([lit "envs"; lit "ms"; lit "bin"; lit "python"], NLink (lit "python3.12"));
       ([lit "envs"; lit "ms"; lit "bin"; lit "python3.12"], NReg true);
       ([lit "etc"], NDir);
       ([lit "etc"; lit "secret"], NReg false)];
     fs_hidden := λ _, false |}.

#[local] Instance good_name_dec x : Decision (good_name x).
Proof. unfold good_name, plain. apply _. Defined.

#[local] Instance good_node_dec n : Decision (good_node n).
Proof. destruct n; simpl; apply _. Defined.

Lemma tree_wf : wf_fs tree.
Proof.
  assert (map_Forall (λ p n, Forall good_name p ∧ good_node n) (fs_nodes tree)) as H; [|exact H].
  apply map_Forall_to_list, (bool_decide_unpack _). vm_compute. reflexivity.
Qed.

Definition below (parts : list pystr) : purepath := PurePath [cp_slash] (lit "data" :: lit "w" :: parts).
Definition workspace : WorkspaceIdentity :=
  {| wi_root := below []; wi_kind := WK_GIT; wi_working_subdirectory := below [lit "pkg"];
     wi_python_environment := lit "ms";
     wi_python_interpreter := PurePath [cp_slash] [lit "envs"; lit "ms"; lit "bin"; lit "python"] |}.
Definition policy : WorkspacePolicy :=
  {| wp_environments := PurePath [cp_slash] [lit "envs"]; wp_data_root := PurePath [cp_slash] [lit "data"] |}.
Definition inventory : list purepath := [below [lit "a.py"]; below [lit "pkg"; lit "b.py"]].
Definition git_answer (_ : list pystr) : git_result := GitRan 0 (lit "/data/w" ++ [10%N]).

Lemma root_physical : phys_dir tree [lit "data"; lit "w"].
Proof. apply (phys_sub _ [lit "data"]); [apply (phys_sub _ []); [constructor|done..]|done..]. Qed.

(** A file of the inventory is editable by its lexical path; through the link
    inside the workspace it is not, nor is a link listed in the inventory. *)
Example edits_follow_no_link :
  authorize_edit 1000 [] tree policy workspace (Path (lit "pkg/../pkg/b.py")) inventory ∅ = Some (∅, Ok (below [lit "pkg"; lit "b.py"])) ∧
  authorize_edit 1000 [] tree policy workspace (Path (lit "alias/b.py")) (below [lit "alias"; lit "b.py"] :: inventory) ∅ =
    Some (∅, invalid_path (Some (below [lit "alias"; lit "b.py"]))) ∧
  authorize_edit 1000 [] tree policy workspace (Path (lit "out.py")) [below [lit "out.py"]] ∅ =
    Some (∅, invalid_path (Some (below [lit "out.py"]))).
Proof. vm_compute. auto. Qed.


(** A read through the link inside the workspace is answered with the physical
    path; one that leaves the workspace is refused. *)
Lemma read_authorization_exact_witness :
  authorize_path_operand 1000 [] tree workspace (Path (lit "alias/b.py")) inventory = Ok (below [lit "pkg"; lit "b.py"]) ∧
  phys tree [lit "data"; lit "w"; lit "pkg"; lit "b.py"] ∧
  authorize_path_operand 1000 [] tree workspace (Path (lit "out.py")) inventory =
    Err (PolicyError (_fail WE_OUT_OF_WORKSPACE (Some workspace) (Some (PurePath [cp_slash] [lit "etc"]))
      (Some (PurePath [cp_slash] [lit "etc"; lit "secret"])))).
Proof.
  assert (authorize_path_operand 1000 [] tree workspace (Path (lit "alias/b.py")) inventory = Ok (below [lit "pkg"; lit "b.py"])) as H
    by (vm_compute; reflexivity).
  split; [exact H|]. split; [|vm_compute; reflexivity].
  apply (read_authorization_exact 1000 [] tree workspace (Path (lit "alias/b.py")) inventory (below [lit "pkg"; lit "b.py"])
    tree_wf (phys_root tree) eq_refl), H.
Defined.

Lemma looping_entry_denies_reads_witness :
  ∃ e, authorize_path_operand 1000 [] tree workspace (Path (lit "a.py")) (below [lit "loop.py"] :: inventory) = Err (PolicyPython e).
Proof.
  apply (looping_entry_denies_reads 1000 [] tree workspace (Path (lit "a.py")) (below [lit "loop.py"] :: inventory)
    (below [lit "a.py"]) (below [lit "loop.py"])); [vm_compute; reflexivity..|left|vm_compute; reflexivity].
Defined.

Lemma activation_identity_physical_witness :
  resolve_activation 1000 [] tree git_answer policy (lit "/data/w/alias") None = Ok workspace ∧
  resolve_activation 1000 [] tree git_answer policy (lit "/data/w/pkg/") None = Ok workspace ∧
  phys_dir tree [lit "data"; lit "w"; lit "pkg"].
Proof.
  assert (resolve_activation 1000 [] tree git_answer policy (lit "/data/w/alias") None = Ok workspace) as H by (vm_compute; reflexivity).
  destruct (activation_identity_physical 1000 [] tree git_answer (PurePath [cp_slash] [lit "envs"]) (PurePath [cp_slash] [lit "data"])
    policy (lit "/data/w/alias") None workspace tree_wf (phys_root tree) ltac:(vm_compute; reflexivity) H)
    as (_ & _ & (rest & Hsub & Hd & _) & _ & Halias).
  split; [exact H|]. split; [apply Halias; vm_compute; reflexivity|]. simpl in Hsub. injection Hsub as <-. exact Hd.
Defined.
End IdentityExamples.
