(* ===== verification/PathTree.v ===== *)
(** * The prefix index of a trust inventory

    Model of [SupportedPathTree] and of the path normalisation of
    [src/serena_light/workspace/inventory.py]. A node keeps its children in a
    dictionary and says whether a path ends at it; the abstract value of a tree
    is the set of the component lists stored in it. *)

From S2P Require Import Prelude Paths.

(** ** Normalized relative paths *)

Definition cp_backslash : N := 92.

(** [text.replace("\\", "/")] *)
Definition forward_slashes (text : pystr) : pystr := (λ c, if bool_decide (c = cp_backslash) then cp_slash else c) <$> text.

(** [None] is the [ValueError]. *)
Definition _normalized_parts (path : pystr) : option (list pystr) :=
  let text := forward_slashes path in
  if bool_decide (head text = Some cp_slash) then None
  else
    let parts := path_parts text in
    if bool_decide (parts = []) || bool_decide (dotdot ∈ parts) then None else Some parts.

Definition _normalize_relative (path : pystr) : option pystr := join_slash <$> _normalized_parts path.

(** ** The tree *)

Inductive path_tree := Node (children : list (pystr * path_tree)) (terminal : bool).

Definition t_children (t : path_tree) : list (pystr * path_tree) := let 'Node c _ := t in c.
Definition t_terminal (t : path_tree) : bool := let 'Node _ b := t in b.
Definition empty_tree : path_tree := Node [] false.

(** The loop of [add]: [setdefault] down the components *)
Fixpoint add_parts (parts : list pystr) (t : path_tree) : path_tree :=
  match parts with
  | [] => Node (t_children t) true
  | part :: parts =>
      Node (dict_set (t_children t) part (add_parts parts (default empty_tree (dict_get (t_children t) part)))) (t_terminal t)
  end.

Definition tree_add (path : pystr) (t : path_tree) : option path_tree :=
  parts ← _normalized_parts path; Some (add_parts parts t).

(** The loop that [contains], [has_prefix] and [iter_prefix] share *)
Fixpoint descend (parts : list pystr) (t : path_tree) : option path_tree :=
  match parts with
  | [] => Some t
  | part :: parts => dict_get (t_children t) part ≫= descend parts
  end.

Definition tree_contains (path : pystr) (t : path_tree) : bool :=
  match _normalized_parts path ≫= λ parts, descend parts t with Some node => t_terminal node | None => false end.

Definition has_prefix (path : pystr) (t : path_tree) : bool :=
  match _normalized_parts path ≫= λ parts, descend parts t with
  | Some node => t_terminal node || nonempty (t_children node)
  | None => false
  end.

(** [_walk] with the paths as components; the children are visited in the order
    of their names. *)
Fixpoint walk_tree (prefix : list pystr) (t : path_tree) : list (list pystr) :=
  let 'Node children terminal := t in
  (if terminal then [prefix] else []) ++
  concat (py_sorted fst ((λ '(name, child), (name, walk_tree (prefix ++ [name]) child)) <$> children)).*2.

Definition _walk (prefix : list pystr) (t : path_tree) : list pystr := join_slash <$> walk_tree prefix t.

(** [iter_prefix]: [None] is the [ValueError] of a path that is not relative. *)
Definition iter_prefix (path : pystr) (t : path_tree) : option (list pystr) :=
  parts ← (if bool_decide (path = []) || bool_decide (path = dot) then Some [] else _normalized_parts path);
  Some (match descend parts t with Some node => _walk parts node | None => [] end).

(** [SupportedPathTree(paths)] *)
Fixpoint from_paths_onto (paths : list pystr) (t : path_tree) : option path_tree :=
  match paths with
  | [] => Some t
  | path :: paths => tree_add path t ≫= from_paths_onto paths
  end.
Definition tree_from_paths (paths : list pystr) : option path_tree := from_paths_onto paths empty_tree.

(** ** Laws of normalisation *)

Definition part_ok (x : pystr) : Prop := plain x ∧ cp_slash ∉ x ∧ cp_backslash ∉ x.

Lemma forward_slashes_free text : cp_backslash ∉ forward_slashes text.
Proof. intros (c & Hc & _)%list_elem_of_fmap. by case_bool_decide; simplify_eq. Qed.

Lemma forward_slashes_id text : cp_backslash ∉ text → forward_slashes text = text.
Proof.
  intros H. unfold forward_slashes. rewrite <-(list_fmap_id text) at 2. apply list_fmap_ext. intros i c Hc.
  apply list_elem_of_lookup_2 in Hc. rewrite bool_decide_false; [done|]. by intros ->.
Qed.

Lemma normalized_parts_ok path parts : _normalized_parts path = Some parts → parts ≠ [] ∧ Forall part_ok parts.
Proof.
  unfold _normalized_parts. cbn zeta. set (ps := path_parts (forward_slashes path)).
  destruct (bool_decide (head _ = _)); [done|]. destruct (bool_decide (ps = [])) eqn:He; [done|]. cbn [orb].
  destruct (bool_decide (dotdot ∈ ps)) eqn:Hd; [done|]. intros [= <-]. apply bool_decide_eq_false in He, Hd. split; [done|].
  apply Forall_forall. intros x Hx. assert (x ≠ dotdot) by (intros ->; done).
  apply list_elem_of_filter in Hx as [[? ?] Hx]. split; [by split_and!|]. split.
  - pose proof (split_slash_free (forward_slashes path)) as Hfree. rewrite Forall_forall in Hfree. by apply Hfree.
  - intros Hb. eapply (forward_slashes_free path), split_slash_char; eauto.
Qed.

Lemma join_parts_ok parts : parts ≠ [] → Forall part_ok parts → _normalized_parts (join_slash parts) = Some parts.
Proof.
  intros Hne Hok. assert (split_slash (join_slash parts) = parts) as Hsplit.
  { apply split_join; [done|]. eapply Forall_impl; [exact Hok|]. by intros x (_ & ? & _). }
  assert (path_parts (join_slash parts) = parts) as Hparts.
  { unfold path_parts. rewrite Hsplit. clear Hsplit Hne. induction Hok as [|x parts ((? & ? & ?) & _) _ IH]; [done|].
    rewrite filter_cons_True by done. by rewrite IH. }
  unfold _normalized_parts. rewrite forward_slashes_id.
  2: { intros [Hc|(x & Hx & Hc)]%join_slash_char; [done|]. rewrite Forall_forall in Hok. by apply Hok in Hx as (_ & _ & ?). }
  rewrite bool_decide_false.
  2: { destruct parts as [|x parts]; [done|]. apply Forall_cons in Hok as [((Hx & _) & Hs & _) _]. destruct x as [|c x]; [done|].
       destruct parts; simpl; intros [= ->]; apply Hs; by left. }
  rewrite Hparts, !bool_decide_false; [done| |done]. intros Hd. rewrite Forall_forall in Hok. by apply Hok in Hd as ((_ & _ & ?) & _).
Qed.

(** Normalizing is idempotent, and a normalized path is the join of its parts. *)
Lemma normalize_relative_idempotent path n : _normalize_relative path = Some n → _normalize_relative n = Some n.
Proof.
  unfold _normalize_relative. intros (parts & Hp & ->)%fmap_Some. pose proof (normalized_parts_ok _ _ Hp) as [? ?].
  by rewrite join_parts_ok.
Qed.

Lemma join_slash_inj parts parts' :
  parts ≠ [] → parts' ≠ [] → Forall part_ok parts → Forall part_ok parts' → join_slash parts = join_slash parts' → parts = parts'.
Proof.
  intros ? ? H H' He. assert (∀ l, Forall part_ok l → Forall (λ x, cp_slash ∉ x) l) as Hf.
  { intros l Hl. eapply Forall_impl; [exact Hl|]. by intros x (_ & ? & _). }
  rewrite <-(split_join parts), <-(split_join parts') by auto. by rewrite He.
Qed.

(** ** The tree is the set of its paths *)

(** No name occurs twice among the children of a node. *)
Inductive wf_tree : path_tree → Prop :=
| wf_node children terminal :
    NoDup children.*1 → Forall (λ e, wf_tree e.2) children → wf_tree (Node children terminal).

Definition stored (parts : list pystr) (t : path_tree) : bool :=
  match descend parts t with Some node => t_terminal node | None => false end.

Lemma wf_child t part child : wf_tree t → dict_get (t_children t) part = Some child → wf_tree child.
Proof.
  destruct 1 as [children terminal _ Hall]. simpl. intros Hg%dict_get_Some_elem. rewrite Forall_forall in Hall. by apply Hall in Hg.
Qed.

Lemma add_parts_wf parts t : wf_tree t → wf_tree (add_parts parts t).
Proof.
  revert t. induction parts as [|part parts IH]; intros t Ht; destruct Ht as [children terminal Hnd Hall]; simpl; [by constructor|].
  constructor; [by apply dict_set_nodup|]. apply Forall_forall. intros [k v] Hin. simpl.
  apply dict_set_elem in Hin as [[_ ->]|[_ Hin]]; [|rewrite Forall_forall in Hall; by apply Hall in Hin|done].
  apply IH. destruct (dict_get children part) eqn:Hg; simpl; [by eapply (wf_child (Node children terminal))|repeat constructor].
Qed.

Lemma stored_add parts parts' t : stored parts (add_parts parts' t) = bool_decide (parts = parts') || stored parts t.
Proof.
  unfold stored. revert parts t. induction parts' as [|part' parts' IH]; intros [|part parts] t; simpl; [done|done|done|].
  rewrite dict_get_set. destruct (decide (part = part')) as [->|Hne]; simpl.
  - rewrite IH. f_equal; [apply bool_decide_ext; naive_solver|]. destruct (dict_get (t_children t) part') eqn:Hg; simpl; [done|].
    by destruct parts.
  - rewrite bool_decide_false by congruence. done.
Qed.

Lemma from_paths_onto_spec paths t t' :
  from_paths_onto paths t = Some t' → wf_tree t →
  wf_tree t' ∧ ∀ parts, stored parts t' = true ↔ stored parts t = true ∨ Some parts ∈ (_normalized_parts <$> paths).
Proof.
  revert t. induction paths as [|path paths IH]; intros t; simpl.
  { intros [= <-] Ht. split; [done|]. set_solver. }
  unfold tree_add. destruct (_normalized_parts path) as [ps|]; simpl; [|done]. intros Hrest Ht.
  destruct (IH _ Hrest (add_parts_wf ps t Ht)) as [Hwf Hst]. split; [done|]. intros parts. rewrite Hst, stored_add, orb_true_iff, bool_decide_eq_true, elem_of_cons.
  split; [intros [[->|?]|?]|intros [?|[[= ->]|?]]]; tauto.
Qed.

Lemma empty_stored parts : stored parts empty_tree = false.
Proof. unfold stored. by destruct parts. Qed.

Section path_tree_ind.
Context (P : path_tree → Prop) (H : ∀ children terminal, Forall (λ e, P e.2) children → P (Node children terminal)).

Fixpoint path_tree_ind' (t : path_tree) : P t :=
  match t with
  | Node children terminal =>
      H children terminal
        ((fix go (l : list (pystr * path_tree)) : Forall (λ e, P e.2) l :=
            match l with [] => Forall_nil_2 _ | e :: l => Forall_cons_2 _ e l (path_tree_ind' e.2) (go l) end) children)
  end.
End path_tree_ind.

(** The blocks of the children in the order they are visited *)
Definition blocks (prefix : list pystr) (children : list (pystr * path_tree)) : list (pystr * list (list pystr)) :=
  py_sorted fst ((λ '(name, child), (name, walk_tree (prefix ++ [name]) child)) <$> children).

Lemma walk_unfold prefix children terminal :
  walk_tree prefix (Node children terminal) = (if terminal then [prefix] else []) ++ concat (blocks prefix children).*2.
Proof. done. Qed.

Lemma elem_of_blocks prefix children name l :
  (name, l) ∈ blocks prefix children ↔ ∃ child, (name, child) ∈ children ∧ l = walk_tree (prefix ++ [name]) child.
Proof.
  unfold blocks. rewrite elem_of_py_sorted, list_elem_of_fmap. split.
  - intros ([n c] & [= -> ->] & ?). eauto.
  - intros (c & ? & ->). by exists (name, c).
Qed.

Lemma walk_elem t prefix parts : wf_tree t → parts ∈ walk_tree prefix t ↔ ∃ rest, parts = prefix ++ rest ∧ stored rest t = true.
Proof.
  revert prefix parts. induction t as [children terminal IH] using path_tree_ind'. intros prefix parts Ht.
  inversion Ht as [? ? Hnd Hall]; subst. rewrite walk_unfold, elem_of_app.
  assert (parts ∈ concat (blocks prefix children).*2 ↔
    ∃ name child rest, dict_get children name = Some child ∧ parts = prefix ++ name :: rest ∧ stored rest child = true) as Hb.
  { rewrite list_elem_of_In, in_concat. split.
    - intros (l & Hl & Hp). apply list_elem_of_In, list_elem_of_fmap in Hl as ([name l'] & -> & Hin). simpl in Hp.
      apply elem_of_blocks in Hin as (child & Hc & ->). rewrite Forall_forall in IH, Hall. apply list_elem_of_In in Hp.
      apply (IH _ Hc) in Hp as (rest & -> & Hs); [|by apply (Hall _ Hc)]. exists name, child, rest.
      rewrite <-app_assoc. split_and!; [by apply dict_get_elem|done|done].
    - intros (name & child & rest & Hg%dict_get_Some_elem & -> & Hs). exists (walk_tree (prefix ++ [name]) child).
      rewrite <-!list_elem_of_In. split; [apply list_elem_of_fmap; exists (name, walk_tree (prefix ++ [name]) child); split; [done|];
        apply elem_of_blocks; eauto|].
      rewrite Forall_forall in IH, Hall. apply (IH _ Hg); [by apply (Hall _ Hg)|]. exists rest. by rewrite <-app_assoc. }
  rewrite Hb. split.
  - intros [Hp|(name & child & rest & Hg & -> & Hs)].
    + destruct terminal; [|by apply elem_of_nil in Hp]. apply list_elem_of_singleton in Hp as ->. exists []. by rewrite app_nil_r.
    + exists (name :: rest). split; [done|]. unfold stored. simpl. by rewrite Hg.
  - intros ([|name rest] & -> & Hs); unfold stored in Hs; simpl in Hs.
    + left. rewrite app_nil_r. destruct terminal; [by left|done].
    + right. destruct (dict_get children name) as [child|] eqn:Hg; [|done]. by exists name, child, rest.
Qed.

(** *** Order *)

Definition parts_le (a b : list pystr) : Prop := py_leb a b = true.

Lemma parts_le_app prefix a b : parts_le (prefix ++ a) (prefix ++ b) ↔ parts_le a b.
Proof.
  induction prefix as [|x prefix IH]; [done|]. simpl. unfold parts_le. rewrite <-IH. unfold py_leb, PyOrd_list at 1. simpl.
  by rewrite py_leb_refl.
Qed.

Lemma parts_le_name x y a b : py_leb x y = true → x ≠ y → parts_le (x :: a) (y :: b).
Proof.
  intros Hle Hne. unfold parts_le, py_leb, PyOrd_list at 1. simpl. rewrite Hle. destruct (py_leb y x) eqn:H; [|done].
  destruct Hne. by apply py_leb_antisym.
Qed.

Definition strict (a b : list pystr) : Prop := parts_le a b ∧ a ≠ b.

Lemma strongly_sorted_concat (l : list (pystr * list (list pystr))) :
  StronglySorted (λ a b, py_leb a.1 b.1 = true ∧ a.1 ≠ b.1) l →
  (∀ name b, (name, b) ∈ l → StronglySorted strict b) →
  (∀ n m b c x y, (n, b) ∈ l → (m, c) ∈ l → py_leb n m = true → n ≠ m → x ∈ b → y ∈ c → strict x y) →
  StronglySorted strict (concat l.*2).
Proof.
  induction 1 as [|[n b] l Hl IH Hhd]; intros Hs Hcross; simpl; [constructor|].
  apply StronglySorted_app_2.
  - intros x y Hx Hy. apply list_elem_of_In, in_concat in Hy as (c & Hc & Hy).
    apply list_elem_of_In, list_elem_of_fmap in Hc as ([m c'] & -> & Hm). apply list_elem_of_In in Hy. rewrite Forall_forall in Hhd.
    specialize (Hhd _ Hm) as [? ?]. eapply (Hcross n m b c'); [by left|by right|done|done|done|done].
  - by apply (Hs n); left.
  - apply IH; [intros; eapply Hs; by right|]. intros n' m' b' c' x y ? ?. apply Hcross; by right.
Qed.

Lemma sorted_keys_strict {A} (l : list (pystr * A)) :
  NoDup l.*1 → StronglySorted (λ a b, py_leb a.1 b.1 = true ∧ a.1 ≠ b.1) (py_sorted fst l).
Proof.
  intros Hnd. assert (NoDup (py_sorted fst l).*1) as Hnd' by (by rewrite py_sorted_perm).
  pose proof (py_sorted_sorted fst l) as Hs. induction Hs as [|[k v] m Hm IH Hhd]; [constructor|]. simpl in Hnd'.
  apply NoDup_cons in Hnd' as [Hk Hnd']. constructor; [by apply IH|]. apply Forall_forall. intros [k' v'] Hin. rewrite Forall_forall in Hhd.
  split; [by apply (Hhd (k', v'))|]. simpl. intros ->. apply Hk, list_elem_of_fmap. by exists (k', v').
Qed.

Lemma walk_sorted t prefix : wf_tree t → StronglySorted strict (walk_tree prefix t).
Proof.
  revert prefix. induction t as [children terminal IH] using path_tree_ind'. intros prefix Ht.
  pose proof (λ parts, walk_elem (Node children terminal) prefix parts Ht) as Hel.
  inversion Ht as [? ? Hnd Hall]; subst. rewrite walk_unfold.
  assert (∀ name b x, (name, b) ∈ blocks prefix children → x ∈ b → ∃ rest, x = prefix ++ name :: rest) as Hblock.
  { intros name b x (child & Hc & ->)%elem_of_blocks Hx. rewrite Forall_forall in Hall.
    apply walk_elem in Hx as (rest & -> & _); [|by apply (Hall _ Hc)]. exists rest. by rewrite <-app_assoc. }
  apply StronglySorted_app_2.
  - intros x y Hx Hy. destruct terminal; [|by apply elem_of_nil in Hx]. apply list_elem_of_singleton in Hx as ->.
    apply list_elem_of_In, in_concat in Hy as (b & Hb & Hy). apply list_elem_of_In, list_elem_of_fmap in Hb as ([name b'] & -> & Hin).
    apply list_elem_of_In in Hy. destruct (Hblock _ _ _ Hin Hy) as [rest ->]. split.
    + rewrite <-(app_nil_r prefix) at 1. by apply parts_le_app.
    + intros Heq%(f_equal length). rewrite length_app in Heq. simpl in Heq. lia.
  - destruct terminal; repeat constructor.
  - apply strongly_sorted_concat.
    + apply sorted_keys_strict. rewrite <-list_fmap_compose. rewrite (list_fmap_ext _ fst); [done|]. by intros i [? ?].
    + intros name b (child & Hc & ->)%elem_of_blocks. rewrite Forall_forall in IH, Hall. apply (IH _ Hc). by apply (Hall _ Hc).
    + intros n m b c x y Hn Hm Hle Hne Hx Hy. destruct (Hblock _ _ _ Hn Hx) as [a ->]. destruct (Hblock _ _ _ Hm Hy) as [a' ->].
      split; [by apply parts_le_app, parts_le_name|]. intros [= ? ?]%app_inv_head. done.
Qed.

Lemma strict_unique l k : StronglySorted strict l → StronglySorted strict k → (∀ x, x ∈ l ↔ x ∈ k) → l = k.
Proof.
  assert (∀ l, StronglySorted strict l → StronglySorted parts_le l ∧ NoDup l) as Hboth.
  { induction 1 as [|x m Hm [IH1 IH2] Hhd]; [split; constructor|]. rewrite Forall_forall in Hhd. split; constructor; try done.
    - apply Forall_forall. intros y Hy. by apply Hhd.
    - intros Hx. by destruct (Hhd x Hx). }
  intros [Hl Hln]%Hboth [Hk Hkn]%Hboth Hel. eapply StronglySorted_unique_strong; [|exact Hl|exact Hk|by apply NoDup_Permutation].
  intros x1 x2 _ _. apply py_leb_antisym.
Qed.

Lemma sorted_parts_strict (l : list (list pystr)) : StronglySorted strict (py_sorted id (remove_dups l)).
Proof.
  assert (NoDup (py_sorted id (remove_dups l))) as Hnd by (rewrite py_sorted_perm; apply NoDup_remove_dups).
  pose proof (py_sorted_sorted id (remove_dups l)) as Hs. induction Hs as [|x m Hm IH Hhd]; [constructor|].
  apply NoDup_cons in Hnd as [Hx Hnd]. constructor; [by apply IH|]. apply Forall_forall. intros y Hy. rewrite Forall_forall in Hhd.
  split; [by apply Hhd|]. by intros ->.
Qed.

(** The reference: the component lists of [paths] below [prefix]. *)
Definition parts_below (prefix : list pystr) (paths : list pystr) : list (list pystr) :=
  py_sorted id (remove_dups (filter (λ parts, prefix `prefix_of` parts) (omap _normalized_parts paths))).

Lemma descend_app a b t : descend (a ++ b) t = descend a t ≫= descend b.
Proof. revert t. induction a as [|x a IH]; intros t; simpl; [done|]. destruct (dict_get (t_children t) x); simpl; [apply IH|done]. Qed.

Lemma descend_wf parts t node : wf_tree t → descend parts t = Some node → wf_tree node.
Proof.
  revert t. induction parts as [|x parts IH]; intros t Ht; simpl; [by intros [= <-]|].
  intros (child & Hc & Hd)%bind_Some. eapply IH; [|exact Hd]. by eapply wf_child.
Qed.

(** Nothing is kept that does not lead to a path. *)
Inductive live_tree : path_tree → Prop :=
| live_node children terminal :
    Forall (λ e, live_tree e.2 ∧ (t_terminal e.2 = true ∨ t_children e.2 ≠ [])) children → live_tree (Node children terminal).

Lemma dict_set_nonnil {A} (d : list (pystr * A)) k v : dict_set d k v ≠ [].
Proof. destruct d as [|[] d]; simpl; [done|]. by case_decide. Qed.

Lemma add_parts_live parts t : wf_tree t → live_tree t → live_tree (add_parts parts t).
Proof.
  revert t. induction parts as [|part parts IH]; intros t Ht Hl; inversion Hl as [children terminal Hall]; subst; simpl; [by constructor|].
  inversion Ht as [? ? Hnd Hwf]; subst. constructor. apply Forall_forall. intros [k v] [[_ ->]|[_ Hin]]%dict_set_elem; simpl;
    [|rewrite Forall_forall in Hall; by apply (Hall _ Hin)|done].
  split.
  - destruct (dict_get children part) as [c|] eqn:Hg; simpl; [|apply IH; repeat constructor].
    apply dict_get_Some_elem in Hg. rewrite Forall_forall in Hall, Hwf. apply IH; [by apply (Hwf _ Hg)|by apply (Hall _ Hg)].
  - destruct parts as [|p parts]; simpl; [by left|]. right. apply dict_set_nonnil.
Qed.

Lemma live_stored t : live_tree t → t_terminal t = true ∨ t_children t ≠ [] → ∃ parts, stored parts t = true.
Proof.
  induction t as [children terminal IH] using path_tree_ind'. intros Hl Hn. inversion Hl as [? ? Hall]; subst. simpl in Hn.
  destruct terminal; [by exists []|]. destruct Hn as [?|Hn]; [done|]. destruct children as [|[name child] children]; [done|].
  apply Forall_cons in IH as [IH _]. apply Forall_cons in Hall as [[Hc Hn'] _]. destruct (IH Hc Hn') as [parts Hp].
  exists (name :: parts). unfold stored in *. simpl. by rewrite decide_True.
Qed.

Lemma descend_live parts t node : live_tree t → descend parts t = Some node → live_tree node.
Proof.
  revert t. induction parts as [|x parts IH]; intros t Ht; simpl; [by intros [= <-]|].
  intros (child & Hc%dict_get_Some_elem & Hd)%bind_Some. eapply IH; [|exact Hd]. inversion Ht as [? ? Hall]; subst.
  rewrite Forall_forall in Hall. by apply (Hall _ Hc).
Qed.

Lemma from_paths_live paths t t' : from_paths_onto paths t = Some t' → wf_tree t → live_tree t → live_tree t'.
Proof.
  revert t. induction paths as [|path paths IH]; intros t; simpl; [by intros [= <-]|]. unfold tree_add.
  destruct (_normalized_parts path) as [ps|]; simpl; [|done]. intros Hr Ht Hl. eapply IH; [exact Hr|by apply add_parts_wf|by apply add_parts_live].
Qed.

(** The index built from a list of paths is that set of paths: it contains
    a path exactly when the path normalizes to the components of one of them, it
    has a prefix exactly when one of them lies at or below it, and it enumerates
    a prefix as the sorted list, without repetition, of the paths below it; only
    a path that is absolute, empty or has a parent component stops the
    construction. *)
Theorem path_tree_is_set paths t path parts :
  tree_from_paths paths = Some t → _normalized_parts path = Some parts →
  (tree_contains path t = true ↔ ∃ p, p ∈ paths ∧ _normalized_parts p = Some parts) ∧
  (has_prefix path t = true ↔ ∃ p ps, p ∈ paths ∧ _normalized_parts p = Some ps ∧ parts `prefix_of` ps) ∧
  iter_prefix path t = Some (join_slash <$> parts_below parts paths) ∧
  iter_prefix dot t = Some (join_slash <$> parts_below [] paths).
Proof.
  intros Ht Hparts. unfold tree_from_paths in Ht.
  destruct (from_paths_onto_spec _ _ _ Ht) as [Hwf Hst]; [repeat constructor|].
  assert (live_tree t) as Hlive by (eapply from_paths_live; [exact Ht|repeat constructor..]).
  assert (∀ ps, stored ps t = true ↔ ∃ p, p ∈ paths ∧ _normalized_parts p = Some ps) as Hs.
  { intros ps. rewrite Hst, empty_stored, list_elem_of_fmap. split; [intros [?|(p & ? & ?)]; [done|eauto]|intros (p & ? & ?); right; eauto]. }
  assert (∀ ps, match descend ps t with Some node => walk_tree ps node | None => [] end = parts_below ps paths) as Hwalk.
  { intros ps. apply strict_unique; [|apply sorted_parts_strict|].
    - destruct (descend ps t) as [node|] eqn:Hd; [|constructor]. apply walk_sorted. by eapply descend_wf.
    - intros x. unfold parts_below. rewrite elem_of_py_sorted, elem_of_remove_dups, list_elem_of_filter, list_elem_of_omap.
      assert (x ∈ match descend ps t with Some node => walk_tree ps node | None => [] end ↔
        ∃ rest, x = ps ++ rest ∧ stored x t = true) as ->.
      { destruct (descend ps t) as [node|] eqn:Hd.
        - rewrite walk_elem by (by eapply descend_wf). unfold stored.
          split; intros (rest & -> & Hr); exists rest; (split; [done|]); revert Hr; rewrite descend_app, Hd; done.
        - split; [by intros ?%elem_of_nil|]. intros (rest & -> & Hr). unfold stored in Hr. by rewrite descend_app, Hd in Hr. }
      split.
      + intros (rest & Hx & Hsx%Hs). split; [rewrite Hx; by apply prefix_app_r|done].
      + intros [[rest ->] Hp%Hs]. eauto. }
  split_and!.
  - unfold tree_contains. rewrite Hparts. simpl. apply Hs.
  - unfold has_prefix. rewrite Hparts. simpl. split.
    + destruct (descend parts t) as [node|] eqn:Hd; [|done]. intros Hn. destruct (live_stored node) as [rest Hr].
      * by eapply descend_live.
      * apply orb_true_iff in Hn as [?|Hn]; [by left|]. right. by destruct (t_children node).
      * assert (stored (parts ++ rest) t = true) as Hall by (unfold stored; by rewrite descend_app, Hd).
        apply Hs in Hall as (p & ? & ?). exists p, (parts ++ rest). split_and!; [done..|by apply prefix_app_r].
    + intros (p & ps & Hp & Hn & [rest ->]). assert (stored (parts ++ rest) t = true) as Hall by (apply Hs; eauto).
      unfold stored in Hall. rewrite descend_app in Hall. destruct (descend parts t) as [node|]; [|done]. simpl in Hall.
      destruct rest as [|x rest]; simpl in Hall; [by rewrite Hall|]. destruct (t_children node); [done|]. by rewrite orb_true_r.
  - unfold iter_prefix. rewrite bool_decide_false, bool_decide_false.
    + simpl. rewrite Hparts. simpl. rewrite <-Hwalk. unfold _walk. by destruct (descend parts t).
    + intros ->. vm_compute in Hparts. done.
    + intros ->. vm_compute in Hparts. done.
  - change (iter_prefix dot t) with (Some (_walk [] t)). unfold _walk. specialize (Hwalk []). simpl in Hwalk. by rewrite Hwalk.
Qed.

Module PathTreeExamples.
Lemma path_tree_is_set_witness :
  ∃ t, tree_from_paths [lit "b.py"; lit "a/c.py"; lit "./a//b.py"; lit "a-b.py"; lit "b.py"] = Some t ∧
    iter_prefix (lit "a") t = Some [lit "a/b.py"; lit "a/c.py"] ∧
    iter_prefix dot t = Some [lit "a/b.py"; lit "a/c.py"; lit "a-b.py"; lit "b.py"] ∧
    tree_contains (lit "a") t = false ∧ has_prefix (lit "a") t = true.
Proof.
  destruct (tree_from_paths [lit "b.py"; lit "a/c.py"; lit "./a//b.py"; lit "a-b.py"; lit "b.py"]) as [t|] eqn:Ht; [|vm_compute in Ht; discriminate].
  destruct (path_tree_is_set _ t (lit "a") [lit "a"] Ht ltac:(vm_compute; reflexivity)) as (_ & _ & Hi & Hd).
  exists t. split; [reflexivity|]. rewrite Hi, Hd. split; [vm_compute; reflexivity|]. split; [vm_compute; reflexivity|].
  vm_compute in Ht. injection Ht as <-. vm_compute. auto.
Defined.
End PathTreeExamples.
