(* ===== verification/Inventory.v ===== *)
(** * Trust inventories

    Model of [src/serena_light/workspace/inventory.py]: candidates from Git or
    from a bounded walk, the guarded inspection that admits one, the two-pass
    observation of its bytes, and the inventory with its index ([PathTree]). The
    operations that open files are programs over operating-system calls
    ([Editing]); they are run on the file system of [FileSystem] where a claim
    is about a tree that holds still, and against every behaviour of the system
    where it is about one that does not. *)

From S2P Require Import Prelude Paths Positions Scope Executor Editing EditLogic FileSystem Identity PathTree.

Definition SUPPORTED_EXTENSIONS : list pystr :=
  [lit ".py"; lit ".pyi"; lit ".js"; lit ".jsx"; lit ".mjs"; lit ".cjs"; lit ".ts"; lit ".tsx"; lit ".mts"; lit ".cts"].

Definition _PRUNED_DIRECTORY_NAMES : list pystr :=
  [lit ".git"; lit "__pycache__"; lit ".mypy_cache"; lit ".pytest_cache"; lit ".ruff_cache"; lit "node_modules"].

Record RejectedPath := { rp_path : pystr; rp_reason : pystr }.
#[export] Instance rejected_path_eq_dec : EqDecision RejectedPath.
Proof. solve_decision. Defined.

Record TargetedPathState := {
  tp_path : pystr;
  tp_trusted : bool;
  tp_size : option Z;
  tp_mtime_ns : option Z;
  tp_reason : option pystr;
  tp_inode : option Z;
  tp_ctime_ns : option Z;
  tp_digest : option pystr;
}.
#[export] Instance targeted_path_state_eq_dec : EqDecision TargetedPathState.
Proof. solve_decision. Defined.

Definition content_identity (s : TargetedPathState) : option Z * option Z * option Z * option Z * option pystr :=
  (tp_size s, tp_mtime_ns s, tp_inode s, tp_ctime_ns s, tp_digest s).

Record TrustInventory := {
  ti_root : purepath;
  ti_paths : list pystr;
  ti_rejected : list RejectedPath;
  ti_digest : pystr;
  ti_tree : path_tree;
  ti_kind : pystr;
}.

Definition inventory_count (i : TrustInventory) : nat := length (ti_paths i).
Definition absolute_paths (i : TrustInventory) : list purepath := (λ p, path_div (ti_root i) (Path p)) <$> ti_paths i.
Definition inventory_contains (i : TrustInventory) (relative_path : pystr) : bool := tree_contains relative_path (ti_tree i).
Definition paths_under (i : TrustInventory) (relative_path : pystr) : option (list pystr) := iter_prefix relative_path (ti_tree i).

(** [Path(relative).suffix.lower() in SUPPORTED_EXTENSIONS] *)
Definition supported (relative : pystr) : bool := bool_decide (lower_ascii (path_suffix relative) ∈ SUPPORTED_EXTENSIONS).

(** ** Candidates of Git *)

(** The first character of a byte string, if its bytes decode, and the number
    of bytes it takes *)
Definition decode_one (l : list N) : option (N * nat) :=
  let try (k : nat) := match utf8_decode (take k l) with Some [c] => Some (c, k) | _ => None end in
  match try 1%nat with Some r => Some r | None =>
  match try 2%nat with Some r => Some r | None =>
  match try 3%nat with Some r => Some r | None => try 4%nat end end end.

(** [raw.decode("utf-8", "surrogateescape")]; the fuel is the number of bytes. *)
Fixpoint decode_se (fuel : nat) (l : list N) : pystr :=
  match fuel, l with
  | S fuel, b :: rest =>
      match decode_one l with
      | Some (c, k) => c :: decode_se fuel (drop k l)
      | None => (56320 + b)%N :: decode_se fuel rest
      end
  | _, _ => []
  end.

Definition _decode_git_path (raw : list N) : pystr := forward_slashes (decode_se (length raw) raw).

(** [stdout.split(b"\0")], the empty items left out *)
Fixpoint split_nul (l : list N) : list (list N) :=
  match l with
  | [] => [[]]
  | b :: l =>
      if bool_decide (b = 0%N) then [] :: split_nul l
      else match split_nul l with item :: items => (b :: item) :: items | [] => [[b]] end
  end.
Definition git_candidates (stdout : list N) : list pystr := _decode_git_path <$> filter (λ item, item ≠ []) (split_nul stdout).

(** ** Inspection *)

Definition S_ISLNK (mode : Z) : bool := bool_decide (Z.land mode 61440 = 40960).
Definition S_ISDIR (mode : Z) : bool := bool_decide (Z.land mode 61440 = 16384).

Definition missing : pystr := lit "missing".
Definition unreadable : pystr := lit "unreadable".
Definition unstable : pystr := lit "unstable".
Definition non_regular : pystr := lit "non_regular".
Definition invalid_relative_path : pystr := lit "invalid_relative_path".

(** [except FileNotFoundError: return "missing"; except OSError: return other].
    Nothing in the guarded walk raises [RuntimeError]. *)
Definition os_reason {A} (other : pystr) (p : prog A) : prog (pystr + A) :=
  catch (a ← p; mret (inr a))
    (λ x, match x with XOs OsFileNotFound => Some (mret (inl missing)) | XOs _ => Some (mret (inl other)) | _ => None end).

(** [except (FileNotFoundError, OSError, RuntimeError): return "symlink"] *)
Definition _symlink_reason (root : purepath) (relative : pystr) : prog pystr :=
  catch
    (resolved ← Vis (CRealpath (path_str (path_div root (Path relative)))) Done;
     mret (if _is_within (Path resolved) root then lit "symlink" else lit "symlink_escape"))
    (λ x, match x with XOs _ | XOther => Some (mret (lit "symlink")) | _ => None end).

Definition _inspect_candidate (root : purepath) (relative : pystr) : prog (option pystr * option stat_result) :=
  match _normalized_parts relative with
  | None => raise XValue
  | Some parts =>
      opened ← os_reason unreadable (open_guarded_directory (path_str root) (up parts));
      match opened with
      | inl reason => mret (Some reason, None)
      | inr directory_fd =>
          found ← finally
            (st ← os_reason unreadable (Vis (CStatEntry directory_fd (default [] (last parts))) os);
             match st with
             | inl reason => mret (inl reason)
             | inr file_stat =>
                 if S_ISLNK (st_mode file_stat) then reason ← _symlink_reason root relative; mret (inl reason)
                 else mret (inr file_stat)
             end)
            (os_close directory_fd);
          match found with
          | inl reason => mret (Some reason, None)
          | inr file_stat => if S_ISREG (st_mode file_stat) then mret (None, Some file_stat) else mret (Some non_regular, None)
          end
      end
  end.

Definition _candidate_reason (root : purepath) (relative : pystr) : prog (option pystr) :=
  r ← _inspect_candidate root relative; mret r.1.

(** ** Observation *)

Section observe.
Context (sha256_hex : list N → pystr) (read_fuel : nat).

(** Facts that must stay fixed; the order of the tuple of this module *)
Definition observed_identity (s : stat_result) : Z * Z * Z * Z * Z * Z :=
  (st_dev s, st_ino s, st_mode s, st_size s, st_mtime_ns s, st_ctime_ns s).

Definition _stream_digest (file_fd : fd) : prog pystr :=
  _ ← Vis (CSeek file_fd) os;
  chunks ← read_chunks read_fuel file_fd;
  mret (sha256_hex (concat chunks)).

(** [except OSError: return default] *)
Definition os_default {A} (default : A) (p : prog A) : prog A := catch p (λ x, if is_os x then Some (mret default) else None).

Definition _same_guarded_directory (root : purepath) (parts : list pystr) (expected_fd : fd) : prog bool :=
  opened ← os_default None (f ← open_guarded_directory (path_str root) parts; mret (Some f));
  match opened with
  | None => mret false
  | Some current_fd =>
      finally
        (os_default false
           (expected ← os_fstat expected_fd;
            current ← os_fstat current_fd;
            mret (bool_decide ((st_dev expected, st_ino expected) = (st_dev current, st_ino current)))))
        (os_close current_fd)
  end.

Abbreviation observation := (option pystr * option stat_result * option pystr)%type.
Definition refuse (reason : pystr) : observation := (Some reason, None, None).

(** The inner [try]: both passes, and the facts around them; [None] is the
    early return "unstable". *)
Definition two_passes (root : purepath) (parts : list pystr) (inspected : stat_result) (directory_fd file_fd : fd)
    : prog (option (stat_result * pystr * pystr * stat_result * stat_result)) :=
  before ← os_fstat file_fd;
  if negb (S_ISREG (st_mode before)) || negb (bool_decide (observed_identity inspected = observed_identity before)) then mret None
  else
    first_digest ← _stream_digest file_fd;
    first_after ← os_fstat file_fd;
    first_entry ← Vis (CStatEntry directory_fd (default [] (last parts))) os;
    if negb (bool_decide (observed_identity before = observed_identity first_after)) ||
       negb (bool_decide (observed_identity first_after = observed_identity first_entry)) then mret None
    else
      same ← _same_guarded_directory root (up parts) directory_fd;
      if negb same then mret None
      else
        second_digest ← _stream_digest file_fd;
        after ← os_fstat file_fd;
        entry ← Vis (CStatEntry directory_fd (default [] (last parts))) os;
        mret (Some (before, first_digest, second_digest, after, entry)).

Definition _observe_candidate (root : purepath) (relative : pystr) : prog observation :=
  inspection ← _inspect_candidate root relative;
  match inspection, _normalized_parts relative with
  | (Some reason, _), _ => mret (refuse reason)
  | (None, Some inspected), Some parts =>
      opened ← os_reason unstable (open_guarded_directory (path_str root) (up parts));
      match opened with
      | inl reason => mret (refuse reason)
      | inr directory_fd =>
          finally
            (file ← os_reason unstable (Vis (COpenEntry directory_fd (default [] (last parts))) os);
             match file with
             | inl reason => mret (refuse reason)
             | inr file_fd =>
                 passes ← finally (os_default None (two_passes root parts inspected directory_fd file_fd)) (os_close file_fd);
                 match passes with
                 | None => mret (refuse unstable)
                 | Some (before, first_digest, second_digest, after, entry) =>
                     if negb (bool_decide (observed_identity before = observed_identity after)) ||
                        negb (bool_decide (observed_identity after = observed_identity entry)) ||
                        negb (bool_decide (first_digest = second_digest)) then mret (refuse unstable)
                     else
                       same ← _same_guarded_directory root (up parts) directory_fd;
                       mret (if (same : bool) then (None, Some after, Some second_digest) else refuse unstable)
                 end
             end)
            (os_close directory_fd)
      end
  | _, _ => raise XOther   (** the assertion, which cannot fail *)
  end.

(** [observe_file_digest]: anchored at the root of the file system *)
Definition observe_file_digest (path : purepath) : prog (option pystr) :=
  if negb (is_absolute path) then mret None
  else match p_parts path with
       | [] => mret None
       | parts => r ← _observe_candidate (PurePath (p_anchor path) []) (join_slash parts); mret r.2
       end.

(** ** The inventory *)

Definition rejected_key (r : RejectedPath) : pystr * pystr := (rp_path r, rp_reason r).

(** The loop of [_inventory_from_candidates]: [accepted] and [rejected] in the
    order of the candidates *)
Fixpoint inspect_all (root : purepath) (candidates : list pystr) : prog (list pystr * list RejectedPath) :=
  match candidates with
  | [] => mret ([], [])
  | raw :: candidates =>
      match _normalize_relative raw with
      | None =>
          rest ← inspect_all root candidates;
          mret (rest.1, {| rp_path := raw; rp_reason := invalid_relative_path |} :: rest.2)
      | Some relative =>
          if negb (supported relative) then inspect_all root candidates
          else
            reason ← _candidate_reason root relative;
            rest ← inspect_all root candidates;
            match reason with
            | None => mret (relative :: rest.1, rest.2)
            | Some reason => mret (rest.1, {| rp_path := relative; rp_reason := reason |} :: rest.2)
            end
      end
  end.

Definition scope_exn_lift {A} (r : res scope_exn A) : prog A := match r with Ok a => mret a | Err _ => raise XUnicode end.

Definition _inventory_from_candidates (root : purepath) (candidates : list pystr) (kind : pystr) : prog TrustInventory :=
  r ← inspect_all root candidates;
  let paths := sorted_set r.1 in
  digest ← scope_exn_lift (_path_digest sha256_hex paths);
  match tree_from_paths paths with
  | None => raise XValue
  | Some tree =>
      mret {| ti_root := root; ti_paths := paths; ti_rejected := py_sorted rejected_key (remove_dups r.2);
              ti_digest := digest; ti_tree := tree; ti_kind := kind |}
  end.

(** [git_trust_inventory]: [ls_files] is the answer of [git ls-files] in a
    directory, or an exception. *)
Definition git_trust_inventory (ls_files : pystr → res exn (list N)) (root : purepath) : prog TrustInventory :=
  resolved ← Vis (CRealpath (path_str root)) Done;
  stdout ← pure (ls_files resolved);
  _inventory_from_candidates (Path resolved) (git_candidates stdout) (lit "git").

(** ** Freshness of named paths *)

Fixpoint freshness_loop (root : purepath) (paths : list pystr) : prog (list RejectedPath) :=
  match paths with
  | [] => mret []
  | raw :: paths =>
      match _normalize_relative raw with
      | None => rest ← freshness_loop root paths; mret ({| rp_path := raw; rp_reason := invalid_relative_path |} :: rest)
      | Some relative =>
          reason ← _candidate_reason root relative;
          rest ← freshness_loop root paths;
          mret (match reason with Some reason => {| rp_path := relative; rp_reason := reason |} :: rest | None => rest end)
      end
  end.
Definition targeted_freshness (i : TrustInventory) (paths : list pystr) : prog (list RejectedPath) :=
  rejected ← freshness_loop (ti_root i) paths; mret (py_sorted rejected_key (remove_dups rejected)).

Definition untrusted_state (path reason : pystr) : TargetedPathState :=
  {| tp_path := path; tp_trusted := false; tp_size := None; tp_mtime_ns := None; tp_reason := Some reason; tp_inode := None;
     tp_ctime_ns := None; tp_digest := None |}.

Fixpoint states_loop (root : purepath) (paths : list pystr) : prog (list TargetedPathState) :=
  match paths with
  | [] => mret []
  | raw :: paths =>
      match _normalize_relative raw with
      | None => rest ← states_loop root paths; mret (untrusted_state raw invalid_relative_path :: rest)
      | Some relative =>
          o ← _observe_candidate root relative;
          rest ← states_loop root paths;
          match o with
          | (Some reason, _, _) => mret (untrusted_state relative reason :: rest)
          | (None, Some st, digest) =>
              mret ({| tp_path := relative; tp_trusted := true; tp_size := Some (st_size st); tp_mtime_ns := Some (st_mtime_ns st);
                       tp_reason := None; tp_inode := Some (st_ino st); tp_ctime_ns := Some (st_ctime_ns st);
                       tp_digest := digest |} :: rest)
          | _ => raise XOther
          end
      end
  end.
(** [sorted(states, key=path)] of a set: states that share a path come in an
    order that Python does not fix. *)
Definition targeted_states (i : TrustInventory) (paths : list pystr) : prog (list TargetedPathState) :=
  states ← states_loop (ti_root i) paths; mret (py_sorted tp_path (remove_dups states)).
End observe.

(** ** Inspection on a tree that holds still *)

Lemma path_parts_good l : Forall good_name l → path_parts (path_str (PurePath [cp_slash] l)) = l.
Proof.
  intros Hg. unfold path_parts. destruct (split_path_str l Hg) as [k ->]. rewrite filter_app.
  assert (filter (λ comp : pystr, comp ≠ [] ∧ comp ≠ dot) (replicate k []) = []) as ->.
  { induction k as [|k IH]; [done|]. simpl replicate. rewrite filter_cons_False by (by intros [? _]). done. }
  simpl. induction Hg as [|x l ((? & ? & ?) & _) _ IH]; [done|]. rewrite filter_cons_True by done. by rewrite IH.
Qed.

Lemma Path_path_str l : Forall good_name l → Path (path_str (PurePath [cp_slash] l)) = PurePath [cp_slash] l.
Proof.
  intros Hg. unfold Path. rewrite path_parts_good by done. f_equal. unfold path_str. simpl.
  destruct l as [|x l]; [done|]. apply Forall_cons in Hg as [((Hx & _) & Hs & _) _]. destruct x as [|c x]; [done|].
  assert (c ≠ cp_slash) by (intros ->; apply Hs; by left). destruct l; simpl; rewrite bool_decide_false by done; done.
Qed.

Lemma normalized_join parts : parts ≠ [] → Forall part_ok parts → path_parts (join_slash parts) = parts ∧ path_anchor (join_slash parts) = [].
Proof.
  intros Hne Hok. pose proof (join_parts_ok parts Hne Hok) as H. unfold _normalized_parts in H.
  rewrite forward_slashes_id in H.
  2: { intros [Hc|(x & Hx & Hc)]%join_slash_char; [done|]. rewrite Forall_forall in Hok. by apply Hok in Hx as (_ & _ & ?). }
  cbn zeta in H. destruct (bool_decide (head _ = _)) eqn:Hh; [done|]. apply bool_decide_eq_false in Hh.
  destruct (bool_decide (path_parts _ = [])); [done|]. cbn [orb] in H. destruct (bool_decide (dotdot ∈ _)); [done|]. injection H as H.
  split; [done|]. unfold path_anchor. destruct (join_slash parts) as [|a [|b l]]; [done| |]; simpl in Hh; rewrite bool_decide_false by congruence; done.
Qed.

Lemma node_modes n :
  (S_ISLNK (node_mode n) = is_link n) ∧ (S_ISREG (node_mode n) = true ↔ ∃ x, n = NReg x).
Proof. split; [by destruct n as [|[]| |]|apply regular_mode]. Qed.

Section inspect.
Context (limit : nat) (cwd : list pystr) (s : fs) (root : list pystr).
Context (Hwf : wf_fs s) (Hcwd : phys_dir s cwd) (Hroot : phys_dir s root).

Lemma run_symlink_reason parts t :
  parts ≠ [] → Forall part_ok parts → Forall good_name (root ++ parts) →
  ∃ reason, run_fs limit cwd s (_symlink_reason (PurePath [cp_slash] root) (join_slash parts)) t = Some (t, Ok reason).
Proof.
  intros Hne Hok Hg. unfold _symlink_reason, mbind, prog_bind. rewrite run_catch, run_bind. cbn [run_fs fs_answer].
  assert (path_div (PurePath [cp_slash] root) (Path (join_slash parts)) = PurePath [cp_slash] (root ++ parts)) as ->.
  { destruct (normalized_join parts Hne Hok) as [Hp Ha]. unfold path_div, Path, is_absolute. by rewrite Hp, Ha. }
  rewrite Path_path_str by done.
  pose proof (resolve_no_value s Hwf limit cwd (PurePath [cp_slash] (root ++ parts)) Hcwd (names_encodable _ Hg)) as Hnv.
  destruct (resolve limit cwd s (PurePath [cp_slash] (root ++ parts))) as [r|e]; simpl; [eauto|].
  destruct e as [[]| |]; simpl; [eauto..|done|eauto].
Qed.

#[local] Opaque _symlink_reason.

Lemma run_inspect parts t :
  parts ≠ [] → Forall part_ok parts →
  ∃ reason st, run_fs limit cwd s (_inspect_candidate (PurePath [cp_slash] root) (join_slash parts)) t = Some (t, Ok (reason, st)) ∧
    (reason = None ↔ regular_file s (root ++ parts)) ∧ (reason = None → is_Some st).
Proof.
  intros Hne Hok. unfold _inspect_candidate. rewrite join_parts_ok by done.
  destruct parts as [|name dirs _] using rev_ind; [done|]. rewrite up_snoc, last_snoc. cbn [default].
  unfold os_reason, mbind, prog_bind. rewrite run_bind, run_catch, run_bind.
  pose proof (run_open_guarded s Hwf limit cwd root dirs t Hroot) as Hopen.
  assert (regular_file s (root ++ dirs ++ [name]) ↔ walk_spec s root dirs = None ∧
    fs_hidden s (root ++ dirs ++ [name]) = false ∧ ∃ x, node_at s (root ++ dirs ++ [name]) = Some (NReg x)) as Hreg.
  { rewrite walk_spec_dirs by done. rewrite app_assoc. split.
    - intros (x & q & y & [-> ->]%app_inj_tail & ? & ? & ?). eauto.
    - intros (? & ? & x & ?). exists x, (root ++ dirs), name. done. }
  destruct (walk_spec s root dirs) as [e|] eqn:Hwalk.
  { rewrite Hopen. destruct e; simpl; eexists _, _; (split; [done|]); (split; [|done]); (split; [done|]); rewrite Hreg; by intros [? _]. }
  destruct Hopen as (f & Hf & ->). simpl. rewrite run_bind, run_finally, run_bind, run_catch, run_bind.
  cbn [run_fs fs_answer]. unfold entry_at. rewrite lookup_insert_eq, <-app_assoc.
  destruct (fs_hidden s (root ++ dirs ++ [name])) eqn:Hh.
  { simpl. rewrite lookup_insert_eq, delete_insert_id by done. simpl. eexists _, _. split; [done|]. split; [|done]. split; [done|].
    rewrite Hreg. by intros (_ & ? & _). }
  destruct (node_at s (root ++ dirs ++ [name])) as [n|] eqn:Hn.
  2: { simpl. rewrite lookup_insert_eq, delete_insert_id by done. simpl. eexists _, _. split; [done|]. split; [|done]. split; [done|].
       rewrite Hreg. by intros (_ & _ & ? & ?). }
  cbn [os run_fs mret prog_ret]. change (st_mode (node_stat n)) with (node_mode n). destruct (node_modes n) as [-> Hreg'].
  destruct (is_link n) eqn:Hl.
  - rewrite run_bind. destruct (run_symlink_reason (dirs ++ [name]) (<[f := root ++ dirs]> t)) as [reason ->]; [done|done| |].
    { apply (entry_names s Hwf _ n). exists (root ++ dirs), name. rewrite <-app_assoc. split_and!; [done| |done|done].
      by apply walk_spec_dirs. }
    simpl. rewrite lookup_insert_eq, delete_insert_id by done. simpl. eexists _, _. split; [done|]. split; [|done]. split; [done|].
    rewrite Hreg. intros (_ & _ & x & [= ->]). done.
  - simpl. rewrite lookup_insert_eq, delete_insert_id by done. cbn [os run_fs].
    change (st_mode (node_stat n)) with (node_mode n). destruct (S_ISREG (node_mode n)) eqn:Hm.
    + eexists _, _. split; [done|]. split; [|eauto]. split; [|done]. intros _. apply Hreg. destruct Hreg' as [Hreg' _]. destruct (Hreg' eq_refl) as [x ->]. eauto.
    + eexists _, _. split; [done|]. split; [|done]. split; [done|]. rewrite Hreg. intros (_ & _ & x & [= ->]). exfalso.
      destruct Hreg' as [_ Hreg']. assert (false = true) by (apply Hreg'; eauto). done.
Qed.
End inspect.

Section exact.
Context (sha256_hex : list N → pystr) (limit : nat) (cwd : list pystr) (s : fs) (root : list pystr).
Context (Hwf : wf_fs s) (Hcwd : phys_dir s cwd) (Hroot : phys_dir s root).
Abbreviation base := (PurePath [cp_slash] root).

(** What one candidate becomes *)
Definition admitted (raw p : pystr) : Prop :=
  ∃ parts, _normalized_parts raw = Some parts ∧ p = join_slash parts ∧ supported p = true ∧ regular_file s (root ++ parts).

Lemma run_inspect_all candidates t :
  ∃ accepted rejected, run_fs limit cwd s (inspect_all base candidates) t = Some (t, Ok (accepted, rejected)) ∧
    (∀ p, p ∈ accepted ↔ ∃ raw, raw ∈ candidates ∧ admitted raw p) ∧
    (∀ raw, raw ∈ candidates → _normalize_relative raw = None → {| rp_path := raw; rp_reason := invalid_relative_path |} ∈ rejected) ∧
    (∀ raw p, raw ∈ candidates → _normalize_relative raw = Some p → supported p = true →
       p ∈ accepted ∨ ∃ reason, {| rp_path := p; rp_reason := reason |} ∈ rejected) ∧
    (∀ r, r ∈ rejected → ∀ parts, _normalized_parts (rp_path r) = Some parts → ¬ regular_file s (root ++ parts)).
Proof.
  induction candidates as [|raw candidates IH]; cbn [inspect_all].
  { exists [], []. split; [done|]. split_and!; [|intros ? H; by apply elem_of_nil in H|intros ? ? H; by apply elem_of_nil in H|intros ? H; by apply elem_of_nil in H].
    intros p. split; [intros H; by apply elem_of_nil in H|]. intros (raw & H & _). by apply elem_of_nil in H. }
  destruct IH as (accepted & rejected & Hrun & Hacc & Hinv & Hsup & Hrej).
  unfold _normalize_relative at 1. destruct (_normalized_parts raw) as [parts|] eqn:Hparts; cbn [fmap option_fmap option_map].
  2: { unfold mbind, prog_bind. rewrite run_bind, Hrun. eexists _, _. split; [done|]. split_and!.
    - intros p. rewrite Hacc. split; intros (r & Hr & Ha).
      + exists r. split; [by right|done].
      + apply elem_of_cons in Hr as [->|Hr]; [|by exists r]. destruct Ha as (? & ? & _). congruence.
    - intros r [->|Hr]%elem_of_cons Hn; [by left|right; by apply Hinv].
    - intros r p [->|Hr]%elem_of_cons Hn Hs; [unfold _normalize_relative in Hn; by rewrite Hparts in Hn|].
      destruct (Hsup r p Hr Hn Hs) as [?|[reason ?]]; [by left|right; exists reason; by right].
    - intros r [->|Hr]%elem_of_cons; [simpl; congruence|by apply Hrej]. }
  destruct (normalized_parts_ok _ _ Hparts) as [Hne Hok].
  assert (∀ p, admitted raw p ↔ p = join_slash parts ∧ supported p = true ∧ regular_file s (root ++ parts)) as Hadm.
  { intros p. split; [intros (ps & Hps & -> & ? & ?); by simplify_eq|intros (-> & ? & ?); by exists parts]. }
  destruct (supported (join_slash parts)) eqn:Hsupp; cbn [negb].
  2: { rewrite Hrun. exists accepted, rejected. split; [done|]. split_and!.
    - intros p. rewrite Hacc. split; intros (r & Hr & Ha).
      + exists r. split; [by right|done].
      + apply elem_of_cons in Hr as [->|Hr]; [|by exists r]. apply Hadm in Ha as (-> & ? & _). congruence.
    - intros r [->|Hr]%elem_of_cons Hn; [unfold _normalize_relative in Hn; by rewrite Hparts in Hn|by apply Hinv].
    - intros r p [->|Hr]%elem_of_cons Hn Hs; [unfold _normalize_relative in Hn; rewrite Hparts in Hn; simpl in Hn; simplify_eq; congruence|by eapply Hsup].
    - done. }
  unfold _candidate_reason, mbind, prog_bind. rewrite run_bind, run_bind.
  destruct (run_inspect limit cwd s root Hwf Hcwd Hroot parts t Hne Hok) as (reason & st & Hins & Hreason & _). rewrite Hins.
  cbn [mret prog_ret run_fs fst]. rewrite run_bind, Hrun. cbn [fst snd].
  assert (_normalize_relative raw = Some (join_slash parts)) as Hnorm by (unfold _normalize_relative; by rewrite Hparts).
  destruct reason as [reason|].
  - assert (¬ regular_file s (root ++ parts)) as Hnr by (intros H%Hreason; done).
    eexists _, _. split; [done|]. split_and!.
    + intros p. rewrite Hacc. split; intros (r & Hr & Ha).
      * exists r. split; [by right|done].
      * apply elem_of_cons in Hr as [->|Hr]; [|by exists r]. by apply Hadm in Ha as (_ & _ & ?).
    + intros r [->|Hr]%elem_of_cons Hn; [congruence|right; by apply Hinv].
    + intros r p [->|Hr]%elem_of_cons Hn Hs; [right; exists reason; rewrite Hnorm in Hn; simplify_eq; by left|].
      destruct (Hsup r p Hr Hn Hs) as [?|[reason' ?]]; [by left|right; exists reason'; by right].
    + intros r [->|Hr]%elem_of_cons; [|by apply Hrej]. simpl. rewrite join_parts_ok by done. by intros ps [= <-].
  - assert (regular_file s (root ++ parts)) as Hrf by (by apply Hreason).
    eexists _, _. split; [done|]. split_and!.
    + intros p. rewrite elem_of_cons, Hacc. split.
      * intros [->|(r & Hr & Ha)]; [exists raw; split; [by left|by apply Hadm]|exists r; split; [by right|done]].
      * intros (r & [->|Hr]%elem_of_cons & Ha); [left; by apply Hadm in Ha as (-> & _)|right; by exists r].
    + intros r [->|Hr]%elem_of_cons Hn; [congruence|by apply Hinv].
    + intros r p [->|Hr]%elem_of_cons Hn Hs; [left; rewrite Hnorm in Hn; simplify_eq; by left|].
      destruct (Hsup r p Hr Hn Hs) as [?|?]; [left; by right|by right].
    + done.
Qed.

Lemma encode_se_char_total c : c = 0%N ∨ encodable_char c = true → ∃ bs, encode_se_char c = Ok bs.
Proof.
  intros Hc. unfold encode_se_char. destruct (c <? 128)%N; [eauto|]. destruct (c <? 2048)%N; [eauto|].
  destruct ((56448 <=? c)%N && (c <=? 56575)%N) eqn:Hesc; [eauto|].
  destruct ((55296 <=? c)%N && (c <=? 57343)%N) eqn:Hsur; [|destruct (c <? 65536)%N; eauto].
  apply andb_true_iff in Hsur as [H1%N.leb_le H2%N.leb_le]. destruct Hc as [->|Hc]; [lia|]. unfold encodable_char in Hc.
  rewrite Hesc, orb_false_r in Hc. apply andb_true_iff in Hc as [_ Hc]. unfold is_scalar in Hc.
  apply orb_true_iff in Hc as [Hc%N.ltb_lt|[Hc%N.leb_le _]%andb_true_iff]; lia.
Qed.

Lemma join_nul_char c paths : c ∈ join_nul paths → c = 0%N ∨ ∃ p, p ∈ paths ∧ c ∈ p.
Proof.
  induction paths as [|p paths IH]; [set_solver|]. destruct paths as [|p' paths]; [simpl; set_solver|].
  change (join_nul (p :: p' :: paths)) with (p ++ 0%N :: join_nul (p' :: paths)). rewrite elem_of_app, elem_of_cons.
  intros [?|[->|Hc]]; [set_solver|by left|]. destruct (IH Hc) as [->|(x & ? & ?)]; [by left|]. right. exists x. set_solver.
Qed.

Lemma path_digest_total paths :
  (∀ p, p ∈ paths → ∃ parts, p = join_slash parts ∧ encodable parts = true) → ∃ d, _path_digest sha256_hex paths = Ok d.
Proof.
  intros Hall. unfold _path_digest, encode_se.
  destruct (Navigation.map_res_total encode_se_char (join_nul paths)) as (bs & -> & _); [|simpl; eauto].
  intros c Hc. cut (∃ bs, encode_se_char c = Ok bs); [by intros [bs ->]|]. apply encode_se_char_total. destruct (join_nul_char _ _ Hc) as [?|(p & Hp & Hcp)]; [by left|].
  right. destruct (Hall p Hp) as (parts & -> & He). destruct (join_slash_char _ _ Hcp) as [->|(comp & Hcomp & Hin)]; [done|].
  unfold encodable in He. rewrite forallb_forall in He. specialize (He comp (proj1 (list_elem_of_In _ _) Hcomp)).
  rewrite forallb_forall in He. by apply He, list_elem_of_In.
Qed.

Lemma from_paths_total paths t : (∀ p, p ∈ paths → is_Some (_normalized_parts p)) → is_Some (from_paths_onto paths t).
Proof.
  revert t. induction paths as [|p paths IH]; intros t Hall; simpl; [eauto|]. unfold tree_add.
  destruct (Hall p) as [parts ->]; [by left|]. simpl. apply IH. intros q Hq. apply Hall. by right.
Qed.

(** The inventory of a tree that holds still, without assumptions on the
    candidates. *)
Lemma inventory_run candidates kind t :
  ∃ inv, run_fs limit cwd s (_inventory_from_candidates sha256_hex base candidates kind) t = Some (t, Ok inv) ∧
    ti_root inv = base ∧ ti_kind inv = kind ∧ ti_paths inv = sorted_set (ti_paths inv) ∧
    (∀ p, p ∈ ti_paths inv ↔ ∃ raw, raw ∈ candidates ∧ admitted raw p) ∧
    (∀ q, inventory_contains inv q = true ↔ ∃ p, _normalize_relative q = Some p ∧ p ∈ ti_paths inv) ∧
    (∀ raw, raw ∈ candidates → _normalize_relative raw = None → {| rp_path := raw; rp_reason := invalid_relative_path |} ∈ ti_rejected inv) ∧
    (∀ raw p, raw ∈ candidates → _normalize_relative raw = Some p → supported p = true →
       p ∈ ti_paths inv ∨ ∃ reason, {| rp_path := p; rp_reason := reason |} ∈ ti_rejected inv) ∧
    (∀ r, r ∈ ti_rejected inv → rp_path r ∉ ti_paths inv).
Proof.
  destruct (run_inspect_all candidates t) as (accepted & rejected & Hrun & Hacc & Hinv & Hsup & Hrej).
  unfold _inventory_from_candidates, mbind, prog_bind. rewrite run_bind, Hrun. cbn [fst snd]. rewrite run_bind.
  assert (∀ p, p ∈ sorted_set accepted → ∃ parts, p = join_slash parts ∧ _normalized_parts p = Some parts ∧ regular_file s (root ++ parts)) as Hnorm.
  { intros p (raw & _ & parts & Hp & -> & _ & Hr)%sorted_set_elem%Hacc. exists parts.
    destruct (normalized_parts_ok _ _ Hp) as [? ?]. by rewrite join_parts_ok. }
  destruct (path_digest_total (sorted_set accepted)) as [digest ->].
  { intros p Hp. destruct (Hnorm p Hp) as (parts & -> & _ & x & Hx). exists parts. split; [done|].
    apply (entry_names s Hwf) in Hx. apply Forall_app in Hx as [_ Hx]. by apply names_encodable. }
  cbn [scope_exn_lift mret prog_ret run_fs].
  destruct (from_paths_total (sorted_set accepted) empty_tree) as [tree Htree]; [intros p Hp; destruct (Hnorm p Hp) as (? & _ & -> & _); eauto|].
  unfold tree_from_paths. rewrite Htree. eexists. split; [done|]. cbn [ti_root ti_kind ti_paths ti_rejected ti_tree].
  assert (∀ p, p ∈ sorted_set accepted ↔ p ∈ accepted) as Hset by (intros; apply sorted_set_elem).
  assert (∀ r, r ∈ py_sorted rejected_key (remove_dups rejected) ↔ r ∈ rejected) as Hrset.
  { intros r. by rewrite elem_of_py_sorted, elem_of_remove_dups. }
  split_and!; [done|done|apply sorted_set_ext; intros; by rewrite Hset| | | | |].
  - intros p. rewrite Hset. apply Hacc.
  - intros q. unfold inventory_contains, tree_contains, ti_tree. destruct (from_paths_onto_spec _ _ _ Htree) as [_ Hst]; [repeat constructor|].
    unfold _normalize_relative. destruct (_normalized_parts q) as [parts|] eqn:Hq; simpl; [|split; [done|by intros (? & ? & _)]].
    destruct (normalized_parts_ok _ _ Hq) as [Hne Hok].
    change (match descend parts tree with Some node => t_terminal node | None => false end) with (stored parts tree).
    rewrite Hst, empty_stored, list_elem_of_fmap. split.
    + intros [?|(p & Hp & Hin)]; [done|]. exists p. split; [|done]. destruct (Hnorm p Hin) as (ps & -> & Hp' & _). congruence.
    + intros (p & [= <-] & Hp). right. exists (join_slash parts). split; [by rewrite join_parts_ok|done].
  - intros raw Hr Hn. apply Hrset. by apply Hinv.
  - intros raw p Hr Hn Hs. rewrite Hset. setoid_rewrite Hrset. by eapply Hsup.
  - intros r Hr%Hrset Hp. destruct (Hnorm _ Hp) as (parts & _ & Hparts & Hreg). by eapply Hrej.
Qed.
End exact.

(** ** Inventory and policy *)

Lemma norm_abs_plain acc comps : Forall plain comps → norm_abs acc comps = reverse acc ++ comps.
Proof.
  intros Hall. revert acc. induction Hall as [|x comps (H1 & H2 & H3) Hall IH]; intros acc; simpl; [by rewrite app_nil_r|].
  rewrite !bool_decide_false by done. simpl. rewrite bool_decide_true by done. by rewrite IH, reverse_cons, <-app_assoc.
Qed.

Lemma normpath_good l : Forall good_name l → path_normpath (PurePath [cp_slash] l) = PurePath [cp_slash] l.
Proof.
  intros Hg. unfold path_normpath. simpl. rewrite norm_abs_plain; [done|]. eapply Forall_impl; [exact Hg|]. by intros x [? _].
Qed.

(** C23: The inventory of a workspace and the two authorizations agree: of the
    files an inventory was just built from, exactly its paths can be read,
    whatever the workspace; in a Git workspace below the data root exactly its
    paths can be edited, in any other none; and each is granted under the path
    that names it. *)
Theorem inventory_grants_exactly sha limit cwd s w i root candidates kind t inv :
  wf_fs s → phys_dir s cwd → phys_dir s root → wi_root i = PurePath [cp_slash] root →
  run_fs (S limit) cwd s (_inventory_from_candidates sha (wi_root i) candidates kind) t = Some (t, Ok inv) →
  (∀ p, p ∈ ti_paths inv →
     authorize_path_operand (S limit) cwd s i (Path p) (absolute_paths inv) = Ok (path_div (wi_root i) (Path p)) ∧
     (wi_kind i = WK_GIT → _is_within (wi_root i) (wp_data_root w) = true →
      authorize_edit (S limit) cwd s w i (Path p) (absolute_paths inv) t = Some (t, Ok (path_div (wi_root i) (Path p))))) ∧
  (∀ path q, authorize_path_operand (S limit) cwd s i path (absolute_paths inv) = Ok q →
     ∃ p, p ∈ ti_paths inv ∧ q = path_div (wi_root i) (Path p)) ∧
  (∀ path q, authorize_edit (S limit) cwd s w i path (absolute_paths inv) t = Some (t, Ok q) →
     wi_kind i = WK_GIT ∧ _is_within (wi_root i) (wp_data_root w) = true ∧
     ∃ p, p ∈ ti_paths inv ∧ q = path_div (wi_root i) (Path p)).
Proof.
  intros Hwf Hcwd Hroot Hi Hinv. rewrite Hi in Hinv |- *.
  destruct (inventory_run sha (S limit) cwd s root Hwf Hcwd Hroot candidates kind t) as (inv' & Hinv' & Hir & _ & _ & Hpaths & _).
  rewrite Hinv in Hinv'. injection Hinv' as <-.
  assert (∀ p, p ∈ ti_paths inv → ∃ parts, parts ≠ [] ∧ path_div (PurePath [cp_slash] root) (Path p) = PurePath [cp_slash] (root ++ parts) ∧
    regular_file s (root ++ parts)) as Hp.
  { intros p (raw & _ & parts & Hparts & -> & _ & Hreg)%Hpaths. destruct (normalized_parts_ok _ _ Hparts) as [Hne Hok].
    exists parts. split; [done|]. split; [|done]. destruct (normalized_join parts Hne Hok) as [H1 H2]. unfold path_div, Path, is_absolute. by rewrite H1, H2. }
  assert (∀ l, regular_file s l → Forall good_name l ∧ resolve (S limit) cwd s (PurePath [cp_slash] l) = Ok (PurePath [cp_slash] l)) as Hres.
  { intros l [x Hx]. split; [by eapply entry_names|]. apply resolve_id; [done|]. right. eauto. }
  assert (∀ q, q ∈ absolute_paths inv ↔ ∃ p, p ∈ ti_paths inv ∧ q = path_div (PurePath [cp_slash] root) (Path p)) as Habs.
  { intros q. unfold absolute_paths. rewrite list_elem_of_fmap, Hir. split; intros (p & ? & ?); by exists p. }
  assert (∀ item, item ∈ absolute_paths inv → resolve (S limit) cwd s item = Ok item ∧ path_normpath item = item) as Hitem.
  { intros item (p & Hin & ->)%Habs. destruct (Hp p Hin) as (parts & _ & -> & Hreg). destruct (Hres _ Hreg) as [? ?]. split; [done|by apply normpath_good]. }
  assert (is_absolute (wi_root i) = true) as Hia by (by rewrite Hi).
  split.
  - intros p Hin. destruct (Hp p Hin) as (parts & Hne & Hdiv & Hreg). destruct (Hres _ Hreg) as [Hg Hr].
    assert (∃ item, item ∈ absolute_paths inv ∧ item = PurePath [cp_slash] (root ++ parts)) as (item & Hitm & ->)
      by (eexists; split; [apply Habs; by exists p|done]).
    split.
    + apply authorize_operand_Ok; [done|]. rewrite Hi, Hdiv. split_and!; [done|apply is_within_iff; by exists parts| |].
      * exists (PurePath [cp_slash] (root ++ parts)). done.
      * intros item [-> _]%Hitem. by intros [?|?].
    + intros Hkind Hdata. destruct (authorize_edit_run (S limit) cwd s w i root (Path p) (absolute_paths inv) t Hwf Hi Hroot) as (r & -> & Hed & _).
      f_equal. f_equal. apply Hed. rewrite Hdiv. split; [done|by rewrite Hi| | | | |done].
      * rewrite Hi, Hdiv. intros Hnull. unfold path_str in Hnull. simpl in Hnull.
        apply elem_of_cons in Hnull as [?|[?|(x & Hx & Hc)]%join_slash_char]; [done|done|].
        rewrite Forall_forall in Hg. destruct (Hg x Hx) as (_ & _ & He). rewrite forallb_forall in He.
        specialize (He 0%N (proj1 (list_elem_of_In _ _) Hc)). done.
      * rewrite Hi, Hdiv. symmetry. by apply normpath_good.
      * exists (PurePath [cp_slash] (root ++ parts)). split; [done|by apply normpath_good].
      * exists parts. by rewrite Hi.
  - split.
    + intros path q Hq. apply authorize_operand_Ok in Hq as (_ & _ & (item & Hin & Hr) & _); [|done].
      destruct (Hitem item Hin) as [Hr' _]. rewrite Hr in Hr'. injection Hr' as <-. by apply Habs.
    + intros path q Hq. destruct (authorize_edit_run (S limit) cwd s w i root path (absolute_paths inv) t Hwf Hi Hroot) as (r & Hr & Hed & _).
      rewrite Hr in Hq. injection Hq as ->. destruct (Hed q) as [[Hg Hd _ _ (item & Hin & <-) _ _] _]; [done|].
      rewrite Hi in Hd. split_and!; [done|done|]. destruct (Hitem item Hin) as [_ ->]. by apply Habs.
Qed.

(** ** The bounded walk of a directory that Git does not own *)

Section bounded.
Context (unlisted : list pystr → bool) (s : fs).   (** directories whose listing is refused; [os.walk] skips them *)

(** The entries of a directory, in any order *)
Definition scandir (p : list pystr) : list (pystr * node) :=
  omap (λ '(k, n), match last k with Some x => if bool_decide (up k = p) then Some (x, n) else None | None => None end)
    (map_to_list (fs_nodes s)).

(** [entry.is_dir()] follows links; an error counts as no. *)
Definition entry_is_dir (p : list pystr) (e : pystr * node) : bool :=
  match e.2 with
  | NDir => true
  | NLink _ => match os_stat s (p ++ [e.1]) with Ok NDir => true | _ => false end
  | _ => false
  end.

(** The condition of the comprehension over [names]; a refused permission in
    [is_symlink] gets out. *)
Definition keep_directory (p : list pystr) (name : pystr) : res exn bool :=
  if bool_decide (name ∈ _PRUNED_DIRECTORY_NAMES) || bool_decide (head name = Some cp_dot) then Ok false
  else match os_lstat s (p ++ [name]) with
       | Ok (NLink _) => Ok false
       | Err (OSError EACCES) => Err (XOs OsError)
       | _ => Ok true
       end.

Fixpoint filter_res {A} (f : A → res exn bool) (l : list A) : res exn (list A) :=
  match l with
  | [] => Ok []
  | x :: l => keep ← f x; rest ← filter_res f l; Ok (if (keep : bool) then x :: rest else rest)
  end.

(** [os.walk(root, followlinks=False)], top down *)
Fixpoint walk_from (fuel : nat) (p : list pystr) : res exn (list (list pystr)) :=
  match fuel with
  | O => Err XOutOfFuel
  | S fuel =>
      if unlisted p then Ok []
      else
        let entries := scandir p in
        names ← filter_res (keep_directory p) (filter (λ e, entry_is_dir p e = true) entries).*1;
        below ← map_res (λ name, walk_from fuel (p ++ [name])) (py_sorted id names);
        Ok (((λ name, p ++ [name]) <$> py_sorted id (filter (λ e, entry_is_dir p e ≠ true) entries).*1) ++ concat below)
  end.

(** Deeper than any path of the tree *)
Definition fs_height : nat := max_list (length <$> (map_to_list (fs_nodes s)).*1).

Definition _bounded_candidates (root : list pystr) : res exn (list pystr) :=
  paths ← walk_from (S fs_height) root; Ok ((λ p, join_slash (drop (length root) p)) <$> (paths : list (list pystr))).
End bounded.

Definition _non_symlink_directory (limit : nat) (cwd : list pystr) (s : fs) (path : purepath) : res exn purepath :=
  match os_lstat s (if is_absolute path then p_parts path else cwd ++ p_parts path) with
  | Err e => Err (resolve_exn e)
  | Ok NDir => match resolve limit cwd s path with Ok r => Ok r | Err e => Err (resolve_exn e) end
  | Ok _ => Err XValue
  end.

Definition bounded_non_git_trust_inventory (sha256_hex : list N → pystr) (unlisted : list pystr → bool) (limit : nat)
    (cwd : list pystr) (s : fs) (root : purepath) (t : table) : option (table * res exn TrustInventory) :=
  match _non_symlink_directory limit cwd s root ≫= λ r, c ← _bounded_candidates unlisted s (p_parts r); Ok (r, c) with
  | Err x => Some (t, Err x)
  | Ok (resolved_root, candidates) =>
      run_fs limit cwd s (_inventory_from_candidates sha256_hex resolved_root candidates (lit "bounded_no_symlink")) t
  end.

(** *** Laws *)

Lemma filter_res_elem {A} (f : A → res exn bool) l r x : filter_res f l = Ok r → x ∈ r ↔ x ∈ l ∧ f x = Ok true.
Proof.
  revert r. induction l as [|y l IH]; simpl; intros r; [intros [= <-]; split; [intros H; by apply elem_of_nil in H|intros [H _]; by apply elem_of_nil in H]|].
  intros (keep & Hk & (rest & Hr & [= <-])%res_bind_Ok)%res_bind_Ok. specialize (IH _ Hr). destruct keep; rewrite !elem_of_cons, IH.
  - split; [intros [->|[? ?]]; auto|intros [[->|?] ?]; auto].
  - split; [intros [? ?]; auto|intros [[->|?] ?]; [congruence|auto]].
Qed.

Lemma filter_res_err {A} (f : A → res exn bool) l e : filter_res f l = Err e → ∃ x, f x = Err e.
Proof.
  induction l as [|y l IH]; simpl; [done|]. destruct (f y) as [keep|e'] eqn:Hy; simpl; [|intros [= ->]; eauto].
  destruct (filter_res f l) as [rest|e']; simpl; [done|]. intros [= ->]. by apply IH.
Qed.

Lemma map_res_err {A B E} (f : A → res E B) l e : map_res f l = Err e → ∃ x, x ∈ l ∧ f x = Err e.
Proof.
  induction l as [|y l IH]; simpl; [done|]. destruct (f y) as [b|e'] eqn:Hy; simpl; [|intros [= ->]; exists y; split; [by left|done]].
  destruct (map_res f l) as [rest|e']; simpl; [done|]. intros [= ->]. destruct IH as (x & ? & ?); [done|]. exists x. split; [by right|done].
Qed.

Lemma map_res_concat {A B E} (f : A → res E (list B)) l r x :
  map_res f l = Ok r → x ∈ concat r ↔ ∃ a b, a ∈ l ∧ f a = Ok b ∧ x ∈ b.
Proof.
  revert r. induction l as [|y l IH]; simpl; intros r.
  - intros [= <-]. split; [intros H; by apply elem_of_nil in H|]. intros (a & _ & H & _). by apply elem_of_nil in H.
  - intros (b & Hb & (rest & Hr & [= <-])%res_bind_Ok)%res_bind_Ok. simpl. rewrite elem_of_app, (IH _ Hr). split.
    + intros [Hx|(a & b' & ? & ? & ?)]; [exists y, b; split_and!; [by left|done|done]|exists a, b'; split_and!; [by right|done|done]].
    + intros (a & b' & [->|Ha]%elem_of_cons & Hab & Hx); [left; congruence|right; by exists a, b'].
Qed.

Section bounded_laws.
Context (unlisted : list pystr → bool) (s : fs) (Hwf : wf_fs s).

Lemma scandir_elem p x n : (x, n) ∈ scandir s p ↔ node_at s (p ++ [x]) = Some n.
Proof.
  unfold scandir. rewrite list_elem_of_omap. assert (node_at s (p ++ [x]) = fs_nodes s !! (p ++ [x])) as ->.
  { unfold node_at. by destruct (p ++ [x]) eqn:E; [destruct p|]. }
  split.
  - intros ([k m] & Hin%elem_of_map_to_list & Hk). destruct (last k) as [y|] eqn:Hl; [|done]. case_bool_decide as Hu; [|done].
    simplify_eq. apply last_Some in Hl as [l ->]. by rewrite up_snoc.
  - intros Hn. exists (p ++ [x], n). split; [by apply elem_of_map_to_list|]. rewrite last_snoc, up_snoc, bool_decide_true; done.
Qed.

(** The name of a directory the walk enters *)
Definition clean_name (name : pystr) : Prop := name ∉ _PRUNED_DIRECTORY_NAMES ∧ head name ≠ Some cp_dot.

(** No directory on the way is refused *)
Definition listed (p dirs : list pystr) : Prop := ∀ d, d `prefix_of` dirs → unlisted (p ++ d) = false.

Lemma keep_directory_true p name n :
  phys_dir s p → node_at s (p ++ [name]) = Some n → entry_is_dir s p (name, n) = true →
  keep_directory s p name = Ok true ↔ clean_name name ∧ n = NDir ∧ fs_hidden s (p ++ [name]) = false.
Proof.
  intros Hp Hn Hd. unfold keep_directory, clean_name. destruct (bool_decide (name ∈ _)) eqn:H1; simpl.
  { apply bool_decide_eq_true in H1. split; [done|]. by intros [[? _] _]. }
  destruct (bool_decide (head name = _)) eqn:H2; [apply bool_decide_eq_true in H2; split; [done|by intros [[_ ?] _]]|].
  apply bool_decide_eq_false in H1, H2. destruct (node_name s Hwf _ _ _ Hn) as [Hplain [_ Henc]].
  rewrite lstat_entry by done. rewrite (names_encodable (p ++ [name])).
  2: { apply Forall_app. split; [by eapply phys_dir_names|]. constructor; [by eapply node_name|done]. }
  rewrite Hn. destruct (fs_hidden s (p ++ [name])); [split; [done|by intros (_ & _ & ?)]|].
  destruct n; simpl in Hd |- *; [|done| |done]; split; try done; by intros (_ & ? & _).
Qed.

Lemma scandir_dirs p name : name ∈ (filter (λ e, entry_is_dir s p e = true) (scandir s p)).*1 ↔
  ∃ n, node_at s (p ++ [name]) = Some n ∧ entry_is_dir s p (name, n) = true.
Proof.
  rewrite list_elem_of_fmap. split.
  - intros ([x n] & -> & [? ?%scandir_elem]%list_elem_of_filter). eauto.
  - intros (n & Hn & Hd). exists (name, n). split; [done|]. apply list_elem_of_filter. split; [done|by apply scandir_elem].
Qed.

Lemma scandir_files p name : name ∈ (filter (λ e, entry_is_dir s p e ≠ true) (scandir s p)).*1 ↔
  ∃ n, node_at s (p ++ [name]) = Some n ∧ entry_is_dir s p (name, n) ≠ true.
Proof.
  rewrite list_elem_of_fmap. split.
  - intros ([x n] & -> & [? ?%scandir_elem]%list_elem_of_filter). eauto.
  - intros (n & Hn & Hd). exists (name, n). split; [done|]. apply list_elem_of_filter. split; [done|by apply scandir_elem].
Qed.

Lemma height_bound p n : node_at s p = Some n → (length p ≤ fs_height s)%nat.
Proof.
  unfold node_at. destruct p as [|x p]; [simpl; lia|]. intros Hn. apply max_list_elem_of_le, list_elem_of_fmap. exists (x :: p).
  split; [done|]. apply list_elem_of_fmap. exists (x :: p, n). split; [done|]. by apply elem_of_map_to_list.
Qed.

Lemma phys_dir_node p : phys_dir s p → node_at s p = Some NDir.
Proof. by destruct 1. Qed.

(** The walk visits the entries, regular files among them, of exactly the
    directories that are clean and listed. *)
Lemma walk_from_spec fuel p :
  phys_dir s p → (fs_height s < fuel + length p)%nat →
  match walk_from unlisted s fuel p with
  | Ok l => (∀ q x, node_at s q = Some (NReg x) → q ∈ l ↔
               ∃ dirs name, q = p ++ dirs ++ [name] ∧ Forall clean_name dirs ∧ phys_dir s (p ++ dirs) ∧ listed p dirs) ∧
            (∀ q, q ∈ l → ∃ rest n, rest ≠ [] ∧ q = p ++ rest ∧ node_at s q = Some n)
  | Err e => e = XOs OsError
  end.
Proof.
  revert p. induction fuel as [|fuel IH]; intros p Hp Hfuel.
  { pose proof (height_bound p NDir (phys_dir_node p Hp)). lia. }
  cbn [walk_from]. destruct (unlisted p) eqn:Hun.
  { split; [|intros q H; by apply elem_of_nil in H]. intros q x Hq. split; [intros H; by apply elem_of_nil in H|].
    intros (dirs & name & _ & _ & _ & Hl). specialize (Hl [] (prefix_nil _)). rewrite app_nil_r in Hl. congruence. }
  destruct (filter_res _ _) as [names|e] eqn:Hnames; simpl.
  2: { apply filter_res_err in Hnames as [name Hname]. unfold keep_directory in Hname. repeat case_match; simplify_eq; done. }
  assert (∀ name, name ∈ py_sorted id names ↔
    clean_name name ∧ node_at s (p ++ [name]) = Some NDir ∧ fs_hidden s (p ++ [name]) = false) as Hin.
  { intros name. rewrite elem_of_py_sorted, (filter_res_elem _ _ _ _ Hnames), scandir_dirs. split.
    - intros [(n & Hn & Hd) Hk]. apply (keep_directory_true p name n) in Hk as (? & -> & ?); done.
    - intros (Hc & Hn & Hh). split; [by exists NDir|]. by apply (keep_directory_true p name NDir). }
  assert (∀ name, name ∈ py_sorted id names → phys_dir s (p ++ [name]) ∧ (fs_height s < fuel + length (p ++ [name]))%nat) as Hsub.
  { intros name (_ & Hn & Hh)%Hin. split; [by constructor|]. rewrite length_app. simpl. lia. }
  destruct (map_res _ _) as [below|e] eqn:Hbelow; simpl.
  2: { apply map_res_err in Hbelow as (name & [Hd Hf]%Hsub & He). specialize (IH _ Hd Hf). by rewrite He in IH. }
  assert (∀ q, q ∈ concat below ↔ ∃ name l, name ∈ py_sorted id names ∧ walk_from unlisted s fuel (p ++ [name]) = Ok l ∧ q ∈ l) as Hcat.
  { intros q. apply (map_res_concat _ _ _ _ Hbelow). }
  assert (∀ name, name ∈ py_sorted id names → ∃ l, walk_from unlisted s fuel (p ++ [name]) = Ok l) as Htot.
  { intros name Hname. destruct (walk_from unlisted s fuel (p ++ [name])) as [l|e] eqn:Hw; [eauto|]. exfalso.
    clear -Hbelow Hname Hw. revert below Hbelow. induction (py_sorted id names) as [|y l IHl]; intros below Hb; [by apply elem_of_nil in Hname|].
    simpl in Hb. apply res_bind_Ok in Hb as (b & Hy & (rest & Hr & _)%res_bind_Ok).
    apply elem_of_cons in Hname as [->|Hname]; [congruence|by eapply IHl]. }
  split.
  - intros q x Hq. rewrite elem_of_app, list_elem_of_fmap, Hcat. split.
    + intros [(name & -> & Hf)|(name & l & Hname & Hw & Hl)].
      * exists [], name. rewrite app_nil_r. split_and!; [done|done|done|]. intros d Hd. apply prefix_nil_inv in Hd as ->. by rewrite app_nil_r.
      * destruct (Hsub _ Hname) as [Hd Hfl]. specialize (IH _ Hd Hfl). rewrite Hw in IH. destruct IH as [IH _].
        apply (IH q x Hq) in Hl as (dirs & y & -> & Hc & Hpd & Hli). exists (name :: dirs), y. apply Hin in Hname as (Hcn & _ & _).
        rewrite <-app_assoc in *. split_and!; [done|by constructor|done|].
        intros [|z d] Hpre; [by rewrite app_nil_r|]. apply prefix_cons_inv_1 in Hpre as Heq. subst z. apply prefix_cons_inv_2 in Hpre.
        specialize (Hli d Hpre). by rewrite <-app_assoc in Hli.
    + intros ([|d dirs] & y & -> & Hc & Hpd & Hli).
      * left. exists y. split; [done|]. rewrite elem_of_py_sorted, scandir_files. by exists (NReg x).
      * right. apply Forall_cons in Hc as [Hcd Hc]. exists d.
        assert (phys_dir s (p ++ [d])) as Hpd1.
        { pose proof (walk_spec_dirs s Hwf p (d :: dirs) Hp) as [_ Hws]. specialize (Hws Hpd). cbn [walk_spec] in Hws.
          case_bool_decide; [done|]. destruct (fs_hidden s (p ++ [d])) eqn:Hh; [done|]. destruct (node_at s (p ++ [d])) as [[]|] eqn:Hnd; try done.
          by constructor. }
        assert (d ∈ py_sorted id names) as Hdin.
        { apply Hin. split; [done|]. inversion Hpd1 as [Hnil|p' x' ? ? ? Heq]; [by destruct p|]. apply app_inj_tail in Heq as [-> ->]. done. }
        destruct (Htot d Hdin) as [l Hw]. exists l. split_and!; [done|done|]. destruct (Hsub _ Hdin) as [Hd' Hfl]. specialize (IH _ Hd' Hfl).
        rewrite Hw in IH. destruct IH as [IH _]. apply (IH (p ++ (d :: dirs) ++ [y]) x Hq). exists dirs, y.
        rewrite <-!app_assoc. split_and!; [done|done|done|]. intros d' Hpre. specialize (Hli (d :: d')). rewrite <-app_assoc. apply Hli. by apply prefix_cons.
  - intros q. rewrite elem_of_app, list_elem_of_fmap, Hcat. intros [(name & -> & Hf)|(name & l & Hname & Hw & Hl)].
    + rewrite elem_of_py_sorted, scandir_files in Hf. destruct Hf as (n & Hn & _). by exists [name], n.
    + destruct (Hsub _ Hname) as [Hd Hfl]. specialize (IH _ Hd Hfl). rewrite Hw in IH. destruct IH as [_ IH].
      destruct (IH q Hl) as (rest & n & ? & -> & ?). exists (name :: rest), n. by rewrite <-app_assoc in *.
Qed.
End bounded_laws.

Lemma non_symlink_directory_id limit cwd s root :
  wf_fs s → phys_dir s root → _non_symlink_directory (S limit) cwd s (PurePath [cp_slash] root) = Ok (PurePath [cp_slash] root).
Proof.
  intros Hwf Hroot. unfold _non_symlink_directory. cbn [is_absolute p_anchor p_parts nonempty].
  assert (os_lstat s root = Ok NDir) as ->.
  { pose proof (phys_dir_names s Hwf root Hroot) as Hnames. destruct Hroot as [|p x Hp Hh Hn]; [done|].
    rewrite lstat_entry; [|done|done|by eapply node_name]. by rewrite names_encodable, Hh, Hn. }
  by rewrite resolve_id by (done || by left).
Qed.

(** The inventory of a directory that Git does not own holds exactly the
    supported regular files that are reached from it without any link and
    without entering a pruned, a hidden or an unlistable directory, when no name
    has a backslash; building it raises only for a refused permission, and no
    descriptor stays open. *)
Theorem bounded_inventory_exact sha unlisted limit cwd s ps t :
  wf_fs s → phys_dir s cwd → phys_dir s ps → (∀ p n, fs_nodes s !! p = Some n → Forall (λ x, cp_backslash ∉ x) p) →
  ∃ res, bounded_non_git_trust_inventory sha unlisted (S limit) cwd s (PurePath [cp_slash] ps) t = Some (t, res) ∧
  match res with
  | Ok inv => ∀ p, p ∈ ti_paths inv ↔
        ∃ dirs name, p = join_slash (dirs ++ [name]) ∧ supported p = true ∧ Forall clean_name dirs ∧
          listed unlisted ps dirs ∧ regular_file s (ps ++ dirs ++ [name])
  | Err x => x = XOs OsError
  end.
Proof.
  intros Hwf Hcwd Hdir Hbs. unfold bounded_non_git_trust_inventory. rewrite non_symlink_directory_id by done. simpl.
  pose proof (walk_from_spec unlisted s Hwf (S (fs_height s)) ps Hdir ltac:(lia)) as Hwalk. unfold _bounded_candidates.
  destruct (walk_from unlisted s (S (fs_height s)) ps) as [l|x]; simpl; [|subst x; exists (Err (XOs OsError)); done]. destruct Hwalk as [Hreg Hany].
  destruct (inventory_run sha (S limit) cwd s ps Hwf Hcwd Hdir ((λ p, join_slash (drop (length ps) p)) <$> l) (lit "bounded_no_symlink") t)
    as (inv & -> & _ & _ & _ & Hpaths & _).
  exists (Ok inv). split; [done|].
  assert (∀ rest n, rest ≠ [] → node_at s (ps ++ rest) = Some n → Forall part_ok rest ∧ _normalized_parts (join_slash rest) = Some rest) as Hok.
  { intros rest n Hne Hn. assert (fs_nodes s !! (ps ++ rest) = Some n) as Hn' by (unfold node_at in Hn; destruct (ps ++ rest) eqn:E; [by apply app_nil in E as [_ ?]|done]).
    destruct (Hwf _ _ Hn') as [Hg _]. pose proof (Hbs _ _ Hn') as Hb. apply Forall_app in Hg as [_ Hg]. apply Forall_app in Hb as [_ Hb].
    assert (Forall part_ok rest) as Hp. { clear -Hg Hb. induction Hg as [|x rest (? & ? & _) _ IH]; [done|]. apply Forall_cons in Hb as [? ?]. constructor; [done|by apply IH]. }
    split; [done|by apply join_parts_ok]. }
  intros p. rewrite Hpaths. split.
  - intros (raw & (q & -> & Hq)%list_elem_of_fmap & parts & Hparts & -> & Hsup & Hrf).
    destruct (Hany q Hq) as (rest & n & Hne & -> & Hn). rewrite drop_app_length in Hparts. destruct (Hok rest n Hne Hn) as [_ Hok'].
    rewrite Hok' in Hparts. injection Hparts as <-. destruct Hrf as [x Hx]. assert (node_at s (ps ++ rest) = Some (NReg x)) as Hnx by (by destruct Hx as (? & ? & _ & _ & _ & ?)).
    apply (Hreg _ x Hnx) in Hq as (dirs & name & Heq%app_inv_head & Hc & _ & Hl). subst rest. exists dirs, name. split_and!; try done. by exists x.
  - intros (dirs & name & -> & Hsup & Hc & Hl & x & Hx). assert (node_at s (ps ++ dirs ++ [name]) = Some (NReg x)) as Hnx by (by destruct Hx as (? & ? & _ & _ & _ & ?)).
    assert (dirs ++ [name] ≠ []) as Hne by (by destruct dirs). destruct (Hok _ _ Hne Hnx) as [_ Hok'].
    exists (join_slash (dirs ++ [name])). split.
    + apply list_elem_of_fmap. exists (ps ++ dirs ++ [name]). rewrite drop_app_length. split; [done|]. apply (Hreg _ x Hnx). exists dirs, name.
      split_and!; [done|done| |done]. destruct Hx as (q & y & Heq & Hq & _). rewrite app_assoc in Heq. by apply app_inj_tail in Heq as [-> _].
    + exists (dirs ++ [name]). split_and!; [done|done|done|]. by exists x.
Qed.
