(* ===== verification/InventoryProps.v ===== *)
(** * Observing a file that may change

    The two-pass observation of [inventory.py] against every behaviour of the
    operating system: what a digest that is returned stands for ([Watch]), and
    that no descriptor is left open ([Ledger] of [EditLogic]); and what the
    treatment of backslashes does to an inventory. *)

From S2P Require Import Prelude Paths Positions Scope Executor Editing EditLogic EditingProps FileSystem Identity PathTree Inventory.

(** ** Descriptors *)

Section ledger.
Import Ledger.
Context (sha256_hex : list N → pystr) (read_fuel : nat).

Lemma open_guarded_ledger root parts s : lwp (open_guarded_directory root parts) s (returns_open s).
Proof. apply wp_bind, lwp_free; [done|]. intros [d|e] _; simpl; [apply walk_parts_ledger|done]. Qed.

(** [except OSError: return ...] around a call that opens, and around one that does not *)
Lemma os_reason_open_ledger other (p : prog fd) s :
  lwp p s (returns_open s) →
  lwp (os_reason other p) s (λ s' r, match r with Ok (inr f) => s' = add f s | _ => s' = s end).
Proof.
  intros Hp. apply wp_catch, wp_bind. eapply wp_mono; [exact Hp|]. intros s' [f|x] Hs; simpl in Hs; [done|]. subst s'.
  by destruct x as [[]| | | | | | | | | | |].
Qed.

Lemma os_reason_ledger {A} other (p : prog A) s : lwp p s (neutral s) → lwp (os_reason other p) s (neutral s).
Proof.
  intros Hp. apply lwp_catch_neutral; [by apply lwp_bind_neutral|]. intros x q Hx. by destruct x as [[]| | | | | | | | | | |]; simplify_eq.
Qed.

Lemma os_default_ledger {A} (d : A) p s : lwp p s (neutral s) → lwp (os_default d p) s (neutral s).
Proof. intros Hp. apply lwp_catch_neutral; [done|]. intros x q Hx. by destruct (is_os x); simplify_eq. Qed.

Lemma symlink_reason_ledger root relative s : lwp (_symlink_reason root relative) s (neutral s).
Proof.
  apply lwp_catch_neutral; [apply lwp_bind_neutral; [act; by destruct a|done]|]. intros x q Hx. by destruct x; simplify_eq.
Qed.

Lemma inspect_candidate_ledger root relative s : lwp (_inspect_candidate root relative) s (neutral s).
Proof.
  unfold _inspect_candidate. destruct (_normalized_parts relative) as [parts|]; [|done]. apply wp_bind.
  eapply wp_mono; [apply os_reason_open_ledger, open_guarded_ledger|]. intros s' [[reason|d]|x] Hs; subst s'; [done| |done].
  apply wp_bind. eapply wp_mono; [apply lwp_finally_close|].
  - apply lwp_bind_neutral; [apply os_reason_ledger; act; apply lwp_os|]. intros [reason|st]; [done|].
    destruct (S_ISLNK _); [|done]. apply lwp_bind_neutral; [apply symlink_reason_ledger|done].
  - intros s' [[reason|st]|x] ->; [done| |done]. by destruct (S_ISREG _).
Qed.

Lemma same_directory_ledger root parts f s : f ∈ held s → lwp (_same_guarded_directory root parts f) s (neutral s).
Proof.
  intros Hf. unfold _same_guarded_directory. apply wp_bind.
  eapply wp_mono with (Q := λ s' r, match r with Ok (Some g) => s' = add g s | _ => s' = s end).
  { apply wp_catch, wp_bind. eapply wp_mono; [apply open_guarded_ledger|]. intros s' [g|x] Hs; simpl in Hs; [done|]. subst s'.
    by destruct (is_os x). }
  intros s' [[g|]|x] Hs; subst s'; [|done..]. apply lwp_finally_close, os_default_ledger. unfold os_fstat.
  repeat (apply lwp_bind_neutral; [act; apply lwp_os|intros ?]). done.
Qed.

Lemma stream_digest_ledger f s : f ∈ held s → lwp (_stream_digest sha256_hex read_fuel f) s (neutral s).
Proof.
  intros Hf. unfold _stream_digest. apply lwp_bind_neutral; [act; apply lwp_os|intros _].
  apply lwp_bind_neutral; [by apply read_chunks_ledger|done].
Qed.

Lemma two_passes_ledger root parts inspected d f s :
  d ∈ held s → f ∈ held s → lwp (two_passes sha256_hex read_fuel root parts inspected d f) s (neutral s).
Proof.
  intros Hd Hf. unfold two_passes, os_fstat. apply lwp_bind_neutral; [act; apply lwp_os|intros before]. destruct (_ || _); [done|].
  apply lwp_bind_neutral; [by apply stream_digest_ledger|intros first].
  apply lwp_bind_neutral; [act; apply lwp_os|intros first_after].
  apply lwp_bind_neutral; [act; apply lwp_os|intros first_entry]. destruct (_ || _); [done|].
  apply lwp_bind_neutral; [by apply same_directory_ledger|intros same]. destruct (negb same); [done|].
  apply lwp_bind_neutral; [by apply stream_digest_ledger|intros second].
  repeat (apply lwp_bind_neutral; [act; apply lwp_os|intros ?]). done.
Qed.

Lemma observe_candidate_ledger root relative s : lwp (_observe_candidate sha256_hex read_fuel root relative) s (neutral s).
Proof.
  unfold _observe_candidate. apply lwp_bind_neutral; [apply inspect_candidate_ledger|]. intros [[reason|] st]; [done|].
  destruct st as [inspected|], (_normalized_parts relative) as [parts|]; [|done..]. apply wp_bind.
  eapply wp_mono; [apply os_reason_open_ledger, open_guarded_ledger|]. intros s' [[reason|d]|x] Hs; subst s'; [done| |done].
  apply lwp_finally_close, wp_bind. eapply wp_mono; [apply os_reason_open_ledger|].
  { act. by destruct a. }
  intros s' [[reason|f]|x] Hs; subst s'; [done| |done]. apply wp_bind.
  eapply wp_mono; [apply lwp_finally_close, os_default_ledger, two_passes_ledger; auto using held_add, held_add_under|].
  intros s' [[[[[[before first] second] after] entry]|]|x] ->; [|done..]. destruct (_ || _); [done|].
  apply lwp_bind_neutral; [apply same_directory_ledger, held_add|done].
Qed.
End ledger.

(** ** What a digest stands for *)

Module Watch.

(** What was seen of the entry that was opened last, through the descriptor it was opened as: the passes from its start,
    with the bytes read and whether the last read of the pass met the end of the file, and the facts that [lstat] told of
    the entry of that name in that directory; in the order of the calls, last first. *)
Inductive sight := Pass (content : bytes) (complete : bool) | Facts (f : Z * Z * Z * Z * Z * Z).
Record watch := { w_opened : option (fd * pystr * fd); w_sights : list sight }.
Definition start : watch := {| w_opened := None; w_sights := [] |}.

Definition is_entry (directory : fd) (name : pystr) (w : watch) : bool :=
  match w_opened w with Some (d, n, _) => bool_decide (d = directory ∧ n = name) | None => false end.
Definition watched_file (file : fd) (w : watch) : bool :=
  match w_opened w with Some (_, _, f) => bool_decide (f = file) | None => false end.

Definition see (x : sight) (w : watch) : watch := {| w_opened := w_opened w; w_sights := x :: w_sights w |}.

(** A chunk belongs to the pass that is going on; the empty chunk ends it. *)
Definition see_chunk (chunk : bytes) (w : watch) : watch :=
  match w_sights w with
  | Pass content _ :: sights => {| w_opened := w_opened w; w_sights := Pass (content ++ chunk) (negb (nonempty chunk)) :: sights |}
  | _ => see (Pass chunk false) w
  end.

Definition step (c : call) : answer c → watch → option watch :=
  match c with
  | COpenEntry d n => λ r w, Some match r with Ok f => {| w_opened := Some (d, n, f); w_sights := [] |} | Err _ => start end
  | CSeek f => λ r w, Some match r with Ok _ => if watched_file f w then see (Pass [] false) w else w | Err _ => w end
  | CRead f => λ r w, Some match r with Ok chunk => if watched_file f w then see_chunk chunk w else w | Err _ => w end
  | CStatEntry d n => λ r w, Some match r with Ok st => if is_entry d n w then see (Facts (observed_identity st)) w else w | Err _ => w end
  | _ => λ _ w, Some w
  end.

Definition calm (c : call) (a : answer c) : Prop := True.
Abbreviation wwp := (wp calm step).

Lemma step_total c a w : ∃ w', step c a w = Some w'.
Proof. destruct c; simpl; eauto. Qed.

Lemma wwp_any {A} (p : prog A) w : wwp p w (λ _ _, True).
Proof. revert w. induction p as [r|c k IH]; intros w; [done|]. intros a _. destruct (step_total c a w) as [w' Hw]. exists w'. split; [done|apply IH]. Qed.

Lemma wwp_walks {A} E (p : prog A) w : within walks E p → wwp p w (λ w' _, w' = w).
Proof.
  intros Hp. eapply wp_mono; [apply (within_silent calm step walks _ p w Hp)|by intros w' r [? _]]. intros c Hc a s _. by destruct c.
Qed.

Section passes.
Context (sha256_hex : list N → pystr) (read_fuel : nat).

(** The watch of an opened entry *)
Definition watching (d : fd) (n : pystr) (f : fd) (sights : list sight) : watch :=
  {| w_opened := Some (d, n, f); w_sights := sights |}.

Lemma watched_file_watching d n f sights : watched_file f (watching d n f sights) = true.
Proof. by apply bool_decide_eq_true. Qed.
Lemma is_entry_watching d n f sights : is_entry d n (watching d n f sights) = true.
Proof. by apply bool_decide_eq_true. Qed.

(** Reading in chunks is one complete pass. *)
Lemma read_chunks_pass fuel d n f content c sights :
  wwp (read_chunks fuel f) (watching d n f (Pass content c :: sights))
    (λ w r, match r with Ok chunks => w = watching d n f (Pass (content ++ concat chunks) true :: sights) | Err _ => True end).
Proof.
  revert content c. induction fuel as [|fuel IH]; intros content c; cbn [read_chunks]; [done|]. apply wp_bind.
  intros [chunk|e] _; (eexists; split; [done|]); [|done]. cbn [os wp]. rewrite watched_file_watching.
  change (see_chunk chunk (watching d n f (Pass content c :: sights)))
    with (watching d n f (Pass (content ++ chunk) (negb (nonempty chunk)) :: sights)).
  destruct (nonempty chunk) eqn:Hc.
  - apply wp_bind. eapply wp_mono; [apply IH|]. intros w [rest|x] Hw; [|done]. simpl. rewrite Hw. by rewrite app_assoc.
  - destruct chunk; [|done]. done.
Qed.

Lemma stream_digest_pass d n f sights :
  wwp (_stream_digest sha256_hex read_fuel f) (watching d n f sights)
    (λ w' r, match r with Ok h => ∃ content, sha256_hex content = h ∧ w' = watching d n f (Pass content true :: sights) | Err _ => True end).
Proof.
  unfold _stream_digest. apply wp_bind. intros [u|e] _; (eexists; split; [done|]); [|done]. cbn [os wp]. rewrite watched_file_watching.
  apply wp_bind. eapply wp_mono; [apply (read_chunks_pass _ d n f [] false sights)|].
  intros w' [chunks|x] Hw; [|done]. simpl. by exists (concat chunks).
Qed.

(** [lstat] of the entry *)
Lemma stat_entry_facts d n f sights :
  wwp (Vis (CStatEntry d n) os) (watching d n f sights)
    (λ w r, match r with Ok st => w = watching d n f (Facts (observed_identity st) :: sights) | Err _ => True end).
Proof. intros [st|e] _; (eexists; split; [done|]); [|done]. cbn [os wp]. by rewrite is_entry_watching. Qed.

Lemma same_directory_within root parts f : within walks only_os (_same_guarded_directory root parts f).
Proof.
  unfold _same_guarded_directory. apply within_bind.
  - apply within_catch with (E' := only_os).
    + apply within_bind; [|done]. apply within_bind; [split; [done|]; intros a; apply within_os; by eexists|]. intros d. apply walk_parts_within.
    + intros x [e ->]. done.
  - intros [g|]; [|done]. apply within_finally.
    + apply within_catch with (E' := only_os); [|by intros x [e ->]]. unfold os_fstat.
      repeat (apply within_bind; [split; [done|]; intros ?; apply within_os; by eexists|intros ?]). done.
    + split; [done|]. intros a. apply within_os. by eexists.
Qed.

(** What the watch saw when both passes were made *)
Lemma two_passes_watched root parts inspected d f :
  let n := default [] (last parts) in
  wwp (two_passes sha256_hex read_fuel root parts inspected d f) (watching d n f [])
    (λ w r, match r with
            | Ok (Some (before, first, second, after, entry)) =>
                S_ISREG (st_mode before) = true ∧
                ∃ b1 b2, sha256_hex b1 = first ∧ sha256_hex b2 = second ∧
                  w = watching d n f [Facts (observed_identity entry); Pass b2 true; Facts (observed_identity before); Pass b1 true]
            | _ => True
            end).
Proof.
  intros n. unfold two_passes, os_fstat. fold n. apply wp_bind. intros [before|e] _; (eexists; split; [done|]); [|done]. cbn [os wp].
  destruct (S_ISREG (st_mode before)) eqn:Hreg; cbn [negb orb]; [|done]. destruct (negb _); [done|].
  apply wp_bind. eapply wp_mono; [apply stream_digest_pass|]. intros w [first|x] Hw; [|done]. destruct Hw as (b1 & Hb1 & ->).
  apply wp_bind. intros [first_after|e] _; (eexists; split; [done|]); [|done]. cbn [os wp].
  apply wp_bind. eapply wp_mono; [apply stat_entry_facts|]. intros w [first_entry|x] Hw; [subst w|done].
  destruct (bool_decide (observed_identity before = observed_identity first_after)) eqn:H1; cbn [negb orb]; [|done].
  destruct (bool_decide (observed_identity first_after = observed_identity first_entry)) eqn:H2; cbn [negb]; [|done].
  apply bool_decide_eq_true in H1, H2. apply wp_bind. eapply wp_mono; [eapply wwp_walks, same_directory_within|].
  intros w [same|x] ->; [|done]. destruct (negb same); [done|].
  apply wp_bind. eapply wp_mono; [apply stream_digest_pass|]. intros w [second|x] Hw; [|done]. destruct Hw as (b2 & Hb2 & ->).
  apply wp_bind. intros [after|e] _; (eexists; split; [done|]); [|done]. cbn [os wp].
  apply wp_bind. eapply wp_mono; [apply stat_entry_facts|]. intros w [entry|x] Hw; [subst w|done]. cbn [wp mret prog_ret].
  split; [done|]. exists b1, b2. by rewrite H1, H2.
Qed.

(** A digest stands for two complete passes of one opened file, the facts of the entry told after each. *)
Definition observed (w : watch) (r : res exn (option pystr * option stat_result * option pystr)) : Prop :=
  match r with
  | Ok (_, _, None) => True
  | Ok (reason, st, Some digest) =>
      reason = None ∧ ∃ st' b1 b2, st = Some st' ∧ S_ISREG (st_mode st') = true ∧
        sha256_hex b1 = digest ∧ sha256_hex b2 = digest ∧
        w_sights w = [Facts (observed_identity st'); Pass b2 true; Facts (observed_identity st'); Pass b1 true]
  | Err _ => True
  end.

(** Closing keeps the watch. *)
Lemma wwp_finally_close {A} (p : prog A) f w (Q : watch → res exn A → Prop) :
  wwp p w Q → (∀ w' x, Q w' (Err x)) → wwp (finally p (os_close f)) w Q.
Proof.
  intros Hp Herr. apply wp_finally. eapply wp_mono; [exact Hp|]. intros w' r Hr [u|e] _; exists w'; (split; [done|]); [done|apply Herr].
Qed.

Lemma observe_candidate_watched root relative w : wwp (_observe_candidate sha256_hex read_fuel root relative) w observed.
Proof.
  unfold _observe_candidate. apply wp_bind. eapply wp_mono; [apply wwp_any|]. intros w1 [[[reason|] st]|x] _; [done| |done].
  destruct st as [inspected|], (_normalized_parts relative) as [parts|]; [|done..]. apply wp_bind. eapply wp_mono; [apply wwp_any|].
  intros w2 [[reason|d]|x] _; [done| |done]. apply wwp_finally_close; [|done]. apply wp_bind.
  set (n := default [] (last parts)).
  eapply wp_mono with (Q := λ w r, match r with Ok (inr f) => w = watching d n f [] | _ => True end).
  { apply wp_catch, wp_bind. intros [f|e] _; (eexists; split; [done|]); [done|]. by destruct e. }
  intros w3 [[reason|f]|x] Hw; [done| |done]. subst w3. apply wp_bind. eapply wp_mono.
  { apply wwp_finally_close with (Q := λ w r, match r with
      | Ok (Some (before, first, second, after, entry)) => S_ISREG (st_mode before) = true ∧
          ∃ b1 b2, sha256_hex b1 = first ∧ sha256_hex b2 = second ∧
            w = watching d n f [Facts (observed_identity entry); Pass b2 true; Facts (observed_identity before); Pass b1 true]
      | _ => True end); [|done].
    apply wp_catch. eapply wp_mono; [apply two_passes_watched|]. intros w' [o|x] Hr; [done|]. by destruct (is_os x). }
  intros w3 [[[[[[before first] second] after] entry]|]|x] Hw; [|done..]. destruct Hw as (Hreg & b1 & b2 & Hb1 & Hb2 & ->).
  destruct (bool_decide (observed_identity before = observed_identity after)) eqn:H1; cbn [negb orb]; [|done].
  destruct (bool_decide (observed_identity after = observed_identity entry)) eqn:H2; cbn [negb orb]; [|done].
  destruct (bool_decide (first = second)) eqn:H3; cbn [negb orb]; [|done]. apply bool_decide_eq_true in H1, H2, H3.
  apply wp_bind. eapply wp_mono; [eapply wwp_walks, same_directory_within|]. intros w' [same|x] ->; [|done].
  destruct same; [|done]. cbn [wp mret prog_ret observed]. split; [done|]. exists after, b1, b2. cbn [watching w_sights].
  split_and!; [done| |congruence|done|by rewrite H1, <-H2].
  assert (st_mode after = st_mode before) as ->; [|done]. unfold observed_identity in H1. by simplify_eq.
Qed.
End passes.
End Watch.

(** C24: Whatever the file system does meanwhile, an observation that returns a
    digest has read the opened file twice from its start to its end, through the
    descriptor it was opened as; all the bytes of either pass hash to that digest;
    and after each pass [lstat] of the entry told the returned facts, those of a
    regular file. If closing works, no observation of any outcome leaves a
    descriptor open or uses one that is not. *)
Theorem observed_digest_is_stable sha fuel root relative t r :
  exec (_observe_candidate sha fuel root relative) t r →
  (∃ w, run Watch.step t Watch.start = Some w ∧ Watch.observed sha w r) ∧
  (Forall (λ e, let 'Ev c a := e in Ledger.calm c a) t → run Ledger.step t Ledger.empty_ledger = Some Ledger.empty_ledger).
Proof.
  intros Hex. split.
  - eapply wp_exec; [apply (Watch.observe_candidate_watched sha fuel root relative Watch.start)|exact Hex|].
    apply Forall_forall. by intros [c a] _.
  - intros Hcalm. destruct (wp_exec _ _ _ _ _ _ _ (observe_candidate_ledger sha fuel root relative Ledger.empty_ledger) Hex Hcalm) as (s & Hs & ->). done.
Qed.

Module InventoryRuns.
Import EditRuns IdentityExamples.

(** ** A run *)

Definition observe : prog (option pystr * option stat_result * option pystr) :=
  _observe_candidate (λ b, lit "h" ++ b) 3 (PurePath [cp_slash] [lit "w"]) (lit "a.py").
Definition observe_run : list event * res exn (option pystr * option stat_result * option pystr) := play (disk_call false) observe disk0.

Lemma observe_reply : observe_run.2 = Ok (None, Some file_stat, Some (lit "h" ++ file)).
Proof. vm_compute. reflexivity. Qed.

Lemma observe_exec : exec observe observe_run.1 observe_run.2.
Proof. apply play_exec. Qed.

#[local] Opaque observe_run.

Lemma observed_digest_is_stable_witness :
  ∃ w, run Watch.step observe_run.1 Watch.start = Some w ∧
    ∃ b, lit "h" ++ b = lit "h" ++ file ∧
      Watch.w_sights w = [Watch.Facts (observed_identity file_stat); Watch.Pass b true; Watch.Facts (observed_identity file_stat); Watch.Pass b true].
Proof.
  destruct (observed_digest_is_stable (λ b, lit "h" ++ b) 3 (PurePath [cp_slash] [lit "w"]) (lit "a.py") observe_run.1 observe_run.2 observe_exec)
    as [(w & Hw & Ho) _].
  exists w. split; [exact Hw|]. rewrite observe_reply in Ho. destruct Ho as (_ & st & b1 & b2 & [= <-] & _ & H1 & H2 & Hs).
  exists b1. apply (app_inv_head (lit "h")) in H1, H2. subst b1 b2. split; [reflexivity|exact Hs].
Defined.

(** ** Inventories *)

Definition fake_sha (_ : list N) : pystr := lit "0".
Definition git_output : list N := lit "a.py" ++ [0%N] ++ lit "pkg/b.py" ++ [0%N] ++ lit "out.py" ++ [0%N] ++ lit "README" ++ [0%N].

(** Git lists a link and a file that is not source: the first is rejected, the
    second ignored. *)
Definition git_run : option (table * res exn TrustInventory) :=
  run_fs 1000 [] tree (git_trust_inventory fake_sha (λ _, Ok git_output) (below [])) ∅.
Example git_inventory :
  (λ r, (r.1, match r.2 with Ok i => Some (ti_paths i, ti_rejected i) | Err _ => None end)) <$> git_run =
  Some (∅, Some ([lit "a.py"; lit "pkg/b.py"], [{| rp_path := lit "out.py"; rp_reason := lit "symlink_escape" |}])).
Proof. vm_compute. reflexivity. Qed.

Lemma inventory_grants_exactly_witness :
  ∃ inv, run_fs 1000 [] tree (_inventory_from_candidates fake_sha (below []) (git_candidates git_output) (lit "git")) ∅ = Some (∅, Ok inv) ∧
    authorize_edit 1000 [] tree policy workspace (Path (lit "pkg/b.py")) (absolute_paths inv) ∅ = Some (∅, Ok (below [lit "pkg"; lit "b.py"])).
Proof.
  destruct (run_fs 1000 [] tree (_inventory_from_candidates fake_sha (below []) (git_candidates git_output) (lit "git")) ∅) as [[t [inv|x]]|] eqn:Hrun;
    [|vm_compute in Hrun; discriminate..].
  assert (t = ∅) as -> by (vm_compute in Hrun; by injection Hrun as <-). exists inv. split; [reflexivity|].
  destruct (inventory_grants_exactly fake_sha 999 [] tree policy workspace [lit "data"; lit "w"] (git_candidates git_output) (lit "git") ∅ inv
    tree_wf (phys_root tree) root_physical eq_refl Hrun) as [Hgrant _].
  apply Hgrant; [|reflexivity|vm_compute; reflexivity]. vm_compute in Hrun. injection Hrun as <-. vm_compute. right. left.
Defined.

(** A directory that Git does not own, with a pruned and a hidden directory. *)
Definition plain_tree : fs :=
  {| fs_nodes := list_to_map [
       ([lit "p"], NDir); ([lit "p"; lit "m.py"], NReg false); ([lit "p"; lit "sub"], NDir); ([lit "p"; lit "sub"; lit "n.ts"], NReg false);
       ([lit "p"; lit "node_modules"], NDir); ([lit "p"; lit "node_modules"; lit "x.py"], NReg false);
       ([lit "p"; lit ".venv"], NDir); ([lit "p"; lit ".venv"; lit "y.py"], NReg false);
       ([lit "p"; lit "up"], NLink (lit "..")); ([lit "p"; lit "z.py"], NLink (lit "m.py"))];
     fs_hidden := λ _, false |}.

#[local] Instance good_node_dec' n : Decision (good_name n).
Proof. unfold good_name, plain. apply _. Defined.
#[local] Instance good_target_dec n : Decision (good_node n).
Proof. destruct n; simpl; apply _. Defined.

Lemma plain_tree_wf : wf_fs plain_tree.
Proof.
  assert (map_Forall (λ p n, Forall good_name p ∧ good_node n) (fs_nodes plain_tree)) as H; [|exact H].
  apply map_Forall_to_list, (bool_decide_unpack _). vm_compute. reflexivity.
Qed.

Lemma plain_tree_forward p n : fs_nodes plain_tree !! p = Some n → Forall (λ x, cp_backslash ∉ x) p.
Proof.
  assert (map_Forall (λ p (_ : node), Forall (λ x, cp_backslash ∉ x) p) (fs_nodes plain_tree)) as H; [|apply H].
  apply map_Forall_to_list, (bool_decide_unpack _). vm_compute. reflexivity.
Qed.

Lemma bounded_inventory_exact_witness :
  ∃ inv, bounded_non_git_trust_inventory fake_sha (λ _, false) 1000 [] plain_tree (PurePath [cp_slash] [lit "p"]) ∅ = Some (∅, Ok inv) ∧
    ti_paths inv = [lit "m.py"; lit "sub/n.ts"] ∧
    (lit "sub/n.ts" ∈ ti_paths inv ↔ ∃ dirs name, lit "sub/n.ts" = join_slash (dirs ++ [name]) ∧ supported (lit "sub/n.ts") = true ∧
       Forall clean_name dirs ∧ listed (λ _, false) [lit "p"] dirs ∧ regular_file plain_tree ([lit "p"] ++ dirs ++ [name])).
Proof.
  destruct (bounded_inventory_exact fake_sha (λ _, false) 999 [] plain_tree [lit "p"] ∅ plain_tree_wf (phys_root _)
    ltac:(apply (phys_sub _ []); [constructor|reflexivity..]) plain_tree_forward) as (res & Hrun & Hspec).
  destruct res as [inv|x]; [|vm_compute in Hrun; discriminate]. exists inv. split; [exact Hrun|]. split; [|apply Hspec].
  vm_compute in Hrun. by injection Hrun as <-.
Defined.

(** ** Backslashes *)

(** The same directory with one more file, whose name has a backslash. *)
Definition odd_tree : fs :=
  {| fs_nodes := <[[lit "p"; lit "node_modules\x.py"] := NReg false]> (fs_nodes plain_tree); fs_hidden := λ _, false |}.

(** A file whose name has a backslash is taken for the path with a slash in
    its place: one file named [node_modules\x.py] admits [node_modules/x.py],
    which the walk never enters and which is not in the inventory without it;
    and a name Git lists with a backslash admits a file Git did not list. *)
Theorem backslash_name_admits_pruned_file :
  (∃ inv, bounded_non_git_trust_inventory fake_sha (λ _, false) 1000 [] plain_tree (PurePath [cp_slash] [lit "p"]) ∅ = Some (∅, Ok inv) ∧
     inventory_contains inv (lit "node_modules/x.py") = false) ∧
  (∃ inv, bounded_non_git_trust_inventory fake_sha (λ _, false) 1000 [] odd_tree (PurePath [cp_slash] [lit "p"]) ∅ = Some (∅, Ok inv) ∧
     inventory_contains inv (lit "node_modules/x.py") = true) ∧
  (∃ inv, run_fs 1000 [] odd_tree (git_trust_inventory fake_sha (λ _, Ok (lit "node_modules\x.py" ++ [0%N])) (PurePath [cp_slash] [lit "p"])) ∅ =
     Some (∅, Ok inv) ∧ ti_paths inv = [lit "node_modules/x.py"]).
Proof. split_and!; eexists; (split; [vm_compute; reflexivity|]); vm_compute; reflexivity. Qed.
End InventoryRuns.
