(* ===== verification/Threads.v ===== *)
(** * Threads over a shared state

    A thread of the workspace runtime: critical sections on the objects it
    shares with other threads, waits for a lock or a condition variable, and
    calls to code that is not the runtime's own (the operating system, language
    adapters, futures). A thread is a tree; [TStep g f k] is one critical
    section: it can run in a state [s] that satisfies the guard [g], turns it into
    [f s] and goes on with [k s]. A lock that is held across calls is a field of
    the state.

    An execution ([texec]) interleaves a thread with other threads that change
    the state along a relation, the rely, and records the thread's own calls. A
    pool ([pool_step]) runs many threads against one state. *)

From S2P Require Import Prelude.

Section thread.
Context {S C E : Type} {R : C → Type}.

Inductive thread (A : Type) : Type :=
| TRet (r : res E A)
| TStep (g : S → bool) (f : S → S) (k : S → thread A)
| TCall (c : C) (k : R c → thread A).
Arguments TRet {A} r.
Arguments TStep {A} g f k.
Arguments TCall {A} c k.

(** [try: p except: h], where [h] sees every outcome *)
Fixpoint ttry {A B} (p : thread A) (h : res E A → thread B) : thread B :=
  match p with
  | TRet r => h r
  | TStep g f k => TStep g f (λ s, ttry (k s) h)
  | TCall c k => TCall c (λ a, ttry (k a) h)
  end.

Definition tbind {A B} (p : thread A) (q : A → thread B) : thread B :=
  ttry p (λ r, match r with Ok a => q a | Err e => TRet (Err e) end).

#[export] Instance thread_bind : MBind thread := λ A B f p, tbind p f.
#[export] Instance thread_ret : MRet thread := λ A a, TRet (Ok a).
Definition traise {A} (e : E) : thread A := TRet (Err e).

(** [try: p finally: last] *)
Definition tfinally {A} (p : thread A) (last : thread unit) : thread A := ttry p (λ r, last ≫= λ _, TRet r).

(** Critical sections that compute a result, that may raise, and that only read *)
Definition tatom {B} (g : S → bool) (f : S → S * B) : thread B := TStep g (λ s, (f s).1) (λ s, TRet (Ok (f s).2)).
Definition tatom_res {B} (g : S → bool) (f : S → S * res E B) : thread B := TStep g (λ s, (f s).1) (λ s, TRet (f s).2).
Definition tread {B} (g : S → bool) (f : S → B) : thread B := TStep g id (λ s, TRet (Ok (f s))).
Definition tcall (c : C) : thread (R c) := TCall c (λ a, TRet (Ok a)).

(** [for x in l: acc = p acc x] *)
Fixpoint tfold {A B} (p : B → A → thread B) (acc : B) (l : list A) : thread B :=
  match l with
  | [] => mret acc
  | x :: l => acc ← p acc x; tfold p acc l
  end.

(** ** Executions *)

Inductive tevent := TEv (c : C) (a : R c).

Section rely.
Context (rely : relation S).

Inductive texec {A} : thread A → S → list tevent → res E A → S → Prop :=
| texec_env p s s1 t r s' : rely s s1 → texec p s1 t r s' → texec p s t r s'
| texec_ret r s : texec (TRet r) s [] r s
| texec_step g f k s t r s' : g s = true → texec (k s) (f s) t r s' → texec (TStep g f k) s t r s'
| texec_call c k a s t r s' : texec (k a) s t r s' → texec (TCall c k) s (TEv c a :: t) r s'.

(** The first move of a thread, after the others have moved *)
Definition first_move {A} (p : thread A) (s : S) (t : list tevent) (r : res E A) (s' : S) : Prop :=
  match p with
  | TRet r0 => t = [] ∧ r = r0 ∧ rtc rely s s'
  | TStep g f k => ∃ s1, rtc rely s s1 ∧ g s1 = true ∧ texec (k s1) (f s1) t r s'
  | TCall c k => ∃ s1 a t1, rtc rely s s1 ∧ t = TEv c a :: t1 ∧ texec (k a) s1 t1 r s'
  end.

Lemma texec_inv {A} (p : thread A) s t r s' : texec p s t r s' → first_move p s t r s'.
Proof.
  induction 1 as [p s s1 t r s' Hs _ IH|r s|g f k s t r s' Hg H _|c k a s t r s' H _]; simpl; try by repeat eexists.
  destruct p; simpl in *.
  - destruct IH as (-> & -> & ?). split_and!; [done..|by eapply rtc_l].
  - destruct IH as (s2 & ? & ? & ?). exists s2. split_and!; [by eapply rtc_l|done..].
  - destruct IH as (s2 & a & t1 & ? & -> & ?). exists s2, a, t1. split_and!; [by eapply rtc_l|done..].
Qed.

Lemma texec_envs {A} (p : thread A) s s1 t r s' : rtc rely s s1 → texec p s1 t r s' → texec p s t r s'.
Proof. induction 1; [done|]. intros. eapply texec_env; eauto. Qed.

Lemma texec_try_inv {A B} (p : thread A) (h : res E A → thread B) s t r s' :
  texec (ttry p h) s t r s' →
  ∃ r1 s1 t1 t2, t = t1 ++ t2 ∧ texec p s t1 r1 s1 ∧ texec (h r1) s1 t2 r s'.
Proof.
  revert s t. induction p as [r1|g f k IH|c k IH]; intros s t H; simpl in *.
  - exists r1, s, [], t. split_and!; [done|constructor|done].
  - apply texec_inv in H as (s1 & Hs & Hg & (r1 & s2 & t1 & t2 & -> & ? & ?)%IH). exists r1, s2, t1, t2.
    split_and!; [done| |done]. eapply texec_envs; [done|]. by constructor.
  - apply texec_inv in H as (s1 & a & t' & Hs & -> & (r1 & s2 & t1 & t2 & -> & ? & ?)%IH). exists r1, s2, (TEv c a :: t1), t2.
    split_and!; [done| |done]. eapply texec_envs; [done|]. by constructor.
Qed.

Lemma texec_bind_ok {A B} (p : thread A) (q : A → thread B) s t b s' :
  texec (p ≫= q) s t (Ok b) s' → ∃ a s1 t1 t2, t = t1 ++ t2 ∧ texec p s t1 (Ok a) s1 ∧ texec (q a) s1 t2 (Ok b) s'.
Proof.
  intros (r1 & s1 & t1 & t2 & -> & H1 & H2)%texec_try_inv. destruct r1 as [a|e]; [by exists a, s1, t1, t2|].
  by apply texec_inv in H2 as (_ & ? & _).
Qed.

Lemma texec_finally_ok {A} (p : thread A) last s t a s' :
  texec (tfinally p last) s t (Ok a) s' → ∃ s1 t1 t2, t = t1 ++ t2 ∧ texec p s t1 (Ok a) s1 ∧ texec (last ≫= λ _, TRet (Ok a)) s1 t2 (Ok a) s'.
Proof.
  intros (r1 & s1 & t1 & t2 & -> & H1 & H2)%texec_try_inv. destruct r1 as [b|e].
  - pose proof H2 as (u & s2 & t3 & t4 & _ & _ & H4)%texec_bind_ok. apply texec_inv in H4 as (_ & [= ->] & _). by exists s1, t1, t2.
  - apply texec_bind_ok in H2 as (u & s2 & t3 & t4 & _ & _ & H4). by apply texec_inv in H4 as (_ & ? & _).
Qed.

(** ** Weakest preconditions: what holds when the thread ends *)

Definition twp {A} (p : thread A) (s : S) (Q : list tevent → res E A → S → Prop) : Prop :=
  ∀ t r s', texec p s t r s' → Q t r s'.

Lemma twp_mono {A} (p : thread A) s (Q Q' : list tevent → res E A → S → Prop) :
  twp p s Q → (∀ t r s', Q t r s' → Q' t r s') → twp p s Q'.
Proof. intros Hp HQ t r s' H. by apply HQ, Hp. Qed.

Lemma twp_ret {A} (r : res E A) s (Q : list tevent → res E A → S → Prop) :
  (∀ s', rtc rely s s' → Q [] r s') → twp (TRet r) s Q.
Proof. intros HQ t r' s' (-> & -> & ?)%texec_inv. auto. Qed.

Lemma twp_step {A} g f (k : S → thread A) s Q :
  (∀ s1, rtc rely s s1 → g s1 = true → twp (k s1) (f s1) Q) → twp (TStep g f k) s Q.
Proof. intros Hk t r s' (s1 & Hs & Hg & H)%texec_inv. by eapply Hk. Qed.

Lemma twp_call {A} c (k : R c → thread A) s (Q : list tevent → res E A → S → Prop) :
  (∀ s1 a, rtc rely s s1 → twp (k a) s1 (λ t, Q (TEv c a :: t))) → twp (TCall c k) s Q.
Proof. intros Hk t r s' (s1 & a & t1 & Hs & -> & H)%texec_inv. by eapply Hk. Qed.

Lemma twp_try {A B} (p : thread A) (h : res E A → thread B) s (Q : list tevent → res E B → S → Prop) :
  twp p s (λ t1 r1 s1, twp (h r1) s1 (λ t2, Q (t1 ++ t2))) → twp (ttry p h) s Q.
Proof. intros Hp t r s' (r1 & s1 & t1 & t2 & -> & H1 & H2)%texec_try_inv. by eapply Hp. Qed.

Lemma twp_bind {A B} (p : thread A) (q : A → thread B) s (Q : list tevent → res E B → S → Prop) :
  twp p s (λ t1 r1 s1, match r1 with
                       | Ok a => twp (q a) s1 (λ t2, Q (t1 ++ t2))
                       | Err e => ∀ s', rtc rely s1 s' → Q t1 (Err e) s'
                       end) →
  twp (p ≫= q) s Q.
Proof.
  intros Hp. apply twp_try. eapply twp_mono; [exact Hp|]. intros t1 [a|e] s1 H1; [done|]. apply twp_ret.
  intros s' Hs. rewrite app_nil_r. auto.
Qed.
End rely.

(** A run against an oracle, without other threads; [None]: a guard fails *)
Fixpoint trun {A W} (oracle : ∀ c, W → W * R c) (p : thread A) (w : W) (s : S) : option (list tevent * res E A * S * W) :=
  match p with
  | TRet r => Some ([], r, s, w)
  | TStep g f k => if g s then trun oracle (k s) w (f s) else None
  | TCall c k =>
      let '(w, a) := oracle c w in
      '(t, r, s, w) ← trun oracle (k a) w s; Some (TEv c a :: t, r, s, w)
  end.

Lemma trun_exec {A W} (oracle : ∀ c, W → W * R c) (p : thread A) w s t r s' w' rely :
  trun oracle p w s = Some (t, r, s', w') → texec rely p s t r s'.
Proof.
  revert w s t. induction p as [r0|g f k IH|c k IH]; intros w s t; simpl.
  - intros [= <- <- <- <-]. constructor.
  - destruct (g s) eqn:Hg; [|done]. intros H%IH. by constructor.
  - destruct (oracle c w) as [w1 a]. destruct (trun oracle (k a) w1 s) as [[[[t1 r1] s1] w2]|] eqn:Ht; simpl; [|done].
    intros [= <- <- <- <-]. constructor. by eapply IH.
Qed.

(** ** Guarantees: every critical section of a thread moves along a relation *)

Section guarantee.
Context (G : relation S) `{!PreOrder G}.

Fixpoint guar {A} (p : thread A) : Prop :=
  match p with
  | TRet _ => True
  | TStep g f k => ∀ s, g s = true → G s (f s) ∧ guar (k s)
  | TCall _ k => ∀ a, guar (k a)
  end.

Lemma rtc_guar (rely : relation S) s s' : (∀ x y, rely x y → G x y) → rtc rely s s' → G s s'.
Proof. intros HG. induction 1; [done|]. etrans; [by apply HG|done]. Qed.

Lemma guar_try {A B} (p : thread A) (h : res E A → thread B) : guar p → (∀ r, guar (h r)) → guar (ttry p h).
Proof. intros Hp Hh. induction p as [r|g f k IH|c k IH]; simpl in *; [done| |by auto]. intros s Hg. destruct (Hp s Hg). auto. Qed.

Lemma guar_bind {A B} (p : thread A) (q : A → thread B) : guar p → (∀ a, guar (q a)) → guar (p ≫= q).
Proof. intros Hp Hq. apply guar_try; [done|]. by intros [a|e]. Qed.

Lemma guar_finally {A} (p : thread A) last : guar p → guar last → guar (tfinally p last).
Proof. intros Hp Hl. apply guar_try; [done|]. intros r. by apply guar_bind. Qed.

Lemma guar_atom {B} g (f : S → S * B) : (∀ s, G s (f s).1) → guar (tatom g f).
Proof. by intros Hf. Qed.

Lemma guar_atom_res {B} g (f : S → S * res E B) : (∀ s, G s (f s).1) → guar (tatom_res g f).
Proof. by intros Hf. Qed.

Lemma guar_read {B} g (f : S → B) : guar (tread g f).
Proof. intros s. by split. Qed.

Lemma guar_fold {A B} (p : B → A → thread B) acc l : (∀ b x, guar (p b x)) → guar (tfold p acc l).
Proof. intros Hp. revert acc. induction l; intros acc; simpl; [done|]. by apply guar_bind. Qed.

Lemma texec_guar {A} (p : thread A) rely s t r s' : (∀ x y, rely x y → G x y) → guar p → texec rely p s t r s' → G s s'.
Proof.
  intros Hrely Hp H. induction H as [p s s1 t r s' Hs _ IH|r s|g f k s t r s' Hg _ IH|c k a s t r s' _ IH]; simpl in *.
  - etrans; [by apply Hrely|by apply IH].
  - done.
  - destruct (Hp s Hg) as [? ?]. etrans; [done|by apply IH].
  - by apply IH.
Qed.
End guarantee.

Lemma guar_mono {A} (G G' : relation S) (p : thread A) : (∀ s s', G s s' → G' s s') → guar G p → guar G' p.
Proof. intros HG. induction p as [r|g f k IH|c k IH]; simpl; [done| |by eauto]. intros Hp s Hg. destruct (Hp s Hg). auto. Qed.

(** ** Threads that make only some calls and move along a relation *)

Section within.
Context (G : relation S) `{!PreOrder G} (P : C → Prop).

Fixpoint within {A} (p : thread A) : Prop :=
  match p with
  | TRet _ => True
  | TStep g f k => ∀ s, g s = true → G s (f s) ∧ within (k s)
  | TCall c k => P c ∧ ∀ a, within (k a)
  end.

Lemma within_try {A B} (p : thread A) (h : res E A → thread B) : within p → (∀ r, within (h r)) → within (ttry p h).
Proof.
  intros Hp Hh. induction p as [r|g f k IH|c k IH]; simpl in *; [done| |].
  - intros s Hg. destruct (Hp s Hg). auto.
  - destruct Hp as [? Hp]. auto.
Qed.
Lemma within_tbind {A B} (p : thread A) (q : A → thread B) : within p → (∀ a, within (q a)) → within (p ≫= q).
Proof. intros Hp Hq. apply within_try; [done|]. by intros [a|e]. Qed.
Lemma within_tfinally {A} (p : thread A) last : within p → within last → within (tfinally p last).
Proof. intros Hp Hl. apply within_try; [done|]. intros r. by apply within_tbind. Qed.
Lemma within_atom {B} g (f : S → S * B) : (∀ s, G s (f s).1) → within (tatom g f).
Proof. by intros Hf. Qed.
Lemma within_atom_res {B} g (f : S → S * res E B) : (∀ s, G s (f s).1) → within (tatom_res g f).
Proof. by intros Hf. Qed.
Lemma within_read {B} g (f : S → B) : within (tread g f).
Proof. intros s. by split. Qed.
Lemma within_tcall c : P c → within (tcall c).
Proof. by split. Qed.
Lemma within_fold {A B} (p : B → A → thread B) acc l : (∀ b x, within (p b x)) → within (tfold p acc l).
Proof. intros Hp. revert acc. induction l; intros acc; simpl; [done|]. by apply within_tbind. Qed.

Lemma within_guar {A} (p : thread A) : within p → guar G p.
Proof. induction p as [r|g f k IH|c k IH]; simpl; [done| |]; [intros Hp s Hg; destruct (Hp s Hg); auto|intros [_ Hp]; auto]. Qed.

Lemma texec_within {A} (p : thread A) rely s t r s' : within p → texec rely p s t r s' → Forall (λ e, match e with TEv c _ => P c end) t.
Proof.
  intros Hp H. induction H as [p s s1 t r s' _ _ IH|r s|g f k s t r s' Hg _ IH|c k a s t r s' _ IH]; simpl in *; [auto|done| |].
  - destruct (Hp s Hg). auto.
  - destruct Hp. constructor; auto.
Qed.
End within.

(** ** Pools *)

Inductive tmove {A} : thread A → S → thread A → S → Prop :=
| tmove_step g f k s : g s = true → tmove (TStep g f k) s (k s) (f s)
| tmove_call c k a s : tmove (TCall c k) s (k a) s.

(** A thread that [start] allows may join at any time. *)
Inductive pool_step {A} (start : thread A → Prop) : S * list (thread A) → S * list (thread A) → Prop :=
| pool_move s ps i p p' s' : ps !! i = Some p → tmove p s p' s' → pool_step start (s, ps) (s', <[i := p']> ps)
| pool_spawn s ps p : start p → pool_step start (s, ps) (s, ps ++ [p]).

(** A thread that runs alone *)
Lemma trun_pool {A W} (oracle : ∀ c, W → W * R c) (start : thread A → Prop) (p : thread A) w s t r s' w' :
  trun oracle p w s = Some (t, r, s', w') → rtc (pool_step start) (s, [p]) (s', [TRet r]).
Proof.
  revert w s t. induction p as [r0|g f k IH|c k IH]; intros w s t; simpl.
  - intros [= <- <- <- <-]. done.
  - destruct (g s) eqn:Hg; [|done]. intros H%IH. eapply rtc_l; [|exact H]. by apply (pool_move start s [TStep g f k] 0 _ _ _ eq_refl), tmove_step.
  - destruct (oracle c w) as [w1 a]. destruct (trun oracle (k a) w1 s) as [[[[t1 r1] s1] w2]|] eqn:Ht; simpl; [|done].
    intros [= <- <- <- <-]. eapply rtc_l; [|by eapply IH]. by apply (pool_move start s [TCall c k] 0 _ _ _ eq_refl), tmove_call.
Qed.

Lemma pool_guar {A} G `{!PreOrder G} (start : thread A → Prop) c c' :
  (∀ p, start p → guar G p) → rtc (pool_step start) c c' → Forall (guar G) c.2 → G c.1 c'.1 ∧ Forall (guar G) c'.2.
Proof.
  intros Hstart. induction 1 as [c|c1 c2 c3 H _ IH]; intros Hps; [done|].
  assert (G c1.1 c2.1 ∧ Forall (guar G) c2.2) as [H1 H2].
  { destruct H as [s ps i p p' s' Hi Hm|s ps p Hp]; simpl in *.
    - pose proof (Forall_lookup_1 _ _ _ _ Hps Hi) as Hp. destruct Hm as [g f k s Hg|c k a s]; simpl in Hp.
      + destruct (Hp s Hg). split; [done|]. by apply Forall_insert.
      + split; [done|]. by apply Forall_insert.
    - split; [done|]. apply Forall_app. split; [done|]. constructor; [by apply Hstart|constructor]. }
  destruct (IH H2). split; [by etrans|done].
Qed.
End thread.

Arguments thread _ _ _ _ _ : clear implicits.
Arguments TRet {_ _ _ _ _} r.
Arguments TStep {_ _ _ _ _} g f k.
Arguments TCall {_ _ _ _ _} c k.
