(* ===== verification/RuntimeState.v ===== *)
(** * The state of a workspace runtime

    [RuntimeState], [Freshness] and the files after them model the part of [src/serena_light/workspace/runtime.py] that keeps a
    workspace runtime in step with the disk: [FreshnessCoordinator] (admission
    tickets, whole-root and targeted scans, delivery of watcher batches), the
    installation of a scan with the restarts and retirements of language
    adapters it causes, and the shutdown that settles them.

    The methods run on several threads over the objects they share, so they are
    threads of [Threads]: a [with lock:] block is a critical section, and the
    reentrant [_state_lock], which is held across calls to adapters, is a field of
    the state. The language adapters, their futures, the engine that attributes
    a program and the factory that lists the inventory are calls, answered in any
    way; the observation of a file is the program of [Inventory]. Objects that
    the code compares with [is] carry an identity. The texts of exception
    messages are not modelled. *)

From S2P Require Import Prelude Paths Positions Json Scope Envelopes Executor Editing EditLogic FileSystem Identity PathTree Inventory Threads.

Abbreviation adapter := Z.
Abbreviation future := Z.
Abbreviation object := nat.
Abbreviation ContentIdentity := (option Z * option Z * option Z * option Z * option pystr)%type.

(** ** Errors *)

Inductive RuntimeErrorCode := RC_BUSY | RC_SCOPE_INCOMPATIBLE | RC_NOT_READY | RC_TIMED_OUT | RC_UNSUPPORTED | RC_STOPPED.
#[export] Instance runtime_error_code_eq_dec : EqDecision RuntimeErrorCode.
Proof. solve_decision. Defined.

Record WorkspaceRuntimeError := {
  re_code : RuntimeErrorCode; re_paths : list pystr; re_scope_error : option ScopeError }.
Definition runtime_error (code : RuntimeErrorCode) : WorkspaceRuntimeError :=
  {| re_code := code; re_paths := []; re_scope_error := None |}.
Definition runtime_error_at (code : RuntimeErrorCode) (paths : list pystr) : WorkspaceRuntimeError :=
  {| re_code := code; re_paths := paths; re_scope_error := None |}.

(** [OSError.filename]: a string, bytes, or anything else *)
Inductive os_filename := FnNone | FnStr (s : pystr) | FnBytes (b : list N).

(** Exceptions by the classes the code tells apart *)
Inductive rexn :=
| XRuntime (e : WorkspaceRuntimeError)
| XExecutorBusy
| XTimedOut
| XFile (x : exn)        (** of a file operation, of a constructor, of an envelope *)
| XOSError (filename filename2 : os_filename)   (** an [OSError] that names files *)
| XException             (** another [Exception] *)
| XBaseException.        (** a [BaseException] that is no [Exception] *)
Definition is_exception (x : rexn) : bool := match x with XBaseException => false | _ => true end.

(** ** Constants and pure helpers *)

Definition _FAMILY_EXTENSIONS (f : LanguageFamily) : list pystr :=
  match f with
  | PYTHON => [lit ".py"; lit ".pyi"]
  | TYPESCRIPT => [lit ".js"; lit ".jsx"; lit ".mjs"; lit ".cjs"; lit ".ts"; lit ".tsx"; lit ".mts"; lit ".cts"]
  end.
Definition _NATIVE_CONFIG_WATCH (f : LanguageFamily) : list pystr :=
  match f with
  | PYTHON => [lit "pyrightconfig.json"; lit "pyproject.toml"]
  | TYPESCRIPT => [lit "jsconfig.json"; lit "tsconfig.json"]
  end.
Definition MAX_CONTROLLED_OPENS : nat := 32.
Definition families : list LanguageFamily := [PYTHON; TYPESCRIPT].

Definition _paths_for (paths extensions : list pystr) : list pystr :=
  filter (λ p, lower_ascii (path_suffix p) ∈ extensions) paths.
Definition _family_paths (i : TrustInventory) (f : LanguageFamily) : list pystr := _paths_for (ti_paths i) (_FAMILY_EXTENSIONS f).

Definition _family_of (relative_path : pystr) : option LanguageFamily :=
  let suffix := lower_ascii (path_suffix relative_path) in
  list_find (λ f, suffix ∈ _FAMILY_EXTENSIONS f) families ≫= λ r, Some r.2.

(** The directories above a path, the nearest first, without the root:
    [directory = PurePosixPath(source).parent] and up until it is [.] *)
Fixpoint directories_above (n : nat) (parts : list pystr) : list (list pystr) :=
  match n with
  | O => []
  | S n => let d := up parts in if bool_decide (d = []) then [] else d :: directories_above n d
  end.
Definition source_directories (source : pystr) : list (list pystr) :=
  directories_above (length (path_parts source)) (path_parts source).

Definition _native_config_candidates (i : TrustInventory) (projections : list (LanguageFamily * ScopeProjection)) : list pystr :=
  families ≫= λ f,
    (_family_paths i f ≫= λ source,
       (source_directories source ≫= λ d, (λ name, join_slash (d ++ [name])) <$> _NATIVE_CONFIG_WATCH f) ++ _NATIVE_CONFIG_WATCH f) ++
    match dict_get projections f ≫= pj_selected_config_path with
    | Some p => if nonempty p then [p] else []
    | None => []
    end.

Definition _committed_digest (identity : option ContentIdentity) : option pystr := identity ≫= λ i, i.2.

(** [{s.path: s.content_identity for s in states}] *)
Definition identities (states : list TargetedPathState) : gmap pystr ContentIdentity :=
  foldl (λ m s, <[tp_path s := content_identity s]> m) ∅ states.

(** [item.reason.startswith("symlink")] *)
Definition is_symlink_reason (reason : pystr) : bool := bool_decide (take 7 reason = lit "symlink").

(** ** State *)

Record FreshnessScan := {
  sc_created : list pystr; sc_changed : list pystr; sc_deleted : list pystr; sc_symlinked : list pystr;
  sc_config_changed : list pystr; sc_reattributed : list LanguageFamily; sc_notified : list LanguageFamily;
  sc_opened : list pystr; sc_unopened : list pystr }.
Definition empty_scan : FreshnessScan :=
  {| sc_created := []; sc_changed := []; sc_deleted := []; sc_symlinked := []; sc_config_changed := []; sc_reattributed := [];
     sc_notified := []; sc_opened := []; sc_unopened := [] |}.
Definition scan_dirty (s : FreshnessScan) : bool :=
  nonempty (sc_created s) || nonempty (sc_changed s) || nonempty (sc_deleted s) || nonempty (sc_config_changed s).

Record FamilyAttribution := { fa_projection : option ScopeProjection; fa_error : option WorkspaceRuntimeError }.

Record _PendingAdapterRestart := {
  pr_id : object; pr_family : LanguageFamily; pr_projection : ScopeProjection; pr_tracker : option object;
  pr_trusted_paths : list pystr; pr_stop_adapter : option adapter; pr_stop_future : option future }.
Record _PendingAdapterRetirement := {
  pt_id : object; pt_family : LanguageFamily; pt_stop_adapter : option adapter; pt_stop_future : option future }.
Record _PendingWatchedReconcile := {
  pw_id : object; pw_family : LanguageFamily; pw_adapter : adapter; pw_events : list WatchedFileEvent;
  pw_created : list pystr; pw_future : option future }.

Record _FreshnessAdmission := { ad_scan : FreshnessScan; ad_version : Z; ad_digests : list (pystr * option pystr) }.

(** Byte identities that one read attempt owns: sets of digests per path *)
Record _ReadAttemptWitnesses := { rw_source : list (pystr * list pystr); rw_external : list (purepath * list pystr) }.
Definition owns_source (w : _ReadAttemptWitnesses) : bool := nonempty (rw_source w) || nonempty (rw_external w).

Record Coordinator := {
  fc_next_ticket : Z;
  fc_serving_ticket : Z;
  fc_states : gmap pystr ContentIdentity;
  fc_config_states : gmap pystr ContentIdentity;
  fc_pending_reconciles : list (LanguageFamily * _PendingWatchedReconcile);
  fc_last : FreshnessScan;
  fc_version : Z;
}.

Section state.
Context {T : Type}.   (** seconds *)

Record Runtime := {
  wr_inventory : TrustInventory;
  wr_projections : list (LanguageFamily * ScopeProjection);
  wr_family_errors : list (LanguageFamily * WorkspaceRuntimeError);
  wr_adapters : list (LanguageFamily * adapter);
  wr_trackers : list (LanguageFamily * object);
  wr_tracker_objects : gmap object (Tracker (T:=T));
  wr_pending_restarts : list (LanguageFamily * _PendingAdapterRestart);
  wr_pending_retirements : list (LanguageFamily * _PendingAdapterRetirement);
  wr_shutdown_futures : gmap adapter future;
  wr_versions : gmap pystr Z;
  wr_stopping : bool;
  wr_stopped : bool;
  wr_state_locked : bool;      (** [_state_lock] is held *)
  wr_stop_locked : bool;       (** [_stop_lock] is held *)
  wr_next_object : object;
  wr_witness_objects : gmap object _ReadAttemptWitnesses;
  wr_active_witnesses : option object;   (** of the thread that reads *)
  wr_freshness : Coordinator;
}.

(** ** Updates of one field *)

Definition set_inventory x (s : Runtime) : Runtime := {| wr_inventory := x; wr_projections := wr_projections s;
  wr_family_errors := wr_family_errors s; wr_adapters := wr_adapters s; wr_trackers := wr_trackers s;
  wr_tracker_objects := wr_tracker_objects s; wr_pending_restarts := wr_pending_restarts s;
  wr_pending_retirements := wr_pending_retirements s; wr_shutdown_futures := wr_shutdown_futures s;
  wr_versions := wr_versions s; wr_stopping := wr_stopping s; wr_stopped := wr_stopped s;
  wr_state_locked := wr_state_locked s; wr_stop_locked := wr_stop_locked s; wr_next_object := wr_next_object s;
  wr_witness_objects := wr_witness_objects s; wr_active_witnesses := wr_active_witnesses s; wr_freshness := wr_freshness s |}.
Definition set_projections x (s : Runtime) : Runtime := {| wr_inventory := wr_inventory s; wr_projections := x;
  wr_family_errors := wr_family_errors s; wr_adapters := wr_adapters s; wr_trackers := wr_trackers s;
  wr_tracker_objects := wr_tracker_objects s; wr_pending_restarts := wr_pending_restarts s;
  wr_pending_retirements := wr_pending_retirements s; wr_shutdown_futures := wr_shutdown_futures s;
  wr_versions := wr_versions s; wr_stopping := wr_stopping s; wr_stopped := wr_stopped s;
  wr_state_locked := wr_state_locked s; wr_stop_locked := wr_stop_locked s; wr_next_object := wr_next_object s;
  wr_witness_objects := wr_witness_objects s; wr_active_witnesses := wr_active_witnesses s; wr_freshness := wr_freshness s |}.
Definition set_family_errors x (s : Runtime) : Runtime := {| wr_inventory := wr_inventory s;
  wr_projections := wr_projections s; wr_family_errors := x; wr_adapters := wr_adapters s; wr_trackers := wr_trackers s;
  wr_tracker_objects := wr_tracker_objects s; wr_pending_restarts := wr_pending_restarts s;
  wr_pending_retirements := wr_pending_retirements s; wr_shutdown_futures := wr_shutdown_futures s;
  wr_versions := wr_versions s; wr_stopping := wr_stopping s; wr_stopped := wr_stopped s;
  wr_state_locked := wr_state_locked s; wr_stop_locked := wr_stop_locked s; wr_next_object := wr_next_object s;
  wr_witness_objects := wr_witness_objects s; wr_active_witnesses := wr_active_witnesses s; wr_freshness := wr_freshness s |}.
Definition set_adapters x (s : Runtime) : Runtime := {| wr_inventory := wr_inventory s; wr_projections := wr_projections s;
  wr_family_errors := wr_family_errors s; wr_adapters := x; wr_trackers := wr_trackers s;
  wr_tracker_objects := wr_tracker_objects s; wr_pending_restarts := wr_pending_restarts s;
  wr_pending_retirements := wr_pending_retirements s; wr_shutdown_futures := wr_shutdown_futures s;
  wr_versions := wr_versions s; wr_stopping := wr_stopping s; wr_stopped := wr_stopped s;
  wr_state_locked := wr_state_locked s; wr_stop_locked := wr_stop_locked s; wr_next_object := wr_next_object s;
  wr_witness_objects := wr_witness_objects s; wr_active_witnesses := wr_active_witnesses s; wr_freshness := wr_freshness s |}.
Definition set_trackers x (s : Runtime) : Runtime := {| wr_inventory := wr_inventory s; wr_projections := wr_projections s;
  wr_family_errors := wr_family_errors s; wr_adapters := wr_adapters s; wr_trackers := x;
  wr_tracker_objects := wr_tracker_objects s; wr_pending_restarts := wr_pending_restarts s;
  wr_pending_retirements := wr_pending_retirements s; wr_shutdown_futures := wr_shutdown_futures s;
  wr_versions := wr_versions s; wr_stopping := wr_stopping s; wr_stopped := wr_stopped s;
  wr_state_locked := wr_state_locked s; wr_stop_locked := wr_stop_locked s; wr_next_object := wr_next_object s;
  wr_witness_objects := wr_witness_objects s; wr_active_witnesses := wr_active_witnesses s; wr_freshness := wr_freshness s |}.
Definition set_tracker_objects x (s : Runtime) : Runtime := {| wr_inventory := wr_inventory s;
  wr_projections := wr_projections s; wr_family_errors := wr_family_errors s; wr_adapters := wr_adapters s;
  wr_trackers := wr_trackers s; wr_tracker_objects := x; wr_pending_restarts := wr_pending_restarts s;
  wr_pending_retirements := wr_pending_retirements s; wr_shutdown_futures := wr_shutdown_futures s;
  wr_versions := wr_versions s; wr_stopping := wr_stopping s; wr_stopped := wr_stopped s;
  wr_state_locked := wr_state_locked s; wr_stop_locked := wr_stop_locked s; wr_next_object := wr_next_object s;
  wr_witness_objects := wr_witness_objects s; wr_active_witnesses := wr_active_witnesses s; wr_freshness := wr_freshness s |}.
Definition set_pending_restarts x (s : Runtime) : Runtime := {| wr_inventory := wr_inventory s;
  wr_projections := wr_projections s; wr_family_errors := wr_family_errors s; wr_adapters := wr_adapters s;
  wr_trackers := wr_trackers s; wr_tracker_objects := wr_tracker_objects s; wr_pending_restarts := x;
  wr_pending_retirements := wr_pending_retirements s; wr_shutdown_futures := wr_shutdown_futures s;
  wr_versions := wr_versions s; wr_stopping := wr_stopping s; wr_stopped := wr_stopped s;
  wr_state_locked := wr_state_locked s; wr_stop_locked := wr_stop_locked s; wr_next_object := wr_next_object s;
  wr_witness_objects := wr_witness_objects s; wr_active_witnesses := wr_active_witnesses s; wr_freshness := wr_freshness s |}.
Definition set_pending_retirements x (s : Runtime) : Runtime := {| wr_inventory := wr_inventory s;
  wr_projections := wr_projections s; wr_family_errors := wr_family_errors s; wr_adapters := wr_adapters s;
  wr_trackers := wr_trackers s; wr_tracker_objects := wr_tracker_objects s; wr_pending_restarts := wr_pending_restarts s;
  wr_pending_retirements := x; wr_shutdown_futures := wr_shutdown_futures s; wr_versions := wr_versions s;
  wr_stopping := wr_stopping s; wr_stopped := wr_stopped s; wr_state_locked := wr_state_locked s;
  wr_stop_locked := wr_stop_locked s; wr_next_object := wr_next_object s; wr_witness_objects := wr_witness_objects s;
  wr_active_witnesses := wr_active_witnesses s; wr_freshness := wr_freshness s |}.
Definition set_shutdown_futures x (s : Runtime) : Runtime := {| wr_inventory := wr_inventory s;
  wr_projections := wr_projections s; wr_family_errors := wr_family_errors s; wr_adapters := wr_adapters s;
  wr_trackers := wr_trackers s; wr_tracker_objects := wr_tracker_objects s; wr_pending_restarts := wr_pending_restarts s;
  wr_pending_retirements := wr_pending_retirements s; wr_shutdown_futures := x; wr_versions := wr_versions s;
  wr_stopping := wr_stopping s; wr_stopped := wr_stopped s; wr_state_locked := wr_state_locked s;
  wr_stop_locked := wr_stop_locked s; wr_next_object := wr_next_object s; wr_witness_objects := wr_witness_objects s;
  wr_active_witnesses := wr_active_witnesses s; wr_freshness := wr_freshness s |}.
Definition set_versions x (s : Runtime) : Runtime := {| wr_inventory := wr_inventory s; wr_projections := wr_projections s;
  wr_family_errors := wr_family_errors s; wr_adapters := wr_adapters s; wr_trackers := wr_trackers s;
  wr_tracker_objects := wr_tracker_objects s; wr_pending_restarts := wr_pending_restarts s;
  wr_pending_retirements := wr_pending_retirements s; wr_shutdown_futures := wr_shutdown_futures s; wr_versions := x;
  wr_stopping := wr_stopping s; wr_stopped := wr_stopped s; wr_state_locked := wr_state_locked s;
  wr_stop_locked := wr_stop_locked s; wr_next_object := wr_next_object s; wr_witness_objects := wr_witness_objects s;
  wr_active_witnesses := wr_active_witnesses s; wr_freshness := wr_freshness s |}.
Definition set_stopping x (s : Runtime) : Runtime := {| wr_inventory := wr_inventory s; wr_projections := wr_projections s;
  wr_family_errors := wr_family_errors s; wr_adapters := wr_adapters s; wr_trackers := wr_trackers s;
  wr_tracker_objects := wr_tracker_objects s; wr_pending_restarts := wr_pending_restarts s;
  wr_pending_retirements := wr_pending_retirements s; wr_shutdown_futures := wr_shutdown_futures s;
  wr_versions := wr_versions s; wr_stopping := x; wr_stopped := wr_stopped s; wr_state_locked := wr_state_locked s;
  wr_stop_locked := wr_stop_locked s; wr_next_object := wr_next_object s; wr_witness_objects := wr_witness_objects s;
  wr_active_witnesses := wr_active_witnesses s; wr_freshness := wr_freshness s |}.
Definition set_stopped x (s : Runtime) : Runtime := {| wr_inventory := wr_inventory s; wr_projections := wr_projections s;
  wr_family_errors := wr_family_errors s; wr_adapters := wr_adapters s; wr_trackers := wr_trackers s;
  wr_tracker_objects := wr_tracker_objects s; wr_pending_restarts := wr_pending_restarts s;
  wr_pending_retirements := wr_pending_retirements s; wr_shutdown_futures := wr_shutdown_futures s;
  wr_versions := wr_versions s; wr_stopping := wr_stopping s; wr_stopped := x; wr_state_locked := wr_state_locked s;
  wr_stop_locked := wr_stop_locked s; wr_next_object := wr_next_object s; wr_witness_objects := wr_witness_objects s;
  wr_active_witnesses := wr_active_witnesses s; wr_freshness := wr_freshness s |}.
Definition set_state_locked x (s : Runtime) : Runtime := {| wr_inventory := wr_inventory s;
  wr_projections := wr_projections s; wr_family_errors := wr_family_errors s; wr_adapters := wr_adapters s;
  wr_trackers := wr_trackers s; wr_tracker_objects := wr_tracker_objects s; wr_pending_restarts := wr_pending_restarts s;
  wr_pending_retirements := wr_pending_retirements s; wr_shutdown_futures := wr_shutdown_futures s;
  wr_versions := wr_versions s; wr_stopping := wr_stopping s; wr_stopped := wr_stopped s; wr_state_locked := x;
  wr_stop_locked := wr_stop_locked s; wr_next_object := wr_next_object s; wr_witness_objects := wr_witness_objects s;
  wr_active_witnesses := wr_active_witnesses s; wr_freshness := wr_freshness s |}.
Definition set_stop_locked x (s : Runtime) : Runtime := {| wr_inventory := wr_inventory s; wr_projections := wr_projections s;
  wr_family_errors := wr_family_errors s; wr_adapters := wr_adapters s; wr_trackers := wr_trackers s;
  wr_tracker_objects := wr_tracker_objects s; wr_pending_restarts := wr_pending_restarts s;
  wr_pending_retirements := wr_pending_retirements s; wr_shutdown_futures := wr_shutdown_futures s;
  wr_versions := wr_versions s; wr_stopping := wr_stopping s; wr_stopped := wr_stopped s;
  wr_state_locked := wr_state_locked s; wr_stop_locked := x; wr_next_object := wr_next_object s;
  wr_witness_objects := wr_witness_objects s; wr_active_witnesses := wr_active_witnesses s; wr_freshness := wr_freshness s |}.
Definition set_next_object x (s : Runtime) : Runtime := {| wr_inventory := wr_inventory s; wr_projections := wr_projections s;
  wr_family_errors := wr_family_errors s; wr_adapters := wr_adapters s; wr_trackers := wr_trackers s;
  wr_tracker_objects := wr_tracker_objects s; wr_pending_restarts := wr_pending_restarts s;
  wr_pending_retirements := wr_pending_retirements s; wr_shutdown_futures := wr_shutdown_futures s;
  wr_versions := wr_versions s; wr_stopping := wr_stopping s; wr_stopped := wr_stopped s;
  wr_state_locked := wr_state_locked s; wr_stop_locked := wr_stop_locked s; wr_next_object := x;
  wr_witness_objects := wr_witness_objects s; wr_active_witnesses := wr_active_witnesses s; wr_freshness := wr_freshness s |}.
Definition set_witness_objects x (s : Runtime) : Runtime := {| wr_inventory := wr_inventory s;
  wr_projections := wr_projections s; wr_family_errors := wr_family_errors s; wr_adapters := wr_adapters s;
  wr_trackers := wr_trackers s; wr_tracker_objects := wr_tracker_objects s; wr_pending_restarts := wr_pending_restarts s;
  wr_pending_retirements := wr_pending_retirements s; wr_shutdown_futures := wr_shutdown_futures s;
  wr_versions := wr_versions s; wr_stopping := wr_stopping s; wr_stopped := wr_stopped s;
  wr_state_locked := wr_state_locked s; wr_stop_locked := wr_stop_locked s; wr_next_object := wr_next_object s;
  wr_witness_objects := x; wr_active_witnesses := wr_active_witnesses s; wr_freshness := wr_freshness s |}.
Definition set_active_witnesses x (s : Runtime) : Runtime := {| wr_inventory := wr_inventory s;
  wr_projections := wr_projections s; wr_family_errors := wr_family_errors s; wr_adapters := wr_adapters s;
  wr_trackers := wr_trackers s; wr_tracker_objects := wr_tracker_objects s; wr_pending_restarts := wr_pending_restarts s;
  wr_pending_retirements := wr_pending_retirements s; wr_shutdown_futures := wr_shutdown_futures s;
  wr_versions := wr_versions s; wr_stopping := wr_stopping s; wr_stopped := wr_stopped s;
  wr_state_locked := wr_state_locked s; wr_stop_locked := wr_stop_locked s; wr_next_object := wr_next_object s;
  wr_witness_objects := wr_witness_objects s; wr_active_witnesses := x; wr_freshness := wr_freshness s |}.
Definition set_freshness x (s : Runtime) : Runtime := {| wr_inventory := wr_inventory s; wr_projections := wr_projections s;
  wr_family_errors := wr_family_errors s; wr_adapters := wr_adapters s; wr_trackers := wr_trackers s;
  wr_tracker_objects := wr_tracker_objects s; wr_pending_restarts := wr_pending_restarts s;
  wr_pending_retirements := wr_pending_retirements s; wr_shutdown_futures := wr_shutdown_futures s;
  wr_versions := wr_versions s; wr_stopping := wr_stopping s; wr_stopped := wr_stopped s;
  wr_state_locked := wr_state_locked s; wr_stop_locked := wr_stop_locked s; wr_next_object := wr_next_object s;
  wr_witness_objects := wr_witness_objects s; wr_active_witnesses := wr_active_witnesses s; wr_freshness := x |}.

Definition set_next_ticket x (s : Coordinator) : Coordinator := {| fc_next_ticket := x;
  fc_serving_ticket := fc_serving_ticket s; fc_states := fc_states s; fc_config_states := fc_config_states s;
  fc_pending_reconciles := fc_pending_reconciles s; fc_last := fc_last s; fc_version := fc_version s |}.
Definition set_serving_ticket x (s : Coordinator) : Coordinator := {| fc_next_ticket := fc_next_ticket s;
  fc_serving_ticket := x; fc_states := fc_states s; fc_config_states := fc_config_states s;
  fc_pending_reconciles := fc_pending_reconciles s; fc_last := fc_last s; fc_version := fc_version s |}.
Definition set_states x (s : Coordinator) : Coordinator := {| fc_next_ticket := fc_next_ticket s;
  fc_serving_ticket := fc_serving_ticket s; fc_states := x; fc_config_states := fc_config_states s;
  fc_pending_reconciles := fc_pending_reconciles s; fc_last := fc_last s; fc_version := fc_version s |}.
Definition set_config_states x (s : Coordinator) : Coordinator := {| fc_next_ticket := fc_next_ticket s;
  fc_serving_ticket := fc_serving_ticket s; fc_states := fc_states s; fc_config_states := x;
  fc_pending_reconciles := fc_pending_reconciles s; fc_last := fc_last s; fc_version := fc_version s |}.
Definition set_pending_reconciles x (s : Coordinator) : Coordinator := {| fc_next_ticket := fc_next_ticket s;
  fc_serving_ticket := fc_serving_ticket s; fc_states := fc_states s; fc_config_states := fc_config_states s;
  fc_pending_reconciles := x; fc_last := fc_last s; fc_version := fc_version s |}.
Definition set_last x (s : Coordinator) : Coordinator := {| fc_next_ticket := fc_next_ticket s;
  fc_serving_ticket := fc_serving_ticket s; fc_states := fc_states s; fc_config_states := fc_config_states s;
  fc_pending_reconciles := fc_pending_reconciles s; fc_last := x; fc_version := fc_version s |}.
Definition set_version x (s : Coordinator) : Coordinator := {| fc_next_ticket := fc_next_ticket s;
  fc_serving_ticket := fc_serving_ticket s; fc_states := fc_states s; fc_config_states := fc_config_states s;
  fc_pending_reconciles := fc_pending_reconciles s; fc_last := fc_last s; fc_version := x |}.

Definition on_freshness (f : Coordinator → Coordinator) (s : Runtime) : Runtime := set_freshness (f (wr_freshness s)) s.
End state.

Arguments Runtime : clear implicits.
