(* ===== verification/Freshness.v ===== *)
(** * Freshness scans and what they install

    Model of [FreshnessCoordinator] and of the methods of [WorkspaceRuntime] it
    drives, in [src/serena_light/workspace/runtime.py]; see [RuntimeState]. *)

From S2P Require Import Prelude Paths Positions Json Scope Envelopes Executor Editing EditLogic FileSystem Identity PathTree Inventory Threads RuntimeState.

(** ** Calls *)

Inductive rcall :=
| ROs (c : call)
| RInventory                                             (** [self._inventory_factory(self.identity)] *)
| RAttribute (f : LanguageFamily) (paths : list pystr)   (** the attributor of the family *)
| RBuild (f : LanguageFamily) (pj : ScopeProjection) (paths : list pystr) (tracker : object)   (** its adapter factory *)
| RRunning (a : adapter)                                 (** [adapter.snapshot().running] *)
| RReconcile (a : adapter) (events : list WatchedFileEvent) (created : list pystr) (versions : list (pystr * Z))
| RStop (a : adapter)
| RDone (f : future)
| RCancelled (f : future)
| RException (f : future)                                (** [f.exception() is not None] *)
| RResult (f : future)                                   (** [f.result(...)], with or without a timeout *)
| RCloseTransactions
| RCloseExecutor.

Definition ranswer (c : rcall) : Type :=
  match c with
  | ROs c => answer c
  | RInventory => res rexn TrustInventory
  | RAttribute _ _ => res rexn ScopeProjection
  | RBuild _ _ _ _ => res rexn adapter
  | RRunning _ => res rexn bool
  | RReconcile _ _ _ _ | RStop _ => res rexn future
  | RDone _ | RCancelled _ | RException _ => bool
  | RResult _ | RCloseTransactions | RCloseExecutor => res rexn unit
  end.

Section freshness.
Context {T : Type} `{!PyOrd T} (t_zero default_max_wait default_retry_after : T).   (** seconds *)
Context (sha256_hex : list N → pystr) (read_fuel : nat).
Context (identity : WorkspaceIdentity).
Context (family_order : list LanguageFamily).   (** the order in which a set of families iterates *)

Abbreviation scope_tracker := (Tracker (T:=T)).
Abbreviation rthread := (thread (Runtime T) rcall rexn ranswer).

Definition any (_ : Runtime T) : bool := true.
Definition free (s : Runtime T) : bool := negb (wr_state_locked s).

(** [with self._state_lock:] around calls *)
Definition with_state_lock {A} (p : rthread A) : rthread A :=
  TStep free (set_state_locked true) (λ _, tfinally p (tatom any (λ s, (set_state_locked false s, tt)))).

Fixpoint lift_os {A} (p : prog A) : rthread A :=
  match p with
  | Done (Ok a) => TRet (Ok a)
  | Done (Err x) => TRet (Err (XFile x))
  | Vis c k => TCall (ROs c) (λ a, lift_os (k a))
  end.
Definition lift_scope {A} (r : res scope_exn A) : rthread A :=
  match r with Ok a => TRet (Ok a) | Err _ => TRet (Err (XFile XValue)) end.

Definition rt_fail {A} (code : RuntimeErrorCode) : rthread A := traise (XRuntime (runtime_error code)).
Definition adapter_stop (a : adapter) : rthread future := TCall (RStop a) TRet.
Definition result (f : future) : rthread unit := TCall (RResult f) TRet.

(** ** Adapters *)

Definition _stop_future_needs_retry (f : future) : rthread bool :=
  done ← tcall (RDone f);
  if (done : bool) then
    cancelled ← tcall (RCancelled f);
    if (cancelled : bool) then mret true else tcall (RException f)
  else mret false.

(** [ScopeGenerationTracker(projection)] *)
Definition new_tracker (pj : ScopeProjection) : rthread object :=
  t ← lift_scope (tracker_init t_zero pj default_max_wait default_retry_after);
  tatom any (λ s, (set_next_object (S (wr_next_object s)) (set_tracker_objects (<[wr_next_object s := t]> (wr_tracker_objects s)) s),
                   wr_next_object s)).

Definition _build_adapter (f : LanguageFamily) (pj : ScopeProjection) (trusted_paths : list pystr) (tracker : option object)
    : rthread (adapter * object) :=
  tracker ← match tracker with Some o => mret o | None => new_tracker pj end;
  a ← TCall (RBuild f pj trusted_paths tracker) TRet;
  mret (a, tracker).

Definition set_family_error (f : LanguageFamily) (e : WorkspaceRuntimeError) (s : Runtime T) : Runtime T :=
  set_family_errors (dict_set (wr_family_errors s) f e) s.

(** A stop of an old adapter that is still owed: [None] if the future there is
    can be awaited, or if there is no adapter; otherwise a new attempt *)
Definition stop_again (stop_future : option future) (stop_adapter : option adapter) : rthread (option (res rexn future)) :=
  usable ← match stop_future with
           | Some f => retry ← _stop_future_needs_retry f; mret (negb retry)
           | None => mret false
           end;
  match (if (usable : bool) then None else stop_adapter) with
  | None => mret None
  | Some a => ttry (adapter_stop a) (λ r, mret (Some r))
  end.

Definition _start_pending_retirement (pending : _PendingAdapterRetirement)
    : rthread (option _PendingAdapterRetirement * option WorkspaceRuntimeError) :=
  with_state_lock
    (current ← tread any (λ s, dict_get (wr_pending_retirements s) (pt_family pending));
     match current with
     | None => mret (None, None)
     | Some current =>
         if negb (bool_decide (pt_id current = pt_id pending)) then mret (Some current, None)
         else
           again ← stop_again (pt_stop_future pending) (pt_stop_adapter pending);
           match again with
           | None => mret (Some pending, None)
           | Some (Err x) => if is_exception x then mret (Some pending, Some (runtime_error RC_UNSUPPORTED)) else traise x
           | Some (Ok stop_future) =>
               tatom any (λ s,
                 let replacement := {| pt_id := wr_next_object s; pt_family := pt_family pending;
                                       pt_stop_adapter := pt_stop_adapter pending; pt_stop_future := Some stop_future |} in
                 (set_next_object (S (wr_next_object s))
                    (set_pending_retirements (dict_set (wr_pending_retirements s) (pt_family pending) replacement) s),
                  (Some replacement, None)))
           end
     end).

(** [if self._pending_retirements.get(family) is current: pop] *)
Definition drop_retirement (current : _PendingAdapterRetirement) (s : Runtime T) : Runtime T :=
  match dict_get (wr_pending_retirements s) (pt_family current) with
  | Some c => if bool_decide (pt_id c = pt_id current)
              then set_pending_retirements (dict_del (wr_pending_retirements s) (pt_family current)) s else s
  | None => s
  end.

Definition _settle_pending_retirement (pending : _PendingAdapterRetirement) : rthread (option rexn) :=
  started ← _start_pending_retirement pending;
  match started with
  | (_, Some failure) => mret (Some (XRuntime failure))
  | (None, None) => mret None
  | (Some current, None) =>
      match pt_stop_future current with
      | None => mret (Some (XRuntime (runtime_error RC_UNSUPPORTED)))
      | Some f =>
          ttry (result f) (λ r,
            match r with
            | Err x => mret (Some x)
            | Ok _ => tatom free (λ s, (drop_retirement current s, None))
            end)
      end
  end.

Definition _start_pending_stop (pending : _PendingAdapterRestart)
    : rthread (option _PendingAdapterRestart * option WorkspaceRuntimeError) :=
  with_state_lock
    (current ← tread any (λ s, dict_get (wr_pending_restarts s) (pr_family pending));
     match current with
     | None => mret (None, None)
     | Some current =>
         if negb (bool_decide (pr_id current = pr_id pending)) then mret (Some current, None)
         else
           again ← stop_again (pr_stop_future pending) (pr_stop_adapter pending);
           match again with
           | None => mret (Some pending, None)
           | Some (Err x) =>
               if is_exception x then
                 let failure := runtime_error RC_UNSUPPORTED in
                 tatom any (λ s, (set_family_error (pr_family pending) failure s, (Some pending, Some failure)))
               else traise x
           | Some (Ok stop_future) =>
               tatom any (λ s,
                 let replacement :=
                   {| pr_id := wr_next_object s; pr_family := pr_family pending; pr_projection := pr_projection pending;
                      pr_tracker := pr_tracker pending; pr_trusted_paths := pr_trusted_paths pending;
                      pr_stop_adapter := pr_stop_adapter pending; pr_stop_future := Some stop_future |} in
                 (set_next_object (S (wr_next_object s))
                    (set_pending_restarts (dict_set (wr_pending_restarts s) (pr_family pending) replacement) s),
                  (Some replacement, None)))
           end
     end).

(** The two checks before a replacement is built *)
Definition restart_may_complete (pending : _PendingAdapterRestart) (s : Runtime T) : bool :=
  match dict_get (wr_pending_restarts s) (pr_family pending) with
  | Some c => bool_decide (pr_id c = pr_id pending) && negb (wr_stopping s || wr_stopped s)
  | None => false
  end.

(** The publication of a built replacement *)
Definition publish_restart (f : LanguageFamily) (a : adapter) (tracker : object) (s : Runtime T) : Runtime T :=
  set_pending_restarts (dict_del (wr_pending_restarts s) f)
    (set_family_errors (dict_del (wr_family_errors s) f)
       (set_adapters (dict_set (wr_adapters s) f a) (set_trackers (dict_set (wr_trackers s) f tracker) s))).

Definition _complete_pending_restart (pending : _PendingAdapterRestart) : rthread (option WorkspaceRuntimeError) :=
  with_state_lock
    (go ← tread any (restart_may_complete pending);
     if negb go then mret None
     else
       ttry (_build_adapter (pr_family pending) (pr_projection pending) (pr_trusted_paths pending) (pr_tracker pending)) (λ r,
         match r with
         | Err x =>
             if is_exception x then
               let failure := runtime_error RC_SCOPE_INCOMPATIBLE in
               tatom any (λ s, (set_family_error (pr_family pending) failure s, Some failure))
             else traise x
         | Ok (a, tracker) => tatom any (λ s, (publish_restart (pr_family pending) a tracker s, None))
         end)).

(** [stop_future.result(...)] of a pending restart: the failure to report *)
Definition await_pending_stop (family : LanguageFamily) (stop_future : future) : rthread (option rexn) :=
  ttry (result stop_future) (λ r,
    match r with
    | Ok _ => mret None
    | Err XTimedOut => tatom free (λ s, (set_family_error family (runtime_error RC_TIMED_OUT) s, Some XTimedOut))
    | Err x =>
        if is_exception x then
          let failure := runtime_error RC_UNSUPPORTED in
          tatom free (λ s, (set_family_error family failure s, Some (XRuntime failure)))
        else traise x
    end).

Definition collect {A} (failures : list A) (failure : option A) : list A :=
  match failure with Some x => failures ++ [x] | None => failures end.

Definition raise_first (failures : list rexn) : rthread unit := match failures with [] => mret tt | x :: _ => traise x end.

(** One turn of the second loop of [retry_pending_restarts] *)
Definition retry_restart (failures : list rexn) (pending : _PendingAdapterRestart) : rthread (list rexn) :=
  started ← _start_pending_stop pending;
  match started with
  | (_, Some failure) => mret (failures ++ [XRuntime failure])
  | (None, None) => mret failures
  | (Some pending, None) =>
      stopped ← match pr_stop_future pending with
                | Some f => await_pending_stop (pr_family pending) f
                | None => mret None
                end;
      match stopped with
      | Some x => mret (failures ++ [x])
      | None => failure ← _complete_pending_restart pending; mret (collect failures (XRuntime <$> failure))
      end
  end.

Definition retire_one (failures : list rexn) (retirement : _PendingAdapterRetirement) : rthread (list rexn) :=
  failure ← _settle_pending_retirement retirement; mret (collect failures failure).

Definition retry_pending_restarts : rthread unit :=
  pending ← tread free (λ s, ((wr_pending_retirements s).*2, (wr_pending_restarts s).*2));
  failures ← tfold retire_one [] pending.1;
  failures ← tfold retry_restart failures pending.2;
  raise_first failures.

(** ** Inventory and attribution *)

Definition _require_running : rthread unit :=
  tatom_res free (λ s, (s, if wr_stopping s || wr_stopped s then Err (XRuntime (runtime_error RC_STOPPED)) else Ok tt)).

Definition rebuild_inventory : rthread TrustInventory :=
  rebuilt ← (TCall RInventory TRet : rthread TrustInventory);
  resolved ← lift_os (Vis (CRealpath (path_str (ti_root rebuilt))) Done);
  if bool_decide (Path resolved = wi_root identity) then mret rebuilt else traise (XFile XValue).

(** The attributor is fixed per family; the cache of attributors is not modelled. *)
Definition _attribute (f : LanguageFamily) (paths : list pystr) : rthread ScopeProjection :=
  ttry (TCall (RAttribute f paths) TRet : rthread ScopeProjection) (λ r,
    match r with
    | Err x => if is_exception x then rt_fail RC_SCOPE_INCOMPATIBLE else traise x
    | Ok pj => if bool_decide (pj_language pj = f) then mret pj else rt_fail RC_SCOPE_INCOMPATIBLE
    end).

Definition _projection_error (pj : ScopeProjection) : WorkspaceRuntimeError :=
  {| re_code := RC_SCOPE_INCOMPATIBLE; re_paths := sd_path <$> pj_configured_program_outside_trust pj; re_scope_error := pj_error pj |}.

Definition attribute_family (i : TrustInventory) (rebuilt : list (LanguageFamily * FamilyAttribution)) (f : LanguageFamily)
    : rthread (list (LanguageFamily * FamilyAttribution)) :=
  let paths := _family_paths i f in
  if negb (nonempty paths) then
    mret (dict_set rebuilt f {| fa_projection := None; fa_error := Some (runtime_error RC_SCOPE_INCOMPATIBLE) |})
  else
    ttry (_attribute f paths) (λ r,
      match r with
      | Err (XRuntime e) => mret (dict_set rebuilt f {| fa_projection := None; fa_error := Some e |})
      | Err x => traise x
      | Ok pj => mret (dict_set rebuilt f {| fa_projection := Some pj;
                                             fa_error := if pj_compatible pj then None else Some (_projection_error pj) |})
      end).

Definition build_projections (i : TrustInventory) (fs : list LanguageFamily) : rthread (list (LanguageFamily * FamilyAttribution)) :=
  tfold (attribute_family i) [] fs.

(** [PurePosixPath(path).name in _NATIVE_CONFIG_WATCH[family]] *)
Definition watches_config (f : LanguageFamily) (path : pystr) : bool := bool_decide (path_name path ∈ _NATIVE_CONFIG_WATCH f).

(** A [frozenset] of families, iterated *)
Definition _affected_families (membership_paths config_paths : list pystr) : list LanguageFamily :=
  filter (λ f, Some f ∈ (_family_of <$> membership_paths) ∨ existsb (watches_config f) config_paths = true) family_order.

(** ** Installation of a scan *)

Definition on_tracker (o : object) (f : scope_tracker → scope_tracker) (s : Runtime T) : Runtime T :=
  set_tracker_objects (alter f o (wr_tracker_objects s)) s.

(** [tracker.update_projection(projection)], and the watcher events of the
    configuration when that did not advance the program generation *)
Definition retarget (pj : ScopeProjection) (events : option (list WatchedFileEvent)) (t : scope_tracker) : scope_tracker * res scope_exn unit :=
  match update_projection pj t with
  | (t1, Err e) => (t1, Err e)
  | (t1, Ok _) =>
      match events with
      | Some events =>
          if bool_decide (gs_configured_program (tracker_snapshot t1) = gs_configured_program (tracker_snapshot t))
          then ((apply_did_change_watched_files events t1).1, Ok tt) else (t1, Ok tt)
      | None => (t1, Ok tt)
      end
  end.

Definition retarget_tracker (o : option object) (pj : ScopeProjection) (events : option (list WatchedFileEvent)) (s : Runtime T)
    : Runtime T * res rexn unit :=
  match o ≫= λ o, t ← wr_tracker_objects s !! o; Some (o, t) with
  | None => (s, Ok tt)
  | Some (o, t) =>
      let '(t', r) := retarget pj events t in
      (set_tracker_objects (<[o := t']> (wr_tracker_objects s)) s, match r with Ok _ => Ok tt | Err _ => Err (XFile XValue) end)
  end.

(** What one turn of the loop over the attributions leaves to do *)
Inductive install_action :=
| ANothing
| ARetire (r : _PendingAdapterRetirement)
| ARestart (p : _PendingAdapterRestart)
| ABuild (pj : ScopeProjection).

Definition install_error (f : LanguageFamily) (e : WorkspaceRuntimeError) (s : Runtime T) : Runtime T * install_action :=
  let s := set_family_error f e s in
  let popped := dict_get (wr_adapters s) f in
  let s := set_trackers (dict_del (wr_trackers s) f) (set_adapters (dict_del (wr_adapters s) f) s) in
  match popped with
  | None => (s, ANothing)
  | Some a =>
      let retirement := {| pt_id := wr_next_object s; pt_family := f; pt_stop_adapter := Some a; pt_stop_future := None |} in
      (set_next_object (S (wr_next_object s))
         (set_pending_retirements (dict_set (wr_pending_retirements s) f retirement) s), ARetire retirement)
  end.

Definition install_restart (f : LanguageFamily) (pj : ScopeProjection) (trusted_paths : list pystr) (events : list WatchedFileEvent)
    (s : Runtime T) : Runtime T * res rexn install_action :=
  let tracker := dict_get (wr_trackers s) f in
  match retarget_tracker tracker pj (Some events) s with
  | (s, Err x) => (s, Err x)
  | (s, Ok _) =>
      let popped := dict_get (wr_adapters s) f in
      let s := set_adapters (dict_del (wr_adapters s) f) s in
      let pending := {| pr_id := wr_next_object s; pr_family := f; pr_projection := pj; pr_tracker := tracker;
                        pr_trusted_paths := trusted_paths; pr_stop_adapter := popped; pr_stop_future := None |} in
      (set_family_error f (runtime_error RC_NOT_READY)
         (set_next_object (S (wr_next_object s)) (set_pending_restarts (dict_set (wr_pending_restarts s) f pending) s)),
       Ok (ARestart pending))
  end.

(** One turn, up to the construction of an adapter. The attribution of a family
    has a projection or an error; the assertion that says so is the last case. *)
Definition install_family (i : TrustInventory) (restart : list LanguageFamily) (events : LanguageFamily → list WatchedFileEvent)
    (f : LanguageFamily) (attribution : FamilyAttribution) (s : Runtime T) : Runtime T * res rexn install_action :=
  let s := match fa_projection attribution with
           | Some pj => set_projections (dict_set (wr_projections s) f pj) s
           | None => s
           end in
  match fa_error attribution, fa_projection attribution with
  | Some e, _ => let '(s, action) := install_error f e s in (s, Ok action)
  | None, Some pj =>
      let s := set_family_errors (dict_del (wr_family_errors s) f) s in
      if bool_decide (f ∈ restart) then install_restart f pj (_family_paths i f) (events f) s
      else match dict_get (wr_trackers s) f with
           | Some o => let '(s, r) := retarget_tracker (Some o) pj None s in
                       (s, match r with Ok _ => Ok ANothing | Err x => Err x end)
           | None => (s, Ok (ABuild pj))
           end
  | None, None => (s, Err XException)
  end.

(** Retirements, restarts without and with an old adapter, in order *)
Abbreviation install_work := (list _PendingAdapterRetirement * list _PendingAdapterRestart * list _PendingAdapterRestart)%type.

Definition install_turn (i : TrustInventory) (restart : list LanguageFamily) (events : LanguageFamily → list WatchedFileEvent)
    (work : install_work) (item : LanguageFamily * FamilyAttribution) : rthread install_work :=
  let '(retirements, without, with_adapter) := work in
  let '(f, attribution) := item in
  action ← tatom_res any (install_family i restart events f attribution);
  match action with
  | ANothing => mret work
  | ARetire r => mret (retirements ++ [r], without, with_adapter)
  | ARestart p =>
      mret (match pr_stop_adapter p with
            | None => (retirements, without ++ [p], with_adapter)
            | Some _ => (retirements, without, with_adapter ++ [p])
            end)
  | ABuild pj =>
      ttry (_build_adapter f pj (_family_paths i f) None) (λ r,
        match r with
        | Err x => if is_exception x
                   then tatom any (λ s, (set_family_error f (runtime_error RC_SCOPE_INCOMPATIBLE) s, work)) else traise x
        | Ok (a, tracker) =>
            tatom any (λ s, (set_adapters (dict_set (wr_adapters s) f a) (set_trackers (dict_set (wr_trackers s) f tracker) s), work))
        end)
  end.

Definition restart_without (failures : list rexn) (pending : _PendingAdapterRestart) : rthread (list rexn) :=
  failure ← _complete_pending_restart pending; mret (collect failures (XRuntime <$> failure)).

Definition restart_with (failures : list rexn) (pending : _PendingAdapterRestart) : rthread (list rexn) :=
  started ← _start_pending_stop pending;
  match started with
  | (_, Some failure) => mret (failures ++ [XRuntime failure])
  | (Some pending, None) =>
      match pr_stop_future pending with
      | Some f =>
          stopped ← await_pending_stop (pr_family pending) f;
          match stopped with
          | Some x => mret (failures ++ [x])
          | None => failure ← _complete_pending_restart pending; mret (collect failures (XRuntime <$> failure))
          end
      | None => traise XException
      end
  | (None, None) => traise XException
  end.

(** [WatchedFileEvent(path, kind, may_change_program)] for each path *)
Definition watched_events (kind : FileChangeType) (may_change_program : bool) (paths : list pystr) : rthread (list WatchedFileEvent) :=
  lift_scope (map_res (λ p, watched_event_init p kind may_change_program) paths).

Definition install_freshness (i : TrustInventory) (attributions : list (LanguageFamily * FamilyAttribution))
    (restart_families : list LanguageFamily) (config_paths : list pystr) : rthread unit :=
  _ ← retry_pending_restarts;
  config_events ← tfold (λ acc f,
      events ← watched_events CHANGED true (filter (λ p, watches_config f p = true) config_paths);
      mret (dict_set acc f events)) [] restart_families;
  work ← with_state_lock
    (_ ← tatom_res any (λ s, if wr_stopping s || wr_stopped s then (s, Err (XRuntime (runtime_error RC_STOPPED)))
                             else (set_inventory i s, Ok tt));
     tfold (install_turn i restart_families (λ f, default [] (dict_get config_events f))) ([], [], []) attributions);
  let '(retirements, without, with_adapter) := work in
  failures ← tfold retire_one [] retirements;
  failures ← tfold restart_without failures without;
  failures ← tfold restart_with failures with_adapter;
  raise_first failures.

(** ** Delivery of watcher batches *)

(** The document versions that the changed files of a batch get *)
Fixpoint bump_versions (events : list WatchedFileEvent) (versions : gmap pystr Z) (changed : list (pystr * Z))
    : gmap pystr Z * list (pystr * Z) :=
  match events with
  | [] => (versions, changed)
  | ev :: events =>
      match we_change_type ev with
      | CHANGED =>
          let version := default 0 (versions !! we_path ev) + 1 in
          bump_versions events (<[we_path ev := version]> versions) (dict_set changed (we_path ev) version)
      | _ => bump_versions events versions changed
      end
  end.

(** Through [reconcile_watched_files], which every adapter of the program has *)
Definition notify_watched_files (a : adapter) (events : list WatchedFileEvent) (created : list pystr) : rthread future :=
  changed_versions ← tatom free (λ s, let '(versions, changed) := bump_versions events (wr_versions s) [] in
                                      (set_versions versions s, changed));
  (TCall (RReconcile a events created changed_versions) TRet : rthread future).

Definition reconciles (s : Runtime T) : list (LanguageFamily * _PendingWatchedReconcile) := fc_pending_reconciles (wr_freshness s).
Definition set_reconciles (d : list (LanguageFamily * _PendingWatchedReconcile)) (s : Runtime T) : Runtime T :=
  on_freshness (set_pending_reconciles d) s.

(** [self._pending_reconciles.get(family) is pending] *)
Definition still_pending (pending : _PendingWatchedReconcile) (s : Runtime T) : option _PendingWatchedReconcile :=
  current ← dict_get (reconciles s) (pw_family pending);
  if bool_decide (pw_id current = pw_id pending) then Some current else None.

Definition with_future (f : option future) (p : _PendingWatchedReconcile) : _PendingWatchedReconcile :=
  {| pw_id := pw_id p; pw_family := pw_family p; pw_adapter := pw_adapter p; pw_events := pw_events p; pw_created := pw_created p;
     pw_future := f |}.

(** [if current is pending and pending.future is future: pending.future = None] *)
Definition forget_future (pending : _PendingWatchedReconcile) (f : future) (s : Runtime T) : Runtime T :=
  match still_pending pending s with
  | Some current => if bool_decide (pw_future current = Some f)
                    then set_reconciles (dict_set (reconciles s) (pw_family pending) (with_future None current)) s else s
  | None => s
  end.

(** [if current is pending: pending.future = submitted]; the flag tells whether it is *)
Definition record_future (pending : _PendingWatchedReconcile) (f : future) (s : Runtime T) : Runtime T * bool :=
  match still_pending pending s with
  | Some current => (set_reconciles (dict_set (reconciles s) (pw_family pending) (with_future (Some f) current)) s, true)
  | None => (s, false)
  end.

Definition pop_reconcile (pending : _PendingWatchedReconcile) (s : Runtime T) : Runtime T :=
  match still_pending pending s with
  | Some _ => set_reconciles (dict_del (reconciles s) (pw_family pending)) s
  | None => s
  end.

(** [future.result(...)] of an owned batch; a timeout of a future that was not
    done keeps the batch with its future *)
Definition await_reconcile (pending : _PendingWatchedReconcile) (f : future) (timed : bool) : rthread unit :=
  ttry (result f) (λ r,
    match r with
    | Ok _ => tatom any (λ s, (pop_reconcile pending s, tt))
    | Err x =>
        if timed && match x with XTimedOut => true | _ => false end then rt_fail RC_BUSY
        else if is_exception x then _ ← tatom any (λ s, (forget_future pending f s, tt)); rt_fail RC_NOT_READY
        else traise x
    end).

Definition _settle_pending_reconcile (family : LanguageFamily) : rthread unit :=
  pending ← tread any (λ s, dict_get (reconciles s) family);
  match pending with
  | None => mret tt
  | Some pending =>
      match pw_future pending with
      | Some f => done ← tcall (RDone f); await_reconcile pending f (negb done)
      | None =>
          ttry (notify_watched_files (pw_adapter pending) (pw_events pending) (pw_created pending)) (λ r,
            match r with
            | Err XExecutorBusy => rt_fail RC_BUSY
            | Err x => if is_exception x then rt_fail RC_NOT_READY else traise x
            | Ok submitted =>
                recorded ← tatom any (record_future pending submitted);
                if (recorded : bool) then await_reconcile pending submitted true else mret tt
            end)
      end
  end.

Definition settle_one (failures : list rexn) (family : LanguageFamily) : rthread (list rexn) :=
  ttry (_settle_pending_reconcile family) (λ r,
    match r with
    | Ok _ => mret failures
    | Err (XRuntime e) => mret (failures ++ [XRuntime e])
    | Err x => traise x
    end).

Definition _settle_pending_reconciles (selected : option (list LanguageFamily)) : rthread unit :=
  selected ← tread any (λ s, default ((reconciles s).*1) selected);
  failures ← tfold settle_one [] selected;
  raise_first failures.

(** ** Events of a scan *)

Definition family_events (f : LanguageFamily) (events : list WatchedFileEvent) : list WatchedFileEvent :=
  filter (λ ev, _family_of (we_path ev) = Some f) events.
Definition family_created (f : LanguageFamily) (created : list pystr) : list pystr := filter (λ p, _family_of p = Some f) created.

(** Phase one: only generations *)
Definition advance_tracker (events : list WatchedFileEvent) (affected : list LanguageFamily) (item : LanguageFamily * object)
    : rthread (list LanguageFamily) :=
  let '(f, o) := item in
  if nonempty (family_events f events)
  then tatom any (λ s, (on_tracker o (λ t, (apply_did_change_watched_files (family_events f events) t).1) s, affected ++ [f]))
  else mret affected.

(** A batch for each affected family that can take one *)
Definition prepare_delivery (events : list WatchedFileEvent) (created : list pystr) (forced : list LanguageFamily)
    (acc : list _PendingWatchedReconcile * list pystr) (f : LanguageFamily) : rthread (list _PendingWatchedReconcile * list pystr) :=
  let '(deliveries, unopened) := acc in
  a ← tread any (λ s, dict_get (wr_adapters s) f);
  let skip : rthread (list _PendingWatchedReconcile * list pystr) := mret (deliveries, unopened ++ family_created f created) in
  match a with
  | None => skip
  | Some a =>
      running ← (TCall (RRunning a) TRet : rthread bool);
      if negb running && negb (bool_decide (f ∈ forced)) then skip
      else
        pending ← tatom any (λ s,
          (set_next_object (S (wr_next_object s)) s,
           {| pw_id := wr_next_object s; pw_family := f; pw_adapter := a; pw_events := family_events f events;
              pw_created := take MAX_CONTROLLED_OPENS (family_created f created); pw_future := None |}));
        mret (deliveries ++ [pending], unopened)
  end.

(** The batches become owned, one after the other *)
Fixpoint own_deliveries (deliveries : list _PendingWatchedReconcile) (s : Runtime T) : Runtime T * res rexn unit :=
  match deliveries with
  | [] => (s, Ok tt)
  | p :: deliveries =>
      if dict_has (reconciles s) (pw_family p) then (s, Err (XRuntime (runtime_error RC_NOT_READY)))
      else own_deliveries deliveries (set_reconciles (dict_set (reconciles s) (pw_family p) p) s)
  end.

Record delivery_report := {
  dr_notified : list LanguageFamily; dr_opened : list pystr; dr_unopened : list pystr;
  dr_failures : list (LanguageFamily * WorkspaceRuntimeError) }.

Definition delivered (created : list pystr) (p : _PendingWatchedReconcile) (d : delivery_report) : delivery_report :=
  {| dr_notified := dr_notified d ++ [pw_family p]; dr_opened := dr_opened d ++ pw_created p;
     dr_unopened := dr_unopened d ++ drop MAX_CONTROLLED_OPENS (family_created (pw_family p) created);
     dr_failures := dr_failures d |}.
Definition undelivered (created : list pystr) (p : _PendingWatchedReconcile) (e : WorkspaceRuntimeError) (d : delivery_report) : delivery_report :=
  {| dr_notified := dr_notified d; dr_opened := dr_opened d;
     dr_unopened := dr_unopened d ++ family_created (pw_family p) created;
     dr_failures := dict_set (dr_failures d) (pw_family p) e |}.

(** Phase two: submit every batch before waiting for any *)
Definition submit_delivery (created : list pystr) (wait_for_delivery : bool) (d : delivery_report) (p : _PendingWatchedReconcile)
    : rthread delivery_report :=
  ttry (notify_watched_files (pw_adapter p) (pw_events p) (pw_created p)) (λ r,
    match r with
    | Err XExecutorBusy => mret (undelivered created p (runtime_error RC_BUSY) d)
    | Err x => if is_exception x then mret (undelivered created p (runtime_error RC_NOT_READY) d) else traise x
    | Ok f =>
        _ ← tatom any (record_future p f);
        mret (if wait_for_delivery then d else delivered created p d)
    end).

Definition settle_delivery (created : list pystr) (d : delivery_report) (p : _PendingWatchedReconcile) : rthread delivery_report :=
  if dict_has (dr_failures d) (pw_family p) then mret d
  else ttry (_settle_pending_reconciles (Some [pw_family p])) (λ r,
         match r with
         | Ok _ => mret (delivered created p d)
         | Err (XRuntime e) => mret (undelivered created p e d)
         | Err x => traise x
         end).

Definition _apply_events (events : list WatchedFileEvent) (created : list pystr) (force_notify : list LanguageFamily)
    (wait_for_delivery : bool) : rthread (list LanguageFamily * list pystr * list pystr) :=
  trackers ← tread any wr_trackers;
  affected ← tfold (advance_tracker events) [] trackers;
  prepared ← tfold (prepare_delivery events created force_notify) ([], []) affected;
  let '(deliveries, unopened) := prepared in
  _ ← tatom_res any (own_deliveries deliveries);
  d ← tfold (submit_delivery created wait_for_delivery)
        {| dr_notified := []; dr_opened := []; dr_unopened := unopened; dr_failures := [] |} deliveries;
  d ← (if wait_for_delivery then tfold (settle_delivery created) d deliveries else mret d);
  match omap (λ p, dict_get (dr_failures d) (pw_family p)) deliveries with
  | failure :: _ => if wait_for_delivery then traise (XRuntime failure)
                    else mret (dr_notified d, py_sorted id (dr_opened d), py_sorted id (dr_unopened d))
  | [] => mret (dr_notified d, py_sorted id (dr_opened d), py_sorted id (dr_unopened d))
  end.

(** ** Scans *)

Definition observe_states (i : TrustInventory) (paths : list pystr) : rthread (list TargetedPathState) :=
  lift_os (targeted_states sha256_hex read_fuel i paths).

Definition _config_states_for (i : TrustInventory) : rthread (list TargetedPathState) :=
  projections ← tread any wr_projections;
  observe_states i (sorted_set (_native_config_candidates i projections)).

Definition _observe_configs (i : TrustInventory) : rthread (gmap pystr ContentIdentity) :=
  states ← _config_states_for i; mret (identities states).

Definition _capture_baseline (i : TrustInventory) : rthread unit :=
  states ← observe_states i (ti_paths i);
  _ ← tatom any (λ s, (on_freshness (set_states (identities states)) s, tt));
  configs ← _observe_configs i;
  tatom any (λ s, (on_freshness (set_config_states configs) s, tt)).

Definition coordinator_init : Coordinator :=
  {| fc_next_ticket := 0; fc_serving_ticket := 0; fc_states := ∅; fc_config_states := ∅; fc_pending_reconciles := [];
     fc_last := empty_scan; fc_version := 0 |}.

(** Paths of a configuration that cannot be observed, other than a missing file *)
Definition unsafe_config (s : TargetedPathState) : bool :=
  match tp_reason s with Some reason => negb (bool_decide (reason = missing)) | None => false end.

(** [self._states.get(path) != states[path].content_identity] for the paths that
    stayed; [None]: the lookup [states[path]] fails *)
Definition changed_paths (committed observed : gmap pystr ContentIdentity) (paths : list pystr) : option (list pystr) :=
  flags ← mapM (λ p, now ← observed !! p; Some (p, negb (bool_decide (committed !! p = Some now)))) paths;
  Some (filter (λ r, r.2 = true) flags).*1.

Definition commit (states configs : gmap pystr ContentIdentity) (c : Coordinator) : Coordinator :=
  set_version (fc_version c + 1) (set_config_states configs (set_states states c)).

(** [try: install_freshness(...)]: the failure that is kept for later *)
Definition try_install (i : TrustInventory) (projections : list (LanguageFamily * FamilyAttribution))
    (restart : list LanguageFamily) (config_changed : list pystr) : rthread (option rexn) :=
  ttry (install_freshness i projections restart config_changed) (λ r,
    match r with
    | Ok _ => mret None
    | Err (XRuntime e) => if bool_decide (re_code e = RC_STOPPED) then traise (XRuntime e) else mret (Some (XRuntime e))
    | Err x => if is_exception x then mret (Some x) else traise x
    end).

(** Equality of the two lists as sets *)
Definition same_elements (l k : list RejectedPath) : bool :=
  forallb (λ x, bool_decide (x ∈ k)) l && forallb (λ x, bool_decide (x ∈ l)) k.

(** What a scan found: the difference between two inventories and their files *)
Record scan_facts := {
  sf_created : list pystr; sf_changed : list pystr; sf_deleted : list pystr; sf_symlinked : list pystr; sf_config_changed : list pystr;
  sf_membership_changed : bool }.

Definition compare_scan (previous rebuilt : TrustInventory) (committed committed_configs states configs : gmap pystr ContentIdentity)
    : option scan_facts :=
  let created := sorted_difference (ti_paths rebuilt) (ti_paths previous) in
  let deleted := sorted_difference (ti_paths previous) (ti_paths rebuilt) in
  changed ← changed_paths committed states (sorted_set (filter (λ p, p ∈ ti_paths previous) (ti_paths rebuilt)));
  Some {| sf_created := created; sf_changed := changed; sf_deleted := deleted;
          sf_symlinked := py_sorted id (rp_path <$> filter (λ r, is_symlink_reason (rp_reason r) = true) (ti_rejected rebuilt));
          sf_config_changed := py_sorted id (filter (λ r, committed_configs !! r.1 ≠ Some r.2) (map_to_list configs)).*1;
          sf_membership_changed := nonempty created || nonempty deleted ||
            negb (same_elements (ti_rejected previous) (ti_rejected rebuilt)) |}.

(** The second half of a scan: install what was found *)
Definition reconcile_scan (rebuilt : TrustInventory) (states configs : gmap pystr ContentIdentity) (f : scan_facts) : rthread FreshnessScan :=
  let affected := _affected_families (sf_created f ++ sf_deleted f ++ sf_symlinked f) (sf_config_changed f) in
  projections ← (if sf_membership_changed f || nonempty (sf_config_changed f) then build_projections rebuilt affected else mret []);
  _ ← tatom any (λ s, (on_freshness (commit states configs) s, tt));
  let restart := _affected_families [] (sf_config_changed f) in
  install_failure ← try_install rebuilt projections restart (sf_config_changed f);
  created ← watched_events CREATED false (sf_created f);
  changed ← watched_events CHANGED false (sf_changed f);
  deleted ← watched_events DELETED false (sf_deleted f);
  applied ← _apply_events (created ++ changed ++ deleted) (sf_created f) restart (match install_failure with None => true | Some _ => false end);
  let '(notified, opened, unopened) := applied in
  match install_failure with
  | Some x => traise x
  | None =>
      mret {| sc_created := sf_created f; sc_changed := sf_changed f; sc_deleted := sf_deleted f; sc_symlinked := sf_symlinked f;
              sc_config_changed := sf_config_changed f;
              sc_reattributed := filter (λ x, x ∈ projections.*1) families; sc_notified := notified; sc_opened := opened;
              sc_unopened := unopened |}
  end.

Definition _scan_root : rthread FreshnessScan :=
  _ ← retry_pending_restarts;
  _ ← _settle_pending_reconciles None;
  previous ← tread any wr_inventory;
  rebuilt ← rebuild_inventory;
  observed ← observe_states rebuilt (ti_paths rebuilt);
  config_states ← _config_states_for rebuilt;
  let unsafe := (tp_path <$> filter (λ x, tp_trusted x = false) observed) ++ (tp_path <$> filter (λ x, unsafe_config x = true) config_states) in
  if nonempty unsafe then traise (XRuntime (runtime_error_at RC_NOT_READY (sorted_set unsafe)))
  else
    committed ← tread any (λ s, (fc_states (wr_freshness s), fc_config_states (wr_freshness s)));
    match compare_scan previous rebuilt committed.1 committed.2 (identities observed) (identities config_states) with
    | None => traise XException
    | Some f =>
        if negb (sf_membership_changed f || nonempty (sf_changed f) || nonempty (sf_config_changed f)) then mret empty_scan
        else reconcile_scan rebuilt (identities observed) (identities config_states) f
    end.

(** The update of the committed identities by a targeted scan *)
Definition refresh_states (states : list TargetedPathState) (c : Coordinator) : Coordinator * list pystr :=
  let changed := tp_path <$> filter (λ x, fc_states c !! tp_path x ≠ Some (content_identity x)) states in
  let c := set_states (foldl (λ m x, <[tp_path x := content_identity x]> m) (fc_states c) states) c in
  (if nonempty changed then set_version (fc_version c + 1) c else c, changed).

Definition _refresh_paths (paths : list pystr) : rthread FreshnessScan :=
  _ ← _settle_pending_reconciles None;
  inventory ← tread any wr_inventory;
  let selected := sorted_set (filter (λ p, inventory_contains inventory p = true) paths) in
  if negb (nonempty selected) then mret empty_scan
  else
    states ← observe_states inventory selected;
    let unsafe := tp_path <$> filter (λ x, tp_trusted x = false) states in
    if nonempty unsafe then traise (XRuntime (runtime_error_at RC_NOT_READY (py_sorted id unsafe)))
    else
      changed ← tatom any (λ s, let '(c, changed) := refresh_states states (wr_freshness s) in (set_freshness c s, changed));
      if negb (nonempty changed) then mret empty_scan
      else
        events ← watched_events CHANGED false changed;
        applied ← _apply_events events [] [] true;
        mret {| sc_created := []; sc_changed := changed; sc_deleted := []; sc_symlinked := []; sc_config_changed := [];
                sc_reattributed := []; sc_notified := applied.1.1; sc_opened := []; sc_unopened := [] |}.

(** ** Admission *)

Definition _enter_admission_queue : rthread Z :=
  ticket ← tatom any (λ s, (on_freshness (λ c, set_next_ticket (fc_next_ticket c + 1) c) s, fc_next_ticket (wr_freshness s)));
  tread (λ s, bool_decide (fc_serving_ticket (wr_freshness s) = ticket)) (λ _, ticket).

Definition _leave_admission_queue (ticket : Z) : rthread unit :=
  tatom any (λ s, (on_freshness (set_serving_ticket (ticket + 1)) s, tt)).

Definition admission_of (scan : FreshnessScan) (witnessed : list pystr) (c : Coordinator) : _FreshnessAdmission :=
  {| ad_scan := scan; ad_version := fc_version c;
     ad_digests := foldl (λ d p, dict_set d p (_committed_digest (fc_states c !! p))) [] witnessed |}.

Definition _admission (scan : FreshnessScan) (witnessed : list pystr) : rthread _FreshnessAdmission :=
  tread any (λ s, admission_of scan witnessed (wr_freshness s)).

(** [ticket = enter(); try: scan, publish, report finally: leave(ticket)] *)
Definition admitted_scan (scanner : rthread FreshnessScan) (witnessed : list pystr) : rthread _FreshnessAdmission :=
  ticket ← _enter_admission_queue;
  tfinally
    (scan ← scanner;
     _ ← tatom any (λ s, (on_freshness (set_last scan) s, tt));
     _admission scan witnessed)
    (_leave_admission_queue ticket).

Definition ensure_root_fresh_admitted (witnessed : list pystr) : rthread _FreshnessAdmission := admitted_scan _scan_root witnessed.

Definition ensure_fresh_admitted (witnessed : list pystr) : rthread _FreshnessAdmission :=
  if bool_decide (wi_kind identity = WK_GIT) then ensure_root_fresh_admitted witnessed else _admission empty_scan witnessed.

Definition ensure_paths_fresh_admitted (paths witnessed : list pystr) : rthread _FreshnessAdmission :=
  if bool_decide (wi_kind identity = WK_GIT) then _admission empty_scan witnessed
  else admitted_scan (_refresh_paths paths) witnessed.

Definition ensure_fresh : rthread FreshnessScan := a ← ensure_fresh_admitted []; mret (ad_scan a).
Definition ensure_path_fresh (relative_path : pystr) : rthread FreshnessScan :=
  a ← ensure_paths_fresh_admitted [relative_path] []; mret (ad_scan a).

(** ** Shutdown *)

(** [responsibilities[id(future)] = future] *)
Definition add_future (l : list future) (f : future) : list future := if bool_decide (f ∈ l) then l else l ++ [f].

Abbreviation stop_work := (list future * list rexn)%type.

(** [with self._stop_lock:] *)
Definition with_stop_lock (p : rthread unit) : rthread unit :=
  TStep (λ s, negb (wr_stop_locked s)) (set_stop_locked true) (λ _, tfinally p (tatom any (λ s, (set_stop_locked false s, tt)))).

Definition stop_adapter (work : stop_work) (a : adapter) : rthread stop_work :=
  f ← tread free (λ s, wr_shutdown_futures s !! a);
  again ← stop_again f (Some a);
  match again, f with
  | Some (Err x), _ => mret (work.1, work.2 ++ [x])
  | Some (Ok f), _ => tatom free (λ s, (set_shutdown_futures (<[a := f]> (wr_shutdown_futures s)) s, (add_future work.1 f, work.2)))
  | None, Some f => mret (add_future work.1 f, work.2)
  | None, None => mret work
  end.

(** The future of a started cleanup, or its failure *)
Definition add_cleanup (work : stop_work) (failure : option WorkspaceRuntimeError) (stop_future : option future) : stop_work :=
  match failure, stop_future with
  | Some e, _ => (work.1, work.2 ++ [XRuntime e])
  | None, Some f => (add_future work.1 f, work.2)
  | None, None => work
  end.

Definition stop_retirement (work : stop_work) (retirement : _PendingAdapterRetirement) : rthread stop_work :=
  started ← _start_pending_retirement retirement;
  mret (add_cleanup work started.2 (started.1 ≫= pt_stop_future)).

Definition stop_restart (work : stop_work) (pending : _PendingAdapterRestart) : rthread stop_work :=
  started ← _start_pending_stop pending;
  mret (add_cleanup work started.2 (started.1 ≫= pr_stop_future)).

(** [future.result(...)]; any exception is collected *)
Definition await_cleanup (failures : list rexn) (f : future) : rthread (list rexn) :=
  ttry (result f) (λ r, match r with Ok _ => mret failures | Err x => mret (failures ++ [x]) end).

(** Anything that fails becomes a [RuntimeError]. *)
Definition stop_failed {A} (p : rthread A) : rthread A := ttry p (λ r, match r with Ok a => mret a | Err _ => traise XException end).
Definition require_none (failures : list rexn) : rthread unit := if nonempty failures then traise XException else mret tt.

Definition finish_stop (s : Runtime T) : Runtime T :=
  set_stopped true (set_adapters [] (set_shutdown_futures ∅ (set_pending_restarts [] (set_pending_retirements [] s)))).

(** The stop of a runtime that owns these adapters and cleanups *)
Definition stop_owned (adapters : list adapter) (pending_retirements : list _PendingAdapterRetirement)
    (pending_restarts : list _PendingAdapterRestart) : rthread unit :=
  _ ← stop_failed (TCall RCloseTransactions TRet : rthread unit);
  work ← tfold stop_adapter ([], []) adapters;
  work ← tfold stop_retirement work pending_retirements;
  work ← tfold stop_restart work pending_restarts;
  _ ← require_none work.2;
  failures ← tfold await_cleanup [] work.1;
  _ ← require_none failures;
  _ ← stop_failed (TCall RCloseExecutor TRet : rthread unit);
  tatom free (λ s, (finish_stop s, tt)).

Definition stop : rthread unit :=
  with_stop_lock
    (owned ← tatom free (λ s, if wr_stopped s then (s, None)
                              else (set_stopping true s,
                                    Some ((wr_adapters s).*2, (wr_pending_retirements s).*2, (wr_pending_restarts s).*2)));
     match owned with
     | None => mret tt
     | Some (adapters, pending_retirements, pending_restarts) => stop_owned adapters pending_retirements pending_restarts
     end).
End freshness.
