(* ===== verification/FreshReads.v ===== *)
(** * Fresh reads

    Model of the read transactions of [WorkspaceRuntime]
    ([src/serena_light/workspace/runtime.py]): a scan before the operation, the
    byte identities the operation records while it runs, a scan after it, the
    comparison that decides whether the answer is returned, replayed or refused,
    and the translation of failures into envelopes. The operation is any thread
    that answers with an envelope. *)

From S2P Require Import Prelude Paths Positions Json Scope Envelopes Executor Editing EditLogic FileSystem Identity PathTree Inventory Threads RuntimeState Freshness.

Definition MAX_FRESH_READ_ATTEMPTS : nat := 2.
Definition MAX_FRESH_READ_EVIDENCE_PATHS : nat := 16.
Definition SOURCE_SNAPSHOT_UNAVAILABLE_REASON : pystr := lit "source_snapshot_unavailable".
Definition SOURCE_DERIVED_ERROR_REASONS : list pystr :=
  [lit "incomplete_assignment_range"; lit "candidate_snapshot_range_mismatch"; lit "verified_target_snapshot_unavailable";
   lit "verified target snapshot unavailable"; lit "semantic target locations changed"; lit "semantic target set exceeds snapshot bound";
   lit "external target bytes unavailable"; lit "workspace_reference_snapshot_unavailable";
   lit "workspace_reference_snapshot_range_mismatch"; lit "workspace_reference_document_invalid"; lit "workspace_reference_uri_mismatch"].

Definition _result_is_source_derived (result : reply) (w : _ReadAttemptWitnesses) : bool :=
  match result with
  | inl _ => true
  | inr e =>
      match er_code e with
      | SYMBOL_NOT_FOUND | AMBIGUOUS_SYMBOL => true
      | _ =>
          let reason := match json_get (er_details e) (lit "reason") with Some (JStr r) => Some r | _ => None end in
          if bool_decide (is_Some (json_get (er_details e) (lit "minimum_required"))) then true
          else if bool_decide (reason = Some SOURCE_SNAPSHOT_UNAVAILABLE_REASON) then true
          else if negb (owns_source w) then false
          else match reason with Some r => bool_decide (r ∈ SOURCE_DERIVED_ERROR_REASONS) | None => false end
      end
  end.

(** [caught.filename], then [caught.filename2]: the first that lies in the
    workspace; [Path] refuses bytes *)
Fixpoint source_path_of (root : purepath) (names : list os_filename) : res rexn (option pystr) :=
  match names with
  | [] => Ok None
  | FnNone :: names => source_path_of root names
  | FnBytes _ :: _ => Err (XFile XType)
  | FnStr raw :: names =>
      let candidate := if is_absolute (Path raw) then Path raw else path_div root (Path raw) in
      match relative_to candidate root with
      | None => source_path_of root names
      | Some parts => if nonempty parts && bool_decide (dotdot ∉ parts) then Ok (Some (join_slash parts)) else source_path_of root names
      end
  end.
Definition _source_exception_path (filename filename2 : os_filename) (root : purepath) : res rexn (option pystr) :=
  source_path_of root [filename; filename2].

(** The paths whose recorded digests disagree with the committed ones *)
Definition mismatched_sources (final : _FreshnessAdmission) (w : list (pystr * list pystr)) : list pystr :=
  py_sorted id (filter (λ r, existsb (λ d, negb (bool_decide (dict_get (ad_digests final) r.1 = Some (Some d)))) r.2 = true) w).*1.

Definition retry_soon : RetryMetadata :=
  {| rt_retryable := true; rt_retry_after_seconds := Some {| pf_repr := lit "0.1"; pf_negative := false |}; rt_waited_seconds := None;
     rt_timeout_seconds := None; rt_target_generation := None; rt_observed_generation := None |}.
Definition retry_now : RetryMetadata :=
  {| rt_retryable := true; rt_retry_after_seconds := None; rt_waited_seconds := None; rt_timeout_seconds := None;
     rt_target_generation := None; rt_observed_generation := None |}.

(** [ErrorCode(caught.code)], or [UNSUPPORTED] *)
Definition public_code (c : RuntimeErrorCode) : ErrorCode :=
  match c with
  | RC_BUSY => BUSY | RC_SCOPE_INCOMPATIBLE => EC_SCOPE_INCOMPATIBLE | RC_NOT_READY => EC_NOT_READY | RC_TIMED_OUT => TIMED_OUT
  | RC_UNSUPPORTED => UNSUPPORTED | RC_STOPPED => UNSUPPORTED
  end.

Definition runtime_failure (e : WorkspaceRuntimeError) : res envelope_error ErrorEnvelope :=
  let code := public_code (re_code e) in
  let retry := match code with BUSY | EC_NOT_READY | TIMED_OUT => Some retry_now | _ => None end in
  let details := (if nonempty (re_paths e) then [pstr "paths" (PSequence (PStr <$> re_paths e))] else []) ++
                 match re_scope_error e with Some se => scope_error_details se | None => [] end in
  error code retry (Some (PMapping details)) None None None.

(** The [except] clauses of [_tool_envelope]; [None]: the exception passes *)
Definition failure_envelope (x : rexn) : option (res envelope_error ErrorEnvelope) :=
  match x with
  | XFile (XWorkspace d) => Some (from_workspace_error d)
  | XRuntime e => Some (runtime_failure e)
  | XTimedOut => Some (error TIMED_OUT (Some retry_now) None None None None)
  | XOSError _ _ => Some (error INVALID_INPUT None None None None None)
  | XFile x => if is_os x || is_value x then Some (error INVALID_INPUT None None None None None) else None
  | _ => None
  end.

Section reads.
Context {T : Type} `{!PyOrd T} (t_zero default_max_wait default_retry_after : T).
Context (sha256_hex : list N → pystr) (read_fuel : nat).
Context (identity : WorkspaceIdentity).
Context (family_order : list LanguageFamily).

Abbreviation rthread := (thread (Runtime T) rcall rexn ranswer).
Abbreviation ensure_root := (ensure_root_fresh_admitted t_zero default_max_wait default_retry_after sha256_hex read_fuel identity family_order).
Abbreviation ensure_paths := (ensure_paths_fresh_admitted sha256_hex read_fuel identity).

Definition lift_env {A} (r : res envelope_error A) : rthread A :=
  match r with Ok a => TRet (Ok a) | Err e => TRet (Err (XFile (XEnvelope e))) end.

Definition _workspace_metadata : rthread WorkspaceMetadata :=
  let root := path_str (wi_root identity) in lift_env (workspace_metadata_init root (workspace_kind_value (wi_kind identity)) root).

Definition _tool_envelope (operation : rthread reply) : rthread reply :=
  ttry operation (λ r,
    match r with
    | Ok a => mret a
    | Err x => match failure_envelope x with Some e => e ← lift_env e; mret (inr e) | None => traise x end
    end).

(** ** Witnesses *)

Definition _begin_read_attempt : rthread object :=
  tatom any (λ s,
    let o := wr_next_object s in
    (set_next_object (S o) (set_active_witnesses (Some o)
       (set_witness_objects (<[o := {| rw_source := []; rw_external := [] |}]> (wr_witness_objects s)) s)), o)).

Definition _end_read_attempt : rthread unit := tatom any (λ s, (set_active_witnesses None s, tt)).

(** [d.setdefault(k, set()).add(v)] *)
Definition add_witness {K} `{EqDecision K} (d : list (K * list pystr)) (k : K) (v : pystr) : list (K * list pystr) :=
  let old := default [] (dict_get d k) in dict_set d k (if bool_decide (v ∈ old) then old else old ++ [v]).

Definition on_active (f : _ReadAttemptWitnesses → _ReadAttemptWitnesses) (s : Runtime T) : Runtime T :=
  match wr_active_witnesses s with
  | Some o => set_witness_objects (alter f o (wr_witness_objects s)) s
  | None => s
  end.

Definition _record_read_witness (relative_path : pystr) (raw_bytes : list N) : rthread unit :=
  tatom any (λ s, (on_active (λ w, {| rw_source := add_witness (rw_source w) relative_path (sha256_hex raw_bytes);
                                      rw_external := rw_external w |}) s, tt)).

Definition _record_external_read_witness (path : purepath) (digest : pystr) : rthread unit :=
  tatom any (λ s, (on_active (λ w, {| rw_source := rw_source w; rw_external := add_witness (rw_external w) path digest |}) s, tt)).

(** ** Comparison *)

Definition external_mismatch (acc : list pystr) (item : purepath * list pystr) : rthread (list pystr) :=
  let '(path, digests) := item in
  current ← lift_os (observe_file_digest sha256_hex read_fuel path);
  mret (match current with
        | None => acc ++ [path_str path]
        | Some now => if existsb (λ d, negb (bool_decide (d = now))) digests then acc ++ [path_str path] else acc
        end).

Definition _external_witness_mismatches (w : list (purepath * list pystr)) : rthread (list pystr) :=
  l ← tfold external_mismatch [] w; mret (py_sorted id (l : list pystr)).

Definition _fresh_read_change_evidence (admitted final : _FreshnessAdmission) (w : _ReadAttemptWitnesses) : rthread (option (list pystr)) :=
  let mismatched := mismatched_sources final (rw_source w) in
  external ← _external_witness_mismatches (rw_external w);
  if bool_decide (ad_version final = ad_version admitted) && negb (nonempty mismatched) && negb (nonempty external) then mret None
  else
    let scan := ad_scan final in
    mret (Some (sorted_set (sc_created scan ++ sc_changed scan ++ sc_deleted scan ++ sc_config_changed scan ++ mismatched ++ external))).

(** ** The transaction *)

Definition _read_scope (relative_path : option pystr) : rthread (option (list pystr)) :=
  match relative_path with
  | None => mret None
  | Some p =>
      let stripped := rstrip_slash p in
      let scope := if nonempty stripped then stripped else dot in
      tread any (λ s, if inventory_contains (wr_inventory s) scope then Some [scope] else None)
  end.

Definition _admit_fresh_read (scope : option (list pystr)) (witnessed : list pystr) : rthread _FreshnessAdmission :=
  match scope with
  | None => ensure_root witnessed
  | Some paths => if bool_decide (wi_kind identity = WK_GIT) then ensure_root witnessed else ensure_paths paths witnessed
  end.

(** The operation, with a file-system failure in the workspace as an answer;
    also the paths that failed *)
Definition guarded_operation (operation : rthread reply) : rthread (reply * list pystr) :=
  ttry operation (λ r,
    match r with
    | Ok a => mret (a, [])
    | Err (XOSError filename filename2) =>
        match _source_exception_path filename filename2 (wi_root identity) with
        | Err x => traise x
        | Ok None => traise (XOSError filename filename2)
        | Ok (Some p) =>
            w ← _workspace_metadata;
            e ← lift_env (error EC_NOT_READY (Some retry_soon)
                   (Some (PMapping [pstr "reason" (PStr SOURCE_SNAPSHOT_UNAVAILABLE_REASON); pstr "paths" (PSequence [PStr p])]))
                   (Some w) None None);
            mret (inr e, [p])
        end
    | Err x => traise x
    end).

Definition read_attempt (operation : rthread reply) : rthread (reply * list pystr * _ReadAttemptWitnesses) :=
  o ← _begin_read_attempt;
  r ← tfinally (guarded_operation operation) _end_read_attempt;
  w ← tread any (λ s, default {| rw_source := []; rw_external := [] |} (wr_witness_objects s !! o));
  mret (r.1, r.2, w).

Definition changed_during_read (attempt : Z) (changed : list pystr) (admitted final : _FreshnessAdmission) : rthread reply :=
  w ← _workspace_metadata;
  e ← lift_env (error EC_NOT_READY (Some retry_soon)
         (Some (PMapping [pstr "reason" (PStr (lit "workspace_changed_during_read")); pstr "attempts" (PInt attempt);
                          pstr "paths" (PSequence (PStr <$> take MAX_FRESH_READ_EVIDENCE_PATHS changed));
                          pstr "preflight_freshness_version" (PInt (ad_version admitted));
                          pstr "postflight_freshness_version" (PInt (ad_version final))]))
         (Some w) None None);
  mret (inr e).

(** [for attempt in range(1, MAX_FRESH_READ_ATTEMPTS + 1)], with [remaining]
    turns left *)
Fixpoint fresh_read_attempts (remaining : nat) (operation : rthread reply) (scope : option (list pystr)) : rthread reply :=
  match remaining with
  | O => traise XException   (** the assertion after the loop *)
  | S later =>
      _ ← _require_running;
      admitted ← _admit_fresh_read scope [];
      attempt ← read_attempt operation;
      let '(result, source_failure_paths, witnesses) := attempt in
      if negb (_result_is_source_derived result witnesses) then mret result
      else
        let sources := (rw_source witnesses).*1 in
        let final_scope := (λ paths, sorted_set (paths ++ sources ++ source_failure_paths)) <$> scope in
        final ← _admit_fresh_read final_scope sources;
        changed ← _fresh_read_change_evidence admitted final witnesses;
        match changed with
        | None => mret result
        | Some changed =>
            match later with
            | O => changed_during_read (Z.of_nat MAX_FRESH_READ_ATTEMPTS) changed admitted final
            | S _ => fresh_read_attempts later operation scope
            end
        end
  end.

Definition _run_fresh_read (operation : rthread reply) (scope : option (list pystr)) : rthread reply :=
  fresh_read_attempts MAX_FRESH_READ_ATTEMPTS operation scope.
End reads.
