(* ===== verification/FreshProps.v ===== *)
(** * Properties of freshness and of fresh reads *)

From S2P Require Import Prelude Paths Positions Json Scope Envelopes Executor Editing EditLogic FileSystem Identity PathTree Inventory Threads RuntimeState Freshness FreshReads.

(** ** What the steps of a workspace leave alone *)

Section relations.
Context {T : Type}.
Implicit Types s : Runtime T.

(** Neither the coordinator nor the inventory changed. *)
Definition frame s s' : Prop := wr_freshness s' = wr_freshness s ∧ wr_inventory s' = wr_inventory s.

(** The coordinator did not change. *)
Definition same_coordinator s s' : Prop := wr_freshness s' = wr_freshness s.

(** The version and the committed identities did not change. *)
Definition same_facts s s' : Prop :=
  fc_version (wr_freshness s') = fc_version (wr_freshness s) ∧ fc_states (wr_freshness s') = fc_states (wr_freshness s) ∧
  fc_config_states (wr_freshness s') = fc_config_states (wr_freshness s).

(** No ticket was issued or served. *)
Definition same_tickets s s' : Prop :=
  fc_next_ticket (wr_freshness s') = fc_next_ticket (wr_freshness s) ∧ fc_serving_ticket (wr_freshness s') = fc_serving_ticket (wr_freshness s).

Definition quiet s s' : Prop := same_facts s s' ∧ same_tickets s s'.

(** The version did not fall, and if it stayed so did the committed identities. *)
Record advances s s' : Prop := {
  av_version : fc_version (wr_freshness s) ≤ fc_version (wr_freshness s');
  av_facts : fc_version (wr_freshness s) = fc_version (wr_freshness s') →
    fc_states (wr_freshness s) = fc_states (wr_freshness s') ∧ fc_config_states (wr_freshness s) = fc_config_states (wr_freshness s');
}.

#[global] Instance frame_preorder : PreOrder frame.
Proof. split; [done|]. intros s1 s2 s3 [? ?] [? ?]. split; congruence. Qed.
#[global] Instance same_coordinator_preorder : PreOrder same_coordinator.
Proof. split; [done|]. unfold same_coordinator. intros s1 s2 s3 ? ?. congruence. Qed.
#[global] Instance same_facts_preorder : PreOrder same_facts.
Proof. split; [done|]. intros s1 s2 s3 (? & ? & ?) (? & ? & ?). split_and!; congruence. Qed.
#[global] Instance same_tickets_preorder : PreOrder same_tickets.
Proof. split; [done|]. intros s1 s2 s3 (? & ?) (? & ?). split_and!; congruence. Qed.
#[global] Instance quiet_preorder : PreOrder quiet.
Proof. split; [done|]. intros s1 s2 s3 [? ?] [? ?]. split; by etrans. Qed.
#[global] Instance advances_preorder : PreOrder advances.
Proof.
  split; [intros s; by split|]. intros s1 s2 s3 [H1 F1] [H2 F2]. split; [lia|]. intros Hv. destruct F1 as [-> ->]; [lia|]. apply F2. lia.
Qed.

Lemma frame_coordinator s s' : frame s s' → same_coordinator s s'.
Proof. by intros [? _]. Qed.
Lemma coordinator_quiet s s' : same_coordinator s s' → quiet s s'.
Proof. unfold same_coordinator, quiet, same_facts, same_tickets. by intros ->. Qed.
Lemma quiet_facts s s' : quiet s s' → same_facts s s'.
Proof. by intros [? _]. Qed.
Lemma quiet_tickets s s' : quiet s s' → same_tickets s s'.
Proof. by intros [_ ?]. Qed.
Lemma same_facts_advances s s' : same_facts s s' → advances s s'.
Proof. intros (Hv & Hs & Hc). split; [lia|]. intros _. by rewrite Hs, Hc. Qed.
End relations.

(** Decompose a thread until its critical sections are left. *)
Ltac guar_step :=
  match goal with
  | |- guar _ (match ?x with _ => _ end) => destruct x
  | |- guar _ (_ ≫= _) => apply guar_bind; [|intros ?]
  | |- guar _ (ttry _ _) => apply guar_try; [|intros ?]
  | |- guar _ (tfinally _ _) => apply guar_finally
  | |- guar _ (tatom _ _) => apply guar_atom; intros ?
  | |- guar _ (tatom_res _ _) => apply guar_atom_res; intros ?
  | |- guar _ (tread _ _) => apply guar_read; apply _
  | |- guar _ (tfold _ _ _) => apply guar_fold; intros ? ?
  | |- guar _ (TCall _ TRet) => intros ?; exact Logic.I
  | |- guar _ (tcall _) => intros ?; exact Logic.I
  | |- guar _ (mret _) => exact Logic.I
  | |- guar _ (traise _) => exact Logic.I
  | |- guar _ (rt_fail _) => exact Logic.I
  | |- guar _ (TRet _) => exact Logic.I
  | |- guar _ _ => progress cbv zeta
  end.
Ltac guar_steps := repeat (guar_step || (progress eauto 7 with guar nocore)).

Create HintDb guar discriminated.

Section guarantees.
Context {T : Type} `{!PyOrd T} (t_zero default_max_wait default_retry_after : T).
Context (sha256_hex : list N → pystr) (read_fuel : nat) (identity : WorkspaceIdentity) (family_order : list LanguageFamily).
Abbreviation rthread := (thread (Runtime T) rcall rexn ranswer).

Lemma guar_with_state_lock {A} G (p : rthread A) : (∀ s s', frame s s' → G s s') → guar G p → guar G (with_state_lock p).
Proof. intros HG Hp s _. split; [by apply HG|]. apply guar_finally; [done|]. apply guar_atom. intros s'. by apply HG. Qed.

(** Lifting along [frame], [same_coordinator], [quiet], and then [same_tickets] or [same_facts], [advances] *)
Lemma guar_frame {A} (p : rthread A) : guar frame p → guar same_coordinator p.
Proof. apply guar_mono, frame_coordinator. Qed.
Lemma guar_coordinator {A} (p : rthread A) : guar same_coordinator p → guar quiet p.
Proof. apply guar_mono, coordinator_quiet. Qed.
Lemma guar_quiet {A} (p : rthread A) : guar quiet p → guar same_facts p.
Proof. apply guar_mono, quiet_facts. Qed.
Lemma guar_quiet_tickets {A} (p : rthread A) : guar quiet p → guar same_tickets p.
Proof. apply guar_mono, quiet_tickets. Qed.
Lemma guar_facts {A} (p : rthread A) : guar same_facts p → guar advances p.
Proof. apply guar_mono, same_facts_advances. Qed.
Hint Resolve guar_frame guar_coordinator guar_quiet guar_quiet_tickets guar_facts : guar.

Lemma guar_lift_os {A} (p : prog A) : guar frame (lift_os (T:=T) p).
Proof. induction p as [[a|x]|c k IH]; simpl; auto. Qed.
Lemma guar_lift_scope {A} (r : res scope_exn A) : guar frame (lift_scope (T:=T) r).
Proof. by destruct r. Qed.
Hint Resolve guar_lift_os guar_lift_scope : guar.

Lemma guar_result f : guar frame (result (T:=T) f).
Proof. by intros ?. Qed.
Lemma guar_adapter_stop a : guar frame (adapter_stop (T:=T) a).
Proof. by intros ?. Qed.
Hint Resolve guar_result guar_adapter_stop : guar.

Ltac facts := repeat case_match; simplify_eq/=; split_and?; done.

Lemma guar_stop_future_needs_retry f : guar frame (_stop_future_needs_retry (T:=T) f).
Proof. unfold _stop_future_needs_retry. guar_steps. Qed.
Hint Resolve guar_stop_future_needs_retry : guar.

Lemma guar_build_adapter f pj paths tracker :
  guar frame (_build_adapter t_zero default_max_wait default_retry_after f pj paths tracker).
Proof. unfold _build_adapter, new_tracker. guar_steps. facts. Qed.
Hint Resolve guar_build_adapter : guar.

Lemma guar_stop_again x y : guar frame (stop_again (T:=T) x y).
Proof. unfold stop_again. guar_steps. Qed.
Hint Resolve guar_stop_again : guar.

Lemma guar_start_pending_retirement p : guar frame (_start_pending_retirement (T:=T) p).
Proof. apply guar_with_state_lock; [done|]. guar_steps; facts. Qed.
Hint Resolve guar_start_pending_retirement : guar.

Lemma guar_start_pending_stop p : guar frame (_start_pending_stop (T:=T) p).
Proof. apply guar_with_state_lock; [done|]. guar_steps; facts. Qed.
Hint Resolve guar_start_pending_stop : guar.

Lemma guar_settle_pending_retirement p : guar frame (_settle_pending_retirement (T:=T) p).
Proof. unfold _settle_pending_retirement. guar_steps. unfold drop_retirement. facts. Qed.
Hint Resolve guar_settle_pending_retirement : guar.

Lemma guar_complete_pending_restart p : guar frame (_complete_pending_restart t_zero default_max_wait default_retry_after p).
Proof. apply guar_with_state_lock; [done|]. guar_steps; facts. Qed.
Hint Resolve guar_complete_pending_restart : guar.

Lemma guar_await_pending_stop f x : guar frame (await_pending_stop (T:=T) f x).
Proof. unfold await_pending_stop. guar_steps; facts. Qed.
Hint Resolve guar_await_pending_stop : guar.

Lemma guar_raise_first l : guar frame (raise_first (T:=T) l).
Proof. by destruct l. Qed.
Hint Resolve guar_raise_first : guar.

Lemma guar_retry_pending_restarts : guar frame (retry_pending_restarts t_zero default_max_wait default_retry_after).
Proof. unfold retry_pending_restarts, retire_one, retry_restart. guar_steps. Qed.
Hint Resolve guar_retry_pending_restarts : guar.

Lemma guar_rebuild_inventory : guar frame (rebuild_inventory (T:=T) identity).
Proof. unfold rebuild_inventory. guar_steps. Qed.
Lemma guar_build_projections i fs : guar frame (build_projections (T:=T) i fs).
Proof. unfold build_projections, attribute_family, _attribute. guar_steps. Qed.
Hint Resolve guar_rebuild_inventory guar_build_projections : guar.

(** The facts of the coordinator are not in what an installation writes. *)
Lemma retarget_tracker_freshness o pj events (s : Runtime T) : wr_freshness (retarget_tracker o pj events s).1 = wr_freshness s.
Proof. unfold retarget_tracker. repeat case_match; done. Qed.

Lemma install_family_freshness i restart events f a (s : Runtime T) :
  wr_freshness (install_family i restart events f a s).1 = wr_freshness s.
Proof.
  unfold install_family, install_error, install_restart.
  repeat (case_match; simplify_eq/=; try done);
    match goal with H : retarget_tracker ?o ?pj ?ev ?s0 = _ |- _ => pose proof (retarget_tracker_freshness o pj ev s0) as Hf; rewrite H in Hf end; done.
Qed.

Lemma guar_install_turn i restart events work item :
  guar same_coordinator (install_turn t_zero default_max_wait default_retry_after i restart events work item).
Proof.
  unfold install_turn. destruct work as [[? ?] ?], item as [f a]. guar_steps; [|facts..].
  by apply install_family_freshness.
Qed.
Hint Resolve guar_install_turn : guar.

Lemma guar_watched_events kind may paths : guar frame (watched_events (T:=T) kind may paths).
Proof. apply guar_lift_scope. Qed.
Hint Resolve guar_watched_events : guar.

Lemma guar_install_freshness i attributions restart paths :
  guar same_coordinator (install_freshness t_zero default_max_wait default_retry_after i attributions restart paths).
Proof. unfold install_freshness, retire_one, restart_without, restart_with. guar_steps. apply guar_with_state_lock; [apply frame_coordinator|]. guar_steps. facts. Qed.
Hint Resolve guar_install_freshness : guar.

Lemma guar_notify_watched_files a events created : guar frame (notify_watched_files (T:=T) a events created).
Proof. unfold notify_watched_files. guar_steps. facts. Qed.
Hint Resolve guar_notify_watched_files : guar.

Lemma guar_await_reconcile p f timed : guar quiet (await_reconcile (T:=T) p f timed).
Proof.
  unfold await_reconcile. guar_steps; unfold pop_reconcile, forget_future; repeat case_match; done.
Qed.
Hint Resolve guar_await_reconcile : guar.

Lemma record_future_quiet p f (s : Runtime T) : quiet s (record_future p f s).1.
Proof. unfold record_future. by case_match. Qed.

Lemma guar_settle_pending_reconciles selected : guar quiet (_settle_pending_reconciles (T:=T) selected).
Proof.
  unfold _settle_pending_reconciles, settle_one, _settle_pending_reconcile. guar_steps.
  apply record_future_quiet.
Qed.
Hint Resolve guar_settle_pending_reconciles : guar.

Lemma own_deliveries_quiet l (s : Runtime T) : quiet s (own_deliveries l s).1.
Proof. revert s. induction l as [|p l IH]; intros s; simpl; [done|]. case_match; [done|]. etrans; [|apply IH]. done. Qed.

Lemma guar_apply_events events created force wait : guar quiet (_apply_events (T:=T) events created force wait).
Proof.
  unfold _apply_events, advance_tracker, prepare_delivery, submit_delivery, settle_delivery. guar_steps; try facts.
  - apply own_deliveries_quiet.
  - apply record_future_quiet.
Qed.
Hint Resolve guar_apply_events : guar.

Lemma guar_observe_states i paths : guar frame (observe_states (T:=T) sha256_hex read_fuel i paths).
Proof. apply guar_lift_os. Qed.
Lemma guar_config_states_for i : guar frame (_config_states_for (T:=T) sha256_hex read_fuel i).
Proof. unfold _config_states_for. guar_steps. Qed.
Hint Resolve guar_observe_states guar_config_states_for : guar.

Lemma commit_advances states configs (s : Runtime T) : advances s (on_freshness (commit states configs) s).
Proof. split; simpl; [lia|]. intros H. exfalso. lia. Qed.

Lemma guar_scan_root : guar advances (_scan_root t_zero default_max_wait default_retry_after sha256_hex read_fuel identity family_order).
Proof. unfold _scan_root, reconcile_scan, try_install. guar_steps. apply commit_advances. Qed.
Hint Resolve guar_scan_root : guar.

(** Committing identities that are already there changes nothing. *)
Lemma refresh_same (states : list TargetedPathState) (m : gmap pystr ContentIdentity) :
  filter (λ x, m !! tp_path x ≠ Some (content_identity x)) states = [] →
  foldl (λ m x, <[tp_path x := content_identity x]> m) m states = m.
Proof.
  induction states as [|x states IH]; simpl; [done|]. rewrite filter_cons. case_decide as Hx; [done|]. intros Hf.
  rewrite insert_id; [by apply IH|]. destruct (decide (m !! tp_path x = Some (content_identity x))); tauto.
Qed.

Lemma refresh_advances states (s : Runtime T) : advances s (set_freshness (refresh_states states (wr_freshness s)).1 s).
Proof.
  unfold refresh_states. destruct (filter _ states) as [|x l] eqn:Hf; simpl; split; simpl; try lia.
  intros _. by rewrite refresh_same.
Qed.

Lemma guar_refresh_paths paths : guar advances (_refresh_paths (T:=T) sha256_hex read_fuel paths).
Proof.
  unfold _refresh_paths. guar_steps. destruct (refresh_states _ _) as [c l] eqn:Hr; simpl.
  match type of Hr with refresh_states ?l (wr_freshness ?s) = _ => pose proof (refresh_advances l s) as Hadv end.
  by rewrite Hr in Hadv.
Qed.

(** The scanners do not touch the tickets. *)
Lemma guar_scan_root_tickets :
  guar same_tickets (_scan_root t_zero default_max_wait default_retry_after sha256_hex read_fuel identity family_order).
Proof. unfold _scan_root, reconcile_scan, try_install. guar_steps. done. Qed.
Lemma guar_refresh_paths_tickets paths : guar same_tickets (_refresh_paths (T:=T) sha256_hex read_fuel paths).
Proof. unfold _refresh_paths. guar_steps. unfold refresh_states. by case_match. Qed.
Hint Resolve guar_refresh_paths : guar.

Lemma guar_admission scan w : guar frame (_admission (T:=T) scan w).
Proof. unfold _admission. guar_steps. Qed.
Lemma guar_admitted_scan scanner w : guar advances scanner → guar advances (admitted_scan (T:=T) scanner w).
Proof. intros Hs. unfold admitted_scan, _enter_admission_queue, _leave_admission_queue, _admission. guar_steps; facts. Qed.
Hint Resolve guar_admission guar_admitted_scan : guar.

Lemma guar_ensure_root w :
  guar advances (ensure_root_fresh_admitted t_zero default_max_wait default_retry_after sha256_hex read_fuel identity family_order w).
Proof. unfold ensure_root_fresh_admitted. guar_steps. Qed.
Lemma guar_ensure_paths paths w : guar advances (ensure_paths_fresh_admitted (T:=T) sha256_hex read_fuel identity paths w).
Proof. unfold ensure_paths_fresh_admitted. guar_steps. Qed.
Hint Resolve guar_ensure_root guar_ensure_paths : guar.

Lemma guar_ensure_fresh :
  guar advances (ensure_fresh t_zero default_max_wait default_retry_after sha256_hex read_fuel identity family_order).
Proof. unfold ensure_fresh, ensure_fresh_admitted. guar_steps. Qed.

Lemma guar_with_stop_lock p : guar frame p → guar frame (with_stop_lock (T:=T) p).
Proof. intros Hp s _. split; [done|]. apply guar_finally; [done|]. by apply guar_atom. Qed.

Lemma guar_stop : guar frame (stop (T:=T)).
Proof.
  apply guar_with_stop_lock. unfold stop_owned, stop_failed, stop_adapter, stop_retirement, stop_restart, require_none, await_cleanup. guar_steps; facts.
Qed.

(** ** Reads *)

Lemma guar_lift_env {A} (r : res envelope_error A) : guar frame (lift_env (T:=T) r).
Proof. by destruct r. Qed.
Lemma guar_workspace_metadata : guar frame (_workspace_metadata (T:=T) identity).
Proof. apply guar_lift_env. Qed.
Hint Resolve guar_lift_env guar_workspace_metadata : guar.

Lemma guar_admit_fresh_read scope w :
  guar advances (_admit_fresh_read t_zero default_max_wait default_retry_after sha256_hex read_fuel identity family_order scope w).
Proof. unfold _admit_fresh_read. guar_steps. Qed.

Lemma guar_read_attempt G `{!PreOrder G} op : (∀ s s', frame s s' → G s s') → guar G op → guar G (read_attempt (T:=T) identity op).
Proof.
  intros HG Hop. assert (∀ A (p : rthread A), guar frame p → guar G p) as Hframe by (intros A p; by apply guar_mono).
  unfold read_attempt, guarded_operation, _begin_read_attempt, _end_read_attempt.
  guar_steps; try (apply HG; facts); apply Hframe; guar_steps.
Qed.

Lemma guar_change_evidence a f w : guar frame (_fresh_read_change_evidence (T:=T) sha256_hex read_fuel a f w).
Proof. unfold _fresh_read_change_evidence, _external_witness_mismatches, external_mismatch. guar_steps. Qed.

Lemma guar_require_running : guar frame (_require_running (T:=T)).
Proof. unfold _require_running. guar_steps. done. Qed.
Lemma guar_changed_during_read attempt changed a f : guar frame (changed_during_read (T:=T) identity attempt changed a f).
Proof. unfold changed_during_read. guar_steps. Qed.
Hint Resolve guar_admit_fresh_read guar_change_evidence guar_require_running guar_changed_during_read : guar.

Lemma guar_run_fresh_read op scope :
  guar advances op →
  guar advances (_run_fresh_read t_zero default_max_wait default_retry_after sha256_hex read_fuel identity family_order op scope).
Proof.
  intros Hop. unfold _run_fresh_read. generalize MAX_FRESH_READ_ATTEMPTS. intros n. induction n as [|n IH]; [done|].
  cbn [fresh_read_attempts]. assert (guar advances (read_attempt identity op)).
  { apply guar_read_attempt; [apply _| |done]. intros s s' ?. by apply same_facts_advances, quiet_facts, coordinator_quiet, frame_coordinator. }
  guar_steps.
Qed.

(** ** Threads of a workspace *)

Abbreviation ensure_root := (ensure_root_fresh_admitted t_zero default_max_wait default_retry_after sha256_hex read_fuel identity family_order).
Abbreviation ensure_paths := (ensure_paths_fresh_admitted sha256_hex read_fuel identity).
Abbreviation run_fresh_read := (_run_fresh_read t_zero default_max_wait default_retry_after sha256_hex read_fuel identity family_order).

Definition ignore {A} (p : rthread A) : rthread unit := ttry p (λ _, mret tt).

(** What may run on a thread of a workspace: scans of either kind, reads whose
    operation leaves the coordinator alone, and the shutdown *)
Inductive workspace_thread : rthread unit → Prop :=
| wt_root w : workspace_thread (ignore (ensure_root w))
| wt_paths paths w : workspace_thread (ignore (ensure_paths paths w))
| wt_read op scope : guar same_coordinator op → workspace_thread (ignore (run_fresh_read op scope))
| wt_stop : workspace_thread stop.

Lemma workspace_thread_advances p : workspace_thread p → guar advances p.
Proof.
  intros [w|paths w|op scope Hop|]; [..|by apply guar_facts, guar_quiet, guar_coordinator, guar_frame, guar_stop]; apply guar_try; try done;
    [apply guar_ensure_root|apply guar_ensure_paths|by apply guar_run_fresh_read, guar_facts, guar_quiet, guar_coordinator].
Qed.

(** C5: However the scans, reads and the shutdown of a workspace interleave, the
    freshness version never falls, and between two moments with the same version
    no committed identity of a source or of a configuration has changed: every
    commit is visible in the version, whichever call made it and whether or not
    that call went on to fail. *)
Theorem version_marks_every_commit s ps s' ps' :
  Forall workspace_thread ps → rtc (pool_step workspace_thread) (s, ps) (s', ps') → advances s s'.
Proof.
  intros Hps Hrun. eapply (pool_guar advances) in Hrun as [? _]; [done|apply workspace_thread_advances|].
  eapply Forall_impl; [exact Hps|apply workspace_thread_advances].
Qed.

(** ** What a returned read has seen *)

Lemma rtc_advances (s s' : Runtime T) : rtc advances s s' → advances s s'.
Proof. by apply rtc_guar; [apply _|]. Qed.

Lemma admission_digest scan w c p :
  p ∈ w → dict_get (ad_digests (admission_of scan w c)) p = Some (_committed_digest (fc_states c !! p)).
Proof.
  unfold admission_of; simpl. intros Hp.
  assert (∀ d, p ∈ w ∨ dict_get d p = Some (_committed_digest (fc_states c !! p)) →
    dict_get (foldl (λ d p, dict_set d p (_committed_digest (fc_states c !! p))) d w) p = Some (_committed_digest (fc_states c !! p))) as H.
  { clear Hp. induction w as [|q w IH]; intros d; simpl; [intros [H%elem_of_nil|?]; done|]. intros Hd. apply IH.
    destruct (decide (p = q)) as [->|Hne]; [right; apply dict_get_set_eq|].
    rewrite dict_get_set_ne by done. destruct Hd as [[?|?]%elem_of_cons|?]; [done|by left|by right]. }
  apply H. by left.
Qed.

(** The moment an admission reports *)
Definition reports (w : list pystr) (s s' : Runtime T) (a : _FreshnessAdmission) : Prop :=
  ∃ s1, advances s s1 ∧ advances s1 s' ∧ a = admission_of (ad_scan a) w (wr_freshness s1).

Lemma admission_reports scan w s t a s' : texec advances (_admission scan w) s t (Ok a) s' → reports w s s' a.
Proof.
  intros (s1 & Hs & _ & (_ & [= ->] & Hs')%texec_inv)%texec_inv. exists s1. split_and!; [by apply rtc_advances..|done].
Qed.

Lemma admitted_scan_reports scanner w s t a s' :
  guar advances scanner → texec advances (admitted_scan scanner w) s t (Ok a) s' → reports w s s' a.
Proof.
  intros Hg (ticket & s1 & t1 & t2 & _ & H1 & (s2 & t3 & t4 & _ & H2 & H3)%texec_finally_ok)%texec_bind_ok.
  apply texec_guar with (G := advances) in H1; [|apply _|done|unfold _enter_admission_queue; guar_steps; facts].
  apply texec_guar with (G := advances) in H3; [|apply _|done|unfold _leave_admission_queue; guar_steps; facts].
  apply texec_bind_ok in H2 as (scan & s3 & t5 & t6 & _ & H4 & (u & s4 & t7 & t8 & _ & H5 & H6)%texec_bind_ok).
  apply texec_guar with (G := advances) in H4; [|apply _|done..].
  apply texec_guar with (G := advances) in H5; [|apply _|done|guar_steps; facts].
  apply admission_reports in H6 as (s5 & ? & ? & ?). exists s5. split_and!; [|by etrans|done].
  etrans; [exact H1|]. etrans; [exact H4|]. by etrans.
Qed.

Lemma admit_fresh_read_reports scope w s t a s' :
  texec advances (_admit_fresh_read t_zero default_max_wait default_retry_after sha256_hex read_fuel identity family_order scope w) s t (Ok a) s' →
  reports w s s' a.
Proof.
  unfold _admit_fresh_read, ensure_root_fresh_admitted, ensure_paths_fresh_admitted.
  destruct scope as [paths|]; repeat case_bool_decide; intros Hx; first [by apply admission_reports in Hx|
    apply admitted_scan_reports in Hx; [done|]; eauto with guar].
Qed.

(** The calls of a program of the operating system, as calls of a thread *)
Definition os_events (t : list event) : list (tevent (C := rcall) (R := ranswer)) := (λ e, let 'Ev c a := e in TEv (R := ranswer) (ROs c) a) <$> t.

Lemma lift_os_exec {A} rely (p : prog A) (s : Runtime T) t r s' :
  texec rely (lift_os p) s t r s' →
  ∃ t' r', t = os_events t' ∧ exec p t' r' ∧ r = match r' with Ok a => Ok a | Err x => Err (XFile x) end.
Proof.
  revert s t. induction p as [[a|x]|c k IH]; intros s t H; simpl in H.
  - apply texec_inv in H as (-> & -> & _). exists [], (Ok a). split_and!; [done|constructor|done].
  - apply texec_inv in H as (-> & -> & _). exists [], (Err x). split_and!; [done|constructor|done].
  - apply texec_inv in H as (s1 & a & t1 & _ & -> & (t' & r' & -> & Hex & ->)%IH). exists (Ev c a :: t'), r'. split_and!; [done|by constructor|done].
Qed.

(** Each external file was observed again, and has the digests recorded for it. *)
Definition externals_hold (w : list (purepath * list pystr)) (t : list (tevent (C := rcall) (R := ranswer))) : Prop :=
  ∀ path ds, (path, ds) ∈ w → ∃ now t1 t2 t3, t = t1 ++ os_events t2 ++ t3 ∧
    exec (observe_file_digest sha256_hex read_fuel path) t2 (Ok (Some now)) ∧ ∀ d, d ∈ ds → d = now.

Lemma external_mismatches_none rely w acc (s : Runtime T) t s' :
  texec rely (tfold (external_mismatch sha256_hex read_fuel) acc w) s t (Ok []) s' → acc = [] ∧ externals_hold w t.
Proof.
  revert acc s t. induction w as [|[path ds] w IH]; intros acc s t H; simpl in H.
  { apply texec_inv in H as (-> & [= ->] & _). split; [done|]. intros ? ? []%elem_of_nil. }
  apply texec_bind_ok in H as (acc' & s1 & t1 & t2 & -> & H1 & [-> Hw]%IH).
  apply texec_bind_ok in H1 as (current & s2 & t3 & t4 & -> & H3 & (-> & [= Hacc] & _)%texec_inv).
  apply lift_os_exec in H3 as (t5 & r & -> & Hex & Hr).
  destruct current as [now|]; [|by destruct acc]. destruct (existsb _ ds) eqn:He; [by destruct acc|]. split; [done|].
  destruct r as [[now'|]|]; simplify_eq. intros p ds' [[= -> ->]|Hin]%elem_of_cons.
  - exists now', [], t5, t2. split_and!; [by rewrite app_nil_r|done|]. intros d Hd. rewrite <-not_true_iff_false, existsb_exists in He.
    destruct (decide (d = now')) as [->|Hne]; [done|]. destruct He. exists d. rewrite bool_decide_false by done. split; [by apply list_elem_of_In|done].
  - destruct (Hw p ds' Hin) as (now & ta & tb & tc & -> & ? & ?). exists now, (os_events t5 ++ [] ++ ta), tb, tc. split_and!; [by rewrite !app_assoc|done..].
Qed.

Lemma mismatched_none final w :
  mismatched_sources final w = [] → ∀ path ds d, (path, ds) ∈ w → d ∈ ds → dict_get (ad_digests final) path = Some (Some d).
Proof.
  unfold mismatched_sources. intros Hm path ds d Hw Hd. destruct (decide (dict_get (ad_digests final) path = Some (Some d))) as [|Hne]; [done|].
  assert (path ∈ @nil pystr) as []%elem_of_nil. rewrite <-Hm. rewrite (py_sorted_perm id). apply list_elem_of_fmap. exists (path, ds). split; [done|].
  apply list_elem_of_filter. split; [|done]. apply existsb_exists. exists d. rewrite bool_decide_false by done. split; [by apply list_elem_of_In|done].
Qed.

(** The recorded digests are the committed ones. *)
Definition sources_hold (w : list (pystr * list pystr)) (s : Runtime T) : Prop :=
  ∀ path ds d, (path, ds) ∈ w → d ∈ ds → _committed_digest (fc_states (wr_freshness s) !! path) = Some d.

Lemma change_evidence_none rely admitted final w (s : Runtime T) t s' :
  texec rely (_fresh_read_change_evidence sha256_hex read_fuel admitted final w) s t (Ok None) s' →
  ad_version final = ad_version admitted ∧ mismatched_sources final (rw_source w) = [] ∧ externals_hold (rw_external w) t.
Proof.
  intros (external & s1 & t1 & t2 & -> & H1 & H2)%texec_bind_ok.
  apply texec_bind_ok in H1 as (l & s2 & t3 & t4 & -> & H3 & (-> & [= ->] & _)%texec_inv).
  case_bool_decide as Hv; simpl in H2; [|by apply texec_inv in H2 as (_ & ? & _)].
  destruct (mismatched_sources final (rw_source w)); simpl in H2; [|by apply texec_inv in H2 as (_ & ? & _)].
  destruct (py_sorted id l) eqn:Hl; simpl in H2; apply texec_inv in H2 as (-> & [= ] & _).
  pose proof (py_sorted_perm id l) as Hp. rewrite Hl in Hp. apply Permutation_nil in Hp as ->.
  apply external_mismatches_none in H3 as [_ ?]. rewrite !app_nil_r. done.
Qed.

Lemma externals_hold_app w t1 t t2 : externals_hold w t → externals_hold w (t1 ++ t ++ t2).
Proof.
  intros H path ds Hw. destruct (H path ds Hw) as (now & ta & tb & tc & -> & ? & ?). exists now, (t1 ++ ta), tb, (tc ++ t2).
  split_and!; [by rewrite <-!app_assoc|done..].
Qed.

(** *** What a completed scan has seen *)

Lemma changed_paths_none committed observed paths :
  changed_paths committed observed paths = Some [] → ∀ p, p ∈ paths → committed !! p = observed !! p.
Proof.
  unfold changed_paths. destruct (mapM _ paths) as [flags|] eqn:Hm; simpl; [|done]. intros [= Hf] p Hp. apply mapM_Some in Hm.
  apply list_elem_of_lookup in Hp as [i Hi]. destruct (Forall2_lookup_l _ _ _ _ _ Hm Hi) as ([q b] & Hq & Hfl).
  destruct (observed !! p) as [now|]; simpl in Hfl; simplify_eq. case_bool_decide as Hc; [done|]. simpl in *.
  assert ((q, true) ∈ filter (λ r : pystr * bool, r.2 = true) flags) as Hin
    by (apply list_elem_of_filter; split; [done|by eapply list_elem_of_lookup_2]).
  apply fmap_nil_inv in Hf. rewrite Hf in Hin. by apply elem_of_nil in Hin.
Qed.

Lemma nonempty_false {A} (l : list A) : nonempty l = false → l = [].
Proof. by destruct l. Qed.

(** A comparison that finds nothing: the paths and the identities agree. *)
Lemma compare_scan_clean previous rebuilt committed configs states configs' f p :
  compare_scan previous rebuilt committed configs states configs' = Some f →
  sf_membership_changed f || nonempty (sf_changed f) || nonempty (sf_config_changed f) = false →
  p ∈ ti_paths rebuilt → committed !! p = states !! p.
Proof.
  unfold compare_scan. destruct (changed_paths _ _ _) as [changed|] eqn:Hc; simpl; [|done]. intros [= <-]; simpl.
  intros [[[[Hcr%nonempty_false _]%orb_false_iff _]%orb_false_iff Hch%nonempty_false]%orb_false_iff _]%orb_false_iff Hp. subst changed.
  eapply changed_paths_none; [exact Hc|]. apply sorted_set_elem, list_elem_of_filter. split; [|done].
  destruct (decide (p ∈ ti_paths previous)) as [|Hn]; [done|]. exfalso.
  assert (p ∈ sorted_difference (ti_paths rebuilt) (ti_paths previous)) as Hin by (by apply sorted_set_elem, list_elem_of_filter).
  rewrite Hcr in Hin. by apply elem_of_nil in Hin.
Qed.

(** A scan of the disk inside the calls [t]: the factory listed [rebuilt], and
    every file of it was observed and can be trusted. *)
Definition scanned (t : list (tevent (C := rcall) (R := ranswer))) (rebuilt : TrustInventory) (observed : list TargetedPathState) : Prop :=
  ∃ ta tb tc, t = ta ++ os_events tb ++ tc ∧ TEv (R := ranswer) RInventory (Ok rebuilt) ∈ ta ∧
    exec (targeted_states sha256_hex read_fuel rebuilt (ti_paths rebuilt)) tb (Ok observed) ∧ Forall (λ x, tp_trusted x = true) observed.

Lemma rebuild_inventory_ok rely (s : Runtime T) t i s' :
  texec rely (rebuild_inventory identity) s t (Ok i) s' → TEv (R := ranswer) RInventory (Ok i) ∈ t.
Proof.
  intros (j & s1 & t1 & t2 & -> & H1 & H2)%texec_bind_ok. apply texec_inv in H1 as (s2 & a & t3 & _ & -> & (-> & <- & _)%texec_inv).
  apply texec_bind_ok in H2 as (resolved & s3 & t4 & t5 & -> & _ & H3). case_bool_decide; apply texec_inv in H3 as (_ & [= ->] & _).
  apply elem_of_app. left. by left.
Qed.

Lemma unsafe_none (observed config_states : list TargetedPathState) :
  (tp_path <$> filter (λ x, tp_trusted x = false) observed) ++ (tp_path <$> filter (λ x, unsafe_config x = true) config_states) = [] →
  Forall (λ x, tp_trusted x = true) observed.
Proof.
  intros [Hf%fmap_nil_inv _]%app_nil. apply Forall_forall. intros x Hx. destruct (tp_trusted x) eqn:Ht; [done|].
  assert (x ∈ filter (λ x, tp_trusted x = false) observed) as Hin by (by apply list_elem_of_filter). rewrite Hf in Hin. by apply elem_of_nil in Hin.
Qed.

(** *** What a scan that commits nothing has seen *)

Lemma advances_eq (s1 s2 : Runtime T) :
  advances s1 s2 → fc_version (wr_freshness s2) = fc_version (wr_freshness s1) → fc_states (wr_freshness s2) = fc_states (wr_freshness s1).
Proof. intros [_ F] Hv. by destruct F. Qed.

Lemma reconcile_scan_counts rebuilt states configs f (s : Runtime T) t scan s' :
  texec advances (reconcile_scan t_zero default_max_wait default_retry_after family_order rebuilt states configs f) s t (Ok scan) s' →
  fc_version (wr_freshness s) < fc_version (wr_freshness s').
Proof.
  intros (projections & s1 & t1 & t2 & -> & H1 & (u & s2 & t3 & t4 & -> & H2 & H3)%texec_bind_ok)%texec_bind_ok.
  apply texec_guar with (G := advances) in H1 as [V1 _]; [|apply _|done|by guar_steps].
  apply texec_guar with (G := advances) in H3 as [V3 _]; [|apply _|done|by unfold try_install; guar_steps].
  apply texec_inv in H2 as (s3 & [V0 _]%rtc_advances & _ & (_ & _ & [V2 _]%rtc_advances)%texec_inv). simpl in V2. lia.
Qed.

(** A scan of the whole workspace observes every file the factory lists; if the version stays, the committed identities are
    the observed ones. *)
Lemma scan_root_seen (s : Runtime T) t scan s' :
  texec advances (_scan_root t_zero default_max_wait default_retry_after sha256_hex read_fuel identity family_order) s t (Ok scan) s' →
  ∃ rebuilt observed, scanned t rebuilt observed ∧
    (fc_version (wr_freshness s') = fc_version (wr_freshness s) →
     ∀ p, p ∈ ti_paths rebuilt → fc_states (wr_freshness s) !! p = identities observed !! p).
Proof.
  intros H. unfold _scan_root in H.
  apply texec_bind_ok in H as (? & s1 & t1 & ? & -> & H1 & (? & s2 & t2 & ? & -> & H2 & H)%texec_bind_ok).
  apply texec_bind_ok in H as (previous & s3 & t3 & ? & -> & H3 & (rebuilt & s4 & t4 & ? & -> & H4 & H)%texec_bind_ok).
  pose proof (rebuild_inventory_ok _ _ _ _ _ H4) as Hinv.
  apply texec_bind_ok in H as (observed & s5 & t5 & ? & -> & H5 & (config_states & s6 & t6 & t7 & -> & H6 & H)%texec_bind_ok).
  pose proof H5 as (tb & r & -> & Hex & Hr)%lift_os_exec. destruct r as [observed'|]; simplify_eq.
  assert (advances s s6) as H06.
  { apply texec_guar with (G := advances) in H1; [|apply _|done|by guar_steps].
    apply texec_guar with (G := advances) in H2; [|apply _|done|by guar_steps].
    apply texec_guar with (G := advances) in H3; [|apply _|done|by guar_steps].
    apply texec_guar with (G := advances) in H4; [|apply _|done|by guar_steps].
    apply texec_guar with (G := advances) in H5; [|apply _|done|by guar_steps].
    apply texec_guar with (G := advances) in H6; [|apply _|done|by guar_steps]. by repeat (etrans; [eassumption|]). }
  destruct (nonempty _) eqn:Hsafe; [by apply texec_inv in H as (_ & ? & _)|]. apply nonempty_false, unsafe_none in Hsafe.
  exists rebuilt, observed'. split.
  { exists (t1 ++ t2 ++ t3 ++ t4), tb, (t6 ++ t7). split_and!; [by rewrite <-!app_assoc|set_solver|done..]. }
  apply texec_bind_ok in H as (committed & s7 & t8 & t9 & -> & Hcom & H).
  apply texec_inv in Hcom as (s8 & H8%rtc_advances & _ & (_ & [= ->] & H87%rtc_advances)%texec_inv).
  destruct (compare_scan _ _ _ _ _ _) as [f|] eqn:Hcmp; [|by apply texec_inv in H as (_ & ? & _)].
  pose proof (av_version _ _ H06) as V1. pose proof (av_version _ _ H8) as V2. pose proof (av_version _ _ H87) as V3. simpl in V3.
  destruct (sf_membership_changed f || nonempty (sf_changed f) || nonempty (sf_config_changed f)) eqn:Hclean; simpl in H.
  - apply reconcile_scan_counts in H. lia.
  - apply texec_inv in H as (_ & _ & Hs%rtc_advances). pose proof (av_version _ _ Hs) as V4. intros Hv p Hp.
    rewrite <-(advances_eq s s8) by (first [by etrans|lia]). by eapply compare_scan_clean.
Qed.

(** A targeted scan observes the requested files of the inventory. *)
Definition targeted (t : list (tevent (C := rcall) (R := ranswer))) (i : TrustInventory) (paths : list pystr) (observed : list TargetedPathState) : Prop :=
  ∃ ta tb tc, t = ta ++ os_events tb ++ tc ∧ exec (targeted_states sha256_hex read_fuel i paths) tb (Ok observed) ∧
    Forall (λ x, tp_trusted x = true) observed.

Lemma refresh_seen states (s : Runtime T) x :
  fc_version (refresh_states states (wr_freshness s)).1 = fc_version (wr_freshness s) → x ∈ states →
  fc_states (wr_freshness s) !! tp_path x = Some (content_identity x).
Proof.
  unfold refresh_states. destruct (filter _ states) as [|y l] eqn:Hf; simpl; [|intros Hv; exfalso; lia]. intros _ Hx.
  destruct (decide (fc_states (wr_freshness s) !! tp_path x = Some (content_identity x))) as [|Hne]; [done|].
  assert (x ∈ filter (λ x, fc_states (wr_freshness s) !! tp_path x ≠ Some (content_identity x)) states) as Hin by by apply list_elem_of_filter.
  rewrite Hf in Hin. by apply elem_of_nil in Hin.
Qed.

Definition selected (i : TrustInventory) (paths : list pystr) : list pystr := sorted_set (filter (λ p, inventory_contains i p = true) paths).

Lemma refresh_paths_seen paths (s : Runtime T) t scan s' :
  texec advances (_refresh_paths sha256_hex read_fuel paths) s t (Ok scan) s' →
  ∃ s1 observed, advances s s1 ∧ targeted t (wr_inventory s1) (selected (wr_inventory s1) paths) observed ∧
    (fc_version (wr_freshness s') = fc_version (wr_freshness s) →
     ∀ x, x ∈ observed → fc_states (wr_freshness s) !! tp_path x = Some (content_identity x)).
Proof.
  intros H. unfold _refresh_paths in H. apply texec_bind_ok in H as (u & s1 & t1 & ? & -> & H1 & H).
  apply texec_guar with (G := advances) in H1; [|apply _|done|by guar_steps].
  apply texec_bind_ok in H as (i & s2 & t2 & t3 & -> & H2 & H).
  apply texec_inv in H2 as (s3 & H3%rtc_advances & _ & (-> & [= ->] & H32%rtc_advances)%texec_inv).
  assert (advances s s3) as Hs3 by by etrans. exists s3. fold (selected (wr_inventory s3) paths) in H.
  destruct (selected (wr_inventory s3) paths) as [|q l] eqn:Hsel; cbn [nonempty negb] in H.
  - apply texec_inv in H as (-> & _ & _). exists []. split_and!; [done| |intros _ z Hz; by apply elem_of_nil in Hz].
    exists (t1 ++ []), [], []. split_and!; [by rewrite !app_nil_r|constructor|done].
  - apply texec_bind_ok in H as (states & s4 & t4 & t5 & -> & H4 & H).
    pose proof H4 as (tb & r & -> & Hex & Hr)%lift_os_exec. destruct r as [states'|]; simplify_eq.
    apply texec_guar with (G := advances) in H4; [|apply _|done|by guar_steps].
    destruct (nonempty _) eqn:Hsafe; [by apply texec_inv in H as (_ & ? & _)|]. apply nonempty_false, fmap_nil_inv in Hsafe.
    exists states'. split_and!; [done| |].
    { exists (t1 ++ []), tb, t5. split_and!; [by rewrite <-!app_assoc|done|]. apply Forall_forall. intros x Hx.
      destruct (tp_trusted x) eqn:Ht; [done|]. assert (x ∈ filter (λ x, tp_trusted x = false) states') as Hin by by apply list_elem_of_filter.
      rewrite Hsafe in Hin. by apply elem_of_nil in Hin. }
    apply texec_bind_ok in H as (changed & s5 & t6 & t7 & -> & H5 & H).
    apply texec_inv in H5 as (s6 & H46%rtc_advances & _ & (_ & _ & H65%rtc_advances)%texec_inv).
    pose proof (refresh_advances states' s6) as Hr6.
    destruct (refresh_states states' (wr_freshness s6)) as [c l'] eqn:Href. cbn [fst] in H65, Hr6.
    apply texec_guar with (G := advances) in H; [|apply _|done|by guar_steps].
    assert (advances s s6) as H06 by (etrans; [exact Hs3|]; etrans; [exact H32|]; by etrans).
    pose proof (av_version _ _ H06) as V1. pose proof (av_version _ _ Hr6) as V2. pose proof (av_version _ _ H65) as V3.
    pose proof (av_version _ _ H) as V4. cbn [wr_freshness set_freshness] in V2, V3. intros Hv x Hx.
    rewrite <-(advances_eq s s6) by (done || lia). apply (refresh_seen states'); [rewrite Href; cbn [fst]; lia|done].
Qed.

(** The scan an admission makes, and the moment it reports *)
Lemma admitted_scan_parts scanner w (s : Runtime T) t a s' :
  texec advances (admitted_scan scanner w) s t (Ok a) s' →
  ∃ sa ta scan sb sc, advances s sa ∧ texec advances scanner sa ta (Ok scan) sb ∧ advances sb sc ∧ advances sc s' ∧
    a = admission_of scan w (wr_freshness sc) ∧ ∃ t1 t2, t = t1 ++ ta ++ t2.
Proof.
  intros (ticket & s1 & t1 & t2 & -> & H1 & (s2 & t3 & t4 & -> & H2 & H3)%texec_finally_ok)%texec_bind_ok.
  apply texec_guar with (G := advances) in H1; [|apply _|done|unfold _enter_admission_queue; guar_steps; facts].
  apply texec_guar with (G := advances) in H3; [|apply _|done|unfold _leave_admission_queue; guar_steps; facts].
  apply texec_bind_ok in H2 as (scan & s3 & t5 & t6 & -> & H4 & (u & s4 & t7 & t8 & -> & H5 & H6)%texec_bind_ok).
  apply texec_guar with (G := advances) in H5; [|apply _|done|guar_steps; facts].
  apply texec_inv in H6 as (s5 & Hs5%rtc_advances & _ & (-> & [= ->] & Hs2%rtc_advances)%texec_inv).
  exists s1, t5, scan, s3, s5. split_and!; [done|done|by etrans|by etrans|done|]. exists t1, ((t7 ++ []) ++ t4). by rewrite <-!app_assoc.
Qed.

(** The files the scan after an operation looked at have the identities that were committed in [s1]: every file the factory
    lists, or for a directory without Git the requested files of the inventory *)
Definition rescanned (scope : option (list pystr)) (s2 : Runtime T) (t : list (tevent (C := rcall) (R := ranswer))) (s1 : Runtime T) : Prop :=
  match scope with
  | Some paths =>
      if bool_decide (wi_kind identity = WK_GIT)
      then ∃ rebuilt observed, scanned t rebuilt observed ∧ ∀ p, p ∈ ti_paths rebuilt → fc_states (wr_freshness s1) !! p = identities observed !! p
      else ∃ s3 observed, advances s2 s3 ∧ targeted t (wr_inventory s3) (selected (wr_inventory s3) paths) observed ∧
             ∀ x, x ∈ observed → fc_states (wr_freshness s1) !! tp_path x = Some (content_identity x)
  | None => ∃ rebuilt observed, scanned t rebuilt observed ∧ ∀ p, p ∈ ti_paths rebuilt → fc_states (wr_freshness s1) !! p = identities observed !! p
  end.

Abbreviation admit_fresh_read := (_admit_fresh_read t_zero default_max_wait default_retry_after sha256_hex read_fuel identity family_order).

Lemma root_rescanned w (s1 s2 : Runtime T) t a s3 :
  advances s1 s2 → ad_version a = fc_version (wr_freshness s1) → texec advances (ensure_root w) s2 t (Ok a) s3 →
  ∃ rebuilt observed, scanned t rebuilt observed ∧ ∀ p, p ∈ ti_paths rebuilt → fc_states (wr_freshness s1) !! p = identities observed !! p.
Proof.
  intros H12 Hv (sa & ta & scan & sb & sc & Ha & Hscan & Hb & _ & -> & t1 & t2 & ->)%admitted_scan_parts. simpl in Hv.
  pose proof Hscan as Hadv. apply texec_guar with (G := advances) in Hadv; [|apply _|done|by guar_steps].
  apply scan_root_seen in Hscan as (rebuilt & observed & (xa & xb & xc & -> & ? & ? & ?) & Heq). exists rebuilt, observed. split.
  { exists (t1 ++ xa), xb, (xc ++ t2). split_and!; [by rewrite <-!app_assoc|set_solver|done..]. }
  pose proof (av_version _ _ H12). pose proof (av_version _ _ Ha). pose proof (av_version _ _ Hadv). pose proof (av_version _ _ Hb).
  intros p Hp. rewrite <-(advances_eq s1 sa) by (first [by etrans|lia]). apply Heq; [lia|done].
Qed.

Lemma admission_rescanned scope w (s1 s2 : Runtime T) t a s3 :
  advances s1 s2 → ad_version a = fc_version (wr_freshness s1) → texec advances (admit_fresh_read scope w) s2 t (Ok a) s3 →
  rescanned scope s2 t s1.
Proof.
  intros H12 Hv. unfold _admit_fresh_read, rescanned. destruct scope as [paths|]; [|by apply root_rescanned].
  case_bool_decide as Hgit; [by apply root_rescanned|]. unfold ensure_paths_fresh_admitted. rewrite bool_decide_eq_false_2 by done.
  intros (sa & ta & scan & sb & sc & Ha & Hscan & Hb & _ & -> & t1 & t2 & ->)%admitted_scan_parts. simpl in Hv.
  pose proof Hscan as Hadv. apply texec_guar with (G := advances) in Hadv; [|apply _|done|by guar_steps].
  apply refresh_paths_seen in Hscan as (sx & observed & Hx & (xa & xb & xc & -> & ? & ?) & Heq). exists sx, observed. split_and!.
  - by etrans.
  - exists (t1 ++ xa), xb, (xc ++ t2). split_and!; [by rewrite <-!app_assoc|done..].
  - pose proof (av_version _ _ H12). pose proof (av_version _ _ Ha). pose proof (av_version _ _ Hadv). pose proof (av_version _ _ Hb).
    intros x Hin. rewrite <-(advances_eq s1 sa) by (first [by etrans|lia]). apply Heq; [lia|done].
Qed.

(** An attempt that nothing raced with. The scan before the operation, the operation, and, for an answer that states something
    about sources, the scan after it and the comparison follow each other in the run; the two scans report the same
    version, the committed facts stood still while the operation ran, and what the second scan saw on disk and every byte
    identity the operation recorded agree with them. *)
Definition linearized (op : rthread reply) (scope : option (list pystr)) (r : reply) (t : list (tevent (C := rcall) (R := ranswer))) : Prop :=
  ∃ s0 tb t0 admitted s1 t1 paths w s2 t2,
    t = tb ++ t0 ++ t1 ++ t2 ∧
    texec advances (admit_fresh_read scope []) s0 t0 (Ok admitted) s1 ∧
    texec advances (read_attempt identity op) s1 t1 (Ok (r, paths, w)) s2 ∧
    if _result_is_source_derived r w then
      let final_scope := (λ l, sorted_set (l ++ (rw_source w).*1 ++ paths)) <$> scope in
      ∃ final t3 t4 s3, t2 = t3 ++ t4 ∧ texec advances (admit_fresh_read final_scope (rw_source w).*1) s2 t3 (Ok final) s3 ∧
        ad_version final = ad_version admitted ∧ same_facts s1 s2 ∧ rescanned final_scope s2 t3 s1 ∧
        sources_hold (rw_source w) s1 ∧ externals_hold (rw_external w) t4
    else t2 = [].

Definition raced (r : reply) : Prop := ∃ e, r = inr e ∧ er_code e = EC_NOT_READY ∧ er_retry e = Some retry_soon.

Lemma squeezed (s0 s1 s2 s3 : Runtime T) :
  advances s0 s1 → advances s1 s2 → advances s2 s3 → fc_version (wr_freshness s3) = fc_version (wr_freshness s0) →
  same_facts s1 s2 ∧ fc_states (wr_freshness s1) = fc_states (wr_freshness s3).
Proof.
  intros [V0 _] [V1 F1] [V2 F2] Hv. destruct F1 as [E1 C1]; [lia|]. destruct F2 as [E2 C2]; [lia|].
  split; [|congruence]. split_and!; [lia|congruence..].
Qed.

Lemma attempt_linearized op scope (s0 s1 s2 s5 s6 : Runtime T) t1 t2 t3 admitted paths w r final final_scope :
  guar advances op → reports [] s0 s1 admitted →
  texec advances (read_attempt identity op) s1 t1 (Ok (r, paths, w)) s2 →
  final_scope = (λ l, sorted_set (l ++ (rw_source w).*1 ++ paths)) <$> scope →
  texec advances (admit_fresh_read final_scope (rw_source w).*1) s2 t2 (Ok final) s5 →
  texec advances (_fresh_read_change_evidence sha256_hex read_fuel admitted final w) s5 t3 (Ok None) s6 →
  ad_version final = ad_version admitted ∧ same_facts s1 s2 ∧ rescanned final_scope s2 t2 s1 ∧
  sources_hold (rw_source w) s1 ∧ externals_hold (rw_external w) t3.
Proof.
  intros Hop (sa & Ha1 & Ha2 & Ha) Hop' -> Hfin Hev. pose proof (admit_fresh_read_reports _ _ _ _ _ _ Hfin) as (sf & Hf1 & Hf2 & Hf).
  apply change_evidence_none in Hev as (Hv & Hm & Hx).
  assert (advances s1 s2) as H12 by (eapply texec_guar in Hop'; [exact Hop'|apply _|done|]; apply guar_read_attempt; [apply _| |done];
    intros x y ?; by apply same_facts_advances, quiet_facts, coordinator_quiet, frame_coordinator).
  assert (fc_version (wr_freshness sf) = fc_version (wr_freshness sa)) as Hvs by (rewrite Ha, Hf in Hv; exact Hv).
  destruct (squeezed sa s1 s2 sf) as [Hsame Hstates]; [done..|]. split_and!; [done|done| | |done].
  - eapply admission_rescanned; [exact H12| |exact Hfin]. rewrite Hf. simpl. pose proof (av_version _ _ Ha2).
    pose proof (av_version _ _ H12). pose proof (av_version _ _ Hf1). lia.
  - intros path ds d Hw Hd. pose proof (mismatched_none _ _ Hm path ds d Hw Hd) as Hdig. rewrite Hf, admission_digest in Hdig.
    + rewrite Hstates. congruence.
    + apply list_elem_of_fmap. by exists (path, ds).
Qed.

Lemma changed_during_read_raced rely attempt changed admitted final (s : Runtime T) t r s' :
  texec rely (changed_during_read identity attempt changed admitted final) s t (Ok r) s' → raced r.
Proof.
  intros (w & s1 & t1 & t2 & -> & _ & (e & s2 & t3 & t4 & -> & H & (_ & [= ->] & _)%texec_inv)%texec_bind_ok)%texec_bind_ok.
  exists e. split; [done|]. unfold lift_env in H. destruct (error _ _ _ _ _ _) as [e'|] eqn:He; apply texec_inv in H as (_ & [= ->] & _).
  unfold error, error_envelope_init in He. repeat (apply res_bind_Ok in He as (? & _ & He)). case_match; simplify_eq. done.
Qed.

(** One turn of the loop: it returns what [linearized] or [raced] describe, or
    it is followed by the next turn *)
Lemma fresh_read_turn n op scope s t r s' :
  guar advances op →
  texec advances (fresh_read_attempts t_zero default_max_wait default_retry_after sha256_hex read_fuel identity family_order (S n) op scope) s t (Ok r) s' →
  linearized op scope r t ∨ (n = 0%nat ∧ raced r) ∨
  ∃ s1 t1 t2, n ≠ 0%nat ∧ t = t1 ++ t2 ∧
    texec advances (fresh_read_attempts t_zero default_max_wait default_retry_after sha256_hex read_fuel identity family_order n op scope) s1 t2 (Ok r) s'.
Proof.
  intros Hop H. cbn [fresh_read_attempts] in H.
  apply texec_bind_ok in H as (u & sa & ta & tb & -> & _ & (admitted & s1 & tc & td & -> & Hadm & H)%texec_bind_ok).
  apply texec_bind_ok in H as ([[result paths] w] & s2 & te & tf & -> & Hatt & H).
  destruct (_result_is_source_derived result w) eqn:Hd; simpl in H.
  2: { apply texec_inv in H as (-> & [= ->] & _). left. exists sa, ta, tc, admitted, s1, te, paths, w, s2, []. rewrite Hd.
    split_and!; done. }
  apply texec_bind_ok in H as (final & s3 & tg & th & -> & Hfin & (changed & s4 & ti & tj & -> & Hev & H)%texec_bind_ok).
  destruct changed as [changed|].
  - destruct n as [|n].
    + right; left. split; [done|]. by eapply changed_during_read_raced.
    + right; right. exists s4, (ta ++ tc ++ te ++ tg ++ ti), tj. split_and!; [done|by rewrite <-!app_assoc|done].
  - apply texec_inv in H as (-> & [= ->] & _). left.
    pose proof (attempt_linearized op scope _ _ _ _ _ _ _ _ _ _ _ _ _ _ Hop (admit_fresh_read_reports _ _ _ _ _ _ Hadm) Hatt eq_refl Hfin Hev) as (? & ? & ? & ? & ?).
    exists sa, ta, tc, admitted, s1, te, paths, w, s2, (tg ++ ti). rewrite Hd. split_and!; [by rewrite app_nil_r|done|done|].
    exists final, tg, ti, s3. by split_and!.
Qed.

(** C4: While other scans of the workspace run at any time, a read transaction
    returns only two kinds of answers. One is the answer of one run of the
    operation after a scan of the workspace; if that answer states something about
    sources, a second scan of the workspace followed it, which read the files
    from disk again and found the committed identities, both scans reported the
    same version, so that nothing was committed in between, every source digest
    the operation recorded is the committed one, and every external file it
    recorded was observed again with the recorded digest. The other is the
    retryable [NOT_READY], after the bounded number of attempts. *)
Theorem fresh_read_linearized op scope s t r s' :
  guar advances op → texec advances (run_fresh_read op scope) s t (Ok r) s' → linearized op scope r t ∨ raced r.
Proof.
  intros Hop. unfold _run_fresh_read, MAX_FRESH_READ_ATTEMPTS. intros H. apply fresh_read_turn in H as [?|[[? _]|H]]; [by left|done| |done].
  destruct H as (s1 & t1 & t2 & _ & -> & H). apply fresh_read_turn in H as [Hl|[[_ ?]|H]]; [|by right| |done].
  - left. destruct Hl as (s0 & tb & t0 & admitted & sx & t3 & paths & w & s2 & t4 & -> & Hl).
    exists s0, (t1 ++ tb), t0, admitted, sx, t3, paths, w, s2, t4. by rewrite <-!app_assoc.
  - by destruct H as (? & ? & ? & ? & _).
Qed.

(** ** What an admission reports of its own scan *)

Lemma reconcile_scan_facts (rely : relation (Runtime T)) rebuilt states configs f (s : Runtime T) t scan s' :
  (∀ x y, rely x y → same_facts x y) →
  texec rely (reconcile_scan t_zero default_max_wait default_retry_after family_order rebuilt states configs f) s t (Ok scan) s' →
  fc_states (wr_freshness s') = states ∧ fc_version (wr_freshness s') = fc_version (wr_freshness s) + 1.
Proof.
  intros Hrely (projections & s1 & t1 & t2 & -> & H1 & (u & s2 & t3 & t4 & -> & H2 & H3)%texec_bind_ok)%texec_bind_ok.
  apply texec_guar with (G := same_facts) in H1 as (Hv & _ & _); [|apply _|done|by guar_steps].
  apply texec_guar with (G := same_facts) in H3 as (Hv3 & Hs3 & _); [|apply _|done|by unfold try_install; guar_steps].
  apply texec_inv in H2 as (s3 & Hr & _ & (_ & _ & Hr')%texec_inv).
  assert (same_facts s1 s3) as (Hv1 & _) by by apply (rtc_guar _ rely).
  assert (same_facts (on_freshness (commit states configs) s3) s2) as (Hv2 & Hs2 & _) by by apply (rtc_guar _ rely).
  rewrite Hs3, Hs2, Hv3, Hv2. simpl. split; [done|lia].
Qed.

Lemma scan_root_commits (rely : relation (Runtime T)) (s : Runtime T) t scan s' :
  (∀ x y, rely x y → same_facts x y) →
  texec rely (_scan_root t_zero default_max_wait default_retry_after sha256_hex read_fuel identity family_order) s t (Ok scan) s' →
  ∃ rebuilt observed, scanned t rebuilt observed ∧
    ∀ p, p ∈ ti_paths rebuilt → fc_states (wr_freshness s') !! p = identities observed !! p.
Proof.
  intros Hrely H. unfold _scan_root in H.
  apply texec_bind_ok in H as (? & s1 & t1 & ? & -> & _ & (? & s2 & t2 & ? & -> & _ & H)%texec_bind_ok).
  apply texec_bind_ok in H as (previous & s3 & t3 & ? & -> & _ & (rebuilt & s4 & t4 & ? & -> & Hinv%rebuild_inventory_ok & H)%texec_bind_ok).
  apply texec_bind_ok in H as (observed & s5 & t5 & ? & -> & Hobs & (config_states & s6 & t6 & t7 & -> & _ & H)%texec_bind_ok).
  apply lift_os_exec in Hobs as (tb & r & -> & Hex & Hr). destruct r as [observed'|]; simplify_eq.
  destruct (nonempty _) eqn:Hsafe; [by apply texec_inv in H as (_ & ? & _)|]. apply nonempty_false, unsafe_none in Hsafe.
  exists rebuilt, observed'. split.
  { exists (t1 ++ t2 ++ t3 ++ t4), tb, (t6 ++ t7). split_and!; [by rewrite <-!app_assoc|set_solver|done..]. }
  apply texec_bind_ok in H as (committed & s7 & t8 & t9 & -> & Hcom & H).
  destruct (compare_scan _ _ _ _ _ _) as [f|] eqn:Hcmp; [|by apply texec_inv in H as (_ & ? & _)].
  destruct (sf_membership_changed f || nonempty (sf_changed f) || nonempty (sf_config_changed f)) eqn:Hclean; simpl in H.
  - apply (reconcile_scan_facts rely) in H as [-> _]; [|done]. done.
  - apply texec_inv in H as (_ & _ & Hs). apply (rtc_guar same_facts) in Hs as (_ & -> & _); [|done].
    apply texec_inv in Hcom as (s8 & _ & _ & (_ & [= ->] & Hs8)%texec_inv). apply (rtc_guar same_facts) in Hs8 as (_ & -> & _); [|done].
    intros p Hp. by eapply compare_scan_clean.
Qed.

(** A whole-root admission reports evidence of its own scan. While it holds
    its ticket, so that no other call commits, its calls contain a listing of the
    inventory and an observation of every file in it, each of which could be
    trusted, and the digest it reports for a witnessed file of that inventory is
    the one it observed. *)
Theorem admission_reports_own_scan (rely : relation (Runtime T)) w s t a s' :
  (∀ x y, rely x y → same_facts x y) → texec rely (ensure_root w) s t (Ok a) s' →
  ∃ rebuilt observed, scanned t rebuilt observed ∧
    ∀ p, p ∈ w → p ∈ ti_paths rebuilt → dict_get (ad_digests a) p = Some (_committed_digest (identities observed !! p)).
Proof.
  intros Hrely (ticket & s1 & t1 & t2 & -> & _ & (s2 & t3 & t4 & -> & H2 & _)%texec_finally_ok)%texec_bind_ok.
  apply texec_bind_ok in H2 as (scan & s3 & t5 & t6 & -> & Hscan & (u & s4 & t7 & t8 & -> & Hlast & Hadm)%texec_bind_ok).
  apply (scan_root_commits rely) in Hscan as (rebuilt & observed & (ta & tb & tc & -> & ? & ? & ?) & Hstates); [|done].
  exists rebuilt, observed. split.
  { exists (t1 ++ ta), tb, (tc ++ t7 ++ t8 ++ t4). split_and!; [by rewrite <-!app_assoc|set_solver|done..]. }
  apply (texec_guar same_facts) in Hlast as (_ & Hl & _); [|done|by guar_steps].
  apply texec_inv in Hadm as (s5 & Hs5 & _ & (_ & [= ->] & _)%texec_inv). apply (rtc_guar same_facts) in Hs5 as (_ & Hs5 & _); [|done].
  intros p Hw Hp. rewrite admission_digest by done. by rewrite Hs5, Hl, Hstates.
Qed.
End guarantees.
