(* ===== verification/Admission.v ===== *)
(** * The admission queue of freshness scans

    Every scan takes a ticket, waits until it is served, scans, and hands the
    turn to the next ticket ([FreshnessCoordinator] of
    [src/serena_light/workspace/runtime.py]). Here the scans, reads and
    shutdowns of a workspace run as a pool of threads, in any number and any
    interleaving. A thread is outside the queue, waiting or inside ([phase]); the
    invariant [queue_ok] ties the phases of all threads to the two counters of the
    coordinator. It yields mutual exclusion, the order of service, that no
    ticket is lost, and that only the thread inside moves the committed facts,
    which is what the theorems on a single scan rely on. *)

From S2P Require Import Prelude Paths Positions Json Scope Envelopes Executor Editing EditLogic FileSystem Identity PathTree Inventory Threads RuntimeState Freshness FreshReads FreshProps.

Inductive phase := Outside | Waiting (ticket : Z) | Inside (ticket : Z).
#[export] Instance phase_eq_dec : EqDecision phase.
Proof. solve_decision. Defined.

Definition ticket_of (p : phase) : option Z := match p with Outside => None | Waiting t | Inside t => Some t end.

Section discipline.
Context {T : Type}.
Abbreviation rthread := (thread (Runtime T) rcall rexn ranswer).
Implicit Types s : Runtime T.

Definition next_ticket s : Z := fc_next_ticket (wr_freshness s).
Definition serving_ticket s : Z := fc_serving_ticket (wr_freshness s).

(** The committed facts and the table of batches did not change. *)
Definition apart s s' : Prop := same_facts s s' ∧ reconciles s' = reconciles s.

(** The counters after a ticket is issued, and after ticket [t] has been served *)
Definition issued s s' : Prop := apart s s' ∧ next_ticket s' = next_ticket s + 1 ∧ serving_ticket s' = serving_ticket s.
Definition served (t : Z) s s' : Prop := next_ticket s' = next_ticket s ∧ serving_ticket s' = t + 1.

(** A thread in a phase keeps to the queue, and ends in a phase that [post]
    allows: outside it takes a ticket or leaves facts and counters alone; waiting it
    can move exactly when its ticket is served; inside it may change the facts. *)
Fixpoint keeps_queue {A} (post : phase → Prop) (ph : phase) (p : rthread A) : Prop :=
  match p with
  | TRet _ => post ph
  | TCall _ k => match ph with Waiting _ => False | _ => ∀ a, keeps_queue post ph (k a) end
  | TStep g f k =>
      match ph with
      | Outside => ∀ s, g s = true →
          (same_coordinator s (f s) ∧ keeps_queue post Outside (k s)) ∨ (issued s (f s) ∧ keeps_queue post (Waiting (next_ticket s)) (k s))
      | Waiting t => ∀ s, (g s = true ↔ serving_ticket s = t) ∧ same_coordinator s (f s) ∧ keeps_queue post (Inside t) (k s)
      | Inside t => ∀ s, g s = true →
          (same_tickets s (f s) ∧ keeps_queue post (Inside t) (k s)) ∨ (served t s (f s) ∧ keeps_queue post Outside (k s))
      end
  end.

Lemma keeps_queue_try {A B} post ph (p : rthread A) (h : res rexn A → rthread B) :
  keeps_queue (λ ph', ∀ r, keeps_queue post ph' (h r)) ph p → keeps_queue post ph (ttry p h).
Proof.
  revert ph. induction p as [r|g f k IH|c k IH]; intros ph; simpl; [auto| |].
  - destruct ph as [|t|t]; intros Hp s.
    + intros Hg. destruct (Hp s Hg) as [[? ?]|[? ?]]; eauto.
    + destruct (Hp s) as (? & ? & ?). eauto.
    + intros Hg. destruct (Hp s Hg) as [[? ?]|[? ?]]; eauto.
  - destruct ph as [|t|t]; [|done|]; auto.
Qed.

Lemma keeps_queue_mono {A} (post post' : phase → Prop) ph (p : rthread A) :
  keeps_queue post ph p → (∀ ph, post ph → post' ph) → keeps_queue post' ph p.
Proof.
  intros Hp Hpost. revert ph Hp. induction p as [r|g f k IH|c k IH]; intros ph; simpl; [auto| |].
  - destruct ph as [|t|t]; intros Hp s.
    + intros Hg. destruct (Hp s Hg) as [[? ?]|[? ?]]; eauto.
    + destruct (Hp s) as (? & ? & ?). eauto.
    + intros Hg. destruct (Hp s Hg) as [[? ?]|[? ?]]; eauto.
  - destruct ph as [|t|t]; [|done|]; eauto.
Qed.

Lemma keeps_queue_bind {A B} post ph (p : rthread A) (q : A → rthread B) :
  keeps_queue (λ ph', post ph' ∧ ∀ a, keeps_queue post ph' (q a)) ph p → keeps_queue post ph (p ≫= q).
Proof. intros Hp. apply keeps_queue_try. eapply keeps_queue_mono; [exact Hp|]. intros ph' [? ?] [a|e]; [done|]. by destruct ph'. Qed.

(** Threads that leave the queue alone *)
Lemma keeps_queue_outside {A} (post : phase → Prop) (p : rthread A) : post Outside → guar same_coordinator p → keeps_queue post Outside p.
Proof. intros Hpost. induction p as [r|g f k IH|c k IH]; simpl; [done| |auto]. intros Hp s Hg. left. destruct (Hp s Hg). auto. Qed.

Lemma keeps_queue_inside {A} (post : phase → Prop) t (p : rthread A) : post (Inside t) → guar same_tickets p → keeps_queue post (Inside t) p.
Proof. intros Hpost. induction p as [r|g f k IH|c k IH]; simpl; [done| |auto]. intros Hp s Hg. left. destruct (Hp s Hg). auto. Qed.

Lemma keeps_queue_leave (post : phase → Prop) t : post Outside → keeps_queue post (Inside t) (_leave_admission_queue (T:=T) t).
Proof. intros Hpost s _. right. by split. Qed.

Lemma keeps_queue_admitted (post : phase → Prop) scanner w :
  post Outside → guar same_tickets scanner → keeps_queue post Outside (admitted_scan (T:=T) scanner w).
Proof.
  intros Hpost Hs s _. right. split; [by split_and!|]. simpl. intros s'. split_and!; [apply bool_decide_eq_true|done|].
  apply keeps_queue_try, keeps_queue_inside.
  - intros r. apply keeps_queue_bind. apply keeps_queue_leave. by split.
  - unfold _admission. apply guar_bind; [done|]. intros scan. apply guar_bind; [by intros s1 _|]. intros _ s1 _. by split.
Qed.

(** ** The pool *)

(** [serving] and [next] against the phases of all threads *)
Record queue_ok (serving next : Z) (phs : list phase) : Prop := {
  qo_order : serving ≤ next;
  qo_distinct : NoDup (omap ticket_of phs);
  qo_inside : ∀ t, Inside t ∈ phs → t = serving;
  qo_tickets : ∀ t, t ∈ omap ticket_of phs ↔ serving ≤ t < next;
}.

Inductive phase_move (serving next : Z) : phase → phase → Z → Z → Prop :=
| pm_stay ph : phase_move serving next ph ph serving next
| pm_issue : phase_move serving next Outside (Waiting next) serving (next + 1)
| pm_enter : phase_move serving next (Waiting serving) (Inside serving) serving next
| pm_leave t : phase_move serving next (Inside t) Outside (t + 1) next.

Lemma tickets_insert (phs : list phase) (i : nat) ph ph' :
  phs !! i = Some ph → omap ticket_of (<[i := ph']> phs) ≡ₚ omap ticket_of (ph' :: delete i phs) ∧
                       omap ticket_of phs ≡ₚ omap ticket_of (ph :: delete i phs).
Proof.
  intros Hi. pose proof (lookup_lt_Some _ _ _ Hi). split; apply omap_Permutation.
  - rewrite insert_take_drop, delete_take_drop by done. by rewrite Permutation_middle.
  - by apply delete_Permutation.
Qed.

Lemma inside_insert (phs : list phase) (i : nat) ph' t : Inside t ∈ <[i := ph']> phs → ph' = Inside t ∨ Inside t ∈ delete i phs.
Proof.
  intros Ht. destruct (decide (i < length phs)%nat) as [Hlt|Hge].
  - rewrite insert_take_drop in Ht by done. rewrite delete_take_drop, elem_of_app. apply elem_of_app in Ht as [?|[?|?]%elem_of_cons]; auto.
  - rewrite list_insert_ge in Ht by lia. right. rewrite delete_take_drop, take_ge by lia. apply elem_of_app. by left.
Qed.

Lemma inside_ticket t (phs : list phase) : Inside t ∈ phs → t ∈ omap ticket_of phs.
Proof. intros H. apply list_elem_of_omap. by exists (Inside t). Qed.

Lemma queue_move serving next serving' next' (phs : list phase) (i : nat) ph ph' :
  queue_ok serving next phs → phs !! i = Some ph → phase_move serving next ph ph' serving' next' → queue_ok serving' next' (<[i := ph']> phs).
Proof.
  intros [Hord Hnd Hin Hall] Hi Hmove. destruct (tickets_insert phs i ph ph' Hi) as [Hnew Hold].
  assert (∀ t, Inside t ∈ delete i phs → Inside t ∈ phs) as Hsub.
  { intros t Ht. rewrite (delete_Permutation _ _ _ Hi). by right. }
  pose proof (inside_insert phs i ph') as Hins. setoid_rewrite Hold in Hall. rewrite Hold in Hnd.
  destruct Hmove as [ph| | |t]; simpl in *.
  - rewrite list_insert_id by done. split; [done|by rewrite Hold|done|]. intros t. rewrite Hold. apply Hall.
  - split; [lia| | |].
    + rewrite Hnew. constructor; [|done]. rewrite Hall. lia.
    + intros t [?|?]%Hins; [done|]. auto.
    + intros t. rewrite Hnew, elem_of_cons, Hall. lia.
  - split; [done| | |].
    + by rewrite Hnew.
    + intros t [[= <-]|?]%Hins; auto.
    + intros t. by rewrite Hnew.
  - assert (t = serving) as -> by (apply Hin; by eapply list_elem_of_lookup_2).
    apply NoDup_cons in Hnd as [Hfresh Hnd]. assert (serving < next) by (apply (Hall serving); by left). split; [lia| | |].
    + by rewrite Hnew.
    + intros t' [?|Ht']%Hins; [done|]. destruct Hfresh. rewrite <-(Hin t') by auto. by apply inside_ticket.
    + intros t'. rewrite Hnew. specialize (Hall t'). rewrite elem_of_cons in Hall. split.
      * intros Ht'. assert (t' ≠ serving) by (by intros ->). assert (serving ≤ t' < next) by (apply Hall; auto). lia.
      * intros Ht'. destruct (proj2 Hall) as [?|?]; [lia|lia|done].
Qed.

Definition outside (ph : phase) : Prop := ph = Outside.

(** The threads of a pool with their phases *)
Definition pool_ok s (phs : list phase) (ps : list (rthread unit)) : Prop :=
  queue_ok (serving_ticket s) (next_ticket s) phs ∧ Forall2 (keeps_queue outside) phs ps.

Lemma coordinator_apart s s' : same_coordinator s s' → apart s s'.
Proof. intros Hs. split; [by apply quiet_facts, coordinator_quiet|]. unfold reconciles. by rewrite Hs. Qed.

Lemma thread_moves {A} post ph (p p' : rthread A) s s' :
  keeps_queue post ph p → tmove p s p' s' →
  ∃ ph', phase_move (serving_ticket s) (next_ticket s) ph ph' (serving_ticket s') (next_ticket s') ∧ keeps_queue post ph' p' ∧
    ((∀ t, ph ≠ Inside t) → apart s s').
Proof.
  intros Hp Hm. destruct Hm as [g f k s Hg|c k a s]; simpl in Hp.
  - destruct ph as [|t|t].
    + destruct (Hp s Hg) as [[Hs ?]|[[? [Hn Hs]] ?]].
      * exists Outside. unfold serving_ticket, next_ticket. rewrite Hs. split_and!; [constructor|done|]. intros _. by apply coordinator_apart.
      * exists (Waiting (next_ticket s)). rewrite Hn, Hs. split_and!; [constructor|done|done].
    + destruct (Hp s) as ([Ht _] & Hs & ?). specialize (Ht Hg). subst t. exists (Inside (serving_ticket s)).
      unfold serving_ticket, next_ticket in *. rewrite Hs. split_and!; [constructor|done|]. intros _. by apply coordinator_apart.
    + destruct (Hp s Hg) as [[[Hn Hs] ?]|[(Hn & Hs) ?]].
      * exists (Inside t). unfold serving_ticket, next_ticket. rewrite Hn, Hs. split_and!; [constructor|done|]. intros Hi. by destruct (Hi t).
      * exists Outside. rewrite Hn, Hs. split_and!; [constructor|done|]. intros Hi. by destruct (Hi t).
  - destruct ph as [|t|t]; [|done|]; [exists Outside|exists (Inside t)]; (split_and!; [constructor|done|done]).
Qed.

Lemma pool_ok_step start c c' phs :
  (∀ p, start p → keeps_queue outside Outside p) → pool_ok c.1 phs c.2 → pool_step start c c' → ∃ phs', pool_ok c'.1 phs' c'.2.
Proof.
  intros Hstart Hok Hstep. destruct Hstep as [s ps i p p' s' Hi Hm|s ps p Hp]; destruct Hok as [Hq Hps]; simpl in *.
  - destruct (Forall2_lookup_r _ _ _ _ _ Hps Hi) as (ph & Hph & Hk). destruct (thread_moves _ _ _ _ _ _ Hk Hm) as (ph' & Hmove & Hk' & _).
    exists (<[i := ph']> phs). split; [by eapply queue_move|]. by apply Forall2_insert.
  - exists (phs ++ [Outside]). split.
    + destruct Hq as [Ho Hn Hin Ht]. split; rewrite ?omap_app, ?app_nil_r; [done|done| |done].
      intros t [?|?%list_elem_of_singleton]%elem_of_app; [by apply Hin|done].
    + apply Forall2_app; [done|]. constructor; [by apply Hstart|constructor].
Qed.

Lemma pool_ok_steps start c c' phs :
  (∀ p, start p → keeps_queue outside Outside p) → rtc (pool_step start) c c' → pool_ok c.1 phs c.2 → ∃ phs', pool_ok c'.1 phs' c'.2.
Proof.
  intros Hstart Hrun. revert phs. induction Hrun as [c|c1 c2 c3 Hstep _ IH]; intros phs Hok; [eauto|].
  destruct (pool_ok_step start c1 c2 phs) as [phs' ?]; eauto.
Qed.

(** Two threads that hold tickets hold different ones. *)
Lemma tickets_injective (phs : list phase) i j pi pj t :
  NoDup (omap ticket_of phs) → phs !! i = Some pi → phs !! j = Some pj → ticket_of pi = Some t → ticket_of pj = Some t → i = j.
Proof.
  intros Hnd Hi Hj Ti Tj. destruct (decide (i = j)) as [|Hne]; [done|]. exfalso.
  destruct (tickets_insert phs i pi pi Hi) as [_ Hp]. rewrite Hp in Hnd. simpl in Hnd. rewrite Ti in Hnd. apply NoDup_cons in Hnd as [Hn _].
  apply Hn. apply list_elem_of_omap. exists pj. split; [|done]. apply list_elem_of_lookup.
  destruct (decide (j < i)%nat).
  - exists j. by rewrite list_lookup_delete_lt.
  - exists (j - 1)%nat. rewrite list_lookup_delete_ge by lia. by replace (S (j - 1)) with j by lia.
Qed.

(** What [pool_ok] says of the threads *)
Definition takes_turns s (phs : list phase) (ps : list (rthread unit)) : Prop :=
  (∀ i j ti tj, phs !! i = Some (Inside ti) → phs !! j = Some (Inside tj) → i = j ∧ ti = serving_ticket s) ∧
  (∀ i j t p p' s', phs !! i = Some (Inside t) → i ≠ j → ps !! j = Some p → tmove p s p' s' → apart s s') ∧
  (∀ t, serving_ticket s ≤ t < next_ticket s → ∃ i, (phs !! i = Some (Waiting t) ∨ phs !! i = Some (Inside t)) ∧ is_Some (ps !! i)) ∧
  (∀ i, phs !! i = Some (Waiting (serving_ticket s)) → ∃ p p' s', ps !! i = Some p ∧ tmove p s p' s').

Lemma pool_ok_turns s phs ps : pool_ok s phs ps → takes_turns s phs ps.
Proof.
  intros [[Hord Hnd Hin Hall] Hps]. assert (∀ i t, phs !! i = Some (Inside t) → t = serving_ticket s) as Hsv.
  { intros i t Hi. apply Hin. by eapply list_elem_of_lookup_2. }
  assert (∀ i j ti tj, phs !! i = Some (Inside ti) → phs !! j = Some (Inside tj) → i = j) as Hone.
  { intros i j ti tj Hi Hj. eapply (tickets_injective phs i j _ _ (serving_ticket s)); [done..| |]; simpl; f_equal; eauto. }
  split_and!.
  - intros i j ti tj Hi Hj. split; eauto.
  - intros i j t p p' s' Hi Hne Hj Hm. destruct (Forall2_lookup_r _ _ _ _ _ Hps Hj) as (ph & Hph & Hk).
    destruct (thread_moves _ _ _ _ _ _ Hk Hm) as (ph' & _ & _ & Hf). apply Hf. intros t' ->. apply Hne. by eapply Hone.
  - intros t Htk. apply Hall, list_elem_of_omap in Htk as (ph & Hph & Ht). apply list_elem_of_lookup in Hph as [i Hi]. exists i.
    destruct (Forall2_lookup_l _ _ _ _ _ Hps Hi) as (p & Hp & _). split; [|by eauto]. destruct ph; simplify_eq/=; eauto.
  - intros i Hi. destruct (Forall2_lookup_l _ _ _ _ _ Hps Hi) as (p & Hp & Hk). destruct p as [r|g f k|c k]; simpl in Hk; [done| |done].
    destruct (Hk s) as ([_ Hg] & _). eexists _, _, _. split; [done|]. constructor. by apply Hg.
Qed.
End discipline.

Section turns.
Context {T : Type} `{!PyOrd T} (t_zero default_max_wait default_retry_after : T).
Context (sha256_hex : list N → pystr) (read_fuel : nat) (identity : WorkspaceIdentity) (family_order : list LanguageFamily).
Abbreviation workspace_thread := (workspace_thread t_zero default_max_wait default_retry_after sha256_hex read_fuel identity family_order).
Abbreviation rthread := (thread (Runtime T) rcall rexn ranswer).

Lemma queue_of_frame {A} (post : phase → Prop) (p : rthread A) : post Outside → guar frame p → keeps_queue post Outside p.
Proof. intros Hpost Hp. apply keeps_queue_outside; [done|]. by apply guar_frame. Qed.

Lemma keeps_queue_admit (post : phase → Prop) scope w :
  post Outside →
  keeps_queue post Outside (_admit_fresh_read t_zero default_max_wait default_retry_after sha256_hex read_fuel identity family_order scope w).
Proof.
  intros Hpost. unfold _admit_fresh_read, ensure_root_fresh_admitted, ensure_paths_fresh_admitted.
  pose proof (guar_scan_root_tickets t_zero default_max_wait default_retry_after sha256_hex read_fuel identity family_order).
  pose proof (guar_refresh_paths_tickets (T:=T) sha256_hex read_fuel).
  repeat case_match; first [by apply keeps_queue_admitted|by apply queue_of_frame, guar_admission].
Qed.

Lemma keeps_queue_attempts n op scope :
  guar same_coordinator op →
  keeps_queue outside Outside (fresh_read_attempts t_zero default_max_wait default_retry_after sha256_hex read_fuel identity family_order n op scope).
Proof.
  intros Hop. induction n as [|n IH]; [done|]. cbn [fresh_read_attempts].
  apply keeps_queue_bind, queue_of_frame; [|apply guar_require_running]. split; [done|]. intros _.
  apply keeps_queue_bind, keeps_queue_admit. split; [done|]. intros admitted.
  apply keeps_queue_bind, keeps_queue_outside.
  2: { apply guar_read_attempt; [apply _| |done]. intros s s' ?. by apply frame_coordinator. }
  split; [done|]. intros [[result paths] w]. destruct (negb _); [done|].
  apply keeps_queue_bind, keeps_queue_admit. split; [done|]. intros final.
  apply keeps_queue_bind, queue_of_frame; [|apply guar_change_evidence]. split; [done|]. intros [changed|]; [|done].
  destruct n; [|done]. apply queue_of_frame; [done|apply guar_changed_during_read].
Qed.

Lemma workspace_thread_queue p : workspace_thread p → keeps_queue outside Outside p.
Proof.
  intros [w|paths w|op scope Hop|].
  - apply keeps_queue_try, keeps_queue_admitted; [by intros r|apply guar_scan_root_tickets].
  - apply keeps_queue_try. unfold ensure_paths_fresh_admitted. case_bool_decide.
    + apply queue_of_frame; [by intros r|apply guar_admission].
    + apply keeps_queue_admitted; [by intros r|apply guar_refresh_paths_tickets].
  - apply keeps_queue_try. unfold _run_fresh_read. generalize MAX_FRESH_READ_ATTEMPTS. intros n.
    eapply keeps_queue_mono; [by apply keeps_queue_attempts|]. by intros ph -> r.
  - apply queue_of_frame; [done|apply guar_stop].
Qed.

(** C6: In every pool of scans, reads and shutdowns of a workspace, started at
    any time and interleaved in any way: at most one thread is inside the
    admission queue and it holds the ticket being served; while it is, no step of
    another thread changes the version, the committed identities or the table of
    batches; every ticket
    that was issued and not yet served is held by a live thread; and the thread
    whose ticket is served can move. *)
Theorem scans_take_turns (s0 : Runtime T) s ps :
  serving_ticket s0 = next_ticket s0 → rtc (pool_step workspace_thread) (s0, []) (s, ps) → ∃ phs, pool_ok s phs ps ∧ takes_turns s phs ps.
Proof.
  intros H0 Hrun. destruct (pool_ok_steps workspace_thread (s0, []) (s, ps) []) as [phs Hok]; [apply workspace_thread_queue|done| |].
  - split; [|constructor]. simpl. split; [lia|constructor| |]; intros t; [by intros ?%elem_of_nil|]. simpl. rewrite H0. split; [by intros ?%elem_of_nil|lia].
  - exists phs. split; [done|]. by apply pool_ok_turns.
Qed.
End turns.
