(* ===== verification/Delivery.v ===== *)
(** * Delivery of watcher batches

    A scan that finds changes hands each running language adapter a batch of
    events. The coordinator owns a batch from before it is submitted until the
    adapter's future confirms it ([_pending_reconciles] in
    [src/serena_light/workspace/runtime.py]). The theorem follows the batches
    through every outcome of a scan: nothing but a confirmation releases one, and
    a scan that returns leaves none. The scan runs with its ticket, so the other
    threads leave the table of batches alone ([steady]). *)

From S2P Require Import Prelude Paths Positions Json Scope Envelopes Executor Editing EditLogic FileSystem Identity PathTree Inventory Threads RuntimeState Freshness FreshReads FreshProps.

Section delivery.
Context {T : Type}.
Abbreviation rthread := (thread (Runtime T) rcall rexn ranswer).
Abbreviation trace := (list (tevent (C := rcall) (R := ranswer))).
Abbreviation batches := (list (LanguageFamily * _PendingWatchedReconcile)).
Implicit Types s : Runtime T.

Definition steady s s' : Prop := reconciles s' = reconciles s.
#[local] Instance steady_preorder : PreOrder steady.
Proof. split; [done|]. unfold steady. intros ? ? ? ? ?. congruence. Qed.

Lemma guar_steady {A} (p : rthread A) : guar same_coordinator p → guar steady p.
Proof. apply guar_mono. unfold same_coordinator, steady, reconciles. by intros s s' ->. Qed.

(** ** Batches *)

(** The batch [p] was submitted to its adapter, with [g] as its future. *)
Definition submitted (t : trace) (p : _PendingWatchedReconcile) (g : future) : Prop :=
  ∃ vs, TEv (R := ranswer) (RReconcile (pw_adapter p) (pw_events p) (pw_created p) vs) (Ok g) ∈ t.

(** A future of the batch confirmed it. *)
Definition confirmed (t : trace) (p : _PendingWatchedReconcile) : Prop :=
  ∃ g, TEv (R := ranswer) (RResult g) (Ok tt) ∈ t ∧ (pw_future p = Some g ∨ submitted t p g).

(** The same batch, later: only its future may have changed, to none or to one
    it was submitted with. *)
Definition later (t : trace) (p p' : _PendingWatchedReconcile) : Prop :=
  p' = with_future (pw_future p') p ∧ ∀ g, pw_future p' = Some g → pw_future p = Some g ∨ submitted t p g.

(** Every batch is still owned, or was confirmed. *)
Definition carries (t : trace) (d d' : batches) : Prop :=
  ∀ f p, dict_get d f = Some p → confirmed t p ∨ ∃ p', dict_get d' f = Some p' ∧ later t p p'.

Definition batches_wf (d : batches) : Prop := NoDup d.*1 ∧ ∀ f p, dict_get d f = Some p → pw_family p = f.

Lemma submitted_app_l t1 t2 p g : submitted t1 p g → submitted (t1 ++ t2) p g.
Proof. intros [vs ?]. exists vs. apply elem_of_app. by left. Qed.
Lemma submitted_app_r t1 t2 p g : submitted t2 p g → submitted (t1 ++ t2) p g.
Proof. intros [vs ?]. exists vs. apply elem_of_app. by right. Qed.

Lemma later_refl t p : later t p p.
Proof. split; [by destruct p|auto]. Qed.

Lemma carries_refl t d : carries t d d.
Proof. intros f p H. right. exists p. split; [done|apply later_refl]. Qed.

Lemma carries_trans t1 t2 d1 d2 d3 : carries t1 d1 d2 → carries t2 d2 d3 → carries (t1 ++ t2) d1 d3.
Proof.
  intros H12 H23 f p Hp. destruct (H12 f p Hp) as [(g & Hg & Hf)|(p' & Hp' & Hid & Hfut)].
  { left. exists g. split; [apply elem_of_app; by left|]. destruct Hf as [?|?]; [by left|right; by apply submitted_app_l]. }
  destruct (H23 f p' Hp') as [(g & Hg & Hf)|(p'' & Hp'' & Hid' & Hfut')].
  - left. exists g. split; [apply elem_of_app; by right|]. rewrite Hid in Hf. destruct Hf as [Hf|Hf].
    + simpl in Hf. destruct (Hfut g Hf) as [?|?]; [by left|right; by apply submitted_app_l].
    + right. apply submitted_app_r. exact Hf.
  - right. exists p''. split; [done|]. split; [rewrite Hid', Hid; done|]. intros g Hg. destruct (Hfut' g Hg) as [Hg'|Hs].
    + destruct (Hfut g Hg'); [by left|right; by apply submitted_app_l].
    + right. rewrite Hid in Hs. apply submitted_app_r. exact Hs.
Qed.

(** Setting the future of an owned batch, and releasing a confirmed one *)
Lemma carries_set t d f p x :
  dict_get d f = Some p → (∀ g, x = Some g → pw_future p = Some g ∨ submitted t p g) → carries t d (dict_set d f (with_future x p)).
Proof.
  intros Hp Hx f' q Hq. right. destruct (decide (f' = f)) as [->|Hne].
  - rewrite Hp in Hq. injection Hq as <-. exists (with_future x p). rewrite dict_get_set_eq. split; [done|]. by split.
  - exists q. rewrite dict_get_set_ne by done. split; [done|apply later_refl].
Qed.

Lemma carries_del t d f p : dict_get d f = Some p → confirmed t p → carries t d (dict_del d f).
Proof.
  intros Hp Hc f' q Hq. destruct (decide (f' = f)) as [->|Hne]; [simplify_eq; by left|]. right. exists q.
  rewrite dict_get_del_ne by done. split; [done|apply later_refl].
Qed.

Lemma carries_add d f p : dict_get d f = None → carries [] d (dict_set d f p).
Proof.
  intros Hn f' q Hq. right. exists q. rewrite dict_get_set_ne by (intros ->; congruence). split; [done|apply later_refl].
Qed.

Lemma batches_wf_set d f p : batches_wf d → pw_family p = f → batches_wf (dict_set d f p).
Proof.
  intros [Hn Hf] Hp. split; [by apply dict_set_nodup|]. intros f' q. rewrite dict_get_set. case_decide; [|by apply Hf]. intros [= <-]. congruence.
Qed.
Lemma batches_wf_del d f : batches_wf d → batches_wf (dict_del d f).
Proof. intros [Hn Hf]. split; [by apply dict_del_nodup|]. intros f' q. rewrite dict_get_del. case_decide; [done|by apply Hf]. Qed.

(** ** Settling *)

(** What a step of the delivery does to the table: batches are carried, those of
    other families stay as they are, and no family gets a batch *)
Definition settles (f : LanguageFamily) (t : trace) s s' : Prop :=
  carries t (reconciles s) (reconciles s') ∧ batches_wf (reconciles s') ∧
  (∀ f', f' ≠ f → dict_get (reconciles s') f' = dict_get (reconciles s) f') ∧
  (dict_get (reconciles s) f = None → dict_get (reconciles s') f = None).

Lemma rtc_steady s s' : rtc steady s s' → reconciles s' = reconciles s.
Proof. apply (rtc_guar steady steady). auto. Qed.

Lemma still_pending_owned p s : dict_get (reconciles s) (pw_family p) = Some p → still_pending p s = Some p.
Proof. unfold still_pending. intros ->. simpl. by rewrite bool_decide_true. Qed.

Lemma settles_same f t s s' : batches_wf (reconciles s) → reconciles s' = reconciles s → settles f t s s'.
Proof. intros ? Hs. unfold settles. rewrite Hs. split_and!; [apply carries_refl|done..]. Qed.

Lemma settles_trans f t1 t2 s1 s2 s3 : settles f t1 s1 s2 → settles f t2 s2 s3 → settles f (t1 ++ t2) s1 s3.
Proof.
  intros (C1 & _ & O1 & N1) (C2 & W2 & O2 & N2). split_and!; [by eapply carries_trans|done| |auto]. intros f' Hne. rewrite O2, O1; done.
Qed.

(** An owned batch that has the future [g] *)
Lemma await_reconcile_settles p g timed s t r s' :
  texec steady (await_reconcile p g timed) s t r s' → batches_wf (reconciles s) →
  ∀ q, dict_get (reconciles s) (pw_family p) = Some q → pw_id q = pw_id p → pw_future q = Some g →
  settles (pw_family p) t s s' ∧ (r = Ok tt → dict_get (reconciles s') (pw_family p) = None).
Proof.
  intros H Hwf q Hq Hid Hg. apply texec_try_inv in H as (r1 & s1 & t1 & t2 & -> & H1 & H2).
  apply texec_inv in H1 as (s2 & a & t3 & Hs2%rtc_steady & -> & (-> & -> & Hs1%rtc_steady)%texec_inv).
  assert (reconciles s1 = reconciles s) as Hs by congruence.
  assert (∀ s3, reconciles s3 = reconciles s → still_pending p s3 = Some q) as Hstill.
  { intros s3 H3. unfold still_pending. rewrite H3, Hq. simpl. by rewrite bool_decide_true. }
  destruct a as [[]|x].
  - apply texec_inv in H2 as (s3 & Hs3%rtc_steady & _ & (-> & -> & Hs'%rtc_steady)%texec_inv). simpl in Hs'.
    unfold pop_reconcile in Hs'. rewrite Hstill in Hs' by congruence. unfold reconciles in Hs' at 2. simpl in Hs'.
    assert (reconciles s' = dict_del (reconciles s) (pw_family p)) as Hfin by congruence.
    unfold settles. rewrite Hfin. split; [split_and!|intros _; apply dict_get_del_eq].
    + eapply carries_del; [done|]. exists g. split; [by left|by left].
    + by apply batches_wf_del.
    + intros f' Hne. by apply dict_get_del_ne.
    + intros _. apply dict_get_del_eq.
  - destruct (timed && _); [|destruct (is_exception x)].
    + apply texec_inv in H2 as (-> & -> & Hs'%rtc_steady). split; [apply settles_same; [done|congruence]|done].
    + apply texec_try_inv in H2 as (r2 & s3 & t4 & t5 & -> & H3 & H4).
      apply texec_inv in H3 as (s4 & Hs4%rtc_steady & _ & (-> & -> & Hs3%rtc_steady)%texec_inv). apply texec_inv in H4 as (-> & -> & Hs'%rtc_steady).
      simpl in Hs3. unfold forget_future in Hs3. rewrite Hstill, bool_decide_true in Hs3 by congruence. unfold reconciles in Hs3 at 2. simpl in Hs3.
      assert (reconciles s' = dict_set (reconciles s) (pw_family p) (with_future None q)) as Hfin by congruence.
      unfold settles. rewrite Hfin. split; [split_and!|done].
      * by apply carries_set.
      * apply batches_wf_set; [done|]. simpl. by apply Hwf.
      * intros f' Hne. by apply dict_get_set_ne.
      * congruence.
    + apply texec_inv in H2 as (-> & -> & Hs'%rtc_steady). split; [apply settles_same; [done|congruence]|done].
Qed.

Lemma notify_submitted rely a events created s t g s' :
  texec rely (notify_watched_files a events created) s t (Ok g) s' →
  ∃ vs, TEv (R := ranswer) (RReconcile a events created vs) (Ok g) ∈ t.
Proof.
  intros (vs & s1 & t1 & t2 & -> & _ & H)%texec_bind_ok. apply texec_inv in H as (s2 & r & t3 & _ & -> & (-> & <- & _)%texec_inv).
  exists vs. apply elem_of_app. right. by left.
Qed.

Lemma notify_steady a events created s t r s' :
  texec steady (notify_watched_files a events created) s t r s' → reconciles s' = reconciles s.
Proof. intros H. eapply (texec_guar steady) in H; [exact H|auto|]. by apply guar_steady, guar_frame, guar_notify_watched_files. Qed.

(** The owned batch gets the future it was submitted with. *)
Lemma record_future_settles t p g s :
  batches_wf (reconciles s) → dict_get (reconciles s) (pw_family p) = Some p → submitted t p g →
  settles (pw_family p) t s (record_future p g s).1 ∧ (record_future p g s).2 = true ∧
  dict_get (reconciles (record_future p g s).1) (pw_family p) = Some (with_future (Some g) p).
Proof.
  intros Hwf Hp Hsub. unfold record_future. rewrite still_pending_owned by done. cbn [fst snd].
  unfold settles. change (reconciles (set_reconciles ?d ?x)) with d. split; [split_and!|split; [done|apply dict_get_set_eq]].
  - apply carries_set; [done|]. intros ? [= <-]. by right.
  - by apply batches_wf_set.
  - intros f' Hne. by apply dict_get_set_ne.
  - congruence.
Qed.

Lemma settle_reconcile_settles f s t r s' :
  texec steady (_settle_pending_reconcile f) s t r s' → batches_wf (reconciles s) →
  settles f t s s' ∧ (r = Ok tt → dict_get (reconciles s') f = None).
Proof.
  intros H Hwf. apply texec_try_inv in H as (r1 & s1 & t1 & t2 & -> & H1 & H2).
  apply texec_inv in H1 as (s2 & Hs2%rtc_steady & _ & (-> & -> & Hs1%rtc_steady)%texec_inv). cbn beta match in H2. simpl in Hs1.
  assert (reconciles s1 = reconciles s) as Hs by congruence. rewrite Hs2 in H2.
  destruct (dict_get (reconciles s) f) as [p|] eqn:Hp.
  2: { apply texec_inv in H2 as (-> & -> & Hs'%rtc_steady). split; [apply settles_same; [done|congruence]|]. intros _. congruence. }
  assert (pw_family p = f) as <- by by apply Hwf. destruct (pw_future p) as [g|] eqn:Hg.
  - apply texec_try_inv in H2 as (r3 & s3 & t3 & t4 & -> & H3 & H4).
    apply texec_inv in H3 as (s4 & a & t5 & Hs4%rtc_steady & -> & (-> & -> & Hs3%rtc_steady)%texec_inv).
    assert (reconciles s3 = reconciles s) as Hs' by congruence.
    destruct (await_reconcile_settles _ _ _ _ _ _ _ H4 ltac:(by rewrite Hs') p ltac:(by rewrite Hs') eq_refl Hg) as [Hset Hok]. split; [|done].
    change ([] ++ ?x) with x. eapply settles_trans; [|exact Hset]. by apply settles_same.
  - apply texec_try_inv in H2 as (r3 & s3 & t3 & t4 & -> & H3 & H4). pose proof (notify_steady _ _ _ _ _ _ _ H3) as Hs3.
    assert (reconciles s3 = reconciles s) as Hs' by congruence. assert (settles (pw_family p) t3 s s3) as Hset3 by by apply settles_same.
    destruct r3 as [g|x].
    + apply notify_submitted in H3 as [vs Hsub]. apply texec_try_inv in H4 as (r5 & s5 & t5 & t6 & -> & H5 & H6).
      apply texec_inv in H5 as (s6 & Hs6%rtc_steady & _ & (-> & -> & Hs5%rtc_steady)%texec_inv). cbn beta match in H6.
      destruct (record_future_settles t3 p g s6) as (Hset & Hrec & Hget); [congruence|congruence|by exists vs|]. rewrite Hrec in H6.
      assert (settles (pw_family p) (t3 ++ []) s s5) as Hset5.
      { rewrite app_nil_r. destruct Hset as (C & W & O & N). unfold settles. rewrite Hs5. rewrite Hs6, Hs' in *. split_and!; done. }
      destruct (await_reconcile_settles _ _ _ _ _ _ _ H6 ltac:(by destruct Hset5 as (_ & ? & _)) _ ltac:(rewrite Hs5; exact Hget) eq_refl eq_refl) as [Hset6 Hok].
      split; [|done]. change ([] ++ ?x) with x. rewrite app_assoc. by eapply settles_trans.
    + assert (r ≠ Ok tt ∧ t4 = [] ∧ reconciles s' = reconciles s) as (Hr & -> & Hfin).
      { destruct x; simpl in H4; apply texec_inv in H4 as (-> & -> & Hs4%rtc_steady); (split_and!; [done|done|congruence]). }
      split; [apply settles_same; [done|congruence]|done].
Qed.

(** Batches are carried and no family gets one. *)
Definition sweeps (t : trace) s s' : Prop :=
  carries t (reconciles s) (reconciles s') ∧ batches_wf (reconciles s') ∧
  ∀ f, dict_get (reconciles s) f = None → dict_get (reconciles s') f = None.

Lemma settles_sweeps f t s s' : settles f t s s' → sweeps t s s'.
Proof.
  intros (C & W & O & N). split_and!; [done..|]. intros f' Hn. destruct (decide (f' = f)) as [->|]; [auto|]. by rewrite O.
Qed.

Lemma sweeps_trans t1 t2 s1 s2 s3 : sweeps t1 s1 s2 → sweeps t2 s2 s3 → sweeps (t1 ++ t2) s1 s3.
Proof. intros (C1 & _ & N1) (C2 & W2 & N2). split_and!; [by eapply carries_trans|done|auto]. Qed.

Lemma sweeps_same t s s' : batches_wf (reconciles s) → reconciles s' = reconciles s → sweeps t s s'.
Proof. intros ? Hs. unfold sweeps. rewrite Hs. split_and!; [apply carries_refl|done..]. Qed.

Lemma settle_one_sweeps failures f s t r s' :
  texec steady (settle_one failures f) s t r s' → batches_wf (reconciles s) →
  sweeps t s s' ∧ ∀ l, r = Ok l → (l = failures ∧ dict_get (reconciles s') f = None) ∨ ∃ x, l = failures ++ [x].
Proof.
  intros H Hwf. apply texec_try_inv in H as (r1 & s1 & t1 & t2 & -> & H1 & H2).
  destruct (settle_reconcile_settles _ _ _ _ _ H1 Hwf) as [Hset%settles_sweeps Hok].
  assert (reconciles s' = reconciles s1 ∧ t2 = [] ∧
    ∀ l, r = Ok l → (l = failures ∧ r1 = Ok tt) ∨ ∃ x, l = failures ++ [x]) as (Hs & -> & Hl).
  { destruct r1 as [[]|[]]; apply texec_inv in H2 as (-> & -> & Hs%rtc_steady); (split_and!; [done..|]); intros l [= <-]; eauto. }
  rewrite app_nil_r. split.
  - destruct Hset as (C & W & N). unfold sweeps. rewrite Hs. done.
  - intros l Hr. destruct (Hl l Hr) as [[-> ->]|?]; [left|by right]. rewrite Hs. auto.
Qed.

Lemma settle_fold_sweeps l failures s t r s' :
  texec steady (tfold settle_one failures l) s t r s' → batches_wf (reconciles s) →
  sweeps t s s' ∧ ∀ fs, r = Ok fs → ∃ more, fs = failures ++ more ∧ (more = [] → ∀ f, f ∈ l → dict_get (reconciles s') f = None).
Proof.
  revert failures s t. induction l as [|f l IH]; intros failures s t H Hwf; simpl in H.
  { apply texec_inv in H as (-> & -> & Hs%rtc_steady). split; [by apply sweeps_same|]. intros fs [= <-]. exists [].
    split; [by rewrite app_nil_r|]. by intros _ f ?%elem_of_nil. }
  apply texec_try_inv in H as (r1 & s1 & t1 & t2 & -> & H1 & H2). destruct (settle_one_sweeps _ _ _ _ _ _ H1 Hwf) as [Hsw Hl].
  destruct r1 as [failures'|x].
  2: { apply texec_inv in H2 as (-> & -> & Hs%rtc_steady). rewrite app_nil_r. split; [|done]. destruct Hsw as (C & W & N). unfold sweeps. by rewrite Hs. }
  destruct (IH _ _ _ H2 ltac:(apply Hsw)) as [Hsw' Hfs]. split; [by eapply sweeps_trans|]. intros fs Hr.
  destruct (Hfs fs Hr) as (more & -> & Hnone). destruct (Hl failures' eq_refl) as [[-> Hf]|[x ->]].
  - exists more. split; [done|]. intros Hm f' [->|?]%elem_of_cons; [|by apply Hnone]. by apply Hsw'.
  - exists ([x] ++ more). split; [by rewrite app_assoc|done].
Qed.

Lemma settle_reconciles_sweeps selected s t r s' :
  texec steady (_settle_pending_reconciles selected) s t r s' → batches_wf (reconciles s) →
  sweeps t s s' ∧ (r = Ok tt → ∀ f, f ∈ default (reconciles s).*1 selected → dict_get (reconciles s') f = None).
Proof.
  intros H Hwf. apply texec_try_inv in H as (r1 & s1 & t1 & t2 & -> & H1 & H2).
  apply texec_inv in H1 as (s2 & Hs2%rtc_steady & _ & (-> & -> & Hs1%rtc_steady)%texec_inv). cbn beta match in H2. simpl in Hs1.
  apply texec_try_inv in H2 as (r3 & s3 & t3 & t4 & -> & H3 & H4).
  assert (reconciles s1 = reconciles s) as Hs by congruence. rewrite Hs2 in H3.
  destruct (settle_fold_sweeps _ _ _ _ _ _ H3 ltac:(by rewrite Hs)) as [Hsw Hfs].
  assert (sweeps t3 s s3) as Hsw3 by (unfold sweeps in *; by rewrite <-Hs).
  assert (reconciles s' = reconciles s3 ∧ t4 = [] ∧ (r = Ok tt → r3 = Ok [])) as (Hs' & -> & Hr).
  { destruct r3 as [[|x fs]|x]; apply texec_inv in H4 as (-> & -> & Hs4%rtc_steady); done. }
  change ([] ++ ?x) with x. rewrite app_nil_r. split; [unfold sweeps in *; by rewrite Hs'|].
  intros Hok. destruct (Hfs [] (Hr Hok)) as (more & Hm & Hnone). destruct more; [|done]. rewrite Hs'. by apply Hnone.
Qed.

Lemma batches_empty (d : batches) : (∀ f, dict_get d f = None) → d = [].
Proof. destruct d as [|[f p] d]; [done|]. intros H. specialize (H f). simpl in H. by rewrite decide_True in H. Qed.

(** A full sweep that returns leaves no batch. *)
Lemma settle_all_empty s t s' :
  texec steady (_settle_pending_reconciles None) s t (Ok tt) s' → batches_wf (reconciles s) → reconciles s' = [].
Proof.
  intros H Hwf. destruct (settle_reconciles_sweeps _ _ _ _ _ H Hwf) as [(_ & _ & Hn) Hok]. apply batches_empty. intros f.
  destruct (dict_get (reconciles s) f) as [p|] eqn:Hf; [|auto]. apply Hok; [done|]. simpl.
  apply list_elem_of_fmap. exists (f, p). split; [done|]. by apply dict_get_Some_elem.
Qed.

(** ** New batches *)

(** The batches of [l] are owned, each as it is. *)
Definition owned (l : list _PendingWatchedReconcile) s : Prop := ∀ p, p ∈ l → dict_get (reconciles s) (pw_family p) = Some p.

Lemma own_deliveries_carries l s :
  batches_wf (reconciles s) →
  carries [] (reconciles s) (reconciles (own_deliveries l s).1) ∧ batches_wf (reconciles (own_deliveries l s).1) ∧
  ((own_deliveries l s).2 = Ok tt → owned l (own_deliveries l s).1 ∧ NoDup (pw_family <$> l) ∧
   (∀ p, p ∈ l → dict_get (reconciles s) (pw_family p) = None) ∧
   ∀ f, f ∉ pw_family <$> l → dict_get (reconciles (own_deliveries l s).1) f = dict_get (reconciles s) f).
Proof.
  revert s. induction l as [|p l IH]; intros s Hwf; simpl.
  { split_and!; [apply carries_refl|done|]. intros _. split_and!; [by intros ? ?%elem_of_nil|constructor|by intros ? ?%elem_of_nil|done]. }
  unfold dict_has. case_bool_decide as Hhas; [split_and!; [apply carries_refl|done|done]|]. apply eq_None_not_Some in Hhas.
  set (s1 := set_reconciles (dict_set (reconciles s) (pw_family p) p) s).
  assert (reconciles s1 = dict_set (reconciles s) (pw_family p) p) as Hs1 by done.
  destruct (IH s1) as (C & W & Hok); [rewrite Hs1; by apply batches_wf_set|]. rewrite Hs1 in *. split_and!; [|done|].
  { change (@nil (tevent (C := rcall) (R := ranswer))) with (@nil (tevent (C := rcall) (R := ranswer)) ++ []).
    eapply carries_trans; [by apply carries_add|exact C]. }
  intros Hr. destruct (Hok Hr) as (Hown & Hnd & Hnew & Hother).
  assert (pw_family p ∉ pw_family <$> l) as Hfresh.
  { intros (q & Hq & Hin)%list_elem_of_fmap. specialize (Hnew q Hin). rewrite <-Hq, dict_get_set_eq in Hnew. done. }
  split_and!.
  - intros q [->|Hq]%elem_of_cons; [|by apply Hown]. rewrite Hother by done. apply dict_get_set_eq.
  - by constructor.
  - intros q [->|Hq]%elem_of_cons; [done|]. specialize (Hnew q Hq). rewrite dict_get_set in Hnew. by case_decide.
  - intros f Hf. simpl in Hf. apply not_elem_of_cons in Hf as [Hne Hf]. rewrite Hother by done. by apply dict_get_set_ne.
Qed.

(** Submission of the owned batches *)
Lemma submit_delivery_settles created wait d p s t r s' :
  texec steady (submit_delivery created wait d p) s t r s' → batches_wf (reconciles s) → dict_get (reconciles s) (pw_family p) = Some p →
  settles (pw_family p) t s s' ∧ ∀ d', r = Ok d' → wait = true → dr_notified d' = dr_notified d.
Proof.
  intros H Hwf Hp. apply texec_try_inv in H as (r1 & s1 & t1 & t2 & -> & H1 & H2). pose proof (notify_steady _ _ _ _ _ _ _ H1) as Hs1.
  destruct r1 as [g|x].
  - apply notify_submitted in H1 as [vs Hsub]. apply texec_try_inv in H2 as (r3 & s3 & t3 & t4 & -> & H3 & H4).
    apply texec_inv in H3 as (s4 & Hs4%rtc_steady & _ & (-> & -> & Hs3%rtc_steady)%texec_inv). cbn beta match in H4.
    apply texec_inv in H4 as (-> & -> & Hs'%rtc_steady).
    destruct (record_future_settles t1 p g s4) as ((C & W & O & N) & _ & _); [congruence|congruence|by exists vs|].
    rewrite !app_nil_r. assert (reconciles s' = reconciles (record_future p g s4).1) as Hfin by congruence.
    assert (reconciles s4 = reconciles s) as Hs4' by congruence. rewrite Hs4' in *. split; [unfold settles; by rewrite Hfin|].
    intros d' [= <-] ->. done.
  - assert (t2 = [] ∧ reconciles s' = reconciles s ∧ ∀ d', r = Ok d' → dr_notified d' = dr_notified d) as (-> & Hs & Hd).
    { destruct x; simpl in H2; apply texec_inv in H2 as (-> & -> & Hs2%rtc_steady); (split_and!; [done|congruence|]); by intros d' [= <-]. }
    split; [by apply settles_same|auto].
Qed.

Lemma submit_fold_sweeps created wait l d s t r s' :
  texec steady (tfold (submit_delivery created wait) d l) s t r s' → batches_wf (reconciles s) → owned l s → NoDup (pw_family <$> l) →
  sweeps t s s' ∧ ∀ d', r = Ok d' → wait = true → dr_notified d' = dr_notified d.
Proof.
  revert d s t. induction l as [|p l IH]; intros d s t H Hwf Hown Hnd; simpl in H.
  { apply texec_inv in H as (-> & -> & Hs%rtc_steady). split; [by apply sweeps_same|]. by intros d' [= <-]. }
  apply texec_try_inv in H as (r1 & s1 & t1 & t2 & -> & H1 & H2).
  destruct (submit_delivery_settles _ _ _ _ _ _ _ _ H1 Hwf) as [Hset Hd]; [apply Hown; by left|].
  destruct r1 as [d1|x].
  2: { apply texec_inv in H2 as (-> & -> & Hs%rtc_steady). rewrite app_nil_r. split; [|done]. apply settles_sweeps in Hset.
       unfold sweeps in *. by rewrite Hs. }
  apply NoDup_cons in Hnd as [Hfresh Hnd]. pose proof Hset as (_ & W & O & _).
  destruct (IH _ _ _ H2 W) as [Hsw Hd']; [|done|].
  { intros q Hq. rewrite O; [apply Hown; by right|]. intros He. apply Hfresh. rewrite <-He. apply list_elem_of_fmap. by exists q. }
  apply settles_sweeps in Hset. split; [by eapply sweeps_trans|]. intros d' Hr Hw. rewrite (Hd' d' Hr Hw). by apply Hd.
Qed.

(** Waiting for the submitted batches: a family without a failure has none left *)
Lemma settle_delivery_sweeps created d p s t r s' :
  texec steady (settle_delivery created d p) s t r s' → batches_wf (reconciles s) →
  sweeps t s s' ∧ ∀ d', r = Ok d' →
    (∀ f, is_Some (dict_get (dr_failures d) f) → is_Some (dict_get (dr_failures d') f)) ∧
    (dict_get (dr_failures d') (pw_family p) = None → dict_get (reconciles s') (pw_family p) = None) ∧
    (∀ f, f ∈ dr_notified d' → f ∈ dr_notified d ∨ f = pw_family p).
Proof.
  unfold settle_delivery. intros H Hwf. unfold dict_has in H. case_bool_decide as Hhas.
  { apply texec_inv in H as (-> & -> & Hs%rtc_steady). split; [by apply sweeps_same|]. intros d' [= <-]. split_and!; [done| |auto].
    intros Hn. destruct Hhas as [? ?]. congruence. }
  apply texec_try_inv in H as (r1 & s1 & t1 & t2 & -> & H1 & H2). destruct (settle_reconciles_sweeps _ _ _ _ _ H1 Hwf) as [Hsw Hok].
  assert (t2 = [] ∧ reconciles s' = reconciles s1) as (-> & Hs) by (destruct r1 as [|[]]; apply texec_inv in H2 as (-> & -> & Hs%rtc_steady); done).
  rewrite app_nil_r. split; [unfold sweeps in *; by rewrite Hs|]. intros d' ->. rewrite Hs.
  destruct r1 as [[]|[]]; apply texec_inv in H2 as (_ & [= ->] & _); simpl.
  - split_and!; [done| |].
    + intros _. apply Hok; [done|]. simpl. by left.
    + intros f [?|?%list_elem_of_singleton]%elem_of_app; auto.
  - split_and!; [|by rewrite dict_get_set_eq|auto]. intros f. rewrite dict_get_set. by case_decide.
Qed.

Lemma settle_delivery_fold created l d s t r s' :
  texec steady (tfold (settle_delivery created) d l) s t r s' → batches_wf (reconciles s) →
  sweeps t s s' ∧ ∀ d', r = Ok d' →
    (∀ f, is_Some (dict_get (dr_failures d) f) → is_Some (dict_get (dr_failures d') f)) ∧
    (∀ p, p ∈ l → dict_get (dr_failures d') (pw_family p) = None → dict_get (reconciles s') (pw_family p) = None) ∧
    (∀ f, f ∈ dr_notified d' → f ∈ dr_notified d ∨ f ∈ pw_family <$> l).
Proof.
  revert d s t. induction l as [|p l IH]; intros d s t H Hwf; simpl in H.
  { apply texec_inv in H as (-> & -> & Hs%rtc_steady). split; [by apply sweeps_same|]. intros d' [= <-].
    split_and!; [done|by intros ? ?%elem_of_nil|auto]. }
  apply texec_try_inv in H as (r1 & s1 & t1 & t2 & -> & H1 & H2). destruct (settle_delivery_sweeps _ _ _ _ _ _ _ H1 Hwf) as [Hsw Hd].
  destruct r1 as [d1|x].
  2: { apply texec_inv in H2 as (-> & -> & Hs%rtc_steady). rewrite app_nil_r. split; [unfold sweeps in *; by rewrite Hs|done]. }
  destruct (IH _ _ _ H2 ltac:(apply Hsw)) as [Hsw' Hd']. split; [by eapply sweeps_trans|]. intros d' Hr.
  destruct (Hd d1 eq_refl) as (Hf1 & Hp1 & Hn1). destruct (Hd' d' Hr) as (Hf2 & Hp2 & Hn2). split_and!.
  - auto.
  - intros q [->|Hq]%elem_of_cons Hn; [|by apply Hp2]. apply Hsw', Hp1. apply eq_None_not_Some. intros Hsome%Hf2.
    rewrite Hn in Hsome. by apply is_Some_None in Hsome.
  - intros f Hf. simpl. rewrite elem_of_cons. destruct (Hn2 f Hf) as [Hf'|?]; [|auto]. destruct (Hn1 f Hf') as [?|?]; auto.
Qed.

(** ** A whole scan *)

(** What every part of a scan does to the batches *)
Definition keeps_batches (t : trace) s s' : Prop := carries t (reconciles s) (reconciles s') ∧ batches_wf (reconciles s').

Lemma keeps_trans t1 t2 s1 s2 s3 : keeps_batches t1 s1 s2 → keeps_batches t2 s2 s3 → keeps_batches (t1 ++ t2) s1 s3.
Proof. intros [C1 _] [C2 W]. split; [by eapply carries_trans|done]. Qed.

Lemma keeps_same t s s' : batches_wf (reconciles s) → reconciles s' = reconciles s → keeps_batches t s s'.
Proof. intros ? Hs. unfold keeps_batches. rewrite Hs. split; [apply carries_refl|done]. Qed.

Lemma sweeps_keeps t s s' : sweeps t s s' → keeps_batches t s s'.
Proof. by intros (? & ? & _). Qed.

(** A thread keeps the batches, and returns only results that [Q] allows. *)
Definition delivers {A} (p : rthread A) (s : Runtime T) (Q : trace → A → Runtime T → Prop) : Prop :=
  twp steady p s (λ t r s', keeps_batches t s s' ∧ ∀ a, r = Ok a → Q t a s').

Lemma delivers_bind {A B} (p : rthread A) (q : A → rthread B) s Q1 Q2 :
  delivers p s Q1 →
  (∀ t1 a s1, batches_wf (reconciles s1) → keeps_batches t1 s s1 → Q1 t1 a s1 → delivers (q a) s1 (λ t2, Q2 (t1 ++ t2))) →
  delivers (p ≫= q) s Q2.
Proof.
  intros Hp Hq t r s' H. apply texec_try_inv in H as (r1 & s1 & t1 & t2 & -> & H1 & H2). destruct (Hp _ _ _ H1) as [Hk Ha].
  destruct r1 as [a|e].
  - destruct (Hq t1 a s1 ltac:(apply Hk) Hk (Ha a eq_refl) _ _ _ H2) as [Hk2 Hb]. split; [by eapply keeps_trans|done].
  - apply texec_inv in H2 as (-> & -> & Hs%rtc_steady). rewrite app_nil_r. split; [|done]. unfold keeps_batches in *. by rewrite Hs.
Qed.

(** What a result says by itself *)
Lemma delivers_also {A} (p : rthread A) s (Q : trace → A → Runtime T → Prop) (P : A → Prop) :
  delivers p s Q → (∀ t a s', texec steady p s t (Ok a) s' → P a) → delivers p s (λ t a s', Q t a s' ∧ P a).
Proof. intros Hp HP t r s' H. destruct (Hp _ _ _ H) as [Hk Hq]. split; [done|]. intros a ->. split; [by apply Hq|by eapply HP]. Qed.

(** A thread that leaves the coordinator alone *)
Lemma delivers_steady {A} (p : rthread A) s : guar same_coordinator p → batches_wf (reconciles s) → delivers p s (λ _ _ s', reconciles s' = reconciles s).
Proof.
  intros Hp Hwf t r s' H. eapply (texec_guar steady) in H; [|auto|by apply guar_steady]. split; [by apply keeps_same|done].
Qed.

Lemma delivers_ret {A} (r : res rexn A) s (Q : trace → A → Runtime T → Prop) :
  batches_wf (reconciles s) → (∀ a s', r = Ok a → reconciles s' = reconciles s → Q [] a s') → delivers (TRet r) s Q.
Proof. intros Hwf HQ t r' s' (-> & -> & Hs%rtc_steady)%texec_inv. split; [by apply keeps_same|auto]. Qed.

Lemma delivers_mono {A} (p : rthread A) s (Q Q' : trace → A → Runtime T → Prop) :
  delivers p s Q → (∀ t a s', keeps_batches t s s' → Q t a s' → Q' t a s') → delivers p s Q'.
Proof. intros Hp HQ t r s' H. destruct (Hp _ _ _ H) as [? ?]. auto. Qed.

(** A batch as a scan makes it: events of its family, no future yet *)
Definition fresh_batch (p : _PendingWatchedReconcile) : Prop :=
  pw_future p = None ∧ pw_events p ≠ [] ∧ Forall (λ ev, _family_of (we_path ev) = Some (pw_family p)) (pw_events p).

(** No batch is left, and for each of the families [notified] the run handed an adapter a batch of events of this family
    and awaited the very future it got for it, which succeeded. *)
Definition all_delivered (t : trace) (notified : list LanguageFamily) s : Prop :=
  reconciles s = [] ∧ ∀ f, f ∈ notified → ∃ p g, pw_family p = f ∧ fresh_batch p ∧ submitted t p g ∧
    TEv (R := ranswer) (RResult g) (Ok tt) ∈ t.

Lemma all_delivered_app t1 t2 notified s : all_delivered t2 notified s → all_delivered (t1 ++ t2) notified s.
Proof.
  intros [? H]. split; [done|]. intros f (p & g & ? & ? & ? & ?)%H. exists p, g. split_and!; [done|done|by apply submitted_app_r|].
  apply elem_of_app. by right.
Qed.

Lemma fresh_confirmed t p : fresh_batch p → confirmed t p → ∃ g, submitted t p g ∧ TEv (R := ranswer) (RResult g) (Ok tt) ∈ t.
Proof. intros [Hp _] (g & Hg & [Hf|Hs]); [congruence|eauto]. Qed.

(** The batches a scan prepares are fresh. *)
Lemma affected_fold events l acc s t affected s' :
  texec steady (tfold (advance_tracker events) acc l) s t (Ok affected) s' →
  (∀ f, f ∈ acc → family_events f events ≠ []) → ∀ f, f ∈ affected → family_events f events ≠ [].
Proof.
  revert acc s t. induction l as [|[f o] l IH]; intros acc s t H Hacc; cbn [tfold] in H; [by apply texec_inv in H as (_ & [= ->] & _)|].
  apply texec_bind_ok in H as (acc' & s1 & t1 & t2 & -> & H1 & H2). eapply IH; [exact H2|]. unfold advance_tracker in H1.
  destruct (nonempty (family_events f events)) eqn:Hne.
  - apply texec_inv in H1 as (s2 & _ & _ & (_ & [= ->] & _)%texec_inv). intros g [?|Hg%list_elem_of_singleton]%elem_of_app; [by apply Hacc|subst g].
    by destruct (family_events f events).
  - by apply texec_inv in H1 as (_ & [= ->] & _).
Qed.

Lemma prepare_fold events created forced l acc s t res s' :
  texec steady (tfold (prepare_delivery events created forced) acc l) s t (Ok res) s' →
  (∀ f, f ∈ l → family_events f events ≠ []) → Forall fresh_batch acc.1 → Forall fresh_batch res.1.
Proof.
  revert acc s t. induction l as [|f l IH]; intros [ds us] s t H Hl Hacc; cbn [tfold] in H; [by apply texec_inv in H as (_ & [= ->] & _)|].
  apply texec_bind_ok in H as (acc' & s1 & t1 & t2 & -> & H1 & H2). eapply IH; [exact H2|intros g Hg; apply Hl; by right|].
  unfold prepare_delivery in H1. apply texec_bind_ok in H1 as (a & s2 & t3 & t4 & -> & _ & H1).
  destruct a as [a|]; [|by apply texec_inv in H1 as (_ & [= ->] & _)].
  apply texec_bind_ok in H1 as (running & s3 & t5 & t6 & -> & _ & H1).
  destruct (_ && _); [by apply texec_inv in H1 as (_ & [= ->] & _)|].
  apply texec_bind_ok in H1 as (pending & s4 & t7 & t8 & -> & Hp & H1). apply texec_inv in H1 as (_ & [= ->] & _). simpl.
  apply texec_inv in Hp as (s5 & _ & _ & (_ & [= ->] & _)%texec_inv). apply Forall_app. split; [done|]. apply Forall_singleton.
  split_and!; [done|apply Hl; by left|]. simpl. apply Forall_forall. by intros ev [? _]%list_elem_of_filter.
Qed.

(** An owned batch that is no longer there was confirmed. *)
Lemma gone_confirmed t s s' p :
  carries t (reconciles s) (reconciles s') → dict_get (reconciles s) (pw_family p) = Some p → dict_get (reconciles s') (pw_family p) = None →
  confirmed t p.
Proof. intros C Hp Hn. destruct (C _ _ Hp) as [?|(p' & Hp' & _)]; [done|congruence]. Qed.

Lemma omap_nil_none {A B} (g : A → option B) (l : list A) : omap g l = [] → ∀ x, x ∈ l → g x = None.
Proof.
  intros Hn x Hx. destruct (g x) as [y|] eqn:Hy; [|done]. assert (y ∈ omap g l) as Hin by (apply list_elem_of_omap; eauto).
  rewrite Hn in Hin. by apply elem_of_nil in Hin.
Qed.

(** Submission and waiting, from the moment the batches [l] are owned *)
Lemma deliver_owned created l d s t r s' :
  texec steady
    (d ← tfold (submit_delivery created true) d l;
     d ← tfold (settle_delivery created) d l;
     match omap (λ p, dict_get (dr_failures d) (pw_family p)) l with
     | failure :: _ => traise (XRuntime failure)
     | [] => mret (dr_notified d, py_sorted id (dr_opened d), py_sorted id (dr_unopened d))
     end) s t r s' →
  batches_wf (reconciles s) → owned l s → NoDup (pw_family <$> l) → dr_notified d = [] →
  sweeps t s s' ∧ ∀ a, r = Ok a → (∀ p, p ∈ l → dict_get (reconciles s') (pw_family p) = None) ∧ ∀ f, f ∈ a.1.1 → f ∈ pw_family <$> l.
Proof.
  intros H Hwf Hown Hnd Hd0. apply texec_try_inv in H as (r1 & s1 & t1 & t2 & -> & H1 & H2).
  destruct (submit_fold_sweeps _ _ _ _ _ _ _ _ H1 Hwf Hown Hnd) as [Hsw1 Hd1]. destruct r1 as [d1|x].
  2: { apply texec_inv in H2 as (-> & -> & Hs%rtc_steady). rewrite app_nil_r. split; [unfold sweeps in *; by rewrite Hs|done]. }
  apply texec_try_inv in H2 as (r3 & s3 & t3 & t4 & -> & H3 & H4).
  destruct (settle_delivery_fold _ _ _ _ _ _ _ H3 ltac:(apply Hsw1)) as [Hsw3 Hd3]. destruct r3 as [d3|x].
  2: { apply texec_inv in H4 as (-> & -> & Hs%rtc_steady). rewrite app_nil_r. split; [|done]. eapply sweeps_trans; [exact Hsw1|].
       unfold sweeps in *. by rewrite Hs. }
  destruct (Hd3 d3 eq_refl) as (_ & Hgone & Hnot). rewrite (Hd1 d1 eq_refl eq_refl), Hd0 in Hnot.
  assert (t4 = [] ∧ reconciles s' = reconciles s3 ∧ ∀ a, r = Ok a → a.1.1 = dr_notified d3 ∧ omap (λ p, dict_get (dr_failures d3) (pw_family p)) l = [])
    as (-> & Hs & Hr).
  { destruct (omap _ l) as [|failure fs]; apply texec_inv in H4 as (-> & -> & Hs4%rtc_steady); (split_and!; [done..|]); by intros a [= <-]. }
  rewrite app_nil_r. split; [eapply sweeps_trans; [exact Hsw1|]; unfold sweeps in *; by rewrite Hs|].
  intros a Ha. destruct (Hr a Ha) as [-> Hnone]. split.
  - intros p Hp. rewrite Hs. apply Hgone; [done|]. by apply (omap_nil_none _ _ Hnone).
  - intros f [?%elem_of_nil|?]%Hnot; done.
Qed.

(** Submission without waiting *)
Lemma submit_owned created l d s t r s' :
  texec steady
    (d ← tfold (submit_delivery created false) d l;
     d ← mret d;
     match omap (λ p, dict_get (dr_failures d) (pw_family p)) l with
     | failure :: _ => mret (dr_notified d, py_sorted id (dr_opened d), py_sorted id (dr_unopened d))
     | [] => mret (dr_notified d, py_sorted id (dr_opened d), py_sorted id (dr_unopened d))
     end) s t r s' →
  batches_wf (reconciles s) → owned l s → NoDup (pw_family <$> l) → sweeps t s s'.
Proof.
  intros H Hwf Hown Hnd. apply texec_try_inv in H as (r1 & s1 & t1 & t2 & -> & H1 & H2).
  destruct (submit_fold_sweeps _ _ _ _ _ _ _ _ H1 Hwf Hown Hnd) as [Hsw _].
  assert (t2 = [] ∧ reconciles s' = reconciles s1) as [-> Hs].
  { destruct r1 as [d1|x]; [|by apply texec_inv in H2 as (-> & _ & Hs%rtc_steady)].
    apply texec_try_inv in H2 as (r3 & s3 & t3 & t4 & -> & (-> & -> & Hs3%rtc_steady)%texec_inv & H4). cbn beta match in H4.
    destruct (omap _ l); apply texec_inv in H4 as (-> & _ & Hs4%rtc_steady); (split; [done|congruence]). }
  rewrite app_nil_r. unfold sweeps in *. by rewrite Hs.
Qed.

Lemma apply_events_delivers events created force wait s :
  batches_wf (reconciles s) →
  delivers (_apply_events events created force wait) s (λ t a s', wait = true → reconciles s = [] → all_delivered t a.1.1 s').
Proof.
  intros Hwf. unfold _apply_events. eapply delivers_bind; [apply delivers_steady; [|done]; by apply guar_frame; guar_steps|].
  intros t1 trackers s1 Hwf1 _ Hs1.
  eapply (delivers_bind _ _ _ (λ _ affected s', reconciles s' = reconciles s1 ∧ ∀ f, f ∈ affected → family_events f events ≠ [])).
  { apply delivers_also; [apply delivers_steady; [|done]; unfold advance_tracker; guar_steps; done|].
    intros t affected s' Hx. eapply affected_fold; [exact Hx|]. by intros f ?%elem_of_nil. }
  intros t2 affected s2 Hwf2 _ [Hs2 Haff].
  eapply (delivers_bind _ _ _ (λ _ prepared s', reconciles s' = reconciles s2 ∧ Forall fresh_batch prepared.1)).
  { apply delivers_also; [apply delivers_steady; [|done]; unfold prepare_delivery; guar_steps; done|].
    intros t prepared s' Hx. eapply prepare_fold; [exact Hx|exact Haff|done]. }
  intros t3 [l unopened] s3 Hwf3 _ [Hs3 Hfresh] t r s' H. cbn beta match in H. apply texec_try_inv in H as (r4 & s4 & t4 & t5 & -> & H4 & H5).
  apply texec_inv in H4 as (s5 & Hs5%rtc_steady & _ & (-> & -> & Hs4%rtc_steady)%texec_inv).
  destruct (own_deliveries_carries l s5) as (C & W & Hok); [by rewrite Hs5|]. rewrite Hs5 in C. rewrite <-Hs4 in C, W.
  change ([] ++ ?x) with x. destruct (own_deliveries l s5).2 as [[]|x].
  2: { apply texec_inv in H5 as (-> & -> & Hs%rtc_steady). split; [|done]. unfold keeps_batches. by rewrite Hs. }
  destruct (Hok eq_refl) as (Hown & Hnd & Hnew & Hother).
  assert (owned l s4) as Hown4 by (intros p Hp; rewrite Hs4; by apply Hown).
  assert (∀ t, sweeps t s4 s' → keeps_batches t s3 s') as Hkeeps.
  { intros t' Hsw. change t' with ([] ++ t'). eapply (keeps_trans [] t' s3 s4); [by split|by apply sweeps_keeps]. }
  destruct wait; [|split; [by eapply Hkeeps, submit_owned|done]].
  destruct (deliver_owned _ _ _ _ _ _ _ H5 W Hown4 Hnd eq_refl) as [Hsw Hr]. split; [by apply Hkeeps|].
  intros a Ha _ Hempty. destruct (Hr a Ha) as [Hgone Hnot]. rewrite app_assoc. rewrite app_assoc. apply all_delivered_app. split.
  - apply batches_empty. intros f. destruct (decide (f ∈ pw_family <$> l)) as [(p & -> & Hp)%list_elem_of_fmap|Hn]; [by apply Hgone|].
    apply Hsw. rewrite Hs4, Hother by done. rewrite Hs5, Hs3, Hs2, Hs1, Hempty. done.
  - intros f Hf. apply Hnot in Hf. apply list_elem_of_fmap in Hf as (p & -> & Hp). cbn [fst] in Hfresh. rewrite Forall_forall in Hfresh.
    destruct (fresh_confirmed t5 p) as (g & Hsub & Hres); [by apply Hfresh| |by exists p, g; split_and!; [|apply Hfresh|..]].
    eapply gone_confirmed; [apply Hsw|by apply Hown4|by apply Hgone].
Qed.

Lemma settle_all_delivers s :
  batches_wf (reconciles s) → delivers (_settle_pending_reconciles None) s (λ _ _ s', reconciles s' = []).
Proof.
  intros Hwf t r s' H. destruct (settle_reconciles_sweeps _ _ _ _ _ H Hwf) as [Hsw _]. split; [by apply sweeps_keeps|].
  intros [] ->. by eapply settle_all_empty.
Qed.

Context `{!PyOrd T} (t_zero default_max_wait default_retry_after : T).
Context (sha256_hex : list N → pystr) (read_fuel : nat) (identity : WorkspaceIdentity) (family_order : list LanguageFamily).

Lemma delivers_commit states configs s :
  batches_wf (reconciles s) →
  delivers (tatom any (λ s, (on_freshness (commit states configs) s, tt))) s (λ _ _ s', reconciles s' = reconciles s).
Proof.
  intros Hwf t r s' (s1 & Hs1%rtc_steady & _ & (-> & -> & Hs%rtc_steady)%texec_inv)%texec_inv.
  assert (reconciles s' = reconciles s) by (rewrite Hs; done). split; [by apply keeps_same|done].
Qed.

Lemma reconcile_scan_delivers rebuilt states configs f s :
  batches_wf (reconciles s) →
  delivers (reconcile_scan t_zero default_max_wait default_retry_after family_order rebuilt states configs f) s
    (λ t scan s', reconciles s = [] → all_delivered t (sc_notified scan) s').
Proof.
  intros Hwf. unfold reconcile_scan. eapply delivers_bind.
  { apply delivers_steady; [|done]. case_match; [|done]. apply guar_frame, guar_build_projections. }
  intros t1 projections s1 Hwf1 _ Hs1. eapply delivers_bind; [by apply delivers_commit|]. intros t2 u s2 Hwf2 _ Hs2. cbv zeta.
  eapply delivers_bind.
  { apply delivers_steady; [|done]. unfold try_install. apply guar_try; [apply guar_install_freshness|]. intros r'. repeat case_match; done. }
  intros t3 failure s3 Hwf3 _ Hs3. eapply delivers_bind; [apply delivers_steady; [apply guar_frame, guar_watched_events|done]|].
  intros t4 created s4 Hwf4 _ Hs4. eapply delivers_bind; [apply delivers_steady; [apply guar_frame, guar_watched_events|done]|].
  intros t5 changed s5 Hwf5 _ Hs5. eapply delivers_bind; [apply delivers_steady; [apply guar_frame, guar_watched_events|done]|].
  intros t6 deleted s6 Hwf6 _ Hs6. eapply delivers_bind; [by apply apply_events_delivers|]. intros t7 [[notified opened] unopened] s7 Hwf7 _ Hall.
  destruct failure as [x|]; [by apply delivers_ret|]. apply delivers_ret; [done|]. intros scan s8 [= <-] Hs8 Hempty.
  rewrite app_nil_r. do 6 apply all_delivered_app. unfold all_delivered in *. rewrite Hs8. apply Hall; [done|congruence].
Qed.

Lemma no_delivery t s : reconciles s = [] → all_delivered t [] s.
Proof. intros ?. split; [done|]. by intros f ?%elem_of_nil. Qed.

Lemma delivers_frame {A} (p : rthread A) s : guar frame p → batches_wf (reconciles s) → delivers p s (λ _ _ s', reconciles s' = reconciles s).
Proof. intros Hp. by apply delivers_steady, guar_frame. Qed.

Lemma scan_root_delivers s :
  batches_wf (reconciles s) →
  delivers (_scan_root t_zero default_max_wait default_retry_after sha256_hex read_fuel identity family_order) s
    (λ t scan s', all_delivered t (sc_notified scan) s').
Proof.
  intros Hwf. unfold _scan_root. eapply delivers_bind; [apply delivers_frame; [apply guar_retry_pending_restarts|done]|].
  intros t1 u1 s1 W1 _ Hs1. eapply delivers_bind; [by apply settle_all_delivers|].
  intros t2 u2 s2 W2 _ Hs2. eapply delivers_bind; [apply delivers_frame; [by apply guar_read; apply _|done]|].
  intros t3 previous s3 W3 _ Hs3. eapply delivers_bind; [apply delivers_frame; [apply guar_rebuild_inventory|done]|].
  intros t4 rebuilt s4 W4 _ Hs4. eapply delivers_bind; [apply delivers_frame; [apply guar_observe_states|done]|].
  intros t5 observed s5 W5 _ Hs5. eapply delivers_bind; [apply delivers_frame; [apply guar_config_states_for|done]|].
  intros t6 config_states s6 W6 _ Hs6. cbv zeta. destruct (nonempty _); [by apply delivers_ret|].
  eapply delivers_bind; [apply delivers_frame; [by apply guar_read; apply _|done]|]. intros t7 committed s7 W7 _ Hs7.
  assert (reconciles s7 = []) as H7 by congruence. destruct (compare_scan _ _ _ _ _ _) as [f|]; [|by apply delivers_ret].
  destruct (negb _).
  - apply delivers_ret; [done|]. intros scan s8 [= <-] Hs8. apply no_delivery. congruence.
  - eapply delivers_mono; [by apply reconcile_scan_delivers|]. intros t8 scan s8 _ Hall. do 7 apply all_delivered_app. by apply Hall.
Qed.

Lemma refresh_paths_delivers paths s :
  batches_wf (reconciles s) →
  delivers (_refresh_paths sha256_hex read_fuel paths) s (λ t scan s', all_delivered t (sc_notified scan) s').
Proof.
  intros Hwf. unfold _refresh_paths. eapply delivers_bind; [by apply settle_all_delivers|].
  intros t1 u1 s1 W1 _ Hs1. eapply delivers_bind; [apply delivers_frame; [by apply guar_read; apply _|done]|].
  intros t2 inventory s2 W2 _ Hs2. cbv zeta. destruct (negb _).
  { apply delivers_ret; [done|]. intros scan s3 [= <-] Hs3. apply no_delivery. congruence. }
  eapply delivers_bind; [apply delivers_frame; [apply guar_observe_states|done]|].
  intros t3 states s3 W3 _ Hs3. destruct (nonempty _); [by apply delivers_ret|].
  eapply (delivers_bind _ _ _ (λ _ _ s', reconciles s' = reconciles s3)).
  { intros t r s' (s4 & Hs4%rtc_steady & _ & (-> & -> & Hs%rtc_steady)%texec_inv)%texec_inv. assert (reconciles s' = reconciles s3).
    { rewrite Hs, <-Hs4. unfold reconciles, refresh_states. destruct (nonempty _); done. }
    split; [by apply keeps_same|done]. }
  intros t4 changed s4 W4 _ Hs4. destruct (negb _).
  { apply delivers_ret; [done|]. intros scan s5 [= <-] Hs5. apply no_delivery. congruence. }
  eapply delivers_bind; [apply delivers_frame; [apply guar_watched_events|done]|]. intros t5 events s5 W5 _ Hs5.
  eapply delivers_bind; [by apply apply_events_delivers|]. intros t6 applied s6 W6 _ Hall.
  apply delivers_ret; [done|]. intros scan s7 [= <-] Hs7. rewrite app_nil_r. do 5 apply all_delivered_app. unfold all_delivered in *. simpl. rewrite Hs7.
  apply Hall; [done|congruence].
Qed.

(** C9: A batch of changes is never lost. Whatever the adapters, their futures
    and the disk do during a scan that holds its ticket, and however the scan ends:
    each batch the coordinator owned before it is still owned, with the same events
    for the same adapter, or a future it was submitted with confirmed it during the
    scan. A scan that returns leaves no batch owned, and for each language it
    reports as notified it has handed an adapter a non-empty batch of events of this
    language and awaited the future it got for this batch, which succeeded. *)
Theorem batches_held_until_confirmed paths s t r s' :
  batches_wf (reconciles s) →
  texec steady (_scan_root t_zero default_max_wait default_retry_after sha256_hex read_fuel identity family_order) s t r s' ∨
  texec steady (_refresh_paths sha256_hex read_fuel paths) s t r s' →
  keeps_batches t s s' ∧ ∀ scan, r = Ok scan → all_delivered t (sc_notified scan) s'.
Proof. intros Hwf [H|H]; [by apply scan_root_delivers|by apply (refresh_paths_delivers paths)]. Qed.
End delivery.
