(* ===== verification/Cleanup.v ===== *)
(** * Shutdown of a workspace runtime

    [WorkspaceRuntime.stop] of [src/serena_light/workspace/runtime.py] stops the
    active adapters and settles the cleanups that earlier scans left: adapters
    that wait to be retired or restarted. An adapter is owned as long as one of
    these tables names it. The theorem says what the end of a stop means for
    every owned adapter, whatever the adapters and their futures answer. It is
    about a stop during which no other thread changes the tables ([undisturbed]).
    The first call of a stop closes the transaction executor, after which no scan
    runs that could change them; a scan that was running when the stop began can
    still settle an owed cleanup before that, and such a stop is not covered. *)

From S2P Require Import Prelude Paths Positions Json Scope Envelopes Executor Editing EditLogic FileSystem Identity PathTree Inventory Threads RuntimeState Freshness FreshReads FreshProps.

Section cleanup.
Context {T : Type}.
Abbreviation rthread := (thread (Runtime T) rcall rexn ranswer).
Abbreviation trace := (list (tevent (C := rcall) (R := ranswer))).
Abbreviation stop_work := (list future * list rexn)%type.
Implicit Types s : Runtime T.

(** The tables of adapters and whether the runtime is stopped, and other threads that leave them alone *)
Definition tables s := (wr_adapters s, wr_pending_retirements s, wr_pending_restarts s, wr_shutdown_futures s, wr_stopped s).
Definition undisturbed s s' : Prop := tables s' = tables s.
#[local] Instance undisturbed_preorder : PreOrder undisturbed.
Proof. split; [done|]. unfold undisturbed. intros ? ? ? ? ?. congruence. Qed.

Lemma rtc_undisturbed s s' : rtc undisturbed s s' → tables s' = tables s.
Proof. apply (rtc_guar undisturbed undisturbed). auto. Qed.

Lemma locked_exec {A} (p : rthread A) s t r s' :
  texec undisturbed (with_state_lock p) s t r s' →
  ∃ s1 s2, tables s1 = tables s ∧ texec undisturbed p s1 t r s2 ∧ tables s' = tables s2.
Proof.
  intros (s1 & Hs1%rtc_undisturbed & _ & H)%texec_inv. apply texec_try_inv in H as (r1 & s2 & t1 & t2 & -> & H1 & H2).
  exists (set_state_locked true s1), s2. split; [done|].
  apply texec_inv in H2 as (s3 & Hs3%rtc_undisturbed & _ & (-> & -> & Hs'%rtc_undisturbed)%texec_inv). rewrite app_nil_r. split; [done|].
  rewrite Hs', <-Hs3. done.
Qed.

(** ** One owed stop *)

Lemma stop_again_tables x y s t r s' : texec undisturbed (stop_again x y) s t r s' → tables s' = tables s.
Proof.
  intros H. assert (guar undisturbed (stop_again (T:=T) x y)) as Hg; [|by eapply (texec_guar undisturbed) in H; [|auto|exact Hg]].
  unfold stop_again, _stop_future_needs_retry, adapter_stop. guar_steps.
Qed.

(** A future of a stop of [a], or the one there was *)
Definition stop_of (t : trace) (a : adapter) (old : option future) (f : future) : Prop :=
  TEv (R := ranswer) (RStop a) (Ok f) ∈ t ∨ old = Some f.

Lemma stop_again_answers rely x y s t again s' :
  texec rely (stop_again x y) s t (Ok again) s' →
  match again with
  | None => y = None ∨ is_Some x
  | Some (Ok f) => ∃ a, y = Some a ∧ TEv (R := ranswer) (RStop a) (Ok f) ∈ t
  | Some (Err _) => True
  end.
Proof.
  intros (usable & s1 & t1 & t2 & -> & H1 & H2)%texec_bind_ok. destruct usable.
  - apply texec_inv in H2 as (-> & [= ->] & _). right. destruct x as [f|]; [done|]. by apply texec_inv in H1 as (_ & [= ] & _).
  - destruct y as [a|]; [|apply texec_inv in H2 as (-> & [= ->] & _); by left].
    apply texec_try_inv in H2 as (r3 & s3 & t3 & t4 & -> & H3 & (-> & [= ->] & _)%texec_inv).
    apply texec_inv in H3 as (s4 & r4 & t5 & _ & -> & (-> & -> & _)%texec_inv). destruct r4 as [f|]; [|done].
    exists a. split; [done|]. apply elem_of_app. right. by left.
Qed.

(** ** Ownership *)

(** Every entry is still there, for the same adapter. *)
Definition keeps_owner {P} (adapter_of : P → option adapter) (d d' : list (LanguageFamily * P)) : Prop :=
  ∀ f p, dict_get d f = Some p → ∃ q, dict_get d' f = Some q ∧ adapter_of q = adapter_of p.

Lemma keeps_owner_refl {P} (adapter_of : P → option adapter) d : keeps_owner adapter_of d d.
Proof. intros f p H. by exists p. Qed.
Lemma keeps_owner_trans {P} (adapter_of : P → option adapter) d1 d2 d3 :
  keeps_owner adapter_of d1 d2 → keeps_owner adapter_of d2 d3 → keeps_owner adapter_of d1 d3.
Proof. intros H1 H2 f p Hp. destruct (H1 f p Hp) as (q & Hq & Eq). destruct (H2 f q Hq) as (q' & ? & ?). exists q'. split; congruence. Qed.
Lemma keeps_owner_set {P} (adapter_of : P → option adapter) d f p q :
  dict_get d f = Some p → adapter_of q = adapter_of p → keeps_owner adapter_of d (dict_set d f q).
Proof.
  intros Hp Hq f' p' Hp'. rewrite dict_get_set. case_decide as He; [|by exists p']. subst f'. exists q. split; [done|congruence].
Qed.

(** What the steps of a stop do until it is over *)
Record tends s s' : Prop := {
  td_adapters : wr_adapters s' = wr_adapters s;
  td_stopped : wr_stopped s' = wr_stopped s;
  td_retirements : keeps_owner pt_stop_adapter (wr_pending_retirements s) (wr_pending_retirements s');
  td_restarts : keeps_owner pr_stop_adapter (wr_pending_restarts s) (wr_pending_restarts s');
}.
#[local] Instance tends_preorder : PreOrder tends.
Proof.
  split.
  - intros s. split; [done|done|apply keeps_owner_refl..].
  - intros s1 s2 s3 [? ? ? ?] [? ? ? ?]. split; [congruence|congruence|by eapply keeps_owner_trans..].
Qed.
Lemma tables_tends s s' : tables s' = tables s → tends s s'.
Proof. intros [= H1 H2 H3 _ H4]. split; [done|done|rewrite H2|rewrite H3]; apply keeps_owner_refl. Qed.

(** ** Collecting the futures to wait for *)

(** The work grew, and if nothing failed the new futures satisfy [Q]. *)
Definition grows (work work' : stop_work) (Q : list future → Prop) : Prop :=
  work.1 ⊆ work'.1 ∧ ∃ more, work'.2 = work.2 ++ more ∧ (more = [] → Q work'.1).

(** The adapter of [x] is stopped by one of the futures. *)
Definition covered {X} (adapter_of : X → option adapter) (old : X → option future) (t : trace) (x : X) (futures : list future) : Prop :=
  ∀ a, adapter_of x = Some a → ∃ f, f ∈ futures ∧ stop_of t a (old x) f.

Lemma covered_mono {X} (adapter_of : X → option adapter) old t1 t2 t3 x (l k : list future) :
  l ⊆ k → covered adapter_of old t2 x l → covered adapter_of old (t1 ++ t2 ++ t3) x k.
Proof.
  intros Hs Hc a Ha. destruct (Hc a Ha) as (f & Hf & Hst). exists f. split; [by apply Hs|]. destruct Hst as [?|?]; [|by right].
  left. apply elem_of_app. right. apply elem_of_app. by left.
Qed.

Section collect.
Context {X K Y : Type} (key : X → K) (adapter_of : X → option adapter) (old : X → option future).
Context (rest : Runtime T → Y) (rest_tables : ∀ s s', tables s' = tables s → rest s' = rest s).
Context (inv : X → Runtime T → Prop) (step : stop_work → X → rthread stop_work).
Hypothesis step_ok : ∀ work x s t r s', texec undisturbed (step work x) s t r s' → inv x s →
  tends s s' ∧ rest s' = rest s ∧ (∀ y, key y ≠ key x → inv y s → inv y s') ∧ ∀ work', r = Ok work' → grows work work' (covered adapter_of old t x).

Lemma collect_fold l work s t r s' :
  texec undisturbed (tfold step work l) s t r s' → (∀ x, x ∈ l → inv x s) → NoDup (key <$> l) →
  tends s s' ∧ rest s' = rest s ∧ ∀ work', r = Ok work' → grows work work' (λ futures, ∀ x, x ∈ l → covered adapter_of old t x futures).
Proof.
  revert work s t. induction l as [|x l IH]; intros work s t H Hinv Hnd; simpl in H.
  { apply texec_inv in H as (-> & -> & Hs%rtc_undisturbed). split_and!; [by apply tables_tends|auto|]. intros work' [= <-]. split; [done|]. exists [].
    rewrite app_nil_r. split; [done|]. by intros _ x ?%elem_of_nil. }
  apply texec_try_inv in H as (r1 & s1 & t1 & t2 & -> & H1 & H2).
  destruct (step_ok _ _ _ _ _ _ H1 (Hinv x ltac:(by left))) as (Htd & Hrest & Hother & Hgr). apply NoDup_cons in Hnd as [Hfresh Hnd].
  destruct r1 as [work1|e].
  2: { apply texec_inv in H2 as (-> & -> & Hs%rtc_undisturbed). split_and!; [etrans; [exact Htd|by apply tables_tends]|rewrite (rest_tables _ _ Hs); done|done]. }
  destruct (IH _ _ _ H2) as (Htd2 & Hrest2 & Hgr2); [|done|].
  { intros y Hy. apply Hother; [|apply Hinv; by right]. intros He. apply Hfresh. rewrite <-He. apply list_elem_of_fmap. by exists y. }
  split_and!; [by etrans|congruence|]. intros work' Hr. destruct (Hgr work1 eq_refl) as [S1 (m1 & E1 & C1)]. destruct (Hgr2 work' Hr) as [S2 (m2 & E2 & C2)].
  split; [by etrans|]. exists (m1 ++ m2). rewrite E2, E1. split; [by rewrite app_assoc|]. intros [-> ->]%app_nil y [->|Hy]%elem_of_cons.
  - apply (covered_mono _ _ [] t1 t2 _ work1.1); [done|auto].
  - rewrite <-(app_nil_r t2). apply (covered_mono _ _ t1 t2 [] _ work'.1); [done|auto].
Qed.
End collect.

(** *** Active adapters *)

Lemma add_future_elem l f : f ∈ add_future l f.
Proof. unfold add_future. case_bool_decide; [done|]. apply elem_of_app. right. by left. Qed.
Lemma add_future_subseteq l f : l ⊆ add_future l f.
Proof. unfold add_future. case_bool_decide; [done|]. intros x Hx. apply elem_of_app. by left. Qed.

Lemma grows_failure (work : stop_work) x Q : grows work (work.1, work.2 ++ [x]) Q.
Proof. split; [done|]. by exists [x]. Qed.
Lemma grows_future (work : stop_work) f (Q : list future → Prop) : Q (add_future work.1 f) → grows work (add_future work.1 f, work.2) Q.
Proof. intros HQ. split; [apply add_future_subseteq|]. exists []. by rewrite app_nil_r. Qed.

Lemma stop_adapter_collects s0 work a s t r s' :
  texec undisturbed (stop_adapter work a) s t r s' → wr_shutdown_futures s !! a = wr_shutdown_futures s0 !! a →
  tends s s' ∧ (wr_pending_retirements s', wr_pending_restarts s') = (wr_pending_retirements s, wr_pending_restarts s) ∧
  (∀ b, b ≠ a → wr_shutdown_futures s !! b = wr_shutdown_futures s0 !! b → wr_shutdown_futures s' !! b = wr_shutdown_futures s0 !! b) ∧
  ∀ work', r = Ok work' → grows work work' (covered Some (λ a, wr_shutdown_futures s0 !! a) t a).
Proof.
  intros H Ha. apply texec_try_inv in H as (r1 & s1 & t1 & t2 & -> & H1 & H2).
  apply texec_inv in H1 as (s2 & Hs2%rtc_undisturbed & _ & (-> & -> & Hs1%rtc_undisturbed)%texec_inv). cbn beta match in H2.
  apply texec_try_inv in H2 as (r3 & s3 & t3 & t4 & -> & H3 & H4). pose proof (stop_again_tables _ _ _ _ _ _ H3) as Hs3.
  assert (tables s3 = tables s) as Hs by (rewrite Hs3, Hs1, <-Hs2; done). assert (wr_shutdown_futures s2 = wr_shutdown_futures s) as Hf2 by by injection Hs2.
  assert (∀ s', tables s' = tables s → tends s s' ∧ (wr_pending_retirements s', wr_pending_restarts s') = (wr_pending_retirements s, wr_pending_restarts s) ∧
    (∀ b, b ≠ a → wr_shutdown_futures s !! b = wr_shutdown_futures s0 !! b → wr_shutdown_futures s' !! b = wr_shutdown_futures s0 !! b)) as Hsame.
  { intros s4 H5. split; [by apply tables_tends|]. injection H5 as _ -> -> -> _. auto. }
  destruct r3 as [again|e].
  2: { apply texec_inv in H4 as (-> & -> & Hs4%rtc_undisturbed). destruct (Hsame s') as (? & ? & ?); [congruence|]. by split_and!. }
  pose proof (stop_again_answers _ _ _ _ _ _ _ H3) as Hans. destruct again as [[f|x]|].
  - destruct Hans as (a' & [= <-] & Hf). apply texec_inv in H4 as (s5 & Hs5%rtc_undisturbed & _ & (-> & -> & Hs'%rtc_undisturbed)%texec_inv).
    simpl in Hs'. unfold tables in Hs'. simpl in Hs'. assert (tables s5 = tables s) as Ht5 by congruence. injection Ht5 as E1 E2 E3 E4 E5.
    injection Hs' as F1 F2 F3 F4 F5. split_and!.
    + split; [congruence|congruence|rewrite F2, E2|rewrite F3, E3]; apply keeps_owner_refl.
    + congruence.
    + intros b Hb Hold. rewrite F4, lookup_insert_ne, E4 by done. done.
    + intros work' [= <-]. apply grows_future. intros ? [= <-]. exists f. split; [apply add_future_elem|]. left. rewrite app_nil_r. done.
  - apply texec_inv in H4 as (-> & -> & Hs4%rtc_undisturbed). destruct (Hsame s') as (? & ? & ?); [congruence|]. split_and!; [done..|].
    intros work' [= <-]. apply grows_failure.
  - destruct Hans as [?|[f Hf]]; [done|]. rewrite Hf in H4. apply texec_inv in H4 as (-> & -> & Hs4%rtc_undisturbed).
    destruct (Hsame s') as (? & ? & ?); [congruence|]. split_and!; [done..|]. intros work' [= <-]. apply grows_future. intros ? [= <-].
    exists f. split; [apply add_future_elem|]. right. congruence.
Qed.

(** *** Pending retirements *)

(** The start of an owed stop: the tables stay, or a new future is recorded *)
Lemma start_cleanup {P} x y (p : P) (fail : rexn → rthread (option P * option WorkspaceRuntimeError))
    (upd : future → Runtime T → Runtime T * (option P * option WorkspaceRuntimeError)) s t r s' :
  (∀ e s t r s', texec undisturbed (fail e) s t r s' → tables s' = tables s ∧ ∀ c, r ≠ Ok (c, None)) →
  texec undisturbed
    (again ← stop_again x y;
     match again with
     | None => mret (Some p, None)
     | Some (Err e) => fail e
     | Some (Ok f) => tatom any (upd f)
     end) s t r s' →
  (tables s' = tables s ∧ ∀ c, r = Ok (c, None) → c = Some p ∧ (y = None ∨ is_Some x)) ∨
  ∃ a f s1, y = Some a ∧ TEv (R := ranswer) (RStop a) (Ok f) ∈ t ∧ tables s1 = tables s ∧ tables s' = tables (upd f s1).1 ∧ r = Ok (upd f s1).2.
Proof.
  intros Hfail H. apply texec_try_inv in H as (r6 & s6 & t6 & t7 & -> & H6 & H7). pose proof (stop_again_tables _ _ _ _ _ _ H6) as Hs6.
  destruct r6 as [again|e]; [|left; apply texec_inv in H7 as (-> & -> & Hs%rtc_undisturbed); split; [congruence|done]].
  pose proof (stop_again_answers _ _ _ _ _ _ _ H6) as Hans. destruct again as [[f|e]|].
  - right. destruct Hans as (a & Ha & Hf). apply texec_inv in H7 as (s8 & Hs8%rtc_undisturbed & _ & (-> & -> & Hs%rtc_undisturbed)%texec_inv).
    exists a, f, s8. split_and!; [done|apply elem_of_app; by left|congruence|done|done].
  - left. destruct (Hfail _ _ _ _ _ H7) as [Ht Hr]. split; [congruence|]. intros c Hc. by destruct (Hr c).
  - left. apply texec_inv in H7 as (-> & -> & Hs%rtc_undisturbed). split; [congruence|]. by intros c [= <-].
Qed.

Lemma start_retirement_started p s t r s' :
  texec undisturbed (_start_pending_retirement p) s t r s' → dict_get (wr_pending_retirements s) (pt_family p) = Some p →
  tends s s' ∧ wr_pending_restarts s' = wr_pending_restarts s ∧ (∀ f, f ≠ pt_family p → dict_get (wr_pending_retirements s') f = dict_get (wr_pending_retirements s) f) ∧
  ∀ c, r = Ok (c, None) → ∀ a, pt_stop_adapter p = Some a → ∃ f, c ≫= pt_stop_future = Some f ∧ stop_of t a (pt_stop_future p) f.
Proof.
  intros (s1 & s2 & Hs1 & H & Hs')%locked_exec Hp. apply texec_try_inv in H as (r3 & s3 & t3 & t4 & -> & H3 & H4).
  apply texec_inv in H3 as (s5 & Hs5%rtc_undisturbed & _ & (-> & -> & Hs3%rtc_undisturbed)%texec_inv). cbn beta match in H4.
  assert (tables s5 = tables s) as Ht5 by congruence. assert (tables s3 = tables s) as Ht3 by (rewrite Hs3; done).
  assert (wr_pending_retirements s5 = wr_pending_retirements s) as Et by by injection Ht5. rewrite Et, Hp, bool_decide_true in H4 by done. cbn [negb] in H4. change ([] ++ ?x) with x.
  apply start_cleanup in H4 as [[Ht Hr]|(a & f & s8 & Ha & Hf & Ht8 & Ht & ->)].
  - rewrite Ht3 in Ht. assert (tables s' = tables s) as E by congruence. split_and!; [by apply tables_tends|by injection E| |].
    + intros f' _. by injection E as _ -> _ _ _.
    + intros c [-> Hy]%Hr a Ha. destruct Hy as [?|[f Hf]]; [congruence|]. exists f. split; [done|by right].
  - rewrite <-Hs', Ht3 in *. unfold tables in Ht. simpl in Ht. injection Ht8 as G1 G2 G3 G4 G5. injection Ht as F1 F2 F3 F4 F5.
    rewrite G1 in F1; rewrite G2 in F2; rewrite G3 in F3; rewrite G5 in F5. split_and!.
    + split; [done|done|rewrite F2; by eapply keeps_owner_set|rewrite F3; apply keeps_owner_refl].
    + done.
    + intros f' Hne. rewrite F2. by apply dict_get_set_ne.
    + intros c [= <-] a' Ha'. exists f. split; [done|]. left. rewrite Ha in Ha'. injection Ha' as <-. exact Hf.
  - intros e sx tx rx sy Hx. destruct (is_exception e); apply texec_inv in Hx as (-> & -> & Hs%rtc_undisturbed); done.
Qed.

Lemma start_stop_started p s t r s' :
  texec undisturbed (_start_pending_stop p) s t r s' → dict_get (wr_pending_restarts s) (pr_family p) = Some p →
  tends s s' ∧ (∀ f, f ≠ pr_family p → dict_get (wr_pending_restarts s') f = dict_get (wr_pending_restarts s) f) ∧
  ∀ c, r = Ok (c, None) → ∀ a, pr_stop_adapter p = Some a → ∃ f, c ≫= pr_stop_future = Some f ∧ stop_of t a (pr_stop_future p) f.
Proof.
  intros (s1 & s2 & Hs1 & H & Hs')%locked_exec Hp. apply texec_try_inv in H as (r3 & s3 & t3 & t4 & -> & H3 & H4).
  apply texec_inv in H3 as (s5 & Hs5%rtc_undisturbed & _ & (-> & -> & Hs3%rtc_undisturbed)%texec_inv). cbn beta match in H4.
  assert (tables s5 = tables s) as Ht5 by congruence. assert (tables s3 = tables s) as Ht3 by (rewrite Hs3; done).
  assert (wr_pending_restarts s5 = wr_pending_restarts s) as Et by by injection Ht5. rewrite Et, Hp, bool_decide_true in H4 by done. cbn [negb] in H4. change ([] ++ ?x) with x.
  apply start_cleanup in H4 as [[Ht Hr]|(a & f & s8 & Ha & Hf & Ht8 & Ht & ->)].
  - rewrite Ht3 in Ht. split_and!; [apply tables_tends; congruence| |].
    + intros f' _. assert (tables s' = tables s) as E by congruence. by injection E as _ _ -> _ _.
    + intros c [-> Hy]%Hr a Ha. destruct Hy as [?|[f Hf]]; [congruence|]. exists f. split; [done|by right].
  - rewrite <-Hs', Ht3 in *. unfold tables in Ht. simpl in Ht. injection Ht8 as G1 G2 G3 G4 G5. injection Ht as F1 F2 F3 F4 F5.
    rewrite G1 in F1; rewrite G2 in F2; rewrite G3 in F3; rewrite G5 in F5. split_and!.
    + split; [done|done|rewrite F2; apply keeps_owner_refl|rewrite F3; by eapply keeps_owner_set].
    + intros f' Hne. rewrite F3. by apply dict_get_set_ne.
    + intros c [= <-] a' Ha'. exists f. split; [done|]. left. rewrite Ha in Ha'. injection Ha' as <-. exact Hf.
  - intros e sx tx rx sy Hx. destruct (is_exception e); [|apply texec_inv in Hx as (-> & -> & Hs%rtc_undisturbed); done].
    apply texec_inv in Hx as (sz & Hsz%rtc_undisturbed & _ & (-> & -> & Hs%rtc_undisturbed)%texec_inv). split; [rewrite Hs; done|done].
Qed.

(** What a started stop adds to the work *)
Lemma add_cleanup_grows {P} (future_of adapter_future : P → option future) (adapter_of : P → option adapter) work c (failure : option WorkspaceRuntimeError) t p :
  (failure = None → ∀ a, adapter_of p = Some a → ∃ f, c ≫= future_of = Some f ∧ stop_of t a (adapter_future p) f) →
  grows work (add_cleanup work failure (c ≫= future_of)) (covered adapter_of adapter_future t p).
Proof.
  intros Hst. destruct failure as [e|]; simpl; [apply grows_failure|]. unfold add_cleanup. destruct (c ≫= future_of) as [f|].
  - apply grows_future. intros a Ha. destruct (Hst eq_refl a Ha) as (f' & [= <-] & ?). exists f. split; [apply add_future_elem|done].
  - split; [done|]. exists []. rewrite app_nil_r. split; [done|]. intros _ a Ha. by destruct (Hst eq_refl a Ha) as (f' & ? & _).
Qed.

Lemma stop_retirement_collects work p s t r s' :
  texec undisturbed (stop_retirement work p) s t r s' → dict_get (wr_pending_retirements s) (pt_family p) = Some p →
  tends s s' ∧ wr_pending_restarts s' = wr_pending_restarts s ∧
  (∀ q, pt_family q ≠ pt_family p → dict_get (wr_pending_retirements s) (pt_family q) = Some q → dict_get (wr_pending_retirements s') (pt_family q) = Some q) ∧
  ∀ work', r = Ok work' → grows work work' (covered pt_stop_adapter pt_stop_future t p).
Proof.
  intros H Hp. apply texec_try_inv in H as (r1 & s1 & t1 & t2 & -> & H1 & H2).
  destruct (start_retirement_started _ _ _ _ _ H1 Hp) as (Htd & Hrest & Hother & Hst).
  destruct r1 as [[c failure]|e]; apply texec_inv in H2 as (-> & -> & Hs%rtc_undisturbed);
    (split_and!; [etrans; [exact Htd|by apply tables_tends]|injection Hs as _ _ -> _ _; done|intros q Hne Hq; injection Hs as _ -> _ _ _; by rewrite Hother|]); [|done].
  intros work' [= <-]. rewrite app_nil_r. apply add_cleanup_grows. intros ->. by apply Hst.
Qed.

Lemma stop_restart_collects work p s t r s' :
  texec undisturbed (stop_restart work p) s t r s' → dict_get (wr_pending_restarts s) (pr_family p) = Some p →
  tends s s' ∧
  (∀ q, pr_family q ≠ pr_family p → dict_get (wr_pending_restarts s) (pr_family q) = Some q → dict_get (wr_pending_restarts s') (pr_family q) = Some q) ∧
  ∀ work', r = Ok work' → grows work work' (covered pr_stop_adapter pr_stop_future t p).
Proof.
  intros H Hp. apply texec_try_inv in H as (r1 & s1 & t1 & t2 & -> & H1 & H2).
  destruct (start_stop_started _ _ _ _ _ H1 Hp) as (Htd & Hother & Hst).
  destruct r1 as [[c failure]|e]; apply texec_inv in H2 as (-> & -> & Hs%rtc_undisturbed);
    (split_and!; [etrans; [exact Htd|by apply tables_tends]|intros q Hne Hq; injection Hs as _ _ -> _ _; by rewrite Hother|]); [|done].
  intros work' [= <-]. rewrite app_nil_r. apply add_cleanup_grows. intros ->. by apply Hst.
Qed.

(** ** The end of a stop *)

(** A sequence ends in its second part, or in a failure of its first. *)
Lemma seq_exec {A B} (p : rthread A) (q : A → rthread B) s t r s' :
  texec undisturbed (p ≫= q) s t r s' →
  (∃ a s1 t1 t2, t = t1 ++ t2 ∧ texec undisturbed p s t1 (Ok a) s1 ∧ texec undisturbed (q a) s1 t2 r s') ∨
  ∃ e s1, r = Err e ∧ texec undisturbed p s t (Err e) s1 ∧ tables s' = tables s1.
Proof.
  intros (r1 & s1 & t1 & t2 & -> & H1 & H2)%texec_try_inv. destruct r1 as [a|e]; [left; by exists a, s1, t1, t2|].
  right. apply texec_inv in H2 as (-> & -> & Hs%rtc_undisturbed). rewrite app_nil_r. by exists e, s1.
Qed.

Lemma stop_failed_tables (p : rthread unit) s t r s' :
  guar undisturbed p → texec undisturbed (stop_failed p) s t r s' → tables s' = tables s.
Proof.
  intros Hp H. assert (guar undisturbed (stop_failed p)) as Hg; [|by eapply (texec_guar undisturbed) in H; [|auto|exact Hg]].
  apply guar_try; [done|]. by intros [].
Qed.

Lemma require_none_exec l s t r s' :
  texec undisturbed (require_none (T:=T) l) s t r s' → tables s' = tables s ∧ ∀ u, r = Ok u → l = [].
Proof. destruct l; intros (-> & -> & Hs%rtc_undisturbed)%texec_inv; by split. Qed.

Lemma await_all l failures s t r s' :
  texec undisturbed (tfold (await_cleanup (T:=T)) failures l) s t r s' →
  tables s' = tables s ∧ ∃ more, r = Ok (failures ++ more) ∧ (more = [] → ∀ f, f ∈ l → TEv (R := ranswer) (RResult f) (Ok tt) ∈ t).
Proof.
  revert failures s t. induction l as [|f l IH]; intros failures s t H; simpl in H.
  { apply texec_inv in H as (-> & -> & Hs%rtc_undisturbed). split; [done|]. exists []. rewrite app_nil_r. split; [done|]. by intros _ f ?%elem_of_nil. }
  apply texec_inv in H as (s1 & a & t1 & Hs1%rtc_undisturbed & -> & H). destruct a as [[]|x]; apply IH in H as [Hs (more & -> & Hm)].
  - split; [congruence|]. exists more. split; [done|]. intros Hnil g [->|Hg]%elem_of_cons; [by left|right; auto].
  - split; [congruence|]. exists (x :: more). by rewrite <-app_assoc.
Qed.

(** The runtime owns [a]: it is active, or its retirement or restart is
    pending. [old] is the future of a stop of [a] the table already has. *)
Inductive owns s : adapter → option future → Prop :=
| owns_active f a : dict_get (wr_adapters s) f = Some a → owns s a (wr_shutdown_futures s !! a)
| owns_retirement f p a : dict_get (wr_pending_retirements s) f = Some p → pt_stop_adapter p = Some a → owns s a (pt_stop_future p)
| owns_restart f p a : dict_get (wr_pending_restarts s) f = Some p → pr_stop_adapter p = Some a → owns s a (pr_stop_future p).

(** The tables are keyed by family, and no two families share an adapter. *)
Record tables_ok s : Prop := {
  to_adapters : NoDup (wr_adapters s).*2;
  to_retirements : NoDup (wr_pending_retirements s).*1 ∧ Forall (λ e, pt_family e.2 = e.1) (wr_pending_retirements s);
  to_restarts : NoDup (wr_pending_restarts s).*1 ∧ Forall (λ e, pr_family e.2 = e.1) (wr_pending_restarts s);
}.

Lemma tends_owns s s' a old : tends s s' → owns s a old → ∃ old', owns s' a old'.
Proof.
  intros [Ha _ Ht Hr] [f b Hb|f p b Hp Hpb|f p b Hp Hpb].
  - exists (wr_shutdown_futures s' !! b). apply (owns_active _ f). by rewrite Ha.
  - destruct (Ht f p Hp) as (q & Hq & E). exists (pt_stop_future q). apply (owns_retirement _ f q); congruence.
  - destruct (Hr f p Hp) as (q & Hq & E). exists (pr_stop_future q). apply (owns_restart _ f q); congruence.
Qed.

Lemma keyed_values {P} (family : P → LanguageFamily) (d : list (LanguageFamily * P)) :
  NoDup d.*1 ∧ Forall (λ e, family e.2 = e.1) d → NoDup (family <$> d.*2) ∧ ∀ p, p ∈ d.*2 → dict_get d (family p) = Some p.
Proof.
  intros [Hnd Hk]. rewrite Forall_forall in Hk. assert (family <$> d.*2 = d.*1) as E.
  { rewrite <-list_fmap_compose. apply list_fmap_ext. intros i e He. apply Hk. by eapply list_elem_of_lookup_2. }
  rewrite E. split; [done|]. intros p ([f q] & -> & Hin)%list_elem_of_fmap. apply dict_get_elem; [done|]. by rewrite (Hk _ Hin).
Qed.

Lemma adapters_collected s0 work s t r s' :
  texec undisturbed (tfold stop_adapter work (wr_adapters s0).*2) s t r s' → tables_ok s0 → tables s = tables s0 →
  tends s s' ∧ (wr_pending_retirements s', wr_pending_restarts s') = (wr_pending_retirements s, wr_pending_restarts s) ∧
  ∀ work', r = Ok work' → grows work work' (λ futures, ∀ a, a ∈ (wr_adapters s0).*2 → covered Some (λ a, wr_shutdown_futures s0 !! a) t a futures).
Proof.
  intros H Hok Hs. eapply (collect_fold id Some (λ a, wr_shutdown_futures s0 !! a) (λ s, (wr_pending_retirements s, wr_pending_restarts s)));
    [|apply stop_adapter_collects|exact H| |rewrite list_fmap_id; apply Hok].
  - intros s1 s2 E. by injection E as _ -> -> _ _.
  - intros a _. simpl. by injection Hs as _ _ _ -> _.
Qed.

Lemma retirements_collected s0 work s t r s' :
  texec undisturbed (tfold stop_retirement work (wr_pending_retirements s0).*2) s t r s' → tables_ok s0 →
  wr_pending_retirements s = wr_pending_retirements s0 →
  tends s s' ∧ wr_pending_restarts s' = wr_pending_restarts s ∧
  ∀ work', r = Ok work' → grows work work' (λ futures, ∀ p, p ∈ (wr_pending_retirements s0).*2 → covered pt_stop_adapter pt_stop_future t p futures).
Proof.
  intros H Hok Hs. destruct (keyed_values pt_family _ (to_retirements _ Hok)) as [Hnd Hget].
  eapply (collect_fold pt_family pt_stop_adapter pt_stop_future wr_pending_restarts); [|intros *; apply stop_retirement_collects|exact H| |exact Hnd].
  - intros s1 s2 E. by injection E.
  - intros p Hp. cbn beta. rewrite Hs. by apply Hget.
Qed.

Lemma restarts_collected s0 work s t r s' :
  texec undisturbed (tfold stop_restart work (wr_pending_restarts s0).*2) s t r s' → tables_ok s0 →
  wr_pending_restarts s = wr_pending_restarts s0 →
  tends s s' ∧
  ∀ work', r = Ok work' → grows work work' (λ futures, ∀ p, p ∈ (wr_pending_restarts s0).*2 → covered pr_stop_adapter pr_stop_future t p futures).
Proof.
  intros H Hok Hs. destruct (keyed_values pr_family _ (to_restarts _ Hok)) as [Hnd Hget].
  apply (collect_fold pr_family pr_stop_adapter pr_stop_future (λ _, tt) (λ _ _ _, eq_refl)
    (λ p s, dict_get (wr_pending_restarts s) (pr_family p) = Some p)) in H as (Htd & _ & Hgr); [done| | |done].
  - intros work0 p s1 t1 r1 s2 H1 Hp. destruct (stop_restart_collects _ _ _ _ _ _ H1 Hp) as (? & ? & ?). by split_and!.
  - intros p Hp. rewrite Hs. by apply Hget.
Qed.

(** Which futures the stop has to wait for *)
Definition all_covered s (t : trace) (futures : list future) : Prop := ∀ a old, owns s a old → ∃ f, f ∈ futures ∧ stop_of t a old f.

Lemma stop_of_app t1 t2 t3 a old f : stop_of t2 a old f → stop_of (t1 ++ t2 ++ t3) a old f.
Proof. intros [?|?]; [|by right]. left. rewrite !elem_of_app. auto. Qed.

Lemma all_collected s t1 t2 t3 (work1 work2 work3 : stop_work) :
  grows ([], []) work1 (λ l, ∀ a, a ∈ (wr_adapters s).*2 → covered Some (λ a, wr_shutdown_futures s !! a) t1 a l) →
  grows work1 work2 (λ l, ∀ p, p ∈ (wr_pending_retirements s).*2 → covered pt_stop_adapter pt_stop_future t2 p l) →
  grows work2 work3 (λ l, ∀ p, p ∈ (wr_pending_restarts s).*2 → covered pr_stop_adapter pr_stop_future t3 p l) →
  work3.2 = [] → all_covered s (t1 ++ t2 ++ t3) work3.1.
Proof.
  intros [_ (m1 & E1 & C1)] [S2 (m2 & E2 & C2)] [S3 (m3 & E3 & C3)] Hnil.
  rewrite E3, E2, E1 in Hnil. simpl in Hnil. apply app_nil in Hnil as [[-> ->]%app_nil ->].
  intros a old Hown. destruct Hown as [f b Hb|f p b Hp Hpb|f p b Hp Hpb];
    [apply dict_get_Some_elem in Hb|apply dict_get_Some_elem in Hp..].
  - destruct (C1 eq_refl b) with b as (g & Hg & Hst); [apply list_elem_of_fmap; by exists (f, b)|done|]. exists g.
    split; [by apply S3, S2|]. by apply (stop_of_app []).
  - destruct (C2 eq_refl p) with b as (g & Hg & Hst); [apply list_elem_of_fmap; by exists (f, p)|done|]. exists g. split; [by apply S3|]. by apply stop_of_app.
  - destruct (C3 eq_refl p) with b as (g & Hg & Hst); [apply list_elem_of_fmap; by exists (f, p)|done|]. exists g. split; [done|].
    rewrite app_assoc, <-(app_nil_r t3). by apply stop_of_app.
Qed.

(** What the end of a stop that started in [s] says *)
Definition stop_outcome s (t : trace) (r : res rexn unit) s' : Prop :=
  match r with
  | Ok _ => tables s' = ([], [], [], ∅, true) ∧
      ∀ a old, owns s a old → ∃ f, stop_of t a old f ∧ TEv (R := ranswer) (RResult f) (Ok tt) ∈ t
  | Err _ => wr_stopped s' = wr_stopped s ∧ ∀ a old, owns s a old → ∃ old', owns s' a old'
  end.

Lemma stop_outcome_failed s t e s' : tends s s' → stop_outcome s t (Err e) s'.
Proof. intros H. split; [apply H|]. intros a old. by apply tends_owns. Qed.

Lemma stop_waits s0 (work : stop_work) t0 s t r s' :
  texec undisturbed
    (_ ← require_none work.2; failures ← tfold await_cleanup [] work.1; _ ← require_none failures;
     _ ← stop_failed (TCall RCloseExecutor TRet : rthread unit); tatom free (λ s, (finish_stop s, tt))) s t r s' →
  tends s0 s → (work.2 = [] → all_covered s0 t0 work.1) → stop_outcome s0 (t0 ++ t) r s'.
Proof.
  intros H Htd Hall. assert (∀ sx, tables sx = tables s → tends s0 sx) as Hx by (intros ? E; etrans; [exact Htd|by apply tables_tends]).
  apply seq_exec in H as [(u & s1 & t1 & t2 & -> & [Hs1 Hnil]%require_none_exec & H)|(e & s1 & -> & [Hs1 _]%require_none_exec & Hs')];
    [|apply stop_outcome_failed, Hx; congruence].
  apply seq_exec in H as [(l & s2 & t3 & t4 & -> & [Hs2 (more & Hl & Hres)]%await_all & H)|(e & s2 & -> & [_ (? & ? & _)]%await_all & _)]; [|done].
  injection Hl as ->. change ([] ++ more) with more in H.
  apply seq_exec in H as [(u' & s3 & t5 & t6 & -> & [Hs3 Hmore]%require_none_exec & H)|(e & s3 & -> & [Hs3 _]%require_none_exec & Hs')];
    [|apply stop_outcome_failed, Hx; congruence].
  apply seq_exec in H as [(v & s4 & t7 & t8 & -> & Hs4%stop_failed_tables & H)|(e & s4 & -> & Hs4%stop_failed_tables & Hs')];
    [|by guar_steps|apply stop_outcome_failed, Hx; congruence|by guar_steps].
  apply texec_inv in H as (s5 & _ & _ & (-> & -> & Hs'%rtc_undisturbed)%texec_inv). split; [exact Hs'|].
  intros a old Hown. destruct (Hall (Hnil _ eq_refl) a old Hown) as (f & Hf & Hst). exists f. split.
  - by apply (stop_of_app [] t0).
  - specialize (Hres (Hmore _ eq_refl) f Hf). rewrite !elem_of_app. auto.
Qed.

Lemma stop_owned_outcome s t r s' :
  texec undisturbed (stop_owned (wr_adapters s).*2 (wr_pending_retirements s).*2 (wr_pending_restarts s).*2) s t r s' → tables_ok s →
  stop_outcome s t r s'.
Proof.
  intros H Hok.
  apply seq_exec in H as [(u & s1 & t1 & t2 & -> & Hs1%stop_failed_tables & H)|(e & s1 & -> & Hs1%stop_failed_tables & Hs')];
    [|by guar_steps|apply stop_outcome_failed, tables_tends; congruence|by guar_steps].
  apply seq_exec in H as [(w2 & s2 & t3 & t4 & -> & H2 & H)|(e & s2 & -> & H2 & Hs')];
    apply (adapters_collected s) in H2 as (Htd2 & E2 & Hgr2); [|done|done| |done|done].
  2: { apply stop_outcome_failed. etrans; [by apply tables_tends|]. etrans; [exact Htd2|by apply tables_tends]. }
  injection E2 as E2 E2'. assert (tends s s2) as Ht2 by (etrans; [by apply tables_tends|done]).
  assert (wr_pending_retirements s1 = wr_pending_retirements s ∧ wr_pending_restarts s1 = wr_pending_restarts s) as [E1 E1'] by by injection Hs1.
  apply seq_exec in H as [(w3 & s3 & t5 & t6 & -> & H3 & H)|(e & s3 & -> & H3 & Hs')];
    apply (retirements_collected s) in H3 as (Htd3 & E3 & Hgr3); [|done|congruence| |done|congruence].
  2: { apply stop_outcome_failed. etrans; [exact Ht2|]. etrans; [exact Htd3|by apply tables_tends]. }
  assert (tends s s3) as Ht3 by (by etrans).
  apply seq_exec in H as [(w4 & s4 & t7 & t8 & -> & H4 & H)|(e & s4 & -> & H4 & Hs')];
    apply (restarts_collected s) in H4 as (Htd4 & Hgr4); [|done|congruence| |done|congruence].
  2: { apply stop_outcome_failed. etrans; [exact Ht3|]. etrans; [exact Htd4|by apply tables_tends]. }
  replace (t1 ++ t3 ++ t5 ++ t7 ++ t8) with ((t1 ++ (t3 ++ t5 ++ t7)) ++ t8) by (by rewrite !app_assoc).
  apply (stop_waits s w4 _ s4); [exact H|by etrans|]. intros Hnil a old Hown.
  destruct (all_collected s t3 t5 t7 w2 w3 w4 (Hgr2 _ eq_refl) (Hgr3 _ eq_refl) (Hgr4 _ eq_refl) Hnil a old Hown) as (f & Hf & Hst).
  exists f. split; [done|]. rewrite <-(app_nil_r (t3 ++ t5 ++ t7)). by apply stop_of_app.
Qed.

Lemma owns_tables s1 s2 a old : tables s1 = tables s2 → owns s1 a old → owns s2 a old.
Proof.
  intros [= E1 E2 E3 E4 _] [f b Hb|f p b Hp Hpb|f p b Hp Hpb]; [rewrite E4; apply (owns_active _ f)|apply (owns_retirement _ f)|apply (owns_restart _ f)]; congruence.
Qed.
Lemma tables_ok_tables s1 s2 : tables s2 = tables s1 → tables_ok s1 → tables_ok s2.
Proof. intros [= E1 E2 E3 _ _] [? ? ?]. split; congruence. Qed.
Lemma stop_outcome_tables s1 s t r s2 s' : tables s1 = tables s → tables s' = tables s2 → stop_outcome s1 t r s2 → stop_outcome s t r s'.
Proof.
  intros E E' H. destruct r as [u|e]; destruct H as [H1 H2].
  - split; [congruence|]. intros a old Hown. by apply H2, (owns_tables s).
  - split; [assert (wr_stopped s1 = wr_stopped s) by (by injection E); injection E' as _ _ _ _ ->; congruence|].
    intros a old Hown. destruct (H2 a old) as [old' Ho]; [by apply (owns_tables s)|]. exists old'. by apply (owns_tables s2).
Qed.

(** C10: A stop of a running workspace runtime during which no other thread changes
    the tables of adapters and owed cleanups (as when no scan is running at its
    start) ends in one of two ways, whatever the adapters, their futures and the
    executors answer. Either it returns: then
    the runtime is stopped and owns nothing, and for every adapter it owned (active,
    or waiting for a retirement or a restart) a stop was begun, by this stop or
    before it, whose future was waited for and reported success. Or it fails: then
    the runtime is not marked stopped and still owns every one of these adapters, so
    that a later stop finds them. *)
Theorem stop_halts_every_adapter s t r s' :
  tables_ok s → wr_stopped s = false → texec undisturbed (stop (T:=T)) s t r s' →
  match r with
  | Ok _ => wr_stopped s' = true ∧ (∀ a old, ¬ owns s' a old) ∧
      ∀ a old, owns s a old → ∃ f, stop_of t a old f ∧ TEv (R := ranswer) (RResult f) (Ok tt) ∈ t
  | Err _ => wr_stopped s' = false ∧ ∀ a old, owns s a old → ∃ old', owns s' a old'
  end.
Proof.
  intros Hok Hst H. apply texec_inv in H as (s1 & Hs1%rtc_undisturbed & _ & H).
  apply texec_try_inv in H as (r2 & s2 & t1 & t2 & -> & H & Hlast).
  apply texec_try_inv in Hlast as (r3 & s3 & t3 & t4 & -> & H3 & H4).
  apply texec_inv in H3 as (s5 & Hs5%rtc_undisturbed & _ & (-> & -> & Hs3%rtc_undisturbed)%texec_inv).
  apply texec_inv in H4 as (-> & -> & Hs'%rtc_undisturbed). rewrite !app_nil_r.
  assert (tables s' = tables s2) as E by (rewrite Hs', Hs3, <-Hs5; done).
  apply texec_try_inv in H as (r6 & s6 & t6 & t7 & -> & H6 & H7).
  apply texec_inv in H6 as (s8 & Hs8%rtc_undisturbed & _ & (-> & -> & Hs6%rtc_undisturbed)%texec_inv).
  assert (tables s8 = tables s) as Hs by (rewrite Hs8, <-Hs1; done). assert (wr_stopped s8 = false) as Hst8 by (rewrite <-Hst; by injection Hs).
  rewrite Hst8 in Hs6, H7. cbn beta match in H7. assert (tables s6 = tables s) as Hs6' by (rewrite Hs6, <-Hs; done).
  assert (tables s6 = tables s8) as Hs68 by congruence. injection Hs68 as F1 F2 F3 _ _. rewrite <-F1, <-F2, <-F3 in H7.
  apply stop_owned_outcome in H7; [|by apply (tables_ok_tables s)]. apply (stop_outcome_tables _ s _ _ _ s') in H7; [|done..]. destruct r2 as [u|e].
  - destruct H7 as [Hend Hall]. injection Hend as E1 E2 E3 _ E5. split_and!; [done| |exact Hall].
    intros a old [f b Hb|f p b Hp _|f p b Hp _]; [rewrite E1 in Hb|rewrite E2 in Hp|rewrite E3 in Hp]; done.
  - by rewrite <-Hst.
Qed.
End cleanup.
