(* ===== verification/FreshRuns.v ===== *)
(** * Runs of freshness scans and reads

    A workspace with one Python file that changed on disk, one running adapter,
    and answers of the disk and of the adapter: a scan, a read, a stop, and the
    theorems on them applied. *)

From S2P Require Import Prelude Paths Positions Json Scope Envelopes Executor Editing EditLogic EditingProps FileSystem Identity PathTree Inventory Threads RuntimeState Freshness FreshReads FreshProps Admission Delivery Cleanup.

Module FreshRuns.
Import EditRuns IdentityExamples ScopeExamples.

Definition sha (_ : list N) : pystr := lit "h".

Definition listing : TrustInventory :=
  {| ti_root := wi_root workspace; ti_paths := [lit "a.py"]; ti_rejected := []; ti_digest := lit "d";
     ti_tree := default empty_tree (tree_from_paths [lit "a.py"]); ti_kind := lit "git" |}.

(** The adapter 7 serves Python; its batches get the future 9, which is done. *)
Definition answer_call (c : rcall) : disk → disk * ranswer c :=
  match c with
  | ROs c => disk_call false c
  | RInventory => λ w, (w, Ok listing)
  | RAttribute _ _ => λ w, (w, Ok projection)
  | RBuild _ _ _ _ => λ w, (w, Ok 8)
  | RRunning _ => λ w, (w, Ok true)
  | RReconcile _ _ _ _ => λ w, (w, Ok 9)
  | RStop _ => λ w, (w, Ok 10)
  | RDone _ => λ w, (w, true)
  | RCancelled _ | RException _ => λ w, (w, false)
  | RResult _ | RCloseTransactions | RCloseExecutor => λ w, (w, Ok tt)
  end.

(** The configuration files were seen by an earlier scan, the source was not. *)
Definition seen : ContentIdentity := (Some 13, Some 0, Some 2, Some 0, Some (lit "h")).
Definition coordinator0 : Coordinator :=
  {| fc_next_ticket := 0; fc_serving_ticket := 0; fc_states := {[ lit "a.py" := (Some 1, Some 0, Some 2, Some 0, Some (lit "old")) ]};
     fc_config_states := {[ lit "pyproject.toml" := seen; lit "pyrightconfig.json" := seen ]}; fc_pending_reconciles := [];
     fc_last := empty_scan; fc_version := 0 |}.
Definition runtime0 : Runtime Z :=
  {| wr_inventory := listing; wr_projections := []; wr_family_errors := []; wr_adapters := [(PYTHON, 7)]; wr_trackers := [(PYTHON, 0%nat)];
     wr_tracker_objects := {[ 0%nat := tracker ]}; wr_pending_restarts := []; wr_pending_retirements := []; wr_shutdown_futures := ∅;
     wr_versions := ∅; wr_stopping := false; wr_stopped := false; wr_state_locked := false; wr_stop_locked := false; wr_next_object := 1%nat;
     wr_witness_objects := ∅; wr_active_witnesses := None; wr_freshness := coordinator0 |}.

Abbreviation ensure_root := (ensure_root_fresh_admitted 0 30 1 sha 3 workspace families).
Abbreviation run_read := (_run_fresh_read 0 30 1 sha 3 workspace families).

(** ** A scan *)

Definition root_scan : thread (Runtime Z) rcall rexn ranswer FreshnessScan := _scan_root 0 30 1 sha 3 workspace families.

Definition outcome {A} (p : thread (Runtime Z) rcall rexn ranswer A) : list (tevent (C := rcall) (R := ranswer)) * res rexn A * Runtime Z :=
  match trun answer_call p disk0 runtime0 with Some (t, r, s, _) => (t, r, s) | None => ([], Err XException, runtime0) end.

(** A thread whose run is not stopped by a guard *)
Definition runs {A} (p : thread (Runtime Z) rcall rexn ranswer A) : bool :=
  match trun answer_call p disk0 runtime0 with Some _ => true | None => false end.

Lemma outcome_exec {A} rely (p : thread (Runtime Z) rcall rexn ranswer A) :
  runs p = true → texec rely p runtime0 (outcome p).1.1 (outcome p).1.2 (outcome p).2.
Proof.
  unfold runs, outcome. destruct (trun answer_call p disk0 runtime0) as [[[[t r] s] w]|] eqn:Hr; [|done]. intros _. by eapply trun_exec.
Qed.

Lemma outcome_pool start (p : thread (Runtime Z) rcall rexn ranswer unit) :
  runs p = true → rtc (pool_step start) (runtime0, [p]) ((outcome p).2, [TRet (outcome p).1.2]).
Proof.
  unfold runs, outcome. destruct (trun answer_call p disk0 runtime0) as [[[[t r] s] w]|] eqn:Hr; [|done]. intros _. by eapply trun_pool.
Qed.

(** The scan sees the change, commits it once and delivers it. *)
Example scan_finds_change :
  match outcome (ensure_root [lit "a.py"]) with
  | (_, Ok a, s) => (ad_version a, ad_digests a, sc_changed (ad_scan a), sc_notified (ad_scan a), fc_version (wr_freshness s),
                     fc_serving_ticket (wr_freshness s))
  | _ => (0, [], [], [], 0, 0)
  end = (1, [(lit "a.py", Some (lit "h"))], [lit "a.py"], [PYTHON], 1, 1).
Proof. vm_compute. reflexivity. Qed.

Definition scan_thread : thread (Runtime Z) rcall rexn ranswer unit := ignore (ensure_root [lit "a.py"]).

Lemma version_marks_every_commit_witness :
  advances runtime0 (outcome scan_thread).2 ∧ fc_version (wr_freshness runtime0) < fc_version (wr_freshness (outcome scan_thread).2).
Proof.
  split; [|vm_compute; reflexivity].
  apply (version_marks_every_commit 0 30 1 sha 3 workspace families runtime0 [scan_thread] (outcome scan_thread).2 [TRet (outcome scan_thread).1.2]).
  - constructor; [constructor|constructor].
  - apply outcome_pool. vm_compute. reflexivity.
Defined.

Lemma admission_reports_own_scan_witness :
  ∃ a rebuilt observed, (outcome (ensure_root [lit "a.py"])).1.2 = Ok a ∧
    scanned sha 3 (outcome (ensure_root [lit "a.py"])).1.1 rebuilt observed ∧
    (lit "a.py" ∈ ti_paths rebuilt → dict_get (ad_digests a) (lit "a.py") = Some (_committed_digest (identities observed !! lit "a.py"))).
Proof.
  assert (runs (ensure_root [lit "a.py"]) = true) as Hr by (vm_compute; reflexivity).
  apply (outcome_exec same_facts) in Hr. destruct (outcome (ensure_root [lit "a.py"])) as [[t r] s] eqn:Ho. cbn [fst snd] in *.
  destruct r as [a|x]; [|vm_compute in Ho; discriminate Ho].
  destruct (admission_reports_own_scan 0 30 1 sha 3 workspace families same_facts [lit "a.py"] runtime0 t a s (λ x y H, H) Hr)
    as (rebuilt & observed & Hs & Hd).
  exists a, rebuilt, observed. split; [reflexivity|]. split; [exact Hs|]. apply Hd. by left.
Defined.

Lemma batches_held_until_confirmed_witness :
  ∃ scan, (outcome root_scan).1.2 = Ok scan ∧ sc_notified scan = [PYTHON] ∧ all_delivered (outcome root_scan).1.1 [PYTHON] (outcome root_scan).2.
Proof.
  assert (runs root_scan = true) as Hr by (vm_compute; reflexivity). apply (outcome_exec steady) in Hr.
  destruct (outcome root_scan) as [[t r] s] eqn:Ho. cbn [fst snd] in *. destruct r as [scan|x]; [|vm_compute in Ho; discriminate Ho].
  assert (sc_notified scan = [PYTHON]) as Hn by (vm_compute in Ho; by injection Ho as _ <- _).
  exists scan. split; [reflexivity|]. split; [exact Hn|].
  destruct (batches_held_until_confirmed 0 30 1 sha 3 workspace families [] runtime0 t (Ok scan) s) as [_ Hd].
  - split; [constructor|]. intros f p H. discriminate H.
  - left. exact Hr.
  - rewrite <-Hn. by apply Hd.
Defined.

(** ** A read *)

Definition answer_envelope : reply :=
  inl {| sv_data := JNull; sv_workspace := None; sv_adapter := None; sv_generations := None; sv_truncation := None |}.

(** The operation reads the file, records its bytes and answers. *)
Definition read_file : thread (Runtime Z) rcall rexn ranswer reply :=
  _ ← _record_read_witness sha (lit "a.py") file; mret answer_envelope.

Lemma read_file_quiet : guar same_coordinator read_file.
Proof. apply guar_bind; [|done]. apply guar_atom. intros s. unfold on_active. by case_match. Qed.

Lemma fresh_read_linearized_witness :
  (outcome (run_read read_file None)).1.2 = Ok answer_envelope ∧
  linearized 0 30 1 sha 3 workspace families read_file None answer_envelope (outcome (run_read read_file None)).1.1.
Proof.
  assert (runs (run_read read_file None) = true) as Hr by (vm_compute; reflexivity). apply (outcome_exec advances) in Hr.
  assert ((outcome (run_read read_file None)).1.2 = Ok answer_envelope) as Ho by (vm_compute; reflexivity). rewrite Ho in Hr. split; [exact Ho|].
  destruct (fresh_read_linearized 0 30 1 sha 3 workspace families read_file None runtime0 (outcome (run_read read_file None)).1.1 answer_envelope
    (outcome (run_read read_file None)).2) as [Hl|(e & He & _)].
  - eapply guar_mono; [|exact read_file_quiet]. intros s s' Hs. by apply same_facts_advances, quiet_facts, coordinator_quiet.
  - exact Hr.
  - exact Hl.
  - discriminate He.
Defined.

(** Bytes that no scan has committed: the read is replayed once and refused. *)
Definition stale_sha (b : list N) : pystr := if bool_decide (b = []) then lit "stale" else lit "h".
Definition read_stale : thread (Runtime Z) rcall rexn ranswer reply :=
  _ ← _record_read_witness stale_sha (lit "a.py") []; mret answer_envelope.

Example stale_bytes_are_refused :
  match (outcome (run_read read_stale None)).1.2 with
  | Ok (inr e) => (code_value (er_code e), json_get (er_details e) (lit "attempts"), json_get (er_details e) (lit "paths"))
  | _ => ([], None, None)
  end = (lit "NOT_READY", Some (JInt 2), Some (JList [JStr (lit "a.py")])).
Proof. vm_compute. reflexivity. Qed.

(** ** Two scans at once *)

Abbreviation starts := (workspace_thread 0 30 1 sha 3 workspace families).

(** Both take a ticket; the first enters. *)
Definition both_waiting : Runtime Z * list (thread (Runtime Z) rcall rexn ranswer unit) :=
  match scan_thread with
  | TStep _ f k => (f (f runtime0), [k runtime0; k (f runtime0)])
  | _ => (runtime0, [])
  end.

Lemma both_waiting_reached : rtc (pool_step starts) (runtime0, []) both_waiting.
Proof.
  eapply rtc_l; [apply (pool_spawn starts runtime0 [] scan_thread); constructor|].
  eapply rtc_l; [apply (pool_spawn starts runtime0 [scan_thread] scan_thread); constructor|]. simpl app.
  eapply rtc_l; [eapply (pool_move starts _ [scan_thread; scan_thread] 0); [reflexivity|apply tmove_step; reflexivity]|].
  eapply rtc_l; [eapply (pool_move starts _ _ 1); [reflexivity|apply tmove_step; reflexivity]|].
  apply rtc_refl.
Qed.

Lemma scans_take_turns_witness : ∃ phs, pool_ok both_waiting.1 phs both_waiting.2 ∧ takes_turns both_waiting.1 phs both_waiting.2.
Proof.
  apply (scans_take_turns 0 30 1 sha 3 workspace families runtime0 both_waiting.1 both_waiting.2); [reflexivity|exact both_waiting_reached].
Defined.

(** ** A stop *)

Abbreviation halt := (stop : thread (Runtime Z) rcall rexn ranswer unit).

Lemma stop_halts_every_adapter_witness :
  wr_stopped (outcome halt).2 = true ∧ ∃ f, TEv (C := rcall) (R := ranswer) (RResult f) (Ok tt) ∈ (outcome halt).1.1.
Proof.
  assert (runs halt = true) as Hr by (vm_compute; reflexivity). apply (outcome_exec undisturbed) in Hr.
  assert ((outcome halt).1.2 = Ok tt) as Ho by (vm_compute; reflexivity). rewrite Ho in Hr.
  destruct (stop_halts_every_adapter runtime0 (outcome halt).1.1 (Ok tt) (outcome halt).2) as (Hst & _ & Hall).
  - split; simpl; [apply NoDup_singleton|split; constructor..].
  - reflexivity.
  - exact Hr.
  - split; [exact Hst|]. destruct (Hall 7 None) as (f & _ & Hf); [|by exists f]. by apply (owns_active runtime0 PYTHON 7).
Defined.
End FreshRuns.
