(* ===== verification/AdapterState.v ===== *)
(** * State of a language adapter

    Data of [src/serena_light/lsp/adapter.py] and of [_WorkspaceLanguageAdapter]
    in [src/serena_light/workspace/runtime.py]: the adapter that owns one
    language server, its crash circuit breaker, the documents it holds open on
    the server and the targets that wait for a publication. A server, its process
    and its client are one number, the runtime. The texts of messages and of the
    reasons of phase transitions are not modelled. *)

From S2P Require Import Prelude Paths Positions Json Scope Envelopes LspState FileSystem.

Abbreviation runtime := Z.
Abbreviation job_future := Z.
Abbreviation doc_state := (LspState (P := purepath)).

Inductive AdapterPhase := PH_COLD | PH_STARTING | PH_DOCUMENT_READY | PH_GLOBAL_WARMING | PH_READY | PH_DEGRADED | PH_COOLDOWN | PH_STOPPING.
#[export] Instance adapter_phase_eq_dec : EqDecision AdapterPhase.
Proof. solve_decision. Defined.

#[export] Instance file_change_type_eq_dec : EqDecision FileChangeType.
Proof. solve_decision. Defined.

(** ** Capabilities *)

Record RawLspProviders := {
  lp_definition : bool; lp_declaration : bool; lp_implementation : bool; lp_references : bool; lp_document_symbols : bool;
  lp_workspace_symbols : bool }.
Definition no_providers : RawLspProviders :=
  {| lp_definition := false; lp_declaration := false; lp_implementation := false; lp_references := false; lp_document_symbols := false;
     lp_workspace_symbols := false |}.

Definition _provider_enabled (value : option json) : bool :=
  match value with Some (JBool b) => b | Some (JObj _) => true | _ => false end.

Definition from_initialize_result (result : json) : RawLspProviders :=
  let enabled k := match json_get result (lit "capabilities") with
                   | Some (JObj kvs) => _provider_enabled (dict_get kvs k)
                   | _ => false
                   end in
  {| lp_definition := enabled (lit "definitionProvider"); lp_declaration := enabled (lit "declarationProvider");
     lp_implementation := enabled (lit "implementationProvider"); lp_references := enabled (lit "referencesProvider");
     lp_document_symbols := enabled (lit "documentSymbolProvider"); lp_workspace_symbols := enabled (lit "workspaceSymbolProvider") |}.

Record DerivedToolAvailability := {
  dt_find_declaration : bool; dt_find_implementations : bool; dt_find_referencing_symbols : bool; dt_get_symbols_overview : bool;
  dt_global_find_symbol : bool }.
Definition from_raw (raw : RawLspProviders) : DerivedToolAvailability :=
  {| dt_find_declaration := lp_definition raw; dt_find_implementations := lp_implementation raw;
     dt_find_referencing_symbols := lp_references raw; dt_get_symbols_overview := lp_document_symbols raw;
     dt_global_find_symbol := lp_workspace_symbols raw |}.

(** [PositionEncoding(str(selected))]; [None]: it raises [ValueError] *)
Definition _selected_position_encoding (result : json) (fallback : PositionEncoding) : option PositionEncoding :=
  match json_get result (lit "capabilities") with
  | Some (JObj kvs) =>
      match dict_get kvs (lit "positionEncoding") with
      | None | Some JNull => Some fallback
      | Some (JStr s) =>
          if bool_decide (s = lit "utf-8") then Some UTF8
          else if bool_decide (s = lit "utf-16") then Some UTF16
          else if bool_decide (s = lit "utf-32") then Some UTF32 else None
      | Some _ => None
      end
  | _ => Some fallback
  end.

(** ** Facts of a language *)

Record EngineMetadata := { en_name : pystr; en_version : pystr; en_executable : purepath; en_interpreter : option purepath }.

Record AdapterLanguageFacts := {
  lf_name : pystr; lf_language_id : pystr; lf_extensions : list pystr; lf_engine : EngineMetadata; lf_initialize_params : json;
  lf_default_position_encoding : PositionEncoding; lf_language_ids : list (pystr * pystr);
  lf_diagnostic_publications_include_version : bool }.

(** The lower case of the ASCII letters: the extensions of the adapters are ASCII. *)
Definition _normalize_extension (extension : pystr) : option pystr :=
  let normalized := lower_ascii extension in
  if bool_decide (head normalized = Some cp_dot) && (2 <=? length normalized)%nat && negb (bool_decide (cp_slash ∈ normalized)) &&
     negb (bool_decide (92%N ∈ normalized))
  then Some normalized else None.

(** [__post_init__]: the extensions and the language ids in normal form *)
Definition facts_init (f : AdapterLanguageFacts) (language_ids : option (list (pystr * pystr))) : option AdapterLanguageFacts :=
  if negb (nonempty (lf_name f)) || negb (nonempty (lf_language_id f)) then None
  else
    normalized ← mapM _normalize_extension (lf_extensions f);
    if negb (nonempty normalized) then None
    else
      ids ← match language_ids with
            | None => Some (foldl (λ d e, dict_set d e (lf_language_id f)) [] normalized)
            | Some l => l ← mapM (λ p, e ← _normalize_extension p.1; Some (e, p.2)) l; Some (foldl (λ d p, dict_set d p.1 p.2) [] l)
            end;
      if negb (bool_decide (ids.*1 ⊆ normalized ∧ normalized ⊆ ids.*1)) || existsb (λ p, negb (nonempty p.2)) ids then None
      else Some {| lf_name := lf_name f; lf_language_id := lf_language_id f; lf_extensions := remove_dups normalized; lf_engine := lf_engine f;
                   lf_initialize_params := lf_initialize_params f; lf_default_position_encoding := lf_default_position_encoding f;
                   lf_language_ids := ids;
                   lf_diagnostic_publications_include_version := lf_diagnostic_publications_include_version f |}.

Definition facts_routes (f : AdapterLanguageFacts) (path : pystr) : bool := bool_decide (lower_ascii (path_suffix path) ∈ lf_extensions f).
Definition language_id_for (f : AdapterLanguageFacts) (path : pystr) : option pystr := dict_get (lf_language_ids f) (lower_ascii (path_suffix path)).

(** [None]: it raises [ValueError] *)
Definition _normalize_relative_path (path : pystr) : option pystr :=
  if negb (nonempty path) || bool_decide (head path = Some cp_slash) || bool_decide (92%N ∈ path) || bool_decide (0%N ∈ path) ||
     bool_decide (dotdot ∈ path_parts path) then None
  else
    let normalized := path_str (Path path) in
    if bool_decide (normalized = dot) then None else Some normalized.

(** ** Targets and generations *)

Record DocumentReadinessTarget := {
  tg_uri : pystr; tg_relative_path : pystr; tg_absolute_path : purepath; tg_version : Z; tg_document_generation : Z;
  tg_path_generation : Z }.
#[export] Instance readiness_target_eq_dec : EqDecision DocumentReadinessTarget.
Proof. solve_decision. Defined.

Record GlobalReadinessWitness := { gw_exact_symbol : pystr; gw_uri : pystr; gw_query : option pystr }.
Definition global_witness_init (exact_symbol uri : pystr) (query : option pystr) : option GlobalReadinessWitness :=
  if negb (nonempty exact_symbol) || negb (bool_decide (take 7 uri = lit "file://")) ||
     match query with Some q => negb (nonempty q) | None => false end then None
  else Some {| gw_exact_symbol := exact_symbol; gw_uri := uri; gw_query := query |}.

(** The URI of one answer to [workspace/symbol] *)
Definition _workspace_symbol_uri (item : json) : option pystr :=
  match json_get item (lit "location") with
  | Some (JObj kvs) => match dict_get kvs (lit "uri") with Some (JStr uri) => Some uri | _ => None end
  | _ => None
  end.

Record AdapterGenerations := { gn_trust : Z; gn_program : Z; gn_document : Z; gn_index : Z }.

(** A publication of a close that must be drained before the document is reopened *)
Record _UndrainedUnversionedClose := { uc_runtime_token : Z; uc_close_delivered : bool }.

Section state.
Context {T : Type}.   (** seconds *)

(** Exceptions by the classes the code tells apart *)
Inductive aexn :=
| AX_Adapter (code : AdapterErrorCode) (retry_after : option T)
| AX_Witness (code : AdapterErrorCode) (retry_after : option T)   (** [ReadinessWitnessError] *)
| AX_Closed                (** [LspTransportClosed] *)
| AX_Lost                  (** [LspProcessLost], a [LspTransportClosed] *)
| AX_Busy | AX_Value
| AX_Position              (** [PositionError] or [UnicodeError], a [ValueError] *)
| AX_Type | AX_Key | AX_OS
| AX_Exception | AX_Base.
Definition transport_closed (x : aexn) : bool := match x with AX_Closed | AX_Lost => true | _ => false end.
Definition value_error (x : aexn) : bool := match x with AX_Value | AX_Position => true | _ => false end.
Definition plain_exception (x : aexn) : bool := match x with AX_Base => false | _ => true end.

Record CrashPolicy := { cp_threshold : Z; cp_window_seconds : T; cp_cooldown_seconds : T }.

Record PhaseTransition := { tr_phase : AdapterPhase; tr_timestamp : T; tr_generations : AdapterGenerations }.

Record CrashSnapshot := {
  cs_total : Z; cs_window_count : Z; cs_last_timestamp : option T; cs_last_error : option aexn; cs_cooldown_until : option T;
  cs_cooldown_remaining_seconds : T }.

Record AdapterSnapshot := {
  as_name : pystr; as_phase : AdapterPhase; as_raw_providers : RawLspProviders; as_derived_tools : DerivedToolAvailability;
  as_engine : EngineMetadata; as_position_encoding : PositionEncoding; as_generations : AdapterGenerations; as_crash : CrashSnapshot;
  as_transitions : list PhaseTransition; as_running : bool; as_runtime_token : Z }.

(** ** The adapter *)

(** Documents: what waits for a witness or a publication, what is open on the
    server in the order of use, closes that are not drained, texts last sent *)
Record Documents := {
  dc_pending_documents : list (pystr * DocumentReadinessTarget);
  dc_pending_diagnostics : list (pystr * DocumentReadinessTarget);
  dc_open_documents : list pystr;
  dc_undrained_closes : list (pystr * _UndrainedUnversionedClose);
  dc_diagnostic_snapshots : list (pystr * (Z * pystr));
}.

Record Crashes := {
  cr_crashed_runtime_tokens : gset Z;
  cr_times : list T;
  cr_total : Z;
  cr_last_timestamp : option T;
  cr_last_error : option aexn;
  cr_cooldown_until_monotonic : option T;
  cr_cooldown_until_timestamp : option T;
}.

Record Adapter := {
  la_phase : AdapterPhase;
  la_transitions : list PhaseTransition;
  la_runtime : option runtime;
  la_runtime_token : Z;
  la_documents : Documents;
  la_crashes : Crashes;
  la_raw_providers : RawLspProviders;
  la_position_encoding : PositionEncoding;
  la_sealed : bool;                      (** [_ordinary_admission_sealed] *)
  la_stop_future : option job_future;
  la_scope : Tracker (T:=T);
  la_lsp : doc_state;
  la_locked : bool;                      (** [_state_lock] is held *)
}.

Definition set_phase x (s : Adapter) : Adapter := {| la_phase := x; la_transitions := la_transitions s; la_runtime := la_runtime s;
  la_runtime_token := la_runtime_token s; la_documents := la_documents s; la_crashes := la_crashes s; la_raw_providers := la_raw_providers s;
  la_position_encoding := la_position_encoding s; la_sealed := la_sealed s; la_stop_future := la_stop_future s; la_scope := la_scope s;
  la_lsp := la_lsp s; la_locked := la_locked s |}.
Definition set_transitions x (s : Adapter) : Adapter := {| la_phase := la_phase s; la_transitions := x; la_runtime := la_runtime s;
  la_runtime_token := la_runtime_token s; la_documents := la_documents s; la_crashes := la_crashes s; la_raw_providers := la_raw_providers s;
  la_position_encoding := la_position_encoding s; la_sealed := la_sealed s; la_stop_future := la_stop_future s; la_scope := la_scope s;
  la_lsp := la_lsp s; la_locked := la_locked s |}.
Definition set_runtime x (s : Adapter) : Adapter := {| la_phase := la_phase s; la_transitions := la_transitions s; la_runtime := x;
  la_runtime_token := la_runtime_token s; la_documents := la_documents s; la_crashes := la_crashes s; la_raw_providers := la_raw_providers s;
  la_position_encoding := la_position_encoding s; la_sealed := la_sealed s; la_stop_future := la_stop_future s; la_scope := la_scope s;
  la_lsp := la_lsp s; la_locked := la_locked s |}.
Definition set_runtime_token x (s : Adapter) : Adapter := {| la_phase := la_phase s; la_transitions := la_transitions s;
  la_runtime := la_runtime s; la_runtime_token := x; la_documents := la_documents s; la_crashes := la_crashes s;
  la_raw_providers := la_raw_providers s; la_position_encoding := la_position_encoding s; la_sealed := la_sealed s;
  la_stop_future := la_stop_future s; la_scope := la_scope s; la_lsp := la_lsp s; la_locked := la_locked s |}.
Definition set_documents x (s : Adapter) : Adapter := {| la_phase := la_phase s; la_transitions := la_transitions s;
  la_runtime := la_runtime s; la_runtime_token := la_runtime_token s; la_documents := x; la_crashes := la_crashes s;
  la_raw_providers := la_raw_providers s; la_position_encoding := la_position_encoding s; la_sealed := la_sealed s;
  la_stop_future := la_stop_future s; la_scope := la_scope s; la_lsp := la_lsp s; la_locked := la_locked s |}.
Definition set_crashes x (s : Adapter) : Adapter := {| la_phase := la_phase s; la_transitions := la_transitions s;
  la_runtime := la_runtime s; la_runtime_token := la_runtime_token s; la_documents := la_documents s; la_crashes := x;
  la_raw_providers := la_raw_providers s; la_position_encoding := la_position_encoding s; la_sealed := la_sealed s;
  la_stop_future := la_stop_future s; la_scope := la_scope s; la_lsp := la_lsp s; la_locked := la_locked s |}.
Definition set_capabilities raw encoding (s : Adapter) : Adapter := {| la_phase := la_phase s; la_transitions := la_transitions s;
  la_runtime := la_runtime s; la_runtime_token := la_runtime_token s; la_documents := la_documents s; la_crashes := la_crashes s;
  la_raw_providers := raw; la_position_encoding := encoding; la_sealed := la_sealed s;
  la_stop_future := la_stop_future s; la_scope := la_scope s; la_lsp := la_lsp s; la_locked := la_locked s |}.
Definition set_sealed sealed future (s : Adapter) : Adapter := {| la_phase := la_phase s; la_transitions := la_transitions s;
  la_runtime := la_runtime s; la_runtime_token := la_runtime_token s; la_documents := la_documents s; la_crashes := la_crashes s;
  la_raw_providers := la_raw_providers s; la_position_encoding := la_position_encoding s; la_sealed := sealed;
  la_stop_future := future; la_scope := la_scope s; la_lsp := la_lsp s; la_locked := la_locked s |}.
Definition set_scope x (s : Adapter) : Adapter := {| la_phase := la_phase s; la_transitions := la_transitions s;
  la_runtime := la_runtime s; la_runtime_token := la_runtime_token s; la_documents := la_documents s; la_crashes := la_crashes s;
  la_raw_providers := la_raw_providers s; la_position_encoding := la_position_encoding s; la_sealed := la_sealed s;
  la_stop_future := la_stop_future s; la_scope := x; la_lsp := la_lsp s; la_locked := la_locked s |}.
Definition set_lsp x (s : Adapter) : Adapter := {| la_phase := la_phase s; la_transitions := la_transitions s;
  la_runtime := la_runtime s; la_runtime_token := la_runtime_token s; la_documents := la_documents s; la_crashes := la_crashes s;
  la_raw_providers := la_raw_providers s; la_position_encoding := la_position_encoding s; la_sealed := la_sealed s;
  la_stop_future := la_stop_future s; la_scope := la_scope s; la_lsp := x; la_locked := la_locked s |}.
Definition set_locked x (s : Adapter) : Adapter := {| la_phase := la_phase s; la_transitions := la_transitions s;
  la_runtime := la_runtime s; la_runtime_token := la_runtime_token s; la_documents := la_documents s; la_crashes := la_crashes s;
  la_raw_providers := la_raw_providers s; la_position_encoding := la_position_encoding s; la_sealed := la_sealed s;
  la_stop_future := la_stop_future s; la_scope := la_scope s; la_lsp := la_lsp s; la_locked := x |}.

Definition on_documents (f : Documents → Documents) (s : Adapter) : Adapter := set_documents (f (la_documents s)) s.
Definition open_documents (s : Adapter) : list pystr := dc_open_documents (la_documents s).
Definition undrained_closes (s : Adapter) : list (pystr * _UndrainedUnversionedClose) := dc_undrained_closes (la_documents s).

Definition set_pending_targets documents diagnostics (d : Documents) : Documents :=
  {| dc_pending_documents := documents; dc_pending_diagnostics := diagnostics; dc_open_documents := dc_open_documents d;
     dc_undrained_closes := dc_undrained_closes d; dc_diagnostic_snapshots := dc_diagnostic_snapshots d |}.
Definition set_open_documents l (d : Documents) : Documents :=
  {| dc_pending_documents := dc_pending_documents d; dc_pending_diagnostics := dc_pending_diagnostics d; dc_open_documents := l;
     dc_undrained_closes := dc_undrained_closes d; dc_diagnostic_snapshots := dc_diagnostic_snapshots d |}.
Definition set_undrained_closes l (d : Documents) : Documents :=
  {| dc_pending_documents := dc_pending_documents d; dc_pending_diagnostics := dc_pending_diagnostics d;
     dc_open_documents := dc_open_documents d; dc_undrained_closes := l; dc_diagnostic_snapshots := dc_diagnostic_snapshots d |}.
Definition set_diagnostic_snapshots l (d : Documents) : Documents :=
  {| dc_pending_documents := dc_pending_documents d; dc_pending_diagnostics := dc_pending_diagnostics d;
     dc_open_documents := dc_open_documents d; dc_undrained_closes := dc_undrained_closes d; dc_diagnostic_snapshots := l |}.
End state.
Arguments Adapter _ : clear implicits.
Arguments aexn _ : clear implicits.
Arguments CrashPolicy _ : clear implicits.
