(* ===== verification/Adapter.v ===== *)
(** * A language adapter

    Model of [LanguageAdapter] ([src/serena_light/lsp/adapter.py]) with the hooks
    of [_WorkspaceLanguageAdapter] ([src/serena_light/workspace/runtime.py]), as
    threads. The worker of the executor runs the methods named [*_worker] one
    after the other; the reader of the connection runs [_on_notification] and
    [_on_terminal]; other threads submit work, stop the adapter, take snapshots
    and wait. What the adapter calls (the provider of server processes, the
    client, the clocks, the executor, the disk, the waits of the readiness
    tracker) are calls with arbitrary answers. The state lock is reentrant: an
    acquisition by the thread that holds it is no step here. The operation lock
    is only ever taken by the worker and is not modelled. *)

From S2P Require Import Prelude Paths Positions Json Scope Envelopes LspState FileSystem Threads AdapterState.

(** What is sent to a server *)
Inductive notification :=
| NInitialized
| NDidChangeConfiguration
| NDidChangeWatchedFiles (changes : list (pystr * Z))
| NDidOpen (uri language_id : pystr) (version : Z) (text : pystr)
| NDidChange (uri : pystr) (version : Z) (text : pystr)
| NDidClose (uri : pystr).

Inductive request :=
| QInitialize (params : json)
| QWillRenameFiles                 (** [workspace/willRenameFiles] with no files *)
| QWorkspaceSymbol (query : pystr)
| QDocumentSymbol (uri : pystr)
| QOther (method : pystr) (params : json).

(** A parsed message as a Python object *)
Fixpoint to_python (v : json) : PyValue :=
  match v with
  | JList l => PySequence (to_python <$> l)
  | JObj kvs => PyMapping ((λ kv, (kv.1, to_python kv.2)) <$> kvs)
  | _ => PyScalar (json_dumps v)
  end.

Section adapter.
Context {T : Type} `{!PyOrd T} (t_add t_sub : T → T → T) (t_zero t_retry : T).   (** [t_retry]: 0.1 seconds *)
Context (facts : AdapterLanguageFacts) (policy : CrashPolicy T) (workspace_root : purepath) (readiness_timeout : T).
Context (as_uri : purepath → pystr).   (** [Path.as_uri] *)

Inductive acall :=
| AClock | ATimestamp
| AStart                                    (** [runtime_provider.start] *)
| AStop (r : runtime)                       (** [runtime_provider.stop] *)
| AExited (r : runtime)                     (** [process is not None and process.poll() is not None] *)
| ARequest (r : runtime) (q : request)
| ANotify (r : runtime) (n : notification)
| AReadBytes (p : purepath)
| AResolve (p : purepath)
| AReport                                   (** the debug reporter *)
| AHandler (method : pystr) (params : json) (** the notification handler *)
| ASubmit | ASubmitCleanup                  (** admission to the executor *)
| ADone (f : job_future) | ACancelled (f : job_future) | AFailed (f : job_future)
| AWaitProgram (timeout : T) | AWaitPath (path : pystr) (timeout : T).

Definition aanswer (c : acall) : Type :=
  match c with
  | AClock | ATimestamp => T
  | AStart => res (aexn T) runtime
  | AStop _ | ANotify _ _ | AReport | AHandler _ _ => res (aexn T) unit
  | AExited _ | ADone _ | ACancelled _ | AFailed _ => bool
  | ARequest _ _ => res (aexn T) json
  | AReadBytes _ => res (aexn T) (list N)
  | AResolve _ => res (aexn T) purepath
  | ASubmit | ASubmitCleanup => res (aexn T) job_future
  | AWaitProgram _ | AWaitPath _ _ => res (aexn T) (ReadinessResult (T:=T))
  end.

Abbreviation athread := (thread (Adapter T) acall (aexn T) aanswer).

Definition ask (c : acall) : athread (aanswer c) := tcall c.
Definition anyhow (_ : Adapter T) : bool := true.
Definition unlocked (s : Adapter T) : bool := negb (la_locked s).

(** [with self._state_lock:] around calls, around one update, and around a read *)
Definition locked {A} (p : athread A) : athread A :=
  TStep unlocked (set_locked true) (λ _, tfinally p (tatom anyhow (λ s, (set_locked false s, tt)))).
Definition update (g : Adapter T → bool) (f : Adapter T → Adapter T) : athread unit := tatom g (λ s, (f s, tt)).

Definition notify (client : runtime) (n : notification) : athread unit := TCall (ANotify client n) TRet.
Definition lsp_request (client : runtime) (q : request) : athread json := TCall (ARequest client q) TRet.
Definition stop_provider (r : runtime) : athread unit := TCall (AStop r) TRet.
Definition or_value {A} (x : option A) : athread A := match x with Some a => mret a | None => traise AX_Value end.

(** ** Phases and crashes *)

Definition _generations (s : Adapter T) : AdapterGenerations :=
  let scope := tracker_snapshot (la_scope s) in
  let lsp := st_generations (la_lsp s) in
  {| gn_trust := gs_trust_inventory scope; gn_program := gs_configured_program scope; gn_document := gen_source lsp; gn_index := gen_index lsp |}.

(** A [deque] of at most 64 *)
Definition push_transition (t : PhaseTransition (T:=T)) (l : list (PhaseTransition (T:=T))) : list (PhaseTransition (T:=T)) :=
  let l := l ++ [t] in drop (length l - 64) l.

(** Inside the state lock *)
Definition _transition (phase : AdapterPhase) : athread unit :=
  moved ← tatom anyhow (λ s, if nonempty (la_transitions s) && bool_decide (la_phase s = phase) then (s, false) else (set_phase phase s, true));
  if (moved : bool) then
    timestamp ← ask ATimestamp;
    update anyhow (λ s, set_transitions (push_transition {| tr_phase := phase; tr_timestamp := timestamp; tr_generations := _generations s |}
                                           (la_transitions s)) s)
  else mret tt.

Definition clear_cooldown (c : Crashes (T:=T)) : Crashes :=
  {| cr_crashed_runtime_tokens := cr_crashed_runtime_tokens c; cr_times := []; cr_total := cr_total c;
     cr_last_timestamp := cr_last_timestamp c; cr_last_error := cr_last_error c; cr_cooldown_until_monotonic := None;
     cr_cooldown_until_timestamp := None |}.

Definition _refresh_cooldown_locked : athread unit :=
  cooling ← tread anyhow (λ s, if bool_decide (la_phase s = PH_COOLDOWN) then cr_cooldown_until_monotonic (la_crashes s) else None);
  match cooling with
  | None => mret tt
  | Some deadline =>
      now ← ask AClock;
      if py_ltb now deadline then mret tt
      else _ ← update anyhow (λ s, set_crashes (clear_cooldown (la_crashes s)) s); _transition PH_DEGRADED
  end.

Definition crash_snapshot (now : T) (c : Crashes (T:=T)) : CrashSnapshot :=
  let cutoff := t_sub now (cp_window_seconds policy) in
  {| cs_total := cr_total c; cs_window_count := Z.of_nat (length (filter (λ t, py_leb cutoff t = true) (cr_times c)));
     cs_last_timestamp := cr_last_timestamp c; cs_last_error := cr_last_error c; cs_cooldown_until := cr_cooldown_until_timestamp c;
     cs_cooldown_remaining_seconds := match cr_cooldown_until_monotonic c with
                                      | Some d => t_max t_zero (t_sub d now)
                                      | None => t_zero
                                      end |}.
Definition _crash_snapshot_locked : athread CrashSnapshot :=
  now ← ask AClock; tread anyhow (λ s, crash_snapshot now (la_crashes s)).

(** [_forget_document_tracking] and [_forget_all_document_tracking] with the hooks *)
Definition forget_document (uri : pystr) (d : Documents) : Documents :=
  set_diagnostic_snapshots (dict_del (dc_diagnostic_snapshots d) uri)
    (set_pending_targets (dict_del (dc_pending_documents d) uri) (dict_del (dc_pending_diagnostics d) uri) d).
Definition forget_all_documents (d : Documents) : Documents := set_diagnostic_snapshots [] (set_pending_targets [] [] d).

(** The documents of a process that is gone *)
Definition drop_documents (s : Adapter T) : Adapter T :=
  set_lsp (reset_documents (la_lsp s)) (on_documents (λ d, set_undrained_closes [] (forget_all_documents (set_open_documents [] d))) s).

Fixpoint drop_before (cutoff : T) (times : list T) : list T :=
  match times with
  | [] => []
  | t :: rest => if py_ltb t cutoff then drop_before cutoff rest else times
  end.

(** The bookkeeping of a crash; the flag tells whether the adapter cools down *)
Definition count_crash (token : Z) (error : aexn T) (now timestamp : T) (s : Adapter T) : Adapter T * bool :=
  let s := if bool_decide (token = la_runtime_token s) then drop_documents s else s in
  let c := la_crashes s in
  let times := drop_before (t_sub now (cp_window_seconds policy)) (cr_times c) ++ [now] in
  let cooling := bool_decide (cp_threshold policy ≤ Z.of_nat (length times)) in
  (set_crashes {| cr_crashed_runtime_tokens := {[ token ]} ∪ cr_crashed_runtime_tokens c; cr_times := times; cr_total := cr_total c + 1;
                  cr_last_timestamp := Some timestamp; cr_last_error := Some error;
                  cr_cooldown_until_monotonic := if cooling then Some (t_add now (cp_cooldown_seconds policy)) else cr_cooldown_until_monotonic c;
                  cr_cooldown_until_timestamp :=
                    if cooling then Some (t_add timestamp (cp_cooldown_seconds policy)) else cr_cooldown_until_timestamp c |} s, cooling).

Definition _record_crash (token : Z) (error : aexn T) : athread unit :=
  now ← ask AClock;
  timestamp ← ask ATimestamp;
  recorded ← locked
    (known ← tread anyhow (λ s, bool_decide (token ∈ cr_crashed_runtime_tokens (la_crashes s)));
     if (known : bool) then mret false
     else
       cooling ← tatom anyhow (count_crash token error now timestamp);
       _ ← _transition (if (cooling : bool) then PH_COOLDOWN else PH_DEGRADED);
       mret true);
  if (recorded : bool) then TCall AReport TRet else mret tt.

Definition _on_terminal (token : Z) (error : aexn T) : athread unit :=
  quiet ← tread unlocked (λ s, bool_decide (la_phase s = PH_COLD) || bool_decide (la_phase s = PH_STOPPING));
  if (quiet : bool) then mret tt else _record_crash token error.

Definition _raise_if_process_lost (r : runtime) : athread unit :=
  exited ← ask (AExited r); if (exited : bool) then traise AX_Lost else mret tt.

Definition adapter_snapshot : athread AdapterSnapshot :=
  locked
    (_ ← _refresh_cooldown_locked;
     stale ← tread anyhow (λ s, bool_decide (la_phase s = PH_READY) &&
               bool_decide (gs_observed_configured_program (tracker_snapshot (la_scope s)) < gs_configured_program (tracker_snapshot (la_scope s))));
     _ ← (if (stale : bool) then _transition PH_GLOBAL_WARMING else mret tt);
     r ← tread anyhow la_runtime;
     running ← match r with
               | None => mret false
               | Some r => exited ← ask (AExited r); mret (negb exited)
               end;
     crash ← _crash_snapshot_locked;
     tread anyhow (λ s,
       {| as_name := lf_name facts; as_phase := la_phase s; as_raw_providers := la_raw_providers s;
          as_derived_tools := from_raw (la_raw_providers s); as_engine := lf_engine facts; as_position_encoding := la_position_encoding s;
          as_generations := _generations s; as_crash := crash; as_transitions := la_transitions s; as_running := running;
          as_runtime_token := la_runtime_token s |})).

(** ** Starting and stopping the server *)

Definition _raise_if_ordinary_admission_sealed_locked : athread unit :=
  tatom_res anyhow (λ s, (s, if la_sealed s then Err AX_Busy else Ok tt)).

Definition cooldown_error : athread unit :=
  crash ← _crash_snapshot_locked; traise (AX_Adapter AE_COOLDOWN (Some (cs_cooldown_remaining_seconds crash))).

(** The refusal while the adapter cools down *)
Definition refuse_cooldown : athread unit :=
  _ ← _refresh_cooldown_locked;
  cooling ← tread anyhow (λ s, bool_decide (la_phase s = PH_COOLDOWN));
  if (cooling : bool) then cooldown_error else mret tt.

(** The state of a lazy start: the runtime there was, and the new token *)
Definition begin_start (s : Adapter T) : Adapter T :=
  drop_documents (set_runtime None (set_runtime_token (la_runtime_token s + 1) s)).

(** The first critical section of a start: the client there is, or the runtime to
    replace and the token of the new one *)
Definition admit_start : athread (runtime + option runtime * Z) :=
  locked
    (_ ← _raise_if_ordinary_admission_sealed_locked;
     _ ← refuse_cooldown;
     current ← tread anyhow (λ s, (la_runtime s, bool_decide (la_runtime_token s ∈ cr_crashed_runtime_tokens (la_crashes s))));
     match current with
     | (Some r, false) => _ ← _raise_if_process_lost r; mret (inl r)
     | (r, _) =>
         _ ← _transition PH_STARTING;
         tatom anyhow (λ s, (begin_start s, inr (r, la_runtime_token s + 1)))
     end).

Definition when_some {A} (x : option A) (p : A → athread unit) : athread unit := match x with Some a => p a | None => mret tt end.

(** The handshake with a new server *)
Definition start_server : athread (runtime * RawLspProviders * PositionEncoding) :=
  started ← (TCall AStart TRet : athread runtime);
  _ ← update unlocked (set_runtime (Some started));
  result ← lsp_request started (QInitialize (lf_initialize_params facts));
  match result with
  | JObj _ =>
      encoding ← or_value (_selected_position_encoding result (lf_default_position_encoding facts));
      _ ← notify started NInitialized;
      _ ← notify started NDidChangeConfiguration;
      mret (started, from_initialize_result result, encoding)
  | _ => traise AX_Type
  end.

Definition _ensure_started_worker : athread runtime :=
  admitted ← admit_start;
  match admitted with
  | inl client => mret client
  | inr (old, token) =>
      _ ← when_some old stop_provider;
      started ← ttry start_server (λ r,
        match r with
        | Ok x => mret x
        | Err e =>
            failed ← tatom unlocked (λ s, (set_runtime None s, la_runtime s));
            _ ← when_some failed stop_provider;
            _ ← _record_crash token e;
            traise e
        end);
      let '(client, raw, encoding) := started in
      tatom unlocked (λ s, (set_capabilities raw encoding s, client))
  end.

(** [runtime.client.notify(didClose)] with any [Exception] suppressed *)
Definition close_quietly (client : runtime) (_ : unit) (uri : pystr) : athread unit :=
  ttry (notify client (NDidClose uri)) (λ r, match r with Err e => if plain_exception e then mret tt else traise e | Ok _ => mret tt end).

(** The first critical section of a stop: the runtime and the documents to
    close, unless there is nothing to stop *)
Definition enter_stop : athread (option (option runtime * list pystr)) :=
  locked
    (idle ← tread anyhow (λ s, bool_decide (la_runtime s = None) && bool_decide (la_phase s = PH_COLD));
     if (idle : bool) then mret None
     else
       _ ← _transition PH_STOPPING;
       tatom anyhow (λ s, (on_documents (λ d, set_undrained_closes [] (set_open_documents [] (forget_all_documents d))) s,
                           Some (la_runtime s, open_documents s)))).

Definition _stop_worker : athread unit :=
  begun ← enter_stop;
  match begun with
  | None => mret tt
  | Some (r, closing_uris) =>
      _ ← when_some r (λ r, _ ← tfold (close_quietly r) tt closing_uris; stop_provider r);
      locked
        (_ ← update anyhow (λ s, if bool_decide (la_runtime s = r) then set_runtime None s else s);
         _transition PH_COLD)
  end.

Definition _restart_worker : athread runtime :=
  old ← locked
    (_ ← refuse_cooldown;
     r ← tatom anyhow (λ s, (set_runtime None s, la_runtime s));
     _ ← _transition PH_STARTING;
     mret r);
  _ ← when_some old stop_provider;
  _ensure_started_worker.

(** [for attempt in range(attempts)], with [remaining] turns left *)
Fixpoint execute_attempts {A} (remaining : nat) (operation : runtime → athread A) : athread A :=
  match remaining with
  | O => traise AX_Exception
  | S later =>
      client ← _ensure_started_worker;
      ttry (r ← tread anyhow la_runtime;
            match r with
            | None => traise AX_Closed
            | Some r => _ ← _raise_if_process_lost r; operation client
            end) (λ r,
        match r with
        | Ok a => mret a
        | Err e =>
            if transport_closed e then
              token ← tread anyhow la_runtime_token;
              _ ← _record_crash token e;
              match later with
              | O => traise e
              | S _ => _ ← _restart_worker; execute_attempts later operation
              end
            else traise e
        end)
  end.
Definition _execute_worker {A} (operation : runtime → athread A) (read_only : bool) : athread A :=
  execute_attempts (if read_only then 2 else 1)%nat operation.

(** [stop()]: the stop that is under way or succeeded, or a new one *)
Definition adapter_stop_request : athread job_future :=
  locked
    (pending ← tread anyhow la_stop_future;
     reuse ← match pending with
             | None => mret false
             | Some f =>
                 done ← ask (ADone f);
                 if negb done then mret true
                 else
                   cancelled ← ask (ACancelled f);
                   if (cancelled : bool) then mret false else failed ← ask (AFailed f); mret (negb failed)
             end;
     match pending, (reuse : bool) with
     | Some f, true => mret f
     | _, _ =>
         _ ← update anyhow (set_sealed true None);
         f ← (TCall ASubmitCleanup TRet : athread job_future);
         tatom anyhow (λ s, (set_sealed (la_sealed s) (Some f) s, f))
     end).

Definition _submit_ordinary : athread job_future :=
  locked (_ ← _raise_if_ordinary_admission_sealed_locked; (TCall ASubmit TRet : athread job_future)).

Definition _run_admitted_ordinary_worker {A} (call : athread A) : athread A :=
  _ ← tatom_res unlocked (λ s, (s, if la_sealed s then Err AX_Busy else Ok tt)); call.

(** ** Documents on the server *)

Abbreviation versioned := (lf_diagnostic_publications_include_version facts).
Definition is_open (uri : pystr) (s : Adapter T) : bool := bool_decide (uri ∈ open_documents s).
(** [self._open_documents.pop(uri, None)] *)
Definition pop_open (uri : pystr) (s : Adapter T) : Adapter T :=
  on_documents (λ d, set_open_documents (filter (.≠ uri) (dc_open_documents d)) d) s.

Definition _forget_document_tracking (uri : pystr) : athread unit := update unlocked (on_documents (forget_document uri)).

Definition mark_close (uri : pystr) (marker : _UndrainedUnversionedClose) (s : Adapter T) : Adapter T :=
  on_documents (λ d, set_undrained_closes (dict_set (dc_undrained_closes d) uri marker) d) s.

Definition _record_unversioned_close_before_delivery (uri : pystr) : athread unit :=
  if versioned then mret tt
  else update unlocked (λ s, mark_close uri {| uc_runtime_token := la_runtime_token s; uc_close_delivered := false |} s).

(** The update after the delivery of a close *)
Definition close_delivered (uri : pystr) (runtime_token : Z) (s : Adapter T) : Adapter T :=
  match dict_get (undrained_closes s) uri with
  | Some m => if bool_decide (uc_runtime_token m = runtime_token) && bool_decide (runtime_token = la_runtime_token s)
              then mark_close uri {| uc_runtime_token := runtime_token; uc_close_delivered := true |} s else s
  | None => s
  end.
Definition _deliver_recorded_unversioned_close (client : runtime) (uri : pystr) (runtime_token : Z) : athread unit :=
  _ ← notify client (NDidClose uri); update unlocked (close_delivered uri runtime_token).

Definition _send_unversioned_didclose (client : runtime) (uri : pystr) : athread unit :=
  _ ← _record_unversioned_close_before_delivery uri;
  marker ← tread anyhow (λ s, dict_get (undrained_closes s) uri);
  match marker with
  | None => notify client (NDidClose uri)
  | Some m => _deliver_recorded_unversioned_close client uri (uc_runtime_token m)
  end.

(** A document that is open and marked as closed at once is disowned. *)
Definition disown_marked (_ : unit) (item : pystr * _UndrainedUnversionedClose) : athread unit :=
  open ← tread anyhow (is_open item.1);
  if (open : bool) then _ ← update anyhow (pop_open item.1); _forget_document_tracking item.1 else mret tt.
Definition deliver_marked (client : runtime) (_ : unit) (item : pystr * _UndrainedUnversionedClose) : athread unit :=
  if uc_close_delivered item.2 then mret tt else _deliver_recorded_unversioned_close client item.1 (uc_runtime_token item.2).

(** The drained markers of the connection are removed. *)
Definition clear_drained (runtime_token : Z) (current : list (pystr * _UndrainedUnversionedClose)) (s : Adapter T) : Adapter T :=
  on_documents (λ d, set_undrained_closes
    (foldl (λ l item, match dict_get l item.1 with
                      | Some m => if bool_decide (uc_runtime_token m = runtime_token) then dict_del l item.1 else l
                      | None => l
                      end) (dc_undrained_closes d) current) d) s.

Definition _drain_recorded_unversioned_closes (client : runtime) : athread unit :=
  if versioned then mret tt
  else
    recorded ← tread unlocked (λ s, (undrained_closes s, la_runtime_token s));
    let current := filter (λ item, uc_runtime_token item.2 = recorded.2) recorded.1 in
    if negb (nonempty current) then mret tt
    else
      _ ← tfold disown_marked tt current;
      _ ← tfold (deliver_marked client) tt current;
      _ ← lsp_request client QWillRenameFiles;
      update unlocked (clear_drained recorded.2 current).

Definition _drain_unversioned_diagnostics_before_change (client : runtime) (uri : pystr) : athread unit :=
  if versioned then mret tt
  else
    open ← tread anyhow (is_open uri);
    _ ← (if (open : bool) then
           _ ← update anyhow (pop_open uri);
           _ ← _forget_document_tracking uri;
           _record_unversioned_close_before_delivery uri
         else mret tt);
    _drain_recorded_unversioned_closes client.

(** The hook [_on_document_text] *)
Definition _on_document_text (uri text : pystr) : athread unit :=
  update anyhow (λ s, on_documents (λ d, set_diagnostic_snapshots (dict_set (dc_diagnostic_snapshots d) uri (la_runtime_token s, text)) d) s).

(** [self._open_documents.move_to_end(uri)], a [KeyError] if it is gone *)
Definition move_to_end (uri : pystr) : athread unit :=
  tatom_res anyhow (λ s, if is_open uri s
    then (on_documents (λ d, set_open_documents (filter (.≠ uri) (dc_open_documents d) ++ [uri]) d) s, Ok tt) else (s, Err AX_Key)).

Definition MAX_OPEN_DOCUMENTS : nat := 128.

(** [self._open_documents[uri] = None] *)
Definition insert_open (uri : pystr) (s : Adapter T) : Adapter T :=
  if is_open uri s then s else on_documents (λ d, set_open_documents (dc_open_documents d ++ [uri]) d) s.

(** [popitem(last=False)], a [KeyError] if there is none *)
Definition pop_oldest : athread pystr :=
  tatom_res anyhow (λ s, match open_documents s with
                         | uri :: rest => (on_documents (set_open_documents rest) s, Ok uri)
                         | [] => (s, Err AX_Key)
                         end).

(** [while len(self._open_documents) > self.MAX_OPEN_DOCUMENTS]; each pass removes
    one document, and the worker is the only one that adds any *)
Fixpoint evict (fuel : nat) (client : runtime) : athread unit :=
  match fuel with
  | O => mret tt
  | S fuel =>
      full ← tread anyhow (λ s, (MAX_OPEN_DOCUMENTS <? length (open_documents s))%nat);
      if (full : bool) then
        evicted ← pop_oldest;
        _ ← _forget_document_tracking evicted;
        _ ← _send_unversioned_didclose client evicted;
        evict fuel client
      else mret tt
  end.

Definition _send_document_open_or_change (client : runtime) (uri language_id : pystr) (version : Z) (text : pystr) : athread unit :=
  open ← tread anyhow (is_open uri);
  if (open : bool) then
    _ ← notify client (NDidChange uri version text);
    _ ← _on_document_text uri text;
    move_to_end uri
  else
    _ ← notify client (NDidOpen uri language_id version text);
    _ ← _on_document_text uri text;
    _ ← update anyhow (insert_open uri);
    n ← tread anyhow (λ s, length (open_documents s));
    evict (S n) client.

(** The owner of the next publication *)
Definition own_target (target : DocumentReadinessTarget) (retain : bool) (d : Documents) : Documents :=
  let diagnostics := dict_del (dc_pending_diagnostics d) (tg_uri target) in
  set_pending_targets (dict_set (dc_pending_documents d) (tg_uri target) target)
    (if retain then dict_set diagnostics (tg_uri target) target else diagnostics) d.
Definition drop_if_same (target : DocumentReadinessTarget) (l : list (pystr * DocumentReadinessTarget)) : list (pystr * DocumentReadinessTarget) :=
  if bool_decide (dict_get l (tg_uri target) = Some target) then dict_del l (tg_uri target) else l.
Definition disown_target (target : DocumentReadinessTarget) (d : Documents) : Documents :=
  set_pending_targets (drop_if_same target (dc_pending_documents d)) (drop_if_same target (dc_pending_diagnostics d)) d.

Definition trusted_paths (s : Adapter T) : list pystr := ev_paths (pj_trust_inventory (tk_projection (la_scope s))).

(** An update whose version the state would refuse *)
Definition stale_version (uri : pystr) (version : Z) (s : Adapter T) : bool :=
  match document uri (la_lsp s) ≫= doc_version with Some v => bool_decide (version ≤ v) | None => false end.

Definition _open_document_with_client (client : runtime) (relative_path uri : pystr) (version : Z) (text : pystr) (retain : bool)
    : athread DocumentReadinessTarget :=
  normalized ← or_value (_normalize_relative_path relative_path);
  trusted ← tread anyhow (λ s, bool_decide (normalized ∈ trusted_paths s));
  if negb trusted then traise AX_Value
  else
    stale ← tread anyhow (stale_version uri version);
    if (stale : bool) then traise AX_Value
    else
      _ ← _drain_unversioned_diagnostics_before_change client uri;
      updated ← tatom anyhow (λ s, let '(l, d) := update_document uri (path_div workspace_root (Path normalized)) (Some version) (la_lsp s) in
                                   (set_lsp l s, d));
      document ← or_value updated;
      _ ← update anyhow (λ s, set_lsp (advance_source_generation (la_lsp s)).1 s);
      path_generation ← tread anyhow (λ s, default 0 (gs_path_scoped (tracker_snapshot (la_scope s)) !! normalized));
      let target := {| tg_uri := uri; tg_relative_path := normalized; tg_absolute_path := doc_path document; tg_version := version;
                       tg_document_generation := doc_generation document; tg_path_generation := path_generation |} in
      _ ← update unlocked (on_documents (own_target target retain));
      _ ← ttry (language_id ← or_value (language_id_for facts normalized);
                _send_document_open_or_change client uri language_id version text) (λ r,
            match r with
            | Ok _ => mret tt
            | Err e => _ ← update unlocked (on_documents (disown_target target)); traise e
            end);
      mret target.

Definition _open_document_worker (relative_path uri : pystr) (version : Z) (text : pystr) : athread DocumentReadinessTarget :=
  client ← _ensure_started_worker; _open_document_with_client client relative_path uri version text false.

Definition _close_document_worker (client : runtime) (uri : pystr) : athread unit :=
  was_open ← tread anyhow (is_open uri);
  _ ← update anyhow (pop_open uri);
  _ ← _forget_document_tracking uri;
  if (was_open : bool) then _send_unversioned_didclose client uri else mret tt.

(** ** Watcher batches *)

(** [FileSnapshot.from_bytes(path.read_bytes()).text] *)
Definition read_text (path : purepath) : athread pystr :=
  raw ← (TCall (AReadBytes path) TRet : athread (list N));
  match from_bytes raw with Ok snapshot => mret (text snapshot) | Err _ => traise AX_Position end.

(** A failure of [p] of the classes [caught] closes the document. *)
Definition or_close {A} (client : runtime) (uri : pystr) (caught : aexn T → bool) (p : athread A) (next : A → athread unit) : athread unit :=
  ttry p (λ r, match r with
               | Ok a => next a
               | Err e => if caught e then _close_document_worker client uri else traise e
               end).
Definition cannot_read (x : aexn T) : bool := match x with AX_Key | AX_OS => true | _ => value_error x end.

Definition reconcile_changed (client : runtime) (versions : list (pystr * Z)) (uri relative_path : pystr) (path : purepath) : athread unit :=
  or_close client uri cannot_read
    (text ← read_text path;
     match dict_get versions relative_path with Some version => mret (text, version) | None => traise AX_Key end)
    (λ tv, or_close client uri value_error (_open_document_with_client client relative_path uri tv.2 tv.1 false) (λ _, mret tt)).

(** One open document of a batch *)
Definition reconcile_open (client : runtime) (changed deleted : list pystr) (versions : list (pystr * Z)) (_ : unit) (uri : pystr) : athread unit :=
  d ← tread anyhow (λ s, document uri (la_lsp s));
  match d with
  | None => update anyhow (pop_open uri)
  | Some d =>
      match relative_to (doc_path d) workspace_root with
      | None => _close_document_worker client uri
      | Some parts =>
          let relative_path := path_str (PurePath [] parts) in
          if bool_decide (relative_path ∈ deleted) then _close_document_worker client uri
          else if bool_decide (relative_path ∉ changed) then mret tt
          else reconcile_changed client versions uri relative_path (doc_path d)
      end
  end.

(** One created file: opened and closed again, unless it is open *)
Definition reconcile_created (client : runtime) (_ : unit) (relative_path : pystr) : athread unit :=
  let path := path_div workspace_root (Path relative_path) in
  let uri := as_uri path in
  open ← tread anyhow (is_open uri);
  if (open : bool) then mret tt
  else
    language_id ← or_value (language_id_for facts relative_path);
    ttry (read_text path) (λ r,
      match r with
      | Err AX_OS | Err AX_Position => mret tt
      | Err e => traise e
      | Ok text =>
          _ ← notify client (NDidOpen uri language_id 1 text);
          _ ← _send_unversioned_didclose client uri;
          full ← tread anyhow (λ s, (MAX_OPEN_DOCUMENTS <=? length (undrained_closes s))%nat);
          if (full : bool) then _drain_recorded_unversioned_closes client else mret tt
      end).

Definition paths_of (kind : FileChangeType) (events : list WatchedFileEvent) : list pystr :=
  we_path <$> filter (λ ev, we_change_type ev = kind) events.

Definition _reconcile_watched_files_worker (events : list WatchedFileEvent) (created : list pystr) (versions : list (pystr * Z)) : athread unit :=
  client ← _ensure_started_worker;
  _ ← _drain_recorded_unversioned_closes client;
  _ ← notify client (NDidChangeWatchedFiles (as_lsp_change (as_uri workspace_root) <$> events));
  uris ← tread anyhow open_documents;
  _ ← tfold (reconcile_open client (paths_of CHANGED events) (paths_of DELETED events) versions) tt uris;
  tfold (reconcile_created client) tt created.

(** ** Readiness *)

(** [_mark_document_ready] of the workspace adapter *)
Definition _mark_document_ready (target : DocumentReadinessTarget) : athread bool :=
  current ← tread anyhow (λ s,
    match document (tg_uri target) (la_lsp s) with
    | Some d => bool_decide (doc_generation d = tg_document_generation target)
    | None => false
    end);
  same ← tread anyhow (λ s, bool_decide (default 0 (gs_path_scoped (tracker_snapshot (la_scope s)) !! tg_relative_path target) = tg_path_generation target));
  if negb (current && same) then mret false
  else
    observed ← tatom_res anyhow (λ s,
      let '(t, r) := observe_path (tg_relative_path target) (tg_path_generation target) (la_scope s) in
      (set_scope t s, match r with Ok b => Ok b | Err _ => Err AX_Value end));
    if negb observed then mret false
    else
      _ ← locked
        (early ← tread anyhow (λ s, bool_decide (la_phase s = PH_STARTING) || bool_decide (la_phase s = PH_DEGRADED));
         if (early : bool) then _transition PH_DOCUMENT_READY else mret tt);
      mret true.

(** [DocumentSymbolReadinessProbe.observe] *)
Definition probe_observe (client : runtime) (target : DocumentReadinessTarget) : athread bool :=
  result ← lsp_request client (QDocumentSymbol (tg_uri target));
  mret (match result with JList _ => true | _ => false end).

Definition _probe_document_with_client (client : runtime) (target : DocumentReadinessTarget) : athread DocumentReadinessTarget :=
  observed ← probe_observe client target;
  ready ← (if (observed : bool) then _mark_document_ready target else mret false);
  if (ready : bool) then mret target else traise (AX_Witness AE_NOT_READY (Some t_retry)).

Definition _probe_document_worker (target : DocumentReadinessTarget) : athread DocumentReadinessTarget :=
  client ← _ensure_started_worker; _probe_document_with_client client target.

Definition _retain_diagnostics_target (target : DocumentReadinessTarget) : athread unit :=
  update unlocked (on_documents (λ d, set_pending_targets (dict_set (dc_pending_documents d) (tg_uri target) target)
                                        (dict_set (dc_pending_diagnostics d) (tg_uri target) target) d)).

Definition cancel_diagnostics_target (target : DocumentReadinessTarget) : athread unit :=
  update unlocked (on_documents (λ d, set_pending_targets (dc_pending_documents d) (drop_if_same target (dc_pending_diagnostics d)) d)).

(** The check of an answer to the sentinel query *)
Definition sentinel_matches (w : GlobalReadinessWitness) (result : list json) : list json :=
  filter (λ item, (match json_get item (lit "name") with Some (JStr name) => bool_decide (name = gw_exact_symbol w) | _ => false end) = true) result.

Definition not_ready_soon {A} : athread A := traise (AX_Witness AE_NOT_READY (Some t_retry)).

Definition _warm_global_worker (w : GlobalReadinessWitness) : athread (list json) :=
  client ← _ensure_started_worker;
  _ ← locked
    (phase ← tread anyhow la_phase;
     match phase with
     | PH_DOCUMENT_READY | PH_GLOBAL_WARMING | PH_READY => _transition PH_GLOBAL_WARMING
     | _ => not_ready_soon
     end);
  target_generation ← tread anyhow (λ s, gs_configured_program (tracker_snapshot (la_scope s)));
  result ← lsp_request client (QWorkspaceSymbol (default (gw_exact_symbol w) (gw_query w)));
  match result with
  | JList items =>
      let exact_name := sentinel_matches w items in
      if negb (existsb (λ item, bool_decide (_workspace_symbol_uri item = Some (gw_uri w))) exact_name)
      then _ ← locked (_transition PH_DEGRADED); not_ready_soon
      else
        generation ← tread anyhow (λ s, gs_configured_program (tracker_snapshot (la_scope s)));
        if negb (bool_decide (generation = target_generation)) then not_ready_soon
        else
          _ ← tatom_res anyhow (λ s, let '(l, r) := observe_index_generation target_generation (la_lsp s) in
                                     (set_lsp l s, match r with Ok _ => Ok tt | Err _ => Err AX_Value end));
          current ← tatom anyhow (λ s, let '(t, b) := observe_configured_program target_generation (la_scope s) in (set_scope t s, b));
          _ ← locked (_transition (if (current : bool) then PH_READY else PH_GLOBAL_WARMING));
          mret exact_name
  | _ => traise (AX_Witness AE_NOT_READY None)
  end.

Definition _bounded_timeout (timeout : option T) : option T :=
  match timeout with
  | None => Some readiness_timeout
  | Some t => if py_ltb t t_zero then None else Some (t_min t readiness_timeout)
  end.

Definition adapter_wait_for_document (target : DocumentReadinessTarget) (timeout : option T) : athread (ReadinessResult (T:=T)) :=
  current ← tread anyhow (λ s, document (tg_uri target) (la_lsp s));
  bounded ← (if bool_decide (doc_generation <$> current = Some (tg_document_generation target))
             then or_value (_bounded_timeout timeout) else mret t_zero);
  (TCall (AWaitPath (tg_relative_path target) bounded) TRet : athread (ReadinessResult (T:=T))).

Definition wait_for_global (timeout : option T) : athread (ReadinessResult (T:=T)) :=
  bounded ← or_value (_bounded_timeout timeout);
  result ← (TCall (AWaitProgram bounded) TRet : athread (ReadinessResult (T:=T)));
  _ ← locked
    (phase ← tread anyhow la_phase;
     match rr_code result with
     | SCOPE_INCOMPATIBLE => _transition PH_DEGRADED
     | _ => if negb (rr_ready result) && bool_decide (phase = PH_READY) then _transition PH_GLOBAL_WARMING else mret tt
     end);
  mret result.

(** ** Publications *)

(** [PublishedDiagnosticsWitness.observe], with the update of the state *)
Definition witness_observe (method : pystr) (params : json) (target : DocumentReadinessTarget) (l : doc_state) : doc_state * res (aexn T) bool :=
  if negb (bool_decide (method = lit "textDocument/publishDiagnostics")) then (l, Ok false)
  else match params with
       | JObj publication =>
           let version := match dict_get publication (lit "version") with
                          | None | Some JNull => Some None
                          | Some (JInt v) => Some (Some v)
                          | Some (JBool b) => Some (Some (Z.b2z b))
                          | Some _ => None
                          end in
           match dict_get publication (lit "uri"), version, dict_get publication (lit "diagnostics") with
           | Some (JStr uri), Some version, Some (JList diagnostics) =>
               if negb (bool_decide (uri = tg_uri target)) || match version with Some v => negb (bool_decide (v = tg_version target)) | None => false end
               then (l, Ok false)
               else
                 let '(l, r) := publish_diagnostics (tg_uri target) (tg_absolute_path target) version (tg_document_generation target)
                                  (to_python <$> diagnostics) l in
                 (l, match r with Ok b => Ok b | Err _ => Err AX_Type end)
           | _, _, _ => (l, Ok false)
           end
       | _ => (l, Ok false)
       end.

Definition _publication_has_declared_version_evidence (method : pystr) (params : json) : bool :=
  if negb (bool_decide (method = lit "textDocument/publishDiagnostics")) || negb versioned then true
  else match params with
       | JObj publication => match dict_get publication (lit "version") with Some (JInt _) => true | _ => false end
       | _ => false
       end.

(** [self._pending_documents.get(params.get("uri") ...)]; a list or an object is
    no key *)
Definition pending_target (params : json) (s : Adapter T) : res (aexn T) (option DocumentReadinessTarget) :=
  match params with
  | JObj kvs =>
      match dict_get kvs (lit "uri") with
      | Some (JStr uri) => Ok (dict_get (dc_pending_documents (la_documents s)) uri)
      | Some (JList _) | Some (JObj _) => Err AX_Type
      | _ => Ok None
      end
  | _ => Ok (dict_get (dc_pending_documents (la_documents s)) [])
  end.

(** The critical section of a notification: the target it proves *)
Definition accept_publication (method : pystr) (params : json) (s : Adapter T) : Adapter T * res (aexn T) (option DocumentReadinessTarget) :=
  match pending_target params s with
  | Err e => (s, Err e)
  | Ok None => (s, Ok None)
  | Ok (Some target) =>
      if negb (_publication_has_declared_version_evidence method params) then (s, Ok None)
      else
        let '(l, r) := witness_observe method params target (la_lsp s) in
        let s := set_lsp l s in
        match r with
        | Err e => (s, Err e)
        | Ok false => (s, Ok None)
        | Ok true => (on_documents (disown_target target) s, Ok (Some target))
        end
  end.

Definition _on_notification (method : pystr) (params : json) : athread unit :=
  _ ← (TCall (AHandler method params) TRet : athread unit);
  accepted ← tatom_res unlocked (accept_publication method params);
  match accepted with
  | None => mret tt
  | Some target => _ ← _mark_document_ready target; mret tt
  end.

(** ** The workspace adapter *)

Definition snapshot_of (path : purepath) : athread FileSnapshot :=
  raw ← (TCall (AReadBytes path) TRet : athread (list N));
  match from_bytes raw with Ok x => mret x | Err _ => traise AX_Position end.

Definition snapshot_open_and_probe_document (absolute_path : purepath) (relative_path uri : pystr) (version : Z)
    : athread (FileSnapshot * DocumentReadinessTarget) :=
  client ← _ensure_started_worker;
  snap ← snapshot_of absolute_path;
  target ← _open_document_with_client client relative_path uri version (text snap) false;
  observed ← _probe_document_with_client client target;
  mret (snap, observed).

(** A document that is open with exactly this text, and its version *)
Definition reusable (absolute_path : purepath) (content : pystr) (owner_token : Z) (current : option (DocumentSnapshot (P := purepath)))
    (cached : option (Z * pystr)) (open : bool) : option (DocumentSnapshot (P := purepath) * Z) :=
  d ← current;
  version ← doc_version d;
  if bool_decide (doc_path d = absolute_path) && open && bool_decide (cached = Some (owner_token, content)) then Some (d, version) else None.

Definition snapshot_open_and_probe_diagnostics (absolute_path : purepath) (relative_path uri : pystr) (version : Z)
    : athread (FileSnapshot * DocumentReadinessTarget) :=
  client ← _ensure_started_worker;
  owner_token ← tread anyhow la_runtime_token;
  snap ← snapshot_of absolute_path;
  _ ← _drain_recorded_unversioned_closes client;
  current ← tread anyhow (λ s, document uri (la_lsp s));
  cached ← tread anyhow (λ s, dict_get (dc_diagnostic_snapshots (la_documents s)) uri);
  open ← tread anyhow (is_open uri);
  target ← match reusable absolute_path (text snap) owner_token current cached open with
           | Some (d, v) =>
               _ ← move_to_end uri;
               path_generation ← tread anyhow (λ s, default 0 (gs_path_scoped (tracker_snapshot (la_scope s)) !! relative_path));
               let target := {| tg_uri := uri; tg_relative_path := relative_path; tg_absolute_path := absolute_path; tg_version := v;
                                tg_document_generation := doc_generation d; tg_path_generation := path_generation |} in
               _ ← _retain_diagnostics_target target;
               mret target
           | None => _open_document_with_client client relative_path uri version (text snap) true
           end;
  observed ← _probe_document_with_client client target;
  mret (snap, observed).

Definition open_snapshot_document_with_client (client : runtime) (absolute_path : purepath) (relative_path uri : pystr) (version : Z)
    (content : pystr) : athread DocumentReadinessTarget :=
  expected ← (TCall (AResolve (path_div workspace_root (Path relative_path))) TRet : athread purepath);
  resolved ← (TCall (AResolve absolute_path) TRet : athread purepath);
  if negb (bool_decide (resolved = expected)) then traise AX_Value
  else _open_document_with_client client relative_path uri version content false.

(** The replacement of a text that an edit installed *)
Definition notify_edit_with_client (client : runtime) (target : DocumentReadinessTarget) (uri : pystr) (path : purepath) (content : pystr)
    : athread (Z * AdapterGenerations) :=
  if negb (bool_decide (uri = tg_uri target)) || negb (bool_decide (path = tg_absolute_path target)) then traise AX_Value
  else
    changed ← _open_document_with_client client (tg_relative_path target) (tg_uri target) (tg_version target + 1) content false;
    snap ← adapter_snapshot;
    mret (tg_document_generation changed, as_generations snap).

(** ** Jobs of the worker *)

Inductive job :=
| JobStart
| JobStop
| JobOperation (operation : runtime → athread unit) (read_only : bool)
| JobReconcile (events : list WatchedFileEvent) (created : list pystr) (versions : list (pystr * Z))
| JobOpen (relative_path uri : pystr) (version : Z) (content : pystr)
| JobWarm (w : GlobalReadinessWitness)
| JobProbe (target : DocumentReadinessTarget)
| JobDocument (absolute_path : purepath) (relative_path uri : pystr) (version : Z)
| JobDiagnostics (absolute_path : purepath) (relative_path uri : pystr) (version : Z).

Definition job_thread (j : job) : athread unit :=
  let ordinary {A} (p : athread A) : athread unit := _run_admitted_ordinary_worker (_ ← p; mret tt) in
  match j with
  | JobStart => ordinary (_ ← _ensure_started_worker; adapter_snapshot)
  | JobStop => _ ← _stop_worker; _ ← adapter_snapshot; mret tt
  | JobOperation operation read_only => ordinary (_execute_worker operation read_only)
  | JobReconcile events created versions => ordinary (_reconcile_watched_files_worker events created versions)
  | JobOpen relative_path uri version content => ordinary (_open_document_worker relative_path uri version content)
  | JobWarm w => ordinary (_warm_global_worker w)
  | JobProbe target => ordinary (_probe_document_worker target)
  | JobDocument absolute_path relative_path uri version =>
      _ ← snapshot_open_and_probe_document absolute_path relative_path uri version; mret tt
  | JobDiagnostics absolute_path relative_path uri version =>
      _ ← snapshot_open_and_probe_diagnostics absolute_path relative_path uri version; mret tt
  end.

(** The worker of the executor: a failed job resolves its future and the next runs. *)
Definition run_job (_ : unit) (j : job) : athread unit := ttry (job_thread j) (λ _, mret tt).
Definition worker (jobs : list job) : athread unit := tfold run_job tt jobs.
End adapter.
