(* ===== verification/AdapterProps.v ===== *)
(** * One server per adapter

    What the threads of a language adapter do to the server process, and what
    they leave alone. The worker is the only thread that starts and stops
    servers; the reader of a connection, clients and waiters run beside it
    ([outside_thread]) and keep to the relation [keeps]. The theorem: in every
    interleaving, along any sequence of jobs, the adapter has at most one server,
    each server it lets go of was stopped, and once it is sealed it starts none. *)

From S2P Require Import Prelude Paths Positions Json Scope Envelopes LspState FileSystem Threads AdapterState Adapter.

Section props.
Context {T : Type}.
Abbreviation athread := (thread (Adapter T) acall (aexn T) aanswer).
Abbreviation trace := (list (tevent (C := acall (T:=T)) (R := aanswer))).
Implicit Types s : Adapter T.

(** ** What other threads keep *)

(** The server and its token stay; a crash and a seal are not taken back. *)
Record calm s s' : Prop := {
  cm_runtime : la_runtime s' = la_runtime s;
  cm_token : la_runtime_token s' = la_runtime_token s;
  cm_sealed : la_sealed s = true → la_sealed s' = true;
  cm_crashed : cr_crashed_runtime_tokens (la_crashes s) ⊆ cr_crashed_runtime_tokens (la_crashes s');
}.
#[global] Instance calm_preorder : PreOrder calm.
Proof.
  split; [by split|]. intros s1 s2 s3 [? ? ? ?] [? ? ? ?]. split; [congruence|congruence|auto|by etrans].
Qed.

Definition alive s : Prop := la_runtime_token s ∉ cr_crashed_runtime_tokens (la_crashes s).
(** The documents of a connection *)
Definition holdings s := (open_documents s, st_documents (la_lsp s), undrained_closes s).

(** The documents change only if the connection is lost. *)
Record keeps s s' : Prop := {
  kp_calm : calm s s';
  kp_holdings : alive s' → holdings s' = holdings s;
}.
Lemma calm_alive s s' : calm s s' → alive s' → alive s.
Proof. intros [_ Ht _ Hc] Ha Hin. apply Ha. rewrite Ht. by apply Hc. Qed.
#[global] Instance keeps_preorder : PreOrder keeps.
Proof.
  split; [by split|]. intros s1 s2 s3 [C1 H1] [C2 H2]. split; [by etrans|]. intros Ha. rewrite H2 by done. apply H1. by eapply calm_alive.
Qed.

(** Calls that leave the server processes alone *)
Definition no_process (c : acall (T:=T)) : Prop := match c with AStart | AStop _ => False | _ => True end.

(** Calls that also send nothing to the server *)
Definition silent (c : acall (T:=T)) : Prop := match c with AStart | AStop _ | ANotify _ _ => False | _ => True end.

Abbreviation kept := (within keeps silent).
Abbreviation calmly := (within calm no_process).

Lemma kept_calmly {A} (p : athread A) : kept p → calmly p.
Proof.
  induction p as [r|g f k IH|c k IH]; simpl; [done| |].
  - intros Hp s Hg. destruct (Hp s Hg) as [[? _] ?]. auto.
  - intros [Hc Hp]. split; [by destruct c|auto].
Qed.

Lemma within_locked {A} G P (p : athread A) : (∀ s s', s' = set_locked (la_locked s') s → G s s') → within G P p → within G P (locked p).
Proof.
  intros HG Hp s _. split; [by apply HG|]. apply within_tfinally; [done|]. apply within_atom. intros s'. by apply HG.
Qed.
End props.

Create HintDb within discriminated.

Ltac within_step :=
  match goal with
  | |- within _ _ (match ?x with _ => _ end) => destruct x
  | |- within _ _ (_ ≫= _) => apply within_tbind; [|intros ?]
  | |- within _ _ (ttry _ _) => apply within_try; [|intros ?]
  | |- within _ _ (tfinally _ _) => apply within_tfinally
  | |- within _ _ (locked _) => apply within_locked; [by intros ? ? ->|]
  | |- within _ _ (tatom _ _) => apply within_atom; intros ?
  | |- within _ _ (update _ _) => apply within_atom; intros ?
  | |- within _ _ (tatom_res _ _) => apply within_atom_res; intros ?
  | |- within _ _ (tread _ _) => apply within_read; apply _
  | |- within _ _ (tfold _ _ _) => apply within_fold; intros ? ?
  | |- within _ _ (ask _) => split; [exact Logic.I|intros ?; exact Logic.I]
  | |- within _ _ (notify _ _) => split; [exact Logic.I|intros ?; exact Logic.I]
  | |- within _ _ (lsp_request _ _) => split; [exact Logic.I|intros ?; exact Logic.I]
  | |- within _ _ (TCall _ TRet) => split; [exact Logic.I|intros ?; exact Logic.I]
  | |- within _ _ (mret _) => exact Logic.I
  | |- within _ _ (traise _) => exact Logic.I
  | |- within _ _ (TRet _) => exact Logic.I
  | |- within _ _ _ => progress cbv zeta
  end.
Ltac within_steps := repeat (within_step || (progress eauto 4 with within nocore)).

Section kept.
Context {T : Type} `{!PyOrd T} (t_add t_sub : T → T → T) (t_zero t_retry : T).
Context (facts : AdapterLanguageFacts) (policy : CrashPolicy T) (workspace_root : purepath) (readiness_timeout : T).
Context (as_uri : purepath → pystr).
Abbreviation athread := (thread (Adapter T) acall (aexn T) aanswer).
Abbreviation kept := (within keeps (silent (T:=T))).
Abbreviation calmly := (within calm (no_process (T:=T))).
Hint Resolve kept_calmly : within.

Lemma kept_or_value {A} (x : option A) : kept (or_value (T:=T) x).
Proof. by destruct x. Qed.
Hint Resolve kept_or_value : within.

(** Close the critical sections that are left. *)
Ltac harmless := repeat case_match; simplify_eq/=; (done || (split; [by split|done]) || by split).

Lemma kept_transition phase : kept (_transition (T:=T) phase).
Proof. unfold _transition. within_steps; harmless. Qed.
Hint Resolve kept_transition : within.
Lemma kept_refresh_cooldown : kept (_refresh_cooldown_locked (T:=T)).
Proof. unfold _refresh_cooldown_locked. within_steps; harmless. Qed.
Lemma kept_crash_snapshot : kept (_crash_snapshot_locked t_sub t_zero policy).
Proof. unfold _crash_snapshot_locked. within_steps. Qed.
Hint Resolve kept_refresh_cooldown kept_crash_snapshot : within.

Lemma count_crash_keeps token e now ts s : keeps s (count_crash t_add t_sub policy token e now ts s).1.
Proof.
  clear facts workspace_root as_uri readiness_timeout t_zero t_retry. unfold count_crash. case_bool_decide as Ht; simpl.
  - split; [split; [done|done|done|set_solver]|]. intros Ha. destruct Ha. subst token. set_solver.
  - split; [split; [done|done|done|set_solver]|done].
Qed.
Lemma kept_record_crash token e : kept (_record_crash t_add t_sub policy token e).
Proof. unfold _record_crash. within_steps. apply count_crash_keeps. Qed.
Hint Resolve kept_record_crash : within.
Lemma kept_on_terminal token e : kept (_on_terminal t_add t_sub policy token e).
Proof. unfold _on_terminal. within_steps. Qed.
Lemma kept_process_lost r : kept (_raise_if_process_lost (T:=T) r).
Proof. unfold _raise_if_process_lost. within_steps. Qed.
Lemma kept_snapshot : kept (adapter_snapshot t_sub t_zero facts policy).
Proof. unfold adapter_snapshot. within_steps. Qed.
Hint Resolve kept_on_terminal kept_process_lost kept_snapshot : within.

Lemma kept_refuse_cooldown : kept (refuse_cooldown t_sub t_zero policy).
Proof. unfold refuse_cooldown, cooldown_error. within_steps. Qed.
Lemma kept_sealed_check : kept (_raise_if_ordinary_admission_sealed_locked (T:=T)).
Proof. unfold _raise_if_ordinary_admission_sealed_locked. within_steps; harmless. Qed.
Lemma kept_submit : kept (_submit_ordinary (T:=T)).
Proof. unfold _submit_ordinary. apply within_locked; [by intros ? ? ->|]. apply within_tbind; [apply kept_sealed_check|]. intros _. within_steps. Qed.
Lemma kept_stop_request : kept (adapter_stop_request (T:=T)).
Proof. unfold adapter_stop_request. within_steps; harmless. Qed.
Hint Resolve kept_refuse_cooldown kept_sealed_check kept_submit kept_stop_request : within.

Lemma kept_mark_ready target : kept (_mark_document_ready (T:=T) target).
Proof. unfold _mark_document_ready. within_steps; harmless. Qed.
Hint Resolve kept_mark_ready : within.

Lemma publish_documents uri path version generation l (d : doc_state) :
  st_documents (publish_diagnostics uri path version generation l d).1 = st_documents d.
Proof. unfold publish_diagnostics. by repeat case_match. Qed.
Lemma witness_documents method params target (d : doc_state) :
  st_documents (witness_observe (T:=T) method params target d).1 = st_documents d.
Proof.
  unfold witness_observe. repeat case_match; simplify_eq/=; try done.
  all: match goal with H : publish_diagnostics ?u ?p ?v ?g ?l ?d = _ |- _ => pose proof (publish_documents u p v g l d) as E; by rewrite H in E end.
Qed.
Lemma kept_on_notification method params : kept (_on_notification facts method params).
Proof.
  unfold _on_notification. within_steps. unfold accept_publication. repeat case_match; simplify_eq/=; try done.
  all: match goal with H : witness_observe ?m ?p ?t ?d = _ |- _ => pose proof (witness_documents m p t d) as E; rewrite H in E; simpl in E end;
    split; [by split|]; intros _; unfold holdings; simpl; by rewrite E.
Qed.
Lemma kept_wait_document target timeout : kept (adapter_wait_for_document t_zero readiness_timeout target timeout).
Proof. unfold adapter_wait_for_document. within_steps. Qed.
Lemma kept_wait_global timeout : kept (wait_for_global t_zero readiness_timeout timeout).
Proof. unfold wait_for_global. within_steps. Qed.
Lemma kept_cancel target : kept (cancel_diagnostics_target (T:=T) target).
Proof. unfold cancel_diagnostics_target. within_steps; harmless. Qed.
Hint Resolve kept_on_notification kept_wait_document kept_wait_global kept_cancel : within.

(** The threads beside the worker *)
Inductive outside_thread : athread unit → Prop :=
| out_terminal token e : outside_thread (_on_terminal t_add t_sub policy token e)
| out_notification method params : outside_thread (_on_notification facts method params)
| out_snapshot : outside_thread (_ ← adapter_snapshot t_sub t_zero facts policy; mret tt)
| out_submit : outside_thread (_ ← _submit_ordinary; mret tt)
| out_stop : outside_thread (_ ← adapter_stop_request; mret tt)
| out_wait_document target timeout : outside_thread (_ ← adapter_wait_for_document t_zero readiness_timeout target timeout; mret tt)
| out_wait_global timeout : outside_thread (_ ← wait_for_global t_zero readiness_timeout timeout; mret tt)
| out_cancel target : outside_thread (cancel_diagnostics_target target).

Lemma outside_keeps p : outside_thread p → guar keeps p.
Proof. intros Hp. apply (within_guar keeps silent). destruct Hp; within_steps. Qed.

(** ** The documents of the worker *)

Lemma calm_forget uri : calmly (_forget_document_tracking (T:=T) uri).
Proof. unfold _forget_document_tracking. within_steps; harmless. Qed.
Lemma calm_record_close uri : calmly (_record_unversioned_close_before_delivery (T:=T) facts uri).
Proof. unfold _record_unversioned_close_before_delivery. within_steps; harmless. Qed.
Lemma calm_deliver client uri token : calmly (_deliver_recorded_unversioned_close (T:=T) client uri token).
Proof. unfold _deliver_recorded_unversioned_close. within_steps. unfold close_delivered. harmless. Qed.
Hint Resolve calm_forget calm_record_close calm_deliver : within.
Lemma calm_send_close client uri : calmly (_send_unversioned_didclose (T:=T) facts client uri).
Proof. unfold _send_unversioned_didclose. within_steps. Qed.
Lemma calm_drain client : calmly (_drain_recorded_unversioned_closes (T:=T) facts client).
Proof. unfold _drain_recorded_unversioned_closes, disown_marked, deliver_marked. within_steps; harmless. Qed.
Hint Resolve calm_send_close calm_drain : within.
Lemma calm_drain_change client uri : calmly (_drain_unversioned_diagnostics_before_change (T:=T) facts client uri).
Proof. unfold _drain_unversioned_diagnostics_before_change. within_steps; harmless. Qed.
Lemma calm_evict n client : calmly (evict (T:=T) facts n client).
Proof. induction n as [|n IH]; [done|]. cbn [evict]. unfold pop_oldest. within_steps; harmless. Qed.
Hint Resolve calm_drain_change calm_evict : within.
Lemma calm_move_to_end uri : calmly (move_to_end (T:=T) uri).
Proof. unfold move_to_end. within_steps; harmless. Qed.
Hint Resolve calm_move_to_end : within.
Lemma calm_send client uri language version text : calmly (_send_document_open_or_change (T:=T) facts client uri language version text).
Proof. unfold _send_document_open_or_change, _on_document_text, insert_open. within_steps; harmless. Qed.
Hint Resolve calm_send : within.
Lemma calm_open_document client path uri version text retain :
  calmly (_open_document_with_client (T:=T) facts workspace_root client path uri version text retain).
Proof. unfold _open_document_with_client. within_steps; harmless. Qed.
Lemma calm_close_document client uri : calmly (_close_document_worker (T:=T) facts client uri).
Proof. unfold _close_document_worker. within_steps; harmless. Qed.
Hint Resolve calm_open_document calm_close_document : within.
Lemma calm_probe client target : calmly (_probe_document_with_client (T:=T) t_retry client target).
Proof. unfold _probe_document_with_client, probe_observe. within_steps. Qed.
Lemma calm_retain target : calmly (_retain_diagnostics_target (T:=T) target).
Proof. unfold _retain_diagnostics_target. within_steps; harmless. Qed.
Hint Resolve calm_probe calm_retain : within.
Lemma calm_reconcile_open client changed deleted versions u uri :
  calmly (reconcile_open (T:=T) facts workspace_root client changed deleted versions u uri).
Proof. unfold reconcile_open, reconcile_changed, or_close, read_text. within_steps; harmless. Qed.
Lemma calm_reconcile_created client u path : calmly (reconcile_created (T:=T) facts workspace_root as_uri client u path).
Proof. unfold reconcile_created, read_text. within_steps. Qed.
Hint Resolve calm_reconcile_open calm_reconcile_created : within.
End kept.
#[export] Hint Resolve kept_calmly kept_or_value kept_transition kept_refresh_cooldown kept_crash_snapshot kept_record_crash kept_on_terminal
  kept_process_lost kept_snapshot kept_refuse_cooldown kept_sealed_check kept_submit kept_stop_request kept_mark_ready calm_forget
  calm_record_close calm_deliver calm_send_close calm_drain calm_drain_change calm_evict calm_move_to_end calm_send calm_open_document
  calm_close_document calm_probe calm_retain calm_reconcile_open calm_reconcile_created : within.

(** ** Servers *)

Section servers.
Context {T : Type} `{!PyOrd T} (t_add t_sub : T → T → T) (t_zero t_retry : T).
Context (facts : AdapterLanguageFacts) (policy : CrashPolicy T) (workspace_root : purepath) (readiness_timeout : T).
Context (as_uri : purepath → pystr).
Abbreviation athread := (thread (Adapter T) acall (aexn T) aanswer).
Abbreviation event := (tevent (C := acall (T:=T)) (R := aanswer)).
Abbreviation calmly := (within calm (no_process (T:=T))).
Abbreviation ensure := (_ensure_started_worker t_add t_sub t_zero facts policy).
Implicit Types s : Adapter T.

(** The servers that run after an event, [None] if one is started beside another *)
Definition server_step (e : event) (live : list runtime) : option (list runtime) :=
  match e with
  | TEv c a =>
      match c return aanswer c → option (list runtime) with
      | AStart => λ a, match a with Ok r => if nonempty live then None else Some [r] | Err _ => Some live end
      | AStop r => λ a, match a with Ok _ => Some (filter (.≠ r) live) | Err _ => Some live end
      | _ => λ _, Some live
      end a
  end.
Fixpoint servers (t : list event) (live : list runtime) : option (list runtime) :=
  match t with [] => Some live | e :: t => live ← server_step e live; servers t live end.

Definition is_start (e : event) : bool := match e with TEv c _ => match c with AStart => true | _ => false end end.
(** No stop of a server raised. *)
Definition stops_work (t : list event) : Prop := ∀ r x, TEv (R := aanswer) (AStop r) (Err x) ∉ t.

Definition live s : list runtime := option_list (la_runtime s).

Lemma servers_app t1 t2 l : servers (t1 ++ t2) l = servers t1 l ≫= servers t2.
Proof. revert l. induction t1 as [|e t1 IH]; intros l; [done|]. simpl. destruct (server_step e l); [apply IH|done]. Qed.
Lemma stops_work_app t1 t2 : stops_work (t1 ++ t2) → stops_work t1 ∧ stops_work t2.
Proof. intros H. split; intros r x Hin; apply (H r x), elem_of_app; auto. Qed.

(** The servers that run are the one the adapter knows, and a sealed adapter
    starts none. *)
Definition served s (t : list event) s' : Prop :=
  servers t (live s) = Some (live s') ∧ (la_sealed s = true → la_sealed s' = true ∧ existsb is_start t = false).
Definition serves {A} (p : athread A) : Prop := ∀ s t r s', texec keeps p s t r s' → stops_work t → served s t s'.

Lemma served_app s1 t1 s2 t2 s3 : served s1 t1 s2 → served s2 t2 s3 → served s1 (t1 ++ t2) s3.
Proof.
  intros [H1 S1] [H2 S2]. split; [by rewrite servers_app, H1|]. intros Hs. destruct (S1 Hs) as [Hs2 E1]. destruct (S2 Hs2) as [Hs3 E2].
  split; [done|]. by rewrite existsb_app, E1, E2.
Qed.
Lemma served_nil s s' : calm s s' → served s [] s'.
Proof. intros [Hr _ Hs _]. split; [|auto]. unfold live. by rewrite Hr. Qed.

(** A trace without starts and stops *)
Definition quiet_trace (t : list event) : Prop := ∀ l, servers t l = Some l ∧ existsb is_start t = false.
Lemma quiet_nil : quiet_trace [].
Proof. done. Qed.
Lemma quiet_app t1 t2 : quiet_trace t1 → quiet_trace t2 → quiet_trace (t1 ++ t2).
Proof. intros H1 H2 l. rewrite servers_app, existsb_app. destruct (H1 l) as [-> ->]. simpl. apply H2. Qed.

Lemma no_process_servers t l : Forall (λ e : event, match e with TEv c _ => no_process c end) t → servers t l = Some l ∧ existsb is_start t = false.
Proof.
  induction 1 as [|[c a] t Hc _ [IH1 IH2]]; [done|]. simpl. destruct c; simpl in *; try done; by split.
Qed.
Lemma keeps_calm x y : keeps x y → calm (T:=T) x y.
Proof. by intros []. Qed.
Lemma calm_exec {A} (p : athread A) s t r s' :
  calmly p → texec keeps p s t r s' → calm s s' ∧ quiet_trace t.
Proof.
  intros Hp H. split.
  - eapply (texec_guar calm); [apply keeps_calm|by eapply (within_guar calm no_process)|exact H].
  - intros l. apply no_process_servers. by eapply texec_within.
Qed.
Lemma calm_serves {A} (p : athread A) : calmly p → serves p.
Proof.
  intros Hp s t r s' H _. destruct (calm_exec p s t r s' Hp H) as [Hc Ht]. destruct (Ht (live s)) as [H1 H2]. destruct (served_nil _ _ Hc) as [E S].
  simpl in E. split; [by rewrite H1, E|]. intros Hs. by destruct (S Hs).
Qed.

Lemma serves_try {A B} (p : athread A) (h : res (aexn T) A → athread B) : serves p → (∀ r, serves (h r)) → serves (ttry p h).
Proof.
  intros Hp Hh s t r s' (r1 & s1 & t1 & t2 & -> & H1 & H2)%texec_try_inv [W1 W2]%stops_work_app.
  eapply served_app; [by eapply Hp|by eapply Hh].
Qed.
Lemma serves_bind {A B} (p : athread A) (q : A → athread B) : serves p → (∀ a, serves (q a)) → serves (p ≫= q).
Proof. intros Hp Hq. apply serves_try; [done|]. intros [a|e]; [done|]. by apply calm_serves. Qed.
Lemma serves_fold {A B} (p : B → A → athread B) acc l : (∀ b x, x ∈ l → serves (p b x)) → serves (tfold p acc l).
Proof.
  revert acc. induction l as [|x l IH]; intros acc Hp; simpl; [by apply calm_serves|]. apply serves_bind; [apply Hp; by left|].
  intros b. apply IH. intros ? ? ?. apply Hp. by right.
Qed.

(** Stopping the server that was let go *)
Lemma stop_served old s t r s' :
  texec keeps (when_some old stop_provider) s t r s' → stops_work t → la_runtime s = None →
  servers t (option_list old) = Some [] ∧ la_runtime s' = None ∧ (la_sealed s = true → la_sealed s' = true ∧ existsb is_start t = false).
Proof.
  intros H Hw Hn. destruct old as [o|]; simpl in H.
  - apply texec_inv in H as (s1 & a & t1 & Hs1 & -> & (-> & -> & Hs2)%texec_inv).
    assert (calm s s') as [Hr _ Hse _] by (apply (rtc_guar calm keeps); [apply keeps_calm|by etrans]).
    destruct a as [[]|x]; [|exfalso; apply (Hw o x); by left]. split_and!; [|congruence|auto]. simpl. by rewrite filter_cons_False by auto.
  - apply texec_inv in H as (-> & -> & Hs). assert (calm s s') as [Hr _ Hse _] by (apply (rtc_guar calm keeps); [apply keeps_calm|done]).
    split_and!; [done|congruence|auto].
Qed.

(** ** Starting and stopping *)

Lemma rtc_calm s s' : rtc keeps s s' → calm s s'.
Proof. apply (rtc_guar calm keeps), keeps_calm. Qed.

Lemma locked_run {A} (p : athread A) s t r s' :
  texec keeps (locked p) s t r s' → ∃ s1 s2, calm s s1 ∧ texec keeps p s1 t r s2 ∧ calm s2 s'.
Proof.
  intros (s1 & Hs1%rtc_calm & _ & H)%texec_inv. apply texec_try_inv in H as (r1 & s2 & t1 & t2 & -> & H1 & H2).
  apply texec_inv in H2 as (s3 & Hs3%rtc_calm & _ & (-> & -> & Hs'%rtc_calm)%texec_inv). rewrite app_nil_r.
  exists (set_locked true s1), s2. split_and!; [etrans; [exact Hs1|by split]|done|]. etrans; [exact Hs3|]. etrans; [|exact Hs']. by split.
Qed.

(** A prefix of a thread that leaves the servers alone *)
Lemma calm_prefix {A B} (p : athread A) (q : A → athread B) s t r s' :
  calmly p → texec keeps (p ≫= q) s t r s' →
  ∃ s1 t1 t2, t = t1 ++ t2 ∧ calm s s1 ∧ quiet_trace t1 ∧
    ((∃ a, texec keeps p s t1 (Ok a) s1 ∧ texec keeps (q a) s1 t2 r s') ∨ ∃ e, r = Err e ∧ t2 = [] ∧ calm s1 s').
Proof.
  intros Hp H. apply texec_try_inv in H as (r1 & s1 & t1 & t2 & -> & H1 & H2). destruct (calm_exec p s t1 r1 s1 Hp H1) as [Hc Ht].
  exists s1, t1, t2. split_and!; [done..|]. destruct r1 as [a|e]; [left; by exists a|]. right. exists e.
  apply texec_inv in H2 as (-> & -> & Hs%rtc_calm). done.
Qed.

(** What a start finds *)
Definition start_outcome s (r : res (aexn T) (runtime + option runtime * Z)) s' : Prop :=
  match r with
  | Ok (inr (old, _)) => la_sealed s = false ∧ old = la_runtime s ∧ la_runtime s' = None
  | Ok (inl client) => la_runtime s' = la_runtime s ∧ la_runtime s = Some client
  | Err _ => la_runtime s' = la_runtime s
  end.

Lemma start_outcome_calm s0 s r s' s1 : calm s0 s → calm s' s1 → start_outcome s r s' → start_outcome s0 r s1.
Proof.
  intros [R0 _ S0 _] [R1 _ _ _]. destruct r as [[c|[old k]]|e]; simpl; [intros [? ?]; split; congruence|intros (? & -> & ?)|congruence].
  split_and!; [|congruence|congruence]. destruct (la_sealed s0); [|done]. by rewrite S0 in *.
Qed.

Lemma begin_start_run old s t (r : res (aexn T) (runtime + option runtime * Z)) s' :
  texec keeps (_ ← _transition PH_STARTING; tatom anyhow (λ s, (begin_start s, inr (old, la_runtime_token s + 1)))) s t r s' →
  old = la_runtime s →
  quiet_trace t ∧ (la_sealed s = true → la_sealed s' = true) ∧
  match r with
  | Ok (inl _) => False
  | Ok (inr (o, _)) => o = old ∧ la_runtime s' = None
  | Err _ => la_runtime s' = la_runtime s
  end.
Proof.
  intros H Hold. apply calm_prefix in H as (s1 & t1 & t2 & -> & C1 & T1 & H); [|within_steps]. destruct H as [(u & _ & H)|(e & -> & -> & C2)].
  - apply texec_inv in H as (s2 & C2%rtc_calm & _ & (-> & -> & C3%rtc_calm)%texec_inv). rewrite app_nil_r. split; [done|]. split.
    + intros Hs. apply C3. simpl. by apply C2, C1.
    + split; [done|]. by rewrite (cm_runtime _ _ C3).
  - rewrite app_nil_r. assert (calm s s') as [? ? ? ?] by (by etrans). by split_and!.
Qed.

Lemma admit_start_run s t r s' :
  texec keeps (admit_start t_sub t_zero policy) s t r s' →
  quiet_trace t ∧ (la_sealed s = true → la_sealed s' = true) ∧ start_outcome s r s'.
Proof.
  intros (s1 & s2 & C1 & H & C2)%locked_run.
  cut (quiet_trace t ∧ (la_sealed s1 = true → la_sealed s2 = true) ∧ start_outcome s1 r s2).
  { intros (? & Hse & Ho). split_and!; [done| |by eapply start_outcome_calm]. intros ?. by apply C2, Hse, C1. }
  clear C1 C2 s s'. apply texec_try_inv in H as (r3 & s3 & t3 & t4 & -> & H3 & H4).
  apply texec_inv in H3 as (s0 & C0%rtc_calm & _ & (-> & -> & C3%rtc_calm)%texec_inv). simpl in C3. cbn [fst snd] in H4.
  destruct (la_sealed s0) eqn:Hsealed.
  { apply texec_inv in H4 as (-> & -> & C4%rtc_calm). assert (calm s1 s2) as [? ? ? ?] by (etrans; [exact C0|by etrans]). by split_and!. }
  assert (la_sealed s1 = false) as Hs1 by (destruct (la_sealed s1) eqn:E; [|done]; pose proof (cm_sealed _ _ C0 E); congruence).
  assert (calm s1 s3) as C13 by (by etrans). clear C0 C3 s0 Hsealed.
  apply calm_prefix in H4 as (s5 & t5 & t6 & -> & C5 & T5 & H4); [|within_steps].
  destruct H4 as [(u & _ & H4)|(e & -> & -> & C6)].
  2: { rewrite app_nil_r. assert (calm s1 s2) as [? ? ? ?] by (do 2 (etrans; [eassumption|]); done). by split_and!. }
  apply texec_try_inv in H4 as (r7 & s7 & t7 & t8 & -> & H7 & H8).
  apply texec_inv in H7 as (s9 & C9%rtc_calm & _ & (-> & -> & C7%rtc_calm)%texec_inv). cbn beta match in H8. change ([] ++ t8) with t8. change ([] ++ ?x) with x.
  assert (calm s1 s9) as [R9 _ S9 _] by (do 2 (etrans; [eassumption|]); done). assert (calm s1 s7) as C17 by (do 3 (etrans; [eassumption|]); done).
  assert (∀ old, old = la_runtime s9 → texec keeps (_ ← _transition PH_STARTING; tatom anyhow (λ s, (begin_start s, inr (old, la_runtime_token s + 1)))) s7 t8 r s2 →
    quiet_trace (t5 ++ t8) ∧ (la_sealed s1 = true → la_sealed s2 = true) ∧ start_outcome s1 r s2) as Hgo.
  { intros old Hold H. apply begin_start_run in H as (Q8 & S8 & Ho); [|by rewrite Hold, (cm_runtime _ _ C7)]. split_and!; [by apply quiet_app| |].
    - intros ?. congruence.
    - destruct r as [[?|[? ?]]|?]; [done|destruct Ho; split_and!; congruence|]. simpl in *. destruct C17. congruence. }
  destruct (la_runtime s9) as [c|] eqn:Hc; [destruct (bool_decide _)|]; [by apply (Hgo (Some c))| |by apply (Hgo None)].
  apply calm_prefix in H8 as (s10 & t10 & t11 & -> & C10 & T10 & H8); [|within_steps].
  assert (calm s1 s10) as C110 by (by etrans).
  destruct H8 as [(v & _ & (-> & -> & C11%rtc_calm)%texec_inv)|(e & -> & -> & C11)]; rewrite app_nil_r;
    (assert (calm s1 s2) as [? ? ? ?] by (by etrans)); split_and!; try done; by apply quiet_app.
Qed.

(** The handshake: the new server is known, or it has been let go. *)
Lemma start_server_run s t r s' :
  texec keeps (start_server facts) s t r s' → la_runtime s = None → servers t [] = Some (live s').
Proof.
  intros H Hn. apply texec_inv in H as (s1 & a & t1 & C1%rtc_calm & -> & H). destruct a as [c|e].
  2: { apply texec_inv in H as (-> & -> & C2%rtc_calm). simpl. unfold live. by rewrite (cm_runtime _ _ C2), (cm_runtime _ _ C1), Hn. }
  apply texec_try_inv in H as (r0 & s0 & t0 & t2 & -> & (-> & -> & C0%rtc_calm)%texec_inv & H). cbn beta match in H.
  apply texec_try_inv in H as (r2 & s2 & t1 & t3 & -> & H2 & H3).
  apply texec_inv in H2 as (s4 & C4%rtc_calm & _ & (-> & -> & C2%rtc_calm)%texec_inv). cbn beta match in H3. change ([] ++ [] ++ t3) with t3.
  apply calm_exec in H3 as [C3 Q3]; [|within_steps]. destruct (Q3 [c]) as [E _]. simpl. rewrite E. unfold live.
  by rewrite (cm_runtime _ _ C3), (cm_runtime _ _ C2).
Qed.

(** A failed handshake: the server is stopped and the crash recorded. *)
Lemma failed_start_run {A} token e s t (r : res (aexn T) A) s' :
  texec keeps
    (failed ← tatom unlocked (λ s, (set_runtime None s, la_runtime s)); _ ← when_some failed stop_provider;
     _ ← _record_crash t_add t_sub policy token e; traise e) s t r s' → stops_work t →
  servers t (live s) = Some (live s').
Proof.
  intros H Hw. apply texec_try_inv in H as (r1 & s1 & t1 & t2 & -> & H1 & H2).
  apply texec_inv in H1 as (s3 & C3%rtc_calm & _ & (-> & -> & C1%rtc_calm)%texec_inv). cbn beta match in H2. change ([] ++ t2) with t2 in *.
  apply texec_try_inv in H2 as (r4 & s4 & t4 & t5 & -> & H4 & H5). apply stops_work_app in Hw as [W4 W5].
  destruct (stop_served _ _ _ _ _ H4 W4 (cm_runtime _ _ C1)) as (E4 & R4 & _). rewrite servers_app.
  assert (live s = option_list (la_runtime s3)) as -> by (unfold live; by rewrite (cm_runtime _ _ C3)). simpl in E4. rewrite E4. simpl.
  apply calm_exec in H5 as [C5 Q5]; [|destruct r4; within_steps]. destruct (Q5 []) as [-> _]. unfold live. by rewrite (cm_runtime _ _ C5), R4.
Qed.

Lemma ensure_serves : serves ensure.
Proof.
  intros s t r s' H Hw. apply texec_try_inv in H as (r1 & s1 & t1 & t2 & -> & H1 & H2). apply stops_work_app in Hw as [W1 W2].
  destruct (admit_start_run _ _ _ _ H1) as (Q1 & S1 & O1). destruct r1 as [[c|[old token]]|e].
  - apply (served_app _ _ s1); [|by eapply calm_serves; [|exact H2|done]; by within_steps]. destruct O1 as [R1 _]. destruct (Q1 (live s)) as [E F].
    split; [rewrite E; unfold live; by rewrite R1|auto].
  - destruct O1 as (Hse & -> & R1). split; [|by rewrite Hse]. rewrite servers_app. destruct (Q1 (live s)) as [-> _]. simpl.
    apply texec_try_inv in H2 as (r3 & s3 & t3 & t4 & -> & H3 & H4). apply stops_work_app in W2 as [W3 W4].
    destruct (stop_served _ _ _ _ _ H3 W3 R1) as (E3 & R3 & _). rewrite servers_app. unfold live at 1. rewrite E3. simpl. destruct r3 as [u|e].
    2: { apply texec_inv in H4 as (-> & -> & C4%rtc_calm). simpl. unfold live. by rewrite (cm_runtime _ _ C4), R3. }
    apply texec_try_inv in H4 as (r5 & s5 & t5 & t6 & -> & H5 & H6). apply stops_work_app in W4 as [W5 W6]. rewrite servers_app.
    apply texec_try_inv in H5 as (r7 & s7 & t7 & t8 & -> & H7 & H8). apply stops_work_app in W5 as [W7 W8]. rewrite servers_app.
    rewrite (start_server_run _ _ _ _ H7 R3). simpl. assert (servers t8 (live s7) = Some (live s5)) as ->.
    { destruct r7 as [x|e]; [|by eapply failed_start_run]. apply texec_inv in H8 as (-> & -> & C8%rtc_calm). simpl. unfold live.
      by rewrite (cm_runtime _ _ C8). }
    simpl. apply calm_exec in H6 as [C6 Q6]; [|destruct r5 as [[[c raw] enc]|e]; within_steps; by split]. destruct (Q6 (live s5)) as [-> _].
    unfold live. by rewrite (cm_runtime _ _ C6).
  - apply (served_app _ _ s1); [|by eapply calm_serves; [|exact H2|done]; by within_steps]. destruct (Q1 (live s)) as [E F].
    split; [rewrite E; unfold live; by rewrite O1|auto].
Qed.

Lemma calm_enter_stop : calmly (enter_stop (T:=T)).
Proof. unfold enter_stop. within_steps; by split. Qed.

(** What a stop begins with *)
Lemma enter_stop_run s t r u s' :
  texec keeps (enter_stop (T:=T)) s t (Ok (Some (r, u))) s' → r = la_runtime s.
Proof.
  intros (s1 & s2 & C1 & H & C2)%locked_run. apply texec_bind_ok in H as (idle & s3 & t3 & t4 & -> & H3 & H4).
  apply texec_inv in H3 as (s5 & C5%rtc_calm & _ & (-> & _ & C3%rtc_calm)%texec_inv).
  destruct idle; [by apply texec_inv in H4 as (_ & ? & _)|].
  apply texec_bind_ok in H4 as (v & s6 & t6 & t7 & -> & H6 & H7). apply calm_exec in H6 as [C6 _]; [|within_steps].
  apply texec_inv in H7 as (s8 & C8%rtc_calm & _ & (-> & [= -> _] & _)%texec_inv).
  by rewrite (cm_runtime _ _ C8), (cm_runtime _ _ C6), (cm_runtime _ _ C3), <-(cm_runtime _ _ C1), <-(cm_runtime _ _ C5).
Qed.

Lemma close_all_calm c l : calmly (tfold (close_quietly (T:=T) c) tt l).
Proof. apply within_fold. intros ? uri. unfold close_quietly. within_steps. Qed.

(** Letting the server of a stop go *)
Lemma end_stop_run r s t x s' :
  texec keeps (locked (_ ← update anyhow (λ s, if bool_decide (la_runtime s = r) then set_runtime None s else s); _transition PH_COLD)) s t x s' →
  la_runtime s = r → quiet_trace t ∧ la_runtime s' = None ∧ (la_sealed s = true → la_sealed s' = true).
Proof.
  intros (s1 & s2 & C1 & H & C2)%locked_run Hr. apply texec_try_inv in H as (r3 & s3 & t3 & t4 & -> & H3 & H4).
  apply texec_inv in H3 as (s5 & C5%rtc_calm & _ & (-> & -> & C3%rtc_calm)%texec_inv). cbn beta match in H4. simpl in C3.
  rewrite bool_decide_true in C3 by (by rewrite (cm_runtime _ _ C5), (cm_runtime _ _ C1)). apply calm_exec in H4 as [C4 Q4]; [|within_steps].
  split_and!; [done|by rewrite (cm_runtime _ _ C2), (cm_runtime _ _ C4), (cm_runtime _ _ C3)|].
  intros Hs. by apply C2, C4, C3, C5, C1.
Qed.

Lemma stop_worker_serves : serves (_stop_worker (T:=T)).
Proof.
  intros s t r s' H Hw. apply texec_try_inv in H as (r1 & s1 & t1 & t2 & -> & H1 & H2). apply stops_work_app in Hw as [W1 W2].
  pose proof (calm_exec _ _ _ _ _ calm_enter_stop H1) as [C1 _]. apply (served_app _ _ s1); [by eapply calm_serves; [apply calm_enter_stop| |]|].
  destruct r1 as [[[c uris]|]|e]; [|by eapply calm_serves; [|exact H2|]..].
  apply enter_stop_run in H1. rewrite <-(cm_runtime _ _ C1) in H1. subst c. destruct (la_runtime s1) as [c|] eqn:Hc; cbn [when_some] in H2.
  - apply texec_try_inv in H2 as (r3 & s3 & t3 & t4 & -> & H3 & H4). apply stops_work_app in W2 as [W3 W4].
    apply texec_try_inv in H3 as (r5 & s5 & t5 & t6 & -> & H5 & H6). apply stops_work_app in W3 as [W5 W6].
    pose proof (calm_exec _ _ _ _ _ (close_all_calm c uris) H5) as [C5 _]. rewrite <-app_assoc.
    apply (served_app _ _ s5); [by eapply calm_serves; [apply close_all_calm| |]|]. destruct r5 as [v|e].
    2: { apply texec_inv in H6 as (-> & -> & C6). simpl. apply (served_app _ [] s3); [by apply served_nil, rtc_calm|].
         by eapply calm_serves; [|exact H4|]. }
    apply texec_inv in H6 as (s7 & a & t7 & C7%rtc_calm & -> & (-> & -> & C3%rtc_calm)%texec_inv).
    destruct a as [[]|x]; [|exfalso; apply (W6 c x); by left]. assert (calm s5 s3) as C53 by (by etrans).
    apply end_stop_run in H4 as (Q4 & R4 & S4); [|by rewrite (cm_runtime _ _ C53), (cm_runtime _ _ C5)]. destruct (Q4 []) as [E4 F4]. split.
    + simpl. unfold live. rewrite (cm_runtime _ _ C5), Hc. simpl. rewrite filter_cons_False by auto. by rewrite filter_nil, E4, R4.
    + intros Hs. split; [by apply S4, C53|done].
  - apply texec_try_inv in H2 as (r3 & s3 & t3 & t4 & -> & (-> & -> & C3%rtc_calm)%texec_inv & H4). cbn beta match in H4.
    apply end_stop_run in H4 as (Q4 & R4 & S4); [|by rewrite (cm_runtime _ _ C3)]. destruct (Q4 (live s1)) as [E4 F4]. split.
    + simpl. rewrite E4. unfold live. by rewrite R4, Hc.
    + intros Hs. split; [by apply S4, C3|done].
Qed.

Lemma transition_ok phase s t r s' : texec keeps (_transition (T:=T) phase) s t r s' → r = Ok tt.
Proof.
  intros H. apply texec_try_inv in H as (r1 & s1 & t1 & t2 & -> & H1 & H2).
  apply texec_inv in H1 as (s3 & _ & _ & (-> & -> & _)%texec_inv). cbn beta match in H2. destruct (_ && _ : bool); simpl in H2.
  - by apply texec_inv in H2 as (_ & ? & _).
  - apply texec_inv in H2 as (s4 & a & t4 & _ & _ & H2). apply texec_inv in H2 as (s5 & _ & _ & (_ & ? & _)%texec_inv). done.
Qed.

(** The critical section of a restart *)
Lemma release_run s t r s' :
  texec keeps
    (locked (_ ← refuse_cooldown t_sub t_zero policy; r ← tatom anyhow (λ s, (set_runtime None s, la_runtime s)); _ ← _transition PH_STARTING; mret r))
    s t r s' →
  quiet_trace t ∧ (la_sealed s = true → la_sealed s' = true) ∧
  match r with Ok old => old = la_runtime s ∧ la_runtime s' = None | Err _ => la_runtime s' = la_runtime s end.
Proof.
  intros (s1 & s2 & C1 & H & C2)%locked_run. apply calm_prefix in H as (s3 & t3 & t4 & -> & C3 & Q3 & H); [|within_steps].
  destruct H as [(u & _ & H)|(e & -> & -> & C4)].
  2: { rewrite app_nil_r. assert (calm s s') as [? ? ? ?] by (do 3 (etrans; [eassumption|]); done). by split_and!. }
  apply texec_try_inv in H as (r5 & s5 & t5 & t6 & -> & H5 & H6).
  apply texec_inv in H5 as (s7 & C7%rtc_calm & _ & (-> & -> & C5%rtc_calm)%texec_inv). cbn beta match in H6. simpl in C5. change ([] ++ t6) with t6.
  apply texec_try_inv in H6 as (r8 & s8 & t8 & t9 & -> & H8 & H9). pose proof (transition_ok _ _ _ _ _ H8) as ->.
  apply calm_exec in H8 as [C8 Q8]; [|within_steps]. apply texec_inv in H9 as (-> & -> & C9%rtc_calm). rewrite app_nil_r. split_and!.
  - by apply quiet_app.
  - intros Hs. by apply C2, C9, C8, C5, C7, C3, C1.
  - by rewrite (cm_runtime _ _ C7), (cm_runtime _ _ C3), (cm_runtime _ _ C1).
  - by rewrite (cm_runtime _ _ C2), (cm_runtime _ _ C9), (cm_runtime _ _ C8), (cm_runtime _ _ C5).
Qed.

Lemma restart_serves : serves (_restart_worker t_add t_sub t_zero facts policy).
Proof.
  intros s t r s' H Hw. apply texec_try_inv in H as (r1 & s1 & t1 & t2 & -> & H1 & H2). apply stops_work_app in Hw as [W1 W2].
  apply release_run in H1 as (Q1 & S1 & O1). destruct (Q1 (live s)) as [E1 F1]. destruct r1 as [old|e].
  2: { apply (served_app _ _ s1); [|by eapply calm_serves; [|exact H2|]]. split; [rewrite E1; unfold live; by rewrite O1|auto]. }
  destruct O1 as [-> R1]. apply texec_try_inv in H2 as (r3 & s3 & t3 & t4 & -> & H3 & H4). apply stops_work_app in W2 as [W3 W4].
  destruct (stop_served _ _ _ _ _ H3 W3 R1) as (E3 & R3 & S3). rewrite app_assoc. apply (served_app _ _ s3).
  - split; [|intros Hs; rewrite existsb_app, F1; split; [by apply S3, S1|apply S3, S1, Hs]].
    rewrite servers_app, E1. simpl. unfold live. by rewrite E3, R3.
  - destruct r3 as [u|e]; [by eapply ensure_serves|by eapply calm_serves; [|exact H4|]].
Qed.

Section execute.
Context {A : Type} (operation : runtime → athread A) (operation_calm : ∀ c, calmly (operation c)).

Lemma execute_serves n : serves (execute_attempts t_add t_sub t_zero facts policy n operation).
Proof.
  induction n as [|n IH]; cbn [execute_attempts]; [by apply calm_serves|]. apply serves_bind; [apply ensure_serves|]. intros c.
  apply serves_try; [apply calm_serves; within_steps|]. intros [a|e]; [by apply calm_serves|]. destruct (transport_closed e); [|by apply calm_serves].
  apply serves_bind; [apply calm_serves; within_steps|]. intros token. apply serves_bind; [apply calm_serves; within_steps|]. intros _.
  destruct n; [by apply calm_serves|]. apply serves_bind; [apply restart_serves|done].
Qed.
End execute.

(** ** Jobs *)

(** The operation of a job leaves the servers alone. *)
Definition job_calm (j : job) : Prop := match j with JobOperation operation _ => ∀ c, calmly (operation c) | _ => True end.

Abbreviation run_thread := (job_thread t_add t_sub t_zero t_retry facts policy workspace_root as_uri).

Lemma admitted_serves {A} (p : athread A) : serves p → serves (_run_admitted_ordinary_worker (_ ← p; mret tt)).
Proof.
  intros Hp. apply serves_bind; [apply calm_serves; within_steps; by split|]. intros _. apply serves_bind; [done|]. intros a. by apply calm_serves.
Qed.
Lemma after_ensure_serves {A} (q : runtime → athread A) : (∀ c, calmly (q c)) → serves (c ← ensure; q c).
Proof. intros Hq. apply serves_bind; [apply ensure_serves|]. intros c. by apply calm_serves. Qed.

Lemma job_serves j : job_calm j → serves (run_thread j).
Proof.
  intros Hj. destruct j; cbn [job_thread].
  - apply admitted_serves, after_ensure_serves. intros c. within_steps.
  - apply serves_bind; [apply stop_worker_serves|]. intros _. apply calm_serves. within_steps.
  - by apply admitted_serves, execute_serves.
  - apply admitted_serves, after_ensure_serves. intros c. within_steps.
  - apply admitted_serves, after_ensure_serves. intros c. within_steps.
  - apply admitted_serves, after_ensure_serves. intros c. within_steps; by (repeat case_match; simplify_eq/=; split).
  - apply admitted_serves, after_ensure_serves. intros c. within_steps.
  - apply serves_bind; [|intros _; by apply calm_serves]. apply after_ensure_serves. intros c. unfold snapshot_of. within_steps.
  - apply serves_bind; [|intros _; by apply calm_serves]. apply after_ensure_serves. intros c. unfold snapshot_of. within_steps.
Qed.

(** C12: Whatever the provider, the servers, the clocks, the disk and the other
    threads of the adapter do, along any sequence of jobs of its worker: if
    stopping a server never raises, a server is started only when no other one
    runs, and at the end the servers that run are exactly the one the adapter
    knows; once the adapter is sealed by a stop no job starts a server. The other
    threads (the reader of the connection, snapshots, submissions, stops and
    waits) never touch the server, the token or the documents of a connection that
    is alive. *)
Theorem one_server_at_a_time jobs :
  (∀ p, outside_thread t_add t_sub t_zero facts policy readiness_timeout p → guar keeps p) ∧
  ∀ s t r s', Forall job_calm jobs → la_runtime s = None →
    texec keeps (worker t_add t_sub t_zero t_retry facts policy workspace_root as_uri jobs) s t r s' → stops_work t →
    servers t [] = Some (option_list (la_runtime s')) ∧ (la_sealed s = true → existsb is_start t = false).
Proof.
  split; [apply outside_keeps|]. intros s t r s' Hj Hn H Hw. rewrite Forall_forall in Hj.
  assert (serves (worker t_add t_sub t_zero t_retry facts policy workspace_root as_uri jobs)) as Hs.
  { apply serves_fold. intros u j Hin. apply serves_try; [by apply job_serves, Hj|]. intros r0. by apply calm_serves. }
  destruct (Hs _ _ _ _ H Hw) as [E F]. unfold live in E. rewrite Hn in E. split; [done|]. intros Hsealed. by apply F.
Qed.
End servers.
