(* ===== verification/AdapterSync.v ===== *)
(** * Documents of a server

    The notifications about documents that one connection carries, seen from the
    server ([connection]): a document is opened once, changed and closed only
    while it is open. The theorem: along any sequence of jobs, beside any other
    thread of the adapter, as long as the connection is alive and no notification
    failed, the server's open documents are the adapter's, and they are at most
    [MAX_OPEN_DOCUMENTS].

    Proofs are triples ([triple]) over the documents that are open on the server
    and what the adapter knows of them ([view]): an assertion has to hold only
    while the connection is alive, and then other threads do not disturb it. *)

From S2P Require Import Prelude Paths Positions Json Scope Envelopes LspState FileSystem Threads AdapterState Adapter AdapterProps.

(** The documents of a connection; [WLost]: a notification failed; [WWrong]: the
    protocol is broken *)
Inductive wire := WLost | WOpen (l : list pystr) | WWrong.

Definition text_step (n : notification) (l : list pystr) : wire :=
  match n with
  | NDidOpen uri _ _ _ => if bool_decide (uri ∈ l) then WWrong else WOpen (l ++ [uri])
  | NDidChange uri _ _ => if bool_decide (uri ∈ l) then WOpen l else WWrong
  | NDidClose uri => if bool_decide (uri ∈ l) then WOpen (filter (.≠ uri) l) else WWrong
  | _ => WOpen l
  end.

(** What the adapter knows of the documents of its connection *)
Record view := {
  v_token : Z;
  v_open : list pystr;
  v_documents : gmap pystr (DocumentSnapshot (P := purepath));
  v_marks : list (pystr * _UndrainedUnversionedClose) }.

Section triples.
Context {T : Type}.
Abbreviation athread := (thread (Adapter T) acall (aexn T) aanswer).
Abbreviation event := (tevent (C := acall (T:=T)) (R := aanswer)).
Implicit Types s : Adapter T.

(** The server that was started last, and its documents *)
Definition wire_step (m : option runtime * wire) (e : event) : option runtime * wire :=
  match e with
  | TEv c a =>
      match c return aanswer c → option runtime * wire with
      | AStart => λ a, match a with Ok r => (Some r, WOpen []) | Err _ => m end
      | ANotify r n => λ a,
          match m.2 with
          | WOpen l => (m.1, if bool_decide (m.1 = Some r) then match a with Ok _ => text_step n l | Err _ => WLost end else WWrong)
          | _ => m
          end
      | _ => λ _, m
      end a
  end.
Definition connection (t : list event) (m : option runtime * wire) : option runtime * wire := foldl wire_step m t.

Definition view_of s : view :=
  {| v_token := la_runtime_token s; v_open := open_documents s; v_documents := st_documents (la_lsp s); v_marks := undrained_closes s |}.

Lemma connection_app t1 t2 m : connection (t1 ++ t2) m = connection t2 (connection t1 m).
Proof. apply foldl_app. Qed.
Lemma connection_silent t m : Forall (λ e : event, match e with TEv c _ => silent c end) t → connection t m = m.
Proof.
  intros H. revert m. induction H as [|[c a] t Hc _ IH]; intros m; [done|]. simpl. rewrite IH. by destruct c.
Qed.
Lemma keeps_view s s' : keeps s s' → alive s' → view_of s' = view_of s.
Proof. intros [[_ Ht _ _] Hh] Ha. specialize (Hh Ha). unfold holdings in Hh. injection Hh as E1 E2 E3. unfold view_of. by rewrite Ht, E1, E2, E3. Qed.
Lemma rtc_keeps s s' : rtc keeps s s' → keeps s s'.
Proof. by apply (rtc_guar keeps keeps). Qed.

(** The server [c] is the adapter's, and while the connection is alive the
    assertion relates its documents to the adapter's view. *)
Abbreviation assertion := (list pystr → view → Prop).
Definition connected (c : runtime) (m : option runtime * wire) (Φ : assertion) (v : view) : Prop :=
  m.1 = Some c ∧ (m.2 = WLost ∨ ∃ l, m.2 = WOpen l ∧ Φ l v).
Definition holds (c : runtime) (Φ : assertion) s (m : option runtime * wire) : Prop :=
  la_runtime s = Some c ∧ (alive s → connected c m Φ (view_of s)).
Definition triple {A} (c : runtime) (Φ : assertion) (p : athread A) (Ψ : res (aexn T) A → assertion) : Prop :=
  ∀ s t r s' m, texec keeps p s t r s' → holds c Φ s m → holds c (Ψ r) s' (connection t m).

Section rules.
Context (c : runtime).
Implicit Types Φ : assertion.

Lemma holds_mono Φ (Ψ : assertion) s m : (∀ l v, Φ l v → Ψ l v) → holds c Φ s m → holds c Ψ s m.
Proof.
  intros HΦ [Hr H]. split; [done|]. intros Ha. destruct (H Ha) as [? [?|(l & ? & ?)]]; split; auto. right. exists l. auto.
Qed.
Lemma holds_keeps Φ s s' m : keeps s s' → holds c Φ s m → holds c Φ s' m.
Proof.
  intros Hk [Hr H]. split; [by rewrite (cm_runtime _ _ (kp_calm _ _ Hk))|]. intros Ha. rewrite (keeps_view _ _ Hk Ha).
  apply H. eapply calm_alive; [apply Hk|done].
Qed.

Lemma triple_mono {A} Φ Φ' (p : athread A) (Ψ Ψ' : res (aexn T) A → assertion) :
  (∀ l v, Φ' l v → Φ l v) → (∀ r l v, Ψ r l v → Ψ' r l v) → triple c Φ p Ψ → triple c Φ' p Ψ'.
Proof. intros HΦ HΨ Hp s t r s' m H Hh. eapply holds_mono; [apply HΨ|]. eapply Hp; [done|]. by eapply holds_mono. Qed.
Lemma triple_post {A} Φ (p : athread A) (Ψ Ψ' : res (aexn T) A → assertion) : triple c Φ p Ψ → (∀ r l v, Ψ r l v → Ψ' r l v) → triple c Φ p Ψ'.
Proof. intros Hp HΨ. by eapply triple_mono. Qed.
Lemma triple_pre {A} Φ Φ' (p : athread A) (Ψ : res (aexn T) A → assertion) : (∀ l v, Φ l v → Φ' l v) → triple c Φ' p Ψ → triple c Φ p Ψ.
Proof. intros HΦ Hp. by eapply triple_mono. Qed.
Lemma triple_ret {A} Φ (r : res (aexn T) A) (Ψ : res (aexn T) A → assertion) : (∀ l v, Φ l v → Ψ r l v) → triple c Φ (TRet r) Ψ.
Proof. intros HΨ s t r' s' m (-> & -> & Hs%rtc_keeps)%texec_inv Hh. eapply holds_mono; [apply HΨ|]. by eapply holds_keeps. Qed.
Lemma triple_try {A B} Φ (p : athread A) (h : res (aexn T) A → athread B) Ψ (X : res (aexn T) B → assertion) :
  triple c Φ p Ψ → (∀ r, triple c (Ψ r) (h r) X) → triple c Φ (ttry p h) X.
Proof.
  intros Hp Hh s t r s' m (r1 & s1 & t1 & t2 & -> & H1 & H2)%texec_try_inv H. rewrite connection_app. eapply Hh; [done|]. by eapply Hp.
Qed.
Lemma triple_bind {A B} Φ (p : athread A) (q : A → athread B) Ψ (X : res (aexn T) B → assertion) :
  triple c Φ p Ψ → (∀ a, triple c (Ψ (Ok a)) (q a) X) → (∀ e l v, Ψ (Err e) l v → X (Err e) l v) → triple c Φ (p ≫= q) X.
Proof. intros Hp Hq He. eapply triple_try; [done|]. intros [a|e]; [done|]. apply triple_ret, He. Qed.
Lemma triple_fold {A B} (Φ : list A → B → assertion) (X : res (aexn T) B → assertion) (p : B → A → athread B) acc l :
  (∀ acc x l, triple c (Φ (x :: l) acc) (p acc x) (λ r, match r with Ok acc => Φ l acc | Err e => X (Err e) end)) →
  (∀ acc l v, Φ [] acc l v → X (Ok acc) l v) → triple c (Φ l acc) (tfold p acc l) X.
Proof.
  intros Hp HX. revert acc. induction l as [|x l IH]; intros acc; simpl; [apply triple_ret, HX|].
  eapply triple_bind; [apply Hp|exact IH|done].
Qed.
Lemma triple_kept {A} Φ (p : athread A) : within keeps silent p → triple c Φ p (λ _, Φ).
Proof.
  intros Hp s t r s' m H Hh. rewrite connection_silent by (by eapply texec_within). eapply holds_keeps; [|done].
  eapply (texec_guar keeps); [|by eapply within_guar|exact H]. done.
Qed.
Lemma triple_after {A B} Φ (p : athread A) (q : A → athread B) (X : res (aexn T) B → assertion) :
  within keeps silent p → (∀ a, triple c Φ (q a) X) → (∀ e l v, Φ l v → X (Err e) l v) → triple c Φ (p ≫= q) X.
Proof. intros Hp Hq HX. eapply triple_bind; [by apply triple_kept|done..]. Qed.

(** Critical sections, and notifications to the server *)
Lemma triple_atom_res {B} Φ g (f : Adapter T → Adapter T * res (aexn T) B) (Ψ : res (aexn T) B → assertion) :
  (∀ s, calm s (f s).1) → (∀ s l, Φ l (view_of s) → Ψ (f s).2 l (view_of (f s).1)) → triple c Φ (tatom_res g f) Ψ.
Proof.
  intros Hf HΨ s t r s' m (s1 & Hs%rtc_keeps & _ & (-> & -> & Hs'%rtc_keeps)%texec_inv)%texec_inv Hh. eapply holds_keeps; [done|].
  pose proof (holds_keeps _ _ _ _ Hs Hh) as [Hr Hc]. specialize (Hf s1). split; [by rewrite (cm_runtime _ _ Hf)|]. intros Ha.
  destruct (Hc (calm_alive _ _ Hf Ha)) as [? [?|(l & ? & ?)]]; split; auto. right. exists l. auto.
Qed.
Lemma triple_atom {B} Φ g (f : Adapter T → Adapter T * B) (Ψ : res (aexn T) B → assertion) :
  (∀ s, calm s (f s).1) → (∀ s l, Φ l (view_of s) → Ψ (Ok (f s).2) l (view_of (f s).1)) → triple c Φ (tatom g f) Ψ.
Proof. apply (triple_atom_res Φ g (λ s, ((f s).1, Ok (f s).2))). Qed.
Lemma triple_read {B} Φ g (f : Adapter T → B) (h : view → B) :
  (∀ s, f s = h (view_of s)) → triple c Φ (tread g f) (λ r l v, Φ l v ∧ r = Ok (h v)).
Proof. intros Hf. apply (triple_atom Φ g (λ s, (s, f s))); simpl; [done|]. intros s l Hl. by rewrite Hf. Qed.
Lemma triple_notify Φ n (Ψ : res (aexn T) unit → assertion) :
  (∀ l v, Φ l v → ∃ l', text_step n l = WOpen l' ∧ Ψ (Ok tt) l' v) → triple c Φ (notify c n) Ψ.
Proof.
  intros HΨ s t r s' m (s1 & a & t1 & Hs%rtc_keeps & -> & (-> & -> & Hs'%rtc_keeps)%texec_inv)%texec_inv Hh.
  assert (keeps s s') as Hk by (by etrans). apply (holds_keeps _ _ _ _ Hk) in Hh as [Hr Hc]. split; [done|]. intros Ha.
  destruct (Hc Ha) as [Em [El|(l & El & Hl)]]; unfold connection, connected; simpl; rewrite El; [by split; [|left]|].
  split; [done|]. rewrite bool_decide_true by done. destruct a as [[]|e]; simpl; [|by left]. right. auto.
Qed.

(** A contradiction: the connection is lost, and stays lost. *)
Lemma connection_lost t m : Forall (λ e : event, match e with TEv a _ => no_process a end) t → m.2 = WLost → connection t m = m.
Proof.
  intros H Hm. induction H as [|[a x] t Ha _ IH]; [done|]. cbn [connection foldl].
  assert (wire_step m (TEv a x) = m) as ->; [|done]. destruct a; try done. simpl. by rewrite Hm.
Qed.
Lemma triple_absurd {A} Φ (p : athread A) (Ψ : res (aexn T) A → assertion) :
  within calm no_process p → (∀ l v, Φ l v → False) → triple c Φ p Ψ.
Proof.
  intros Hp HΦ s t r s' m H [Hr Hc]. destruct (calm_exec _ _ _ _ _ Hp H) as [C _]. split; [by rewrite (cm_runtime _ _ C)|]. intros Ha.
  destruct (Hc (calm_alive _ _ C Ha)) as [Em [El|(l & _ & Hl)]]; [|by destruct (HΦ _ _ Hl)].
  rewrite connection_lost; [by split; [|left]| |done]. by eapply texec_within.
Qed.
End rules.
End triples.

(** ** Documents *)

Definition is_ok {E A} (r : res E A) : Prop := match r with Ok _ => True | Err _ => False end.

Section tracked.
Context (versioned : bool).

Definition with_open o (v : view) : view := {| v_token := v_token v; v_open := o; v_documents := v_documents v; v_marks := v_marks v |}.
Definition with_marks l (v : view) : view := {| v_token := v_token v; v_open := v_open v; v_documents := v_documents v; v_marks := l |}.

(** A mark of the current connection *)
Definition marked (v : view) u mk : Prop := (u, mk) ∈ v_marks v ∧ uc_runtime_token mk = v_token v.

(** The server has the adapter's documents open and those of [p], which the
    adapter has let go of; the closes of [q] are marked as not delivered. *)
Record tracked (k : nat) (p q : list pystr) (l : list pystr) (v : view) : Prop := {
  tk_wire : l ≡ₚ v_open v ++ p;
  tk_nodup : NoDup (v_open v ++ p);
  tk_bound : (length (v_open v) ≤ k)%nat;
  tk_known : ∀ u, u ∈ v_open v → is_Some (v_documents v !! u);
  tk_keys : NoDup (v_marks v).*1;
  tk_marks : ∀ u mk, marked v u mk → u ∉ v_open v ∧ uc_close_delivered mk = bool_decide (u ∉ q);
  tk_versioned : versioned = true → v_marks v = [];
}.

Lemma filter_ne_perm (o : list pystr) u : NoDup o → u ∈ o → o ≡ₚ filter (.≠ u) o ++ [u].
Proof.
  intros Ho Hu. apply NoDup_Permutation; [done| |].
  - apply NoDup_app. split_and!; [by apply NoDup_filter| |apply NoDup_singleton]. intros x [Hx _]%list_elem_of_filter. by rewrite list_elem_of_singleton.
  - intros x. rewrite elem_of_app, list_elem_of_filter, list_elem_of_singleton. destruct (decide (x = u)) as [->|]; naive_solver.
Qed.
Lemma filter_ne_absent (o : list pystr) u : u ∉ o → filter (.≠ u) o = o.
Proof. induction o as [|x o IH]; [done|]. intros [? ?]%not_elem_of_cons. rewrite filter_cons_True by congruence. by rewrite IH. Qed.

Lemma tracked_empty k v : v_open v = [] → v_marks v = [] → tracked k [] [] [] v.
Proof.
  intros Ho Hm. split; rewrite ?Ho, ?Hm; simpl; try done; [constructor|lia|by intros u ?%not_elem_of_nil|constructor|].
  intros u mk [Hin _]. rewrite Hm in Hin. by apply not_elem_of_nil in Hin.
Qed.
Lemma tracked_let_go k l v : tracked k [] [] l v → tracked k (v_open v) [] l (with_open [] (with_marks [] v)).
Proof.
  intros [Hw Hn Hb Hk Hkeys Hm Hv]. rewrite app_nil_r in *. split; simpl; try done; [lia|by intros u ?%not_elem_of_nil|constructor|].
  intros u mk [Hin _]. by apply not_elem_of_nil in Hin.
Qed.
Lemma tracked_pop k q l v u : u ∈ v_open v → tracked k [] q l v → tracked k [u] q l (with_open (filter (.≠ u) (v_open v)) v).
Proof.
  intros Hu [Hw Hn Hb Hk Hkeys Hm Hv]. rewrite app_nil_r in *. pose proof (filter_ne_perm _ _ Hn Hu) as Hp. split; simpl; try done.
  - by rewrite <-Hp.
  - by rewrite <-Hp.
  - etrans; [apply length_filter|done].
  - intros x [_ Hx]%list_elem_of_filter. auto.
  - intros x mk Hx. destruct (Hm x mk Hx) as [? ?]. split; [|done]. by intros [_ ?]%list_elem_of_filter.
Qed.
Lemma tracked_oldest k l v u o : v_open v = u :: o → tracked (S k) [] [] l v → tracked k [u] [] l (with_open o v).
Proof.
  intros Ho [Hw Hn Hb Hk Hkeys Hm Hv]. rewrite Ho, app_nil_r in *. simpl in Hb. split; simpl; try done.
  - by rewrite Hw, <-Permutation_cons_append.
  - by rewrite <-Permutation_cons_append.
  - lia.
  - intros x Hx. apply Hk. by right.
  - intros x mk Hx. destruct (Hm x mk Hx) as [Hx1 ?]. split; [|done]. intros Hx2. apply Hx1. by right.
Qed.
(** A document that is opened *)
Lemma tracked_open k q l v u language version text :
  u ∉ v_open v → tracked k [] q l v → ∃ l', text_step (NDidOpen u language version text) l = WOpen l' ∧ tracked k [u] q l' v.
Proof.
  intros Hu [Hw Hn Hb Hk Hkeys Hm Hv]. rewrite app_nil_r in *. exists (l ++ [u]). simpl. rewrite bool_decide_false by (by rewrite Hw).
  split; [done|]. split; try done; [by rewrite Hw|]. apply NoDup_app. split_and!; [done| |apply NoDup_singleton].
  intros x Hx ->%list_elem_of_singleton. done.
Qed.
Lemma tracked_insert k l v u :
  is_Some (v_documents v !! u) → (∀ mk, ¬ marked v u mk) → tracked k [u] [] l v → tracked (S k) [] [] l (with_open (v_open v ++ [u]) v).
Proof.
  intros Hd Hs [Hw Hn Hb Hk Hkeys Hm Hv]. split; simpl; try done; rewrite ?app_nil_r; try done.
  - rewrite length_app. simpl. lia.
  - intros x [?| ->%list_elem_of_singleton]%elem_of_app; auto.
  - intros x mk Hx. destruct (Hm x mk Hx) as [? ?]. split; [|done]. rewrite elem_of_app, list_elem_of_singleton. intros [?| ->]; [done|].
    by apply (Hs mk).
Qed.
Lemma tracked_move k l v u : u ∈ v_open v → tracked k [] [] l v → tracked k [] [] l (with_open (filter (.≠ u) (v_open v) ++ [u]) v).
Proof.
  intros Hu [Hw Hn Hb Hk Hkeys Hm Hv]. rewrite app_nil_r in *. pose proof (filter_ne_perm _ _ Hn Hu) as Hp. split; simpl; try done.
  - by rewrite app_nil_r, <-Hp.
  - by rewrite app_nil_r, <-Hp.
  - by rewrite <-Hp.
  - intros x. rewrite <-Hp. auto.
  - intros x mk Hx. rewrite <-Hp. by apply Hm.
Qed.
Lemma tracked_mark k p q l v u :
  versioned = false → u ∉ v_open v → tracked k p q l v →
  tracked k p (u :: q) l (with_marks (dict_set (v_marks v) u {| uc_runtime_token := v_token v; uc_close_delivered := false |}) v).
Proof.
  intros Hvs Hu [Hw Hn Hb Hk Hkeys Hm Hv]. split; simpl; try done; [by apply dict_set_nodup| |congruence]. intros x mk [Hx Ht].
  apply dict_set_elem in Hx as [[-> ->]|[? Hx]]; [| |done].
  - split; [done|]. symmetry. apply bool_decide_eq_false. intros []. by left.
  - destruct (Hm x mk (conj Hx Ht)) as [? ->]. split; [done|]. apply bool_decide_ext. rewrite not_elem_of_cons. naive_solver.
Qed.
Lemma tracked_delivered k p q l v u :
  u ∉ q → u ∉ v_open v → versioned = false → tracked k p (u :: q) l v →
  tracked k p q l (with_marks (dict_set (v_marks v) u {| uc_runtime_token := v_token v; uc_close_delivered := true |}) v).
Proof.
  intros Huq Hu Hvs [Hw Hn Hb Hk Hkeys Hm Hv]. split; simpl; try done; [by apply dict_set_nodup| |congruence]. intros x mk [Hx Ht].
  apply dict_set_elem in Hx as [[-> ->]|[? Hx]]; [| |done].
  - split; [done|]. symmetry. by apply bool_decide_eq_true.
  - destruct (Hm x mk (conj Hx Ht)) as [? ->]. split; [done|]. apply bool_decide_ext. rewrite not_elem_of_cons. naive_solver.
Qed.
Lemma tracked_close k p q l v u :
  tracked k (u :: p) q l v → ∃ l', text_step (NDidClose u) l = WOpen l' ∧ tracked k p q l' v.
Proof.
  intros [Hw Hn Hb Hk Hkeys Hm Hv]. simpl. rewrite bool_decide_true by (rewrite Hw, elem_of_app; right; left). eexists. split; [done|].
  rewrite <-Permutation_middle in Hw, Hn. apply NoDup_cons in Hn as [Hu Hn]. split; try done.
  rewrite Hw, filter_cons_False by auto. by rewrite filter_ne_absent.
Qed.
Lemma tracked_unversioned k p q l v u mk : tracked k p q l v → dict_get (v_marks v) u = Some mk → versioned = false.
Proof. intros [_ _ _ _ _ _ Hv] Hu. destruct versioned; [|done]. by rewrite Hv in Hu. Qed.
Lemma tracked_perm k p p' q q' l v : p ≡ₚ p' → q ≡ₚ q' → tracked k p q l v → tracked k p' q' l v.
Proof.
  intros Hp Hq [Hw Hn Hb Hk Hkeys Hm Hv]. split; try done; [by rewrite <-Hp..|]. intros u mk H. destruct (Hm u mk H) as [? ->]. split; [done|].
  apply bool_decide_ext. by rewrite Hq.
Qed.
End tracked.

Lemma filter_keys_nodup {A} (P : pystr * A → Prop) `{!∀ x, Decision (P x)} (l : list (pystr * A)) : NoDup l.*1 → NoDup (filter P l).*1.
Proof. intros Hl. eapply sublist_NoDup; [exact Hl|]. apply fmap_sublist, sublist_filter. Qed.

(** Marks of a connection, as they are delivered: those of [F] are still as they
    were read, and every mark of the connection is for a document of [P]. *)
Definition not_delivered (F : list (pystr * _UndrainedUnversionedClose)) : list pystr := (filter (λ x, uc_close_delivered x.2 = false) F).*1.
Definition delivering versioned k (tok : Z) (P : pystr → Prop) (F : list (pystr * _UndrainedUnversionedClose)) (l : list pystr) (v : view) : Prop :=
  tracked versioned k (not_delivered F) (not_delivered F) l v ∧ v_token v = tok ∧ NoDup F.*1 ∧
  (∀ x, x ∈ F → dict_get (v_marks v) x.1 = Some x.2 ∧ uc_runtime_token x.2 = tok) ∧ (∀ u mk, marked v u mk → P u).

Section specs.
Context {T : Type} (facts : AdapterLanguageFacts) (c : runtime).
Abbreviation athread := (thread (Adapter T) acall (aexn T) aanswer).
Abbreviation versioned := (lf_diagnostic_publications_include_version facts).
Abbreviation tracked := (tracked versioned).
Abbreviation delivering := (delivering versioned).
Implicit Types s : Adapter T.

(** Close the critical sections that leave the documents alone. *)
Ltac harmless := repeat case_match; simplify_eq/=; (done || (split; [by split|done]) || by split).

Lemma kept_forget uri : within keeps silent (_forget_document_tracking (T:=T) uri).
Proof. unfold _forget_document_tracking. within_steps; harmless. Qed.
Lemma kept_request client q : within keeps silent (lsp_request (T:=T) client q).
Proof. by split. Qed.
Lemma not_delivered_elem F u : u ∈ not_delivered F ↔ ∃ mk, (u, mk) ∈ F ∧ uc_close_delivered mk = false.
Proof.
  unfold not_delivered. rewrite list_elem_of_fmap. setoid_rewrite list_elem_of_filter. split.
  - intros ([u' mk] & -> & ? & ?). by exists mk.
  - intros (mk & ? & ?). by exists (u, mk).
Qed.

Lemma view_mark u mk s : view_of (mark_close u mk s) = with_marks (dict_set (v_marks (view_of s)) u mk) (view_of s).
Proof. done. Qed.
Lemma view_pop u s : view_of (pop_open u s) = with_open (filter (.≠ u) (v_open (view_of s))) (view_of s).
Proof. done. Qed.

(** The delivery of one marked close *)
Lemma deliver_spec k tok P u mk F :
  uc_close_delivered mk = false →
  triple (T:=T) c (delivering k tok P ((u, mk) :: F)) (_deliver_recorded_unversioned_close c u (uc_runtime_token mk))
    (λ r l v, is_ok r ∧ delivering k tok P F l v).
Proof.
  intros Hd. assert (not_delivered ((u, mk) :: F) = u :: not_delivered F) as EF by (unfold not_delivered; by rewrite filter_cons_True).
  set (mid := λ l v, tracked k (not_delivered F) (u :: not_delivered F) l v ∧ v_token v = tok ∧ NoDup (u :: F.*1) ∧
    (∀ x, x ∈ (u, mk) :: F → dict_get (v_marks v) x.1 = Some x.2 ∧ uc_runtime_token x.2 = tok) ∧ (∀ u mk, marked v u mk → P u)).
  eapply (triple_bind _ _ _ _ (λ r l v, match r with Ok _ => mid l v | Err _ => False end)); [| |done].
  - apply triple_notify. intros l v (Ht & Hrest). rewrite EF in Ht. apply tracked_close in Ht as (l' & E & Ht). exists l'. by repeat split_and?.
  - intros _. apply triple_atom; [intros s; unfold close_delivered; harmless|]. intros s l (Ht & Etok & Hn & HF & HP). simpl in Etok.
    destruct (HF (u, mk)) as [Hu Hmk]; [by left|]. simpl in Hu, Hmk. unfold close_delivered.
    rewrite Hu, Hmk, <-Etok, !bool_decide_true by done. cbn [andb fst]. rewrite view_mark. apply NoDup_cons in Hn as [HuF HnF]. pose proof (tracked_unversioned _ _ _ _ _ _ _ _ Ht Hu) as Hvs.
    assert (marked (view_of s) u mk) as Hmd by (split; [by apply dict_get_Some_elem|by rewrite Hmk]).
    split; [done|]. split_and!; [|done|done| |].
    + apply tracked_delivered; [|by eapply tk_marks|done|done]. intros (mk' & Hin & _)%not_delivered_elem. apply HuF. by apply (list_elem_of_fmap_2 fst) in Hin.
    + intros x Hx. destruct (HF x) as [? ?]; [by right|]. simpl. rewrite dict_get_set_ne; [split; [done|congruence]|]. intros <-. apply HuF. by apply list_elem_of_fmap_2.
    + intros x mx [Hx Htx]. simpl in Hx, Htx. apply dict_set_elem in Hx as [[-> _]|[_ Hx]]; [by apply (HP u mk)|by apply (HP x mx)|apply Ht].
Qed.

(** The mark of a close *)
Lemma record_spec k u :
  versioned = false →
  triple (T:=T) c (tracked k [u] []) (_record_unversioned_close_before_delivery facts u)
    (λ r l v, is_ok r ∧ tracked k [u] [u] l v ∧ dict_get (v_marks v) u = Some {| uc_runtime_token := v_token v; uc_close_delivered := false |}).
Proof.
  intros Hvs. unfold _record_unversioned_close_before_delivery. rewrite Hvs. apply triple_atom; [by split|]. intros s l Ht. cbn [fst snd].
  rewrite view_mark. split; [done|]. split; [|apply dict_get_set_eq]. apply tracked_mark; [done| |done].
  pose proof (tk_nodup _ _ _ _ _ _ Ht) as (_ & Hn & _)%NoDup_app. intros Hu. apply (Hn u Hu). by left.
Qed.

(** The close of a document that the adapter has let go of *)
Lemma send_close_spec k u : triple (T:=T) c (tracked k [u] []) (_send_unversioned_didclose facts c u) (λ r l v, is_ok r ∧ tracked k [] [] l v).
Proof.
  eapply (triple_bind _ _ _ _ (λ r l v, is_ok r ∧ if versioned then tracked k [u] [] l v else
    tracked k [u] [u] l v ∧ dict_get (v_marks v) u = Some {| uc_runtime_token := v_token v; uc_close_delivered := false |})); [| |by intros ? ? ? []].
  - pose proof (record_spec k u) as Hrec. destruct versioned eqn:Hvs; [|by apply Hrec]. unfold _record_unversioned_close_before_delivery. rewrite Hvs. by apply triple_ret.
  - intros []. eapply triple_bind; [apply (triple_read _ _ _ _ (λ v, dict_get (v_marks v) u)); done| |by intros ? ? ? [_ ?]].
    intros [mk|].
    + destruct (uc_close_delivered mk) eqn:Hd.
      { apply triple_absurd; [eauto with within|]. intros l v [[_ Ht] [= Hu]]. destruct versioned eqn:Hvs; [|destruct Ht as [_ Hmk]; rewrite Hmk in Hu; by injection Hu as ->].
        pose proof (tracked_unversioned _ _ _ _ _ _ _ _ Ht (eq_sym Hu)). congruence. }
      eapply triple_mono; [| |exact (deliver_spec k (uc_runtime_token mk) (λ _, True) u mk [] Hd)]; [|by intros r l v (? & ? & _)].
      intros l v [[_ Ht] [= Hu]]. assert (versioned = false) as Hvs.
      { destruct versioned eqn:Hvs; [|done]. by eapply tracked_unversioned. }
      rewrite Hvs in Ht. destruct Ht as [Ht Hmk]. rewrite Hmk in Hu. injection Hu as ->. split_and!; [by rewrite Hvs|done|apply NoDup_singleton| |done].
      intros x ->%list_elem_of_singleton. done.
    + eapply triple_mono; [| |apply (triple_notify c (tracked k [u] []) (NDidClose u) (λ r l v, is_ok r ∧ tracked k [] [] l v))]; [|done|].
      * intros l v [[_ Ht] [= Hu]]. destruct versioned; [done|]. destruct Ht. congruence.
      * intros l v (l' & ? & ?)%tracked_close. by exists l'.
Qed.

(** The marks that are left after a barrier *)
Lemma cleared_marks tok (cur l : list (pystr * _UndrainedUnversionedClose)) :
  NoDup l.*1 →
  let l' := foldl (λ l item, match dict_get l item.1 with
                             | Some m => if bool_decide (uc_runtime_token m = tok) then dict_del l item.1 else l
                             | None => l
                             end) l cur in
  NoDup l'.*1 ∧ ∀ u mk, (u, mk) ∈ l' → (u, mk) ∈ l ∧ (uc_runtime_token mk = tok → u ∉ cur.*1).
Proof.
  revert l. induction cur as [|x cur IH]; intros l Hl; simpl; [split; [done|]; intros; split; [done|]; intros _; apply not_elem_of_nil|].
  set (l1 := match dict_get l x.1 with Some _ => _ | None => _ end). assert (NoDup l1.*1 ∧ ∀ u mk, (u, mk) ∈ l1 → (u, mk) ∈ l ∧ (uc_runtime_token mk = tok → u ≠ x.1)) as [H1 H2].
  { subst l1. destruct (dict_get l x.1) as [m|] eqn:Hx; [case_bool_decide as Hm|].
    - split; [by apply dict_del_nodup|]. intros u mk [? ?]%dict_del_elem. done.
    - split; [done|]. intros u mk Hin. split; [done|]. intros Ht ->. apply dict_get_elem in Hin; [|done]. congruence.
    - split; [done|]. intros u mk Hin. split; [done|]. intros _ ->. apply dict_get_elem in Hin; [|done]. congruence. }
  destruct (IH l1 H1) as [H3 H4]. split; [done|]. intros u mk Hin. destruct (H4 u mk Hin) as [Hin1 Hc]. destruct (H2 u mk Hin1) as [? Hu].
  split; [done|]. intros Ht. rewrite not_elem_of_cons. auto.
Qed.

(** What a drain finds *)
Lemma drain_begins k q l v :
  tracked k q q l v → (∀ u, u ∈ q → ∃ mk, marked v u mk) →
  let cur := filter (λ item, uc_runtime_token item.2 = v_token v) (v_marks v) in delivering k (v_token v) (.∈ cur.*1) cur l v.
Proof.
  intros Ht Hq cur. assert (∀ u mk, (u, mk) ∈ cur ↔ marked v u mk) as Hcur.
  { intros u mk. subst cur. rewrite list_elem_of_filter. simpl. unfold marked. tauto. }
  assert (NoDup cur.*1) as Hn by apply filter_keys_nodup, Ht.
  assert (q ≡ₚ not_delivered cur) as Hp.
  { pose proof (tk_nodup _ _ _ _ _ _ Ht) as (_ & _ & Hnq)%NoDup_app. apply NoDup_Permutation; [done| |].
    - by apply filter_keys_nodup.
    - intros u. rewrite not_delivered_elem. split.
      + intros Hu. destruct (Hq u Hu) as [mk Hmk]. exists mk. split; [by apply Hcur|]. destruct (tk_marks _ _ _ _ _ _ Ht u mk Hmk) as [_ ->].
        by apply bool_decide_eq_false; intros [].
      + intros (mk & Hmk%Hcur & Hd). destruct (tk_marks _ _ _ _ _ _ Ht u mk Hmk) as [_ E]. rewrite E in Hd. apply bool_decide_eq_false in Hd.
        by destruct (decide (u ∈ q)). }
  split_and!; [by eapply tracked_perm|done|done| |].
  - intros [u mk] [Hin Htk]%Hcur. split; [|done]. apply dict_get_elem; [apply Ht|done].
  - intros u mk H%Hcur. by apply (list_elem_of_fmap_2 fst) in H.
Qed.

(** No close of the connection waits for a barrier. *)
Definition settled (v : view) : Prop := ∀ u mk, ¬ marked v u mk.

Lemma disown_spec k tok P cur rest :
  triple (T:=T) c (λ l v, delivering k tok P cur l v ∧ rest ⊆ cur) (tfold (disown_marked (T:=T)) tt rest)
    (λ r l v, is_ok r ∧ delivering k tok P cur l v).
Proof.
  apply (triple_fold c (λ rest _ l v, delivering k tok P cur l v ∧ rest ⊆ cur)); [|by intros [] l v [? _]]. intros [] x more.
  eapply triple_bind; [apply (triple_read _ _ _ _ (λ v, bool_decide (x.1 ∈ v_open v))); done| |by intros ? ? ? [_ ?]]. intros [].
  - apply triple_absurd; [unfold _forget_document_tracking; within_steps; harmless|]. intros l v [[(Ht & <- & _ & HF & _) Hs] [= Hx%eq_sym%bool_decide_eq_true]].
    destruct x as [u mk]. destruct (HF (u, mk)) as [Hg Hk]; [by apply Hs; left|]. simpl in *.
    destruct (tk_marks _ _ _ _ _ _ Ht u mk) as [? _]; [|done]. split; [by apply dict_get_Some_elem|done].
  - apply triple_ret. intros l v [[? Hs] _]. split; [done|]. intros y Hy. apply Hs. by right.
Qed.
Lemma deliver_all_spec k tok P cur :
  triple (T:=T) c (delivering k tok P cur) (tfold (deliver_marked c) tt cur) (λ r l v, is_ok r ∧ delivering k tok P [] l v).
Proof.
  apply (triple_fold c (λ rest _, delivering k tok P rest)); [|done]. intros [] [u mk] rest. unfold deliver_marked. cbn [fst snd].
  destruct (uc_close_delivered mk) eqn:Hd.
  - apply triple_ret. intros l v (Ht & Htok & Hn & HF & HP). assert (not_delivered ((u, mk) :: rest) = not_delivered rest) as E
      by (unfold not_delivered; rewrite filter_cons_False; [done|simpl; congruence]).
    rewrite E in Ht. apply NoDup_cons in Hn as [_ Hn]. split_and!; try done. intros x Hx. apply HF. by right.
  - eapply triple_post; [by apply deliver_spec|]. intros [[]|e] l v [[] ?]; done.
Qed.

(** A drain that ends delivers every close that is due; after one that returns none is left. *)
Lemma drain_spec k q :
  triple (T:=T) c (λ l v, tracked k q q l v ∧ ∀ u, u ∈ q → ∃ mk, marked v u mk) (_drain_recorded_unversioned_closes facts c)
    (λ r l v, tracked k [] [] l v ∧ (is_ok r → settled v)).
Proof.
  unfold _drain_recorded_unversioned_closes. destruct versioned eqn:Hvs.
  { apply triple_ret. intros l v [Ht Hq]. pose proof (tk_versioned _ _ _ _ _ _ Ht eq_refl) as Hm. assert (settled v) as Hs.
    { intros u mk [Hin _]. rewrite Hm in Hin. by apply not_elem_of_nil in Hin. }
    split; [|done]. destruct q as [|u q]; [done|]. destruct (Hq u) as [mk Hmk]; [by left|]. by destruct (Hs u mk). }
  eapply triple_bind; [apply (triple_read _ _ _ _ (λ v, (v_marks v, v_token v))); done| |by intros ? ? ? [_ ?]]. intros [M tok]. cbn [fst snd].
  set (cur := filter _ M). rewrite <-Hvs. destruct (nonempty cur) eqn:Hne; cbn [negb].
  2: { apply triple_ret. intros l v [[Ht Hq] [= -> ->]]. assert (cur = []) as Hc by (by destruct cur).
       destruct (drain_begins k q l v Ht Hq) as (Ht' & _ & _ & _ & Hs). fold cur in Ht', Hs. rewrite Hc in Ht', Hs. split; [done|]. intros _ u mk Hm.
       apply Hs in Hm. by apply not_elem_of_nil in Hm. }
  apply (triple_pre c _ (λ l v, delivering k tok (.∈ cur.*1) cur l v ∧ cur ⊆ cur)).
  { intros l v [[Ht Hq] [= -> ->]]. split; [by apply (drain_begins k q)|done]. }
  eapply triple_bind; [apply disown_spec|intros []|by intros ? ? ? [[] _]].
  eapply triple_bind; [eapply triple_pre; [|apply deliver_all_spec]; intros l v [_ H]; exact H|intros []|by intros ? ? ? [[] _]].
  eapply triple_bind; [apply triple_kept, kept_request|intros ?|].
  2: { intros e l v (_ & Ht & _). by split. }
  apply triple_atom; [by split|]. intros s l (_ & Ht & Htok & _ & _ & HP). cbn [fst snd].
  destruct (cleared_marks tok cur (v_marks (view_of s)) (tk_keys _ _ _ _ _ _ Ht)) as [Hk Hin].
  change (view_of (clear_drained tok cur s)) with (with_marks (foldl (λ l item, match dict_get l item.1 with
                             | Some m => if bool_decide (uc_runtime_token m = tok) then dict_del l item.1 else l
                             | None => l
                             end) (v_marks (view_of s)) cur) (view_of s)).
  set (M' := foldl _ _ _) in *. split.
  - destruct Ht as [Hw Hn Hb Hkn Hkeys Hm Hv]. split; try done; [|congruence]. intros u mk [Hu Hmk]. apply Hm. split; [|done]. by apply Hin.
  - intros _ u mk [Hu Hmk]. destruct (Hin u mk Hu) as [Hu' Hc]. apply Hc; [by rewrite <-Htok|]. by apply (HP u mk).
Qed.

Abbreviation synced := (tracked MAX_OPEN_DOCUMENTS [] []).

Lemma read_open_spec Φ u g : triple (T:=T) c Φ (tread g (is_open u)) (λ r l v, Φ l v ∧ r = Ok (bool_decide (u ∈ v_open v))).
Proof. by apply triple_read. Qed.
Lemma forget_spec Φ u : triple (T:=T) c Φ (_forget_document_tracking u) (λ r l v, is_ok r ∧ Φ l v).
Proof. apply triple_atom; [by split|]. by intros s l Hl. Qed.
Lemma drain_synced : triple (T:=T) c synced (_drain_recorded_unversioned_closes facts c) (λ r l v, synced l v ∧ (is_ok r → settled v)).
Proof. eapply triple_pre; [|apply (drain_spec _ [])]. intros l v Ht. split; [done|]. by intros u ?%not_elem_of_nil. Qed.

Lemma drain_change_spec u :
  triple (T:=T) c synced (_drain_unversioned_diagnostics_before_change facts c u) (λ r l v, synced l v ∧ (is_ok r → settled v)).
Proof.
  unfold _drain_unversioned_diagnostics_before_change. destruct versioned eqn:Hvs.
  { apply triple_ret. intros l v Ht. split; [done|]. intros _ x mk [Hx _]. rewrite (tk_versioned _ _ _ _ _ _ Ht) in Hx by done. by apply not_elem_of_nil in Hx. }
  rewrite <-Hvs. eapply triple_bind; [apply read_open_spec| |by intros ? ? ? [_ ?]]. intros [].
  - eapply (triple_bind _ _ _ _ (λ r l v, is_ok r ∧ tracked MAX_OPEN_DOCUMENTS [u] [u] l v ∧ ∃ mk, marked v u mk)); [| |by intros ? ? ? [[] _]].
    + eapply (triple_bind _ _ _ _ (λ r l v, is_ok r ∧ tracked MAX_OPEN_DOCUMENTS [u] [] l v)); [| |by intros ? ? ? [[] _]].
      { apply triple_atom; [by split|]. intros s l [Ht [= Hu%eq_sym%bool_decide_eq_true]]. cbn [fst snd]. rewrite view_pop. split; [done|]. by apply tracked_pop. }
      intros []. eapply triple_bind; [apply forget_spec|intros []|by intros ? ? ? [[] _]].
      eapply triple_mono; [| |by apply record_spec]; [by intros l v (_ & _ & ?)|]. intros r l v (? & ? & Hu). split_and!; [done..|].
      eexists. split; [by apply dict_get_Some_elem|done].
    + intros []. eapply triple_pre; [|apply (drain_spec _ [u])]. intros l v (_ & Ht & mk & Hmk). split; [done|].
      intros x ->%list_elem_of_singleton. by exists mk.
  - eapply triple_bind; [by apply (triple_ret c _ (Ok tt) (λ r l v, is_ok r ∧ synced l v)); intros l v [? _]|intros []|by intros ? ? ? [[] _]].
    eapply triple_pre; [|apply drain_synced]. by intros l v [_ ?].
Qed.

(** Evictions leave at most [MAX_OPEN_DOCUMENTS] open. *)
Lemma evict_spec fuel : triple (T:=T) c (tracked (MAX_OPEN_DOCUMENTS + fuel) [] []) (evict facts fuel c) (λ r l v, is_ok r ∧ synced l v).
Proof.
  induction fuel as [|fuel IH]; cbn [evict]; [by rewrite Nat.add_0_r; apply triple_ret|].
  eapply triple_bind; [apply (triple_read _ _ _ _ (λ v, (MAX_OPEN_DOCUMENTS <? length (v_open v))%nat)); done| |by intros ? ? ? [_ ?]]. intros [].
  - eapply (triple_bind _ _ _ _ (λ r l v, match r with Ok u => tracked (MAX_OPEN_DOCUMENTS + fuel) [u] [] l v | Err _ => False end)); [| |done].
    + apply triple_atom_res; [intros s; by case_match|]. intros s l [Ht [= Hlen%eq_sym%Nat.ltb_lt]]. simpl in Hlen. destruct (open_documents s) as [|u o] eqn:Ho; [simpl in Hlen; lia|].
      cbn [fst snd]. rewrite Nat.add_succ_r in Ht. exact (tracked_oldest _ _ _ (view_of s) _ _ Ho Ht).
    + intros u. eapply triple_bind; [apply forget_spec|intros []|by intros ? ? ? [[] _]].
      eapply triple_bind; [eapply triple_pre; [|apply send_close_spec]; by intros l v [_ ?]|intros []|by intros ? ? ? [[] _]].
      eapply triple_pre; [|apply IH]. by intros l v [_ ?].
  - apply triple_ret. intros l v [[Hw Hn Hb Hk Hkeys Hm Hv] [= Hlen%eq_sym%Nat.ltb_ge]]. by split.
Qed.

Lemma on_text_spec Φ u text : triple (T:=T) c Φ (_on_document_text u text) (λ r l v, is_ok r ∧ Φ l v).
Proof. apply triple_atom; [by split|]. by intros s l Hl. Qed.
Lemma move_spec u : triple (T:=T) c (λ l v, synced l v ∧ u ∈ v_open v) (move_to_end u) (λ _, synced).
Proof.
  apply triple_atom_res; [intros s; by case_match|]. intros s l [Ht Hu]. unfold is_open. rewrite bool_decide_true by done. cbn [fst snd].
  by apply (tracked_move versioned _ _ (view_of s)).
Qed.

(** A document is changed if it is open, and opened otherwise. *)
Lemma send_spec u language version text :
  triple (T:=T) c (λ l v, synced l v ∧ settled v ∧ is_Some (v_documents v !! u)) (_send_document_open_or_change facts c u language version text)
    (λ _, synced).
Proof.
  eapply triple_bind; [apply read_open_spec| |by intros ? ? ? [_ ?]]. intros [].
  - eapply (triple_bind _ _ _ _ (λ r l v, is_ok r ∧ synced l v ∧ u ∈ v_open v)); [| |by intros ? ? ? [[] _]].
    + apply triple_notify. intros l v ((Ht & _ & _) & [= Hu%eq_sym%bool_decide_eq_true]). exists l. simpl.
      rewrite bool_decide_true; [done|]. rewrite (tk_wire _ _ _ _ _ _ Ht), app_nil_r. done.
    + intros []. eapply triple_bind; [apply on_text_spec|intros []|by intros ? ? ? [[] _]]. eapply triple_pre; [|apply move_spec].
      by intros l v (_ & _ & ?).
  - eapply (triple_bind _ _ _ _ (λ r l v, is_ok r ∧ tracked MAX_OPEN_DOCUMENTS [u] [] l v ∧ settled v ∧ is_Some (v_documents v !! u)));
      [| |by intros ? ? ? [[] _]].
    + apply triple_notify. intros l v ((Ht & Hs & Hd) & [= Hu%eq_sym%bool_decide_eq_false]).
      destruct (tracked_open _ _ _ _ _ _ language version text Hu Ht) as (l' & E & Ht'). by exists l'.
    + intros []. eapply triple_bind; [apply on_text_spec|intros []|by intros ? ? ? [[] _]].
      eapply (triple_bind _ _ _ _ (λ r l v, is_ok r ∧ tracked (MAX_OPEN_DOCUMENTS + 1) [] [] l v)); [| |by intros ? ? ? [[] _]].
      * apply triple_atom; [intros s; unfold insert_open; by case_match|]. intros s l (_ & _ & Ht & Hs & Hd). cbn [fst snd]. split; [done|].
        pose proof (tk_nodup _ _ _ _ _ _ Ht) as (_ & Hn & _)%NoDup_app. unfold insert_open, is_open. rewrite bool_decide_false.
        2: { intros Hu. apply (Hn u Hu). by left. }
        rewrite Nat.add_1_r. apply (tracked_insert versioned _ _ (view_of s)); [done|apply Hs|done].
      * intros []. eapply triple_bind; [apply (triple_read _ _ _ _ (λ v, length (v_open v))); done|intros n|by intros ? ? ? [_ ?]].
        eapply triple_mono; [| |apply evict_spec]; [|by intros r l v [_ ?]]. intros l v [[_ [Hw Hn Hb Hk Hkeys Hm Hv]] _]. split; try done. lia.
Qed.

Lemma update_document_triple u path version :
  triple (T:=T) c (λ l v, synced l v ∧ settled v)
    (tatom anyhow (λ s, let '(l, d) := update_document u path version (la_lsp s) in (set_lsp l s, d)))
    (λ r l v, match r with Ok (Some _) => synced l v ∧ settled v ∧ is_Some (v_documents v !! u) | _ => synced l v end).
Proof.
  apply triple_atom; [intros s; by destruct (update_document _ _ _ _)|]. intros s l [Ht Hs]. unfold update_document.
  set (old := match _ with Some _ => _ | None => false end). destruct old; cbn [fst snd]; [exact Ht|].
  split_and!; [|exact Hs|simpl; rewrite lookup_insert_eq; by eexists]. destruct Ht as [Hw Hn Hb Hk Hkeys Hm Hv]. split; try done. intros x Hx. simpl.
  destruct (decide (x = u)) as [->|]; [rewrite lookup_insert_eq; by eexists|rewrite lookup_insert_ne by done; by apply Hk].
Qed.

Context (workspace_root : purepath).
Lemma open_spec path u version text retain :
  triple (T:=T) c synced (_open_document_with_client facts workspace_root c path u version text retain) (λ _, synced).
Proof.
  apply triple_after; [by within_steps|intros normalized|done]. apply triple_after; [by within_steps|intros trusted|done].
  destruct trusted; [|by apply triple_ret]. apply triple_after; [by within_steps|intros stale|done]. destruct stale; [by apply triple_ret|].
  eapply triple_bind; [apply drain_change_spec|intros []|by intros ? ? ? [? _]].
  eapply triple_bind; [eapply triple_pre; [|apply update_document_triple]; intros l v [? Hs]; split; [done|by apply Hs]|intros d|done].
  destruct d as [d|]; [|by apply triple_ret]. cbn [or_value].
  apply (triple_after c _ (mret d)); [done|intros document|by intros ? ? ? [? _]].
  apply triple_after; [within_steps; harmless|intros _|by intros ? ? ? [? _]]. apply triple_after; [by within_steps|intros generation|by intros ? ? ? [? _]].
  apply triple_after; [within_steps; harmless|intros _|by intros ? ? ? [? _]].
  eapply (triple_bind _ _ _ _ (λ _, synced)); [|intros []; by apply triple_ret|done].
  eapply (triple_try _ _ _ _ (λ _, synced)).
  - apply triple_after; [by within_steps|intros language|by intros ? ? ? [? _]]. apply send_spec.
  - intros [[]|e]; [by apply triple_ret|]. apply triple_after; [within_steps; harmless|intros _; by apply triple_ret|done].
Qed.

Lemma close_document_spec u : triple (T:=T) c synced (_close_document_worker facts c u) (λ _, synced).
Proof.
  eapply triple_bind; [apply read_open_spec|intros was_open|by intros ? ? ? [_ ?]].
  eapply (triple_bind _ _ _ _ (λ r l v, is_ok r ∧ tracked MAX_OPEN_DOCUMENTS (if was_open then [u] else []) [] l v)); [| |by intros ? ? ? [[] _]].
  - apply triple_atom; [by split|]. intros s l [Ht [= ->]]. cbn [fst snd]. rewrite view_pop. split; [done|].
    case_bool_decide as Hu; [by apply tracked_pop|]. rewrite filter_ne_absent by done. exact Ht.
  - intros []. eapply triple_bind; [apply forget_spec|intros []|by intros ? ? ? [[] _]]. destruct was_open.
    + eapply triple_mono; [| |apply send_close_spec]; [by intros l v (_ & _ & ?)|by intros r l v [_ ?]].
    + apply triple_ret. by intros l v (_ & _ & ?).
Qed.

Lemma or_close_spec {A} u caught (p : athread A) next :
  triple c synced p (λ _, synced) → (∀ a, triple c synced (next a) (λ _, synced)) → triple c synced (or_close facts c u caught p next) (λ _, synced).
Proof.
  intros Hp Hn. eapply triple_try; [exact Hp|]. intros [a|e]; [apply Hn|]. cbn beta match. destruct (caught e); [apply close_document_spec|by apply triple_ret].
Qed.
Lemma kept_read_text path : within keeps silent (read_text (T:=T) path).
Proof. unfold read_text. within_steps. Qed.
Lemma reconcile_open_spec changed deleted versions u :
  triple (T:=T) c synced (reconcile_open facts workspace_root c changed deleted versions tt u) (λ _, synced).
Proof.
  eapply triple_bind; [apply (triple_read _ _ _ _ (λ v, v_documents v !! u)); done| |by intros ? ? ? [_ ?]]. intros [d|].
  - eapply (triple_pre c _ synced); [by intros l v [? _]|]. destruct (relative_to _ _); [|apply close_document_spec]. cbv zeta.
    case_bool_decide; [apply close_document_spec|]. case_bool_decide; [by apply triple_ret|]. apply or_close_spec.
    + apply triple_kept. apply within_tbind; [apply kept_read_text|]. intros text. by case_match.
    + intros [text version]. apply or_close_spec; [apply open_spec|intros ?; by apply triple_ret].
  - apply triple_atom; [by split|]. intros s l [Ht [= Hd]]. cbn [fst snd]. rewrite view_pop, filter_ne_absent; [exact Ht|]. intros Hu.
    apply (tk_known _ _ _ _ _ _ Ht) in Hu. simpl in Hu; rewrite <-Hd in Hu. by destruct Hu.
Qed.

Context (as_uri : purepath → pystr).
Lemma reconcile_created_spec path : triple (T:=T) c synced (reconcile_created facts workspace_root as_uri c tt path) (λ _, synced).
Proof.
  unfold reconcile_created. cbv zeta. set (u := as_uri _). eapply triple_bind; [apply read_open_spec| |by intros ? ? ? [_ ?]].
  intros []; [by apply triple_ret; intros l v [? _]|]. apply triple_after; [by within_steps|intros language|by intros ? ? ? [? _]].
  eapply triple_try; [apply triple_kept, kept_read_text|]. intros [text|e]; [|by destruct e; apply triple_ret; intros l v [? _]].
  eapply (triple_bind _ _ _ _ (λ r l v, is_ok r ∧ tracked MAX_OPEN_DOCUMENTS [u] [] l v)); [| |by intros ? ? ? [[] _]].
  - apply triple_notify. intros l v [Ht [= Hu%eq_sym%bool_decide_eq_false]].
    destruct (tracked_open _ _ _ _ _ _ language 1 text Hu Ht) as (l' & E & Ht'). by exists l'.
  - intros []. eapply triple_bind; [eapply triple_pre; [|apply send_close_spec]; by intros l v [_ ?]|intros []|by intros ? ? ? [[] _]].
    apply triple_after; [by within_steps|intros full|by intros ? ? ? [_ ?]]. destruct full.
    + eapply triple_mono; [| |apply drain_synced]; [by intros l v [_ ?]|by intros r l v [? _]].
    + apply triple_ret. by intros l v [_ ?].
Qed.

Lemma reconcile_spec events created versions :
  triple (T:=T) c synced
    (_ ← _drain_recorded_unversioned_closes facts c;
     _ ← notify c (NDidChangeWatchedFiles (as_lsp_change (as_uri workspace_root) <$> events));
     uris ← tread anyhow open_documents;
     _ ← tfold (reconcile_open facts workspace_root c (paths_of CHANGED events) (paths_of DELETED events) versions) tt uris;
     tfold (reconcile_created facts workspace_root as_uri c) tt created) (λ _, synced).
Proof.
  eapply triple_bind; [apply drain_synced|intros []|by intros ? ? ? [? _]].
  eapply (triple_bind _ _ _ _ (λ _, synced)); [apply triple_notify; intros l v [? _]; by exists l|intros []|done].
  apply triple_after; [by within_steps|intros uris|done].
  eapply (triple_bind _ _ _ _ (λ _, synced)); [|intros []|done].
  - apply (triple_fold c (λ _ _, synced)); [|done]. intros [] u rest. eapply triple_post; [apply reconcile_open_spec|]. by intros [] ? ? ?.
  - apply (triple_fold c (λ _ _, synced)); [|done]. intros [] u rest. eapply triple_post; [apply reconcile_created_spec|]. by intros [] ? ? ?.
Qed.

(** ** Operations of the workspace *)

Context (t_retry : T).

Lemma kept_probe client target : within keeps silent (_probe_document_with_client (T:=T) t_retry client target).
Proof. unfold _probe_document_with_client, probe_observe. within_steps. Qed.
Lemma open_snapshot_spec path relative u version text :
  triple (T:=T) c synced (open_snapshot_document_with_client facts workspace_root c path relative u version text) (λ _, synced).
Proof.
  do 2 (apply triple_after; [by within_steps|intros ?|done]). case_bool_decide; cbn [negb]; [apply open_spec|by apply triple_ret].
Qed.
Lemma document_spec path relative u version :
  triple (T:=T) c synced
    (snap ← snapshot_of path;
     target ← _open_document_with_client facts workspace_root c relative u version (text snap) false;
     observed ← _probe_document_with_client t_retry c target;
     mret (snap, observed)) (λ _, synced).
Proof.
  apply triple_after; [unfold snapshot_of; by within_steps|intros snap|done]. eapply triple_bind; [apply open_spec|intros target|done].
  apply triple_after; [apply kept_probe|intros ?; by apply triple_ret|done].
Qed.
Lemma diagnostics_spec path relative u version :
  triple (T:=T) c synced
    (owner_token ← tread anyhow la_runtime_token;
     snap ← snapshot_of path;
     _ ← _drain_recorded_unversioned_closes facts c;
     current ← tread anyhow (λ s, document u (la_lsp s));
     cached ← tread anyhow (λ s, dict_get (dc_diagnostic_snapshots (la_documents s)) u);
     open ← tread anyhow (is_open u);
     target ← match reusable path (text snap) owner_token current cached open with
              | Some (d, v) =>
                  _ ← move_to_end u;
                  path_generation ← tread anyhow (λ s, default 0 (gs_path_scoped (tracker_snapshot (la_scope s)) !! relative));
                  let target := {| tg_uri := u; tg_relative_path := relative; tg_absolute_path := path; tg_version := v;
                                   tg_document_generation := doc_generation d; tg_path_generation := path_generation |} in
                  _ ← _retain_diagnostics_target target;
                  mret target
              | None => _open_document_with_client facts workspace_root c relative u version (text snap) true
              end;
     observed ← _probe_document_with_client t_retry c target;
     mret (snap, observed)) (λ _, synced).
Proof.
  apply triple_after; [by within_steps|intros token|done]. apply triple_after; [unfold snapshot_of; by within_steps|intros snap|done].
  eapply triple_bind; [apply drain_synced|intros []|by intros ? ? ? [? _]].
  apply triple_after; [by within_steps|intros current|by intros ? ? ? [? _]]. apply triple_after; [by within_steps|intros cached|by intros ? ? ? [? _]].
  eapply triple_bind; [apply read_open_spec|intros open|by intros ? ? ? [[? _] _]].
  eapply (triple_bind _ _ _ _ (λ _, synced)); [|intros target; apply triple_after; [apply kept_probe|intros ?; by apply triple_ret|done]|done].
  destruct (reusable _ _ _ _ _ _) as [[d v]|] eqn:Hd; [|eapply triple_pre; [|apply open_spec]; by intros l w [[? _] _]].
  assert (open = true) as ->.
  { unfold reusable in Hd. destruct current as [d0|]; [|done]. simpl in Hd. destruct (doc_version d0); [|done]. simpl in Hd. destruct open; [done|].
    by rewrite andb_false_r in Hd. }
  eapply triple_bind; [eapply triple_pre; [|apply move_spec]|intros []|done].
  { intros l w [[? _] [= Hu%eq_sym%bool_decide_eq_true]]. done. }
  apply triple_after; [by within_steps|intros generation|done]. cbv zeta. apply triple_after; [|intros []; by apply triple_ret|done].
  unfold _retain_diagnostics_target. within_steps. harmless.
Qed.

Context `{!PyOrd T} (t_sub : T → T → T) (t_zero : T) (policy : CrashPolicy T).
Lemma notify_edit_spec target u path text :
  triple (T:=T) c synced (notify_edit_with_client t_sub t_zero facts policy workspace_root c target u path text) (λ _, synced).
Proof.
  unfold notify_edit_with_client. case_match; [by apply triple_ret|]. eapply triple_bind; [apply open_spec|intros changed|done].
  apply triple_after; [by within_steps|intros ?; by apply triple_ret|done].
Qed.
End specs.

(** ** The worker *)

Section worker.
Context {T : Type} `{!PyOrd T} (t_add t_sub : T → T → T) (t_zero t_retry : T).
Context (facts : AdapterLanguageFacts) (policy : CrashPolicy T) (workspace_root : purepath) (readiness_timeout : T).
Context (as_uri : purepath → pystr).
Abbreviation athread := (thread (Adapter T) acall (aexn T) aanswer).
Abbreviation event := (tevent (C := acall (T:=T)) (R := aanswer)).
Abbreviation tracked := (tracked (lf_diagnostic_publications_include_version facts)).
Abbreviation synced := (tracked MAX_OPEN_DOCUMENTS [] []).
Abbreviation ensure := (_ensure_started_worker t_add t_sub t_zero facts policy).
Implicit Types s : Adapter T.

(** The documents of the server that the adapter knows are the adapter's. *)
Definition in_sync s (m : option runtime * wire) : Prop := ∀ c, la_runtime s = Some c → holds c synced s m.
Definition syncs {A} (p : athread A) : Prop := ∀ s (t : list event) r s' m, texec keeps p s t r s' → in_sync s m → in_sync s' (connection t m).
(** From a state with the server [c] *)
Definition syncs_from {A} c (p : athread A) : Prop := ∀ s (t : list event) r s' m, texec keeps p s t r s' → holds c synced s m → in_sync s' (connection t m).

Lemma in_sync_holds c Φ s m : holds c Φ s m → (∀ l v, Φ l v → synced l v) → in_sync s m.
Proof. intros Hh HΦ c' Hc'. assert (c' = c) as -> by (destruct Hh as [? _]; congruence). by eapply holds_mono. Qed.
Lemma in_sync_none s m : la_runtime s = None → in_sync s m.
Proof. intros Hn c Hc. congruence. Qed.
Lemma in_sync_keeps s s' m : keeps s s' → in_sync s m → in_sync s' m.
Proof. intros Hk Hs c Hc. eapply holds_keeps; [done|]. apply Hs. by rewrite <-(cm_runtime _ _ (kp_calm _ _ Hk)). Qed.

Lemma kept_exec {A} (p : athread A) s (t : list event) r s' : within keeps silent p → texec keeps p s t r s' → keeps s s' ∧ ∀ m, connection t m = m.
Proof.
  intros Hp H. split; [|intros m; apply connection_silent; by eapply texec_within].
  eapply (texec_guar keeps); [|by eapply within_guar|exact H]. done.
Qed.
Lemma syncs_kept {A} (p : athread A) : within keeps silent p → syncs p.
Proof. intros Hp s t r s' m H Hs. destruct (kept_exec _ _ _ _ _ Hp H) as [Hk ->]. by eapply in_sync_keeps. Qed.
Lemma syncs_try {A B} (p : athread A) (h : res (aexn T) A → athread B) : syncs p → (∀ r, syncs (h r)) → syncs (ttry p h).
Proof.
  intros Hp Hh s t r s' m (r1 & s1 & t1 & t2 & -> & H1 & H2)%texec_try_inv Hs. rewrite connection_app. eapply Hh; [done|]. by eapply Hp.
Qed.
Lemma syncs_bind {A B} (p : athread A) (q : A → athread B) : syncs p → (∀ a, syncs (q a)) → syncs (p ≫= q).
Proof. intros Hp Hq. apply syncs_try; [done|]. intros [a|e]; [done|]. by apply syncs_kept. Qed.
Lemma syncs_fold {A B} (p : B → A → athread B) acc l : (∀ b x, x ∈ l → syncs (p b x)) → syncs (tfold p acc l).
Proof.
  revert acc. induction l as [|x l IH]; intros acc Hp; simpl; [by apply syncs_kept|]. apply syncs_bind; [apply Hp; by left|].
  intros b. apply IH. intros ? ? ?. apply Hp. by right.
Qed.
Lemma syncs_atom {B} g (f : Adapter T → Adapter T * B) : (∀ s m, in_sync s m → in_sync (f s).1 m) → syncs (tatom g f).
Proof.
  intros Hf s t r s' m (s1 & Hs1%rtc_keeps & _ & (-> & -> & Hs2%rtc_keeps)%texec_inv)%texec_inv Hs. eapply in_sync_keeps; [done|].
  apply Hf. by eapply in_sync_keeps.
Qed.
Lemma syncs_stop r : syncs (stop_provider (T:=T) r).
Proof.
  intros s t x s' m (s1 & a & t1 & Hs1%rtc_keeps & -> & (-> & -> & Hs2%rtc_keeps)%texec_inv)%texec_inv Hs. simpl.
  eapply in_sync_keeps; [done|]. by eapply in_sync_keeps.
Qed.

Lemma locked_keeps {A} (p : athread A) s (t : list event) r s' :
  texec keeps (locked p) s t r s' → ∃ s1 s2, keeps s s1 ∧ texec keeps p s1 t r s2 ∧ keeps s2 s'.
Proof.
  intros (s1 & Hs1%rtc_keeps & _ & H)%texec_inv. apply texec_try_inv in H as (r1 & s2 & t1 & t2 & -> & H1 & H2).
  apply texec_inv in H2 as (s3 & Hs3%rtc_keeps & _ & (-> & -> & Hs'%rtc_keeps)%texec_inv). rewrite app_nil_r.
  exists (set_locked true s1), s2. split_and!; [etrans; [exact Hs1|by split]|done|]. etrans; [exact Hs3|]. etrans; [|exact Hs']. by split.
Qed.
Lemma syncs_locked {A} (p : athread A) : syncs p → syncs (locked p).
Proof.
  intros Hp s t r s' m (s1 & s2 & K1 & H & K2)%locked_keeps Hs. eapply in_sync_keeps; [done|]. eapply Hp; [done|]. by eapply in_sync_keeps.
Qed.
Lemma kept_prefix {A B} (p : athread A) (q : A → athread B) s (t : list event) r s' :
  within keeps silent p → texec keeps (p ≫= q) s t r s' →
  ∃ s1 t1 t2, t = t1 ++ t2 ∧ keeps s s1 ∧ (∀ m, connection t1 m = m) ∧
    ((∃ a, texec keeps p s t1 (Ok a) s1 ∧ texec keeps (q a) s1 t2 r s') ∨ ∃ e, r = Err e ∧ t2 = [] ∧ keeps s1 s').
Proof.
  intros Hp H. apply texec_try_inv in H as (r1 & s1 & t1 & t2 & -> & H1 & H2). destruct (kept_exec p s t1 r1 s1 Hp H1) as [Hk Ht].
  exists s1, t1, t2. split_and!; [done..|]. destruct r1 as [a|e]; [left; by exists a|]. right. exists e.
  apply texec_inv in H2 as (-> & -> & Hs%rtc_keeps). done.
Qed.

(** ** Starting *)

(** No server, and no documents of an earlier one *)
Definition fresh s : Prop := la_runtime s = None ∧ (alive s → holdings s = ([], ∅, [])).
Lemma fresh_keeps s s' : keeps s s' → fresh s → fresh s'.
Proof.
  intros [C Hh] [Hr Hf]. split; [by rewrite (cm_runtime _ _ C)|]. intros Ha. rewrite Hh by done. apply Hf. by eapply calm_alive.
Qed.

Definition start_sync s (r : res (aexn T) (runtime + option runtime * Z)) s' : Prop :=
  match r with Ok (inr _) => fresh s' | _ => keeps s s' end.
Lemma begin_start_fresh old s (t : list event) (r : res (aexn T) (runtime + option runtime * Z)) s' :
  texec keeps (_ ← _transition PH_STARTING; tatom anyhow (λ s, (begin_start s, inr (old, la_runtime_token s + 1)))) s t r s' →
  (∀ m, connection t m = m) ∧ start_sync s r s'.
Proof.
  intros H. apply kept_prefix in H as (s1 & t1 & t2 & -> & K1 & T1 & H); [|eauto with within].
  destruct H as [(u & _ & H)|(e & -> & -> & K2)].
  - apply texec_inv in H as (s2 & K2%rtc_keeps & _ & (-> & -> & K3%rtc_keeps)%texec_inv). rewrite app_nil_r. split; [done|].
    eapply (fresh_keeps _ _ K3). by split.
  - rewrite app_nil_r. split; [done|]. simpl. by etrans.
Qed.
Lemma admit_start_sync s (t : list event) r s' :
  texec keeps (admit_start t_sub t_zero policy) s t r s' → (∀ m, connection t m = m) ∧ start_sync s r s'.
Proof.
  intros (s1 & s2 & K1 & H & K2)%locked_keeps. cut ((∀ m, connection t m = m) ∧ start_sync s1 r s2).
  { intros [Ht Ho]. split; [done|]. destruct r as [[c|x]|e]; simpl in *; [by repeat (etrans; [eassumption|])|by eapply fresh_keeps|by repeat (etrans; [eassumption|])]. }
  clear K1 K2 s s'. apply kept_prefix in H as (s3 & t3 & t4 & -> & K3 & T3 & H); [|by within_steps].
  setoid_rewrite connection_app. setoid_rewrite T3.
  destruct H as [(u & _ & H)|(e & -> & -> & K4)]; [|split; [done|]; simpl; by etrans].
  apply kept_prefix in H as (s5 & t5 & t6 & -> & K5 & T5 & H); [|by within_steps]. setoid_rewrite connection_app. setoid_rewrite T5.
  assert (keeps s1 s5) as K15 by (by etrans). destruct H as [(v & _ & H)|(e & -> & -> & K6)]; [|split; [done|]; simpl; by etrans].
  apply kept_prefix in H as (s7 & t7 & t8 & -> & K7 & T7 & H); [|by within_steps]. setoid_rewrite connection_app. setoid_rewrite T7.
  assert (keeps s1 s7) as K17 by (by etrans). destruct H as [([old b] & _ & H)|(e & -> & -> & K8)]; [|split; [done|]; simpl; by etrans].
  cut ((∀ m, connection t8 m = m) ∧ start_sync s7 r s2).
  { intros [? Ho]. split; [done|]. destruct r as [[c|x]|e]; simpl in *; [by etrans|done|by etrans]. }
  destruct old as [c|]; [destruct b|]; [by eapply begin_start_fresh| |by eapply begin_start_fresh].
  apply kept_prefix in H as (s9 & t9 & t10 & -> & K9 & T9 & H); [|by within_steps]. setoid_rewrite connection_app. setoid_rewrite T9.
  destruct H as [(w & _ & (-> & -> & K10%rtc_keeps)%texec_inv)|(e & -> & -> & K10)]; (split; [done|]); simpl; by etrans.
Qed.

(** The handshake with the server [c] *)
Definition handshake (c : runtime) : athread (runtime * RawLspProviders * PositionEncoding) :=
  result ← lsp_request c (QInitialize (lf_initialize_params facts));
  match result with
  | JObj _ =>
      encoding ← or_value (_selected_position_encoding result (lf_default_position_encoding facts));
      _ ← notify c NInitialized;
      _ ← notify c NDidChangeConfiguration;
      mret (c, from_initialize_result result, encoding)
  | _ => traise AX_Type
  end.
Lemma handshake_spec c : triple c synced (handshake c) (λ _, synced).
Proof.
  apply triple_after; [apply kept_request|intros result|done]. destruct result; try by apply triple_ret. apply triple_after; [by within_steps|intros encoding|done].
  do 2 (eapply (triple_bind _ _ _ _ (λ _, synced)); [by apply triple_notify; intros l v ?; exists l|intros []|done]). by apply triple_ret.
Qed.
Lemma handshake_client c s (t : list event) x s' : texec keeps (handshake c) s t (Ok x) s' → x.1.1 = c.
Proof.
  intros (result & s1 & t1 & t2 & _ & _ & H)%texec_bind_ok. destruct result; try by apply texec_inv in H as (_ & ? & _).
  do 3 (apply texec_bind_ok in H as (? & ? & ? & ? & _ & _ & H)). by apply texec_inv in H as (_ & [= ->] & _).
Qed.

(** A server that has been started is the adapter's, and has no documents. *)
Lemma start_server_sync s (t : list event) c raw encoding s' m :
  texec keeps (start_server facts) s t (Ok (c, raw, encoding)) s' → fresh s → holds c synced s' (connection t m).
Proof.
  intros (c0 & s1 & t1 & t2 & -> & H1 & H2)%texec_bind_ok Hf.
  apply texec_inv in H1 as (s0 & a & t0 & K0%rtc_keeps & -> & (-> & <- & K1%rtc_keeps)%texec_inv).
  apply texec_bind_ok in H2 as ([] & s3 & t3 & t4 & -> & H3 & H4). pose proof (handshake_client _ _ _ _ _ H4) as E. simpl in E. subst c0.
  apply texec_inv in H3 as (s5 & K5%rtc_keeps & _ & (-> & _ & K3%rtc_keeps)%texec_inv). simpl. eapply handshake_spec; [exact H4|].
  eapply holds_keeps; [exact K3|]. split; [done|]. intros Ha. assert (fresh s5) as [_ Hh] by (by do 3 (eapply fresh_keeps; [eassumption|])).
  split; [done|]. right. exists []. split; [done|]. specialize (Hh Ha). unfold holdings in Hh. injection Hh as E1 E2 E3.
  by apply tracked_empty.
Qed.

Lemma runtime_none_syncs {A} (p : athread A) s (t : list event) r s' m :
  within keeps silent p → texec keeps p s t r s' → la_runtime s = None → in_sync s' m.
Proof. intros Hp H Hn. apply kept_exec in H as [[C _] _]; [|done]. apply in_sync_none. by rewrite (cm_runtime _ _ C). Qed.

(** A failed handshake leaves no server. *)
Lemma failed_start_none {A} token e s (t : list event) (r : res (aexn T) A) s' m :
  texec keeps
    (failed ← tatom unlocked (λ s, (set_runtime None s, la_runtime s)); _ ← when_some failed stop_provider;
     _ ← _record_crash t_add t_sub policy token e; traise e) s t r s' → in_sync s' m ∧ ∃ x, r = Err x.
Proof.
  intros H. apply texec_try_inv in H as (r1 & s1 & t1 & t2 & -> & H1 & H2).
  apply texec_inv in H1 as (s3 & _ & _ & (-> & -> & K1%rtc_keeps)%texec_inv). cbn beta match in H2.
  apply texec_try_inv in H2 as (r4 & s4 & t4 & t5 & -> & H4 & H5). assert (la_runtime s4 = None) as Hn.
  { destruct (la_runtime s3) as [f|]; cbn [snd when_some] in H4.
    - apply texec_inv in H4 as (s6 & a & t6 & K6%rtc_keeps & -> & (-> & -> & K4%rtc_keeps)%texec_inv).
      by rewrite (cm_runtime _ _ (kp_calm _ _ K4)), (cm_runtime _ _ (kp_calm _ _ K6)), (cm_runtime _ _ (kp_calm _ _ K1)).
    - apply texec_inv in H4 as (-> & -> & K4%rtc_keeps). by rewrite (cm_runtime _ _ (kp_calm _ _ K4)), (cm_runtime _ _ (kp_calm _ _ K1)). }
  split; [eapply (runtime_none_syncs _ _ _ _ _ m _ H5 Hn)|].
  destruct r4 as [u|x]; [|apply texec_inv in H5 as (_ & -> & _); by exists x].
  apply texec_try_inv in H5 as (r7 & s7 & t7 & t8 & _ & _ & H8). destruct r7 as [v|y]; apply texec_inv in H8 as (_ & -> & _); by eexists.
  Unshelve. destruct r4; within_steps.
Qed.

(** A start that returns a client leaves it the adapter's server, in sync. *)
Lemma ensure_sync s (t : list event) r s' m :
  texec keeps ensure s t r s' → in_sync s m → in_sync s' (connection t m) ∧ ∀ c, r = Ok c → la_runtime s' = Some c.
Proof.
  intros H Hs. apply texec_try_inv in H as (r1 & s1 & t1 & t2 & -> & H1 & H2). rewrite connection_app.
  pose proof (admit_start_run _ _ _ _ _ _ _ H1) as (_ & _ & O1). apply admit_start_sync in H1 as [-> S1]. destruct r1 as [[c|[old token]]|e].
  - destruct O1 as [R1 R0]. apply texec_inv in H2 as (-> & -> & K2%rtc_keeps). assert (keeps s s') as K by (by etrans).
    split; [by eapply in_sync_keeps|]. intros c' [= ->]. by rewrite (cm_runtime _ _ (kp_calm _ _ K)).
  - simpl in S1. apply texec_try_inv in H2 as (r3 & s3 & t3 & t4 & -> & H3 & H4). rewrite connection_app. assert (fresh s3) as F3.
    { destruct old as [o|]; cbn [when_some] in H3.
      - apply texec_inv in H3 as (s5 & a & t5 & K5%rtc_keeps & -> & (-> & -> & K3%rtc_keeps)%texec_inv). by do 2 (eapply fresh_keeps; [eassumption|]).
      - apply texec_inv in H3 as (-> & -> & K3%rtc_keeps). by eapply fresh_keeps. }
    destruct r3 as [u|e].
    2: { apply texec_inv in H4 as (-> & -> & K4%rtc_keeps). split; [|done]. apply in_sync_none. by eapply fresh_keeps. }
    apply texec_try_inv in H4 as (r5 & s5 & t5 & t6 & -> & H5 & H6). rewrite connection_app.
    apply texec_try_inv in H5 as (r7 & s7 & t7 & t8 & -> & H7 & H8). rewrite connection_app. destruct r7 as [[[c raw] encoding]|e].
    + eapply start_server_sync in H7; [|exact F3]. apply texec_inv in H8 as (-> & -> & K8%rtc_keeps). apply (holds_keeps _ _ _ _ _ K8) in H7.
      apply texec_inv in H6 as (s9 & K9%rtc_keeps & _ & (-> & -> & K6%rtc_keeps)%texec_inv). simpl in K6.
      assert (keeps s5 s') as K by (etrans; [exact K9|]; etrans; [|exact K6]; by split). apply (holds_keeps _ _ _ _ _ K) in H7. simpl.
      split; [by eapply in_sync_holds|]. intros c' [= ->]. apply H7.
    + apply (failed_start_none _ _ _ _ _ _ (connection t8 (connection t7 (connection t3 m)))) in H8 as [Hs5 [x ->]].
      apply texec_inv in H6 as (-> & -> & K6%rtc_keeps). split; [|done]. by eapply in_sync_keeps.
  - simpl in S1. apply texec_inv in H2 as (-> & -> & K2%rtc_keeps). split; [|done]. simpl. by do 2 (eapply in_sync_keeps; [eassumption|]).
Qed.
Lemma ensure_then {A} (q : runtime → athread A) : (∀ c, syncs_from c (q c)) → syncs (c ← ensure; q c).
Proof.
  intros Hq s t r s' m H Hs. apply texec_try_inv in H as (r1 & s1 & t1 & t2 & -> & H1 & H2). rewrite connection_app.
  apply (ensure_sync _ _ _ _ m) in H1 as [Hs1 Hr]; [|done]. destruct r1 as [c|e]; [by eapply Hq; [|apply Hs1, Hr]|].
  apply texec_inv in H2 as (-> & -> & K2%rtc_keeps). by eapply in_sync_keeps.
Qed.
Lemma syncs_ensure : syncs ensure.
Proof. intros s t r s' m H Hs. by apply (ensure_sync _ _ _ _ m) in H as [? _]. Qed.
Lemma triple_syncs {A} c (p : athread A) : triple c synced p (λ _, synced) → syncs_from c p.
Proof. intros Hp s t r s' m H Hh. eapply in_sync_holds; [by eapply Hp|done]. Qed.

(** ** Stopping and restarting *)

Lemma close_all_spec c uris :
  triple c (tracked MAX_OPEN_DOCUMENTS uris []) (tfold (close_quietly (T:=T) c) tt uris) (λ r l v, is_ok r ∧ synced l v).
Proof.
  apply (triple_fold c (λ rest _, tracked MAX_OPEN_DOCUMENTS rest [])); [|done]. intros [] u rest.
  eapply (triple_try _ _ _ _ (λ r l v, is_ok r ∧ tracked MAX_OPEN_DOCUMENTS rest [] l v)).
  - apply triple_notify. intros l v (l' & ? & ?)%tracked_close. by exists l'.
  - intros [[]|e]; [by apply triple_ret; intros l v [_ ?]|]. apply triple_absurd; [by case_match|by intros l v [[] _]].
Qed.

(** What a stop begins with *)
Lemma enter_stop_sync s (t : list event) r s' m :
  texec keeps (enter_stop (T:=T)) s t r s' → in_sync s m →
  match r with
  | Ok (Some (Some c, uris)) => holds c (tracked MAX_OPEN_DOCUMENTS uris []) s' (connection t m)
  | _ => in_sync s' (connection t m)
  end.
Proof.
  intros (s1 & s2 & K1 & H & K2)%locked_keeps Hs. apply (in_sync_keeps _ _ _ K1) in Hs. clear K1 s.
  cut (match r with Ok (Some (Some c, uris)) => holds c (tracked MAX_OPEN_DOCUMENTS uris []) s2 (connection t m) | _ => in_sync s2 (connection t m) end).
  { destruct r as [[[[c|] uris]|]|e]; intros ?; [by eapply holds_keeps|by eapply in_sync_keeps..]. }
  clear K2 s'. apply kept_prefix in H as (s3 & t3 & t4 & -> & K3 & T3 & H); [|by within_steps]. rewrite connection_app, T3.
  apply (in_sync_keeps _ _ _ K3) in Hs. destruct H as [(idle & _ & H)|(e & -> & -> & K4)]; [|by eapply in_sync_keeps].
  destruct idle; [apply texec_inv in H as (-> & -> & K4%rtc_keeps); by eapply in_sync_keeps|].
  apply kept_prefix in H as (s5 & t5 & t6 & -> & K5 & T5 & H); [|eauto with within]. rewrite connection_app, T5.
  apply (in_sync_keeps _ _ _ K5) in Hs. destruct H as [(u & _ & H)|(e & -> & -> & K6)]; [|by eapply in_sync_keeps].
  apply texec_inv in H as (s7 & K7%rtc_keeps & _ & (-> & -> & K8%rtc_keeps)%texec_inv). apply (in_sync_keeps _ _ _ K7) in Hs. simpl.
  destruct (la_runtime s7) as [c|] eqn:Hc.
  - eapply holds_keeps; [exact K8|]. destruct (Hs c Hc) as [_ Hh]. split; [done|]. intros Ha.
    destruct (Hh Ha) as [Em [El|(l & El & Ht)]]; (split; [done|]); [by left|right]. exists l. split; [done|].
    exact (tracked_let_go _ _ _ _ Ht).
  - eapply in_sync_keeps; [exact K8|]. by apply in_sync_none.
Qed.

Lemma syncs_stop_worker : syncs (_stop_worker (T:=T)).
Proof.
  intros s t r s' m H Hs. apply texec_try_inv in H as (r1 & s1 & t1 & t2 & -> & H1 & H2). rewrite connection_app.
  apply (enter_stop_sync _ _ _ _ m) in H1; [|done].
  assert (∀ r, syncs (locked (T:=T) (_ ← update anyhow (λ s, if bool_decide (la_runtime s = r) then set_runtime None s else s); _transition PH_COLD))) as Hend.
  { intros r0. apply syncs_locked, syncs_bind; [|intros []; apply syncs_kept; eauto with within]. apply syncs_atom. intros s0 m0 H0. simpl.
    case_bool_decide; [by apply in_sync_none|done]. }
  destruct r1 as [[[[c|] uris]|]|e].
  - cbn [when_some] in H2. apply texec_try_inv in H2 as (r3 & s3 & t3 & t4 & -> & H3 & H4). rewrite connection_app.
    apply texec_try_inv in H3 as (r5 & s5 & t5 & t6 & -> & H5 & H6). rewrite connection_app.
    pose proof (close_all_spec c uris _ _ _ _ _ H5 H1) as Hh. assert (in_sync s5 (connection t5 (connection t1 m))) as Hs5
      by (eapply in_sync_holds; [exact Hh|by intros l v [_ ?]]).
    assert (in_sync s3 (connection t6 (connection t5 (connection t1 m)))) as Hs3.
    { destruct r5 as [u|e]; [by eapply syncs_stop|]. apply texec_inv in H6 as (-> & -> & K6%rtc_keeps). by eapply in_sync_keeps. }
    destruct r3 as [u|e]; [by eapply Hend|]. apply texec_inv in H4 as (-> & -> & K4%rtc_keeps). by eapply in_sync_keeps.
  - refine (syncs_bind (mret tt) _ _ _ _ _ _ _ _ H2 H1); [by apply syncs_kept|intros _; apply Hend].
  - eapply (syncs_kept (mret tt)); [done|exact H2|exact H1].
  - eapply (syncs_kept (traise e)); [done|exact H2|exact H1].
Qed.

Lemma syncs_restart : syncs (_restart_worker t_add t_sub t_zero facts policy).
Proof.
  apply syncs_bind.
  - apply syncs_locked, syncs_bind; [apply syncs_kept; eauto with within|intros _]. apply syncs_bind; [apply syncs_atom; intros s m _; by apply in_sync_none|].
    intros r. apply syncs_bind; [apply syncs_kept; eauto with within|intros _; by apply syncs_kept].
  - intros old. apply syncs_bind; [destruct old; [apply syncs_stop|by apply syncs_kept]|intros _; apply syncs_ensure].
Qed.

(** ** Jobs *)

(** An operation keeps the documents of its server in sync. *)
Definition operation_syncs {A} (operation : runtime → athread A) : Prop := ∀ c, triple c synced (operation c) (λ _, synced).
Definition job_syncs (j : job) : Prop := match j with JobOperation operation _ => operation_syncs operation | _ => True end.

Lemma triple_then {A B} c (p : athread A) (h : res (aexn T) A → athread B) :
  triple c synced p (λ _, synced) → (∀ r, syncs (h r)) → syncs_from c (ttry p h).
Proof.
  intros Hp Hh s t r s' m (r1 & s1 & t1 & t2 & -> & H1 & H2)%texec_try_inv Hs. rewrite connection_app. eapply Hh; [done|]. by eapply triple_syncs.
Qed.
Lemma syncs_execute {A} n (operation : runtime → athread A) :
  operation_syncs operation → syncs (execute_attempts t_add t_sub t_zero facts policy n operation).
Proof.
  intros Hop. induction n as [|n IH]; cbn [execute_attempts]; [by apply syncs_kept|]. apply ensure_then. intros c. apply triple_then.
  - apply triple_after; [by within_steps|intros [r|]|done]; [|by apply triple_ret]. apply triple_after; [by within_steps|intros _; apply Hop|done].
  - intros [a|e]; [by apply syncs_kept|]. destruct (transport_closed e); [|by apply syncs_kept].
    apply syncs_bind; [by apply syncs_kept; within_steps|intros token]. apply syncs_bind; [apply syncs_kept; eauto with within|intros _].
    destruct n; [by apply syncs_kept|]. apply syncs_bind; [apply syncs_restart|done].
Qed.

Lemma syncs_admitted {A} (p : athread A) : syncs p → syncs (_run_admitted_ordinary_worker (_ ← p; mret tt)).
Proof.
  intros Hp. apply syncs_bind; [apply syncs_kept; within_steps; by split|]. intros _. apply syncs_bind; [done|]. intros a. by apply syncs_kept.
Qed.
Lemma warm_kept w c : within keeps silent
  (_ ← locked
    (phase ← tread anyhow la_phase;
     match phase with
     | PH_DOCUMENT_READY | PH_GLOBAL_WARMING | PH_READY => _transition PH_GLOBAL_WARMING
     | _ => not_ready_soon t_retry
     end);
   target_generation ← tread anyhow (λ s, gs_configured_program (tracker_snapshot (la_scope s)));
   result ← lsp_request c (QWorkspaceSymbol (default (gw_exact_symbol w) (gw_query w)));
   match result with
   | JList items =>
      let exact_name := sentinel_matches w items in
      if negb (existsb (λ item, bool_decide (_workspace_symbol_uri item = Some (gw_uri w))) exact_name)
      then _ ← locked (_transition PH_DEGRADED); not_ready_soon t_retry
      else
        generation ← tread anyhow (λ s, gs_configured_program (tracker_snapshot (la_scope s)));
        if negb (bool_decide (generation = target_generation)) then not_ready_soon t_retry
        else
          _ ← tatom_res anyhow (λ s, let '(l, r) := observe_index_generation target_generation (la_lsp s) in
                                     (set_lsp l s, match r with Ok _ => Ok tt | Err _ => Err AX_Value end));
          current ← tatom anyhow (λ s, let '(t, b) := observe_configured_program target_generation (la_scope s) in (set_scope t s, b));
          _ ← locked (_transition (if (current : bool) then PH_READY else PH_GLOBAL_WARMING));
          mret exact_name
   | _ => traise (AX_Witness AE_NOT_READY None)
   end).
Proof.
  unfold observe_index_generation. within_steps; repeat case_match; simplify_eq/=; (done || (split; [by split|done])).
Qed.

Lemma syncs_job j : job_syncs j → syncs (job_thread t_add t_sub t_zero t_retry facts policy workspace_root as_uri j).
Proof.
  intros Hj. destruct j; cbn [job_thread].
  - apply syncs_admitted, ensure_then. intros c. apply triple_syncs, triple_kept. eauto with within.
  - apply syncs_bind; [apply syncs_stop_worker|]. intros _. apply syncs_kept. within_steps.
  - by apply syncs_admitted, syncs_execute.
  - apply syncs_admitted, ensure_then. intros c. apply triple_syncs. apply reconcile_spec.
  - apply syncs_admitted, ensure_then. intros c. apply triple_syncs, open_spec.
  - apply syncs_admitted, ensure_then. intros c. apply triple_syncs, triple_kept, warm_kept.
  - apply syncs_admitted, ensure_then. intros c. apply triple_syncs, triple_kept, kept_probe.
  - apply syncs_bind; [|intros _; by apply syncs_kept]. apply ensure_then. intros c. apply triple_syncs, document_spec.
  - apply syncs_bind; [|intros _; by apply syncs_kept]. apply ensure_then. intros c. apply triple_syncs, diagnostics_spec.
Qed.

(** C11: The text synchronization with a language server. Along any sequence of
    jobs of the worker, whatever the servers, the disk and the clocks answer and
    whenever the connection is found dead by another thread: as long as the
    connection of the adapter's server is alive, the notifications it was sent obey
    the protocol (a document is opened only while it is closed, changed and closed
    only while it is open, and all go to the server that was started last), and,
    unless a notification failed, the documents open on the server are exactly the
    ones the adapter counts as open, at most [MAX_OPEN_DOCUMENTS] of them. The
    operations of jobs have to keep that themselves; opening a snapshot and the
    replacement of a text after an edit do. *)
Theorem server_documents_in_sync jobs :
  (∀ path relative uri version text target, operation_syncs (λ c, open_snapshot_document_with_client facts workspace_root c path relative uri version text) ∧
    operation_syncs (λ c, notify_edit_with_client t_sub t_zero facts policy workspace_root c target uri path text)) ∧
  ∀ s t r s' c, Forall job_syncs jobs → la_runtime s = None →
    texec keeps (worker t_add t_sub t_zero t_retry facts policy workspace_root as_uri jobs) s t r s' →
    alive s' → la_runtime s' = Some c →
    let m := connection t (None, WLost) in
    m.1 = Some c ∧
    (m.2 = WLost ∨ ∃ l, m.2 = WOpen l ∧ l ≡ₚ open_documents s' ∧ NoDup (open_documents s') ∧ (length (open_documents s') ≤ MAX_OPEN_DOCUMENTS)%nat).
Proof.
  split; [intros; split; intros c; [apply open_snapshot_spec|apply notify_edit_spec]|]. intros s t r s' c Hj Hn H Ha Hc. rewrite Forall_forall in Hj.
  assert (syncs (worker t_add t_sub t_zero t_retry facts policy workspace_root as_uri jobs)) as Hw.
  { apply syncs_fold. intros u j Hin. apply syncs_try; [by apply syncs_job, Hj|]. intros r0. by apply syncs_kept. }
  destruct (Hw _ _ _ _ (None, WLost) H) with (c := c) as [_ Hh]; [by apply in_sync_none|done|].
  destruct (Hh Ha) as [Em [El|(l & El & [Hl Hd Hb _ _ _ _])]]; split; [done|by left|done|right]. rewrite app_nil_r in *. by exists l.
Qed.
End worker.
