(* ===== verification/AdapterRuns.v ===== *)
(** * Runs of a language adapter

    An adapter for Python files with a provider that numbers its servers: it
    starts, opens a document, loses its server in the middle of an operation,
    starts another one and is stopped; and the theorems on such runs applied. *)

From S2P Require Import Prelude Paths Positions Json Scope Envelopes LspState FileSystem Threads AdapterState Adapter AdapterProps AdapterSync.

Module AdapterRuns.
Import ScopeExamples.

Definition facts : AdapterLanguageFacts :=
  {| lf_name := lit "python"; lf_language_id := lit "python"; lf_extensions := [lit ".py"];
     lf_engine := {| en_name := lit "pyright"; en_version := lit "1"; en_executable := Path (lit "/bin/pyright"); en_interpreter := None |};
     lf_initialize_params := JObj []; lf_default_position_encoding := UTF16; lf_language_ids := [(lit ".py", lit "python")];
     lf_diagnostic_publications_include_version := false |}.
(** Five crashes in 300 seconds cool the adapter down for 60. *)
Definition policy : CrashPolicy Z := {| cp_threshold := 5; cp_window_seconds := 300; cp_cooldown_seconds := 60 |}.
Definition root : purepath := Path (lit "/w").
Definition as_uri (p : purepath) : pystr := lit "file://" ++ path_str p.

Definition adapter0 : Adapter Z :=
  {| la_phase := PH_COLD; la_transitions := []; la_runtime := None; la_runtime_token := 0;
     la_documents := {| dc_pending_documents := []; dc_pending_diagnostics := []; dc_open_documents := []; dc_undrained_closes := [];
                        dc_diagnostic_snapshots := [] |};
     la_crashes := {| cr_crashed_runtime_tokens := ∅; cr_times := []; cr_total := 0; cr_last_timestamp := None; cr_last_error := None;
                      cr_cooldown_until_monotonic := None; cr_cooldown_until_timestamp := None |};
     la_raw_providers := no_providers; la_position_encoding := UTF16; la_sealed := false; la_stop_future := None; la_scope := tracker;
     la_lsp := lsp_state_init; la_locked := false |}.

(** The next server, and the server whose connection is broken *)
Abbreviation world := (runtime * runtime)%type.
Definition incompatible : ReadinessResult (T:=Z) :=
  {| rr_code := SCOPE_INCOMPATIBLE; rr_scope := CONFIGURED_PROGRAM; rr_ready := false; rr_path := None; rr_target_generation := 1;
     rr_observed_generation := -1; rr_retry := None; rr_scope_error := None |}.
Definition answer_call (c : acall (T:=Z)) : world → world * aanswer c :=
  match c with
  | AClock | ATimestamp => λ w, (w, 100)
  | AStart => λ w, ((w.1 + 1, w.2), Ok w.1)
  | AStop _ | AReport | AHandler _ _ => λ w, (w, Ok tt)
  | ANotify _ _ => λ w, (w, Ok tt)
  | AExited _ | ACancelled _ | AFailed _ => λ w, (w, false)
  | ADone _ => λ w, (w, true)
  | ARequest r (QOther _ _) => λ w, (w, if bool_decide (r = w.2) then Err AX_Closed else Ok JNull)
  | ARequest _ (QInitialize _) => λ w, (w, Ok (JObj []))
  | ARequest _ (QWorkspaceSymbol q) => λ w,
      (w, Ok (JList [JObj [(lit "name", JStr q); (lit "location", JObj [(lit "uri", JStr (lit "file:///w/pkg/a.py"))])]]))
  | ARequest _ _ => λ w, (w, Ok (JList []))
  | AReadBytes _ => λ w, (w, Ok [])
  | AResolve p => λ w, (w, Ok p)
  | ASubmit | ASubmitCleanup => λ w, (w, Ok 1)
  | AWaitProgram _ | AWaitPath _ _ => λ w, (w, Ok incompatible)
  end.

Abbreviation athread := (thread (Adapter Z) (acall (T:=Z)) (aexn Z) aanswer).
Abbreviation work := (worker Z.add Z.sub 0 1 facts policy root as_uri).

Definition outcome {A} (s : Adapter Z) (p : athread A) : list (tevent (C := acall (T:=Z)) (R := aanswer)) * res (aexn Z) A * Adapter Z :=
  match trun answer_call p (1, 1) s with Some (t, r, s, _) => (t, r, s) | None => ([], Err AX_Exception, s) end.
(** A thread whose run is not stopped by a guard *)
Definition runs {A} (s : Adapter Z) (p : athread A) : bool := match trun answer_call p (1, 1) s with Some _ => true | None => false end.
Lemma run_exec {A} rely s (p : athread A) : runs s p = true → texec rely p s (outcome s p).1.1 (outcome s p).1.2 (outcome s p).2.
Proof. unfold runs, outcome. destruct (trun answer_call p (1, 1) s) as [[[[t r] s'] w]|] eqn:Hr; [|done]. intros _. by eapply trun_exec. Qed.

(** ** Servers *)

Definition query (client : runtime) : athread unit := _ ← lsp_request client (QOther (lit "textDocument/hover") (JObj [])); mret tt.
Definition jobs : list job :=
  [JobStart; JobOpen (lit "pkg/a.py") (lit "file:///w/pkg/a.py") 1 (lit "x = 1"); JobOperation query true;
   JobOpen (lit "pkg/a.py") (lit "file:///w/pkg/a.py") 2 (lit "x = 2")].

Lemma jobs_calm : Forall job_calm jobs.
Proof. unfold jobs. rewrite !Forall_cons. split_and!; [done..| |done|done]. intros c. unfold query. within_steps. Qed.

Definition stop_raised (e : tevent (C := acall (T:=Z)) (R := aanswer)) : bool :=
  match e with
  | TEv c a => match c return aanswer c → bool with AStop _ => λ a, match a with Err _ => true | Ok _ => false end | _ => λ _, false end a
  end.
Lemma no_stop_raised t : existsb stop_raised t = false → stops_work t.
Proof.
  intros Ht r x Hin. enough (existsb stop_raised t = true) by congruence. apply existsb_exists.
  exists (TEv (R := aanswer) (AStop r) (Err x)). split; [by apply list_elem_of_In|done].
Qed.

(** The first server is stopped after the loss of its connection, the second one
    holds the document and is stopped with the adapter. *)
Example restart_run :
  let '(t, r, s) := outcome adapter0 (work (jobs ++ [JobStop])) in
  (servers t [], existsb is_start t, la_phase s, la_runtime_token s, cr_total (la_crashes s), open_documents (outcome adapter0 (work jobs)).2)
  = (Some [], true, PH_COLD, 2, 1, [lit "file:///w/pkg/a.py"]).
Proof. vm_compute. reflexivity. Qed.

Lemma one_server_at_a_time_witness :
  servers (outcome adapter0 (work jobs)).1.1 [] = Some [2] ∧
  (la_sealed adapter0 = true → existsb is_start (outcome adapter0 (work jobs)).1.1 = false).
Proof.
  assert (runs adapter0 (work jobs) = true) as Hr by (vm_compute; reflexivity). apply (run_exec keeps) in Hr.
  assert (la_runtime (outcome adapter0 (work jobs)).2 = Some 2) as Ho by (vm_compute; reflexivity).
  destruct (one_server_at_a_time Z.add Z.sub 0 1 facts policy root 60 as_uri jobs) as [_ H].
  apply (H adapter0 _ _ _ jobs_calm eq_refl) in Hr as [E F].
  - rewrite Ho in E. exact (conj E F).
  - apply no_stop_raised. vm_compute. reflexivity.
Defined.

(** ** Documents *)

(** The text of the open document is replaced, it changes on disk, and another
    file is created. *)
Definition later_jobs : list job :=
  jobs ++ [JobOpen (lit "pkg/a.py") (lit "file:///w/pkg/a.py") 3 (lit "x = 3");
           JobReconcile [{| we_path := lit "pkg/a.py"; we_change_type := CHANGED; we_may_change_program := false |}] [lit "pkg/b.py"] [(lit "pkg/a.py", 4)]].
Lemma later_jobs_sync : Forall (job_syncs facts) later_jobs.
Proof.
  unfold later_jobs, jobs. rewrite Forall_app, !Forall_cons. split_and!; try done. intros c. apply triple_kept. unfold query. within_steps.
Qed.

(** What the server is told about documents *)
Definition told (e : tevent (C := acall (T:=Z)) (R := aanswer)) : option notification :=
  match e with
  | TEv (ANotify _ (NDidOpen _ _ _ _ as n)) _ | TEv (ANotify _ (NDidChange _ _ _ as n)) _ | TEv (ANotify _ (NDidClose _ as n)) _ => Some n
  | _ => None
  end.
Example replacement_run :
  omap told (outcome adapter0 (work later_jobs)).1.1 =
  [NDidOpen (lit "file:///w/pkg/a.py") (lit "python") 1 (lit "x = 1");
   NDidOpen (lit "file:///w/pkg/a.py") (lit "python") 2 (lit "x = 2");
   NDidClose (lit "file:///w/pkg/a.py"); NDidOpen (lit "file:///w/pkg/a.py") (lit "python") 3 (lit "x = 3");
   NDidClose (lit "file:///w/pkg/a.py"); NDidOpen (lit "file:///w/pkg/a.py") (lit "python") 4 [];
   NDidOpen (lit "file:///w/pkg/b.py") (lit "python") 1 []; NDidClose (lit "file:///w/pkg/b.py")].
Proof. vm_compute. reflexivity. Qed.

Lemma server_documents_in_sync_witness :
  ∃ l, connection (outcome adapter0 (work later_jobs)).1.1 (None, WLost) = (Some 2, WOpen l) ∧
    l ≡ₚ open_documents (outcome adapter0 (work later_jobs)).2 ∧ (length (open_documents (outcome adapter0 (work later_jobs)).2) ≤ MAX_OPEN_DOCUMENTS)%nat.
Proof.
  assert (runs adapter0 (work later_jobs) = true) as Hr by (vm_compute; reflexivity). apply (run_exec keeps) in Hr.
  assert (connection (outcome adapter0 (work later_jobs)).1.1 (None, WLost) = (Some 2, WOpen [lit "file:///w/pkg/a.py"])) as Hm by (vm_compute; reflexivity).
  destruct (server_documents_in_sync Z.add Z.sub 0 1 facts policy root as_uri later_jobs) as [_ H].
  destruct (H adapter0 _ _ _ 2 later_jobs_sync eq_refl Hr) as (_ & [Hl|(l & El & Hp & _ & Hb)]).
  - apply (bool_decide_eq_true_1 _). vm_compute. reflexivity.
  - vm_compute. reflexivity.
  - rewrite Hm in Hl. discriminate Hl.
  - exists l. rewrite Hm in El |- *. injection El as <-. split; [reflexivity|]. split; assumption.
Defined.

(** ** A crash during a warm-up *)

(** A run in which other threads move once, before the step number [k] *)
Fixpoint trun_at {A} (k : nat) (others : Adapter Z → Adapter Z) (p : athread A) (w : world) (s : Adapter Z)
    : option (list (tevent (C := acall (T:=Z)) (R := aanswer)) * res (aexn Z) A * Adapter Z * world) :=
  match k with
  | O => trun answer_call p w (others s)
  | S k =>
      match p with
      | TRet r => Some ([], r, s, w)
      | TStep g f q => if g s then trun_at k others (q s) w (f s) else None
      | TCall c q => let '(w, a) := answer_call c w in '(t, r, s, w) ← trun_at k others (q a) w s; Some (TEv c a :: t, r, s, w)
      end
  end.
Lemma trun_at_exec {A} k others (p : athread A) w s t r s' w' :
  trun_at k others p w s = Some (t, r, s', w') → texec (λ x y, y = others x) p s t r s'.
Proof.
  revert p w s t. induction k as [|k IH]; intros p w s t; cbn [trun_at].
  - intros H. eapply texec_env; [reflexivity|]. by eapply trun_exec.
  - destruct p as [r0|g f q|c q].
    + intros [= <- <- <- <-]. constructor.
    + destruct (g s) eqn:Hg; [|done]. intros H%IH. by constructor.
    + destruct (answer_call c w) as [w1 a]. destruct (trun_at k others (q a) w1 s) as [[[[t1 r1] s1] w2]|] eqn:Ht; simpl; [|done].
      intros [= <- <- <- <-]. constructor. by eapply IH.
Qed.

(** One crash cools the adapter down; the reader finds the connection closed. *)
Definition strict : CrashPolicy Z := {| cp_threshold := 1; cp_window_seconds := 300; cp_cooldown_seconds := 60 |}.
Definition reader_finds_crash (s : Adapter Z) : Adapter Z := (outcome s (_on_terminal Z.add Z.sub strict (la_runtime_token s) AX_Closed)).2.
Definition ready_document : Adapter Z :=
  (outcome adapter0 (work [JobDocument (Path (lit "/w/pkg/a.py")) (lit "pkg/a.py") (lit "file:///w/pkg/a.py") 1])).2.
Definition warm_up : athread (list json) :=
  _warm_global_worker Z.add Z.sub 0 1 facts strict {| gw_exact_symbol := lit "f"; gw_uri := lit "file:///w/pkg/a.py"; gw_query := None |}.
Definition warmed : Adapter Z := match trun_at 18 reader_finds_crash warm_up (1, 1) ready_document with Some (_, _, s, _) => s | None => adapter0 end.
Abbreviation start_again := (_ensure_started_worker Z.add Z.sub 0 facts strict : athread runtime).

(** A cooldown can be cut short by a warm-up. In [ready_document] the reader of
    the connection records a crash between the answer to the sentinel query of a
    warm-up and its last critical section, at the time 100, so that the adapter
    cools down until 160; the warm-up then moves it from COOLDOWN to READY, and the
    next start begins a new server, still at the time 100. Without the warm-up the
    same start is refused. *)
Theorem warm_up_ends_cooldown :
  (∃ t r, texec (λ x y, y = reader_finds_crash x) warm_up ready_document t (Ok r) warmed) ∧
  la_phase warmed = PH_READY ∧ cr_cooldown_until_monotonic (la_crashes warmed) = Some 160 ∧
  existsb is_start (outcome warmed start_again).1.1 = true ∧
  (outcome (reader_finds_crash ready_document) start_again).1.2 = Err (AX_Adapter AE_COOLDOWN (Some 60)).
Proof.
  split; [|vm_compute; split_and!; reflexivity]. unfold warmed.
  destruct (trun_at 18 reader_finds_crash warm_up (1, 1) ready_document) as [[[[t r] s'] w]|] eqn:Hr; [|vm_compute in Hr; discriminate Hr].
  destruct r as [r|e]; [|vm_compute in Hr; discriminate Hr]. exists t, r. by eapply trun_at_exec.
Qed.
End AdapterRuns.
