(* ===== verification/Selection.v ===== *)
(** * Selecting a symbol by name path, and keeping a prefix

    What [tools/diagnostics.py], [tools/references.py] and
    [tools/declarations.py] share: name paths whose last components select a
    symbol, with an unindexed component matching every overload; the check of a
    name path; error envelopes as results; and the loop that keeps items while the
    answer fits. *)

From S2P Require Import Prelude Paths Json Envelopes Positions Normalize Navigation.

Section selection.
(** [str.isdigit] on one character. *)
Context (digit_char : N → bool).

Definition str_isdigit (s : pystr) : bool := nonempty s && forallb digit_char s.

(** [actual.startswith(prefix)] *)
Definition has_prefix (prefix s : pystr) : bool := bool_decide (take (length prefix) s = prefix).
Definition has_suffix (suffix s : pystr) : bool :=
  bool_decide (length suffix ≤ length s)%nat && bool_decide (drop (length s - length suffix) s = suffix).

Definition _segment_matches (actual expected : pystr) : bool :=
  if bool_decide (actual = expected) then true
  else
    let prefix := expected ++ lit "[" in
    has_prefix prefix actual && has_suffix (lit "]") actual &&
    str_isdigit (take (length actual - 1 - length prefix) (drop (length prefix) actual)).

(** [all(_segment_matches(actual, expected) for ... in zip(..., strict=True))] *)
Fixpoint segments_match (actual expected : list pystr) : bool :=
  match actual, expected with
  | [], [] => true
  | a :: actual, e :: expected => _segment_matches a e && segments_match actual expected
  | _, _ => false
  end.

(** [tuple(name_path.lstrip("/").rstrip("/").split("/"))] *)
Definition name_components (name_path : pystr) : list pystr :=
  split_slash (strip_right_slash (strip_left_slash name_path)).

Definition _valid_name_path (value : pystr) : bool :=
  nonempty value && forallb nonempty (name_components value).

(** The condition of the comprehension of [_resolve_symbol]. *)
Definition selects (absolute : bool) (components path : list pystr) : bool :=
  bool_decide (length components ≤ length path)%nat &&
  (negb absolute || bool_decide (length path = length components)) &&
  segments_match (drop (length path - length components) path) components.

Definition selected_symbols (symbols : list NormalizedSymbol) (name_path : pystr) : list NormalizedSymbol :=
  filter (λ s, selects (bool_decide (head name_path = Some cp_slash)) (name_components name_path) (ns_path s) = true)
    (all_symbols symbols).
End selection.

(** ** Overloads *)

Lemma has_prefix_app p s : has_prefix p (p ++ s) = true.
Proof. apply bool_decide_eq_true_2. by rewrite take_app_length. Qed.

Lemma has_suffix_app p s : has_suffix s (p ++ s) = true.
Proof.
  unfold has_suffix. rewrite length_app, !bool_decide_eq_true_2; [done| |lia].
  replace (length p + length s - length s)%nat with (length p) by lia. apply drop_app_length.
Qed.

(** An indexed segment matches the name it was made from. *)
Lemma overload_matches digit_char name k :
  (∀ c, digit c → digit_char c = true) → _segment_matches digit_char (overload_label name k) name = true.
Proof.
  intros Hd. unfold _segment_matches. case_bool_decide as Heq; [done|].
  unfold overload_label. rewrite app_assoc, has_prefix_app, app_assoc, has_suffix_app. cbn [andb].
  rewrite <-app_assoc, drop_app_length, !length_app.
  replace (length name + length (lit "[") + (length (dec (Z.of_nat k)) + length (lit "]")) - 1 - (length name + length (lit "[")))%nat
    with (length (dec (Z.of_nat k))) by (change (length (lit "]")) with 1%nat; lia).
  rewrite take_app_length. unfold str_isdigit. apply andb_true_intro. split.
  - destruct (dec_number (Z.of_nat k)) as [(c & l & -> & _) _]. done.
  - apply Is_true_true, forallb_True. eapply Forall_impl; [apply dec_nat_digits|].
    intros c Hc. by apply Is_true_true, Hd.
Qed.

(** ** Keeping a prefix *)

Lemma keep_while_app P kept items :
  ∃ k, keep_while P kept items = kept ++ take k items ∧ (k ≤ length items)%nat ∧
    (k = 0%nat ∨ P (kept ++ take k items) = false) ∧ ((k < length items)%nat → P (kept ++ take (S k) items) = true).
Proof.
  revert kept. induction items as [|x items IH]; intros kept; cbn [keep_while].
  - exists 0%nat. simpl. rewrite app_nil_r. split_and!; [done|lia|by left|lia].
  - destruct (P (kept ++ [x])) eqn:Hp.
    + exists 0%nat. simpl. rewrite app_nil_r. split_and!; [done|lia|by left|done].
    + destruct (IH (kept ++ [x])) as (k & Hk & Hle & Hfit & Hstop). exists (S k). rewrite Hk, <-app_assoc.
      rewrite <-app_assoc in Hfit. cbn [app take length] in *. split_and!; [done|lia| |].
      * right. destruct Hfit as [->|Hfit]; [|exact Hfit]. by rewrite take_0.
      * intros Hlt. rewrite <-Hstop by lia. by rewrite <-app_assoc.
Qed.

Lemma keep_while_prefix P items :
  ∃ k, keep_while P [] items = take k items ∧ (k ≤ length items)%nat ∧
    (k = 0%nat ∨ P (take k items) = false) ∧ ((k < length items)%nat → P (take (S k) items) = true).
Proof. apply (keep_while_app P [] items). Qed.

(** ** Errors as values *)

Definition lift_failure (r : res envelope_error ErrorEnvelope) : res nav_error ErrorEnvelope :=
  match r with Ok e => Ok e | Err e => Err (NavEnvelope e) end.

(** [return error(...)] from a function that returns an answer of type [A] or an error. *)
Definition as_error {A} (r : res nav_error ErrorEnvelope) : res nav_error (A + ErrorEnvelope) := e ← r; Ok (inr e).

(** [error(code, details=..., workspace=..., adapter=..., generations=...)] with the metadata of a document. *)
Definition document_failure (d : DocumentNavigation) (code : ErrorCode) (details : list (pystr * json))
    : res nav_error ErrorEnvelope :=
  lift_failure (error code None (Some (any_of_json (JObj details))) (dn_workspace d) (dn_adapter d) (dn_generations d)).

Lemma error_clean code retry details w a g :
  keys_clean (JObj details) →
  error code retry (Some (any_of_json (JObj details))) w a g =
  Ok {| er_code := code; er_message := _MESSAGES code; er_retry := retry; er_details := JObj details;
        er_workspace := w; er_adapter := a; er_generations := g |}.
Proof.
  intros Hc. unfold error, error_envelope_init. cbn [from_option id]. rewrite any_of_json_value by done.
  by destruct code.
Qed.

Lemma success_clean data w a g t :
  keys_clean data →
  success (any_of_json data) w a g t =
  Ok {| sv_data := data; sv_workspace := w; sv_adapter := a; sv_generations := g; sv_truncation := t |}.
Proof. intros Hc. unfold success. by rewrite any_of_json_value. Qed.

Lemma truncation_exact total kept :
  (kept ≤ total)%nat →
  truncation (total - kept) =
  Ok {| tm_truncated := bool_decide (kept < total)%nat; tm_omitted_count := Z.of_nat total - Z.of_nat kept |}.
Proof.
  intros Hle. unfold truncation, truncation_metadata_init.
  rewrite (bool_decide_eq_false_2 (Z.of_nat _ < 0)) by lia. cbn [orb].
  destruct (decide (kept < total)%nat) as [Hlt|Hge].
  - rewrite !bool_decide_eq_true_2 by lia. cbn [negb andb]. do 2 f_equal. lia.
  - rewrite !bool_decide_eq_false_2 by lia. cbn [negb andb]. do 2 f_equal. lia.
Qed.

Lemma dict_set_elem_inv {K V} `{EqDecision K} (d : list (K * V)) k v x : x ∈ dict_set d k v → x = (k, v) ∨ x ∈ d.
Proof.
  induction d as [|[j w] d IH]; simpl; [rewrite list_elem_of_singleton; by left|].
  case_decide; intros [->|Hx]%elem_of_cons; [by left|by right; right|by right; left|].
  destruct (IH Hx); [by left|by right; right].
Qed.

Lemma dict_set_keys_elem {K V} `{EqDecision K} (d : list (K * V)) k v j : j ∈ (dict_set d k v).*1 ↔ j ∈ d.*1 ∨ j = k.
Proof.
  induction d as [|[i w] d IH]; simpl; [rewrite list_elem_of_singleton, elem_of_nil; tauto|].
  case_decide; csimpl; rewrite !elem_of_cons; [subst; tauto|]. rewrite IH. tauto.
Qed.

(** What a copy of a rendered value holds, when it is made. *)
Lemma any_of_json_inv v : ∀ j, _json_value (any_of_json v) = Ok j → j = v.
Proof.
  induction v as [| | | | |l IH|kvs IH] using json_induction; intros j; try (by intros [= <-]).
  - cbn [any_of_json]. rewrite json_value_sequence. intros (ys & Hys & [= <-])%res_bind_Ok. f_equal. revert ys Hys.
    induction IH as [|x l Hx _ IHl]; csimpl; intros ys Hys; [by injection Hys as <-|].
    apply res_bind_Ok in Hys as (y & Hy%Hx & Hys). apply res_bind_Ok in Hys as (zs & Hzs%IHl & [= <-]). by subst.
  - cbn [any_of_json]. rewrite json_value_mapping. intros (ys & Hys & [= <-])%res_bind_Ok. f_equal. revert ys Hys.
    induction IH as [|[k x] l Hx _ IHl]; csimpl; intros ys Hys; [by injection Hys as <-|].
    destruct (secret_key k); [done|]. apply res_bind_Ok in Hys as (y & Hy%Hx & Hys).
    apply res_bind_Ok in Hys as (zs & Hzs%IHl & [= <-]). by subst.
Qed.

Lemma success_data data w a g t env :
  lift_success (success (any_of_json data) w a g t) = Ok (inl env) →
  env = {| sv_data := data; sv_workspace := w; sv_adapter := a; sv_generations := g; sv_truncation := t |}.
Proof.
  unfold lift_success, success. destruct (_json_value _) as [j|] eqn:Hj; [|done]. intros [= <-].
  by apply any_of_json_inv in Hj as ->.
Qed.

Lemma as_error_not_success {A} r (x : A) : as_error r ≠ Ok (inl x).
Proof. unfold as_error. by destruct r. Qed.

(** The value of a key of an answer. *)
Definition data_get (v : json) (k : string) : option json :=
  match v with JObj kvs => dict_get kvs (lit k) | _ => None end.

(** ** Names of symbols *)

Lemma segments_nonempty l s : segments_ok l → (∀ t, t ∈ l → ns_name t ≠ []) → s ∈ l → ns_segment s ≠ [].
Proof.
  intros Hseg Hname Hin. apply list_elem_of_lookup in Hin as [i Hi]. rewrite (Hseg i s Hi). case_bool_decide.
  - unfold overload_label. by destruct (ns_name s).
  - apply Hname. by eapply list_elem_of_lookup_2.
Qed.

Lemma forest_segments parent l s : forest_ok parent l → s ∈ l → tree_ok parent s ∧ ns_segment s ≠ [].
Proof.
  intros [Hseg Hall] Hin. rewrite Forall_forall in Hall. split; [by apply Hall|].
  eapply segments_nonempty; [done| |done]. intros t Ht. specialize (Hall t Ht). by apply tree_ok_unfold in Hall as (_ & ? & _).
Qed.

Lemma tree_name_nonempty s : ∀ parent, tree_ok parent s → ns_segment s ≠ [] →
  ∀ t, t ∈ iter_depth_first s → join_slash (ns_path t) ≠ [].
Proof.
  induction s as [s IH] using symbol_induction. intros parent Hok Hseg t. rewrite iter_unfold.
  apply tree_ok_unfold in Hok as (Hpath & _ & _ & _ & Hf). intros [->|Hin]%elem_of_cons.
  - intros Hnil. pose proof (join_last (ns_path s) (ns_segment s)) as Hl. rewrite Hnil, Hpath, last_snoc in Hl.
    specialize (Hl eq_refl Hseg). symmetry in Hl. by apply last_None in Hl.
  - apply elem_of_all_symbols in Hin as (r & Hr & Hin). destruct (forest_segments _ _ _ Hf Hr) as [Hrok Hrseg].
    rewrite Forall_forall in IH. by eapply (IH r Hr).
Qed.

(** ** Runs *)

Lemma py_bind_ok {S E A B} (m : PyM S E A) (k : A → PyM S E B) s s' b :
  py_bind m k s = (s', Ok b) → ∃ s1 a, m s = (s1, Ok a) ∧ k a s1 = (s', Ok b).
Proof. unfold py_bind. destruct (m s) as [s1 [a|e]]; [|done]. intros H. by exists s1, a. Qed.

Lemma py_lift_ok {S E A} (r : res E A) (s s' : S) a : py_lift r s = (s', Ok a) → r = Ok a.
Proof. unfold py_lift. by destruct r; intros [= _ <-]. Qed.

Lemma py_lift_run {S E A} (r : res E A) (s s' : S) a : py_lift r s = (s', Ok a) → s' = s ∧ r = Ok a.
Proof. unfold py_lift. by destruct r; intros [= <- <-]. Qed.

(** What an operation answered for the items of a list, called in order from one state to the next. *)
Inductive each {W E A B} (f : A → PyM W E B) : list A → W → list B → W → Prop :=
| each_nil w : each f [] w [] w
| each_cons a l w w1 b bs w2 : f a w = (w1, Ok b) → each f l w1 bs w2 → each f (a :: l) w (b :: bs) w2.

(** A call that leaves a log beside its world alone. *)
Definition unlogged {W L E A} (m : PyM W E A) : PyM (W * list L) E A := λ s, let '(w, r) := m s.1 in ((w, s.2), r).

Lemma unlogged_run {W L E A} (m : PyM W E A) (s s' : W * list L) r :
  unlogged m s = (s', r) → s'.2 = s.2 ∧ m s.1 = (s'.1, r).
Proof. unfold unlogged. destruct (m s.1) as [w r'] eqn:Hm. by intros [= <- <-]. Qed.
