(* ===== verification/Diagnostics.v ===== *)
(** * Diagnostics of one document

    Model of [src/serena_light/tools/diagnostics.py]: the engine facts, the
    terminal states of a bounded wait for a publication, the findings of the
    current publication with their containing symbols, the bounded grouped answer
    for a file and for one symbol, and the service around a provider.

    A publication is the snapshot [LspState.diagnostics_snapshot] returns; what
    [isinstance] and [get] see of a frozen scalar is the parameter [scalar].
    SHA-256, [str.isdigit] and [str.isspace] on a character, and what document
    normalization takes, are parameters. *)

From S2P Require Import Prelude Paths Json Envelopes LspState Positions Normalize Navigation Selection.

Inductive DiagnosticsReadiness := READY | NOT_READY | READINESS_TIMED_OUT.

Record ExternalRootMetadata := { xm_kind : pystr; xm_path : pystr }.

Definition is_absolute (path : pystr) : bool := bool_decide (head path = Some cp_slash).

Definition external_root_init (kind path : pystr) : res nav_error ExternalRootMetadata :=
  _ ← ensure (nonempty kind && is_absolute path) NavInput; Ok {| xm_kind := kind; xm_path := path |}.

Definition external_root_dict (x : ExternalRootMetadata) : json :=
  JObj [(lit "kind", JStr (xm_kind x)); (lit "path", JStr (xm_path x))].

Record DiagnosticEngineFacts := {
  ef_name : pystr;
  ef_language : pystr;
  ef_version : pystr;
  ef_interpreter : option pystr;
  ef_python_environment : option pystr;
  ef_authority : pystr;
  ef_repository_authority : option pystr;
  ef_external_root : option ExternalRootMetadata;
  ef_semantic_engine_name : option pystr;
  ef_semantic_engine_version : option pystr;
  ef_native_typecheck_command : option pystr;
}.

Definition is_some {A} (x : option A) : bool := match x with Some _ => true | None => false end.
Definition when_some {A} (x : option A) (p : A → bool) : bool := match x with Some v => p v | None => true end.

(** [x or default] on an optional string *)
Definition str_or (x : option pystr) (d : pystr) : pystr :=
  match x with Some s => if nonempty s then s else d | None => d end.

Definition engine_dict (e : DiagnosticEngineFacts) : json :=
  let typescript := bool_decide (ef_language e = lit "typescript") in
  JObj ([(lit "name", JStr (ef_name e)); (lit "version", JStr (ef_version e));
         (lit "authority", JStr (if typescript then lit "advisory" else ef_authority e))] ++
        (if typescript then
           [(lit "repository_authority", JStr (str_or (ef_repository_authority e) (lit "repository-native typecheck or CI")));
            (lit "authority_distinction", JObj [(lit "pinned_lsp_diagnostics", JStr (lit "advisory"));
                                                (lit "repository_native_typecheck", JStr (lit "authoritative"))])] ++
           match ef_semantic_engine_name e, ef_semantic_engine_version e with
           | Some n, Some v => [(lit "pinned_engine", JObj [(lit "name", JStr n); (lit "version", JStr v)])]
           | _, _ => []
           end ++
           [(lit "native_typecheck", JObj ((lit "authority", JStr (lit "authoritative")) ::
                                           entry "command" (JStr <$> ef_native_typecheck_command e)))]
         else []) ++
        entry "interpreter" (JStr <$> ef_interpreter e) ++
        entry "python_environment" (JStr <$> ef_python_environment e) ++
        entry "external_root" (external_root_dict <$> ef_external_root e)).

Section engine_facts.
Context (space_char : N → bool).

(** [value.strip()] is non-empty *)
Definition strips_nonempty (s : pystr) : bool := negb (forallb space_char s).

Definition engine_facts_init (e : DiagnosticEngineFacts) : res nav_error DiagnosticEngineFacts :=
  _ ← ensure (nonempty (ef_name e) && nonempty (ef_language e) && nonempty (ef_version e)) NavInput;
  _ ← ensure (when_some (ef_interpreter e) is_absolute) NavInput;
  _ ← ensure (when_some (ef_python_environment e) nonempty) NavInput;
  _ ← ensure (negb (bool_decide (ef_language e = lit "python") &&
                    (bool_decide (ef_name e ≠ lit "pyright") || negb (is_some (ef_interpreter e))))) NavInput;
  _ ← ensure (bool_decide (is_some (ef_semantic_engine_name e) = is_some (ef_semantic_engine_version e))) NavInput;
  _ ← ensure (when_some (ef_native_typecheck_command e) strips_nonempty) NavInput;
  Ok e.
End engine_facts.

(** ** Publications *)

(** What [isinstance] and [get] see of a frozen value. *)
Fixpoint frozen_any (scalar : pystr → pyany) (v : Frozen) : pyany :=
  match v with
  | FScalar r => scalar r
  | FMapping items => PMapping ((λ kv, (Some kv.1, frozen_any scalar kv.2)) <$> items)
  | FTuple items => PSequence (frozen_any scalar <$> items)
  | FSet _ => POther
  end.

Definition diagnostics_state_value (s : DiagnosticsState) : pystr :=
  match s with MISSING => lit "missing" | CLEAN => lit "clean" | FINDINGS => lit "findings" | STALE => lit "stale" end.

(** A float and whether it is finite. *)
Abbreviation seconds := (pyfloat * bool)%type.

Record _Finding := {
  fi_range : Range;
  fi_severity : Z;
  fi_message : pystr;
  fi_source : option pystr;
  fi_code : option (pystr + Z);
  fi_symbol : option NormalizedSymbol;
}.

Definition diagnostic_position (raw : raw_symbol) : res nav_error Position :=
  match raw_get raw "line", raw_get raw "character" with
  | Some (PInt l), Some (PInt c) => Ok {| pos_line := l; pos_character := c |}
  | _, _ => Err NavInput
  end.

Definition diagnostic_range (raw : raw_symbol) : res nav_error Range :=
  match raw_get raw "start", raw_get raw "end" with
  | Some (PMapping s), Some (PMapping e) =>
      start ← diagnostic_position s; stop ← diagnostic_position e;
      match range_init start stop with Ok r => Ok r | Err _ => Err NavInput end
  | _, _ => Err NavInput
  end.

Definition _severity_name (value : Z) : pystr :=
  if bool_decide (value = 1) then lit "error" else if bool_decide (value = 2) then lit "warning"
  else if bool_decide (value = 3) then lit "information" else lit "hint".

Definition code_text (c : option (pystr + Z)) : pystr :=
  match c with None => [] | Some (inl s) => s | Some (inr z) => dec z end.

Definition _finding_key (f : _Finding) : Z * Z * Z * pystr * pystr * pystr :=
  (pos_line (rg_start (fi_range f)), pos_character (rg_start (fi_range f)), fi_severity f, fi_message f,
   default [] (fi_source f), code_text (fi_code f)).

Definition _group_key (s : option NormalizedSymbol) : Z * Z * list pystr :=
  match s with
  | None => (-1, -1, [lit "<file>"])
  | Some s => let start := rg_start (loc_range (ns_location s)) in (pos_line start, pos_character start, ns_path s)
  end.

Definition _symbol_key (s : NormalizedSymbol) : Z * Z * list pystr :=
  let start := rg_start (loc_range (ns_location s)) in (pos_line start, pos_character start, ns_path s).

Definition _range_within (inner outer : Range) : bool :=
  py_leb (pos_key (rg_start outer)) (pos_key (rg_start inner)) && py_leb (pos_key (rg_end inner)) (pos_key (rg_end outer)).

Definition _valid_bounds (maximum_severity max_answer_chars : Z) : bool :=
  bool_decide (1 ≤ maximum_severity ≤ 4) && bool_decide (0 < max_answer_chars).

(** The severity of a diagnostic, [ERROR] when it has none. *)
Definition severity_of (raw : raw_symbol) : option Z :=
  match raw_get raw "severity" with
  | None => Some 1
  | Some (PInt z) => if bool_decide (z ∈ [1; 2; 3; 4]) then Some z else None
  | Some _ => None
  end.

Definition optional_source (raw : raw_symbol) : res nav_error (option pystr) :=
  match raw_get raw "source" with
  | None | Some PNone => Ok None
  | Some (PStr s) => Ok (Some s)
  | Some _ => Err NavInput
  end.

Definition optional_code (raw : raw_symbol) : res nav_error (option (pystr + Z)) :=
  match raw_get raw "code" with
  | None | Some PNone => Ok None
  | Some (PStr s) => Ok (Some (inl s))
  | Some (PInt z) => Ok (Some (inr z))
  | Some _ => Err NavInput
  end.

(** One pass of the loop of [_findings]: [None] when the severity is above the maximum. *)
Definition finding_of (d : DocumentNavigation) (maximum_severity : Z) (raw : pyany) : res nav_error (option _Finding) :=
  match raw with
  | PMapping raw_map =>
      match severity_of raw_map with
      | None => Err NavInput
      | Some severity =>
          if bool_decide (maximum_severity < severity) then Ok None
          else match raw_get raw_map "message", raw_get raw_map "range" with
               | Some (PStr message), Some (PMapping raw_range) =>
                   finding_range ← diagnostic_range raw_range;
                   source ← optional_source raw_map;
                   code ← optional_code raw_map;
                   Ok (Some {| fi_range := finding_range; fi_severity := severity; fi_message := message;
                               fi_source := source; fi_code := code;
                               fi_symbol := containing_symbol (dn_symbols d)
                                 {| loc_uri := dn_uri d; loc_range := finding_range; loc_path := None |} |})
               | _, _ => Err NavInput
               end
      end
  | _ => Err NavInput
  end.

Definition _findings (d : DocumentNavigation) (diagnostics : list pyany) (maximum_severity : Z) : res nav_error (list _Finding) :=
  found ← map_res (finding_of d maximum_severity) diagnostics;
  Ok (py_sorted _finding_key (omap id found)).

(** ** Rendering *)

Definition finding_dict (d : DocumentNavigation) (f : _Finding) : res position_error json :=
  r ← _source_range (dn_mapper d) (fi_range f);
  Ok (JObj ([(lit "severity", JStr (_severity_name (fi_severity f))); (lit "message", JStr (fi_message f)); (lit "range", r)] ++
            entry "source" (JStr <$> fi_source f) ++
            entry "code" ((λ c, match c with inl s => JStr s | inr z => JInt z end) <$> fi_code f))).

Definition group : Type := list pystr * (option NormalizedSymbol * list json).

Definition group_dict (d : DocumentNavigation) (g : group) : res position_error json :=
  let '(_, (symbol, findings)) := g in
  match symbol with
  | None => Ok (JObj [(lit "name_path", JStr (lit "<file>")); (lit "findings", JList findings)])
  | Some s =>
      r ← _source_range (dn_mapper d) (loc_range (ns_location s));
      Ok (JObj [(lit "name_path", JStr (join_slash (ns_path s))); (lit "findings", JList findings); (lit "range", r)])
  end.

Definition _groups_data (d : DocumentNavigation) (grouped : list group) : res position_error (list json) :=
  map_res (group_dict d) (py_sorted (λ g : group, _group_key g.2.1) grouped).

Definition finding_group (f : _Finding) : list pystr :=
  match fi_symbol f with Some s => ns_path s | None => [lit "<file>"] end.

(** [grouped.setdefault(key, (symbol, []))]: the entry and the dictionary after it. *)
Definition group_setdefault (grouped : list group) (key : list pystr) (symbol : option NormalizedSymbol)
    : (option NormalizedSymbol * list json) * list group :=
  match dict_get grouped key with
  | Some entry => (entry, grouped)
  | None => ((symbol, []), dict_set grouped key (symbol, []))
  end.

(** [{**base, "groups": groups}] *)
Definition with_groups (base : list (pystr * json)) (groups : list json) : json :=
  JObj (dict_set base (lit "groups") (JList groups)).

(** The loop of [_render]: the groups and the number of findings kept. *)
Fixpoint render_findings (d : DocumentNavigation) (base : list (pystr * json)) (max_answer_chars : Z)
    (grouped : list group) (kept : nat) (findings : list _Finding) : res position_error (list group * nat) :=
  match findings with
  | [] => Ok (grouped, kept)
  | finding :: findings =>
      let key := finding_group finding in
      let '((symbol, entries), grouped) := group_setdefault grouped key (fi_symbol finding) in
      rendered ← finding_dict d finding;
      let candidate := dict_set grouped key (symbol, entries ++ [rendered]) in
      groups ← _groups_data d candidate;
      if bool_decide (max_answer_chars < canonical_size (with_groups base groups))
      then Ok (grouped, kept)
      else render_findings d base max_answer_chars candidate (S kept) findings
  end.

Section diagnostics.
Context (sha256_hex : list N → pystr).
Context (urlparse : pystr → parsed_uri) (unquote : pystr → pystr) (py_str : pyany → pystr).
Context (scalar : pystr → pyany) (digit_char : N → bool).
Context {P : Type}.

Record DiagnosticDocumentInput := {
  dg_document : DocumentSymbolInput;
  dg_requested_generation : Z;
  dg_engine : DiagnosticEngineFacts;
  dg_publication : option (DiagnosticsSnapshot (P := P));
  dg_readiness : DiagnosticsReadiness;
  dg_phase : option pystr;
  dg_retry : option RetryMetadata;
  dg_waited_seconds : option seconds;
}.

Definition diagnostic_input_init (v : DiagnosticDocumentInput) : res nav_error DiagnosticDocumentInput :=
  _ ← ensure (bool_decide (1 ≤ dg_requested_generation v)) NavInput;
  _ ← ensure (duration_ok (fst <$> dg_waited_seconds v)) NavInput;
  _ ← ensure (match dg_readiness v with READY => is_some (dg_publication v) | _ => true end) NavInput;
  Ok v.

Definition _engine_details (e : DiagnosticEngineFacts) (details : list (pystr * json)) : list (pystr * json) :=
  dict_set details (lit "engine") (engine_dict e).

Definition _invalid (d : DocumentNavigation) (field : pystr) (engine : DiagnosticEngineFacts) (minimum_required : option Z)
    : res nav_error ErrorEnvelope :=
  document_failure d INVALID_INPUT
    (_engine_details engine ((lit "field", JStr field) :: entry "minimum_required" (JInt <$> minimum_required))).

Definition _document (v : DiagnosticDocumentInput) : res nav_error (DocumentNavigation + ErrorEnvelope) :=
  match from_input urlparse unquote py_str (dg_document v) with
  | Err _ => as_error (lift_failure (error INVALID_INPUT None
               (Some (any_of_json (JObj (_engine_details (dg_engine v) [(lit "field", JStr (lit "document"))])))) None None None))
  | Ok d =>
      match dg_publication v with
      | Some p => if bool_decide (snap_uri p ≠ dn_uri d) then as_error (_invalid d (lit "publication.uri") (dg_engine v) None)
                  else Ok (inl d)
      | None => Ok (inl d)
      end
  end.

Definition _generations (d : DocumentNavigation) (requested_generation : Z) : res nav_error GenerationMetadata :=
  match match dn_generations d with
        | None => generation_metadata_init None None (Some requested_generation) None (Some (lit "path"))
        | Some g => generation_metadata_init (gm_trust g) (gm_program g) (Some requested_generation) (gm_index g) (gm_scope g)
        end with
  | Ok g => Ok g
  | Err e => Err (NavEnvelope e)
  end.

Definition seconds_any (s : seconds) : pyany := PFloat (pf_repr s.1) s.2.

(** [_timeout_details], as the items of the details before the engine is added. *)
Definition _timeout_details (v : DiagnosticDocumentInput) (publication : option (DiagnosticsSnapshot (P := P)))
    : list (option pystr * pyany) :=
  [pstr "state" (PStr (lit "timed_out")); pstr "target_generation" (PInt (dg_requested_generation v))] ++
  match publication with
  | Some p => [pstr "publication_state" (PStr (diagnostics_state_value (snap_state p)));
               pstr "observed_generation" (PInt (snap_generation p))]
  | None => []
  end ++
  match dg_waited_seconds v with Some s => [pstr "waited_seconds" (seconds_any s)] | None => [] end.

Definition _timeout_retry (v : DiagnosticDocumentInput) (publication : option (DiagnosticsSnapshot (P := P)))
    : res nav_error RetryMetadata :=
  match retry_metadata_init {| rt_retryable := true; rt_retry_after_seconds := None;
          rt_waited_seconds := fst <$> dg_waited_seconds v; rt_timeout_seconds := None;
          rt_target_generation := Some (dg_requested_generation v);
          rt_observed_generation := snap_generation <$> publication |} with
  | Ok r => Ok r
  | Err e => Err (NavEnvelope e)
  end.

Definition timed_out (v : DiagnosticDocumentInput) (d : DocumentNavigation) (generations : GenerationMetadata)
    (publication : option (DiagnosticsSnapshot (P := P))) : res nav_error ErrorEnvelope :=
  retry ← _timeout_retry v publication;
  lift_failure (error TIMED_OUT (Some retry)
    (Some (PMapping (_timeout_details v publication ++ [pstr "engine" (any_of_json (engine_dict (dg_engine v)))])))
    (dn_workspace d) (dn_adapter d) (Some generations)).

Definition _terminal_state (v : DiagnosticDocumentInput) (d : DocumentNavigation) : res nav_error (option ErrorEnvelope) :=
  generations ← _generations d (dg_requested_generation v);
  match dg_readiness v with
  | NOT_READY =>
      e ← lift_failure (error EC_NOT_READY (dg_retry v)
            (Some (any_of_json (JObj (_engine_details (dg_engine v)
               ((lit "state", JStr (lit "not_ready")) :: entry "phase" (JStr <$> dg_phase v))))))
            (dn_workspace d) (dn_adapter d) (Some generations));
      Ok (Some e)
  | READINESS_TIMED_OUT => e ← timed_out v d generations None; Ok (Some e)
  | READY =>
      match dg_publication v with
      | None => e ← timed_out v d generations None; Ok (Some e)
      | Some p =>
          if bool_decide (snap_state p ∈ [MISSING; STALE]) then e ← timed_out v d generations (Some p); Ok (Some e)
          else if bool_decide (snap_generation p ≠ dg_requested_generation v)
               then e ← timed_out v d generations (Some p); Ok (Some e)
               else Ok None
      end
  end.

Definition _resolve_symbol (d : DocumentNavigation) (name_path : pystr) (engine : DiagnosticEngineFacts)
    : res nav_error (NormalizedSymbol + ErrorEnvelope) :=
  match py_sorted _symbol_key (selected_symbols digit_char (dn_symbols d) name_path) with
  | [] => as_error (document_failure d SYMBOL_NOT_FOUND
            (_engine_details engine [(lit "relative_path", JStr (dn_relative_path d)); (lit "name_path", JStr name_path)]))
  | [s] => Ok (inl s)
  | matches => as_error (document_failure d AMBIGUOUS_SYMBOL
            (_engine_details engine [(lit "relative_path", JStr (dn_relative_path d)); (lit "name_path", JStr name_path);
                                     (lit "candidates", JList ((λ s, JStr (join_slash (ns_path s))) <$> matches))]))
  end.

(** The answer without its findings. *)
Definition render_base (d : DocumentNavigation) (v : DiagnosticDocumentInput) (p : DiagnosticsSnapshot (P := P))
    (findings : list _Finding) (selected_symbol : option NormalizedSymbol) : list (pystr * json) :=
  [(lit "state", JStr (if nonempty findings then lit "findings" else lit "clean"));
   (lit "relative_path", JStr (dn_relative_path d));
   (lit "sha256", JStr (dn_sha256 sha256_hex d));
   (lit "diagnostics_generation", default JNull (JInt <$> snap_diagnostics_generation p));
   (lit "engine", engine_dict (dg_engine v));
   (lit "groups", JList [])] ++
  entry "symbol" ((λ s, JStr (join_slash (ns_path s))) <$> selected_symbol).

Definition _render (d : DocumentNavigation) (v : DiagnosticDocumentInput) (p : DiagnosticsSnapshot (P := P))
    (findings : list _Finding) (max_answer_chars : Z) (selected_symbol : option NormalizedSymbol)
    : res nav_error ToolEnvelope :=
  let base := render_base d v p findings selected_symbol in
  if bool_decide (max_answer_chars < canonical_size (JObj base))
  then as_error (_invalid d (lit "max_answer_chars") (dg_engine v) (Some (canonical_size (JObj base))))
  else
    gk ← lift_position (render_findings d base max_answer_chars [] 0 findings);
    let '(grouped, kept) := gk in
    groups ← lift_position (_groups_data d grouped);
    generations ← _generations d (dg_requested_generation v);
    t ← truncation (length findings - kept);
    lift_success (success (any_of_json (with_groups base groups)) (dn_workspace d) (dn_adapter d) (Some generations) (Some t)).

(** [publication.diagnostics] as the tool inspects them *)
Definition published (p : DiagnosticsSnapshot (P := P)) : list pyany := frozen_any scalar <$> snap_diagnostics p.

Definition get_diagnostics_for_file (v : DiagnosticDocumentInput) (maximum_severity max_answer_chars : Z)
    : res nav_error ToolEnvelope :=
  doc ← _document v;
  match doc with
  | inr e => Ok (inr e)
  | inl d =>
      if negb (_valid_bounds maximum_severity max_answer_chars)
      then as_error (_invalid d (lit "maximum_severity or max_answer_chars") (dg_engine v) None)
      else
        terminal ← _terminal_state v d;
        match terminal, dg_publication v with
        | Some e, _ => Ok (inr e)
        | None, None => Err NavInput   (** the [assert] *)
        | None, Some p =>
            match _findings d (published p) maximum_severity with
            | Err _ => as_error (_invalid d (lit "diagnostics") (dg_engine v) None)
            | Ok findings => _render d v p findings max_answer_chars None
            end
        end
  end.

Definition get_diagnostics_for_symbol (v : DiagnosticDocumentInput) (name_path : pystr) (maximum_severity max_answer_chars : Z)
    : res nav_error ToolEnvelope :=
  doc ← _document v;
  match doc with
  | inr e => Ok (inr e)
  | inl d =>
      if negb (_valid_bounds maximum_severity max_answer_chars) || negb (_valid_name_path name_path)
      then as_error (_invalid d (lit "maximum_severity, max_answer_chars, or name_path") (dg_engine v) None)
      else
        terminal ← _terminal_state v d;
        match terminal with
        | Some e => Ok (inr e)
        | None =>
            resolved ← _resolve_symbol d name_path (dg_engine v);
            match resolved, dg_publication v with
            | inr e, _ => Ok (inr e)
            | inl _, None => Err NavInput   (** the [assert] *)
            | inl selected, Some p =>
                match _findings d (published p) maximum_severity with
                | Err _ => as_error (_invalid d (lit "diagnostics") (dg_engine v) None)
                | Ok all =>
                    let findings := filter (λ f, _range_within (fi_range f) (loc_range (ns_location selected)) = true) all in
                    _render d v p findings max_answer_chars (Some selected)
                end
            end
        end
  end.

(** ** The service *)

Context {T : Type} `{PyOrd T} (t_zero : T).
Context (load_diagnostics : pystr → T → res load_failure DiagnosticDocumentInput).

Definition _load_diagnostics (relative_path : pystr) (timeout_seconds : T)
    : res nav_error (DiagnosticDocumentInput + ErrorEnvelope) :=
  let rejected := as_error (lift_failure (error INVALID_INPUT None
                    (Some (any_of_json (JObj [(lit "path", JStr relative_path)]))) None None None)) in
  if negb (_valid_relative_path relative_path) || py_leb timeout_seconds t_zero
  then as_error (lift_failure (error INVALID_INPUT None
         (Some (any_of_json (JObj [(lit "field", JStr (lit "relative_path or timeout_seconds"))]))) None None None))
  else
    match load_diagnostics relative_path timeout_seconds with
    | Ok loaded =>
        if bool_decide (di_relative_path (dg_document loaded) ≠ relative_path)
        then match error INVALID_PATH None (Some (any_of_json (JObj [(lit "path", JStr relative_path)]))) None None None with
             | Ok e => Ok (inr e)
             | Err _ => rejected   (** raised inside the [try] *)
             end
        else Ok (inl loaded)
    | Err (LoadWorkspace e) => as_error (lift_failure (from_workspace_error e))
    | Err LoadRejected => rejected
    | Err LoadOther => Err NavProvider
    end.

Definition service_get_diagnostics_for_file (relative_path : pystr) (timeout_seconds : T)
    (maximum_severity max_answer_chars : Z) : res nav_error ToolEnvelope :=
  loaded ← _load_diagnostics relative_path timeout_seconds;
  match loaded with inr e => Ok (inr e) | inl v => get_diagnostics_for_file v maximum_severity max_answer_chars end.

Definition service_get_diagnostics_for_symbol (relative_path name_path : pystr) (timeout_seconds : T)
    (maximum_severity max_answer_chars : Z) : res nav_error ToolEnvelope :=
  loaded ← _load_diagnostics relative_path timeout_seconds;
  match loaded with inr e => Ok (inr e) | inl v => get_diagnostics_for_symbol v name_path maximum_severity max_answer_chars end.
End diagnostics.

(** ** Findings of a publication *)

(** A published diagnostic that the maximum severity admits. *)
Definition reported (maximum_severity : Z) (raw : pyany) : bool :=
  match raw with
  | PMapping m => match severity_of m with Some s => bool_decide (s ≤ maximum_severity) | None => false end
  | _ => false
  end.

Lemma finding_of_reported d ms raw f :
  finding_of d ms raw = Ok f → is_some f = reported ms raw ∧ ∀ x, f = Some x → fi_severity x ≤ ms.
Proof.
  unfold finding_of, reported. destruct raw; try done. destruct (severity_of _) as [s|]; [|done].
  case_bool_decide as Hlt; [intros [= <-]; rewrite bool_decide_eq_false_2 by lia; done|].
  rewrite bool_decide_eq_true_2 by lia. destruct (raw_get _ "message") as [[]|]; try done.
  destruct (raw_get _ "range") as [[]|]; try done. intros (r & _ & H)%res_bind_Ok.
  apply res_bind_Ok in H as (src & _ & H). apply res_bind_Ok in H as (c & _ & [= <-]). split; [done|].
  intros x [= <-]. cbn [fi_severity]. lia.
Qed.

Lemma findings_count d raws ms fs :
  _findings d raws ms = Ok fs →
  length fs = length (filter (λ raw, reported ms raw = true) raws) ∧ StronglySorted (key_le _finding_key) fs ∧
  Forall (λ f, fi_severity f ≤ ms) fs.
Proof.
  unfold _findings. intros (found & Hf & [= <-])%res_bind_Ok. rewrite py_sorted_length.
  split_and!; [|apply py_sorted_sorted|rewrite py_sorted_perm]; revert found Hf;
    induction raws as [|raw raws IH]; cbn [map_res]; intros found Hf; try (by injection Hf as <-).
  - apply res_bind_Ok in Hf as (f & Hraw%finding_of_reported & Hf). apply res_bind_Ok in Hf as (k & Hk%IH & [= <-]).
    destruct Hraw as [Hraw _]. rewrite filter_cons. rewrite <-Hraw. destruct f; simpl; [by f_equal|done].
  - apply res_bind_Ok in Hf as (f & Hraw%finding_of_reported & Hf). apply res_bind_Ok in Hf as (k & Hk%IH & [= <-]).
    destruct Hraw as [_ Hraw]. destruct f as [f|]; simpl; [|done]. constructor; [by apply Hraw|done].
Qed.

Lemma findings_clean d raws ms fs :
  _findings d raws ms = Ok fs → (fs = [] ↔ Forall (λ raw, reported ms raw = false) raws).
Proof.
  intros (Hlen & _)%findings_count. rewrite <-length_zero_iff_nil, Hlen, length_zero_iff_nil. split.
  - intros Hnil. apply Forall_forall. intros raw Hin. apply not_true_is_false. intros Hr.
    assert (raw ∈ []) as []%elem_of_nil. rewrite <-Hnil. by apply list_elem_of_filter.
  - intros Hall. rewrite Forall_forall in Hall. destruct (filter _ raws) as [|x l] eqn:Hf; [done|].
    assert (x ∈ x :: l) as Hx by left. rewrite <-Hf in Hx. apply list_elem_of_filter in Hx as [Hr Hin].
    by rewrite (Hall x Hin) in Hr.
Qed.

(** ** The groups of the answer *)

(** The groups show exactly these findings: each in the group of the symbol that contains it, in their order. *)
Record grouped_as (d : DocumentNavigation) (findings : list _Finding) (grouped : list group) : Prop := {
  ga_keys : NoDup grouped.*1;
  ga_entries : ∀ key, map_res (finding_dict d) (filter (λ f, finding_group f = key) findings) =
                      Ok (default [] (snd <$> dict_get grouped key));
  ga_total : sum_list_with (λ g : group, length g.2.2) grouped = length findings;
}.

Definition groups_nonempty (grouped : list group) : Prop :=
  ∀ key s es, dict_get grouped key = Some (s, es) → es ≠ [].

Definition groups_fit (d : DocumentNavigation) (base : list (pystr * json)) (max_answer_chars : Z) (grouped : list group) : Prop :=
  ∃ groups, _groups_data d grouped = Ok groups ∧ canonical_size (with_groups base groups) ≤ max_answer_chars.

Lemma map_res_app {E A B} (f : A → res E B) l k :
  map_res f (l ++ k) = (x ← map_res f l; y ← map_res f k; Ok (x ++ y)).
Proof.
  induction l as [|a l IH]; cbn [map_res app mbind res_bind].
  - by destruct (map_res f k).
  - destruct (f a); cbn [mbind res_bind]; [|done]. rewrite IH. destruct (map_res f l); cbn [mbind res_bind]; [|done].
    by destruct (map_res f k).
Qed.

Lemma setdefault_spec grouped key symbol entry grouped' :
  group_setdefault grouped key symbol = (entry, grouped') →
  dict_get grouped' key = Some entry ∧ entry.2 = default [] (snd <$> dict_get grouped key) ∧
  (∀ j, j ≠ key → dict_get grouped' j = dict_get grouped j) ∧ (NoDup grouped.*1 → NoDup grouped'.*1) ∧
  (grouped' = grouped ∨ dict_get grouped key = None ∧ grouped' = dict_set grouped key (symbol, [])).
Proof.
  unfold group_setdefault. destruct (dict_get grouped key) as [e|] eqn:He; intros [= <- <-].
  - split_and!; [done|done|done|done|by left].
  - split_and!; [apply dict_get_set_eq|done|intros j Hj; by apply dict_get_set_ne|apply dict_set_nodup|by right].
Qed.

(** The number of entries of all groups when one group is set. *)
Lemma entries_set (grouped : list group) key s es :
  (sum_list_with (λ g : group, length g.2.2) (dict_set grouped key (s, es)) + length (default [] (snd <$> dict_get grouped key)) =
   sum_list_with (λ g : group, length g.2.2) grouped + length es)%nat.
Proof.
  induction grouped as [|[k [s' es']] grouped IH]; simpl; [lia|]. case_decide; simpl; lia.
Qed.

Lemma entries_setdefault grouped key symbol entry grouped' :
  group_setdefault grouped key symbol = (entry, grouped') →
  sum_list_with (λ g : group, length g.2.2) grouped' = sum_list_with (λ g : group, length g.2.2) grouped.
Proof.
  intros (_ & _ & _ & _ & [->|[Hnone ->]])%setdefault_spec; [done|].
  pose proof (entries_set grouped key symbol []) as He. rewrite Hnone in He. simpl in He. lia.
Qed.

(** Adding the next finding to its group. *)
Lemma grouped_snoc d findings grouped f entry grouped' j :
  grouped_as d findings grouped → group_setdefault grouped (finding_group f) (fi_symbol f) = (entry, grouped') →
  finding_dict d f = Ok j →
  grouped_as d (findings ++ [f]) (dict_set grouped' (finding_group f) (entry.1, entry.2 ++ [j])).
Proof.
  intros [Hk He Htot] Hset Hj. pose proof (entries_setdefault _ _ _ _ _ Hset) as Hsum.
  apply setdefault_spec in Hset as (Hget & Hent & Hother & Hnd & _). split; [by apply dict_set_nodup, Hnd| |].
  2:{ pose proof (entries_set grouped' (finding_group f) entry.1 (entry.2 ++ [j])) as Hs. rewrite Hget in Hs.
      rewrite length_app. simpl in *. rewrite length_app in Hs. simpl in Hs. lia. }
  intros key. rewrite filter_app, map_res_app, He, filter_cons. cbn [mbind res_bind].
  destruct (decide (finding_group f = key)) as [<-|Hne].
  - rewrite dict_get_set_eq, filter_nil. cbn [map_res]. rewrite Hj. cbn. by rewrite Hent.
  - rewrite dict_get_set_ne, Hother, filter_nil by done. cbn. by rewrite app_nil_r.
Qed.

(** A new empty group shows nothing more. *)
Lemma grouped_setdefault d findings grouped key symbol entry grouped' :
  grouped_as d findings grouped → group_setdefault grouped key symbol = (entry, grouped') → grouped_as d findings grouped'.
Proof.
  intros [Hk He Htot] Hset. pose proof (entries_setdefault _ _ _ _ _ Hset) as Hsum.
  apply setdefault_spec in Hset as (Hget & Hent & Hother & Hnd & _). split; [by apply Hnd| |by rewrite Hsum]. intros j. rewrite He.
  destruct (decide (j = key)) as [->|Hne]; [|by rewrite Hother]. by rewrite Hget; cbn; rewrite Hent.
Qed.

Lemma nonempty_snoc grouped key symbol entry grouped' (j : json) :
  groups_nonempty grouped → group_setdefault grouped key symbol = (entry, grouped') →
  groups_nonempty (dict_set grouped' key (entry.1, entry.2 ++ [j])).
Proof.
  intros Hne (_ & _ & Hother & _)%setdefault_spec k s es. destruct (decide (k = key)) as [->|Hk].
  - rewrite dict_get_set_eq. intros [= _ <-]. by destruct entry.2.
  - rewrite dict_get_set_ne, Hother by done. apply Hne.
Qed.

(** What the loop has kept when it ends: the groups [full] that hold the findings kept fit, and the answer is them,
    or them and an empty group for the finding that did not fit. *)
Lemma render_findings_spec d base mx rest : ∀ grouped done grouped' kept,
  grouped_as d done grouped → groups_nonempty grouped → groups_fit d base mx grouped →
  render_findings d base mx grouped (length done) rest = Ok (grouped', kept) →
  (length done ≤ kept ≤ length (done ++ rest))%nat ∧ grouped_as d (take kept (done ++ rest)) grouped' ∧
  ∃ full, groups_nonempty full ∧ groups_fit d base mx full ∧
    (grouped' = full ∨
     ∃ f, (done ++ rest) !! kept = Some f ∧ dict_get full (finding_group f) = None ∧
          grouped' = dict_set full (finding_group f) (fi_symbol f, [])).
Proof.
  induction rest as [|f rest IH]; intros grouped done grouped' kept Hga Hne Hfit; cbn [render_findings].
  - intros [= <- <-]. rewrite app_nil_r, take_ge by done. split_and!; [done..|]. exists grouped. split_and!; [done..|by left].
  - destruct (group_setdefault _ _ _) as [[symbol entries] g'] eqn:Hset.
    intros (j & Hj & H)%res_bind_Ok. apply res_bind_Ok in H as (groups & Hgr & H). case_bool_decide as Hlt.
    + injection H as <- <-. rewrite length_app. split; [lia|]. rewrite take_app_length.
      split; [by eapply grouped_setdefault|]. exists grouped. split_and!; [done..|].
      apply setdefault_spec in Hset as (_ & _ & _ & _ & [->|[Hnone ->]]); [by left|]. right. exists f.
      rewrite lookup_app_r, Nat.sub_diag by done. done.
    + replace (S (length done)) with (length (done ++ [f])) in H by (rewrite length_app; simpl; lia). apply IH in H as (Hle & Hga' & full & Hfull).
      * rewrite <-app_assoc in *. cbn [app] in *. rewrite length_app in Hle at 1. simpl in Hle.
        split; [lia|]. split; [done|]. by exists full.
      * exact (grouped_snoc _ _ _ _ (symbol, entries) _ _ Hga Hset Hj).
      * exact (nonempty_snoc _ _ _ (symbol, entries) _ _ Hne Hset).
      * exists groups. split; [done|lia].
Qed.

(** The keys and symbols of the groups are those of the findings. *)
Lemma render_findings_symbols (Q : list pystr → option NormalizedSymbol → Prop) d base mx rest : ∀ grouped n grouped' kept,
  (∀ f, f ∈ rest → Q (finding_group f) (fi_symbol f)) → (∀ g : group, g ∈ grouped → Q g.1 g.2.1) →
  render_findings d base mx grouped n rest = Ok (grouped', kept) → ∀ g : group, g ∈ grouped' → Q g.1 g.2.1.
Proof.
  induction rest as [|f rest IH]; intros grouped n grouped' kept Hrest Hq; cbn [render_findings]; [by intros [= <- _]|].
  destruct (group_setdefault _ _ _) as [[symbol entries] g'] eqn:Hset.
  assert (Q (finding_group f) symbol ∧ ∀ g : group, g ∈ g' → Q g.1 g.2.1) as [Hs Hg'].
  { unfold group_setdefault in Hset. destruct (dict_get grouped _) as [e|] eqn:He; injection Hset as ? <-; subst.
    - apply dict_get_Some_elem in He. split; [exact (Hq _ He)|done].
    - split; [apply Hrest; by left|]. intros [k w] Hin. apply dict_set_elem_inv in Hin as [[= -> ->]|Hin]; [apply Hrest; by left|by apply Hq]. }
  intros (j & _ & H)%res_bind_Ok. apply res_bind_Ok in H as (groups & _ & H). case_bool_decide.
  - injection H as <- _. done.
  - eapply IH; [..|exact H]; [intros; apply Hrest; by right|].
    intros [k w] Hin. apply dict_set_elem_inv in Hin as [[= -> ->]|Hin]; [done|by apply Hg'].
Qed.

Lemma findings_located d raws ms fs :
  _findings d raws ms = Ok fs →
  Forall (λ f, range_ok (fi_range f) ∧ ∀ s, fi_symbol f = Some s → s ∈ all_symbols (dn_symbols d)) fs.
Proof.
  unfold _findings. intros (found & Hf & [= <-])%res_bind_Ok. rewrite py_sorted_perm. revert found Hf.
  induction raws as [|raw raws IH]; cbn [map_res]; intros found Hf; [injection Hf as <-; constructor|].
  apply res_bind_Ok in Hf as (f & Hraw & Hf). apply res_bind_Ok in Hf as (k & Hk%IH & [= <-]).
  destruct f as [f|]; simpl; [|done]. constructor; [|done]. unfold finding_of in Hraw.
  destruct raw; try done. destruct (severity_of _); [|done]. case_bool_decide; [done|].
  destruct (raw_get _ "message") as [[]|]; try done. destruct (raw_get _ "range") as [[]|]; try done.
  apply res_bind_Ok in Hraw as (r & Hr & H'). apply res_bind_Ok in H' as (src & _ & H').
  apply res_bind_Ok in H' as (c & _ & [= <-]). cbn [fi_range fi_symbol]. split.
  - unfold diagnostic_range in Hr. destruct (raw_get _ "start") as [[]|]; try done. destruct (raw_get _ "end") as [[]|]; try done.
    apply res_bind_Ok in Hr as (a & _ & Hr). apply res_bind_Ok in Hr as (b & _ & Hr).
    destruct (range_init a b) eqn:Hi; [|done]. injection Hr as <-. by eapply range_init_ok.
  - intros t Hs. pose proof (containing_symbol_narrowest (dn_symbols d)
      {| loc_uri := dn_uri d; loc_range := r; loc_path := None |}) as Hc. cbn zeta in Hc. rewrite Hs in Hc. by destruct Hc.
Qed.

Section diagnostics_facts.
Context (sha256_hex : list N → pystr).
Context (urlparse : pystr → parsed_uri) (unquote : pystr → pystr) (py_str : pyany → pystr).
Context (scalar : pystr → pyany) (digit_char : N → bool).
Context {P : Type}.
Implicit Types (v : DiagnosticDocumentInput (P := P)) (p : DiagnosticsSnapshot (P := P)).

Lemma base_groups_fit d v p fs sel mx :
  canonical_size (JObj (render_base sha256_hex d v p fs sel)) ≤ mx →
  groups_fit d (render_base sha256_hex d v p fs sel) mx [].
Proof. intros Hle. exists []. split; [done|]. exact Hle. Qed.

(** What an answer shows of a list of findings. *)
Record answer_shows d v p (fs : list _Finding) (sel : option NormalizedSymbol) (mx : Z) (env : SuccessEnvelope) : Prop := {
  as_shown : ∃ grouped groups kept, (kept ≤ length fs)%nat ∧ grouped_as d (take kept fs) grouped ∧
    _groups_data d grouped = Ok groups ∧ sv_data env = with_groups (render_base sha256_hex d v p fs sel) groups ∧
    sv_truncation env = Some {| tm_truncated := bool_decide (kept < length fs)%nat;
                                tm_omitted_count := Z.of_nat (length fs) - Z.of_nat kept |} ∧
    (canonical_size (sv_data env) ≤ mx ∨
     (kept < length fs)%nat ∧ ∃ key s, dict_get grouped key = Some (s, [])) ∧
    (∀ g : group, g ∈ grouped → ∃ f, f ∈ fs ∧ g.1 = finding_group f ∧ g.2.1 = fi_symbol f);
  as_generation : ∃ g, sv_generations env = Some g ∧ gm_document g = Some (dg_requested_generation v);
}.

Lemma generations_document d n g : _generations d n = Ok g → gm_document g = Some n.
Proof.
  unfold _generations, generation_metadata_init. destruct (dn_generations d); destruct (forallb _ _); try done;
    by intros [= <-].
Qed.

Lemma render_answer d v p fs mx sel env :
  _render sha256_hex d v p fs mx sel = Ok (inl env) → answer_shows d v p fs sel mx env.
Proof.
  unfold _render. case_bool_decide as Hsize; [by intros ?%as_error_not_success|].
  intros ([grouped kept] & Hr & H)%res_bind_Ok. apply res_bind_Ok in H as (groups & Hg & H).
  apply res_bind_Ok in H as (gens & Hgens & H). apply res_bind_Ok in H as (t & Ht & H).
  apply success_data in H as ->. destruct (render_findings _ _ _ _ _ _) as [gk|] eqn:Hloop; [|done].
  injection Hr as ->. destruct (_groups_data d grouped) as [groups'|] eqn:Hgroups; [|done]. injection Hg as ->.
  pose proof (render_findings_spec d (render_base sha256_hex d v p fs sel) mx fs [] [] grouped kept) as Hspec.
  cbn [app length] in Hspec.
  destruct Hspec as (Hle & Hga & full & Hne & Hfull & Hcase); [by split; [constructor|..]|done|apply base_groups_fit; lia|done|].
  rewrite truncation_exact in Ht by lia. injection Ht as <-. split; cbn.
  - exists grouped, groups, kept. split_and!; [lia|done..| |].
    2:{ apply (render_findings_symbols (λ k o, ∃ f, f ∈ fs ∧ k = finding_group f ∧ o = fi_symbol f) d (render_base sha256_hex d v p fs sel) mx fs [] 0 grouped kept);
          [| |exact Hloop].
        - intros f Hf. by exists f.
        - by intros g ?%elem_of_nil. }
    destruct Hcase as [->|(f & Hf & _ & ->)].
    + left. destruct Hfull as (gs & Hgs & Hs). rewrite Hgroups in Hgs. by injection Hgs as ->.
    + right. split; [by apply lookup_lt_Some in Hf|]. eexists _, _. apply dict_get_set_eq.
  - exists gens. split; [done|]. by eapply generations_document.
Qed.

(** What has to hold of the input for any diagnostics to be shown. *)
Record current_publication v (d : DocumentNavigation) p : Prop := {
  cp_document : from_input urlparse unquote py_str (dg_document v) = Ok d;
  cp_ready : dg_readiness v = READY;
  cp_publication : dg_publication v = Some p;
  cp_uri : snap_uri p = dn_uri d;
  cp_state : snap_state p = CLEAN ∨ snap_state p = FINDINGS;
  cp_generation : snap_generation p = dg_requested_generation v;
}.

Lemma document_ok v d :
  _document urlparse unquote py_str v = Ok (inl d) →
  from_input urlparse unquote py_str (dg_document v) = Ok d ∧ ∀ p, dg_publication v = Some p → snap_uri p = dn_uri d.
Proof.
  unfold _document. destruct (from_input _ _ _ _) as [d'|]; [|by intros ?%as_error_not_success].
  destruct (dg_publication v) as [p|]; [|by intros [= ->]].
  case_bool_decide as Hu; [by intros ?%as_error_not_success|]. intros [= ->]. split; [done|]. intros q [= <-].
  destruct (decide (snap_uri p = dn_uri d)) as [He|He]; [exact He|done].
Qed.

Lemma terminal_none v d :
  _terminal_state v d = Ok None →
  dg_readiness v = READY ∧ ∃ p, dg_publication v = Some p ∧ (snap_state p = CLEAN ∨ snap_state p = FINDINGS) ∧
    snap_generation p = dg_requested_generation v.
Proof.
  unfold _terminal_state. intros (g & _ & H)%res_bind_Ok.
  destruct (dg_readiness v); [|by apply res_bind_Ok in H as (? & _ & ?)..]. split; [done|].
  destruct (dg_publication v) as [p|]; [|by apply res_bind_Ok in H as (? & _ & ?)]. exists p. split; [done|].
  case_bool_decide as Hst; [by apply res_bind_Ok in H as (? & _ & ?)|].
  case_bool_decide as Hg; [by apply res_bind_Ok in H as (? & _ & ?)|]. split; [|destruct (decide (snap_generation p = dg_requested_generation v)); done].
  destruct (snap_state p); [set_solver|by left|by right|set_solver].
Qed.

Lemma file_success v ms mx env :
  get_diagnostics_for_file sha256_hex urlparse unquote py_str scalar v ms mx = Ok (inl env) →
  ∃ d p fs, current_publication v d p ∧ _findings d (published scalar p) ms = Ok fs ∧
    answer_shows d v p fs None mx env.
Proof.
  unfold get_diagnostics_for_file. intros ([d|e] & Hd & H)%res_bind_Ok; [|done].
  destruct (_valid_bounds ms mx); cbn [negb] in H; [|by apply as_error_not_success in H].
  apply res_bind_Ok in H as ([e|] & Ht & H); [done|]. apply terminal_none in Ht as (Hr & p & Hp & Hs & Hg).
  rewrite Hp in H. apply document_ok in Hd as [Hd Hu]. specialize (Hu p Hp).
  destruct (_findings _ _ _) as [fs|] eqn:Hf; [|by apply as_error_not_success in H].
  exists d, p, fs. split; [by split|]. split; [done|]. by apply render_answer.
Qed.

(** What [_resolve_symbol] returns: the one symbol selected. *)
Lemma resolve_symbol_ok d name_path engine s :
  _resolve_symbol digit_char d name_path engine = Ok (inl s) → selected_symbols digit_char (dn_symbols d) name_path = [s].
Proof.
  unfold _resolve_symbol. pose proof (py_sorted_perm _symbol_key (selected_symbols digit_char (dn_symbols d) name_path)) as Hp.
  destruct (py_sorted _ _) as [|x [|y l]]; [by intros ?%as_error_not_success| |by intros ?%as_error_not_success].
  intros [= ->]. by apply Permutation_singleton_l in Hp.
Qed.

Lemma symbol_success v name_path ms mx env :
  get_diagnostics_for_symbol sha256_hex urlparse unquote py_str scalar digit_char v name_path ms mx = Ok (inl env) →
  ∃ d p all s, current_publication v d p ∧ _findings d (published scalar p) ms = Ok all ∧
    selected_symbols digit_char (dn_symbols d) name_path = [s] ∧
    answer_shows d v p (filter (λ f, _range_within (fi_range f) (loc_range (ns_location s)) = true) all) (Some s) mx env.
Proof.
  unfold get_diagnostics_for_symbol. intros ([d|e] & Hd & H)%res_bind_Ok; [|done].
  destruct (_ || _); [by apply as_error_not_success in H|].
  apply res_bind_Ok in H as ([e|] & Ht & H); [done|]. apply terminal_none in Ht as (Hr & p & Hp & Hs & Hg).
  apply res_bind_Ok in H as ([s|e] & Hsel & H); [|done]. apply resolve_symbol_ok in Hsel.
  rewrite Hp in H. apply document_ok in Hd as [Hd Hu]. specialize (Hu p Hp).
  destruct (_findings _ _ _) as [fs|] eqn:Hf; [|by apply as_error_not_success in H].
  exists d, p, fs, s. split; [by split|]. split_and!; [done..|]. by apply render_answer.
Qed.
End diagnostics_facts.

(** ** Properties *)

Lemma with_groups_get sha d {P} (v : DiagnosticDocumentInput (P := P)) p fs sel groups :
  data_get (with_groups (render_base sha d v p fs sel) groups) "state" =
    Some (JStr (if nonempty fs then lit "findings" else lit "clean")) ∧
  data_get (with_groups (render_base sha d v p fs sel) groups) "groups" = Some (JList groups).
Proof. split; [|unfold data_get, with_groups; apply dict_get_set_eq]. reflexivity. Qed.

(** C17: diagnostics of a file are never a false "clean". When the snapshot of a language server's state, after any
    sequence of operations, is answered for, the answer is for the last publication accepted for that document and for the
    generation that was asked for, and it says "clean" exactly when that publication has no diagnostic within the maximum
    severity; otherwise the findings shown are a prefix of them in source order, each under the symbol that contains it,
    and the number left out is exact. *)
Theorem diagnostics_answer_is_current sha urlparse unquote py_str scalar {P} `{EqDecision P}
    (cs : list (state_call (P := P))) uri v ms mx env :
  let s := run_state_calls cs lsp_state_init in
  dg_publication v = Some (diagnostics_snapshot uri (Some (dg_requested_generation v)) s) →
  get_diagnostics_for_file sha urlparse unquote py_str scalar v ms mx = Ok (inl env) →
  ∃ pub current d fs, from_input urlparse unquote py_str (dg_document v) = Ok d ∧ dn_uri d = uri ∧
    st_publications s !! uri = Some pub ∧ spec_run uri cs lsp_state_init None = Some (current, pub_diagnostics pub) ∧
    doc_generation (pub_document pub) = dg_requested_generation v ∧
    (data_get (sv_data env) "state" = Some (JStr (lit "clean")) ↔
     Forall (λ x, reported ms (frozen_any scalar x) = false) (pub_diagnostics pub)) ∧
    _findings d (frozen_any scalar <$> pub_diagnostics pub) ms = Ok fs ∧
    StronglySorted (key_le _finding_key) fs ∧
    length fs = length (filter (λ x, reported ms (frozen_any scalar x) = true) (pub_diagnostics pub)) ∧
    ∃ kept grouped groups, (kept ≤ length fs)%nat ∧ grouped_as d (take kept fs) grouped ∧ _groups_data d grouped = Ok groups ∧
      data_get (sv_data env) "groups" = Some (JList groups) ∧
      tm_omitted_count <$> sv_truncation env = Some (Z.of_nat (length fs) - Z.of_nat kept).
Proof.
  intros s Hpub (d & p & fs & Hcur & Hf & Hshow)%file_success. destruct Hcur as [Hd _ Hp Huri Hst Hgen].
  rewrite Hpub in Hp. injection Hp as Hp. unfold diagnostics_snapshot in Hp.
  pose proof (uri_view_run uri cs lsp_state_init (lsp_state_init_wf (P := P))) as Hview. fold s in Hview.
  unfold uri_view at 1 in Hview.
  destruct (st_publications s !! uri) as [pub|] eqn:Hlook; [|by subst p; destruct Hst]. cbn [fmap option_fmap option_map] in Hview.
  subst p. cbn [snap_generation snap_diagnostics] in *. unfold published in Hf. cbn [snap_diagnostics] in Hf.
  destruct Hshow as [(grouped & groups & kept & Hle & Hga & Hgr & Hdata & Htr & _ & _) _].
  pose proof (findings_count _ _ _ _ Hf) as (Hlen & Hsort & _). pose proof (findings_clean _ _ _ _ Hf) as Hclean.
  eexists pub, _, d, fs. split_and!; [done|by symmetry|done|by symmetry|done| |done|done| |].
  - rewrite Hdata. edestruct with_groups_get as [Hstate _]. rewrite Hstate. rewrite Forall_fmap in Hclean.
    etrans; [|exact Hclean]. by destruct fs.
  - rewrite Hlen. clear. induction (pub_diagnostics pub) as [|x l IH]; [done|]. csimpl. rewrite !filter_cons.
    destruct (decide _); simpl; [by rewrite IH|done].
  - exists kept, grouped, groups. split_and!; [done..| |by rewrite Htr]. rewrite Hdata.
    apply with_groups_get.
Qed.

Lemma groups_data_elem d grouped groups key s es :
  _groups_data d grouped = Ok groups → dict_get grouped key = Some (s, es) →
  ∃ g, g ∈ groups ∧ data_get g "findings" = Some (JList es).
Proof.
  intros Hg Hkey%dict_get_Some_elem. unfold _groups_data in Hg.
  assert ((key, (s, es)) ∈ py_sorted (λ g : group, _group_key g.2.1) grouped) as Hin by (by apply elem_of_py_sorted).
  revert groups Hg. induction (py_sorted _ grouped) as [|x l IH]; [by apply elem_of_nil in Hin|]. cbn [map_res].
  intros groups (y & Hy & H)%res_bind_Ok. apply res_bind_Ok in H as (ys & Hys & [= <-]).
  apply elem_of_cons in Hin as [<-|Hin]; [|destruct (IH Hin ys Hys) as (g & ? & ?); exists g; split; [by right|done]].
  exists y. split; [by left|]. cbn [group_dict] in Hy. destruct s as [s|]; [|by injection Hy as <-].
  by apply res_bind_Ok in Hy as (r & _ & [= <-]).
Qed.

(** the diagnostics of a symbol are the file's, cut to the symbol: the name path selects exactly one symbol of the
    document, and the answer shows, for a publication of the generation asked for, a prefix of exactly those findings of
    the file that lie within the symbol's range, and says "clean" when there are none; it is at most [max_answer_chars]
    long unless a finding was left out and its group is shown empty. *)
Theorem symbol_diagnostics_exact sha urlparse unquote py_str scalar digit_char {P} (v : DiagnosticDocumentInput (P := P))
    name_path ms mx env :
  get_diagnostics_for_symbol sha urlparse unquote py_str scalar digit_char v name_path ms mx = Ok (inl env) →
  ∃ d p s all kept grouped groups,
    current_publication urlparse unquote py_str v d p ∧ selected_symbols digit_char (dn_symbols d) name_path = [s] ∧
    _findings d (published scalar p) ms = Ok all ∧
    let inside := filter (λ f, _range_within (fi_range f) (loc_range (ns_location s)) = true) all in
    (kept ≤ length inside)%nat ∧ grouped_as d (take kept inside) grouped ∧ _groups_data d grouped = Ok groups ∧
    data_get (sv_data env) "groups" = Some (JList groups) ∧
    (data_get (sv_data env) "state" = Some (JStr (lit "clean")) ↔ inside = []) ∧
    tm_omitted_count <$> sv_truncation env = Some (Z.of_nat (length inside) - Z.of_nat kept) ∧
    (canonical_size (sv_data env) ≤ mx ∨
     (kept < length inside)%nat ∧ ∃ g, g ∈ groups ∧ data_get g "findings" = Some (JList [])).
Proof.
  intros (d & p & all & s & Hcur & Hf & Hs & Hshow)%symbol_success.
  destruct Hshow as [(grouped & groups & kept & Hle & Hga & Hgr & Hdata & Htr & Hbound & _) _].
  exists d, p, s, all, kept, grouped, groups. cbn zeta.
  edestruct with_groups_get as [Hstate Hgroups]. rewrite <-Hdata in Hstate, Hgroups.
  split_and!; [done..| |by rewrite Htr|].
  - rewrite Hstate. by destruct (filter _ all).
  - destruct Hbound as [Hb|(Hlt & key & s' & Hget)]; [by left|right]. split; [done|]. by eapply groups_data_elem.
Qed.
