(* ===== verification/DiagnosticsAdapter.v ===== *)
(** * Compact diagnostics

    Model of [src/serena_light/tools/diagnostics_adapter.py]: the one place where
    a diagnostics answer is flattened into the compact schema and cut to the
    public budget. The theorems compose it with [Diagnostics]: what a client sees
    of the publication of a language server. *)

From S2P Require Import Prelude Paths Json Envelopes LspState Positions Normalize Navigation Selection Compact Diagnostics.

(** [_mapping], [_sequence], [_string] and [_integer] on [mapping.get(field)]. *)
Definition get_mapping (v : pyany) (k : string) : res compact_error pyany :=
  match any_get v k with Some (PMapping m) => Ok (PMapping m) | _ => Err BadPublicRange end.
Definition get_sequence (v : pyany) (k : string) : res compact_error (list pyany) :=
  match any_get v k with Some (PSequence l) => Ok l | _ => Err BadPublicRange end.
Definition get_string (v : pyany) (k : string) : res compact_error pystr :=
  match any_get v k with Some (PStr s) => _ ← ensure (nonempty s) EmptyString; Ok s | _ => Err BadPublicRange end.
Definition as_mapping (v : pyany) : res compact_error pyany :=
  match v with PMapping m => Ok (PMapping m) | _ => Err BadPublicRange end.

Definition _flatten_finding (finding : pyany) (symbol : option pystr) : res compact_error json :=
  range_field ← get_mapping finding "range";
  r ← compact_range range_field;
  severity ← get_string finding "severity";
  message ← get_string finding "message";
  source ← match any_get finding "source" with
           | None | Some PNone => Ok None
           | Some _ => s ← get_string finding "source"; Ok (Some s)
           end;
  code ← match any_get finding "code" with
         | None | Some PNone => Ok None
         | Some (PStr s) => Ok (Some (JStr s))
         | Some (PInt z) => Ok (Some (JInt z))
         | Some _ => Err BadPublicRange
         end;
  Ok (JObj ([(lit "severity", JStr severity); (lit "range", _range_json r); (lit "message", JStr message)] ++
            entry "symbol" (JStr <$> symbol) ++ entry "source" (JStr <$> source) ++ entry "code" code)).

(** The findings of one group. *)
Definition flatten_group (raw_group : pyany) : res compact_error (list json) :=
  group ← as_mapping raw_group;
  name_path ← get_string group "name_path";
  let symbol := if bool_decide (name_path = lit "<file>") then None else Some name_path in
  raw_findings ← get_sequence group "findings";
  map_res (λ raw, finding ← as_mapping raw; _flatten_finding finding symbol) raw_findings.

Definition _flatten_findings (data : pyany) : res compact_error (list json) :=
  groups ← get_sequence data "groups";
  findings ← map_res flatten_group groups;
  Ok (concat findings).

Definition _internal_omitted (envelope : pyany) : res compact_error Z :=
  match any_get envelope "truncation" with
  | None | Some PNone => Ok 0
  | Some (PMapping m) =>
      match default (PInt 0) (any_get (PMapping m) "omitted_count") with
      | PInt z => _ ← ensure (bool_decide (0 ≤ z)) NegativeOmitted; Ok z
      | _ => Err BadPublicRange
      end
  | Some _ => Err BadPublicRange
  end.

Definition _payload (workspace path : pystr) (findings : list json) (advisory : bool) (omitted : Z) : json :=
  JObj [(lit "ok", JBool true);
        (lit "data", JObj [(lit "workspace", JStr workspace);
           (lit "files", JList [JObj ([(lit "path", JStr path); (lit "diagnostics", JList findings)] ++
                                      if advisory then [(lit "authority", JStr (lit "advisory"))] else [])]);
           (lit "omitted", JInt omitted)])].

(** [_invalid_input] and [_malformed_result] *)
Definition rejected (code : ErrorCode) (details : list (pystr * json)) : res compact_error CallToolResult :=
  match error code None (Some (any_of_json (JObj details))) None None None with
  | Ok e => Ok (render_payload (error_dict e))
  | Err e => Err (EnvelopeFailed e)
  end.

Definition _invalid_input (field : pystr) : res compact_error CallToolResult := rejected INVALID_INPUT [(lit "field", JStr field)].
Definition _malformed_result : res compact_error CallToolResult :=
  rejected UNSUPPORTED [(lit "reason", JStr (lit "malformed_diagnostics_success"))].

(** The body of the second [try]: workspace, path, advisory, findings, omitted. *)
Definition read_envelope (envelope : pyany) : res compact_error (pystr * pystr * bool * list json * Z) :=
  _ ← ensure (match any_get envelope "ok" with Some (PBool true) => true | _ => false end) BadPublicRange;
  data ← get_mapping envelope "data";
  workspace_field ← get_mapping envelope "workspace";
  workspace ← get_string workspace_field "root";
  path ← get_string data "relative_path";
  engine ← get_mapping data "engine";
  let advisory := match any_get engine "authority" with Some (PStr a) => bool_decide (a = lit "advisory") | _ => false end in
  findings ← _flatten_findings data;
  omitted ← _internal_omitted envelope;
  Ok (workspace, path, advisory, findings, omitted).

Section compact_diagnostics.
Context (sha256_utf8 : pystr → pystr).

Definition no_context : error_context :=
  {| ex_workspace := None; ex_adapter := None; ex_generations := None; ex_authorities := [] |}.

(** The [while True] loop on the first [n] of the findings. *)
Fixpoint retain_loop (workspace path : pystr) (findings : list json) (advisory : bool) (omitted budget : Z) (n : nat)
    : res compact_error CallToolResult :=
  let total := Z.of_nat (length findings) in
  let payload := _payload workspace path (take n findings) advisory (omitted + (total - Z.of_nat n)) in
  match findings, n with
  | first :: _, O =>
      minimum_required_chars_result sha256_utf8
        (text_size (_payload workspace path [first] advisory (omitted + total - 1))) no_context None None None (PInt budget)
  | _, _ =>
      if bool_decide (text_size payload ≤ budget) then Ok (render_payload payload)
      else match n with
           | O => minimum_required_chars_result sha256_utf8 (text_size payload) no_context None None None (PInt budget)
           | S n' => retain_loop workspace path findings advisory omitted budget n'
           end
  end.

Definition compact_diagnostics_result (envelope : pyany) (max_answer_chars : pyany) : res compact_error CallToolResult :=
  match validate_max_answer_chars max_answer_chars with
  | Err _ => _invalid_input (lit "max_answer_chars")
  | Ok budget =>
      match read_envelope envelope with
      | Err _ => _malformed_result
      | Ok (workspace, path, advisory, findings, omitted) =>
          retain_loop workspace path findings advisory omitted budget (length findings)
      end
  end.
End compact_diagnostics.

(** ** Rendered ranges are compact ranges *)

Lemma units_take_lt e (l : pystr) i j : (i < j ≤ length l)%nat → units_of e (take i l) < units_of e (take j l).
Proof.
  revert i j. induction l as [|c l IH]; intros i j Hij; simpl in Hij; [lia|].
  destruct j as [|j]; [lia|]. destruct i as [|i]; simpl; [|specialize (IH i j); lia].
  pose proof (units_pos e c). pose proof (units_of_nonneg e (take j l)). lia.
Qed.

(** The column of a rendered position counts the characters of its line before it. *)
Lemma position_column m p a :
  position m p = Ok a →
  pp_line a = line p ∧ 0 ≤ line p ∧
  let s := snapshot m in
  let content := text_slice (text s) (_line_starts s !!! Z.to_nat (line p)) (_line_content_ends s !!! Z.to_nat (line p)) in
  ∃ k, (k ≤ length content)%nat ∧ pp_column a = Z.of_nat k ∧ character p = units_of (encoding m) (take k content).
Proof.
  unfold position, lsp_to_text_offset. case_bool_decide; [done|]. case_bool_decide; [done|]. cbn [orb].
  case_bool_decide; [done|]. intros (o & Ho & H')%res_bind_Ok. apply res_bind_Ok in Ho as (r & Hr & [= <-]).
  apply res_bind_Ok in H' as (b & _ & [= <-]). cbn [pp_line pp_column]. split; [done|]. split; [lia|].
  apply walk_line_sound in Hr as (k & Hk & -> & Hu). exists k. split_and!; [done|lia|lia].
Qed.

Lemma py_leb_pair_Z (a b a' b' : Z) : py_leb (a, b) (a', b') = true ↔ a < a' ∨ a = a' ∧ b ≤ b'.
Proof.
  rewrite py_leb_pair. unfold py_leb, PyOrd_Z. destruct (Z.leb_spec a a'), (Z.leb_spec a' a); rewrite ?Z.leb_le; lia || (split; [lia|done]) || (split; [done|lia]).
Qed.

Lemma rendered_position_order m p q a b :
  position m p = Ok a → position m q = Ok b → py_leb (line p, character p) (line q, character q) = true →
  py_leb (pp_line a, pp_column a) (pp_line b, pp_column b) = true.
Proof.
  intros (Hla & _ & k & Hk & Hca & Hpa)%position_column (Hlb & _ & j & Hj & Hcb & Hpb)%position_column.
  rewrite Hla, Hlb, !py_leb_pair_Z. intros [Hlt|[Heq Hle]]; [by left|right]. split; [done|]. rewrite <-Heq in *.
  rewrite Hpa, Hpb in Hle. destruct (decide (k ≤ j)%nat) as [?|Hgt]; [lia|].
  pose proof (units_take_lt (encoding m) _ j k ltac:(split; [lia|exact Hk])). lia.
Qed.

Lemma compact_position_rendered p :
  0 ≤ pp_line p → 0 ≤ pp_column p →
  _compact_position (Some (any_of_json (position_json p))) "column" BadPublicRange = Ok (pp_line p, pp_column p).
Proof.
  intros Hl Hc. unfold _compact_position.
  change (nat_field _ "line") with (if bool_decide (0 ≤ pp_line p) then Some (pp_line p) else None).
  change (nat_field _ "column") with (if bool_decide (0 ≤ pp_column p) then Some (pp_column p) else None).
  by rewrite !bool_decide_eq_true_2 by done.
Qed.

Lemma source_range_compact m r j :
  _source_range m r = Ok j → range_ok r → ∃ items c, any_of_json j = PMapping items ∧ compact_range (PMapping items) = Ok c.
Proof.
  unfold _source_range, range. intros ([a b] & Hab & [= <-])%res_bind_Ok (_ & _ & _ & _ & Hord).
  apply res_bind_Ok in Hab as (a' & Ha & Hab). apply res_bind_Ok in Hab as (b' & Hb & [= <- <-]).
  pose proof (rendered_position_order _ _ _ _ _ Ha Hb Hord) as Hle.
  apply position_column in Ha as (Hla & Ha0 & k & _ & Hca & _). apply position_column in Hb as (Hlb & Hb0 & i & _ & Hcb & _).
  cbn [_lsp_position line] in *. eexists _, _. split; [reflexivity|]. unfold compact_range.
  change (any_get _ "start") with (Some (any_of_json (position_json a'))). rewrite compact_position_rendered by lia.
  cbn [mbind res_bind]. change (any_get _ "end") with (Some (any_of_json (position_json b'))).
  rewrite compact_position_rendered by lia. cbn [mbind res_bind fst snd]. unfold py_ltb, CompactPosition. rewrite Hle. reflexivity.
Qed.

(** ** Rendered findings are flattened *)

Definition presentable (f : _Finding) : Prop := fi_message f ≠ [] ∧ ∀ s, fi_source f = Some s → s ≠ [].

(** The symbol a group of findings is shown under, if it is not the file itself. *)
Definition shown_symbol (key : list pystr) : option pystr :=
  if bool_decide (join_slash key = lit "<file>") then None else Some (join_slash key).

(** The compact record of a finding: its severity, message, source and code, its range in the coordinates of the
    document, and the name path of its group. *)
Definition compact_record (d : DocumentNavigation) (key : list pystr) (f : _Finding) (x : json) : Prop :=
  ∃ r c, _source_range (dn_mapper d) (fi_range f) = Ok r ∧ compact_range (any_of_json r) = Ok c ∧
    x = JObj ([(lit "severity", JStr (_severity_name (fi_severity f))); (lit "range", _range_json c); (lit "message", JStr (fi_message f))] ++
              entry "symbol" (JStr <$> shown_symbol key) ++ entry "source" (JStr <$> fi_source f) ++
              entry "code" ((λ c, match c with inl s => JStr s | inr z => JInt z end) <$> fi_code f)).

Lemma finding_flattens d f j key :
  finding_dict d f = Ok j → range_ok (fi_range f) → presentable f →
  ∃ items, any_of_json j = PMapping items ∧ ∃ x, _flatten_finding (PMapping items) (shown_symbol key) = Ok x ∧ compact_record d key f x.
Proof.
  unfold finding_dict. intros (r & Hr & [= <-])%res_bind_Ok Hok [Hmsg Hsrc].
  destruct (source_range_compact _ _ _ Hr Hok) as (items & c & Hitems & Hc).
  eexists. split; [reflexivity|]. unfold _flatten_finding, get_mapping.
  change (any_get _ "range") with (Some (any_of_json r)). rewrite Hitems. cbn [mbind res_bind]. rewrite Hc. cbn [mbind res_bind].
  assert (∀ l, get_string (PMapping ((Some (lit "severity"), PStr (_severity_name (fi_severity f))) :: l)) "severity" =
    Ok (_severity_name (fi_severity f))) as Hsev.
  { intros l. unfold get_string. cbn [any_get dict_get]. rewrite decide_True by done.
    unfold _severity_name. by repeat case_bool_decide. }
  cbn [any_of_json fmap list_fmap fst snd app]. rewrite Hsev. cbn [mbind res_bind].
  assert (∀ l, get_string (PMapping ((Some (lit "severity"), PStr (_severity_name (fi_severity f))) ::
    (Some (lit "message"), PStr (fi_message f)) :: l)) "message" = Ok (fi_message f)) as Hm.
  { intros l. unfold get_string. cbn [any_get dict_get]. rewrite decide_False, decide_True by done. by destruct (fi_message f). }
  rewrite Hm. cbn [mbind res_bind].
  assert (∀ x, x = JObj ([(lit "severity", JStr (_severity_name (fi_severity f))); (lit "range", _range_json c); (lit "message", JStr (fi_message f))] ++
              entry "symbol" (JStr <$> shown_symbol key) ++ entry "source" (JStr <$> fi_source f) ++
              entry "code" ((λ c, match c with inl s => JStr s | inr z => JInt z end) <$> fi_code f)) → compact_record d key f x) as Hrec.
  { intros x ->. exists r, c. rewrite Hitems. by split_and!. }
  destruct (fi_source f) as [[|x src]|]; [by destruct (Hsrc [])| |]; destruct (fi_code f) as [[s|z]|];
    (eexists; split; [reflexivity|by apply Hrec]).
Qed.

Lemma map_res_lengths {E A B} (f : A → res E B) l k : map_res f l = Ok k → length k = length l.
Proof.
  revert k. induction l as [|x l IH]; cbn [map_res]; intros k; [by intros [= <-]|].
  intros (y & _ & H)%res_bind_Ok. apply res_bind_Ok in H as (ys & Hys%IH & [= <-]). simpl. by rewrite Hys.
Qed.

(** The rendered findings of a group, flattened one by one. *)
Lemma entries_flatten d fs es key :
  map_res (finding_dict d) fs = Ok es → Forall (λ f, range_ok (fi_range f) ∧ presentable f) fs →
  ∃ xs, map_res (λ raw, finding ← as_mapping raw; _flatten_finding finding (shown_symbol key)) (any_of_json <$> es) = Ok xs ∧
    Forall2 (compact_record d key) fs xs.
Proof.
  intros Hes Hfs. revert es Hes. induction Hfs as [|f fs [Hok Hp] _ IH]; cbn [map_res]; intros es Hes.
  - injection Hes as <-. by exists [].
  - apply res_bind_Ok in Hes as (j & Hj & Hes). apply res_bind_Ok in Hes as (js & Hjs & [= <-]).
    destruct (IH js Hjs) as (xs & Hxs & Hall). destruct (finding_flattens d f j key Hj Hok Hp) as (items & Hi & x & Hx & Hrec).
    exists (x :: xs). csimpl. rewrite Hi. cbn [as_mapping mbind res_bind]. rewrite Hx. cbn [mbind res_bind].
    cbn [mbind res_bind] in Hxs. rewrite Hxs. split; [done|by constructor].
Qed.

Lemma group_flattens d fs (g : group) j :
  group_dict d g = Ok j → map_res (finding_dict d) fs = Ok g.2.2 →
  Forall (λ f, range_ok (fi_range f) ∧ presentable f) fs →
  g.1 = match g.2.1 with Some s => ns_path s | None => [lit "<file>"] end → join_slash g.1 ≠ [] →
  ∃ xs, flatten_group (any_of_json j) = Ok xs ∧ Forall2 (compact_record d g.1) fs xs.
Proof.
  destruct g as [key [symbol es]]. cbn [group_dict fst snd]. intros Hj Hes Hfs Hkey Hname.
  destruct symbol as [s|]; subst key.
  - apply res_bind_Ok in Hj as (r & _ & [= <-]). unfold flatten_group, get_string, get_sequence.
    cbn [any_of_json as_mapping mbind res_bind].
    change (any_get _ "name_path") with (Some (PStr (join_slash (ns_path s)))).
    change (any_get _ "findings") with (Some (PSequence (any_of_json <$> es))).
    destruct (nonempty (join_slash (ns_path s))) eqn:Hne; [|by destruct (join_slash (ns_path s))].
    cbn [mbind res_bind ensure]. rewrite Hne. cbn [mbind res_bind ensure]. fold (shown_symbol (ns_path s)). by eapply entries_flatten.
  - injection Hj as <-. unfold flatten_group, get_string, get_sequence. cbn [any_of_json as_mapping mbind res_bind].
    change (any_get _ "name_path") with (Some (PStr (lit "<file>"))).
    change (any_get _ "findings") with (Some (PSequence (any_of_json <$> es))).
    cbn [nonempty ensure mbind res_bind]. exact (entries_flatten d fs es [lit "<file>"] Hes Hfs).
Qed.

Lemma sum_list_with_perm {A} (f : A → nat) l k : l ≡ₚ k → sum_list_with f l = sum_list_with f k.
Proof. induction 1; simpl; lia. Qed.

(** The findings [l], group by group: each in the group of its symbol, in the order of [l] within the group. *)
Definition by_groups (keys : list (list pystr)) (l : list _Finding) : list _Finding :=
  concat ((λ key, filter (λ f, finding_group f = key) l) <$> keys).

(** What [_flatten_findings] makes of the groups of an answer: the records of all their findings, none twice. *)
Lemma answer_flattens d shown grouped groups :
  grouped_as d shown grouped → _groups_data d grouped = Ok groups →
  Forall (λ f, range_ok (fi_range f) ∧ presentable f) shown →
  (∀ g : group, g ∈ grouped → g.1 = match g.2.1 with Some s => ns_path s | None => [lit "<file>"] end ∧ join_slash g.1 ≠ []) →
  ∃ xss keys, map_res flatten_group (any_of_json <$> groups) = Ok xss ∧ NoDup keys ∧
    length (by_groups keys shown) = length shown ∧
    Forall2 (λ f x, compact_record d (finding_group f) f x) (by_groups keys shown) (concat xss).
Proof.
  intros [Hnd Hent Htot] Hgr Hfs Hname. unfold _groups_data in Hgr.
  set (sorted := py_sorted (λ g : group, _group_key g.2.1) grouped) in *.
  assert (sorted ≡ₚ grouped) as Hperm by apply py_sorted_perm.
  assert (∀ g, g ∈ sorted → let fs := filter (λ f, finding_group f = g.1) shown in
    map_res (finding_dict d) fs = Ok g.2.2 ∧ Forall (λ f, range_ok (fi_range f) ∧ presentable f) fs ∧
    g.1 = match g.2.1 with Some s => ns_path s | None => [lit "<file>"] end ∧ join_slash g.1 ≠ []) as Hall.
  { intros [key [s es]] Hin. rewrite Hperm in Hin. cbn zeta. cbn [fst snd].
    rewrite Hent, (dict_get_elem _ _ _ Hnd Hin). split_and!; [done| |by destruct (Hname _ Hin)..].
    apply Forall_forall. intros f [_ Hf]%list_elem_of_filter. rewrite Forall_forall in Hfs. by apply Hfs. }
  assert (NoDup sorted.*1) as Hnd' by (by rewrite Hperm).
  rewrite <-Htot, <-(sum_list_with_perm _ _ _ Hperm).
  clearbody sorted. clear -Hgr Hall Hnd'.
  enough (∃ xss, map_res flatten_group (any_of_json <$> groups) = Ok xss ∧
    length (by_groups sorted.*1 shown) = sum_list_with (λ g : group, length g.2.2) sorted ∧
    Forall2 (λ f x, compact_record d (finding_group f) f x) (by_groups sorted.*1 shown) (concat xss)) as (xss & ? & ? & ?)
    by (by exists xss, sorted.*1).
  clear Hnd'. revert groups Hgr. induction sorted as [|g sorted IH]; cbn [map_res]; intros groups Hgr.
  - injection Hgr as <-. exists []. split_and!; [done|done|constructor].
  - apply res_bind_Ok in Hgr as (j & Hj & Hgr). apply res_bind_Ok in Hgr as (js & Hjs & [= <-]).
    destruct (IH ltac:(intros; apply Hall; by right) js Hjs) as (xss & Hxss & Hlen & Hrecs).
    destruct (Hall g ltac:(by left)) as (Hes & Hfs & Hkey & Hn).
    destruct (group_flattens d _ g j Hj Hes Hfs Hkey Hn) as (xs & Hxs & Hrec). exists (xs :: xss). csimpl.
    rewrite Hxs. cbn [mbind res_bind]. rewrite Hxss. unfold by_groups in *. csimpl. split_and!; [done| |].
    + rewrite length_app, Hlen. f_equal. symmetry. by eapply map_res_lengths.
    + apply Forall2_app; [|exact Hrecs]. clear -Hrec. induction shown as [|f l IH] in xs, Hrec |- *; [by inversion Hrec|].
      rewrite filter_cons in *. destruct (decide (finding_group f = g.1)) as [He|]; [|by apply IH].
      inversion Hrec; subst. constructor; [by rewrite He|by apply IH].
Qed.

(** ** The budget *)

(** The loop ends with the longest prefix that fits, or asks for the size of the shortest answer. *)
Lemma retain_loop_spec sha ws path findings adv om budget n :
  (n ≤ length findings)%nat →
  let answer k := _payload ws path (take k findings) adv (om + (Z.of_nat (length findings) - Z.of_nat k)) in
  (∃ k, (k ≤ n)%nat ∧ (findings = [] ∨ (0 < k)%nat) ∧ text_size (answer k) ≤ budget ∧
     (∀ j, (k < j ≤ n)%nat → budget < text_size (answer j)) ∧
     retain_loop sha ws path findings adv om budget n = Ok (render_payload (answer k))) ∨
  (∃ minimum, (∀ j, (findings = [] ∨ 0 < j)%nat → (j ≤ n)%nat → budget < text_size (answer j)) ∧
     (findings ≠ [] ∧ minimum = text_size (answer 1%nat) ∨ findings = [] ∧ minimum = text_size (answer 0%nat)) ∧
     retain_loop sha ws path findings adv om budget n =
     minimum_required_chars_result sha minimum no_context None None None (PInt budget)).
Proof.
  intros Hn answer. induction n as [|n IH].
  - destruct findings as [|first rest].
    + cbn [retain_loop]. change (_payload ws path (take 0 []) adv _) with (answer 0%nat). case_bool_decide as Hle.
      * left. exists 0%nat. split_and!; [done|by left|done|lia|done].
      * right. eexists. split_and!; [|by right|done]. intros j _ Hj. replace j with 0%nat by lia. lia.
    + right. eexists. split_and!; [intros j [?|?] ?; [done|lia]| |reflexivity]. left. split; [done|]. unfold answer. cbn [take length]. do 2 f_equal. lia.
  - destruct findings as [|first rest]; [simpl in Hn; lia|].
    cbn [retain_loop]. fold (answer (S n)). case_bool_decide as Hle.
    + left. exists (S n). split_and!; [done|right; lia|done|lia|done].
    + destruct IH as [(k & Hk & Hpos & Hfit & Hmax & Heq)|(m & Hall & Hm & Heq)]; [lia| |].
      * left. exists k. split_and!; [lia|done..| |done]. intros j Hj. destruct (decide (j = S n)) as [->|]; [lia|]. apply Hmax. lia.
      * right. exists m. split_and!; [|done|done]. intros j Hpos Hj. destruct (decide (j = S n)) as [->|]; [lia|]. apply Hall; [done|lia].
Qed.

(** ** Names of symbols *)

Lemma document_names_nonempty urlparse unquote py_str v d s :
  from_input urlparse unquote py_str v = Ok d → s ∈ all_symbols (dn_symbols d) → join_slash (ns_path s) ≠ [].
Proof.
  unfold from_input. intros (symbols & Hn%normalize_forest & [= <-])%res_bind_Ok. cbn [dn_symbols].
  intros (r & Hr & Hs)%elem_of_all_symbols. destruct (forest_segments _ _ _ Hn Hr). by eapply tree_name_nonempty.
Qed.

(** ** Reading an answer back *)

Lemma read_answer env w fields groups omitted truncated root path advisory engine xss :
  sv_workspace env = Some w → wm_root w = root → root ≠ [] →
  sv_truncation env = Some {| tm_truncated := truncated; tm_omitted_count := omitted |} → 0 ≤ omitted →
  sv_data env = JObj fields →
  data_get (JObj fields) "relative_path" = Some (JStr path) → path ≠ [] →
  data_get (JObj fields) "engine" = Some (engine_dict engine) →
  advisory = bool_decide ((if bool_decide (ef_language engine = lit "typescript") then lit "advisory" else ef_authority engine) = lit "advisory") →
  data_get (JObj fields) "groups" = Some (JList groups) → map_res flatten_group (any_of_json <$> groups) = Ok xss →
  read_envelope (any_of_json (success_dict env)) = Ok (root, path, advisory, concat xss, omitted).
Proof.
  intros Hw Hroot Hr0 Ht Hom Hdata Hpath Hp0 Heng Hadv Hgr Hxss.
  assert (∀ k j, data_get (JObj fields) k = Some j → any_get (PMapping ((λ kv, (Some kv.1, any_of_json kv.2)) <$> fields)) k = Some (any_of_json j)) as Hget.
  { intros k j. cbn [data_get any_get]. clear. induction fields as [|[k' v] l IH]; [done|]. csimpl.
    destruct (decide (k' = lit k)) as [->|Hne]; [rewrite !decide_True by done; by intros [= ->]|].
    rewrite !decide_False by congruence. apply IH. }
  unfold read_envelope, get_mapping, get_string. unfold success_dict. rewrite Hw, Hdata, Ht.
  change (any_get _ "ok") with (Some (PBool true)).
  change (any_get _ "data") with (Some (PMapping ((λ kv, (Some kv.1, any_of_json kv.2)) <$> fields))).
  change (any_get _ "workspace") with (Some (any_of_json (workspace_dict w))).
  cbn [ensure mbind res_bind any_of_json workspace_dict].
  change (any_get _ "root") with (Some (PStr (wm_root w))). rewrite Hroot. destruct root; [done|]. cbn [ensure nonempty mbind res_bind].
  rewrite (Hget _ _ Hpath). cbn [any_of_json]. destruct path; [done|]. cbn [ensure nonempty mbind res_bind].
  rewrite (Hget _ _ Heng). unfold engine_dict. cbn [any_of_json mbind res_bind].
  unfold _flatten_findings, get_sequence. rewrite (Hget _ _ Hgr). cbn [any_of_json mbind res_bind]. rewrite Hxss.
  cbn [mbind res_bind]. unfold _internal_omitted.
  assert (any_get (any_of_json (success_dict env)) "truncation" =
    Some (any_of_json (truncation_dict {| tm_truncated := truncated; tm_omitted_count := omitted |}))) as Htr.
  { unfold success_dict. rewrite Hw, Ht. by destruct (sv_adapter env), (sv_generations env). }
  unfold success_dict in Htr. rewrite Hw, Hdata, Ht in Htr. cbn [any_of_json] in Htr. rewrite Htr.
  cbn [truncation_dict any_of_json]. change (any_get _ "omitted_count") with (Some (PInt omitted)). cbn [default from_option].
  cbn [id]. rewrite (bool_decide_eq_true_2 (0 ≤ omitted)) by done. cbn [ensure mbind res_bind]. rewrite Hadv. reflexivity.
Qed.

(** A published diagnostic whose texts the compact schema can carry. *)
Definition carries_text (raw : pyany) : Prop :=
  any_get raw "message" ≠ Some (PStr []) ∧ any_get raw "source" ≠ Some (PStr []).

Lemma findings_presentable d raws ms fs :
  _findings d raws ms = Ok fs → (∀ raw, raw ∈ raws → reported ms raw = true → carries_text raw) → Forall presentable fs.
Proof.
  unfold _findings. intros (found & Hf & [= <-])%res_bind_Ok Hraws. rewrite py_sorted_perm. revert found Hf.
  induction raws as [|raw raws IH]; cbn [map_res]; intros found Hf; [injection Hf as <-; constructor|].
  apply res_bind_Ok in Hf as (f & Hraw & Hf).
  apply res_bind_Ok in Hf as (k & Hk & [= <-]). apply IH in Hk; [|intros; apply Hraws; [by right|done]].
  destruct f as [f|]; simpl; [|done]. constructor; [|done].
  destruct (finding_of_reported _ _ _ _ Hraw) as [Hrep _]. destruct (Hraws raw ltac:(by left) (eq_sym Hrep)) as [Hm Hs].
  unfold finding_of in Hraw. destruct raw as [| | | | | |m| |]; try done. destruct (severity_of _); [|done].
  case_bool_decide; [done|]. cbn [any_get] in Hm, Hs. fold (raw_get m "message") in Hm. fold (raw_get m "source") in Hs.
  destruct (raw_get m "message") as [[]|]; try done. destruct (raw_get m "range") as [[]|]; try done.
  apply res_bind_Ok in Hraw as (r & _ & H'). apply res_bind_Ok in H' as (src & Hsrc & H').
  apply res_bind_Ok in H' as (c & _ & [= <-]). split; cbn [fi_message fi_source]; [by intros ->|].
  unfold optional_source in Hsrc. intros t ->. destruct (raw_get m "source") as [[]|]; try done. injection Hsrc as ->. by intros ->.
Qed.

(** ** Properties *)

(** C33: what a client is shown of a file's diagnostics adds up. Whenever the diagnostics of a file in a workspace are
    answered and no reported message or source is empty (an empty one makes the whole compact answer a malformed-result
    error, [empty_message_hides_findings]), the compact answer fits the budget and shows the first of the findings
    answered, group by group, each as its own severity, message, source, code, range and symbol; as many as fit, and at
    least one if there are any; those shown and the number reported as left out are together the diagnostics of the current
    publication within the maximum severity. If not even the shortest answer fits, the call asks for the larger budget. *)
Theorem compact_diagnostics_account sha sha8 urlparse unquote py_str scalar {P} (v : DiagnosticDocumentInput (P := P))
    ms mx budget env w :
  get_diagnostics_for_file sha urlparse unquote py_str scalar v ms mx = Ok (inl env) →
  sv_workspace env = Some w → wm_root w ≠ [] → di_relative_path (dg_document v) ≠ [] →
  (∀ p raw, dg_publication v = Some p → raw ∈ published scalar p → reported ms raw = true → carries_text raw) →
  512 ≤ budget ≤ 50000 →
  ∃ p d fs answered keys records,
    dg_publication v = Some p ∧ from_input urlparse unquote py_str (dg_document v) = Ok d ∧
    _findings d (published scalar p) ms = Ok fs ∧
    length fs = length (filter (λ raw, reported ms raw = true) (published scalar p)) ∧
    (answered ≤ length fs)%nat ∧ tm_omitted_count <$> sv_truncation env = Some (Z.of_nat (length fs) - Z.of_nat answered) ∧
    NoDup keys ∧ length (by_groups keys (take answered fs)) = answered ∧
    Forall2 (λ f x, compact_record d (finding_group f) f x) (by_groups keys (take answered fs)) records ∧
  ((∃ shown advisory,
     let answer n := _payload (wm_root w) (di_relative_path (dg_document v)) (take n records) advisory (Z.of_nat (length fs) - Z.of_nat n) in
     (shown ≤ answered)%nat ∧ (answered = 0%nat ∨ (0 < shown)%nat) ∧
     compact_diagnostics_result sha8 (any_of_json (success_dict env)) (PInt budget) = Ok (render_payload (answer shown)) ∧
     text_size (answer shown) ≤ budget ∧ ∀ n, (shown < n ≤ answered)%nat → budget < text_size (answer n)) ∨
   (∃ minimum, budget < minimum ∧
     compact_diagnostics_result sha8 (any_of_json (success_dict env)) (PInt budget) =
     minimum_required_chars_result sha8 minimum no_context None None None (PInt budget))).
Proof.
  intros (d & p & fs & Hcur & Hf & Hshow)%file_success Hw Hroot Hpath Htext Hbudget. destruct Hcur as [Hd _ Hp _ _ _].
  destruct Hshow as [(grouped & groups & kept & Hle & Hga & Hgr & Hdata & Htr & _ & Hsym) _].
  destruct (findings_count _ _ _ _ Hf) as (Hlen & _ & _).
  pose proof (findings_located _ _ _ _ Hf) as Hloc. rewrite Forall_forall in Hloc.
  pose proof (findings_presentable _ _ _ _ Hf (λ raw, Htext p raw Hp)) as Hpres. rewrite Forall_forall in Hpres.
  destruct (answer_flattens d (take kept fs) grouped groups Hga Hgr) as (xss & keys & Hxss & Hkeys & Hall & Hrecs).
  { apply Forall_forall. intros f Hi. apply (elem_of_sublist _ fs) in Hi; [|apply sublist_take].
    split; [by apply Hloc|by apply Hpres]. }
  { intros g Hg. destruct (Hsym g Hg) as (f & Hin & -> & ->). split; [done|]. unfold finding_group.
    destruct (fi_symbol f) as [s|] eqn:Hs; [|done]. eapply document_names_nonempty; [done|].
    destruct (Hloc f Hin) as [_ Hin']. by apply Hin'. }
  assert (dn_relative_path d = di_relative_path (dg_document v)) as Hrel.
  { unfold from_input in Hd. by apply res_bind_Ok in Hd as (? & _ & [= <-]). }
  rewrite length_take, Nat.min_l in Hall by lia. pose proof (Forall2_length _ _ _ Hrecs) as Hxlen. rewrite Hall in Hxlen.
  exists p, d, fs, kept, keys, (concat xss). split_and!; [done|done|done|done|lia|by rewrite Htr|done|done|done|].
  pose proof (read_answer env w _ groups (Z.of_nat (length fs) - Z.of_nat kept) _ (wm_root w) (dn_relative_path d) _
    (dg_engine v) xss Hw eq_refl Hroot Htr ltac:(lia) Hdata eq_refl ltac:(by rewrite Hrel) eq_refl eq_refl eq_refl Hxss) as Hread.
  unfold compact_diagnostics_result. cbn [validate_max_answer_chars].
  rewrite (bool_decide_eq_true_2 (MIN_MAX_ANSWER_CHARS ≤ budget ≤ MAX_MAX_ANSWER_CHARS)) by done. rewrite Hread, Hrel.
  assert (∀ k, Z.of_nat (length fs) - Z.of_nat kept + (Z.of_nat (length (concat xss)) - Z.of_nat k) = Z.of_nat (length fs) - Z.of_nat k) as Hom
    by (intros; rewrite <-Hxlen; lia).
  edestruct retain_loop_spec as [(k & Hk & Hpos & Hfit & Hmax & Heq)|(m & Hno & Hm & Heq)]; [reflexivity|left|right]; rewrite Heq.
  - rewrite <-Hxlen in *. setoid_rewrite Hom in Hmax. rewrite Hom in Hfit |- *. eexists k, _. split_and!; [done| |reflexivity|exact Hfit|exact Hmax].
    destruct Hpos as [Hnil|]; [left|by right]. by rewrite Hxlen, Hnil.
  - exists m. split; [|done]. destruct (concat xss) as [|x xs] eqn:Hc.
    + destruct Hm as [[Hne _]|[_ ->]]; [done|]. apply Hno; [by left|lia].
    + destruct Hm as [[_ ->]|[Hm _]]; [|done]. apply Hno; [by right; lia|simpl; lia].
Qed.

(** ** A document, its publications and their answers *)

Module DiagnosticsExamples.
Import NormalizeExamples NavigationExamples.

(** Scalars that print as their text after a quote, or as a number. *)
Definition quoted (s : pystr) : PyValue := PyScalar (34%N :: s).
Definition number (z : Z) : PyValue := PyScalar (dec z).
Definition scalar (r : pystr) : pyany :=
  match r with 34%N :: s => PStr s | _ => match parse_int r with Some z => PInt z | None => POther end end.

Definition lsp_pos (l c : Z) : PyValue := PyMapping [(lit "line", number l); (lit "character", number c)].
Definition diagnostic (severity : Z) (message : pystr) (l : Z) : PyValue :=
  PyMapping [(lit "severity", number severity); (lit "message", quoted message);
             (lit "range", PyMapping [(lit "start", lsp_pos l 0); (lit "end", lsp_pos l 0)])].

Definition workspace : WorkspaceMetadata := {| wm_root := lit "/w"; wm_kind := lit "git"; wm_working_subdirectory := lit "/w" |}.

Definition document_input : DocumentSymbolInput :=
  {| di_relative_path := lit "a.py"; di_uri := lit "file:///w/a.py"; di_snapshot := blank;
     di_raw_symbols := class_document; di_position_encoding := UTF16; di_workspace := Some workspace; di_adapter := None;
     di_generations := None; di_body_completeness := None |}.

Definition engine : DiagnosticEngineFacts :=
  {| ef_name := lit "pyright"; ef_language := lit "python"; ef_version := lit "1"; ef_interpreter := Some (lit "/py");
     ef_python_environment := None; ef_authority := lit "engine"; ef_repository_authority := None; ef_external_root := None;
     ef_semantic_engine_name := None; ef_semantic_engine_version := None; ef_native_typecheck_command := None |}.

Definition uri : pystr := lit "file:///w/a.py".

(** The document is opened and the server publishes once for it. *)
Definition calls (ds : list PyValue) : list (state_call (P := nat)) :=
  [StUpdate uri 0%nat (Some 1); StPublish uri 0%nat (Some 1) 1 ds].

Definition value (ds : list PyValue) : DiagnosticDocumentInput :=
  {| dg_document := document_input; dg_requested_generation := 1; dg_engine := engine;
     dg_publication := Some (diagnostics_snapshot uri (Some 1) (run_state_calls (calls ds) lsp_state_init));
     dg_readiness := READY; dg_phase := None; dg_retry := None; dg_waited_seconds := None |}.

Definition two_findings : list PyValue :=
  [diagnostic 2 (lit "late") 8; diagnostic 1 (lit "early") 2; diagnostic 3 (lit "hint") 9].

Definition file_answer (ds : list PyValue) (mx : Z) : res nav_error ToolEnvelope :=
  get_diagnostics_for_file (λ _, []) parse_uri id (λ _, []) scalar (value ds) 2 mx.
Definition symbol_answer (ds : list PyValue) (name_path : string) (mx : Z) : res nav_error ToolEnvelope :=
  get_diagnostics_for_symbol (λ _, []) parse_uri id (λ _, []) scalar (λ c, (48 <=? c)%N && (c <? 58)%N)
    (value ds) (lit name_path) 2 mx.

Definition no_envelope : SuccessEnvelope :=
  {| sv_data := JNull; sv_workspace := None; sv_adapter := None; sv_generations := None; sv_truncation := None |}.
Definition answered (r : res nav_error ToolEnvelope) : SuccessEnvelope := match r with Ok (inl e) => e | _ => no_envelope end.

Lemma diagnostics_answer_is_current_witness :
  data_get (sv_data (answered (file_answer two_findings 1200))) "state" = Some (JStr (lit "findings")) ∧
  ∃ pub current, st_publications (run_state_calls (calls two_findings) lsp_state_init) !! uri = Some pub ∧
    spec_run uri (calls two_findings) lsp_state_init None = Some (current, pub_diagnostics pub).
Proof.
  split; [vm_compute; reflexivity|].
  destruct (diagnostics_answer_is_current (λ _, []) parse_uri id (λ _, []) scalar (calls two_findings) uri
    (value two_findings) 2 1200 (answered (file_answer two_findings 1200)) eq_refl ltac:(vm_compute; reflexivity))
    as (pub & current & _ & _ & _ & _ & H1 & H2 & _). by exists pub, current.
Defined.

Lemma symbol_diagnostics_exact_witness :
  data_get (sv_data (answered (symbol_answer two_findings "C/f[0]" 1200))) "state" = Some (JStr (lit "findings")) ∧
  ∃ d s, selected_symbols (λ c, (48 <=? c)%N && (c <? 58)%N) (dn_symbols d) (lit "C/f[0]") = [s].
Proof.
  split; [vm_compute; reflexivity|].
  destruct (symbol_diagnostics_exact (λ _, []) parse_uri id (λ _, []) scalar (λ c, (48 <=? c)%N && (c <? 58)%N)
    (value two_findings) (lit "C/f[0]") 2 1200 (answered (symbol_answer two_findings "C/f[0]" 1200)) ltac:(vm_compute; reflexivity))
    as (d & _ & s & _ & _ & _ & _ & _ & Hs & _). by exists d, s.
Defined.

Lemma compact_diagnostics_account_witness :
  ∃ r, compact_diagnostics_result (λ _, []) (any_of_json (success_dict (answered (file_answer two_findings 1200)))) (PInt 512) = r ∧
    is_ok r = true.
Proof.
  destruct (compact_diagnostics_account (λ _, []) (λ _, []) parse_uri id (λ _, []) scalar (value two_findings) 2 1200 512
    (answered (file_answer two_findings 1200)) workspace) as (p & d & fs & n & keys & records & Hp & Hcase).
  - vm_compute. reflexivity.
  - vm_compute. reflexivity.
  - done.
  - done.
  - intros p raw [= <-] Hin _. vm_compute in Hin.
    repeat (apply elem_of_cons in Hin as [->|Hin]; [split; vm_compute; discriminate|]). by apply elem_of_nil in Hin.
  - lia.
  - eexists. split; [reflexivity|]. clear. vm_compute. reflexivity.
Defined.

(** The name of an overloaded method without its index is ambiguous, not one of the two. *)
Example overload_is_ambiguous :
  match symbol_answer two_findings "C/f" 1200 with Ok (inr e) => er_code e = AMBIGUOUS_SYMBOL | _ => False end.
Proof. vm_compute. reflexivity. Qed.

(** The size limit of a diagnostics answer is not kept: when the first finding of a group does not fit, the group is
    shown without it, and the answer is longer than the limit that the check of the minimum let through. *)
Theorem empty_group_exceeds_limit :
  let env := answered (file_answer two_findings 200) in
  file_answer two_findings 200 = Ok (inl env) ∧ 200 < canonical_size (sv_data env) ∧
  tm_omitted_count <$> sv_truncation env = Some 2 ∧
  match data_get (sv_data env) "groups" with
  | Some (JList [g]) => data_get g "findings" = Some (JList [])
  | _ => False
  end.
Proof. vm_compute. split_and!; reflexivity. Qed.

(** One published diagnostic with an empty message hides all others: the rich answer has both findings, and the
    compact answer is that the operation is unsupported because the answer is malformed. *)
Theorem empty_message_hides_findings :
  let ds := [diagnostic 1 (lit "early") 2; diagnostic 1 [] 8] in
  let env := answered (file_answer ds 1200) in
  file_answer ds 1200 = Ok (inl env) ∧ sv_truncation env = Some {| tm_truncated := false; tm_omitted_count := 0 |} ∧
  compact_diagnostics_result (λ _, []) (any_of_json (success_dict env)) (PInt 12000) = _malformed_result ∧
  is_ok _malformed_result = true.
Proof. vm_compute. split_and!; reflexivity. Qed.

(** A diagnostic past the end of the snapshot leaves the call as an exception: only the findings are read inside the [try]. *)
Example range_outside_raises :
  match file_answer [diagnostic 1 (lit "beyond") 99] 1200 with Err (NavPosition _) => True | _ => False end.
Proof. vm_compute. exact Logic.I. Qed.
End DiagnosticsExamples.
