(* ===== verification/References.v ===== *)
(** * References to a symbol

    Model of [src/serena_light/tools/references.py]: coverage evidence, the
    classification of reference locations, one document per candidate file, the
    containing symbol and the snippet of each reference, and the bounded answer.

    The three seams (the adapter that finds references, the workspace that
    classifies a location, the adapter that loads a document) are parameters: they
    may read and change a world of any type and may raise. *)

From S2P Require Import Prelude Paths Json Envelopes Positions Normalize Navigation Selection.

Record ReferenceRequest := {
  rq_relative_path : pystr;
  rq_position : Position;
  rq_workspace : option WorkspaceMetadata;
  rq_adapter : option AdapterMetadata;
  rq_generations : option GenerationMetadata;
}.

Record ReferenceCoverage := {
  rc_adapter : pystr;
  rc_language : pystr;
  rc_scope_kind : pystr;
  rc_configured_program_files : Z;
  rc_configured_program_digest : pystr;
  rc_trusted_language_files : Z;
  rc_trusted_language_digest : pystr;
  rc_uncovered_files : Z;
  rc_uncovered_digest : pystr;
  rc_uncovered_sample : list pystr;
  rc_uncovered_total : Z;
  rc_uncovered_omitted : Z;
}.

Definition coverage_init (c : ReferenceCoverage) : res nav_error ReferenceCoverage :=
  _ ← ensure (nonempty (rc_adapter c) && nonempty (rc_language c) && nonempty (rc_scope_kind c) &&
              forallb (λ z, bool_decide (0 ≤ z)) [rc_configured_program_files c; rc_trusted_language_files c;
                rc_uncovered_files c; rc_uncovered_total c; rc_uncovered_omitted c] &&
              bool_decide (rc_uncovered_total c = rc_uncovered_files c) &&
              bool_decide (rc_uncovered_omitted c = rc_uncovered_total c - Z.of_nat (length (rc_uncovered_sample c))) &&
              bool_decide (py_sorted id (rc_uncovered_sample c) = rc_uncovered_sample c) &&
              bool_decide (length (remove_dups (rc_uncovered_sample c)) = length (rc_uncovered_sample c))) NavInput;
  Ok c.

Definition coverage_dict (c : ReferenceCoverage) : json :=
  JObj [(lit "adapter", JStr (rc_adapter c)); (lit "language", JStr (rc_language c));
        (lit "scope_kind", JStr (rc_scope_kind c));
        (lit "configured_program_files", JInt (rc_configured_program_files c));
        (lit "configured_program_digest", JStr (rc_configured_program_digest c));
        (lit "trusted_language_files", JInt (rc_trusted_language_files c));
        (lit "trusted_language_digest", JStr (rc_trusted_language_digest c));
        (lit "uncovered_files", JInt (rc_uncovered_files c));
        (lit "uncovered_sample",
           JObj [(lit "total", JInt (rc_uncovered_total c)); (lit "items", JList (JStr <$> rc_uncovered_sample c));
                 (lit "digest", JStr (rc_uncovered_digest c)); (lit "omitted", JInt (rc_uncovered_omitted c))])].

Record ReferenceTarget := {
  tg_location : Location;
  tg_key : pystr;
  tg_display_path : pystr;
  tg_read_only_external : bool;
}.

Definition reference_target_init (t : ReferenceTarget) : res nav_error ReferenceTarget :=
  _ ← ensure (nonempty (tg_key t) && nonempty (tg_display_path t)) NavInput; Ok t.

Record ReferenceDocumentInput := {
  rd_uri : pystr;
  rd_snapshot : FileSnapshot;
  rd_raw_symbols : option (list raw_symbol);
  rd_position_encoding : PositionEncoding;
  rd_recover_containment : option (list NormalizedSymbol → list NormalizedSymbol);
}.

Definition reference_document_init (d : ReferenceDocumentInput) : res nav_error ReferenceDocumentInput :=
  _ ← ensure (nonempty (rd_uri d)) NavInput; Ok d.

Record RawReferenceDocumentInput := { rw_uri : pystr; rw_position_encoding : PositionEncoding }.

Definition raw_reference_document_init (d : RawReferenceDocumentInput) : res nav_error RawReferenceDocumentInput :=
  _ ← ensure (nonempty (rw_uri d)) NavInput; Ok d.

(** What the seams may return. *)
Inductive query_result :=
| QueryAnswer (locations : list (option Location)) (coverage : ReferenceCoverage)   (** [None]: not a [Location] *)
| QueryError (e : ErrorEnvelope)
| QueryOther.

Inductive loaded_document :=
| LoadedDocument (d : ReferenceDocumentInput)
| LoadedRaw (d : RawReferenceDocumentInput)
| LoadedError (e : ErrorEnvelope)
| LoadedOther.

Record _DocumentTree := {
  dt_uri : pystr;
  dt_mapper : option PositionMapper;   (** with the snapshot, or neither *)
  dt_position_encoding : PositionEncoding;
  dt_symbols : list NormalizedSymbol;
}.

Definition unavailable (uri : pystr) (e : PositionEncoding) : _DocumentTree :=
  {| dt_uri := uri; dt_mapper := None; dt_position_encoding := e; dt_symbols := [] |}.

(** ** One reference *)

Definition _location_data (m : PositionMapper) (l : Location) : res position_error json := _source_range m (loc_range l).

Definition raw_position_json (p : LspPosition) : json :=
  JObj [(lit "line", JInt (line p)); (lit "character", JInt (character p))].

Definition _raw_location_data (l : Location) (e : PositionEncoding) : json :=
  let r := raw_lsp_range (_lsp_position (rg_start (loc_range l))) (_lsp_position (rg_end (loc_range l))) e in
  JObj [(lit "basis", JStr (rr_basis r)); (lit "start", raw_position_json (rr_start r)); (lit "end", raw_position_json (rr_end r))].

(** [text.rfind(c, 0, stop)] and [text.find(c, start)] for one character. *)
Definition rfind (c : N) (t : pystr) (stop : nat) : Z :=
  foldl (λ best i, if bool_decide (t !! i = Some c) then Z.of_nat i else best) (-1) (seq 0 (Nat.min stop (length t))).
Definition find_from (c : N) (t : pystr) (start : nat) : Z :=
  match head (filter (λ i, t !! i = Some c) (seq start (length t - start))) with Some i => Z.of_nat i | None => -1 end.

Definition _line_start_offset (t : pystr) (offset : nat) : nat :=
  Z.to_nat (Z.max (rfind cp_LF t offset) (rfind cp_CR t offset) + 1).

Definition _line_end_offset (t : pystr) (offset : nat) : nat :=
  match filter (λ i, 0 ≤ i) [find_from cp_CR t offset; find_from cp_LF t offset] with
  | [] => length t
  | [i] => Z.to_nat i
  | i :: j :: _ => Z.to_nat (Z.min i j)
  end.

Definition ellipsis : N := 8230.
Definition mark (b : bool) : pystr := if b then [ellipsis] else [].

(** The window of [limit] characters of [line] around the offset. *)
Definition window_left (relative_offset limit len : Z) : Z :=
  Z.max 0 (Z.min (relative_offset - limit / 2) (len - limit)).

Definition bounded_line (ln : pystr) (relative_offset limit : Z) : pystr * bool :=
  let len := Z.of_nat (length ln) in
  if bool_decide (len ≤ limit) then (ln, false)
  else
    let left := window_left relative_offset limit len in
    let right := left + limit in
    let prefix := mark (bool_decide (left ≠ 0)) in
    let suffix := mark (bool_decide (right < len)) in
    let interior_limit := limit - Z.of_nat (length prefix) - Z.of_nat (length suffix) in
    if bool_decide (interior_limit ≤ 0) then (take (Z.to_nat limit) [ellipsis], true)
    else
      let left := window_left relative_offset interior_limit len in
      let right := left + interior_limit in
      let prefix := mark (bool_decide (left ≠ 0)) in
      let suffix := mark (bool_decide (right < len)) in
      (prefix ++ text_slice ln (Z.to_nat left) (Z.to_nat right) ++ suffix, true).

Definition _snippet (d : _DocumentTree) (l : Location) (limit : Z) : option (pystr * bool) :=
  match dt_mapper d with
  | None => None
  | Some m =>
      match lsp_to_text_offset m (_lsp_position (rg_start (loc_range l))) with
      | Err _ => None
      | Ok offset =>
          let t := text (snapshot m) in
          let start := _line_start_offset t (Z.to_nat offset) in
          let stop := _line_end_offset t (Z.to_nat offset) in
          Some (bounded_line (text_slice t start stop) (offset - Z.of_nat start) limit)
      end
  end.

Definition _container_data (s : option NormalizedSymbol) : json :=
  match s with
  | None => JObj [(lit "kind", JStr (lit "file")); (lit "name_path", JStr (lit "<file>"))]
  | Some s => JObj [(lit "kind", JStr (lit "symbol")); (lit "name_path", JStr (join_slash (ns_path s)));
                    (lit "symbol_kind", JInt (ns_kind s))]
  end.

(** [None]: the [PositionError] the function raises itself. *)
Definition _reference_data (t : ReferenceTarget) (d : _DocumentTree) (max_snippet_chars : Z) : option json :=
  let location := tg_location t in
  let build location_data container (snippet : option (pystr * bool)) :=
    JObj ([(lit "path", JStr (tg_display_path t)); (lit "read_only_external", JBool (tg_read_only_external t));
           (lit "location", location_data); (lit "container", _container_data container)] ++
          match snippet with
          | Some (s, b) => [(lit "snippet", JStr s); (lit "snippet_truncated", JBool b)]
          | None => []
          end) in
  match dt_mapper d with
  | None => if negb (tg_read_only_external t) then None
            else Some (build (_raw_location_data location (dt_position_encoding d)) None None)
  | Some m =>
      if bool_decide (dt_uri d ≠ loc_uri location) then None
      else match _location_data m location with
           | Err _ => None
           | Ok location_data =>
               Some (build location_data (containing_symbol (dt_symbols d) location)
                       (if bool_decide (0 < max_snippet_chars) then _snippet d location max_snippet_chars else None))
           end
  end.

(** ** Order and identity of targets *)

Definition target_identity : Type := pystr * pystr * (Z * Z) * (Z * Z).
Definition identity_of (t : ReferenceTarget) : target_identity :=
  (tg_key t, loc_uri (tg_location t), pos_key (rg_start (loc_range (tg_location t))), pos_key (rg_end (loc_range (tg_location t)))).

Definition _target_order_key (t : ReferenceTarget) : pystr * pystr * (Z * Z) * (Z * Z) :=
  (tg_display_path t, loc_uri (tg_location t), pos_key (rg_start (loc_range (tg_location t))),
   pos_key (rg_end (loc_range (tg_location t)))).

(** The dict comprehension: a later target replaces an earlier one of the same identity, in its place. *)
Definition deduplicate (targets : list ReferenceTarget) : list (target_identity * ReferenceTarget) :=
  fold_left (λ d t, dict_set d (identity_of t) t) targets [].

Definition _unique_targets (targets : list ReferenceTarget) : list ReferenceTarget :=
  py_sorted _target_order_key (deduplicate targets).*2.

Definition dict_setdefault {K V} `{EqDecision K} (d : list (K * V)) (k : K) (v : V) : list (K * V) :=
  match dict_get d k with Some _ => d | None => dict_set d k v end.

Definition _targets_by_file (targets : list ReferenceTarget) : list (pystr * ReferenceTarget) :=
  py_sorted fst (fold_left (λ d t, dict_setdefault d (tg_key t) t) targets []).

(** ** The answer *)

Definition reference_fields (request : ReferenceRequest) (coverage : ReferenceCoverage) (references : list json) : json :=
  JObj [(lit "relative_path", JStr (rq_relative_path request));
        (lit "reference_count", JInt (Z.of_nat (length references)));
        (lit "references", JList references); (lit "coverage", coverage_dict coverage)].

Definition _bound_references (request : ReferenceRequest) (coverage : ReferenceCoverage) (references : list json)
    (max_answer_chars : Z) : json * nat :=
  let kept := keep_while (λ l, bool_decide (max_answer_chars < canonical_size (reference_fields request coverage l))) [] references in
  (reference_fields request coverage kept, (length references - length kept)%nat).

Definition _valid_request (r : ReferenceRequest) : bool :=
  _valid_relative_path (rq_relative_path r) && bool_decide (0 ≤ pos_line (rq_position r)) &&
  bool_decide (0 ≤ pos_character (rq_position r)).

Definition request_failure (r : ReferenceRequest) (code : ErrorCode) (retry : option RetryMetadata) (details : list (pystr * json))
    : res nav_error ErrorEnvelope :=
  lift_failure (error code retry (Some (any_of_json (JObj details))) (rq_workspace r) (rq_adapter r) (rq_generations r)).

Definition _workspace_reference_not_ready (r : ReferenceRequest) (reason : pystr) (t : ReferenceTarget) (document_uri : option pystr)
    : res nav_error ErrorEnvelope :=
  request_failure r EC_NOT_READY
    (Some {| rt_retryable := true; rt_retry_after_seconds := None; rt_waited_seconds := None; rt_timeout_seconds := None;
             rt_target_generation := None; rt_observed_generation := None |})
    ([(lit "reason", JStr reason); (lit "path", JStr (tg_display_path t))] ++
     match document_uri with
     | Some u => [(lit "location_uri", JStr (loc_uri (tg_location t))); (lit "document_uri", JStr u)]
     | None => []
     end).

Local Open Scope py_scope.

Section references.
Context (urlparse : pystr → parsed_uri) (unquote : pystr → pystr) (py_str : pyany → pystr).

(** [_DocumentTree.from_input]: a malformed symbol tree leaves the document without symbols. *)
Definition tree_from_input (v : ReferenceDocumentInput) : _DocumentTree :=
  {| dt_uri := rd_uri v;
     dt_mapper := Some {| snapshot := rd_snapshot v; encoding := rd_position_encoding v |};
     dt_position_encoding := rd_position_encoding v;
     dt_symbols := match normalize_document_symbols urlparse unquote py_str id None (rd_raw_symbols v) (rd_uri v)
                           (rd_recover_containment v) with
                   | Ok symbols => symbols
                   | Err _ => []
                   end |}.

Context {W : Type}.
Context (find_references : ReferenceRequest → PyM W nav_error query_result).
Context (classify_reference_location : Location → PyM W nav_error (ReferenceTarget + ErrorEnvelope)).
Context (load_reference_document : ReferenceTarget → PyM W nav_error loaded_document).

(** One pass of the loading loop: the tree, or the error that ends the call. *)
Definition load_tree (request : ReferenceRequest) (t : ReferenceTarget) : PyM W nav_error (_DocumentTree + ErrorEnvelope) :=
  let! loaded := load_reference_document t in
  py_lift match loaded with
  | LoadedError e => Ok (inr e)
  | LoadedRaw r =>
      if negb (tg_read_only_external t)
      then as_error (_workspace_reference_not_ready request (lit "workspace_reference_snapshot_unavailable") t None)
      else Ok (inl (unavailable (rw_uri r) (rw_position_encoding r)))
  | LoadedOther => as_error (_workspace_reference_not_ready request (lit "workspace_reference_document_invalid") t None)
  | LoadedDocument d =>
      if bool_decide (rd_uri d ≠ loc_uri (tg_location t))
      then as_error (_workspace_reference_not_ready request (lit "workspace_reference_uri_mismatch") t (Some (rd_uri d)))
      else Ok (inl (tree_from_input d))
  end.

Fixpoint load_trees (request : ReferenceRequest) (files : list (pystr * ReferenceTarget))
    : PyM W nav_error (list (pystr * _DocumentTree) + ErrorEnvelope) :=
  match files with
  | [] => py_ret (inl [])
  | (key, t) :: files =>
      let! loaded := load_tree request t in
      match loaded with
      | inr e => py_ret (inr e)
      | inl tree =>
          let! rest := load_trees request files in
          py_ret (match rest with inl trees => inl ((key, tree) :: trees) | inr e => inr e end)
      end
  end.

(** The rendering loop. *)
Fixpoint render_targets (request : ReferenceRequest) (trees : list (pystr * _DocumentTree)) (max_snippet_chars : Z)
    (targets : list ReferenceTarget) : res nav_error (list json + ErrorEnvelope) :=
  match targets with
  | [] => Ok (inl [])
  | t :: targets =>
      match dict_get trees (tg_key t) with
      | None => Err NavInput   (** [KeyError] *)
      | Some tree =>
          match _reference_data t tree max_snippet_chars with
          | None => as_error (_workspace_reference_not_ready request (lit "workspace_reference_snapshot_range_mismatch") t None)
          | Some data =>
              rest ← render_targets request trees max_snippet_chars targets;
              Ok (match rest with inl l => inl (data :: l) | inr e => inr e end)
          end
      end
  end.

Definition _render_references (request : ReferenceRequest) (coverage : ReferenceCoverage) (targets : list ReferenceTarget)
    (max_snippet_chars max_answer_chars : Z) : PyM W nav_error ToolEnvelope :=
  let unique := _unique_targets targets in
  let! loaded := load_trees request (_targets_by_file unique) in
  match loaded with
  | inr e => py_ret (inr e)
  | inl trees => py_lift (
      rendered ← render_targets request trees max_snippet_chars unique;
      match rendered with
      | inr e => Ok (inr e)
      | inl references =>
          let '(bounded, omitted) := _bound_references request coverage references max_answer_chars in
          t ← truncation omitted;
          lift_success (success (any_of_json bounded) (rq_workspace request) (rq_adapter request) (rq_generations request) (Some t))
      end)
  end.

(** The classification loop. *)
Fixpoint classify_all (request : ReferenceRequest) (locations : list (option Location))
    : PyM W nav_error (list ReferenceTarget + ErrorEnvelope) :=
  match locations with
  | [] => py_ret (inl [])
  | None :: _ => py_lift (as_error (request_failure request INVALID_INPUT None
                   [(lit "field", JStr (lit "normalized_reference_locations"))]))
  | Some l :: locations =>
      let! classified := classify_reference_location l in
      match classified with
      | inr e => py_ret (inr e)
      | inl t =>
          let! rest := classify_all request locations in
          py_ret (match rest with inl ts => inl (t :: ts) | inr e => inr e end)
      end
  end.

Definition find_referencing_symbols (request : ReferenceRequest) (max_snippet_chars max_answer_chars : Z)
    : PyM W nav_error ToolEnvelope :=
  if negb (_valid_request request) || bool_decide (max_snippet_chars < 0) || bool_decide (max_answer_chars ≤ 0)
  then py_lift (as_error (request_failure request INVALID_INPUT None
         [(lit "field", JStr (lit "relative_path, position, max_snippet_chars, or max_answer_chars"))]))
  else
    let! query := find_references request in
    match query with
    | QueryError e => py_ret (inr e)
    | QueryOther => py_lift (as_error (request_failure request INVALID_INPUT None [(lit "field", JStr (lit "reference_query_result"))]))
    | QueryAnswer locations coverage =>
        let! classified := classify_all request locations in
        match classified with
        | inr e => py_ret (inr e)
        | inl targets => _render_references request coverage targets max_snippet_chars max_answer_chars
        end
    end.
End references.

(** The functional form, for callers that already dispatched the request. *)
Definition find_referencing_symbols_of urlparse unquote py_str {W : Type} (request : ReferenceRequest)
    (locations : list (option Location)) (classify : Location → PyM W nav_error (ReferenceTarget + ErrorEnvelope))
    (load : ReferenceTarget → PyM W nav_error loaded_document) (coverage : ReferenceCoverage) (max_snippet_chars max_answer_chars : Z)
    : PyM W nav_error ToolEnvelope :=
  find_referencing_symbols urlparse unquote py_str (λ _, py_ret (QueryAnswer locations coverage)) classify load request
    max_snippet_chars max_answer_chars.

(** ** Distinct targets *)

Lemma deduplicate_spec ts : ∀ d,
  let d' := fold_left (λ d t, dict_set d (identity_of t) t) ts d in
  NoDup d.*1 → Forall (λ x, x.1 = identity_of x.2) d →
  NoDup d'.*1 ∧ Forall (λ x, x.1 = identity_of x.2) d' ∧
  (∀ x, x ∈ d' → x ∈ d ∨ x.2 ∈ ts) ∧ (∀ k, k ∈ d'.*1 ↔ k ∈ d.*1 ∨ k ∈ identity_of <$> ts).
Proof.
  induction ts as [|t ts IH]; intros d d' Hnd Hall; simpl in d'.
  - subst d'. split_and!; [done|done|by left|]. intros k. cbn. rewrite elem_of_nil. tauto.
  - destruct (IH (dict_set d (identity_of t) t)) as (H1 & H2 & H3 & H4).
    + by apply dict_set_nodup.
    + rewrite Forall_forall in *. intros x [->|Hx]%dict_set_elem_inv; [done|by apply Hall].
    + split_and!; [exact H1|exact H2| |].
      * intros x [Hx|Hx]%H3; [|right; by right]. apply dict_set_elem_inv in Hx as [->|Hx]; [right; left|by left].
      * intros k. etrans; [exact (H4 k)|]. rewrite dict_set_keys_elem. csimpl. rewrite elem_of_cons. tauto.
Qed.

Lemma unique_targets_spec ts :
  NoDup (identity_of <$> _unique_targets ts) ∧ StronglySorted (key_le _target_order_key) (_unique_targets ts) ∧
  (∀ t, t ∈ _unique_targets ts → t ∈ ts) ∧ (∀ t, t ∈ ts → ∃ t', t' ∈ _unique_targets ts ∧ identity_of t' = identity_of t).
Proof.
  unfold _unique_targets, deduplicate. destruct (deduplicate_spec ts []) as (Hnd & Hall & Hin & Hkeys); [constructor..|].
  set (d := fold_left _ ts []) in *. clearbody d. rewrite Forall_forall in Hall.
  assert (identity_of <$> d.*2 = d.*1) as Hid.
  { rewrite <-list_fmap_compose. apply list_fmap_ext. intros i x Hx. apply list_elem_of_lookup_2 in Hx. symmetry. by apply Hall. }
  split_and!.
  - rewrite py_sorted_perm, Hid. done.
  - apply py_sorted_sorted.
  - intros t Ht. rewrite py_sorted_perm in Ht. apply list_elem_of_fmap in Ht as (x & -> & Hx).
    apply Hin in Hx as [?%elem_of_nil|Hx]; done.
  - intros t Ht. assert (identity_of t ∈ d.*1) as Hk by (apply Hkeys; right; by apply list_elem_of_fmap_2).
    apply list_elem_of_fmap in Hk as (x & Heq & Hx). exists x.2. split; [|by rewrite <-Hall, Heq].
    rewrite py_sorted_perm. by apply list_elem_of_fmap_2.
Qed.

(** ** One document per file *)

Lemma setdefault_fold (ts : list ReferenceTarget) : ∀ (d : list (pystr * ReferenceTarget)),
  let d' := fold_left (λ d t, dict_setdefault d (tg_key t) t) ts d in
  NoDup d.*1 → Forall (λ x, x.1 = tg_key x.2) d →
  NoDup d'.*1 ∧ Forall (λ x, x.1 = tg_key x.2) d' ∧ (∀ x, x ∈ d' → x ∈ d ∨ x.2 ∈ ts) ∧
  (∀ k, k ∈ d'.*1 ↔ k ∈ d.*1 ∨ k ∈ tg_key <$> ts).
Proof.
  induction ts as [|t ts IH]; intros d d' Hnd Hall; simpl in d'.
  - subst d'. split_and!; [done|done|by left|]. intros k. cbn. rewrite elem_of_nil. tauto.
  - assert (NoDup (dict_setdefault d (tg_key t) t).*1 ∧ Forall (λ x, x.1 = tg_key x.2) (dict_setdefault d (tg_key t) t) ∧
      (∀ x, x ∈ dict_setdefault d (tg_key t) t → x ∈ d ∨ x.2 = t) ∧
      (∀ k, k ∈ (dict_setdefault d (tg_key t) t).*1 ↔ k ∈ d.*1 ∨ k = tg_key t)) as (G1 & G2 & G3 & G4).
    { unfold dict_setdefault. destruct (dict_get d (tg_key t)) as [v|] eqn:Hg.
      - split_and!; [done|done|by left|]. intros k. split; [by left|]. intros [?| ->]; [done|].
        apply dict_get_Some_elem in Hg. exact (list_elem_of_fmap_2 fst _ _ Hg).
      - split_and!; [by apply dict_set_nodup| | |].
        + rewrite Forall_forall in *. intros x [->|Hx]%dict_set_elem_inv; [done|by apply Hall].
        + intros x [->|Hx]%dict_set_elem_inv; [by right|by left].
        + intros k. rewrite dict_set_keys_elem. tauto. }
    destruct (IH (dict_setdefault d (tg_key t) t) G1 G2) as (H1 & H2 & H3 & H4). split_and!; [exact H1|exact H2| |].
    + intros x [[?|Hx]%G3|Hx]%H3; [by left|right; rewrite Hx; left|right; by right].
    + intros k. etrans; [exact (H4 k)|]. rewrite G4. csimpl. rewrite elem_of_cons. tauto.
Qed.

Lemma targets_by_file_spec ts :
  NoDup (_targets_by_file ts).*1 ∧ StronglySorted (key_le fst) (_targets_by_file ts) ∧
  (∀ k t, (k, t) ∈ _targets_by_file ts → tg_key t = k ∧ t ∈ ts) ∧
  (∀ k, k ∈ (_targets_by_file ts).*1 ↔ k ∈ tg_key <$> ts).
Proof.
  unfold _targets_by_file. destruct (setdefault_fold ts []) as (Hnd & Hall & Hin & Hkeys); [constructor..|].
  set (d := fold_left _ ts []) in *. clearbody d. rewrite Forall_forall in Hall.
  assert (py_sorted fst d ≡ₚ d) as Hp by apply py_sorted_perm. split_and!.
  - rewrite Hp. done.
  - apply py_sorted_sorted.
  - intros k t Ht. rewrite Hp in Ht. split; [symmetry; exact (Hall _ Ht)|]. by apply Hin in Ht as [?%elem_of_nil|?].
  - intros k. rewrite Hp, Hkeys. cbn. rewrite elem_of_nil. tauto.
Qed.

(** ** Runs *)

Section reference_facts.
Context (urlparse : pystr → parsed_uri) (unquote : pystr → pystr) (py_str : pyany → pystr).
Context {W : Type}.
Context (find_references : ReferenceRequest → PyM W nav_error query_result).
Context (classify : Location → PyM W nav_error (ReferenceTarget + ErrorEnvelope)).
Context (load : ReferenceTarget → PyM W nav_error loaded_document).

(** The tree made from what was loaded for a target: from the document under the target's own URI, or without a text for a
    file outside the workspace. *)
Definition tree_for (t : ReferenceTarget) (v : loaded_document) (tree : _DocumentTree) : Prop :=
  match v with
  | LoadedDocument d => rd_uri d = loc_uri (tg_location t) ∧ tree = tree_from_input urlparse unquote py_str d
  | LoadedRaw r => tg_read_only_external t = true ∧ tree = unavailable (rw_uri r) (rw_position_encoding r)
  | _ => False
  end.

Lemma load_tree_for request t w w' tree :
  load_tree urlparse unquote py_str load request t w = (w', Ok (inl tree)) → ∃ v, load t w = (w', Ok v) ∧ tree_for t v tree.
Proof.
  unfold load_tree. intros (w1 & loaded & Hload & H)%py_bind_ok. unfold py_lift in H.
  destruct loaded as [d|r|e|]; [| |done|].
  - case_bool_decide as Hu; [discriminate H|]. injection H as <- <-.
    exists (LoadedDocument d). split; [done|]. cbn. split; [|done]. destruct (decide (rd_uri d = loc_uri (tg_location t))); done.
  - destruct (tg_read_only_external t) eqn:Hx; [|discriminate H]. injection H as <- <-.
    by exists (LoadedRaw r).
  - discriminate H.
Qed.

Lemma load_trees_for request files : ∀ w w' trees,
  load_trees urlparse unquote py_str load request files w = (w', Ok (inl trees)) →
  ∃ documents, each load files.*2 w documents w' ∧ trees.*1 = files.*1 ∧
    Forall2 (λ x tree, tree_for x.1 x.2 tree) (zip files.*2 documents) trees.*2.
Proof.
  induction files as [|[key t] files IH]; intros w w' trees; cbn [load_trees].
  { intros [= -> <-]. exists []. split_and!; [constructor|done|constructor]. }
  intros (w1 & [tree|e] & Ht & H)%py_bind_ok; [|done].
  apply py_bind_ok in H as (w2 & [rest|e] & Hr & H); [|done]. injection H as -> <-.
  apply load_tree_for in Ht as (v & Hv & Hfor). destruct (IH _ _ _ Hr) as (vs & Hvs & Hk & Hall).
  exists (v :: vs). split_and!; [by econstructor|csimpl; by f_equal|by constructor].
Qed.

(** What a reference says of its target, in terms of what was loaded for the file: the path and standing of the target, its
    range in the coordinates of the loaded text with the innermost symbol of that document around it, or the raw range of
    a file outside the workspace. *)
Definition shown_from (t : ReferenceTarget) (v : loaded_document) (data : json) : Prop :=
  data_get data "path" = Some (JStr (tg_display_path t)) ∧
  data_get data "read_only_external" = Some (JBool (tg_read_only_external t)) ∧
  match v with
  | LoadedDocument d =>
      rd_uri d = loc_uri (tg_location t) ∧
      ∃ location symbols,
        _source_range {| snapshot := rd_snapshot d; encoding := rd_position_encoding d |} (loc_range (tg_location t)) = Ok location ∧
        data_get data "location" = Some location ∧
        (normalize_document_symbols urlparse unquote py_str id None (rd_raw_symbols d) (rd_uri d) (rd_recover_containment d) = Ok symbols ∨
         symbols = [] ∧ ∃ e, normalize_document_symbols urlparse unquote py_str id None (rd_raw_symbols d) (rd_uri d)
                               (rd_recover_containment d) = Err e) ∧
        data_get data "container" = Some (_container_data (containing_symbol symbols (tg_location t)))
  | LoadedRaw r =>
      tg_read_only_external t = true ∧
      data_get data "location" = Some (_raw_location_data (tg_location t) (rw_position_encoding r)) ∧
      data_get data "container" = Some (_container_data None)
  | _ => False
  end.

Lemma reference_data_shown first t v tree ms data :
  tree_for first v tree → _reference_data t tree ms = Some data → shown_from t v data.
Proof.
  destruct v as [d|r|e|]; cbn; [| |done|done].
  - intros [_ ->]. unfold _reference_data, tree_from_input. cbn [dt_mapper dt_uri dt_symbols]. case_bool_decide as Hu; [done|].
    destruct (_location_data _ _) as [location|] eqn:Hl; [|done]. intros [= <-]. split; [done|]. split; [done|].
    split; [destruct (decide (rd_uri d = loc_uri (tg_location t))); done|].
    exists location, (match normalize_document_symbols urlparse unquote py_str id None (rd_raw_symbols d) (rd_uri d)
                           (rd_recover_containment d) with Ok symbols => symbols | Err _ => [] end).
    split_and!; [exact Hl|done| |done]. destruct (normalize_document_symbols _ _ _ _ _ _ _ _) as [l|e]; [by left|right; by eauto].
  - intros [_ ->]. unfold _reference_data. cbn [unavailable dt_mapper dt_position_encoding].
    destruct (tg_read_only_external t) eqn:Hx; [|done]. cbn. intros [= <-]. by rewrite <-Hx.
Qed.

Lemma render_targets_spec request trees ms ts refs :
  render_targets request trees ms ts = Ok (inl refs) →
  Forall2 (λ t data, ∃ tree, dict_get trees (tg_key t) = Some tree ∧ _reference_data t tree ms = Some data) ts refs.
Proof.
  revert refs. induction ts as [|t ts IH]; intros refs; cbn [render_targets]; [by intros [= <-]|].
  destruct (dict_get trees (tg_key t)) as [tree|] eqn:Ht; [|done].
  destruct (_reference_data t tree ms) as [data|] eqn:Hd; [|by intros ?%as_error_not_success].
  intros ([l|e] & Hl & H)%res_bind_Ok; [|done]. injection H as <-. constructor; [by exists tree|by apply IH].
Qed.

(** What an answer shows of its targets, the documents being loaded between [w] and [w']. *)
Definition references_shown (request : ReferenceRequest) (coverage : ReferenceCoverage) (targets : list ReferenceTarget)
    (ms mx : Z) (w w' : W) (env : SuccessEnvelope) : Prop :=
  ∃ (files : list (pystr * ReferenceTarget)) documents trees references kept,
    files = _targets_by_file (_unique_targets targets) ∧
    each load files.*2 w documents w' ∧ trees.*1 = files.*1 ∧
    Forall2 (λ x tree, tree_for x.1 x.2 tree) (zip files.*2 documents) trees.*2 ∧
    Forall2 (λ t data, ∃ tree, dict_get trees (tg_key t) = Some tree ∧ _reference_data t tree ms = Some data)
      (_unique_targets targets) references ∧
    (kept ≤ length references)%nat ∧ sv_data env = reference_fields request coverage (take kept references) ∧
    tm_omitted_count <$> sv_truncation env = Some (Z.of_nat (length references) - Z.of_nat kept) ∧
    (kept = 0%nat ∨ canonical_size (sv_data env) ≤ mx) ∧
    ((kept < length references)%nat → mx < canonical_size (reference_fields request coverage (take (S kept) references))).

Lemma render_references_ok request coverage targets ms mx w w' env :
  _render_references urlparse unquote py_str load request coverage targets ms mx w = (w', Ok (inl env)) →
  references_shown request coverage targets ms mx w w' env.
Proof.
  unfold _render_references. intros (w1 & [trees|e] & Ht & H)%py_bind_ok; [|done].
  assert (w1 = w') as -> by (unfold py_lift in H; congruence). apply py_lift_ok in H. apply res_bind_Ok in H as ([refs|e] & Hr & H); [|done].
  unfold _bound_references in H. set (P := λ l, bool_decide _) in H.
  destruct (keep_while_prefix P refs) as (k & Hk & Hle & Hfit & Hstop). rewrite Hk in H.
  rewrite length_take, Nat.min_l in H by done. rewrite truncation_exact in H by done. cbn [mbind res_bind] in H.
  apply success_data in H as ->. destruct (load_trees_for _ _ _ _ _ Ht) as (documents & Hd & Hkeys & Hall).
  eexists _, documents, trees, refs, k. cbn [sv_data sv_truncation].
  split_and!; [done|done|done|done|by eapply render_targets_spec|done|done|done| |].
  - destruct Hfit as [->|Hfit]; [by left|right]. unfold P in Hfit. apply bool_decide_eq_false in Hfit. lia.
  - intros Hlt. specialize (Hstop Hlt). unfold P in Hstop. by apply bool_decide_eq_true in Hstop.
Qed.

Lemma classify_all_ok request locations : ∀ w w' targets,
  classify_all classify request locations w = (w', Ok (inl targets)) →
  ∃ ls, locations = Some <$> ls ∧ each classify ls w (inl <$> targets) w'.
Proof.
  induction locations as [|[l|] locations IH]; intros w w' targets; cbn [classify_all].
  - intros [= -> <-]. exists []. split; [done|constructor].
  - intros (w1 & [t|e] & Ht & H)%py_bind_ok; [|done].
    apply py_bind_ok in H as (w2 & [rest|e] & Hr & H); [|done]. injection H as -> <-.
    destruct (IH _ _ _ Hr) as (ls & -> & Hls). exists (l :: ls). split; [done|by econstructor].
  - by intros H%py_lift_ok%as_error_not_success.
Qed.

Lemma find_referencing_ok request ms mx w w' env :
  find_referencing_symbols urlparse unquote py_str find_references classify load request ms mx w = (w', Ok (inl env)) →
  ∃ w1 w2 locations coverage targets,
    find_references request w = (w1, Ok (QueryAnswer (Some <$> locations) coverage)) ∧
    each classify locations w1 (inl <$> targets) w2 ∧
    references_shown request coverage targets ms mx w2 w' env.
Proof.
  unfold find_referencing_symbols. destruct (_ || _); [by intros H%py_lift_ok%as_error_not_success|].
  intros (w1 & [locations coverage|e|] & Hq & H)%py_bind_ok; [|done|by apply py_lift_ok, as_error_not_success in H].
  apply py_bind_ok in H as (w2 & [targets|e] & Hc & H); [|done].
  destruct (classify_all_ok _ _ _ _ _ Hc) as (ls & -> & Hls). exists w1, w2, ls, coverage, targets.
  split_and!; [done|done|by eapply render_references_ok].
Qed.

(** Every shown reference is rendered from what was loaded for the one file of its target. *)
Lemma references_shown_from request coverage targets ms mx w w' env :
  references_shown request coverage targets ms mx w w' env →
  ∃ files documents references kept,
    NoDup (tg_key <$> files) ∧ (∀ t, t ∈ files → t ∈ _unique_targets targets) ∧
    each load files w documents w' ∧
    Forall2 (λ t data, ∃ file v, (file, v) ∈ zip files documents ∧ tg_key file = tg_key t ∧ shown_from t v data)
      (_unique_targets targets) references ∧
    (kept ≤ length references)%nat ∧ sv_data env = reference_fields request coverage (take kept references) ∧
    tm_omitted_count <$> sv_truncation env = Some (Z.of_nat (length references) - Z.of_nat kept) ∧
    (kept = 0%nat ∨ canonical_size (sv_data env) ≤ mx) ∧
    ((kept < length references)%nat → mx < canonical_size (reference_fields request coverage (take (S kept) references))).
Proof.
  intros (files & documents & trees & refs & kept & -> & Hd & Hkeys & Hall & Hr & Hrest).
  set (unique := _unique_targets targets) in *. destruct (targets_by_file_spec unique) as (Hnd & _ & Hfile & _).
  set (files := _targets_by_file unique) in *. clearbody files.
  assert (tg_key <$> files.*2 = files.*1) as Hfk.
  { rewrite <-list_fmap_compose. apply list_fmap_ext. intros i [k t] Ht. by apply list_elem_of_lookup_2, Hfile in Ht as [? _]. }
  exists files.*2, documents, refs, kept. split; [by rewrite Hfk|]. split.
  { intros t ([k t'] & -> & Ht)%list_elem_of_fmap. by apply Hfile in Ht as [_ ?]. }
  split; [done|]. split; [|exact Hrest]. eapply Forall2_impl; [exact Hr|]. intros t data (tree & Hget & Hdata).
  apply dict_get_Some_elem, list_elem_of_lookup in Hget as [i Hi].
  assert (trees.*2 !! i = Some tree) as Ht2 by (by rewrite list_lookup_fmap, Hi).
  assert (files.*1 !! i = Some (tg_key t)) as Hk1 by (by rewrite <-Hkeys, list_lookup_fmap, Hi).
  destruct (Forall2_lookup_r _ _ _ _ _ Hall Ht2) as ([file v] & Hz & Hfor). exists file, v.
  split; [by apply list_elem_of_lookup_2 in Hz|]. split; [|by eapply reference_data_shown].
  apply lookup_zip_with_Some in Hz as (f & v' & [= <- <-] & Hf & _). rewrite <-Hfk, list_lookup_fmap, Hf in Hk1.
  by injection Hk1.
Qed.
End reference_facts.

(** ** Which documents are loaded *)

(** The loading seam with the log of the keys it was called for. *)
Definition logged {W} (load : ReferenceTarget → PyM W nav_error loaded_document) (t : ReferenceTarget)
    : PyM (W * list pystr) nav_error loaded_document :=
  λ s, let '(w, r) := load t s.1 in ((w, s.2 ++ [tg_key t]), r).

Section load_log.
Context (urlparse : pystr → parsed_uri) (unquote : pystr → pystr) (py_str : pyany → pystr).
Context {W : Type}.
Context (find_references : ReferenceRequest → PyM W nav_error query_result).
Context (classify : Location → PyM W nav_error (ReferenceTarget + ErrorEnvelope)).
Context (load : ReferenceTarget → PyM W nav_error loaded_document).

Lemma load_tree_log request t s s' r :
  load_tree urlparse unquote py_str (logged load) request t s = (s', r) → s'.2 = s.2 ++ [tg_key t].
Proof.
  unfold load_tree, py_bind, logged. destruct (load t s.1) as [w [a|e]]; [|by intros [= <- _]].
  unfold py_lift. by intros [= <- _].
Qed.

Lemma load_trees_log request files : ∀ s s' r,
  (∀ k t, (k, t) ∈ files → tg_key t = k) →
  load_trees urlparse unquote py_str (logged load) request files s = (s', r) →
  ∃ n, s'.2 = s.2 ++ take n files.*1 ∧ (∀ trees, r = Ok (inl trees) → (length files ≤ n)%nat).
Proof.
  induction files as [|[key t] files IH]; intros s s' r Hkeys; cbn [load_trees].
  - intros [= <- <-]. exists 0%nat. split; [by rewrite take_0, app_nil_r|done].
  - unfold py_bind at 1. destruct (load_tree _ _ _ _ _ _ _) as [s1 r1] eqn:Ht. apply load_tree_log in Ht as Hlog.
    rewrite (Hkeys key t) in Hlog by (by left). destruct r1 as [[tree|e]|e].
    + unfold py_bind. destruct (load_trees _ _ _ _ _ _ _) as [s2 r2] eqn:Hrest.
      destruct (IH s1 s2 r2) as (n & Hn & Hall); [intros; apply Hkeys; by right|done|].
      rewrite Hlog, <-app_assoc in Hn. destruct r2 as [[rest|e]|e]; intros [= <- <-]; exists (S n); (split; [done|]);
        intros trees [= <-] || intros trees Heq; try done. simpl. specialize (Hall rest eq_refl). lia.
    + intros [= <- <-]. exists 1%nat. by split.
    + intros [= <- <-]. exists 1%nat. by split.
Qed.

Lemma classify_all_log request locations : ∀ s s' r,
  classify_all (λ l, unlogged (L := pystr) (classify l)) request locations s = (s', r) →
  s'.2 = s.2 ∧ ∀ ts, r = Ok (inl ts) → ∀ t, t ∈ ts → ∃ l w1 w2, Some l ∈ locations ∧ classify l w1 = (w2, Ok (inl t)).
Proof.
  induction locations as [|[l|] locations IH]; intros s s' r; cbn [classify_all].
  - intros [= <- <-]. split; [done|]. intros ts [= <-]. by intros t ?%elem_of_nil.
  - unfold py_bind at 1. destruct (unlogged (classify l) s) as [s1 r1] eqn:Hc. unfold unlogged in Hc.
    destruct (classify l s.1) as [w1 r1'] eqn:Hcl. injection Hc as <- <-. destruct r1' as [[t|e]|e].
    + unfold py_bind. destruct (classify_all _ _ _ _) as [s2 r2] eqn:Hrest. destruct (IH _ _ _ Hrest) as [Hs2 Hin].
      destruct r2 as [[rest|e]|e]; intros [= <- <-]; (split; [by rewrite Hs2|]); intros ts [= <-] || intros ts Heq; try done.
      intros t' [->|Ht']%elem_of_cons; [exists l, s.1, w1; split; [by left|done]|].
      destruct (Hin rest eq_refl t' Ht') as (l' & v1 & v2 & ? & ?). exists l', v1, v2. split; [by right|done].
    + intros [= <- <-]. by split.
    + intros [= <- <-]. by split.
  - intros [= <- <-]. by split.
Qed.

(** What a run leaves in the log. *)
Lemma find_referencing_log request ms mx w s' r :
  find_referencing_symbols urlparse unquote py_str (λ q, unlogged (L := pystr) (find_references q)) (λ l, unlogged (L := pystr) (classify l)) (logged load)
    request ms mx (w, []) = (s', r) →
  ∃ targets n, s'.2 = take n (_targets_by_file (_unique_targets targets)).*1 ∧
    (∀ t, t ∈ targets → ∃ l w1 w2, classify l w1 = (w2, Ok (inl t))) ∧
    (∀ env, r = Ok (inl env) → s'.2 = (_targets_by_file (_unique_targets targets)).*1 ∧
       ∃ w1 s2 locations coverage, find_references request w = (w1, Ok (QueryAnswer locations coverage)) ∧
         classify_all (λ l, unlogged (L := pystr) (classify l)) request locations (w1, []) = (s2, Ok (inl targets))).
Proof.
  unfold find_referencing_symbols. assert (∀ s'' r', s''.2 = [] → (∀ env, r' ≠ Ok (inl env)) → (s'', r') = (s', r) →
    ∃ targets n, s'.2 = take n (_targets_by_file (_unique_targets targets)).*1 ∧
      (∀ t, t ∈ targets → ∃ l w1 w2, classify l w1 = (w2, Ok (inl t))) ∧
      (∀ env, r = Ok (inl env) → s'.2 = (_targets_by_file (_unique_targets targets)).*1 ∧
         ∃ w1 s2 locations coverage, find_references request w = (w1, Ok (QueryAnswer locations coverage)) ∧
           classify_all (λ l, unlogged (L := pystr) (classify l)) request locations (w1, []) = (s2, Ok (inl targets)))) as Hearly.
  { intros s'' r' Hs Hr [= <- <-]. exists [], 0%nat. split_and!; [by rewrite Hs|by intros t ?%elem_of_nil|by intros env ?%Hr]. }
  destruct (_ || _).
  { apply Hearly; [done|]. intros env ?%as_error_not_success. done. }
  unfold py_bind at 1. unfold unlogged at 1. cbn [fst snd]. destruct (find_references request w) as [w1 [q|e]] eqn:Hq.
  2:{ by apply Hearly. }
  destruct q as [locations coverage|e|]; [|by apply Hearly|apply Hearly; [done|by intros env ?%as_error_not_success]].
  unfold py_bind at 1. destruct (classify_all _ _ _ _) as [s1 r1] eqn:Hrun1. pose proof (classify_all_log _ _ _ _ _ Hrun1) as [Hs1 Hin].
  cbn [snd] in Hs1. destruct r1 as [[targets|e]|e]; [|by apply Hearly|by apply Hearly].
  unfold _render_references, py_bind. destruct (load_trees _ _ _ _ _ _ _) as [s2 r2] eqn:Hl.
  pose proof (targets_by_file_spec (_unique_targets targets)) as (_ & _ & Hfile & _).
  apply load_trees_log in Hl as (n & Hn & Hall); [|intros k t Ht; by apply Hfile]. rewrite Hs1 in Hn. cbn [app] in Hn.
  intros Hrun. exists targets, n. assert (s' = s2) as -> by (destruct r2 as [[trees|e]|e]; by injection Hrun).
  split_and!; [done| |].
  - intros t Ht. destruct (Hin targets eq_refl t Ht) as (l & v1 & v2 & _ & ?). by exists l, v1, v2.
  - intros env ->. split; [|by exists w1, s1, locations, coverage].
    rewrite Hn. apply take_ge. rewrite length_fmap. destruct r2 as [[trees|e]|e]; [by eapply Hall|done|done].
Qed.
End load_log.

(** ** Snippets *)

Lemma rfind_spec c t stop :
  (stop ≤ length t)%nat →
  let r := rfind c t stop in
  (r = -1 ∨ ∃ i, r = Z.of_nat i ∧ (i < stop)%nat ∧ t !! i = Some c) ∧
  ∀ j, r < Z.of_nat j → (j < stop)%nat → t !! j ≠ Some c.
Proof.
  intros Hle. cbn zeta. unfold rfind. rewrite Nat.min_l by done. induction stop as [|stop IH].
  - split; [by left|]. intros j _ ?. lia.
  - rewrite seq_S, foldl_app. cbn [foldl Nat.add]. destruct (IH ltac:(lia)) as [Hr Hno]. case_bool_decide as Hc.
    + split; [right; exists stop; split_and!; [done|lia|done]|]. intros j ? ?. lia.
    + split; [destruct Hr as [->|(i & -> & ? & ?)]; [by left|right; exists i; split_and!; [done|lia|done]]|].
      intros j Hj Hlt. destruct (decide (j = stop)) as [->|]; [done|]. apply Hno; [done|lia].
Qed.

Lemma find_from_spec c t start :
  let r := find_from c t start in
  (r = -1 ∧ ∀ j, (start ≤ j)%nat → t !! j ≠ Some c) ∨
  (∃ i, r = Z.of_nat i ∧ (start ≤ i < length t)%nat ∧ t !! i = Some c ∧ ∀ j, (start ≤ j < i)%nat → t !! j ≠ Some c).
Proof.
  unfold find_from. assert (∀ n s, (s + n = Nat.max s (length t))%nat →
    match head (filter (λ i, t !! i = Some c) (seq s n)) with
    | Some i => (s ≤ i < length t)%nat ∧ t !! i = Some c ∧ ∀ j, (s ≤ j < i)%nat → t !! j ≠ Some c
    | None => ∀ j, (s ≤ j)%nat → t !! j ≠ Some c
    end) as Hgen.
  { induction n as [|n IH]; intros s Hn; cbn [seq].
    - intros j Hj Hc. apply lookup_lt_Some in Hc. lia.
    - rewrite filter_cons. destruct (decide (t !! s = Some c)) as [Hc|Hc].
      + cbn. split_and!; [lia|by apply lookup_lt_Some in Hc|done|]. intros; lia.
      + specialize (IH (S s) ltac:(lia)). destruct (head _) as [i|].
        * destruct IH as (Hi & Hti & Hno). split_and!; [lia|lia|done|]. intros j Hj.
          destruct (decide (j = s)) as [->|]; [done|]. apply Hno. lia.
        * intros j Hj. destruct (decide (j = s)) as [->|]; [done|]. apply IH. lia. }
  specialize (Hgen (length t - start)%nat start ltac:(lia)). destruct (head _) as [i|]; [right; exists i; tauto|by left].
Qed.

Lemma line_start_spec t offset :
  (offset ≤ length t)%nat →
  (_line_start_offset t offset ≤ offset)%nat ∧
  (∀ j, (_line_start_offset t offset ≤ j < offset)%nat → ∀ c, t !! j = Some c → ¬ newline c) ∧
  (_line_start_offset t offset = 0%nat ∨ ∃ c, t !! (_line_start_offset t offset - 1)%nat = Some c ∧ newline c).
Proof.
  intros Hle. unfold _line_start_offset. destruct (rfind_spec cp_LF t offset Hle) as [H1 N1].
  destruct (rfind_spec cp_CR t offset Hle) as [H2 N2].
  set (a := rfind cp_LF t offset) in *. set (b := rfind cp_CR t offset) in *. split_and!.
  - destruct H1 as [->|(i & -> & ? & ?)], H2 as [->|(k & -> & ? & ?)]; lia.
  - intros j Hj c Hc [->| ->]; [apply (N2 j); [|lia|done]|apply (N1 j); [|lia|done]]; lia.
  - destruct (decide (b ≤ a)) as [Hba|Hba].
    + destruct H1 as [->|(i & -> & ? & Hi)]; [left; lia|right]. exists cp_LF. split; [|by right].
      by replace (Z.to_nat (Z.of_nat i `max` b + 1) - 1)%nat with i by lia.
    + destruct H2 as [->|(i & -> & ? & Hi)]; [left; lia|right]. exists cp_CR. split; [|by left].
      by replace (Z.to_nat (a `max` Z.of_nat i + 1) - 1)%nat with i by lia.
Qed.

Lemma line_end_spec t offset :
  (offset ≤ length t)%nat →
  (offset ≤ _line_end_offset t offset ≤ length t)%nat ∧
  (∀ j, (offset ≤ j < _line_end_offset t offset)%nat → ∀ c, t !! j = Some c → ¬ newline c) ∧
  (_line_end_offset t offset = length t ∨ ∃ c, t !! _line_end_offset t offset = Some c ∧ newline c).
Proof.
  intros Hle. unfold _line_end_offset.
  destruct (find_from_spec cp_CR t offset) as [[-> N1]|(i & -> & Hi & Hti & N1)],
    (find_from_spec cp_LF t offset) as [[-> N2]|(k & -> & Hk & Htk & N2)]; rewrite !filter_cons, filter_nil.
  - rewrite !decide_False by lia. split_and!; [lia|lia| |by left]. intros j Hj c Hc [->| ->]; [eapply N1; [|done]; lia|eapply N2; [|done]; lia].
  - rewrite decide_False, decide_True, Nat2Z.id by lia. split_and!; [lia|lia| |right; exists cp_LF; split; [done|by right]].
    intros j Hj c Hc [->| ->]; [eapply N1; [|done]; lia|eapply N2; [|done]; lia].
  - rewrite decide_True, decide_False, Nat2Z.id by lia. split_and!; [lia|lia| |right; exists cp_CR; split; [done|by left]].
    intros j Hj c Hc [->| ->]; [eapply N1; [|done]; lia|eapply N2; [|done]; lia].
  - rewrite !decide_True by lia. split_and!; [lia|lia| |].
    + intros j Hj c Hc [->| ->]; [eapply N1; [|done]; lia|eapply N2; [|done]; lia].
    + right. destruct (decide (i ≤ k)%nat).
      * exists cp_CR. split; [|by left]. by replace (Z.to_nat (Z.of_nat i `min` Z.of_nat k)) with i by lia.
      * exists cp_LF. split; [|by right]. by replace (Z.to_nat (Z.of_nat i `min` Z.of_nat k)) with k by lia.
Qed.

(** The window a snippet shows: the offset is in it, and it is at most one character longer than the limit. *)
Lemma bounded_line_spec ln rel limit :
  0 < limit → 0 ≤ rel ≤ Z.of_nat (length ln) →
  let s := bounded_line ln rel limit in
  if decide (Z.of_nat (length ln) ≤ limit) then s = (ln, false)
  else s.2 = true ∧ Z.of_nat (length s.1) ≤ limit + 1 ∧
    (s.1 = [ellipsis] ∨
     ∃ l r, (l ≤ Z.to_nat rel ≤ r)%nat ∧ (r ≤ length ln)%nat ∧
       s.1 = mark (bool_decide (l ≠ 0%nat)) ++ text_slice ln l r ++ mark (bool_decide (r < length ln)%nat)).
Proof.
  intros Hlim Hrel. cbn zeta. unfold bounded_line. case_bool_decide as Hle; [by rewrite decide_True|].
  rewrite decide_False by done. cbn zeta. set (len := Z.of_nat (length ln)) in *.
  set (left1 := window_left rel limit len). set (p1 := mark _). set (s1 := mark _).
  assert (0 ≤ left1) as Hl1 by (unfold left1, window_left; lia).
  assert (length p1 + length s1 ≤ 2)%nat as Hmarks.
  { unfold p1, s1, mark. repeat case_bool_decide; simpl; lia. }
  assert (1 ≤ length p1 + length s1)%nat as Hone.
  { unfold p1, s1, mark. repeat case_bool_decide; simpl; lia. }
  case_bool_decide as Hint.
  { cbn [fst snd]. split; [done|]. replace (take (Z.to_nat limit) [ellipsis]) with [ellipsis].
    - simpl. split; [lia|by left].
    - destruct (Z.to_nat limit) eqn:?; [lia|]. simpl. by rewrite take_nil. }
  set (i := limit - Z.of_nat (length p1) - Z.of_nat (length s1)) in *.
  set (left2 := window_left rel i len).
  assert (0 ≤ left2 ≤ rel ∧ rel ≤ left2 + i ∧ left2 + i ≤ len) as (Hl2 & Hr2 & Hlen2).
  { unfold left2, window_left. pose proof (Z.div_mod i 2 ltac:(lia)). pose proof (Z.mod_pos_bound i 2 ltac:(lia)). lia. }
  cbn [fst snd]. split; [done|]. split.
  - rewrite !length_app, text_slice_length by lia. unfold mark. repeat case_bool_decide; simpl; lia.
  - right. exists (Z.to_nat left2), (Z.to_nat (left2 + i)). split; [lia|]. split; [lia|].
    f_equal; [|f_equal]; f_equal; apply bool_decide_ext; lia.
Qed.

(** ** Properties *)

(** C18: finding the references of a symbol answers with what the server found, once each: the locations are classified in
    order, a reference is shown for every distinct (file, URI, range) among them and no other, in the order of display
    paths and positions; one document is loaded for each file, and each reference is its target's range in the coordinates
    of the very text loaded for its file, with the innermost symbol of that document around it (or the raw range, when a
    file outside the workspace has no text); what is shown is the longest prefix within [max_answer_chars], its count is
    exact, and the number left out is exact. *)
Theorem references_answer_exact urlparse unquote py_str {W} (find_references : ReferenceRequest → PyM W nav_error query_result)
    classify load request ms mx w w' env :
  find_referencing_symbols urlparse unquote py_str find_references classify load request ms mx w = (w', Ok (inl env)) →
  ∃ w1 w2 locations coverage targets files documents references kept,
    find_references request w = (w1, Ok (QueryAnswer (Some <$> locations) coverage)) ∧
    each classify locations w1 (inl <$> targets) w2 ∧ each load files w2 documents w' ∧
    let unique := _unique_targets targets in
    NoDup (identity_of <$> unique) ∧ StronglySorted (key_le _target_order_key) unique ∧
    (∀ t, t ∈ unique → t ∈ targets) ∧ (∀ t, t ∈ targets → ∃ t', t' ∈ unique ∧ identity_of t' = identity_of t) ∧
    NoDup (tg_key <$> files) ∧ (∀ t, t ∈ files → t ∈ unique) ∧
    Forall2 (λ t data, ∃ file v, (file, v) ∈ zip files documents ∧ tg_key file = tg_key t ∧ shown_from urlparse unquote py_str t v data)
      unique references ∧
    (kept ≤ length references)%nat ∧ sv_data env = reference_fields request coverage (take kept references) ∧
    tm_omitted_count <$> sv_truncation env = Some (Z.of_nat (length unique) - Z.of_nat kept) ∧
    (kept = 0%nat ∨ canonical_size (sv_data env) ≤ mx) ∧
    ((kept < length references)%nat → mx < canonical_size (reference_fields request coverage (take (S kept) references))).
Proof.
  intros (w1 & w2 & ls & coverage & targets & Hq & Hc & (files & documents & refs & kept & Hnd & Hin & Hd & Hr & Hrest)%references_shown_from)%find_referencing_ok.
  exists w1, w2, ls, coverage, targets, files, documents, refs, kept. cbn zeta. rewrite (Forall2_length _ _ _ Hr).
  destruct (unique_targets_spec targets) as (H1 & H2 & H3 & H4). by split_and!; try done; apply Hrest.
Qed.

(** however the seams behave, a call loads each candidate file at most once, in the order of the files' keys, and
    only files of locations the workspace has classified; an answered call has loaded all of them. *)
Theorem reference_files_loaded_once urlparse unquote py_str {W} (find_references : ReferenceRequest → PyM W nav_error query_result)
    classify load request ms mx w w' log r :
  find_referencing_symbols urlparse unquote py_str (λ q, unlogged (L := pystr) (find_references q)) (λ l, unlogged (L := pystr) (classify l)) (logged load)
    request ms mx (w, []) = ((w', log), r) →
  NoDup log ∧ StronglySorted (λ a b, py_leb a b = true) log ∧
  (∀ key, key ∈ log → ∃ l w1 w2 t, classify l w1 = (w2, Ok (inl t)) ∧ tg_key t = key) ∧
  (∀ env, r = Ok (inl env) → ∃ w1 s2 locations coverage targets,
     find_references request w = (w1, Ok (QueryAnswer locations coverage)) ∧
     classify_all (λ l, unlogged (L := pystr) (classify l)) request locations (w1, []) = (s2, Ok (inl targets)) ∧
     ∀ t, t ∈ targets → tg_key t ∈ log).
Proof.
  intros (targets & n & Hlog & Hin & Hall)%find_referencing_log. cbn [snd] in *.
  destruct (targets_by_file_spec (_unique_targets targets)) as (Hnd & Hsort & Hfile & Hkeys).
  assert (log `sublist_of` (_targets_by_file (_unique_targets targets)).*1) as Hsub by (rewrite Hlog; apply sublist_take).
  split_and!.
  - by eapply sublist_NoDup.
  - assert (StronglySorted (λ a b, py_leb a b = true) (_targets_by_file (_unique_targets targets)).*1) as Hs.
    { clear -Hsort. induction Hsort as [|x l _ IH Hx]; csimpl; constructor; [done|]. by apply Forall_fmap. }
    rewrite Hlog. rewrite <-(take_drop n) in Hs. by apply StronglySorted_app_1_l in Hs.
  - intros key Hkey. apply (elem_of_sublist _ _ _ Hkey) in Hsub. apply Hkeys in Hsub.
    apply list_elem_of_fmap in Hsub as (t & -> & Ht). destruct (unique_targets_spec targets) as (_ & _ & H3 & _). apply H3 in Ht.
    destruct (Hin t Ht) as (l & w1 & w2 & ?). by exists l, w1, w2, t.
  - intros env Henv. destruct (Hall env Henv) as (-> & w1 & s2 & ls & coverage & Hq & Hc).
    exists w1, s2, ls, coverage, targets. split_and!; [done|done|]. intros t Ht. apply Hkeys.
    destruct (unique_targets_spec targets) as (_ & _ & _ & H4). destruct (H4 t Ht) as (t' & Ht' & Hid).
    apply list_elem_of_fmap. exists t'. split; [|done]. unfold identity_of in Hid. congruence.
Qed.

(** The start of a location that has been rendered lies in the text. *)
Lemma rendered_offset m l j :
  _location_data m l = Ok j →
  ∃ o, lsp_to_text_offset m (_lsp_position (rg_start (loc_range l))) = Ok o ∧ 0 ≤ o ≤ Z.of_nat (length (text (snapshot m))).
Proof.
  unfold _location_data, _source_range, range. intros (ab & Hab & _)%res_bind_Ok.
  apply res_bind_Ok in Hab as (a & Ha & _). unfold position in Ha. apply res_bind_Ok in Ha as (o & Ho & H).
  exists o. split; [done|]. apply res_bind_Ok in H as (b & Hb & _). unfold text_offset_to_byte_offset in Hb.
  apply res_bind_Ok in Hb as ([] & Hc & _). unfold _check_text_offset in Hc. repeat case_bool_decide; try done. lia.
Qed.

(** Part of the text of [[a, b)] is part of the text. *)
Lemma text_slice_slice (t : pystr) a b l r :
  (a ≤ b ≤ length t)%nat → (l ≤ r ≤ b - a)%nat → text_slice (text_slice t a b) l r = text_slice t (a + l) (a + r).
Proof.
  intros Hab Hlr. unfold text_slice. rewrite skipn_firstn_comm, drop_drop, take_take. f_equal. lia.
Qed.

(** the snippet of a reference is its source line: the text between the line breaks around the reference when it is
    no longer than the limit, and otherwise a piece of that line with the start of the reference in it, marked where it is
    cut, or a lone ellipsis; it is never more than one character over the limit. *)
Theorem snippet_shows_the_line t d m ms data :
  dt_mapper d = Some m → 0 < ms → _reference_data t d ms = Some data →
  let src := text (snapshot m) in
  ∃ offset start stop snippet truncated,
    lsp_to_text_offset m (_lsp_position (rg_start (loc_range (tg_location t)))) = Ok (Z.of_nat offset) ∧
    data_get data "snippet" = Some (JStr snippet) ∧ data_get data "snippet_truncated" = Some (JBool truncated) ∧
    (start ≤ offset ≤ stop)%nat ∧ (stop ≤ length src)%nat ∧
    (∀ j c, (start ≤ j < stop)%nat → src !! j = Some c → ¬ newline c) ∧
    (start = 0%nat ∨ ∃ c, src !! (start - 1)%nat = Some c ∧ newline c) ∧
    (stop = length src ∨ ∃ c, src !! stop = Some c ∧ newline c) ∧
    (truncated = false ∧ snippet = text_slice src start stop ∧ Z.of_nat (stop - start) ≤ ms ∨
     truncated = true ∧ ms < Z.of_nat (stop - start) ∧ Z.of_nat (length snippet) ≤ ms + 1 ∧
     (snippet = [ellipsis] ∨
      ∃ l r, (start ≤ l ≤ offset)%nat ∧ (offset ≤ r ≤ stop)%nat ∧
        snippet = mark (bool_decide (l ≠ start)) ++ text_slice src l r ++ mark (bool_decide (r < stop)%nat))).
Proof.
  intros Hm Hms Hdata src. unfold _reference_data in Hdata. rewrite Hm in Hdata. case_bool_decide; [done|].
  destruct (_location_data m (tg_location t)) as [j|] eqn:Hloc; [|done]. rewrite bool_decide_eq_true_2 in Hdata by done.
  destruct (rendered_offset _ _ _ Hloc) as (o & Ho & Hbound). fold src in Hbound. unfold _snippet in Hdata.
  rewrite Hm, Ho in Hdata. fold src in Hdata. set (offset := Z.to_nat o) in *.
  destruct (line_start_spec src offset ltac:(lia)) as (Hs1 & Hs2 & Hs3).
  destruct (line_end_spec src offset ltac:(lia)) as (He1 & He2 & He3).
  set (start := _line_start_offset src offset) in *. set (stop := _line_end_offset src offset) in *.
  pose proof (bounded_line_spec (text_slice src start stop) (o - Z.of_nat start) ms Hms) as Hline. cbn zeta in Hline.
  rewrite (text_slice_length src start stop) in Hline by lia. specialize (Hline ltac:(lia)).
  destruct (bounded_line _ _ _) as [snippet truncated]. injection Hdata as <-.
  exists offset, start, stop, snippet, truncated. cbn [fst snd] in Hline.
  split_and!; [by rewrite Ho; do 2 f_equal; lia|reflexivity|reflexivity|lia|lia|lia| |done|done|].
  - intros i c Hi Hc. destruct (decide (i < offset)%nat); [eapply Hs2; [|done]; lia|eapply He2; [|done]; lia].
  - case_decide as Hle; [left; injection Hline as -> ->; split_and!; [done|done|lia]|right].
    destruct Hline as (-> & Hlen & Hcase). split_and!; [done|lia|done|]. destruct Hcase as [->|(l & r & Hlr & Hr & ->)]; [by left|right].
    exists (start + l)%nat, (start + r)%nat. split_and!; [lia..|].
    rewrite text_slice_slice by lia. f_equal; [|f_equal]; f_equal; apply bool_decide_ext; lia.
Qed.

Module ReferenceExamples.
Import NormalizeExamples NavigationExamples.

Definition coverage : ReferenceCoverage :=
  {| rc_adapter := lit "pyright"; rc_language := lit "python"; rc_scope_kind := lit "configured"; rc_configured_program_files := 1;
     rc_configured_program_digest := []; rc_trusted_language_files := 1; rc_trusted_language_digest := []; rc_uncovered_files := 0;
     rc_uncovered_digest := []; rc_uncovered_sample := []; rc_uncovered_total := 0; rc_uncovered_omitted := 0 |}.

Definition request : ReferenceRequest :=
  {| rq_relative_path := lit "a.py"; rq_position := {| pos_line := 0; pos_character := 0 |}; rq_workspace := None;
     rq_adapter := None; rq_generations := None |}.

Definition at_line (uri : string) (l c : Z) : Location :=
  {| loc_uri := lit uri; loc_range := {| rg_start := {| pos_line := l; pos_character := c |};
                                         rg_end := {| pos_line := l; pos_character := c |} |}; loc_path := None |}.

(** Every location is in the file [/w/a.py] of the workspace. *)
Definition classify (l : Location) : PyM unit nav_error (ReferenceTarget + ErrorEnvelope) :=
  py_ret (inl {| tg_location := l; tg_key := lit "/w/a.py"; tg_display_path := lit "a.py"; tg_read_only_external := false |}).

Definition load (snap : FileSnapshot) (t : ReferenceTarget) : PyM unit nav_error loaded_document :=
  py_ret (LoadedDocument {| rd_uri := loc_uri (tg_location t); rd_snapshot := snap; rd_raw_symbols := class_document;
                            rd_position_encoding := UTF16; rd_recover_containment := None |}).

Definition locations : list (option Location) :=
  [Some (at_line "file:///w/a.py" 8 0); Some (at_line "file:///w/a.py" 2 0); Some (at_line "file:///w/a.py" 8 0)].

Definition find (_ : ReferenceRequest) : PyM unit nav_error query_result := py_ret (QueryAnswer locations coverage).

Definition answer : SuccessEnvelope :=
  match find_referencing_symbols parse_uri id (λ _, []) find classify (load blank) request 0 12000 tt with
  | (_, Ok (inl e)) => e
  | _ => {| sv_data := JNull; sv_workspace := None; sv_adapter := None; sv_generations := None; sv_truncation := None |}
  end.

Lemma references_answer_exact_witness :
  data_get (sv_data answer) "reference_count" = Some (JInt 2) ∧
  ∃ targets files documents, NoDup (identity_of <$> _unique_targets targets) ∧ each (load blank) files tt documents tt ∧
    NoDup (tg_key <$> files).
Proof.
  split; [vm_compute; reflexivity|].
  destruct (references_answer_exact parse_uri id (λ _, []) find classify (load blank) request 0 12000 tt tt answer
    ltac:(vm_compute; reflexivity)) as (w1 & [] & ls & c & targets & files & documents & refs & kept & Hq & Hc & Hl & H).
  exists targets, files, documents. split; [exact (proj1 H)|]. split; [exact Hl|exact (proj1 (proj2 (proj2 (proj2 (proj2 H)))))].
Defined.

Lemma reference_files_loaded_once_witness :
  ∃ log r, find_referencing_symbols parse_uri id (λ _, []) (λ q, unlogged (L := pystr) (find q)) (λ l, unlogged (L := pystr) (classify l)) (logged (load blank))
    request 0 12000 (tt, []) = ((tt, log), r) ∧ log = [lit "/w/a.py"] ∧ NoDup log.
Proof.
  eexists _, _. split; [vm_compute; reflexivity|]. split; [vm_compute; reflexivity|].
  exact (proj1 (reference_files_loaded_once parse_uri id (λ _, []) find classify (load blank) request 0 12000 tt tt _ _
    ltac:(vm_compute; reflexivity))).
Defined.

(** A line of twenty letters. *)
Definition long_line : FileSnapshot := match from_bytes (replicate 20 97%N) with Ok s => s | Err _ => blank end.
Definition long_tree : _DocumentTree :=
  {| dt_uri := lit "file:///w/a.py"; dt_mapper := Some {| snapshot := long_line; encoding := UTF16 |};
     dt_position_encoding := UTF16; dt_symbols := [] |}.
Definition target_at (c : Z) : ReferenceTarget :=
  {| tg_location := at_line "file:///w/a.py" 0 c; tg_key := lit "/w/a.py"; tg_display_path := lit "a.py"; tg_read_only_external := false |}.
Definition data_at (c ms : Z) : json := default JNull (_reference_data (target_at c) long_tree ms).

Lemma snippet_shows_the_line_witness :
  ∃ start stop snippet, data_get (data_at 5 30) "snippet" = Some (JStr snippet) ∧ (start ≤ stop ≤ 20)%nat.
Proof.
  destruct (snippet_shows_the_line (target_at 5) long_tree {| snapshot := long_line; encoding := UTF16 |} 30 (data_at 5 30)
    eq_refl ltac:(lia) ltac:(vm_compute; reflexivity)) as (o & start & stop & snippet & tr & _ & Hs & _ & Hle & Hlen & _).
  exists start, stop, snippet. split; [exact Hs|]. change (length (text (snapshot _))) with 20%nat in Hlen. lia.
Defined.

(** A snippet can be longer than [max_snippet_chars]: with a limit of 10, the reference at column 5 of a line of
    twenty letters gets a snippet of eleven characters, because the second placement of the window needs an ellipsis on the
    left that the first did not. *)
Theorem snippet_exceeds_limit :
  match data_get (data_at 5 10) "snippet" with Some (JStr s) => length s = 11%nat | _ => False end.
Proof. vm_compute. reflexivity. Qed.

(** Two locations of one file under different spellings of its URI make the whole query fail: the file is loaded
    once, under the first spelling, and the reference under the other one is reported as a range mismatch. *)
Theorem uri_spellings_fail_the_query :
  match find_referencing_symbols_of parse_uri id (λ _, []) request
          [Some (at_line "file:///w/a.py" 2 0); Some (at_line "file:///w/%61.py" 8 0)] classify (load blank) coverage 0 12000 tt with
  | (_, Ok (inr e)) => er_code e = EC_NOT_READY ∧ rt_retryable <$> er_retry e = Some true ∧
      data_get (er_details e) "reason" = Some (JStr (lit "workspace_reference_snapshot_range_mismatch"))
  | _ => False
  end.
Proof. vm_compute. split_and!; reflexivity. Qed.
End ReferenceExamples.
