(* ===== verification/Declarations.v ===== *)
(** * Declarations and implementations

    Model of [src/serena_light/tools/declarations.py]: capability gates, the one
    occurrence a regular expression captures, the selection of a source symbol,
    the rendering of classified locations, kind filters and the bounded answer.

    The adapter seam is a parameter that may read and change a world of any type
    and may raise; so are [re.compile] with [finditer], SHA-256 and what document
    normalization takes. A mapping from the seam is its items, or [None] when
    [json.dumps] rejects it. *)

From S2P Require Import Prelude Paths Json Envelopes Positions Normalize Navigation Selection AdapterState.

Definition DEFINITION_METHOD : pystr := lit "textDocument/definition".
Definition IMPLEMENTATION_METHOD : pystr := lit "textDocument/implementation".
Definition _MIN_SYMBOL_KIND : Z := 1.
Definition _MAX_SYMBOL_KIND : Z := 26.

Abbreviation json_dict := (list (pystr * json)).

(** ** Capabilities *)

Record CapabilityMatrix := { cm_raw : RawLspProviders; cm_derived : DerivedToolAvailability }.

Definition matrix_from_raw (raw : RawLspProviders) : CapabilityMatrix := {| cm_raw := raw; cm_derived := from_raw raw |}.

Definition matrix_dict (c : CapabilityMatrix) : json :=
  let raw := cm_raw c in
  let derived := cm_derived c in
  JObj [(lit "raw",
           JObj [(lit "definitionProvider", JBool (lp_definition raw)); (lit "declarationProvider", JBool (lp_declaration raw));
                 (lit "implementationProvider", JBool (lp_implementation raw)); (lit "referencesProvider", JBool (lp_references raw));
                 (lit "documentSymbolProvider", JBool (lp_document_symbols raw));
                 (lit "workspaceSymbolProvider", JBool (lp_workspace_symbols raw))]);
        (lit "derived",
           JObj [(lit "find_declaration", JBool (dt_find_declaration derived));
                 (lit "find_implementations", JBool (dt_find_implementations derived));
                 (lit "find_referencing_symbols", JBool (dt_find_referencing_symbols derived));
                 (lit "get_symbols_overview", JBool (dt_get_symbols_overview derived));
                 (lit "global_find_symbol", JBool (dt_global_find_symbol derived))])].

Record SemanticDocumentInput := { sd_document : DocumentSymbolInput; sd_capabilities : CapabilityMatrix }.

(** ** Classified locations *)

Definition rendered_fields : list pystr := [lit "range"; lit "raw_lsp_range"; lit "body"; lit "info"].
Definition semantic_fields : list pystr :=
  [lit "range"; lit "raw_lsp_range"; lit "selection_range"; lit "selectionRange"; lit "body"].

(** [fields.intersection(mapping)] is empty *)
Definition disjoint_keys (fields : list pystr) (d : json_dict) : bool := forallb (λ k, bool_decide (k ∉ d.*1)) fields.

Record ClassifiedLocationInput := {
  cl_metadata : json_dict;
  cl_lsp_range : option Range;
  cl_snapshot : option FileSnapshot;
  cl_position_encoding : PositionEncoding;
  cl_semantic_info : option json_dict;
}.

Definition classified_init (c : ClassifiedLocationInput) : res nav_error ClassifiedLocationInput :=
  _ ← ensure (disjoint_keys rendered_fields (cl_metadata c)) NavInput;
  _ ← ensure (match cl_snapshot c, cl_lsp_range c with Some _, None => false | _, _ => true end) NavInput;
  _ ← ensure (match cl_semantic_info c with Some info => disjoint_keys semantic_fields info | None => true end) NavInput;
  Ok c.

Definition verified (metadata : json_dict) (r : Range) (snap : FileSnapshot) (e : PositionEncoding) (info : option json_dict)
    : res nav_error ClassifiedLocationInput :=
  classified_init {| cl_metadata := metadata; cl_lsp_range := Some r; cl_snapshot := Some snap; cl_position_encoding := e;
                     cl_semantic_info := info |}.

Definition raw_lsp (metadata : json_dict) (r : Range) (e : PositionEncoding) : res nav_error ClassifiedLocationInput :=
  classified_init {| cl_metadata := metadata; cl_lsp_range := Some r; cl_snapshot := None; cl_position_encoding := e;
                     cl_semantic_info := None |}.

(** What the seam may return for one location. *)
Inductive normalized_location :=
| NLClassified (c : ClassifiedLocationInput)
| NLUnserializable                       (** a classified location that renders, with metadata [json.dumps] rejects *)
| NLMapping (m : option json_dict)
| NLOther.

Definition raw_range_json (r : Range) (e : PositionEncoding) : json :=
  let rr := raw_lsp_range (_lsp_position (rg_start r)) (_lsp_position (rg_end r)) e in
  let p q := JObj [(lit "line", JInt (line q)); (lit "character", JInt (character q))] in
  JObj [(lit "basis", JStr (rr_basis rr)); (lit "start", p (rr_start rr)); (lit "end", p (rr_end rr))].

(** ** Regular expressions *)

(** A compiled pattern: its number of groups and, for each match in a text, where group 1 starts ([-1] if it did not
    take part). *)
Record re_pattern := { re_groups : nat; re_finditer : pystr → list Z }.

Section declarations.
Context (sha256_hex : list N → pystr).
Context (urlparse : pystr → parsed_uri) (unquote : pystr → pystr) (py_str : pyany → pystr).
Context (digit_char : N → bool) (re_compile : pystr → option re_pattern).

(** [Ok None] is the [None] of the source. *)
Definition _render_classified_location (c : ClassifiedLocationInput) (include_body include_info : bool)
    : res position_error (option json_dict) :=
  match cl_lsp_range c with
  | None => Ok (Some (cl_metadata c))
  | Some r =>
      match cl_snapshot c with
      | None =>
          if include_body || include_info then Ok None
          else Ok (Some (dict_set (cl_metadata c) (lit "raw_lsp_range") (raw_range_json r (cl_position_encoding c))))
      | Some snap =>
          let m := from_snapshot snap (cl_position_encoding c) in
          rendered ← _source_range m r;
          let data := dict_set (cl_metadata c) (lit "range") rendered in
          data ← (if include_body then
                    body ← renderer_text m (_lsp_position (rg_start r)) (_lsp_position (rg_end r));
                    Ok (dict_set (dict_set data (lit "body") (JStr body)) (lit "sha256") (JStr (sha256_hex (raw_bytes snap))))
                  else Ok data);
          Ok (Some (match cl_semantic_info c with
                    | Some info => if include_info && nonempty info then dict_set data (lit "info") (JObj info) else data
                    | None => data
                    end))
      end
  end.

(** [_compile_locator]: the pattern or the reason. *)
Definition _compile_locator (value : pyany) : re_pattern + pystr :=
  match value with
  | PStr s =>
      match re_compile s with
      | None => inr (lit "invalid_python_regex")
      | Some pattern =>
          match re_groups pattern with
          | O => inr (lit "expected_exactly_one_capture_group_got_zero")
          | S O => inl pattern
          | n => inr (lit "expected_exactly_one_capture_group_got_" ++ dec (Z.of_nat n))
          end
      end
  | _ => inr (lit "expected_string")
  end.

Fixpoint parse_kind_list (values : list pyany) : option (list Z) :=
  match values with
  | [] => Some []
  | PInt z :: values =>
      if bool_decide (_MIN_SYMBOL_KIND ≤ z ≤ _MAX_SYMBOL_KIND) then cons z <$> parse_kind_list values else None
  | _ :: _ => None
  end.

Definition _parse_kinds (values : option pyany) : option (list Z) :=
  match values with
  | None => Some []
  | Some (PSequence l) => parse_kind_list l
  | Some _ => None
  end.

(** ** Errors *)

Definition _missing (d : DocumentNavigation) (details : json_dict) : res nav_error ErrorEnvelope :=
  document_failure d SYMBOL_NOT_FOUND details.
Definition _ambiguous (d : DocumentNavigation) (details : json_dict) : res nav_error ErrorEnvelope :=
  document_failure d AMBIGUOUS_SYMBOL details.

Definition invalid_field (d : DocumentNavigation) (field : pystr) (reason : option pystr) (minimum_required : option Z)
    : res nav_error ErrorEnvelope :=
  document_failure d INVALID_INPUT
    ((lit "field", JStr field) :: entry "reason" (JStr <$> reason) ++ entry "minimum_required" (JInt <$> minimum_required)).

Definition _invalid_adapter_result (d : DocumentNavigation) (field : pystr) : res nav_error ErrorEnvelope :=
  invalid_field d field (Some (lit "adapter_result_is_invalid")) None.

Definition _unmapped_requested_content (d : DocumentNavigation) : res nav_error ErrorEnvelope :=
  document_failure d UNSUPPORTED
    [(lit "operation", JStr (lit "render_semantic_location_content"));
     (lit "reason", JStr (lit "verified_target_snapshot_unavailable"))].

Definition _unsupported (d : DocumentNavigation) (c : CapabilityMatrix) (operation method : pystr) : res nav_error ErrorEnvelope :=
  document_failure d UNSUPPORTED
    ([(lit "operation", JStr operation); (lit "method", JStr method); (lit "capabilities", matrix_dict c)] ++
     if bool_decide (operation = lit "find_implementations") && negb (lp_implementation (cm_raw c))
     then [(lit "reason", JStr (lit "implementation_provider_unavailable"));
           (lit "next_action", JStr (lit "find_referencing_symbols"))]
     else []).

(** [error(ErrorCode.INVALID_INPUT, details=...)] before a document is known *)
Definition plain_failure (code : ErrorCode) (details : json_dict) : res nav_error ErrorEnvelope :=
  lift_failure (error code None (Some (any_of_json (JObj details))) None None None).

Definition resolve_source_symbol (d : DocumentNavigation) (name_path : pystr) : res nav_error (NormalizedSymbol + ErrorEnvelope) :=
  match py_sorted _symbol_order_key (selected_symbols digit_char (dn_symbols d) name_path) with
  | [] => as_error (_missing d [(lit "relative_path", JStr (dn_relative_path d)); (lit "name_path", JStr name_path)])
  | [s] => Ok (inl s)
  | candidates => as_error (_ambiguous d
      [(lit "relative_path", JStr (dn_relative_path d)); (lit "name_path", JStr name_path);
       (lit "candidates", JList ((λ s, JStr (join_slash (ns_path s))) <$> candidates))])
  end.

(** The loop of [_normalize]: the copies, an error envelope, or [None] for the caught exceptions. *)
Fixpoint copy_locations (d : DocumentNavigation) (include_body include_info : bool) (l : list normalized_location)
    : res nav_error (option (list json_dict) + ErrorEnvelope) :=
  match l with
  | [] => Ok (inl (Some []))
  | NLOther :: _ | NLUnserializable :: _ | NLMapping None :: _ => Ok (inl None)
  | NLClassified c :: l =>
      match _render_classified_location c include_body include_info with
      | Err _ => Ok (inl None)
      | Ok None => as_error (_unmapped_requested_content d)
      | Ok (Some copied) =>
          rest ← copy_locations d include_body include_info l;
          Ok (match rest with inl (Some r) => inl (Some (copied :: r)) | r => r end)
      end
  | NLMapping (Some copied) :: l =>
      if negb (disjoint_keys rendered_fields copied) then Ok (inl None)
      else
        rest ← copy_locations d include_body include_info l;
        Ok (match rest with inl (Some r) => inl (Some (copied :: r)) | r => r end)
  end.

(** ** The seam *)

Context {W R : Type}.
Context (load_semantic_document : pystr → PyM W nav_error (SemanticDocumentInput + ErrorEnvelope)).
Context (request_locations : pystr → pystr → LspPosition → bool → PyM W nav_error R).
Context (normalize_and_classify_locations : R → bool → bool → PyM W nav_error (list normalized_location + ErrorEnvelope)).

Definition load_semantic (relative_path : pystr) : PyM W nav_error (DocumentNavigation * CapabilityMatrix + ErrorEnvelope) :=
  (let! loaded := load_semantic_document relative_path in
   py_lift match loaded with
   | inr e => Ok (inr e)
   | inl s =>
       if bool_decide (di_relative_path (sd_document s) ≠ relative_path)
       then as_error (plain_failure INVALID_PATH [(lit "path", JStr relative_path)])
       else match from_input urlparse unquote py_str (sd_document s) with
            | Ok d => Ok (inl (d, sd_capabilities s))
            | Err _ => as_error (plain_failure INVALID_INPUT [(lit "path", JStr relative_path)])
            end
   end)%py.

Definition normalize_locations (d : DocumentNavigation) (raw : R) (include_body include_info : bool)
    : PyM W nav_error (list json_dict + ErrorEnvelope) :=
  (let! normalized := normalize_and_classify_locations raw include_body include_info in
   py_lift match normalized with
   | inr e => Ok (inr e)
   | inl l =>
       copied ← copy_locations d include_body include_info l;
       match copied with
       | inr e => Ok (inr e)
       | inl None => as_error (_invalid_adapter_result d (lit "normalized_locations"))
       | inl (Some locations) => Ok (inl (py_sorted (λ x, _canonical_json (JObj x)) locations))
       end
   end)%py.

(** The offsets of the text that is searched, or the error. *)
Definition search_bounds (d : DocumentNavigation) (container : option pystr) : res nav_error (nat * nat + ErrorEnvelope) :=
  match container with
  | None => Ok (inl (0%nat, length (text (dn_snapshot d))))
  | Some name_path =>
      resolved ← resolve_source_symbol d name_path;
      match resolved with
      | inr e => Ok (inr e)
      | inl s =>
          match lsp_to_text_offset (dn_mapper d) (_lsp_position (rg_start (loc_range (ns_location s)))),
                lsp_to_text_offset (dn_mapper d) (_lsp_position (rg_end (loc_range (ns_location s)))) with
          | Ok a, Ok b => Ok (inl (Z.to_nat a, Z.to_nat b))
          | _, _ => as_error (_invalid_adapter_result d (lit "containing_symbol_name_path"))
          end
      end
  end.

(** The one captured occurrence, or the error. *)
Definition locate_occurrence (d : DocumentNavigation) (pattern : re_pattern) (relative_path regex : pystr) (bounds : nat * nat)
    : res nav_error (LspPosition + ErrorEnvelope) :=
  let '(search_start, search_end) := bounds in
  let starts := re_finditer pattern (text_slice (text (dn_snapshot d)) search_start search_end) in
  if existsb (λ s, bool_decide (s < 0)) starts
  then as_error (invalid_field d (lit "regex") (Some (lit "capture_group_did_not_participate")) None)
  else match (λ s, Z.of_nat search_start + s) <$> starts with
       | [] => as_error (_missing d [(lit "relative_path", JStr relative_path); (lit "regex", JStr regex)])
       | [offset] =>
           match text_offset_to_lsp (dn_mapper d) offset with
           | Ok position => Ok (inl position)
           | Err _ => as_error (invalid_field d (lit "regex") (Some (lit "capture_is_not_an_lsp_position")) None)
           end
       | offsets => as_error (_ambiguous d [(lit "relative_path", JStr relative_path); (lit "regex", JStr regex);
                                            (lit "occurrence_count", JInt (Z.of_nat (length offsets)))])
       end.

Definition declaration_answer (relative_path : pystr) (c : CapabilityMatrix) (locations : list json_dict) : json :=
  JObj [(lit "relative_path", JStr relative_path); (lit "capabilities", matrix_dict c); (lit "locations", JList (JObj <$> locations))].

Definition find_declaration (relative_path : pystr) (regex : pyany) (containing_symbol_name_path : option pystr)
    (include_body include_info : bool) : PyM W nav_error ToolEnvelope :=
  if negb (_valid_relative_path relative_path)
  then py_lift (as_error (plain_failure INVALID_INPUT
         [(lit "field", JStr (lit "relative_path")); (lit "reason", JStr (lit "expected_normalized_relative_file_path"))]))
  else match _compile_locator regex with
  | inr reason => py_lift (as_error (plain_failure INVALID_INPUT [(lit "field", JStr (lit "regex")); (lit "reason", JStr reason)]))
  | inl pattern =>
      if match containing_symbol_name_path with Some n => negb (_valid_name_path n) | None => false end
      then py_lift (as_error (plain_failure INVALID_INPUT [(lit "field", JStr (lit "containing_symbol_name_path"))]))
      else
        let regex_text := match regex with PStr s => s | _ => [] end in
        (let! loaded := load_semantic relative_path in
         match loaded with
         | inr e => py_ret (inr e)
         | inl (d, capabilities) =>
             if negb (lp_definition (cm_raw capabilities))
             then py_lift (as_error (_unsupported d capabilities (lit "find_declaration") DEFINITION_METHOD))
             else
               let! located := py_lift (bounds ← search_bounds d containing_symbol_name_path;
                                        match bounds with
                                        | inr e => Ok (inr e)
                                        | inl b => locate_occurrence d pattern relative_path regex_text b
                                        end) in
               match located with
               | inr e => py_ret (inr e)
               | inl position =>
                   let! raw := request_locations DEFINITION_METHOD (dn_uri d) position include_info in
                   let! locations := normalize_locations d raw include_body include_info in
                   match locations with
                   | inr e => py_ret (inr e)
                   | inl [] => py_lift (as_error (_missing d
                        [(lit "relative_path", JStr relative_path); (lit "regex", JStr regex_text); (lit "method", JStr DEFINITION_METHOD)]))
                   | inl locations => py_lift (lift_success (success (any_of_json (declaration_answer relative_path capabilities locations))
                        (dn_workspace d) (dn_adapter d) (dn_generations d) None))
                   end
               end
         end)%py
  end.

(** ** Kinds of implementations *)

(** [None]: an answer of the adapter whose kind is not an integer; else whether the location is kept. *)
Definition kind_admitted (included excluded : list Z) (location : json_dict) : option bool :=
  match dict_get location (lit "kind") with
  | None => Some (negb (nonempty included))
  | Some (JInt kind) => Some (negb (nonempty included && bool_decide (kind ∉ included)) && bool_decide (kind ∉ excluded))
  | Some _ => None
  end.

(** The filter loop: the locations kept and the number left out. *)
Fixpoint filter_kinds (included excluded : list Z) (locations : list json_dict) : option (list json_dict * nat) :=
  match locations with
  | [] => Some ([], 0%nat)
  | location :: locations =>
      match kind_admitted included excluded location with
      | None => None
      | Some keep =>
          match filter_kinds included excluded locations with
          | None => None
          | Some (kept, omitted) => Some (if keep then (location :: kept, omitted) else (kept, S omitted))
          end
      end
  end.

Definition implementations_answer (relative_path name_path : pystr) (c : CapabilityMatrix) (locations : list json) : json :=
  JObj [(lit "relative_path", JStr relative_path); (lit "name_path", JStr name_path); (lit "capabilities", matrix_dict c);
        (lit "locations", JList locations)].

(** The bounded answer from the normalized locations. *)
Definition answer_implementations (d : DocumentNavigation) (capabilities : CapabilityMatrix) (relative_path name_path : pystr)
    (included excluded : list Z) (max_answer_chars : Z) (normalized : list json_dict) : res nav_error ToolEnvelope :=
  match filter_kinds included excluded normalized with
  | None => as_error (_invalid_adapter_result d (lit "normalized_locations.kind"))
  | Some (filtered, kind_omitted) =>
      let filtered := JObj <$> py_sorted (λ x, _canonical_json (JObj x)) filtered in
      let answer := implementations_answer relative_path name_path capabilities in
      let minimum_required := canonical_size (answer []) in
      if bool_decide (max_answer_chars < minimum_required)
      then as_error (invalid_field d (lit "max_answer_chars") None (Some minimum_required))
      else
        let kept := keep_while (λ l, bool_decide (max_answer_chars < canonical_size (answer l))) [] filtered in
        t ← truncation (kind_omitted + length filtered - length kept);
        lift_success (success (any_of_json (answer kept)) (dn_workspace d) (dn_adapter d) (dn_generations d) (Some t))
  end.

Definition find_implementations (name_path relative_path : pystr) (include_info : bool) (include_kinds exclude_kinds : option pyany)
    (max_answer_chars : pyany) : PyM W nav_error ToolEnvelope :=
  let invalid := py_lift (as_error (plain_failure INVALID_INPUT
    [(lit "field", JStr (lit "name_path, relative_path, include_kinds, exclude_kinds, or max_answer_chars"))])) in
  match _parse_kinds include_kinds, _parse_kinds exclude_kinds, max_answer_chars with
  | Some included, Some excluded, PInt max_chars =>
      if negb (_valid_relative_path relative_path) || negb (_valid_name_path name_path) || bool_decide (max_chars ≤ 0) then invalid
      else
        (let! loaded := load_semantic relative_path in
         match loaded with
         | inr e => py_ret (inr e)
         | inl (d, capabilities) =>
             if negb (lp_implementation (cm_raw capabilities))
             then py_lift (as_error (_unsupported d capabilities (lit "find_implementations") IMPLEMENTATION_METHOD))
             else
               let! resolved := py_lift (resolve_source_symbol d name_path) in
               match resolved with
               | inr e => py_ret (inr e)
               | inl source_symbol =>
                   let! raw := request_locations IMPLEMENTATION_METHOD (dn_uri d)
                                 (_lsp_position (rg_start (ns_selection source_symbol)))
                                 (include_info || nonempty included || nonempty excluded) in
                   let! normalized := normalize_locations d raw false include_info in
                   match normalized with
                   | inr e => py_ret (inr e)
                   | inl locations => py_lift (answer_implementations d capabilities relative_path name_path included excluded
                                                 max_chars locations)
                   end
               end
         end)%py
  | _, _, _ => invalid
  end.
End declarations.

(** ** Facts *)

Lemma filter_kinds_spec inc exc l kept omitted :
  filter_kinds inc exc l = Some (kept, omitted) →
  kept = filter (λ x, kind_admitted inc exc x = Some true) l ∧ (length kept + omitted = length l)%nat.
Proof.
  revert kept omitted. induction l as [|x l IH]; intros kept omitted; cbn [filter_kinds]; [by intros [= <- <-]|].
  destruct (kind_admitted inc exc x) as [keep|] eqn:Hk; [|done].
  destruct (filter_kinds inc exc l) as [[k o]|]; [|done]. destruct (IH _ _ eq_refl) as [-> Hlen].
  rewrite filter_cons, Hk. destruct keep; intros [= <- <-].
  - rewrite decide_True by done. split; [done|]. simpl. lia.
  - rewrite decide_False by done. split; [done|]. simpl. lia.
Qed.

Lemma offset_position_exact s e o p :
  snapshot_ok s → text_offset_to_lsp (from_snapshot s e) o = Ok p → lsp_to_text_offset (from_snapshot s e) p = Ok o.
Proof. intros Hok. by rewrite lsp_to_offset_spec, offset_to_lsp_spec. Qed.

Section rendered.
Context (sha256_hex : list N → pystr).

(** What the answer has for a location the adapter returned: a mapping as it is; of a classified location its metadata, and
    either the range of its text, with that text and the digest of the file when bodies are asked for and the semantic
    information when that is, or the raw range when it has no text. *)
Definition location_rendered (body info : bool) (nl : normalized_location) (x : json_dict) : Prop :=
  match nl with
  | NLMapping (Some m) => x = m
  | NLClassified c =>
      (∀ k, k ∉ lit "sha256" :: rendered_fields → dict_get x k = dict_get (cl_metadata c) k) ∧
      match cl_lsp_range c, cl_snapshot c with
      | None, _ => x = cl_metadata c
      | Some r, None => body = false ∧ info = false ∧ dict_get x (lit "raw_lsp_range") = Some (raw_range_json r (cl_position_encoding c))
      | Some r, Some snap =>
          let m := from_snapshot snap (cl_position_encoding c) in
          (∃ shown, _source_range m r = Ok shown ∧ dict_get x (lit "range") = Some shown) ∧
          (body = true → ∃ b, renderer_text m (_lsp_position (rg_start r)) (_lsp_position (rg_end r)) = Ok b ∧
             dict_get x (lit "body") = Some (JStr b) ∧ dict_get x (lit "sha256") = Some (JStr (sha256_hex (raw_bytes snap)))) ∧
          (info = true → ∀ i, cl_semantic_info c = Some i → i ≠ [] → dict_get x (lit "info") = Some (JObj i))
      end
  | _ => False
  end.

Lemma render_location_ok c body info x :
  _render_classified_location sha256_hex c body info = Ok (Some x) → location_rendered body info (NLClassified c) x.
Proof.
  unfold _render_classified_location. cbn [location_rendered].
  assert (∀ k, k ∉ lit "sha256" :: rendered_fields → k ≠ lit "sha256" ∧ k ≠ lit "range" ∧ k ≠ lit "raw_lsp_range" ∧ k ≠ lit "body" ∧ k ≠ lit "info") as Hk.
  { unfold rendered_fields. intros k Hk. rewrite !not_elem_of_cons in Hk. tauto. }
  destruct (cl_lsp_range c) as [r|]; [|intros [= <-]; done]. destruct (cl_snapshot c) as [snap|].
  2:{ destruct body, info; cbn [orb]; try done. intros [= <-]. split.
      - intros k (_ & _ & ? & _)%Hk. by rewrite dict_get_set_ne.
      - by rewrite dict_get_set_eq. }
  intros (shown & Hshown & H)%res_bind_Ok. apply res_bind_Ok in H as (data & Hdata & H). injection H as <-.
  set (x := match cl_semantic_info c with Some _ => _ | None => _ end).
  assert (∀ k, k ≠ lit "info" → dict_get x k = dict_get data k) as Hx.
  { intros k Hne. unfold x. destruct (cl_semantic_info c) as [i|]; [|done]. destruct (info && _); [|done]. by rewrite dict_get_set_ne. }
  assert (∀ k, k ∉ lit "sha256" :: rendered_fields → dict_get data k = dict_get (cl_metadata c) k) as Hmeta.
  { intros k (? & ? & _ & ? & _)%Hk. destruct body.
    - apply res_bind_Ok in Hdata as (b & _ & Hd). injection Hd as <-. by rewrite !dict_get_set_ne.
    - injection Hdata as <-. by rewrite dict_get_set_ne. }
  split; [|split_and!].
  - intros k Hin. rewrite Hx by (by apply Hk in Hin as (_ & _ & _ & _ & ?)). by apply Hmeta.
  - exists shown. split; [done|]. rewrite Hx by done. destruct body.
    + apply res_bind_Ok in Hdata as (b & _ & Hd). injection Hd as <-. do 2 rewrite dict_get_set_ne by done. by rewrite dict_get_set_eq.
    + injection Hdata as <-. by rewrite dict_get_set_eq.
  - intros ->. apply res_bind_Ok in Hdata as (b & Hb & Hd). exists b. rewrite !Hx by done. injection Hd as <-.
    split_and!; [done|rewrite dict_get_set_ne by done; by rewrite dict_get_set_eq|by rewrite dict_get_set_eq].
  - intros -> i Hi Hne. unfold x. rewrite Hi. destruct i; [done|]. cbn [andb nonempty]. by rewrite dict_get_set_eq.
Qed.

Lemma copy_locations_ok d body info l : ∀ copied,
  copy_locations sha256_hex d body info l = Ok (inl (Some copied)) → Forall2 (location_rendered body info) l copied.
Proof.
  induction l as [|nl l IH]; intros copied; cbn [copy_locations]; [by intros [= <-]|].
  destruct nl as [c| |[m|]|]; try done.
  - destruct (_render_classified_location _ _ _ _) as [[x|]|] eqn:Hx; [|by intros ?%as_error_not_success|done].
    intros ([[rest|]|e] & Hr & H)%res_bind_Ok; try done. injection H as <-. constructor; [by apply render_location_ok|by apply IH].
  - destruct (negb _); [done|]. intros ([[rest|]|e] & Hr & H)%res_bind_Ok; try done. injection H as <-.
    constructor; [done|by apply IH].
Qed.

(** The locations of an answer: all that the adapter returned, rendered, in the order of their canonical text. *)
Lemma normalize_locations_ok {W R} (classify_locations : R → bool → bool → PyM W nav_error (list normalized_location + ErrorEnvelope))
    d raw body info w w' locations :
  normalize_locations sha256_hex classify_locations d raw body info w = (w', Ok (inl locations)) →
  ∃ returned rendered, classify_locations raw body info w = (w', Ok (inl returned)) ∧
    Forall2 (location_rendered body info) returned rendered ∧ locations ≡ₚ rendered ∧
    StronglySorted (key_le (λ x, _canonical_json (JObj x))) locations.
Proof.
  unfold normalize_locations. intros (w1 & [l|e] & Hl & H)%py_bind_ok.
  2:{ by apply py_lift_run in H as [_ H]. }
  apply py_lift_run in H as [-> H]. apply res_bind_Ok in H as ([[copied|]|e] & Hc & H); [| |done].
  2:{ by apply as_error_not_success in H. }
  injection H as <-. exists l, copied. split_and!; [done|by eapply copy_locations_ok|apply py_sorted_perm|apply py_sorted_sorted].
Qed.
End rendered.

Section declaration_facts.
Context (sha256_hex : list N → pystr).
Context (urlparse : pystr → parsed_uri) (unquote : pystr → pystr) (py_str : pyany → pystr).
Context (digit_char : N → bool) (re_compile : pystr → option re_pattern).
Context {W R : Type}.

(** The searched text, its one captured occurrence and its position. *)
Lemma locate_occurrence_ok d pattern rel regex bounds p :
  locate_occurrence d pattern rel regex bounds = Ok (inl p) →
  ∃ start, re_finditer pattern (text_slice (text (dn_snapshot d)) bounds.1 bounds.2) = [start] ∧ 0 ≤ start ∧
    text_offset_to_lsp (dn_mapper d) (Z.of_nat bounds.1 + start) = Ok p.
Proof.
  destruct bounds as [a b]. unfold locate_occurrence. cbn [fst snd]. set (starts := re_finditer _ _).
  destruct (existsb _ starts) eqn:He; [by intros ?%as_error_not_success|].
  destruct starts as [|x [|y l]]; cbn [fmap list_fmap]; [by intros ?%as_error_not_success| |by intros ?%as_error_not_success].
  destruct (text_offset_to_lsp _ _) as [q|] eqn:Hq; [|by intros ?%as_error_not_success]. intros [= <-].
  exists x. cbn in He. rewrite orb_false_r in He. apply bool_decide_eq_false in He. split_and!; [done|lia|done].
Qed.

Context (load_semantic_document : pystr → PyM W nav_error (SemanticDocumentInput + ErrorEnvelope)).
Context (request_locations : pystr → pystr → LspPosition → bool → PyM W nav_error R).
Context (classify_locations : R → bool → bool → PyM W nav_error (list normalized_location + ErrorEnvelope)).

Abbreviation load := (load_semantic urlparse unquote py_str load_semantic_document).
Abbreviation normalize := (normalize_locations sha256_hex classify_locations).

Lemma resolve_source_symbol_ok d name_path s :
  resolve_source_symbol digit_char d name_path = Ok (inl s) → selected_symbols digit_char (dn_symbols d) name_path = [s].
Proof.
  unfold resolve_source_symbol.
  pose proof (py_sorted_perm _symbol_order_key (selected_symbols digit_char (dn_symbols d) name_path)) as Hp.
  destruct (py_sorted _ _) as [|x [|y l]]; [by intros ?%as_error_not_success| |by intros ?%as_error_not_success].
  intros [= ->]. by apply Permutation_singleton_l in Hp.
Qed.

Lemma answer_implementations_ok d caps rel name inc exc mx normalized env :
  answer_implementations d caps rel name inc exc mx normalized = Ok (inl env) →
  ∃ kept, let admitted := filter (λ x, kind_admitted inc exc x = Some true) normalized in
    let sorted := JObj <$> py_sorted (λ x, _canonical_json (JObj x)) admitted in
    (kept ≤ length admitted)%nat ∧
    sv_data env = implementations_answer rel name caps (take kept sorted) ∧ canonical_size (sv_data env) ≤ mx ∧
    tm_omitted_count <$> sv_truncation env = Some (Z.of_nat (length normalized) - Z.of_nat kept) ∧
    ((kept < length admitted)%nat → mx < canonical_size (implementations_answer rel name caps (take (S kept) sorted))).
Proof.
  unfold answer_implementations. destruct (filter_kinds inc exc normalized) as [[filtered omitted]|] eqn:Hf;
    [|by intros ?%as_error_not_success].
  apply filter_kinds_spec in Hf as [-> Hlen]. case_bool_decide as Hmin; [by intros ?%as_error_not_success|].
  set (sorted := JObj <$> py_sorted _ _). set (P := λ l, bool_decide _).
  assert (length sorted = length (filter (λ x, kind_admitted inc exc x = Some true) normalized)) as Hsl.
  { unfold sorted. by rewrite length_fmap, py_sorted_length. }
  destruct (keep_while_prefix P sorted) as (k & Hk & Hle & Hfit & Hstop). rewrite Hk, length_take, Nat.min_l by done.
  replace (omitted + length sorted - k)%nat with (length normalized - k)%nat by lia.
  rewrite truncation_exact by lia. cbn [mbind res_bind]. intros ->%success_data. exists k. cbn zeta. fold sorted. cbn [sv_data sv_truncation].
  split_and!; [lia|done| |done|].
  - destruct Hfit as [->|Hfit]; [rewrite take_0; lia|]. unfold P in Hfit. apply bool_decide_eq_false in Hfit. lia.
  - intros Hlt. specialize (Hstop ltac:(lia)). unfold P in Hstop. by apply bool_decide_eq_true in Hstop.
Qed.

Lemma find_implementations_ok name rel info inc exc mx w w' env :
  find_implementations sha256_hex urlparse unquote py_str digit_char load_semantic_document request_locations classify_locations
    name rel info inc exc mx w = (w', Ok (inl env)) →
  ∃ included excluded max_chars w1 w2 d caps s raw normalized,
    _parse_kinds inc = Some included ∧ _parse_kinds exc = Some excluded ∧ mx = PInt max_chars ∧ 0 < max_chars ∧
    load rel w = (w1, Ok (inl (d, caps))) ∧ lp_implementation (cm_raw caps) = true ∧
    selected_symbols digit_char (dn_symbols d) name = [s] ∧
    request_locations IMPLEMENTATION_METHOD (dn_uri d) (_lsp_position (rg_start (ns_selection s)))
      (info || nonempty included || nonempty excluded) w1 = (w2, Ok raw) ∧
    normalize d raw false info w2 = (w', Ok (inl normalized)) ∧
    answer_implementations d caps rel name included excluded max_chars normalized = Ok (inl env).
Proof.
  unfold find_implementations. assert (∀ x, py_lift (as_error (A := SuccessEnvelope) x) w ≠ (w', Ok (inl env))) as Hno.
  { intros x H%py_lift_ok. by apply as_error_not_success in H. }
  destruct (_parse_kinds inc) as [included|]; [|by intros ?%Hno]. destruct (_parse_kinds exc) as [excluded|]; [|by intros ?%Hno].
  destruct mx as [| |max_chars| | | | | |]; try (by intros ?%Hno).
  destruct (_ || bool_decide _) eqn:Hguard; [by intros ?%Hno|]. apply orb_false_iff in Hguard as [_ Hmax%bool_decide_eq_false].
  intros (w1 & [[d caps]|e] & Hl & H)%py_bind_ok; [|done].
  destruct (lp_implementation (cm_raw caps)) eqn:Hcap; cbn [negb] in H; [|by apply py_lift_ok, as_error_not_success in H].
  apply py_bind_ok in H as (w1' & [s|e] & Hres & H); [|done]. injection Hres as <- Hres. apply resolve_source_symbol_ok in Hres.
  apply py_bind_ok in H as (w2 & raw & Hraw & H). apply py_bind_ok in H as (w3 & [locs|e] & Hn & H); [|done].
  injection H as <- H. exists included, excluded, max_chars, w1, w2, d, caps, s, raw, locs. split_and!; try done. lia.
Qed.

Lemma find_declaration_ok rel regex container body info w w' env :
  find_declaration sha256_hex urlparse unquote py_str digit_char re_compile load_semantic_document request_locations classify_locations
    rel regex container body info w = (w', Ok (inl env)) →
  ∃ pattern w1 w2 d caps bounds position raw locations,
    _compile_locator re_compile regex = inl pattern ∧ load rel w = (w1, Ok (inl (d, caps))) ∧ lp_definition (cm_raw caps) = true ∧
    search_bounds digit_char d container = Ok (inl bounds) ∧
    (∃ text, locate_occurrence d pattern rel text bounds = Ok (inl position)) ∧
    request_locations DEFINITION_METHOD (dn_uri d) position info w1 = (w2, Ok raw) ∧
    normalize d raw body info w2 = (w', Ok (inl locations)) ∧ locations ≠ [] ∧ sv_data env = declaration_answer rel caps locations.
Proof.
  unfold find_declaration. assert (∀ x s, py_lift (as_error (A := SuccessEnvelope) x) s ≠ (w', Ok (inl env))) as Hno.
  { intros x s H%py_lift_ok. by apply as_error_not_success in H. }
  destruct (_valid_relative_path rel); cbn [negb]; [|by intros ?%Hno].
  destruct (_compile_locator re_compile regex) as [pattern|]; [|by intros ?%Hno].
  destruct (match container with Some n => _ | None => _ end); [by intros ?%Hno|].
  intros (w1 & [[d caps]|e] & Hl & H)%py_bind_ok; [|done].
  destruct (lp_definition (cm_raw caps)) eqn:Hcap; cbn [negb] in H; [|by apply Hno in H].
  apply py_bind_ok in H as (w1' & [position|e] & Hloc & H); [|done]. injection Hloc as <- Hloc.
  apply res_bind_Ok in Hloc as ([bounds|e] & Hb & Hloc); [|done].
  apply py_bind_ok in H as (w2 & raw & Hraw & H). apply py_bind_ok in H as (w3 & [locs|e] & Hn & H); [|done].
  exists pattern, w1, w2, d, caps, bounds, position, raw, locs.
  destruct locs as [|x l]; [by apply Hno in H|]. apply py_lift_run in H as [-> H]. apply success_data in H as ->.
  split_and!; try done. by eexists.
Qed.
End declaration_facts.

(** ** Properties *)

(** C20: a declaration is looked up for the one occurrence that was asked for: the server is queried only when it
    advertises definitions, the regular expression has one group, and its matches in the searched text (the whole document,
    or the one symbol the name path selects) are exactly one; the position sent is exactly the start of the group. The
    answer holds every location the adapter returned for it, each rendered from its own data and text, in the order of
    their canonical text; there is at least one. *)
Theorem declaration_of_the_one_occurrence sha urlparse unquote py_str digit_char re_compile {W R}
    (load_semantic_document : pystr → PyM W nav_error (SemanticDocumentInput + ErrorEnvelope))
    (request_locations : pystr → pystr → LspPosition → bool → PyM W nav_error R) classify_locations
    rel regex container body info w w' env :
  find_declaration sha urlparse unquote py_str digit_char re_compile load_semantic_document request_locations classify_locations
    rel regex container body info w = (w', Ok (inl env)) →
  ∃ pattern w1 w2 d caps start stop capture position raw returned rendered locations,
    _compile_locator re_compile regex = inl pattern ∧ re_groups pattern = 1%nat ∧
    load_semantic urlparse unquote py_str load_semantic_document rel w = (w1, Ok (inl (d, caps))) ∧
    lp_definition (cm_raw caps) = true ∧
    search_bounds digit_char d container = Ok (inl (start, stop)) ∧
    re_finditer pattern (text_slice (text (dn_snapshot d)) start stop) = [capture] ∧
    (snapshot_ok (dn_snapshot d) → lsp_to_text_offset (dn_mapper d) position = Ok (Z.of_nat start + capture)) ∧
    request_locations DEFINITION_METHOD (dn_uri d) position info w1 = (w2, Ok raw) ∧
    classify_locations raw body info w2 = (w', Ok (inl returned)) ∧
    Forall2 (location_rendered sha body info) returned rendered ∧ locations ≡ₚ rendered ∧
    StronglySorted (key_le (λ x, _canonical_json (JObj x))) locations ∧
    locations ≠ [] ∧ sv_data env = declaration_answer rel caps locations.
Proof.
  intros (pattern & w1 & w2 & d & caps & [start stop] & position & raw & locs & Hp & Hl & Hc & Hb & (t & Hloc) & Hr & Hn & Hne & Henv)%find_declaration_ok.
  apply locate_occurrence_ok in Hloc as (capture & Hfind & _ & Hpos). cbn [fst snd] in *.
  apply normalize_locations_ok in Hn as (returned & rendered & Hret & Hrend & Hperm & Hsort).
  exists pattern, w1, w2, d, caps, start, stop, capture, position, raw, returned, rendered, locs. split_and!; try done.
  - unfold _compile_locator in Hp. destruct regex; try done. destruct (re_compile s) as [p|]; [|done].
    destruct (re_groups p) as [|[|n]] eqn:Hg; [done| |done]. injection Hp as <-. done.
  - intros Hok. destruct d as [? ? [snap e] ? ? ? ?]. by apply offset_position_exact.
Qed.

(** the implementations of the one symbol a name path selects are listed exactly: every location the adapter
    classified is counted, those shown are admitted by the kind filters (an include filter needs the kind to be known, an
    exclude filter needs it to be known to reject), they are the longest prefix in canonical order whose answer is within
    [max_answer_chars], and the number left out is exact. *)
Theorem implementations_answer_exact sha urlparse unquote py_str digit_char {W R}
    (load_semantic_document : pystr → PyM W nav_error (SemanticDocumentInput + ErrorEnvelope))
    (request_locations : pystr → pystr → LspPosition → bool → PyM W nav_error R) classify_locations
    name rel info inc exc mx w w' env :
  find_implementations sha urlparse unquote py_str digit_char load_semantic_document request_locations classify_locations
    name rel info inc exc mx w = (w', Ok (inl env)) →
  ∃ included excluded max_chars w1 w2 d caps s raw normalized kept,
    _parse_kinds inc = Some included ∧ _parse_kinds exc = Some excluded ∧ mx = PInt max_chars ∧
    load_semantic urlparse unquote py_str load_semantic_document rel w = (w1, Ok (inl (d, caps))) ∧
    lp_implementation (cm_raw caps) = true ∧ selected_symbols digit_char (dn_symbols d) name = [s] ∧
    request_locations IMPLEMENTATION_METHOD (dn_uri d) (_lsp_position (rg_start (ns_selection s)))
      (info || nonempty included || nonempty excluded) w1 = (w2, Ok raw) ∧
    normalize_locations sha classify_locations d raw false info w2 = (w', Ok (inl normalized)) ∧
    let admitted := filter (λ x, kind_admitted included excluded x = Some true) normalized in
    let sorted := JObj <$> py_sorted (λ x, _canonical_json (JObj x)) admitted in
    (kept ≤ length admitted)%nat ∧
    sv_data env = implementations_answer rel name caps (take kept sorted) ∧ canonical_size (sv_data env) ≤ max_chars ∧
    tm_omitted_count <$> sv_truncation env = Some (Z.of_nat (length normalized) - Z.of_nat kept) ∧
    ((kept < length admitted)%nat → max_chars < canonical_size (implementations_answer rel name caps (take (S kept) sorted))).
Proof.
  intros (included & excluded & max_chars & w1 & w2 & d & caps & s & raw & locs & Hi & He & Hm & _ & Hl & Hc & Hs & Hr & Hn & Ha)%find_implementations_ok.
  apply answer_implementations_ok in Ha as (kept & Hkept).
  exists included, excluded, max_chars, w1, w2, d, caps, s, raw, locs, kept. by split_and!.
Qed.

(** ** What is asked of the requesting seam *)

Definition seam_request : Type := pystr * pystr * LspPosition.

(** The requesting seam [request_locations] with the log of the calls it got: the method, the document and the position of
    each. How many messages one such call puts on the wire is the business of the adapter behind the seam. *)
Definition logged_seam_call {W R} (request_locations : pystr → pystr → LspPosition → bool → PyM W nav_error R)
    (method uri : pystr) (p : LspPosition) (capture : bool) : PyM (W * list seam_request) nav_error R :=
  λ s, let '(w, r) := request_locations method uri p capture s.1 in ((w, s.2 ++ [(method, uri, p)]), r).

Lemma py_lift_state {S E A} (r : res E A) (s s' : S) r' : py_lift r s = (s', r') → s' = s.
Proof. unfold py_lift. congruence. Qed.

Section request_log.
Context (sha256_hex : list N → pystr).
Context (urlparse : pystr → parsed_uri) (unquote : pystr → pystr) (py_str : pyany → pystr).
Context (digit_char : N → bool) (re_compile : pystr → option re_pattern).
Context {W R : Type}.
Context (load_semantic_document : pystr → PyM W nav_error (SemanticDocumentInput + ErrorEnvelope)).
Context (request_locations : pystr → pystr → LspPosition → bool → PyM W nav_error R).
Context (classify_locations : R → bool → bool → PyM W nav_error (list normalized_location + ErrorEnvelope)).

Abbreviation quiet m := (unlogged (L := seam_request) m).

Lemma load_semantic_quiet rel s :
  load_semantic urlparse unquote py_str (λ p, quiet (load_semantic_document p)) rel s =
  quiet (load_semantic urlparse unquote py_str load_semantic_document rel) s.
Proof. unfold load_semantic, py_bind, unlogged. by destruct (load_semantic_document rel s.1) as [w [a|e]]. Qed.

Lemma normalize_quiet d raw body info s :
  normalize_locations sha256_hex (λ r b i, quiet (classify_locations r b i)) d raw body info s =
  quiet (normalize_locations sha256_hex classify_locations d raw body info) s.
Proof. unfold normalize_locations, py_bind, unlogged. by destruct (classify_locations raw body info s.1) as [w [a|e]]. Qed.

(** Calling the seam once and normalizing its answer leaves one entry in the log, whatever comes after. *)
Lemma request_then_log d method p cap body info (k : list json_dict + ErrorEnvelope → PyM (W * list seam_request) nav_error ToolEnvelope) s s' r :
  (∀ x t, (k x t).1 = t) →
  (let! raw := logged_seam_call request_locations method (dn_uri d) p cap in
   let! x := normalize_locations sha256_hex (λ r b i, quiet (classify_locations r b i)) d raw body info in k x)%py s = (s', r) →
  s'.2 = s.2 ++ [(method, dn_uri d, p)].
Proof.
  intros Hk. unfold py_bind, logged_seam_call. destruct (request_locations method (dn_uri d) p cap s.1) as [w1 [raw|e]]; [|by intros [= <- _]].
  rewrite normalize_quiet. destruct (quiet _ _) as [s2 r2] eqn:Hq. apply unlogged_run in Hq as [Hq _]. cbn [snd] in Hq.
  destruct r2 as [x|e]; [|by intros [= <- _]]. specialize (Hk x s2). destruct (k x s2) as [s3 r3]. cbn in Hk. subst s3.
  by intros [= <- _].
Qed.

Lemma declaration_log rel regex container body info w w' log r :
  find_declaration sha256_hex urlparse unquote py_str digit_char re_compile (λ p, quiet (load_semantic_document p))
    (logged_seam_call request_locations) (λ r b i, quiet (classify_locations r b i)) rel regex container body info (w, []) = ((w', log), r) →
  log = [] ∨ ∃ w1 d caps p, load_semantic urlparse unquote py_str load_semantic_document rel w = (w1, Ok (inl (d, caps))) ∧
    lp_definition (cm_raw caps) = true ∧ log = [(DEFINITION_METHOD, dn_uri d, p)].
Proof.
  unfold find_declaration. assert (∀ x, py_lift (as_error (A := SuccessEnvelope) x) (w, []) = ((w', log), r) → log = []) as Hno.
  { intros x H. unfold py_lift in H. by injection H as _ <- _. }
  destruct (negb _); [intros ?%Hno; by left|]. destruct (_compile_locator re_compile regex); [|intros ?%Hno; by left].
  destruct (match container with Some n => _ | None => _ end); [intros ?%Hno; by left|].
  unfold py_bind at 1. rewrite load_semantic_quiet. destruct (quiet _ _) as [s1 r1] eqn:Hq. apply unlogged_run in Hq as [Hlog Hload].
  destruct s1 as [w1 log1]. cbn [fst snd] in Hlog, Hload. subst log1.
  destruct r1 as [[[d caps]|e]|e]; [|by intros [= _ <- _]; left|by intros [= _ <- _]; left].
  destruct (lp_definition (cm_raw caps)) eqn:Hcap; cbn [negb].
  2:{ intros H. apply py_lift_state in H as [= _ <-]. by left. }
  unfold py_bind at 1. unfold py_lift at 1. destruct (mbind _ _) as [[position|e]|e]; [|by intros [= _ <- _]; left|by intros [= _ <- _]; left].
  intros H. right. exists w1, d, caps, position. split_and!; [done|done|].
  apply (request_then_log d DEFINITION_METHOD position info body info) in H; [exact H|]. by intros [[|y l]|e] t.
Qed.

Lemma implementations_log name rel info inc exc mx w w' log r :
  find_implementations sha256_hex urlparse unquote py_str digit_char (λ p, quiet (load_semantic_document p))
    (logged_seam_call request_locations) (λ r b i, quiet (classify_locations r b i)) name rel info inc exc mx (w, []) = ((w', log), r) →
  log = [] ∨ ∃ w1 d caps p, load_semantic urlparse unquote py_str load_semantic_document rel w = (w1, Ok (inl (d, caps))) ∧
    lp_implementation (cm_raw caps) = true ∧ log = [(IMPLEMENTATION_METHOD, dn_uri d, p)].
Proof.
  unfold find_implementations. assert (∀ x, py_lift (as_error (A := SuccessEnvelope) x) (w, []) = ((w', log), r) → log = []) as Hno.
  { intros x H. unfold py_lift in H. by injection H as _ <- _. }
  destruct (_parse_kinds inc) as [included|]; [|intros ?%Hno; by left].
  destruct (_parse_kinds exc) as [excluded|]; [|intros ?%Hno; by left].
  destruct mx as [| |max_chars| | | | | |]; try (intros ?%Hno; by left). destruct (_ || _); [intros ?%Hno; by left|].
  unfold py_bind at 1. rewrite load_semantic_quiet. destruct (quiet _ _) as [s1 r1] eqn:Hq. apply unlogged_run in Hq as [Hlog Hload].
  destruct s1 as [w1 log1]. cbn [fst snd] in Hlog, Hload. subst log1.
  destruct r1 as [[[d caps]|e]|e]; [|by intros [= _ <- _]; left|by intros [= _ <- _]; left].
  destruct (lp_implementation (cm_raw caps)) eqn:Hcap; cbn [negb].
  2:{ intros H. apply py_lift_state in H as [= _ <-]. by left. }
  unfold py_bind at 1. unfold py_lift at 1.
  destruct (resolve_source_symbol _ _ _) as [[s|e]|e]; [|by intros [= _ <- _]; left|by intros [= _ <- _]; left].
  intros H. right. exists w1, d, caps, (_lsp_position (rg_start (ns_selection s))). split_and!; [done|done|].
  eapply request_then_log in H; [exact H|]. by intros [l|e] t.
Qed.
End request_log.

(** C34: the requesting seam of the adapter is called at most once per call of a tool, and never for a feature the server
    did not advertise: whatever the seams do, looking up a declaration makes no such call, or one for the definition of a
    position in the loaded document, and that only when the loaded capabilities have a definition provider; the same holds
    of implementations and their provider. *)
Theorem semantic_requests_gated sha urlparse unquote py_str digit_char re_compile {W R}
    (load_semantic_document : pystr → PyM W nav_error (SemanticDocumentInput + ErrorEnvelope))
    (request_locations : pystr → pystr → LspPosition → bool → PyM W nav_error R) classify_locations :
  let quiet_load p := unlogged (L := seam_request) (load_semantic_document p) in
  let quiet_classify r b i := unlogged (L := seam_request) (classify_locations r b i) in
  let load := load_semantic urlparse unquote py_str load_semantic_document in
  (∀ rel regex container body info w,
     let log := (find_declaration sha urlparse unquote py_str digit_char re_compile quiet_load (logged_seam_call request_locations)
                   quiet_classify rel regex container body info (w, [])).1.2 in
     log = [] ∨ ∃ w1 d caps p, load rel w = (w1, Ok (inl (d, caps))) ∧ lp_definition (cm_raw caps) = true ∧
       log = [(DEFINITION_METHOD, dn_uri d, p)]) ∧
  (∀ name rel info inc exc mx w,
     let log := (find_implementations sha urlparse unquote py_str digit_char quiet_load (logged_seam_call request_locations)
                   quiet_classify name rel info inc exc mx (w, [])).1.2 in
     log = [] ∨ ∃ w1 d caps p, load rel w = (w1, Ok (inl (d, caps))) ∧ lp_implementation (cm_raw caps) = true ∧
       log = [(IMPLEMENTATION_METHOD, dn_uri d, p)]).
Proof.
  intros quiet_load quiet_classify load. split.
  - intros rel regex container body info w log. destruct (find_declaration _ _ _ _ _ _ _ _ _ _ _ _ _ _ _) as [[w' l] r] eqn:Hrun.
    subst log. cbn [fst snd]. by eapply declaration_log.
  - intros name rel info inc exc mx w log. destruct (find_implementations _ _ _ _ _ _ _ _ _ _ _ _ _ _ _) as [[w' l] r] eqn:Hrun.
    subst log. cbn [fst snd]. by eapply implementations_log.
Qed.

Module DeclarationExamples.
Import NormalizeExamples NavigationExamples.

(** A server with definitions and implementations, and a document of the example class. *)
Definition capabilities : CapabilityMatrix :=
  matrix_from_raw {| lp_definition := true; lp_declaration := false; lp_implementation := true; lp_references := true;
                     lp_document_symbols := true; lp_workspace_symbols := false |}.

Definition load_document (_ : pystr) : PyM unit nav_error (SemanticDocumentInput + ErrorEnvelope) :=
  py_ret (inl {| sd_document := input blank; sd_capabilities := capabilities |}).
Definition send (_ _ : pystr) (_ : LspPosition) (_ : bool) : PyM unit nav_error unit := py_ret tt.
Definition classify_answer (_ : unit) (_ _ : bool) : PyM unit nav_error (list normalized_location + ErrorEnvelope) :=
  py_ret (inl [NLMapping (Some [(lit "path", JStr (lit "b.py")); (lit "kind", JInt 6)]);
               NLMapping (Some [(lit "path", JStr (lit "a.py")); (lit "kind", JInt 5)]);
               NLMapping (Some [(lit "path", JStr (lit "c.py"))])]).

(** A pattern with one group that matches once, two characters into the searched text. *)
Definition compile (_ : pystr) : option re_pattern := Some {| re_groups := 1; re_finditer := λ _, [2] |}.
Definition is_digit (c : N) : bool := (48 <=? c)%N && (c <? 58)%N.

Definition declaration (container : option pystr) : unit * res nav_error ToolEnvelope :=
  find_declaration (λ _, []) parse_uri id (λ _, []) is_digit compile load_document send classify_answer
    (lit "a.py") (PStr (lit "(x)")) container false false tt.
Definition implementations (mx : Z) : unit * res nav_error ToolEnvelope :=
  find_implementations (λ _, []) parse_uri id (λ _, []) is_digit load_document send classify_answer
    (lit "/C") (lit "a.py") false (Some (PSequence [PInt 5; PInt 6])) (Some (PSequence [PInt 6])) (PInt mx) tt.

Definition answered_by (r : unit * res nav_error ToolEnvelope) : SuccessEnvelope :=
  match r.2 with
  | Ok (inl e) => e
  | _ => {| sv_data := JNull; sv_workspace := None; sv_adapter := None; sv_generations := None; sv_truncation := None |}
  end.

Lemma declaration_of_the_one_occurrence_witness :
  ∃ locations rendered caps, locations ≡ₚ rendered ∧ length locations = 3%nat ∧
    sv_data (answered_by (declaration (Some (lit "C/f[0]")))) = declaration_answer (lit "a.py") caps locations.
Proof.
  destruct (declaration_of_the_one_occurrence (λ _, []) parse_uri id (λ _, []) is_digit compile load_document send classify_answer
    (lit "a.py") (PStr (lit "(x)")) (Some (lit "C/f[0]")) false false tt tt (answered_by (declaration (Some (lit "C/f[0]"))))
    ltac:(vm_compute; reflexivity)) as (pattern & w1 & w2 & d & caps & a & b & c & p & raw & returned & rendered & locs & _ & _ & _ & _ & _ & _ & _ & _ & Hret & Hrend & Hp & _ & _ & Henv).
  exists locs, rendered, caps. split; [exact Hp|]. split; [|exact Henv].
  injection Hret as _ <-. apply Forall2_length in Hrend. rewrite Hp. symmetry. exact Hrend.
Defined.

(** Only the location of kind 5 is shown: 6 is excluded, and an unknown kind is not included. *)
Lemma implementations_answer_exact_witness :
  tm_omitted_count <$> sv_truncation (answered_by (implementations 1000)) = Some 2 ∧
  ∃ max_chars, canonical_size (sv_data (answered_by (implementations 1000))) ≤ max_chars ∧ PInt 1000 = PInt max_chars.
Proof.
  split; [vm_compute; reflexivity|].
  destruct (implementations_answer_exact (λ _, []) parse_uri id (λ _, []) is_digit load_document send classify_answer
    (lit "/C") (lit "a.py") false (Some (PSequence [PInt 5; PInt 6])) (Some (PSequence [PInt 6])) (PInt 1000) tt tt
    (answered_by (implementations 1000)) ltac:(vm_compute; reflexivity))
    as (inc & exc & mc & w1 & w2 & d & caps & s & raw & normalized & kept & _ & _ & Hm & _ & _ & _ & _ & _ & _ & _ & Hsize & _).
  by exists mc.
Defined.
End DeclarationExamples.
