(* ===== verification/GlobalSymbols.v ===== *)
(** * Global symbol lookup

    Model of [src/serena_light/tools/global_symbols.py]: the configured program of
    an adapter, the bounded query for candidates, their authorization against that
    program, the verification of each candidate in its document, the generation
    checks around the queries, and the bounded answer.

    A provider is a record of three calls that may read and change a world of any
    type and may raise. SHA-256, [urlparse], [unquote] and [str] of a detail are
    parameters; so is the type of retry delays, ordered and printed as floats. *)

From S2P Require Import Prelude Paths Json Scope Envelopes Positions Normalize Navigation Selection FileSystem.

Definition MAX_ADAPTERS : nat := 2.
Definition MAX_CANDIDATES_PER_ADAPTER : Z := 256.

#[export] Instance workspace_metadata_eq_dec : EqDecision WorkspaceMetadata.
Proof. solve_decision. Defined.
#[export] Instance adapter_metadata_eq_dec : EqDecision AdapterMetadata.
Proof. solve_decision. Defined.

(** ** Paths *)

Definition _relative_path (path : pystr) : res nav_error pystr :=
  if negb (nonempty path) || bool_decide (head path = Some cp_slash) || bool_decide (92%N ∈ path) || bool_decide (0%N ∈ path)
  then Err NavInput
  else
    let normalized := normpath path in
    if bool_decide (normalized ∈ [[]; dot]) || bool_decide (dotdot ∈ path_parts normalized) || bool_decide (normalized ≠ path)
    then Err NavInput
    else Ok normalized.

Record ConfiguredProgramScope := {
  ps_paths : list pystr;
  ps_project_kind : pystr;
  ps_selected_config_path : option pystr;
  ps_file_count : Z;
  ps_sha256 : pystr;
}.

Definition program_scope_dict (s : ConfiguredProgramScope) : json :=
  JObj [(lit "scope", JStr (lit "configured_program")); (lit "project_kind", JStr (ps_project_kind s));
        (lit "selected_config_path", default JNull (JStr <$> ps_selected_config_path s));
        (lit "file_count", JInt (ps_file_count s)); (lit "sha256", JStr (ps_sha256 s))].

(** ** Candidates *)

Record _Candidate := {
  gc_name : pystr;
  gc_kind : Z;
  gc_relative_path : pystr;
  gc_uri : pystr;
  gc_range : option Range;
}.

Definition query (p : _NamePathPattern) : pystr := default [] (last (np_components p)).

Definition candidate_position (raw : raw_symbol) : res nav_error Position :=
  match raw_get raw "line", raw_get raw "character" with
  | Some (PInt l), Some (PInt c) => Ok {| pos_line := l; pos_character := c |}
  | _, _ => Err NavInput
  end.

Definition candidate_range (raw : raw_symbol) : res nav_error Range :=
  match raw_get raw "start", raw_get raw "end" with
  | Some (PMapping s), Some (PMapping e) =>
      start ← candidate_position s; stop ← candidate_position e;
      match range_init start stop with Ok r => Ok r | Err _ => Err NavInput end
  | _, _ => Err NavInput
  end.

Definition _candidate_key (c : _Candidate) : pystr * pystr * Z * Z * Z * pystr :=
  let start := match gc_range c with Some r => rg_start r | None => {| pos_line := -1; pos_character := -1 |} end in
  (gc_relative_path c, gc_uri c, pos_line start, pos_character start, gc_kind c, gc_name c).

Definition _candidate_verifies_symbol (c : _Candidate) (s : NormalizedSymbol) : bool :=
  if bool_decide (gc_name c ≠ ns_name s) || bool_decide (gc_kind c ≠ ns_kind s) || bool_decide (gc_uri c ≠ loc_uri (ns_location s))
  then false
  else match gc_range c with
       | None => true
       | Some r => range_contains (loc_range (ns_location s)) (rg_start r) ||
                   bool_decide (pos_key (rg_start r) = pos_key (rg_start (loc_range (ns_location s))))
       end.

Definition _same_global_generation (expected observed : GenerationMetadata) : bool :=
  bool_decide (gm_trust expected = gm_trust observed) && bool_decide (gm_program expected = gm_program observed) &&
  bool_decide (gm_index expected = gm_index observed) && bool_decide (gm_scope observed ∈ [None; Some (lit "configured_program")]).

Definition _same_configured_scope (expected observed : ConfiguredProgramScope) : bool :=
  bool_decide (ps_project_kind expected = ps_project_kind observed) &&
  bool_decide (ps_selected_config_path expected = ps_selected_config_path observed) &&
  bool_decide (ps_file_count expected = ps_file_count observed) && bool_decide (ps_sha256 expected = ps_sha256 observed).

(** ** Batches *)

Record WorkspaceSymbolBatch := {
  wb_raw_candidates : list pyany;
  wb_generations : GenerationMetadata;
  wb_truncated : bool;
  wb_omitted_count : Z;
}.

Definition workspace_batch_init (b : WorkspaceSymbolBatch) : res nav_error WorkspaceSymbolBatch :=
  _ ← ensure (negb (bool_decide (wb_omitted_count b < 0) || (negb (wb_truncated b) && bool_decide (wb_omitted_count b ≠ 0)))) NavInput;
  Ok b.

Record DocumentSymbolBatch := {
  db_relative_path : pystr;
  db_uri : pystr;
  db_raw_symbols : option (list raw_symbol);
  db_generations : GenerationMetadata;
  db_snapshot : FileSnapshot;
  db_position_encoding : PositionEncoding;
  db_normalize_name : option (pystr → pystr);
  db_recover_containment : option (list NormalizedSymbol → list NormalizedSymbol);
  db_body_completeness : option (raw_symbol → option pystr);
}.

Definition document_batch_init (b : DocumentSymbolBatch) : res nav_error DocumentSymbolBatch :=
  _ ← _relative_path (db_relative_path b);
  _ ← ensure (nonempty (db_uri b)) NavInput;
  Ok b.

Section global_symbols.
Context (sha256_hex : list N → pystr).
Context (urlparse : pystr → parsed_uri) (unquote : pystr → pystr) (py_str : pyany → pystr).

Definition program_scope_init (paths : list pystr) (project_kind : pystr) (selected_config_path : option pystr)
    : res nav_error ConfiguredProgramScope :=
  normalized ← map_res _relative_path paths;
  _ ← ensure (nonempty project_kind) NavInput;
  selected ← match selected_config_path with None => Ok None | Some p => q ← _relative_path p; Ok (Some q) end;
  let sorted := sorted_set normalized in
  match encode_se (join_nul sorted) with
  | Err _ => Err NavInput
  | Ok bytes => Ok {| ps_paths := sorted; ps_project_kind := project_kind; ps_selected_config_path := selected;
                      ps_file_count := Z.of_nat (length sorted); ps_sha256 := sha256_hex bytes |}
  end.

Definition _workspace_relative_path (uri workspace_root : pystr) : option pystr :=
  let parsed := urlparse uri in
  if bool_decide (pu_scheme parsed ≠ lit "file") || bool_decide (pu_netloc parsed ∉ [[]; lit "localhost"]) then None
  else
    let path := Path (unquote (pu_path parsed)) in
    if bool_decide (dotdot ∈ p_parts path) then None
    else match relative_to path (Path workspace_root) with
         | None => None
         | Some rest => match _relative_path (path_str (PurePath [] rest)) with Ok p => Some p | Err _ => None end
         end.

(** One pass of the loop of [_candidate_files]: [None] is [continue]. *)
Definition candidate_of (p : _NamePathPattern) (substring_matching : bool) (workspace : WorkspaceMetadata)
    (allowed : list pystr) (raw : pyany) : option _Candidate :=
  match raw with
  | PMapping m =>
      match raw_get m "name", raw_get m "kind", raw_get m "location" with
      | Some (PStr name), Some (PInt kind), Some (PMapping location) =>
          if negb (nonempty name) then None
          else if negb (if substring_matching then contains (query p) name else bool_decide (query p = name)) then None
          else match raw_get location "uri" with
               | Some (PStr uri) =>
                   match _workspace_relative_path uri (wm_root workspace) with
                   | None => None
                   | Some relative_path =>
                       if bool_decide (relative_path ∉ allowed) then None
                       else
                         let candidate r := Some {| gc_name := name; gc_kind := kind; gc_relative_path := relative_path;
                                                    gc_uri := uri; gc_range := r |} in
                         match raw_get location "range" with
                         | Some (PMapping r) => match candidate_range r with Ok r => candidate (Some r) | Err _ => None end
                         | _ => candidate None
                         end
                   end
               | _ => None
               end
      | _, _, _ => None
      end
  | _ => None
  end.

Definition _candidate_files (raw_candidates : list pyany) (p : _NamePathPattern) (substring_matching : bool)
    (workspace : WorkspaceMetadata) (scope : ConfiguredProgramScope) : list _Candidate :=
  py_sorted _candidate_key (omap (candidate_of p substring_matching workspace (ps_paths scope)) raw_candidates).

(** [grouped[(path, uri)].append(candidate)], then [sorted(grouped.items())]: keys are distinct, so only they are compared. *)
Definition group_candidates (candidates : list _Candidate) : list ((pystr * pystr) * list _Candidate) :=
  py_sorted fst (fold_left (λ d c, let k := (gc_relative_path c, gc_uri c) in
                              dict_set d k (default [] (dict_get d k) ++ [c])) candidates []).

(** ** State *)

Context {T : Type} `{PyOrd T} (t_float : T → pyfloat).

Record GlobalAdapterState := {
  gs_workspace : WorkspaceMetadata;
  gs_adapter : AdapterMetadata;
  gs_generations : GenerationMetadata;
  gs_configured_program : ConfiguredProgramScope;
  gs_workspace_symbols_supported : bool;
  gs_global_ready : bool;
  gs_phase : pystr;
  gs_retry_after_seconds : option T;
}.

Definition global_state_init (s : GlobalAdapterState) : res nav_error GlobalAdapterState :=
  _ ← ensure (nonempty (am_name (gs_adapter s)) && nonempty (gs_phase s)) NavInput;
  _ ← ensure (match gm_program (gs_generations s), gm_index (gs_generations s) with Some _, Some _ => true | _, _ => false end) NavInput;
  _ ← ensure (bool_decide (gm_scope (gs_generations s) ∈ [None; Some (lit "configured_program")])) NavInput;
  _ ← ensure (duration_ok (t_float <$> gs_retry_after_seconds s)) NavInput;
  Ok s.

Definition _state_data (s : GlobalAdapterState) : json :=
  JObj [(lit "adapter", adapter_dict (gs_adapter s)); (lit "phase", JStr (gs_phase s));
        (lit "workspace_symbols_supported", JBool (gs_workspace_symbols_supported s));
        (lit "global_ready", JBool (gs_global_ready s)); (lit "generations", generation_dict (gs_generations s));
        (lit "configured_program", program_scope_dict (gs_configured_program s))].

Definition _adapter_key (s : GlobalAdapterState) : pystr * pystr :=
  (am_name (gs_adapter s), default [] (am_language (gs_adapter s))).

Definition _common_workspace (states : list GlobalAdapterState) : option WorkspaceMetadata :=
  match states with
  | [] => None
  | s :: _ => if forallb (λ t, bool_decide (gs_workspace t = gs_workspace s)) states then Some (gs_workspace s) else None
  end.

(** [RetryMetadata(...)] *)
Definition make_retry (after : option T) (target observed : option Z) : res nav_error RetryMetadata :=
  match retry_metadata_init {| rt_retryable := true; rt_retry_after_seconds := t_float <$> after; rt_waited_seconds := None;
          rt_timeout_seconds := None; rt_target_generation := target; rt_observed_generation := observed |} with
  | Ok r => Ok r
  | Err e => Err (NavEnvelope e)
  end.

Definition global_failure (code : ErrorCode) (retry : option RetryMetadata) (details : list (pystr * json))
    (w : option WorkspaceMetadata) (a : option AdapterMetadata) (g : option GenerationMetadata) : res nav_error ErrorEnvelope :=
  lift_failure (error code retry (Some (any_of_json (JObj details))) w a g).

Definition _generation_not_ready (workspace : WorkspaceMetadata) (s : GlobalAdapterState) (observed : GenerationMetadata)
    : res nav_error ErrorEnvelope :=
  retry ← make_retry (gs_retry_after_seconds s) (gm_program (gs_generations s)) (gm_program observed);
  global_failure EC_NOT_READY (Some retry)
    [(lit "scope", JStr (lit "configured_program")); (lit "adapter", adapter_dict (gs_adapter s));
     (lit "expected_generations", generation_dict (gs_generations s)); (lit "observed_generations", generation_dict observed)]
    (Some workspace) (Some (gs_adapter s)) (Some (gs_generations s)).

(** ** One symbol *)

Definition global_symbol_data (s : GlobalAdapterState) (d : DocumentSymbolBatch) (symbol : NormalizedSymbol)
    (include_body include_info : bool) : res position_error json :=
  let m := from_snapshot (db_snapshot d) (db_position_encoding d) in
  r ← _source_range m (loc_range (ns_location symbol));
  info ← (if include_info then
            sel ← _source_range m (ns_selection symbol);
            Ok [(lit "info", JObj [(lit "detail", default JNull (JStr <$> ns_detail symbol)); (lit "selection_range", sel)])]
          else Ok []);
  body ← (if include_body then
            b ← source_body m (loc_range (ns_location symbol));
            Ok [(lit "body", JStr b); (lit "has_children", JBool (nonempty (ns_children symbol)));
                (lit "sha256", JStr (sha256_hex (raw_bytes (db_snapshot d))))]
          else Ok []);
  Ok (JObj ([(lit "name", JStr (ns_name symbol)); (lit "name_path", JStr (join_slash (ns_path symbol)));
             (lit "kind", JInt (ns_kind symbol)); (lit "relative_path", JStr (db_relative_path d));
             (lit "location", JObj [(lit "uri", JStr (loc_uri (ns_location symbol))); (lit "range", r)]);
             (lit "adapter", adapter_dict (gs_adapter s)); (lit "generations", generation_dict (gs_generations s))] ++ info ++ body)).

(** A symbol of a document that the pattern names and a candidate confirms. *)
Definition confirmed (p : _NamePathPattern) (substring_matching : bool) (candidates : list _Candidate) (s : NormalizedSymbol) : bool :=
  _matches_name_path s p substring_matching && existsb (λ c, _candidate_verifies_symbol c s) candidates.

(** The loop over the symbols of one document. *)
Fixpoint render_symbols (workspace : WorkspaceMetadata) (st : GlobalAdapterState) (d : DocumentSymbolBatch) (p : _NamePathPattern)
    (substring_matching include_body include_info : bool) (candidates : list _Candidate) (symbols : list NormalizedSymbol)
    : res nav_error (list json + ErrorEnvelope) :=
  match symbols with
  | [] => Ok (inl [])
  | s :: symbols =>
      if negb (confirmed p substring_matching candidates s)
      then render_symbols workspace st d p substring_matching include_body include_info candidates symbols
      else match (if include_body then ns_incomplete s else None) with
           | Some reason => as_error (global_failure UNSUPPORTED None
               [(lit "operation", JStr (lit "find_symbol")); (lit "reason", JStr (lit "incomplete_assignment_range"));
                (lit "recovery_reason", JStr reason); (lit "relative_path", JStr (db_relative_path d));
                (lit "name_path", JStr (join_slash (ns_path s)))] (Some workspace) (Some (gs_adapter st)) (Some (gs_generations st)))
           | None =>
               match global_symbol_data st d s include_body include_info with
               | Err _ => retry ← make_retry None None None;
                          as_error (global_failure EC_NOT_READY (Some retry)
                            [(lit "reason", JStr (lit "candidate_snapshot_range_mismatch"));
                             (lit "relative_path", JStr (db_relative_path d))] (Some workspace) None None)
               | Ok data =>
                   rest ← render_symbols workspace st d p substring_matching include_body include_info candidates symbols;
                   Ok (match rest with inl l => inl (data :: l) | inr e => inr e end)
               end
           end
  end.

(** ** Providers *)

Context {W : Type}.

Record GlobalSymbolProvider := {
  global_symbol_state : PyM W nav_error GlobalAdapterState;
  workspace_symbols : pystr → Z → PyM W nav_error WorkspaceSymbolBatch;
  document_symbols : pystr → pystr → PyM W nav_error DocumentSymbolBatch;
}.

(** [tuple(provider.global_symbol_state() for provider in providers)] *)
Fixpoint read_states (providers : list GlobalSymbolProvider) : PyM W nav_error (list GlobalAdapterState) :=
  (match providers with
   | [] => py_ret []
   | p :: providers => let! s := global_symbol_state p in let! rest := read_states providers in py_ret (s :: rest)
   end)%py.

(** [GlobalSymbolService(providers)]: the providers in the order of their names. *)
Definition service_init (providers : list GlobalSymbolProvider) : PyM W nav_error (list GlobalSymbolProvider) :=
  (if negb (nonempty providers) || bool_decide (MAX_ADAPTERS < length providers)%nat then py_raise NavInput
   else
     let! states := read_states providers in
     let names := (λ s, am_name (gs_adapter s)) <$> states in
     if bool_decide (NoDup names)
     then py_ret (py_sorted (λ x, _adapter_key x.2) (zip providers states)).*1
     else py_raise NavInput)%py.

(** The documents of the candidates' files. *)
Fixpoint search_files (workspace : WorkspaceMetadata) (provider : GlobalSymbolProvider) (st : GlobalAdapterState)
    (p : _NamePathPattern) (substring_matching include_body include_info : bool)
    (files : list ((pystr * pystr) * list _Candidate)) : PyM W nav_error (list json + ErrorEnvelope) :=
  (match files with
   | [] => py_ret (inl [])
   | ((relative_path, uri), candidates) :: files =>
       let! d := document_symbols provider relative_path uri in
       if bool_decide (db_relative_path d ≠ relative_path) || bool_decide (db_uri d ≠ uri) ||
          negb (_same_global_generation (gs_generations st) (db_generations d))
       then py_lift (as_error (_generation_not_ready workspace st (db_generations d)))
       else
         let! found := py_lift
           match normalize_document_symbols urlparse unquote py_str (default id (db_normalize_name d)) (db_body_completeness d)
                   (db_raw_symbols d) (db_uri d) (db_recover_containment d) with
           | Err _ => Err NavInput
           | Ok roots => render_symbols workspace st d p substring_matching include_body include_info candidates (all_symbols roots)
           end in
         match found with
         | inr e => py_ret (inr e)
         | inl rendered =>
             let! rest := search_files workspace provider st p substring_matching include_body include_info files in
             py_ret (match rest with inl l => inl (rendered ++ l) | inr e => inr e end)
         end
   end)%py.

(** One provider: what it found and how much was left out. *)
Definition search_provider (workspace : WorkspaceMetadata) (provider : GlobalSymbolProvider) (st : GlobalAdapterState)
    (p : _NamePathPattern) (substring_matching include_body include_info : bool) (max_candidates : Z)
    : PyM W nav_error (list json * Z + ErrorEnvelope) :=
  (let! batch := workspace_symbols provider (query p) max_candidates in
   if negb (_same_global_generation (gs_generations st) (wb_generations batch))
   then py_lift (as_error (_generation_not_ready workspace st (wb_generations batch)))
   else
     let candidates := _candidate_files (wb_raw_candidates batch) p substring_matching workspace (gs_configured_program st) in
     let kept := take (Z.to_nat max_candidates) candidates in
     let omitted := Z.of_nat (length candidates - length kept) + wb_omitted_count batch in
     let! found := search_files workspace provider st p substring_matching include_body include_info (group_candidates kept) in
     match found with
     | inr e => py_ret (inr e)
     | inl rendered =>
         let! current := global_symbol_state provider in
         if bool_decide (gs_workspace current ≠ gs_workspace st) || bool_decide (gs_adapter current ≠ gs_adapter st) ||
            negb (_same_configured_scope (gs_configured_program current) (gs_configured_program st)) ||
            negb (gs_workspace_symbols_supported current) || negb (gs_global_ready current) ||
            negb (_same_global_generation (gs_generations st) (gs_generations current))
         then py_lift (as_error (_generation_not_ready workspace st (gs_generations current)))
         else py_ret (inl (rendered, omitted))
     end)%py.

Fixpoint search_all (workspace : WorkspaceMetadata) (p : _NamePathPattern) (substring_matching include_body include_info : bool)
    (max_candidates : Z) (l : list (GlobalSymbolProvider * GlobalAdapterState)) : PyM W nav_error (list json * Z + ErrorEnvelope) :=
  (match l with
   | [] => py_ret (inl ([], 0))
   | (provider, st) :: l =>
       let! found := search_provider workspace provider st p substring_matching include_body include_info max_candidates in
       match found with
       | inr e => py_ret (inr e)
       | inl (rendered, omitted) =>
           let! rest := search_all workspace p substring_matching include_body include_info max_candidates l in
           py_ret (match rest with inl (r, o) => inl (rendered ++ r, omitted + o) | inr e => inr e end)
       end
   end)%py.

(** ** The answer *)

Definition field_str (v : json) (k : string) : pystr := match data_get v k with Some (JStr s) => s | _ => [] end.
Definition field_obj (v : json) (k : string) : json := default JNull (data_get v k).
Definition field_int (v : json) (k : string) : Z := match data_get v k with Some (JInt z) => z | _ => 0 end.

Definition symbol_sort_key (v : json) : pystr * pystr * Z * Z * pystr :=
  let start := field_obj (field_obj (field_obj v "location") "range") "start" in
  (field_str (field_obj v "adapter") "name", field_str v "relative_path", field_int start "line", field_int start "text_offset",
   field_str v "name_path").

Definition _deduplicate_and_sort (symbols : list json) : list json :=
  py_sorted symbol_sort_key (fold_left (λ d s, dict_set d (_canonical_json s) s) symbols []).*2.

Definition global_answer (p : _NamePathPattern) (substring_matching include_body include_info : bool)
    (states : list GlobalAdapterState) (symbols : list json) : json :=
  JObj [(lit "name_path", JStr (expression p)); (lit "substring_matching", JBool substring_matching);
        (lit "include_body", JBool include_body); (lit "include_info", JBool include_info);
        (lit "scope", JStr (lit "configured_program")); (lit "adapters", JList (_state_data <$> states));
        (lit "symbols", JList symbols)].

(** [TruncationMetadata(omitted > 0, omitted)] *)
Definition truncation_of (omitted : Z) : res nav_error TruncationMetadata :=
  match truncation_metadata_init (bool_decide (0 < omitted)) omitted with Ok t => Ok t | Err e => Err (NavEnvelope e) end.

(** What follows the searches. *)
Definition answer_global (workspace : WorkspaceMetadata) (p : _NamePathPattern) (substring_matching include_body include_info : bool)
    (max_answer_chars : Z) (states : list GlobalAdapterState) (found : list json) (omitted : Z) : res nav_error ToolEnvelope :=
  let rendered := _deduplicate_and_sort found in
  let answer := global_answer p substring_matching include_body include_info states in
  if negb (nonempty rendered) && bool_decide (omitted = 0)
  then as_error (global_failure SYMBOL_NOT_FOUND None
         [(lit "name_path", JStr (expression p)); (lit "scope", JStr (lit "configured_program"));
          (lit "adapters", JList (_state_data <$> states))] (Some workspace) None None)
  else if bool_decide (max_answer_chars < canonical_size (answer []))
  then as_error (global_failure INVALID_INPUT None
         [(lit "field", JStr (lit "max_answer_chars")); (lit "minimum_required", JInt (canonical_size (answer [])))]
         (Some workspace) None None)
  else
    let kept := keep_while (λ l, bool_decide (max_answer_chars < canonical_size (answer l))) [] rendered in
    t ← truncation_of (omitted + Z.of_nat (length rendered - length kept));
    let single := match states with [s] => Some s | _ => None end in
    lift_success (success (any_of_json (answer kept)) (Some workspace) (gs_adapter <$> single) (gs_generations <$> single) (Some t)).

Definition least_retry (states : list GlobalAdapterState) : option T :=
  match omap gs_retry_after_seconds states with [] => None | x :: l => Some (py_min id x l) end.

(** [find_symbol] of the service whose providers are in order. *)
Definition global_find_symbol (providers : list GlobalSymbolProvider) (name_path : name_path_arg)
    (substring_matching include_body include_info : bool) (max_candidates_per_adapter max_answer_chars : Z)
    : PyM W nav_error ToolEnvelope :=
  (match _parse_name_path name_path with
   | Some pattern =>
       if bool_decide (max_answer_chars ≤ 0) || negb (bool_decide (1 ≤ max_candidates_per_adapter ≤ MAX_CANDIDATES_PER_ADAPTER))
       then py_lift (as_error (global_failure INVALID_INPUT None
              [(lit "field", JStr (lit "name_path, max_candidates_per_adapter, or max_answer_chars"));
               (lit "max_candidates_per_adapter", JInt MAX_CANDIDATES_PER_ADAPTER)] None None None))
       else
         let! states := read_states providers in
         match _common_workspace states with
         | None => py_lift (as_error (global_failure INVALID_INPUT None [(lit "field", JStr (lit "provider workspace identity"))] None None None))
         | Some workspace =>
             match filter (λ s, gs_workspace_symbols_supported s = false) states with
             | _ :: _ as unavailable => py_lift (as_error (global_failure UNSUPPORTED None
                 [(lit "operation", JStr (lit "global_find_symbol")); (lit "scope", JStr (lit "configured_program"));
                  (lit "adapters", JList (_state_data <$> unavailable))] (Some workspace) None None))
             | [] =>
                 match filter (λ s, gs_global_ready s = false) states with
                 | _ :: _ as not_ready => py_lift (
                     retry ← make_retry (least_retry not_ready) None None;
                     as_error (global_failure EC_NOT_READY (Some retry)
                       [(lit "scope", JStr (lit "configured_program")); (lit "adapters", JList (_state_data <$> not_ready))]
                       (Some workspace) None None))
                 | [] =>
                     let! found := search_all workspace pattern substring_matching include_body include_info
                                     max_candidates_per_adapter (zip providers states) in
                     match found with
                     | inr e => py_ret (inr e)
                     | inl (rendered, omitted) => py_lift (answer_global workspace pattern substring_matching include_body include_info
                                                             max_answer_chars states rendered omitted)
                     end
                 end
             end
         end
   | None => py_lift (as_error (global_failure INVALID_INPUT None
       [(lit "field", JStr (lit "name_path, max_candidates_per_adapter, or max_answer_chars"));
        (lit "max_candidates_per_adapter", JInt MAX_CANDIDATES_PER_ADAPTER)] None None None))
   end)%py.
End global_symbols.

(** ** Candidates and their files *)

Lemma candidate_of_ok urlparse unquote p sub w allowed raw c :
  candidate_of urlparse unquote p sub w allowed raw = Some c →
  gc_relative_path c ∈ allowed ∧ _workspace_relative_path urlparse unquote (gc_uri c) (wm_root w) = Some (gc_relative_path c) ∧
  (sub = false → gc_name c = query p).
Proof.
  unfold candidate_of. destruct raw as [| | | | | |m| |]; try done. destruct (raw_get m "name") as [[]|]; try done.
  destruct (raw_get m "kind") as [[]|]; try done. destruct (raw_get m "location") as [[| | | | | |location| |]|]; try done.
  destruct (negb (nonempty s)); [done|]. destruct (negb _) eqn:Hq; [done|]. destruct (raw_get location "uri") as [[]|]; try done.
  assert (sub = false → s = query p) as Hname.
  { intros ->. apply negb_false_iff, bool_decide_eq_true in Hq. done. }
  clear Hq. destruct (_workspace_relative_path _ _ _ _) as [rel|] eqn:Hrel; [|done]. case_bool_decide as Hin; [done|].
  destruct (raw_get location "range") as [[| | | | | |r| |]|]; try (intros [= <-]; cbn; done).
  destruct (candidate_range r); [|done]. intros [= <-]. cbn. done.
Qed.

Lemma candidate_files_ok urlparse unquote raws p sub w scope c :
  c ∈ _candidate_files urlparse unquote raws p sub w scope →
  gc_relative_path c ∈ ps_paths scope ∧ _workspace_relative_path urlparse unquote (gc_uri c) (wm_root w) = Some (gc_relative_path c) ∧
  (sub = false → gc_name c = query p).
Proof.
  unfold _candidate_files. rewrite py_sorted_perm. intros (raw & _ & Hc)%list_elem_of_omap. by eapply candidate_of_ok.
Qed.

(** A group has candidates, all of them of its file and from the list. *)
Definition group_of (l : list _Candidate) (g : (pystr * pystr) * list _Candidate) : Prop :=
  g.2 ≠ [] ∧ ∀ c, c ∈ g.2 → c ∈ l ∧ (gc_relative_path c, gc_uri c) = g.1.

Lemma group_fold l : ∀ k d, (∀ g, g ∈ d → group_of k g) → (length d ≤ length k)%nat →
  let d' := fold_left (λ d c, let key := (gc_relative_path c, gc_uri c) in
                         dict_set d key (default [] (dict_get d key) ++ [c])) l d in
  (∀ g, g ∈ d' → group_of (k ++ l) g) ∧ (length d' ≤ length (k ++ l))%nat.
Proof.
  induction l as [|c l IH]; intros k d Hd Hlen; cbn [fold_left]; [by rewrite app_nil_r|].
  replace (k ++ c :: l) with ((k ++ [c]) ++ l) by (by rewrite <-app_assoc). apply IH.
  - intros g [->|Hg]%dict_set_elem_inv.
    + split; cbn; [by destruct (default [] _)|]. intros x [Hx|Hx]%elem_of_app.
      * destruct (dict_get d (gc_relative_path c, gc_uri c)) as [cs|] eqn:Hget; [|by apply elem_of_nil in Hx].
        apply dict_get_Some_elem in Hget. destruct (Hd _ Hget) as [_ Hall]. destruct (Hall x Hx). split; [|done].
        apply elem_of_app. by left.
      * apply list_elem_of_singleton in Hx as ->. split; [|done]. apply elem_of_app. right. by left.
    + destruct (Hd g Hg) as [Hne Hall]. split; [done|]. intros x Hx. destruct (Hall x Hx). split; [|done].
      apply elem_of_app. by left.
  - rewrite length_app. cbn. transitivity (S (length d)); [|lia]. clear. generalize (default [] (dict_get d (gc_relative_path c, gc_uri c)) ++ [c]).
    intros v. induction d as [|[j w] d IH]; simpl; [lia|]. case_decide; simpl; lia.
Qed.

Lemma group_candidates_spec l :
  (∀ g, g ∈ group_candidates l → group_of l g) ∧ (length (group_candidates l) ≤ length l)%nat.
Proof.
  unfold group_candidates. rewrite py_sorted_length. destruct (group_fold l [] []) as [H1 H2]; [by intros g ?%elem_of_nil|simpl; lia|].
  split; [|exact H2]. intros g Hg. apply H1. by rewrite py_sorted_perm in Hg.
Qed.

Section global_facts.
Context (sha256_hex : list N → pystr).
Context (urlparse : pystr → parsed_uri) (unquote : pystr → pystr) (py_str : pyany → pystr).
Context {T : Type} `{PyOrd T} (t_float : T → pyfloat).
Context {W : Type}.
Implicit Types (st : GlobalAdapterState (T := T)) (provider : GlobalSymbolProvider (T := T) (W := W)).

Abbreviation roots_of d := (normalize_document_symbols urlparse unquote py_str (default id (db_normalize_name d))
  (db_body_completeness d) (db_raw_symbols d) (db_uri d) (db_recover_containment d)).

(** A candidate the server sent, as the wire has it, confirms a symbol: it has its name and kind, it is in its document, and
    if it has a range, that starts where the symbol does or inside it. An exact query asks for the very name. *)
Definition server_confirms (p : _NamePathPattern) (sub : bool) (raw : pyany) (s : NormalizedSymbol) : Prop :=
  ∃ m location, raw = PMapping m ∧
    raw_get m "name" = Some (PStr (ns_name s)) ∧ raw_get m "kind" = Some (PInt (ns_kind s)) ∧
    raw_get m "location" = Some (PMapping location) ∧ raw_get location "uri" = Some (PStr (loc_uri (ns_location s))) ∧
    (sub = false → ns_name s = query p) ∧
    ∀ r, raw_get location "range" = Some (PMapping r) → ∃ rg, candidate_range r = Ok rg ∧
      (range_contains (loc_range (ns_location s)) (rg_start rg) = true ∨
       pos_key (rg_start rg) = pos_key (rg_start (loc_range (ns_location s)))).

(** What an adapter reports is of the generations of its state. *)
Definition at_generations st (g : GenerationMetadata) : Prop :=
  gm_trust g = gm_trust (gs_generations st) ∧ gm_program g = gm_program (gs_generations st) ∧
  gm_index g = gm_index (gs_generations st) ∧ gm_scope g ∈ [None; Some (lit "configured_program")].

(** How a rendered symbol was found, by what the server sent and the documents it then returned. *)
Definition verified_symbol (workspace : WorkspaceMetadata) st (p : _NamePathPattern) (sub body info : bool)
    (raws : list pyany) (documents : list DocumentSymbolBatch) (j : json) : Prop :=
  ∃ d roots symbol raw,
    d ∈ documents ∧ db_relative_path d ∈ ps_paths (gs_configured_program st) ∧
    _workspace_relative_path urlparse unquote (db_uri d) (wm_root workspace) = Some (db_relative_path d) ∧
    roots_of d = Ok roots ∧ symbol ∈ all_symbols roots ∧ _matches_name_path symbol p sub = true ∧
    raw ∈ raws ∧ server_confirms p sub raw symbol ∧
    (body = true → ns_incomplete symbol = None) ∧ global_symbol_data sha256_hex st d symbol body info = Ok j.

(** The state an adapter has when its search is over. *)
Definition unchanged st (current : GlobalAdapterState (T := T)) : Prop :=
  gs_workspace current = gs_workspace st ∧ gs_adapter current = gs_adapter st ∧
  gs_workspace_symbols_supported current = true ∧ gs_global_ready current = true ∧ at_generations st (gs_generations current) ∧
  ps_project_kind (gs_configured_program current) = ps_project_kind (gs_configured_program st) ∧
  ps_selected_config_path (gs_configured_program current) = ps_selected_config_path (gs_configured_program st) ∧
  ps_file_count (gs_configured_program current) = ps_file_count (gs_configured_program st) ∧
  ps_sha256 (gs_configured_program current) = ps_sha256 (gs_configured_program st).

(** The turn of one adapter: one query, the documents of the candidates, and a last look at the state of the adapter; all of
    it at the generations the adapter had before, and every symbol found verified. *)
Definition verified_turn (workspace : WorkspaceMetadata) provider st (p : _NamePathPattern) (sub body info : bool) (mc : Z)
    (w : W) (found : list json) (w' : W) : Prop :=
  ∃ w1 batch files documents w2 current,
    workspace_symbols provider (query p) mc w = (w1, Ok batch) ∧ at_generations st (wb_generations batch) ∧
    each (λ f, document_symbols provider f.1 f.2) files w1 documents w2 ∧
    Forall2 (λ f d, db_relative_path d = f.1 ∧ db_uri d = f.2 ∧ at_generations st (db_generations d)) files documents ∧
    global_symbol_state provider w2 = (w', Ok current) ∧ unchanged st current ∧
    ∀ j, j ∈ found → verified_symbol workspace st p sub body info (wb_raw_candidates batch) documents j.

(** The turns of the adapters, one after the other. *)
Inductive verified_turns (workspace : WorkspaceMetadata) (p : _NamePathPattern) (sub body info : bool) (mc : Z) :
  list (GlobalSymbolProvider (T := T) (W := W) * GlobalAdapterState (T := T)) → W → list json → W → Prop :=
| turns_nil w : verified_turns workspace p sub body info mc [] w [] w
| turns_cons provider st l w w1 w2 found rest :
    verified_turn workspace provider st p sub body info mc w found w1 →
    verified_turns workspace p sub body info mc l w1 rest w2 →
    verified_turns workspace p sub body info mc ((provider, st) :: l) w (found ++ rest) w2.

Lemma same_generation_ok st g : _same_global_generation (gs_generations st) g = true → at_generations st g.
Proof.
  unfold _same_global_generation, at_generations. intros [[[H1 H2]%andb_true_iff H3]%andb_true_iff H4]%andb_true_iff.
  apply bool_decide_eq_true in H1, H2, H3, H4. by rewrite H1, H2, H3.
Qed.

Lemma render_symbols_ok workspace st d p sub body info cs symbols l :
  render_symbols sha256_hex t_float workspace st d p sub body info cs symbols = Ok (inl l) →
  ∀ j, j ∈ l → ∃ s c, s ∈ symbols ∧ c ∈ cs ∧ _matches_name_path s p sub = true ∧ _candidate_verifies_symbol c s = true ∧
    (body = true → ns_incomplete s = None) ∧ global_symbol_data sha256_hex st d s body info = Ok j.
Proof.
  revert l. induction symbols as [|s symbols IH]; cbn [render_symbols]; intros l; [intros [= <-] j ?%elem_of_nil; done|].
  destruct (confirmed p sub cs s) eqn:Hc; cbn [negb].
  2:{ intros Hl j Hj. destruct (IH l Hl j Hj) as (s' & c & Hs & Hrest). exists s', c. split; [by right|done]. }
  destruct (if body then ns_incomplete s else None) as [reason|] eqn:Hinc; [by intros ?%as_error_not_success|].
  destruct (global_symbol_data _ _ _ _ _ _) as [data|] eqn:Hdata.
  2:{ intros (r & _ & ?%as_error_not_success)%res_bind_Ok. done. }
  intros ([rest|e] & Hr & Hl)%res_bind_Ok; [|done]. injection Hl as <-. intros j [->|Hj]%elem_of_cons.
  - unfold confirmed in Hc. apply andb_prop in Hc as [Hm Hv]. apply existsb_exists in Hv as (c & Hc & Hv).
    exists s, c. split_and!; [by left|by apply list_elem_of_In|done|done|by intros ->|done].
  - destruct (IH rest Hr j Hj) as (s' & c & Hs & Hrest). exists s', c. split; [by right|done].
Qed.

Lemma candidate_confirms workspace p sub allowed raw c s :
  candidate_of urlparse unquote p sub workspace allowed raw = Some c → _candidate_verifies_symbol c s = true →
  server_confirms p sub raw s.
Proof.
  intros Hof Hv. unfold candidate_of in Hof. destruct raw as [| | | | | |m| |]; try done.
  destruct (raw_get m "name") as [[]|] eqn:Hn; try done. destruct (raw_get m "kind") as [[]|] eqn:Hk; try done.
  destruct (raw_get m "location") as [[| | | | | |location| |]|] eqn:Hl; try done.
  destruct (negb (nonempty _)); [done|]. destruct (negb _) eqn:Hq; [done|]. destruct (raw_get location "uri") as [[]|] eqn:Hu; try done.
  destruct (_workspace_relative_path _ _ _ _) as [rel|]; [|done]. case_bool_decide; [done|].
  unfold _candidate_verifies_symbol in Hv. destruct (bool_decide (gc_name c ≠ ns_name s)) eqn:H1; [done|].
  destruct (bool_decide (gc_kind c ≠ ns_kind s)) eqn:H2; [done|]. destruct (bool_decide (gc_uri c ≠ _)) eqn:H3; [done|]. cbn [orb] in Hv.
  assert (gc_name c = ns_name s ∧ gc_kind c = ns_kind s ∧ gc_uri c = loc_uri (ns_location s)) as (En & Ek & Eu).
  { apply bool_decide_eq_false in H1, H2, H3. split_and!; by apply dec_stable. }
  clear H1 H2 H3. exists m, location. split; [done|].
  assert (∀ rg, gc_range c = Some rg → range_contains (loc_range (ns_location s)) (rg_start rg) = true ∨
       pos_key (rg_start rg) = pos_key (rg_start (loc_range (ns_location s)))) as Hplace.
  { intros rg Hrg. rewrite Hrg in Hv. apply orb_true_iff in Hv as [?|?%bool_decide_eq_true]; [by left|by right]. }
  assert (∀ r, raw_get location "range" = Some (PMapping r) → ∃ rg, candidate_range r = Ok rg ∧ gc_range c = Some rg) as Hrange.
  { intros r Hr. rewrite Hr in Hof. destruct (candidate_range r) as [rg|]; [|done]. injection Hof as <-. by exists rg. }
  assert (gc_name c = s0 ∧ gc_kind c = z ∧ gc_uri c = s1) as (<- & <- & <-).
  { destruct (raw_get location "range") as [[| | | | | |r| |]|]; try (injection Hof as <-; done).
    destruct (candidate_range r); [|done]. injection Hof as <-. done. }
  rewrite <-En, <-Ek, <-Eu. split_and!; try done.
  - intros ->. apply negb_false_iff, bool_decide_eq_true in Hq. done.
  - intros r Hr. destruct (Hrange r Hr) as (rg & ? & ?). exists rg. split; [done|by apply Hplace].
Qed.

Lemma unchanged_ok st (current : GlobalAdapterState (T := T)) :
  bool_decide (gs_workspace current ≠ gs_workspace st) || bool_decide (gs_adapter current ≠ gs_adapter st) ||
    negb (_same_configured_scope (gs_configured_program current) (gs_configured_program st)) ||
    negb (gs_workspace_symbols_supported current) || negb (gs_global_ready current) ||
    negb (_same_global_generation (gs_generations st) (gs_generations current)) = false → unchanged st current.
Proof.
  rewrite !orb_false_iff, !negb_false_iff. intros (((((H1 & H2) & H3) & H4) & H5) & H6%same_generation_ok).
  unfold _same_configured_scope in H3. rewrite !andb_true_iff, !bool_decide_eq_true in H3. destruct H3 as (((? & ?) & ?) & ?).
  apply bool_decide_eq_false in H1, H2. apply dec_stable in H1, H2. by split_and!.
Qed.

(** What a search makes of the candidates kept from the server's answer. *)
Lemma search_files_ok workspace provider st p sub body info (raws : list pyany) (candidates : list _Candidate) files : ∀ w w' l,
  (∀ g, g ∈ files → group_of candidates g) →
  (∀ c, c ∈ candidates → ∃ raw, raw ∈ raws ∧
     candidate_of urlparse unquote p sub workspace (ps_paths (gs_configured_program st)) raw = Some c) →
  search_files sha256_hex urlparse unquote py_str t_float workspace provider st p sub body info files w = (w', Ok (inl l)) →
  ∃ documents, each (λ f, document_symbols provider f.1 f.2) files.*1 w documents w' ∧
    Forall2 (λ f d, db_relative_path d = f.1 ∧ db_uri d = f.2 ∧ at_generations st (db_generations d)) files.*1 documents ∧
    ∀ j, j ∈ l → verified_symbol workspace st p sub body info raws documents j.
Proof.
  induction files as [|[[rel uri] cs] files IH]; intros w w' l Hfiles Hcs; cbn [search_files].
  - intros [= -> <-]. exists []. split_and!; [constructor|constructor|]. by intros j ?%elem_of_nil.
  - intros (w1 & d & Hd & Hrun)%py_bind_ok. destruct (_ || negb _) eqn:Hsame; [by apply py_lift_ok, as_error_not_success in Hrun|].
    apply orb_false_iff in Hsame as [Hsame Hgen%negb_false_iff%same_generation_ok].
    apply orb_false_iff in Hsame as [Hrel%bool_decide_eq_false Huri%bool_decide_eq_false].
    assert (db_relative_path d = rel) as <- by (destruct (decide (db_relative_path d = rel)); done).
    assert (db_uri d = uri) as <- by (destruct (decide (db_uri d = uri)); done).
    apply py_bind_ok in Hrun as (w2 & [found|e] & Hfound & Hrun); [|done].
    assert (w2 = w1) as -> by (unfold py_lift in Hfound; congruence). apply py_lift_ok in Hfound.
    destruct (roots_of d) as [roots|] eqn:Hroots; [|done].
    apply py_bind_ok in Hrun as (w3 & [rest|e] & Hrest & Hrun); [|done]. injection Hrun as -> <-.
    destruct (IH w1 w' rest) as (ds & Hds & Hf & Hall); [intros g Hg; apply Hfiles; by right|exact Hcs|exact Hrest|].
    exists (d :: ds). split_and!; [by econstructor|by constructor|]. intros j [Hj|Hj]%elem_of_app.
    + destruct (render_symbols_ok _ _ _ _ _ _ _ _ _ _ Hfound j Hj) as (s & c & Hs & Hc & Hm & Hv & Hb & Hdata).
      destruct (Hfiles _ ltac:(by left)) as [_ Hgroup]. destruct (Hgroup c Hc) as [Hin [= Hrel' Huri']].
      destruct (Hcs c Hin) as (raw & Hraw & Hof). destruct (candidate_of_ok _ _ _ _ _ _ _ _ Hof) as (Hscope & Hws & _).
      exists d, roots, s, raw. rewrite Hrel' in Hscope, Hws. rewrite Huri' in Hws.
      split_and!; try done; [by left|by eapply candidate_confirms].
    + destruct (Hall j Hj) as (d' & roots' & s & raw & Hin & Hv). exists d', roots', s, raw. split; [by right|exact Hv].
Qed.

Lemma search_provider_ok workspace provider st p sub body info mc w w' l o :
  search_provider sha256_hex urlparse unquote py_str t_float workspace provider st p sub body info mc w = (w', Ok (inl (l, o))) →
  verified_turn workspace provider st p sub body info mc w l w'.
Proof.
  unfold search_provider. intros (w1 & batch & Hb & Hrun)%py_bind_ok.
  destruct (negb _) eqn:Hgen; [by apply py_lift_ok, as_error_not_success in Hrun|]. apply negb_false_iff, same_generation_ok in Hgen.
  cbv zeta in Hrun. revert Hrun. set (candidates := _candidate_files _ _ _ _ _ _ _). intros Hrun.
  apply py_bind_ok in Hrun as (w2 & [found|e] & Hfound & Hrun); [|done].
  apply py_bind_ok in Hrun as (w3 & current & Hcur & Hrun).
  destruct (_ || _ || _ || _ || _ || _) eqn:Hsame; [by apply py_lift_ok, as_error_not_success in Hrun|]. injection Hrun as -> <- _.
  assert (∀ c, c ∈ take (Z.to_nat mc) candidates → ∃ raw, raw ∈ wb_raw_candidates batch ∧
    candidate_of urlparse unquote p sub workspace (ps_paths (gs_configured_program st)) raw = Some c) as Hcs.
  { intros c Hc. apply (elem_of_sublist _ candidates) in Hc; [|apply sublist_take]. unfold candidates, _candidate_files in Hc.
    rewrite py_sorted_perm in Hc. apply list_elem_of_omap in Hc as (raw & ? & ?). by exists raw. }
  eapply search_files_ok in Hfound as (documents & Hd & Hf & Hall); [|apply group_candidates_spec|exact Hcs].
  exists w1, batch, (group_candidates (take (Z.to_nat mc) candidates)).*1, documents, w2, current.
  split_and!; [done|done|done|done|done| |done]. by apply unchanged_ok.
Qed.

Lemma search_all_ok workspace p sub body info mc l : ∀ w w' found o,
  search_all sha256_hex urlparse unquote py_str t_float workspace p sub body info mc l w = (w', Ok (inl (found, o))) →
  verified_turns workspace p sub body info mc l w found w'.
Proof.
  induction l as [|[provider st] l IH]; intros w w' found o; cbn [search_all]; [intros [= -> <- _]; constructor|].
  intros (w1 & [[r1 o1]|e] & Hp & Hrun)%py_bind_ok; [|done].
  apply py_bind_ok in Hrun as (w2 & [[r2 o2]|e] & Hrest & Hrun); [|done]. injection Hrun as -> <- _.
  econstructor; [by eapply search_provider_ok|by eapply IH].
Qed.

Lemma read_states_each (providers : list (GlobalSymbolProvider (T := T) (W := W))) : ∀ w w' states,
  read_states providers w = (w', Ok states) → each global_symbol_state providers w states w'.
Proof.
  induction providers as [|provider providers IH]; intros w w' states; cbn [read_states]; [intros [= -> <-]; constructor|].
  intros (w1 & s & Hs & Hrun)%py_bind_ok. apply py_bind_ok in Hrun as (w2 & rest & Hr & Hrun). injection Hrun as -> <-.
  econstructor; [done|by apply IH].
Qed.
End global_facts.

(** ** The answer *)

Lemma canonical_fold l : ∀ d : list (pystr * json),
  let d' := fold_left (λ d s, dict_set d (_canonical_json s) s) l d in
  NoDup d.*1 → (∀ x, x ∈ d → x.1 = _canonical_json x.2) →
  NoDup d'.*1 ∧ (∀ x, x ∈ d' → x.1 = _canonical_json x.2) ∧ (∀ x, x ∈ d' → x ∈ d ∨ x.2 ∈ l) ∧
  (∀ k, k ∈ d'.*1 ↔ k ∈ d.*1 ∨ k ∈ _canonical_json <$> l).
Proof.
  induction l as [|s l IH]; intros d d' Hnd Hall; simpl in d'.
  - subst d'. split_and!; [done|done|by left|]. intros k. cbn. rewrite elem_of_nil. tauto.
  - destruct (IH (dict_set d (_canonical_json s) s)) as (H1 & H2 & H3 & H4).
    + by apply dict_set_nodup.
    + intros x [->|Hx]%dict_set_elem_inv; [done|by apply Hall].
    + split_and!; [exact H1|exact H2| |].
      * intros x [Hx|Hx]%H3; [|right; by right]. apply dict_set_elem_inv in Hx as [->|Hx]; [right; left|by left].
      * intros k. etrans; [exact (H4 k)|]. rewrite dict_set_keys_elem. csimpl. rewrite elem_of_cons. tauto.
Qed.

(** The symbols shown: found ones, no two with the same text, in the order of adapter, path and position. *)
Lemma deduplicate_ok l :
  NoDup (_canonical_json <$> _deduplicate_and_sort l) ∧ StronglySorted (key_le symbol_sort_key) (_deduplicate_and_sort l) ∧
  (∀ j, j ∈ _deduplicate_and_sort l → j ∈ l) ∧
  (∀ j, j ∈ l → ∃ j', j' ∈ _deduplicate_and_sort l ∧ _canonical_json j' = _canonical_json j).
Proof.
  unfold _deduplicate_and_sort. destruct (canonical_fold l []) as (Hnd & Hall & Hin & Hkeys); [constructor|by intros x ?%elem_of_nil|].
  set (d := fold_left _ l []) in *. clearbody d.
  assert (_canonical_json <$> d.*2 = d.*1) as Hid.
  { rewrite <-list_fmap_compose. apply list_fmap_ext. intros i x Hx. apply list_elem_of_lookup_2 in Hx. symmetry. by apply Hall. }
  split_and!.
  - rewrite py_sorted_perm, Hid. done.
  - apply py_sorted_sorted.
  - intros j Hj. rewrite py_sorted_perm in Hj. apply list_elem_of_fmap in Hj as (x & -> & Hx).
    by apply Hin in Hx as [?%elem_of_nil|Hx].
  - intros j Hj. assert (_canonical_json j ∈ d.*1) as Hk by (apply Hkeys; right; by apply list_elem_of_fmap_2).
    apply list_elem_of_fmap in Hk as (x & Heq & Hx). exists x.2. split; [|by rewrite <-Hall, Heq].
    rewrite py_sorted_perm. by apply list_elem_of_fmap_2.
Qed.

Lemma truncation_of_count z t : truncation_of z = Ok t → tm_omitted_count t = z ∧ 0 ≤ z.
Proof.
  unfold truncation_of, truncation_metadata_init. destruct (_ || _) eqn:Hc; [done|]. intros [= <-].
  apply orb_false_iff in Hc as [Hc%bool_decide_eq_false _]. split; [done|lia].
Qed.

Lemma answer_global_ok {T} workspace p sub body info mx (states : list (GlobalAdapterState (T := T))) found omitted env :
  answer_global workspace p sub body info mx states found omitted = Ok (inl env) →
  ∃ kept, (kept ≤ length (_deduplicate_and_sort found))%nat ∧
    sv_data env = global_answer p sub body info states (take kept (_deduplicate_and_sort found)) ∧
    canonical_size (sv_data env) ≤ mx ∧
    tm_omitted_count <$> sv_truncation env = Some (omitted + (Z.of_nat (length (_deduplicate_and_sort found)) - Z.of_nat kept)) ∧
    ((kept < length (_deduplicate_and_sort found))%nat →
     mx < canonical_size (global_answer p sub body info states (take (S kept) (_deduplicate_and_sort found)))).
Proof.
  unfold answer_global. destruct (negb _ && _); [by intros ?%as_error_not_success|].
  case_bool_decide as Hmin; [by intros ?%as_error_not_success|]. set (rendered := _deduplicate_and_sort found).
  set (P := λ l, bool_decide _). destruct (keep_while_prefix P rendered) as (k & Hk & Hle & Hfit & Hstop).
  rewrite Hk, length_take, Nat.min_l by done. intros (t & Ht%truncation_of_count & Hs)%res_bind_Ok. apply success_data in Hs as ->.
  exists k. cbn [sv_data sv_truncation]. split_and!; [done|done| | |].
  - destruct Hfit as [->|Hfit]; [rewrite take_0; lia|]. unfold P in Hfit. apply bool_decide_eq_false in Hfit. lia.
  - cbn. f_equal. destruct Ht as [-> _]. lia.
  - intros Hlt. specialize (Hstop Hlt). unfold P in Hstop. by apply bool_decide_eq_true in Hstop.
Qed.

(** ** What is asked of the providers *)

Inductive provider_call := AskedCandidates (q : pystr) (limit : Z) | AskedDocument (relative_path uri : pystr).

Definition logged_call {W A} (c : provider_call) (m : PyM W nav_error A) : PyM (W * list provider_call) nav_error A :=
  λ s, let '(w, r) := m s.1 in ((w, s.2 ++ [c]), r).

Definition logged_provider {T W} (p : GlobalSymbolProvider (T := T) (W := W)) : GlobalSymbolProvider (T := T) (W := W * list provider_call) :=
  {| global_symbol_state := unlogged (global_symbol_state p);
     workspace_symbols := λ q n, logged_call (AskedCandidates q n) (workspace_symbols p q n);
     document_symbols := λ path uri, logged_call (AskedDocument path uri) (document_symbols p path uri) |}.

(** The calls one provider may get: one query, then at most [mc] documents of its configured program. *)
Definition calls_of {T} (p : _NamePathPattern) (mc : Z) (st : GlobalAdapterState (T := T)) (calls : list provider_call) : Prop :=
  calls = [] ∨ ∃ docs, calls = AskedCandidates (query p) mc :: docs ∧ Z.of_nat (length docs) ≤ mc ∧
    Forall (λ c, match c with AskedDocument path _ => path ∈ ps_paths (gs_configured_program st) | _ => False end) docs.

Section global_log.
Context (sha256_hex : list N → pystr).
Context (urlparse : pystr → parsed_uri) (unquote : pystr → pystr) (py_str : pyany → pystr).
Context {T : Type} `{PyOrd T} (t_float : T → pyfloat).
Context {W : Type}.
Implicit Types (st : GlobalAdapterState (T := T)) (provider : GlobalSymbolProvider (T := T) (W := W)).

Lemma search_files_log workspace provider st p sub body info files : ∀ s s' r,
  search_files sha256_hex urlparse unquote py_str t_float workspace (logged_provider provider) st p sub body info files s = (s', r) →
  ∃ n, s'.2 = s.2 ++ ((λ g, AskedDocument g.1.1 g.1.2) <$> take n files).
Proof.
  induction files as [|[[rel uri] cs] files IH]; intros s s' r; cbn [search_files].
  - intros [= <- _]. exists 0%nat. by rewrite take_0, app_nil_r.
  - unfold py_bind at 1. cbn [document_symbols logged_provider]. unfold logged_call at 1.
    destruct (document_symbols provider rel uri s.1) as [w1 [d|e]].
    2:{ intros [= <- _]. by exists 1%nat. }
    destruct (_ || _).
    { unfold py_lift. intros [= <- _]. by exists 1%nat. }
    unfold py_bind at 1. unfold py_lift at 1. destruct (match normalize_document_symbols _ _ _ _ _ _ _ _ with Ok _ => _ | Err _ => _ end) as [[found|e]|e].
    2,3: intros [= <- _]; by exists 1%nat.
    unfold py_bind. destruct (search_files _ _ _ _ _ _ _ _ _ _ _ _ _ _) as [s2 r2] eqn:Hrest.
    destruct (IH _ _ _ Hrest) as [n Hn]. cbn [snd] in Hn. rewrite <-app_assoc in Hn.
    destruct r2 as [[rest|e]|e]; intros [= <- _]; by exists (S n).
Qed.

Lemma search_provider_log workspace provider st p sub body info mc s s' r :
  0 ≤ mc →
  search_provider sha256_hex urlparse unquote py_str t_float workspace (logged_provider provider) st p sub body info mc s = (s', r) →
  ∃ calls, s'.2 = s.2 ++ calls ∧ calls_of p mc st calls.
Proof.
  intros Hmc. unfold search_provider. unfold py_bind at 1. cbn [workspace_symbols logged_provider]. unfold logged_call at 1.
  assert (calls_of p mc st [AskedCandidates (query p) mc]) as Hone.
  { right. exists []. split_and!; [done|simpl; lia|constructor]. }
  destruct (workspace_symbols provider (query p) mc s.1) as [w1 [batch|e]].
  2:{ intros [= <- _]. by eexists. }
  destruct (negb _).
  { unfold py_lift. intros [= <- _]. by eexists. }
  cbv zeta. set (candidates := _candidate_files _ _ _ _ _ _ _).
  unfold py_bind at 1. destruct (search_files _ _ _ _ _ _ _ _ _ _ _ _ _ _) as [s2 r2] eqn:Hfiles.
  destruct (search_files_log _ _ _ _ _ _ _ _ _ _ _ Hfiles) as [n Hn]. cbn [snd] in Hn. rewrite <-app_assoc in Hn. cbn [app] in Hn.
  set (kept := take (Z.to_nat mc) candidates) in *. destruct (group_candidates_spec kept) as [Hgroup Hlen].
  assert (calls_of p mc st (AskedCandidates (query p) mc :: ((λ g, AskedDocument g.1.1 g.1.2) <$> take n (group_candidates kept)))) as Hcalls.
  { right. eexists. split_and!; [reflexivity| |].
    - rewrite length_fmap, length_take. unfold kept in Hlen at 2. rewrite length_take in Hlen. lia.
    - apply Forall_fmap, Forall_forall. intros g Hg. pose proof (elem_of_sublist _ _ _ Hg (sublist_take _ _)) as Hg'.
      cbn. destruct (Hgroup g Hg') as [Hne Hall]. destruct g as [[rel uri] [|c cs]]; [done|]. cbn in *.
      destruct (Hall c ltac:(by left)) as [Hc [= <- _]]. apply (elem_of_sublist _ candidates) in Hc; [|apply sublist_take].
      by apply candidate_files_ok in Hc as [? _]. }
  destruct r2 as [[found|e]|e]; [|intros [= <- _]; by eexists..].
  unfold py_bind at 1. cbn [global_symbol_state logged_provider]. destruct (unlogged _ s2) as [s3 r3] eqn:Hq. apply unlogged_run in Hq as [Hq _].
  assert (s3.2 = s.2 ++ AskedCandidates (query p) mc :: ((λ g, AskedDocument g.1.1 g.1.2) <$> take n (group_candidates kept))) as Hs3
    by (by rewrite Hq, Hn).
  destruct r3 as [current|e]; [|intros [= <- _]; by eexists]. destruct (_ || _ || _ || _ || _ || _); intros [= <- _]; by eexists.
Qed.

Lemma search_all_log workspace p sub body info mc (l : list (GlobalSymbolProvider (T := T) (W := W) * GlobalAdapterState (T := T))) : ∀ s s' r,
  0 ≤ mc →
  search_all sha256_hex urlparse unquote py_str t_float workspace p sub body info mc ((λ x, (logged_provider x.1, x.2)) <$> l) s = (s', r) →
  ∃ calls, s'.2 = s.2 ++ concat calls ∧ Forall2 (λ x c, calls_of p mc x.2 c) l calls.
Proof.
  induction l as [|[provider st] l IH]; intros s s' r Hmc; csimpl.
  - intros [= <- _]. exists []. by rewrite app_nil_r.
  - assert (Forall2 (λ x c, calls_of p mc x.2 c) l (replicate (length l) [])) as Hrest0.
    { clear. induction l; simpl; constructor; [by left|done]. }
    assert (concat (replicate (length l) []) = ([] : list provider_call)) as Hnil by (clear; induction l; done).
    unfold py_bind at 1. destruct (search_provider _ _ _ _ _ _ _ _ _ _ _ _ _ _) as [s1 r1] eqn:Hp.
    apply search_provider_log in Hp as (c & Hc & Hcalls); [|done].
    destruct r1 as [[[r1 o1]|e]|e].
    2,3: intros [= <- _]; exists (c :: replicate (length l) []); (split; [cbn; by rewrite Hnil, app_nil_r|by constructor]).
    unfold py_bind. destruct (search_all _ _ _ _ _ _ _ _ _ _ _ _ _) as [s2 r2] eqn:Hall.
    destruct (IH _ _ _ Hmc Hall) as (cs & Hcs & Hf). rewrite Hc, <-app_assoc in Hcs.
    destruct r2 as [[[r2 o2]|e]|e]; intros [= <- _]; exists (c :: cs); (split; [done|by constructor]).
Qed.
End global_log.

Lemma zip_logged {T W} (ps : list (GlobalSymbolProvider (T := T) (W := W))) (states : list (GlobalAdapterState (T := T))) :
  zip (logged_provider <$> ps) states = (λ x, (logged_provider x.1, x.2)) <$> zip ps states.
Proof. revert states. induction ps as [|p ps IH]; intros [|s states]; csimpl; [done..|]. by rewrite IH. Qed.

Lemma zip_snd {A B} (l : list A) (k : list B) : length l = length k → (zip l k).*2 = k.
Proof. revert k. induction l as [|x l IH]; intros [|y k] [=]; [done|]. csimpl. by rewrite IH. Qed.

Lemma read_states_length {T W} (ps : list (GlobalSymbolProvider (T := T) (W := W))) : ∀ w w' states,
  read_states ps w = (w', Ok states) → length states = length ps.
Proof.
  induction ps as [|p ps IH]; intros w w' states; cbn [read_states]; [by intros [= _ <-]|].
  intros (w1 & s & _ & H)%py_bind_ok. apply py_bind_ok in H as (w2 & rest & Hr%IH & H). injection H as _ <-. simpl. by rewrite Hr.
Qed.

Lemma read_states_log {T W} (ps : list (GlobalSymbolProvider (T := T) (W := W))) : ∀ s s' r,
  read_states (logged_provider <$> ps) s = (s', r) → s'.2 = s.2 ∧ read_states ps s.1 = (s'.1, r).
Proof.
  induction ps as [|p ps IH]; intros s s' r; csimpl; [by intros [= <- <-]|].
  unfold py_bind at 1. destruct (unlogged (global_symbol_state p) s) as [s1 r1] eqn:Hq. apply unlogged_run in Hq as [Hl Hq].
  unfold py_bind at 2. rewrite Hq. destruct r1 as [st|e]; [|by intros [= <- <-]].
  unfold py_bind. destruct (read_states (logged_provider <$> ps) s1) as [s2 r2] eqn:Hr. destruct (IH _ _ _ Hr) as [Hl2 ->].
  destruct r2 as [rest|e]; intros [= <- <-]; (split; [by rewrite Hl2|done]).
Qed.

(** ** Properties *)

(** C19: a global lookup shows nothing it has not verified. When it answers, every adapter supported the query and was
    ready before the search, at one workspace; one after the other, each was queried once and asked for the documents of
    the candidates, all of them answered at the generations it had before; and a last look at it found it as before: the
    same workspace, adapter and generations, still ready, the configured program of the same kind, configuration, count
    and digest. Every symbol found is in the tree of one of those documents, of a file of the configured program inside the
    workspace, under the name path asked for, and an item of the server's answer to the query confirms its name, kind,
    document and place. The symbols shown are the longest prefix, without repetitions and in order, whose answer is within
    [max_answer_chars]. *)
Theorem global_symbols_verified sha urlparse unquote py_str {T} `{PyOrd T} (t_float : T → pyfloat) {W}
    (providers : list (GlobalSymbolProvider (T := T) (W := W))) name_path sub body info mc mx w w' env :
  global_find_symbol sha urlparse unquote py_str t_float providers name_path sub body info mc mx w = (w', Ok (inl env)) →
  ∃ p w1 states workspace found kept,
    _parse_name_path name_path = Some p ∧ each global_symbol_state providers w states w1 ∧
    Forall (λ s, gs_workspace s = workspace ∧ gs_workspace_symbols_supported s = true ∧ gs_global_ready s = true) states ∧
    verified_turns sha urlparse unquote py_str workspace p sub body info mc (zip providers states) w1 found w' ∧
    sv_data env = global_answer p sub body info states (take kept (_deduplicate_and_sort found)) ∧
    canonical_size (sv_data env) ≤ mx ∧
    NoDup (_canonical_json <$> _deduplicate_and_sort found) ∧ StronglySorted (key_le symbol_sort_key) (_deduplicate_and_sort found) ∧
    (∀ j, j ∈ _deduplicate_and_sort found → j ∈ found) ∧
    (∀ j, j ∈ found → ∃ j', j' ∈ _deduplicate_and_sort found ∧ _canonical_json j' = _canonical_json j) ∧
    ((kept < length (_deduplicate_and_sort found))%nat →
     mx < canonical_size (global_answer p sub body info states (take (S kept) (_deduplicate_and_sort found)))).
Proof.
  unfold global_find_symbol. destruct (_parse_name_path name_path) as [p|]; [|by intros ?%py_lift_ok%as_error_not_success].
  destruct (_ || _); [by intros ?%py_lift_ok%as_error_not_success|].
  intros (w1 & states & Hst & Hrun)%py_bind_ok.
  destruct (_common_workspace states) as [workspace|] eqn:Hws; [|by apply py_lift_ok, as_error_not_success in Hrun].
  destruct (filter (λ s, gs_workspace_symbols_supported s = false) states) eqn:Hsup; [|by apply py_lift_ok, as_error_not_success in Hrun].
  destruct (filter (λ s, gs_global_ready s = false) states) eqn:Hready.
  2:{ apply py_lift_ok, res_bind_Ok in Hrun as (? & _ & ?%as_error_not_success). done. }
  apply py_bind_ok in Hrun as (w2 & [[found omitted]|e] & Hfound & Hrun); [|done].
  assert (w2 = w') as -> by (unfold py_lift in Hrun; congruence). apply py_lift_ok, answer_global_ok in Hrun.
  destruct Hrun as (kept & _ & Hdata & Hsize & _ & Hmax). exists p, w1, states, workspace, found, kept.
  destruct (deduplicate_ok found) as (Hnd & Hsorted & Hin & Hback).
  split_and!; [done|by apply read_states_each| |by eapply search_all_ok|done..].
  apply Forall_forall. intros s Hs. split_and!.
  - unfold _common_workspace in Hws. destruct states as [|s0 states]; [done|]. destruct (forallb _ _) eqn:Hall; [|done].
    injection Hws as <-. rewrite forallb_forall in Hall. by apply list_elem_of_In, Hall, bool_decide_eq_true in Hs.
  - destruct (gs_workspace_symbols_supported s) eqn:Hb; [done|]. assert (s ∈ []) as []%elem_of_nil. rewrite <-Hsup. by apply list_elem_of_filter.
  - destruct (gs_global_ready s) eqn:Hb; [done|]. assert (s ∈ []) as []%elem_of_nil. rewrite <-Hready. by apply list_elem_of_filter.
Qed.

(** however the providers behave, a global lookup asks each of them at most one bounded query and at most
    [max_candidates_per_adapter] documents, all of them files of the configured program it reported: it never enumerates
    files. *)
Theorem global_requests_bounded sha urlparse unquote py_str {T} `{PyOrd T} (t_float : T → pyfloat) {W}
    (providers : list (GlobalSymbolProvider (T := T) (W := W))) name_path sub body info mc mx w :
  let log := (global_find_symbol sha urlparse unquote py_str t_float (logged_provider <$> providers) name_path sub body info mc mx (w, [])).1.2 in
  log = [] ∨ ∃ p w1 states calls, _parse_name_path name_path = Some p ∧ mc ≤ MAX_CANDIDATES_PER_ADAPTER ∧
    read_states providers w = (w1, Ok states) ∧ log = concat calls ∧ Forall2 (calls_of p mc) states calls.
Proof.
  intros log. destruct (global_find_symbol _ _ _ _ _ _ _ _ _ _ _ _ _) as [[w' l] r] eqn:Hrun. subst log. cbn [fst snd].
  unfold global_find_symbol in Hrun. destruct (_parse_name_path name_path) as [p|]; [|injection Hrun as _ <- _; by left].
  destruct (_ || _) eqn:Hbounds; [injection Hrun as _ <- _; by left|].
  apply orb_false_iff in Hbounds as [_ Hmc%negb_false_iff%bool_decide_eq_true].
  unfold py_bind at 1 in Hrun. destruct (read_states (logged_provider <$> providers) (w, [])) as [s1 r1] eqn:Hst.
  apply read_states_log in Hst as [Hl1 Hst]. destruct s1 as [w1 log1]. cbn [fst snd] in Hl1, Hst. subst log1.
  destruct r1 as [states|e]; [|injection Hrun as _ <- _; by left].
  destruct (_common_workspace states) as [workspace|]; [|injection Hrun as _ <- _; by left].
  destruct (filter (λ s, gs_workspace_symbols_supported s = false) states); [|injection Hrun as _ <- _; by left].
  destruct (filter (λ s, gs_global_ready s = false) states); [|injection Hrun as _ <- _; by left].
  unfold py_bind in Hrun. destruct (search_all _ _ _ _ _ _ _ _ _ _ _ _ _) as [s2 r2] eqn:Hall. rewrite zip_logged in Hall.
  apply search_all_log in Hall as (calls & Hlog & Hcalls); [|lia]. cbn [snd app] in Hlog.
  right. exists p, w1, states, calls. split_and!; [done|lia|done| |].
  - destruct r2 as [[[r2 o2]|e]|e]; injection Hrun as -> _; done.
  - rewrite <-(zip_snd providers states) by (symmetry; by eapply read_states_length). by apply Forall2_fmap_l.
Qed.

(** Why an exact lookup cannot show an overload: the query is matched against the server's plain names and against the
    numbered segment of the name path. *)
Lemma exact_match_is_plain s p c :
  np_components p ≠ [] → _matches_name_path s p false = true → gc_name c = query p → _candidate_verifies_symbol c s = true →
  last (ns_path s) = Some (ns_name s).
Proof.
  intros Hne Hm Hq Hv. unfold _candidate_verifies_symbol in Hv. case_bool_decide as Hname; [done|].
  assert (gc_name c = ns_name s) as Heq by (destruct (decide (gc_name c = ns_name s)); done). clear Hname Hv.
  unfold _matches_name_path in Hm. case_bool_decide as Hlt; [done|]. destruct (np_absolute p && _); [done|].
  rewrite components_match_exact in Hm. apply bool_decide_eq_true in Hm.
  assert (last (drop (length (ns_path s) - length (np_components p)) (ns_path s)) = last (ns_path s)) as Hlast.
  { set (n := (length (ns_path s) - length (np_components p))%nat). rewrite <-(take_drop n (ns_path s)) at 2. rewrite last_app.
    destruct (last (drop n (ns_path s))) eqn:Hd; [done|]. apply last_None in Hd. by rewrite Hm in Hne. }
  rewrite <-Hlast, <-Hm. unfold query in Hq. destruct (last (np_components p)) as [x|] eqn:Hl; [|by apply last_None in Hl].
  cbn in Hq. congruence.
Qed.

Module GlobalExamples.
Import NormalizeExamples NavigationExamples.

Definition gens : GenerationMetadata :=
  {| gm_trust := Some 1; gm_program := Some 1; gm_document := None; gm_index := Some 1; gm_scope := None |}.
Definition program : ConfiguredProgramScope :=
  {| ps_paths := [lit "a.py"]; ps_project_kind := lit "configured"; ps_selected_config_path := None; ps_file_count := 1; ps_sha256 := [] |}.
Definition state : GlobalAdapterState (T := Z) :=
  {| gs_workspace := {| wm_root := lit "/w"; wm_kind := lit "git"; wm_working_subdirectory := lit "/w" |};
     gs_adapter := {| am_name := lit "pyright"; am_language := None |}; gs_generations := gens; gs_configured_program := program;
     gs_workspace_symbols_supported := true; gs_global_ready := true; gs_phase := lit "ready"; gs_retry_after_seconds := None |}.

(** The server's answer to a workspace query: the class, its two overloads and the function, by their plain names. *)
Definition candidate (name : string) (l : Z) : pyany :=
  PMapping [pstr "name" (PStr (lit name)); pstr "kind" (PInt 12);
            pstr "location" (PMapping [pstr "uri" (PStr (lit "file:///w/a.py")); pstr "range" (rng l l)])].
Definition provider : GlobalSymbolProvider (T := Z) (W := unit) :=
  {| global_symbol_state := py_ret state;
     workspace_symbols := λ _ _, py_ret {| wb_raw_candidates := [candidate "C" 0; candidate "f" 1; candidate "f" 4; candidate "g" 10];
                                           wb_generations := gens; wb_truncated := false; wb_omitted_count := 0 |};
     document_symbols := λ path uri, py_ret {| db_relative_path := path; db_uri := uri; db_raw_symbols := class_document;
        db_generations := gens; db_snapshot := blank; db_position_encoding := UTF16; db_normalize_name := None;
        db_recover_containment := None; db_body_completeness := None |} |}.

Definition seconds_of (z : Z) : pyfloat := {| pf_repr := dec z; pf_negative := bool_decide (z < 0) |}.
Definition lookup (name : string) (sub : bool) : unit * res nav_error ToolEnvelope :=
  global_find_symbol (λ _, []) parse_uri id (λ _, []) seconds_of [provider] (NameText (lit name)) sub false false 128 12000 tt.
Definition found_env (r : unit * res nav_error ToolEnvelope) : SuccessEnvelope :=
  match r.2 with
  | Ok (inl e) => e
  | _ => {| sv_data := JNull; sv_workspace := None; sv_adapter := None; sv_generations := None; sv_truncation := None |}
  end.
Definition shown_paths (r : unit * res nav_error ToolEnvelope) : list pystr :=
  match data_get (sv_data (found_env r)) "symbols" with Some (JList l) => (λ j, field_str j "name_path") <$> l | _ => [] end.

Lemma global_symbols_verified_witness :
  shown_paths (lookup "g" false) = [lit "g"] ∧ ∃ found states, each global_symbol_state [provider] tt states tt ∧
    verified_turns (λ _, []) parse_uri id (λ _, []) (gs_workspace state) {| np_components := [lit "g"]; np_absolute := false |} false false false 128
      (zip [provider] states) tt found tt.
Proof.
  split; [vm_compute; reflexivity|].
  destruct (global_symbols_verified (λ _, []) parse_uri id (λ _, []) seconds_of [provider] (NameText (lit "g")) false false false 128 12000
    tt tt (found_env (lookup "g" false)) ltac:(vm_compute; reflexivity)) as (p & [] & states & workspace & found & kept & Hp & Hst & Hall & Ht & _).
  exists found, states. split; [exact Hst|]. injection Hp as <-. destruct states as [|s rest]; [exfalso; inversion Hst|].
  apply Forall_cons in Hall as [(<- & _) _]. assert (state = s) as <- by (inversion Hst as [|? ? ? ? ? ? ? Hs]; by injection Hs). exact Ht.
Defined.

(** An exact global lookup never finds an overloaded symbol, whichever way it is named: the server reports both
    overloads of [C/f], and looking up [f], [C/f], [f[0]] or [C/f[0]] answers that there is no such symbol, although a
    lookup in the document finds [C/f[0]] and a global lookup by substring shows both. *)
Theorem exact_lookup_misses_overloads :
  Forall (λ name, match (lookup name false).2 with Ok (inr e) => er_code e = SYMBOL_NOT_FOUND | _ => False end)
    ["f"; "C/f"; "f[0]"; "C/f[0]"]%string ∧
  match Navigation.find_symbol (λ _, []) nav (NameText (lit "C/f[0]")) false false false 12000 None with Ok (inl _) => True | _ => False end ∧
  shown_paths (lookup "f" true) = [lit "C/f[0]"; lit "C/f[1]"].
Proof. split; [repeat constructor; vm_compute; reflexivity|]. split; [vm_compute; exact Logic.I|vm_compute; reflexivity]. Qed.
End GlobalExamples.
