(* ===== verification/CompactAdapter.v ===== *)
(** * The compact navigation adapter

    Model of [src/serena_light/tools/compact_adapter.py]: the one place where the
    rich answer of a navigation tool (overview, symbols, references, declarations
    and implementations) is turned into the compact schema and handed to the
    bounded renderers of [Compact].

    An answer enters as any Python value. The [AttributeError] of a value that is
    no mapping passes through; every other exception the body raises is a
    [TypeError], [ValueError] or [KeyError] and ends in the same malformed answer,
    so only whether it is raised matters, not its message. The operands
    [include_kinds] and [exclude_kinds] are sequences of strings. *)

From S2P Require Import Prelude Paths Json Envelopes LspState Positions Normalize Navigation Selection Compact.

Definition NAVIGATION_OPERATIONS : list pystr :=
  lit <$> ["get_symbols_overview"; "find_symbol"; "find_referencing_symbols"; "find_declaration"; "find_implementations"]%string.
Definition _MAX_ERROR_AUTHORITIES : nat := 2.
Definition _DEFAULT_SUPPRESSED_DESCENDANT_KINDS : list pystr := [lit "variable"; lit "constant"].
Definition _REFERENCE_COVERAGE_SAMPLE_LIMIT : nat := 16.
Definition _UNCOVERED_REASON_BY_SCOPE : list (pystr * pystr) :=
  [(lit "configured", lit "excluded_by_native_config");
   (lit "workspace_default", lit "omitted_by_engine_workspace_program")].

(** ** Typed access *)

(** [mapping.get(key)] and [key in mapping] *)
Definition item_get (v : pyany) (k : string) : pyany := default PNone (any_get v k).
Definition has_key (v : pyany) (k : string) : bool := match any_get v k with Some _ => true | None => false end.

Definition _mapping (value : pyany) : res compact_error pyany :=
  match value with PMapping m => Ok (PMapping m) | _ => Err BadPublicRange end.
Definition _sequence (value : pyany) : res compact_error (list pyany) :=
  match value with PSequence l => Ok l | _ => Err BadPublicRange end.
Definition _string (value : pyany) : res compact_error pystr :=
  match value with PStr s => _ ← ensure (nonempty s) EmptyString; Ok s | _ => Err BadPublicRange end.
Definition _optional_string (value : pyany) (allow_empty : bool) : res compact_error (option pystr) :=
  match value with
  | PNone => Ok None
  | PStr s => _ ← ensure (nonempty s || allow_empty) EmptyString; Ok (Some s)
  | _ => Err BadPublicRange
  end.
Definition _integer (value : pyany) : res compact_error Z :=
  match value with PInt z => Ok z | _ => Err BadPublicRange end.
Definition _nonnegative_integer (value : pyany) : res compact_error Z :=
  z ← _integer value; _ ← ensure (bool_decide (0 ≤ z)) NegativeOmitted; Ok z.
Definition _optional_integer (value : pyany) : res compact_error (option Z) :=
  match value with PNone => Ok None | _ => z ← _integer value; Ok (Some z) end.
Definition _optional_nonnegative_integer (value : pyany) : res compact_error (option Z) :=
  match value with PNone => Ok None | _ => z ← _nonnegative_integer value; Ok (Some z) end.
Definition _optional_bool (value : pyany) : res compact_error (option bool) :=
  match value with PNone => Ok None | PBool b => Ok (Some b) | _ => Err BadPublicRange end.

Definition _compact_info (value : pyany) : res compact_error (option pystr) :=
  match value with
  | PStr s => Ok (Some s)
  | PMapping _ => Ok (match item_get value "detail" with
                      | PStr detail => if nonempty detail then Some detail else None
                      | _ => None
                      end)
  | PNone => Ok None
  | _ => Err BadPublicRange
  end.

Definition _internal_omitted (envelope : pyany) : res compact_error Z :=
  match item_get envelope "truncation" with
  | PNone => Ok 0
  | truncation =>
      t ← _mapping truncation;
      _nonnegative_integer (default (PInt 0) (any_get t "omitted_count"))
  end.

(** ** Metadata *)

Definition _workspace_metadata (value : pyany) : res compact_error (option WorkspaceMetadata) :=
  match value with
  | PNone => Ok None
  | _ =>
      workspace ← _mapping value;
      root ← _string (item_get workspace "root");
      kind ← _string (item_get workspace "kind");
      sub ← _string (item_get workspace "working_subdirectory");
      w ← lift_envelope (workspace_metadata_init root kind sub);
      Ok (Some w)
  end.

Definition _adapter_metadata (value : pyany) : res compact_error (option AdapterMetadata) :=
  match value with
  | PNone => Ok None
  | _ =>
      adapter ← _mapping value;
      name ← _string (item_get adapter "name");
      language ← _optional_string (item_get adapter "language") false;
      Ok (Some {| am_name := name; am_language := language |})
  end.

Definition _generation_metadata (value : pyany) : res compact_error (option GenerationMetadata) :=
  match value with
  | PNone => Ok None
  | _ =>
      generations ← _mapping value;
      trust ← _optional_nonnegative_integer (item_get generations "trust");
      program ← _optional_nonnegative_integer (item_get generations "program");
      document ← _optional_nonnegative_integer (item_get generations "document");
      index ← _optional_nonnegative_integer (item_get generations "index");
      scope ← _optional_string (item_get generations "scope") false;
      g ← lift_envelope (generation_metadata_init trust program document index scope);
      Ok (Some g)
  end.

Definition _adapter_language (envelope : pyany) : res compact_error (option pystr) :=
  match item_get envelope "adapter" with
  | PMapping m => _optional_string (item_get (PMapping m) "language") false
  | _ => Ok None
  end.

(** The authority of one item of a global answer, if it has both parts. *)
Definition authority_key : Type := pystr * pystr * Z * Z * Z * Z * pystr.

Definition item_authority (raw : pyany) : option (authority_key * json) :=
  match raw with
  | PMapping _ =>
      match _adapter_metadata (item_get raw "adapter"), _generation_metadata (item_get raw "generations") with
      | Ok (Some a), Ok (Some g) =>
          Some ((am_name a, default [] (am_language a), default (-1) (gm_trust g), default (-1) (gm_program g),
                 default (-1) (gm_document g), default (-1) (gm_index g), default [] (gm_scope g)),
                JObj [(lit "adapter", adapter_dict a); (lit "generations", generation_dict g)])
      | _, _ => None
      end
  | _ => None
  end.

Definition _symbol_authorities (data : pyany) : res compact_error (list json) :=
  symbols ← _sequence (item_get data "symbols");
  let authorities := fold_left (λ d kv, dict_set d kv.1 kv.2) (omap item_authority symbols) [] in
  Ok ((take _MAX_ERROR_AUTHORITIES (py_sorted fst authorities)).*2).

(** ** Overviews *)

(** Whether a symbol of this kind is itself shown. *)
Definition overview_matches (included excluded : list pystr) (max_depth : Z) (is_root : bool) (kind : Z) : bool :=
  let rendered_kind := symbol_kind kind in
  let suppressed_descendant_noise :=
    bool_decide (0 < max_depth) && negb is_root && bool_decide (rendered_kind ∈ _DEFAULT_SUPPRESSED_DESCENDANT_KINDS) &&
    bool_decide (rendered_kind ∉ included) in
  negb suppressed_descendant_noise && (negb (nonempty included) || bool_decide (rendered_kind ∈ included)) &&
  bool_decide (rendered_kind ∉ excluded).

(** [_overview_symbol] of a value that may not be a mapping: [_mapping] of the
    caller comes first. The inner function looks up ["children"], where the key
    is missing there are none. *)
Fixpoint _overview_symbol (included excluded : list pystr) (max_depth : Z) (is_root : bool) (raw : pyany)
    : res compact_error (option CompactOverviewSymbol) :=
  match raw with
  | PMapping items =>
      name ← _string (item_get raw "name");
      kind ← _integer (item_get raw "kind");
      children ← (fix find_children (l : list (option pystr * pyany)) : res compact_error (list CompactOverviewSymbol) :=
        match l with
        | [] => Ok []
        | (k, v) :: l =>
            if decide (Some (lit "children") = k) then
              match v with
              | PSequence raw_children =>
                  (fix go (cs : list pyany) : res compact_error (list CompactOverviewSymbol) :=
                    match cs with
                    | [] => Ok []
                    | c :: cs =>
                        rendered ← _overview_symbol included excluded max_depth false c;
                        rest ← go cs;
                        Ok (match rendered with Some s => s :: rest | None => rest end)
                    end) raw_children
              | _ => Err BadPublicRange
              end
            else find_children l
        end) items;
      let matches := overview_matches included excluded max_depth is_root kind in
      if matches || nonempty children then s ← overview_init name kind children matches; Ok (Some s)
      else Ok None
  | _ => Err BadPublicRange
  end.

Definition _overview_files (data : pyany) (included excluded : list pystr) (max_depth : Z)
    : res compact_error (list CompactFile) :=
  path ← _string (item_get data "relative_path");
  raw_symbols ← _sequence (item_get data "symbols");
  symbols ← map_res (_overview_symbol included excluded max_depth true) raw_symbols;
  match omap id symbols with
  | [] => Ok []
  | shown => f ← file_init path SYMBOLS (ROverview <$> shown) None None None; Ok [f]
  end.

(** ** Records *)

Definition coordinates : Type := option CompactRange * option CompactRange * option pystr.

Definition _coordinates (value : pyany) : res compact_error coordinates :=
  if has_key value "basis" then r ← compact_raw_lsp_range value; Ok (None, Some r.1, Some r.2)
  else r ← compact_range value; Ok (Some r, None, None).

Definition _target_coordinates (value : pyany) : res compact_error coordinates :=
  if has_key value "range" then range ← _mapping (item_get value "range"); r ← compact_range range; Ok (Some r, None, None)
  else raw ← _mapping (item_get value "raw_lsp_range"); r ← compact_raw_lsp_range raw; Ok (None, Some r.1, Some r.2).

(** A raw symbol with its path, digest and language. *)
Definition raw_item : Type := pyany * pystr * option pystr * option pystr.

Definition located_item (symbol owner : pyany) (language : option pystr) : res compact_error raw_item :=
  path ← _string (item_get owner "relative_path");
  sha ← _optional_string (item_get owner "sha256") false;
  Ok (symbol, path, sha, language).

Definition symbols_item (default_language : option pystr) (raw : pyany) : res compact_error raw_item :=
  item ← _mapping raw;
  if has_key item "symbol" then symbol ← _mapping (item_get item "symbol"); located_item symbol item default_language
  else
    language ← match item_get item "adapter" with PMapping _ => _adapter_language item | _ => Ok default_language end;
    located_item item item language.

Definition raw_items (data envelope : pyany) : res compact_error (list raw_item) :=
  default_language ← _adapter_language envelope;
  if has_key data "symbol" then
    symbol ← _mapping (item_get data "symbol"); i ← located_item symbol data default_language; Ok [i]
  else symbols ← _sequence (item_get data "symbols"); map_res (symbols_item default_language) symbols.

Definition symbol_range (item : pyany) : res compact_error pyany :=
  match item_get item "location" with
  | PNone => _mapping (item_get item "range")
  | location => l ← _mapping location; _mapping (item_get l "range")
  end.

Definition symbol_record (i : raw_item) : res compact_error LocatedCompactRecord :=
  let '(item, path, sha, language) := i in
  range_value ← symbol_range item;
  body ← _optional_string (item_get item "body") true;
  info ← _compact_info (item_get item "info");
  name_path ← _string (item_get item "name_path");
  kind ← _integer (item_get item "kind");
  range ← compact_range range_value;
  m ← symbol_match_init {| sm_name_path := name_path; sm_kind := kind; sm_range := range; sm_body := body; sm_info := info |};
  located_init path (FSymbol m) language None (match body with Some _ => sha | None => None end).

(** The recovery of an answer with one symbol and its body. *)
Definition exact_recovery (items : list raw_item) (records : list LocatedCompactRecord) : res compact_error (option ExactBodyRecovery) :=
  match items, records with
  | [(item, _, _, _)], [i] =>
      match lr_record i with
      | FSymbol m =>
          match sm_body m with
          | Some _ =>
              match item_get item "has_children" with
              | PNone => Ok None
              | PBool b => r ← recovery_init b (lr_path i) (sm_name_path m); Ok (Some r)
              | _ => Err BadPublicRange
              end
          | None => Ok None
          end
      | _ => Ok None
      end
  | _, _ => Ok None
  end.

Definition _symbol_records (data envelope : pyany) : res compact_error (list LocatedCompactRecord * option ExactBodyRecovery) :=
  items ← raw_items data envelope;
  records ← map_res symbol_record items;
  recovery ← exact_recovery items records;
  Ok (records, recovery).

Definition reference_record (include_snippets : bool) (raw : pyany) : res compact_error LocatedCompactRecord :=
  item ← _mapping raw;
  location ← _mapping (item_get item "location");
  c ← _coordinates location;
  container ← _mapping (item_get item "container");
  symbol ← _optional_string (item_get container "name_path") false;
  snippet ← (if include_snippets then _optional_string (item_get item "snippet") true else Ok None);
  r ← reference_init {| rf_range := c.1.1; rf_symbol := symbol; rf_snippet := snippet; rf_raw_range := c.1.2;
                        rf_position_basis := c.2 |};
  path ← _string (item_get item "path");
  read_only ← _optional_bool (item_get item "read_only_external");
  located_init path (FReference r) None read_only None.

Definition _reference_records (data : pyany) (include_snippets : bool) : res compact_error (list LocatedCompactRecord) :=
  references ← _sequence (item_get data "references");
  map_res (reference_record include_snippets) references.

Definition target_record (raw : pyany) : res compact_error LocatedCompactRecord :=
  item ← _mapping raw;
  let path := match item_get item "relative_path" with PNone => item_get item "absolute_path" | p => p end in
  let read_only := match item_get item "read_only_external" with PBool true => Some true | _ => None end in
  c ← _target_coordinates item;
  body ← _optional_string (item_get item "body") true;
  name_path ← _optional_string (item_get item "name_path") false;
  kind ← _optional_integer (item_get item "kind");
  info ← _compact_info (item_get item "info");
  t ← target_init {| tg_range := c.1.1; tg_name_path := name_path; tg_kind := kind; tg_body := body; tg_info := info;
                     tg_raw_range := c.1.2; tg_position_basis := c.2 |};
  path ← _string path;
  sha ← match body with Some _ => _optional_string (item_get item "sha256") false | None => Ok None end;
  located_init path (FTarget t) None read_only sha.

Definition _target_records (data : pyany) : res compact_error (list LocatedCompactRecord) :=
  locations ← _sequence (item_get data "locations");
  map_res target_record locations.

(** ** Coverage of a reference answer *)

Definition _uncovered_reason (raw : pyany) : res compact_error pystr :=
  scope_kind ← _string (item_get raw "scope_kind");
  match dict_get _UNCOVERED_REASON_BY_SCOPE scope_kind with Some reason => Ok reason | None => Err BadCoverage end.

Definition evidence_of (reason : pystr) (value : pyany) : res compact_error (pystr * pystr) :=
  match value with
  | PStr _ => path ← _string value; Ok (path, reason)
  | _ =>
      item ← _mapping value;
      path ← _string (item_get item "path");
      item_reason ← _string (item_get item "reason");
      Ok (path, item_reason)
  end.

Definition _compact_reference_coverage (raw : pyany) : res compact_error json :=
  uncovered_files ← _nonnegative_integer (item_get raw "uncovered_files");
  if bool_decide (uncovered_files = 0) then Ok (JObj [(lit "complete", JBool true)])
  else
    sample ← _mapping (item_get raw "uncovered_sample");
    total ← _nonnegative_integer (item_get sample "total");
    _ ← ensure (bool_decide (total = uncovered_files)) BadCoverage;
    reason ← _uncovered_reason raw;
    items ← _sequence (item_get sample "items");
    evidence ← map_res (evidence_of reason) items;
    _ ← ensure (bool_decide (Z.of_nat (length evidence) ≤ uncovered_files)) BadCoverage;
    _ ← ensure (nonempty evidence) BadCoverage;
    sample_omitted ← _nonnegative_integer (item_get sample "omitted");
    _ ← ensure (bool_decide (sample_omitted = uncovered_files - Z.of_nat (length evidence))) BadCoverage;
    _ ← ensure (bool_decide (length (remove_dups evidence) = length evidence)) BadCoverage;
    let retained := take _REFERENCE_COVERAGE_SAMPLE_LIMIT (py_sorted id evidence) in
    Ok (JObj [(lit "complete", JBool false); (lit "uncovered_files", JInt uncovered_files);
              (lit "sample", JList ((λ pr, JObj [(lit "path", JStr pr.1); (lit "reason", JStr pr.2)]) <$> retained));
              (lit "omitted", JInt (uncovered_files - Z.of_nat (length retained)))]).

(** ** The answer *)

(** [_bound_malformed_navigation_error] on the parts of the payload. *)
Definition _bound_malformed_navigation_error (details rest : list (pystr * json)) (budget : Z) : res compact_error json :=
  let mk d r := error_payload JNull UNSUPPORTED d r in
  if bool_decide (text_size (mk details rest) ≤ budget) then Ok (mk details rest)
  else
    match shed_fields (mk details) rest [lit "workspace"; lit "adapter"; lit "generations"] budget with
    | (Some p, _) => Ok p
    | (None, rest') =>
        let details' := dict_del details (lit "authorities") in
        if bool_decide (text_size (mk details' rest') ≤ budget) then Ok (mk details' rest')
        else
          let details'' := dict_del details' (lit "tool") in
          if bool_decide (text_size (mk details'' rest') ≤ budget) then Ok (mk details'' rest')
          else Err BudgetErrorTooLarge
    end.

Definition _malformed_result (operation : pystr) (w : option WorkspaceMetadata) (a : option AdapterMetadata)
    (g : option GenerationMetadata) (authorities : list json) (max_answer_chars : Z) : res compact_error CallToolResult :=
  budget ← validate_max_answer_chars (PInt max_answer_chars);
  let details := [(lit "tool", JStr operation); (lit "reason", JStr (lit "malformed_navigation_success"))] ++
                 match authorities with [] => [] | _ => [(lit "authorities", JList authorities)] end in
  envelope ← lift_envelope (error UNSUPPORTED None (Some (any_of_json (JObj details))) w a g);
  match error_dict envelope, er_details envelope with
  | JObj (_ :: _ :: rest), JObj ds =>
      payload ← _bound_malformed_navigation_error ds rest budget; Ok (render_payload payload)
  | _, _ => Err (EnvelopeFailed DetailsNotMapping)
  end.

Section compact_navigation.
Context (sha256_utf8 : pystr → pystr).

(** The part of the body after the metadata is read, for each kind of
    operation: the authorities to name in an error, and the outcome. *)
Definition overview_outcome (envelope data : pyany) (w : WorkspaceMetadata) (ctx : error_context) (budget : Z)
    (include_kinds exclude_kinds : option (list pystr)) : option (res compact_error CallToolResult) :=
  match (kinds ← validate_overview_kind_filters include_kinds exclude_kinds;
         max_depth ← _nonnegative_integer (default (PInt 0) (any_get data "max_depth"));
         files ← _overview_files data kinds.1 kinds.2 max_depth;
         omitted ← _internal_omitted envelope;
         Ok (files, omitted)) with
  | Err e => Some (Err e)
  | Ok (files, omitted) => render_bounded_overview sha256_utf8 (wm_root w) files (PInt budget) omitted ctx
  end.

(** [error_authorities] after its assignment, or the exception it raised. *)
Definition error_authorities (data : pyany) (ctx : error_context) : res compact_error (list json) :=
  match ex_adapter ctx, ex_generations ctx with
  | Some _, Some _ => Ok []
  | _, _ => _symbol_authorities data
  end.

Definition with_authorities (ctx : error_context) (authorities : list json) : error_context :=
  {| ex_workspace := ex_workspace ctx; ex_adapter := ex_adapter ctx; ex_generations := ex_generations ctx;
     ex_authorities := any_of_json <$> authorities |}.

Definition symbol_outcome (envelope data : pyany) (w : WorkspaceMetadata) (ctx : error_context) (budget limit : Z)
    (authorities : list json) : res compact_error CallToolResult :=
  omitted ← _internal_omitted envelope;
  found ← _symbol_records data envelope;
  let ordered := ordered_records found.1 in
  render_bounded_records sha256_utf8 (wm_root w) (take (Z.to_nat limit) ordered) (PInt budget)
    (omitted + (0 `max` (Z.of_nat (length ordered) - limit))) None (with_authorities ctx authorities) found.2.

Definition reference_outcome (envelope data : pyany) (w : WorkspaceMetadata) (ctx : error_context) (budget : Z)
    (include_snippets : bool) : res compact_error CallToolResult :=
  omitted ← _internal_omitted envelope;
  records ← _reference_records data include_snippets;
  raw_coverage ← _mapping (item_get data "coverage");
  coverage ← _compact_reference_coverage raw_coverage;
  render_bounded_records sha256_utf8 (wm_root w) records (PInt budget) omitted (Some (any_of_json coverage)) ctx None.

Definition target_outcome (envelope data : pyany) (w : WorkspaceMetadata) (ctx : error_context) (budget : Z)
    : res compact_error CallToolResult :=
  omitted ← _internal_omitted envelope;
  records ← _target_records data;
  render_bounded_records sha256_utf8 (wm_root w) records (PInt budget) omitted None ctx None.

Definition navigation_outcome (operation : pystr) (envelope : pyany) (w : WorkspaceMetadata) (ctx : error_context)
    (budget limit : Z) (include_kinds exclude_kinds : option (list pystr)) (include_snippets : bool)
    : list json * option (res compact_error CallToolResult) :=
  match _mapping (item_get envelope "data") with
  | Err e => ([], Some (Err e))
  | Ok data =>
      if bool_decide (operation = lit "get_symbols_overview")
      then ([], overview_outcome envelope data w ctx budget include_kinds exclude_kinds)
      else if bool_decide (operation = lit "find_symbol") then
        match _internal_omitted envelope, error_authorities data ctx with
        | Ok _, Ok authorities => (authorities, Some (symbol_outcome envelope data w ctx budget limit authorities))
        | Err e, _ | _, Err e => ([], Some (Err e))
        end
      else if bool_decide (operation = lit "find_referencing_symbols")
      then ([], Some (reference_outcome envelope data w ctx budget include_snippets))
      else ([], Some (target_outcome envelope data w ctx budget))
  end.

Definition or_none {E A} (r : res E (option A)) : option A := match r with Ok x => x | Err _ => None end.

(** What can leave the function: an exception of the compact schema is caught, that of [envelope.get] on a value that is not
    a mapping is not. *)
Inductive adapter_exn := AttributeError | CompactError (e : compact_error).

Definition returned (r : res compact_error CallToolResult) : option (res adapter_exn CallToolResult) :=
  Some (match r with Ok r => Ok r | Err e => Err (CompactError e) end).

Definition compact_navigation_result (operation : pystr) (envelope : pyany) (max_answer_chars max_matches : pyany)
    (include_kinds exclude_kinds : option (list pystr)) (include_snippets : bool)
    : option (res adapter_exn CallToolResult) :=
  match validate_max_answer_chars max_answer_chars with
  | Err _ => returned (_malformed_result operation None None None [] DEFAULT_MAX_ANSWER_CHARS)
  | Ok budget =>
      match validate_max_matches max_matches with
      | Err _ => returned (_malformed_result operation None None None [] budget)
      | Ok limit =>
          if bool_decide (operation ∉ NAVIGATION_OPERATIONS) then returned (_malformed_result operation None None None [] budget)
          else match envelope with
          | PMapping _ =>
              if negb (match item_get envelope "ok" with PBool true => true | _ => false end)
              then returned (_malformed_result operation None None None [] budget)
              else
                let workspace := _workspace_metadata (item_get envelope "workspace") in
                let adapter := _adapter_metadata (item_get envelope "adapter") in
                let generations := _generation_metadata (item_get envelope "generations") in
                let malformed := _malformed_result operation (or_none workspace) (or_none adapter) (or_none generations) in
                match workspace, adapter, generations with
                | Ok (Some w), Ok a, Ok g =>
                    let ctx := {| ex_workspace := Some w; ex_adapter := a; ex_generations := g; ex_authorities := [] |} in
                    match navigation_outcome operation envelope w ctx budget limit include_kinds exclude_kinds include_snippets with
                    | (_, None) => None
                    | (_, Some (Ok r)) => Some (Ok r)
                    | (authorities, Some (Err _)) => returned (malformed authorities budget)
                    end
                | _, _, _ => returned (malformed [] budget)
                end
          | _ => Some (Err AttributeError)
          end
      end
  end.
End compact_navigation.

(** ** Every call answers within its budget *)

Lemma loop_result_fits sha workspace ordered budget omitted coverage n r :
  loop_result sha workspace ordered budget omitted coverage n r → fits budget r.
Proof. by destruct 1 as [m s _ _ _ Hle -> _|]; [split|]. Qed.

Lemma bounded_records_fit sha workspace records budget omitted coverage ctx recovery r :
  render_bounded_records sha workspace records (PInt budget) omitted coverage ctx recovery = Ok r → fits budget r.
Proof.
  unfold render_bounded_records. intros (b & Hb & H)%res_bind_Ok. apply res_bind_Ok in H as ([] & _ & H).
  cbn in Hb. case_bool_decide; [injection Hb as <-|done]. apply records_loop_spec in H; [|done].
  by eapply loop_result_fits.
Qed.

(** The pruning loop of an overview ends, whatever the files, because every pass removes a node. *)
Lemma overview_loop_ends sha workspace original budget omitted ctx fuel : ∀ retained removed,
  (files_node_count retained < fuel)%nat →
  ∃ o, overview_loop sha fuel workspace original retained removed budget omitted ctx = Some o ∧
       ∀ r, o = Ok r → fits budget r.
Proof.
  induction fuel as [|fuel IH]; intros retained removed Hfuel; [lia|]. cbn [overview_loop].
  destruct (_ && _).
  { eexists. split; [reflexivity|]. intros r (m & _ & H)%res_bind_Ok. by eapply minimum_result_fits. }
  destruct (navigation_success_init _ _ _ _) as [s|e]; [|by eexists].
  case_bool_decide; [eexists; split; [reflexivity|]; by intros r [= <-]|].
  pose proof (remove_last_overview_prunes retained) as Hprune.
  destruct (_remove_last_overview_node retained) as [retained' [|k]].
  - eexists. split; [reflexivity|]. intros r Hr. by eapply minimum_result_fits.
  - apply IH. destruct Hprune as [(tail & Heq & Hlen & _) _].
    rewrite <-files_preorder_length, Heq, length_app, files_preorder_length in Hfuel. lia.
Qed.

Lemma bounded_overview_ends sha workspace files budget omitted ctx :
  ∃ o, render_bounded_overview sha workspace files (PInt budget) omitted ctx = Some o ∧ ∀ r, o = Ok r → fits budget r.
Proof.
  unfold render_bounded_overview. cbn [validate_max_answer_chars]. case_bool_decide; [|by eexists].
  case_bool_decide; [by eexists|]. destruct (_validated_overview_files files) as [original|]; [|by eexists].
  apply overview_loop_ends. lia.
Qed.

Lemma navigation_outcome_ends sha operation envelope w ctx budget limit inc exc snippets :
  ∃ o, (navigation_outcome sha operation envelope w ctx budget limit inc exc snippets).2 = Some o ∧ ∀ r, o = Ok r → fits budget r.
Proof.
  unfold navigation_outcome. destruct (_mapping _) as [data|]; [|by eexists].
  case_bool_decide as Hop1.
  { cbn [snd]. unfold overview_outcome. destruct (_ ≫= _) as [[files omitted]|]; [apply bounded_overview_ends|by eexists]. }
  case_bool_decide as Hop2.
  { destruct (_internal_omitted envelope); [|by eexists]. destruct (error_authorities data ctx) as [l|]; [|by eexists].
    eexists. split; [reflexivity|]. unfold symbol_outcome. intros r (z & _ & H)%res_bind_Ok.
    apply res_bind_Ok in H as ([records recovery] & _ & H). by eapply bounded_records_fit. }
  case_bool_decide as Hop3; eexists; (split; [reflexivity|]); intros r; unfold reference_outcome, target_outcome;
    intros (z & _ & H)%res_bind_Ok; apply res_bind_Ok in H as (records & _ & H).
  - apply res_bind_Ok in H as (raw & _ & H). apply res_bind_Ok in H as (c & _ & H). by eapply bounded_records_fit.
  - by eapply bounded_records_fit.
Qed.

(** The smallest malformed answer. *)
Lemma malformed_core_size :
  text_size (error_payload JNull UNSUPPORTED [(lit "reason", JStr (lit "malformed_navigation_success"))] []) ≤ MIN_MAX_ANSWER_CHARS.
Proof. by vm_compute. Qed.

Lemma bound_malformed_total operation authorities w a g budget :
  MIN_MAX_ANSWER_CHARS ≤ budget →
  ∃ p, _bound_malformed_navigation_error
         ([(lit "tool", JStr operation); (lit "reason", JStr (lit "malformed_navigation_success"))] ++ entry "authorities" authorities)
         (entry "workspace" w ++ entry "adapter" a ++ entry "generations" g) budget = Ok p ∧ text_size p ≤ budget.
Proof.
  intros Hb. unfold _bound_malformed_navigation_error. case_bool_decide; [by eexists|].
  destruct (shed_fields _ _ _ _) as [[p|] rest'] eqn:Hs.
  { eexists. split; [reflexivity|]. by eapply shed_fields_fits. }
  apply shed_fields_all in Hs as ->; [|done].
  assert (dict_del ([(lit "tool", JStr operation); (lit "reason", JStr (lit "malformed_navigation_success"))] ++
    entry "authorities" authorities) (lit "authorities") =
    [(lit "tool", JStr operation); (lit "reason", JStr (lit "malformed_navigation_success"))]) as -> by (by destruct authorities).
  case_bool_decide; [by eexists|].
  change (dict_del _ (lit "tool")) with [(lit "reason", JStr (lit "malformed_navigation_success"))].
  rewrite bool_decide_eq_true_2; [|pose proof malformed_core_size; lia].
  eexists. split; [reflexivity|]. pose proof malformed_core_size. lia.
Qed.

Lemma authorities_clean data authorities : _symbol_authorities data = Ok authorities → keys_clean (JList authorities).
Proof.
  unfold _symbol_authorities. intros (symbols & _ & [= <-])%res_bind_Ok.
  assert (∀ d, Forall (λ kv : authority_key * json, keys_clean kv.2) d →
    Forall (λ kv, keys_clean kv.2) (fold_left (λ d kv, dict_set d kv.1 kv.2) (omap item_authority symbols) d)) as Hfold.
  { induction symbols as [|raw symbols IH]; intros d Hd; csimpl; [done|].
    destruct (item_authority raw) as [[k j]|] eqn:Hj; [|by apply IH]. cbn [fold_left fst snd]. apply IH.
    rewrite Forall_forall in Hd |- *. intros x [->|Hx]%dict_set_elem_inv; [|by apply Hd].
    unfold item_authority in Hj. destruct raw; try done.
    destruct (_adapter_metadata _) as [[a|]|]; try done. destruct (_generation_metadata _) as [[g|]|]; try done. injection Hj as _ <-.
    cbn [snd]. destruct a as [? [?|]], g as [[?|] [?|] [?|] [?|] [?|]]; by vm_compute. }
  specialize (Hfold [] ltac:(constructor)). set (l := fold_left _ _ _) in *. clearbody l.
  assert (Forall (λ kv, keys_clean kv.2) (take _MAX_ERROR_AUTHORITIES (py_sorted fst l))) as H.
  { rewrite Forall_forall in Hfold |- *. intros x Hx. apply Hfold. rewrite <-(elem_of_py_sorted fst).
    eapply elem_of_sublist; [exact Hx|apply sublist_take]. }
  clear Hfold. induction H; csimpl; [done|]. split; [done|]. exact IHForall.
Qed.

Lemma malformed_total operation w a g authorities budget :
  MIN_MAX_ANSWER_CHARS ≤ budget ≤ MAX_MAX_ANSWER_CHARS → keys_clean (JList authorities) →
  ∃ r, _malformed_result operation w a g authorities budget = Ok r ∧ fits budget r.
Proof.
  intros Hb Hclean. unfold _malformed_result. cbn [validate_max_answer_chars].
  rewrite bool_decide_eq_true_2 by done. cbn [mbind res_bind].
  destruct (bound_malformed_total operation (match authorities with [] => None | _ => Some (JList authorities) end)
    (workspace_dict <$> w) (adapter_dict <$> a) (generation_dict <$> g) budget) as (p & Hp & Hfit); [lia|].
  assert (entry "authorities" (match authorities with [] => None | _ => Some (JList authorities) end) =
    match authorities with [] => [] | _ => [(lit "authorities", JList authorities)] end) as He by (by destruct authorities).
  rewrite He in Hp. rewrite error_clean by (destruct authorities; split_and!; by vm_compute || done).
  cbn [lift_envelope mbind res_bind er_details error_dict app]. 
  cbn [er_workspace er_adapter er_generations]. cbn [app] in Hp. rewrite Hp. cbn [mbind res_bind].
  eexists. split; [reflexivity|]. by split.
Qed.

(** The budget a call answers within. *)
Definition answer_budget (max_answer_chars : pyany) : Z :=
  match validate_max_answer_chars max_answer_chars with Ok b => b | Err _ => DEFAULT_MAX_ANSWER_CHARS end.

Lemma outcome_authorities sha operation envelope w ctx budget limit inc exc snippets :
  keys_clean (JList (navigation_outcome sha operation envelope w ctx budget limit inc exc snippets).1).
Proof.
  unfold navigation_outcome. destruct (_mapping _) as [data|]; [|done].
  case_bool_decide; [done|]. case_bool_decide; [|by case_bool_decide].
  destruct (_internal_omitted envelope); [|done]. destruct (error_authorities data ctx) as [l|] eqn:Hl; [|done].
  cbn [fst]. unfold error_authorities in Hl.
  destruct (ex_adapter ctx), (ex_generations ctx); try (by injection Hl as <-); by eapply authorities_clean.
Qed.

(** ** Overview filters *)

Definition overview_children (included excluded : list pystr) (max_depth : Z) (raw : pyany)
    : res compact_error (list CompactOverviewSymbol) :=
  match any_get raw "children" with
  | None => Ok []
  | Some (PSequence cs) =>
      match map_res (_overview_symbol included excluded max_depth false) cs with Ok rs => Ok (omap id rs) | Err e => Err e end
  | Some _ => Err BadPublicRange
  end.

Lemma overview_symbol_unfold included excluded max_depth is_root items :
  _overview_symbol included excluded max_depth is_root (PMapping items) =
  (name ← _string (item_get (PMapping items) "name");
   kind ← _integer (item_get (PMapping items) "kind");
   children ← overview_children included excluded max_depth (PMapping items);
   let matches := overview_matches included excluded max_depth is_root kind in
   if matches || nonempty children then s ← overview_init name kind children matches; Ok (Some s) else Ok None).
Proof.
  cbn [_overview_symbol]. destruct (_string _) as [name|]; [|done]. cbn [mbind res_bind].
  destruct (_integer _) as [kind|]; [|done]. cbn [mbind res_bind].
  f_equal.
  set (find := fix find_children (l : list (option pystr * pyany)) := match l with [] => _ | _ :: _ => _ end).
  unfold overview_children. cbn [any_get]. induction items as [|[k v] items IH]; [done|].
  cbn [dict_get find]. case_decide; [|exact IH]. destruct v as [| | | | | | |cs|]; try done.
  clear. induction cs as [|c cs IH]; [done|]. cbn [map_res mbind res_bind].
  destruct (_overview_symbol _ _ _ _ c) as [o|]; [|done]. rewrite IH. cbn [mbind res_bind].
  destruct (map_res _ cs) as [rs|]; [|done]. by destruct o.
Qed.

Lemma unfiltered_matches is_root kind : overview_matches [] [] 0 is_root kind = true.
Proof. unfold overview_matches. by rewrite !(bool_decide_eq_true_2 (_ ∉ [])) by apply not_elem_of_nil. Qed.

Lemma unfiltered_some is_root raw o : _overview_symbol [] [] 0 is_root raw = Ok o → ∃ t, o = Some t.
Proof.
  destruct raw as [| | | | | |items| |]; try done. rewrite overview_symbol_unfold.
  intros (name & _ & H)%res_bind_Ok. apply res_bind_Ok in H as (kind & _ & H). apply res_bind_Ok in H as (cs & _ & H).
  cbv zeta in H. rewrite unfiltered_matches in H. cbn [orb] in H. apply res_bind_Ok in H as (s & _ & [= <-]). by eexists.
Qed.

(** The chain of names from the root to each node a tree marks as a match, in the order they are shown. *)
Fixpoint shown_matches (above : list pystr) (t : CompactOverviewSymbol) : list (list pystr) :=
  match t with
  | Overview name kind children im =>
      (if im then [above ++ [name]] else []) ++ concat (shown_matches (above ++ [name]) <$> children)
  end.

(** The same for the nodes whose kind a predicate admits at the root and below it. *)
Fixpoint admitted (P : bool → Z → bool) (is_root : bool) (above : list pystr) (t : CompactOverviewSymbol) : list (list pystr) :=
  match t with
  | Overview name kind children _ =>
      (if P is_root kind then [above ++ [name]] else []) ++ concat (admitted P false (above ++ [name]) <$> children)
  end.

(** What a filter makes of a symbol whose unfiltered tree is [t]. *)
Definition filters_to (P : bool → Z → bool) (is_root : bool) (t : CompactOverviewSymbol) (o : option CompactOverviewSymbol) : Prop :=
  (∀ above, from_option (shown_matches above) [] o = admitted P is_root above t) ∧ from_option structural_ok True o.

Lemma structural_shows s : structural_ok s → ∀ above, shown_matches above s ≠ [].
Proof.
  induction s as [name kind children im IH] using overview_induction. cbn [structural_ok shown_matches].
  intros [Hst Hc%structural_children] above. destruct im; [done|]. cbn [app]. specialize (Hst eq_refl).
  destruct children as [|c cs]; [done|]. apply Forall_cons in IH as [IH _]. apply Forall_cons in Hc as [Hc _].
  csimpl. specialize (IH Hc (above ++ [name])). by destruct (shown_matches (above ++ [name]) c).
Qed.

Lemma children_filter P ts os :
  Forall2 (filters_to P false) ts os →
  (∀ above, concat (shown_matches above <$> omap id os) = concat (admitted P false above <$> ts)) ∧ Forall structural_ok (omap id os).
Proof.
  induction 1 as [|t o ts os [Hs Hst] _ [IH IHst]]; [by split; [|constructor]|]. split.
  - intros above. csimpl. rewrite <-IH, <-(Hs above). by destruct o.
  - csimpl. destruct o; [by constructor|done].
Qed.

(** A child that is read without a filter is read with one. *)
Definition filterable (inc exc : list pystr) (depth : Z) (raw : pyany) : Prop :=
  ∀ is_root t, _overview_symbol [] [] 0 is_root raw = Ok (Some t) →
  ∃ o, _overview_symbol inc exc depth is_root raw = Ok o ∧ filters_to (overview_matches inc exc depth) is_root t o.

Lemma overview_children_filter inc exc depth cs rs :
  Forall (filterable inc exc depth) cs → map_res (_overview_symbol [] [] 0 false) cs = Ok rs →
  ∃ os, map_res (_overview_symbol inc exc depth false) cs = Ok os ∧
        Forall2 (filters_to (overview_matches inc exc depth) false) (omap id rs) os.
Proof.
  intros Hcs. revert rs. induction Hcs as [|c cs Hc _ IH]; cbn [map_res]; intros rs; [intros [= <-]; by exists []|].
  intros (o & Ho & H)%res_bind_Ok. apply res_bind_Ok in H as (rs' & Hrs & [= <-]).
  destruct (unfiltered_some _ _ _ Ho) as [t ->]. destruct (Hc _ _ Ho) as (o & -> & Hf). destruct (IH _ Hrs) as (os & -> & Hos).
  cbn [mbind res_bind]. eexists. split; [reflexivity|]. csimpl. by constructor.
Qed.

Lemma mapping_filterable inc exc depth items :
  (∀ cs, any_get (PMapping items) "children" = Some (PSequence cs) → Forall (filterable inc exc depth) cs) →
  filterable inc exc depth (PMapping items).
Proof.
  intros Hcs is_root t. rewrite !overview_symbol_unfold.
  intros (name & -> & H)%res_bind_Ok. apply res_bind_Ok in H as (kind & -> & H). apply res_bind_Ok in H as (cs & Hch & H).
  cbv zeta in H. rewrite unfiltered_matches in H. cbn [orb] in H. apply res_bind_Ok in H as (s & Hs & [= <-]).
  unfold overview_init in Hs. apply res_bind_Ok in Hs as ([] & Hname & [= <-]). cbn [mbind res_bind].
  assert (∃ os, overview_children inc exc depth (PMapping items) = Ok (omap id os) ∧
    Forall2 (filters_to (overview_matches inc exc depth) false) cs os) as (os & -> & Hos).
  { unfold overview_children in *. destruct (any_get _ "children") as [[| | | | | | |l|]|]; try done.
    - destruct (map_res _ l) as [rs|] eqn:Hrs in Hch; [injection Hch as <-|done].
      destruct (overview_children_filter inc exc depth l rs (Hcs l eq_refl) Hrs) as (os & -> & Hos). by exists os.
    - injection Hch as <-. by exists []. }
  destruct (children_filter _ _ _ Hos) as [Hshown Hst]. cbn [mbind res_bind].
  set (shown := omap id os) in *. destruct (overview_matches inc exc depth is_root kind) eqn:Hm; cbn [orb].
  - unfold overview_init. rewrite Hname. cbn [mbind res_bind]. eexists. split; [reflexivity|].
    split; [intros above|]; cbn [from_option shown_matches admitted structural_ok].
    + by rewrite Hm, Hshown.
    + split; [done|by apply structural_children].
  - destruct shown as [|x shown'] eqn:Hsh; cbn [nonempty].
    + eexists. split; [reflexivity|]. split; [|done]. intros above. cbn [from_option admitted]. rewrite Hm, <-Hshown. done.
    + unfold overview_init. rewrite Hname. cbn [mbind res_bind]. eexists. split; [reflexivity|].
      split; [intros above|]; cbn [from_option shown_matches admitted structural_ok].
      * by rewrite Hm, Hshown.
      * split; [done|by apply structural_children].
Qed.

Lemma all_filterable inc exc depth raw :
  filterable inc exc depth raw ∧ ∀ l, raw = PSequence l → Forall (filterable inc exc depth) l.
Proof.
  induction raw as [| | | | | |items IH|l IH|] using pyany_induction; (split; [|try done]); try (by intros is_root t).
  - apply mapping_filterable. intros cs Hcs. cbn [any_get] in Hcs. apply dict_get_Some_elem in Hcs.
    rewrite Forall_forall in IH. by apply (IH _ Hcs).
  - intros k [= ->]. eapply Forall_impl; [exact IH|]. by intros x [? _].
Qed.

(** ** Properties *)

(** C35: a navigation call always answers, and within its budget. Whatever the operation is called, whatever mapping the
    navigation core hands over and whatever limits the client sends, the compact adapter returns a result and raises
    nothing; the text of the result is the canonical form of its structured value and has at most the characters asked
    for, or the default number when the limit asked for is not valid. Only a value that is no mapping can make it raise,
    and then it is the [AttributeError] of [envelope.get]. *)
Theorem compact_navigation_always_fits sha operation envelope max_answer_chars max_matches inc exc snippets :
  (∃ r, compact_navigation_result sha operation envelope max_answer_chars max_matches inc exc snippets = Some (Ok r) ∧
        fits (answer_budget max_answer_chars) r) ∨
  (compact_navigation_result sha operation envelope max_answer_chars max_matches inc exc snippets = Some (Err AttributeError) ∧
   ∀ items, envelope ≠ PMapping items).
Proof.
  unfold compact_navigation_result, answer_budget.
  assert (∀ w a g l b (P : Prop), MIN_MAX_ANSWER_CHARS ≤ b ≤ MAX_MAX_ANSWER_CHARS → keys_clean (JList l) →
    (∃ r, returned (_malformed_result operation w a g l b) = Some (Ok r) ∧ fits b r) ∨ P) as Hmal.
  { intros w a g l b P Hb Hl. left. destruct (malformed_total operation w a g l b Hb Hl) as (r & -> & Hr). by exists r. }
  destruct (validate_max_answer_chars max_answer_chars) as [budget|] eqn:Hv; [|by apply Hmal].
  assert (MIN_MAX_ANSWER_CHARS ≤ budget ≤ MAX_MAX_ANSWER_CHARS) as Hb.
  { destruct max_answer_chars; try done. cbn in Hv. case_bool_decide; [by injection Hv as <-|done]. }
  destruct (validate_max_matches max_matches) as [limit|]; [|by apply Hmal].
  case_bool_decide; [by apply Hmal|]. destruct envelope as [| | | | | |items| |] eqn:He; try (right; by split). rewrite <-He.
  destruct (negb _); [by apply Hmal|].
  destruct (_workspace_metadata _) as [[w|]|], (_adapter_metadata _) as [a|], (_generation_metadata _) as [g|];
    try (by apply Hmal).
  set (ctx := {| ex_workspace := _; ex_adapter := _; ex_generations := _; ex_authorities := _ |}).
  destruct (navigation_outcome_ends sha operation envelope w ctx budget limit inc exc snippets) as (o & Ho & Hfit).
  pose proof (outcome_authorities sha operation envelope w ctx budget limit inc exc snippets) as Hclean.
  destruct (navigation_outcome _ _ _ _ _ _ _ _ _ _) as [authorities o']. cbn [fst snd] in *. subst o'.
  destruct o as [r|e]; [left; exists r; split; [done|by apply Hfit]|by apply Hmal].
Qed.

(** the filters of an overview hide no match and show nothing else. Whenever the unfiltered overview of a symbol can
    be read, so can the filtered one: the nodes it marks as matches are, with the names above them and in order, exactly
    the nodes whose kind the filters admit (variables and constants below the root count as noise when a depth was asked
    for, unless they are asked for by name), every other node it keeps leads to one of them, and the symbol is dropped
    exactly when there is none. *)
Theorem overview_filter_exact inc exc depth is_root raw t :
  _overview_symbol [] [] 0 is_root raw = Ok (Some t) →
  ∃ o, _overview_symbol inc exc depth is_root raw = Ok o ∧
       from_option (shown_matches []) [] o = admitted (overview_matches inc exc depth) is_root [] t ∧
       from_option structural_ok True o ∧ (o = None ↔ admitted (overview_matches inc exc depth) is_root [] t = []).
Proof.
  intros H. destruct (proj1 (all_filterable inc exc depth raw) _ _ H) as (o & Ho & Hs & Hst).
  exists o. split_and!; [done|done|done|]. rewrite <-Hs. destruct o as [s|]; [|done]. cbn [from_option].
  split; [done|]. intros Hnil. by destruct (structural_shows s Hst []).
Qed.

Module CompactAdapterExamples.

Definition node (name : string) (kind : Z) (children : list pyany) : pyany :=
  PMapping [(Some (lit "name"), PStr (lit name)); (Some (lit "kind"), PInt kind); (Some (lit "children"), PSequence children)].

(** A class with a method, which holds a variable, and an attribute; kinds 5, 6, 13 and 14. *)
Definition source_tree : pyany :=
  node "C" 5 [node "run" 6 [node "tmp" 13 []]; node "LIMIT" 14 []].

Definition sha (s : pystr) : pystr := replicate 64 48%N.

Definition overview_envelope (symbols : list pyany) : pyany :=
  PMapping [(Some (lit "ok"), PBool true);
    (Some (lit "data"), PMapping [(Some (lit "relative_path"), PStr (lit "a.py")); (Some (lit "max_depth"), PInt 2);
                                  (Some (lit "symbols"), PSequence symbols)]);
    (Some (lit "workspace"), PMapping [(Some (lit "root"), PStr (lit "/w")); (Some (lit "kind"), PStr (lit "git"));
                                       (Some (lit "working_subdirectory"), PStr (lit "/w"))])].

Definition overview (symbols : list pyany) (include : option (list pystr)) : option json :=
  match compact_navigation_result sha (lit "get_symbols_overview") (overview_envelope symbols) (PInt 600) (PInt 20) include None false with
  | Some (Ok r) => Some (ct_structured r)
  | _ => None
  end.

(** The variable is noise below the root unless it is asked for; then its ancestors come along. *)
Example overview_without_noise :
  overview [source_tree] None = Some (JObj [(lit "ok", JBool true); (lit "data", JObj [(lit "workspace", JStr (lit "/w"));
    (lit "files", JList [JObj [(lit "path", JStr (lit "a.py")); (lit "symbols", JList [JObj [(lit "name", JStr (lit "C"));
      (lit "kind", JStr (lit "class")); (lit "children", JList [JObj [(lit "name", JStr (lit "run")); (lit "kind", JStr (lit "method"))]])]])]]);
    (lit "omitted", JInt 0)])]).
Proof. vm_compute. reflexivity. Qed.

Example overview_of_variables :
  ∀ t, t = _overview_symbol [lit "variable"] [] 2 true source_tree →
  match t with Ok (Some s) => shown_matches [] s = [[lit "C"; lit "run"; lit "tmp"]] | _ => False end.
Proof. intros t ->. vm_compute. reflexivity. Qed.

(** A mapping that is not what the core promises ends in the malformed answer, not in an exception. *)
Example malformed_is_answered :
  match compact_navigation_result sha (lit "find_symbol") (PMapping []) (PInt 600) (PInt 20) None None false with Some (Ok _) => True | _ => False end ∧
  overview [PInt 3] None ≠ None.
Proof. split; vm_compute; [exact Logic.I|discriminate]. Qed.

Lemma overview_filter_exact_witness :
  ∃ t, _overview_symbol [] [] 0 true source_tree = Ok (Some t) ∧
  ∃ o, _overview_symbol [] [lit "class"] 2 true source_tree = Ok o ∧
       from_option (shown_matches []) [] o = admitted (overview_matches [] [lit "class"] 2) true [] t ∧
       from_option structural_ok True o ∧ (o = None ↔ admitted (overview_matches [] [lit "class"] 2) true [] t = []).
Proof.
  eexists. split; [vm_compute; reflexivity|]. apply (overview_filter_exact [] [lit "class"] 2 true source_tree). vm_compute. reflexivity.
Defined.
End CompactAdapterExamples.
