(* ===== verification/Presentation.v ===== *)
(** * Presentation of failures

    Model of [src/serena_light/tools/presentation.py]: what a client is shown of a
    typed failure. The envelope enters as the JSON value [ErrorEnvelope.to_dict]
    makes, so the branches for keys that are not strings and values that are not
    JSON fall away. *)

From S2P Require Import Prelude Paths Json Envelopes Positions Normalize Navigation Selection Compact.

Definition _DETERMINISTIC_COMPACT_ERRORS : list pystr := code_value <$> [INVALID_INPUT; INVALID_PATH; SYMBOL_NOT_FOUND].
Definition _RUNTIME_AUTHORITY_DETAIL_FIELDS : list pystr :=
  lit <$> ["adapter"; "configured_program"; "engine"; "generations"; "interpreter"]%string.
Definition _CORRECTION_ECHO_REMOVAL_ORDER : list pystr :=
  lit <$> ["name_path"; "regex"; "path"; "paths"; "relative_path"; "method"]%string.

(** The values of [RecoveryAction]. *)
Definition RecoveryAction : list pystr :=
  lit <$> ["get_symbols_overview"; "activate_workspace_if_other_root"; "reactivate_with_path_environment";
           "activate_workspace"; "find_referencing_symbols"; "overview_then_find_child_symbol";
           "retry_with_minimum_answer_chars"; "find_symbol_location_then_exact_file_read"]%string.

Inductive presentation_error :=
| PresentValue       (** [ValueError] *)
| PresentDetails.    (** the details are missing or not a dict: [KeyError] or [AttributeError] *)

Abbreviation fields := (list (pystr * json)).

(** ** Copies *)

(** [_mapping_copy]: of a list only the mappings in it are copied, deeper lists are shared. *)
Fixpoint _mapping_copy (v : json) : json :=
  match v with
  | JObj kvs => JObj ((λ kv, (kv.1, match kv.2 with
                                    | JObj _ => _mapping_copy kv.2
                                    | JList l => JList ((λ x, match x with JObj _ => _mapping_copy x | _ => x end) <$> l)
                                    | x => x
                                    end)) <$> kvs)
  | x => x
  end.

Definition _validate_recovery_action (details : fields) : res presentation_error unit :=
  match dict_get details (lit "next_action") with
  | None | Some JNull => Ok tt
  | Some (JStr action) => ensure (bool_decide (action ∈ RecoveryAction)) PresentValue
  | Some _ => Err PresentValue
  end.

(** ** The compact payload *)

(** [{"ok": False, "error": {"code", "message"[, "details"]}[, "workspace"]}] *)
Definition compact_payload (code message : pystr) (details : option fields) (workspace : option pystr) : json :=
  JObj ([(lit "ok", JBool false);
         (lit "error", JObj ([(lit "code", JStr code); (lit "message", JStr message)] ++ entry "details" (JObj <$> details)))] ++
        entry "workspace" (JStr <$> workspace)).

(** The root of the workspace of an envelope, if it is a non-empty string. *)
Definition workspace_root (envelope : json) : option pystr :=
  match json_get envelope (lit "workspace") with
  | Some (JObj w) => match dict_get w (lit "root") with
                     | Some (JStr root) => if nonempty root then Some root else None
                     | _ => None
                     end
  | _ => None
  end.

Definition _compact_ambiguity_candidate (candidate : json) : json :=
  match candidate with
  | JObj source =>
      let text k := match dict_get source (lit k) with
                    | Some (JStr v) => if nonempty v then [(lit k, JStr v)] else []
                    | _ => []
                    end in
      let names := text "relative_path" ++ text "name_path" ++ match text "name_path" with [] => text "name" | _ => [] end in
      let kind := match dict_get source (lit "kind") with
                  | Some (JInt z) => [(lit "kind", JStr (symbol_kind z))]
                  | Some (JStr k) => if nonempty k then [(lit "kind", JStr k)] else []
                  | _ => []
                  end in
      let finish (compact : fields) := match compact with [] => _mapping_copy candidate | _ => JObj compact end in
      match dict_get source (lit "range") with
      | Some (JObj r) =>
          match compact_range (any_of_json (JObj r)) with
          | Ok c => finish (names ++ kind ++ [(lit "range", _range_json c)])
          | Err _ => _mapping_copy candidate
          end
      | _ => finish (names ++ kind)
      end
  | _ => candidate
  end.

(** The fields of an ambiguity that are kept. *)
Definition ambiguity_details (details : fields) : res presentation_error fields :=
  let kept := concat ((λ k, match dict_get details k with Some v => [(k, v)] | None => [] end) <$>
                      [lit "relative_path"; lit "name_path"; lit "regex"; lit "occurrence_count"]) in
  let candidates := match dict_get details (lit "candidates") with
                    | Some (JList l) => [(lit "candidates", JList (_compact_ambiguity_candidate <$> l))]
                    | _ => []
                    end in
  match default (JInt 0) (dict_get details (lit "omitted_count")) with
  | JInt existing_omitted =>
      _ ← ensure (bool_decide (0 ≤ existing_omitted)) PresentValue;
      let truncated := match dict_get details (lit "truncated") with Some (JBool true) => true | _ => false end in
      Ok (kept ++ candidates ++
          if truncated || bool_decide (existing_omitted ≠ 0)
          then [(lit "truncated", JBool true); (lit "omitted_count", JInt existing_omitted)] else [])
  | _ => Err PresentValue
  end.

(** [_compact_ambiguity]: the kept details, or the whole envelope when it has none. *)
Definition _compact_ambiguity (envelope : json) (raw_error : fields) : res presentation_error (fields + json) :=
  match dict_get raw_error (lit "details") with
  | Some (JObj details) =>
      compact_details ← ambiguity_details details;
      _ ← _validate_recovery_action compact_details;
      Ok (inl compact_details)
  | _ => Ok (inr (_mapping_copy envelope))
  end.

(** ** Bounds *)

(** [details] after the candidates were popped down to the first [n]. *)
Definition with_candidates (details : fields) (candidates : list json) (original : Z) (n : nat) : fields :=
  dict_set (dict_set (dict_set details (lit "candidates") (JList (take n candidates))) (lit "truncated") (JBool true))
    (lit "omitted_count") (JInt (original - Z.of_nat n)).

(** The [while candidates] loop from [n] candidates: the payload that fits, or the details it ends with. *)
Fixpoint pop_candidates (mk : fields → json) (details : fields) (candidates : list json) (original budget : Z) (n : nat)
    : json + fields :=
  match n with
  | O => inr (with_candidates details candidates original 0)
  | S n =>
      let details' := with_candidates details candidates original n in
      if bool_decide (text_size (mk details') ≤ budget) then inl (mk details')
      else match n with O => inr details' | S _ => pop_candidates mk details candidates original budget n end
  end.

Definition _bound_ambiguity (code message : pystr) (details : fields) (workspace : option pystr) (budget : Z)
    : res presentation_error json :=
  let mk w d := compact_payload code message (Some d) w in
  if bool_decide (text_size (mk workspace details) ≤ budget) then Ok (mk workspace details)
  else
    let popped := match dict_get details (lit "candidates") with
                  | Some (JList (c :: cs)) =>
                      let existing := match dict_get details (lit "omitted_count") with Some (JInt z) => z | _ => 0 end in
                      pop_candidates (mk workspace) details (c :: cs) (Z.of_nat (length (c :: cs)) + existing) budget
                        (length (c :: cs))
                  | _ => inr details
                  end in
    match popped with
    | inl payload => Ok payload
    | inr details =>
        match shed_fields (mk workspace) details [lit "regex"; lit "name_path"; lit "relative_path"; lit "occurrence_count"] budget with
        | (Some payload, _) => Ok payload
        | (None, details) =>
            if bool_decide (text_size (mk None details) ≤ budget) then Ok (mk None details) else Err PresentValue
        end
    end.

(** The fields of the details from the largest value to the smallest, without the recovery action. *)
Definition removal_order (details : fields) : list pystr :=
  reverse ((py_sorted (λ kv, (text_size kv.2, kv.1)) (filter (λ kv, kv.1 ≠ lit "next_action") details)).*1).

Definition _bound_deterministic (code message : pystr) (details : option fields) (workspace : option pystr) (budget : Z)
    : res presentation_error json :=
  let mk w d := compact_payload code message d w in
  let last_resort d := if bool_decide (text_size (mk None d) ≤ budget) then Ok (mk None d) else Err PresentValue in
  if bool_decide (text_size (mk workspace details) ≤ budget) then Ok (mk workspace details)
  else
    match details with
    | None => last_resort None
    | Some details =>
        match shed_fields (λ d, mk workspace (Some d)) details _CORRECTION_ECHO_REMOVAL_ORDER budget with
        | (Some payload, _) => Ok payload
        | (None, details) =>
            (** a dict that the second loop empties is removed *)
            let shown d := match d with [] => None | _ => Some d end in
            match removal_order details with
            | [] => last_resort (Some details)
            | remaining =>
                match shed_fields (λ d, mk workspace (shown d)) details remaining budget with
                | (Some payload, _) => Ok payload
                | (None, details) => last_resort (shown details)
                end
            end
        end
    end.

(** ** Rendering *)

Definition valid_budget (max_answer_chars : pyany) : res presentation_error Z :=
  match validate_max_answer_chars max_answer_chars with Ok b => Ok b | Err _ => Err PresentValue end.

(** The details of a deterministic error without the runtime's own authority fields. *)
Definition correction_details (details : option json) : res presentation_error (option fields) :=
  match details with
  | Some (JObj (kv :: kvs)) =>
      let compact_details := filter (λ kv, kv.1 ∉ _RUNTIME_AUTHORITY_DETAIL_FIELDS) (kv :: kvs) in
      _ ← _validate_recovery_action compact_details;
      Ok (match compact_details with [] => None | _ => Some compact_details end)
  | _ => Ok None
  end.

Definition render_error_result (envelope : json) (max_answer_chars : option pyany) : res presentation_error CallToolResult :=
  _ ← ensure (match json_get envelope (lit "ok") with Some (JBool false) => true | _ => false end) PresentValue;
  match json_get envelope (lit "error") with
  | Some (JObj raw_error) =>
      match dict_get raw_error (lit "code"), dict_get raw_error (lit "message") with
      | Some (JStr code), Some (JStr message) =>
          if bool_decide (code = code_value AMBIGUOUS_SYMBOL) then
            payload ← _compact_ambiguity envelope raw_error;
            match max_answer_chars with
            | None => Ok (render_payload (match payload with
                                          | inl details => compact_payload code message (Some details) (workspace_root envelope)
                                          | inr copy => copy
                                          end))
            | Some m =>
                budget ← valid_budget m;
                match payload with
                | inl details =>
                    p ← _bound_ambiguity code message details (workspace_root envelope) budget; Ok (render_payload p)
                | inr copy => if bool_decide (text_size copy ≤ budget) then Ok (render_payload copy) else Err PresentDetails
                end
            end
          else if bool_decide (code ∉ _DETERMINISTIC_COMPACT_ERRORS) then
            _ ← match dict_get raw_error (lit "details") with
                | Some (JObj details) => _validate_recovery_action details
                | _ => Ok tt
                end;
            Ok (render_payload (_mapping_copy envelope))
          else
            details ← correction_details (dict_get raw_error (lit "details"));
            match max_answer_chars with
            | None => Ok (render_payload (compact_payload code message details (workspace_root envelope)))
            | Some m =>
                budget ← valid_budget m;
                p ← _bound_deterministic code message details (workspace_root envelope) budget; Ok (render_payload p)
            end
      | _, _ => Err PresentValue
      end
  | _ => Err PresentValue
  end.

(** ** Copies keep their value *)

Lemma mapping_copy_deep v : _mapping_copy v = v ∧ ∀ l, v = JList l → Forall (λ x, _mapping_copy x = x) l.
Proof.
  induction v as [| | | | |l IH|kvs IH] using json_induction; try done.
  - split; [done|]. intros k [= <-]. eapply Forall_impl; [exact IH|]. by intros x [? _].
  - split; [|done]. cbn [_mapping_copy]. f_equal.
    induction IH as [|[k x] kvs [Hx Hl] _ IHl]; csimpl; [done|]. rewrite IHl. do 2 f_equal. cbn [snd] in *.
    destruct x as [| | | | |l|m]; try done. f_equal. specialize (Hl l eq_refl).
    induction Hl as [|y l Hy _ IH']; csimpl; [done|]. rewrite IH'; [|done]. f_equal. by destruct y.
Qed.

Lemma mapping_copy_id v : _mapping_copy v = v.
Proof. apply mapping_copy_deep. Qed.

(** ** Shedding fields *)

Definition without (ks : list pystr) (d : fields) : fields := filter (λ kv, kv.1 ∉ ks) d.

Lemma without_nil d : without [] d = d.
Proof. unfold without. induction d as [|x d IH]; [done|]. rewrite filter_cons_True by apply not_elem_of_nil. by rewrite IH. Qed.

Lemma without_del ks d k : without ks (dict_del d k) = without (k :: ks) d.
Proof.
  unfold without, dict_del. rewrite list_filter_filter. apply list_filter_iff. intros x. rewrite not_elem_of_cons. tauto.
Qed.

Lemma without_app ks d d' : without ks (d ++ d') = without ks d ++ without ks d'.
Proof. apply filter_app. Qed.

Lemma without_keys ks d : (without ks d).*1 = filter (λ k, k ∉ ks) d.*1.
Proof. induction d as [|[k v] d IH]; [done|]. unfold without in *. csimpl. rewrite !filter_cons. cbn [fst]. case_decide; csimpl; by rewrite IH. Qed.

Lemma without_all ks d : (∀ k, k ∈ d.*1 → k ∈ ks) → without ks d = [].
Proof.
  unfold without. induction d as [|[k v] d IH]; intros Hall; [done|]. csimpl in Hall.
  rewrite filter_cons_False; [apply IH; intros; apply Hall; by right|]. intros Hn. apply Hn, Hall. by left.
Qed.

(** The loop removes the first [k] of the fields and stops at the first payload that fits. *)
Lemma shed_fields_spec mk rest ks budget o rest' :
  shed_fields mk rest ks budget = (o, rest') →
  ∃ k, (k ≤ length ks)%nat ∧ rest' = without (take k ks) rest ∧
    match o with Some p => p = mk rest' ∧ text_size p ≤ budget ∧ (0 < k)%nat | None => k = length ks end ∧
    ∀ j, (0 < j ≤ k)%nat → (j < k)%nat ∨ o = None → budget < text_size (mk (without (take j ks) rest)).
Proof.
  revert rest. induction ks as [|f ks IH]; intros rest; cbn [shed_fields].
  - intros [= <- <-]. exists 0%nat. rewrite without_nil. split_and!; [done..|lia].
  - case_bool_decide as Hle.
    + intros [= <- <-]. exists 1%nat. cbn [take length]. rewrite <-without_del, without_nil. split_and!; [lia|done..|lia|].
      intros j Hj [?|?]; [lia|done].
    + intros (k & Hk & -> & Ho & Hmin)%IH. exists (S k). rewrite without_del in *. cbn [take length].
      split_and!; [lia|done| |].
      * destruct o as [p|]; [|by subst]. destruct Ho as (? & ? & ?). split_and!; [done|done|lia].
      * intros [|[|j]] Hj Hcase; [lia| |].
        -- cbn [take]. rewrite <-without_del, without_nil. lia.
        -- cbn [take]. rewrite <-without_del. apply (Hmin (S j)); [lia|]. destruct Hcase; [left; lia|by right].
Qed.

Lemma without_without ks ks' d : without ks' (without ks d) = without (ks ++ ks') d.
Proof.
  unfold without. rewrite list_filter_filter. apply list_filter_iff. intros x. rewrite not_elem_of_app. tauto.
Qed.

(** Removing other fields keeps the value of a field. *)
Lemma without_get ks d k : k ∉ ks → dict_get (without ks d) k = dict_get d k.
Proof.
  intros Hk. unfold without. induction d as [|[j v] d IH]; [done|]. rewrite filter_cons. case_decide as Hj; cbn [dict_get fst] in *.
  - by case_decide.
  - rewrite IH, decide_False; [done|]. by intros ->.
Qed.

(** ** Sizes of the last resorts *)

Definition action_entries (v : option json) : fields := entry "next_action" v.

Definition action_value_ok (v : option json) : Prop :=
  match v with None | Some JNull => True | Some (JStr a) => a ∈ RecoveryAction | Some _ => False end.

(** What is left of a deterministic error fits the smallest budget. *)
Lemma correction_core_size code v details :
  code ∈ [INVALID_INPUT; INVALID_PATH; SYMBOL_NOT_FOUND] → action_value_ok v → details = None ∨ details = Some (action_entries v) →
  text_size (compact_payload (code_value code) (_MESSAGES code) details None) ≤ MIN_MAX_ANSWER_CHARS.
Proof.
  intros Hcode Hv Hd.
  assert (Forall (λ c, Forall (λ d, text_size (compact_payload (code_value c) (_MESSAGES c) d None) ≤ MIN_MAX_ANSWER_CHARS)
    (None :: Some [] :: Some (action_entries (Some JNull)) :: ((λ a, Some (action_entries (Some (JStr a)))) <$> RecoveryAction)))
    [INVALID_INPUT; INVALID_PATH; SYMBOL_NOT_FOUND]) as Hall.
  { apply (bool_decide_eq_true_1 _). vm_compute. reflexivity. }
  rewrite Forall_forall in Hall. specialize (Hall _ Hcode). rewrite Forall_forall in Hall. apply Hall. clear Hall.
  destruct Hd as [->| ->]; [by left|]. right. destruct v as [[| | | |a| |]|]; try done; [by right; left| |by left].
  right. right. apply list_elem_of_fmap. by exists a.
Qed.

Lemma validated_action d : _validate_recovery_action d = Ok tt → action_value_ok (dict_get d (lit "next_action")).
Proof.
  unfold _validate_recovery_action, action_value_ok. destruct (dict_get _ _) as [[| | | |a| |]|]; try done.
  unfold ensure. by case_bool_decide.
Qed.

Lemma removal_order_elem d k : k ∈ removal_order d ↔ k ∈ d.*1 ∧ k ≠ lit "next_action".
Proof.
  unfold removal_order. rewrite elem_of_reverse, !list_elem_of_fmap. split.
  - intros (kv & -> & Hkv). rewrite elem_of_py_sorted in Hkv. apply list_elem_of_filter in Hkv as [Hne Hin].
    split; [by exists kv|done].
  - intros [(kv & -> & Hin) Hne]. exists kv. split; [done|]. rewrite elem_of_py_sorted. by apply list_elem_of_filter.
Qed.

Lemma filter_agree {A} (P Q : A → Prop) `{∀ x, Decision (P x), ∀ x, Decision (Q x)} (l : list A) :
  (∀ x, x ∈ l → P x ↔ Q x) → filter P l = filter Q l.
Proof.
  induction l as [|x l IH]; intros Hl; [done|]. rewrite !filter_cons, IH by (intros; apply Hl; by right).
  specialize (Hl x ltac:(by left)). repeat case_decide; tauto.
Qed.

(** Without the fields of the removal order only the recovery action is left. *)
Lemma removal_order_leaves d :
  NoDup d.*1 → without (removal_order d) d = action_entries (dict_get d (lit "next_action")).
Proof.
  intros Hnd. transitivity (filter (λ kv : pystr * json, kv.1 = lit "next_action") d).
  { apply filter_agree. intros kv Hin. rewrite removal_order_elem. split; [|tauto]. intros H.
    destruct (decide (kv.1 = lit "next_action")); [done|]. destruct H. split; [|done]. by apply list_elem_of_fmap_2. }
  induction d as [|[k v] d IH]; [done|]. csimpl. apply NoDup_cons in Hnd as [Hk Hnd]. rewrite filter_cons. cbn [fst dict_get].
  destruct (decide (k = lit "next_action")) as [->|Hne].
  - rewrite !decide_True by done. cbn [action_entries entry]. f_equal.
    rewrite IH by done. rewrite (proj2 (dict_get_None d (lit "next_action"))); [done|exact Hk].
  - rewrite decide_False by congruence. by apply IH.
Qed.

(** ** Deterministic errors *)

(** Part of the details, with the same recovery action. *)
Definition keeps (full part : fields) : Prop :=
  part `sublist_of` full ∧ dict_get part (lit "next_action") = dict_get full (lit "next_action").

Lemma keeps_without full part ks : keeps full part → lit "next_action" ∉ ks → keeps full (without ks part).
Proof.
  intros [Hs Hg] Hk. split; [etrans; [apply sublist_filter|exact Hs]|]. by rewrite without_get.
Qed.

Definition field_size (d : fields) (k : pystr) : Z := from_option text_size 0 (dict_get d k).

(** The order in which fields are given up: first those that echo the query, then all others from the largest value to the
    smallest; never the recovery action. *)
Definition shedding_order (full : fields) (order : list pystr) : Prop :=
  ∃ others, order = _CORRECTION_ECHO_REMOVAL_ORDER ++ others ∧ NoDup others ∧
    (∀ k, k ∈ others ↔ k ∈ full.*1 ∧ k ∉ _CORRECTION_ECHO_REMOVAL_ORDER ∧ k ≠ lit "next_action") ∧
    StronglySorted (λ a b, field_size full b ≤ field_size full a) others.

(** What a client is shown of an error with these details and root: the details without the first [n] fields of the order,
    where every smaller number of them left more than fits; the root goes last. *)
Record presented (code message : pystr) (full : option fields) (root : option pystr) (budget : Z) (payload : json) : Prop := {
  pr_fits : text_size payload ≤ budget;
  pr_shown : ∃ order n details w, shedding_order (default [] full) order ∧ (n ≤ length order)%nat ∧
    payload = compact_payload code message details w ∧ default [] details = without (take n order) (default [] full) ∧
    keeps (default [] full) (default [] details) ∧
    (∀ m, (m < n)%nat → ∃ d, default [] d = without (take m order) (default [] full) ∧
       budget < text_size (compact_payload code message d root)) ∧
    (w = root ∨
     w = None ∧ n = length order ∧ default [] details = action_entries (dict_get (default [] full) (lit "next_action")) ∧
     budget < text_size (compact_payload code message details root));
  pr_whole : text_size (compact_payload code message full root) ≤ budget → payload = compact_payload code message full root;
}.

Lemma sorted_reverse {A} (R : A → A → Prop) l : StronglySorted R l → StronglySorted (λ a b, R b a) (reverse l).
Proof.
  induction 1 as [|x l Hl IH Hx]; [constructor|]. rewrite reverse_cons. apply StronglySorted_app_2; [|done|by repeat constructor].
  intros a b Ha ->%list_elem_of_singleton. rewrite elem_of_reverse in Ha. rewrite Forall_forall in Hx. by apply Hx.
Qed.

(** The removal order of what the echo fields leave completes a shedding order. *)
Lemma removal_order_sheds full :
  NoDup full.*1 → shedding_order full (_CORRECTION_ECHO_REMOVAL_ORDER ++ removal_order (without _CORRECTION_ECHO_REMOVAL_ORDER full)).
Proof.
  intros Hnd. set (d := without _ full). assert (NoDup d.*1) as Hnd' by (unfold d; rewrite without_keys; by apply NoDup_filter).
  exists (removal_order d). split_and!; [done| | |].
  - unfold removal_order. rewrite reverse_Permutation. set (l := filter _ d).
    rewrite py_sorted_perm. eapply sublist_NoDup; [exact Hnd'|]. apply fmap_sublist, sublist_filter.
  - intros k. rewrite removal_order_elem. unfold d. rewrite without_keys, list_elem_of_filter. tauto.
  - unfold removal_order. set (l := filter _ d).
    assert (∀ kv, kv ∈ py_sorted (λ kv, (text_size kv.2, kv.1)) l → field_size full kv.1 = text_size kv.2) as Hsize.
    { intros [k v] Hin. rewrite py_sorted_perm in Hin. apply list_elem_of_filter in Hin as [_ Hin].
      apply list_elem_of_filter in Hin as [_ Hin]. unfold field_size. cbn [fst snd]. by rewrite (dict_get_elem _ _ _ Hnd Hin). }
    apply (sorted_reverse (λ a b, field_size full a ≤ field_size full b)).
    pose proof (py_sorted_sorted (λ kv : pystr * json, (text_size kv.2, kv.1)) l) as Hs. revert Hs Hsize. generalize (py_sorted (λ kv : pystr * json, (text_size kv.2, kv.1)) l).
    clear. induction 1 as [|x l Hl IH Hx]; intros Hsize; csimpl; constructor; [apply IH; intros; apply Hsize; by right|].
    apply Forall_fmap. rewrite Forall_forall in Hx |- *. intros y Hy. rewrite (Hsize x) by (by left). cbn. rewrite (Hsize y) by (by right).
    specialize (Hx y Hy). unfold key_le in Hx. rewrite py_leb_pair in Hx. cbn [snd] in Hx.
    destruct (py_leb (text_size x.2) (text_size y.2)) eqn:Hle; [|done]. by apply Z.leb_le in Hle.
Qed.

Lemma shedding_leaves full order :
  NoDup full.*1 → shedding_order full order → without order full = action_entries (dict_get full (lit "next_action")).
Proof.
  intros Hnd (others & -> & _ & Hin & _). rewrite <-(removal_order_leaves full Hnd). apply filter_agree. intros kv Hkv.
  rewrite not_elem_of_app, removal_order_elem, Hin. apply (list_elem_of_fmap_2 fst) in Hkv.
  assert (lit "next_action" ∉ _CORRECTION_ECHO_REMOVAL_ORDER) as Hna by (apply (bool_decide_eq_true_1 _); vm_compute; reflexivity).
  destruct (decide (kv.1 = lit "next_action")) as [->|Hne]; [tauto|].
  destruct (decide (kv.1 ∈ _CORRECTION_ECHO_REMOVAL_ORDER)); tauto.
Qed.

Lemma bound_deterministic_presented code full root budget :
  code ∈ [INVALID_INPUT; INVALID_PATH; SYMBOL_NOT_FOUND] → MIN_MAX_ANSWER_CHARS ≤ budget → NoDup (default [] full).*1 →
  action_value_ok (dict_get (default [] full) (lit "next_action")) → full ≠ Some [] →
  ∃ p, _bound_deterministic (code_value code) (_MESSAGES code) full root budget = Ok p ∧
       presented (code_value code) (_MESSAGES code) full root budget p.
Proof.
  intros Hcode Hb Hnd Hact Hne. unfold _bound_deterministic.
  set (echo := _CORRECTION_ECHO_REMOVAL_ORDER). set (order := echo ++ removal_order (without echo (default [] full))).
  pose proof (removal_order_sheds _ Hnd) as Hord. fold echo order in Hord. pose proof (shedding_leaves _ _ Hnd Hord) as Hall.
  set (mk d := compact_payload (code_value code) (_MESSAGES code) d).
  assert (lit "next_action" ∉ order) as Hkeep.
  { destruct Hord as (others & -> & _ & Hin & _). rewrite not_elem_of_app, Hin. split; [|tauto].
    apply (bool_decide_eq_true_1 _). vm_compute. reflexivity. }
  assert (∀ n, keeps (default [] full) (without (take n order) (default [] full))) as Hkeeps.
  { intros n. apply keeps_without; [done|]. intros Hin. apply Hkeep. eapply elem_of_sublist; [exact Hin|apply sublist_take]. }
  case_bool_decide as Hwhole.
  { eexists. split; [reflexivity|]. split; [done| |done]. exists order, 0%nat, full, root.
    rewrite without_nil. split_and!; [done|lia|done|done|done|lia|by left]. }
  assert (∀ n d, (n ≤ length order)%nat → default [] d = without (take n order) (default [] full) →
    (∀ m, (m < n)%nat → ∃ d', default [] d' = without (take m order) (default [] full) ∧ budget < text_size (mk d' root)) →
    text_size (mk d root) ≤ budget → presented (code_value code) (_MESSAGES code) full root budget (mk d root)) as Hshown.
  { intros n d Hn Hd Hmin Hfit. split; [done| |done]. exists order, n, d, root. rewrite Hd. split_and!; [done..|by left]. }
  assert (∀ d, d = None ∨ d = Some (action_entries (dict_get (default [] full) (lit "next_action"))) →
    default [] d = without order (default [] full) →
    (∀ m, (m < length order)%nat → ∃ d', default [] d' = without (take m order) (default [] full) ∧ budget < text_size (mk d' root)) →
    budget < text_size (mk d root) →
    ∃ p, (if bool_decide (text_size (mk d None) ≤ budget) then Ok (mk d None) else Err PresentValue) = Ok p ∧
       presented (code_value code) (_MESSAGES code) full root budget p) as Hlast.
  { intros d Hd He Hmin Hbig. pose proof (correction_core_size code _ d Hcode Hact Hd) as Hsize. fold (mk d None) in Hsize.
    rewrite bool_decide_eq_true_2 by lia. eexists. split; [reflexivity|]. split; [lia| |done].
    exists order, (length order), d, None. rewrite firstn_all, He. split_and!; [done|lia|done|done| |done|].
    - specialize (Hkeeps (length order)). by rewrite firstn_all in Hkeeps.
    - right. by rewrite Hall. }
  destruct full as [full|].
  2:{ apply Hlast; [by left|by rewrite Hall|intros m _; exists None; split; [done|fold mk in Hwhole; lia]|fold mk in Hwhole; lia]. }
  cbn [default from_option id] in *. fold (mk (Some full) root) in Hwhole.
  destruct (shed_fields _ full _ _) as [o d] eqn:Hs. apply shed_fields_spec in Hs as (k & Hk & Hd & Ho & Hmin1). fold echo in Hk, Hd, Ho, Hmin1.
  assert (∀ m, (m ≤ length echo)%nat → take m echo = take m order) as Htk by (intros; unfold order; by rewrite take_app_le).
  assert (length echo ≤ length order)%nat as Hlen by (unfold order; rewrite length_app; lia).
  assert (∀ m, (m ≤ k)%nat → (m < k)%nat ∨ o = None →
    ∃ d', default [] d' = without (take m order) full ∧ budget < text_size (mk d' root)) as Hphase1.
  { intros m Hm Hcase. exists (Some (without (take m order) full)). split; [done|]. destruct m as [|m]; [rewrite take_0, without_nil; lia|].
    rewrite <-Htk by lia. apply Hmin1; [lia|done]. }
  destruct o as [p|].
  { destruct Ho as (-> & Hfit & _). eexists. split; [reflexivity|]. eapply (Hshown k); [lia|by rewrite Hd, Htk by lia| |done].
    intros m Hm. apply Hphase1; [lia|by left]. }
  subst k. rewrite firstn_all in Hd. unfold order in Hall. rewrite <-without_without, <-Hd in Hall.
  destruct (removal_order d) as [|f fs] eqn:Hro.
  { assert (order = echo) as Hoe by (unfold order; by rewrite <-Hd, Hro, app_nil_r). rewrite without_nil in Hall.
    assert (budget < text_size (mk (Some d) root)) as Hbig.
    { rewrite Hd, <-(firstn_all echo). apply Hmin1; [split; [|done]; vm_compute; lia|by right]. }
    apply Hlast; [right; by rewrite Hall|by rewrite Hoe, Hd| |done].
    rewrite Hoe. intros m Hm. rewrite <-Hoe. apply Hphase1; [lia|by right]. }
  destruct (shed_fields _ d (f :: fs) _) as [o d'] eqn:Hs. apply shed_fields_spec in Hs as (j & Hj & Hd' & Ho' & Hmin2).
  assert (∀ m, without (take m (f :: fs)) d = without (take (length echo + m) order) full) as Hsecond.
  { intros m. unfold order. rewrite <-Hd, Hro, take_app, Nat.add_sub', (take_ge echo) by lia. by rewrite <-without_without, <-Hd. }
  assert (length order = (length echo + length (f :: fs))%nat) as Hlo by (unfold order; by rewrite <-Hd, Hro, length_app).
  assert (∀ l : fields, default [] match l with [] => None | _ => Some l end = l) as Hsh by (by intros []).
  assert (∀ m, (m ≤ length echo + j)%nat → (m < length echo + j)%nat ∨ o = None →
    ∃ d', default [] d' = without (take m order) full ∧ budget < text_size (mk d' root)) as Hphase2.
  { intros m Hm Hcase. destruct (decide (m ≤ length echo)%nat) as [Hle|Hgt]; [apply Hphase1; [lia|by right]|].
    replace m with (length echo + (m - length echo))%nat by lia. rewrite <-Hsecond. eexists. split; [apply Hsh|].
    apply Hmin2; [lia|]. destruct Hcase; [left; lia|by right]. }
  destruct o as [p|].
  - destruct Ho' as (-> & Hfit & _). eexists. split; [reflexivity|]. apply (Hshown (length echo + j)%nat); [lia| | |done].
    + by rewrite Hsh, Hd', Hsecond.
    + intros m Hm. apply Hphase2; [lia|by left].
  - subst j. rewrite firstn_all in Hd'. rewrite Hall in Hd'.
    assert (0 < length (f :: fs))%nat as Hpos by (simpl; lia).
    assert (budget < text_size (mk match d' with [] => None | _ => Some d' end root)) as Hbig.
    { rewrite Hd', <-Hall, <-(firstn_all (f :: fs)). apply Hmin2; [lia|by right]. }
    assert (without order full = d') as Hwo.
    { rewrite Hd', <-Hall. rewrite <-(firstn_all (f :: fs)), Hsecond, <-Hlo. by rewrite firstn_all. }
    apply Hlast; [|by rewrite Hsh|intros m Hm; apply Hphase2; [lia|by right]|done].
    rewrite Hd'. destruct (action_entries _); [by left|by right].
Qed.

Lemma error_dict_parts e :
  json_get (error_dict e) (lit "ok") = Some (JBool false) ∧
  json_get (error_dict e) (lit "error") =
    Some (JObj [(lit "code", JStr (code_value (er_code e))); (lit "message", JStr (er_message e));
                (lit "retry", default JNull (retry_dict <$> er_retry e)); (lit "details", er_details e)]) ∧
  workspace_root (error_dict e) = match er_workspace e with
                                  | Some w => if nonempty (wm_root w) then Some (wm_root w) else None
                                  | None => None
                                  end.
Proof. destruct e as [code msg retry details [w|] [a|] [g|]]; split_and!; reflexivity. Qed.

(** The details of an error without the fields that name the runtime's own state. *)
Definition client_details (ds : fields) : option fields :=
  match filter (λ kv, kv.1 ∉ _RUNTIME_AUTHORITY_DETAIL_FIELDS) ds with [] => None | l => Some l end.

Lemma client_details_action ds :
  dict_get (default [] (client_details ds)) (lit "next_action") = dict_get ds (lit "next_action").
Proof.
  assert (lit "next_action" ∉ _RUNTIME_AUTHORITY_DETAIL_FIELDS) as Hna by (apply (bool_decide_eq_true_1 _); vm_compute; reflexivity).
  rewrite <-(without_get _ ds _ Hna). unfold client_details, without. by destruct (filter _ ds).
Qed.

(** ** Ambiguities *)

Definition echo_fields : list pystr := [lit "relative_path"; lit "name_path"; lit "regex"; lit "occurrence_count"].

Definition echoes (ds : fields) : fields :=
  concat ((λ k, match dict_get ds k with Some v => [(k, v)] | None => [] end) <$> echo_fields).

Lemma echoes_keys ds k : k ∈ (echoes ds).*1 → k ∈ echo_fields.
Proof.
  unfold echoes, echo_fields. cbn [fmap list_fmap concat].
  destruct (dict_get ds (lit "relative_path")), (dict_get ds (lit "name_path")), (dict_get ds (lit "regex")),
    (dict_get ds (lit "occurrence_count")); cbn [app fmap list_fmap fst]; rewrite ?elem_of_cons; tauto.
Qed.

Lemma dict_set_app (d e : fields) k v : k ∉ d.*1 → dict_set (d ++ e) k v = d ++ dict_set e k v.
Proof.
  induction d as [|[j w] d IH]; [done|]. csimpl. intros [Hne Hk]%not_elem_of_cons.
  rewrite decide_False by done. by rewrite IH.
Qed.

(** The details of an ambiguity that shows the first [j] of its candidates. *)
Definition details_with (ds : fields) (cs : list json) (omitted : Z) (j : nat) : fields :=
  echoes ds ++ [(lit "candidates", JList (take j (_compact_ambiguity_candidate <$> cs)))] ++
  if bool_decide (j < length cs)%nat || match dict_get ds (lit "truncated") with Some (JBool true) => true | _ => false end ||
     bool_decide (omitted ≠ 0)
  then [(lit "truncated", JBool true); (lit "omitted_count", JInt (omitted + (Z.of_nat (length cs) - Z.of_nat j)))] else [].

(** The number of candidates the details report as left out. *)
Definition omitted_of (details : fields) : Z :=
  match dict_get details (lit "omitted_count") with Some (JInt z) => z | _ => 0 end.

Lemma ambiguity_details_with ds cs omitted :
  dict_get ds (lit "candidates") = Some (JList cs) → default (JInt 0) (dict_get ds (lit "omitted_count")) = JInt omitted →
  0 ≤ omitted → ambiguity_details ds = Ok (details_with ds cs omitted (length cs)).
Proof.
  intros Hc Ho Hpos. unfold ambiguity_details. rewrite Hc, Ho, (bool_decide_eq_true_2 (0 ≤ omitted)) by done. cbn [ensure mbind res_bind].
  unfold details_with. rewrite (bool_decide_eq_false_2 (length cs < length cs)%nat) by lia. cbn [orb].
  rewrite firstn_all2 by (by rewrite length_fmap). rewrite Z.sub_diag, Z.add_0_r. reflexivity.
Qed.

Lemma echoes_missing ds (k : string) : lit k ∉ echo_fields → lit k ∉ (echoes ds).*1.
Proof. intros Hk ?%echoes_keys. done. Qed.

Ltac not_echo := apply echoes_missing; apply (bool_decide_eq_true_1 _); vm_compute; reflexivity.

Lemma with_candidates_shape ds cs omitted j :
  (j < length cs)%nat →
  with_candidates (details_with ds cs omitted (length cs)) (_compact_ambiguity_candidate <$> cs) (Z.of_nat (length cs) + omitted) j =
  details_with ds cs omitted j.
Proof.
  intros Hj. unfold with_candidates, details_with. rewrite (bool_decide_eq_true_2 (j < length cs)%nat) by done. cbn [orb].
  replace (omitted + (Z.of_nat (length cs) - Z.of_nat j)) with (Z.of_nat (length cs) + omitted - Z.of_nat j) by lia.
  rewrite !dict_set_app by not_echo. f_equal. by destruct (_ || _).
Qed.

Lemma details_with_get ds cs omitted j :
  (j ≤ length cs)%nat →
  dict_get (details_with ds cs omitted j) (lit "candidates") = Some (JList (take j (_compact_ambiguity_candidate <$> cs))) ∧
  omitted_of (details_with ds cs omitted j) = omitted + (Z.of_nat (length cs) - Z.of_nat j) ∧
  ((j < length cs)%nat → dict_get (details_with ds cs omitted j) (lit "truncated") = Some (JBool true)).
Proof.
  intros Hj.
  assert (∀ k e, lit k ∉ echo_fields → dict_get (echoes ds ++ e) (lit k) = dict_get e (lit k)) as Happ.
  { intros k e Hk%(echoes_missing ds). induction (echoes ds) as [|[i v] d IH]; [done|]. csimpl in Hk.
    apply not_elem_of_cons in Hk as [Hne Hk]. cbn [app dict_get]. rewrite decide_False by done. by apply IH. }
  unfold omitted_of, details_with. rewrite !Happ by (apply (bool_decide_eq_true_1 _); vm_compute; reflexivity).
  destruct (bool_decide (j < length cs)%nat) eqn:Hlt; cbn [orb].
  - by split_and!.
  - apply bool_decide_eq_false in Hlt. destruct (_ || bool_decide (omitted ≠ 0)) eqn:Ht.
    + by split_and!.
    + apply orb_false_elim in Ht as [_ Ht%bool_decide_eq_false]. apply dec_stable in Ht.
      split_and!; [done| |by intros ?]. transitivity 0; [done|lia].
Qed.

(** The loop stops at the largest number of candidates below [n] that fits, or with none. *)
Lemma pop_candidates_spec mk details cs original budget n :
  (0 < n)%nat →
  match pop_candidates mk details cs original budget n with
  | inl p => ∃ k, (k < n)%nat ∧ p = mk (with_candidates details cs original k) ∧ text_size p ≤ budget ∧
      ∀ j, (k < j < n)%nat → budget < text_size (mk (with_candidates details cs original j))
  | inr d => d = with_candidates details cs original 0 ∧
      ∀ j, (j < n)%nat → budget < text_size (mk (with_candidates details cs original j))
  end.
Proof.
  induction n as [|n IH]; intros Hn; [lia|]. cbn [pop_candidates]. case_bool_decide as Hfit.
  { exists n. split_and!; [lia|done|done|]. intros j Hj. lia. }
  destruct n as [|n].
  { split; [done|]. intros j Hj. replace j with 0%nat by lia. lia. }
  specialize (IH ltac:(lia)). destruct (pop_candidates _ _ _ _ _ (S n)) as [p|d].
  - destruct IH as (k & Hk & -> & Hle & Hbig). exists k. split_and!; [lia|done|done|]. intros j Hj.
    destruct (decide (j = S n)) as [->|]; [lia|apply Hbig; lia].
  - destruct IH as [-> Hbig]. split; [done|]. intros j Hj. destruct (decide (j = S n)) as [->|]; [lia|apply Hbig; lia].
Qed.

Definition query_fields : list pystr := [lit "regex"; lit "name_path"; lit "relative_path"; lit "occurrence_count"].

(** An ambiguity without candidates, query and workspace fits the smallest budget. *)
Lemma ambiguity_core_size ds cs omitted :
  0 ≤ omitted → (length (dec (Z.of_nat (length cs) + omitted)) ≤ 200)%nat →
  text_size (compact_payload (code_value AMBIGUOUS_SYMBOL) (_MESSAGES AMBIGUOUS_SYMBOL)
    (Some (without query_fields (details_with ds cs omitted 0))) None) ≤ MIN_MAX_ANSWER_CHARS.
Proof.
  intros Hpos Hd. unfold details_with. rewrite without_app.
  assert (without query_fields (echoes ds) = []) as ->.
  { apply without_all. intros k Hin%echoes_keys. revert Hin. unfold echo_fields, query_fields. rewrite !elem_of_cons. tauto. }
  rewrite take_0. cbn [app Z.of_nat]. rewrite Z.sub_0_r, (Z.add_comm omitted).
  unfold text_size, canonical_json, compact_payload, MIN_MAX_ANSWER_CHARS. destruct (_ || _).
  - change (without query_fields _) with [(lit "candidates", JList []); (lit "truncated", JBool true);
      (lit "omitted_count", JInt (Z.of_nat (length cs) + omitted))].
    cbn [entry fmap option_fmap option_map app]. json_size. lia.
  - by vm_compute.
Qed.

(** What is shown of an ambiguity with these candidates. *)
Record candidates_shown (ds : fields) (cs : list json) (omitted budget : Z) (root : option pystr) (payload : json) : Prop := {
  cs_shown : ∃ details w k,
    payload = compact_payload (code_value AMBIGUOUS_SYMBOL) (_MESSAGES AMBIGUOUS_SYMBOL) (Some details) w ∧
    text_size payload ≤ budget ∧ (k ≤ length cs)%nat ∧
    dict_get details (lit "candidates") = Some (JList (take k (_compact_ambiguity_candidate <$> cs))) ∧
    omitted_of details = omitted + (Z.of_nat (length cs) - Z.of_nat k) ∧
    ((k < length cs)%nat → dict_get details (lit "truncated") = Some (JBool true)) ∧
    ((0 < k)%nat → details = details_with ds cs omitted k ∧ w = root) ∧
    ∀ j, (k < j ≤ length cs)%nat →
      budget < text_size (compact_payload (code_value AMBIGUOUS_SYMBOL) (_MESSAGES AMBIGUOUS_SYMBOL)
                            (Some (details_with ds cs omitted j)) root);
}.

Lemma bound_ambiguity_shown ds cs omitted budget root :
  MIN_MAX_ANSWER_CHARS ≤ budget → 0 ≤ omitted → (length (dec (Z.of_nat (length cs) + omitted)) ≤ 200)%nat →
  ∃ p, _bound_ambiguity (code_value AMBIGUOUS_SYMBOL) (_MESSAGES AMBIGUOUS_SYMBOL) (details_with ds cs omitted (length cs)) root budget = Ok p ∧
       candidates_shown ds cs omitted budget root p.
Proof.
  intros Hb Hpos Hdig. unfold _bound_ambiguity.
  set (mk := λ w d, compact_payload (code_value AMBIGUOUS_SYMBOL) (_MESSAGES AMBIGUOUS_SYMBOL) (Some d) w).
  fold (mk root (details_with ds cs omitted (length cs))).
  case_bool_decide as Hwhole.
  { eexists. split; [reflexivity|]. destruct (details_with_get ds cs omitted (length cs) ltac:(lia)) as (Hc & Ho & Ht).
    split. eexists _, root, (length cs). split_and!; [reflexivity|done|lia|done|done|done|done|]. intros j Hj. lia. }
  assert (∀ d, d = details_with ds cs omitted 0 →
    (∀ j, (0 < j ≤ length cs)%nat → budget < text_size (mk root (details_with ds cs omitted j))) →
    ∃ p, match shed_fields (mk root) d query_fields budget with
         | (Some payload, _) => Ok payload
         | (None, d') => if bool_decide (text_size (mk None d') ≤ budget) then Ok (mk None d') else Err PresentValue
         end = Ok p ∧ candidates_shown ds cs omitted budget root p) as Hshed.
  { intros d -> Hbig. destruct (details_with_get ds cs omitted 0 ltac:(lia)) as (Hc & Ho & Ht).
    assert (∀ ks w, ks `sublist_of` query_fields → text_size (mk w (without ks (details_with ds cs omitted 0))) ≤ budget →
      candidates_shown ds cs omitted budget root (mk w (without ks (details_with ds cs omitted 0)))) as Hshow.
    { intros ks w Hks Hfit.
      assert (∀ k : string, lit k ∉ query_fields → lit k ∉ ks) as Hk by (intros k Hk Hin; apply Hk; by eapply elem_of_sublist).
      split. eexists _, w, 0%nat. split; [reflexivity|]. unfold omitted_of.
      rewrite !without_get by (apply Hk; apply (bool_decide_eq_true_1 _); vm_compute; reflexivity).
      split_and!; [done|lia|done|exact Ho|exact Ht|lia|done]. }
    destruct (shed_fields _ _ _ _) as [o d'] eqn:Hs. apply shed_fields_spec in Hs as (k & _ & -> & Hp & _).
    destruct o as [p|].
    - destruct Hp as (-> & Hfit & _). eexists. split; [reflexivity|]. apply Hshow; [apply sublist_take|done].
    - subst k. rewrite firstn_all. pose proof (ambiguity_core_size ds cs omitted Hpos Hdig) as Hsize.
      fold (mk None (without query_fields (details_with ds cs omitted 0))) in Hsize.
      rewrite bool_decide_eq_true_2 by lia. eexists. split; [reflexivity|]. apply Hshow; [done|lia]. }
  destruct (details_with_get ds cs omitted (length cs) ltac:(lia)) as (Hc & Ho & _).
  rewrite Hc, firstn_all2 by (by rewrite length_fmap). fold (omitted_of (details_with ds cs omitted (length cs))).
  destruct (_compact_ambiguity_candidate <$> cs) as [|x xs] eqn:Hcs.
  { apply fmap_nil_inv in Hcs. apply Hshed; [by rewrite Hcs|]. intros j. rewrite Hcs. simpl. lia. }
  rewrite <-Hcs, length_fmap, Ho, Z.sub_diag, Z.add_0_r.
  assert (0 < length cs)%nat as Hlen by (destruct cs; [done|simpl; lia]).
  pose proof (pop_candidates_spec (mk root) (details_with ds cs omitted (length cs)) (_compact_ambiguity_candidate <$> cs)
    (Z.of_nat (length cs) + omitted) budget (length cs) Hlen) as Hpop.
  destruct (pop_candidates _ _ _ _ _ _) as [p|d].
  - destruct Hpop as (k & Hk & -> & Hfit & Hbig). eexists. split; [reflexivity|].
    rewrite with_candidates_shape in * by done.
    destruct (details_with_get ds cs omitted k ltac:(lia)) as (Hck & Hok & Htk).
    split. eexists _, root, k. split_and!; [reflexivity|done|lia|done|done|done|done|]. intros j Hj.
    destruct (decide (j = length cs)) as [->|]; [unfold mk in Hwhole; lia|].
    specialize (Hbig j ltac:(lia)). by rewrite with_candidates_shape in Hbig by lia.
  - destruct Hpop as [-> Hbig]. rewrite with_candidates_shape by done. apply Hshed; [done|]. intros j Hj.
    destruct (decide (j = length cs)) as [->|]; [lia|]. specialize (Hbig j ltac:(lia)).
    by rewrite with_candidates_shape in Hbig by lia.
Qed.

(** ** Properties *)

(** C36: a correctable failure is always shown. For an error with one of the deterministic codes, its canonical message and a
    known recovery action, and any valid limit, the client gets an answer within the limit that has the code, the message
    and the recovery action. Everything is shown when it fits. Otherwise whole fields of the details are given up one by
    one until the answer fits, and no more than needed: first the fields that echo the query, in their order, then the
    others from the largest to the smallest; the root of the workspace goes last, when only the action is left. *)
Theorem deterministic_error_presented e ds budget :
  er_code e ∈ [INVALID_INPUT; INVALID_PATH; SYMBOL_NOT_FOUND] → er_message e = _MESSAGES (er_code e) →
  er_details e = JObj ds → NoDup ds.*1 → _validate_recovery_action ds = Ok tt →
  MIN_MAX_ANSWER_CHARS ≤ budget ≤ MAX_MAX_ANSWER_CHARS →
  ∃ payload, render_error_result (error_dict e) (Some (PInt budget)) = Ok (render_payload payload) ∧
    presented (code_value (er_code e)) (_MESSAGES (er_code e)) (client_details ds) (workspace_root (error_dict e)) budget payload ∧
    dict_get (default [] (client_details ds)) (lit "next_action") = dict_get ds (lit "next_action").
Proof.
  intros Hcode Hmsg Hds Hnd Hact Hb. pose proof (client_details_action ds) as Hca.
  destruct (error_dict_parts e) as (Hok & Herr & _).
  assert (NoDup (default [] (client_details ds)).*1 ∧ client_details ds ≠ Some []) as [Hnd' Hne].
  { unfold client_details. pose proof (NoDup_filter (λ k, k ∉ _RUNTIME_AUTHORITY_DETAIL_FIELDS) _ Hnd) as H.
    rewrite <-without_keys in H. unfold without in H. by destruct (filter _ ds). }
  assert (correction_details (Some (er_details e)) = Ok (client_details ds)) as Hcd.
  { rewrite Hds. unfold correction_details. destruct ds as [|kv ds]; [done|].
    assert (_validate_recovery_action (filter (λ kv, kv.1 ∉ _RUNTIME_AUTHORITY_DETAIL_FIELDS) (kv :: ds)) = Ok tt) as ->; [|cbn [mbind res_bind]; unfold client_details; by destruct (filter _ _)].
    unfold _validate_recovery_action in *. unfold client_details in Hca.
    destruct (filter _ (kv :: ds)); cbn [default from_option id] in Hca; by rewrite Hca. }
  destruct (bound_deterministic_presented (er_code e) (client_details ds) (workspace_root (error_dict e)) budget)
    as (p & Hp & Hpres); [done|lia|done|rewrite Hca; by apply validated_action|done|].
  exists p. split_and!; [|done|done]. unfold render_error_result. rewrite Hok, Herr, Hmsg.
  cbn [ensure mbind res_bind].
  change (dict_get _ (lit "code")) with (Some (JStr (code_value (er_code e)))).
  change (dict_get _ (lit "message")) with (Some (JStr (_MESSAGES (er_code e)))).
  change (dict_get _ (lit "details")) with (Some (er_details e)). rewrite Hcd. unfold valid_budget.
  cbn [validate_max_answer_chars]. rewrite (bool_decide_eq_true_2 (MIN_MAX_ANSWER_CHARS ≤ budget ≤ MAX_MAX_ANSWER_CHARS)) by done.
  cbn [mbind res_bind]. rewrite Hp.
  clear -Hcode. rewrite !elem_of_cons, elem_of_nil in Hcode. by destruct Hcode as [-> |[-> |[-> |[]]]].
Qed.

(** an ambiguity accounts for its candidates. Within any valid limit the client gets the code, the message and the
    longest prefix of the candidates that fits beside the query and the workspace, each reduced to what identifies it;
    the candidates shown and the number reported as left out are together all there were, an incomplete list says so, and
    the query and the workspace are given up only when no candidate is shown. *)
Theorem ambiguous_candidates_accounted e ds cs omitted budget :
  er_code e = AMBIGUOUS_SYMBOL → er_message e = _MESSAGES AMBIGUOUS_SYMBOL → er_details e = JObj ds →
  dict_get ds (lit "candidates") = Some (JList cs) → default (JInt 0) (dict_get ds (lit "omitted_count")) = JInt omitted →
  0 ≤ omitted → (length (dec (Z.of_nat (length cs) + omitted)) ≤ 200)%nat →
  MIN_MAX_ANSWER_CHARS ≤ budget ≤ MAX_MAX_ANSWER_CHARS →
  ∃ payload, render_error_result (error_dict e) (Some (PInt budget)) = Ok (render_payload payload) ∧
    candidates_shown ds cs omitted budget (workspace_root (error_dict e)) payload.
Proof.
  intros Hcode Hmsg Hds Hc Ho Hpos Hdig Hb. destruct (error_dict_parts e) as (Hok & Herr & _).
  destruct (bound_ambiguity_shown ds cs omitted budget (workspace_root (error_dict e))) as (p & Hp & Hshown); [lia|done|done|].
  exists p. split; [|done]. unfold render_error_result. rewrite Hok, Herr, Hmsg, Hcode. cbn [ensure mbind res_bind].
  change (dict_get _ (lit "code")) with (Some (JStr (code_value AMBIGUOUS_SYMBOL))).
  change (dict_get _ (lit "message")) with (Some (JStr (_MESSAGES AMBIGUOUS_SYMBOL))).
  cbv beta iota. rewrite bool_decide_eq_true_2 by done. unfold _compact_ambiguity.
  change (dict_get _ (lit "details")) with (Some (er_details e)). rewrite Hds, (ambiguity_details_with ds cs omitted) by done.
  cbn [mbind res_bind].
  assert (_validate_recovery_action (details_with ds cs omitted (length cs)) = Ok tt) as ->.
  { unfold _validate_recovery_action. rewrite (proj2 (dict_get_None _ _)); [done|]. unfold details_with. rewrite fmap_app, not_elem_of_app.
    split; [not_echo|]. destruct (_ || _); apply (bool_decide_eq_true_1 _); vm_compute; reflexivity. }
  cbn [mbind res_bind]. unfold valid_budget. cbn [validate_max_answer_chars].
  rewrite (bool_decide_eq_true_2 (MIN_MAX_ANSWER_CHARS ≤ budget ≤ MAX_MAX_ANSWER_CHARS)) by done. cbn [mbind res_bind]. by rewrite Hp.
Qed.

(** Every other failure with a known recovery action is passed on unchanged. *)
Lemma other_errors_unchanged e ds m :
  er_code e ∉ [INVALID_INPUT; INVALID_PATH; SYMBOL_NOT_FOUND; AMBIGUOUS_SYMBOL] → er_details e = JObj ds →
  _validate_recovery_action ds = Ok tt → render_error_result (error_dict e) m = Ok (render_payload (error_dict e)).
Proof.
  intros Hcode Hds Hact. destruct (error_dict_parts e) as (Hok & Herr & _).
  unfold render_error_result. rewrite Hok, Herr, mapping_copy_id. cbn [ensure mbind res_bind].
  change (dict_get _ (lit "code")) with (Some (JStr (code_value (er_code e)))).
  change (dict_get _ (lit "message")) with (Some (JStr (er_message e))).
  change (dict_get _ (lit "details")) with (Some (er_details e)). rewrite Hds, Hact.
  clear -Hcode. by destruct (er_code e); try done; destruct Hcode; rewrite !elem_of_cons; tauto.
Qed.

Module PresentationExamples.

Definition workspace : WorkspaceMetadata := {| wm_root := lit "/w"; wm_kind := lit "git"; wm_working_subdirectory := lit "/w" |}.

Definition failure (code : ErrorCode) (ds : fields) : ErrorEnvelope :=
  {| er_code := code; er_message := _MESSAGES code; er_retry := None; er_details := JObj ds; er_workspace := Some workspace;
     er_adapter := None; er_generations := None |}.

(** A missing symbol whose name is too long for the answer. *)
Definition missing : fields :=
  [(lit "relative_path", JStr (lit "a.py")); (lit "name_path", JStr (replicate 400 97%N)); (lit "engine", JStr (lit "pyright"));
   (lit "next_action", JStr (lit "get_symbols_overview"))].

Example missing_presented :
  match render_error_result (error_dict (failure SYMBOL_NOT_FOUND missing)) (Some (PInt 512)) with
  | Ok r => ct_structured r = compact_payload (lit "SYMBOL_NOT_FOUND") (_MESSAGES SYMBOL_NOT_FOUND)
              (Some [(lit "relative_path", JStr (lit "a.py")); (lit "next_action", JStr (lit "get_symbols_overview"))]) (Some (lit "/w"))
  | Err _ => False
  end.
Proof. vm_compute. reflexivity. Qed.

Definition candidate (name : string) : json := JObj [(lit "name_path", JStr (lit name)); (lit "kind", JInt 12); (lit "detail", JNull)].
Definition candidates : list json := candidate <$> ["a/f"; "b/f"; "c/f"; "d/f"; "e/f"; "g/f"; "h/f"; "i/f"; "j/f"; "k/f"; "l/f"]%string.
Definition ambiguous : fields := [(lit "name_path", JStr (lit "f")); (lit "candidates", JList candidates)].

(** At the smallest limit, eight of the eleven candidates are shown and three are counted. *)
Example ambiguous_presented :
  match render_error_result (error_dict (failure AMBIGUOUS_SYMBOL ambiguous)) (Some (PInt 512)) with
  | Ok r => ct_structured r = compact_payload (lit "AMBIGUOUS_SYMBOL") (_MESSAGES AMBIGUOUS_SYMBOL)
              (Some (details_with ambiguous candidates 0 8)) (Some (lit "/w"))
  | Err _ => False
  end.
Proof. vm_compute. reflexivity. Qed.

Lemma deterministic_error_presented_witness :
  let e := failure SYMBOL_NOT_FOUND missing in
  ∃ payload, render_error_result (error_dict e) (Some (PInt 512)) = Ok (render_payload payload) ∧
    presented (code_value (er_code e)) (_MESSAGES (er_code e)) (client_details missing) (workspace_root (error_dict e)) 512 payload ∧
    dict_get (default [] (client_details missing)) (lit "next_action") = dict_get missing (lit "next_action").
Proof.
  apply (deterministic_error_presented (failure SYMBOL_NOT_FOUND missing) missing 512).
  - right. right. left.
  - reflexivity.
  - reflexivity.
  - apply (bool_decide_eq_true_1 _). vm_compute. reflexivity.
  - vm_compute. reflexivity.
  - unfold MIN_MAX_ANSWER_CHARS, MAX_MAX_ANSWER_CHARS. lia.
Defined.

Lemma ambiguous_candidates_accounted_witness :
  let e := failure AMBIGUOUS_SYMBOL ambiguous in
  ∃ payload, render_error_result (error_dict e) (Some (PInt 512)) = Ok (render_payload payload) ∧
    candidates_shown ambiguous candidates 0 512 (workspace_root (error_dict e)) payload.
Proof.
  apply (ambiguous_candidates_accounted (failure AMBIGUOUS_SYMBOL ambiguous) ambiguous candidates 0 512).
  - reflexivity.
  - reflexivity.
  - reflexivity.
  - vm_compute. reflexivity.
  - vm_compute. reflexivity.
  - lia.
  - vm_compute. lia.
  - unfold MIN_MAX_ANSWER_CHARS, MAX_MAX_ANSWER_CHARS. lia.
Defined.
End PresentationExamples.
