(* ===== verification/Recovery.v ===== *)
(** * Results of an assignment-range recovery

    The part that [src/serena_light/lsp/python_assignment_recovery.py] and
    [src/serena_light/lsp/typescript_assignment_recovery.py] share: the symbols
    whose ranges a recovery extends, the result with the symbols it had to leave,
    and the classifier the normalization asks about them.

    A mapping is the list of its items, as in [Normalize]. Python's [==] is
    executable on the values JSON has; what a float, an exception or an object of
    another class equals is the parameter [opaque_eq]. *)

From S2P Require Import Prelude Json Envelopes Positions Normalize.

Definition _VARIABLE_SYMBOL_KIND : Z := 13.
Definition _CONSTANT_SYMBOL_KIND : Z := 14.
Definition _RECOVERABLE_KINDS : list Z := [_VARIABLE_SYMBOL_KIND; _CONSTANT_SYMBOL_KIND].

Record UnresolvedAssignmentSymbol := { un_name : pystr; un_range : raw_symbol; un_reason : pystr }.

Record AssignmentRecoveryResult := {
  rc_symbols : list raw_symbol;
  rc_unresolved : list UnresolvedAssignmentSymbol;
}.

Section equality.
Context (opaque_eq : pyany → pyany → bool).

Definition is_opaque (v : pyany) : bool := match v with PFloat _ _ | PException | POther => true | _ => false end.

(** A [bool] is an [int]. *)
Definition as_int (v : pyany) : option Z := match v with PBool b => Some (Z.b2z b) | PInt z => Some z | _ => None end.

Definition string_keys (d : raw_symbol) : bool := forallb (λ kv, match kv.1 with Some _ => true | None => false end) d.

(** [v == w] *)
Fixpoint py_eq (v w : pyany) : bool :=
  if is_opaque v || is_opaque w then opaque_eq v w
  else match v with
  | PBool _ | PInt _ => bool_decide (as_int w = as_int v)
  | PStr s => match w with PStr t => bool_decide (s = t) | _ => false end
  | PMapping d =>
      match w with
      | PMapping d' =>
          if string_keys d && string_keys d'
          then bool_decide (length d = length d') &&
               forallb (λ kv, match dict_get d' kv.1 with Some x => py_eq kv.2 x | None => false end) d
          else opaque_eq v w
      | _ => false
      end
  | PSequence l =>
      match w with
      | PSequence l' =>
          (fix go (l l' : list pyany) : bool :=
            match l, l' with
            | [], [] => true
            | x :: l, y :: l' => py_eq x y && go l l'
            | _, _ => false
            end) l l'
      | _ => false
      end
  | _ => match w with PNone => true | _ => false end
  end.

(** [kind in _RECOVERABLE_KINDS]: [None] where the value has no hash. *)
Definition kind_in (kind : pyany) : option bool :=
  match kind with
  | PMapping _ | PSequence _ => None
  | _ => Some (existsb (λ k, py_eq kind (PInt k)) _RECOVERABLE_KINDS)
  end.

(** [raw.get(k)] *)
Definition raw_value (raw : raw_symbol) (k : string) : pyany := default PNone (raw_get raw k).

Definition incomplete_range_reason (r : AssignmentRecoveryResult) (name : pystr) (selection_range : raw_symbol)
    : option pystr :=
  un_reason ∘ snd <$>
    list_find (λ item, un_name item = name ∧ py_eq (PMapping (un_range item)) (PMapping selection_range) = true)
      (rc_unresolved r).

Definition body_incomplete_reason (r : AssignmentRecoveryResult) (raw : raw_symbol) : option pystr :=
  match raw_value raw "name", raw_value raw "selectionRange" with
  | PStr name, PMapping selection => incomplete_range_reason r name selection
  | _, _ => None
  end.

Definition _lsp_dict (p : LspPosition) : pyany :=
  PMapping [(Some (lit "line"), PInt (line p)); (Some (lit "character"), PInt (character p))].

Definition range_dict (start stop : LspPosition) : pyany :=
  PMapping [(Some (lit "start"), _lsp_dict start); (Some (lit "end"), _lsp_dict stop)].

(** [{**raw, "range": new_range}] *)
Definition with_range (raw : raw_symbol) (start stop : LspPosition) : raw_symbol :=
  dict_set raw (Some (lit "range")) (range_dict start stop).

(** ** Lemmas *)

Lemma map_res_lookup {E A B} (f : A → res E B) l k i x :
  map_res f l = Ok k → l !! i = Some x → ∃ y, k !! i = Some y ∧ f x = Ok y.
Proof.
  revert k i. induction l as [|z l IH]; intros k i; [done|]. cbn [map_res].
  intros (y & Hy & H)%res_bind_Ok. apply res_bind_Ok in H as (ys & Hys & [= <-]).
  destruct i as [|i]; [intros [= <-]; by exists y|]. intros Hi. by apply (IH ys i).
Qed.

(** A listed symbol is always classified as incomplete. *)
Lemma listed_has_reason r item raw name selection :
  item ∈ rc_unresolved r → un_name item = name → py_eq (PMapping (un_range item)) (PMapping selection) = true →
  raw_value raw "name" = PStr name → raw_value raw "selectionRange" = PMapping selection →
  is_Some (body_incomplete_reason r raw).
Proof.
  intros Hin Hname Heq Hn Hs. unfold body_incomplete_reason, incomplete_range_reason. rewrite Hn, Hs.
  apply fmap_is_Some. eapply list_find_elem_of; [done|]. by split.
Qed.

(** Conversely a reason comes from a listed symbol of that name and range. *)
Lemma reason_listed r raw reason :
  body_incomplete_reason r raw = Some reason →
  ∃ item selection, item ∈ rc_unresolved r ∧ un_reason item = reason ∧
    raw_value raw "name" = PStr (un_name item) ∧ raw_value raw "selectionRange" = PMapping selection ∧
    py_eq (PMapping (un_range item)) (PMapping selection) = true.
Proof.
  unfold body_incomplete_reason, incomplete_range_reason.
  destruct (raw_value raw "name") as [| | |name| | | | |] eqn:Hn; try done.
  destruct (raw_value raw "selectionRange") as [| | | | | |selection| |] eqn:Hs; try done.
  intros ([i item] & Hf & ->)%fmap_Some. apply list_find_Some in Hf as (Hi & [Hname Heq] & _).
  exists item, selection. split_and!; [by eapply list_elem_of_lookup_2|done|by rewrite Hname|done|done].
Qed.

Lemma with_range_get raw start stop k :
  lit k ≠ lit "range" → raw_value (with_range raw start stop) k = raw_value raw k.
Proof. intros Hk. unfold raw_value, raw_get, with_range. rewrite dict_get_set_ne; [done|]. congruence. Qed.

Lemma with_range_range raw start stop : raw_value (with_range raw start stop) "range" = range_dict start stop.
Proof. unfold raw_value, raw_get, with_range. by rewrite dict_get_set_eq. Qed.
End equality.

(** ** What the normalization makes of a recovered symbol *)

Section normalized.
Context (urlparse : pystr → parsed_uri) (unquote : pystr → pystr) (py_str : pyany → pystr).
Context (name_fn : pystr → pystr) (f : raw_symbol → option pystr).

Lemma siblings_loop_root rec uri parent totals l : ∀ seen roots i root,
  siblings_loop urlparse unquote py_str (Some f) rec uri parent totals seen l = Ok roots → roots !! i = Some root →
  ∃ raw, l.*1 !! i = Some raw ∧ ns_incomplete root = f raw ∧
         symbol_location urlparse unquote uri raw = Ok (ns_location root).
Proof using Type.
  induction l as [|[raw name] l IH]; intros seen roots i root; cbn [siblings_loop]; [by intros [= <-]|].
  intros (s & Hs & H)%res_bind_Ok. apply res_bind_Ok in H as (rest & Hrest & [= <-]).
  destruct i as [|i]; cbn [lookup list_lookup]; [|intros Hi; by apply (IH (count_up seen name) rest i root)]. intros [= <-].
  exists raw. split; [done|]. unfold normalize_one in Hs. apply res_bind_Ok in Hs as (loc & Hloc & Hs).
  apply res_bind_Ok in Hs as (sel & _ & Hs). apply res_bind_Ok in Hs as (kind & _ & Hs).
  apply res_bind_Ok in Hs as (cms & _ & Hs). by apply res_bind_Ok in Hs as (cs & _ & [= <-]).
Qed.

Lemma normalized_root raws uri roots i root :
  normalize_document_symbols urlparse unquote py_str name_fn (Some f) (Some raws) uri None = Ok roots →
  roots !! i = Some root →
  ∃ raw, raws !! i = Some raw ∧ ns_incomplete root = f raw ∧ symbol_location urlparse unquote uri raw = Ok (ns_location root).
Proof using Type.
  unfold normalize_document_symbols. destruct raws as [|raw raws]; [by intros [= <-]|].
  intros (k & Hk & [= <-])%res_bind_Ok Hi. unfold raws_depth in Hk. revert Hk.
  generalize (any_depth (PSequence (PMapping <$> raw :: raws))). intros [|fuel]; [done|]. cbn [_normalize_siblings].
  intros (names & Hnames & H)%res_bind_Ok. destruct (siblings_loop_root _ _ _ _ _ _ _ _ _ H Hi) as (r & Hr & Hrest).
  exists r. split; [|done]. rewrite fst_zip in Hr; [done|]. by rewrite (map_res_length _ _ _ Hnames).
Qed.

(** An extended symbol that keeps no location of its own is shown with its new range. *)
Lemma extended_location raw start stop uri loc :
  raw_get raw "location" = None → symbol_location urlparse unquote uri (with_range raw start stop) = Ok loc →
  loc_range loc = {| rg_start := {| pos_line := line start; pos_character := character start |};
                     rg_end := {| pos_line := line stop; pos_character := character stop |} |}.
Proof using Type.
  intros Hloc. unfold symbol_location, raw_get, with_range. rewrite dict_get_set_ne by done.
  unfold raw_get in Hloc. rewrite Hloc, dict_get_set_eq.
  intros (rg & Hrg & [= <-])%res_bind_Ok. cbn [loc_range]. change (_range _) with
    (range_init {| pos_line := line start; pos_character := character start |}
                {| pos_line := line stop; pos_character := character stop |}) in Hrg.
  unfold range_init, ensure in Hrg. repeat case_match; by simplify_eq/=.
Qed.
End normalized.
