(* ===== verification/PythonRecovery.v ===== *)
(** * Recovery of Python assignment ranges

    Model of [src/serena_light/lsp/python_assignment_recovery.py]: the statements
    a module executes, the names an assignment binds, the conversion of [ast]
    positions to text offsets, the choice of the one enclosing assignment, and the
    extension of the ranges of identifier-only symbols.

    [ast.parse] is a parameter: its result is a tree with the nodes the recovery
    looks at, a [SyntaxError], or another exception, which passes through. *)

From S2P Require Import Prelude Json Envelopes Positions Normalize Recovery.

(** ** Syntax trees *)

Record span := { lineno : Z; col_offset : Z; end_lineno : option Z; end_col_offset : option Z }.

Inductive expr :=
| Name (id : pystr) (at_ : span)
| Starred (value : expr)
| TupleOrList (elts : list expr)
| OtherExpr.

(** [With], [For] and [Try] stand for their [Async] and [Star] forms, and [For]
    for [While], which the recovery treats alike. *)
Inductive stmt :=
| Assign (targets : list expr) (at_ : span)
| AnnAssign (target : expr) (at_ : span)
| If (body orelse : list stmt)
| Try (body : list stmt) (handlers : list (list stmt)) (orelse finalbody : list stmt)
| With (body : list stmt)
| For (body orelse : list stmt)
| Match (cases : list (list stmt))
| OtherStmt.

Inductive parse_result := Parsed (body : list stmt) | SyntaxInvalid | ParseRaises.

Inductive recovery_error :=
| ParseFailed        (** an exception of [ast.parse] that is not a [SyntaxError] *)
| AstValue           (** [ValueError], [UnicodeDecodeError] included *)
| AstAssertion
| UnhashableKind     (** [TypeError] *)
| RangePosition (e : position_error).

Definition executed_suite (exec : stmt → list stmt) (l : list stmt) : list stmt := concat (exec <$> l).

Fixpoint executed (s : stmt) : list stmt :=
  s :: match s with
       | If body orelse | For body orelse => executed_suite executed body ++ executed_suite executed orelse
       | Try body handlers orelse finalbody =>
           executed_suite executed body ++ concat (executed_suite executed <$> handlers) ++
           executed_suite executed orelse ++ executed_suite executed finalbody
       | With body => executed_suite executed body
       | Match cases => concat (executed_suite executed <$> cases)
       | _ => []
       end.

Definition _module_executed_statements (statements : list stmt) : list stmt := executed_suite executed statements.

Fixpoint _flatten_names (target : expr) : list (pystr * span) :=
  match target with
  | Name id at_ => [(id, at_)]
  | Starred value => _flatten_names value
  | TupleOrList elts => concat (_flatten_names <$> elts)
  | OtherExpr => []
  end.

(** ** Offsets *)

(** The [while] loop on the text from [index] on: the starts of the further lines
    and the ends of the contents. *)
Fixpoint boundaries_loop (index : nat) (t : pystr) : list nat * list nat :=
  match t with
  | [] => ([], [index])
  | c :: t1 =>
      let single := if bool_decide (c = cp_LF) || bool_decide (c = cp_CR)
                    then let r := boundaries_loop (index + 1) t1 in ((index + 1)%nat :: r.1, index :: r.2)
                    else boundaries_loop (index + 1) t1 in
      match t1 with
      | d :: t2 =>
          if bool_decide (c = cp_CR) && bool_decide (d = cp_LF)
          then let r := boundaries_loop (index + 2) t2 in ((index + 2)%nat :: r.1, index :: r.2)
          else single
      | [] => single
      end
  end.

(** The two lists have one length, as [zip(strict=True)] demands ([boundaries_strict]). *)
Definition _line_boundaries (t : pystr) : list (nat * nat) :=
  let r := boundaries_loop 0 t in zip (0%nat :: r.1) r.2.

(** [l[:n]] *)
Definition slice_to {A} (l : list A) (n : Z) : list A :=
  take (Z.to_nat (if bool_decide (n < 0) then Z.of_nat (length l) + n else n)) l.

Definition _ast_offset_to_text_offset (t : pystr) (boundaries : list (nat * nat)) (lineno col_offset : Z)
    : res recovery_error nat :=
  if bool_decide (lineno < 1) || bool_decide (Z.of_nat (length boundaries) < lineno) then Err AstValue
  else
    let '(content_start, content_end) := (boundaries !!! Z.to_nat (lineno - 1)%Z : nat * nat) in
    match utf8_decode (slice_to (utf8_encode (text_slice t content_start content_end)) col_offset) with
    | Some prefix => Ok (content_start + length prefix)%nat
    | None => Err AstValue
    end.

Definition _require (value : option Z) : res recovery_error Z :=
  match value with Some z => Ok z | None => Err AstValue end.

Record _Candidate := { start_offset : nat; end_offset : nat; target_names : list (pystr * nat * nat) }.

Section recovery.
Context (ast_parse : pystr → parse_result) (opaque_eq : pyany → pyany → bool).

Section candidates.
Context (t : pystr) (boundaries : list (nat * nat)).

Definition name_offsets (name_node : pystr * span) : res recovery_error (pystr * nat * nat) :=
  start ← _ast_offset_to_text_offset t boundaries (lineno name_node.2) (col_offset name_node.2);
  end_line ← _require (end_lineno name_node.2);
  end_col ← _require (end_col_offset name_node.2);
  stop ← _ast_offset_to_text_offset t boundaries end_line end_col;
  Ok (name_node.1, start, stop).

Definition statement_candidate (target_nodes : list (pystr * span)) (at_ : span) : res recovery_error (option _Candidate) :=
  match target_nodes with
  | [] => Ok None
  | _ =>
      start ← _ast_offset_to_text_offset t boundaries (lineno at_) (col_offset at_);
      match end_lineno at_, end_col_offset at_ with
      | Some l, Some c =>
          stop ← _ast_offset_to_text_offset t boundaries l c;
          names ← map_res name_offsets target_nodes;
          Ok (Some {| start_offset := start; end_offset := stop; target_names := names |})
      | _, _ => Err AstAssertion
      end
  end.

(** The names a statement binds, and its place, if it is an assignment. *)
Definition assignment_of (node : stmt) : option (list (pystr * span) * span) :=
  match node with
  | Assign targets at_ => Some (concat (_flatten_names <$> targets), at_)
  | AnnAssign target at_ => Some (_flatten_names target, at_)
  | _ => None
  end.

Definition node_candidate (node : stmt) : res recovery_error (option _Candidate) :=
  match assignment_of node with
  | Some (target_nodes, at_) => statement_candidate target_nodes at_
  | None => Ok None
  end.
End candidates.

Definition _module_level_candidates (t : pystr) (body : list stmt) : res recovery_error (list _Candidate) :=
  found ← map_res (node_candidate t (_line_boundaries t)) (_module_executed_statements body);
  Ok (omap (M:=list) id found).

Definition SYNTAX_INVALID : pystr := lit "syntax_invalid".
Definition NO_ENCLOSING_ASSIGNMENT : pystr := lit "no_enclosing_assignment".
Definition AMBIGUOUS : pystr := lit "ambiguous".

Definition encloses (name : pystr) (id_start id_end : Z) (candidate : _Candidate) : bool :=
  existsb (λ '(target_name, target_start, target_end),
    bool_decide (target_name = name) && bool_decide (id_start < id_end) &&
    bool_decide (Z.of_nat target_start ≤ id_start) && bool_decide (id_end ≤ Z.of_nat target_end)) (target_names candidate).

Definition binds_name (name : pystr) (candidate : _Candidate) : bool :=
  existsb (λ '(target_name, _, _), bool_decide (target_name = name)) (target_names candidate).

Definition _select_enclosing_statement (candidates : list _Candidate) (name : pystr) (id_start id_end : Z)
    : _Candidate + pystr :=
  match filter (λ c, encloses name id_start id_end c = true) candidates with
  | [candidate] => inl candidate
  | _ :: _ :: _ => inr AMBIGUOUS
  | [] => match filter (λ c, binds_name name c = true) candidates with
          | _ :: _ :: _ => inr AMBIGUOUS
          | _ => inr NO_ENCLOSING_ASSIGNMENT
          end
  end.

(** The checks are made in the order of the source: the kind first. *)
Definition _identifier_only_candidate_target (raw : raw_symbol)
    : res recovery_error (option (pystr * raw_symbol * raw_symbol)) :=
  match kind_in opaque_eq (raw_value raw "kind") with
  | None => Err UnhashableKind
  | Some recoverable =>
      Ok (match raw_value raw "range", raw_value raw "selectionRange", raw_value raw "name" with
          | PMapping raw_range, PMapping raw_selection, PStr name =>
              if recoverable && py_eq opaque_eq (PMapping raw_range) (PMapping raw_selection) && nonempty name
              then Some (name, raw_range, raw_selection) else None
          | _, _, _ => None
          end)
  end.

(** [_lsp_position(raw[k])], where any exception counts as a failure. *)
Definition _lsp_position (raw : pyany) : option LspPosition :=
  match raw with
  | PMapping d => match raw_get d "line", raw_get d "character" with
                  | Some (PInt l), Some (PInt c) => Some {| line := l; character := c |}
                  | _, _ => None
                  end
  | _ => None
  end.

(** The [try] block that locates the identifier. *)
Definition identifier_offsets (m : PositionMapper) (raw_selection : raw_symbol) : option (Z * Z) :=
  start ← raw_get raw_selection "start" ≫= _lsp_position;
  stop ← raw_get raw_selection "end" ≫= _lsp_position;
  match lsp_to_text_offset m start, lsp_to_text_offset m stop with
  | Ok id_start, Ok id_end => Some (id_start, id_end)
  | _, _ => None
  end.

Definition as_recovery_error {A} (r : res position_error A) : res recovery_error A :=
  match r with Ok a => Ok a | Err e => Err (RangePosition e) end.

(** One turn of the loop; [candidates] is [None] when the syntax is invalid. *)
Definition recover_one (m : PositionMapper) (candidates : option (list _Candidate)) (raw : raw_symbol)
    : res recovery_error (raw_symbol * option UnresolvedAssignmentSymbol) :=
  target ← _identifier_only_candidate_target raw;
  match target with
  | None => Ok (raw, None)
  | Some (name, raw_range, raw_selection) =>
      let unresolved reason := Ok (raw, Some {| un_name := name; un_range := raw_range; un_reason := reason |}) in
      match candidates with
      | None => unresolved SYNTAX_INVALID
      | Some candidates =>
          match identifier_offsets m raw_selection with
          | None => unresolved NO_ENCLOSING_ASSIGNMENT
          | Some (id_start, id_end) =>
              match _select_enclosing_statement candidates name id_start id_end with
              | inl statement =>
                  start ← as_recovery_error (text_offset_to_lsp m (Z.of_nat (start_offset statement)));
                  stop ← as_recovery_error (text_offset_to_lsp m (Z.of_nat (end_offset statement)));
                  Ok (with_range raw start stop, None)
              | inr reason => unresolved reason
              end
          end
      end
  end.

Definition recover_python_module_assignment_symbols (raw_symbols : option (list raw_symbol)) (s : FileSnapshot)
    (position_encoding : PositionEncoding) : res recovery_error AssignmentRecoveryResult :=
  match raw_symbols with
  | None | Some [] => Ok {| rc_symbols := []; rc_unresolved := [] |}
  | Some raws =>
      let mapper := from_snapshot s position_encoding in
      candidates ← match ast_parse (text s) with
                   | Parsed body => c ← _module_level_candidates (text s) body; Ok (Some c)
                   | SyntaxInvalid => Ok None
                   | ParseRaises => Err ParseFailed
                   end;
      done_ ← map_res (recover_one mapper candidates) raws;
      Ok {| rc_symbols := done_.*1; rc_unresolved := omap snd done_ |}
  end.
End recovery.

(** ** Lines and offsets agree with the snapshot *)

Lemma boundaries_scan n : ∀ t i, (length t ≤ n)%nat →
  boundaries_loop i t = (lt_starts (scan_lines i t), lt_content_ends (scan_lines i t)).
Proof.
  induction n as [|n IH]; intros [|c t1] i Hn; try done; [simpl in Hn; lia|].
  simpl in Hn. simpl. rewrite (IH t1) by lia. destruct t1 as [|d t2].
  - by destruct (_ || _).
  - destruct (bool_decide (c = cp_CR) && bool_decide (d = cp_LF)).
    + rewrite (IH t2) by (simpl in Hn; lia). done.
    + by destruct (bool_decide (c = cp_LF) || _).
Qed.

(** [zip(strict=True)] does not raise. *)
Lemma boundaries_strict t : length (0%nat :: (boundaries_loop 0 t).1) = length (boundaries_loop 0 t).2.
Proof.
  rewrite (boundaries_scan (length t)) by done. cbn [fst snd].
  assert (lines_of t 0 (lt_starts (scan_lines 0 t)) (lt_content_ends (scan_lines 0 t))) as Hl.
  { apply (scan_lines_ok (length t) t [] 0); [done|simpl; lia|]. by apply content_free_nil. }
  by rewrite (lines_of_length _ _ _ _ Hl).
Qed.

Lemma boundaries_of_snapshot raw s :
  from_bytes raw = Ok s → _line_boundaries (text s) = zip (_line_starts s) (_line_content_ends s).
Proof.
  unfold from_bytes, _line_boundaries. destruct (utf8_decode _) as [t|]; [|done]. intros [= <-]. simpl.
  by rewrite (boundaries_scan (length t)).
Qed.

Lemma utf8_units t : units_of UTF8 t = Z.of_nat (length (utf8_encode t)).
Proof.
  induction t as [|c t IH]; [done|]. 
  change (units_of UTF8 (c :: t)) with (Z.of_nat (utf8_len c) + units_of UTF8 t).
  rewrite IH, utf8_encode_cons, length_app, utf8_encode_char_length. lia.
Qed.

Lemma slice_to_prefix (t : pystr) k : slice_to (utf8_encode t) (units_of UTF8 (take k t)) = utf8_encode (take k t).
Proof.
  unfold slice_to. rewrite utf8_units, bool_decide_false by lia. rewrite Nat2Z.id.
  rewrite <-(take_drop k t) at 2. by rewrite utf8_encode_app, take_app_length.
Qed.

(** A UTF-8 position of the snapshot, as [ast] writes it: lines from one, columns in bytes. *)
Definition ast_position (s : FileSnapshot) (lineno col : Z) (o : nat) : Prop :=
  lsp_to_text_offset (from_snapshot s UTF8) {| line := lineno - 1; character := col |} = Ok (Z.of_nat o).

Lemma ast_position_offset raw s l c o :
  from_bytes raw = Ok s → ast_position s l c o →
  _ast_offset_to_text_offset (text s) (_line_boundaries (text s)) l c = Ok o.
Proof.
  intros Hs. destruct (from_bytes_ok _ _ Hs) as [_ Hok]. unfold ast_position.
  intros (L & st & ce & k & Hl & Hst & Hce & Hk & Ho & Hc)%lsp_to_offset_spec; [|done]. cbn [line character] in *.
  unfold _ast_offset_to_text_offset. rewrite (boundaries_of_snapshot _ _ Hs).
  assert (zip (_line_starts s) (_line_content_ends s) !! L = Some (st, ce)) as Hz.
  { apply lookup_zip_with_Some. by exists st, ce. }
  pose proof (lookup_lt_Some _ _ _ Hz) as Hlt.
  rewrite !bool_decide_false by lia. cbn [orb]. rewrite Hl, Nat2Z.id, (list_lookup_total_correct _ _ _ Hz). subst c.
  rewrite slice_to_prefix, utf8_encode_decode.
  - f_equal. rewrite length_take. lia.
  - apply Forall_take. unfold text_slice. apply Forall_take, Forall_drop, (so_scalar _ Hok).
Qed.

(** Such an offset has a position in every encoding. *)
Lemma ast_position_lsp raw s e l c o :
  from_bytes raw = Ok s → ast_position s l c o →
  ∃ p, text_offset_to_lsp (from_snapshot s e) (Z.of_nat o) = Ok p ∧ lsp_to_text_offset (from_snapshot s e) p = Ok (Z.of_nat o).
Proof.
  intros Hs. destruct (from_bytes_ok _ _ Hs) as [_ Hok].
  intros (L & st & ce & k & Hl & Hst & Hce & Hk & Ho & Hc)%lsp_to_offset_spec; [|done].
  exists {| line := Z.of_nat L; character := units_of e (take k (text_slice (text s) st ce)) |}.
  split; [apply offset_to_lsp_spec|apply lsp_to_offset_spec]; try done; exists L, st, ce, k; split_and!; done.
Qed.

(** ** The statements a module executes *)

(** The suites of a compound statement; a function or a class is no compound statement here, for its suite does not run
    in the scope of the module. *)
Definition suites (s : stmt) : list (list stmt) :=
  match s with
  | If body orelse | For body orelse => [body; orelse]
  | Try body handlers orelse finalbody => body :: handlers ++ [orelse; finalbody]
  | With body => [body]
  | Match cases => cases
  | Assign _ _ | AnnAssign _ _ | OtherStmt => []
  end.

(** Where a statement is in another: [[]] for the statement itself, and the number of a suite and the place in it, followed
    by where it is in the statement there. *)
Inductive within : stmt → list nat → stmt → Prop :=
| within_self s : within s [] s
| within_suite s k suite i s' p t :
    suites s !! k = Some suite → suite !! i = Some s' → within s' p t → within s (k :: i :: p) t.

(** An element of a list, by its index and a place in it. *)
Definition at_index {A} (R : A → list nat → stmt → Prop) (l : list A) (p : list nat) (t : stmt) : Prop :=
  ∃ i x q, p = i :: q ∧ l !! i = Some x ∧ R x q t.

(** A statement that the module runs in its own scope, and where it stands. *)
Definition runs_at (body : list stmt) (p : list nat) (t : stmt) : Prop := at_index within body p t.

(** A list of statements in the order of their places, all of them and each once. *)
Definition enumerates (R : list nat → stmt → Prop) (places : list (list nat)) (l : list stmt) : Prop :=
  Forall2 R places l ∧ NoDup places ∧ ∀ p t, R p t → p ∈ places.

Definition bump (p : list nat) : list nat := match p with i :: p => S i :: p | [] => [] end.

Lemma at_index_enumerates {A} (R : A → list nat → stmt → Prop) (f : A → list stmt) l :
  Forall (λ x, ∃ places, enumerates (R x) places (f x)) l →
  ∃ places, enumerates (at_index R l) places (concat (f <$> l)).
Proof.
  induction 1 as [|x l (px & Hx & Hndx & Hallx) _ (pl & Hl & Hndl & Halll)].
  { exists []. split_and!; [constructor|constructor|]. by intros p t (i & x & q & _ & Hi & _). }
  exists ((cons 0%nat <$> px) ++ (bump <$> pl)). csimpl. split_and!.
  - apply Forall2_app; apply Forall2_fmap_l.
    + eapply Forall2_impl; [exact Hx|]. intros p t Hp. by exists 0%nat, x, p.
    + eapply Forall2_impl; [exact Hl|]. intros p t (i & y & q & -> & Hi & Hq). by exists (S i), y, q.
  - apply NoDup_app. split_and!.
    + apply NoDup_fmap_2; [|done]. by intros a b [= ->].
    + intros p (q & -> & _)%list_elem_of_fmap (q' & Hq & _)%list_elem_of_fmap. by destruct q'.
    + apply NoDup_fmap_2; [|done]. intros [|a p] [|b q]; simpl; congruence.
  - intros p t (i & y & q & -> & Hi & Hq). apply elem_of_app. destruct i as [|i].
    + injection Hi as ->. left. apply list_elem_of_fmap. exists q. split; [done|]. by eapply Hallx.
    + right. apply list_elem_of_fmap. exists (i :: q). split; [done|]. apply (Halll _ t). by exists i, y, q.
Qed.

Lemma executed_suites s : executed s = s :: concat (executed_suite executed <$> suites s).
Proof.
  destruct s; csimpl; rewrite ?app_nil_r; try done. by rewrite fmap_app, concat_app; csimpl; rewrite app_nil_r.
Qed.

Fixpoint stmt_nested (P : stmt → Prop) (Hs : ∀ s, Forall (Forall P) (suites s) → P s) (s : stmt) : P s :=
  let all := fix all (l : list stmt) : Forall P l :=
    match l with [] => Forall_nil_2 _ | x :: l => Forall_cons_2 _ _ _ (stmt_nested P Hs x) (all l) end in
  let alls := fix alls (l : list (list stmt)) : Forall (Forall P) l :=
    match l with [] => Forall_nil_2 _ | x :: l => Forall_cons_2 _ _ _ (all x) (alls l) end in
  Hs s (match s return Forall (Forall P) (suites s) with
        | If body orelse | For body orelse => Forall_cons_2 _ _ _ (all body) (Forall_cons_2 _ _ _ (all orelse) (Forall_nil_2 _))
        | Try body handlers orelse finalbody =>
            Forall_cons_2 _ _ _ (all body) (Forall_app_2 _ _ _ (alls handlers)
              (Forall_cons_2 _ _ _ (all orelse) (Forall_cons_2 _ _ _ (all finalbody) (Forall_nil_2 _))))
        | With body => Forall_cons_2 _ _ _ (all body) (Forall_nil_2 _)
        | Match cases => alls cases
        | Assign _ _ | AnnAssign _ _ | OtherStmt => Forall_nil_2 _
        end).

Lemma executed_enumerates s : ∃ places, enumerates (within s) places (executed s).
Proof.
  induction s as [s IH] using stmt_nested.
  destruct (at_index_enumerates (at_index within) (executed_suite executed) (suites s)) as (places & Hp & Hnd & Hall).
  { eapply Forall_impl; [exact IH|]. intros suite Hsuite. by apply at_index_enumerates. }
  exists ([] :: places). rewrite executed_suites. split_and!.
  - constructor; [constructor|]. eapply Forall2_impl; [exact Hp|].
    intros p t (k & suite & q & -> & Hk & i & s' & q' & -> & Hi & Hq). by econstructor.
  - constructor; [|done]. intros Hin. apply list_elem_of_lookup in Hin as [i Hi].
    destruct (Forall2_lookup_l _ _ _ _ _ Hp Hi) as (t & _ & k & suite & q & Hq & _). done.
  - intros p t Hp'. inversion Hp' as [|? k suite i s' q ? Hk Hi Hq]; subst; [by left|]. right. apply (Hall _ t).
    exists k, suite, (i :: q). split_and!; [done|done|]. by exists i, s', q.
Qed.

(** [_module_executed_statements] yields the statements the module runs, each once. *)
Lemma module_enumerates body : ∃ places, enumerates (runs_at body) places (_module_executed_statements body).
Proof. apply at_index_enumerates, Forall_forall. intros s _. apply executed_enumerates. Qed.

Lemma within_unique s p t t' : within s p t → within s p t' → t = t'.
Proof.
  intros H. revert t'. induction H as [s|s k suite i s' p t Hk Hi _ IH]; intros t' H'; inversion H'; subst; [done|].
  apply IH. congruence.
Qed.

Lemma runs_at_unique body p t t' : runs_at body p t → runs_at body p t' → t = t'.
Proof. intros (i & x & q & -> & Hi & Hq) (i' & x' & q' & [= <- <-] & Hi' & Hq'). eapply within_unique; [done|congruence]. Qed.

Lemma runs_at_executed body p t : runs_at body p t → t ∈ _module_executed_statements body.
Proof.
  intros Hp. destruct (module_enumerates body) as (places & Hf & _ & Hall). apply Hall in Hp as Hin.
  apply list_elem_of_lookup in Hin as [i Hi]. destruct (Forall2_lookup_l _ _ _ _ _ Hf Hi) as (t' & Ht' & Hp').
  rewrite (runs_at_unique _ _ _ _ Hp Hp'). by eapply list_elem_of_lookup_2.
Qed.

Lemma executed_runs_at body t : t ∈ _module_executed_statements body → ∃ p, runs_at body p t.
Proof.
  destruct (module_enumerates body) as (places & Hf & _). intros [i Hi]%list_elem_of_lookup.
  destruct (Forall2_lookup_r _ _ _ _ _ Hf Hi) as (p & _ & Hp). by exists p.
Qed.

(** ** The assignments of a module *)

Definition span_at (s : FileSnapshot) (at_ : span) (a b : nat) : Prop :=
  ast_position s (lineno at_) (col_offset at_) a ∧
  ∃ l c, end_lineno at_ = Some l ∧ end_col_offset at_ = Some c ∧ ast_position s l c b.

Definition located (s : FileSnapshot) (at_ : span) : Prop := ∃ a b, span_at s at_ a b.

(** What [ast] documents about positions, of the nodes the recovery reads. *)
Definition assignment_located (s : FileSnapshot) (node : stmt) : Prop :=
  ∀ names at_, assignment_of node = Some (names, at_) → located s at_ ∧ Forall (λ n, located s n.2) names.

(** The [i]-th statement of [_module_executed_statements] is an assignment from [a] to [b] with a target [name] that spans
    the identifier from [ida] to [idb]. *)
Definition assigns_index (s : FileSnapshot) (body : list stmt) (name : pystr) (ida idb : Z) (i a b : nat) : Prop :=
  ∃ node names at_ n na nb, _module_executed_statements body !! i = Some node ∧ assignment_of node = Some (names, at_) ∧
    span_at s at_ a b ∧ n ∈ names ∧ n.1 = name ∧ span_at s n.2 na nb ∧ ida < idb ∧ Z.of_nat na ≤ ida ∧ idb ≤ Z.of_nat nb.

Lemma ast_position_unique s l c a b : ast_position s l c a → ast_position s l c b → a = b.
Proof. unfold ast_position. intros -> [= H]. lia. Qed.

Lemma span_at_unique s at_ a b a' b' : span_at s at_ a b → span_at s at_ a' b' → a = a' ∧ b = b'.
Proof.
  intros (Ha & l & c & Hl & Hc & Hb) (Ha' & l' & c' & Hl' & Hc' & Hb'). simplify_eq.
  split; by eapply ast_position_unique.
Qed.

Section candidates_found.
Context (raw : list N) (s : FileSnapshot) (Hraw : from_bytes raw = Ok s).
Abbreviation boundaries := (_line_boundaries (text s)).

Definition name_found (n : pystr * span) (x : pystr * nat * nat) : Prop := x.1.1 = n.1 ∧ span_at s n.2 x.1.2 x.2.

Definition node_found (node : stmt) (o : option _Candidate) : Prop :=
  match o with
  | Some c => ∃ names at_, assignment_of node = Some (names, at_) ∧ span_at s at_ (start_offset c) (end_offset c) ∧
                           Forall2 name_found names (target_names c)
  | None => ∀ names at_, assignment_of node = Some (names, at_) → names = []
  end.

Lemma names_found names : Forall (λ n, located s n.2) names →
  ∃ xs, map_res (name_offsets (text s) boundaries) names = Ok xs ∧ Forall2 name_found names xs.
Proof using Hraw.
  induction 1 as [|n names (a & b & Ha & l & c & Hl & Hc & Hb) _ (xs & Hxs & HF)]; [by exists []|].
  exists ((n.1, a, b) :: xs). cbn [map_res].
  assert (name_offsets (text s) boundaries n = Ok (n.1, a, b)) as ->.
  { unfold name_offsets. rewrite (ast_position_offset _ _ _ _ _ Hraw Ha), Hl, Hc. cbn [mbind res_bind _require].
    by rewrite (ast_position_offset _ _ _ _ _ Hraw Hb). }
  cbn [mbind res_bind]. rewrite Hxs. split; [done|].
  constructor; [|done]. split; [done|]. split; [done|]. by exists l, c.
Qed.

Lemma node_candidate_found node : assignment_located s node →
  ∃ o, node_candidate (text s) boundaries node = Ok o ∧ node_found node o.
Proof using Hraw.
  intros Hloc. unfold node_candidate. destruct (assignment_of node) as [[names at_]|] eqn:Hn; [|exists None; split; [done|]; unfold node_found; by rewrite Hn].
  destruct (Hloc names at_ Hn) as [(a & b & Hspan) Hnames].
  destruct names as [|n names]; [exists None; split; [done|]; unfold node_found; rewrite Hn; by intros ?? [= <- _]|].
  destruct Hspan as (Ha & l & c & Hl & Hc & Hb). destruct (names_found _ Hnames) as (xs & Hxs & HF).
  exists (Some {| start_offset := a; end_offset := b; target_names := xs |}). unfold statement_candidate.
  rewrite (ast_position_offset _ _ _ _ _ Hraw Ha). cbn [mbind res_bind]. rewrite Hl, Hc, (ast_position_offset _ _ _ _ _ Hraw Hb).
  cbn [mbind res_bind]. rewrite Hxs. split; [done|]. exists (n :: names), at_. split_and!; [done| |done].
  split; [done|]. by exists l, c.
Qed.

Lemma candidates_found nodes : Forall (assignment_located s) nodes →
  ∃ found, map_res (node_candidate (text s) boundaries) nodes = Ok found ∧ Forall2 node_found nodes found.
Proof using Hraw.
  induction 1 as [|node nodes Hn _ (found & Hf & HF)]; [by exists []|].
  destruct (node_candidate_found _ Hn) as (o & Ho & Hof). exists (o :: found). cbn [map_res]. rewrite Ho. cbn [mbind res_bind].
  rewrite Hf. split; [done|by constructor].
Qed.

Lemma encloses_spec name ida idb c :
  encloses name ida idb c = true ↔
  ∃ x, x ∈ target_names c ∧ x.1.1 = name ∧ ida < idb ∧ Z.of_nat x.1.2 ≤ ida ∧ idb ≤ Z.of_nat x.2.
Proof using Type.
  unfold encloses. rewrite existsb_exists. split.
  - intros ([[n a] b] & Hin & Hb). exists (n, a, b). rewrite !andb_true_iff, !bool_decide_eq_true in Hb.
    split; [by apply list_elem_of_In|]. cbn. tauto.
  - intros ([[n a] b] & Hin & H). exists (n, a, b). rewrite !andb_true_iff, !bool_decide_eq_true.
    split; [by apply list_elem_of_In|]. cbn in H. tauto.
Qed.

Lemma enclosing_index body found name ida idb i :
  Forall2 node_found (_module_executed_statements body) found →
  ∀ a b, assigns_index s body name ida idb i a b ↔
    ∃ c, found !! i = Some (Some c) ∧ encloses name ida idb c = true ∧ start_offset c = a ∧ end_offset c = b.
Proof using Type.
  intros HF a b. split.
  - intros (node & names & at_ & n & na & nb & Hi & Hn & Hspan & Hin & Hname & Hns & Hpos).
    destruct (Forall2_lookup_l _ _ _ _ _ HF Hi) as ([c|] & Hc & Hfound); [|by rewrite (Hfound _ _ Hn) in Hin; apply elem_of_nil in Hin].
    destruct Hfound as (names' & at' & Hn' & Hspan' & HF'). rewrite Hn in Hn'. injection Hn' as <- <-.
    destruct (span_at_unique _ _ _ _ _ _ Hspan Hspan') as [-> ->]. exists c. split_and!; try done.
    apply encloses_spec. apply list_elem_of_lookup in Hin as [k Hk].
    destruct (Forall2_lookup_l _ _ _ _ _ HF' Hk) as (x & Hx & Hxn & Hxs).
    destruct (span_at_unique _ _ _ _ _ _ Hns Hxs) as [-> ->]. exists x. split_and!; try tauto; [by eapply list_elem_of_lookup_2|congruence].
  - intros (c & Hc & Henc & <- & <-). destruct (Forall2_lookup_r _ _ _ _ _ HF Hc) as (node & Hi & names & at_ & Hn & Hspan & HF').
    apply encloses_spec in Henc as (x & Hx & Hname & Hpos). apply list_elem_of_lookup in Hx as [k Hk].
    destruct (Forall2_lookup_r _ _ _ _ _ HF' Hk) as (n & Hnk & Hxn & Hxs).
    exists node, names, at_, n, x.1.2, x.2. split_and!; try tauto; [by eapply list_elem_of_lookup_2|congruence].
Qed.
End candidates_found.

(** ** One symbol *)

(** How many elements a filter leaves, by their positions. *)
Lemma filter_positions {A} (P : A → Prop) `{∀ x, Decision (P x)} (found : list (option A)) :
  match filter P (omap id found) with
  | [] => ∀ i c, found !! i = Some (Some c) → ¬ P c
  | [c] => ∃ i, found !! i = Some (Some c) ∧ P c ∧ ∀ j c', found !! j = Some (Some c') → P c' → j = i
  | _ => ∃ i j c c', i ≠ j ∧ found !! i = Some (Some c) ∧ found !! j = Some (Some c') ∧ P c ∧ P c'
  end.
Proof.
  induction found as [|o found IH]; [done|].
  destruct o as [x|]; cbn [omap list_omap id]; [|].
  - rewrite filter_cons. case_decide as Hx.
    + destruct (filter P (omap id found)) as [|c [|c' l]].
      * exists 0%nat. split_and!; [done|done|]. intros [|j] c' Hj; [done|]. by intros ?%(IH j c' Hj).
      * destruct IH as (i & Hi & Hc & _). by exists 0%nat, (S i), x, c.
      * destruct IH as (i & j & a & b & Hij & Ha & Hb & HP). exists (S i), (S j), a, b. split; [congruence|done].
    + destruct (filter P (omap id found)) as [|c [|c' l]].
      * intros [|i] c Hi; [by injection Hi as <-|by eapply IH].
      * destruct IH as (i & Hi & Hc & Hu). exists (S i). split_and!; [done|done|].
        intros [|j] c' Hj HP; [by injection Hj as <-|]. f_equal. by eapply Hu.
      * destruct IH as (i & j & a & b & Hij & Ha & Hb & HP). exists (S i), (S j), a, b. split; [congruence|done].
  - destruct (filter P (omap id found)) as [|c [|c' l]].
    + intros [|i] c Hi; [done|by eapply IH].
    + destruct IH as (i & Hi & Hc & Hu). exists (S i). split_and!; [done|done|]. intros [|j] c' Hj HP; [done|]. f_equal. by eapply Hu.
    + destruct IH as (i & j & a & b & Hij & Ha & Hb & HP). exists (S i), (S j), a, b. split; [congruence|done].
Qed.

Section one_symbol.
Context (opaque_eq : pyany → pyany → bool).
Abbreviation target := (_identifier_only_candidate_target opaque_eq).

Lemma target_fields raw name rng sel : target raw = Ok (Some (name, rng, sel)) →
  raw_value raw "name" = PStr name ∧ raw_value raw "selectionRange" = PMapping sel ∧
  raw_value raw "range" = PMapping rng ∧ py_eq opaque_eq (PMapping rng) (PMapping sel) = true.
Proof using Type.
  unfold _identifier_only_candidate_target. destruct (kind_in _ _) as [k|]; [|done]. intros [= H].
  destruct (raw_value raw "range"), (raw_value raw "selectionRange"), (raw_value raw "name"); try done.
  destruct (k && _ && _) eqn:Hb; [|done]. injection H as <- <- <-. rewrite !andb_true_iff in Hb. tauto.
Qed.

Lemma recover_one_cases m candidates raw out u : recover_one opaque_eq m candidates raw = Ok (out, u) →
  (target raw = Ok None ∧ out = raw ∧ u = None) ∨
  ∃ name rng sel, target raw = Ok (Some (name, rng, sel)) ∧
    ((∃ start stop, out = with_range raw start stop ∧ u = None) ∨
     (out = raw ∧ ∃ reason, u = Some {| un_name := name; un_range := rng; un_reason := reason |})).
Proof using Type.
  unfold recover_one. intros (tg & Htg & H)%res_bind_Ok. rewrite Htg. destruct tg as [[[name rng] sel]|]; [|left; by injection H as <- <-].
  right. exists name, rng, sel. split; [done|].
  destruct candidates as [candidates|]; [|injection H as <- <-; right; by eauto].
  destruct (identifier_offsets m sel) as [[ida idb]|]; [|injection H as <- <-; right; by eauto].
  destruct (_select_enclosing_statement _ _ _ _) as [c|reason]; [|injection H as <- <-; right; by eauto].
  apply res_bind_Ok in H as (start & _ & H). apply res_bind_Ok in H as (stop & _ & [= <- <-]). left. by exists start, stop.
Qed.

(** Every symbol that a recovery reports is classified as incomplete. *)
Lemma reported_has_reason raws m candidates outs i raw out item :
  map_res (recover_one opaque_eq m candidates) raws = Ok outs → raws !! i = Some raw → outs !! i = Some (out, Some item) →
  is_Some (body_incomplete_reason opaque_eq {| rc_symbols := outs.*1; rc_unresolved := omap snd outs |} raw).
Proof using Type.
  intros Hm Hraw Hout. destruct (map_res_lookup _ _ _ _ _ Hm Hraw) as (y & Hy & Hone). rewrite Hout in Hy. injection Hy as <-.
  apply recover_one_cases in Hone as [(_ & _ & ?)|(name & rng & sel & Htg & [(? & ? & _ & ?)|(_ & reason & [= ->])])]; [done..|].
  apply target_fields in Htg as (Hn & Hs & _ & Heq).
  eapply (listed_has_reason _ _ {| un_name := name; un_range := rng; un_reason := reason |}); [|done|exact Heq|done|done].
  apply list_elem_of_omap. eexists (out, _). split; [by eapply list_elem_of_lookup_2|done].
Qed.

(** An identifier-only symbol is extended, or reported. *)
Lemma extended_or_reported raws m candidates outs i raw out name rng sel :
  map_res (recover_one opaque_eq m candidates) raws = Ok outs → raws !! i = Some raw → outs.*1 !! i = Some out →
  target raw = Ok (Some (name, rng, sel)) →
  (∃ start stop, out = with_range raw start stop) ∨
  (out = raw ∧ is_Some (body_incomplete_reason opaque_eq {| rc_symbols := outs.*1; rc_unresolved := omap snd outs |} raw)).
Proof using Type.
  intros Hm Hraw Hout Htg. destruct (map_res_lookup _ _ _ _ _ Hm Hraw) as ([out' u] & Hi & Hone).
  rewrite list_lookup_fmap, Hi in Hout. injection Hout as <-.
  apply recover_one_cases in Hone as [(Hno & _)|(n & r & se & _ & [(start & stop & -> & _)|(-> & reason & ->)])];
    [congruence|left; by eauto|right; split; [done|]]. by eapply reported_has_reason.
Qed.
End one_symbol.

Section recovery_facts.
Context (opaque_eq : pyany → pyany → bool).
Context (raw_file : list N) (s : FileSnapshot) (e : PositionEncoding) (Hraw : from_bytes raw_file = Ok s).
Abbreviation m := (from_snapshot s e).
Abbreviation target := (_identifier_only_candidate_target opaque_eq).

(** The symbol after the recovery of a module with the given statements: extended to the one assignment that encloses
    its identifier and binds its name, or left as it was and [reported]. *)
Definition index_recovered (body : list stmt) (raw out : raw_symbol) (reported : Prop) : Prop :=
  match target raw with
  | Ok (Some (name, _, sel)) =>
      match identifier_offsets m sel with
      | Some (ida, idb) =>
          (∃ i a b start stop, assigns_index s body name ida idb i a b ∧
             (∀ j a' b', assigns_index s body name ida idb j a' b' → j = i) ∧
             out = with_range raw start stop ∧
             lsp_to_text_offset m start = Ok (Z.of_nat a) ∧ lsp_to_text_offset m stop = Ok (Z.of_nat b)) ∨
          ((∀ i a b, assigns_index s body name ida idb i a b →
              ∃ j a' b', assigns_index s body name ida idb j a' b' ∧ j ≠ i) ∧ out = raw ∧ reported)
      | None => out = raw ∧ reported
      end
  | _ => out = raw
  end.

Lemma index_recovered_mono body raw out (P Q : Prop) :
  (out = raw → P → Q) → index_recovered body raw out P → index_recovered body raw out Q.
Proof using Type. unfold index_recovered. intros HPQ. repeat case_match; naive_solver. Qed.

Lemma recover_one_outcome body found raw :
  Forall2 (node_found s) (_module_executed_statements body) found → is_ok (target raw) = true →
  ∃ out u, recover_one opaque_eq m (Some (omap id found)) raw = Ok (out, u) ∧ index_recovered body raw out (is_Some u).
Proof using Hraw.
  intros HF Hok. unfold recover_one, index_recovered. destruct (target raw) as [[[[name rng] sel]|]|]; [|by exists raw, None|done].
  cbn [mbind res_bind]. destruct (identifier_offsets m sel) as [[ida idb]|]; [|by eexists _, _].
  pose proof (λ i a b, proj1 (enclosing_index s body found name ida idb i HF a b)) as Hfwd.
  pose proof (λ i a b, proj2 (enclosing_index s body found name ida idb i HF a b)) as Hbwd.
  unfold _select_enclosing_statement.
  pose proof (filter_positions (λ c, encloses name ida idb c = true) found) as Hpos.
  destruct (filter (λ c, encloses name ida idb c = true) (omap id found)) as [|c [|c' l]].
  - assert (∀ i a b, ¬ assigns_index s body name ida idb i a b) as Hno.
    { intros i a b (c & Hi & Hc & _)%Hfwd. by eapply Hpos. }
    assert (∃ r, match filter (λ c, binds_name name c = true) (omap id found) with
                 | _ :: _ :: _ => inr AMBIGUOUS | _ => inr NO_ENCLOSING_ASSIGNMENT end = inr r :> _Candidate + pystr) as [r ->].
    { repeat case_match; by eexists. }
    eexists _, _. split; [done|]. right. split; [|done]. intros i a b H. by destruct (Hno i a b).
  - destruct Hpos as (i & Hi & Hc & Hu).
    assert (assigns_index s body name ida idb i (start_offset c) (end_offset c)) as Hat by (apply Hbwd; by exists c).
    pose proof Hat as (node & names & at_ & n & na & nb & _ & _ & [Hstart (l1 & c1 & _ & _ & Hstop)] & _).
    destruct (ast_position_lsp _ _ e _ _ _ Hraw Hstart) as (start & Hs1 & Hs2).
    destruct (ast_position_lsp _ _ e _ _ _ Hraw Hstop) as (stop & Hp1 & Hp2).
    rewrite Hs1, Hp1. eexists _, _. split; [done|]. left. exists i, (start_offset c), (end_offset c), start, stop.
    split_and!; try done. intros j a' b' (c' & Hj & Hc' & _)%Hfwd. by eapply Hu.
  - destruct Hpos as (i & j & x & y & Hij & Hx & Hy & Px & Py).
    eexists _, _. split; [done|]. right. split; [|done]. intros k a b _.
    destruct (decide (i = k)) as [->|Hne].
    + exists j, (start_offset y), (end_offset y). split; [apply Hbwd; by exists y|congruence].
    + exists i, (start_offset x), (end_offset x). split; [apply Hbwd; by exists x|done].
Qed.

Lemma recover_all_outcomes body found raws :
  Forall2 (node_found s) (_module_executed_statements body) found → Forall (λ raw, is_ok (target raw) = true) raws →
  ∃ outs, map_res (recover_one opaque_eq m (Some (omap id found))) raws = Ok outs ∧
    Forall2 (λ raw x, index_recovered body raw x.1 (is_Some x.2)) raws outs.
Proof using Hraw.
  intros HF. induction 1 as [|raw raws Hok _ (outs & Houts & HF2)]; [by exists []|].
  destruct (recover_one_outcome body found raw HF Hok) as (out & u & Hone & Hsym).
  exists ((out, u) :: outs). cbn [map_res]. rewrite Hone. cbn [mbind res_bind]. rewrite Houts. split; [done|by constructor].
Qed.
End recovery_facts.

(** ** By the places of the statements *)

(** The statement the module runs at the place [p] is an assignment from [a] to [b] with a target [name] that spans the
    identifier from [ida] to [idb]. *)
Definition assigns_at (s : FileSnapshot) (body : list stmt) (name : pystr) (ida idb : Z) (p : list nat) (a b : nat) : Prop :=
  ∃ node names at_ n na nb, runs_at body p node ∧ assignment_of node = Some (names, at_) ∧
    span_at s at_ a b ∧ n ∈ names ∧ n.1 = name ∧ span_at s n.2 na nb ∧ ida < idb ∧ Z.of_nat na ≤ ida ∧ idb ≤ Z.of_nat nb.

(** The symbol after the recovery of a module with the given statements: extended to the one assignment that encloses
    its identifier and binds its name, or left as it was and [reported]. *)
Definition symbol_recovered (opaque_eq : pyany → pyany → bool) (s : FileSnapshot) (e : PositionEncoding) (body : list stmt)
    (raw out : raw_symbol) (reported : Prop) : Prop :=
  let m := from_snapshot s e in
  match _identifier_only_candidate_target opaque_eq raw with
  | Ok (Some (name, _, sel)) =>
      match identifier_offsets m sel with
      | Some (ida, idb) =>
          (∃ p a b start stop, assigns_at s body name ida idb p a b ∧
             (∀ q a' b', assigns_at s body name ida idb q a' b' → q = p) ∧
             out = with_range raw start stop ∧
             lsp_to_text_offset m start = Ok (Z.of_nat a) ∧ lsp_to_text_offset m stop = Ok (Z.of_nat b)) ∨
          ((∀ p a b, assigns_at s body name ida idb p a b →
              ∃ q a' b', assigns_at s body name ida idb q a' b' ∧ q ≠ p) ∧ out = raw ∧ reported)
      | None => out = raw ∧ reported
      end
  | _ => out = raw
  end.

Lemma assigns_by_place s body places name ida idb p a b :
  enumerates (runs_at body) places (_module_executed_statements body) →
  assigns_at s body name ida idb p a b ↔ ∃ i, places !! i = Some p ∧ assigns_index s body name ida idb i a b.
Proof.
  intros (Hf & _ & Hall). split.
  - intros (node & names & at_ & n & na & nb & Hp & Hrest). apply Hall in Hp as Hin. apply list_elem_of_lookup in Hin as [i Hi].
    destruct (Forall2_lookup_l _ _ _ _ _ Hf Hi) as (t & Ht & Hp'). rewrite <-(runs_at_unique _ _ _ _ Hp Hp') in Ht.
    exists i. split; [done|]. by exists node, names, at_, n, na, nb.
  - intros (i & Hi & node & names & at_ & n & na & nb & Hn & Hrest).
    pose proof (Forall2_lookup_lr _ _ _ _ _ _ Hf Hi Hn) as Hp. by exists node, names, at_, n, na, nb.
Qed.

Lemma recovered_by_place opaque_eq s e body raw out reported :
  index_recovered opaque_eq s e body raw out reported → symbol_recovered opaque_eq s e body raw out reported.
Proof.
  unfold index_recovered, symbol_recovered. destruct (module_enumerates body) as (places & Hen).
  pose proof (λ name ida idb p a b, assigns_by_place s body places name ida idb p a b Hen) as Hby.
  destruct Hen as (Hf & Hnd & _).
  assert (∀ name ida idb i a b, assigns_index s body name ida idb i a b → ∃ p, places !! i = Some p ∧ assigns_at s body name ida idb p a b) as Hplace.
  { intros name ida idb i a b H. pose proof H as (node & _ & _ & _ & _ & _ & Hi & _).
    destruct (Forall2_lookup_r _ _ _ _ _ Hf Hi) as (p & Hp & _). exists p. split; [done|]. apply Hby. by exists i. }
  destruct (_identifier_only_candidate_target opaque_eq raw) as [[[[name rng] sel]|]|]; try done.
  destruct (identifier_offsets _ sel) as [[ida idb]|]; [|done]. intros [(i & a & b & start & stop & Hi & Hu & Hrest)|[Hno Hrest]].
  - left. destruct (Hplace _ _ _ _ _ _ Hi) as (p & Hp & Ha). exists p, a, b, start, stop. split_and!; try done; try apply Hrest.
    intros q a' b' (j & Hj & Hq)%Hby. rewrite (Hu _ _ _ Hq) in Hj. congruence.
  - right. split; [|done]. intros p a b (i & Hi & H)%Hby. destruct (Hno _ _ _ H) as (j & a' & b' & Hj & Hne).
    destruct (Hplace _ _ _ _ _ _ Hj) as (q & Hq & Ha). exists q, a', b'. split; [done|]. intros ->.
    by eapply Hne, NoDup_lookup.
Qed.

(** ** Properties *)

(** C37: a Python variable gets the range of its assignment, or none. Provided that the source parses, that the positions of
    [ast] are those of the text and that the kinds can be hashed, the recovery raises nothing, and each top-level symbol
    whose range is only its identifier is extended to the assignment that binds its name around the identifier and that
    the module runs in its own scope (at the top level, or in any suite of a conditional, a loop, a [try], a [with] or a
    [match]), exactly when there is one and only one: the new range starts and ends, in the encoding of the server, where
    the statement does in the text, and every other field stays. All other identifier-only symbols stay as they were and
    are classified as incomplete, and every other symbol passes through. *)
Theorem python_recovery_exact ast_parse opaque_eq raw_file s e body raws :
  from_bytes raw_file = Ok s → ast_parse (text s) = Parsed body →
  (∀ p node, runs_at body p node → assignment_located s node) →
  Forall (λ raw, is_Some (kind_in opaque_eq (raw_value raw "kind"))) raws →
  ∃ result, recover_python_module_assignment_symbols ast_parse opaque_eq (Some raws) s e = Ok result ∧
    Forall2 (λ raw out, symbol_recovered opaque_eq s e body raw out (is_Some (body_incomplete_reason opaque_eq result raw)))
      raws (rc_symbols result).
Proof.
  intros Hraw Hparse Hruns Hkinds.
  assert (Forall (assignment_located s) (_module_executed_statements body)) as Hloc.
  { apply Forall_forall. intros node [p Hp]%executed_runs_at. by eapply Hruns. }
  destruct (candidates_found raw_file s Hraw _ Hloc) as (found & Hfound & HF).
  assert (Forall (λ raw, is_ok (_identifier_only_candidate_target opaque_eq raw) = true) raws) as Hok.
  { eapply Forall_impl; [exact Hkinds|]. intros raw [k Hk]. unfold _identifier_only_candidate_target. by rewrite Hk. }
  destruct (recover_all_outcomes opaque_eq raw_file s e Hraw body found raws HF Hok) as (outs & Houts & HF2).
  destruct raws as [|raw0 raws]; [by eexists|].
  unfold recover_python_module_assignment_symbols, _module_level_candidates. rewrite Hparse, Hfound. cbn [mbind res_bind].
  rewrite Houts. eexists. split; [done|]. cbn [rc_symbols].
  apply Forall2_fmap_r, Forall2_same_length_lookup_2; [by eapply Forall2_length|]. intros i raw [out u] Hi Ho. cbn [fst].
  apply recovered_by_place.
  eapply index_recovered_mono; [|exact (Forall2_lookup_lr _ _ _ _ _ _ HF2 Hi Ho)]. cbn [fst snd]. intros -> [item ->].
  by eapply reported_has_reason.
Qed.

(** The identifier of a Python variable is never passed off as its body. Whatever the parser and the server say, when a
    recovered document is normalized with the classifier of its recovery, a top-level variable whose reported range was
    only its identifier either carries a reason why its body is incomplete, for which a lookup refuses the body, or is
    shown with the range of the extended symbol. *)
Theorem python_identifier_is_no_body ast_parse opaque_eq s e raws result urlparse unquote py_str name_fn uri roots i raw root
    name rng sel :
  recover_python_module_assignment_symbols ast_parse opaque_eq (Some raws) s e = Ok result →
  normalize_document_symbols urlparse unquote py_str name_fn (Some (body_incomplete_reason opaque_eq result))
    (Some (rc_symbols result)) uri None = Ok roots →
  raws !! i = Some raw → roots !! i = Some root →
  _identifier_only_candidate_target opaque_eq raw = Ok (Some (name, rng, sel)) → raw_get raw "location" = None →
  is_Some (ns_incomplete root) ∨
  ∃ start stop, rc_symbols result !! i = Some (with_range raw start stop) ∧
    loc_range (ns_location root) = {| rg_start := {| pos_line := line start; pos_character := character start |};
                                      rg_end := {| pos_line := line stop; pos_character := character stop |} |}.
Proof.
  intros Hrec Hnorm Hi Hroot Htg Hloc. destruct (normalized_root _ _ _ _ _ _ _ _ _ _ Hnorm Hroot) as (out & Hout & Hinc & Hsl).
  destruct raws as [|raw0 raws]; [done|]. unfold recover_python_module_assignment_symbols in Hrec.
  apply res_bind_Ok in Hrec as (candidates & _ & Hrec). apply res_bind_Ok in Hrec as (outs & Houts & [= <-]).
  cbn [rc_symbols] in *. destruct (extended_or_reported _ _ _ _ _ _ _ _ _ _ _ Houts Hi Hout Htg) as [(start & stop & ->)|[-> Hreason]].
  - right. exists start, stop. split; [done|]. by eapply extended_location.
  - left. by rewrite Hinc.
Qed.

(** The recovery counts lines and columns as the snapshot does. Its own line table is that of the snapshot, and a
    place given by a line and a UTF-8 column is converted to the offset that the position mapper gives it. *)
Theorem ast_positions_agree raw_file s :
  from_bytes raw_file = Ok s →
  _line_boundaries (text s) = zip (_line_starts s) (_line_content_ends s) ∧
  ∀ l c o, lsp_to_text_offset (from_snapshot s UTF8) {| line := l - 1; character := c |} = Ok o →
    _ast_offset_to_text_offset (text s) (_line_boundaries (text s)) l c = Ok (Z.to_nat o).
Proof.
  intros Hs. split; [by eapply boundaries_of_snapshot|]. intros l c o Ho. eapply ast_position_offset; [done|].
  unfold ast_position. rewrite Ho. f_equal. destruct (from_bytes_ok _ _ Hs) as [_ Hok].
  apply lsp_to_offset_spec in Ho as (? & ? & ? & ? & _ & _ & _ & _ & -> & _); [lia|done].
Qed.

Module PythonRecoveryExamples.

(** A module with a plain assignment and one in an [if], with a letter of two bytes. *)
Definition source : pystr := lit "a = 1" ++ [10%N] ++ lit "if b:" ++ [13%N; 10%N] ++ lit "  " ++ [233%N] ++ lit ", c = f()" ++ [10%N].

Definition at_line (l start stop : Z) : span :=
  {| lineno := l; col_offset := start; end_lineno := Some l; end_col_offset := Some stop |}.

Definition body : list stmt :=
  [Assign [Name (lit "a") (at_line 1 0 1)] (at_line 1 0 5);
   If [Assign [TupleOrList [Name [233%N] (at_line 3 2 4); Name (lit "c") (at_line 3 6 7)]] (at_line 3 2 13)] []].

Definition ast_parse (t : pystr) : parse_result := if bool_decide (t = source) then Parsed body else SyntaxInvalid.

Definition opaque_eq (v w : pyany) : bool := false.

Definition place (l start stop : Z) : pyany :=
  range_dict {| line := l; character := start |} {| line := l; character := stop |}.

Definition symbol (name : string) (kind l start stop : Z) : raw_symbol :=
  [(Some (lit "name"), PStr (lit name)); (Some (lit "kind"), PInt kind);
   (Some (lit "range"), place l start stop); (Some (lit "selectionRange"), place l start stop)].

Definition raws : list raw_symbol := [symbol "a" 13 0 0 1; symbol "c" 14 2 5 6; symbol "b" 13 1 3 4; symbol "b" 5 1 3 4].

Definition snap : FileSnapshot :=
  match from_bytes (utf8_encode source) with
  | Ok s => s
  | Err _ => {| raw_bytes := []; text := []; bom := []; line_endings := []; _text_to_byte := []; _line_starts := [];
                _line_content_ends := []; _line_ends := [] |}
  end.

Definition recovered : AssignmentRecoveryResult :=
  match recover_python_module_assignment_symbols ast_parse opaque_eq (Some raws) snap UTF16 with
  | Ok r => r
  | Err _ => {| rc_symbols := []; rc_unresolved := [] |}
  end.

(** The two assignments are found, in UTF-16 units; the name that only occurs in a condition is reported. *)
Example python_recovered_ranges :
  (λ r, raw_value r "range") <$> rc_symbols recovered = [place 0 0 5; place 2 2 12; place 1 3 4; place 1 3 4] ∧
  un_reason <$> rc_unresolved recovered = [NO_ENCLOSING_ASSIGNMENT].
Proof. vm_compute. done. Qed.

Lemma ast_position_at l c : is_ok (lsp_to_text_offset (from_snapshot snap UTF8) {| line := l - 1; character := c |}) = true →
  ∃ o, ast_position snap l c o.
Proof.
  unfold ast_position. destruct (lsp_to_text_offset _ _) as [o|] eqn:Ho; [|done]. intros _.
  destruct (from_bytes_ok (utf8_encode source) snap) as [_ Hok]; [by vm_compute|].
  apply lsp_to_offset_spec in Ho as (L & st & ce & k & _ & _ & _ & _ & -> & _); [|done]. by exists (st + k)%nat.
Qed.

Lemma located_at l start stop :
  is_ok (lsp_to_text_offset (from_snapshot snap UTF8) {| line := l - 1; character := start |}) &&
  is_ok (lsp_to_text_offset (from_snapshot snap UTF8) {| line := l - 1; character := stop |}) = true →
  located snap (at_line l start stop).
Proof.
  intros [[a Ha]%ast_position_at [b Hb]%ast_position_at]%andb_true_iff. exists a, b. split; [done|]. by exists l, stop.
Qed.

Lemma body_located : Forall (assignment_located snap) (_module_executed_statements body).
Proof.
  change (_module_executed_statements body) with
    [Assign [Name (lit "a") (at_line 1 0 1)] (at_line 1 0 5);
     If [Assign [TupleOrList [Name [233%N] (at_line 3 2 4); Name (lit "c") (at_line 3 6 7)]] (at_line 3 2 13)] [];
     Assign [TupleOrList [Name [233%N] (at_line 3 2 4); Name (lit "c") (at_line 3 6 7)]] (at_line 3 2 13)].
  repeat apply Forall_cons_2; try apply Forall_nil_2; intros names at_ H; try done; injection H as <- <-;
    (split; [|repeat apply Forall_cons_2; try apply Forall_nil_2]); apply located_at; by vm_compute.
Qed.

Lemma python_recovery_exact_witness :
  ∃ result, recover_python_module_assignment_symbols ast_parse opaque_eq (Some raws) snap UTF16 = Ok result ∧
    Forall2 (λ raw out, symbol_recovered opaque_eq snap UTF16 body raw out (is_Some (body_incomplete_reason opaque_eq result raw)))
      raws (rc_symbols result).
Proof.
  apply (python_recovery_exact ast_parse opaque_eq (utf8_encode source) snap UTF16 body raws); [by vm_compute|by vm_compute| |].
  - intros p node Hp. apply runs_at_executed in Hp. pose proof body_located as Hloc. rewrite Forall_forall in Hloc. by apply Hloc.
  - repeat apply Forall_cons_2; try apply Forall_nil_2; by eexists.
Defined.

Definition no_uri (u : pystr) : parsed_uri := {| pu_scheme := []; pu_netloc := []; pu_path := u |}.

Definition normalized : list NormalizedSymbol :=
  match normalize_document_symbols no_uri id (λ _, []) id (Some (body_incomplete_reason opaque_eq recovered))
          (Some (rc_symbols recovered)) [] None with
  | Ok roots => roots
  | Err _ => []
  end.

(** The symbol that could not be extended is one whose body is incomplete. *)
Lemma python_identifier_is_no_body_witness :
  ∃ root, normalized !! 2%nat = Some root ∧
    (is_Some (ns_incomplete root) ∨
     ∃ start stop, rc_symbols recovered !! 2%nat = Some (with_range (symbol "b" 13 1 3 4) start stop) ∧
       loc_range (ns_location root) = {| rg_start := {| pos_line := line start; pos_character := character start |};
                                         rg_end := {| pos_line := line stop; pos_character := character stop |} |}).
Proof.
  destruct (normalized !! 2%nat) as [root|] eqn:Hroot; [|by vm_compute in Hroot]. exists root. split; [done|].
  refine (python_identifier_is_no_body ast_parse opaque_eq snap UTF16 raws recovered no_uri id (λ _, []) id [] normalized 2
    (symbol "b" 13 1 3 4) root (lit "b") _ _ _ _ _ Hroot _ _); by vm_compute.
Defined.

Lemma ast_positions_agree_witness :
  _line_boundaries (text snap) = zip (_line_starts snap) (_line_content_ends snap) ∧
  ∀ l c o, lsp_to_text_offset (from_snapshot snap UTF8) {| line := l - 1; character := c |} = Ok o →
    _ast_offset_to_text_offset (text snap) (_line_boundaries (text snap)) l c = Ok (Z.to_nat o).
Proof. apply (ast_positions_agree (utf8_encode source) snap). by vm_compute. Defined.
End PythonRecoveryExamples.
