(* ===== verification/TypeScriptRecovery.v ===== *)
(** * Recovery of TypeScript variable ranges

    Model of [src/serena_light/lsp/typescript_assignment_recovery.py]: the
    variables whose ranges start at their identifier, the chain of syntax ranges
    the server returns for each, and the one range of it that starts with a
    declaration and ends with the variable.

    White space ([str.strip] and [\s] of [re]) is the parameter [space_char]. The
    identity of a symbol is its index: the same object twice in a list is two
    symbols at one position, which the recovery refuses. A chain is a finite
    value, so the check for a cycle of parents never fires. *)

From S2P Require Import Prelude Json Envelopes Positions Normalize Recovery.

Inductive ts_error :=
| TsValue                  (** [ValueError] *)
| TsPosition (e : position_error)
| TsAttribute              (** [AttributeError]: a chain that is no mapping *)
| TsUnhashable.            (** [TypeError]: a kind that cannot be hashed *)

(** ** Positions *)

Definition nonnegative (v : option pyany) : option Z :=
  match v with Some (PInt z) => if bool_decide (0 ≤ z) then Some z else None | _ => None end.

(** [_position_mapping], with the coordinates when it holds. *)
Definition _position_mapping (value : pyany) : option (Z * Z) :=
  match value with
  | PMapping raw => line ← nonnegative (raw_get raw "line"); character ← nonnegative (raw_get raw "character"); Some (line, character)
  | _ => None
  end.

Definition _position_key (value : pyany) : res ts_error (Z * Z) :=
  match _position_mapping value with Some key => Ok key | None => Err TsValue end.

Definition _lsp_position (raw : pyany) : res ts_error LspPosition :=
  key ← _position_key raw; Ok {| line := key.1; character := key.2 |}.

Definition as_ts_error {A} (r : res position_error A) : res ts_error A :=
  match r with Ok a => Ok a | Err e => Err (TsPosition e) end.

Definition _offsets (raw_range : raw_symbol) (m : PositionMapper) : res ts_error (Z * Z) :=
  match raw_value raw_range "start", raw_value raw_range "end" with
  | PMapping start, PMapping stop =>
      p ← _lsp_position (PMapping start);
      a ← as_ts_error (lsp_to_text_offset m p);
      q ← _lsp_position (PMapping stop);
      b ← as_ts_error (lsp_to_text_offset m q);
      Ok (a, b)
  | _, _ => Err TsValue
  end.

(** ** Candidates *)

Record _Candidate := { ca_id : nat; ca_name : pystr; ca_raw : raw_symbol; ca_raw_range : raw_symbol; ca_selection : raw_symbol }.

Section recovery.
Context (space_char : N → bool) (opaque_eq : pyany → pyany → bool).

Definition candidate_of (item : nat * raw_symbol) : res ts_error (option _Candidate) :=
  let raw := item.2 in
  match kind_in opaque_eq (raw_value raw "kind") with
  | None => Err TsUnhashable
  | Some recoverable =>
      Ok (match raw_value raw "range", raw_value raw "selectionRange", raw_value raw "name" with
          | PMapping raw_range, PMapping selection, PStr name =>
              match _position_mapping (raw_value raw_range "start"), _position_mapping (raw_value selection "start") with
              | Some start, Some selected =>
                  if recoverable && nonempty name && bool_decide (start = selected)
                  then Some {| ca_id := item.1; ca_name := name; ca_raw := raw; ca_raw_range := raw_range;
                               ca_selection := selection |}
                  else None
              | _, _ => None
              end
          | _, _, _ => None
          end)
  end.

Definition _candidates (raw_symbols : list raw_symbol) : res ts_error (list _Candidate) :=
  found ← map_res candidate_of (imap pair raw_symbols); Ok (omap (M:=list) id found).

Definition assignment_recovery_positions (raw_symbols : option (list raw_symbol)) : res ts_error (list pyany) :=
  candidates ← _candidates (default [] raw_symbols);
  Ok (fmap (M:=list) (λ c, raw_value (ca_selection c) "start") candidates).

(** ** Text *)

Definition starts_with (word t : pystr) : bool := bool_decide (take (length word) t = word).

Fixpoint lstrip (t : pystr) : pystr := match t with c :: u => if space_char c then lstrip u else t | [] => [] end.
Definition strip (t : pystr) : pystr := reverse (lstrip (reverse (lstrip t))).

(** [_DECLARATION_PREFIX.fullmatch], as the matcher runs: each part is tried
    before the rest [k], [\s+] gives up one character at a time. *)
Fixpoint spaces (k : pystr → bool) (t : pystr) : bool :=
  match t with c :: u => space_char c && (spaces k u || k u) | [] => false end.

Definition keyword (word : string) (k : pystr → bool) (t : pystr) : bool :=
  starts_with (lit word) t && spaces k (drop (length (lit word)) t).

Definition optional_keyword (word : string) (k : pystr → bool) (t : pystr) : bool := keyword word k t || k t.

Definition _DECLARATION_PREFIX : pystr → bool :=
  optional_keyword "export" (optional_keyword "declare" (λ t,
    existsb (λ word, keyword word (λ rest, negb (nonempty rest)) t) ["const"; "let"; "var"]%string)).

Definition _is_binding_pattern (value : pystr) : bool :=
  bool_decide (2 ≤ length value)%nat &&
  match head value, last value with
  | Some a, Some b => bool_decide ((a, b) ∈ [(91, 93); (123, 125)]%N)
  | _, _ => false
  end.

(** ** The chain of syntax ranges *)

Record _SyntaxRange := { sx_raw : raw_symbol; sx_start : Z; sx_end : Z }.

(** [last] is the range before this one. *)
Fixpoint _syntax_chain (m : PositionMapper) (last : option _SyntaxRange) (raw : pyany) : res ts_error (list _SyntaxRange) :=
  match raw with
  | PNone => Ok []
  | PMapping current =>
      match raw_value current "range" with
      | PMapping raw_range =>
          match _offsets raw_range m, last with
          | Err (TsPosition e), Some _ => Ok []
          | Err e, _ => Err e
          | Ok (start, stop), _ =>
              if match last with Some l => bool_decide (sx_start l < start) || bool_decide (stop < sx_end l) | None => false end
              then Ok []
              else
                let item := {| sx_raw := raw_range; sx_start := start; sx_end := stop |} in
                rest ← (fix find_parent (l : list (option pystr * pyany)) : res ts_error (list _SyntaxRange) :=
                  match l with
                  | [] => Ok []
                  | (k, parent) :: l =>
                      if decide (Some (lit "parent") = k) then _syntax_chain m (Some item) parent else find_parent l
                  end) current;
                Ok (item :: rest)
          end
      | _ => Err TsValue
      end
  | _ => Err (match last with None => TsAttribute | Some _ => TsValue end)
  end.

(** ** One variable *)

Definition SELECTION_RANGE_UNAVAILABLE : pystr := lit "selection_range_unavailable".
Definition NO_ENCLOSING_ASSIGNMENT : pystr := lit "no_enclosing_assignment".
Definition AMBIGUOUS : pystr := lit "ambiguous".

(** [t[a:b]] for offsets of the text. *)
Definition between (t : pystr) (a b : Z) : pystr := text_slice t (Z.to_nat a) (Z.to_nat b).

(** The conditions on a statement in the loop over the syntax ranges. *)
Definition declares (t : pystr) (binding : option _SyntaxRange) (binding_start raw_end : Z) (item : _SyntaxRange) : bool :=
  bool_decide (sx_start item < binding_start) && bool_decide (raw_end ≤ sx_end item) &&
  _DECLARATION_PREFIX (between t (sx_start item) binding_start) &&
  match binding with
  | Some b => starts_with (lit "=") (lstrip (between t (sx_end b) (sx_end item)))
  | None => bool_decide (strip (between t raw_end (sx_end item)) ∈ [[]; lit ";"])
  end.

(** The statement is looked for among all syntax ranges. *)
Definition recover_statement (m : PositionMapper) (t : pystr) (binding : option _SyntaxRange) (binding_start raw_end : Z)
    (syntax_ranges : list _SyntaxRange) : res ts_error ((LspPosition * LspPosition) + pystr) :=
  match filter (λ item, declares t binding binding_start raw_end item = true) syntax_ranges with
  | [statement] =>
      start ← as_ts_error (text_offset_to_lsp m (sx_start statement));
      stop ← as_ts_error (text_offset_to_lsp m (sx_end statement));
      Ok (inl (start, stop))
  | [] => Ok (inr NO_ENCLOSING_ASSIGNMENT)
  | _ => Ok (inr AMBIGUOUS)
  end.

Definition _recover_range (candidate : _Candidate) (chain : pyany) (m : PositionMapper) (t : pystr)
    : res ts_error ((LspPosition * LspPosition) + pystr) :=
  raw_offsets ← _offsets (ca_raw_range candidate) m;
  selection ← _offsets (ca_selection candidate) m;
  let '(raw_start, raw_end) := raw_offsets in
  let '(selection_start, selection_end) := selection in
  if bool_decide (between t selection_start selection_end ≠ ca_name candidate) then Ok (inr NO_ENCLOSING_ASSIGNMENT)
  else
    syntax_ranges ← _syntax_chain m None chain;
    match syntax_ranges with
    | [] => Ok (inr NO_ENCLOSING_ASSIGNMENT)
    | first :: outer =>
        if bool_decide (raw_start ≠ selection_start) || bool_decide (raw_end < selection_end) ||
           bool_decide (sx_start first ≠ selection_start) || bool_decide (sx_end first < selection_end)
        then Ok (inr NO_ENCLOSING_ASSIGNMENT)
        else
          let bindings := filter (λ item, sx_start item ≤ selection_start ∧ selection_end ≤ sx_end item ∧
                                          _is_binding_pattern (between t (sx_start item) (sx_end item)) = true) outer in
          match bindings with
          | _ :: _ :: _ => Ok (inr AMBIGUOUS)
          | _ =>
              let binding := head bindings in
              let binding_start := match binding with Some b => sx_start b | None => selection_start end in
              recover_statement m t binding binding_start raw_end syntax_ranges
          end
    end.

(** ** All variables *)

Definition unresolved_of (reason : pystr) (c : _Candidate) : UnresolvedAssignmentSymbol :=
  {| un_name := ca_name c; un_range := ca_selection c; un_reason := reason |}.

(** The start of a candidate's selection is a position, so the default is not reached. *)
Definition start_key (c : _Candidate) : Z * Z := default (0, 0) (_position_mapping (raw_value (ca_selection c) "start")).

(** [position_counts[key]] *)
Definition position_count (candidates : list _Candidate) (c : _Candidate) : nat :=
  length (filter (λ d, start_key d = start_key c) candidates).

(** The [try] block: an [AttributeError] is not among the exceptions it catches. *)
Definition recovered_range (m : PositionMapper) (t : pystr) (c : _Candidate) (chain : pyany)
    : res ts_error ((LspPosition * LspPosition) + pystr) :=
  match _recover_range c chain m t with
  | Ok r => Ok r
  | Err TsAttribute => Err TsAttribute
  | Err _ => Ok (inr NO_ENCLOSING_ASSIGNMENT)
  end.

(** The identities are distinct. *)
Definition recovered_by_identity (outcomes : list (_Candidate * ((LspPosition * LspPosition) + pystr))) : gmap nat raw_symbol :=
  list_to_map (omap (λ '(c, r), match r with
                                | inl (start, stop) => Some (ca_id c, with_range (ca_raw c) start stop)
                                | inr _ => None
                                end) outcomes).

Definition recover_typescript_top_level_variable_symbols (raw_symbols : option (list raw_symbol))
    (selection_ranges : option (list pyany)) (s : FileSnapshot) (position_encoding : PositionEncoding)
    : res ts_error AssignmentRecoveryResult :=
  let symbols := default [] raw_symbols in
  candidates ← _candidates symbols;
  let evidence := default [] selection_ranges in
  let mapper := from_snapshot s position_encoding in
  if existsb (λ c, bool_decide (1 < position_count candidates c)%nat) candidates then
    Ok {| rc_symbols := symbols;
          rc_unresolved := (λ c, unresolved_of (if bool_decide (1 < position_count candidates c)%nat then AMBIGUOUS
                                                else SELECTION_RANGE_UNAVAILABLE) c) <$> candidates |}
  else if bool_decide (length evidence ≠ length candidates) then
    Ok {| rc_symbols := symbols; rc_unresolved := unresolved_of SELECTION_RANGE_UNAVAILABLE <$> candidates |}
  else
    ranges ← map_res (λ '(c, chain), r ← recovered_range mapper (text s) c chain; Ok (c, r)) (zip candidates evidence);
    Ok {| rc_symbols := imap (λ i raw, default raw (recovered_by_identity ranges !! i)) symbols;
          rc_unresolved := omap (λ '(c, r), match r with inl _ => None | inr reason => Some (unresolved_of reason c) end) ranges |}.
End recovery.

(** ** The declaration prefix *)

Section prefix.
Context (space_char : N → bool).

Definition blanks (sp : pystr) : Prop := sp ≠ [] ∧ Forall (λ c, space_char c = true) sp.

(** A keyword and the white space after it. *)
Definition clause (word : string) (t : pystr) : Prop := ∃ sp, blanks sp ∧ t = lit word ++ sp.

(** [(?:export\s+)?(?:declare\s+)?(?:const|let|var)\s+] *)
Definition declaration_prefix (t : pystr) : Prop :=
  ∃ e d v word, (e = [] ∨ clause "export" e) ∧ (d = [] ∨ clause "declare" d) ∧
    word ∈ ["const"; "let"; "var"]%string ∧ clause word v ∧ t = e ++ d ++ v.

Lemma spaces_spec k t : spaces space_char k t = true ↔ ∃ sp u, blanks sp ∧ t = sp ++ u ∧ k u = true.
Proof using Type.
  induction t as [|c u IH]; cbn [spaces].
  { split; [done|]. by intros (sp & u & [Hne _] & Ht & _); destruct sp. }
  rewrite andb_true_iff, orb_true_iff, IH. split.
  - intros [Hc [(sp & u' & [Hne Hsp] & -> & Hk)|Hk]].
    + exists (c :: sp), u'. split_and!; [split; [done|by constructor]|done|done].
    + exists [c], u. split_and!; [split; [done|by repeat constructor]|done|done].
  - intros (sp & u' & [Hne Hsp] & Ht & Hk). destruct sp as [|c' sp]; [done|]. injection Ht as -> ->.
    apply Forall_cons in Hsp as [Hc Hsp]. split; [done|].
    destruct sp as [|c2 sp]; [by right|left]. exists (c2 :: sp), u'. by split_and!.
Qed.

Lemma starts_with_spec word t : starts_with word t = true ↔ ∃ u, t = word ++ u.
Proof using Type.
  unfold starts_with. rewrite bool_decide_eq_true. split; [|intros [u ->]; apply take_app_length].
  intros Ht. exists (drop (length word) t). rewrite <-Ht at 1. by rewrite take_drop.
Qed.

Lemma keyword_spec word k t : keyword space_char word k t = true ↔ ∃ v u, clause word v ∧ t = v ++ u ∧ k u = true.
Proof using Type.
  unfold keyword. rewrite andb_true_iff, starts_with_spec, spaces_spec. split.
  - intros [[x ->] (sp & u & Hsp & Hd & Hk)]. rewrite drop_app_length in Hd. subst x.
    exists (lit word ++ sp), u. split_and!; [by exists sp|by rewrite app_assoc|done].
  - intros (v & u & (sp & Hsp & ->) & -> & Hk). rewrite <-app_assoc. split; [by eexists|].
    exists sp, u. by rewrite drop_app_length.
Qed.

Lemma optional_keyword_spec word k t :
  optional_keyword space_char word k t = true ↔ ∃ v u, (v = [] ∨ clause word v) ∧ t = v ++ u ∧ k u = true.
Proof using Type.
  unfold optional_keyword. rewrite orb_true_iff, keyword_spec. split.
  - intros [(v & u & Hv & Ht & Hk)|Hk]; [exists v, u; by auto|exists [], t; by auto].
  - intros (v & u & [->|Hv] & -> & Hk); [by right|left]. by exists v, u.
Qed.

(** The matcher decides the language of the expression. *)
Lemma declaration_prefix_spec t : _DECLARATION_PREFIX space_char t = true ↔ declaration_prefix t.
Proof using Type.
  unfold _DECLARATION_PREFIX, declaration_prefix. rewrite optional_keyword_spec. setoid_rewrite optional_keyword_spec.
  setoid_rewrite existsb_exists. setoid_rewrite keyword_spec. split.
  - intros (e & u & He & -> & d & u' & Hd & -> & word & Hw & v & u'' & Hv & -> & Hnil). destruct u''; [|done].
    exists e, d, v, word. rewrite app_nil_r. split_and!; try done. by apply list_elem_of_In.
  - intros (e & d & v & word & He & Hd & Hw & Hv & ->). exists e, (d ++ v). split_and!; [done|done|].
    exists d, v. split_and!; [done|done|]. exists word. split; [by apply list_elem_of_In|]. exists v, []. by rewrite app_nil_r.
Qed.
End prefix.

(** ** The chain *)

(** The range [r] is one of the chain the server returned. *)
Inductive in_chain (r : raw_symbol) : pyany → Prop :=
| in_chain_here current : raw_value current "range" = PMapping r → in_chain r (PMapping current)
| in_chain_parent current : in_chain r (raw_value current "parent") → in_chain r (PMapping current).

Definition within (x y : _SyntaxRange) : Prop := sx_start y ≤ sx_start x ∧ sx_end x ≤ sx_end y.

Lemma chain_unfold m previous current :
  _syntax_chain m previous (PMapping current) =
  match raw_value current "range" with
  | PMapping raw_range =>
      match _offsets raw_range m, previous with
      | Err (TsPosition e), Some _ => Ok []
      | Err e, _ => Err e
      | Ok (start, stop), _ =>
          if match previous with Some l => bool_decide (sx_start l < start) || bool_decide (stop < sx_end l) | None => false end
          then Ok []
          else rest ← _syntax_chain m (Some {| sx_raw := raw_range; sx_start := start; sx_end := stop |})
                        (raw_value current "parent");
               Ok ({| sx_raw := raw_range; sx_start := start; sx_end := stop |} :: rest)
      end
  | _ => Err TsValue
  end.
Proof.
  cbn [_syntax_chain]. destruct (raw_value current "range") as [| | | | | |raw_range| |]; try done.
  destruct (_offsets raw_range m) as [[start stop]|[| | |]]; try done.
  destruct (match previous with Some _ => _ | None => _ end); [done|]. f_equal.
  unfold raw_value, raw_get. generalize (Some {| sx_raw := raw_range; sx_start := start; sx_end := stop |}). intros item.
  induction current as [|[k v] current IH]; [done|]. cbn [dict_get]. by case_decide.
Qed.

Lemma chain_facts m raw : ∀ previous l, _syntax_chain m previous raw = Ok l →
  Forall (λ x, _offsets (sx_raw x) m = Ok (sx_start x, sx_end x) ∧ in_chain (sx_raw x) raw) l ∧
  StronglySorted within l ∧ from_option (λ p, Forall (within p) l) True previous.
Proof.
  induction raw as [| | | | | |current IH| |] using pyany_induction; intros previous l; try done.
  { cbn. intros [= <-]. split_and!; [constructor..|]. by destruct previous; constructor. }
  rewrite chain_unfold. destruct (raw_value current "range") as [| | | | | |raw_range| |] eqn:Hr; try done.
  assert (∀ previous, Forall (λ x, _offsets (sx_raw x) m = Ok (sx_start x, sx_end x) ∧ in_chain (sx_raw x) (PMapping current)) [] ∧
    StronglySorted within [] ∧ from_option (λ p, Forall (within p) []) True previous) as Hnil.
  { intros p. split_and!; [constructor..|]. by destruct p; constructor. }
  destruct (_offsets raw_range m) as [[start stop]|[| | |]] eqn:Ho; try done;
    [|destruct previous; [intros [= <-]; apply (Hnil (Some _))|done]].
  set (item := {| sx_raw := raw_range; sx_start := start; sx_end := stop |}).
  destruct (match previous with Some _ => _ | None => _ end) eqn:Hout; [intros [= <-]; apply Hnil|].
  intros (rest & Hrest & [= <-])%res_bind_Ok.
  assert (Forall (λ x, _offsets (sx_raw x) m = Ok (sx_start x, sx_end x) ∧ in_chain (sx_raw x) (raw_value current "parent")) rest ∧
    StronglySorted within rest ∧ Forall (within item) rest) as (H1 & H2 & H3).
  { unfold raw_value, raw_get in *. destruct (dict_get current (Some (lit "parent"))) as [v|] eqn:Hv.
    - apply dict_get_Some_elem in Hv. rewrite Forall_forall in IH. apply (IH _ Hv) in Hrest. exact Hrest.
    - injection Hrest as <-. split_and!; constructor. }
  split_and!.
  - constructor; [split; [done|by constructor]|]. eapply Forall_impl; [exact H1|]. intros x [Hx Hin]. split; [done|by apply in_chain_parent].
  - by constructor.
  - destruct previous as [p|]; [|done]. cbn. apply orb_false_iff in Hout as [Ha%bool_decide_eq_false Hb%bool_decide_eq_false].
    assert (within p item) by (unfold within, item; cbn; lia). constructor; [done|].
    eapply Forall_impl; [exact H3|]. unfold within in *. intros; lia.
Qed.

(** A chain that is a mapping raises nothing that is not caught. *)
Lemma offsets_caught r m : _offsets r m ≠ Err TsAttribute.
Proof.
  unfold _offsets, _lsp_position, _position_key, as_ts_error.
  repeat (case_match || cbn [mbind res_bind]); by simplify_eq.
Qed.

Lemma chain_caught m raw : ∀ previous, (previous = None → ∃ d, raw = PMapping d) → _syntax_chain m previous raw ≠ Err TsAttribute.
Proof.
  induction raw as [| | | | | |current IH| |] using pyany_induction; intros previous Hp;
    try (destruct previous; [done|by destruct (Hp eq_refl)]).
  rewrite chain_unfold. destruct (raw_value current "range") as [| | | | | |raw_range| |]; try done.
  pose proof (offsets_caught raw_range m) as Hoff.
  destruct (_offsets raw_range m) as [[start stop]|[| | |]]; try done; [|by destruct previous].
  destruct (match previous with Some _ => _ | None => _ end); [done|].
  assert (∀ item, _syntax_chain m (Some item) (raw_value current "parent") ≠ Err TsAttribute) as Hpar.
  { intros item. unfold raw_value, raw_get. destruct (dict_get current (Some (lit "parent"))) as [v|] eqn:Hv; [|done].
    apply dict_get_Some_elem in Hv. rewrite Forall_forall in IH. by apply (IH _ Hv). }
  specialize (Hpar {| sx_raw := raw_range; sx_start := start; sx_end := stop |}).
  destruct (_syntax_chain _ _ _) as [|e]; [done|]. cbn [mbind res_bind]. congruence.
Qed.

(** ** The text of an extended range *)

Lemma between_split t a c b : 0 ≤ a ≤ c → c ≤ b → between t a b = between t a c ++ between t c b.
Proof.
  intros. unfold between, text_slice.
  replace (Z.to_nat b - Z.to_nat a)%nat with ((Z.to_nat c - Z.to_nat a) + (Z.to_nat b - Z.to_nat c))%nat by lia.
  rewrite <-(take_drop (Z.to_nat c - Z.to_nat a) (take _ _)) at 1.
  rewrite take_take, Nat.min_l by lia. f_equal. rewrite skipn_firstn_comm.
  replace (Z.to_nat c - Z.to_nat a + (Z.to_nat b - Z.to_nat c) - (Z.to_nat c - Z.to_nat a))%nat
    with (Z.to_nat b - Z.to_nat c)%nat by lia.
  rewrite drop_drop. do 2 f_equal. lia.
Qed.

Lemma between_nonempty t a b : between t a b ≠ [] → 0 ≤ a → a ≤ b.
Proof.
  intros Hne Ha. destruct (decide (a ≤ b)); [done|]. destruct Hne. unfold between, text_slice.
  by replace (Z.to_nat b - Z.to_nat a)%nat with 0%nat by lia.
Qed.

Section range_facts.
Context (space_char : N → bool) (raw_file : list N) (s : FileSnapshot) (e : PositionEncoding) (Hraw : from_bytes raw_file = Ok s).
Abbreviation m := (from_snapshot s e).

Lemma offsets_positions r a b : _offsets r m = Ok (a, b) →
  ∃ p q, _lsp_position (raw_value r "start") = Ok p ∧ _lsp_position (raw_value r "end") = Ok q ∧
    lsp_to_text_offset m p = Ok a ∧ lsp_to_text_offset m q = Ok b.
Proof using Type.
  unfold _offsets. destruct (raw_value r "start") as [| | | | | |start| |], (raw_value r "end") as [| | | | | |stop| |]; try done.
  intros (p & Hp & H)%res_bind_Ok. apply res_bind_Ok in H as (a' & Ha & H). apply res_bind_Ok in H as (q & Hq & H).
  apply res_bind_Ok in H as (b' & Hb & [= <- <-]). exists p, q. unfold as_ts_error in *. by repeat case_match; simplify_eq.
Qed.

Lemma position_of_offset p o : lsp_to_text_offset m p = Ok o → text_offset_to_lsp m o = Ok p ∧ 0 ≤ o.
Proof using Hraw.
  destruct (from_bytes_ok _ _ Hraw) as [_ Hok]. intros Hp. pose proof Hp as Hpos. apply lsp_to_offset_spec in Hpos; [|done].
  split; [by apply offset_to_lsp_spec|]. destruct Hpos as (? & ? & ? & ? & _ & _ & _ & _ & -> & _). lia.
Qed.

Definition white (t : pystr) : Prop := Forall (λ c, space_char c = true) t.

(** What may follow a declarator: white space, with one semicolon at most. *)
Definition closing (t : pystr) : Prop := ∃ sp sp', white sp ∧ white sp' ∧ (t = sp ++ sp' ∨ t = sp ++ lit ";" ++ sp').

(** Something between brackets or braces. *)
Definition bracketed (t : pystr) : Prop := ∃ inner, t = lit "[" ++ inner ++ lit "]" ∨ t = lit "{" ++ inner ++ lit "}".

(** A declaration of [name] whose own text, as the server reports it, is [own]: its keywords, then either that text, which
    starts with the name, and nothing more but white space and a semicolon, or a pattern that contains the name and is
    followed by an initializer. *)
Definition declared (name own txt : pystr) : Prop :=
  ∃ prefix, declaration_prefix space_char prefix ∧
    ((∃ init rest, own = name ++ init ∧ txt = prefix ++ own ++ rest ∧ closing rest) ∨
     (∃ before after sp init, bracketed (before ++ name ++ after) ∧ white sp ∧
        txt = prefix ++ (before ++ name ++ after) ++ sp ++ lit "=" ++ init)).

Lemma lstrip_white t : ∃ sp, white sp ∧ t = sp ++ lstrip space_char t.
Proof using Type.
  induction t as [|c t (sp & Hsp & Ht)]; [exists []; by split; [constructor|]|]. cbn [lstrip].
  destruct (space_char c) eqn:Hc; [|exists []; by split; [constructor|]].
  exists (c :: sp). split; [by constructor|]. cbn. by rewrite <-Ht.
Qed.

Lemma strip_closing t : strip space_char t ∈ [[]; lit ";"] → closing t.
Proof using Type.
  intros Hin. destruct (lstrip_white t) as (sp & Hsp & Ht). destruct (lstrip_white (reverse (lstrip space_char t))) as (sp' & Hsp' & Hr).
  apply (f_equal reverse) in Hr. rewrite reverse_involutive, reverse_app in Hr. fold (strip space_char t) in Hr.
  exists sp, (reverse sp'). split; [done|]. split; [unfold white; by rewrite reverse_Permutation|].
  rewrite Ht, Hr. apply elem_of_cons in Hin as [->|Hin]; [by left|]. apply list_elem_of_singleton in Hin as ->. by right.
Qed.

Lemma binding_bracketed t : _is_binding_pattern t = true → bracketed t.
Proof using Type.
  unfold _is_binding_pattern. rewrite andb_true_iff, bool_decide_eq_true. intros [Hlen H].
  destruct t as [|a t]; [done|]. destruct t as [|b u] using rev_ind; [simpl in Hlen; lia|]. clear IHu. cbn [head] in H.
  rewrite app_comm_cons, last_snoc in H. apply bool_decide_eq_true in H. exists u.
  apply elem_of_cons in H as [[= -> ->]|H]; [by left|]. apply list_elem_of_singleton in H as [= -> ->]. by right.
Qed.

Lemma plain_declared t name x sel_start sel_end raw_end :
  0 ≤ sx_start x → name ≠ [] → between t sel_start sel_end = name → sel_end ≤ raw_end →
  declares space_char t None sel_start raw_end x = true →
  declared name (between t sel_start raw_end) (between t (sx_start x) (sx_end x)).
Proof using Type.
  unfold declares. rewrite !andb_true_iff, !bool_decide_eq_true. intros Hx Hne Hname Hend [[[Hs He] Hpre] Hrest].
  assert (sel_start ≤ sel_end) by (apply (between_nonempty t); [by rewrite Hname|lia]).
  exists (between t (sx_start x) sel_start). split; [by apply declaration_prefix_spec|left].
  exists (between t sel_end raw_end), (between t raw_end (sx_end x)). split_and!; [| |by apply strip_closing].
  - rewrite (between_split t _ sel_end) by lia. by rewrite Hname.
  - rewrite (between_split t _ sel_start) by lia. f_equal. apply between_split; lia.
Qed.

Lemma pattern_declared t name own x b sel_start sel_end raw_end :
  0 ≤ sx_start x → name ≠ [] → between t sel_start sel_end = name → sx_start b ≤ sel_start → sel_end ≤ sx_end b →
  _is_binding_pattern (between t (sx_start b) (sx_end b)) = true → sx_end b ≤ sx_end x →
  declares space_char t (Some b) (sx_start b) raw_end x = true → declared name own (between t (sx_start x) (sx_end x)).
Proof using Type.
  unfold declares. rewrite !andb_true_iff, !bool_decide_eq_true. intros Hx Hne Hname Hb1 Hb2 Hpat Hbx [[[Hs He] Hpre] Hrest].
  assert (sel_start ≤ sel_end) by (apply (between_nonempty t); [by rewrite Hname|lia]).
  assert (between t (sx_start b) (sx_end b) = between t (sx_start b) sel_start ++ name ++ between t sel_end (sx_end b)) as Hsplit.
  { rewrite (between_split t _ sel_start) by lia. f_equal. rewrite (between_split t _ sel_end) by lia. by rewrite Hname. }
  exists (between t (sx_start x) (sx_start b)). split; [by apply declaration_prefix_spec|right].
  destruct (lstrip_white (between t (sx_end b) (sx_end x))) as (sp & Hsp & Hgap).
  apply starts_with_spec in Hrest as [init Hinit]. rewrite Hinit in Hgap.
  exists (between t (sx_start b) sel_start), (between t sel_end (sx_end b)), sp, init.
  rewrite <-Hsplit, <-Hgap. split_and!; [by apply binding_bracketed|done|].
  rewrite (between_split t _ (sx_start b)) by lia. f_equal. apply between_split; [|lia].
  split; [lia|]. apply (between_nonempty t); [|lia]. intros Hnil. by rewrite Hnil in Hpat.
Qed.

(** In a chain, a range that starts before another one contains it. *)
Lemma starts_before l x y : StronglySorted within l → x ∈ l → y ∈ l → sx_start x < sx_start y → sx_end y ≤ sx_end x.
Proof using Type.
  induction 1 as [|z l _ IH Hz]; [by intros ?%elem_of_nil|]. rewrite Forall_forall in Hz.
  intros [->|Hx]%elem_of_cons [->|Hy]%elem_of_cons Hlt; [lia| | |by apply IH].
  - specialize (Hz _ Hy). unfold within in Hz. lia.
  - specialize (Hz _ Hx). unfold within in Hz. lia.
Qed.

Lemma recover_statement_one m t binding binding_start raw_end ranges start stop :
  recover_statement space_char m t binding binding_start raw_end ranges = Ok (inl (start, stop)) →
  ∃ x, x ∈ ranges ∧ declares space_char t binding binding_start raw_end x = true ∧
    text_offset_to_lsp m (sx_start x) = Ok start ∧ text_offset_to_lsp m (sx_end x) = Ok stop.
Proof using Type.
  unfold recover_statement. destruct (filter _ ranges) as [|x [|y l]] eqn:Hf; [done| |done].
  assert (x ∈ [x]) as Hx by (by apply list_elem_of_singleton). rewrite <-Hf in Hx. apply list_elem_of_filter in Hx as [Hd Hx].
  intros (p & Hp & H)%res_bind_Ok. apply res_bind_Ok in H as (q & Hq & [= <- <-]). exists x. unfold as_ts_error in *.
  by repeat case_match; simplify_eq.
Qed.

Lemma recover_range_declares c chain start stop :
  ca_name c ≠ [] → _recover_range space_char c chain m (text s) = Ok (inl (start, stop)) →
  ∃ r a b ra rb, in_chain r chain ∧ _lsp_position (raw_value r "start") = Ok start ∧ _lsp_position (raw_value r "end") = Ok stop ∧
    lsp_to_text_offset m start = Ok a ∧ lsp_to_text_offset m stop = Ok b ∧
    _offsets (ca_raw_range c) m = Ok (ra, rb) ∧ declared (ca_name c) (between (text s) ra rb) (between (text s) a b).
Proof using Hraw.
  intros Hne. unfold _recover_range. intros ([raw_start raw_end] & Hown & H)%res_bind_Ok.
  apply res_bind_Ok in H as ([sel_start sel_end] & _ & H).
  destruct (bool_decide_reflect (between (text s) sel_start sel_end ≠ ca_name c)) as [|Hname]; [done|].
  apply dec_stable in Hname. apply res_bind_Ok in H as (ranges & Hchain & H).
  apply chain_facts in Hchain as (Hoff & Hsorted & _). destruct ranges as [|first outer]; [done|].
  destruct (_ || _ || _ || _) eqn:Hchecks; [done|]. rewrite !orb_false_iff, !bool_decide_eq_false in Hchecks.
  assert (raw_start = sel_start) as -> by (apply dec_stable; tauto).
  revert H. set (bindings := filter _ outer). intros H.
  assert (∀ x, x ∈ first :: outer → ∃ p q, _lsp_position (raw_value (sx_raw x) "start") = Ok p ∧
    _lsp_position (raw_value (sx_raw x) "end") = Ok q ∧ lsp_to_text_offset m p = Ok (sx_start x) ∧
    lsp_to_text_offset m q = Ok (sx_end x) ∧ in_chain (sx_raw x) chain) as Hranges.
  { rewrite Forall_forall in Hoff. intros x Hx. destruct (Hoff x Hx) as [Ho Hin].
    destruct (offsets_positions _ _ _ Ho) as (p & q & ? & ? & ? & ?). by exists p, q. }
  assert (∀ binding, (binding = None ∨ ∃ b, binding = Some b ∧ b ∈ bindings) →
    ∀ x, x ∈ first :: outer →
    declares space_char (text s) binding (match binding with Some b => sx_start b | None => sel_start end) raw_end x = true →
    declared (ca_name c) (between (text s) sel_start raw_end) (between (text s) (sx_start x) (sx_end x))) as Hdecl.
  { intros binding Hb x Hx Hd. destruct (Hranges x Hx) as (p & q & _ & _ & Hp & _ & _).
    apply position_of_offset in Hp as [_ Hpos]. destruct Hb as [->|(b & -> & Hb)].
    - eapply plain_declared; [done|done|exact Hname| |done]. lia.
    - unfold bindings in Hb. apply list_elem_of_filter in Hb as [(Hb1 & Hb2 & Hb3) Hb].
      eapply (pattern_declared _ _ _ _ b); [done|done|exact Hname|done|done|done| |done].
      eapply starts_before; [done|done|by right|]. unfold declares in Hd. rewrite !andb_true_iff, bool_decide_eq_true in Hd. tauto. }
  assert (∀ binding, (binding = None ∨ ∃ b, binding = Some b ∧ b ∈ bindings) →
    recover_statement space_char m (text s) binding (match binding with Some b => sx_start b | None => sel_start end) raw_end
      (first :: outer) = Ok (inl (start, stop)) →
    ∃ r a b ra rb, in_chain r chain ∧ _lsp_position (raw_value r "start") = Ok start ∧ _lsp_position (raw_value r "end") = Ok stop ∧
      lsp_to_text_offset m start = Ok a ∧ lsp_to_text_offset m stop = Ok b ∧
      _offsets (ca_raw_range c) m = Ok (ra, rb) ∧ declared (ca_name c) (between (text s) ra rb) (between (text s) a b)) as Hend.
  { intros binding Hb Hst. apply recover_statement_one in Hst as (x & Hx & Hd & Hs1 & Hs2).
    destruct (Hranges x Hx) as (p & q & Hp & Hq & Hpo & Hqo & Hin).
    rewrite (proj1 (position_of_offset _ _ Hpo)) in Hs1. rewrite (proj1 (position_of_offset _ _ Hqo)) in Hs2. injection Hs1 as <-. injection Hs2 as <-.
    exists (sx_raw x), (sx_start x), (sx_end x), sel_start, raw_end. split_and!; try done. by apply (Hdecl binding). }
  clearbody bindings. destruct bindings as [|b [|b' l]]; [| |done].
  - apply (Hend None); [by left|exact H].
  - apply (Hend (Some b)); [right; exists b; split; [done|by left]|exact H].
Qed.
End range_facts.

(** ** All variables *)

Section variables.
Context (space_char : N → bool) (opaque_eq : pyany → pyany → bool).

Lemma candidate_fields i raw c : candidate_of opaque_eq (i, raw) = Ok (Some c) →
  ca_id c = i ∧ ca_raw c = raw ∧ ca_name c ≠ [] ∧ raw_value raw "name" = PStr (ca_name c) ∧
  raw_value raw "selectionRange" = PMapping (ca_selection c).
Proof using Type.
  unfold candidate_of. cbn [fst snd]. destruct (kind_in _ _) as [k|]; [|done].
  destruct (raw_value raw "range"), (raw_value raw "selectionRange"), (raw_value raw "name") as [| | |name| | | | |]; try done.
  destruct (_position_mapping _); [|done]. destruct (_position_mapping _); [|done].
  destruct (k && nonempty name && _) eqn:Hb; [|done]. intros [= <-]. cbn. rewrite !andb_true_iff in Hb.
  split_and!; try done. by intros ->; destruct Hb as [[_ ?] _].
Qed.

(** The candidates, with the positions of their symbols from [n] on. *)
Lemma candidates_indexed raws : ∀ n found, map_res (candidate_of opaque_eq) (imap (λ i, pair (n + i)%nat) raws) = Ok found →
  NoDup (ca_id <$> omap id found) ∧ Forall (λ c, (n ≤ ca_id c)%nat) (omap id found) ∧
  ∀ i raw, raws !! i = Some raw → ∃ o, found !! i = Some o ∧ candidate_of opaque_eq ((n + i)%nat, raw) = Ok o.
Proof using Type.
  induction raws as [|raw raws IH]; intros n found.
  { intros [= <-]. split_and!; [constructor|constructor|done]. }
  rewrite imap_cons. cbn [map_res]. intros (o & Ho & H)%res_bind_Ok. apply res_bind_Ok in H as (rest & Hrest & [= <-]).
  rewrite (imap_ext _ (λ i, pair (S n + i)%nat)) in Hrest by (intros; cbn; f_equal; lia).
  apply IH in Hrest as (H1 & H2 & H3).
  assert (∀ i raw', (raw :: raws) !! i = Some raw' → ∃ o', (o :: rest) !! i = Some o' ∧ candidate_of opaque_eq ((n + i)%nat, raw') = Ok o') as H4.
  { intros [|i] raw' Hi; [injection Hi as <-; by exists o|]. destruct (H3 i raw' Hi) as (o' & Ho' & Hc). exists o'.
    split; [done|]. by replace (n + S i)%nat with (S n + i)%nat by lia. }
  destruct o as [c|]; cbn [omap list_omap id]; split_and!; try done; try (by eapply Forall_impl; [exact H2|cbn; lia]).
  - csimpl. constructor; [|done]. apply candidate_fields in Ho as (Hid & _). rewrite Hid.
    intros (c' & Hc' & Hin)%list_elem_of_fmap. rewrite Forall_forall in H2. specialize (H2 _ Hin). lia.
  - constructor; [|by eapply Forall_impl; [exact H2|cbn; lia]]. apply candidate_fields in Ho as (Hid & _). lia.
Qed.

Lemma candidates_total raws : Forall (λ raw, is_Some (kind_in opaque_eq (raw_value raw "kind"))) raws →
  ∃ candidates, _candidates opaque_eq raws = Ok candidates ∧ NoDup (ca_id <$> candidates) ∧
    ∀ i raw, raws !! i = Some raw → ∃ o, candidate_of opaque_eq (i, raw) = Ok o ∧ ∀ c, o = Some c ↔ c ∈ candidates ∧ ca_id c = i.
Proof using Type.
  intros Hkinds. assert (∃ found, map_res (candidate_of opaque_eq) (imap pair raws) = Ok found) as [found Hfound].
  { assert (∀ (l : list (nat * raw_symbol)), Forall (λ raw, is_Some (kind_in opaque_eq (raw_value raw.2 "kind"))) l →
      ∃ found, map_res (candidate_of opaque_eq) l = Ok found) as Hall.
    { induction 1 as [|x l [k Hk] _ (found & Hf)]; [by exists []|]. cbn [map_res].
      assert (∃ o, candidate_of opaque_eq x = Ok o) as [o ->] by (unfold candidate_of; rewrite Hk; by eexists).
      cbn [mbind res_bind]. rewrite Hf. by eexists. }
    apply Hall. apply Forall_lookup. intros i x (raw & Hi & ->)%list_lookup_imap_Some. cbn.
    rewrite Forall_lookup in Hkinds. by eapply Hkinds. }
  exists (omap id found). unfold _candidates. rewrite Hfound. cbn [mbind res_bind]. split; [done|].
  destruct (candidates_indexed raws 0 found Hfound) as (H1 & _ & H3). split; [done|].
  intros i raw Hi. destruct (H3 i raw Hi) as (o & Ho & Hc). exists o. split; [done|]. intros c. split.
  - intros ->. split; [|by apply candidate_fields in Hc as [-> _]].
    apply list_elem_of_omap. exists (Some c). split; [by eapply list_elem_of_lookup_2|done].
  - intros [Hin Hid]. apply list_elem_of_omap in Hin as (o' & Ho' & Hid'). destruct o' as [c'|]; [|done]. injection Hid' as ->.
    apply list_elem_of_lookup in Ho' as [k Hk].
    destruct (lookup_lt_is_Some_2 raws k) as [raw' Hraw'].
    { apply lookup_lt_Some in Hk. rewrite (map_res_length _ _ _ Hfound), length_imap in Hk. done. }
    destruct (H3 k raw' Hraw') as (o' & Ho'' & Hc'). rewrite Hk in Ho''. injection Ho'' as <-.
    apply candidate_fields in Hc' as (Hid' & _). cbn in Hid'. assert (k = i) as -> by congruence. congruence.
Qed.

(** The table of the extended symbols, for candidates with distinct identities. *)
Lemma recovered_lookup outcomes i out : NoDup (ca_id ∘ fst <$> outcomes) →
  recovered_by_identity outcomes !! i = Some out ↔
  ∃ c start stop, (c, inl (start, stop)) ∈ outcomes ∧ ca_id c = i ∧ out = with_range (ca_raw c) start stop.
Proof using Type.
  unfold recovered_by_identity. induction outcomes as [|[c r] outcomes IH]; intros Hnd.
  { cbn. rewrite lookup_empty. split; [done|]. by intros (? & ? & ? & ?%elem_of_nil & _). }
  csimpl in Hnd. apply NoDup_cons in Hnd as [Hnew Hnd]. specialize (IH Hnd). setoid_rewrite elem_of_cons.
  destruct r as [[start stop]|reason]; cbn [omap list_omap list_to_map foldr uncurry fst snd].
  - cbn. destruct (decide (ca_id c = i)) as [Heq|Hne].
    + subst i. rewrite lookup_insert_eq. split; [intros [= <-]; exists c, start, stop; split_and!; by auto|].
      intros (c' & a & b & [[= -> -> ->]|Hin] & Hid & ->); [done|]. destruct Hnew. rewrite <-Hid.
      apply list_elem_of_fmap. by exists (c', inl (a, b)).
    + rewrite lookup_insert_ne by done. rewrite IH. split; [intros (c' & a & b & ? & ?); exists c', a, b; by auto|].
      intros (c' & a & b & [[= -> -> ->]|Hin] & Hid & ->); [done|]. by exists c', a, b.
  - cbn. rewrite IH. split; [intros (c' & a & b & ? & ?); exists c', a, b; by auto|].
    intros (c' & a & b & [[=]|Hin] & Hid & ->). by exists c', a, b.
Qed.
End variables.

Section evidence.
Context (space_char : N → bool) (opaque_eq : pyany → pyany → bool) (m : PositionMapper) (t : pystr).
Abbreviation one := (recovered_range space_char m t).

Lemma recover_range_caught c d : _recover_range space_char c (PMapping d) m t ≠ Err TsAttribute.
Proof using Type.
  unfold _recover_range. pose proof (offsets_caught (ca_raw_range c) m) as H1. pose proof (offsets_caught (ca_selection c) m) as H2.
  destruct (_offsets (ca_raw_range c) m) as [[rs re]|e]; cbn [mbind res_bind]; [|congruence].
  destruct (_offsets (ca_selection c) m) as [[ss se]|e]; cbn [mbind res_bind]; [|congruence].
  case_bool_decide; [done|].
  pose proof (chain_caught m (PMapping d) None ltac:(eauto)) as H3.
  destruct (_syntax_chain m None (PMapping d)) as [[|first outer]|e]; cbn [mbind res_bind]; [done| |congruence].
  destruct (_ || _); [done|]. unfold recover_statement, as_ts_error.
  destruct (filter _ outer) as [|b [|b' l]]; [| |done];
    (destruct (filter _ _) as [|x [|y k]]; [done| |done]);
    (destruct (text_offset_to_lsp m (sx_start x)); [|done]); cbn [mbind res_bind]; by destruct (text_offset_to_lsp m (sx_end x)).
Qed.

Definition with_outcome (x : _Candidate * pyany) : res ts_error (_Candidate * ((LspPosition * LspPosition) + pystr)) :=
  let '(c, chain) := x in r ← one c chain; Ok (c, r).

Lemma outcomes_total pairs : Forall (λ x, ∃ d, x.2 = PMapping d) pairs →
  ∃ ranges, map_res with_outcome pairs = Ok ranges ∧ ranges.*1 = pairs.*1 ∧
    Forall2 (λ x o, one x.1 x.2 = Ok o.2) pairs ranges.
Proof using Type.
  induction 1 as [|[c chain] pairs [d Hd] _ (ranges & Hr & Hfst & HF)]; [by exists []|]. cbn in Hd. subst chain.
  assert (∃ r, one c (PMapping d) = Ok r) as [r Hone].
  { unfold recovered_range. pose proof (recover_range_caught c d). destruct (_recover_range _ _ _ _ _) as [r|[| | |]]; try done; by eexists. }
  exists ((c, r) :: ranges). cbn [map_res with_outcome]. rewrite Hone. cbn [mbind res_bind]. rewrite Hr.
  split_and!; [done|by csimpl; rewrite Hfst|by constructor].
Qed.
End evidence.

(** What the server answered for the variable [c]: the answers come in the order of the variables. *)
Definition answered_for (opaque_eq : pyany → pyany → bool) (raws : list raw_symbol) (evidence : list pyany) (c : _Candidate)
    (chain : pyany) : Prop :=
  ∃ candidates k, _candidates opaque_eq raws = Ok candidates ∧ candidates !! k = Some c ∧ evidence !! k = Some chain.

(** The variable [c] after a recovery: its symbol has the range of a declaration of its name around its own reported text,
    one of the ranges the server reported for it, or stays as it was and is listed. *)
Definition variable_recovered (space_char : N → bool) (s : FileSnapshot) (e : PositionEncoding) (answered : _Candidate → pyany → Prop)
    (result : AssignmentRecoveryResult) (c : _Candidate) (raw out : raw_symbol) : Prop :=
  (∃ chain r start stop a b own_start own_end, answered c chain ∧ in_chain r chain ∧
     _lsp_position (raw_value r "start") = Ok start ∧ _lsp_position (raw_value r "end") = Ok stop ∧
     out = with_range raw start stop ∧
     lsp_to_text_offset (from_snapshot s e) start = Ok a ∧ lsp_to_text_offset (from_snapshot s e) stop = Ok b ∧
     _offsets (ca_raw_range c) (from_snapshot s e) = Ok (own_start, own_end) ∧
     declared space_char (ca_name c) (between (text s) own_start own_end) (between (text s) a b)) ∨
  (out = raw ∧ ∃ reason, unresolved_of reason c ∈ rc_unresolved result).

Lemma symbol_after space_char raws s e candidates (answered : _Candidate → pyany → Prop) ranges i raw c r :
  NoDup (ca_id <$> candidates) → ranges.*1 = candidates → (c, r) ∈ ranges → raws !! i = Some raw → ca_id c = i → ca_raw c = raw →
  ca_name c ≠ [] → (∃ raw_file, from_bytes raw_file = Ok s) →
  (∃ chain, answered c chain ∧ recovered_range space_char (from_snapshot s e) (text s) c chain = Ok r) →
  ∀ unresolved, unresolved = omap (λ '(c, r), match r with inl _ => None | inr reason => Some (unresolved_of reason c) end) ranges →
  variable_recovered space_char s e answered {| rc_symbols := imap (λ i raw, default raw (recovered_by_identity ranges !! i)) raws;
    rc_unresolved := unresolved |} c raw (default raw (recovered_by_identity ranges !! i)).
Proof.
  intros Hnd Hfst Hin Hraw Hid Hcraw Hname [raw_file Hfile] (chain & Hchain & Hone) unresolved ->.
  assert (NoDup (ca_id ∘ fst <$> ranges)) as Hnd' by (by rewrite list_fmap_compose, Hfst).
  destruct r as [[start stop]|reason].
  - left. assert (recovered_by_identity ranges !! i = Some (with_range raw start stop)) as ->.
    { apply recovered_lookup; [done|]. exists c, start, stop. by rewrite Hcraw. }
    unfold recovered_range in Hone. destruct (_recover_range _ _ _ _ _) as [r|[| | |]] eqn:Hr; [injection Hone as ->|done..].
    apply (recover_range_declares space_char raw_file s e Hfile) in Hr as (r & a & b & ra & rb & Hrest); [|done].
    exists chain, r, start, stop, a, b, ra, rb. cbn. tauto.
  - right. split.
    + destruct (recovered_by_identity ranges !! i) as [out|] eqn:Hl; [|done]. exfalso.
      apply recovered_lookup in Hl as (c' & start & stop & Hin' & Hid' & _); [|done].
      apply list_elem_of_lookup in Hin as [k Hk]. apply list_elem_of_lookup in Hin' as [k' Hk'].
      assert (k = k') as ->; [|congruence]. eapply (NoDup_lookup _ k k' i Hnd'); rewrite list_lookup_fmap; by rewrite ?Hk, ?Hk'; cbn; congruence.
    + exists reason. cbn. apply list_elem_of_omap. by exists (c, inr reason).
Qed.

(** The early returns list every candidate. *)
Lemma all_listed space_char s e answered symbols candidates f c raw :
  c ∈ candidates →
  variable_recovered space_char s e answered
    {| rc_symbols := symbols; rc_unresolved := (λ c, unresolved_of (f c) c) <$> candidates |} c raw raw.
Proof. intros Hc. right. split; [done|]. exists (f c). cbn. apply list_elem_of_fmap. by exists c. Qed.

Lemma variables_recovered space_char opaque_eq raw_file s e raws selection_ranges :
  from_bytes raw_file = Ok s → Forall (λ raw, is_Some (kind_in opaque_eq (raw_value raw "kind"))) raws →
  Forall (λ v, ∃ d, v = PMapping d) (default [] selection_ranges) →
  ∃ result, recover_typescript_top_level_variable_symbols space_char opaque_eq (Some raws) selection_ranges s e = Ok result ∧
    length (rc_symbols result) = length raws ∧
    ∀ i raw, raws !! i = Some raw → ∃ out, rc_symbols result !! i = Some out ∧
      match candidate_of opaque_eq (i, raw) with
      | Ok (Some c) => variable_recovered space_char s e (answered_for opaque_eq raws (default [] selection_ranges)) result c raw out
      | _ => out = raw
      end.
Proof.
  intros Hfile Hkinds Hmaps. destruct (candidates_total opaque_eq raws Hkinds) as (candidates & Hcs & Hnd & Hidx).
  unfold recover_typescript_top_level_variable_symbols. cbn [default from_option id]. change (default [] (Some raws)) with raws.
  rewrite Hcs. cbn [mbind res_bind]. set (evidence := default [] selection_ranges) in *.
  destruct (existsb _ candidates); [|destruct (bool_decide_reflect (length evidence ≠ length candidates)) as [|Hlen]].
  1-2: eexists; split; [done|]; split; [done|]; intros i raw Hi; exists raw; split; [done|];
    destruct (Hidx i raw Hi) as (o & -> & Ho); destruct o as [c|]; [|done];
    apply (all_listed _ _ _ _ _ _ (λ c, _)); by apply (Ho c).
  apply dec_stable in Hlen.
  destruct (outcomes_total space_char (from_snapshot s e) (text s) (zip candidates evidence)) as (ranges & Hr & Hfst & HF).
  { apply Forall_lookup. intros k [c chain] (c' & ch' & [= <- <-] & _ & Hk)%lookup_zip_with_Some. rewrite Forall_lookup in Hmaps. by eapply Hmaps. }
  change (map_res _ _) with (map_res (with_outcome space_char (from_snapshot s e) (text s)) (zip candidates evidence)). rewrite Hr.
  rewrite fst_zip in Hfst by lia. eexists. split; [done|]. cbn [rc_symbols]. split; [by rewrite length_imap|].
  intros i raw Hi. rewrite list_lookup_imap, Hi. eexists. split; [done|].
  destruct (Hidx i raw Hi) as (o & Hco & Ho). rewrite Hco.
  destruct o as [c|].
  - destruct (proj1 (Ho c) eq_refl) as [Hin Hid]. apply candidate_fields in Hco as (_ & Hcraw & Hname & _).
    pose proof Hin as Hin'. rewrite <-Hfst in Hin'. apply list_elem_of_fmap in Hin' as ([c' r] & -> & Hcr). cbn [fst] in *.
    eapply (symbol_after _ _ _ _ candidates _ ranges i raw c' r); try done; [by eexists|].
    apply list_elem_of_lookup in Hcr as [k Hk]. destruct (Forall2_lookup_r _ _ _ _ _ HF Hk) as ([c2 chain] & Hz & Hone). cbn in Hone.
    apply lookup_zip_with_Some in Hz as (c3 & ch3 & [= <- <-] & Hc2 & Hch). exists chain.
    assert (ranges.*1 !! k = Some c') as Hk' by (by rewrite list_lookup_fmap, Hk). rewrite Hfst, Hc2 in Hk'. injection Hk' as <-.
    split; [by exists candidates, k|done].
  - destruct (recovered_by_identity ranges !! i) as [out|] eqn:Hl; [|done]. exfalso.
    apply recovered_lookup in Hl as (c & start & stop & Hin & Hid & _); [|by rewrite list_fmap_compose, Hfst].
    assert (c ∈ candidates) as Hc by (rewrite <-Hfst; apply list_elem_of_fmap; by exists (c, inl (start, stop))).
    discriminate (proj2 (Ho c) (conj Hc Hid)).
Qed.

(** ** Properties *)

(** C38: a TypeScript variable gets the range of its declaration, or none. Provided that the kinds can be hashed and the
    evidence consists of mappings, the recovery raises nothing and keeps the order of the symbols: a variable whose range
    starts at its identifier is either extended to one of the ranges the server reported for it, or stays as it was and is
    listed as incomplete; every other symbol passes through unchanged. The text of an extended range is a declaration of
    the variable: the keywords, then the variable's own reported text, which starts with its name, and after it nothing but
    white space and at most one semicolon; or the keywords, a bracketed pattern that contains the name, and an
    initializer. *)
Theorem typescript_recovery_exact space_char opaque_eq raw_file s e raws selection_ranges :
  from_bytes raw_file = Ok s → Forall (λ raw, is_Some (kind_in opaque_eq (raw_value raw "kind"))) raws →
  Forall (λ v, ∃ d, v = PMapping d) (default [] selection_ranges) →
  ∃ result, recover_typescript_top_level_variable_symbols space_char opaque_eq (Some raws) selection_ranges s e = Ok result ∧
    length (rc_symbols result) = length raws ∧
    ∀ i raw, raws !! i = Some raw → ∃ out, rc_symbols result !! i = Some out ∧
      match candidate_of opaque_eq (i, raw) with
      | Ok (Some c) => variable_recovered space_char s e (answered_for opaque_eq raws (default [] selection_ranges)) result c raw out
      | _ => out = raw
      end.
Proof. apply variables_recovered. Qed.

(** An incomplete TypeScript variable is never passed off as complete. When a recovered document is normalized with
    the classifier of its recovery, a variable whose reported range started at its identifier either carries a reason why
    its body is incomplete, for which a lookup refuses the body, or is shown with the range of its extended symbol. The
    selection range must be a value that equals itself, as all but those with a NaN do. *)
Theorem typescript_identifier_is_no_body space_char opaque_eq raw_file s e raws selection_ranges result
    urlparse unquote py_str name_fn uri roots i raw root c :
  from_bytes raw_file = Ok s → Forall (λ raw, is_Some (kind_in opaque_eq (raw_value raw "kind"))) raws →
  Forall (λ v, ∃ d, v = PMapping d) (default [] selection_ranges) →
  recover_typescript_top_level_variable_symbols space_char opaque_eq (Some raws) selection_ranges s e = Ok result →
  normalize_document_symbols urlparse unquote py_str name_fn (Some (body_incomplete_reason opaque_eq result))
    (Some (rc_symbols result)) uri None = Ok roots →
  raws !! i = Some raw → roots !! i = Some root → candidate_of opaque_eq (i, raw) = Ok (Some c) →
  py_eq opaque_eq (PMapping (ca_selection c)) (PMapping (ca_selection c)) = true → raw_get raw "location" = None →
  is_Some (ns_incomplete root) ∨
  ∃ start stop a b, rc_symbols result !! i = Some (with_range raw start stop) ∧
    loc_range (ns_location root) = {| rg_start := {| pos_line := line start; pos_character := character start |};
                                      rg_end := {| pos_line := line stop; pos_character := character stop |} |} ∧
    lsp_to_text_offset (from_snapshot s e) start = Ok a ∧ lsp_to_text_offset (from_snapshot s e) stop = Ok b ∧
    ∃ own, declared space_char (ca_name c) own (between (text s) a b).
Proof.
  intros Hfile Hkinds Hmaps Hrec Hnorm Hi Hroot Hc Heq Hloc.
  destruct (normalized_root _ _ _ _ _ _ _ _ _ _ Hnorm Hroot) as (out & Hout & Hinc & Hsl).
  destruct (variables_recovered space_char opaque_eq raw_file s e raws selection_ranges Hfile Hkinds Hmaps)
    as (result' & Hrec' & _ & Hall).
  rewrite Hrec in Hrec'. injection Hrec' as <-. destruct (Hall i raw Hi) as (out' & Hout' & Hvar).
  rewrite Hout in Hout'. injection Hout' as <-. rewrite Hc in Hvar. pose proof (candidate_fields _ _ _ _ Hc) as (_ & _ & _ & Hn & Hs).
  destruct Hvar as [(chain & r & start & stop & a & b & ra & rb & _ & _ & _ & _ & -> & Ha & Hb & _ & Hd)|[-> [reason Hl]]].
  - right. exists start, stop, a, b. split_and!; try done; [by eapply extended_location|by eexists].
  - left. rewrite Hinc. by eapply (listed_has_reason _ _ (unresolved_of reason c)).
Qed.

Module TypeScriptRecoveryExamples.

Definition source : pystr := lit "export const {a} = f();" ++ [10%N] ++ lit "let x = 1;" ++ [10%N].

Definition snap : FileSnapshot :=
  match from_bytes (utf8_encode source) with
  | Ok s => s
  | Err _ => {| raw_bytes := []; text := []; bom := []; line_endings := []; _text_to_byte := []; _line_starts := [];
                _line_content_ends := []; _line_ends := [] |}
  end.

Definition space_char (c : N) : bool := bool_decide (c ∈ [32; 9; 10; 13]%N).
Definition opaque_eq (v w : pyany) : bool := false.

Definition place (l start l' stop : Z) : pyany :=
  range_dict {| line := l; character := start |} {| line := l'; character := stop |}.

Definition symbol (name : string) (kind : Z) (range selection : pyany) : raw_symbol :=
  [(Some (lit "name"), PStr (lit name)); (Some (lit "kind"), PInt kind); (Some (lit "range"), range);
   (Some (lit "selectionRange"), selection)].

Definition raws : list raw_symbol :=
  [symbol "a" 14 (place 0 14 0 15) (place 0 14 0 15); symbol "x" 13 (place 1 4 1 9) (place 1 4 1 5);
   symbol "f" 12 (place 0 19 0 20) (place 0 19 0 20)].

(** A chain of ranges, from the innermost out. *)
Definition chain (ranges : list pyany) : pyany :=
  foldr (λ r parent, PMapping [(Some (lit "range"), r); (Some (lit "parent"), parent)]) PNone ranges.

Definition evidence : list pyany :=
  [chain [place 0 14 0 15; place 0 13 0 16; place 0 0 0 23];
   chain [place 1 4 1 5; place 1 0 1 10; place 0 0 2 0]].

Definition recovered (evidence : list pyany) : AssignmentRecoveryResult :=
  match recover_typescript_top_level_variable_symbols space_char opaque_eq (Some raws) (Some evidence) snap UTF16 with
  | Ok r => r
  | Err _ => {| rc_symbols := []; rc_unresolved := [] |}
  end.

Example typescript_recovered_ranges :
  (λ r, raw_value r "range") <$> rc_symbols (recovered evidence) = [place 0 0 0 23; place 1 0 1 10; place 0 19 0 20] ∧
  rc_unresolved (recovered evidence) = [].
Proof. by vm_compute. Qed.

(** When the chain of the first statement of a file also holds the range of the file, there are two ranges that start
    with its declaration, and the recovery gives up. *)
Example first_statement_ambiguous :
  un_reason <$> rc_unresolved (recovered
    [chain [place 0 14 0 15; place 0 13 0 16; place 0 0 0 23; place 0 0 2 0];
     chain [place 1 4 1 5; place 1 0 1 10; place 0 0 2 0]]) = [AMBIGUOUS].
Proof. by vm_compute. Qed.

(** Without evidence nothing is extended. *)
Example no_evidence : un_reason <$> rc_unresolved (recovered []) = [SELECTION_RANGE_UNAVAILABLE; SELECTION_RANGE_UNAVAILABLE].
Proof. by vm_compute. Qed.

Lemma hashable_kinds : Forall (λ raw, is_Some (kind_in opaque_eq (raw_value raw "kind"))) raws.
Proof. repeat apply Forall_cons_2; try apply Forall_nil_2; by eexists. Qed.

Lemma mappings : Forall (λ v, ∃ d, v = PMapping d) (default [] (Some evidence)).
Proof. cbn [default from_option id]. unfold evidence. repeat apply Forall_cons_2; try apply Forall_nil_2; by eexists. Qed.

Lemma typescript_recovery_exact_witness :
  ∃ result, recover_typescript_top_level_variable_symbols space_char opaque_eq (Some raws) (Some evidence) snap UTF16 = Ok result ∧
    length (rc_symbols result) = length raws ∧
    ∀ i raw, raws !! i = Some raw → ∃ out, rc_symbols result !! i = Some out ∧
      match candidate_of opaque_eq (i, raw) with
      | Ok (Some c) => variable_recovered space_char snap UTF16 (answered_for opaque_eq raws evidence) result c raw out
      | _ => out = raw
      end.
Proof.
  apply (typescript_recovery_exact space_char opaque_eq (utf8_encode source) snap UTF16 raws (Some evidence));
    [by vm_compute|exact hashable_kinds|exact mappings].
Defined.

Definition no_uri (u : pystr) : parsed_uri := {| pu_scheme := []; pu_netloc := []; pu_path := u |}.

Definition without_evidence : AssignmentRecoveryResult := recovered [].

Definition normalized : list NormalizedSymbol :=
  match normalize_document_symbols no_uri id (λ _, []) id (Some (body_incomplete_reason opaque_eq without_evidence))
          (Some (rc_symbols without_evidence)) [] None with
  | Ok roots => roots
  | Err _ => []
  end.

(** Without evidence the variable is normalized as incomplete. *)
Example incomplete_without_evidence : ns_incomplete <$> normalized = [Some SELECTION_RANGE_UNAVAILABLE; Some SELECTION_RANGE_UNAVAILABLE; None].
Proof. by vm_compute. Qed.
End TypeScriptRecoveryExamples.
