(* ===== verification/Attribution.v ===== *)
(** * Native TypeScript programs

    Model of the scope attribution of [src/serena_light/lsp/typescript.py]: the
    paths tsserver reports for a project, brought into the workspace or rejected,
    the native configuration it selected, the projection made of them, the check
    of a supplied source file, the entry file, and the evidence that an omitted
    file is served without changing the configured program.

    The file system is that of [FileSystem]. Asking tsserver, reading the native
    configuration and [fnmatch] are parameters. *)

From S2P Require Import Prelude Paths Envelopes Normalize Scope FileSystem Identity Recovery.

Definition TYPESCRIPT_EXTENSIONS : list pystr :=
  [lit ".js"; lit ".jsx"; lit ".mjs"; lit ".cjs"; lit ".ts"; lit ".tsx"; lit ".mts"; lit ".cts"].

Definition NATIVE_CONFIG_NAMES : list pystr := [lit "tsconfig.json"; lit "jsconfig.json"].

(** [TypeScriptAdapterError], [TypeScriptScopeError] with its paths, and what
    the file system and the projection raise. *)
Inductive ts_exn :=
| AdapterError
| TypeScriptScopeError (paths : list pystr)
| TsPython (e : py_exn)
| TsScope (e : scope_exn).

Record RejectedProgramPath := { rp_path : pystr; rp_reason : DifferenceReason }.
#[export] Instance rejected_eq_dec : EqDecision RejectedProgramPath.
Proof. solve_decision. Defined.

Definition rejected_key (r : RejectedProgramPath) : pystr * pystr := (rp_path r, reason_value (rp_reason r)).

(** [path.suffix.lower() in TYPESCRIPT_EXTENSIONS] *)
Definition typescript_suffix (parts : list pystr) : bool :=
  bool_decide (lower_ascii (path_suffix (join_slash parts)) ∈ TYPESCRIPT_EXTENSIONS).

(** [relative.as_posix()] *)
Definition as_posix (parts : list pystr) : pystr := path_str (PurePath [] parts).

Definition in_node_modules (normalized : pystr) : bool :=
  bool_decide (normalized = lit "node_modules") || bool_decide (take 13 normalized = lit "node_modules/").

Inductive program_verdict := Skipped | Accepted (path : pystr) | Rejected (r : RejectedProgramPath).

Section attribution.
Context (recursion_limit : nat) (cwd : list pystr) (s : fs).

Abbreviation resolve := (resolve recursion_limit cwd s).

(** The components of a path that may be relative to the working directory. *)
Definition absolute_parts (p : purepath) : list pystr := if is_absolute p then p_parts p else cwd ++ p_parts p.

(** [Path.is_file]: of the errors, only a refused permission gets out. *)
Definition is_file (p : purepath) : res py_exn bool :=
  match os_stat s (absolute_parts p) with
  | Ok (NReg _) => Ok true
  | Ok _ => Ok false
  | Err (OSError EACCES) => Err (OSError EACCES)
  | Err _ => Ok false
  end.

(** One turn of the loop of [_normalize_program_paths]. *)
Definition program_path (root : purepath) (engine_library_dir : option purepath) (raw : pystr) : res ts_exn program_verdict :=
  let supplied := Path raw in
  let rooted := path_div root supplied in
  let claims_root := negb (is_absolute supplied) || _is_within rooted root in
  let lexical := path_normpath rooted in
  match relative_to lexical root with
  | None =>
      Ok (if claims_root && typescript_suffix (p_parts supplied)
          then Rejected {| rp_path := path_str supplied; rp_reason := OUTSIDE_WORKSPACE |} else Skipped)
  | Some relative =>
      let normalized := as_posix relative in
      let reject reason := Ok (Rejected {| rp_path := normalized; rp_reason := reason |}) in
      if in_node_modules normalized then Ok Skipped
      else if negb (typescript_suffix relative) then Ok Skipped
      else
        match os_lstat s (p_parts lexical) with
        | Err ValueError => Err (TsPython ValueError)
        | Err _ => reject DR_MISSING
        | Ok n =>
            match resolve lexical with
            | Err ValueError => Err (TsPython ValueError)
            | Err _ => reject DR_MISSING
            | Ok resolved =>
                if bool_decide (engine_library_dir = Some (path_parent resolved)) then Ok Skipped
                else if is_link n || bool_decide (resolved ≠ lexical) then reject SYMLINK_OR_ESCAPE
                else match n with NReg _ => Ok (Accepted normalized) | _ => reject NON_REGULAR end
            end
        end
  end.

Definition accepted_path (v : program_verdict) : option pystr := match v with Accepted p => Some p | _ => None end.
Definition rejected_path (v : program_verdict) : option RejectedProgramPath := match v with Rejected r => Some r | _ => None end.

Definition _normalize_program_paths (root : purepath) (raw_paths : list pystr) (engine_library_dir : option purepath)
    : res ts_exn (list pystr * list RejectedProgramPath) :=
  verdicts ← map_res (program_path root engine_library_dir) raw_paths;
  Ok (sorted_set (omap accepted_path verdicts), py_sorted rejected_key (remove_dups (omap rejected_path verdicts))).

(** [raw] is the value under ["configFileName"], if any. *)
Definition _selected_config (root : purepath) (raw : option pyany) : res ts_exn (option pystr * ProjectKind) :=
  match raw with
  | Some (PStr (_ :: _ as text)) =>
      let path := Path text in
      if bool_decide (default [] (last (p_parts path)) ∉ NATIVE_CONFIG_NAMES) then Ok (None, WORKSPACE_DEFAULT)
      else match is_file path with
           | Err e => Err (TsPython e)
           | Ok false => Ok (None, WORKSPACE_DEFAULT)
           | Ok true =>
               match resolve path with
               | Err e => Err (TsPython e)
               | Ok resolved =>
                   match relative_to resolved root with
                   | None => Err (TypeScriptScopeError [path_str resolved])
                   | Some relative => Ok (Some (as_posix relative), CONFIGURED)
                   end
               end
           end
  | _ => Ok (None, WORKSPACE_DEFAULT)
  end.

(** A list of strings, or nothing. *)
Definition string_list (v : option pyany) : res ts_exn (list pystr) :=
  match v with
  | Some (PSequence items) => map_res (λ x, match x with PStr t => Ok t | _ => Err AdapterError end) items
  | _ => Err AdapterError
  end.

Definition _string_file_names (body : raw_symbol) : res ts_exn (list pystr) := string_list (raw_get body "fileNames").

Definition as_ts {A} (r : res py_exn A) : res ts_exn A := match r with Ok a => Ok a | Err e => Err (TsPython e) end.
Definition as_ts_scope {A} (r : res scope_exn A) : res ts_exn A := match r with Ok a => Ok a | Err e => Err (TsScope e) end.

Record TypeScriptScopeAttribution := {
  ta_entry_path : pystr;
  ta_projection : ScopeProjection;
  ta_rejected : list RejectedProgramPath;
}.

Definition scope_compatible (a : TypeScriptScopeAttribution) : bool :=
  pj_compatible (ta_projection a) && negb (nonempty (ta_rejected a)).

Definition require_compatible (a : TypeScriptScopeAttribution) : res ts_exn ScopeProjection :=
  if scope_compatible a then Ok (ta_projection a)
  else Err (TypeScriptScopeError (sorted_set ((sd_path <$> pj_configured_program_outside_trust (ta_projection a)) ++
                                              (rp_path <$> ta_rejected a)))).

Section projection.
Context (sha256 : list N → pystr).

(** The reasons are a dict over a set, so their order does not matter. *)
Definition project_info_to_scope (workspace_root : purepath) (trust_paths : list pystr) (entry_path : pystr)
    (project_info_body : raw_symbol) (engine_library_dir : option purepath) : res ts_exn TypeScriptScopeAttribution :=
  root ← as_ts (resolve workspace_root);
  '(selected_config, project_kind) ← _selected_config root (raw_get project_info_body "configFileName");
  raw_file_names ← _string_file_names project_info_body;
  '(program, rejected) ← _normalize_program_paths root raw_file_names engine_library_dir;
  attribution ← as_ts_scope (attribution_init TYPESCRIPT project_kind selected_config program);
  let outside_reasons := (λ p, (p, ABSENT_FROM_GIT_TRUST_INVENTORY)) <$> filter (λ p, p ∉ trust_paths) program in
  projection ← as_ts_scope (from_attribution sha256 trust_paths attribution outside_reasons);
  Ok {| ta_entry_path := entry_path; ta_projection := projection; ta_rejected := rejected |}.
End projection.

(** ** One source file *)

Definition _trusted_source (root : purepath) (supplied : pystr) : res ts_exn purepath :=
  let lexical := path_normpath (path_div root (Path supplied)) in
  match relative_to lexical root, os_lstat s (p_parts lexical), resolve lexical with
  | Some relative, Ok n, Ok resolved =>
      if negb (typescript_suffix relative) then Err AdapterError
      else match n with
           | NReg _ => if bool_decide (resolved = lexical) then Ok lexical else Err AdapterError
           | _ => Err AdapterError
           end
  | _, _, _ => Err AdapterError
  end.

Definition _successful_body (response : option raw_symbol) : res ts_exn raw_symbol :=
  match response with
  | Some r => match raw_get r "success", raw_get r "body" with
              | Some (PBool true), Some (PMapping body) => Ok body
              | _, _ => Err AdapterError
              end
  | None => Err AdapterError
  end.

(** [tsserver] answers the project information of an opened file. *)
Definition attribute_native_program (sha256 : list N → pystr) (tsserver_path : purepath)
    (tsserver : purepath → purepath → res ts_exn (option raw_symbol)) (workspace_root : purepath) (trust_paths : list pystr)
    (entry_path : pystr) : res ts_exn TypeScriptScopeAttribution :=
  root ← as_ts (resolve workspace_root);
  entry ← _trusted_source root entry_path;
  response ← tsserver root entry;
  body ← _successful_body response;
  library ← as_ts (resolve tsserver_path);
  project_info_to_scope sha256 root trust_paths (as_posix (default [] (relative_to entry root))) body (Some (path_parent library)).
End attribution.

(** ** The entry file *)

Section entry.
Context (fnmatch : pystr → pystr → bool).

Fixpoint lstrip_slash (t : pystr) : pystr := match t with c :: u => if bool_decide (c = cp_slash) then lstrip_slash u else t | [] => [] end.

(** [pattern.strip("/")] *)
Definition strip_slashes (t : pystr) : pystr := rstrip_slash (lstrip_slash t).

(** [t.replace("**/", "")] *)
Fixpoint without_globstar (t : pystr) : pystr :=
  match t with
  | 42%N :: (42%N :: (47%N :: rest) as tail_) => without_globstar rest
  | c :: rest => c :: without_globstar rest
  | [] => []
  end.

Definition _matches_native_pattern (path pattern : pystr) : bool :=
  let normalized := strip_slashes pattern in
  if negb (nonempty normalized) then false
  else if bool_decide (path = normalized) || bool_decide (take (length normalized + 1) path = normalized ++ [cp_slash]) then true
  else fnmatch path normalized || fnmatch path (without_globstar normalized).

(** The strings of a list. *)
Definition strings_of (items : list pyany) : list pystr := omap (λ x, match x with PStr t => Some t | _ => None end) items.

Definition field_list (data : pyany) (k : string) : option (list pyany) :=
  match data with
  | PMapping d => match raw_get d k with Some (PSequence items) => Some items | _ => None end
  | _ => None
  end.

(** [config_file name] is the JSON value of the file, [None] where there is no
    such file, and [Some None] where it cannot be read or parsed. *)
Definition _root_native_config_patterns (config_file : pystr → option (option pyany)) : option (list pystr) * list pystr :=
  match omap config_file [lit "tsconfig.json"; lit "jsconfig.json"] with
  | Some data :: _ => (strings_of <$> field_list data "include", strings_of (default [] (field_list data "exclude")))
  | _ => (None, [])
  end.

(** The native configuration claims the path. *)
Definition claimed (include : option (list pystr)) (exclude : list pystr) (candidate : pystr) : bool :=
  negb (existsb (_matches_native_pattern candidate) exclude) &&
  match include with None => true | Some patterns => existsb (_matches_native_pattern candidate) patterns end.

Definition select_default_entry (config_file : pystr → option (option pyany)) (paths : list pystr) : res ts_exn pystr :=
  match py_sorted id paths with
  | [] => Err AdapterError
  | first :: rest =>
      let '(include, exclude) := _root_native_config_patterns config_file in
      Ok (default first (head (filter (λ p, claimed include exclude p = true) (first :: rest))))
  end.
End entry.

(** ** A path outside the configured program *)

Record InferredPathSupport := {
  ip_path : pystr;
  ip_project_kind : pystr;
  ip_selected_config_path : option pystr;
  ip_engine_owned : bool;
  ip_service_supported : bool;
  ip_configured_program_unchanged : bool;
  ip_configured_program_before : list pystr;
  ip_configured_program_after : list pystr;
  ip_inferred_program : list pystr;
}.

Definition supported_without_scope_expansion (i : InferredPathSupport) : bool :=
  ip_engine_owned i && ip_service_supported i && ip_configured_program_unchanged i.

(** From the bodies of the four answers: the program before and after the
    candidate was opened, the candidate's own project, and its [navtree]. *)
Definition inferred_support (limit : nat) (cwd : list pystr) (s : fs) (opaque_eq : pyany → pyany → bool) (root : purepath)
    (candidate_relative : pystr) (before candidate_info service after : raw_symbol) : res ts_exn InferredPathSupport :=
  before_names ← _string_file_names before;
  '(before_paths, before_rejected) ← _normalize_program_paths limit cwd s root before_names None;
  after_names ← _string_file_names after;
  '(after_paths, after_rejected) ← _normalize_program_paths limit cwd s root after_names None;
  inferred_names ← _string_file_names candidate_info;
  '(inferred_paths, inferred_rejected) ← _normalize_program_paths limit cwd s root inferred_names None;
  '(selected_config, _) ← _selected_config limit cwd s root (raw_get candidate_info "configFileName");
  let inferred := match selected_config with None => true | Some _ => false end in
  Ok {| ip_path := candidate_relative;
        ip_project_kind := if inferred then lit "inferred" else lit "configured";
        ip_selected_config_path := selected_config;
        ip_engine_owned := inferred;
        ip_service_supported := bool_decide (candidate_relative ∈ inferred_paths) && negb (nonempty inferred_rejected);
        ip_configured_program_unchanged :=
          bool_decide (before_paths = after_paths) && bool_decide (before_rejected = after_rejected) &&
          py_eq opaque_eq (raw_value before "configFileName") (raw_value after "configFileName");
        ip_configured_program_before := before_paths;
        ip_configured_program_after := after_paths;
        ip_inferred_program := inferred_paths |}.

(** ** Relative paths *)

(** A component of a path that was normalised. *)
Definition below_comp (x : pystr) : Prop := plain x ∧ cp_slash ∉ x ∧ 0%N ∉ x.

Lemma posix_relative rel : rel ≠ [] → Forall below_comp rel → as_posix rel = join_slash rel.
Proof.
  intros Hne Hg. unfold as_posix, path_str. cbn [p_anchor p_parts app]. destruct rel as [|x rel]; [done|].
  apply Forall_cons in Hg as [[(Hx & _) _] _]. destruct x as [|c x]; [done|]. by destruct rel.
Qed.

(** Such a path is taken as it is, or not at all. *)
Lemma posix_normal rel n : rel ≠ [] → Forall below_comp rel → _normalize_path (as_posix rel) = Ok n → n = as_posix rel.
Proof.
  intros Hne Hg. rewrite posix_relative by done. intros Hn.
  assert (split_slash (join_slash rel) = rel) as Hsplit.
  { apply split_join; [done|]. eapply Forall_impl; [exact Hg|]. by intros x (_ & Hx & _). }
  destruct (decide (92%N ∈ join_slash rel)) as [Hb|Hb].
  { unfold _normalize_path in Hn. rewrite (bool_decide_eq_true_2 (92%N ∈ _)), orb_true_r in Hn by done. done. }
  rewrite normalize_path_fixed in Hn; [by injection Hn| | | |done|].
  - intros Hnil. rewrite Hnil in Hsplit. subst rel. apply Forall_cons in Hg as [[(? & _) _] _]. done.
  - intros Hh. destruct rel as [|x rel]; [done|]. apply Forall_cons in Hg as [((Hx & _) & Hs & _) _].
    destruct x as [|c x]; [done|]. destruct rel; cbn in Hh; injection Hh as ->; apply Hs; by left.
  - intros Hin. apply join_slash_char in Hin as [?|(x & Hx & Hc)]; [done|]. rewrite Forall_forall in Hg.
    by destruct (Hg x Hx) as (_ & _ & He).
  - rewrite Hsplit. eapply Forall_impl; [exact Hg|]. by intros x [? _].
Qed.

(** The paths attributed are the candidates of the language, when these are taken as they are. *)
Lemma attribution_exact language kind selected program a :
  (∀ p n, p ∈ program → _supported p language = true → _normalize_path p = Ok n → n = p) →
  attribution_init language kind selected program = Ok a →
  na_language a = language ∧ ∀ p, p ∈ na_configured_program_paths a ↔ p ∈ program ∧ _supported p language = true.
Proof.
  intros Hnormal. unfold attribution_init.
  intros (sel & _ & H)%res_bind_Ok. apply res_bind_Ok in H as ([] & _ & H). apply res_bind_Ok in H as ([] & _ & H).
  apply res_bind_Ok in H as (ps & Hps & [= <-]). split; [done|]. cbn [na_configured_program_paths].
  pose proof (path_set_ok _ _ _ Hps) as (_ & _ & Hset). intros p. rewrite Hset. split.
  - intros (q & Hq & Hsup & Hn). by rewrite (Hnormal q p Hq Hsup Hn).
  - intros [Hp Hsup]. exists p. split_and!; [done|done|].
    unfold _path_set in Hps. apply res_bind_Ok in Hps as (ns & Hns & _).
    assert (p ∈ filter (λ p, _supported p language = true) program) as [i Hi]%list_elem_of_lookup by by apply list_elem_of_filter.
    destruct (map_res_lookup _ _ _ _ _ Hns Hi) as (n & _ & Hn). by rewrite <-(Hnormal p n Hp Hsup Hn) at 2.
Qed.

(** ** What a verdict says of the file *)

Section facts.
Context (limit : nat) (cwd : list pystr) (s : fs) (Hwf : wf_fs s) (Hcwd : phys_dir s cwd).
Context (root : list pystr) (engine : option purepath).
Abbreviation root_path := (PurePath [cp_slash] root).
Abbreviation lexical raw := (path_normpath (path_div root_path (Path raw))).
Abbreviation verdict := (program_path (S limit) cwd s root_path engine).

Lemma lstat_dir p : phys_dir s p → os_lstat s p = Ok NDir.
Proof using Hwf.
  intros Hp. destruct Hp as [|p x Hp Hh Hn]; [done|]. assert (phys_dir s (p ++ [x])) as Hd by by constructor.
  pose proof (phys_dir_names s Hwf _ Hd) as Hnames. pose proof Hnames as [_ [[Hx _] _]%Forall_cons]%Forall_app.
  by rewrite (lstat_entry s Hwf), names_encodable, Hh, Hn.
Qed.

Lemma lstat_phys_entry p n : phys_entry s p n → os_lstat s p = Ok n.
Proof using Hwf.
  intros He. pose proof (entry_names s Hwf _ _ He) as Hnames. destruct He as (q & x & -> & Hq & Hh & Hn).
  pose proof Hnames as [_ [[Hx _] _]%Forall_cons]%Forall_app. by rewrite (lstat_entry s Hwf), names_encodable, Hh, Hn.
Qed.

(** A regular file that resolves to itself is an entry of a directory reached through directories only. *)
Lemma regular_physical p exe :
  os_lstat s p = Ok (NReg exe) → resolve (S limit) cwd s (PurePath [cp_slash] p) = Ok (PurePath [cp_slash] p) ↔
  phys_entry s p (NReg exe) ∧ os_lstat s p = Ok (NReg exe).
Proof using Hwf Hcwd.
  intros Hst. split.
  - intros Hr. split; [|done]. apply (resolve_phys s Hwf) in Hr as [_ Hp]; [|done]. cbn [p_parts] in Hp.
    destruct Hp as [Hd|(n & He & _)]; [by rewrite (lstat_dir _ Hd) in Hst|].
    rewrite (lstat_phys_entry _ _ He) in Hst. by injection Hst as ->.
  - intros [He _]. apply (resolve_id s Hwf). right. by exists (NReg exe).
Qed.

(** The file a reported name stands for: a regular file below the root, reached without links, with an extension of the
    family, outside [node_modules] and not beside the engine. *)
Definition program_file (raw p : pystr) : Prop :=
  ∃ rel exe, lexical raw = PurePath [cp_slash] (root ++ rel) ∧ p = as_posix rel ∧ in_node_modules p = false ∧
    typescript_suffix rel = true ∧ phys_entry s (root ++ rel) (NReg exe) ∧
    engine ≠ Some (path_parent (PurePath [cp_slash] (root ++ rel))).

Lemma accepted_iff raw p : verdict raw = Ok (Accepted p) ↔ program_file raw p.
Proof using Hwf Hcwd.
  unfold program_path, program_file. split.
  - destruct (relative_to (lexical raw) root_path) as [rel|] eqn:Hrel; [|by destruct (_ && _)].
    apply relative_to_Some in Hrel as [Ha Hp]. destruct (in_node_modules (as_posix rel)) eqn:Hnm; [done|].
    destruct (typescript_suffix rel) eqn:Hsuf; [|done]. cbn [negb].
    destruct (lexical raw) as [a parts] eqn:Hlex. cbn [p_anchor p_parts] in *. subst a parts.
    destruct (os_lstat s (root ++ rel)) as [n|[]] eqn:Hst; try done.
    destruct (resolve (S limit) cwd s (PurePath [cp_slash] (root ++ rel))) as [resolved|[]] eqn:Hres; try done.
    case_bool_decide as Hlib; [done|]. destruct (is_link n) eqn:Hl; [done|]. cbn [orb].
    case_bool_decide as Hsame; [done|]. subst resolved.
    destruct n as [|exe| |]; try done. intros [= <-]. exists rel, exe. split_and!; try done.
    by apply (regular_physical _ _ Hst) in Hres as [? _].
  - intros (rel & exe & Hlex & -> & Hnm & Hsuf & He & Hlib).
    rewrite Hlex, (proj2 (relative_to_Some _ _ rel)) by done. rewrite Hnm, Hsuf. cbn [negb p_parts].
    pose proof (lstat_phys_entry _ _ He) as Hst. rewrite Hst.
    rewrite (proj2 (regular_physical _ _ Hst)) by done.
    rewrite bool_decide_eq_false_2 by done. by rewrite bool_decide_eq_false_2 by (intros H; by apply H).
Qed.

Lemma program_file_path raw p : program_file raw p →
  _supported p TYPESCRIPT = true ∧ (∀ n, _normalize_path p = Ok n → n = p).
Proof using Hwf.
  intros (rel & exe & _ & -> & _ & Hsuf & He & _). apply (entry_names s Hwf) in He. apply Forall_app in He as [_ Hg].
  assert (rel ≠ []) as Hne by (intros ->; by vm_compute in Hsuf).
  assert (Forall below_comp rel) as Hbelow.
  { eapply Forall_impl; [exact Hg|]. intros x (Hp & Hs & He). split_and!; [done|done|]. intros Hin.
    rewrite forallb_forall in He. apply list_elem_of_In in Hin. by apply He in Hin. }
  split; [|intros n; by apply posix_normal]. rewrite posix_relative by done. exact Hsuf.
Qed.
End facts.

(** ** The projection *)

Section exact.
Context (limit : nat) (cwd : list pystr) (s : fs) (Hwf : wf_fs s) (Hcwd : phys_dir s cwd).
Context (root : list pystr) (engine : option purepath).
Abbreviation root_path := (PurePath [cp_slash] root).
Abbreviation lexical raw := (path_normpath (path_div root_path (Path raw))).

Lemma program_paths_spec names program rejected :
  _normalize_program_paths (S limit) cwd s root_path names engine = Ok (program, rejected) →
  (∀ p, p ∈ program ↔ ∃ raw, raw ∈ names ∧ program_file s root engine raw p) ∧
  (∀ r, r ∈ rejected ↔ ∃ raw, raw ∈ names ∧ program_path (S limit) cwd s root_path engine raw = Ok (Rejected r)) ∧
  ∀ raw, raw ∈ names → ∃ v, program_path (S limit) cwd s root_path engine raw = Ok v.
Proof using Hwf Hcwd.
  unfold _normalize_program_paths. intros (verdicts & Hv & [= <- <-])%res_bind_Ok.
  pose proof (map_res_elem _ _ _ Hv) as [Hel _]. split_and!.
  - intros p. rewrite sorted_set_elem, list_elem_of_omap. setoid_rewrite Hel. split.
    + intros (v & (raw & Hraw & Hvr) & Hp). exists raw. split; [done|]. apply (accepted_iff limit cwd s Hwf Hcwd).
      destruct v; try done. by injection Hp as ->.
    + intros (raw & Hraw & Hp). exists (Accepted p). split; [|done]. exists raw. split; [done|]. by apply accepted_iff.
  - intros r. rewrite elem_of_py_sorted, elem_of_remove_dups, list_elem_of_omap. setoid_rewrite Hel. split.
    + intros (v & (raw & Hraw & Hvr) & Hp). exists raw. split; [done|]. destruct v; try done. by injection Hp as ->.
    + intros (raw & Hraw & Hr). exists (Rejected r). split; [|done]. by exists raw.
  - intros raw [i Hi]%list_elem_of_lookup. destruct (map_res_lookup _ _ _ _ _ Hv Hi) as (v & _ & Hr). by exists v.
Qed.

(** No reported source file gets lost: it is in the program, rejected, or part of the engine's library. *)
Lemma source_accounted raw rel v :
  program_path (S limit) cwd s root_path engine raw = Ok v → lexical raw = PurePath [cp_slash] (root ++ rel) →
  in_node_modules (as_posix rel) = false → typescript_suffix rel = true →
  v = Accepted (as_posix rel) ∨ (∃ reason, v = Rejected {| rp_path := as_posix rel; rp_reason := reason |}) ∨
  ∃ resolved, resolve (S limit) cwd s (lexical raw) = Ok resolved ∧ engine = Some (path_parent resolved).
Proof using Type.
  intros Hv Hlex Hnm Hsuf. unfold program_path in Hv. rewrite Hlex in Hv |- *.
  rewrite (proj2 (relative_to_Some _ _ rel)) in Hv by done. rewrite Hnm, Hsuf in Hv. cbn [negb p_parts] in Hv.
  assert (∀ reason, Ok (Rejected {| rp_path := as_posix rel; rp_reason := reason |}) = Ok v :> res ts_exn program_verdict →
    ∃ reason, v = Rejected {| rp_path := as_posix rel; rp_reason := reason |}) as Hrej by (intros reason [= <-]; by exists reason).
  destruct (os_lstat s (root ++ rel)) as [n|[]]; try done; [|by right; left; eapply Hrej..].
  destruct (resolve (S limit) cwd s _) as [resolved|[]]; try done; [|by right; left; eapply Hrej..].
  case_bool_decide as Hlib; [right; right; by exists resolved|].
  destruct (_ || _); [by right; left; eapply Hrej|].
  destruct n; try (by right; left; eapply Hrej). left. by injection Hv.
Qed.

(** Only names with an extension of the family are rejected: of the workspace and outside [node_modules], or leading out of
    the workspace. *)
Definition rejectable (raw : pystr) (r : RejectedProgramPath) : Prop :=
  (∃ rel, lexical raw = PurePath [cp_slash] (root ++ rel) ∧ in_node_modules (as_posix rel) = false ∧
     typescript_suffix rel = true ∧ rp_path r = as_posix rel) ∨
  ((∀ rel, lexical raw ≠ PurePath [cp_slash] (root ++ rel)) ∧ typescript_suffix (p_parts (Path raw)) = true ∧
     r = {| rp_path := path_str (Path raw); rp_reason := OUTSIDE_WORKSPACE |}).

Lemma rejected_rejectable raw r :
  program_path (S limit) cwd s root_path engine raw = Ok (Rejected r) → rejectable raw r.
Proof using Type.
  unfold program_path. fold (lexical raw). destruct (relative_to (lexical raw) root_path) as [rel|] eqn:Hrel.
  - apply relative_to_Some in Hrel as [Ha Hp]. intros H. left. exists rel.
    split; [by destruct (lexical raw); simpl in *; subst|]. revert H.
    destruct (in_node_modules (as_posix rel)); [done|]. destruct (typescript_suffix rel); [|done]. cbn [negb].
    repeat (case_match || case_bool_decide); intros [= <-] || intros [=]; done.
  - intros H. right. split; [intros rel Hlex; by rewrite Hlex, (proj2 (relative_to_Some _ _ rel)) in Hrel|].
    destruct (_ || _); [|done]. destruct (typescript_suffix _); [|done]. by injection H as <-.
Qed.

Lemma attribution_paths kind selected names program rejected a :
  _normalize_program_paths (S limit) cwd s root_path names engine = Ok (program, rejected) →
  attribution_init TYPESCRIPT kind selected program = Ok a →
  na_language a = TYPESCRIPT ∧ ∀ p, p ∈ na_configured_program_paths a ↔ p ∈ program.
Proof using Hwf Hcwd.
  intros Hprog Ha. pose proof (program_paths_spec _ _ _ Hprog) as (Hin & _ & _).
  assert (∀ p, p ∈ program → _supported p TYPESCRIPT = true ∧ (∀ n, _normalize_path p = Ok n → n = p)) as Hfile.
  { intros p (raw & _ & Hfile)%Hin. by eapply program_file_path. }
  destruct (attribution_exact TYPESCRIPT kind selected program a) as [Hl Hpaths]; [by intros p n Hp _; apply Hfile|done|].
  split; [done|]. intros p. rewrite Hpaths. split; [by intros []|]. intros Hp. split; [done|]. by apply Hfile.
Qed.
End exact.

(** Of the projection, the program as attributed and when it is compatible. *)
Lemma projection_facts sha256 trust_paths a reasons pj :
  from_attribution sha256 trust_paths a reasons = Ok pj →
  ev_paths (pj_configured_program pj) = na_configured_program_paths a ∧
  (pj_compatible pj = true ↔ ∀ p, p ∈ ev_paths (pj_configured_program pj) → p ∈ ev_paths (pj_trust_inventory pj)).
Proof.
  intros H. pose proof (scope_projection_exact sha256 trust_paths a reasons pj H) as (H1 & _ & H3 & _). by split.
Qed.

(** The first element of a sorted list that a filter leaves. *)
Lemma head_filter_first (P : pystr → Prop) `{∀ p, Decision (P p)} (l : list pystr) :
  StronglySorted (λ a b, py_leb a b = true) l →
  match head (filter P l) with
  | Some x => x ∈ l ∧ P x ∧ ∀ y, y ∈ l → P y → py_leb x y = true
  | None => ∀ y, y ∈ l → ¬ P y
  end.
Proof.
  induction 1 as [|x l Hs IH Hall]; [by intros y ?%elem_of_nil|]. rewrite filter_cons. case_decide as Hx.
  - cbn [head]. split_and!; [by left|done|]. rewrite Forall_forall in Hall.
    intros y [->|Hy]%elem_of_cons _; [apply py_leb_refl|by apply Hall].
  - destruct (head (filter P l)) as [z|].
    + destruct IH as (Hz & HPz & Hmin). split_and!; [by right|done|]. intros y [->|Hy]%elem_of_cons HPy; [done|by apply Hmin].
    + intros y [->|Hy]%elem_of_cons; [done|by apply IH].
Qed.

(** ** Properties *)

(** C39: the configured program of a TypeScript workspace is exactly what it can be trusted to be. On a file system that
    holds still, when a report of tsserver can be attributed, the paths of the program are exactly those of the reported
    names that stand for a regular file of the workspace, reached without links, with an extension of the family, outside
    [node_modules] and not beside the engine; a reported name of the workspace with such an extension and outside
    [node_modules] that is none of these is rejected, unless it belongs to the engine; only such names are rejected, and
    names with such an extension that lead out of the workspace, so that what is reported under [node_modules] or without
    such an extension is skipped silently; and the program is usable exactly when each of its paths is in the trust
    inventory and nothing was rejected. *)
Theorem typescript_program_exact sha256 limit cwd s workspace_root root trust_paths entry body names engine a :
  wf_fs s → phys_dir s cwd → resolve (S limit) cwd s workspace_root = Ok (PurePath [cp_slash] root) →
  _string_file_names body = Ok names →
  project_info_to_scope (S limit) cwd s sha256 workspace_root trust_paths entry body engine = Ok a →
  (∀ p, p ∈ ev_paths (pj_configured_program (ta_projection a)) ↔ ∃ raw, raw ∈ names ∧ program_file s root engine raw p) ∧
  (∀ raw rel, raw ∈ names →
     path_normpath (path_div (PurePath [cp_slash] root) (Path raw)) = PurePath [cp_slash] (root ++ rel) →
     in_node_modules (as_posix rel) = false → typescript_suffix rel = true →
     as_posix rel ∈ ev_paths (pj_configured_program (ta_projection a)) ∨
     (∃ reason, {| rp_path := as_posix rel; rp_reason := reason |} ∈ ta_rejected a) ∨
     ∃ file, resolve (S limit) cwd s (PurePath [cp_slash] (root ++ rel)) = Ok file ∧ engine = Some (path_parent file)) ∧
  (∀ r, r ∈ ta_rejected a → ∃ raw, raw ∈ names ∧ rejectable root raw r) ∧
  (is_ok (require_compatible a) = true ↔
     (∀ p, p ∈ ev_paths (pj_configured_program (ta_projection a)) → p ∈ ev_paths (pj_trust_inventory (ta_projection a))) ∧
     ta_rejected a = []).
Proof.
  intros Hwf Hcwd Hroot Hnames Ha. unfold project_info_to_scope in Ha. rewrite Hroot, Hnames in Ha. cbn [as_ts mbind res_bind] in Ha.
  apply res_bind_Ok in Ha as ([selected kind] & _ & Ha). apply res_bind_Ok in Ha as ([program rejected] & Hprog & Ha).
  apply res_bind_Ok in Ha as (attribution & Hat & Ha). apply res_bind_Ok in Ha as (pj & Hpj & [= <-]). cbn [ta_projection ta_rejected].
  unfold as_ts_scope in Hat, Hpj. destruct (attribution_init _ _ _ _) as [at_|] eqn:Hinit; [|done]. injection Hat as ->.
  destruct (from_attribution _ _ _ _) as [pj'|] eqn:Hfrom; [|done]. injection Hpj as ->.
  pose proof (program_paths_spec limit cwd s Hwf Hcwd root engine _ _ _ Hprog) as (Hin & Hrej & Htotal).
  destruct (attribution_paths limit cwd s Hwf Hcwd root engine _ _ _ _ _ _ Hprog Hinit) as [_ Hpaths].
  pose proof (projection_facts sha256 _ _ _ _ Hfrom) as (Hprogram & Hcompat).
  split_and!.
  - intros p. by rewrite Hprogram, Hpaths, Hin.
  - intros raw rel Hraw Hlex Hnm Hsuf. rewrite Hprogram, Hpaths, <-Hlex. destruct (Htotal raw Hraw) as (v & Hv).
    destruct (source_accounted limit cwd s root engine raw rel v Hv Hlex Hnm Hsuf) as [->|[[reason ->]|Hlib]].
    + left. apply Hin. exists raw. split; [done|]. by apply (accepted_iff limit cwd s Hwf Hcwd).
    + right. left. exists reason. apply Hrej. by exists raw.
    + by right; right.
  - intros r Hr. apply Hrej in Hr as (raw & Hraw & Hr). exists raw. split; [done|]. by apply rejected_rejectable in Hr.
  - unfold require_compatible, scope_compatible. cbn [ta_projection ta_rejected]. rewrite <-Hcompat.
    destruct (pj_compatible pj), rejected; cbn; naive_solver.
Qed.

(** The entry file is one of the paths: the first in order that the root configuration claims, or the first of all when it
    claims none. *)
Theorem default_entry_exact fnmatch config_file paths :
  paths ≠ [] →
  let '(include, exclude) := _root_native_config_patterns config_file in
  ∃ entry, select_default_entry fnmatch config_file paths = Ok entry ∧ entry ∈ paths ∧
    ((claimed fnmatch include exclude entry = true ∧
      ∀ p, p ∈ paths → claimed fnmatch include exclude p = true → py_leb entry p = true) ∨
     ((∀ p, p ∈ paths → claimed fnmatch include exclude p = false) ∧ ∀ p, p ∈ paths → py_leb entry p = true)).
Proof.
  intros Hne. unfold select_default_entry. destruct (_root_native_config_patterns config_file) as [include exclude].
  pose proof (py_sorted_sorted id paths) as Hsorted. pose proof (λ p, elem_of_py_sorted id p paths) as Hin.
  destruct (py_sorted id paths) as [|first rest].
  { destruct paths as [|p paths]; [done|]. exfalso. apply (not_elem_of_nil p), Hin. by left. }
  assert (StronglySorted (λ a b : pystr, py_leb a b = true) (first :: rest)) as Hs by exact Hsorted. clear Hsorted.
  pose proof (head_filter_first (λ p, claimed fnmatch include exclude p = true) (first :: rest) Hs) as Hhead.
  destruct (head (filter _ (first :: rest))) as [entry|].
  - destruct Hhead as (Hmem & Hclaim & Hfirst). exists entry. split_and!; [done|by apply Hin|]. left. split; [done|].
    intros p Hp. apply Hfirst. by apply Hin.
  - exists first. split_and!; [done|by apply Hin; left|]. right. split.
    + intros p Hp%Hin. apply not_true_is_false. by apply Hhead.
    + intros p [->|Hp]%Hin%elem_of_cons; [apply py_leb_refl|]. apply StronglySorted_inv in Hs as [_ Hall].
      rewrite Forall_forall in Hall. by apply Hall.
Qed.

Module AttributionExamples.

(** A workspace with a configuration, two sources, a link, a dependency, a file with a backslash in its name, and the
    engine inside the workspace. *)
Definition tree : fs :=
  {| fs_nodes := list_to_map [
       ([lit "w"], NDir);
       ([lit "w"; lit "tsconfig.json"], NReg false);
       ([lit "w"; lit "src"], NDir);
       ([lit "w"; lit "src"; lit "a.ts"], NReg false);
       ([lit "w"; lit "src"; lit "b.tsx"], NReg false);
       ([lit "w"; lit "alias.ts"], NLink (lit "src/a.ts"));
       ([lit "w"; lit "back\slash.ts"], NReg false);
       ([lit "w"; lit "node_modules"], NDir);
       ([lit "w"; lit "node_modules"; lit "d.ts"], NReg false);
       ([lit "w"; lit "engine"], NDir);
       ([lit "w"; lit "engine"; lit "lib.d.ts"], NReg false)];
     fs_hidden := λ _, false |}.

#[local] Instance good_name_dec x : Decision (good_name x).
Proof. unfold good_name, plain. apply _. Defined.

#[local] Instance good_node_dec n : Decision (good_node n).
Proof. destruct n; simpl; apply _. Defined.

Lemma engine_tree_wf : wf_fs tree.
Proof.
  assert (map_Forall (λ p n, Forall good_name p ∧ good_node n) (fs_nodes tree)) as H; [|exact H].
  apply map_Forall_to_list, (bool_decide_unpack _). vm_compute. reflexivity.
Qed.

Definition sha (bs : list N) : pystr := bs.
Definition workspace : purepath := Path (lit "/w").
Definition engine : option purepath := Some (Path (lit "/w/engine")).

Definition body (names : list string) : raw_symbol :=
  [(Some (lit "configFileName"), PStr (lit "/w/tsconfig.json"));
   (Some (lit "fileNames"), PSequence ((λ n, PStr (lit n)) <$> names))].

Definition reported : list string :=
  ["/w/src/a.ts"; "/w/src/../src/b.tsx"; "/w/alias.ts"; "/w/gone.ts"; "/w/node_modules/d.ts"; "/w/engine/lib.d.ts";
   "/elsewhere/x.ts"; "/w/readme.md"]%string.

Definition attributed (trust : list pystr) (names : list string) : res ts_exn TypeScriptScopeAttribution :=
  project_info_to_scope 1000 [] tree sha workspace trust (lit "src/a.ts") (body names) engine.

Definition attribution : TypeScriptScopeAttribution :=
  match attributed [lit "src/a.ts"; lit "src/b.tsx"] reported with
  | Ok a => a
  | Err _ => {| ta_entry_path := [];
                ta_projection := {| pj_language := TYPESCRIPT; pj_project_kind := WORKSPACE_DEFAULT; pj_selected_config_path := None;
                  pj_trust_inventory := {| ev_paths := []; ev_count := 0; ev_sha256 := [] |};
                  pj_configured_program := {| ev_paths := []; ev_count := 0; ev_sha256 := [] |};
                  pj_trusted_not_in_configured_program := []; pj_configured_program_outside_trust := [];
                  pj_compatible := false; pj_error := None |};
                ta_rejected := [] |}
  end.

Example program_and_rejected :
  ev_paths (pj_configured_program (ta_projection attribution)) = [lit "src/a.ts"; lit "src/b.tsx"] ∧
  pj_selected_config_path (ta_projection attribution) = Some (lit "tsconfig.json") ∧
  rejected_key <$> ta_rejected attribution =
    [(lit "alias.ts", lit "symlink_or_escape"); (lit "gone.ts", lit "missing")].
Proof. vm_compute. auto. Qed.

(** A regular file whose name has a backslash is accepted first and then refused by the attribution, which fails with a
    [ValueError] for the whole program. *)
Example backslash_fails_the_program :
  attributed [lit "src/a.ts"; lit "back\slash.ts"] ["/w/src/a.ts"; "/w/back\slash.ts"]%string = Err (TsScope (NotPosixPath (lit "back\slash.ts"))).
Proof. vm_compute. reflexivity. Qed.

Example entry_claimed :
  select_default_entry (λ _ _, false)
    (λ name, if bool_decide (name = lit "tsconfig.json")
             then Some (Some (PMapping [(Some (lit "include"), PSequence [PStr (lit "src/")]);
                                        (Some (lit "exclude"), PSequence [PStr (lit "src/a.ts")])])) else None)
    [lit "src/b.tsx"; lit "alias.ts"; lit "src/a.ts"] = Ok (lit "src/b.tsx").
Proof. vm_compute. reflexivity. Qed.

Lemma typescript_program_exact_witness :
  (∀ p, p ∈ ev_paths (pj_configured_program (ta_projection attribution)) ↔
     ∃ raw, raw ∈ lit <$> reported ∧ program_file tree [lit "w"] engine raw p) ∧
  (∀ raw rel, raw ∈ lit <$> reported →
     path_normpath (path_div (PurePath [cp_slash] [lit "w"]) (Path raw)) = PurePath [cp_slash] ([lit "w"] ++ rel) →
     in_node_modules (as_posix rel) = false → typescript_suffix rel = true →
     as_posix rel ∈ ev_paths (pj_configured_program (ta_projection attribution)) ∨
     (∃ reason, {| rp_path := as_posix rel; rp_reason := reason |} ∈ ta_rejected attribution) ∨
     ∃ file, resolve 1000 [] tree (PurePath [cp_slash] ([lit "w"] ++ rel)) = Ok file ∧ engine = Some (path_parent file)) ∧
  (∀ r, r ∈ ta_rejected attribution → ∃ raw, raw ∈ lit <$> reported ∧ rejectable [lit "w"] raw r) ∧
  (is_ok (require_compatible attribution) = true ↔
     (∀ p, p ∈ ev_paths (pj_configured_program (ta_projection attribution)) →
           p ∈ ev_paths (pj_trust_inventory (ta_projection attribution))) ∧
     ta_rejected attribution = []).
Proof.
  apply (typescript_program_exact sha 999 [] tree workspace [lit "w"] [lit "src/a.ts"; lit "src/b.tsx"] (lit "src/a.ts")
    (body reported) (lit <$> reported) engine attribution); [exact engine_tree_wf|constructor|vm_compute; reflexivity..].
Defined.
End AttributionExamples.
