(* ===== verification/PyrightFacts.v ===== *)
(** * Facts of the Python engine

    Model of [src/serena_light/lsp/pyright.py]: the providers an initialize
    result advertises, the answers to configuration requests, the classification
    of definition locations, the validation of the report on the files Pyright
    owns, and the projection made of it.

    The probe that runs Pyright, the lenient [Path.resolve()], [str] of a value
    that is not a string, SHA-256, URL parsing and the workspace policy are
    parameters. *)

From S2P Require Import Prelude Paths Json Envelopes Normalize Scope FileSystem Identity Recovery Attribution.

Definition PYRIGHT_EXTENSIONS : list pystr := [lit ".py"; lit ".pyi"].
Definition PYRIGHT_VERSION : pystr := lit "1.1.403".
Definition _OWNED_FILES_SCHEMA_VERSION : Z := 1.

Inductive pyright_exn (E : Type) :=
| PyrightConfigurationError
| PyrightAttributionError
| LocationError (e : normalize_error)
| PolicyRaises (e : E)
| PyrightPython (e : py_exn)
| PyrightScope (e : scope_exn).
Arguments PyrightConfigurationError {E}.
Arguments PyrightAttributionError {E}.
Arguments LocationError {E} e.
Arguments PolicyRaises {E} e.
Arguments PyrightPython {E} e.
Arguments PyrightScope {E} e.

(** ** Providers *)

Definition _provider_enabled (value : pyany) : bool :=
  match value with PBool true | PMapping _ => true | _ => false end.

Record RawProviderFacts := {
  rf_definition : bool; rf_declaration : bool; rf_implementation : bool;
  rf_references : bool; rf_document_symbols : bool; rf_workspace_symbols : bool }.

Record DerivedToolFacts := { df_declaration : bool; df_implementations : bool; df_references : bool }.

Definition provider_facts {E} (initialize_result : raw_symbol) : res (pyright_exn E) (RawProviderFacts * DerivedToolFacts) :=
  match raw_value initialize_result "capabilities" with
  | PMapping capabilities =>
      let enabled k := _provider_enabled (raw_value capabilities k) in
      let raw := {| rf_definition := enabled "definitionProvider"%string;
                    rf_declaration := enabled "declarationProvider"%string;
                    rf_implementation := enabled "implementationProvider"%string;
                    rf_references := enabled "referencesProvider"%string;
                    rf_document_symbols := enabled "documentSymbolProvider"%string;
                    rf_workspace_symbols := enabled "workspaceSymbolProvider"%string |} in
      if negb (rf_definition raw) then Err PyrightConfigurationError
      else Ok (raw, {| df_declaration := rf_definition raw; df_implementations := false; df_references := rf_references raw |})
  | _ => Err PyrightConfigurationError
  end.

(** ** Configuration requests *)

Definition section_answer (interpreter : pystr) (section : pyany) : json :=
  match section with
  | PStr name =>
      if bool_decide (name = lit "python") then JObj [(lit "pythonPath", JStr interpreter)]
      else if bool_decide (name = lit "python.analysis")
      then JObj [(lit "diagnosticMode", JStr (lit "workspace")); (lit "autoSearchPaths", JBool true);
                 (lit "useLibraryCodeForTypes", JBool true)]
      else JObj []
  | _ => JObj []
  end.

Definition workspace_configuration {E} (interpreter : pystr) (params : pyany) : res (pyright_exn E) (list json) :=
  match params with
  | PMapping d =>
      match raw_value d "items" with
      | PSequence items =>
          map_res (λ item, match item with
                           | PMapping i => Ok (section_answer interpreter (raw_value i "section"))
                           | _ => Err PyrightConfigurationError
                           end) items
      | _ => Err PyrightConfigurationError
      end
  | _ => Err PyrightConfigurationError
  end.

(** ** Definitions *)

Record PyrightDefinitionLocation := { pd_location : Location; pd_semantic : SemanticLocation }.

Section definitions.
Context {E : Type} (urlparse : pystr → parsed_uri) (unquote : pystr → pystr) (classify : purepath → res E SemanticLocation).

Definition definition_location (raw : pyany) : res (pyright_exn E) PyrightDefinitionLocation :=
  match raw with
  | PMapping d =>
      match normalize_location urlparse unquote d with
      | Err e => Err (LocationError e)
      | Ok location =>
          match loc_path location with
          | None => Err PyrightConfigurationError
          | Some path => match classify (Path path) with
                         | Ok semantic => Ok {| pd_location := location; pd_semantic := semantic |}
                         | Err e => Err (PolicyRaises e)
                         end
          end
      end
  | _ => Err PyrightConfigurationError
  end.

Definition classify_definition_locations (raw_locations : pyany) : res (pyright_exn E) (list PyrightDefinitionLocation) :=
  match raw_locations with
  | PNone => Ok []
  | PMapping d => map_res definition_location [PMapping d]
  | PSequence locations => map_res definition_location locations
  | _ => Err PyrightConfigurationError
  end.
End definitions.

(** ** The report on the owned files *)

Record PyrightOwnedFilesEvidence := {
  oe_engine_version : pystr;
  oe_cli_entrypoint : purepath;
  oe_selected_config_path : option purepath;
  oe_project_kind : ProjectKind;
  oe_owned_files : list purepath;
  oe_owned_files_sha256 : pystr;
  oe_bundle : raw_symbol;
}.

Section report.
Context {E : Type} (sha256 : list N → pystr) (py_str : pyany → pystr) (resolve_lenient : purepath → res py_exn purepath)
  (opaque_eq : pyany → pyany → bool).

Definition in_scope {A} (r : res scope_exn A) : res (pyright_exn E) A :=
  match r with Ok a => Ok a | Err e => Err (PyrightScope e) end.

Definition in_python {A} (r : res py_exn A) : res (pyright_exn E) A :=
  match r with Ok a => Ok a | Err e => Err (PyrightPython e) end.

(** [str(value)] *)
Definition text_of (v : pyany) : pystr := match v with PStr t => t | _ => py_str v end.

Definition owned_path (raw : pyany) : res (pyright_exn E) pystr :=
  match raw with
  | PStr t => if negb (is_absolute (Path t)) || bool_decide (0%N ∈ t) then Err PyrightAttributionError else Ok t
  | _ => Err PyrightAttributionError
  end.

Definition project_kind_of (v : pyany) : res (pyright_exn E) ProjectKind :=
  match v with
  | PStr t => if bool_decide (t = lit "configured") then Ok CONFIGURED
              else if bool_decide (t = lit "workspace_default") then Ok WORKSPACE_DEFAULT else Err PyrightAttributionError
  | _ => Err PyrightAttributionError
  end.

Definition selected_config_of (v : pyany) : res (pyright_exn E) (option purepath) :=
  match v with
  | PNone => Ok None
  | _ => let path := Path (text_of v) in
         if negb (is_absolute path) || bool_decide (0%N ∈ path_str path) then Err PyrightAttributionError else Ok (Some path)
  end.

(** [_path_digest] *)
Definition owned_digest (paths : list purepath) : res (pyright_exn E) pystr := in_scope (_path_digest sha256 (path_str <$> paths)).

Definition _validate_owned_files_report (report : pyany) (expected_cli : purepath)
    : res (pyright_exn E) PyrightOwnedFilesEvidence :=
  match report with
  | PMapping r =>
      _ ← ensure (py_eq opaque_eq (raw_value r "schema_version") (PInt _OWNED_FILES_SCHEMA_VERSION)) PyrightAttributionError;
      match raw_value r "engine", raw_value r "project", raw_value r "owned_files", raw_value r "bundle" with
      | PMapping engine, PMapping project, PSequence owned, PMapping bundle =>
          _ ← ensure (py_eq opaque_eq (raw_value engine "version") (PStr PYRIGHT_VERSION)) PyrightAttributionError;
          cli ← in_python (resolve_lenient (Path (text_of (raw_value engine "cli_entrypoint"))));
          expected ← in_python (resolve_lenient expected_cli);
          _ ← ensure (bool_decide (cli = expected)) PyrightAttributionError;
          raw_paths ← map_res owned_path owned;
          let paths := Path <$> raw_paths in
          _ ← ensure (bool_decide (raw_paths = py_sorted id raw_paths) && bool_decide (NoDup paths)) PyrightAttributionError;
          digest ← owned_digest paths;
          _ ← ensure (py_eq opaque_eq (raw_value r "owned_file_count") (PInt (Z.of_nat (length paths))) &&
                      py_eq opaque_eq (raw_value r "owned_files_sha256") (PStr digest)) PyrightAttributionError;
          project_kind ← project_kind_of (raw_value project "project_kind");
          selected_config ← selected_config_of (raw_value project "selected_config_path");
          _ ← ensure (negb (bool_decide ((project_kind = CONFIGURED) ↔ (selected_config = None)))) PyrightAttributionError;
          Ok {| oe_engine_version := PYRIGHT_VERSION; oe_cli_entrypoint := cli; oe_selected_config_path := selected_config;
                oe_project_kind := project_kind; oe_owned_files := paths; oe_owned_files_sha256 := digest; oe_bundle := bundle |}
      | _, _, _, _ => Err PyrightAttributionError
      end
  | _ => Err PyrightAttributionError
  end.

(** ** The projection *)

(** [lexical.suffix.lower() in self.extensions] *)
Definition python_suffix (p : purepath) : bool :=
  bool_decide (lower_ascii (path_suffix (join_slash (p_parts p))) ∈ PYRIGHT_EXTENSIONS).

(** [None]: a file of another kind. *)
Definition owned_relative (root path : purepath) : res (pyright_exn E) (option pystr) :=
  let lexical := path_normpath path in
  if python_suffix lexical
  then match relative_to lexical root with Some rel => Ok (Some (as_posix rel)) | None => Err PyrightAttributionError end
  else Ok None.

Definition config_relative (root : purepath) (selected : option purepath) : res (pyright_exn E) (option pystr) :=
  match selected with
  | None => Ok None
  | Some path => match relative_to path root with Some rel => Ok (Some (as_posix rel)) | None => Err PyrightAttributionError end
  end.

(** The projection of the evidence; [root] is the resolved workspace. *)
Definition project_evidence (root : purepath) (evidence : PyrightOwnedFilesEvidence) (trust_paths : list pystr)
    (outside_trust_reasons : list (pystr * DifferenceReason)) : res (pyright_exn E) ScopeProjection :=
  found ← map_res (owned_relative root) (oe_owned_files evidence);
  let relative_paths := omap (M:=list) id found in
  selected_config ← config_relative root (oe_selected_config_path evidence);
  attribution ← in_scope (attribution_init PYTHON (oe_project_kind evidence) selected_config relative_paths);
  in_scope (from_attribution sha256 trust_paths attribution outside_trust_reasons).

(** [probe root] is the report that Pyright gives, or the error of running it. *)
Definition attribute_program (limit : nat) (cwd : list pystr) (s : fs) (probe : purepath → res (pyright_exn E) pyany)
    (expected_cli workspace_root : purepath) (trust_paths : list pystr)
    (outside_trust_reasons : list (pystr * DifferenceReason)) : res (pyright_exn E) ScopeProjection :=
  match resolve limit cwd s workspace_root with
  | Err e => Err (PyrightPython e)
  | Ok root =>
      match is_dir s (p_parts root) with
      | Err e => Err (PyrightPython e)
      | Ok false => Err PyrightAttributionError
      | Ok true =>
          report ← probe root;
          evidence ← _validate_owned_files_report report expected_cli;
          project_evidence root evidence trust_paths outside_trust_reasons
      end
  end.
End report.

(** ** Facts *)

Lemma norm_abs_elem comp acc comps : comp ∈ norm_abs acc comps → comp ∈ acc ∨ (comp ∈ comps ∧ plain comp).
Proof.
  revert acc. induction comps as [|x comps IH]; intros acc; cbn [norm_abs]; [rewrite elem_of_reverse; auto|].
  destruct (bool_decide (x = []) || bool_decide (x = dot)) eqn:Hx; [intros [?|[? ?]]%IH; set_solver|].
  rewrite orb_false_iff, !bool_decide_eq_false in Hx. destruct Hx as [H1 H2]. case_bool_decide as Hd.
  - intros [[->|?]%elem_of_cons|[? ?]]%IH; [right; split; [by left|by split_and!]|by left|right; split; [by right|done]].
  - intros [Hin|[? ?]]%IH; [|right; split; [by right|done]]. left. destruct acc; [done|by right].
Qed.

(** The components of an absolute name, once normalised. *)
Lemma normpath_below t : is_absolute (Path t) = true → 0%N ∉ t → Forall below_comp (p_parts (path_normpath (Path t))).
Proof.
  intros Ha H0. unfold path_normpath. rewrite Ha. cbn [p_parts Path]. rewrite Forall_forall.
  intros x [[]%elem_of_nil|[Hx Hp]]%norm_abs_elem. unfold path_parts in Hx. apply list_elem_of_filter in Hx as [_ Hx].
  split_and!; [done| |].
  - pose proof (split_slash_free t) as Hfree. rewrite Forall_forall in Hfree. by apply Hfree.
  - intros Hin. by apply H0, (split_slash_char t x).
Qed.

Lemma path_parts_join parts : parts ≠ [] → Forall below_comp parts → path_parts (join_slash parts) = parts.
Proof.
  intros Hne Hg. unfold path_parts. rewrite split_join; [|done|].
  - clear Hne. induction Hg as [|x parts ((? & ? & _) & _) Hg IH]; [done|]. rewrite filter_cons_True by done. by rewrite IH.
  - eapply Forall_impl; [exact Hg|]. by intros x (_ & ? & _).
Qed.

(** Only the last component matters for the suffix. *)
Lemma suffix_relative root rel : rel ≠ [] → Forall below_comp (root ++ rel) →
  path_suffix (join_slash (root ++ rel)) = path_suffix (as_posix rel).
Proof.
  intros Hne Hg. pose proof Hg as [_ Hrel]%Forall_app. rewrite posix_relative by done. unfold path_suffix.
  rewrite !path_parts_join; try done; [|by destruct root]. rewrite last_app. by destruct (last rel) eqn:Hl; [|apply last_None in Hl].
Qed.

Lemma ensure_Ok {E} b (e : E) u : ensure b e = Ok u → b = true.
Proof. by destruct b. Qed.

Lemma owned_path_Ok {E} raw t : owned_path (E:=E) raw = Ok t ↔ raw = PStr t ∧ is_absolute (Path t) = true ∧ 0%N ∉ t.
Proof.
  unfold owned_path. destruct raw; try (split; [done|by intros [? _]]).
  destruct (is_absolute (Path _)) eqn:Ha; cbn [negb orb]; [case_bool_decide|]; naive_solver congruence.
Qed.

Lemma owned_paths_Ok {E} owned names : map_res (owned_path (E:=E)) owned = Ok names →
  owned = PStr <$> names ∧ ∀ t, t ∈ names → is_absolute (Path t) = true ∧ 0%N ∉ t.
Proof.
  revert names. induction owned as [|raw owned IH]; intros names; cbn [map_res].
  { intros [= <-]. split; [done|]. by intros t ?%elem_of_nil. }
  intros (t & Ht & H)%res_bind_Ok. apply res_bind_Ok in H as (rest & Hrest & [= <-]).
  apply owned_path_Ok in Ht as (-> & Habs & Hnul). destruct (IH rest Hrest) as [-> Hall]. split; [done|].
  by intros u [->|Hu]%elem_of_cons; [|apply Hall].
Qed.

Section exact.
Context {E : Type} (sha256 : list N → pystr) (py_str : pyany → pystr) (resolve_lenient : purepath → res py_exn purepath)
  (opaque_eq : pyany → pyany → bool).

(** The names, and that the report is the one of the digest. *)
Definition report_names (report : raw_symbol) (names : list pystr) : Prop :=
  raw_value report "owned_files" = PSequence (PStr <$> names) ∧
  StronglySorted (λ a b, py_leb a b = true) names ∧ NoDup (Path <$> names) ∧
  (∀ t, t ∈ names → is_absolute (Path t) = true ∧ 0%N ∉ t) ∧
  ∃ digest, _path_digest sha256 (path_str ∘ Path <$> names) = Ok digest ∧
    py_eq opaque_eq (raw_value report "owned_files_sha256") (PStr digest) = true ∧
    py_eq opaque_eq (raw_value report "owned_file_count") (PInt (Z.of_nat (length names))) = true.

Lemma report_validated report expected_cli evidence :
  _validate_owned_files_report (E:=E) sha256 py_str resolve_lenient opaque_eq report expected_cli = Ok evidence →
  ∃ r names, report = PMapping r ∧ report_names r names ∧ oe_owned_files evidence = Path <$> names.
Proof using Type.
  unfold _validate_owned_files_report. destruct report as [| | | | | |r| |]; try done.
  intros (_ & _ & H)%res_bind_Ok. destruct (raw_value r "engine") as [| | | | | |engine| |]; try done.
  destruct (raw_value r "project") as [| | | | | |project| |]; try done.
  destruct (raw_value r "owned_files") as [| | | | | | |owned|] eqn:Howned; try done.
  destruct (raw_value r "bundle") as [| | | | | |bundle| |]; try done.
  apply res_bind_Ok in H as ([] & _ & H). apply res_bind_Ok in H as (cli & _ & H). apply res_bind_Ok in H as (expected & _ & H).
  apply res_bind_Ok in H as ([] & _ & H). apply res_bind_Ok in H as (names & Hnames & H).
  apply res_bind_Ok in H as ([] & Hsorted & H). apply res_bind_Ok in H as (digest & Hdigest & H).
  apply res_bind_Ok in H as ([] & Hcounted & H). apply res_bind_Ok in H as (kind & _ & H).
  apply res_bind_Ok in H as (config & _ & H). apply res_bind_Ok in H as ([] & _ & [= <-]). cbn [oe_owned_files].
  exists r, names. split_and!; [done| |done]. destruct (owned_paths_Ok _ _ Hnames) as [-> Hall].
  apply ensure_Ok, andb_prop in Hsorted as [Hs%bool_decide_eq_true Hnd%bool_decide_eq_true].
  apply ensure_Ok, andb_prop in Hcounted as [Hcount Hsha]. split_and!; try done.
  - rewrite Hs. apply (py_sorted_sorted id).
  - exists digest. rewrite length_fmap in Hcount. split_and!; try done.
    unfold owned_digest, in_scope in Hdigest. rewrite <-list_fmap_compose in Hdigest. destruct (_path_digest _ _); [|done].
    by injection Hdigest as ->.
Qed.
(** The relative path a name of the report stands for. *)
Definition owned_file (root : purepath) (t p : pystr) : Prop :=
  ∃ rel, path_normpath (Path t) = PurePath (p_anchor root) (p_parts root ++ rel) ∧ p = as_posix rel ∧ _supported p PYTHON = true.

Lemma owned_relative_Ok root t o :
  owned_relative (E:=E) root (Path t) = Ok o → is_absolute (Path t) = true → 0%N ∉ t →
  (∀ p, o = Some p ∧ _supported p PYTHON = true ↔ owned_file root t p) ∧
  (python_suffix (path_normpath (Path t)) = true → ∃ p, o = Some p) ∧
  ∀ p n, o = Some p → _supported p PYTHON = true → _normalize_path p = Ok n → n = p.
Proof using Type.
  intros Ho Ha Hnul. pose proof (normpath_below t Ha Hnul) as Hbelow. unfold owned_relative in Ho.
  destruct (path_normpath (Path t)) as [a parts] eqn:Hlex. unfold owned_file. rewrite Hlex.
  assert (∀ rel, parts = p_parts root ++ rel → _supported (as_posix rel) PYTHON = true →
            rel ≠ [] ∧ Forall below_comp rel ∧ python_suffix (PurePath a parts) = true) as Hrel.
  { intros rel -> Hsup. assert (rel ≠ []) as Hne by (intros ->; by vm_compute in Hsup).
    cbn [p_parts] in Hbelow. pose proof Hbelow as [_ ?]%Forall_app. split_and!; [done|done|].
    unfold python_suffix. cbn [p_parts]. rewrite suffix_relative by done. exact Hsup. }
  destruct (python_suffix (PurePath a parts)) eqn:Hsuf.
  - destruct (relative_to (PurePath a parts) root) as [rel|] eqn:Hr; [|done]. injection Ho as <-.
    apply relative_to_Some in Hr as [Hanchor Hparts]. cbn [p_anchor p_parts] in *. subst a parts. split_and!.
    + intros p. split; [intros [[= <-] Hsup]; by exists rel|]. by intros (rel' & [= ->%app_inv_head] & -> & Hsup).
    + by exists (as_posix rel).
    + intros p n [= <-] Hsup. destruct (Hrel rel eq_refl Hsup) as (? & ? & _). by apply posix_normal.
  - injection Ho as <-. split_and!; [|done|done]. intros p. split; [by intros [? _]|].
    intros (rel & [= -> ->] & -> & Hsup). by destruct (Hrel rel eq_refl Hsup) as (_ & _ & ?).
Qed.

Lemma projected_program root evidence trust_paths reasons pj names :
  project_evidence (E:=E) sha256 root evidence trust_paths reasons = Ok pj → oe_owned_files evidence = Path <$> names →
  (∀ t, t ∈ names → is_absolute (Path t) = true ∧ 0%N ∉ t) →
  (∀ p, p ∈ ev_paths (pj_configured_program pj) ↔ ∃ t, t ∈ names ∧ owned_file root t p) ∧
  (∀ t, t ∈ names → python_suffix (path_normpath (Path t)) = true →
     ∃ rel, path_normpath (Path t) = PurePath (p_anchor root) (p_parts root ++ rel)) ∧
  (pj_compatible pj = true ↔ ∀ p, p ∈ ev_paths (pj_configured_program pj) → p ∈ ev_paths (pj_trust_inventory pj)).
Proof using Type.
  clear py_str resolve_lenient opaque_eq. intros H Howned Habs. unfold project_evidence in H. rewrite Howned in H. clear Howned.
  apply res_bind_Ok in H as (found & Hfound & H). apply res_bind_Ok in H as (selected & _ & H).
  apply res_bind_Ok in H as (attribution & Hat & Hpj). unfold in_scope in Hat, Hpj.
  destruct (attribution_init _ _ _ _) as [a|] eqn:Hinit; [|done]. injection Hat as ->.
  destruct (from_attribution _ _ _ _) as [pj'|] eqn:Hfrom; [|done]. injection Hpj as ->.
  pose proof (projection_facts sha256 _ _ _ _ Hfrom) as (-> & Hcompat).
  pose proof (map_res_elem _ _ _ Hfound) as [Hel _].
  assert (∀ o, o ∈ found ↔ ∃ t, t ∈ names ∧ owned_relative (E:=E) root (Path t) = Ok o) as Hin.
  { intros o. rewrite Hel. setoid_rewrite list_elem_of_fmap. naive_solver. }
  assert (∀ p, p ∈ omap (M:=list) id found ↔ Some p ∈ found) as Homap.
  { intros p. rewrite list_elem_of_omap. unfold id. split; [by intros (x & ? & ->)|eauto]. }
  destruct (attribution_exact PYTHON (oe_project_kind evidence) selected (omap (M:=list) id found) attribution) as [_ Hpaths]; [|done|].
  { intros p n Hp Hsup. apply Homap, Hin in Hp as (t & Ht & Ho). destruct (Habs t Ht) as [Ha Hn].
    destruct (owned_relative_Ok root t _ Ho Ha Hn) as (_ & _ & Hnormal). by eapply Hnormal. }
  split_and!; [| |done].
  - intros p. rewrite Hpaths, Homap, Hin. split.
    + intros [(t & Ht & Ho) Hsup]. exists t. split; [done|]. destruct (Habs t Ht) as [Ha Hn].
      by apply (owned_relative_Ok root t _ Ho Ha Hn).
    + intros (t & Ht & Hfile). destruct (Habs t Ht) as [Ha Hn].
      destruct (list_elem_of_lookup_1 names t Ht) as [i Hi].
      assert ((Path <$> names) !! i = Some (Path t)) as Hi' by by rewrite list_lookup_fmap, Hi.
      destruct (map_res_lookup _ _ _ _ _ Hfound Hi') as (o & _ & Ho).
      apply (owned_relative_Ok root t o Ho Ha Hn) in Hfile as [-> Hsup]. split; [by exists t|done].
  - intros t Ht Hsuf. destruct (list_elem_of_lookup_1 names t Ht) as [i Hi].
    assert ((Path <$> names) !! i = Some (Path t)) as Hi' by by rewrite list_lookup_fmap, Hi.
    destruct (map_res_lookup _ _ _ _ _ Hfound Hi') as (o & _ & Ho). unfold owned_relative in Ho. rewrite Hsuf in Ho.
    destruct (relative_to _ root) as [rel|] eqn:Hr; [|done]. apply relative_to_Some in Hr as [Ha Hp]. exists rel.
    destruct (path_normpath (Path t)). cbn in Ha, Hp. by subst.
Qed.
End exact.

(** ** Properties *)

(** C40: the configured program of a Python workspace is what Pyright proves it owns. A projection exists only when the
    report of Pyright names its files as absolute, different paths in order, and its count and digest are those of these
    names; then the program holds exactly the relative paths of the named files below the workspace that are Python
    sources, no Python source is named elsewhere, and the projection is compatible exactly when each path is in the trust
    inventory. *)
Theorem pyright_program_exact {E} sha256 py_str resolve_lenient opaque_eq limit cwd s (probe : purepath → res (pyright_exn E) pyany)
    expected_cli workspace_root root trust_paths reasons pj :
  resolve limit cwd s workspace_root = Ok root →
  attribute_program sha256 py_str resolve_lenient opaque_eq limit cwd s probe expected_cli workspace_root trust_paths reasons = Ok pj →
  ∃ report names, probe root = Ok (PMapping report) ∧ report_names sha256 opaque_eq report names ∧
    (∀ p, p ∈ ev_paths (pj_configured_program pj) ↔ ∃ t, t ∈ names ∧ owned_file root t p) ∧
    (∀ t, t ∈ names → python_suffix (path_normpath (Path t)) = true →
       ∃ rel, path_normpath (Path t) = PurePath (p_anchor root) (p_parts root ++ rel)) ∧
    (pj_compatible pj = true ↔ ∀ p, p ∈ ev_paths (pj_configured_program pj) → p ∈ ev_paths (pj_trust_inventory pj)).
Proof.
  intros Hroot H. unfold attribute_program in H. rewrite Hroot in H. destruct (is_dir s (p_parts root)) as [[]|]; try done.
  apply res_bind_Ok in H as (report & Hprobe & H). apply res_bind_Ok in H as (evidence & Hvalid & H).
  apply report_validated in Hvalid as (r & names & -> & Hnames & Howned). exists r, names. split_and!; [done|done|..];
    by eapply projected_program; [exact H|exact Howned|destruct Hnames as (_ & _ & _ & ? & _)].
Qed.

(** Each item of a configuration request is answered, in order, or the request fails. *)
Theorem configuration_answers {E} interpreter params answers :
  workspace_configuration (E:=E) interpreter params = Ok answers →
  ∃ d items, params = PMapping d ∧ raw_value d "items" = PSequence items ∧ length answers = length items ∧
    ∀ i item, items !! i = Some item →
      ∃ fields, item = PMapping fields ∧ answers !! i = Some (section_answer interpreter (raw_value fields "section")).
Proof.
  unfold workspace_configuration. destruct params as [| | | | | |d| |]; try done.
  destruct (raw_value d "items") as [| | | | | | |items|] eqn:Hitems; try done. intros H. exists d, items.
  pose proof (map_res_elem _ _ _ H) as [_ Hlen]. split_and!; try done. intros i item Hi.
  destruct (map_res_lookup _ _ _ _ _ H Hi) as (a & Ha & Hf). destruct item; try done. injection Hf as <-. by eexists.
Qed.

Module PyrightExamples.

Definition tree : fs := {| fs_nodes := {[ [lit "w"] := NDir ]}; fs_hidden := λ _, false |}.
Definition sha (bs : list N) : pystr := bs.
Definition cli : purepath := Path (lit "/opt/pyright/index.js").
Definition names : list pystr := lit <$> ["/w/a.py"; "/w/data.txt"; "/w/pkg/../b.pyi"]%string.

Definition report (owned : list pystr) (digest : pystr) : raw_symbol :=
  [(Some (lit "schema_version"), PInt 1);
   (Some (lit "engine"), PMapping [(Some (lit "version"), PStr (lit "1.1.403"));
                                   (Some (lit "cli_entrypoint"), PStr (lit "/opt/pyright/index.js"))]);
   (Some (lit "project"), PMapping [(Some (lit "project_kind"), PStr (lit "configured"));
                                    (Some (lit "selected_config_path"), PStr (lit "/w/pyrightconfig.json"))]);
   (Some (lit "owned_files"), PSequence (PStr <$> owned));
   (Some (lit "owned_file_count"), PInt (Z.of_nat (length owned)));
   (Some (lit "owned_files_sha256"), PStr digest);
   (Some (lit "bundle"), PMapping [])].

Definition attributed (owned : list pystr) (digest : pystr) : res (pyright_exn False) ScopeProjection :=
  attribute_program sha (λ _, []) Ok (λ _ _, false) 100 [] tree (λ _, Ok (PMapping (report owned digest))) cli
    (Path (lit "/w")) [lit "a.py"; lit "b.pyi"] [].

Definition no_evidence : PathSetEvidence := {| ev_paths := []; ev_count := 0; ev_sha256 := [] |}.
Definition projection : ScopeProjection :=
  match attributed names (join_nul names) with
  | Ok pj => pj
  | Err _ => {| pj_language := PYTHON; pj_project_kind := WORKSPACE_DEFAULT; pj_selected_config_path := None;
                pj_trust_inventory := no_evidence; pj_configured_program := no_evidence;
                pj_trusted_not_in_configured_program := []; pj_configured_program_outside_trust := [];
                pj_compatible := false; pj_error := None |}
  end.

Example program_of_the_report :
  ev_paths (pj_configured_program projection) = [lit "a.py"; lit "b.pyi"] ∧ pj_compatible projection = true ∧
  pj_selected_config_path projection = Some (lit "pyrightconfig.json").
Proof. vm_compute. auto. Qed.

Example digest_drift_refused : attributed names (lit "0") = Err PyrightAttributionError.
Proof. vm_compute. reflexivity. Qed.

Example escaped_source_refused :
  let owned := [lit "/w/a.py"; lit "/x/b.py"] in attributed owned (join_nul owned) = Err PyrightAttributionError.
Proof. vm_compute. reflexivity. Qed.

Lemma pyright_program_exact_witness :
  ∃ r ns, PMapping (report names (join_nul names)) = PMapping r ∧ report_names sha (λ _ _, false) r ns ∧
    (∀ p, p ∈ ev_paths (pj_configured_program projection) ↔ ∃ t, t ∈ ns ∧ owned_file (PurePath [cp_slash] [lit "w"]) t p) ∧
    (∀ t, t ∈ ns → python_suffix (path_normpath (Path t)) = true →
       ∃ rel, path_normpath (Path t) = PurePath [cp_slash] ([lit "w"] ++ rel)) ∧
    (pj_compatible projection = true ↔
       ∀ p, p ∈ ev_paths (pj_configured_program projection) → p ∈ ev_paths (pj_trust_inventory projection)).
Proof.
  destruct (pyright_program_exact sha (λ _, []) Ok (λ _ _, false) 100 [] tree
    (λ _, Ok (E:=pyright_exn False) (PMapping (report names (join_nul names)))) cli (Path (lit "/w")) (PurePath [cp_slash] [lit "w"])
    [lit "a.py"; lit "b.pyi"] [] projection) as (r & ns & H & Hrest);
    [vm_compute; reflexivity|vm_compute; reflexivity|].
  exists r, ns. split; [congruence|exact Hrest].
Defined.
End PyrightExamples.
